(* ===== verification/_CoqProject ===== *)
-Q . S2P
Prelude.v
GoStd.v
Base64.v
Token.v
Deployment.v
Queue.v
Route.v
Regex.v
HealthGate.v
Password.v
Schema.v
Evidence.v
Fold.v
DeploymentStore.v
LeaseCore.v
Lease.v
LeaseInv.v
LeaseSteps.v
LeaseSpec.v
Activation.v
Resolution.v
ActivationSteps.v
Enqueue.v
LeaseSystem.v
Scenario.v
LeaseProps.v
OperationProps.v
ClaimProps.v
CallsKeep.v
EndProps.v
JobsKept.v
Webhooks.v
WebhookSteps.v
WebhookSystem.v
WebhookProps.v
Servers.v
ServerProps.v
Aes.v
Crypto.v
Secrets.v
SecretInv.v
SecretService.v
SecretPool.v
SecretProps.v
SecretRotation.v
Plane.v
PlaneSteps.v
PlaneKept.v
PlaneSystem.v
PlaneScenario.v
PlaneProps.v
Matcher.v
Redactor.v
Redaction.v
RedactionWork.v
Hmac.v
AuthTokens.v
AuthTokenProps.v
AuthStore.v
Throttle.v
Sessions.v
AuthInv.v
AuthSystem.v
AuthScenario.v
AuthProps.v
GitHubApp.v
GitHubStore.v
GitHubRepo.v
GitHubChain.v
GitHubSteps.v
GitHubSystem.v
GitHubRuns.v
GitHubInv.v
GitHubSetup.v
GitHubScenario.v
GitHubProps.v
SetupService.v
Checkout.v
CheckoutScenario.v
CheckoutProps.v
