(* ===== verification/Prelude.v ===== *)
(** * AutoDeploy: a verification library of the control plane

    AutoDeploy deploys the branches of GitHub repositories to servers.  A
    control plane (Go, PostgreSQL) receives push webhooks and turns them into
    deployment jobs; an agent on each server claims jobs as fenced leases,
    runs them, switches traffic to the new container and reports the result.
    This library models the parts of the control plane in which a mistake
    deploys the wrong thing, twice, or on the authority of somebody who lost
    it: the lease and webhook repositories, the authority behind a checkout of
    a repository, the administrators' sessions, the secret store and its
    cryptography, and the redactor that keeps secrets out of the logs.

    ** The parts and how they interact

    - The deployment aggregate ([internal/deployment]) is the status machine
      of one deployment; its repository ([internal/store/postgres/
      deployment_repository.go]) persists snapshots and appends events.
    - The queue domain ([internal/queue]) holds jobs, their payload digests,
      retry delays and the lease records handed to agents.
    - The lease repository ([internal/store/postgres/agent_lease_*.go,
      activation_*.go]) is the heart: claim, renew, progress, activate, report
      the activation, complete, cancel, expire, reconcile, declare the outcome
      of a blocked activation, revoke a server.  Every operation is one
      transaction over the jobs, attempts, environment slots,
      activation operations, route heads, deployments and their events.
    - The webhook repository ([webhook_job_repository.go]) receives GitHub's
      deliveries, resolves the binding they concern and creates the job and
      the deployment the lease repository works on.
    - The server repository ([server_repository.go], [internal/server]) enrols
      servers and issues the credentials the lease repository checks.
    - The secret store ([secret_repository.go], [key_repository.go],
      [internal/secret], [internal/crypto]) keeps versions of secrets under
      envelope encryption, rotates their keys and decrypts them for an agent
      whose lease names them.
    - The administrator's repositories ([environment_runtime_config_
      repository.go], [route_head_repository.go]) write the configuration, the
      variable bindings and the host name of an environment, which a claim
      freezes and an activation serves; [AuthorizeMaterialization] joins the
      frozen rows with the secret store.
    - The Traefik documents ([runtime/traefik]) and Docker identifiers
      ([dockerid]) are what an agent writes when it switches traffic; the
      health gate ([healthgate], [runtime/docker/health.go]) decides whether
      it may.
    - The redactor ([internal/crypto/redactor.go]) filters the agent's log
      stream.
    - Authentication ([internal/auth], [auth_repository.go]): passwords,
      session and CSRF tokens, login envelopes, throttled logins, sessions of
      administrators.  Every administrator's operation elsewhere asks it
      whether the session it was given is alive.
    - The GitHub App ([internal/githubapp], [github_repository.go]): an
      administrator sets up an installation of the App, binds projects to its
      repositories, disables and reconciles it.  The webhook repository reads
      the authority this leaves; a checkout reserves it, mints a token of the
      App under it, and gives the token to the agent that has the lease
      ([githubapp/checkout.go], [agent/http/checkout.go]).

    ** Files

    - [Prelude], [GoStd]: instants, machine integers, the state-and-error
      transaction monad with its notation and lemmas; the Go standard library
      functions the source calls ([strings], [strconv], UTF-8, hexadecimal,
      SHA-256, time formatting).
    - [Base64], [Token]: [encoding/base64] raw URL form with strict decoding;
      [internal/server/server.go] and [token.go].
    - [Deployment]: [internal/deployment/deployment.go] and [progress.go].
    - [Queue]: [internal/queue/{job,payload,retry,lease}.go].
    - [Route]: [runtime/traefik], [dockerid], host names.
    - [Regex], [HealthGate]: regular expressions by derivatives, and the
      patterns of [healthgate/validate.go] with them; probe targets, the gate
      loop over an arbitrary container and clock ([runtime/docker/health.go,
      classify.go]).
    - [Schema]: the rows of the SQL migrations with their CHECKs, unique
      indexes, BEFORE triggers and the deferred constraint triggers checked
      at COMMIT; a statement the database refuses is an error value and
      aborts the transaction.
    - [Evidence]: failure summaries and the late-report ledger
      ([activation_late_report.go], [activation_resolution.go]).
    - [DeploymentStore]: [deployment_repository.go].
    - [LeaseCore], [Lease], [Activation], [Resolution]: the lease repository,
      one definition per Go function, whole handlers.
    - [Enqueue]: derived identities and the insertion of a job.
    - [LeaseInv], [LeaseSteps], [ActivationSteps], [LeaseSpec],
      [LeaseSystem]: the database invariant, its preservation by every
      operation, the abstract lease protocol of one environment, its steps
      labelled with what happened to which attempt, and the step relation of
      the whole system (any operation, any argument, at any instant, refused
      or not, plus the administrator's writes to the tables the operations
      only read), with the events each call is permitted.
    - [Scenario]: concrete reachable databases, the inputs of the witnesses.
    - [LeaseProps], [OperationProps], [ClaimProps]: the properties of the
      lease repository.
    - [CallsKeep], [EndProps], [JobsKept]: the interface through which another
      component states that its relation between databases is kept by the
      statements of the lease repository, and so by every call of it; two
      instances: a job whose cancellation was requested stays wedged once it
      waits for a retry; no lease operation creates a job or changes what it
      deploys.
    - [Servers], [ServerProps]: the server repository, its invariant over
      reachable states, and the agreement of its tables with the part of them
      the lease model carries.
    - [Webhooks], [WebhookSteps], [WebhookSystem], [WebhookProps]: the webhook
      repository whole ([webhook_job_repository.go], [github/webhook.go]), the
      cases of its transactions, the system it forms with the lease
      repository and its invariant, and its properties.
    - [Aes], [Crypto]: an executable AES-256-GCM, checked against published
      vectors; scopes, envelopes, the key ring, Encrypt, Decrypt and Rewrap
      ([crypto.go, key_provider.go]).
    - [Secrets], [SecretInv]: the secret and key repositories over the tables
      of migration 000004, and what every call keeps.
    - [SecretService], [SecretPool]: the secret service, the rotator and the
      materialization handler as programs of repository calls; a pool of them
      under any schedule, each call answered, lost, or lost after its commit,
      with the rely-guarantee proof that no secret becomes unrecoverable.
    - [SecretProps], [SecretRotation]: the properties of the secret store.
    - [Plane], [PlaneSteps], [PlaneKept], [PlaneSystem], [PlaneScenario],
      [PlaneProps]: the administrator's repositories and the authorization of
      a materialization, over the lease and the secret tables together; what
      each operation did; the invariant of a plane on which administrators,
      agents and the secret service run at once; a concrete run; its
      properties.
    - [Matcher], [Redactor], [Redaction], [RedactionWork]: the Aho-Corasick
      automaton, the streaming writer, its exactness and its work budget.
    - [Fold], [Password], [Hmac], [AuthTokens], [AuthTokenProps]: case folding;
      the rest of [internal/auth/auth.go]: user names, passwords and verifiers
      with the strict parser of their text form; HMAC-SHA-256 and the tokens,
      origins, envelopes and digests over it, and their properties.
    - [AuthStore], [Throttle], [Sessions]: the tables of migrations 000002 and
      000003, and [auth_repository.go] in two parts.
    - [AuthInv], [AuthSystem], [AuthScenario], [AuthProps]: what every call
      keeps, the system of calls, a concrete run, the properties.
    - [GitHubApp], [GitHubStore], [GitHubRepo]: identities and capabilities
      ([githubapp.go]); the tables of migrations 000005, 000006, 000008 and
      000011 beside those of the authentication and webhook repositories; every
      method of [github_repository.go].
    - [GitHubChain], [GitHubSteps], [GitHubSystem], [GitHubRuns], [GitHubInv],
      [GitHubSetup], [GitHubScenario], [GitHubProps]: the chain of authority
      from a binding to its installation; how rows of the tables move; the
      three repositories as one system; the runs of the administrator's calls,
      the chain in every reachable database and the invariant of setups; a
      concrete run; the properties.
    - [SetupService]: [githubapp/setup.go] and its properties.
    - [Checkout], [CheckoutScenario], [CheckoutProps]: the three checkout
      handlers as threads over the database, the leases in memory and the
      registry; a concrete run; its properties.

    ** State and effects

    The database is a [Record] of [gmap]s, one per table, keyed by primary
    key.  A transaction is a function from the database to an error or a
    result and a new database ([Prelude]'s monad); an error rolls back, so a
    refused call leaves the database as it was, and the deferred triggers are
    run by the commit.  The instants a Go function reads from the clock and
    the random numbers it draws are arguments.  A context cancellation or a
    lost connection is an error of the call and leaves the old database.

    SHA-256 is executable and checked against the published test vectors; a
    theorem that a digest determines its input says so up to a collision of
    the two byte strings it names.  The destination of the redactor is an
    arbitrary sequence of write results.

    ** What the theorems show

    - C1-C6: over every reachable database, mutual exclusion of leases; every
      call moves every environment by at most one step of the abstract lease
      protocol, and one its caller may take; no activation closed but by its
      own report or a declared resolution, no power of a stale attempt, fences
      that never fall and tell holders apart, agreement of job, deployment and
      activation.
    - C7-C8: what a claim grants and what it freezes.
    - C9-C12: whatever runs at once and fails, every stored secret stays
      recoverable as some client submitted it; materialization returns exactly
      that; the store's invariant; a rotation drains the old key.
    - C13-C14: what an agent receives is what was submitted for the versions
      frozen for its live lease; host names are exclusive and stay with live
      traffic.
    - C15-C17: redaction leaks no secret byte run, equals the reference
      redaction and stays within its work budget for few secrets.
    - C18-C21: a pushed commit becomes one job whatever is delivered and
      redelivered; the webhook and lease repositories together run as the
      lease system of C1-C8; the exact answer to a redelivery; lifecycle
      events withdraw authority.
    - C22-C30: a checkout that starts had authority without a gap since it was
      reserved; its token leaves once, for what was authorized; authority
      comes from a live administrator only, is decided by the binding, and
      goes when the installation is disabled, its live checkouts too if the
      installation was still active; setups are used once and only
      for the configured App and account; a running checkout blocks its
      project until it is closed or withdrawn, and an App that was installed
      again cannot be set up again.
    - C31-C36: which tokens are sessions, and what asking changes; a password
      reset ends its user's and nobody else's; the
      throttle tables stay bounded; nine failures lock a user name out; CSRF
      tokens and login envelopes are bound to what they were minted for.
    - C37-C40: server credentials, the deployment aggregate's type, a job
      wedged for good by a cancellation followed by a transient failure, the health
      gate decides in bounded time.

    Beside them the files prove the automaton exact ([Matcher.matcher_exact]),
    digests and derived identities injective, tokens, envelopes and snapshots
    to round trip, renewals, replays and the evidence column exact, the
    tables of the server repository to agree with the lease model's view, a
    captured authority that was withdrawn never to return
    ([GitHubProps.withdrawn_stays_withdrawn]), a reconciliation to leave exactly
    what the provider listed ([GitHubProps.reconcile_exact]), the text form of
    a password verifier to parse exactly ([Password.phc_exact]) and the
    configuration of an environment to lose no update
    ([PlaneProps.config_updates_serialized]).

    ** Bounds and fuel

    Most loops of the modelled source run over a finite list (the candidates
    of a claim, the due attempts of a sweep, the bytes of a text) and are
    structural recursions on it.  Five recursions carry fuel.  The rune scans
    of [GoStd] and [Evidence] have the byte length, and every step drops at
    least one byte.  [sort.Search] has the length of the slice, and the
    interval shrinks each round.  The failure-link walks and the breadth-first
    linking of the automaton have the number of nodes; a link leads to a node
    of smaller depth, and every node is queued once.  [Matcher] proves the
    results exact, so none of these bounds is ever hit early.  The health
    gate's loop polls an arbitrary container; its fuel is one round per probe
    interval of its deadline, and [HealthGate] proves that it decides before.  The redactor's
    own work budget is part of the source and modelled as such
    ([RedactionWork] proves when it suffices).  Integers whose width matters
    (fences, sequence numbers, retry delays) are [Z] with the source's bounds
    and wrap-around written out.

    ** Not modelled, and why

    The web console, the CLI, HTTP handlers and process wiring are glue over
    the repositories.  The Docker runtime, the Traefik host writer, the git
    checkout, the quota and containment services and the agent's executor are
    calls of external systems.  The exchanges with
    GitHub's API, the signing of the App's JWT and the pipe that hands a token
    to git are not modelled: what the provider answered is an argument of the
    steps that ask it.  Argon2id, [url.Parse] and [unicode.ToLower] beyond
    ASCII are parameters.  Cancellation of a checkout's context ([SetCancel])
    only stops a git process and is left out.  No code of the repository disables a
    user, so in the reachable databases of the model every user is active. *)
From stdpp Require Export base list fin_maps gmap strings.
From Stdlib Require Export ZArith Lia.

#[global] Open Scope Z_scope.

#[global] Arguments Z.of_nat : simpl never.
#[global] Arguments Z.eqb : simpl never.
#[global] Arguments Z.ltb : simpl never.
#[global] Arguments Z.leb : simpl never.
#[global] Arguments Z.add : simpl never.
#[global] Arguments Z.sub : simpl never.
#[global] Arguments Z.mul : simpl never.
#[global] Arguments Z.min : simpl never.
#[global] Arguments Z.max : simpl never.

(** ** Go's [time.Time] and machine integers *)

(** An instant is the number of nanoseconds since Go's zero time (1 January
    of year 1, UTC), so [t.IsZero()] is [t = 0] and [Before]/[After]/[Equal]
    are the order and equality of [Z]. *)
Definition nanosecond : Z := 1.
Definition microsecond : Z := 1000.
Definition second : Z := 1000000000.
Definition minute : Z := 60 * second.

(** [t.Truncate(d)]: round down to a multiple of [d] since the zero time. *)
Definition truncate (t d : Z) : Z := t - t mod d.

(** [uint64] arithmetic wraps. *)
Definition u64 (x : Z) : Z := x mod 2 ^ 64.

Lemma truncate_idemp t d : 0 < d → truncate (truncate t d) d = truncate t d.
Proof.
  intros Hd. unfold truncate.
  replace ((t - t mod d) mod d) with 0; [lia|].
  symmetry. apply Z.mod_divide; [lia|]. exists (t / d).
  pose proof (Z.div_mod t d). lia.
Qed.

Lemma truncate_le t d : 0 < d → truncate t d ≤ t.
Proof. intros Hd. unfold truncate. pose proof (Z.mod_pos_bound t d Hd). lia. Qed.

Lemma truncate_mono a b d : 0 < d → a ≤ b → truncate a d ≤ truncate b d.
Proof.
  intros Hd Hab. unfold truncate.
  assert (a - a mod d = d * (a / d)) as -> by (pose proof (Z.div_mod a d); lia).
  assert (b - b mod d = d * (b / d)) as -> by (pose proof (Z.div_mod b d); lia).
  pose proof (Z.div_le_mono a b d Hd Hab). nia.
Qed.

Lemma u64_small x : 0 ≤ x < 2 ^ 64 → u64 x = x.
Proof. intros. by apply Z.mod_small. Qed.

(** ** Database transactions

    A repository method runs in one PostgreSQL transaction and returns a Go
    error or a value.  [Tx S E A] is such a body over the durable state [S]:
    it reads and writes a private copy of the state and either fails (the
    deferred [tx.Rollback] then discards everything) or yields a value with
    the state to commit. *)
Definition Tx (S E A : Type) : Type := S → E + A * S.

Section tx.
Context {S E : Type}.

Definition tx_ret {A} (a : A) : Tx S E A := λ s, inr (a, s).
Definition tx_fail {A} (e : E) : Tx S E A := λ _, inl e.
Definition tx_bind {A B} (m : Tx S E A) (k : A → Tx S E B) : Tx S E B := λ s,
  match m s with
  | inl e => inl e
  | inr (a, s') => k a s'
  end.
Definition tx_read {A} (f : S → A) : Tx S E A := λ s, inr (f s, s).
Definition tx_write (f : S → S) : Tx S E unit := λ s, inr (tt, f s).

(** [if cond { return err }] *)
Definition tx_guard (ok : bool) (e : E) : Tx S E unit :=
  if ok then tx_ret tt else tx_fail e.

(** [QueryRow(...).Scan]: fails with [e] when the query has no row. *)
Definition tx_some {A} (f : S → option A) (e : E) : Tx S E A := λ s,
  match f s with
  | Some a => inr (a, s)
  | None => inl e
  end.

(** Begin, run, and commit or roll back. *)
Definition run_tx {A} (m : Tx S E A) (s : S) : (E + A) * S :=
  match m s with
  | inl e => (inl e, s)
  | inr (a, s') => (inr a, s')
  end.

Lemma tx_bind_inv {A B} (m : Tx S E A) (k : A → Tx S E B) s b s'' :
  tx_bind m k s = inr (b, s'') ↔
  ∃ a s', m s = inr (a, s') ∧ k a s' = inr (b, s'').
Proof. unfold tx_bind. destruct (m s) as [|[]]; naive_solver. Qed.

Lemma tx_guard_inv ok e s u s' :
  tx_guard ok e s = inr (u, s') ↔ ok = true ∧ s' = s.
Proof. unfold tx_guard, tx_ret, tx_fail. destruct ok, u; naive_solver. Qed.

Lemma tx_some_inv {A} (f : S → option A) e s a s' :
  tx_some f e s = inr (a, s') ↔ f s = Some a ∧ s' = s.
Proof. unfold tx_some. destruct (f s); naive_solver. Qed.

Lemma tx_ret_inv {A} (a b : A) s s' :
  tx_ret a s = inr (b, s') ↔ a = b ∧ s' = s.
Proof. unfold tx_ret. naive_solver. Qed.

Lemma tx_read_inv {A} (f : S → A) b s s' :
  tx_read f s = inr (b, s') ↔ f s = b ∧ s' = s.
Proof. unfold tx_read. naive_solver. Qed.

Lemma tx_write_inv f u s s' : tx_write f s = inr (u, s') ↔ s' = f s.
Proof. unfold tx_write. destruct u; naive_solver. Qed.

Lemma tx_fail_inv {A} e s (a : A) s' : tx_fail e s = inr (a, s') ↔ False.
Proof. unfold tx_fail. naive_solver. Qed.

(** A body keeps [P] when every commit it reaches keeps it. *)
Definition tx_preserves {A} (P : S → Prop) (m : Tx S E A) : Prop :=
  ∀ s a s', P s → m s = inr (a, s') → P s'.

Lemma run_tx_preserves {A} (P : S → Prop) (m : Tx S E A) s :
  tx_preserves P m → P s → P (run_tx m s).2.
Proof.
  intros Hm HP. unfold run_tx. destruct (m s) as [e|[a s']] eqn:E1; simpl; [done|].
  by eapply Hm.
Qed.

Lemma run_tx_inl {A} (m : Tx S E A) s e : m s = inl e → run_tx m s = (inl e, s).
Proof. unfold run_tx. by intros ->. Qed.

Lemma run_tx_inr {A} (m : Tx S E A) s a s' : m s = inr (a, s') → run_tx m s = (inr a, s').
Proof. unfold run_tx. by intros ->. Qed.
End tx.

Declare Scope tx_scope.
Delimit Scope tx_scope with tx.
Notation "'let!' x ':=' m 'in' k" := (tx_bind m (λ x, k))
  (at level 10, x pattern, m at level 100, k at level 200) : tx_scope.
Notation "'do!' m 'in' k" := (tx_bind m (λ _, k))
  (at level 10, m at level 100, k at level 200) : tx_scope.
#[global] Open Scope tx_scope.

(** Turn [body s = inr (a, s')] into the facts its successful run implies. *)
Ltac tx_inv_step :=
  match goal with
  | H : tx_bind _ _ _ = inr (_, _) |- _ =>
      let a := fresh "v" in let s := fresh "s" in let Hm := fresh "Hm" in
      apply tx_bind_inv in H as (a & s & Hm & H)
  | H : tx_guard _ _ _ = inr (_, _) |- _ => apply tx_guard_inv in H as [H ->]
  | H : tx_some _ _ _ = inr (_, _) |- _ => apply tx_some_inv in H as [H ->]
  | H : tx_ret _ _ = inr (_, _) |- _ =>
      first [apply tx_ret_inv in H as [<- ->] | apply tx_ret_inv in H as [H ->]; simplify_eq]
  | H : tx_read _ _ = inr (_, _) |- _ => apply tx_read_inv in H as [<- ->]
  | H : tx_write _ _ = inr (_, _) |- _ => apply tx_write_inv in H as ->
  | H : tx_fail _ _ = inr (_, _) |- _ => by apply tx_fail_inv in H
  end.
Ltac tx_inv := repeat (tx_inv_step; cbn beta iota in * ).

(** ** Relations a transaction keeps

    [tx_rel R m]: every commit [m] reaches is [R]-related to the state it
    started from.  For a preorder [R] this is compositional, so the tactic
    [tx_rel] reduces it to the statements of the body, which the hint database
    [txrel] knows. *)
Definition tx_rel {S E A} (R : S → S → Prop) (m : Tx S E A) : Prop := ∀ s a s', m s = inr (a, s') → R s s'.

Section tx_rel.
Context {S E : Type} (R : S → S → Prop) `{!PreOrder R}.

Lemma tx_rel_ret {A} (x : A) : tx_rel (E := E) R (tx_ret x).
Proof. intros s y s' [_ ->]%tx_ret_inv. reflexivity. Qed.
Lemma tx_rel_fail {A} (e : E) : tx_rel R (tx_fail (A := A) e).
Proof. by intros s y s' ?%tx_fail_inv. Qed.
Lemma tx_rel_guard b (e : E) : tx_rel R (tx_guard b e).
Proof. intros s y s' [_ ->]%tx_guard_inv. reflexivity. Qed.
Lemma tx_rel_some {A} (f : S → option A) (e : E) : tx_rel R (tx_some f e).
Proof. intros s y s' [_ ->]%tx_some_inv. reflexivity. Qed.
Lemma tx_rel_read {A} (f : S → A) : tx_rel (E := E) R (tx_read f).
Proof. intros s y s' [_ ->]%tx_read_inv. reflexivity. Qed.
Lemma tx_rel_write f : (∀ s, R s (f s)) → tx_rel (E := E) R (tx_write f).
Proof. by intros Hf s y s' ->%tx_write_inv. Qed.
Lemma tx_rel_bind {A B} (m : Tx S E A) (k : A → Tx S E B) :
  tx_rel R m → (∀ x, tx_rel R (k x)) → tx_rel R (tx_bind m k).
Proof. intros Hm Hk s y s' (x&s1&H1&H2)%tx_bind_inv. transitivity s1; [by eapply Hm|by eapply Hk]. Qed.
End tx_rel.

Create HintDb txrel.
#[export] Hint Resolve tx_rel_ret tx_rel_fail tx_rel_guard tx_rel_some tx_rel_read : txrel.
Ltac tx_rel := repeat first
  [ progress intros
  | solve [auto with txrel typeclass_instances]
  | match goal with |- tx_rel _ (tx_bind _ _) => apply tx_rel_bind; [apply _|..] end
  | case_match ].

(** ** Booleans of the guards *)
Ltac bool_hyps :=
  repeat match goal with
  | H : _ && _ = true |- _ => apply andb_true_iff in H as [? ?]
  | H : _ || _ = false |- _ => apply orb_false_iff in H as [? ?]
  | H : negb _ = true |- _ => apply negb_true_iff in H
  | H : negb _ = false |- _ => apply negb_false_iff in H
  | H : bool_decide _ = true |- _ => apply bool_decide_eq_true in H
  | H : bool_decide _ = false |- _ => apply bool_decide_eq_false in H
  | H : (_ <? _) = true |- _ => apply Z.ltb_lt in H
  | H : (_ <? _) = false |- _ => apply Z.ltb_ge in H
  | H : (_ <=? _) = true |- _ => apply Z.leb_le in H
  | H : (_ <=? _) = false |- _ => apply Z.leb_gt in H
  | H : (_ =? _) = true |- _ => apply Z.eqb_eq in H
  | H : (_ =? _) = false |- _ => apply Z.eqb_neq in H
  end.
