(* ===== verification/GoStd.v ===== *)
(** * The parts of Go's standard library the modelled packages call

    Go strings are byte strings: [string] with [ascii] characters as bytes.
    [strings], [strconv], [unicode/utf8], [encoding/hex], [crypto/sha256] and
    [time.Format] as used under src/internal. *)
From S2P Require Import Prelude.
From stdpp Require Import pretty.
From Stdlib Require Import Ascii.
#[local] Open Scope Z_scope.

Definition byte_of (c : ascii) : Z := Z.of_N (N_of_ascii c).
Definition ascii_of_byte (b : Z) : ascii := ascii_of_N (Z.to_N (b mod 256)).

(** [len(s)] *)
Definition slen (s : string) : Z := Z.of_nat (String.length s).

(** ** strings *)

Fixpoint HasPrefix (s prefix : string) : bool :=
  match prefix, s with
  | EmptyString, _ => true
  | String p ps, String c cs => Ascii.eqb p c && HasPrefix cs ps
  | String _ _, EmptyString => false
  end.

Fixpoint Contains (s sub : string) : bool :=
  HasPrefix s sub ||
  match s with EmptyString => false | String _ r => Contains r sub end.

Fixpoint HasSuffix (s suffix : string) : bool :=
  bool_decide (s = suffix) ||
  match s with EmptyString => false | String _ r => HasSuffix r suffix end.

(** [strings.TrimPrefix]: drop the prefix when it is there. *)
Fixpoint dropBytes (n : nat) (s : string) : string :=
  match n, s with
  | S n', String _ r => dropBytes n' r
  | _, _ => s
  end.
Fixpoint takeBytes (n : nat) (s : string) : string :=
  match n, s with
  | S n', String c r => String c (takeBytes n' r)
  | _, _ => EmptyString
  end.
Definition TrimPrefix (s prefix : string) : string :=
  if HasPrefix s prefix then dropBytes (String.length prefix) s else s.

(** [strings.Split] on a one-byte separator. *)
Fixpoint SplitByte (sep : ascii) (s : string) : list string :=
  match s with
  | EmptyString => [EmptyString]
  | String c r =>
      if Ascii.eqb c sep then EmptyString :: SplitByte sep r
      else match SplitByte sep r with
           | [] => [String c EmptyString]
           | x :: xs => String c x :: xs
           end
  end.

Fixpoint forallBytes (f : Z → bool) (s : string) : bool :=
  match s with
  | EmptyString => true
  | String c r => f (byte_of c) && forallBytes f r
  end.

Definition ContainsByte (s : string) (b : Z) : bool := negb (forallBytes (λ x, negb (x =? b)) s).

(** ** strconv *)

(** [strconv.FormatInt(n, 10)] *)
Definition FormatInt (n : Z) : string := pretty n.

(** ** unicode/utf8 *)

Definition cont (c : ascii) : bool := (128 <=? byte_of c) && (byte_of c <=? 191).
Definition inRange (lo hi : Z) (c : ascii) : bool := (lo <=? byte_of c) && (byte_of c <=? hi).

(** The accept ranges of a multi-byte sequence's second byte (Go's [first]
    and [acceptRanges] tables), with the sequence's length. *)
Definition runeHeader (b : Z) : option (nat * Z * Z) :=
  if (194 <=? b) && (b <=? 223) then Some (2%nat, 128, 191)
  else if b =? 224 then Some (3%nat, 160, 191)
  else if b =? 237 then Some (3%nat, 128, 159)
  else if (225 <=? b) && (b <=? 239) then Some (3%nat, 128, 191)
  else if b =? 240 then Some (4%nat, 144, 191)
  else if (241 <=? b) && (b <=? 243) then Some (4%nat, 128, 191)
  else if b =? 244 then Some (4%nat, 128, 143)
  else None.

(** Length in bytes of the valid rune at the head of [s], or [None]. *)
Definition runeLen (s : string) : option nat :=
  match s with
  | EmptyString => None
  | String c0 r0 =>
      if byte_of c0 <? 128 then Some 1%nat
      else match runeHeader (byte_of c0), r0 with
      | Some (2%nat, lo, hi), String c1 _ => if inRange lo hi c1 then Some 2%nat else None
      | Some (3%nat, lo, hi), String c1 (String c2 _) =>
          if inRange lo hi c1 && cont c2 then Some 3%nat else None
      | Some (4%nat, lo, hi), String c1 (String c2 (String c3 _)) =>
          if inRange lo hi c1 && cont c2 && cont c3 then Some 4%nat else None
      | _, _ => None
      end
  end.

(** [utf8.ValidString]; the fuel is the byte length, enough because every
    iteration consumes at least one byte. *)
Fixpoint validStringFuel (fuel : nat) (s : string) : bool :=
  match s, fuel with
  | EmptyString, _ => true
  | _, O => false
  | _, S fuel' =>
      match runeLen s with
      | Some n => validStringFuel fuel' (dropBytes n s)
      | None => false
      end
  end.
Definition ValidString (s : string) : bool := validStringFuel (String.length s) s.

(** [utf8.RuneStart]: not a continuation byte. *)
Definition RuneStart (c : ascii) : bool := negb (cont c).

(** ** encoding/hex *)

Definition hexDigit (n : Z) : ascii :=
  if n <? 10 then ascii_of_byte (48 + n) else ascii_of_byte (87 + n).
Fixpoint EncodeToString (s : string) : string :=
  match s with
  | EmptyString => EmptyString
  | String c r =>
      String (hexDigit (byte_of c / 16)) (String (hexDigit (byte_of c mod 16)) (EncodeToString r))
  end.

(** ** crypto/sha256 (FIPS 180-4) *)
Module Sha256.

Definition w32 (x : Z) : Z := x mod 2 ^ 32.
Definition rotr (x n : Z) : Z := Z.lor (Z.shiftr x n) (w32 (Z.shiftl x (32 - n))).
Definition Ch (x y z : Z) : Z := Z.lxor (Z.land x y) (Z.land (Z.lxor x (2 ^ 32 - 1)) z).
Definition Maj (x y z : Z) : Z := Z.lxor (Z.land x y) (Z.lxor (Z.land x z) (Z.land y z)).
Definition S0 (x : Z) : Z := Z.lxor (rotr x 2) (Z.lxor (rotr x 13) (rotr x 22)).
Definition S1 (x : Z) : Z := Z.lxor (rotr x 6) (Z.lxor (rotr x 11) (rotr x 25)).
Definition s0 (x : Z) : Z := Z.lxor (rotr x 7) (Z.lxor (rotr x 18) (Z.shiftr x 3)).
Definition s1 (x : Z) : Z := Z.lxor (rotr x 17) (Z.lxor (rotr x 19) (Z.shiftr x 10)).

(** The standard defines the round constants as the first 32 bits of the
    fractional parts of the cube roots of the first 64 primes, and the initial
    state likewise from the square roots of the first eight. *)
Definition primes : list Z :=
  List.filter (λ n, forallb (λ k, negb (n mod k =? 0) || (n =? k)) (seqZ 2 18)) (seqZ 2 310).

(** The integer cube root of [n], one bit at a time from the top. *)
Fixpoint cubeRoot (bits : nat) (n root : Z) : Z :=
  match bits with
  | O => root
  | S b => let t := root + 2 ^ Z.of_nat b in cubeRoot b n (if t * t * t <=? n then t else root)
  end.

Definition K : list Z := Eval vm_compute in (λ p, w32 (cubeRoot 40 (p * 2 ^ 96) 0)) <$> primes.
Definition H0 : list Z := Eval vm_compute in (λ p, w32 (Z.sqrt (p * 2 ^ 64))) <$> take 8 primes.

(** The message schedule: the sixteen words of a block, newest first, extended
    [n] times. *)
Fixpoint extend (n : nat) (ws : list Z) : list Z :=
  match n with
  | O => ws
  | S n' =>
      let w := w32 (s1 (nth 1 ws 0) + nth 6 ws 0 + s0 (nth 14 ws 0) + nth 15 ws 0) in
      extend n' (w :: ws)
  end.

Definition round (h : list Z) (kw : Z * Z) : list Z :=
  match h with
  | [a; b; c; d; e; f; g; hh] =>
      let t1 := w32 (hh + S1 e + Ch e f g + kw.1 + kw.2) in
      let t2 := w32 (S0 a + Maj a b c) in
      [w32 (t1 + t2); a; b; c; w32 (d + t1); e; f; g]
  | _ => h
  end.

Definition compress (h : list Z) (block : list Z) : list Z :=
  let ws := rev (extend 48 (rev block)) in
  zip_with (λ x y, w32 (x + y)) h (fold_left round (zip K ws) h).

Fixpoint words (bs : list Z) : list Z :=
  match bs with
  | a :: b :: c :: d :: r => (a * 2 ^ 24 + b * 2 ^ 16 + c * 2 ^ 8 + d) :: words r
  | _ => []
  end.

Fixpoint blocks (n : nat) (ws : list Z) : list (list Z) :=
  match n with O => [] | S n' => take 16 ws :: blocks n' (drop 16 ws) end.

Fixpoint bytesBE (n : nat) (x : Z) : list Z :=
  match n with O => [] | S n' => (x / 2 ^ (8 * Z.of_nat n')) mod 256 :: bytesBE n' x end.

Definition pad (bs : list Z) : list Z :=
  let n := length bs in
  let z := Z.to_nat ((55 - Z.of_nat n) mod 64) in
  bs ++ [128] ++ replicate z 0 ++ bytesBE 8 (8 * Z.of_nat n).

Fixpoint bytes_of_string (s : string) : list Z :=
  match s with EmptyString => [] | String c r => byte_of c :: bytes_of_string r end.
Fixpoint string_of_bytes (l : list Z) : string :=
  match l with [] => EmptyString | b :: r => String (ascii_of_byte b) (string_of_bytes r) end.

(** [sha256.Sum256] *)
Definition Sum256 (s : string) : string :=
  let ws := words (pad (bytes_of_string s)) in
  let h := fold_left compress (blocks (length ws / 16) ws) H0 in
  string_of_bytes (mjoin (bytesBE 4 <$> h)).

End Sha256.
Definition Sum256 : string → string := Sha256.Sum256.

(** ** time.Format(time.RFC3339Nano) of a UTC instant *)

Fixpoint padLeft (width : nat) (s : string) : string :=
  match width with
  | O => s
  | S w => if (String.length s <? width)%nat then padLeft w (String "0" s) else s
  end.
Definition pad2 (n : Z) : string := padLeft 2 (FormatInt n).

(** Proleptic Gregorian date of a day count since 1 January of year 1. *)
Definition civil (days : Z) : Z * Z * Z :=
  let z := days + 306 in
  let era := z / 146097 in
  let doe := z mod 146097 in
  let yoe := (doe - doe / 1460 + doe / 36524 - doe / 146096) / 365 in
  let doy := doe - (365 * yoe + yoe / 4 - yoe / 100) in
  let mp := (5 * doy + 2) / 153 in
  let d := doy - (153 * mp + 2) / 5 + 1 in
  let m := if mp <? 10 then mp + 3 else mp - 9 in
  (yoe + era * 400 + (if m <=? 2 then 1 else 0), m, d).

(** The [.999999999] verb: nine digits with trailing zeros removed, nothing
    for a whole second. *)
Fixpoint trimTrailingZeros (s : string) : string :=
  match s with
  | EmptyString => EmptyString
  | String c r =>
      match trimTrailingZeros r with
      | EmptyString => if Ascii.eqb c "0" then EmptyString else String c EmptyString
      | r' => String c r'
      end
  end.

Definition FormatRFC3339Nano (t : Z) : string :=
  let secs := t / second in
  let '(y, m, d) := civil (secs / 86400) in
  let frac := trimTrailingZeros (padLeft 9 (FormatInt (t mod second))) in
  padLeft 4 (FormatInt y) +:+ "-" +:+ pad2 m +:+ "-" +:+ pad2 d +:+ "T"
  +:+ pad2 ((secs mod 86400) / 3600) +:+ ":" +:+ pad2 ((secs mod 3600) / 60)
  +:+ ":" +:+ pad2 (secs mod 60)
  +:+ (if bool_decide (frac = "") then "" else "." +:+ frac) +:+ "Z".

(** ** Checks against published values *)

Example sha256_empty :
  EncodeToString (Sum256 "") = "e3b0c44298fc1c149afbf4c8996fb92427ae41e4649b934ca495991b7852b855".
Proof. vm_compute. reflexivity. Qed.

Example sha256_abc :
  EncodeToString (Sum256 "abc") = "ba7816bf8f01cfea414140de5dae2223b00361a396177a9cb410ff61f20015ad".
Proof. vm_compute. reflexivity. Qed.

Example sha256_two_blocks :
  EncodeToString (Sum256 "abcdbcdecdefdefgefghfghighijhijkijkljklmklmnlmnomnopnopq")
  = "248d6a61d20638b8e5c026930c3e6039a33ce45964ff2167f6ecedd419db06c1".
Proof. vm_compute. reflexivity. Qed.

Example rfc3339_unix_epoch :
  FormatRFC3339Nano (719162 * 86400 * second + 1500000000) = "1970-01-01T00:00:01.5Z".
Proof. vm_compute. reflexivity. Qed.

Example rfc3339_leap_day :
  FormatRFC3339Nano ((719162 + 11016) * 86400 * second) = "2000-02-29T00:00:00Z".
Proof. vm_compute. reflexivity. Qed.

(** ** Lemmas on byte strings *)

Lemma length_string_app a b : String.length (a +:+ b) = (String.length a + String.length b)%nat.
Proof. induction a as [|c a IH]; [done|]. simpl. f_equal. exact IH. Qed.

Lemma slen_app a b : slen (a +:+ b) = slen a + slen b.
Proof. unfold slen. rewrite length_string_app. lia. Qed.

Lemma slen_nonneg s : 0 ≤ slen s.
Proof. unfold slen. lia. Qed.

Lemma app_inj_length a b x y :
  String.length a = String.length b → a +:+ x = b +:+ y → a = b ∧ x = y.
Proof.
  revert b. induction a as [|c a IH]; intros [|c' b]; simpl; try done.
  intros [= Hl] [= -> H]. by destruct (IH b Hl H) as [-> ->].
Qed.

(** Two byte strings with no [sep] followed by [sep] split at the same place. *)
Lemma app_sep_inj sep a b x y :
  ContainsByte a (byte_of sep) = false → ContainsByte b (byte_of sep) = false →
  a +:+ String sep x = b +:+ String sep y → a = b ∧ x = y.
Proof.
  unfold ContainsByte. rewrite !negb_false_iff. revert b.
  induction a as [|c a IH]; intros [|c' b]; simpl.
  - naive_solver.
  - intros _ H [= <- _]. by rewrite Z.eqb_refl in H.
  - intros H _ [= -> _]. by rewrite Z.eqb_refl in H.
  - intros [_ Ha]%andb_prop [_ Hb]%andb_prop [= -> H]. by destruct (IH b Ha Hb H) as [-> ->].
Qed.

Lemma string_app_assoc (a b c : string) : (a +:+ b) +:+ c = a +:+ b +:+ c.
Proof. induction a as [|x a IH]; [done|]. exact (f_equal (String x) IH). Qed.

Lemma string_app_cons c (a b : string) : String c a +:+ b = String c (a +:+ b).
Proof. done. Qed.

Lemma app_inj_l (a x y : string) : a +:+ x = a +:+ y → x = y.
Proof. induction a as [|c a IH]; [done|]. rewrite !string_app_cons. intros [= H]. by apply IH. Qed.

Lemma string_app_nil (a : string) : a +:+ "" = a.
Proof. induction a as [|c a IH]; [done|]. rewrite string_app_cons. by rewrite IH. Qed.

Lemma takeBytes_app r s : takeBytes (String.length r) (r +:+ s) = r.
Proof. induction r as [|c r IH]; [by destruct s|]. rewrite string_app_cons. simpl. by rewrite IH. Qed.

Lemma dropBytes_app r s : dropBytes (String.length r) (r +:+ s) = s.
Proof. induction r as [|c r IH]; [done|]. rewrite string_app_cons. simpl. by rewrite IH. Qed.

Lemma takeBytes_app_ge k r s :
  (String.length r ≤ k)%nat → takeBytes k (r +:+ s) = r +:+ takeBytes (k - String.length r) s.
Proof.
  revert k. induction r as [|c r IH]; intros k Hk; simpl in *; [by rewrite Nat.sub_0_r|].
  rewrite !string_app_cons. destruct k as [|k]; [lia|]. simpl. by rewrite IH by lia.
Qed.

Lemma get_app_ge k r s :
  (String.length r ≤ k)%nat → String.get k (r +:+ s) = String.get (k - String.length r) s.
Proof.
  revert k. induction r as [|c r IH]; intros k Hk; [by rewrite Nat.sub_0_r|].
  simpl in Hk. destruct k as [|k]; [lia|]. exact (IH k ltac:(lia)).
Qed.

Lemma get_app_lt k r s : (k < String.length r)%nat → String.get k (r +:+ s) = String.get k r.
Proof.
  revert k. induction r as [|c r IH]; intros k Hk; [simpl in Hk; lia|].
  simpl in Hk. destruct k as [|k]; [done|]. exact (IH k ltac:(lia)).
Qed.

(** A digest is 32 bytes. *)
Lemma Sum256_length s : String.length (Sum256 s) = 32%nat.
Proof.
  assert (∀ l, String.length (Sha256.string_of_bytes l) = length l) as Hs by (intros l; induction l; simpl; auto).
  assert (∀ n x, length (Sha256.bytesBE n x) = n) as Hb by (intros n x; induction n; simpl; auto).
  assert (∀ kws h, length h = 8%nat → length (fold_left Sha256.round kws h) = 8%nat) as Hr.
  { induction kws as [|kw kws IH]; intros h Hh; [done|]. apply IH.
    do 9 (destruct h as [|? h]; try done). }
  assert (∀ bs h, length h = 8%nat → length (fold_left Sha256.compress bs h) = 8%nat) as Hc.
  { induction bs as [|b bs IH]; intros h Hh; [done|]. apply IH.
    unfold Sha256.compress. rewrite length_zip_with, Hr, Hh by done. done. }
  unfold Sum256, Sha256.Sum256. rewrite Hs.
  assert (∀ h, length (mjoin (Sha256.bytesBE 4 <$> h)) = (4 * length h)%nat) as Hm.
  { induction h as [|x h IH]; [done|]. rewrite fmap_cons. etrans; [apply length_app|]. rewrite Hb.
    etrans; [exact (f_equal (Nat.add 4) IH)|]. simpl. lia. }
  rewrite Hm, Hc by done. done.
Qed.

Lemma HasPrefix_app s p : HasPrefix s p = true ↔ ∃ r, s = p +:+ r.
Proof.
  revert s. induction p as [|c p IH]; intros s; simpl.
  - split; [intros _; by exists s|]. by destruct s.
  - destruct s as [|c' s]; simpl; [split; [done|naive_solver]|].
    rewrite andb_true_iff, Ascii.eqb_eq, IH. split.
    + intros [-> [r ->]]. by exists r.
    + intros [r [= -> ->]]. split; [done|]. by exists r.
Qed.

Lemma Contains_spec s sub : Contains s sub = true ↔ ∃ a b, s = a +:+ sub +:+ b.
Proof.
  induction s as [|c s IH]; cbn [Contains]; rewrite orb_true_iff, HasPrefix_app.
  - split.
    + intros [[r Hr]|?]; [|done]. by exists "", r.
    + intros ([|c a] & b & H); [left; by exists b|done].
  - rewrite IH. split.
    + intros [[r Hr]|(a & b & ->)]; [exists "", r; done|exists (String c a), b; done].
    + intros ([|c' a] & b & H); simpl in H; [left; by exists b|].
      right. exists a, b. by injection H.
Qed.

Lemma takeBytes_dropBytes n s : takeBytes n s +:+ dropBytes n s = s.
Proof.
  revert s. induction n as [|n IH]; intros [|c s]; simpl; [done..|].
  exact (f_equal (String c) (IH s)).
Qed.

Lemma length_takeBytes n s : String.length (takeBytes n s) = min n (String.length s).
Proof. revert s. induction n; intros [|c s]; simpl; [done..|]. by rewrite IHn. Qed.

Lemma forallBytes_app f a b : forallBytes f (a +:+ b) = forallBytes f a && forallBytes f b.
Proof.
  induction a as [|c a IH]; [done|].
  change (f (byte_of c) && forallBytes f (a +:+ b) = f (byte_of c) && forallBytes f a && forallBytes f b).
  by rewrite IH, andb_assoc.
Qed.

(** Decimal integers contain only digits and a minus sign. *)
Definition decimalByte (b : Z) : bool := (48 <=? b) && (b <=? 57) || (b =? 45).

Lemma pretty_N_go_decimal x s :
  forallBytes decimalByte s = true → forallBytes decimalByte (pretty_N_go x s) = true.
Proof.
  revert s. induction (N.lt_wf_0 x) as [x _ IH]; intros s Hs.
  assert (x = 0 ∨ 0 < x)%N as [->|Hx] by lia; [done|].
  rewrite pretty_N_go_step by done. apply IH; [by apply N.div_lt|].
  simpl. rewrite Hs. unfold pretty_N_char. by repeat case_match.
Qed.

Lemma FormatInt_decimal n : forallBytes decimalByte (FormatInt n) = true.
Proof.
  assert (∀ p, forallBytes decimalByte (pretty (N.pos p)) = true) as Hp.
  { intros p. unfold pretty, pretty_N. case_decide; [done|]. by apply pretty_N_go_decimal. }
  destruct n; [done|apply Hp|]. exact (Hp p).
Qed.

Lemma FormatInt_no_colon n : ContainsByte (FormatInt n) (byte_of ":") = false.
Proof.
  unfold ContainsByte. rewrite negb_false_iff. pose proof (FormatInt_decimal n) as H.
  induction (FormatInt n) as [|c s IH]; [done|]. simpl in *. apply andb_prop in H as [Hc H].
  rewrite (IH H), andb_true_r. apply negb_true_iff, Z.eqb_neq. intros E. by rewrite E in Hc.
Qed.

#[global] Instance FormatInt_inj : Inj (=) (=) FormatInt.
Proof. unfold FormatInt. apply _. Qed.
