(* ===== verification/Base64.v ===== *)
(** * encoding/base64

    Standard and URL alphabets, with and without padding, and the lenient
    decoder Go uses for unpadded input: carriage returns and line feeds are
    skipped and the unused low bits of a last partial group are ignored, so
    several texts decode to the same bytes. *)
From S2P Require Import Prelude GoStd.
From Stdlib Require Import Ascii.
#[local] Open Scope Z_scope.

(** Three bytes make four sextets; one or two left over make two or three. *)
Fixpoint sextets (bs : list Z) : list Z :=
  match bs with
  | [] => []
  | [a] => [a / 4; a mod 4 * 16]
  | [a; b] => [a / 4; a mod 4 * 16 + b / 16; b mod 16 * 4]
  | a :: b :: c :: r => a / 4 :: a mod 4 * 16 + b / 16 :: b mod 16 * 4 + c / 64 :: c mod 64 :: sextets r
  end.

Definition stdAlphabet (i : Z) : Z :=
  if i <? 26 then 65 + i else if i <? 52 then 71 + i else if i <? 62 then i - 4 else if i =? 62 then 43 else 47.
Definition urlAlphabet (i : Z) : Z :=
  if i <? 26 then 65 + i else if i <? 52 then 71 + i else if i <? 62 then i - 4 else if i =? 62 then 45 else 95.

Fixpoint padding (bs : list Z) : list Z :=
  match bs with [] => [] | [_] => [61; 61] | [_; _] => [61] | _ :: _ :: _ :: r => padding r end.

Definition base64Encode (alphabet : Z → Z) (padded : bool) (bs : list Z) : list Z :=
  (alphabet <$> sextets bs) ++ (if padded then padding bs else []).

(** [decodeMap] of an alphabet whose last two characters are given *)
Definition sextetOf (c62 c63 c : Z) : option Z :=
  if (65 <=? c) && (c <=? 90) then Some (c - 65) else if (97 <=? c) && (c <=? 122) then Some (c - 71)
  else if (48 <=? c) && (c <=? 57) then Some (c + 4) else if c =? c62 then Some 62 else if c =? c63 then Some 63 else None.
Definition urlSextet : Z → option Z := sextetOf 45 95.
Definition stdSextet : Z → option Z := sextetOf 43 47.

Fixpoint ungroup (xs : list Z) : option (list Z) :=
  match xs with
  | [] => Some []
  | [_] => None
  | [a; b] => Some [a * 4 + b / 16]
  | [a; b; c] => Some [a * 4 + b / 16; b mod 16 * 16 + c / 4]
  | a :: b :: c :: d :: r => bs ← ungroup r; Some (a * 4 + b / 16 :: b mod 16 * 16 + c / 4 :: c mod 4 * 64 + d :: bs)
  end.

Definition newline (c : Z) : Prop := c = 10 ∨ c = 13.

Definition rawDecode (sextet : Z → option Z) (cs : list Z) : option (list Z) :=
  xs ← mapM sextet (filter (λ c, ¬ newline c) cs); ungroup xs.
Definition rawEncodeToString (alphabet : Z → Z) (s : string) : string :=
  Sha256.string_of_bytes (base64Encode alphabet false (Sha256.bytes_of_string s)).
Definition rawDecodeString (sextet : Z → option Z) (s : string) : option string :=
  Sha256.string_of_bytes <$> rawDecode sextet (Sha256.bytes_of_string s).

(** [base64.RawURLEncoding] and [base64.RawStdEncoding] on strings *)
Definition RawURLEncodeToString : string → string := rawEncodeToString urlAlphabet.
Definition RawURLDecodeString : string → option string := rawDecodeString urlSextet.
Definition RawStdEncodeToString : string → string := rawEncodeToString stdAlphabet.
Definition RawStdDecodeString : string → option string := rawDecodeString stdSextet.

(** ** Lemmas *)

Lemma list_ind3 {A} (P : list A → Prop) :
  P [] → (∀ a, P [a]) → (∀ a b, P [a; b]) → (∀ a b c r, P r → P (a :: b :: c :: r)) → ∀ l, P l.
Proof.
  intros H0 H1 H2 H3 l. induction l as [l IH] using (induction_ltof1 _ length).
  destruct l as [|a [|b [|c r]]]; auto. apply H3, IH. unfold ltof. simpl. lia.
Qed.

Definition byteOk (b : Z) : Prop := 0 ≤ b < 256.
#[global] Instance byteOk_dec b : Decision (byteOk b).
Proof. unfold byteOk. apply _. Defined.
(** Neither [$], [,], [.] nor [=]. *)
Definition isSafe (b : Z) : bool := negb ((b =? 36) || (b =? 44) || (b =? 46) || (b =? 61)).

Lemma byte_of_range c : byteOk (byte_of c).
Proof. unfold byteOk, byte_of. pose proof (N_ascii_bounded c). lia. Qed.

Lemma bytes_of_string_ok s : Forall byteOk (Sha256.bytes_of_string s).
Proof. induction s; constructor; [apply byte_of_range|done]. Qed.

Lemma ascii_byte c : GoStd.ascii_of_byte (byte_of c) = c.
Proof.
  unfold GoStd.ascii_of_byte. pose proof (byte_of_range c) as H. unfold byteOk in H. rewrite Z.mod_small by lia.
  unfold byte_of. rewrite N2Z.id. apply ascii_N_embedding.
Qed.

Lemma byte_ascii b : byteOk b → byte_of (GoStd.ascii_of_byte b) = b.
Proof.
  unfold byteOk, byte_of, GoStd.ascii_of_byte. intros H. rewrite Z.mod_small by lia. rewrite N_ascii_embedding by lia. lia.
Qed.

Lemma string_bytes s : Sha256.string_of_bytes (Sha256.bytes_of_string s) = s.
Proof. induction s as [|c s IH]; simpl; [done|]. by rewrite ascii_byte, IH. Qed.

Lemma bytes_string l : Forall byteOk l → Sha256.bytes_of_string (Sha256.string_of_bytes l) = l.
Proof. induction 1 as [|b l Hb Hl IH]; simpl; [done|]. by rewrite byte_ascii, IH. Qed.

Lemma length_bytes s : length (Sha256.bytes_of_string s) = String.length s.
Proof. induction s; simpl; auto. Qed.
Lemma length_of_bytes l : String.length (Sha256.string_of_bytes l) = length l.
Proof. induction l; simpl; auto. Qed.

Lemma sextets_range bs : Forall byteOk bs → Forall (λ x, 0 ≤ x < 64) (sextets bs).
Proof.
  induction bs as [|a|a b|a b c r IH] using list_ind3; cbn [sextets]; rewrite ?Forall_cons; unfold byteOk.
  all: intros H; repeat split; try apply Forall_nil_2; try (apply IH; tauto); try (Z.div_mod_to_equations; lia).
Qed.

Lemma length_sextets bs : Z.of_nat (length (sextets bs)) = (4 * Z.of_nat (length bs) + 2) / 3.
Proof.
  induction bs as [|a|a b|a b c r IH] using list_ind3; [done..|]. cbn [sextets length]. Z.div_mod_to_equations. lia.
Qed.

Lemma ungroup_sextets bs : Forall byteOk bs → ungroup (sextets bs) = Some bs.
Proof.
  induction bs as [|a|a b|a b c r IH] using list_ind3; cbn [sextets ungroup]; rewrite ?Forall_cons; unfold byteOk; intros H.
  - done.
  - do 2 f_equal. Z.div_mod_to_equations. lia.
  - f_equal. f_equal; [|f_equal]; Z.div_mod_to_equations; lia.
  - rewrite IH by tauto. simpl. f_equal. f_equal; [|f_equal; [|f_equal]]; Z.div_mod_to_equations; lia.
Qed.

(** An alphabet and its decode map. *)
Class Alphabet (alphabet : Z → Z) (sextet : Z → option Z) : Prop :=
  alphabet_spec : Forall (λ x, sextet (alphabet x) = Some x ∧ byteOk (alphabet x) ∧ ¬ newline (alphabet x) ∧
                               (isSafe (alphabet x) = true)) (seqZ 0 64).
#[export] Instance url_alphabet : Alphabet urlAlphabet urlSextet.
Proof. unfold Alphabet. apply (bool_decide_unpack _). vm_compute. exact I. Qed.
#[export] Instance std_alphabet : Alphabet stdAlphabet stdSextet.
Proof. unfold Alphabet. apply (bool_decide_unpack _). vm_compute. exact I. Qed.

Section raw.
Context (alphabet : Z → Z) (sextet : Z → option Z) `{!Alphabet alphabet sextet}.

Lemma alphabet_at x : 0 ≤ x < 64 →
  sextet (alphabet x) = Some x ∧ byteOk (alphabet x) ∧ ¬ newline (alphabet x) ∧ isSafe (alphabet x) = true.
Proof. intros Hx. pose proof alphabet_spec as H. rewrite Forall_forall in H. apply H, elem_of_seqZ. lia. Qed.

Lemma decode_encode xs :
  Forall (λ x, 0 ≤ x < 64) xs → mapM sextet (filter (λ c, ¬ newline c) (alphabet <$> xs)) = Some xs.
Proof.
  induction 1 as [|x xs Hx Hxs IH]; [done|]. destruct (alphabet_at x Hx) as (H1&_&H2&_).
  rewrite fmap_cons, filter_cons_True by done. simpl. rewrite H1. simpl. by rewrite IH.
Qed.

Lemma encoded_bytes s : Forall byteOk (alphabet <$> sextets (Sha256.bytes_of_string s)).
Proof.
  apply Forall_fmap. eapply Forall_impl; [apply sextets_range, bytes_of_string_ok|]. intros x Hx. by apply alphabet_at.
Qed.

Lemma raw_roundtrip s : rawDecodeString sextet (rawEncodeToString alphabet s) = Some s.
Proof.
  unfold rawDecodeString, rawEncodeToString, base64Encode. pose proof (bytes_of_string_ok s) as Hs.
  rewrite app_nil_r, bytes_string by apply encoded_bytes.
  unfold rawDecode. rewrite decode_encode by by apply sextets_range. simpl. rewrite ungroup_sextets by done. simpl. by rewrite string_bytes.
Qed.

Lemma raw_length s : slen (rawEncodeToString alphabet s) = (4 * slen s + 2) / 3.
Proof.
  unfold slen, rawEncodeToString, base64Encode. rewrite length_of_bytes, app_nil_r, length_fmap, length_sextets.
  by rewrite length_bytes.
Qed.

(** The text has none of the separators of tokens and verifiers. *)
Lemma raw_safe s : forallBytes isSafe (rawEncodeToString alphabet s) = true.
Proof.
  unfold rawEncodeToString, base64Encode. rewrite app_nil_r.
  assert (Forall (λ b, byteOk b ∧ isSafe b = true) (alphabet <$> sextets (Sha256.bytes_of_string s))) as H.
  { apply Forall_fmap. eapply Forall_impl; [apply sextets_range, bytes_of_string_ok|]. intros x Hx.
    destruct (alphabet_at x Hx) as (_&?&_&?). done. }
  induction H as [|b l [Hb Hs] _ IH]; [done|]. simpl. by rewrite byte_ascii, Hs, IH.
Qed.
End raw.

Lemma RawURL_roundtrip s : RawURLDecodeString (RawURLEncodeToString s) = Some s.
Proof. apply (raw_roundtrip _ _). Qed.
Lemma RawURL_length s : slen (RawURLEncodeToString s) = (4 * slen s + 2) / 3.
Proof. apply raw_length. Qed.
Lemma RawStd_roundtrip s : RawStdDecodeString (RawStdEncodeToString s) = Some s.
Proof. apply (raw_roundtrip _ _). Qed.
Lemma RawStd_length s : slen (RawStdEncodeToString s) = (4 * slen s + 2) / 3.
Proof. apply raw_length. Qed.
