(* ===== verification/Token.v ===== *)
(** * Server bearer tokens (src/internal/server/token.go, server.go)

    Credential and enrollment tokens: a prefix and the unpadded base64url text
    of 32 random bytes.  Parsing is strict: the decoder's leniency (Base64.v)
    is undone by encoding again. *)
From S2P Require Import Prelude GoStd Base64.
From Stdlib Require Import Ascii.
#[local] Open Scope Z_scope.

Definition credentialTokenPrefix : string := "srv.v1.".
Definition enrollmentTokenPrefix : string := "enr.v1.".
Definition tokenRawBytes : Z := 32.
Definition tokenEncodedBytes : Z := 43.

(** [io.ReadFull] on a reader that delivers the bytes [randomness] and then
    fails; a nil reader is [crypto/rand.Reader], which delivers enough. *)
Definition readFull (n : Z) (randomness : string) : option string :=
  if slen randomness <? n then None else Some (takeBytes (Z.to_nat n) randomness).

Definition newTokenBytes (randomness : string) : option string := readFull tokenRawBytes randomness.

Definition NewCredentialToken (randomness : string) : option string :=
  raw ← newTokenBytes randomness; Some (credentialTokenPrefix +:+ RawURLEncodeToString raw).
Definition NewEnrollmentToken (randomness : string) : option string :=
  raw ← newTokenBytes randomness; Some (enrollmentTokenPrefix +:+ RawURLEncodeToString raw).

(** [None] is [ErrInvalidToken]. *)
Definition decodeToken (value prefix : string) : option string :=
  if negb (slen value =? slen prefix + tokenEncodedBytes) || negb (HasPrefix value prefix) then None
  else
    let encoded := dropBytes (String.length prefix) value in
    raw ← RawURLDecodeString encoded;
    if negb (slen raw =? tokenRawBytes) || negb (bool_decide (RawURLEncodeToString raw = encoded)) then None
    else Some raw.

Definition ParseCredentialToken (value : string) : option string :=
  _ ← decodeToken value credentialTokenPrefix; Some value.
Definition ParseEnrollmentToken (value : string) : option string :=
  _ ← decodeToken value enrollmentTokenPrefix; Some value.

Definition domainDigest (domain raw : string) : string := Sum256 (domain +:+ String "000"%char "" +:+ raw).
Definition CredentialTokenDigest (t : string) : option string :=
  raw ← decodeToken t credentialTokenPrefix; Some (domainDigest "autodeploy/server-credential-token/v1" raw).
Definition EnrollmentTokenDigest (t : string) : option string :=
  raw ← decodeToken t enrollmentTokenPrefix; Some (domainDigest "autodeploy/server-enrollment-token/v1" raw).

Definition idPrefix : string := "server_".
Definition NewID (randomness : string) : option string :=
  raw ← readFull 16 randomness; Some (idPrefix +:+ EncodeToString raw).

(** ** Lemmas *)

(** Parsing accepts exactly the minted texts. *)
Lemma decodeToken_spec value prefix raw :
  decodeToken value prefix = Some raw ↔ slen raw = tokenRawBytes ∧ value = prefix +:+ RawURLEncodeToString raw.
Proof.
  unfold decodeToken. split.
  - destruct (_ || _) eqn:E; [done|]. intros (r&Hd&Hr)%bind_Some. destruct (negb (slen r =? tokenRawBytes) || _) eqn:E2; [done|]. bool_hyps.
    simplify_eq. split; [done|]. match goal with H : HasPrefix _ _ = true |- _ => apply HasPrefix_app in H as [k ->] end.
    rewrite dropBytes_app in *. by f_equal.
  - intros [Hl ->]. rewrite slen_app, RawURL_length, Hl, (proj2 (HasPrefix_app _ _)), dropBytes_app by eauto.
    assert ((slen prefix + (4 * tokenRawBytes + 2) / 3 =? slen prefix + tokenEncodedBytes) = true) as ->
      by (apply Z.eqb_eq; unfold tokenRawBytes, tokenEncodedBytes; Z.div_mod_to_equations; lia).
    simpl. rewrite RawURL_roundtrip. simpl. rewrite Hl, Z.eqb_refl, bool_decide_true by done. done.
Qed.

Lemma readFull_spec n randomness raw :
  0 ≤ n → readFull n randomness = Some raw → slen raw = n ∧ ∃ rest, randomness = raw +:+ rest.
Proof.
  unfold readFull. intros Hn. destruct (_ <? _) eqn:E; [done|]. bool_hyps. intros [= <-]. split.
  - unfold slen in *. rewrite length_takeBytes. lia.
  - exists (dropBytes (Z.to_nat n) randomness). by rewrite takeBytes_dropBytes.
Qed.

(** server tokens round-trip and never cross: the credential tokens that
    parse are exactly the ones minted from 32 bytes, their digest is that of
    these bytes, and no text is both a credential and an enrollment token, so
    neither can be used as the other. *)
Theorem server_token_roundtrip value :
  (∀ raw, decodeToken value credentialTokenPrefix = Some raw ↔ slen raw = 32 ∧ NewCredentialToken raw = Some value) ∧
  (∀ raw, decodeToken value enrollmentTokenPrefix = Some raw ↔ slen raw = 32 ∧ NewEnrollmentToken raw = Some value) ∧
  (∀ randomness, NewCredentialToken randomness = Some value →
     ParseCredentialToken value = Some value ∧ ParseEnrollmentToken value = None ∧
     ∃ raw rest, randomness = raw +:+ rest ∧ slen raw = 32 ∧
       CredentialTokenDigest value = Some (domainDigest "autodeploy/server-credential-token/v1" raw)) ∧
  (∀ randomness, NewEnrollmentToken randomness = Some value →
     ParseEnrollmentToken value = Some value ∧ ParseCredentialToken value = None ∧
     ∃ raw rest, randomness = raw +:+ rest ∧ slen raw = 32 ∧
       EnrollmentTokenDigest value = Some (domainDigest "autodeploy/server-enrollment-token/v1" raw)).
Proof.
  assert (∀ raw, slen raw = 32 → newTokenBytes raw = Some raw) as Hfull.
  { intros raw Hl. unfold newTokenBytes, readFull. destruct (_ <? _) eqn:E; bool_hyps; [unfold tokenRawBytes in *; lia|].
    f_equal. pose proof (takeBytes_app raw "") as Ht. rewrite string_app_nil in Ht. unfold slen, tokenRawBytes in *.
    by replace (Z.to_nat 32) with (String.length raw) by lia. }
  assert (∀ p q raw, p = credentialTokenPrefix ∧ q = enrollmentTokenPrefix ∨ q = credentialTokenPrefix ∧ p = enrollmentTokenPrefix →
    decodeToken (p +:+ RawURLEncodeToString raw) q = None) as Hcross.
  { intros p q raw Hpq. destruct (decodeToken _ q) as [x|] eqn:E; [|done]. apply decodeToken_spec in E as [_ E].
    destruct Hpq as [[-> ->]|[-> ->]]; discriminate E. }
  split_and!.
  - intros raw. rewrite decodeToken_spec. unfold NewCredentialToken, tokenRawBytes. split; intros [Hl H]; (split; [done|]).
    + rewrite Hfull by done. simpl. by rewrite H.
    + rewrite Hfull in H by done. simpl in H. by injection H.
  - intros raw. rewrite decodeToken_spec. unfold NewEnrollmentToken, tokenRawBytes. split; intros [Hl H]; (split; [done|]).
    + rewrite Hfull by done. simpl. by rewrite H.
    + rewrite Hfull in H by done. simpl in H. by injection H.
  - intros randomness (raw&(Hl&rest&->)%readFull_spec&[= <-])%bind_Some; [|done].
    unfold ParseCredentialToken, ParseEnrollmentToken, CredentialTokenDigest. rewrite (Hcross _ enrollmentTokenPrefix) by auto.
    rewrite (proj2 (decodeToken_spec _ credentialTokenPrefix raw)) by done. eauto 10.
  - intros randomness (raw&(Hl&rest&->)%readFull_spec&[= <-])%bind_Some; [|done].
    unfold ParseCredentialToken, ParseEnrollmentToken, EnrollmentTokenDigest. rewrite (Hcross _ credentialTokenPrefix) by auto.
    rewrite (proj2 (decodeToken_spec _ enrollmentTokenPrefix raw)) by done. eauto 10.
Qed.

Lemma server_token_roundtrip_witness :
  ∃ value, NewCredentialToken "0123456789abcdef0123456789abcdef" = Some value ∧ ParseEnrollmentToken value = None.
Proof.
  eexists. split; [reflexivity|].
  apply (proj1 (proj2 (proj2 (server_token_roundtrip _))) "0123456789abcdef0123456789abcdef"). reflexivity.
Defined.
