(* ===== verification/Deployment.v ===== *)
(** * The deployment aggregate (src/internal/deployment/deployment.go) *)
From S2P Require Import Prelude.

(** ** Status *)

(** Go's [Status] is a string; the twelve lifecycle constants are
    constructors and every other string is [StatusOther]. *)
Inductive Status :=
  | StatusQueued | StatusAssigned | StatusFetching | StatusBuilding
  | StatusStarting | StatusHealthChecking | StatusActivating | StatusHealthy
  | StatusFailed | StatusCancelled | StatusSuperseded | StatusRolledBack
  | StatusOther (raw : string).

#[global] Instance Status_eq_dec : EqDecision Status.
Proof. solve_decision. Defined.

(** [""], the [From] of a creation event. *)
Definition StatusNone : Status := StatusOther "".

Definition isKnownStatus (status : Status) : bool :=
  match status with StatusOther _ => false | _ => true end.

Definition isTerminal (status : Status) : bool :=
  match status with
  | StatusFailed | StatusCancelled | StatusSuperseded | StatusRolledBack => true
  | _ => false
  end.

Definition canTransition (from to : Status) : bool :=
  match from with
  | StatusQueued =>
      bool_decide (to = StatusAssigned) || bool_decide (to = StatusCancelled)
      || bool_decide (to = StatusSuperseded)
  | StatusAssigned =>
      bool_decide (to = StatusFetching) || bool_decide (to = StatusCancelled)
      || bool_decide (to = StatusFailed)
  | StatusFetching =>
      bool_decide (to = StatusBuilding) || bool_decide (to = StatusCancelled)
      || bool_decide (to = StatusFailed)
  | StatusBuilding =>
      bool_decide (to = StatusStarting) || bool_decide (to = StatusCancelled)
      || bool_decide (to = StatusFailed)
  | StatusStarting =>
      bool_decide (to = StatusHealthChecking) || bool_decide (to = StatusCancelled)
      || bool_decide (to = StatusFailed)
  | StatusHealthChecking =>
      bool_decide (to = StatusActivating) || bool_decide (to = StatusCancelled)
      || bool_decide (to = StatusFailed)
  | StatusActivating => bool_decide (to = StatusHealthy) || bool_decide (to = StatusFailed)
  | StatusHealthy => bool_decide (to = StatusRolledBack)
  | _ => false
  end.

Definition AgentReportablePhase (status : Status) : bool :=
  match status with
  | StatusFetching | StatusBuilding | StatusStarting | StatusHealthChecking => true
  | _ => false
  end.

(** [(position, onPath)]; the Go function returns [0, false] off the path. *)
Definition ExecutionOrder (status : Status) : Z * bool :=
  match status with
  | StatusQueued => (0, true)
  | StatusAssigned => (1, true)
  | StatusFetching => (2, true)
  | StatusBuilding => (3, true)
  | StatusStarting => (4, true)
  | StatusHealthChecking => (5, true)
  | StatusActivating => (6, true)
  | StatusHealthy => (7, true)
  | _ => (0, false)
  end.

(** ** The aggregate and its snapshot *)

Record Identity := {
  DeploymentID : string;
  ProjectID : string;
  EnvironmentID : string;
  ServerID : string;
  CommitSHA : string;
}.

#[global] Instance Identity_eq_dec : EqDecision Identity.
Proof. solve_decision. Defined.

Record Event := {
  ev_from : Status;
  ev_to : Status;
  ev_at : Z;
}.

#[global] Instance Event_eq_dec : EqDecision Event.
Proof. solve_decision. Defined.

Record Deployment := {
  identity : Identity;
  status : Status;
  createdAt : Z;
  updatedAt : Z;
  revision : Z;
  events : list Event;
}.

Record Snapshot := {
  snap_Version : Z;
  snap_Identity : Identity;
  snap_Status : Status;
  snap_CreatedAt : Z;
  snap_UpdatedAt : Z;
  snap_Revision : Z;
  snap_Events : list Event;
}.

Definition CurrentSchemaVersion : Z := 1.

(** What [validate] and [validateIdentity] report. *)
Inductive ValidationError :=
  | DeploymentIDRequired | ProjectIDRequired | EnvironmentIDRequired
  | ServerIDRequired | CommitSHARequired
  | UnknownStatus (s : Status)
  | InvalidTimestamps
  | RevisionNotEventCount
  | CreationEventRequired
  | InvalidCreationEvent
  | EventTimestampPrecedes (index : nat)
  | InvalidEventTransition (from to : Status)
  | StatusDisagreesWithEvents.

(** The package's sentinel errors with the error they wrap. *)
Inductive DeploymentError :=
  | ErrInvalidDeployment (why : option ValidationError)
  | ErrInvalidSnapshot (why : option ValidationError)
  | ErrUnknownStatus (s : Status)
  | ErrInvalidTransition (from to : Status)
  | ErrTerminalState (s : Status)
  | ErrInvalidTimestamp (current requested : Status).

Definition canonicalTime (value : Z) : Z := truncate value microsecond.

Definition validateIdentity (i : Identity) : option ValidationError :=
  if bool_decide (DeploymentID i = "") then Some DeploymentIDRequired
  else if bool_decide (ProjectID i = "") then Some ProjectIDRequired
  else if bool_decide (EnvironmentID i = "") then Some EnvironmentIDRequired
  else if bool_decide (ServerID i = "") then Some ServerIDRequired
  else if bool_decide (CommitSHA i = "") then Some CommitSHARequired
  else None.

(** The event loop of [validate], with the loop variables [current] and
    [previousAt] as arguments; it returns the error or their final values. *)
Fixpoint validateEvents (index : nat) (current : Status) (previousAt : Z)
    (evs : list Event) : ValidationError + Status * Z :=
  match evs with
  | [] => inr (current, previousAt)
  | e :: evs' =>
      if (ev_at e =? 0) || (ev_at e <? previousAt) then inl (EventTimestampPrecedes (S index))
      else if negb (bool_decide (ev_from e = current)) || negb (isKnownStatus (ev_to e))
              || negb (canTransition current (ev_to e))
      then inl (InvalidEventTransition (ev_from e) (ev_to e))
      else validateEvents (S index) (ev_to e) (ev_at e) evs'
  end.

Definition validate (d : Deployment) : option ValidationError :=
  match validateIdentity (identity d) with
  | Some e => Some e
  | None =>
      if negb (isKnownStatus (status d)) then Some (UnknownStatus (status d))
      else if (createdAt d =? 0) || (updatedAt d =? 0) || (updatedAt d <? createdAt d)
      then Some InvalidTimestamps
      else if (revision d =? 0) || negb (revision d =? u64 (Z.of_nat (length (events d))))
      then Some RevisionNotEventCount
      else match events d with
      | [] => Some CreationEventRequired
      | first :: rest =>
          if negb (bool_decide (ev_from first = StatusNone))
             || negb (bool_decide (ev_to first = StatusQueued))
             || negb (ev_at first =? createdAt d)
          then Some InvalidCreationEvent
          else match validateEvents 0 StatusQueued (createdAt d) rest with
          | inl e => Some e
          | inr (current, previousAt) =>
              if negb (bool_decide (current = status d)) || negb (previousAt =? updatedAt d)
              then Some StatusDisagreesWithEvents
              else None
          end
      end
  end.

(** ** Operations *)

Definition New (i : Identity) (created : Z) : DeploymentError + Deployment :=
  match validateIdentity i with
  | Some e => inl (ErrInvalidDeployment (Some e))
  | None =>
      if created =? 0 then inl (ErrInvalidDeployment None)
      else
        let created := canonicalTime created in
        inr {| identity := i; status := StatusQueued; createdAt := created;
               updatedAt := created; revision := 1;
               events := [{| ev_from := StatusNone; ev_to := StatusQueued; ev_at := created |}] |}
  end.

Definition canonicalEvent (e : Event) : Event :=
  {| ev_from := ev_from e; ev_to := ev_to e; ev_at := canonicalTime (ev_at e) |}.

Definition Rehydrate (s : Snapshot) : DeploymentError + Deployment :=
  if negb (snap_Version s =? CurrentSchemaVersion) then inl (ErrInvalidSnapshot None)
  else
    let d := {| identity := snap_Identity s; status := snap_Status s;
                createdAt := canonicalTime (snap_CreatedAt s);
                updatedAt := canonicalTime (snap_UpdatedAt s);
                revision := snap_Revision s;
                events := canonicalEvent <$> snap_Events s |} in
    match validate d with
    | Some e => inl (ErrInvalidSnapshot (Some e))
    | None => inr d
    end.

Definition TakeSnapshot (d : Deployment) : DeploymentError + Snapshot :=
  match validate d with
  | Some e => inl (ErrInvalidDeployment (Some e))
  | None => inr {| snap_Version := CurrentSchemaVersion; snap_Identity := identity d;
                   snap_Status := status d; snap_CreatedAt := createdAt d;
                   snap_UpdatedAt := updatedAt d; snap_Revision := revision d;
                   snap_Events := events d |}
  end.

Definition Transition (d : Deployment) (to : Status) (at_ : Z) : DeploymentError + Deployment :=
  match validate d with
  | Some e => inl (ErrInvalidDeployment (Some e))
  | None =>
      if negb (isKnownStatus to) then inl (ErrUnknownStatus to)
      else if bool_decide (to = status d) then inr d
      else
        let at_ := canonicalTime at_ in
        if (at_ =? 0) || (at_ <? updatedAt d) then inl (ErrInvalidTimestamp (status d) to)
        else if isTerminal (status d) then inl (ErrTerminalState (status d))
        else if negb (canTransition (status d) to)
        then inl (ErrInvalidTransition (status d) to)
        else inr {| identity := identity d; status := to; createdAt := createdAt d;
                    updatedAt := at_; revision := u64 (revision d + 1);
                    events := events d ++ [{| ev_from := status d; ev_to := to; ev_at := at_ |}] |}
  end.

(** ** The lifecycle graph *)

(** Position along the lifecycle; every transition climbs. *)
Definition rank (s : Status) : nat :=
  match s with
  | StatusQueued => 0 | StatusAssigned => 1 | StatusFetching => 2 | StatusBuilding => 3
  | StatusStarting => 4 | StatusHealthChecking => 5 | StatusActivating => 6
  | StatusHealthy => 7 | _ => 8
  end.

Ltac status_cases :=
  repeat match goal with
  | s : Status |- _ => destruct s
  end; simpl in *; try discriminate; try done.

Lemma canTransition_rank a b : canTransition a b = true → (rank a < rank b)%nat.
Proof. intros H. status_cases; lia. Qed.

Lemma rank_le s : (rank s ≤ 8)%nat.
Proof. destruct s; simpl; lia. Qed.

Lemma canTransition_known a b : canTransition a b = true → isKnownStatus a && isKnownStatus b = true.
Proof. intros H. status_cases. Qed.

Lemma canTransition_not_terminal a b : canTransition a b = true → isTerminal a = false.
Proof. intros H. status_cases. Qed.

(** ** Event histories *)

Lemma validateEvents_app i c p l1 l2 :
  validateEvents i c p (l1 ++ l2) =
  match validateEvents i c p l1 with
  | inl e => inl e
  | inr (c', p') => validateEvents (i + length l1) c' p' l2
  end.
Proof.
  revert i c p. induction l1 as [|e l1 IH]; intros i c p; simpl.
  - by replace (i + 0)%nat with i by lia.
  - repeat case_match; try done; rewrite IH; simplify_eq/=; repeat case_match; try done;
      simplify_eq; f_equal; lia.
Qed.

Lemma validateEvents_rank i c p l c' p' :
  validateEvents i c p l = inr (c', p') → (length l + rank c ≤ rank c')%nat.
Proof.
  revert i c p. induction l as [|e l IH]; intros i c p; simpl; [naive_solver lia|].
  repeat case_match; try done. intros H2%IH. bool_hyps.
  pose proof (canTransition_rank c (ev_to e)). naive_solver lia.
Qed.

Lemma validateEvents_time i c p l c' p' :
  validateEvents i c p l = inr (c', p') → p ≤ p' ∧ (p ≠ 0 → p' ≠ 0).
Proof.
  revert i c p. induction l as [|e l IH]; intros i c p; simpl; [naive_solver lia|].
  repeat case_match; try done. intros H2%IH. bool_hyps. lia.
Qed.

(** What [validate] accepting an aggregate means. *)
Lemma validate_None d :
  validate d = None ↔
  validateIdentity (identity d) = None ∧ isKnownStatus (status d) = true ∧
  createdAt d ≠ 0 ∧ updatedAt d ≠ 0 ∧ createdAt d ≤ updatedAt d ∧
  revision d = Z.of_nat (length (events d)) ∧
  ∃ rest, events d = {| ev_from := StatusNone; ev_to := StatusQueued; ev_at := createdAt d |} :: rest ∧
          validateEvents 0 StatusQueued (createdAt d) rest = inr (status d, updatedAt d).
Proof.
  assert (Hu : ∀ rest c p, validateEvents 0 StatusQueued (createdAt d) rest = inr (c, p) →
    u64 (Z.of_nat (S (length rest))) = Z.of_nat (S (length rest))).
  { intros rest c p H%validateEvents_rank. pose proof (rank_le c). apply u64_small. simpl in *. lia. }
  unfold validate. split.
  - intros H. destruct (events d) as [|[f t a] rest] eqn:Ee; repeat case_match; simplify_eq/=;
      bool_hyps; simplify_eq/=; try lia. match goal with Hv : validateEvents _ _ _ _ = _ |- _ => rewrite (Hu _ _ _ Hv) in * end.
    repeat split; try lia; try done. naive_solver.
  - intros (-> & -> & Hc & Hu' & Hle & Hr & rest & Ee & Hv). rewrite Hr, Ee. simpl.
    rewrite (Hu _ _ _ Hv), Hv, !Z.eqb_refl.
    rewrite (proj2 (Z.eqb_neq _ _) Hc), (proj2 (Z.eqb_neq _ _) Hu').
    rewrite (proj2 (Z.ltb_ge _ _)) by lia.
    by rewrite (bool_decide_true (status d = status d)) by done.
Qed.

(** ** Reachable aggregates *)

Inductive reachable : Deployment → Prop :=
  | reach_new i t d : New i t = inr d → canonicalTime t ≠ 0 → reachable d
  | reach_step d to t d' : reachable d → Transition d to t = inr d' → reachable d'.

Definition canonical (t : Z) : Prop := canonicalTime t = t.

Definition canonicalDeployment (d : Deployment) : Prop :=
  canonical (createdAt d) ∧ canonical (updatedAt d) ∧ Forall (λ e, canonical (ev_at e)) (events d).

Lemma canonicalTime_idemp t : canonicalTime (canonicalTime t) = canonicalTime t.
Proof. by apply truncate_idemp. Qed.

(** The new aggregate of an accepted, non-repeating transition. *)
Definition advance (d : Deployment) (to : Status) (at_ : Z) : Deployment :=
  {| identity := identity d; status := to; createdAt := createdAt d; updatedAt := at_;
     revision := revision d + 1;
     events := events d ++ [{| ev_from := status d; ev_to := to; ev_at := at_ |}] |}.

Lemma valid_events_bound d : validate d = None → (length (events d) ≤ 9)%nat.
Proof.
  rewrite validate_None. intros (_ & _ & _ & _ & _ & _ & rest & -> & Hv).
  apply validateEvents_rank in Hv. pose proof (rank_le (status d)). simpl in *. lia.
Qed.

Lemma Transition_accepts d to t :
  validate d = None → canTransition (status d) to = true →
  canonicalTime t ≠ 0 → updatedAt d ≤ canonicalTime t →
  Transition d to t = inr (advance d to (canonicalTime t)).
Proof.
  intros Hv Hc Ht Hle. unfold Transition, advance. rewrite Hv, Hc.
  pose proof (canTransition_known _ _ Hc). pose proof (canTransition_not_terminal _ _ Hc) as ->.
  bool_hyps. pose proof (canTransition_rank _ _ Hc).
  rewrite (bool_decide_false (to = status d)) by (intros ->; lia).
  match goal with H : isKnownStatus to = true |- _ => rewrite H end. simpl.
  rewrite (proj2 (Z.eqb_neq _ _) Ht), (proj2 (Z.ltb_ge _ _)) by lia. simpl.
  rewrite u64_small; [done|]. apply valid_events_bound in Hv as Hl.
  apply validate_None in Hv. destruct Hv as (_ & _ & _ & _ & _ & Hr & _). lia.
Qed.

Lemma Transition_inr d to t d' :
  Transition d to t = inr d' →
  validate d = None ∧
  (to = status d ∧ d' = d ∨
   canTransition (status d) to = true ∧ canonicalTime t ≠ 0 ∧ updatedAt d ≤ canonicalTime t ∧
   d' = advance d to (canonicalTime t)).
Proof.
  intros H. destruct (validate d) eqn:Hv; [unfold Transition in H; by rewrite Hv in H|].
  split; [done|]. destruct (decide (to = status d)) as [->|Hne].
  - left. unfold Transition in H. rewrite Hv, (bool_decide_true (status d = status d)) in H by done.
    repeat case_match; by simplify_eq.
  - right. assert (canTransition (status d) to = true ∧ canonicalTime t ≠ 0 ∧ updatedAt d ≤ canonicalTime t)
      as (Hc & ? & ?).
    { unfold Transition in H. rewrite Hv, (bool_decide_false (to = status d)) in H by done.
      repeat case_match; bool_hyps; simplify_eq/=; split_and!; (done || lia). }
    rewrite Transition_accepts in H by done. by simplify_eq.
Qed.

Lemma advance_valid d to t :
  validate d = None → canTransition (status d) to = true → t ≠ 0 → updatedAt d ≤ t →
  validate (advance d to t) = None.
Proof.
  rewrite !validate_None. intros (Hi & Hk & Hc & Hu & Hle & Hr & rest & Ee & Hv) Hcan Ht Hlt.
  pose proof (canTransition_known _ _ Hcan). bool_hyps. simpl.
  split_and!; try done; [lia| |].
  - rewrite Hr, length_app. simpl. lia.
  - exists (rest ++ [{| ev_from := status d; ev_to := to; ev_at := t |}]). split; [by rewrite Ee|].
    rewrite validateEvents_app, Hv. simpl.
    rewrite (proj2 (Z.eqb_neq _ _) Ht), (proj2 (Z.ltb_ge _ _)) by lia.
    rewrite (bool_decide_true (status d = status d)) by done.
    match goal with H : isKnownStatus to = true |- _ => rewrite H end. by rewrite Hcan.
Qed.

Lemma New_valid i t d :
  New i t = inr d → canonicalTime t ≠ 0 → validate d = None ∧ canonicalDeployment d.
Proof.
  unfold New. destruct (validateIdentity i) eqn:Hi; [done|]. destruct (t =? 0); [done|].
  intros [= <-] Ht. split.
  - apply validate_None. simpl. rewrite Hi. split_and!; try done. naive_solver.
  - repeat constructor; apply canonicalTime_idemp.
Qed.

Lemma reachable_inv d : reachable d → validate d = None ∧ canonicalDeployment d.
Proof.
  induction 1 as [i t d Hn Ht|d to t d' _ [IHv (Hc1 & Hc2 & Hc3)] Ht].
  - by eapply New_valid.
  - apply Transition_inr in Ht as [_ [[_ ->]|(Hcan & Ht0 & Hle & ->)]]; [done|].
    split; [by apply advance_valid|].
    split; [done|]. split; [apply canonicalTime_idemp|]. simpl. apply Forall_app. split; [done|].
    repeat constructor. apply canonicalTime_idemp.
Qed.

(** One accepted transition, and any number of them. *)
Definition dstep (d d' : Deployment) : Prop := ∃ to t, Transition d to t = inr d'.

Lemma dstep_append d d' :
  dstep d d' →
  identity d' = identity d ∧ createdAt d' = createdAt d ∧
  revision d ≤ revision d' ∧ updatedAt d ≤ updatedAt d' ∧
  events d `prefix_of` events d' ∧ (isTerminal (status d) = true → d' = d).
Proof.
  intros (to & t & [_ [[_ ->]|(Hc & _ & Hle & ->)]]%Transition_inr); [naive_solver lia|].
  unfold advance; simpl. split_and!; try done; [lia|by eexists|].
  apply canTransition_not_terminal in Hc. congruence.
Qed.

Lemma dsteps_append d d' :
  rtc dstep d d' →
  identity d' = identity d ∧ createdAt d' = createdAt d ∧
  revision d ≤ revision d' ∧ updatedAt d ≤ updatedAt d' ∧
  events d `prefix_of` events d' ∧ (isTerminal (status d) = true → d' = d).
Proof.
  induction 1 as [d|d1 d2 d3 Hs _ IH]; [naive_solver lia|].
  apply dstep_append in Hs as (Hi & Hc & Hr & Hu & He & Ht).
  destruct IH as (Hi' & Hc' & Hr' & Hu' & He' & Ht').
  split_and!; try congruence; try lia; [by trans (events d2)|].
  intros Hterm. pose proof (Ht Hterm) as ->. by apply Ht'.
Qed.

(** C38: every aggregate the package can produce ([New] at an instant of at
    least one microsecond, then any transitions) passes its own [validate];
    its revision is its event count and never exceeds nine, so the [uint64]
    increment in [Transition] never wraps. *)
Theorem deployment_reachable_valid d :
  reachable d →
  validate d = None ∧ revision d = Z.of_nat (length (events d)) ∧ 1 ≤ revision d ≤ 9.
Proof.
  intros [Hv _]%reachable_inv. pose proof (valid_events_bound d Hv).
  apply validate_None in Hv as Hv'. destruct Hv' as (_ & _ & _ & _ & _ & Hr & rest & He & _).
  split_and!; try done; rewrite Hr, ?He in *; simpl in *; lia.
Qed.

(** persisting and reloading is the identity: the snapshot of a reachable
    aggregate rehydrates to the very same aggregate (timestamps are already
    canonical, so [Rehydrate]'s truncation changes nothing). *)
Theorem deployment_snapshot_roundtrip d :
  reachable d → ∃ s, TakeSnapshot d = inr s ∧ Rehydrate s = inr d.
Proof.
  intros [Hv (Hc & Hu & He)]%reachable_inv. unfold TakeSnapshot. rewrite Hv.
  eexists. split; [done|]. unfold Rehydrate. simpl.
  assert (canonicalEvent <$> events d = events d) as ->.
  { clear Hv Hc Hu. induction He as [|e l Hce _ IH]; [done|]. rewrite fmap_cons, IH. f_equal.
    unfold canonicalEvent. rewrite Hce. by destruct e. }
  rewrite Hc, Hu. destruct d; simpl in *. by rewrite Hv.
Qed.

(** History is append-only: along any sequence of accepted transitions
    the identity and creation time are unchanged, the old events are a prefix
    of the new ones, revision and update time never decrease, and an
    aggregate in a terminal status never changes again. *)
Theorem deployment_history_append_only d d' :
  rtc dstep d d' →
  identity d' = identity d ∧ createdAt d' = createdAt d ∧
  revision d ≤ revision d' ∧ updatedAt d ≤ updatedAt d' ∧
  events d `prefix_of` events d' ∧ (isTerminal (status d) = true → d' = d).
Proof. apply dsteps_append. Qed.

(** [ExecutionOrder] is the linear path of [canTransition]: between two
    statuses on the path the transition is legal exactly when it advances by
    one position, and off-path statuses are exactly the terminal and unknown
    ones. *)
Theorem execution_order_is_transition_path a b :
  ((ExecutionOrder a).2 = negb (isTerminal a) && isKnownStatus a) ∧
  ((ExecutionOrder a).2 = true → (ExecutionOrder b).2 = true →
   canTransition a b = bool_decide ((ExecutionOrder b).1 = (ExecutionOrder a).1 + 1)).
Proof. split; [by destruct a|]. intros Ha Hb. destruct a; try discriminate Ha; destruct b; try discriminate Hb; reflexivity. Qed.

(** [New] tests [createdAt.IsZero()] before truncating to microseconds, so an
    instant inside the first microsecond is accepted and produces an
    aggregate that [validate] rejects. *)
Theorem new_submicrosecond_rejected_later i t d :
  0 < t < microsecond → New i t = inr d → validate d = Some InvalidTimestamps.
Proof.
  intros Ht Hn. unfold New in Hn. destruct (validateIdentity i) eqn:Hi; [done|].
  assert (canonicalTime t = 0) as Hc.
  { unfold canonicalTime, truncate. rewrite Z.mod_small; lia. }
  rewrite Hc in Hn. destruct (t =? 0) eqn:E; [done|]. simplify_eq/=.
  unfold validate. simpl. rewrite Hi. reflexivity.
Qed.

(** ** Witnesses *)

Definition exampleIdentity : Identity :=
  {| DeploymentID := "dep-1"; ProjectID := "project-1"; EnvironmentID := "env-1";
     ServerID := "server-1"; CommitSHA := "0123456789abcdef0123456789abcdef01234567" |}.

Definition exampleNew : Deployment :=
  {| identity := exampleIdentity; status := StatusQueued; createdAt := 5000; updatedAt := 5000;
     revision := 1;
     events := [{| ev_from := StatusNone; ev_to := StatusQueued; ev_at := 5000 |}] |}.

Lemma exampleNew_reachable : reachable exampleNew.
Proof. eapply (reach_new exampleIdentity 5999); [vm_compute; reflexivity|by vm_compute]. Qed.

Lemma exampleAssigned_reachable : reachable (advance exampleNew StatusAssigned 7000).
Proof.
  eapply (reach_step _ StatusAssigned 7123); [apply exampleNew_reachable|].
  vm_compute. reflexivity.
Qed.

Lemma exampleAssigned_steps : rtc dstep exampleNew (advance exampleNew StatusAssigned 7000).
Proof. eapply rtc_once. exists StatusAssigned, 7123. vm_compute. reflexivity. Qed.

Lemma deployment_reachable_valid_witness :
  reachable (advance exampleNew StatusAssigned 7000) ∧
  validate (advance exampleNew StatusAssigned 7000) = None.
Proof.
  split; [apply exampleAssigned_reachable|].
  exact (proj1 (deployment_reachable_valid _ exampleAssigned_reachable)).
Defined.

Lemma deployment_snapshot_roundtrip_witness :
  ∃ s, TakeSnapshot (advance exampleNew StatusAssigned 7000) = inr s ∧
       Rehydrate s = inr (advance exampleNew StatusAssigned 7000).
Proof. exact (deployment_snapshot_roundtrip _ exampleAssigned_reachable). Defined.

Lemma deployment_history_append_only_witness :
  rtc dstep exampleNew (advance exampleNew StatusAssigned 7000) ∧
  events exampleNew `prefix_of` events (advance exampleNew StatusAssigned 7000).
Proof.
  split; [apply exampleAssigned_steps|].
  exact (proj1 (proj2 (proj2 (proj2 (proj2 (deployment_history_append_only _ _ exampleAssigned_steps)))))).
Defined.

Lemma execution_order_witness :
  canTransition StatusFetching StatusBuilding = true.
Proof.
  rewrite (proj2 (execution_order_is_transition_path StatusFetching StatusBuilding) eq_refl eq_refl).
  reflexivity.
Defined.

Lemma new_submicrosecond_witness :
  ∃ d, New exampleIdentity 7 = inr d ∧ validate d = Some InvalidTimestamps.
Proof.
  eexists. split; [vm_compute; reflexivity|].
  eapply (new_submicrosecond_rejected_later exampleIdentity 7); [unfold microsecond; lia|].
  vm_compute. reflexivity.
Defined.
