(* ===== verification/Queue.v ===== *)
(** * Queue domain values (src/internal/queue, src/internal/github/source.go)

    Job identity and its payload digest, the failure classes and the
    full-jitter retry delay. *)
From S2P Require Import Prelude GoStd.
From Stdlib Require Import Ascii.
#[local] Open Scope Z_scope.

(** ** Validation of identifiers (src/internal/github/source.go) *)

Definition ValidOpaqueID (value : string) : bool :=
  (0 <? slen value) && (slen value <=? 128) && ValidString value && negb (ContainsByte value 0).

Definition forbiddenRefByte (b : Z) : bool :=
  (b <=? 32) || (b =? 127) || bool_decide (b ∈ [126; 94; 58; 63; 42; 91; 92]).

(** The rune loop of [ValidBranchRef] only rejects ASCII runes; a byte of a
    multi-byte rune is never one, so the loop over bytes decides the same. *)
Definition ValidBranchRef (ref : string) : bool :=
  let prefix := "refs/heads/" in
  if negb (HasPrefix ref prefix) || (slen ref <=? slen prefix) || (255 <? slen ref)
     || HasSuffix ref "/" || Contains ref "//" || Contains ref ".." || Contains ref "@{"
     || bool_decide (ref = "@")
  then false
  else if negb (forallb (λ part, negb (bool_decide (part = "")) && negb (HasPrefix part ".")
                   && negb (HasSuffix part ".") && negb (HasSuffix part ".lock"))
                 (SplitByte "/" (TrimPrefix ref prefix)))
  then false
  else forallBytes (λ b, negb (forbiddenRefByte b)) ref.

Definition ValidCommitSHA (value : string) : bool :=
  if negb (slen value =? 40) || bool_decide (value = "0000000000000000000000000000000000000000") then false
  else forallBytes (λ b, (48 <=? b) && (b <=? 57) || (97 <=? b) && (b <=? 102)) value.

(** ** Jobs (src/internal/queue/job.go) *)

(** A [time.Time] with the one bit of its location the package looks at. *)
Record Time := { instant : Z; isUTC : bool }.

Record Job := {
  job_Version : Z;
  job_Kind : string;
  job_OwnerID : string; job_ProjectID : string; job_EnvironmentID : string;
  job_ServerID : string; job_DeploymentID : string;
  job_RepositoryID : Z;
  job_Ref : string; job_CommitSHA : string;
  job_Priority : Z;
  job_AvailableAt : Time;
  job_IdempotencyKey : string;
  job_PayloadDigest : string;
  job_State : string;
}.

Definition CurrentSchemaVersion : Z := 1.
Definition KindDeploymentExecution : string := "deployment_execution".
Definition StateQueued : string := "queued".

(** [append(strconv.AppendInt(b, len(part)), ':', part...)] for every part. *)
Fixpoint lengthPrefixed (parts : list string) : string :=
  match parts with
  | [] => ""
  | p :: ps => FormatInt (slen p) +:+ String ":" (p +:+ lengthPrefixed ps)
  end.

Definition payloadParts (j : Job) : list string :=
  [FormatInt (job_Version j); job_Kind j; job_OwnerID j; job_ProjectID j; job_EnvironmentID j;
   job_ServerID j; job_DeploymentID j; FormatInt (job_RepositoryID j); job_Ref j; job_CommitSHA j;
   FormatInt (job_Priority j); FormatRFC3339Nano (instant (job_AvailableAt j));
   job_IdempotencyKey j; job_State j].

Definition payloadDigest (j : Job) : string := Sum256 (lengthPrefixed (payloadParts j)).

(** [Validate]; [true] is a nil error.  The digest of a non-UTC time is never
    reached: the location test precedes it. *)
Definition Validate (j : Job) : bool :=
  (job_Version j =? CurrentSchemaVersion) && bool_decide (job_Kind j = KindDeploymentExecution)
  && ValidOpaqueID (job_OwnerID j) && ValidOpaqueID (job_ProjectID j)
  && ValidOpaqueID (job_EnvironmentID j) && ValidOpaqueID (job_ServerID j)
  && ValidOpaqueID (job_DeploymentID j) && (0 <? job_RepositoryID j)
  && ValidBranchRef (job_Ref j) && ValidCommitSHA (job_CommitSHA j)
  && (-100 <=? job_Priority j) && (job_Priority j <=? 100)
  && negb (instant (job_AvailableAt j) =? 0) && isUTC (job_AvailableAt j)
  && (instant (job_AvailableAt j) =? truncate (instant (job_AvailableAt j)) microsecond)
  && ValidOpaqueID (job_IdempotencyKey j) && bool_decide (job_State j = StateQueued)
  && bool_decide (job_PayloadDigest j = payloadDigest j).

Definition NewDeploymentExecutionJob (ownerID projectID environmentID serverID deploymentID : string)
    (repositoryID : Z) (ref commitSHA idempotencyKey : string) (priority availableAt : Z) : option Job :=
  let j0 := {| job_Version := CurrentSchemaVersion; job_Kind := KindDeploymentExecution;
               job_OwnerID := ownerID; job_ProjectID := projectID; job_EnvironmentID := environmentID;
               job_ServerID := serverID; job_DeploymentID := deploymentID;
               job_RepositoryID := repositoryID; job_Ref := ref; job_CommitSHA := commitSHA;
               job_Priority := priority;
               job_AvailableAt := {| instant := truncate availableAt microsecond; isUTC := true |};
               job_IdempotencyKey := idempotencyKey; job_PayloadDigest := ""; job_State := StateQueued |} in
  let j := {| job_Version := job_Version j0; job_Kind := job_Kind j0; job_OwnerID := job_OwnerID j0;
              job_ProjectID := job_ProjectID j0; job_EnvironmentID := job_EnvironmentID j0;
              job_ServerID := job_ServerID j0; job_DeploymentID := job_DeploymentID j0;
              job_RepositoryID := job_RepositoryID j0; job_Ref := job_Ref j0;
              job_CommitSHA := job_CommitSHA j0; job_Priority := job_Priority j0;
              job_AvailableAt := job_AvailableAt j0; job_IdempotencyKey := job_IdempotencyKey j0;
              job_PayloadDigest := payloadDigest j0; job_State := job_State j0 |} in
  if Validate j then Some j else None.

(** ** Retry policy (src/internal/queue/retry.go) *)

Definition MaxAttempts : Z := 5.
Definition retryBaseDelay : Z := 5 * second.
Definition retryCapDelay : Z := 5 * minute.

(** IEEE-754 double rounding of a positive integer numerator: keep 53
    significant bits, round half to even. *)
Definition round53 (p : Z) : Z :=
  let e := Z.max 0 (Z.log2 p - 52) in
  let q := p / 2 ^ e in
  let r := p mod 2 ^ e in
  let up := (2 ^ e <? 2 * r) || ((2 * r =? 2 ^ e) && Z.odd q) in
  (if up then q + 1 else q) * 2 ^ e.

(** [backoff] of [FullJitterDelay], before the random draw. *)
Definition retryBackoff (attemptNumber : Z) : Z :=
  let n := if attemptNumber <? 1 then 1 else attemptNumber in
  let shift := if 20 <? n - 1 then 20 else n - 1 in
  let backoff := retryBaseDelay * 2 ^ shift in
  if (retryCapDelay <? backoff) || (backoff <=? 0) then retryCapDelay else backoff.

(** [rand.Float64()] is [draw / 2^53] with [0 <= draw < 2^53]; the product
    with [float64(backoff)] is rounded to a double and truncated. *)
Definition FullJitterDelay (attemptNumber draw : Z) : Z :=
  round53 (draw * retryBackoff attemptNumber) / 2 ^ 53.

Inductive FailureClass :=
  | FailureClassTransient | FailureClassAuthorization | FailureClassInvalidInput
  | FailureClassCancelled | FailureClassCorruptState | FailureClassPermanentConfiguration.

#[global] Instance FailureClass_eq_dec : EqDecision FailureClass.
Proof. solve_decision. Defined.

(** [FailureClass(s)] with [Valid]: the closed enum, [None] for any other
    string (the empty one included). *)
Definition parseFailureClass (s : string) : option FailureClass :=
  if bool_decide (s = "transient") then Some FailureClassTransient
  else if bool_decide (s = "authorization") then Some FailureClassAuthorization
  else if bool_decide (s = "invalid_input") then Some FailureClassInvalidInput
  else if bool_decide (s = "cancelled") then Some FailureClassCancelled
  else if bool_decide (s = "corrupt_state") then Some FailureClassCorruptState
  else if bool_decide (s = "permanent_configuration") then Some FailureClassPermanentConfiguration
  else None.

Definition Retryable (c : FailureClass) : bool := bool_decide (c = FailureClassTransient).

(** ** Lemmas *)

Lemma lengthPrefixed_inj ps qs : lengthPrefixed ps = lengthPrefixed qs → ps = qs.
Proof.
  revert qs. induction ps as [|p ps IH]; intros [|q qs]; simpl; [done|..].
  - intros H%(f_equal String.length). rewrite length_string_app in H. simpl in H. lia.
  - intros H%(f_equal String.length). rewrite length_string_app in H. simpl in H. lia.
  - intros [Hl%(inj FormatInt) H]%app_sep_inj; try apply FormatInt_no_colon.
    apply app_inj_length in H as [-> H]; [|unfold slen in Hl; lia].
    f_equal. by apply IH.
Qed.

Lemma round53_le p n :
  0 ≤ p → p ≤ n * 2 ^ 53 → 0 ≤ n < 2 ^ 53 → 0 ≤ round53 p ≤ n * 2 ^ 53.
Proof.
  intros Hp Hpn Hn. unfold round53. set (e := Z.max 0 (Z.log2 p - 52)).
  assert (He : 0 ≤ e ≤ 53).
  { destruct (decide (p = 0)) as [->|]; [by vm_compute|].
    assert (Z.log2 p < 106); [|lia]. apply Z.log2_lt_pow2; [lia|].
    replace (2 ^ 106) with (2 ^ 53 * 2 ^ 53) by reflexivity. nia. }
  assert (0 < 2 ^ e) by (apply Z.pow_pos_nonneg; lia).
  assert (Hb : n * 2 ^ 53 = (n * 2 ^ (53 - e)) * 2 ^ e).
  { rewrite <-Z.mul_assoc, <-Z.pow_add_r by lia. do 2 f_equal. lia. }
  rewrite Hb in *. set (b := n * 2 ^ (53 - e)) in *.
  pose proof (Z.div_mod p (2 ^ e)). pose proof (Z.mod_pos_bound p (2 ^ e)).
  assert (p / 2 ^ e ≤ b) by (apply Z.div_le_upper_bound; nia).
  assert (0 ≤ p / 2 ^ e) by (apply Z.div_pos; lia).
  case_match; [|nia]. split; [nia|].
  destruct (decide (p / 2 ^ e = b)); [|nia]. exfalso.
  assert (p mod 2 ^ e = 0) as Hz by nia. rewrite Hz in *.
  match goal with H : _ || _ = true |- _ => apply orb_true_iff in H as [?|?] end; bool_hyps; lia.
Qed.

Lemma retryBackoff_bounds n : 0 < retryBackoff n ≤ retryCapDelay.
Proof.
  unfold retryBackoff. case_match; [by vm_compute|]. bool_hyps. lia.
Qed.

Lemma FullJitterDelay_bounds n draw :
  0 ≤ draw < 2 ^ 53 → 0 ≤ FullJitterDelay n draw ≤ retryBackoff n.
Proof.
  intros Hd. unfold FullJitterDelay. pose proof (retryBackoff_bounds n) as Hb.
  assert (retryCapDelay < 2 ^ 53) by reflexivity.
  destruct (round53_le (draw * retryBackoff n) (retryBackoff n)) as [H1 H2]; [nia..|].
  split; [apply Z.div_pos; lia|]. apply Z.div_le_upper_bound; lia.
Qed.

(** The bound ADR 0004 documents: [min(5 minutes, 5 seconds * 2^(n-1))]. *)
Definition documentedBackoff (n : Z) : Z := Z.min (5 * minute) (5 * second * 2 ^ (n - 1)).

Lemma retryBackoff_documented n : 1 ≤ n → retryBackoff n = documentedBackoff n.
Proof.
  intros Hn. unfold retryBackoff, documentedBackoff.
  rewrite (proj2 (Z.ltb_ge n 1)) by lia.
  assert (0 < retryBaseDelay) by reflexivity.
  destruct (20 <? n - 1) eqn:E; bool_hyps.
  - replace (retryCapDelay <? retryBaseDelay * 2 ^ 20) with true by reflexivity. simpl.
    unfold retryCapDelay. symmetry. apply Z.min_l.
    assert (2 ^ 20 ≤ 2 ^ (n - 1)) by (apply Z.pow_le_mono_r; lia).
    transitivity (5 * second * 2 ^ 20); [by vm_compute|]. unfold second. nia.
  - assert (0 < 2 ^ (n - 1)) by (apply Z.pow_pos_nonneg; lia).
    change (5 * second) with retryBaseDelay. change (5 * minute) with retryCapDelay.
    rewrite (proj2 (Z.leb_gt _ 0)) by nia. rewrite orb_false_r.
    destruct (retryCapDelay <? _) eqn:E2; bool_hyps; lia.
Qed.

(** Two jobs that both validate and carry the same payload digest agree
    on every field the digest covers, unless their length-prefixed encodings
    are a SHA-256 collision: no field's content can be reinterpreted as a
    boundary between fields. *)
Theorem payload_digest_binds_fields j k :
  Validate j = true → Validate k = true → job_PayloadDigest j = job_PayloadDigest k →
  (job_OwnerID j = job_OwnerID k ∧ job_ProjectID j = job_ProjectID k ∧
   job_EnvironmentID j = job_EnvironmentID k ∧ job_ServerID j = job_ServerID k ∧
   job_DeploymentID j = job_DeploymentID k ∧ job_RepositoryID j = job_RepositoryID k ∧
   job_Ref j = job_Ref k ∧ job_CommitSHA j = job_CommitSHA k ∧
   job_Priority j = job_Priority k ∧ job_IdempotencyKey j = job_IdempotencyKey k ∧
   FormatRFC3339Nano (instant (job_AvailableAt j)) = FormatRFC3339Nano (instant (job_AvailableAt k))) ∨
  (lengthPrefixed (payloadParts j) ≠ lengthPrefixed (payloadParts k) ∧
   Sum256 (lengthPrefixed (payloadParts j)) = Sum256 (lengthPrefixed (payloadParts k))).
Proof.
  unfold Validate. intros Hj Hk Hd. bool_hyps. unfold payloadDigest in *.
  destruct (decide (lengthPrefixed (payloadParts j) = lengthPrefixed (payloadParts k))) as [He|Hne].
  - left. apply lengthPrefixed_inj in He. unfold payloadParts in He. simplify_eq.
    split_and!; try done; by apply (inj FormatInt).
  - right. split; [done|]. congruence.
Qed.

(** the retry delay stays inside ADR 0004's documented window
    [[0, min(5m, 5s * 2^(n-1))]] for every attempt number the package can
    produce and beyond, whatever 53-bit random draw is made: no overflow in
    the shift, and the double rounding never escapes the cap. *)
Theorem full_jitter_delay_in_window n draw :
  1 ≤ n → 0 ≤ draw < 2 ^ 53 → 0 ≤ FullJitterDelay n draw ≤ documentedBackoff n.
Proof. intros Hn Hd. rewrite <-retryBackoff_documented by done. by apply FullJitterDelay_bounds. Qed.

(** ** Witnesses *)

Definition exampleJob : option Job :=
  NewDeploymentExecutionJob "owner" "project" "env" "server" "deployment" 4
    "refs/heads/main" "0123456789abcdef0123456789abcdef01234567" "intent-1" 100
    (719162 * 86400 * second + 1500).

Lemma payload_digest_binds_fields_witness :
  ∃ j, exampleJob = Some j ∧ Validate j = true ∧
  ((job_ServerID j = job_ServerID j) ∨
   (lengthPrefixed (payloadParts j) ≠ lengthPrefixed (payloadParts j))).
Proof.
  destruct exampleJob as [j|] eqn:E; [|vm_compute in E; discriminate].
  assert (Validate j = true) as Hv.
  { revert E. unfold exampleJob, NewDeploymentExecutionJob. case_match; [|done]. by intros [= <-]. }
  exists j. split; [done|]. split; [done|].
  destruct (payload_digest_binds_fields j j Hv Hv eq_refl) as [H|[H _]]; [left; apply H|by right].
Defined.

Lemma full_jitter_delay_in_window_witness : 0 ≤ FullJitterDelay 3 (2 ^ 52 + 12345) ≤ 20 * second.
Proof. refine (full_jitter_delay_in_window 3 (2 ^ 52 + 12345) _ _); lia. Defined.
