(* ===== verification/Route.v ===== *)
(** * The route document (src/internal/runtime/traefik, dockerid, healthgate)

    Validation of an environment route, the hand-written YAML rendering, its
    digest, and the names derived from opaque identifiers.  The control plane
    renders a route when it authorizes an activation and stores the digest;
    the agent renders the same route and compares. *)
From S2P Require Import Prelude GoStd Queue.
From Stdlib Require Import Ascii.
#[local] Open Scope Z_scope.

(** ** Identifiers *)

Definition isDigit (b : Z) : bool := (48 <=? b) && (b <=? 57).
Definition isLower (b : Z) : bool := (97 <=? b) && (b <=? 122).
Definition isUpper (b : Z) : bool := (65 <=? b) && (b <=? 90).
Definition isAlnum (b : Z) : bool := isDigit b || isLower b || isUpper b.
Definition isIdByte (b : Z) : bool := isAlnum b || (b =? 45) || (b =? 95).

(** [^[A-Za-z0-9][A-Za-z0-9_-]{0,max}$] *)
Definition matchIdentifier (max : Z) (s : string) : bool :=
  match s with
  | EmptyString => false
  | String c r => isAlnum (byte_of c) && forallBytes isIdByte r && (slen r <=? max)
  end.
Definition identifierPattern : string → bool := matchIdentifier 127.
Definition staticNamePattern : string → bool := matchIdentifier 62.

(** dockerid *)
Definition ContainerNamePrefix : string := "autodeploy-rt-".
(** [^[a-zA-Z0-9][a-zA-Z0-9_.-]+$] *)
Definition containerNamePattern (s : string) : bool :=
  match s with
  | EmptyString => false
  | String c r => isAlnum (byte_of c) && (1 <=? slen r) && forallBytes (λ b, isIdByte b || (b =? 46)) r
  end.
Definition ContainerName (runtimeInstanceID : string) : option string :=
  if negb (identifierPattern runtimeInstanceID) then None
  else
    let name := ContainerNamePrefix +:+ runtimeInstanceID in
    if 255 <? slen name then None
    else if negb (containerNamePattern name) then None
    else Some name.
Definition AttemptRuntimeInstanceID (attemptID : Z) : string := FormatInt attemptID.

(** healthgate.ValidRouteHostname *)
Definition MaxHostLabelBytes : Z := 253.
Definition isHostByte (b : Z) : bool := isDigit b || isLower b || (b =? 45).
Fixpoint lastByte (c : ascii) (s : string) : ascii :=
  match s with EmptyString => c | String c' r => lastByte c' r end.
(** [[a-z0-9](?:[a-z0-9-]{0,61}[a-z0-9])?] *)
Definition routeHostLabel (l : string) : bool :=
  match l with
  | EmptyString => false
  | String c r =>
      (slen l <=? 63) && forallBytes isHostByte l
      && negb (byte_of c =? 45) && negb (byte_of (lastByte c r) =? 45)
  end.
Definition ValidRouteHostname (host : string) : bool :=
  let labels := SplitByte "." host in
  negb (bool_decide (host = "")) && (slen host <=? MaxHostLabelBytes)
  && (2 <=? Z.of_nat (length labels)) && forallb routeHostLabel labels
  && negb (forallBytes isDigit (List.last labels "")).

(** ** The route and its document *)

Record EnvironmentRoute := {
  r_EnvironmentID : string; r_RouteRevision : Z; r_Hostname : string; r_EntrypointName : string;
  r_CertResolverName : string; r_BackendRuntimeInstanceID : string; r_BackendPort : Z;
  r_BackendScheme : string; r_ReleaseID : string; r_FenceID : string;
}.

Definition validBackendScheme (s : string) : bool := bool_decide (s = "http") || bool_decide (s = "https").

Definition validateRoute (r : EnvironmentRoute) : bool :=
  identifierPattern (r_EnvironmentID r) && ValidRouteHostname (r_Hostname r)
  && staticNamePattern (r_EntrypointName r) && staticNamePattern (r_CertResolverName r)
  && bool_decide (is_Some (ContainerName (r_BackendRuntimeInstanceID r)))
  && negb ((r_BackendPort r <? 1) || (65535 <? r_BackendPort r))
  && validBackendScheme (r_BackendScheme r)
  && identifierPattern (r_ReleaseID r) && identifierPattern (r_FenceID r).

Definition DefaultEntrypointName : string := "websecure".
Definition DefaultCertResolverName : string := "letsencrypt-production".

Definition routerName (r : EnvironmentRoute) : string := "autodeploy-router-" +:+ r_EnvironmentID r.
Definition serviceName (r : EnvironmentRoute) : string :=
  "autodeploy-svc-" +:+ r_EnvironmentID r +:+ "-" +:+ r_ReleaseID r +:+ "-" +:+ r_FenceID r.
Definition routeFileName (environmentID : string) : string := "environment-" +:+ environmentID +:+ ".yml".

Definition backendServerURL (r : EnvironmentRoute) : option string :=
  match ContainerName (r_BackendRuntimeInstanceID r) with
  | None => None
  | Some name => Some (r_BackendScheme r +:+ "://" +:+ name +:+ ":" +:+ FormatInt (r_BackendPort r))
  end.

(** [\x%02X] *)
Definition upperHexDigit (n : Z) : ascii := if n <? 10 then GoStd.ascii_of_byte (48 + n) else GoStd.ascii_of_byte (55 + n).

Definition quoteByte (c : ascii) : option string :=
  let b := byte_of c in
  if 128 <=? b then None
  else if b =? 92 then Some "\\"
  else if b =? 34 then Some (String "\" (String (GoStd.ascii_of_byte 34) ""))
  else if b =? 10 then Some "\n"
  else if b =? 13 then Some "\r"
  else if b =? 9 then Some "\t"
  else if (b <? 32) || (b =? 127)
       then Some (String "\" (String "x" (String (upperHexDigit (b / 16)) (String (upperHexDigit (b mod 16)) ""))))
  else Some (String c "").

Fixpoint quoteBody (s : string) : option string :=
  match s with
  | EmptyString => Some EmptyString
  | String c r =>
      match quoteByte c, quoteBody r with
      | Some q, Some qr => Some (q +:+ qr)
      | _, _ => None
      end
  end.

Definition dquote : ascii := GoStd.ascii_of_byte 34.
(** [None] is ErrNonASCIIValue. *)
Definition quoteYAMLString (s : string) : option string :=
  match quoteBody s with
  | Some q => Some (String dquote (q +:+ String dquote ""))
  | None => None
  end.

Definition backtick : string := String (GoStd.ascii_of_byte 96) "".
Definition ruleValue (hostname : string) : string := "Host(" +:+ backtick +:+ hostname +:+ backtick +:+ ")".

Definition newline : ascii := GoStd.ascii_of_byte 10.
Definition line (s rest : string) : string := s +:+ String newline rest.

(** The lines [renderDocument] writes, with the scalars already quoted. *)
Definition documentText (env : string) (rev : Z) (qrouter qrule qentry qservice qcert qurl : string) : string :=
  line "# Generated by autodeploy internal/runtime/traefik. Do not edit by hand;" (
  line "# this file is replaced atomically on every activation." (
  line ("# environment: " +:+ env) (
  line ("# route_revision: " +:+ FormatInt rev) (
  line "http:" (
  line "  routers:" (
  line ("    " +:+ qrouter +:+ ":") (
  line ("      rule: " +:+ qrule) (
  line "      entryPoints:" (
  line ("        - " +:+ qentry) (
  line ("      service: " +:+ qservice) (
  line "      tls:" (
  line ("        certResolver: " +:+ qcert) (
  line "  services:" (
  line ("    " +:+ qservice +:+ ":") (
  line "      loadBalancer:" (
  line "        servers:" (
  line ("          - url: " +:+ qurl) ""))))))))))))))))).

Definition renderDocument (r : EnvironmentRoute) (router service backendURL : string) : option string :=
  match quoteYAMLString router, quoteYAMLString (ruleValue (r_Hostname r)),
        quoteYAMLString (r_EntrypointName r), quoteYAMLString service,
        quoteYAMLString (r_CertResolverName r), quoteYAMLString backendURL with
  | Some qrouter, Some qrule, Some qentry, Some qservice, Some qcert, Some qurl =>
      Some (documentText (r_EnvironmentID r) (r_RouteRevision r) qrouter qrule qentry qservice qcert qurl)
  | _, _, _, _, _, _ => None
  end.

Definition Digest (doc : string) : string := "sha256:" +:+ EncodeToString (Sum256 doc).

(** [None] is ErrInvalidRoute. *)
Definition Render (r : EnvironmentRoute) : option (string * string) :=
  if negb (validateRoute r) then None
  else match backendServerURL r with
  | None => None
  | Some url =>
      match renderDocument r (routerName r) (serviceName r) url with
      | None => None
      | Some doc => Some (doc, Digest doc)
      end
  end.

(** ** Reading a YAML double-quoted scalar back

    The decoder a YAML reader applies after an opening quote: it returns the
    decoded content and the text after the closing quote, and refuses an
    unescaped control or non-ASCII byte. *)
Definition hexValue (c : ascii) : Z :=
  let b := byte_of c in if isDigit b then b - 48 else b - 55.

Fixpoint readScalar (s : string) : option (string * string) :=
  match s with
  | EmptyString => None
  | String c r =>
      let push (x : ascii) (res : option (string * string)) :=
        match res with Some (t, rest) => Some (String x t, rest) | None => None end in
      let b := byte_of c in
      if b =? 34 then Some (EmptyString, r)
      else if b =? 92 then
        match r with
        | EmptyString => None
        | String e r' =>
            let eb := byte_of e in
            if (eb =? 92) || (eb =? 34) then push e (readScalar r')
            else if eb =? 110 then push (GoStd.ascii_of_byte 10) (readScalar r')
            else if eb =? 114 then push (GoStd.ascii_of_byte 13) (readScalar r')
            else if eb =? 116 then push (GoStd.ascii_of_byte 9) (readScalar r')
            else if eb =? 120 then
              match r' with
              | String h1 (String h2 r'') => push (GoStd.ascii_of_byte (16 * hexValue h1 + hexValue h2)) (readScalar r'')
              | _ => None
              end
            else None
        end
      else if (b <? 32) || (127 <=? b) then None
      else push c (readScalar r)
  end.

Definition readDoubleQuoted (s : string) : option (string * string) :=
  match s with String c r => if byte_of c =? 34 then readScalar r else None | EmptyString => None end.

Lemma readScalar_quoteByte c q rest :
  quoteByte c = Some q →
  readScalar (q +:+ rest) = match readScalar rest with Some (t, r) => Some (String c t, r) | None => None end.
Proof.
  destruct c as [[] [] [] [] [] [] [] []]; intros H; vm_compute in H; (discriminate || (injection H as <-; reflexivity)).
Qed.

Lemma readScalar_quoteBody s q rest :
  quoteBody s = Some q → readScalar (q +:+ String dquote rest) = Some (s, rest).
Proof.
  revert q. induction s as [|c s IH]; intros q; simpl.
  - by intros [= <-].
  - destruct (quoteByte c) as [qc|] eqn:Ec; [|done]. destruct (quoteBody s) as [qs|]; [|done].
    intros [= <-]. rewrite string_app_assoc, (readScalar_quoteByte c _ _ Ec), (IH qs) by done. done.
Qed.

Lemma quote_read s q rest : quoteYAMLString s = Some q → readDoubleQuoted (q +:+ rest) = Some (s, rest).
Proof.
  unfold quoteYAMLString. destruct (quoteBody s) as [b|] eqn:E; [|done]. intros [= <-].
  rewrite string_app_cons. unfold readDoubleQuoted. change (byte_of dquote =? 34) with true. cbv iota.
  rewrite string_app_assoc. by apply readScalar_quoteBody.
Qed.

Definition printable (b : Z) : bool := (32 <=? b) && (b <? 127).

Lemma quoteByte_printable c q : quoteByte c = Some q → forallBytes printable q = true.
Proof. destruct c as [[] [] [] [] [] [] [] []]; intros H; vm_compute in H; (discriminate || (injection H as <-; done)). Qed.

Lemma quote_printable s q : quoteYAMLString s = Some q → forallBytes printable q = true.
Proof.
  unfold quoteYAMLString. destruct (quoteBody s) as [b|] eqn:E; [|done]. intros [= <-].
  rewrite <-string_app_cons, forallBytes_app. rewrite andb_true_iff. split; [|done].
  change (forallBytes printable b = true). revert b E. induction s as [|c s IH]; intros b; simpl.
  - by intros [= <-].
  - destruct (quoteByte c) as [qc|] eqn:Ec; [|done]. destruct (quoteBody s) as [qs|]; [|done].
    intros [= <-]. rewrite forallBytes_app, (quoteByte_printable _ _ Ec). by apply IH.
Qed.

(** Every string of ASCII bytes is quotable. *)
Lemma quote_total s : forallBytes (λ b, b <? 128) s = true → is_Some (quoteYAMLString s).
Proof.
  intros H. unfold quoteYAMLString. assert (is_Some (quoteBody s)) as [q ->]; [|done].
  induction s as [|c s IH]; simpl in *; [by eexists|]. apply andb_true_iff in H as [Hc Hs].
  destruct (IH Hs) as [qs ->]. unfold quoteByte. bool_hyps. rewrite (proj2 (Z.leb_gt _ _)) by lia.
  repeat case_match; done.
Qed.

(** ** Injectivity of the rendering *)

Definition free (c : ascii) (s : string) : Prop := ContainsByte s (byte_of c) = false.

Lemma free_forall c (f : Z → bool) s : f (byte_of c) = false → forallBytes f s = true → free c s.
Proof.
  intros Hc. unfold free, ContainsByte. rewrite negb_false_iff. induction s as [|x s IH]; simpl; [done|].
  intros [Hx Hs]%andb_prop. rewrite (IH Hs), andb_true_r. apply negb_true_iff, Z.eqb_neq. congruence.
Qed.

Lemma free_app c a b : free c (a +:+ b) ↔ free c a ∧ free c b.
Proof. unfold free, ContainsByte. rewrite forallBytes_app, negb_andb, orb_false_iff. done. Qed.

Lemma free_cons c x s : free c (String x s) ↔ byte_of x ≠ byte_of c ∧ free c s.
Proof.
  unfold free, ContainsByte. simpl. rewrite negb_andb, orb_false_iff, negb_involutive, Z.eqb_neq. done.
Qed.

(** Splitting at the last separator instead of the first. *)
Lemma app_sep_inj_last sep a b x y :
  free sep x → free sep y → a +:+ String sep x = b +:+ String sep y → a = b ∧ x = y.
Proof.
  intros Hx Hy. revert b. induction a as [|c a IH]; intros [|c' b].
  - by intros [= ->].
  - rewrite string_app_cons. intros [= <- E]. exfalso. subst x. apply free_app in Hx as [_ Hx].
    apply free_cons in Hx as [? _]. done.
  - rewrite string_app_cons. intros [= -> E]. exfalso. subst y. apply free_app in Hy as [_ Hy].
    apply free_cons in Hy as [? _]. done.
  - rewrite !string_app_cons. intros [= -> [-> ->]%IH]. done.
Qed.

Lemma line_inj a b x y : free newline a → free newline b → line a x = line b y → a = b ∧ x = y.
Proof. unfold line, free. apply app_sep_inj. Qed.

Lemma identifier_free c max s : isIdByte (byte_of c) = false → matchIdentifier max s = true → free c s.
Proof.
  intros Hc. unfold matchIdentifier. destruct s as [|x s]; [done|]. intros H. bool_hyps.
  apply (free_forall c isIdByte); [done|]. simpl. rewrite andb_true_iff. split; [|done].
  unfold isIdByte. match goal with H : isAlnum _ = true |- _ => by rewrite H end.
Qed.

Lemma FormatInt_free c n : decimalByte (byte_of c) = false → free c (FormatInt n).
Proof. intros Hc. apply (free_forall c decimalByte); [done|]. apply FormatInt_decimal. Qed.

Lemma quote_free_newline s q : quoteYAMLString s = Some q → free newline q.
Proof. intros H. apply (free_forall newline printable); [done|]. by eapply quote_printable. Qed.

Lemma quote_inj s t q : quoteYAMLString s = Some q → quoteYAMLString t = Some q → s = t.
Proof.
  intros Hs%(quote_read _ _ "") Ht%(quote_read _ _ ""). rewrite Hs in Ht. by simplify_eq.
Qed.

Lemma ContainerName_Some id name :
  ContainerName id = Some name → name = ContainerNamePrefix +:+ id ∧ identifierPattern id = true.
Proof. unfold ContainerName. destruct (identifierPattern id); [|done]. simpl. repeat case_match; try done. by intros [= <-]. Qed.

Lemma ruleValue_inj a b : ruleValue a = ruleValue b → a = b.
Proof.
  unfold ruleValue. intros H%app_inj_l%app_inj_l. unfold backtick in H.
  replace (String (GoStd.ascii_of_byte 96) "" +:+ ")") with (String (GoStd.ascii_of_byte 96) ")") in H by done.
  apply app_sep_inj_last in H as [? _]; done.
Qed.

Lemma backendServerURL_inj r s u :
  validBackendScheme (r_BackendScheme r) = true → validBackendScheme (r_BackendScheme s) = true →
  backendServerURL r = Some u → backendServerURL s = Some u →
  r_BackendScheme r = r_BackendScheme s ∧ r_BackendRuntimeInstanceID r = r_BackendRuntimeInstanceID s ∧
  r_BackendPort r = r_BackendPort s.
Proof.
  intros Hr Hs. unfold backendServerURL.
  destruct (ContainerName (r_BackendRuntimeInstanceID r)) as [n|] eqn:E1; [|done].
  destruct (ContainerName (r_BackendRuntimeInstanceID s)) as [m|] eqn:E2; [|done].
  apply ContainerName_Some in E1 as [-> I1], E2 as [-> I2]. intros [= <-] [= E].
  assert (∀ x, validBackendScheme x = true → free ":" x) as Hfree.
  { intros x. unfold validBackendScheme. intros [H|H]%orb_true_iff; bool_hyps; by subst. }
  assert (∀ a b : string, a +:+ "://" +:+ b = a +:+ String ":" ("//" +:+ b)) as Hsplit by done.
  rewrite !Hsplit in E. apply app_sep_inj in E as [Es E]; [|by apply Hfree..].
  apply app_inj_l in E. rewrite !string_app_assoc in E. apply app_inj_l in E.
  apply app_sep_inj in E as [Ei Ep]; [|by eapply identifier_free..].
  split_and!; [done|done|]. by apply (inj FormatInt).
Qed.

Lemma serviceName_inj r s :
  r_EnvironmentID r = r_EnvironmentID s → free "-" (r_FenceID r) → free "-" (r_FenceID s) →
  serviceName r = serviceName s → r_ReleaseID r = r_ReleaseID s ∧ r_FenceID r = r_FenceID s.
Proof.
  unfold serviceName. intros -> H1 H2 E%app_inj_l%app_inj_l%app_inj_l. by apply app_sep_inj_last in E.
Qed.

Lemma SplitByte_forall f sep s :
  f (byte_of sep) = true → forallb (forallBytes f) (SplitByte sep s) = true → forallBytes f s = true.
Proof.
  intros Hf. induction s as [|c s IH]; simpl; [done|].
  destruct (Ascii.eqb_spec c sep) as [->|]; simpl.
  - intros H. rewrite Hf. by apply IH.
  - destruct (SplitByte sep s) as [|x xs] eqn:E; simpl; intros H; bool_hyps.
    + destruct s as [|y s]; simpl in E; [done|]. repeat case_match; done.
    + simpl in *. rewrite andb_true_iff. split; [done|]. apply IH. by rewrite andb_true_iff.
Qed.

Definition ascii7 (b : Z) : bool := b <? 128.

Lemma forallBytes_impl (f g : Z → bool) s :
  (∀ b, f b = true → g b = true) → forallBytes f s = true → forallBytes g s = true.
Proof. intros Hfg. induction s as [|c s IH]; simpl; [done|]. intros [??]%andb_prop. rewrite andb_true_iff; auto. Qed.

Lemma isIdByte_ascii b : isIdByte b = true → ascii7 b = true.
Proof. unfold isIdByte, isAlnum, isDigit, isLower, isUpper, ascii7. rewrite !orb_true_iff, !andb_true_iff. lia. Qed.

Lemma identifier_ascii max s : matchIdentifier max s = true → forallBytes ascii7 s = true.
Proof.
  unfold matchIdentifier. destruct s as [|x s]; [done|]. intros H. bool_hyps. simpl. rewrite andb_true_iff. split.
  - apply isIdByte_ascii. unfold isIdByte. match goal with H : isAlnum _ = true |- _ => by rewrite H end.
  - eapply forallBytes_impl; [apply isIdByte_ascii|done].
Qed.

Lemma hostname_ascii h : ValidRouteHostname h = true → forallBytes ascii7 h = true.
Proof.
  unfold ValidRouteHostname. intros H. bool_hyps. apply (SplitByte_forall ascii7 "."); [done|].
  apply forallb_forall. intros l Hl.
  match goal with H : forallb routeHostLabel _ = true |- _ => pose proof (proj1 (forallb_forall _ _) H l Hl) as H' end.
  unfold routeHostLabel in H'. destruct l as [|c l]; [done|]. bool_hyps. eapply forallBytes_impl; [|done].
  intros b. unfold isHostByte, isDigit, isLower, ascii7. rewrite !orb_true_iff, !andb_true_iff. lia.
Qed.

Lemma FormatInt_ascii n : forallBytes ascii7 (FormatInt n) = true.
Proof.
  eapply forallBytes_impl; [|apply FormatInt_decimal]. intros b. unfold decimalByte, ascii7.
  rewrite !orb_true_iff, !andb_true_iff. lia.
Qed.

Ltac ascii_parts := rewrite ?forallBytes_app, ?andb_true_iff; split_and?;
  eauto using identifier_ascii, hostname_ascii, FormatInt_ascii.

Lemma renderDocument_total r url :
  validateRoute r = true → backendServerURL r = Some url →
  is_Some (renderDocument r (routerName r) (serviceName r) url).
Proof.
  unfold validateRoute. intros Hv Hu. bool_hyps. unfold backendServerURL in Hu.
  destruct (ContainerName _) as [n|] eqn:En; [|done]. injection Hu as <-. apply ContainerName_Some in En as [-> Hid].
  assert (forallBytes ascii7 (r_BackendScheme r) = true).
  { match goal with H : validBackendScheme _ = true |- _ => unfold validBackendScheme in H;
      apply orb_true_iff in H as [H|H]; apply bool_decide_eq_true in H; by rewrite H end. }
  unfold renderDocument, routerName, serviceName, ruleValue.
  destruct (quote_total ("autodeploy-router-" +:+ r_EnvironmentID r)) as [? ->]; [ascii_parts|].
  destruct (quote_total ("Host(" +:+ backtick +:+ r_Hostname r +:+ backtick +:+ ")")) as [? ->]; [ascii_parts|].
  destruct (quote_total (r_EntrypointName r)) as [? ->]; [ascii_parts|].
  destruct (quote_total ("autodeploy-svc-" +:+ r_EnvironmentID r +:+ "-" +:+ r_ReleaseID r +:+ "-" +:+ r_FenceID r))
    as [? ->]; [ascii_parts|].
  destruct (quote_total (r_CertResolverName r)) as [? ->]; [ascii_parts|].
  destruct (quote_total (r_BackendScheme r +:+ "://" +:+ (ContainerNamePrefix +:+ r_BackendRuntimeInstanceID r) +:+
    ":" +:+ FormatInt (r_BackendPort r))) as [? ->]; [ascii_parts|]. done.
Qed.

Lemma documentText_inj e n a1 a2 a3 a4 a5 a6 e' n' b1 b2 b3 b4 b5 b6 :
  Forall (free newline) [e; a1; a2; a3; a4; a5; a6] → Forall (free newline) [e'; b1; b2; b3; b4; b5; b6] →
  documentText e n a1 a2 a3 a4 a5 a6 = documentText e' n' b1 b2 b3 b4 b5 b6 →
  e = e' ∧ n = n' ∧ [a1; a2; a3; a4; a5; a6] = [b1; b2; b3; b4; b5; b6].
Proof.
  rewrite !Forall_cons. intros (?&?&?&?&?&?&?&_) (?&?&?&?&?&?&?&_) Heq. unfold documentText in Heq.
  assert (∀ k, free newline (FormatInt k)) by (intros; by apply FormatInt_free).
  repeat (apply line_inj in Heq; [destruct Heq as [? Heq]|by rewrite ?free_app..]).
  repeat match goal with E : _ +:+ ?x = _ +:+ ?y |- _ => apply app_inj_l in E end.
  assert (∀ x y : string, x +:+ ":" = y +:+ ":" → x = y) as Hcolon.
  { intros x y E. by apply (app_sep_inj_last ":" x y "" "") in E as [-> _]. }
  repeat match goal with E : _ +:+ ":" = _ +:+ ":" |- _ => apply Hcolon in E end.
  subst. split_and!; [done| |done]. by apply (inj FormatInt).
Qed.

Lemma renderDocument_text r u d :
  renderDocument r (routerName r) (serviceName r) u = Some d → identifierPattern (r_EnvironmentID r) = true →
  ∃ q1 q2 q3 q4 q5 q6, d = documentText (r_EnvironmentID r) (r_RouteRevision r) q1 q2 q3 q4 q5 q6 ∧
    quoteYAMLString (routerName r) = Some q1 ∧ quoteYAMLString (ruleValue (r_Hostname r)) = Some q2 ∧
    quoteYAMLString (r_EntrypointName r) = Some q3 ∧ quoteYAMLString (serviceName r) = Some q4 ∧
    quoteYAMLString (r_CertResolverName r) = Some q5 ∧ quoteYAMLString u = Some q6 ∧
    Forall (free newline) [r_EnvironmentID r; q1; q2; q3; q4; q5; q6].
Proof.
  unfold renderDocument. intros H Hid. repeat case_match; try done. injection H as <-.
  eexists _, _, _, _, _, _. split_and!; try done. rewrite !Forall_cons.
  split_and!; try (by eapply quote_free_newline); [by eapply identifier_free|done].
Qed.

(** ** Theorems *)

(** quoting is injection-proof: whatever text follows the quoted scalar in
    the document, a YAML reader that starts at the opening quote decodes
    exactly the original bytes and stops at the closing quote written for
    them; the scalar itself contains no control or non-ASCII byte. *)
Theorem quote_yaml_roundtrip s q rest :
  quoteYAMLString s = Some q →
  readDoubleQuoted (q +:+ rest) = Some (s, rest) ∧ forallBytes printable q = true.
Proof. intros H. split; [by apply quote_read|by eapply quote_printable]. Qed.

(** Rendering succeeds on exactly the routes that validate: the ASCII
    precondition of the quoting never fails behind the validation. *)
Theorem render_total r : is_Some (Render r) ↔ validateRoute r = true.
Proof.
  unfold Render. destruct (validateRoute r) eqn:Hv; simpl.
  - split; [done|]. intros _. assert (is_Some (backendServerURL r)) as [u Hu].
    { unfold validateRoute in Hv. bool_hyps. unfold backendServerURL.
      match goal with H : is_Some (ContainerName _) |- _ => destruct H as [n ->] end. by eexists. }
    rewrite Hu. destruct (renderDocument_total r u Hv Hu) as [doc ->]. by eexists.
  - split; [intros [? ?]; done|done].
Qed.

(** two routes with hyphen-free fences, as Activate builds them, that
    render to the same document are the same route: no field of the
    authorized route can differ behind an equal document. *)
Theorem render_injective r s doc dg1 dg2 :
  free "-" (r_FenceID r) → free "-" (r_FenceID s) →
  Render r = Some (doc, dg1) → Render s = Some (doc, dg2) → r = s ∧ dg1 = dg2.
Proof.
  unfold Render. intros Hf1 Hf2. destruct (validateRoute r) eqn:V1; [|done]. destruct (validateRoute s) eqn:V2; [|done].
  simpl. destruct (backendServerURL r) as [u1|] eqn:U1; [|done]. destruct (backendServerURL s) as [u2|] eqn:U2; [|done].
  destruct (renderDocument r _ _ _) as [d1|] eqn:D1; [|done]. destruct (renderDocument s _ _ _) as [d2|] eqn:D2; [|done].
  intros [= -> <-] [= -> <-]. split; [|done]. unfold validateRoute in V1, V2. bool_hyps.
  apply renderDocument_text in D1 as (a1&a2&a3&a4&a5&a6&->&A1&A2&A3&A4&A5&A6&FA); [|done].
  apply renderDocument_text in D2 as (b1&b2&b3&b4&b5&b6&E&B1&B2&B3&B4&B5&B6&FB); [|done].
  apply documentText_inj in E as (E1&E2&E3); [|done..]. injection E3 as -> -> -> -> -> ->.
  assert (u1 = u2) as -> by by eapply quote_inj.
  destruct (serviceName_inj r s) as [E3 E4]; [done..|by eapply quote_inj|].
  destruct (backendServerURL_inj r s u2) as (E5&E6&E7); [done..|].
  assert (r_Hostname r = r_Hostname s) as E8 by (eapply ruleValue_inj, quote_inj; done).
  assert (r_EntrypointName r = r_EntrypointName s) as E9 by by eapply quote_inj.
  assert (r_CertResolverName r = r_CertResolverName s) as E10 by by eapply quote_inj.
  destruct r, s. simpl in *. by simplify_eq.
Qed.

(** ** Witnesses *)

Definition exampleRoute (release fence : string) : EnvironmentRoute :=
  {| r_EnvironmentID := "env-1"; r_RouteRevision := 4; r_Hostname := "app.example.com";
     r_EntrypointName := DefaultEntrypointName; r_CertResolverName := DefaultCertResolverName;
     r_BackendRuntimeInstanceID := AttemptRuntimeInstanceID 17; r_BackendPort := 8080; r_BackendScheme := "http";
     r_ReleaseID := release; r_FenceID := fence |}.

Lemma quote_yaml_roundtrip_witness :
  ∃ q, quoteYAMLString (String newline "a: ") = Some q ∧
       readDoubleQuoted (q +:+ " # tail") = Some (String newline "a: ", " # tail").
Proof.
  destruct (quoteYAMLString (String newline "a: ")) as [q|] eqn:E; [|vm_compute in E; discriminate].
  exists q. split; [done|]. exact (proj1 (quote_yaml_roundtrip _ q " # tail" E)).
Defined.

Lemma render_injective_witness :
  ∃ doc dg, Render (exampleRoute "rel-9" "12") = Some (doc, dg) ∧
  exampleRoute "rel-9" "12" = exampleRoute "rel-9" (FormatInt 12) ∧ dg = dg.
Proof.
  destruct (Render (exampleRoute "rel-9" "12")) as [[doc dg]|] eqn:E; [|vm_compute in E; discriminate].
  exists doc, dg. split; [done|].
  exact (render_injective (exampleRoute "rel-9" "12") (exampleRoute "rel-9" (FormatInt 12)) doc dg dg
    eq_refl eq_refl E E).
Defined.

(** Outside that use the service name alone is ambiguous: with a hyphen in the
    fence, two different routes render to the same document. *)
Example hyphenated_fence_ambiguous :
  exampleRoute "rel-9" "12" ≠ exampleRoute "rel" "9-12" ∧
  fst <$> Render (exampleRoute "rel-9" "12") = fst <$> Render (exampleRoute "rel" "9-12").
Proof. split; [done|]. by vm_compute. Qed.
