(* ===== verification/Regex.v ===== *)
(** * Go's [regexp] on the patterns the modelled packages compile

    Every pattern of the modelled source is anchored at both ends and matched
    with [MatchString], so a pattern is a language of byte strings.  The
    abstract syntax below has the constructs those patterns use; a pattern is
    transcribed from its source text, [MatchString] runs it by derivatives,
    and [Matches] is the language it denotes.  [MatchString_iff] says the two
    agree, so what a validator accepts can be stated without the automaton. *)
From S2P Require Import Prelude GoStd.
From Stdlib Require Import Ascii.
#[local] Open Scope Z_scope.

Inductive regex :=
  | RNone
  | REps
  | RClass (f : Z → bool)
  | RSeq (r1 r2 : regex)
  | RAlt (r1 r2 : regex)
  | RStar (r : regex).

(** [(?:r)?], [r{n}], [r{0,n}] and [(?:r)+] *)
Definition ROpt (r : regex) : regex := RAlt r REps.
Fixpoint RTimes (n : nat) (r : regex) : regex := match n with O => REps | S n' => RSeq r (RTimes n' r) end.
Fixpoint RUpTo (n : nat) (r : regex) : regex := match n with O => REps | S n' => ROpt (RSeq r (RUpTo n' r)) end.
Definition RPlus (r : regex) : regex := RSeq r (RStar r).
(** One literal byte. *)
Definition RChar (c : ascii) : regex := RClass (λ b, b =? byte_of c).
(** A byte of a class written as a list of single bytes. *)
Definition oneOf (set : string) (b : Z) : bool := ContainsByte set b.

Inductive Matches : regex → string → Prop :=
  | m_eps : Matches REps ""
  | m_class f c : f (byte_of c) = true → Matches (RClass f) (String c "")
  | m_seq r1 r2 x y : Matches r1 x → Matches r2 y → Matches (RSeq r1 r2) (x +:+ y)
  | m_left r1 r2 x : Matches r1 x → Matches (RAlt r1 r2) x
  | m_right r1 r2 x : Matches r2 x → Matches (RAlt r1 r2) x
  | m_star_nil r : Matches (RStar r) ""
  | m_star_cons r x y : Matches r x → Matches (RStar r) y → Matches (RStar r) (x +:+ y).

(** ** Matching by derivatives *)

Fixpoint nullable (r : regex) : bool :=
  match r with
  | RNone | RClass _ => false
  | REps | RStar _ => true
  | RSeq r1 r2 => nullable r1 && nullable r2
  | RAlt r1 r2 => nullable r1 || nullable r2
  end.

(** Constructors that drop dead branches. *)
Definition seq_ (r1 r2 : regex) : regex :=
  match r1, r2 with RNone, _ | _, RNone => RNone | REps, _ => r2 | _, _ => RSeq r1 r2 end.
Definition alt_ (r1 r2 : regex) : regex :=
  match r1, r2 with RNone, _ => r2 | _, RNone => r1 | _, _ => RAlt r1 r2 end.

Fixpoint deriv (b : Z) (r : regex) : regex :=
  match r with
  | RNone | REps => RNone
  | RClass f => if f b then REps else RNone
  | RSeq r1 r2 =>
      if nullable r1 then alt_ (seq_ (deriv b r1) r2) (deriv b r2) else seq_ (deriv b r1) r2
  | RAlt r1 r2 => alt_ (deriv b r1) (deriv b r2)
  | RStar r => seq_ (deriv b r) (RStar r)
  end.

Fixpoint MatchString (r : regex) (s : string) : bool :=
  match s with EmptyString => nullable r | String c s' => MatchString (deriv (byte_of c) r) s' end.

(** ** What each construct denotes *)

Lemma Matches_none s : Matches RNone s ↔ False.
Proof. split; [inversion 1|done]. Qed.
Lemma Matches_eps s : Matches REps s ↔ s = "".
Proof. split; [by inversion 1|intros ->; constructor]. Qed.
Lemma Matches_class f s : Matches (RClass f) s ↔ ∃ c, s = String c "" ∧ f (byte_of c) = true.
Proof. split; [inversion 1; subst; eauto|intros (c'&->&?); by constructor]. Qed.
Lemma Matches_seq r1 r2 s : Matches (RSeq r1 r2) s ↔ ∃ x y, s = x +:+ y ∧ Matches r1 x ∧ Matches r2 y.
Proof. split; [inversion 1; subst; eauto 6|intros (x&y&->&?&?); by constructor]. Qed.
Lemma Matches_alt r1 r2 s : Matches (RAlt r1 r2) s ↔ Matches r1 s ∨ Matches r2 s.
Proof. split; [inversion 1; subst; eauto|intros [?|?]; [by apply m_left|by apply m_right]]. Qed.
Lemma Matches_opt r s : Matches (ROpt r) s ↔ Matches r s ∨ s = "".
Proof. unfold ROpt. by rewrite Matches_alt, Matches_eps. Qed.
Lemma Matches_char c s : Matches (RChar c) s ↔ s = String c "".
Proof.
  unfold RChar. rewrite Matches_class. split; [intros (c'&->&E%Z.eqb_eq)|intros ->; exists c; by rewrite Z.eqb_refl].
  f_equal. unfold byte_of in E. apply N2Z.inj in E. by rewrite <-(ascii_N_embedding c'), E, ascii_N_embedding.
Qed.

(** A non-empty string of a star begins with a non-empty string of its body. *)
Lemma Matches_star_string r c s :
  Matches (RStar r) (String c s) ↔ ∃ x y, s = x +:+ y ∧ Matches r (String c x) ∧ Matches (RStar r) y.
Proof.
  split.
  - intros H. remember (RStar r) as e eqn:Ee. remember (String c s) as t eqn:Et. revert c s Et.
    induction H as [| | | | | |r' x y Hx _ Hy IH]; intros c1 s1 Et; try done. injection Ee as ->.
    destruct x as [|c' x]; [by apply IH|]. rewrite string_app_cons in Et. injection Et as -> <-. eauto.
  - intros (x&y&->&Hx&Hy). rewrite <-string_app_cons. by apply m_star_cons.
Qed.

Lemma nullable_iff r : nullable r = true ↔ Matches r "".
Proof.
  induction r as [| |f|r1 IH1 r2 IH2|r1 IH1 r2 IH2|r IH]; simpl.
  - by rewrite Matches_none.
  - by rewrite Matches_eps.
  - rewrite Matches_class. naive_solver.
  - rewrite andb_true_iff, IH1, IH2, Matches_seq. split.
    + intros [??]. by exists "", "".
    + intros (x&y&E&?&?). destruct x; [|done]. by destruct y.
  - by rewrite orb_true_iff, IH1, IH2, Matches_alt.
  - split; [intros _; constructor|done].
Qed.

Lemma Matches_seq_ r1 r2 s : Matches (seq_ r1 r2) s ↔ Matches (RSeq r1 r2) s.
Proof.
  assert (∀ r, Matches (RSeq RNone r) s ↔ False) as H1.
  { intros r. rewrite Matches_seq. setoid_rewrite Matches_none. naive_solver. }
  assert (∀ r, Matches (RSeq r RNone) s ↔ False) as H2.
  { intros r. rewrite Matches_seq. setoid_rewrite Matches_none. naive_solver. }
  assert (∀ r, Matches (RSeq REps r) s ↔ Matches r s) as H3.
  { intros r. rewrite Matches_seq. setoid_rewrite Matches_eps. split; [by intros (?&?&->&->&?)|intros ?; by exists "", s]. }
  destruct r1, r2; simpl; rewrite ?H1, ?H2, ?H3, ?Matches_none; done.
Qed.
Lemma Matches_alt_ r1 r2 s : Matches (alt_ r1 r2) s ↔ Matches (RAlt r1 r2) s.
Proof. rewrite Matches_alt. destruct r1, r2; simpl; rewrite ?Matches_none, ?Matches_alt; tauto. Qed.

Lemma Matches_deriv r c s : Matches (deriv (byte_of c) r) s ↔ Matches r (String c s).
Proof.
  revert s. induction r as [| |f|r1 IH1 r2 IH2|r1 IH1 r2 IH2|r IH]; intros s; simpl.
  - by rewrite !Matches_none.
  - rewrite Matches_none, Matches_eps. naive_solver.
  - rewrite Matches_class. destruct (f (byte_of c)) eqn:E.
    + rewrite Matches_eps. split; [intros ->; eauto|by intros (d&[= <- ->]&_)].
    + rewrite Matches_none. split; [done|]. intros (d&[= <- ->]&?). congruence.
  - assert (Matches (seq_ (deriv (byte_of c) r1) r2) s ↔ ∃ x y, s = x +:+ y ∧ Matches r1 (String c x) ∧ Matches r2 y) as Hs.
    { rewrite Matches_seq_, Matches_seq. by setoid_rewrite IH1. }
    rewrite Matches_seq. destruct (nullable r1) eqn:En.
    + rewrite Matches_alt_, Matches_alt, Hs, IH2. apply nullable_iff in En. split.
      * intros [(x&y&->&?&?)|?]; [exists (String c x), y|exists "", (String c s)]; done.
      * intros (x&y&E&?&?). destruct x as [|c' x]; [right; by rewrite E|].
        rewrite string_app_cons in E. injection E as <- ->. left. eauto.
    + rewrite Hs. split; [intros (x&y&->&?&?); by exists (String c x), y|].
      intros (x&y&E&?&?). destruct x as [|c' x].
      * assert (nullable r1 = true) by by apply nullable_iff. congruence.
      * rewrite string_app_cons in E. injection E as <- ->. eauto 6.
  - by rewrite Matches_alt_, !Matches_alt, IH1, IH2.
  - rewrite Matches_seq_, Matches_seq, Matches_star_string. by setoid_rewrite IH.
Qed.

(** The derivative matcher decides the language. *)
Lemma MatchString_iff r s : MatchString r s = true ↔ Matches r s.
Proof.
  revert r. induction s as [|c s IH]; intros r; simpl; [apply nullable_iff|]. by rewrite IH, Matches_deriv.
Qed.

(** ** Stars of classes and repetitions *)

Lemma Matches_star_class f s : Matches (RStar (RClass f)) s ↔ forallBytes f s = true.
Proof.
  induction s as [|c s IH]; simpl; [split; [done|constructor]|].
  rewrite Matches_star_string, andb_true_iff, <-IH. setoid_rewrite Matches_class. split.
  - intros (x&y&->&(c'&[= <- ->]&?)&?). done.
  - intros [??]. exists "", s. split_and!; [done| |done]. eauto.
Qed.

Lemma Matches_times_class n f s : Matches (RTimes n (RClass f)) s ↔ forallBytes f s = true ∧ String.length s = n.
Proof.
  revert s. induction n as [|n IH]; intros s; simpl.
  - rewrite Matches_eps. split; [by intros ->|]. destruct s; naive_solver.
  - rewrite Matches_seq. setoid_rewrite Matches_class. setoid_rewrite IH. split.
    + intros (x&y&->&(c1&->&Hc)&Hy& <-). simpl. by rewrite Hc.
    + destruct s as [|c s]; [naive_solver|]. simpl. rewrite andb_true_iff. intros [[??] [=<-]].
      exists (String c ""), s. eauto 6.
Qed.

Lemma Matches_upto_class n f s : Matches (RUpTo n (RClass f)) s ↔ forallBytes f s = true ∧ (String.length s ≤ n)%nat.
Proof.
  revert s. induction n as [|n IH]; intros s.
  - simpl. rewrite Matches_eps. split; [by intros ->; split|]. intros [_ H]. by destruct s; [|inversion H].
  - change (RUpTo (S n) (RClass f)) with (ROpt (RSeq (RClass f) (RUpTo n (RClass f)))).
    rewrite Matches_opt, Matches_seq. setoid_rewrite Matches_class. setoid_rewrite IH. split.
    + intros [(x&y&->&(c&->&Hc)&Hy&Hl)| ->]; [|split; [done|simpl; lia]].
      change (String c "" +:+ y) with (String c y). simpl. rewrite Hc. split; [done|lia].
    + destruct s as [|c s]; [by right|]. simpl. rewrite andb_true_iff. intros [[??] ?]. left.
      exists (String c ""), s. split_and!; [done|eauto|done|lia].
Qed.

(** A star is a sequence of pieces. *)
Definition concat_strings (l : list string) : string := foldr (λ a b : string, a +:+ b) "" l.
Lemma Matches_star r s : Matches (RStar r) s ↔ ∃ l, s = concat_strings l ∧ Forall (Matches r) l.
Proof.
  split.
  - intros H. remember (RStar r) as e eqn:Ee. induction H as [| | | | | |r' x y Hx _ Hy IH]; try done.
    + injection Ee as ->. by exists [].
    + destruct (IH Ee) as (l&->&Hl). injection Ee as ->. exists (x :: l). split; [done|by constructor].
  - intros (l&->&Hl). induction Hl; simpl; by constructor.
Qed.
