(* ===== verification/HealthGate.v ===== *)
(** * Health-gate targets and the gate (src/internal/healthgate/validate.go,
    src/internal/runtime/docker/health.go and classify.go)

    The patterns are transcribed from the source and denote languages of
    byte strings ([Regex]); the URL functions are those of [net/url] on a
    request-target that begins with a slash, which the validators have
    established before a URL is built.  The gate loop runs against an
    arbitrary container and an arbitrary clock. *)
From S2P Require Import Prelude GoStd Queue Route Regex.
From Stdlib Require Import Ascii.
From stdpp Require Import pretty.
#[local] Open Scope Z_scope.

(** ** validate.go *)

Definition MaxPathBytes : Z := 2048.

Definition isPathByte (b : Z) : bool := isAlnum b || oneOf "._~!$&'()*+,;=:@/-" b.
Definition isQueryByte (b : Z) : bool := isAlnum b || oneOf "._~!$&'()*+,;=:@/?-" b.
Definition isHexByte (b : Z) : bool := isDigit b || ((65 <=? b) && (b <=? 70)) || ((97 <=? b) && (b <=? 102)).

(** [%[0-9A-Fa-f]{2}] *)
Definition pctTriplet : regex := RSeq (RChar "%") (RTimes 2 (RClass isHexByte)).
Definition pathPattern : regex :=
  RSeq (RChar "/") (RSeq (RStar (RAlt (RClass isPathByte) pctTriplet))
    (ROpt (RSeq (RChar "?") (RStar (RAlt (RClass isQueryByte) pctTriplet))))).

Definition ValidPath (path : string) : bool :=
  if (slen path <? 1) || (MaxPathBytes <? slen path) then false
  else if HasPrefix path "//" then false
  else MatchString pathPattern path.

Definition isLabelByte (b : Z) : bool := isAlnum b || (b =? 45).
(** [[A-Za-z0-9](?:[A-Za-z0-9-]{0,61}[A-Za-z0-9])?] *)
Definition hostLabelPattern : regex :=
  RSeq (RClass isAlnum) (ROpt (RSeq (RUpTo 61 (RClass isLabelByte)) (RClass isAlnum))).

Definition digitIn (lo hi : Z) : regex := RClass (λ b, (48 + lo <=? b) && (b <=? 48 + hi)).
Definition anyDigit : regex := digitIn 0 9.
(** [6553[0-5]|655[0-2][0-9]|65[0-4][0-9]{2}|6[0-4][0-9]{3}|[1-5][0-9]{4}|[1-9][0-9]{0,3}] *)
Definition portPattern : regex :=
  RAlt (RSeq (RChar "6") (RSeq (RChar "5") (RSeq (RChar "5") (RSeq (RChar "3") (digitIn 0 5)))))
  (RAlt (RSeq (RChar "6") (RSeq (RChar "5") (RSeq (RChar "5") (RSeq (digitIn 0 2) anyDigit))))
  (RAlt (RSeq (RChar "6") (RSeq (RChar "5") (RSeq (digitIn 0 4) (RTimes 2 anyDigit))))
  (RAlt (RSeq (RChar "6") (RSeq (digitIn 0 4) (RTimes 3 anyDigit)))
  (RAlt (RSeq (digitIn 1 5) (RTimes 4 anyDigit))
        (RSeq (digitIn 1 9) (RUpTo 3 anyDigit)))))).

Definition hostPattern : regex :=
  RSeq hostLabelPattern (RSeq (RStar (RSeq (RChar ".") hostLabelPattern)) (ROpt (RSeq (RChar ":") portPattern))).

(** The part of [host] before the first colon, all of it when there is none. *)
Definition hostPart (host : string) : string := List.hd "" (SplitByte ":" host).

Definition ValidHost (host : string) : bool :=
  if bool_decide (host = "") || negb (MatchString hostPattern host) then false
  else slen (hostPart host) <=? MaxHostLabelBytes.

(** The pattern [ValidRouteHostname] matches. *)
Definition routeHostLabelPattern : regex :=
  RSeq (RClass (λ b, isLower b || isDigit b))
    (ROpt (RSeq (RUpTo 61 (RClass isHostByte)) (RClass (λ b, isLower b || isDigit b)))).
Definition routeHostnamePattern : regex := RSeq (RPlus (RSeq routeHostLabelPattern (RChar "."))) routeHostLabelPattern.

(** ** net/url, on a string that begins with a slash *)

Record URL := { u_Path : string; u_RawPath : string; u_RawQuery : string; u_ForceQuery : bool }.

(** [shouldEscape(c, encodePath)] *)
Definition shouldEscape (b : Z) : bool :=
  if isAlnum b then false
  else if oneOf "-_.~" b then false
  else if oneOf "$&+,/:;=?@" b then b =? byte_of "?"
  else true.

Definition upperHex (n : Z) : ascii := upperHexDigit n.
Fixpoint escapePath (s : string) : string :=
  match s with
  | EmptyString => EmptyString
  | String c r =>
      if shouldEscape (byte_of c)
      then String "%" (String (upperHex (byte_of c / 16)) (String (upperHex (byte_of c mod 16)) (escapePath r)))
      else String c (escapePath r)
  end.

Definition unhex (b : Z) : Z := if isDigit b then b - 48 else if 97 <=? b then b - 87 else b - 55.
(** [None] is [EscapeError]. *)
Fixpoint unescapePath (s : string) : option string :=
  match s with
  | EmptyString => Some EmptyString
  | String c r =>
      if byte_of c =? byte_of "%" then
        match r with
        | String h (String l r') =>
            if isHexByte (byte_of h) && isHexByte (byte_of l)
            then String (GoStd.ascii_of_byte (16 * unhex (byte_of h) + unhex (byte_of l))) <$> unescapePath r'
            else None
        | _ => None
        end
      else String c <$> unescapePath r
  end.

Definition validEncoded (s : string) : bool :=
  forallBytes (λ b, oneOf "!$&'()*+,;=:@" b || oneOf "[]" b || (b =? byte_of "%") || negb (shouldEscape b)) s.

(** [strings.Count] of one byte; [strings.Cut] at the first occurrence. *)
Fixpoint countByte (b : Z) (s : string) : Z :=
  match s with EmptyString => 0 | String c r => (if byte_of c =? b then 1 else 0) + countByte b r end.
Fixpoint cutByte (b : Z) (s : string) : string * string :=
  match s with
  | EmptyString => ("", "")
  | String c r => if byte_of c =? b then ("", r) else let '(x, y) := cutByte b r in (String c x, y)
  end.

Definition setPath (p : string) : option (string * string) :=
  path ← unescapePath p; Some (path, if bool_decide (p = escapePath path) then "" else p).

Definition ParseRequestURI (rawURL : string) : option URL :=
  if negb (forallBytes (λ b, (32 <=? b) && negb (b =? 127)) rawURL) then None
  else if negb (HasPrefix rawURL "/") then None
  else
    let forceQuery := HasSuffix rawURL "?" && (countByte (byte_of "?") rawURL =? 1) in
    let '(rest, rawQuery) := cutByte (byte_of "?") rawURL in
    pr ← setPath rest;
    Some {| u_Path := pr.1; u_RawPath := pr.2; u_RawQuery := if forceQuery then "" else rawQuery; u_ForceQuery := forceQuery |}.

Definition EscapedPath (u : URL) : string :=
  if negb (bool_decide (u_RawPath u = "")) && validEncoded (u_RawPath u)
     && bool_decide (unescapePath (u_RawPath u) = Some (u_Path u))
  then u_RawPath u
  else if bool_decide (u_Path u = "*") then "*"
  else escapePath (u_Path u).

Definition RequestURI (u : URL) : string :=
  let result := EscapedPath u in
  let result := if bool_decide (result = "") then "/" else result in
  if u_ForceQuery u || negb (bool_decide (u_RawQuery u = "")) then result +:+ "?" +:+ u_RawQuery u else result.

(** ** health.go: the probe target *)

Record HealthGateTarget := { t_Host : string; t_Path : string; t_Port : Z; t_Scheme : string }.

(** [None] is an error. *)
Definition buildProbeURL (t : HealthGateTarget) : option URL :=
  u ← ParseRequestURI (t_Path t);
  if bool_decide (RequestURI u = t_Path t) then Some u else None.

Definition validateTarget (t : HealthGateTarget) : bool :=
  ValidHost (t_Host t) && ValidPath (t_Path t) && (1 <=? t_Port t) && (t_Port t <=? 65535)
  && (bool_decide (t_Scheme t = "http") || bool_decide (t_Scheme t = "https"))
  && bool_decide (is_Some (buildProbeURL t)).

(** ** Decimal numerals *)

Definition digit (d : Z) : ascii := GoStd.ascii_of_byte (48 + d).
Fixpoint numeral (ds : list Z) : string := match ds with [] => "" | d :: ds' => String (digit d) (numeral ds') end.
Definition value (ds : list Z) : Z := fold_left (λ n d, 10 * n + d) ds 0.
Definition isDecimal (d : Z) : Prop := 0 ≤ d ≤ 9.

Lemma byte_of_ascii b : 0 ≤ b < 256 → byte_of (GoStd.ascii_of_byte b) = b.
Proof.
  intros Hb. unfold byte_of, GoStd.ascii_of_byte. rewrite N_ascii_embedding.
  - rewrite Z2N.id; [by apply Z.mod_small|]. apply Z.mod_pos_bound. lia.
  - rewrite Z.mod_small by lia. lia.
Qed.
Lemma ascii_of_byte_of c : GoStd.ascii_of_byte (byte_of c) = c.
Proof.
  unfold byte_of, GoStd.ascii_of_byte. pose proof (N_ascii_bounded c). rewrite Z.mod_small by lia.
  by rewrite N2Z.id, ascii_N_embedding.
Qed.
Lemma byte_of_digit d : isDecimal d → byte_of (digit d) = 48 + d.
Proof. unfold isDecimal. intros ?. apply byte_of_ascii. lia. Qed.
Lemma digit_of_byte c : digit (byte_of c - 48) = c.
Proof. unfold digit. replace (48 + (byte_of c - 48)) with (byte_of c) by lia. apply ascii_of_byte_of. Qed.

Lemma numeral_app ds es : numeral (ds ++ es) = numeral ds +:+ numeral es.
Proof. induction ds as [|d ds IH]; [done|]. simpl. by rewrite IH. Qed.
Lemma length_numeral ds : String.length (numeral ds) = length ds.
Proof. induction ds; simpl; auto. Qed.

Lemma pretty_N_go_app x s : pretty_N_go x s = pretty_N_go x "" +:+ s.
Proof.
  revert s. induction (N.lt_wf_0 x) as [x _ IH]; intros s.
  assert (x = 0 ∨ 0 < x)%N as [->|Hx] by lia; [done|].
  assert (x `div` 10 < x)%N as Hlt by by apply N.div_lt.
  rewrite (pretty_N_go_step x s), (pretty_N_go_step x "") by done.
  rewrite (IH _ Hlt (String _ s)), (IH _ Hlt (String _ "")). by rewrite string_app_assoc.
Qed.
Lemma pretty_N_char_digit x : (x < 10)%N → pretty_N_char x = digit (Z.of_N x).
Proof. intros Hx. destruct x as [|p]; [done|]. do 4 (destruct p as [p|p|]; try lia; try done). Qed.

Lemma pretty_numeral ds d :
  isDecimal d → d ≠ 0 → Forall isDecimal ds → pretty_N_go (Z.to_N (value (d :: ds))) "" = numeral (d :: ds).
Proof.
  intros Hd Hd0 Hds. assert (∀ es, Forall isDecimal es → 0 < value (d :: es)) as Hpos.
  { intros es. unfold value. simpl. replace (10 * 0 + d) with d by lia.
    assert (0 < d) as H by (unfold isDecimal in Hd; lia). revert H. generalize d. clear.
    induction es as [|e es IH]; intros n Hn Hes; simpl; [done|]. apply Forall_cons in Hes as [He Hes].
    apply IH; [|done]. unfold isDecimal in He. lia. }
  induction ds as [|e ds IH] using rev_ind.
  - unfold value. simpl. replace (10 * 0 + d) with d by lia. unfold isDecimal in Hd.
    rewrite pretty_N_go_step by lia. rewrite N.div_small, N.mod_small, pretty_N_char_digit by lia.
    rewrite pretty_N_go_0, Z2N.id by lia. done.
  - apply Forall_app in Hds as [Hds He]. rewrite Forall_singleton in He. specialize (IH Hds). specialize (Hpos ds Hds).
    assert (value (d :: ds ++ [e]) = 10 * value (d :: ds) + e) as ->.
    { unfold value. rewrite app_comm_cons, fold_left_app. done. }
    unfold isDecimal in He. rewrite pretty_N_go_step by lia.
    set (v := value (d :: ds)) in *. set (x := Z.to_N (10 * v + e)).
    assert (x = Z.to_N v * 10 + Z.to_N e)%N as Ex by (unfold x; lia).
    assert (x `div` 10 = Z.to_N v)%N as -> by (symmetry; apply (N.div_unique _ _ _ (Z.to_N e)); lia).
    assert (x `mod` 10 = Z.to_N e)%N as -> by (symmetry; apply (N.mod_unique _ _ (Z.to_N v)); lia).
    rewrite pretty_N_go_app, IH, pretty_N_char_digit, Z2N.id by lia. by rewrite app_comm_cons, numeral_app.
Qed.

(** A numeral without a leading zero is how [strconv] prints its value. *)
Lemma FormatInt_numeral ds d :
  isDecimal d → d ≠ 0 → Forall isDecimal ds → FormatInt (value (d :: ds)) = numeral (d :: ds).
Proof.
  intros Hd Hd0 Hds. rewrite <-(pretty_numeral ds d) by done. unfold FormatInt, pretty, pretty_Z.
  assert (0 < value (d :: ds)) as Hp.
  { destruct (Z.lt_trichotomy 0 (value (d :: ds))) as [?|H]; [done|]. exfalso.
    pose proof (pretty_numeral ds d Hd Hd0 Hds) as E. replace (Z.to_N (value (d :: ds))) with 0%N in E by lia. done. }
  destruct (value (d :: ds)) as [|p|p] eqn:E; [lia| |lia]. unfold pretty, pretty_positive, pretty, pretty_N, pretty_N. by rewrite decide_False.
Qed.

Lemma numeral_exists n : 0 < n →
  ∃ d ds, isDecimal d ∧ d ≠ 0 ∧ Forall isDecimal ds ∧ value (d :: ds) = n.
Proof.
  intros Hn. assert (0 ≤ n) as Hn0 by lia. revert Hn. revert n Hn0. refine (Zlt_0_ind _ _).
  intros n IH _ Hn. destruct (Z.lt_ge_cases n 10) as [Hs|Hs].
  - exists n, []. unfold isDecimal, value. simpl. split_and!; try lia. done.
  - pose proof (Z.div_mod n 10). pose proof (Z.mod_pos_bound n 10).
    destruct (IH (n / 10)) as (d&ds&Hd&Hd0&Hds&Hv); [split; [lia|]; apply Z.div_lt; lia|lia|].
    exists d, (ds ++ [n mod 10]). split_and!; [done|done| |].
    + apply Forall_app. split; [done|]. apply Forall_singleton. unfold isDecimal. lia.
    + unfold value in *. rewrite app_comm_cons, fold_left_app, Hv. simpl. lia.
Qed.

(** ** The port pattern is the range of ports *)

Lemma Matches_digitIn lo hi s : 0 ≤ lo → hi ≤ 9 →
  Matches (digitIn lo hi) s → ∃ d, lo ≤ d ≤ hi ∧ s = String (digit d) "".
Proof.
  intros Hlo Hhi. unfold digitIn. rewrite Matches_class. intros (c&->&H). bool_hyps.
  exists (byte_of c - 48). rewrite digit_of_byte. split; [lia|done].
Qed.
Lemma digitIn_match lo hi d : isDecimal d → lo ≤ d ≤ hi → Matches (digitIn lo hi) (String (digit d) "").
Proof.
  intros Hd Hr. constructor. rewrite byte_of_digit by done. rewrite andb_true_iff, !Z.leb_le. lia.
Qed.
Lemma digitIn_seq lo hi r d s :
  isDecimal d → lo ≤ d ≤ hi → Matches r s → Matches (RSeq (digitIn lo hi) r) (String (digit d) s).
Proof. intros. apply (m_seq _ _ (String (digit d) "") s); [by apply digitIn_match|done]. Qed.
Lemma char_seq c r s : Matches r s → Matches (RSeq (RChar c) r) (String c s).
Proof. intros. apply (m_seq _ _ (String c "") s); [by apply Matches_char|done]. Qed.
Lemma digits_times n ds :
  Forall isDecimal ds → length ds = n → Matches (RTimes n anyDigit) (numeral ds).
Proof.
  intros Hds <-. induction Hds as [|d ds Hd Hds IH]; simpl; [constructor|]. apply digitIn_seq; [done| |done].
  unfold isDecimal in Hd. lia.
Qed.
Lemma digits_upto n ds :
  Forall isDecimal ds → (length ds ≤ n)%nat → Matches (RUpTo n anyDigit) (numeral ds).
Proof.
  intros Hds. revert n. induction Hds as [|d ds Hd Hds IH]; intros n Hn.
  - destruct n; simpl; [constructor|]. apply m_right. constructor.
  - destruct n as [|n]; simpl in *; [lia|]. apply m_left, digitIn_seq; [done| |apply IH; lia]. unfold isDecimal in Hd. lia.
Qed.

Lemma port_intro d ds s :
  s = numeral (d :: ds) → isDecimal d → d ≠ 0 → Forall isDecimal ds → 1 ≤ value (d :: ds) ≤ 65535 →
  ∃ n, 1 ≤ n ≤ 65535 ∧ s = FormatInt n.
Proof. intros -> ???. eexists. split; [done|]. by rewrite FormatInt_numeral. Qed.

(** Split a match into the strings of its parts. *)
Ltac matches_inv :=
  repeat match goal with
  | H : Matches (RAlt _ _) _ |- _ => apply Matches_alt in H as [H|H]
  | H : Matches (ROpt _) _ |- _ => apply Matches_opt in H as [H| ->]
  | H : Matches (RSeq _ _) _ |- _ => apply Matches_seq in H as (?&?& -> &?&?)
  | H : Matches (RChar _) _ |- _ => apply Matches_char in H as ->
  | H : Matches REps _ |- _ => apply Matches_eps in H as ->
  | H : Matches (digitIn _ _) _ |- _ => apply Matches_digitIn in H as (?&?& ->); [|lia..]
  | H : Matches (RTimes _ _) _ |- _ => cbn [RTimes] in H
  | H : Matches (RUpTo _ _) _ |- _ => cbn [RUpTo] in H
  end.
(** The digits of a string put together from digit strings. *)
Ltac digits_of s :=
  lazymatch s with
  | String (digit ?d) "" +:+ ?r => let l := digits_of r in constr:(d :: l)
  | "6" +:+ ?r => let l := digits_of r in constr:(6 :: l)
  | "5" +:+ ?r => let l := digits_of r in constr:(5 :: l)
  | "3" +:+ ?r => let l := digits_of r in constr:(3 :: l)
  | String (digit ?d) "" => constr:([d])
  | "" => constr:(@nil Z)
  end.
Ltac port_digits :=
  lazymatch goal with
  | |- ∃ n, _ ∧ ?s = _ =>
      lazymatch digits_of s with
      | ?d :: ?ds =>
          apply (port_intro d ds);
          [done|unfold isDecimal; lia|lia|repeat constructor; unfold isDecimal; lia|unfold value; simpl; lia]
      end
  end.

Lemma port_pattern_iff s : Matches portPattern s ↔ ∃ n, 1 ≤ n ≤ 65535 ∧ s = FormatInt n.
Proof.
  split; [unfold portPattern, anyDigit; intros H; matches_inv; port_digits|].
  intros (n&Hn&->). destruct (numeral_exists n) as (d&ds&Hd&Hd0&Hds&Hv); [lia|].
  rewrite <-Hv, FormatInt_numeral by done. rewrite <-Hv in Hn. clear Hv n. unfold portPattern.
  assert (length ds ≤ 3 ∨ 4 ≤ length ds)%nat as [Hl|Hl] by lia.
  { do 5 apply m_right. apply digitIn_seq; [done|unfold isDecimal in Hd; lia|by apply digits_upto]. }
  destruct ds as [|a [|b [|c [|e [|f ds]]]]]; simpl in Hl; try lia; cycle 1.
  { exfalso. revert Hn. rewrite !Forall_cons in Hds. destruct Hds as (Ha&Hb&Hc&He&Hf&Hds). unfold value. simpl.
    assert (∀ m, 100000 ≤ m → Forall isDecimal ds → 100000 ≤ fold_left (λ n d, 10 * n + d) ds m) as Hm.
    { clear. induction ds as [|x ds IH]; intros m Hm Hds; simpl; [done|]. apply Forall_cons in Hds as [Hx Hds].
      apply IH; [unfold isDecimal in Hx; lia|done]. }
    intros [_ Hn]. apply (Z.lt_irrefl 65535). eapply Z.lt_le_trans; [|exact Hn].
    apply (Z.lt_le_trans _ 100000); [lia|]. apply Hm; [unfold isDecimal in *; lia|done]. }
  rewrite !Forall_cons in Hds. destruct Hds as (Ha&Hb&Hc&He&_). unfold value in Hn. simpl in Hn.
  assert (Forall isDecimal [a; b; c; e]) as H4 by eauto using Forall_cons_2, Forall_nil_2.
  assert (Forall isDecimal [b; c; e]) as H3 by eauto using Forall_cons_2, Forall_nil_2.
  assert (Forall isDecimal [c; e]) as H2 by eauto using Forall_cons_2, Forall_nil_2.
  unfold isDecimal in Hd, Ha, Hb, Hc, He.
  assert (d ≤ 5 ∨ d = 6) as [?| ->] by lia.
  { do 4 apply m_right. apply m_left, digitIn_seq; [done|lia|by apply (digits_times 4 [a; b; c; e])]. }
  assert (a ≤ 4 ∨ a = 5) as [?| ->] by lia.
  { do 3 apply m_right. apply m_left, char_seq, digitIn_seq; [done|lia|by apply (digits_times 3 [b; c; e])]. }
  assert (b ≤ 4 ∨ b = 5) as [?| ->] by lia.
  { do 2 apply m_right. apply m_left, char_seq, char_seq, digitIn_seq; [done|lia|by apply (digits_times 2 [c; e])]. }
  assert (c ≤ 2 ∨ c = 3) as [?| ->] by lia.
  { apply m_right, m_left, char_seq, char_seq, char_seq, digitIn_seq; [done|lia|]. by apply digitIn_match. }
  apply m_left, char_seq, char_seq, char_seq, char_seq, digitIn_match; [done|lia].
Qed.

(** ** Labels and hosts *)

Lemma lastByte_snoc c x d : lastByte c (x +:+ String d "") = d.
Proof. revert c. induction x as [|e x IH]; intros c; [done|apply IH]. Qed.
Lemma string_snoc c r : r = "" ∨ ∃ x, r = x +:+ String (lastByte c r) "".
Proof.
  revert c. induction r as [|d r IH]; intros c; [by left|right]. simpl. destruct (IH d) as [->|[x E]].
  - by exists "".
  - exists (String d x). rewrite string_app_cons. by rewrite <-E.
Qed.

Lemma label_iff (edge mid : Z → bool) l : (∀ b, edge b = true → mid b = true) →
  Matches (RSeq (RClass edge) (ROpt (RSeq (RUpTo 61 (RClass mid)) (RClass edge)))) l ↔
  match l with
  | EmptyString => False
  | String c r =>
      edge (byte_of c) = true ∧ forallBytes mid l = true ∧ slen l ≤ 63 ∧ edge (byte_of (lastByte c r)) = true
  end.
Proof.
  intros Hem. rewrite Matches_seq. setoid_rewrite Matches_opt. setoid_rewrite Matches_seq.
  setoid_rewrite Matches_upto_class. setoid_rewrite Matches_class. split.
  - intros (x&y&->&(c&->&Hc)&Hy). change (String c "" +:+ y) with (String c y). simpl. rewrite (Hem _ Hc).
    destruct Hy as [(u&v&->&[Hu Hl]&(d&->&Hd))| ->]; [|done].
    rewrite lastByte_snoc, forallBytes_app, Hu. simpl. rewrite (Hem _ Hd). split_and!; try done.
    unfold slen. simpl. rewrite length_string_app. simpl. lia.
  - destruct l as [|c r]; [done|]. intros (Hc&Hm&Hl&Hd). exists (String c ""), r. split_and!; [done|eauto|].
    simpl in Hm. apply andb_true_iff in Hm as [_ Hm]. destruct (string_snoc c r) as [->|[x E]]; [by right|left].
    exists x, (String (lastByte c r) ""). rewrite E, forallBytes_app in Hm. apply andb_true_iff in Hm as [Hm _].
    split_and!; [done|done| |eauto]. unfold slen in Hl. simpl in Hl. rewrite E, length_string_app in Hl. simpl in Hl. lia.
Qed.

(** A DNS label. *)
Definition validLabel (l : string) : bool :=
  (1 <=? slen l) && (slen l <=? 63) && forallBytes isLabelByte l
  && negb (HasPrefix l "-") && negb (HasSuffix l "-").

Lemma HasSuffix_lastByte c r d : HasSuffix (String c r) (String d "") = true ↔ lastByte c r = d.
Proof.
  revert c. induction r as [|e r IH]; intros c.
  - simpl. rewrite !orb_true_iff, !bool_decide_eq_true. naive_solver.
  - change (HasSuffix (String c (String e r)) (String d "")) with
      (bool_decide (String c (String e r) = String d "") || HasSuffix (String e r) (String d "")).
    rewrite bool_decide_false, orb_false_l by done. by rewrite IH.
Qed.

Lemma isLabelByte_edge b : isLabelByte b && negb (b =? 45) = isAlnum b.
Proof.
  unfold isLabelByte. destruct (Z.eqb_spec b 45) as [->|]; [done|]. by rewrite orb_false_r, andb_true_r.
Qed.

Lemma forallBytes_last f c r : forallBytes f (String c r) = true → f (byte_of c) = true ∧ f (byte_of (lastByte c r)) = true.
Proof.
  revert c. induction r as [|d r IH]; intros c H; simpl in H; apply andb_true_iff in H as [Hc H]; [done|].
  split; [done|]. by apply (IH d).
Qed.

Lemma hostLabel_iff l : Matches hostLabelPattern l ↔ validLabel l = true.
Proof.
  unfold hostLabelPattern. rewrite label_iff by (by intros b Hb; unfold isLabelByte; rewrite Hb).
  unfold validLabel. destruct l as [|c r]; [done|]. rewrite !andb_true_iff, !negb_true_iff, !Z.leb_le.
  rewrite <-(not_true_iff_false (HasSuffix _ _)), HasSuffix_lastByte.
  assert (HasPrefix (String c r) "-" = Ascii.eqb "-" c) as -> by (simpl; destruct r; apply andb_true_r).
  rewrite <-!isLabelByte_edge, !andb_true_iff, !negb_true_iff, !Z.eqb_neq.
  assert (∀ x : ascii, byte_of x ≠ 45 ↔ x ≠ "-"%char) as Hne.
  { intros x. split; [by intros H ->|]. intros H E. apply H. rewrite <-(ascii_of_byte_of x), E. done. }
  rewrite !Hne. assert (Ascii.eqb "-" c = false ↔ c ≠ "-"%char) as ->.
  { rewrite <-not_true_iff_false, Ascii.eqb_eq. naive_solver. }
  assert (1 ≤ slen (String c r)) as Hp by (unfold slen; simpl; lia).
  split; [tauto|]. intros (((?&Hm)&?)&?). pose proof (forallBytes_last _ _ _ Hm) as [??]. tauto.
Qed.

(** Free of a separator: [SplitByte] and [String.concat] are inverse. *)
Lemma SplitByte_free sep l : free sep l → SplitByte sep l = [l].
Proof.
  induction l as [|c l IH]; simpl; [done|]. intros [Hc Hl]%free_cons. rewrite (IH Hl).
  destruct (Ascii.eqb_spec c sep) as [->|]; [done|done].
Qed.
Lemma SplitByte_cons sep l r : free sep l → SplitByte sep (l +:+ String sep r) = l :: SplitByte sep r.
Proof.
  induction l as [|c l IH]; intros Hf; [simpl; by rewrite Ascii.eqb_refl|]. apply free_cons in Hf as [Hc Hl].
  rewrite string_app_cons. simpl. rewrite (IH Hl). destruct (Ascii.eqb_spec c sep) as [->|]; [done|done].
Qed.
Lemma SplitByte_concat sep ls :
  ls ≠ [] → Forall (free sep) ls → SplitByte sep (String.concat (String sep "") ls) = ls.
Proof.
  induction ls as [|l ls IH]; [done|]. intros _ [Hl Hls]%Forall_cons. destruct ls as [|l' ls]; [by apply SplitByte_free|].
  change (String.concat (String sep "") (l :: l' :: ls)) with (l +:+ String sep (String.concat (String sep "") (l' :: ls))).
  rewrite SplitByte_cons by done. by rewrite IH.
Qed.
Lemma concat_SplitByte sep s : String.concat (String sep "") (SplitByte sep s) = s.
Proof.
  induction s as [|c s IH]; [done|]. simpl. destruct (Ascii.eqb_spec c sep) as [->|].
  - assert (SplitByte sep s ≠ []) as Hn by (destruct s; simpl; repeat case_match; done).
    destruct (SplitByte sep s) as [|x xs]; [done|]. change (String sep (String.concat (String sep "") (x :: xs)) = String sep s). by rewrite IH.
  - destruct (SplitByte sep s) as [|x xs]; [simpl in *; by subst|]. destruct xs as [|y xs]; simpl in *; by subst.
Qed.
Lemma SplitByte_pieces sep s : Forall (free sep) (SplitByte sep s).
Proof.
  induction s as [|c s IH]; simpl; [by repeat constructor|]. destruct (Ascii.eqb_spec c sep) as [->|Hc]; [by constructor|].
  destruct (SplitByte sep s) as [|x xs].
  - repeat constructor. apply free_cons. split; [|done]. intros E. apply Hc. by rewrite <-(ascii_of_byte_of c), E, ascii_of_byte_of.
  - apply Forall_cons in IH as [Hx Hxs]. constructor; [|done]. apply free_cons. split; [|done].
    intros E. apply Hc. by rewrite <-(ascii_of_byte_of c), E, ascii_of_byte_of.
Qed.

Definition dotted (ls : list string) : string := foldr (λ l acc : string, String "." (l +:+ acc)) "" ls.
Lemma concat_dotted l ls : String.concat "." (l :: ls) = l +:+ dotted ls.
Proof.
  revert l. induction ls as [|l' ls IH]; intros l; [symmetry; apply string_app_nil|].
  change (String.concat "." (l :: l' :: ls)) with (l +:+ String "." (String.concat "." (l' :: ls))). by rewrite IH.
Qed.

Lemma Matches_dotted r y :
  Matches (RStar (RSeq (RChar ".") r)) y ↔ ∃ ls, Forall (Matches r) ls ∧ y = dotted ls.
Proof.
  rewrite Matches_star. split.
  - intros (ps&->&Hps). induction Hps as [|p ps Hp _ IH]; [by exists []|]. destruct IH as (ls&Hls&IH). matches_inv.
    exists (x0 :: ls). split; [by constructor|]. simpl. rewrite IH. apply string_app_assoc.
  - intros (ls&Hls&->). exists ((λ l, String "." l) <$> ls). induction Hls as [|l ls Hl _ [E IH]]; [by split|].
    split; [simpl; by rewrite E|]. constructor; [by apply char_seq|done].
Qed.

Definition portSuffix (port : option Z) : string := match port with Some n => ":" +:+ FormatInt n | None => "" end.
Definition validPort (port : option Z) : Prop := match port with Some n => 1 ≤ n ≤ 65535 | None => True end.

Lemma Forall_iff' {A} (P Q : A → Prop) l : (∀ x, P x ↔ Q x) → Forall P l ↔ Forall Q l.
Proof. intros H. rewrite !Forall_forall. by setoid_rewrite H. Qed.

#[local] Opaque hostLabelPattern portPattern.
Lemma hostPattern_iff h : Matches hostPattern h ↔
  ∃ labels port, labels ≠ [] ∧ Forall (λ l, validLabel l = true) labels ∧ validPort port ∧
    h = String.concat "." labels +:+ portSuffix port.
Proof.
  unfold hostPattern. rewrite Matches_seq. setoid_rewrite Matches_seq. setoid_rewrite Matches_dotted.
  setoid_rewrite Matches_opt. split.
  - intros (l&y&->&Hl&u&v&->&(ls&Hls&->)&Hv). exists (l :: ls).
    assert (∃ port, validPort port ∧ v = portSuffix port) as (port&Hp&->).
    { destruct Hv as [Hv| ->]; [|by exists None]. matches_inv. apply port_pattern_iff in H0 as (n&Hn&->). by exists (Some n). }
    exists port. rewrite concat_dotted, string_app_assoc. split_and!; [done| |done|done]. constructor; [by apply hostLabel_iff|].
    revert Hls. apply Forall_iff'. intros. symmetry. apply hostLabel_iff.
  - intros (labels&port&Hne&Hls&Hp&->). destruct labels as [|l ls]; [done|]. apply Forall_cons in Hls as [Hl Hls].
    exists l, (dotted ls +:+ portSuffix port). rewrite concat_dotted, string_app_assoc. split_and!; [done|by apply hostLabel_iff|].
    exists (dotted ls), (portSuffix port). split_and!; [done| |].
    + exists ls. split; [|done]. revert Hls. apply Forall_iff'. apply hostLabel_iff.
    + destruct port as [n|]; [left|by right]. apply (m_seq _ _ ":"); [by apply Matches_char|]. apply port_pattern_iff. eauto.
Qed.

Lemma label_free c l : isLabelByte (byte_of c) = false → validLabel l = true → free c l.
Proof. intros Hc H. unfold validLabel in H. bool_hyps. by eapply free_forall. Qed.
Lemma free_concat c ls : byte_of c ≠ byte_of "." → Forall (free c) ls → free c (String.concat "." ls).
Proof.
  intros Hc Hls. destruct ls as [|l ls]; [done|]. apply Forall_cons in Hls as [Hl Hls]. rewrite concat_dotted. apply free_app.
  split; [done|]. induction Hls as [|l' ls Hl' _ IH]; [done|]. apply free_cons. split; [done|]. apply free_app. done.
Qed.

Lemma hostPart_spec labels port : Forall (λ l, validLabel l = true) labels →
  hostPart (String.concat "." labels +:+ portSuffix port) = String.concat "." labels.
Proof.
  intros Hls. assert (free ":" (String.concat "." labels)) as Hf.
  { apply free_concat; [done|]. eapply Forall_impl; [exact Hls|]. intros l. by apply label_free. }
  unfold hostPart. destruct port as [n|].
  - change (portSuffix (Some n)) with (String ":" (FormatInt n)). by rewrite SplitByte_cons.
  - simpl. by rewrite string_app_nil, SplitByte_free.
Qed.

(** The host pattern is the grammar it is meant to be. [ValidHost] accepts exactly the strings made of one or more
    DNS labels joined by dots (1 to 63 bytes of letters, digits and hyphens, no hyphen at either end), at most 253
    bytes in all, and optionally a colon and the decimal form of a port from 1 to 65535; so no user info, path, bracket,
    leading zero, out-of-range port or second colon ever reaches a Host header. *)
Theorem host_grammar host : ValidHost host = true ↔
  ∃ labels port, labels ≠ [] ∧ Forall (λ l, validLabel l = true) labels ∧ validPort port ∧
    slen (String.concat "." labels) ≤ 253 ∧ host = String.concat "." labels +:+ portSuffix port.
Proof.
  unfold ValidHost. destruct (bool_decide (host = "") || negb (MatchString hostPattern host)) eqn:E.
  - split; [done|]. intros (labels&port&Hne&Hls&Hp&_&->). apply orb_true_iff in E as [E|E]; bool_hyps.
    + destruct labels as [|l ls]; [done|]. apply Forall_cons in Hls as [Hl _]. rewrite concat_dotted in E. by destruct l.
    + rewrite <-not_true_iff_false, MatchString_iff, hostPattern_iff in E. destruct E. eauto 7.
  - bool_hyps. rewrite MatchString_iff, hostPattern_iff in H0. destruct H0 as (labels&port&Hne&Hls&Hp&->).
    rewrite hostPart_spec, Z.leb_le by done. split; [intros Hl; eauto 8|].
    intros (labels'&port'&_&Hls'&_&Hl&E). apply (f_equal hostPart) in E. rewrite !hostPart_spec in E by done. by rewrite E.
Qed.

(** ** Route host names: the label scan is the source's pattern *)

Lemma isHostByte_edge b : isHostByte b && negb (b =? 45) = isLower b || isDigit b.
Proof. unfold isHostByte, isLower, isDigit. destruct (Z.eqb_spec b 45) as [->|]; [done|]. lia. Qed.

Lemma routeLabel_iff l : Matches routeHostLabelPattern l ↔ routeHostLabel l = true.
Proof.
  unfold routeHostLabelPattern. rewrite label_iff.
  2: { intros b Hb. unfold isHostByte. destruct (isDigit b), (isLower b); done. }
  unfold routeHostLabel. destruct l as [|c r]; [done|].
  rewrite <-!isHostByte_edge, !andb_true_iff, Z.leb_le. split; [tauto|].
  intros (((?&Hm)&?)&?). pose proof (forallBytes_last _ _ _ Hm) as [??]. tauto.
Qed.

Lemma routeLabel_free l : routeHostLabel l = true → free "." l.
Proof. unfold routeHostLabel. destruct l as [|c r]; [done|]. intros H. bool_hyps. by apply (free_forall _ isHostByte). Qed.

Lemma dotted_after_concat ls l :
  foldr (λ x acc : string, x +:+ String "." acc) l ls = concat_strings ((λ x : string, x +:+ ".") <$> ls) +:+ l.
Proof.
  induction ls as [|x ls IH]; [done|]. rewrite fmap_cons. cbn [foldr concat_strings]. rewrite IH.
  change (foldr _ "" ?k) with (concat_strings k). rewrite !string_app_assoc. done.
Qed.

#[local] Opaque routeHostLabelPattern.
Lemma routeHostnamePattern_iff h : Matches routeHostnamePattern h ↔
  2 ≤ Z.of_nat (length (SplitByte "." h)) ∧ forallb routeHostLabel (SplitByte "." h) = true.
Proof.
  assert (Matches routeHostnamePattern h ↔ ∃ ls l, ls ≠ [] ∧ Forall (λ l, routeHostLabel l = true) (ls ++ [l]) ∧
    h = foldr (λ x acc : string, x +:+ String "." acc) l ls) as ->.
  { unfold routeHostnamePattern, RPlus. rewrite Matches_seq. setoid_rewrite Matches_seq. setoid_rewrite Matches_star. split.
    - intros (x&y&->&(p&q&->&Hp&ps&->&Hps)&Hy%routeLabel_iff).
      assert (∃ ls, ls ≠ [] ∧ Forall (λ l, routeHostLabel l = true) ls ∧
        (p +:+ concat_strings ps) +:+ y = foldr (λ x acc : string, x +:+ String "." acc) y ls) as (ls&?&?&?).
      { revert p Hp. induction Hps as [|p' ps Hp' _ IH]; intros p Hp.
        - matches_inv. exists [x]. apply routeLabel_iff in H. split_and!; [done|by repeat constructor|]. simpl.
          by rewrite string_app_nil, string_app_assoc.
        - destruct (IH p' Hp') as (ls&Hn&Hls&E). clear Hp'. matches_inv. exists (x :: ls). apply routeLabel_iff in H. split_and!; [done|by constructor|].
          simpl. rewrite <-E. by rewrite !string_app_assoc. }
      exists ls, y. split_and!; [done| |done]. apply Forall_app. split; [done|by constructor].
    - intros (ls&l&Hn&Hls&->). apply Forall_app in Hls as [Hls Hl]. rewrite Forall_singleton in Hl. apply routeLabel_iff in Hl.
      destruct ls as [|x ls]; [done|]. apply Forall_cons in Hls as [Hx Hls].
      exists ((x +:+ ".") +:+ concat_strings ((λ x : string, x +:+ ".") <$> ls)), l.
      cbn [foldr]. rewrite dotted_after_concat. split_and!; [by rewrite !string_app_assoc| |done].
      exists (x +:+ "."), (concat_strings ((λ x : string, x +:+ ".") <$> ls)). split_and!; [done| |].
      + constructor; [by apply routeLabel_iff|by apply Matches_char].
      + exists ((λ x : string, x +:+ ".") <$> ls). split; [done|]. apply Forall_fmap. eapply Forall_impl; [exact Hls|].
        intros z Hz. constructor; [by apply routeLabel_iff|by apply Matches_char]. }
  split.
  - intros (ls&l&Hn&Hls&->). assert (SplitByte "." (foldr (λ x acc : string, x +:+ String "." acc) l ls) = ls ++ [l]) as ->.
    { clear Hn. induction ls as [|x ls IH]; simpl in *; apply Forall_cons in Hls as [Hx Hls].
      - apply SplitByte_free. by apply routeLabel_free.
      - rewrite SplitByte_cons by by apply routeLabel_free. by rewrite IH. }
    rewrite length_app. split; [destruct ls; simpl; [done|lia]|]. apply forallb_forall. intros z Hz.
    rewrite Forall_forall in Hls. apply Hls. by apply list_elem_of_In.
  - intros [Hl Hf]. pose proof (concat_SplitByte "." h) as E. destruct (SplitByte "." h) as [|x ls] using rev_ind; [simpl in Hl; lia|].
    clear IHls. exists ls, x. rewrite length_app in Hl. split_and!.
    + intros ->. simpl in Hl. lia.
    + apply Forall_forall. intros z Hz. eapply forallb_forall in Hf; [exact Hf|]. by apply list_elem_of_In.
    + rewrite <-E. clear. induction ls as [|y ls IH]; [done|]. simpl. rewrite <-IH. destruct ls; done.
Qed.

(** [ValidRouteHostname] is the source's pattern with its two length and
    digit conditions. *)
Lemma ValidRouteHostname_pattern h : ValidRouteHostname h =
  negb (bool_decide (h = "")) && (slen h <=? MaxHostLabelBytes) && MatchString routeHostnamePattern h
  && negb (forallBytes isDigit (List.last (SplitByte "." h) "")).
Proof.
  unfold ValidRouteHostname. rewrite <-!andb_assoc. f_equal. f_equal. rewrite andb_assoc. f_equal.
  apply eq_true_iff_eq. by rewrite andb_true_iff, Z.leb_le, MatchString_iff, routeHostnamePattern_iff.
Qed.

(** ** Probe targets go out byte for byte *)

Lemma oneOf_iff set b : oneOf set b = true ↔ ∃ x y c, set = x +:+ String c y ∧ byte_of c = b.
Proof.
  unfold oneOf, ContainsByte. rewrite negb_true_iff. induction set as [|d set IH]; simpl.
  - split; [done|]. intros ([|? x]&y&c&E&_); done.
  - rewrite andb_false_iff, negb_false_iff, Z.eqb_eq, IH. split.
    + intros [<-|(x&y&c&->&<-)]; [by exists "", set, d|by exists (String d x), y, c].
    + intros ([|d' x]&y&c&E&Hc); [left; by injection E as -> ->|right]. rewrite string_app_cons in E. injection E as <- ->. eauto.
Qed.

(** What a star of bytes of [f] and percent triplets can hold. *)
Lemma pct_star_inv f s (g : Z → bool) : (∀ b, f b = true → g b = true) → g 37 = true → (∀ b, isHexByte b = true → g b = true) →
  f 37 = false → Matches (RStar (RAlt (RClass f) pctTriplet)) s → forallBytes g s = true ∧ is_Some (unescapePath s).
Proof.
  intros Hf Hp Hh Hnp. rewrite Matches_star. intros (ps&->&Hps). induction Hps as [|p ps H _ [IH1 [t IH2]]]; [split; [done|by eexists]|].
  change (concat_strings (p :: ps)) with (p +:+ concat_strings ps). rewrite forallBytes_app, IH1, andb_true_r.
  apply Matches_alt in H as [H|H].
  - apply Matches_class in H as (c&->&Hc). change (String c "" +:+ concat_strings ps) with (String c (concat_strings ps)).
    simpl. rewrite (Hf _ Hc), IH2. split; [done|]. case_match eqn:E; [|eauto].
    apply Z.eqb_eq in E. change (byte_of "%") with 37 in E. congruence.
  - unfold pctTriplet in H. apply Matches_seq in H as (x&y&->&->%Matches_char&[Hy Hl]%Matches_times_class).
    destruct y as [|a [|b [|]]]; try done. simpl in Hy. bool_hyps.
    change (("%" +:+ String a (String b "")) +:+ concat_strings ps) with (String "%" (String a (String b (concat_strings ps)))).
    simpl. change (byte_of "%") with 37. rewrite Hp, (Hh _ H), (Hh _ H0), H, H0, IH2. split; [done|by eexists].
Qed.

Definition pathGuard (b : Z) : bool := (32 <=? b) && negb (b =? 127) && negb (b =? 63) && (oneOf "!$&'()*+,;=:@" b || oneOf "[]" b || (b =? byte_of "%") || negb (shouldEscape b)).

Lemma byte_cases (P : Z → bool) : forallb P (Z.of_nat <$> seq 0 128) = true → ∀ b, 0 ≤ b < 128 → P b = true.
Proof.
  intros H b Hb. rewrite forallb_forall in H. apply H. apply list_elem_of_In, list_elem_of_fmap. exists (Z.to_nat b).
  split; [lia|]. apply elem_of_seq. lia.
Qed.

Lemma oneOf_ascii set b : forallBytes ascii7 set = true → oneOf set b = true → 0 ≤ b < 128.
Proof.
  intros Hs (x&y&c&->&<-)%oneOf_iff. rewrite forallBytes_app in Hs. simpl in Hs. bool_hyps.
  unfold ascii7, byte_of in *. lia.
Qed.
Lemma isAlnum_ascii b : isAlnum b = true → 0 ≤ b < 128.
Proof. unfold isAlnum, isDigit, isLower, isUpper. rewrite !orb_true_iff, !andb_true_iff. lia. Qed.
Lemma isPathByte_ascii b : isPathByte b = true → 0 ≤ b < 128.
Proof. unfold isPathByte. intros [H|H]%orb_prop; [by apply isAlnum_ascii|by apply oneOf_ascii in H]. Qed.
Lemma isQueryByte_ascii b : isQueryByte b = true → 0 ≤ b < 128.
Proof. unfold isQueryByte. intros [H|H]%orb_prop; [by apply isAlnum_ascii|by apply oneOf_ascii in H]. Qed.
Lemma isHexByte_ascii b : isHexByte b = true → 0 ≤ b < 128.
Proof. unfold isHexByte, isDigit. rewrite !orb_true_iff, !andb_true_iff. lia. Qed.

(** Bytes a request-target may hold, and those its path part may. *)
Definition targetByte (b : Z) : bool := (32 <=? b) && negb (b =? 127).
Definition pathByte (b : Z) : bool :=
  targetByte b && negb (b =? 63) && (oneOf "!$&'()*+,;=:@" b || oneOf "[]" b || (b =? byte_of "%") || negb (shouldEscape b)).

Lemma isPathByte_guard b : isPathByte b = true → pathByte b = true.
Proof.
  intros H. pose proof (isPathByte_ascii b H) as Hb.
  pose proof (byte_cases (λ b, negb (isPathByte b) || pathByte b) ltac:(vm_compute; reflexivity) b Hb) as C.
  cbv beta in C. by rewrite H in C.
Qed.
Lemma isHexByte_guard b : isHexByte b = true → pathByte b = true.
Proof.
  intros H. pose proof (isHexByte_ascii b H) as Hb.
  pose proof (byte_cases (λ b, negb (isHexByte b) || pathByte b) ltac:(vm_compute; reflexivity) b Hb) as C.
  cbv beta in C. by rewrite H in C.
Qed.
Lemma isQueryByte_guard b : isQueryByte b = true → targetByte b = true.
Proof.
  intros H. pose proof (isQueryByte_ascii b H) as Hb.
  pose proof (byte_cases (λ b, negb (isQueryByte b) || targetByte b) ltac:(vm_compute; reflexivity) b Hb) as C.
  cbv beta in C. by rewrite H in C.
Qed.

Lemma pathByte_free s : forallBytes pathByte s = true → free "?" s.
Proof. by apply free_forall. Qed.

Lemma countByte_app b x y : countByte b (x +:+ y) = countByte b x + countByte b y.
Proof. induction x as [|c x IH]; [done|]. rewrite string_app_cons. simpl. rewrite IH. lia. Qed.
Lemma countByte_nonneg b s : 0 ≤ countByte b s.
Proof. induction s as [|c s IH]; simpl; [lia|]. case_match; lia. Qed.
Lemma countByte_free c s : free c s → countByte (byte_of c) s = 0.
Proof.
  induction s as [|x s IH]; [done|]. intros [Hx Hs]%free_cons. simpl. rewrite IH by done.
  destruct (Z.eqb_spec (byte_of x) (byte_of c)); [done|lia].
Qed.
Lemma cutByte_free c s : free c s → cutByte (byte_of c) s = (s, "").
Proof.
  induction s as [|x s IH]; [done|]. intros [Hx Hs]%free_cons. simpl. rewrite IH by done.
  by destruct (Z.eqb_spec (byte_of x) (byte_of c)).
Qed.
Lemma cutByte_cons c s r : free c s → cutByte (byte_of c) (s +:+ String c r) = (s, r).
Proof.
  induction s as [|x s IH]; [simpl; by rewrite Z.eqb_refl|]. intros [Hx Hs]%free_cons. rewrite string_app_cons. simpl.
  rewrite IH by done. by destruct (Z.eqb_spec (byte_of x) (byte_of c)).
Qed.
Lemma HasSuffix_count s c : HasSuffix s (String c "") = true → 1 ≤ countByte (byte_of c) s.
Proof.
  induction s as [|x s IH]; [done|].
  change (HasSuffix (String x s) (String c "")) with (bool_decide (String x s = String c "") || HasSuffix s (String c "")).
  rewrite orb_true_iff, bool_decide_eq_true. simpl. pose proof (countByte_nonneg (byte_of c) s).
  intros [[= -> ->]|H']; [rewrite Z.eqb_refl; simpl; lia|]. apply IH in H'. case_match; lia.
Qed.
Lemma HasSuffix_app_r x y c : y ≠ "" → HasSuffix (x +:+ y) (String c "") = HasSuffix y (String c "").
Proof.
  intros Hy. induction x as [|d x IH]; [done|]. rewrite string_app_cons.
  change (HasSuffix (String d (x +:+ y)) (String c "")) with (bool_decide (String d (x +:+ y) = String c "") || HasSuffix (x +:+ y) (String c "")).
  rewrite IH, bool_decide_false; [done|]. intros [= _ E]. destruct x; [|done]. by destruct y.
Qed.

(** A path with its escapes comes back from a URL as it went in. *)
Lemma EscapedPath_exact p q f :
  HasPrefix p "/" = true → forallBytes pathByte p = true → is_Some (unescapePath p) →
  ∃ t r, setPath p = Some (t, r) ∧ EscapedPath {| u_Path := t; u_RawPath := r; u_RawQuery := q; u_ForceQuery := f |} = p.
Proof.
  intros Hs Hp [t Ht]. unfold setPath. rewrite Ht. simpl. do 2 eexists. split; [done|]. unfold EscapedPath. simpl.
  assert (p ≠ "") as Hne by by intros ->. destruct (decide (p = escapePath t)) as [E|E].
  - rewrite (bool_decide_true (p = _)), (bool_decide_true ("" = "")) by done. simpl. rewrite bool_decide_false; [done|].
    intros ->. by rewrite E in Hs.
  - rewrite (bool_decide_false (p = escapePath t)), (bool_decide_false (p = "")), Ht, (bool_decide_true (Some t = _)) by done.
    assert (validEncoded p = true) as ->; [|done]. eapply forallBytes_impl; [|exact Hp].
    intros b H. unfold pathByte in H. bool_hyps. done.
Qed.

Lemma ValidPath_parts path : ValidPath path = true →
  ∃ p q, (path = p ∧ q = None ∨ ∃ r, path = p +:+ String "?" r ∧ q = Some r ∧ forallBytes targetByte r = true) ∧
    HasPrefix p "/" = true ∧ forallBytes pathByte p = true ∧ is_Some (unescapePath p).
Proof.
  unfold ValidPath. repeat case_match; [done..|]. intros Hm%MatchString_iff. unfold pathPattern in Hm.
  apply Matches_seq in Hm as (s&x&->&->%Matches_char&Hx). apply Matches_seq in Hx as (b&y&->&Hb&Hy).
  apply (pct_star_inv _ _ pathByte isPathByte_guard) in Hb as [Hb1 [t Hb2]]; [|done|apply isHexByte_guard|done].
  assert (HasPrefix (String "/" b) "/" = true ∧ forallBytes pathByte (String "/" b) = true ∧ is_Some (unescapePath (String "/" b))) as Hp.
  { split_and!; [simpl; by destruct b|simpl; by rewrite Hb1|simpl; rewrite Hb2; by eexists]. }
  apply Matches_opt in Hy as [Hy| ->].
  - apply Matches_seq in Hy as (s&r&->&->%Matches_char&Hr).
    apply (pct_star_inv _ _ targetByte isQueryByte_guard) in Hr as [Hr _];
      [|done|by intros c Hc%isHexByte_guard; unfold pathByte in Hc; bool_hyps|done].
    exists (String "/" b), (Some r). split; [right; by exists r|done].
  - exists (String "/" b), None. split; [left; split; [by rewrite string_app_nil|done]|done].
Qed.

Lemma buildProbeURL_exact t : ValidPath (t_Path t) = true → ∃ u, buildProbeURL t = Some u ∧ RequestURI u = t_Path t.
Proof.
  intros (p&q&Hq&Hs&Hp&Hu)%ValidPath_parts. unfold buildProbeURL, ParseRequestURI. set (path := t_Path t) in *.
  pose proof (pathByte_free p Hp) as Hfree.
  assert (forallBytes targetByte path = true) as Hall.
  { assert (forallBytes targetByte p = true) as Hpt.
    { eapply forallBytes_impl; [|exact Hp]. intros b H. unfold pathByte in H. by bool_hyps. }
    destruct Hq as [[-> _]|(r&->&_&Hr)]; [done|]. rewrite forallBytes_app, Hpt. simpl. done. }
  unfold targetByte in Hall. rewrite Hall. simpl.
  assert (HasPrefix path "/" = true) as ->.
  { destruct Hq as [[-> _]|(r&->&_)]; [done|]. destruct p as [|c p]; [done|]. rewrite string_app_cons. simpl in *.
    destruct (p +:+ String "?" r); by destruct p. }
  simpl.
  destruct Hq as [[Ep _]|(r&Ep&_&Hr)]; rewrite Ep.
  - rewrite countByte_free, andb_false_r, cutByte_free by done.
    destruct (EscapedPath_exact p "" false Hs Hp Hu) as (t1&r1&->&E). simpl.
    assert (RequestURI {| u_Path := t1; u_RawPath := r1; u_RawQuery := ""; u_ForceQuery := false |} = p) as ER.
    { unfold RequestURI. rewrite E. simpl. rewrite bool_decide_false; [done|]. by intros ->. }
    rewrite bool_decide_true by done. eauto.
  - rewrite cutByte_cons by done. rewrite countByte_app, countByte_free by done. simpl.
    assert (HasSuffix (p +:+ String "?" r) "?" && (0 + (1 + countByte (byte_of "?") r) =? 1) = bool_decide (r = "")) as Hforce.
    { rewrite HasSuffix_app_r by done. case_bool_decide as Er; [by subst|]. apply andb_false_iff.
      destruct (Z.eqb_spec (0 + (1 + countByte (byte_of "?") r)) 1) as [E0|]; [left|by right].
      change (HasSuffix (String "?" r) "?") with (bool_decide (String "?" r = "?") || HasSuffix r "?").
      rewrite bool_decide_false by (by intros [= ->]). simpl. apply not_true_iff_false. intros Hc%HasSuffix_count. lia. }
    rewrite Hforce. set (f := bool_decide (r = "")).
    destruct (EscapedPath_exact p (if f then "" else r) f Hs Hp Hu) as (t1&r1&->&E). simpl.
    set (u := {| u_Path := t1; u_RawPath := r1; u_RawQuery := if f then "" else r; u_ForceQuery := f |}) in *.
    assert (RequestURI u = p +:+ String "?" r) as ER.
    { unfold RequestURI. rewrite E, (bool_decide_false (p = "")) by (by intros ->). subst u f. simpl.
      case_bool_decide as Er; simpl; [by subst|]. by rewrite bool_decide_false. }
    rewrite bool_decide_true by done. eauto.
Qed.

Lemma validateTarget_fields t : validateTarget t = ValidHost (t_Host t) && ValidPath (t_Path t) && (1 <=? t_Port t) && (t_Port t <=? 65535)
  && (bool_decide (t_Scheme t = "http") || bool_decide (t_Scheme t = "https")).
Proof.
  unfold validateTarget. destruct (ValidPath (t_Path t)) eqn:E; [|by rewrite andb_false_r].
  destruct (buildProbeURL_exact t E) as (u&->&_). rewrite (bool_decide_true (is_Some _)) by by eexists. by rewrite andb_true_r.
Qed.

(** The probe asks for exactly the configured path. For every path [ValidPath] accepts, parsing it as a
    request-target with [net/url] and printing the URL again gives the configured bytes back, percent escapes, empty
    and repeated query marks included; so the agent's own check of the round trip never refuses a target the control
    plane accepted, and validating a target is just validating its four fields. *)
Theorem probe_target_exact (t : HealthGateTarget) :
  (ValidPath (t_Path t) = true → ∃ u, buildProbeURL t = Some u ∧ RequestURI u = t_Path t) ∧
  validateTarget t = ValidHost (t_Host t) && ValidPath (t_Path t) && (1 <=? t_Port t) && (t_Port t <=? 65535)
    && (bool_decide (t_Scheme t = "http") || bool_decide (t_Scheme t = "https")).
Proof. split; [apply buildProbeURL_exact|apply validateTarget_fields]. Qed.

(** ** The gate loop (health.go) and its verdict (classify.go) *)

Definition healthGateConsecutiveSuccesses : Z := 3.
Definition healthGateProbeInterval : Z := 2 * second.
Definition healthGateProbeTimeout : Z := 2 * second.
Definition healthGateOverallDeadline : Z := 60 * second.

Inductive ContainerState := ContainerStateUnknown | ContainerStateRunning | ContainerStateNotRunning.
#[global] Instance ContainerState_eq_dec : EqDecision ContainerState.
Proof. solve_decision. Defined.
Record ContainerStatus := { cs_State : ContainerState; cs_ExitCode : Z; cs_OOMKilled : bool }.

Inductive HealthGateFailureReason :=
  | HealthGateFailureNone | HealthGateFailureDeadlineExceeded | HealthGateFailureContextCancelled
  | HealthGateFailureContainerNotRunning.
Record HealthGateResult := {
  hg_Success : bool; hg_Reason : HealthGateFailureReason; hg_ExitCode : Z; hg_OOMKilled : bool;
}.
Definition gateSuccess : HealthGateResult :=
  {| hg_Success := true; hg_Reason := HealthGateFailureNone; hg_ExitCode := 0; hg_OOMKilled := false |}.
Definition gateFailure (r : HealthGateFailureReason) (exit : Z) (oom : bool) : HealthGateResult :=
  {| hg_Success := false; hg_Reason := r; hg_ExitCode := exit; hg_OOMKilled := oom |}.

(** A context: its deadline and the instant it is cancelled, if it ever is.
    [Err] is what it reports at an instant: the first of the two that came. *)
Record Context := { ctx_deadline : Z; ctx_cancelled : option Z }.
Inductive CtxErr := Canceled | DeadlineExceeded.
Definition ctxErr (ctx : Context) (now : Z) : option CtxErr :=
  match ctx_cancelled ctx with
  | Some c => if (c <=? now) && (c <=? ctx_deadline ctx) then Some Canceled
              else if ctx_deadline ctx <=? now then Some DeadlineExceeded else None
  | None => if ctx_deadline ctx <=? now then Some DeadlineExceeded else None
  end.
Definition ctxDone (ctx : Context) : Z :=
  match ctx_cancelled ctx with Some c => Z.min c (ctx_deadline ctx) | None => ctx_deadline ctx end.

Definition deadlineResult (e : CtxErr) : HealthGateResult :=
  match e with
  | Canceled => gateFailure HealthGateFailureContextCancelled 0 false
  | DeadlineExceeded => gateFailure HealthGateFailureDeadlineExceeded 0 false
  end.

(** One round: what [state] and [probe] return ([None] is an error) and the
    time each takes. *)
Record Round := { rd_state : option ContainerStatus; rd_stateTime : Z; rd_probe : option bool; rd_probeTime : Z }.

Section gate.
Context (rounds : nat → Round) (ctx : Context) (interval consecutiveRequired : Z).

(** The outer [None] is running out of fuel, the inner one an error.  When
    the timer and the context fire together, either branch of the [select]
    gives this result: the next round begins with the context's error. *)
Fixpoint runHealthGate (fuel i : nat) (consecutive now : Z) : option (option HealthGateResult) :=
  match fuel with
  | O => None
  | S fuel' =>
      match ctxErr ctx now with
      | Some e => Some (Some (deadlineResult e))
      | None =>
          let r := rounds i in
          let now1 := now + rd_stateTime r in
          match rd_state r with
          | None => match ctxErr ctx now1 with Some e => Some (Some (deadlineResult e)) | None => Some None end
          | Some st =>
              if negb (bool_decide (cs_State st = ContainerStateRunning))
              then Some (Some (gateFailure HealthGateFailureContainerNotRunning (cs_ExitCode st) (cs_OOMKilled st)))
              else
                let now2 := now1 + rd_probeTime r in
                match rd_probe r with
                | None => Some None
                | Some ok =>
                    let consecutive := if ok then consecutive + 1 else 0 in
                    if consecutiveRequired <=? consecutive then Some (Some gateSuccess)
                    else
                      let wake := now2 + interval in
                      if ctxDone ctx <=? wake
                      then Some (option_map deadlineResult (ctxErr ctx (Z.max now2 (ctxDone ctx))))
                      else runHealthGate fuel' (S i) consecutive wake
                end
          end
      end
  end.
End gate.

(** [RunHealthGate]'s call of the loop. *)
Definition runDefaultGate (rounds : nat → Round) (start : Z) (cancelled : option Z) (fuel : nat) : option (option HealthGateResult) :=
  runHealthGate rounds {| ctx_deadline := start + healthGateOverallDeadline; ctx_cancelled := cancelled |}
    healthGateProbeInterval healthGateConsecutiveSuccesses fuel 0 0 start.

Definition ClassifyHealthGateResult (r : HealthGateResult) : FailureClass :=
  match hg_Reason r with
  | HealthGateFailureDeadlineExceeded => FailureClassPermanentConfiguration
  | HealthGateFailureContextCancelled => FailureClassTransient
  | HealthGateFailureContainerNotRunning =>
      if hg_OOMKilled r then FailureClassTransient else FailureClassPermanentConfiguration
  | HealthGateFailureNone => FailureClassCorruptState
  end.

(** ** The gate always decides *)

Lemma runHealthGate_fuel rounds ctx iv rq fuel fuel' i c now v : (fuel ≤ fuel')%nat →
  runHealthGate rounds ctx iv rq fuel i c now = Some v → runHealthGate rounds ctx iv rq fuel' i c now = Some v.
Proof.
  revert fuel' i c now. induction fuel as [|fuel IH]; intros [|fuel'] i c now Hle H; try done; [lia|].
  cbn [runHealthGate] in *. repeat (case_match; try done); (apply IH; [lia|done]).
Qed.

Section gate_spec.
Context (rounds : nat → Round) (start : Z) (cancelled : option Z).
Hypothesis times_nonneg : ∀ i, 0 ≤ rd_stateTime (rounds i) ∧ 0 ≤ rd_probeTime (rounds i).

Let ctx : Context := {| ctx_deadline := start + healthGateOverallDeadline; ctx_cancelled := cancelled |}.

(** The instant round [i] begins when no round before it ends the gate. *)
Fixpoint began (i : nat) : Z :=
  match i with
  | O => start
  | S j => began j + rd_stateTime (rounds j) + rd_probeTime (rounds j) + healthGateProbeInterval
  end.

(** The container runs and the probe answers at all; and it answers well. *)
Definition passable (i : nat) : bool :=
  match rd_state (rounds i), rd_probe (rounds i) with
  | Some st, Some _ => bool_decide (cs_State st = ContainerStateRunning)
  | _, _ => false
  end.
Definition healthy (i : nat) : bool := passable i && bool_decide (rd_probe (rounds i) = Some true).

(** The length of the run of healthy rounds that ends before round [i]. *)
Fixpoint streak (i : nat) : Z := match i with O => 0 | S j => if healthy j then streak j + 1 else 0 end.

(** Round [n] is reached and completes the third healthy round in a row. *)
Definition succeeds_at (n : nat) : Prop :=
  (∀ i, (i ≤ n)%nat → passable i = true ∧ began i < ctxDone ctx) ∧ streak (S n) = 3.

Lemma ctxErr_None now : ctxErr ctx now = None ↔ now < ctxDone ctx.
Proof. unfold ctxErr, ctxDone. destruct (ctx_cancelled ctx); repeat case_match; bool_hyps; split; try done; lia. Qed.

Lemma began_step i : began i + 2 * second ≤ began (S i).
Proof. simpl. pose proof (times_nonneg i). unfold healthGateProbeInterval. lia. Qed.
Lemma began_lower i : start + 2 * second * Z.of_nat i ≤ began i.
Proof. induction i as [|i IH]; [simpl; lia|]. pose proof (began_step i). lia. Qed.
Lemma ctxDone_upper : ctxDone ctx ≤ start + 60 * second.
Proof. unfold ctxDone. simpl. unfold healthGateOverallDeadline. case_match; lia. Qed.

Lemma streak_nonneg i : 0 ≤ streak i.
Proof. induction i; simpl; [lia|]. case_match; lia. Qed.
(** A run of three or more passes through three. *)
Lemma streak_first i : 3 ≤ streak i → ∃ n, (S n ≤ i)%nat ∧ streak (S n) = 3.
Proof.
  induction i as [|i IH]; [simpl; lia|]. intros H. destruct (decide (streak (S i) = 3)) as [E|Hn]; [by exists i|].
  destruct IH as (n&?&?); [|exists n; split; [lia|done]]. simpl in *. destruct (healthy i); lia.
Qed.

(** The verdict of the loop from round [i] on. *)
Lemma gate_from fuel i :
  (∀ j, (j < i)%nat → passable j = true ∧ began j < ctxDone ctx) → (∀ n, (S n ≤ i)%nat → streak (S n) < 3) →
  (30 ≤ fuel + i)%nat → (1 ≤ fuel)%nat → began i < ctxDone ctx →
  ∃ v, runHealthGate rounds ctx healthGateProbeInterval healthGateConsecutiveSuccesses fuel i (streak i) (began i) = Some v ∧
    (v = Some gateSuccess ↔ ∃ n, succeeds_at n).
Proof.
  revert i. induction fuel as [|fuel IH]; intros i Hpass Hst Hfuel Hpos Hb; [lia|]. cbn [runHealthGate].
  rewrite (proj2 (ctxErr_None _)) by done.
  assert (∀ n, succeeds_at n → (i ≤ n)%nat ∧ passable i = true) as Hlate.
  { intros n [Hn Hs]. assert (i ≤ n)%nat as Hin by (destruct (decide (i ≤ n)%nat); [done|]; specialize (Hst n); lia).
    split; [done|]. by apply Hn. }
  assert (passable i = false → ∀ v, v ≠ Some gateSuccess → (v = Some gateSuccess ↔ ∃ n, succeeds_at n)) as Hbad.
  { intros Hp v Hv. split; [done|]. intros [n [_ Hn]%Hlate]. congruence. }
  assert (∀ e, Some (deadlineResult e) ≠ Some gateSuccess) as Hdl by by intros [].
  destruct (rd_state (rounds i)) as [st|] eqn:Est; cycle 1.
  { assert (passable i = false) as Hp by (unfold passable; by rewrite Est). case_match; eexists; (split; [done|]); by apply Hbad. }
  destruct (bool_decide (cs_State st = ContainerStateRunning)) eqn:Erun; simpl; cycle 1.
  { assert (passable i = false) as Hp by (unfold passable; rewrite Est; by case_match). eexists. split; [done|]. by apply Hbad. }
  destruct (rd_probe (rounds i)) as [ok|] eqn:Ep; cycle 1.
  { assert (passable i = false) as Hp by (unfold passable; by rewrite Est, Ep). eexists. split; [done|]. by apply Hbad. }
  assert (passable i = true) as Hp by (unfold passable; by rewrite Est, Ep).
  assert ((if ok then streak i + 1 else 0) = streak (S i)) as ->.
  { simpl. unfold healthy. rewrite Hp, Ep. by destruct ok. }
  change (began i + rd_stateTime (rounds i) + rd_probeTime (rounds i) + healthGateProbeInterval) with (began (S i)).
  unfold healthGateConsecutiveSuccesses at 1. destruct (3 <=? streak (S i)) eqn:E3; bool_hyps.
  { eexists. split; [done|]. split; [intros _|done]. exists i. split.
    - intros j Hj. destruct (decide (j = i)) as [->|]; [done|]. apply Hpass. lia.
    - destruct (decide (i = O)) as [->|]; [simpl in *; case_match; lia|]. destruct i as [|i]; [done|].
      specialize (Hst i). simpl in *. case_match; lia. }
  destruct (ctxDone ctx <=? began (S i)) eqn:Ed; bool_hyps.
  { match goal with |- context [option_map _ (ctxErr ctx ?t)] => destruct (ctxErr ctx t) as [e|] eqn:Ee end.
    - eexists. split; [done|]. split; [by intros ?%Hdl|]. intros [n Hn]. pose proof (Hlate n Hn) as [Hin _]. destruct Hn as [Hn Hs].
      destruct (decide (n = i)) as [->|]; [lia|]. destruct (Hn (S i)) as [_ ?]; lia.
    - apply ctxErr_None in Ee. lia. }
  destruct fuel as [|fuel']; [pose proof (began_lower (S i)); pose proof ctxDone_upper; unfold second in *; lia|].
  apply IH; [| |lia|lia|done].
  - intros j Hj. destruct (decide (j = i)) as [->|]; [done|]. apply Hpass. lia.
  - intros n Hn. destruct (decide (n = i)) as [->|]; [done|]. apply Hst. lia.
Qed.
End gate_spec.

(** C40: The health gate always decides, and decides right. Whatever the container and the probes do and however long
    they take, the loop returns within thirty rounds, and it reports success exactly when some round completed a third
    healthy answer in a row, every round up to it having found the container running and having begun before the
    deadline or the cancellation. *)
Theorem health_gate_decides (rounds : nat → Round) (start : Z) (cancelled : option Z) :
  (∀ i, 0 ≤ rd_stateTime (rounds i) ∧ 0 ≤ rd_probeTime (rounds i)) →
  ∃ v, (∀ fuel, (30 ≤ fuel)%nat → runDefaultGate rounds start cancelled fuel = Some v) ∧
    (v = Some gateSuccess ↔ ∃ n, succeeds_at rounds start cancelled n).
Proof.
  intros Ht. unfold runDefaultGate. set (ctx := {| ctx_deadline := start + healthGateOverallDeadline; ctx_cancelled := cancelled |}).
  destruct (decide (start < ctxDone ctx)) as [Hs|Hs].
  - destruct (gate_from rounds start cancelled Ht 30 0) as (v&Hv&Hiff); try done; try lia.
    exists v. split; [|done]. intros fuel Hf. by apply (runHealthGate_fuel _ _ _ _ 30).
  - destruct (ctxErr ctx start) as [e|] eqn:Ee; [|by apply (ctxErr_None start cancelled) in Ee].
    exists (Some (deadlineResult e)). split.
    + intros [|fuel] Hf; [lia|]. cbn [runHealthGate]. by rewrite Ee.
    + split; [by destruct e|]. intros (n&Hn&_). destruct (Hn O) as [_ Hb]; [lia|]. done.
Qed.

(** Three healthy answers, two seconds apart, out of a container that runs. *)
Example health_gate_decides_witness :
  let r := {| rd_state := Some {| cs_State := ContainerStateRunning; cs_ExitCode := 0; cs_OOMKilled := false |};
              rd_stateTime := 0; rd_probe := Some true; rd_probeTime := 0 |} in
  (∃ v, (∀ fuel, (30 ≤ fuel)%nat → runDefaultGate (λ _, r) 0 None fuel = Some v) ∧
     (v = Some gateSuccess ↔ ∃ n, succeeds_at (λ _, r) 0 None n)) ∧
  runDefaultGate (λ _, r) 0 None 30 = Some (Some gateSuccess) ∧ succeeds_at (λ _, r) 0 None 2.
Proof.
  intros r. split; [|split; [vm_compute; reflexivity|]].
  - apply (health_gate_decides (λ _, r) 0 None). intros i. simpl. lia.
  - split; [|reflexivity]. intros i Hi. split; [reflexivity|]. do 3 (destruct i as [|i]; [reflexivity|]). lia.
Defined.
