(* ===== verification/Password.v ===== *)
(** * User names, passwords and their verifiers (src/internal/auth/auth.go)

    The password policy, the PHC text of an Argon2id verifier and its strict
    parser, hashing and verification.  Argon2 itself is a third-party package
    and a parameter; everything around it is executable. *)
From S2P Require Import Prelude GoStd Base64 Token Route Regex HealthGate.
From Stdlib Require Import Ascii.
#[local] Open Scope Z_scope.

(** ** Go errors

    [errors.New(text)], with the text of the source; for [fmt.Errorf] the
    text before the wrapped error. *)
Definition Result (A : Type) : Type := string + A.
Definition fails {A} (text : string) : Result A := inl text.
Definition res_bind {A B} (m : Result A) (k : A → Result B) : Result B := match m with inl e => inl e | inr a => k a end.
Definition require (ok : bool) (text : string) : Result unit := if ok then inr tt else inl text.
Definition found {A} (o : option A) (text : string) : Result A := match o with Some a => inr a | None => inl text end.
Definition isOk {A} (r : Result A) : bool := match r with inr _ => true | inl _ => false end.

Declare Scope res_scope.
Notation "'let?' x ':=' m 'in' k" := (res_bind m (λ x, k)) (at level 10, x pattern, m at level 100, k at level 200) : res_scope.
Notation "'do?' m 'in' k" := (res_bind m (λ _, k)) (at level 10, m at level 100, k at level 200) : res_scope.
#[local] Open Scope res_scope.

Lemma res_bind_inr {A B} (m : Result A) (k : A → Result B) b : res_bind m k = inr b ↔ ∃ a, m = inr a ∧ k a = inr b.
Proof. destruct m; simpl; naive_solver. Qed.
Lemma require_inr ok text u : require ok text = inr u ↔ ok = true.
Proof. destruct ok, u; simpl; naive_solver. Qed.
Lemma found_inr {A} (o : option A) text a : found o text = inr a ↔ o = Some a.
Proof. destruct o; simpl; naive_solver. Qed.
Lemma isOk_inr {A} (r : Result A) : isOk r = true ↔ ∃ a, r = inr a.
Proof. destruct r; simpl; naive_solver. Qed.

Ltac res_inv :=
  repeat match goal with
  | H : res_bind _ _ = inr _ |- _ => apply res_bind_inr in H as (?&?&?)
  | H : require _ _ = inr _ |- _ => apply require_inr in H
  | H : found _ _ = inr _ |- _ => apply found_inr in H
  end.

(** ** User names *)

Definition isUserStart (b : Z) : bool := isLower b || isDigit b.
Definition isUserByte (b : Z) : bool := isLower b || isDigit b || (b =? 46) || (b =? 95) || (b =? 45).
(** [^[a-z0-9][a-z0-9._-]{2,63}$] *)
Definition usernamePattern : regex :=
  RSeq (RClass isUserStart) (RSeq (RTimes 2 (RClass isUserByte)) (RUpTo 61 (RClass isUserByte))).

(** [strings.Trim(s, " ")] *)
Fixpoint trimLeftSpace (s : string) : string :=
  match s with String c r => if byte_of c =? 32 then trimLeftSpace r else s | EmptyString => "" end.
Fixpoint trimRightSpace (s : string) : string :=
  match s with
  | EmptyString => ""
  | String c r => match trimRightSpace r with EmptyString => if byte_of c =? 32 then "" else String c "" | r' => String c r' end
  end.
Definition TrimSpaces (s : string) : string := trimRightSpace (trimLeftSpace s).

Fixpoint mapBytes (f : Z → Z) (s : string) : string :=
  match s with EmptyString => "" | String c r => String (GoStd.ascii_of_byte (f (byte_of c))) (mapBytes f r) end.
Definition lowerASCII (b : Z) : Z := if isUpper b then b + 32 else b.

(** The byte loop refuses or lowers each byte in turn. *)
Definition CanonicalUsername (input : string) : Result string :=
  let value := TrimSpaces input in
  do? require (negb ((slen value <? 3) || (64 <? slen value))) "invalid username" in
  do? require (forallBytes (λ b, b <? 128) value) "username must be ASCII" in
  let value := mapBytes lowerASCII value in
  do? require (MatchString usernamePattern value) "invalid username" in
  inr value.

(** ** Passwords and policies *)

Definition ValidatePasswordBytes (password : string) : Result unit :=
  do? require (ValidString password) "password is not valid UTF-8" in
  require (negb ((slen password <? 15) || (1024 <? slen password))) "password must be 15 to 1024 bytes".
Definition ValidatePassword (password : string) : Result unit := ValidatePasswordBytes password.

Record Argon2Policy := { pol_Revision : Z; pol_MemoryKiB : Z; pol_Iterations : Z; pol_Lanes : Z }.
#[global] Instance Argon2Policy_eq_dec : EqDecision Argon2Policy.
Proof. solve_decision. Defined.
Definition policyValidate (p : Argon2Policy) : Result unit :=
  require (negb ((pol_Revision p =? 0) || (pol_MemoryKiB p <? 19 * 1024) || (64 * 1024 <? pol_MemoryKiB p) || (pol_Iterations p <? 2)
                 || (5 <? pol_Iterations p) || negb (pol_Lanes p =? 1))) "invalid Argon2 policy".

Record PasswordVerifier := { pv_PHC : string; pv_PolicyRevision : Z }.
#[global] Instance PasswordVerifier_eq_dec : EqDecision PasswordVerifier.
Proof. solve_decision. Defined.

Definition argonSaltBytes : Z := 16.
Definition argonHashBytes : Z := 32.
Definition argonSaltEncodedBytes : Z := 22.
Definition argonHashEncodedBytes : Z := 43.
Definition maxPHCBytes : Z := 128.

Definition formatPHC (memory iterations lanes : Z) (salt hash : string) : string :=
  "$argon2id$v=19$m=" +:+ FormatInt memory +:+ ",t=" +:+ FormatInt iterations +:+ ",p=" +:+ FormatInt lanes +:+ "$"
  +:+ RawStdEncodeToString salt +:+ "$" +:+ RawStdEncodeToString hash.

Record parsedPHC := { phc_memory : Z; phc_iterations : Z; phc_lanes : Z; phc_salt : string; phc_hash : string }.

(** [strconv.ParseUint(s, 10, bits)] *)
Definition ParseUint (bits : Z) (s : string) : option Z :=
  if negb (bool_decide (s = "")) && forallBytes isDigit s then
    let v := value ((λ b, b - 48) <$> Sha256.bytes_of_string s) in if v <? 2 ^ bits then Some v else None
  else None.
Definition ParseUint32 : string → option Z := ParseUint 32.

Definition decodeCanonicalRawStd (s : string) : Result string :=
  do? require (negb (bool_decide (s = "") || ContainsByte s 61)) "invalid base64" in
  let? decoded := found (RawStdDecodeString s) "invalid base64" in
  do? require (bool_decide (RawStdEncodeToString decoded = s)) "invalid base64" in
  inr decoded.

(** [s[i] == '$'] *)
Definition dollarAt (s : string) (i : Z) : bool :=
  match String.get (Z.to_nat i) s with Some c => byte_of c =? 36 | None => false end.

(** One iteration of the parameter loop. *)
Definition parseParameter (field prefix : string) : Result Z :=
  do? require (HasPrefix field prefix) "noncanonical Argon2 parameters" in
  let number := TrimPrefix field prefix in
  do? require (negb (bool_decide (number = "") || ((1 <? slen number) && HasPrefix number "0"))) "noncanonical Argon2 parameter" in
  found (ParseUint32 number) "invalid Argon2 parameter".

Definition parsePHC (s : string) : Result parsedPHC :=
  do? require (negb ((slen s <? 68) || (maxPHCBytes <? slen s)) && dollarAt s (slen s - 44) && dollarAt s (slen s - 67))
        "invalid Argon2 verifier" in
  match SplitByte "$" s with
  | [p0; p1; p2; p3; p4; p5] =>
      do? require (bool_decide (p0 = "") && bool_decide (p1 = "argon2id") && bool_decide (p2 = "v=19") && (slen p3 <=? 32)
                   && (slen p4 =? argonSaltEncodedBytes) && (slen p5 =? argonHashEncodedBytes)) "invalid Argon2 verifier" in
      match SplitByte "," p3 with
      | [f0; f1; f2] =>
          let? m := parseParameter f0 "m=" in
          let? t := parseParameter f1 "t=" in
          let? p := parseParameter f2 "p=" in
          do? require (negb ((256 * 1024 <? m) || (t =? 0) || (10 <? t) || (p =? 0) || (4 <? p) || (m <? 8 * p)))
                "Argon2 parameters out of bounds" in
          let? salt := match decodeCanonicalRawStd p4 with inr x => if slen x =? argonSaltBytes then inr x else fails "invalid Argon2 salt"
                                                       | inl _ => fails "invalid Argon2 salt" end in
          let? hash := match decodeCanonicalRawStd p5 with inr x => if slen x =? argonHashBytes then inr x else fails "invalid Argon2 hash"
                                                       | inl _ => fails "invalid Argon2 hash" end in
          inr {| phc_memory := m; phc_iterations := t; phc_lanes := p; phc_salt := salt; phc_hash := hash |}
      | _ => fails "invalid Argon2 parameters"
      end
  | _ => fails "invalid Argon2 verifier"
  end.

Definition ValidatePasswordVerifier (v : PasswordVerifier) : Result unit :=
  do? require (negb (pv_PolicyRevision v =? 0)) "invalid password verifier revision" in
  do? parsePHC (pv_PHC v) in inr tt.
Definition matchesPolicy (v : PasswordVerifier) (parsed : parsedPHC) (policy : Argon2Policy) : bool :=
  (pv_PolicyRevision v =? pol_Revision policy) && (phc_memory parsed =? pol_MemoryKiB policy)
  && (phc_iterations parsed =? pol_Iterations policy) && (phc_lanes parsed =? pol_Lanes policy).
Definition ValidatePasswordVerifierForPolicy (v : PasswordVerifier) (policy : Argon2Policy) : Result unit :=
  do? policyValidate policy in
  do? ValidatePasswordVerifier v in
  let? parsed := parsePHC (pv_PHC v) in
  require (matchesPolicy v parsed policy) "password verifier does not exactly match policy".

(** ** Hashing and verifying *)

Record PasswordVerification := { ver_Valid : bool; ver_RehashNeeded : bool }.

Section argon2.
(** [argon2.IDKey(password, salt, time, memory, threads, keyLen)] *)
Context (IDKey : string → string → Z → Z → Z → Z → string).

(** [randomness] is what the reader delivers before it fails. *)
Definition HashPassword (password : string) (policy : Argon2Policy) (randomness : string) : Result PasswordVerifier :=
  do? ValidatePassword password in
  do? policyValidate policy in
  let? salt := found (readFull argonSaltBytes randomness) "generate password salt" in
  let hash := IDKey password salt (pol_Iterations policy) (pol_MemoryKiB policy) (pol_Lanes policy) argonHashBytes in
  inr {| pv_PHC := formatPHC (pol_MemoryKiB policy) (pol_Iterations policy) (pol_Lanes policy) salt hash;
         pv_PolicyRevision := pol_Revision policy |}.

Definition VerifyPassword (password : string) (v : PasswordVerifier) (policy : Argon2Policy) : Result PasswordVerification :=
  do? ValidatePassword password in
  do? policyValidate policy in
  do? ValidatePasswordVerifier v in
  do? require (negb (pol_Revision policy <? pv_PolicyRevision v)) "password verifier policy revision is newer than current policy" in
  let? parsed := parsePHC (pv_PHC v) in
  let actual := IDKey password (phc_salt parsed) (phc_iterations parsed) (phc_memory parsed) (phc_lanes parsed) (slen (phc_hash parsed)) in
  let valid := bool_decide (actual = phc_hash parsed) in
  inr {| ver_Valid := valid;
         ver_RehashNeeded := valid && ((pv_PolicyRevision v <? pol_Revision policy) || negb (phc_memory parsed =? pol_MemoryKiB policy)
                                       || negb (phc_iterations parsed =? pol_Iterations policy) || negb (phc_lanes parsed =? pol_Lanes policy)) |}.

Record DummyPasswordVerifier := { dummy_verifier : PasswordVerifier; dummy_policy : Argon2Policy }.
Definition dummySalt : string := Sha256.string_of_bytes [81; 156; 39; 228; 98; 141; 3; 183; 68; 250; 22; 193; 117; 43; 222; 144].
Definition BuildDummyPasswordVerifier (policy : Argon2Policy) : Result DummyPasswordVerifier :=
  do? policyValidate policy in
  let hash := IDKey "autodeploy-non-account-dummy" dummySalt (pol_Iterations policy) (pol_MemoryKiB policy) (pol_Lanes policy) argonHashBytes in
  inr {| dummy_verifier := {| pv_PHC := formatPHC (pol_MemoryKiB policy) (pol_Iterations policy) (pol_Lanes policy) dummySalt hash;
                              pv_PolicyRevision := pol_Revision policy |}; dummy_policy := policy |}.
Definition VerifyDummyPassword (password : string) (d : DummyPasswordVerifier) : Result unit :=
  do? VerifyPassword password (dummy_verifier d) (dummy_policy d) in inr tt.
End argon2.

(** ** The verifier text *)

Lemma numeral_bytes s : numeral ((λ b, b - 48) <$> Sha256.bytes_of_string s) = s.
Proof. induction s as [|c s IH]; [done|]. simpl. f_equal; [apply digit_of_byte|exact IH]. Qed.
Lemma bytes_decimal s : forallBytes isDigit s = true → Forall isDecimal ((λ b, b - 48) <$> Sha256.bytes_of_string s).
Proof.
  induction s as [|c s IH]; [constructor|]. simpl. intros [Hc Hs]%andb_true_iff. unfold isDigit in Hc. bool_hyps.
  constructor; [unfold isDecimal; lia|auto].
Qed.
Lemma bytes_numeral ds : Forall isDecimal ds → (λ b, b - 48) <$> Sha256.bytes_of_string (numeral ds) = ds.
Proof. induction 1 as [|d ds Hd _ IH]; [done|]. simpl. f_equal; [rewrite byte_of_digit by done; lia|exact IH]. Qed.
Lemma numeral_digits ds : Forall isDecimal ds → forallBytes isDigit (numeral ds) = true.
Proof.
  induction 1 as [|d ds Hd _ IH]; [done|]. simpl. rewrite byte_of_digit, IH by done. unfold isDigit, isDecimal in *.
  by rewrite !(proj2 (Z.leb_le _ _)) by lia.
Qed.

Lemma HasPrefix_char c s d : HasPrefix (String c s) (String d "") = Ascii.eqb d c.
Proof. change (Ascii.eqb d c && HasPrefix s "" = Ascii.eqb d c). destruct s; apply andb_true_r. Qed.

(** A canonical unsigned decimal. *)
Lemma ParseUint32_exact s n :
  s ≠ "" ∧ ((1 <? slen s) && HasPrefix s "0") = false ∧ ParseUint32 s = Some n ↔ 0 ≤ n < 2 ^ 32 ∧ s = FormatInt n.
Proof.
  unfold ParseUint32, ParseUint. split.
  - intros (Hne&Hz&H). rewrite bool_decide_false in H by done. simpl in H.
    destruct (forallBytes isDigit s) eqn:Hd; [|done]. destruct (value _ <? 2 ^ 32) eqn:Hlt; [|done]. bool_hyps. injection H as <-.
    pose proof (bytes_decimal s Hd) as Hds. pose proof (numeral_bytes s) as En.
    destruct s as [|c s]; [done|]. rewrite HasPrefix_char in Hz. change (Sha256.bytes_of_string (String c s)) with (byte_of c :: Sha256.bytes_of_string s) in *.
    rewrite fmap_cons in *. set (ds := (λ b, b - 48) <$> Sha256.bytes_of_string s) in *.
    apply Forall_cons in Hds as [Hc Hds]. destruct (decide (byte_of c - 48 = 0)) as [E|E].
    + assert (c = "0"%char) as -> by (rewrite <-(digit_of_byte c), E; done).
      assert (s = "") as ->.
      { destruct s as [|c' s']; [done|]. rewrite Ascii.eqb_refl, andb_true_r in Hz. bool_hyps. unfold slen in Hz. simpl in Hz. lia. }
      done.
    + rewrite FormatInt_numeral by done. split; [|by rewrite En]. split; [|done].
      assert (∀ es k, 0 ≤ k → Forall isDecimal es → 0 ≤ fold_left (λ n d, 10 * n + d) es k) as Hp.
      { induction es as [|e es IH]; intros k Hk Hes; [done|]. apply Forall_cons in Hes as [He Hes]. apply IH; [|done].
        unfold isDecimal in He. lia. }
      apply (Hp (byte_of c - 48 :: ds) 0); [lia|by constructor].
  - intros [[H0 Hn] ->]. destruct (decide (n = 0)) as [->|Hn0]; [done|].
    destruct (numeral_exists n) as (d&ds&Hd&Hd0&Hds&<-); [lia|]. rewrite FormatInt_numeral by done.
    assert (Forall isDecimal (d :: ds)) as Hall by by constructor. split_and!; [done| |].
    + simpl numeral. rewrite HasPrefix_char. assert (Ascii.eqb "0" (digit d) = false) as ->; [|by rewrite andb_false_r].
      apply Ascii.eqb_neq. intros E. apply Hd0. pose proof (byte_of_digit d Hd) as Hb. rewrite <-E in Hb. change (byte_of "0") with 48 in Hb. lia.
    + rewrite numeral_digits, bytes_numeral by done. rewrite bool_decide_false by done. simpl. by rewrite (proj2 (Z.ltb_lt _ _) Hn).
Qed.

Lemma parseParameter_exact field prefix n :
  parseParameter field prefix = inr n ↔ 0 ≤ n < 2 ^ 32 ∧ field = prefix +:+ FormatInt n.
Proof.
  unfold parseParameter. split.
  - intros H. res_inv. bool_hyps. match goal with H : HasPrefix _ prefix = true |- _ => pose proof H as Hp; apply HasPrefix_app in H as [r ->] end.
    unfold TrimPrefix in *. rewrite Hp, dropBytes_app in *. destruct (proj1 (ParseUint32_exact r n)) as [? ->]; [|done]. done.
  - intros [Hn ->]. destruct (proj2 (ParseUint32_exact (FormatInt n) n)) as (Hne&Hz&Hp); [done|].
    unfold TrimPrefix. rewrite (proj2 (HasPrefix_app _ _)), dropBytes_app by eauto. simpl. rewrite Hz, bool_decide_false by done. simpl. by rewrite Hp.
Qed.

Lemma decodeCanonical_exact s x : decodeCanonicalRawStd s = inr x ↔ x ≠ "" ∧ s = RawStdEncodeToString x.
Proof.
  unfold decodeCanonicalRawStd. split.
  - intros H. res_inv. bool_hyps. simplify_eq. split; [|done]. intros ->. done.
  - intros [Hx ->]. assert (RawStdEncodeToString x ≠ "") as Hne.
    { intros E. pose proof (RawStd_length x) as Hl. rewrite E in Hl. assert (0 < slen x) by (destruct x; [done|unfold slen; simpl; lia]).
      unfold slen in Hl at 1. simpl in Hl. Z.div_mod_to_equations. lia. }
    assert (ContainsByte (RawStdEncodeToString x) 61 = false) as ->.
    { unfold ContainsByte. apply negb_false_iff. pose proof (raw_safe stdAlphabet stdSextet x) as Hs. fold (RawStdEncodeToString x) in Hs.
      induction (RawStdEncodeToString x) as [|c r IH]; [done|]. simpl in *. apply andb_true_iff in Hs as [Hc Hs].
      unfold isSafe in Hc. bool_hyps. rewrite (proj2 (Z.eqb_neq _ _)) by done. destruct r; [done|]. apply IH; done. }
    rewrite bool_decide_false by done. simpl. rewrite RawStd_roundtrip. simpl. by rewrite bool_decide_true.
Qed.

Lemma encoded_free c x : isSafe (byte_of c) = false → free c (RawStdEncodeToString x).
Proof. intros Hc. apply (free_forall c isSafe); [done|]. apply (raw_safe stdAlphabet stdSextet). Qed.

Lemma dollarAt_at a b n : n = slen b + 1 → dollarAt (a +:+ "$" +:+ b) (slen (a +:+ "$" +:+ b) - n) = true.
Proof.
  intros ->. unfold dollarAt. rewrite !slen_app. unfold slen. replace (Z.to_nat _) with (String.length a + 0)%nat by (simpl; lia).
  rewrite get_app_ge by lia. by replace (_ + 0 - _)%nat with 0%nat by lia.
Qed.

Definition phcBounds (p : parsedPHC) : Prop :=
  phc_memory p ≤ 256 * 1024 ∧ 1 ≤ phc_iterations p ≤ 10 ∧ 1 ≤ phc_lanes p ≤ 4 ∧ 8 * phc_lanes p ≤ phc_memory p ∧
  slen (phc_salt p) = 16 ∧ slen (phc_hash p) = 32.
Definition phcText (p : parsedPHC) : string :=
  formatPHC (phc_memory p) (phc_iterations p) (phc_lanes p) (phc_salt p) (phc_hash p).
Definition phcParameters (p : parsedPHC) : string :=
  "m=" +:+ FormatInt (phc_memory p) +:+ ",t=" +:+ FormatInt (phc_iterations p) +:+ ",p=" +:+ FormatInt (phc_lanes p).

Lemma phcText_concat p : phcText p = String.concat "$" [""; "argon2id"; "v=19"; phcParameters p; RawStdEncodeToString (phc_salt p);
  RawStdEncodeToString (phc_hash p)].
Proof.
  unfold phcText, formatPHC, phcParameters. simpl. by rewrite !string_app_assoc.
Qed.
Lemma phcParameters_concat p : phcParameters p = String.concat "," ["m=" +:+ FormatInt (phc_memory p); "t=" +:+ FormatInt (phc_iterations p);
  "p=" +:+ FormatInt (phc_lanes p)].
Proof. unfold phcParameters. simpl. by rewrite !string_app_assoc. Qed.

(** ** The layout of a verifier in bounds *)

Lemma decimal_length n : 0 ≤ n → n < 10 ^ 6 → 1 ≤ slen (FormatInt n) ≤ 6.
Proof.
  intros H0 Hn. destruct (decide (n = 0)) as [->|]; [done|]. destruct (numeral_exists n) as (d&ds&Hd&Hd0&Hds&En); [lia|].
  rewrite <-En, FormatInt_numeral by done. unfold slen. rewrite length_numeral. split; [simpl; lia|].
  assert (∀ es k, 1 ≤ k → Forall isDecimal es → k * 10 ^ Z.of_nat (length es) ≤ fold_left (λ n d, 10 * n + d) es k) as Hg.
  { induction es as [|e es IH]; intros k Hk Hes; [simpl; lia|]. apply Forall_cons in Hes as [He Hes]. unfold isDecimal in He.
    cbn [fold_left length]. etrans; [|apply IH; [lia|done]]. rewrite Nat2Z.inj_succ, Z.pow_succ_r by lia. nia. }
  specialize (Hg ds d). unfold value in En. cbn [fold_left] in En. rewrite Z.mul_0_r, Z.add_0_l in En. rewrite En in Hg.
  unfold isDecimal in Hd. destruct (decide (Z.of_nat (length (d :: ds)) ≤ 6)) as [|Hlong]; [done|].
  assert (10 ^ 6 ≤ 10 ^ Z.of_nat (length ds)) by (apply Z.pow_le_mono_r; simpl in Hlong; lia).
  assert (d * 10 ^ Z.of_nat (length ds) ≤ n) by (apply Hg; [lia|done]). lia.
Qed.

Section layout.
Context (p : parsedPHC) (Hp : phcBounds p).

Lemma phc_lengths : slen (RawStdEncodeToString (phc_salt p)) = 22 ∧ slen (RawStdEncodeToString (phc_hash p)) = 43 ∧
  11 ≤ slen (phcParameters p) ≤ 26 ∧ slen (phcText p) = slen (phcParameters p) + 82.
Proof.
  destruct Hp as (Hm&Ht&Hl&Hml&Hs&Hh). rewrite !RawStd_length, Hs, Hh. split; [done|]. split; [done|]. split.
  - unfold phcParameters. rewrite !slen_app. change (slen "m=") with 2. change (slen ",t=") with 3. change (slen ",p=") with 3.
    pose proof (decimal_length (phc_memory p)). pose proof (decimal_length (phc_iterations p)). pose proof (decimal_length (phc_lanes p)). lia.
  - unfold phcText, formatPHC, phcParameters. rewrite !slen_app, !RawStd_length, Hs, Hh.
    change (slen "$argon2id$v=19$m=") with 17. change (slen "m=") with 2. change (slen ",t=") with 3. change (slen ",p=") with 3.
    change (slen "$") with 1. change ((4 * 16 + 2) / 3) with 22. change ((4 * 32 + 2) / 3) with 43. lia.
Qed.

Lemma phc_dollars : dollarAt (phcText p) (slen (phcText p) - 44) = true ∧ dollarAt (phcText p) (slen (phcText p) - 67) = true.
Proof.
  destruct phc_lengths as (Ls&Lh&_&_). set (salt := RawStdEncodeToString (phc_salt p)) in *. set (hash := RawStdEncodeToString (phc_hash p)) in *.
  set (front := "$argon2id$v=19$" +:+ phcParameters p).
  assert (phcText p = front +:+ "$" +:+ salt +:+ "$" +:+ hash) as E1 by (unfold phcText, formatPHC, front, phcParameters; simpl; by rewrite !string_app_assoc).
  assert (phcText p = (front +:+ "$" +:+ salt) +:+ "$" +:+ hash) as E2 by (rewrite E1; by rewrite !string_app_assoc).
  split.
  - rewrite E2. apply dollarAt_at. lia.
  - rewrite E1. apply dollarAt_at. rewrite (slen_app salt), slen_app, Ls, Lh. done.
Qed.

Lemma phc_split : SplitByte "$" (phcText p) = [""; "argon2id"; "v=19"; phcParameters p; RawStdEncodeToString (phc_salt p); RawStdEncodeToString (phc_hash p)].
Proof.
  assert (∀ n, free "$" (FormatInt n)) as Hf by (intros n; by apply FormatInt_free).
  rewrite phcText_concat, SplitByte_concat; [done|done|].
  repeat (apply Forall_cons; split); [done..|unfold phcParameters|by apply encoded_free|by apply encoded_free|constructor].
  repeat (apply free_app; split); done || apply Hf.
Qed.
Lemma phc_fields : SplitByte "," (phcParameters p) = ["m=" +:+ FormatInt (phc_memory p); "t=" +:+ FormatInt (phc_iterations p); "p=" +:+ FormatInt (phc_lanes p)].
Proof.
  assert (∀ n, free "," (FormatInt n)) as Hf by (intros n; by apply FormatInt_free).
  rewrite phcParameters_concat, SplitByte_concat; [done|done|].
  repeat (apply Forall_cons; split); [apply free_app; split; [done|apply Hf]..|constructor].
Qed.
End layout.

(** A password verifier is read exactly as it is written. The parser accepts a text with given parameters if
    and only if the parameters are within the ceilings, with a salt of 16 and a hash of 32 bytes, and the text is the one
    the formatter writes for them: no two texts mean the same verifier, and nothing written within bounds is refused. *)
Theorem phc_exact s p : parsePHC s = inr p ↔ phcBounds p ∧ s = phcText p.
Proof.
  unfold parsePHC, argonSaltEncodedBytes, argonHashEncodedBytes, argonSaltBytes, argonHashBytes. split.
  - intros H. res_inv. pose proof (concat_SplitByte "$" s) as Es. destruct (SplitByte "$" s) as [|p0 [|p1 [|p2 [|p3 [|p4 [|p5 [|]]]]]]]; try done.
    res_inv. pose proof (concat_SplitByte "," p3) as E3. destruct (SplitByte "," p3) as [|f0 [|f1 [|f2 [|]]]]; try done. res_inv.
    repeat match goal with H : parseParameter _ _ = inr _ |- _ => apply parseParameter_exact in H as [? ->] end.
    repeat match goal with H : match decodeCanonicalRawStd ?q with inl _ => _ | inr _ => _ end = _ |- _ =>
      let E := fresh "E" in destruct (decodeCanonicalRawStd q) eqn:E; [done|]; apply decodeCanonical_exact in E as [? ->];
      case_match; [|done]; injection H as <- end.
    bool_hyps. repeat match goal with H : inr _ = inr _ |- _ => injection H as <- end. subst.
    split; [unfold phcBounds; simpl; lia|]. by rewrite phcText_concat, phcParameters_concat.
  - intros [Hp ->]. pose proof (phc_dollars p Hp) as [-> ->]. pose proof (phc_lengths p Hp) as (Ls&Lh&Lp&->).
    destruct Hp as (Hm&Ht&Hl&Hml&Hs&Hh).
    rewrite (proj2 (Z.ltb_ge _ _)), (proj2 (Z.ltb_ge _ _)) by (unfold maxPHCBytes; lia). cbn [andb negb orb require res_bind].
    rewrite phc_split. cbn [andb negb orb require res_bind]. rewrite Ls, Lh, (proj2 (Z.leb_le (slen (phcParameters p)) 32)) by lia.
    rewrite !bool_decide_true by done. cbn [andb negb orb require res_bind]. rewrite phc_fields.
    assert (∀ prefix n, 0 ≤ n ≤ 262144 → parseParameter (prefix +:+ FormatInt n) prefix = inr n) as Hpar
      by (intros prefix n Hn; apply parseParameter_exact; split; [lia|done]).
    rewrite !Hpar by lia. cbn [andb negb orb require res_bind].
    assert ((256 * 1024 <? phc_memory p) || (phc_iterations p =? 0) || (10 <? phc_iterations p) || (phc_lanes p =? 0) || (4 <? phc_lanes p)
      || (phc_memory p <? 8 * phc_lanes p) = false) as -> by (rewrite !orb_false_iff, !Z.ltb_ge, !Z.eqb_neq; lia).
    cbn [andb negb orb require res_bind].
    assert (∀ x n, slen x = n → 0 < n → x ≠ "") as Hne by (intros x n Hx Hn ->; unfold slen in Hx; simpl in Hx; lia).
    rewrite (proj2 (decodeCanonical_exact _ (phc_salt p))) by (split; [by eapply Hne|done]). rewrite Hs. cbn [res_bind].
    rewrite (proj2 (decodeCanonical_exact _ (phc_hash p))) by (split; [by eapply Hne|done]). rewrite Hh. by destruct p.
Qed.

(** ** What a verifier verifies *)

Lemma policy_bounds p u : policyValidate p = inr u → pol_Revision p ≠ 0 ∧ 19456 ≤ pol_MemoryKiB p ≤ 65536 ∧ 2 ≤ pol_Iterations p ≤ 5 ∧ pol_Lanes p = 1.
Proof. unfold policyValidate. intros H. res_inv. bool_hyps. lia. Qed.

Lemma hash_parsed p salt hash u : policyValidate p = inr u → slen salt = 16 → slen hash = 32 →
  parsePHC (formatPHC (pol_MemoryKiB p) (pol_Iterations p) (pol_Lanes p) salt hash) =
  inr {| phc_memory := pol_MemoryKiB p; phc_iterations := pol_Iterations p; phc_lanes := pol_Lanes p; phc_salt := salt; phc_hash := hash |}.
Proof. intros (?&?&?&?)%policy_bounds Hs Hh. apply phc_exact. split; [|done]. unfold phcBounds. simpl. lia. Qed.

(** A stored password accepts its password and nothing else. A verifier hashed under a valid policy fits the
    column and matches that policy; verified later, under the same or a newer valid policy, it answers valid exactly when
    Argon2id of the presented password and the stored salt is the stored hash, so always for the password it was made of,
    and asks for a rehash exactly when it is valid and the policy has changed. *)
Theorem password_verified_exactly IDKey password policy randomness v
    (HID : ∀ pw salt t m p n, 0 ≤ n → slen (IDKey pw salt t m p n) = n) :
  HashPassword IDKey password policy randomness = inr v →
  ValidatePasswordVerifierForPolicy v policy = inr tt ∧ 68 ≤ slen (pv_PHC v) ≤ 128 ∧
  ∃ salt, let key pw := IDKey pw salt (pol_Iterations policy) (pol_MemoryKiB policy) (pol_Lanes policy) 32 in
    ∀ password' policy', ValidatePassword password' = inr tt → policyValidate policy' = inr tt →
      pol_Revision policy ≤ pol_Revision policy' →
      VerifyPassword IDKey password' v policy' =
        inr {| ver_Valid := bool_decide (key password' = key password);
               ver_RehashNeeded := bool_decide (key password' = key password) && negb (bool_decide (policy' = policy)) |}.
Proof.
  unfold HashPassword. intros H. res_inv. match goal with H : inr _ = inr _ |- _ => injection H as <- end.
  match goal with H : readFull _ _ = Some ?s |- _ => rename s into salt; apply readFull_spec in H as [Hs _]; [|done] end.
  match goal with H : policyValidate policy = inr ?u |- _ => rename H into Hpol; destruct u end.
  set (hash := IDKey password salt (pol_Iterations policy) (pol_MemoryKiB policy) (pol_Lanes policy) argonHashBytes).
  assert (slen hash = 32) as Hh by by apply HID. pose proof (hash_parsed policy salt hash tt Hpol Hs Hh) as Hparse.
  pose proof (policy_bounds policy tt Hpol) as (Hrev&Hm&Ht&Hl).
  assert (∀ v, pv_PHC v = formatPHC (pol_MemoryKiB policy) (pol_Iterations policy) (pol_Lanes policy) salt hash →
    pv_PolicyRevision v = pol_Revision policy → ValidatePasswordVerifier v = inr tt) as Hv.
  { intros v E1 E2. unfold ValidatePasswordVerifier. rewrite E1, E2, Hparse. by rewrite (proj2 (Z.eqb_neq _ _) Hrev). }
  split; [|split].
  - unfold ValidatePasswordVerifierForPolicy. rewrite Hpol, Hv by done. cbn [res_bind pv_PHC]. rewrite Hparse. cbn [res_bind]. unfold matchesPolicy.
    cbn [pv_PolicyRevision phc_memory phc_iterations phc_lanes]. by rewrite !Z.eqb_refl.
  - pose proof (phc_lengths _ (proj1 (proj1 (phc_exact _ _) Hparse))) as (_&_&Hlen&E). unfold phcText in E. cbn [pv_PHC phc_memory phc_iterations phc_lanes phc_salt phc_hash] in *. lia.
  - exists salt. cbv zeta. intros password' policy' Hpw Hpol' Hle.
    set (key := λ pw, IDKey pw salt (pol_Iterations policy) (pol_MemoryKiB policy) (pol_Lanes policy) 32). unfold VerifyPassword. rewrite Hpw, Hpol', Hv by done. cbn [res_bind pv_PolicyRevision].
    rewrite (proj2 (Z.ltb_ge _ _)) by lia. cbn [negb require res_bind pv_PHC]. rewrite Hparse.
    cbn [res_bind phc_memory phc_iterations phc_lanes phc_salt phc_hash]. rewrite Hh. change hash with (key password).
    change (IDKey password' salt (pol_Iterations policy) (pol_MemoryKiB policy) (pol_Lanes policy) 32) with (key password').
    do 2 f_equal. f_equal. destruct policy as [r m t p], policy' as [r' m' t' p']. simpl in *.
    apply eq_true_iff_eq. rewrite negb_true_iff, bool_decide_eq_false, !orb_true_iff, !negb_true_iff, Z.ltb_lt, !Z.eqb_neq. split.
    + intros Hd [= -> -> -> ->]. lia.
    + intros Hd. destruct (decide (r = r')), (decide (m = m')), (decide (t = t')), (decide (p = p')); subst; try tauto; lia.
Qed.

(** ** User names *)

Lemma trim_free s : forallBytes (λ b, negb (b =? 32)) s = true → TrimSpaces s = s.
Proof.
  unfold TrimSpaces. intros H. assert (trimLeftSpace s = s) as ->.
  { destruct s as [|c s]; [done|]. simpl in *. apply andb_true_iff in H as [H _]. apply negb_true_iff in H. by rewrite H. }
  induction s as [|c s IH]; [done|]. simpl in *. apply andb_true_iff in H as [Hc H]. rewrite (IH H). apply negb_true_iff in Hc.
  destruct s; [by rewrite Hc|done].
Qed.
Lemma mapBytes_id f s : forallBytes (λ b, f b =? b) s = true → mapBytes f s = s.
Proof.
  induction s as [|c s IH]; [done|]. simpl. intros [Hc%Z.eqb_eq H]%andb_true_iff. by rewrite (IH H), Hc, ascii_of_byte_of.
Qed.
Lemma forallBytes_weaken (f g : Z → bool) s : (∀ b, f b = true → g b = true) → forallBytes f s = true → forallBytes g s = true.
Proof. intros Hfg. induction s as [|c s IH]; [done|]. simpl. intros [??]%andb_true_iff. by rewrite Hfg, IH. Qed.

Lemma usernamePattern_iff u : MatchString usernamePattern u = true →
  3 ≤ slen u ≤ 64 ∧ forallBytes isUserByte u = true.
Proof.
  rewrite MatchString_iff. unfold usernamePattern. rewrite Matches_seq. intros (x&y&->&(c&->&Hc)%Matches_class&H).
  apply Matches_seq in H as (z&w&->&[Hz Hzl]%Matches_times_class&[Hw Hwl]%Matches_upto_class).
  rewrite !slen_app. unfold slen. rewrite Hzl. split; [simpl; lia|]. rewrite !forallBytes_app, Hz, Hw. simpl.
  unfold isUserStart in Hc. unfold isUserByte. by rewrite Hc.
Qed.

(** A canonical name is its own canonical form, so looking it up again finds
    the same account. *)
Lemma CanonicalUsername_exact input u :
  CanonicalUsername input = inr u → MatchString usernamePattern u = true ∧ CanonicalUsername u = inr u.
Proof.
  intros H. assert (MatchString usernamePattern u = true) as Hm by (unfold CanonicalUsername in H; res_inv; congruence).
  split; [done|]. destruct (usernamePattern_iff u Hm) as [Hl Hb]. clear H input. unfold CanonicalUsername.
  rewrite trim_free, mapBytes_id.
  - rewrite !(proj2 (Z.ltb_ge _ _)) by lia. cbn [orb negb require res_bind].
    assert (forallBytes (λ b, b <? 128) u = true) as ->; [|cbn [require res_bind]; by rewrite Hm].
    eapply forallBytes_weaken; [|exact Hb]. intros b. unfold isUserByte, isLower, isDigit. lia.
  - eapply forallBytes_weaken; [|exact Hb]. intros b. unfold isUserByte, isLower, isDigit, lowerASCII, isUpper. intros ?.
    destruct ((65 <=? b) && (b <=? 90)) eqn:E; [lia|apply Z.eqb_refl].
  - eapply forallBytes_weaken; [|exact Hb]. intros b. unfold isUserByte, isLower, isDigit. lia.
Qed.

(** ** A concrete hash *)

(** A stand-in for Argon2: any function of the right length will do. *)
Definition exampleKey (pw salt : string) (t m p n : Z) : string :=
  takeBytes (Z.to_nat n) (Sum256 (salt +:+ pw) +:+ Sha256.string_of_bytes (replicate (Z.to_nat n) 0)).
Definition examplePolicy (revision : Z) : Argon2Policy :=
  {| pol_Revision := revision; pol_MemoryKiB := 19456; pol_Iterations := 2; pol_Lanes := 1 |}.
Definition examplePassword : string := "correct horse battery staple".
Definition exampleSalt : string := "0123456789abcdef".
Definition exampleVerifier : PasswordVerifier :=
  {| pv_PHC := formatPHC 19456 2 1 exampleSalt (exampleKey examplePassword exampleSalt 2 19456 1 32); pv_PolicyRevision := 3 |}.

Lemma exampleKey_length pw salt t m p n : 0 ≤ n → slen (exampleKey pw salt t m p n) = n.
Proof.
  intros Hn. unfold exampleKey, slen. rewrite length_takeBytes, length_string_app, length_of_bytes, length_replicate. lia.
Qed.

Lemma password_verified_exactly_witness :
  VerifyPassword exampleKey examplePassword exampleVerifier (examplePolicy 4) = inr {| ver_Valid := true; ver_RehashNeeded := true |} ∧
  ValidatePasswordVerifierForPolicy exampleVerifier (examplePolicy 3) = inr tt.
Proof.
  destruct (password_verified_exactly exampleKey examplePassword (examplePolicy 3) exampleSalt exampleVerifier
    (λ pw salt t m p n, exampleKey_length pw salt t m p n)) as (Hv&_&salt&H); [vm_compute; reflexivity|].
  split; [|exact Hv].
  rewrite (H examplePassword (examplePolicy 4)); [|vm_compute; reflexivity|vm_compute; reflexivity|vm_compute; discriminate].
  rewrite bool_decide_true by reflexivity. rewrite bool_decide_false by discriminate. reflexivity.
Defined.
