(* ===== verification/Schema.v ===== *)
(** * The durable state and its schema (src/migrations, PostgreSQL)

    Rows of the tables the agent-lease repository reads and writes, the CHECK
    constraints and BEFORE triggers the migrations attach to them, and one
    definition per kind of SQL statement.  A statement that violates a
    constraint fails with the PostgreSQL error it would raise, which aborts
    the transaction. *)
From S2P Require Import Prelude GoStd Deployment Queue.
#[local] Open Scope Z_scope.

(** ** Errors *)

Inductive PgError :=
  | PgCheckViolation       (* 23514 *)
  | PgUniqueViolation      (* 23505 *)
  | PgForeignKeyViolation  (* 23503 *)
  | PgRaise                (* P0001, a trigger's RAISE EXCEPTION *)
  | PgInFailedTransaction. (* 25P02, a statement after a failed one *)

(** The sentinel errors of src/internal/store/postgres, the deployment
    package's errors, and wrapped driver errors. *)
Inductive Err :=
  | ErrServerAuthorizationDenied
  | ErrAgentLeaseStale
  | ErrAgentLeaseIntegrityConflict
  | ErrAgentLeaseInvalidInput
  | ErrAgentJobTerminal
  | ErrAgentJobActivating
  | ErrAgentLeaseCorruptState
  | ErrAgentLeaseActivationOpen
  | ErrAgentLeaseActivationEnvironmentBlocked
  | ErrAgentLeaseActivationCandidateNotReady
  | ErrAgentLeaseActivationNoRouteHead
  | ErrAgentLeaseActivationUnresolved
  | ErrAgentLeaseActivationLateReportRecorded
  | ErrAgentLeaseActivationRouteMoved
  | ErrAgentLeaseConstraintViolation
  | ErrActivationBlockUnrecorded
  | ErrAgentLeaseOutcomeMismatch
  | ErrRevisionConflict
  | ErrAlreadyExists
  | ErrWebhookUnauthorized
  | ErrWebhookIntegrity
  | ErrNotFound
  | ErrRevisionOverflow
  | ErrDeployment (e : DeploymentError)
  | ErrNoRows
  | ErrRenderRoute
  | ErrInternal
  | ErrPg (e : PgError).

(** ** Enumerated columns *)

Inductive JobState :=
  | JobQueued | JobLeased | JobRetryWait | JobSucceeded | JobFailed | JobCancelled | JobDead.
#[global] Instance JobState_eq_dec : EqDecision JobState.
Proof. solve_decision. Defined.

(** [queue.AttemptState] *)
Inductive AttemptState :=
  | AttemptLeased | AttemptSucceeded | AttemptFailed | AttemptExpired | AttemptCancelled.
#[global] Instance AttemptState_eq_dec : EqDecision AttemptState.
Proof. solve_decision. Defined.

Inductive OpState :=
  | OpStarted | OpSwitchAuthorized | OpReconciliationRequired | OpSucceeded | OpFailed.
#[global] Instance OpState_eq_dec : EqDecision OpState.
Proof. solve_decision. Defined.

Inductive ReleaseState :=
  | ReleaseCandidate | ReleaseReady | ReleaseFailed | ReleaseRemoving | ReleaseRemoved
  | ReleaseActive | ReleaseRetained.
#[global] Instance ReleaseState_eq_dec : EqDecision ReleaseState.
Proof. solve_decision. Defined.

Inductive EventType :=
  | EvEnqueued | EvClaimed | EvCancelRequested | EvCancelled | EvExpired | EvRetryScheduled
  | EvSucceeded | EvFailed | EvDead | EvReconciled | EvActivationAuthorized | EvActivated
  | EvActivationReconciliationRequired | EvActivationNotActivated | EvActivationLateReport.
#[global] Instance EventType_eq_dec : EqDecision EventType.
Proof. solve_decision. Defined.

(** ** Rows *)

Record ServerRow := { srv_owner : string; srv_active : bool }.
Record CredentialRow := { cred_server : string; cred_active : bool; cred_digest : string }.

(** An administrator session joined with its user, as
    [lockAdministratorSession] reads them. *)
Record SessionRow := {
  ses_user : string; ses_owner : string; ses_auth_revision : Z; ses_user_auth_revision : Z;
  ses_user_active : bool; ses_revoked : bool; ses_idle_expires : Z; ses_absolute_expires : Z;
}.

(** agent_jobs *)
Record JobRow := {
  j_owner : string; j_project : string; j_env : string; j_server : string;
  j_deployment : string; j_repository : Z; j_ref : string; j_commit : string; j_priority : Z;
  j_created_at : Z;
  j_state : JobState;
  j_available_at : Z;
  j_cancel_requested_at : option Z;
  j_attempt_count : Z;
  j_updated_at : Z;
}.

(** agent_job_attempts *)
Record AttemptRow := {
  a_job : Z; a_number : Z; a_server : string; a_env : string; a_fence : Z;
  a_state : AttemptState;
  a_renewal_sequence : Z;
  a_lease_expires : Z;
  a_authority_expires : Z;
  a_cancel_deadline : option Z;
  a_failure_class : option FailureClass;
  a_result_operation : option string;
  a_result_digest : option string;
  a_closed_at : option Z;
}.

(** environment_slots *)
Record SlotRow := {
  s_fence : Z;
  s_current : option Z;
  s_recon_required : bool;
  s_recon_attempt : option Z;
  s_updated_at : Z;
}.

(** releases *)
Record ReleaseRow := {
  rel_deployment : string; rel_env : string; rel_config_digest : string; rel_commit : string;
  rel_strategy : string;
  rel_image_digest : option string;
  rel_state : ReleaseState;
  rel_updated_at : Z;
}.

(** release_operations.  The Go code inserts rows of kind [activate] only, for
    which the kind-conditional CHECKs make every column below NOT NULL. *)
Record OpRow := {
  o_release : string; o_job : Z; o_attempt : Z; o_fence : Z; o_digest : string; o_env : string;
  o_expected_active : option string; o_expected_revision : Z; o_route_digest : string;
  o_state : OpState;
  o_summary : string;
  o_closed_at : option Z;
}.

(** route_heads *)
Record HeadRow := {
  h_hostname : string;
  h_revision : Z;
  h_active : option string;
  h_recon_required : bool;
  h_updated_at : Z;
}.

Record JobEvent := { e_job : Z; e_sequence : Z; e_type : EventType; e_attempt : option Z }.
Record RouteEvent := { re_env : string; re_revision : Z; re_release : option string }.
Record AuditEvent := { au_actor : string; au_action : string; au_reason : string }.

(** agent_job_attempt_execution / environment_runtime_configs
    ([frozenExecutionSnapshot]) *)
Record frozenExecutionSnapshot := {
  ContainerPort : Z; ContainerScheme : string; ReleaseStrategy : string; DrainSeconds : Z;
  HealthPolicyRevision : Z; CPUMillis : Z; MemoryBytes : Z; RestartPolicy : string;
  HealthGatePath : string; HealthGateHost : string; ConfigRevision : Z;
}.

Record frozenBinding := { fb_variable : string; fb_scope : string; fb_version : string }.
Record frozenLiteral := { fl_variable : string; fl_scope : string; fl_value : string }.

(** environment_runtime_bindings: a secret head or a literal. *)
Inductive bindingTarget :=
  | BindSecret (secret_head : string)
  | BindLiteral (value : option string).
Record BindingRow := { b_variable : string; b_scope : string; b_target : bindingTarget }.

Inductive VersionState := VersionActive | VersionSuperseded | VersionRevoked.
#[global] Instance VersionState_eq_dec : EqDecision VersionState.
Proof. solve_decision. Defined.

(** ** The database *)

Record DB := {
  db_servers : gmap string ServerRow;
  db_credentials : list CredentialRow;
  db_sessions : gmap string SessionRow;
  db_jobs : gmap Z JobRow;
  db_attempts : gmap Z AttemptRow;
  db_slots : gmap string SlotRow;
  db_deployments : gmap string Snapshot;
  db_releases : gmap string ReleaseRow;
  db_ops : gmap Z OpRow;
  db_heads : gmap string HeadRow;
  db_job_events : list JobEvent;
  db_route_events : list RouteEvent;
  db_audit : list AuditEvent;
  db_configs : gmap string frozenExecutionSnapshot;
  db_bindings : gmap string (list BindingRow);
  db_secret_heads : gmap string (option string);
  db_secret_versions : gmap string VersionState;
  db_execution : gmap Z frozenExecutionSnapshot;
  db_frozen_secrets : gmap Z (list frozenBinding);
  db_frozen_literals : gmap Z (list frozenLiteral);
  db_next_attempt : Z;
  db_next_op : Z;
}.

Definition set_servers (x : gmap string ServerRow) (y : list CredentialRow) (d : DB) : DB :=
  Build_DB x y (db_sessions d) (db_jobs d) (db_attempts d) (db_slots d) (db_deployments d)
    (db_releases d) (db_ops d) (db_heads d) (db_job_events d) (db_route_events d) (db_audit d)
    (db_configs d) (db_bindings d) (db_secret_heads d) (db_secret_versions d) (db_execution d)
    (db_frozen_secrets d) (db_frozen_literals d) (db_next_attempt d) (db_next_op d).
Definition set_jobs (x : gmap Z JobRow) (d : DB) : DB :=
  Build_DB (db_servers d) (db_credentials d) (db_sessions d) x (db_attempts d) (db_slots d)
    (db_deployments d) (db_releases d) (db_ops d) (db_heads d) (db_job_events d)
    (db_route_events d) (db_audit d) (db_configs d) (db_bindings d) (db_secret_heads d)
    (db_secret_versions d) (db_execution d) (db_frozen_secrets d) (db_frozen_literals d)
    (db_next_attempt d) (db_next_op d).
Definition set_attempts (x : gmap Z AttemptRow) (next : Z) (d : DB) : DB :=
  Build_DB (db_servers d) (db_credentials d) (db_sessions d) (db_jobs d) x (db_slots d)
    (db_deployments d) (db_releases d) (db_ops d) (db_heads d) (db_job_events d)
    (db_route_events d) (db_audit d) (db_configs d) (db_bindings d) (db_secret_heads d)
    (db_secret_versions d) (db_execution d) (db_frozen_secrets d) (db_frozen_literals d)
    next (db_next_op d).
Definition set_slots (x : gmap string SlotRow) (d : DB) : DB :=
  Build_DB (db_servers d) (db_credentials d) (db_sessions d) (db_jobs d) (db_attempts d) x
    (db_deployments d) (db_releases d) (db_ops d) (db_heads d) (db_job_events d)
    (db_route_events d) (db_audit d) (db_configs d) (db_bindings d) (db_secret_heads d)
    (db_secret_versions d) (db_execution d) (db_frozen_secrets d) (db_frozen_literals d)
    (db_next_attempt d) (db_next_op d).
Definition set_deployments (x : gmap string Snapshot) (d : DB) : DB :=
  Build_DB (db_servers d) (db_credentials d) (db_sessions d) (db_jobs d) (db_attempts d)
    (db_slots d) x (db_releases d) (db_ops d) (db_heads d) (db_job_events d)
    (db_route_events d) (db_audit d) (db_configs d) (db_bindings d) (db_secret_heads d)
    (db_secret_versions d) (db_execution d) (db_frozen_secrets d) (db_frozen_literals d)
    (db_next_attempt d) (db_next_op d).
Definition set_releases (x : gmap string ReleaseRow) (d : DB) : DB :=
  Build_DB (db_servers d) (db_credentials d) (db_sessions d) (db_jobs d) (db_attempts d)
    (db_slots d) (db_deployments d) x (db_ops d) (db_heads d) (db_job_events d)
    (db_route_events d) (db_audit d) (db_configs d) (db_bindings d) (db_secret_heads d)
    (db_secret_versions d) (db_execution d) (db_frozen_secrets d) (db_frozen_literals d)
    (db_next_attempt d) (db_next_op d).
Definition set_ops (x : gmap Z OpRow) (next : Z) (d : DB) : DB :=
  Build_DB (db_servers d) (db_credentials d) (db_sessions d) (db_jobs d) (db_attempts d)
    (db_slots d) (db_deployments d) (db_releases d) x (db_heads d) (db_job_events d)
    (db_route_events d) (db_audit d) (db_configs d) (db_bindings d) (db_secret_heads d)
    (db_secret_versions d) (db_execution d) (db_frozen_secrets d) (db_frozen_literals d)
    (db_next_attempt d) next.
Definition set_heads (x : gmap string HeadRow) (d : DB) : DB :=
  Build_DB (db_servers d) (db_credentials d) (db_sessions d) (db_jobs d) (db_attempts d)
    (db_slots d) (db_deployments d) (db_releases d) (db_ops d) x (db_job_events d)
    (db_route_events d) (db_audit d) (db_configs d) (db_bindings d) (db_secret_heads d)
    (db_secret_versions d) (db_execution d) (db_frozen_secrets d) (db_frozen_literals d)
    (db_next_attempt d) (db_next_op d).
Definition set_logs (je : list JobEvent) (re : list RouteEvent) (au : list AuditEvent) (d : DB) : DB :=
  Build_DB (db_servers d) (db_credentials d) (db_sessions d) (db_jobs d) (db_attempts d)
    (db_slots d) (db_deployments d) (db_releases d) (db_ops d) (db_heads d) je re au
    (db_configs d) (db_bindings d) (db_secret_heads d) (db_secret_versions d)
    (db_execution d) (db_frozen_secrets d) (db_frozen_literals d)
    (db_next_attempt d) (db_next_op d).
Definition set_frozen (x : gmap Z frozenExecutionSnapshot) (y : gmap Z (list frozenBinding))
    (z : gmap Z (list frozenLiteral)) (d : DB) : DB :=
  Build_DB (db_servers d) (db_credentials d) (db_sessions d) (db_jobs d) (db_attempts d)
    (db_slots d) (db_deployments d) (db_releases d) (db_ops d) (db_heads d) (db_job_events d)
    (db_route_events d) (db_audit d) (db_configs d) (db_bindings d) (db_secret_heads d)
    (db_secret_versions d) x y z (db_next_attempt d) (db_next_op d).

(** ** Constraints and triggers *)

Definition optZ_le (a : Z) (b : option Z) : bool :=
  match b with Some x => a <=? x | None => true end.
Definition isSomeb {A} (o : option A) : bool := match o with Some _ => true | None => false end.

(** validate_agent_job_update (000013) *)
Definition job_terminal (s : JobState) : bool :=
  match s with JobSucceeded | JobFailed | JobCancelled | JobDead => true | _ => false end.

Definition job_transition_ok (old new : JobState) : bool :=
  match old, new with
  | JobQueued, (JobLeased | JobCancelled) => true
  | JobLeased, (JobLeased | JobSucceeded | JobFailed | JobRetryWait | JobDead | JobCancelled) => true
  | JobRetryWait, (JobLeased | JobCancelled | JobDead) => true
  | _, _ => false
  end.

Definition validate_agent_job_update (old new : JobRow) : bool :=
  bool_decide (j_owner new = j_owner old) && bool_decide (j_project new = j_project old)
  && bool_decide (j_env new = j_env old) && bool_decide (j_server new = j_server old)
  && bool_decide (j_deployment new = j_deployment old) && (j_repository new =? j_repository old)
  && bool_decide (j_ref new = j_ref old) && bool_decide (j_commit new = j_commit old)
  && (j_priority new =? j_priority old) && (j_created_at new =? j_created_at old)
  && negb (job_terminal (j_state old))
  && job_transition_ok (j_state old) (j_state new)
  && negb (bool_decide (j_state old = JobLeased) && bool_decide (j_state new = JobLeased)
           && (negb (j_attempt_count new =? j_attempt_count old)
               || negb (j_available_at new =? j_available_at old)))
  && (if bool_decide (j_state new = JobLeased) && negb (bool_decide (j_state old = JobLeased))
      then j_attempt_count new =? j_attempt_count old + 1
      else j_attempt_count new =? j_attempt_count old)
  && (if bool_decide (j_state new = JobRetryWait)
      then j_available_at old <? j_available_at new
      else j_available_at new =? j_available_at old)
  && negb (isSomeb (j_cancel_requested_at old)
           && negb (bool_decide (j_cancel_requested_at new = j_cancel_requested_at old)))
  && (j_updated_at old <=? j_updated_at new).

(** CHECK (attempt_count BETWEEN 0 AND 5) *)
Definition job_check (j : JobRow) : bool := (0 <=? j_attempt_count j) && (j_attempt_count j <=? 5).

(** The CHECKs of agent_job_attempts. *)
Definition attempt_check (a : AttemptRow) : bool :=
  (1 <=? a_number a) && (a_number a <=? 5) && (0 <? a_fence a) && (0 <=? a_renewal_sequence a)
  && match a_result_operation a with Some s => (1 <=? slen s) && (slen s <=? 128) | None => true end
  && match a_result_digest a with Some s => slen s =? 32 | None => true end
  && (a_authority_expires a <=? a_lease_expires a)
  && Bool.eqb (isSomeb (a_result_operation a)) (isSomeb (a_result_digest a))
  && Bool.eqb (negb (bool_decide (a_state a = AttemptLeased))) (isSomeb (a_closed_at a))
  && match a_state a with
     | AttemptLeased | AttemptExpired =>
         negb (isSomeb (a_failure_class a)) && negb (isSomeb (a_result_operation a))
     | AttemptSucceeded => negb (isSomeb (a_failure_class a)) && isSomeb (a_result_operation a)
     | AttemptFailed => isSomeb (a_failure_class a) && isSomeb (a_result_operation a)
     | AttemptCancelled => negb (isSomeb (a_failure_class a))
     end
  && optZ_le (a_authority_expires a) (a_cancel_deadline a).

(** validate_agent_job_attempt_insert (000013), UNIQUE (job_id,
    attempt_number) and agent_job_attempts_one_leased_uq. *)
Definition validate_attempt_insert (d : DB) (a : AttemptRow) : bool :=
  match db_slots d !! a_env a, db_jobs d !! a_job a with
  | Some s, Some j =>
      (a_fence a =? s_fence s) && bool_decide (j_server j = a_server a)
      && bool_decide (j_env j = a_env a) && (a_number a =? j_attempt_count j)
  | _, _ => false
  end.
Definition attempt_unique (d : DB) (a : AttemptRow) : bool :=
  bool_decide (map_Forall (λ _ b, ¬ (a_job b = a_job a ∧ a_number b = a_number a) ∧
    ¬ (a_job b = a_job a ∧ a_state b = AttemptLeased ∧ a_state a = AttemptLeased)) (db_attempts d)).

(** validate_agent_job_attempt_update (000013) *)
Definition validate_attempt_update (d : DB) (old new : AttemptRow) : bool :=
  (a_job new =? a_job old) && (a_number new =? a_number old)
  && bool_decide (a_server new = a_server old) && bool_decide (a_env new = a_env old)
  && (a_fence new =? a_fence old)
  && bool_decide (a_state old = AttemptLeased)
  && (a_renewal_sequence old <=? a_renewal_sequence new)
  && negb (isSomeb (a_result_operation old)
           && negb (bool_decide (a_result_operation new = a_result_operation old)
                    && bool_decide (a_result_digest new = a_result_digest old)))
  && negb (isSomeb (a_failure_class old)
           && negb (bool_decide (a_failure_class new = a_failure_class old)))
  && negb (isSomeb (a_cancel_deadline old)
           && negb (bool_decide (a_cancel_deadline new = a_cancel_deadline old)))
  && (if negb (isSomeb (a_cancel_deadline old)) && isSomeb (a_cancel_deadline new)
      then match db_jobs d !! a_job new with
           | Some j => isSomeb (j_cancel_requested_at j)
           | None => false
           end
      else true).

(** validate_environment_slot_update and the slot CHECKs. *)
Definition validate_slot_update (old new : SlotRow) : bool :=
  (s_fence old <=? s_fence new) && (s_updated_at old <=? s_updated_at new).
Definition slot_check (s : SlotRow) : bool :=
  (0 <=? s_fence s) && Bool.eqb (s_recon_required s) (isSomeb (s_recon_attempt s)).

(** [unresolvedActivation] / [unresolvedActivationSQL]
    (src/internal/store/postgres/activation_state.go) *)
Definition activationTerminalStates : list OpState := [OpSucceeded; OpFailed].
Definition unresolvedActivation (state : OpState) : bool :=
  negb (existsb (λ t, bool_decide (state = t)) activationTerminalStates).

(** validate_release_operation_update (000021), activate rows. *)
Definition validate_op_update (old new : OpRow) : bool :=
  bool_decide (o_release new = o_release old) && (o_job new =? o_job old)
  && (o_attempt new =? o_attempt old) && (o_fence new =? o_fence old)
  && bool_decide (o_digest new = o_digest old) && bool_decide (o_env new = o_env old)
  && bool_decide (o_expected_active new = o_expected_active old)
  && (o_expected_revision new =? o_expected_revision old)
  && bool_decide (o_route_digest new = o_route_digest old)
  && match o_state old with
     | OpReconciliationRequired =>
         bool_decide (o_state new ∈ [OpSucceeded; OpFailed; OpReconciliationRequired])
         && bool_decide (o_closed_at new = o_closed_at old)
     | OpSwitchAuthorized => bool_decide (o_state new ∈ [OpSucceeded; OpReconciliationRequired])
     | _ => false
     end.

(** outcome_summary's CHECK, release_operations_check1, route_digest's CHECK. *)
Definition summaryByte (b : Z) : bool := (32 <=? b) && negb (b =? 127).
Definition op_check (o : OpRow) : bool :=
  (0 <? o_fence o) && (slen (o_digest o) =? 32) && (slen (o_route_digest o) =? 32)
  && (0 <=? o_expected_revision o)
  && (slen (o_summary o) <=? 2048) && forallBytes summaryByte (o_summary o)
  && Bool.eqb (bool_decide (o_state o ∈ [OpStarted; OpSwitchAuthorized])) (negb (isSomeb (o_closed_at o))).

(** validate_release_operation_insert (000019) *)
Definition validate_op_insert (d : DB) (o : OpRow) : bool :=
  match db_attempts d !! o_attempt o, db_releases d !! o_release o with
  | Some a, Some r =>
      (o_fence o =? a_fence a) && (o_job o =? a_job a) && bool_decide (rel_env r = o_env o)
  | _, _ => false
  end.

(** release_operations_environment_open_activation_idx (000021) *)
Definition op_unique (d : DB) (o : OpRow) : bool :=
  negb (unresolvedActivation (o_state o)) ||
  bool_decide (map_Forall (λ _ p, ¬ (o_env p = o_env o ∧ unresolvedActivation (o_state p) = true)) (db_ops d)).

(** validate_release_update (000018) and releases_environment_active_idx. *)
Definition release_transition_ok (old new : ReleaseState) : bool :=
  match old, new with
  | ReleaseCandidate, (ReleaseReady | ReleaseFailed | ReleaseRemoving) => true
  | ReleaseReady, (ReleaseFailed | ReleaseRemoving | ReleaseActive) => true
  | ReleaseRemoving, ReleaseRemoved => true
  | ReleaseActive, ReleaseRetained => true
  | ReleaseRetained, ReleaseActive => true
  | _, _ => false
  end.
Definition validate_release_update (old new : ReleaseRow) : bool :=
  bool_decide (rel_deployment new = rel_deployment old) && bool_decide (rel_env new = rel_env old)
  && bool_decide (rel_config_digest new = rel_config_digest old)
  && bool_decide (rel_commit new = rel_commit old) && bool_decide (rel_strategy new = rel_strategy old)
  && negb (isSomeb (rel_image_digest old)
           && negb (bool_decide (rel_image_digest new = rel_image_digest old)))
  && negb (bool_decide (rel_state new = ReleaseReady) && negb (isSomeb (rel_image_digest new)))
  && negb (bool_decide (rel_state old ∈ [ReleaseFailed; ReleaseRemoved]))
  && (bool_decide (rel_state new = rel_state old) || release_transition_ok (rel_state old) (rel_state new))
  && (rel_updated_at old <=? rel_updated_at new).
Definition release_active_unique (d : DB) (id : string) (r : ReleaseRow) : bool :=
  negb (bool_decide (rel_state r = ReleaseActive)) ||
  bool_decide (map_Forall (λ i p, i = id ∨ ¬ (rel_env p = rel_env r ∧ rel_state p = ReleaseActive)) (db_releases d)).

(** validate_route_head_update (000020) *)
Definition validate_head_update (old new : HeadRow) : bool :=
  (if h_revision new =? h_revision old
   then negb (Bool.eqb (h_recon_required new) (h_recon_required old))
        && bool_decide (h_hostname new = h_hostname old) && bool_decide (h_active new = h_active old)
   else h_revision new =? h_revision old + 1)
  && (h_updated_at old <=? h_updated_at new)
  && negb (isSomeb (h_active old) && negb (bool_decide (h_hostname new = h_hostname old))).

(** ** Statements *)

(** [UPDATE agent_jobs SET f WHERE id=$1 AND where]; the result is whether a
    row was affected.  BEFORE triggers run before CHECK constraints. *)
Definition update_job (id : Z) (wh : JobRow → bool) (f : JobRow → JobRow) : Tx DB Err bool := λ d,
  match db_jobs d !! id with
  | Some old =>
      if wh old then
        if validate_agent_job_update old (f old) then
          if job_check (f old) then inr (true, set_jobs (<[id := f old]> (db_jobs d)) d)
          else inl (ErrPg PgCheckViolation)
        else inl (ErrPg PgRaise)
      else inr (false, d)
  | None => inr (false, d)
  end.

Definition update_attempt (id : Z) (wh : AttemptRow → bool) (f : AttemptRow → AttemptRow) : Tx DB Err bool := λ d,
  match db_attempts d !! id with
  | Some old =>
      if wh old then
        if validate_attempt_update d old (f old) then
          if attempt_check (f old)
          then inr (true, set_attempts (<[id := f old]> (db_attempts d)) (db_next_attempt d) d)
          else inl (ErrPg PgCheckViolation)
        else inl (ErrPg PgRaise)
      else inr (false, d)
  | None => inr (false, d)
  end.

Definition update_slot (env : string) (wh : SlotRow → bool) (f : SlotRow → SlotRow) : Tx DB Err bool := λ d,
  match db_slots d !! env with
  | Some old =>
      if wh old then
        if validate_slot_update old (f old) then
          if slot_check (f old) then inr (true, set_slots (<[env := f old]> (db_slots d)) d)
          else inl (ErrPg PgCheckViolation)
        else inl (ErrPg PgRaise)
      else inr (false, d)
  | None => inr (false, d)
  end.

Definition update_op (id : Z) (wh : OpRow → bool) (f : OpRow → OpRow) : Tx DB Err bool := λ d,
  match db_ops d !! id with
  | Some old =>
      if wh old then
        if validate_op_update old (f old) then
          if op_check (f old) then
            if unresolvedActivation (o_state old) || op_unique d (f old)
            then inr (true, set_ops (<[id := f old]> (db_ops d)) (db_next_op d) d)
            else inl (ErrPg PgUniqueViolation)
          else inl (ErrPg PgCheckViolation)
        else inl (ErrPg PgRaise)
      else inr (false, d)
  | None => inr (false, d)
  end.

Definition update_head (env : string) (wh : HeadRow → bool) (f : HeadRow → HeadRow) : Tx DB Err bool := λ d,
  match db_heads d !! env with
  | Some old =>
      if wh old then
        if validate_head_update old (f old)
        then inr (true, set_heads (<[env := f old]> (db_heads d)) d)
        else inl (ErrPg PgRaise)
      else inr (false, d)
  | None => inr (false, d)
  end.

Definition update_release (id : string) (wh : ReleaseRow → bool) (f : ReleaseRow → ReleaseRow) : Tx DB Err bool := λ d,
  match db_releases d !! id with
  | Some old =>
      if wh old then
        if validate_release_update old (f old) then
          if release_active_unique d id (f old)
          then inr (true, set_releases (<[id := f old]> (db_releases d)) d)
          else inl (ErrPg PgUniqueViolation)
        else inl (ErrPg PgRaise)
      else inr (false, d)
  | None => inr (false, d)
  end.

(** [INSERT INTO agent_job_attempts ... RETURNING id] *)
Definition insert_attempt (a : AttemptRow) : Tx DB Err Z := λ d,
  if validate_attempt_insert d a then
    if attempt_check a then
      if attempt_unique d a
      then inr (db_next_attempt d,
                set_attempts (<[db_next_attempt d := a]> (db_attempts d)) (db_next_attempt d + 1) d)
      else inl (ErrPg PgUniqueViolation)
    else inl (ErrPg PgCheckViolation)
  else inl (ErrPg PgRaise).

(** [INSERT INTO release_operations ... RETURNING id] *)
Definition insert_op (o : OpRow) : Tx DB Err Z := λ d,
  if validate_op_insert d o then
    if op_check o then
      if op_unique d o
      then inr (db_next_op d, set_ops (<[db_next_op d := o]> (db_ops d)) (db_next_op d + 1) d)
      else inl (ErrPg PgUniqueViolation)
    else inl (ErrPg PgCheckViolation)
  else inl (ErrPg PgRaise).

(** ** Lemmas: what an executed statement means *)

Lemma update_job_inv id wh f d b d' :
  update_job id wh f d = inr (b, d') →
  (b = false ∧ d' = d ∧ ∀ j, db_jobs d !! id = Some j → wh j = false) ∨
  (∃ j, b = true ∧ db_jobs d !! id = Some j ∧ wh j = true ∧
        validate_agent_job_update j (f j) = true ∧ job_check (f j) = true ∧
        d' = set_jobs (<[id := f j]> (db_jobs d)) d).
Proof. unfold update_job. repeat case_match; naive_solver. Qed.

Lemma update_attempt_inv id wh f d b d' :
  update_attempt id wh f d = inr (b, d') →
  (b = false ∧ d' = d ∧ ∀ a, db_attempts d !! id = Some a → wh a = false) ∨
  (∃ a, b = true ∧ db_attempts d !! id = Some a ∧ wh a = true ∧
        validate_attempt_update d a (f a) = true ∧ attempt_check (f a) = true ∧
        d' = set_attempts (<[id := f a]> (db_attempts d)) (db_next_attempt d) d).
Proof. unfold update_attempt. repeat case_match; naive_solver. Qed.

Lemma update_slot_inv env wh f d b d' :
  update_slot env wh f d = inr (b, d') →
  (b = false ∧ d' = d ∧ ∀ s, db_slots d !! env = Some s → wh s = false) ∨
  (∃ s, b = true ∧ db_slots d !! env = Some s ∧ wh s = true ∧
        validate_slot_update s (f s) = true ∧ slot_check (f s) = true ∧
        d' = set_slots (<[env := f s]> (db_slots d)) d).
Proof. unfold update_slot. repeat case_match; naive_solver. Qed.

Lemma update_op_inv id wh f d b d' :
  update_op id wh f d = inr (b, d') →
  (b = false ∧ d' = d ∧ ∀ o, db_ops d !! id = Some o → wh o = false) ∨
  (∃ o, b = true ∧ db_ops d !! id = Some o ∧ wh o = true ∧
        validate_op_update o (f o) = true ∧ op_check (f o) = true ∧
        d' = set_ops (<[id := f o]> (db_ops d)) (db_next_op d) d).
Proof. unfold update_op. repeat case_match; naive_solver. Qed.

Lemma update_head_inv env wh f d b d' :
  update_head env wh f d = inr (b, d') →
  (b = false ∧ d' = d ∧ ∀ h, db_heads d !! env = Some h → wh h = false) ∨
  (∃ h, b = true ∧ db_heads d !! env = Some h ∧ wh h = true ∧ validate_head_update h (f h) = true ∧
        d' = set_heads (<[env := f h]> (db_heads d)) d).
Proof. unfold update_head. repeat case_match; naive_solver. Qed.

Lemma update_release_inv id wh f d b d' :
  update_release id wh f d = inr (b, d') →
  (b = false ∧ d' = d ∧ ∀ r, db_releases d !! id = Some r → wh r = false) ∨
  (∃ r, b = true ∧ db_releases d !! id = Some r ∧ wh r = true ∧
        validate_release_update r (f r) = true ∧ release_active_unique d id (f r) = true ∧
        d' = set_releases (<[id := f r]> (db_releases d)) d).
Proof. unfold update_release. repeat case_match; naive_solver. Qed.

Lemma insert_attempt_inv a d id d' :
  insert_attempt a d = inr (id, d') →
  validate_attempt_insert d a = true ∧ attempt_check a = true ∧ attempt_unique d a = true ∧
  id = db_next_attempt d ∧
  d' = set_attempts (<[db_next_attempt d := a]> (db_attempts d)) (db_next_attempt d + 1) d.
Proof. unfold insert_attempt. repeat case_match; naive_solver. Qed.

Lemma insert_op_inv o d id d' :
  insert_op o d = inr (id, d') →
  validate_op_insert d o = true ∧ op_check o = true ∧ op_unique d o = true ∧ id = db_next_op d ∧
  d' = set_ops (<[db_next_op d := o]> (db_ops d)) (db_next_op d + 1) d.
Proof. unfold insert_op. repeat case_match; naive_solver. Qed.
