(* ===== verification/Evidence.v ===== *)
(** * Evidence text (agent_lease_repository.go, activation_late_report.go,
    activation_resolution.go)

    What the control plane writes into [release_operations.outcome_summary]:
    sanitizing agent-supplied text, appending late reports under a
    fingerprint ledger, and appending a declared outcome, all inside the
    column's 2048 bytes. *)
From S2P Require Import Prelude GoStd Schema.
From Stdlib Require Import Ascii.
#[local] Open Scope Z_scope.

(** ** Runes

    A string as the list of its UTF-8 encoded runes; a byte that starts no
    valid rune is an element of its own.  The fuel is the byte length: every
    step consumes at least one byte. *)
Fixpoint runesFuel (fuel : nat) (s : string) : list string :=
  match fuel, s with
  | _, EmptyString => []
  | O, _ => []
  | S fuel', _ =>
      let n := default 1%nat (runeLen s) in
      takeBytes n s :: runesFuel fuel' (dropBytes n s)
  end.
Definition runes (s : string) : list string := runesFuel (String.length s) s.

Definition validRune (r : string) : bool := bool_decide (runeLen r = Some (String.length r)).

Fixpoint concatRunes (l : list string) : string :=
  match l with [] => EmptyString | r :: l' => r +:+ concatRunes l' end.

(** [strings.ToValidUTF8(s, "?")]: each run of invalid bytes becomes one
    replacement. *)
Fixpoint replaceInvalid (inRun : bool) (l : list string) : list string :=
  match l with
  | [] => []
  | r :: l' =>
      if validRune r then r :: replaceInvalid false l'
      else if inRun then replaceInvalid true l' else "?" :: replaceInvalid true l'
  end.
Definition ToValidUTF8 (s : string) : string := concatRunes (replaceInvalid false (runes s)).

(** [unicode.IsControl]: U+0000-U+001F, U+007F-U+009F. *)
Definition isControlRune (r : string) : bool :=
  match r with
  | String c EmptyString => (byte_of c <? 32) || (byte_of c =? 127)
  | String c (String c1 EmptyString) => (byte_of c =? 194) && (byte_of c1 <=? 159)
  | _ => false
  end.
Definition mapControl (s : string) : string :=
  concatRunes ((λ r, if isControlRune r then " " else r) <$> runes s).

(** [unicode.IsSpace] *)
Definition isSpaceRune (r : string) : bool :=
  match r with
  | String c EmptyString => bool_decide (byte_of c ∈ [9; 10; 11; 12; 13; 32])
  | String c (String c1 EmptyString) => (byte_of c =? 194) && bool_decide (byte_of c1 ∈ [133; 160])
  | String c (String c1 (String c2 EmptyString)) =>
      ((byte_of c =? 225) && (byte_of c1 =? 154) && (byte_of c2 =? 128))
      || ((byte_of c =? 226) && (byte_of c1 =? 128)
          && (((128 <=? byte_of c2) && (byte_of c2 <=? 138)) || bool_decide (byte_of c2 ∈ [168; 169; 175])))
      || ((byte_of c =? 226) && (byte_of c1 =? 129) && (byte_of c2 =? 159))
      || ((byte_of c =? 227) && (byte_of c1 =? 128) && (byte_of c2 =? 128))
  | _ => false
  end.
Fixpoint trimLeft (l : list string) : list string :=
  match l with
  | [] => []
  | r :: l' => if isSpaceRune r then trimLeft l' else l
  end.
Definition TrimSpace (s : string) : string := concatRunes (rev (trimLeft (rev (trimLeft (runes s))))).

(** [truncateOnRuneBoundary]: the loop that walks [cut] back. *)
Fixpoint cutBack (cut : nat) (s : string) : nat :=
  match cut with
  | O => O
  | S cut' =>
      match String.get cut s with
      | Some c => if RuneStart c then cut else cutBack cut' s
      | None => cut
      end
  end.
Definition truncateOnRuneBoundary (s : string) (maxBytes : Z) : string :=
  if maxBytes <=? 0 then ""
  else if slen s <=? maxBytes then s
  else takeBytes (cutBack (Z.to_nat maxBytes) s) s.

Definition sanitizeBoundedText (summary : string) (maxBytes : Z) : string :=
  truncateOnRuneBoundary (TrimSpace (mapControl (ToValidUTF8 summary))) maxBytes.

Definition maxActivationFailureSummaryBytes : Z := 512.
Definition sanitizeOutcomeSummary (summary : string) : string :=
  sanitizeBoundedText summary maxActivationFailureSummaryBytes.

Definition emptyFailureSummary : string := "activation failure reported without detail".
Definition failureOutcomeSummary (raw : string) : string :=
  let summary := sanitizeOutcomeSummary raw in
  if negb (bool_decide (summary = "")) then summary else emptyFailureSummary.

(** ** Late reports (activation_late_report.go) *)

Definition maxOutcomeSummaryBytes : Z := 2048.
Definition lateReportSeparator : string := " | ".
Definition lateReportMarkerPrefix : string := "late report #".
Definition lateSuccessReserve : Z := 512.

Record activationReport := {
  rep_succeeded : bool; rep_digestMatches : bool; rep_observedRouteDigest : string; rep_failureSummary : string;
}.

Definition nul : string := String (GoStd.ascii_of_byte 0) "".
Definition lateReportFingerprint (succeeded : bool) (observedRouteDigest failureSummary : string) : string :=
  EncodeToString (takeBytes 8 (Sum256 (if succeeded then "success" +:+ nul +:+ observedRouteDigest
                                       else "failure" +:+ nul +:+ failureSummary))).
Definition lateReportMarker (fingerprint : string) : string := lateReportMarkerPrefix +:+ fingerprint +:+ ":".

Definition isOriginalBlockReplay (existing failureSummary : string) : bool :=
  bool_decide (existing = failureSummary)
  || HasPrefix existing (failureSummary +:+ lateReportSeparator +:+ lateReportMarkerPrefix).

Inductive lateEvidenceOutcome := lateEvidenceAppended | lateEvidenceReplay | lateEvidenceNoRoom.
#[global] Instance lateEvidenceOutcome_eq_dec : EqDecision lateEvidenceOutcome.
Proof. solve_decision. Defined.

Definition lateSuccessBody (observedRouteDigest : string) (digestMatches : bool) : string :=
  "agent reported success after the activation was blocked; matches authorized digest: "
  +:+ (if digestMatches then "true" else "false")
  +:+ "; observed route digest sha256:" +:+ EncodeToString observedRouteDigest.
Definition lateFailureBody (failureSummary : string) : string :=
  "agent reported failure after the activation was blocked: " +:+ failureSummary.

Definition appendLateEvidence (existing fingerprint body : string) (success : bool) : string * lateEvidenceOutcome :=
  let marker := lateReportMarker fingerprint in
  if Contains existing marker then (existing, lateEvidenceReplay)
  else
    let room := maxOutcomeSummaryBytes - slen existing - slen lateReportSeparator in
    let room := if success then room else room - lateSuccessReserve in
    if room <? slen marker then (existing, lateEvidenceNoRoom)
    else
      let body := sanitizeBoundedText body maxOutcomeSummaryBytes in
      let entry := if negb (bool_decide (body = "")) then marker +:+ " " +:+ body else marker in
      (existing +:+ lateReportSeparator +:+ truncateOnRuneBoundary entry room, lateEvidenceAppended).

(** ** Declared outcomes (activation_resolution.go) *)

Definition ActivationOutcomeActivated : string := "activated".
Definition ActivationOutcomeNotActivated : string := "not_activated".
Definition ActivationOutcomeNoActivation : string := "no_activation".
Definition validActivationOutcome (outcome : string) : bool :=
  bool_decide (outcome ∈ [ActivationOutcomeActivated; ActivationOutcomeNotActivated; ActivationOutcomeNoActivation]).

Definition declaredSummary (existing outcome : string) : string :=
  let marker := if bool_decide (existing = "") then "declared " +:+ outcome
                else lateReportSeparator +:+ "declared " +:+ outcome in
  if maxOutcomeSummaryBytes <? slen existing + slen marker then existing else existing +:+ marker.

(** ** Lemmas: bytes *)

Lemma forallBytes_take f n s : forallBytes f s = true → forallBytes f (takeBytes n s) = true.
Proof.
  revert s. induction n as [|n IH]; intros [|c s]; simpl; try done.
  intros [? ?]%andb_prop. rewrite andb_true_iff. auto.
Qed.
Lemma forallBytes_drop f n s : forallBytes f s = true → forallBytes f (dropBytes n s) = true.
Proof. revert s. induction n as [|n IH]; intros [|c s]; simpl; try done. intros [? ?]%andb_prop. auto. Qed.

Lemma forallBytes_concat f l : Forall (λ r, forallBytes f r = true) l → forallBytes f (concatRunes l) = true.
Proof. induction 1 as [|r l Hr _ IH]; simpl; [done|]. by rewrite forallBytes_app, Hr. Qed.

Lemma runesFuel_forall (P : string → Prop) fuel s :
  (∀ t, t ≠ "" → P (takeBytes (default 1%nat (runeLen t)) t)) → Forall P (runesFuel fuel s).
Proof.
  intros HP. revert s. induction fuel as [|fuel IH]; intros [|c s]; simpl; try constructor; [|apply IH].
  exact (HP (String c s) ltac:(done)).
Qed.

Lemma runeLen_multi t n : runeLen t = Some (S (S n)) → forallBytes (λ b, 128 <=? b) (takeBytes (S (S n)) t) = true.
Proof.
  unfold runeLen, runeHeader, inRange, cont. intros H.
  destruct t as [|c0 t]; [done|]. destruct (byte_of c0 <? 128) eqn:E0; [done|].
  repeat case_match; simplify_eq; simpl; bool_hyps; rewrite ?andb_true_iff, ?Z.leb_le; lia.
Qed.

Lemma rune_bytes t : t ≠ "" → ∀ r, r = takeBytes (default 1%nat (runeLen t)) t →
  isControlRune r = false → forallBytes summaryByte r = true.
Proof.
  intros Ht r -> Hc. destruct (runeLen t) as [[|[|n]]|] eqn:E; cbn [default from_option id] in *.
  - by destruct t.
  - destruct t as [|c t]; [done|]. simpl in *. bool_hyps. unfold summaryByte.
    rewrite (proj2 (Z.leb_le _ _)), (proj2 (Z.eqb_neq _ _)) by lia. done.
  - apply runeLen_multi in E. revert E. generalize (takeBytes (S (S n)) t) as r.
    induction r as [|c r IH]; simpl; [done|]. intros [??]%andb_prop. rewrite IH by done. bool_hyps.
    unfold summaryByte. rewrite (proj2 (Z.leb_le _ _)), (proj2 (Z.eqb_neq _ _)) by lia. done.
  - destruct t as [|c t]; [done|]. simpl in *. bool_hyps. unfold summaryByte.
    rewrite (proj2 (Z.leb_le _ _)), (proj2 (Z.eqb_neq _ _)) by lia. done.
Qed.

Lemma mapControl_clean s : forallBytes summaryByte (mapControl s) = true.
Proof.
  unfold mapControl. apply forallBytes_concat, Forall_fmap, runesFuel_forall. intros t Ht. simpl.
  destruct (isControlRune _) eqn:E; [done|]. by eapply rune_bytes.
Qed.

Lemma trimLeft_suffix l : ∃ k, l = k ++ trimLeft l.
Proof.
  induction l as [|r l [k IH]]; simpl; [by exists []|]. destruct (isSpaceRune r); [|by exists []].
  exists (r :: k). simpl. by rewrite <-IH.
Qed.
Lemma trimLeft_Forall (P : string → Prop) l : Forall P l → Forall P (trimLeft l).
Proof. destruct (trimLeft_suffix l) as [k E]. rewrite E at 1. by intros [_ ?]%Forall_app. Qed.

Lemma TrimSpace_Forall (P : string → Prop) s :
  Forall P (runes s) → Forall P (rev (trimLeft (rev (trimLeft (runes s))))).
Proof. intros H. by apply Forall_rev, trimLeft_Forall, Forall_rev, trimLeft_Forall. Qed.

Lemma runes_bytes f fuel s : forallBytes f s = true → Forall (λ r, forallBytes f r = true) (runesFuel fuel s).
Proof.
  revert s. induction fuel as [|fuel IH]; intros [|c s] H; simpl; try constructor.
  - by apply (forallBytes_take f _ (String c s)).
  - apply IH. by apply (forallBytes_drop f _ (String c s)).
Qed.

Lemma truncate_bytes f s n : forallBytes f s = true → forallBytes f (truncateOnRuneBoundary s n) = true.
Proof. intros H. unfold truncateOnRuneBoundary. repeat case_match; [done|done|by apply forallBytes_take]. Qed.

Lemma cutBack_le n s : (cutBack n s ≤ n)%nat.
Proof. induction n as [|n IH]; simpl; [done|]. repeat case_match; lia. Qed.

Lemma truncate_length s n : slen (truncateOnRuneBoundary s n) ≤ Z.max 0 n.
Proof.
  unfold truncateOnRuneBoundary. destruct (n <=? 0) eqn:E; [unfold slen; simpl; lia|]. bool_hyps.
  destruct (slen s <=? n) eqn:E2; bool_hyps; [lia|]. unfold slen. rewrite length_takeBytes.
  pose proof (cutBack_le (Z.to_nat n) s). lia.
Qed.

Lemma sanitize_clean s n :
  forallBytes summaryByte (sanitizeBoundedText s n) = true ∧ slen (sanitizeBoundedText s n) ≤ Z.max 0 n.
Proof.
  unfold sanitizeBoundedText. split; [|apply truncate_length].
  apply truncate_bytes. unfold TrimSpace. apply forallBytes_concat, TrimSpace_Forall, runes_bytes, mapControl_clean.
Qed.

(** ** Lemmas: UTF-8 *)

Inductive wf_utf8 : string → Prop :=
  | wf_nil : wf_utf8 ""
  | wf_cons r s : validRune r = true → wf_utf8 s → wf_utf8 (r +:+ s).

(** The rune at the head of a string does not depend on what follows it, and
    every byte of it after the first is a continuation byte. *)
Lemma validRune_app r s : validRune r = true → runeLen (r +:+ s) = Some (String.length r).
Proof.
  unfold validRune. intros H%bool_decide_eq_true. unfold runeLen, runeHeader, inRange, cont in *.
  destruct r as [|c0 r]; [done|]. destruct r as [|c1 [|c2 [|c3 [|c4 r]]]]; simpl in *; repeat case_match; simplify_eq; done.
Qed.

Lemma validRune_cont r k c : validRune r = true → (0 < k)%nat → String.get k r = Some c → RuneStart c = false.
Proof.
  unfold validRune. intros H%bool_decide_eq_true. unfold runeLen, runeHeader, inRange in *.
  assert (∀ lo hi x, 128 ≤ lo → hi ≤ 191 → (lo <=? byte_of x) && (byte_of x <=? hi) = true → RuneStart x = false) as Hr.
  { intros lo hi x ?? H'. bool_hyps. unfold RuneStart, cont. rewrite !(proj2 (Z.leb_le _ _)) by lia. done. }
  assert (∀ x, cont x = true → RuneStart x = false) as Hk by (intros x Hx; unfold RuneStart; by rewrite Hx).
  intros Hk0 Hg. destruct r as [|c0 [|c1 [|c2 [|c3 [|c4 r]]]]]; destruct k as [|[|[|[|k]]]]; try lia;
    simpl in Hg; simplify_eq; simpl in H; repeat case_match; simplify_eq; bool_hyps; try (by apply Hk);
    try (eapply Hr; [| |rewrite andb_true_iff; split; apply Z.leb_le; eassumption]; lia).
Qed.

Lemma validRune_nonempty r : validRune r = true → r ≠ "".
Proof. by intros H ->. Qed.


Lemma runes_wf s : wf_utf8 s → ∀ fuel, (String.length s ≤ fuel)%nat → Forall (λ r, validRune r = true) (runesFuel fuel s).
Proof.
  induction 1 as [|r s Hr Hs IH]; intros fuel Hf; [by destruct fuel; constructor|].
  pose proof (validRune_nonempty r Hr) as Hne. rewrite length_string_app in Hf.
  destruct r as [|c r]; [done|]. simpl in Hf. destruct fuel as [|fuel]; [lia|].
  rewrite string_app_cons. cbn [runesFuel]. rewrite <-string_app_cons, (validRune_app (String c r) s Hr).
  cbn [default from_option id]. rewrite takeBytes_app, dropBytes_app. constructor; [done|]. apply IH. lia.
Qed.

Lemma concat_wf l : Forall (λ r, validRune r = true) l → wf_utf8 (concatRunes l).
Proof. induction 1; simpl; by constructor. Qed.

Lemma replaceInvalid_valid b l : Forall (λ r, validRune r = true) (replaceInvalid b l).
Proof.
  revert b. induction l as [|r l IH]; intros b; simpl; [constructor|].
  destruct (validRune r) eqn:E; [by constructor|]. destruct b; [done|]. by constructor.
Qed.

Lemma wf_get_boundary s k :
  wf_utf8 s → (k = 0%nat ∨ ∃ c, String.get k s = Some c ∧ RuneStart c = true) → wf_utf8 (takeBytes k s).
Proof.
  intros Hs. revert k. induction Hs as [|r s Hr Hs IH]; intros k Hk; [by destruct k; constructor|].
  destruct Hk as [->|(c & Hg & Hc)]; [destruct (r +:+ s); constructor|].
  destruct (decide (String.length r ≤ k)%nat) as [Hle|Hlt].
  - rewrite takeBytes_app_ge by done. constructor; [done|]. apply IH. rewrite get_app_ge in Hg by done. eauto.
  - rewrite get_app_lt in Hg by lia. destruct k as [|k]; [destruct (r +:+ s); constructor|].
    rewrite (validRune_cont r (S k) c) in Hc; [done|done|lia|done].
Qed.

Lemma get_in_range k s : (k < String.length s)%nat → is_Some (String.get k s).
Proof. revert k. induction s as [|c s IH]; intros k Hk; simpl in *; [lia|]. destruct k; [done|]. apply IH. lia. Qed.

Lemma cutBack_boundary n s :
  (n < String.length s)%nat →
  cutBack n s = 0%nat ∨ ∃ c, String.get (cutBack n s) s = Some c ∧ RuneStart c = true.
Proof.
  induction n as [|n IH]; intros Hn; cbn [cutBack]; [by left|].
  destruct (get_in_range (S n) s Hn) as [c Hc]. rewrite Hc. destruct (RuneStart c) eqn:E; [by eauto|]. apply IH. lia.
Qed.

Lemma truncate_wf s n : wf_utf8 s → wf_utf8 (truncateOnRuneBoundary s n).
Proof.
  intros Hs. unfold truncateOnRuneBoundary. destruct (n <=? 0) eqn:E1; [constructor|].
  destruct (slen s <=? n) eqn:E2; [done|]. bool_hyps. apply wf_get_boundary; [done|].
  apply cutBack_boundary. unfold slen in *. lia.
Qed.

Lemma sanitize_wf s n : wf_utf8 (sanitizeBoundedText s n).
Proof.
  unfold sanitizeBoundedText. apply truncate_wf. unfold TrimSpace. apply concat_wf, TrimSpace_Forall.
  unfold runes. apply runes_wf; [|done]. unfold mapControl. apply concat_wf, Forall_fmap.
  unfold runes. eapply Forall_impl; [apply runes_wf; [|done]|].
  - unfold ToValidUTF8. apply concat_wf, replaceInvalid_valid.
  - intros r Hr. simpl. by destruct (isControlRune r).
Qed.

Lemma wf_ValidString s : wf_utf8 s → ValidString s = true.
Proof.
  unfold ValidString. intros Hs. assert (∀ fuel, (String.length s ≤ fuel)%nat → validStringFuel fuel s = true) as H; [|by apply H].
  induction Hs as [|r s Hr Hs IH]; intros fuel Hf; [by destruct fuel|].
  pose proof (validRune_nonempty r Hr) as Hne. rewrite length_string_app in Hf.
  destruct r as [|c r]; [done|]. simpl in Hf. destruct fuel as [|fuel]; [lia|].
  rewrite string_app_cons. cbn [validStringFuel]. rewrite <-string_app_cons, (validRune_app (String c r) s Hr), dropBytes_app.
  apply IH. lia.
Qed.

(** ** Lemmas: the evidence ledger *)

Lemma cutBack_ge m n s c : (m ≤ n)%nat → String.get m s = Some c → RuneStart c = true → (m ≤ cutBack n s)%nat.
Proof.
  intros Hm Hg Hc. induction n as [|n IH]; [lia|]. cbn [cutBack].
  destruct (decide (m = S n)) as [->|]; [by rewrite Hg, Hc|].
  destruct (String.get (S n) s) as [c'|]; [|lia]. destruct (RuneStart c'); lia.
Qed.

(** The marker of an entry is never cut. *)
Lemma truncate_keeps_prefix p t n :
  slen p ≤ n → (∀ c, String.get 0 t = Some c → RuneStart c = true) →
  0 < n → ∃ t', truncateOnRuneBoundary (p +:+ t) n = p +:+ t'.
Proof.
  intros Hn Ht H0. unfold truncateOnRuneBoundary. rewrite (proj2 (Z.leb_gt _ _)) by lia.
  destruct (slen (p +:+ t) <=? n) eqn:E; [by exists t|]. bool_hyps. rewrite slen_app in E.
  unfold slen in *. destruct t as [|c t]; [simpl in E; lia|].
  assert (String.length p ≤ cutBack (Z.to_nat n) (p +:+ String c t))%nat as Hge.
  { apply (cutBack_ge _ _ _ c); [lia| |by apply Ht]. rewrite get_app_ge by lia. by rewrite Nat.sub_diag. }
  eexists. by rewrite takeBytes_app_ge.
Qed.

Lemma append_shape ex fp body success out :
  appendLateEvidence ex fp body success = (out, lateEvidenceAppended) →
  ∃ t, out = ex +:+ lateReportSeparator +:+ lateReportMarker fp +:+ t ∧ slen out ≤ maxOutcomeSummaryBytes ∧
       (success = false → slen out ≤ maxOutcomeSummaryBytes - lateSuccessReserve) ∧
       (forallBytes summaryByte ex = true → forallBytes summaryByte fp = true → forallBytes summaryByte out = true).
Proof.
  unfold appendLateEvidence. destruct (Contains ex _); [done|].
  set (room := if success then _ else _). destruct (room <? slen (lateReportMarker fp)) eqn:E; [done|]. bool_hyps.
  set (body' := sanitizeBoundedText body maxOutcomeSummaryBytes).
  set (tail := if negb (bool_decide (body' = "")) then " " +:+ body' else "").
  assert ((if negb (bool_decide (body' = "")) then lateReportMarker fp +:+ " " +:+ body' else lateReportMarker fp)
          = lateReportMarker fp +:+ tail) as ->.
  { unfold tail. destruct (negb _); [done|]. by rewrite string_app_nil. }
  intros [= <-].
  assert (0 < slen (lateReportMarker fp)) by (unfold lateReportMarker; rewrite slen_app; pose proof (slen_nonneg (fp +:+ ":")); unfold slen at 1; simpl; lia).
  destruct (truncate_keeps_prefix (lateReportMarker fp) tail room) as [t Et]; [done| |lia|].
  { unfold tail. destruct (negb _); [by intros c [= <-]|done]. }
  pose proof (truncate_length (lateReportMarker fp +:+ tail) room) as Hlen. rewrite Et in Hlen |- *.
  assert (slen lateReportSeparator = 3) by done.
  exists t. rewrite !slen_app in *. split_and!; try done.
  - unfold room in *. destruct success; unfold lateSuccessReserve in *; lia.
  - intros ->. unfold room in *. lia.
  - intros Hex Hfp. rewrite forallBytes_app, Hex, forallBytes_app, <-Et. simpl. apply truncate_bytes.
    rewrite forallBytes_app, andb_true_iff. split.
    + unfold lateReportMarker. by rewrite !forallBytes_app, Hfp.
    + unfold tail. destruct (negb _); [|done]. rewrite forallBytes_app. apply sanitize_clean.
Qed.

(** What [writeLateEvidence] computes from a report. *)
Definition lateEvidence (existing : string) (rep : activationReport) : string * lateEvidenceOutcome :=
  let fingerprint := lateReportFingerprint (rep_succeeded rep) (rep_observedRouteDigest rep) (rep_failureSummary rep) in
  let body := if rep_succeeded rep then lateSuccessBody (rep_observedRouteDigest rep) (rep_digestMatches rep)
              else lateFailureBody (rep_failureSummary rep) in
  appendLateEvidence existing fingerprint body (rep_succeeded rep).

(** The summary after a sequence of late reports. *)
Definition lateSummary (original : string) (reports : list activationReport) : string :=
  foldl (λ s rep, (lateEvidence s rep).1) original reports.

Lemma append_cases ex fp body success out oc :
  appendLateEvidence ex fp body success = (out, oc) →
  oc = lateEvidenceAppended ∨ (out = ex ∧ oc ≠ lateEvidenceAppended).
Proof. unfold appendLateEvidence. repeat case_match; intros [= <- <-]; auto. Qed.

Lemma EncodeToString_clean s : forallBytes summaryByte (EncodeToString s) = true.
Proof.
  induction s as [|c s IH]; simpl; [done|]. rewrite IH, andb_true_r.
  by destruct c as [[] [] [] [] [] [] [] []].
Qed.

Lemma EncodeToString_length s : slen (EncodeToString s) = 2 * slen s.
Proof. unfold slen. induction s as [|c s IH]; simpl; lia. Qed.

Lemma Contains_marker ex fp t : Contains (ex +:+ lateReportSeparator +:+ lateReportMarker fp +:+ t) (lateReportMarker fp) = true.
Proof. apply Contains_spec. exists (ex +:+ lateReportSeparator), t. by rewrite string_app_assoc. Qed.

(** ** Printable ASCII passes the sanitizer unchanged *)

Definition singles (s : string) : list string := (λ c, String c "") <$> String.list_ascii_of_string s.

Lemma runes_ascii s : forallBytes (λ b, b <? 128) s = true → runes s = singles s.
Proof.
  unfold runes, singles. induction s as [|c s IH]; simpl; [done|]. intros [Hc Hs]%andb_prop.
  rewrite Hc. simpl. f_equal. by apply IH.
Qed.

Lemma concat_singles s : concatRunes (singles s) = s.
Proof. unfold singles. induction s as [|c s IH]; [done|]. exact (f_equal (String c) IH). Qed.

Definition printableByte (b : Z) : bool := (32 <=? b) && (b <=? 126).

Lemma printable_ascii s : forallBytes printableByte s = true → forallBytes (λ b, b <? 128) s = true.
Proof.
  induction s as [|c s IH]; simpl; [done|]. intros [Hc Hs]%andb_prop. rewrite (IH Hs), andb_true_r.
  unfold printableByte in Hc. bool_hyps. apply Z.ltb_lt. lia.
Qed.

Lemma ToValidUTF8_ascii s : forallBytes (λ b, b <? 128) s = true → ToValidUTF8 s = s.
Proof.
  intros Hs. unfold ToValidUTF8. rewrite runes_ascii by done. transitivity (concatRunes (singles s)); [|apply concat_singles].
  f_equal. induction s as [|c s IH]; [done|]. apply andb_prop in Hs as [Hc Hs].
  change (singles (String c s)) with (String c "" :: singles s). cbn [replaceInvalid].
  assert (validRune (String c "") = true) as -> by (unfold validRune, runeLen; by rewrite Hc). by rewrite IH.
Qed.

Lemma mapControl_printable s : forallBytes printableByte s = true → mapControl s = s.
Proof.
  intros Hs. unfold mapControl. rewrite runes_ascii by by apply printable_ascii.
  transitivity (concatRunes (singles s)); [|apply concat_singles]. f_equal.
  induction s as [|c s IH]; [done|]. apply andb_prop in Hs as [Hc Hs].
  change (singles (String c s)) with (String c "" :: singles s). rewrite fmap_cons, (IH Hs). f_equal.
  unfold printableByte in Hc. bool_hyps. simpl. rewrite (proj2 (Z.ltb_ge _ _)), (proj2 (Z.eqb_neq _ _)) by lia. done.
Qed.

Lemma trimLeft_id l : (∀ r, head l = Some r → isSpaceRune r = false) → trimLeft l = l.
Proof. destruct l as [|r l]; simpl; [done|]. intros H. by rewrite (H r eq_refl). Qed.

(** No blank at either end. *)
Definition trimmed (s : string) : Prop :=
  (∀ r, head (singles s) = Some r → isSpaceRune r = false) ∧ (∀ r, last (singles s) = Some r → isSpaceRune r = false).

Lemma TrimSpace_trimmed s : forallBytes (λ b, b <? 128) s = true → trimmed s → TrimSpace s = s.
Proof.
  intros Hs [Hh Hl]. unfold TrimSpace. rewrite runes_ascii, (trimLeft_id (singles s)) by done.
  rewrite trimLeft_id; [|by intros r; rewrite rev_alt; change (rev_append (singles s) []) with (reverse (singles s)); rewrite head_reverse; apply Hl].
  rewrite rev_involutive. apply concat_singles.
Qed.

Lemma sanitize_printable s n :
  forallBytes printableByte s = true → trimmed s → sanitizeBoundedText s n = truncateOnRuneBoundary s n.
Proof.
  intros Hs Ht. unfold sanitizeBoundedText. pose proof (printable_ascii s Hs).
  by rewrite ToValidUTF8_ascii, mapControl_printable, TrimSpace_trimmed.
Qed.

Lemma EncodeToString_printable s : forallBytes printableByte (EncodeToString s) = true.
Proof. induction s as [|c s IH]; simpl; [done|]. rewrite IH, andb_true_r. by destruct c as [[] [] [] [] [] [] [] []]. Qed.

Lemma singles_app a b : singles (a +:+ b) = singles a ++ singles b.
Proof. induction a as [|c a IH]; [done|]. exact (f_equal (cons (String c "")) IH). Qed.

Lemma EncodeToString_last s r : last (singles (EncodeToString s)) = Some r → isSpaceRune r = false.
Proof.
  induction s as [|c s IH]; [done|]. destruct s as [|c' s].
  - simpl. intros [= <-]. by destruct c as [[] [] [] [] [] [] [] []].
  - intros H. apply IH. rewrite <-H. done.
Qed.

Lemma lateSuccessBody_sanitized dg b :
  slen dg = 32 → sanitizeBoundedText (lateSuccessBody dg b) maxOutcomeSummaryBytes = lateSuccessBody dg b ∧
  slen (lateSuccessBody dg b) ≤ 185.
Proof.
  intros Hd.
  assert (slen (lateSuccessBody dg b) ≤ 185) as Hlen.
  { unfold lateSuccessBody. rewrite !slen_app, EncodeToString_length, Hd. by destruct b. }
  split; [|done]. rewrite sanitize_printable.
  - unfold truncateOnRuneBoundary. rewrite (proj2 (Z.leb_gt maxOutcomeSummaryBytes 0)) by done.
    rewrite (proj2 (Z.leb_le _ _)); [done|]. unfold maxOutcomeSummaryBytes. lia.
  - unfold lateSuccessBody. rewrite !forallBytes_app, EncodeToString_printable. by destruct b.
  - split.
    + intros r [= <-]. done.
    + unfold lateSuccessBody. rewrite !singles_app. intros r. rewrite !last_app.
      destruct (last (singles (EncodeToString dg))) as [x|] eqn:E.
      * intros [= <-]. by eapply EncodeToString_last.
      * apply last_None in E. by destruct dg.
Qed.

Lemma marker_length fp : slen fp = 16 → slen (lateReportMarker fp) = 30.
Proof. intros H. unfold lateReportMarker. rewrite !slen_app, H. done. Qed.

(** With room left, a success entry is appended whole. *)
Lemma append_success_full ex fp dg b :
  slen fp = 16 → slen dg = 32 → Contains ex (lateReportMarker fp) = false → slen ex + 219 ≤ maxOutcomeSummaryBytes →
  appendLateEvidence ex fp (lateSuccessBody dg b) true =
    (ex +:+ lateReportSeparator +:+ lateReportMarker fp +:+ " " +:+ lateSuccessBody dg b, lateEvidenceAppended).
Proof.
  intros Hfp Hdg Hc Hroom. destruct (lateSuccessBody_sanitized dg b Hdg) as [Hs Hl]. pose proof (marker_length fp Hfp) as Hm.
  unfold appendLateEvidence. rewrite Hc, Hs. assert (slen lateReportSeparator = 3) as -> by done. cbv zeta iota.
  rewrite (proj2 (Z.ltb_ge _ _)) by lia. rewrite bool_decide_false by done. cbn [negb].
  unfold truncateOnRuneBoundary. rewrite (proj2 (Z.leb_gt _ _)) by lia. rewrite (proj2 (Z.leb_le _ _)); [done|].
  rewrite !slen_app, Hm. assert (slen " " = 1) as -> by done. lia.
Qed.

Lemma fingerprint_length b dg f : slen (lateReportFingerprint b dg f) = 16 ∧ forallBytes summaryByte (lateReportFingerprint b dg f) = true.
Proof.
  unfold lateReportFingerprint. split; [|apply EncodeToString_clean]. rewrite EncodeToString_length.
  unfold slen. rewrite length_takeBytes, Sum256_length. done.
Qed.

Lemma failure_bound ex rep :
  rep_succeeded rep = false → slen ex ≤ maxOutcomeSummaryBytes - lateSuccessReserve →
  slen (lateEvidence ex rep).1 ≤ maxOutcomeSummaryBytes - lateSuccessReserve.
Proof.
  intros Hf Hex. unfold lateEvidence. rewrite Hf. destruct (appendLateEvidence _ _ _ _) as [out oc] eqn:E.
  destruct (append_cases _ _ _ _ _ _ E) as [->|[-> _]]; [|done]. apply append_shape in E as (t&_&_&H&_). auto.
Qed.

(** ** Theorems *)

(** whatever bytes the agent sends, the sanitized summary is accepted by
    the column: valid UTF-8, no byte the CHECK forbids, at most 512 bytes,
    and never empty. *)
Theorem failure_summary_storable raw :
  ValidString (failureOutcomeSummary raw) = true ∧ forallBytes summaryByte (failureOutcomeSummary raw) = true ∧
  0 < slen (failureOutcomeSummary raw) ≤ maxActivationFailureSummaryBytes.
Proof.
  unfold failureOutcomeSummary. destruct (sanitize_clean raw maxActivationFailureSummaryBytes) as [Hc Hl].
  case_bool_decide as E; simpl; [done|]. fold (sanitizeOutcomeSummary raw) in Hc, Hl.
  split_and!; [apply wf_ValidString, sanitize_wf|done| |unfold maxActivationFailureSummaryBytes in *; lia].
  destruct (sanitizeOutcomeSummary raw); [done|]. unfold slen. simpl. lia.
Qed.

(** the late-report ledger: recording a report keeps every byte already
    recorded, stays inside the column and its byte rules, and makes the same
    report (whatever its body) a recognised replay that changes nothing. *)
Theorem late_evidence_ledger existing rep out outcome :
  slen existing ≤ maxOutcomeSummaryBytes → forallBytes summaryByte existing = true →
  lateEvidence existing rep = (out, outcome) →
  HasPrefix out existing = true ∧ slen out ≤ maxOutcomeSummaryBytes ∧ forallBytes summaryByte out = true ∧
  (outcome ≠ lateEvidenceNoRoom → lateEvidence out rep = (out, lateEvidenceReplay)).
Proof.
  intros Hlen Hclean H. unfold lateEvidence in *. set (fp := lateReportFingerprint _ _ _) in *.
  destruct (fingerprint_length (rep_succeeded rep) (rep_observedRouteDigest rep) (rep_failureSummary rep)) as [_ Hfp].
  fold fp in Hfp. destruct (append_cases _ _ _ _ _ _ H) as [->|[-> Hoc]].
  - apply append_shape in H as (t&->&?&_&Hout). split_and!; [apply HasPrefix_app; by eexists|done|by apply Hout|].
    intros _. unfold appendLateEvidence. by rewrite Contains_marker.
  - split_and!; [apply HasPrefix_app; exists ""; by rewrite string_app_nil|done|done|].
    unfold appendLateEvidence in *. intros Hn. destruct (Contains existing _); [done|].
    exfalso. destruct (_ <? _); by simplify_eq.
Qed.

(** The success reserve: however many late failure reports were recorded
    over a block summary of at most 512 bytes, two further success reports
    with new fingerprints are both recorded whole. *)
Theorem late_success_reserve original failures dg1 m1 dg2 m2 :
  slen original ≤ maxActivationFailureSummaryBytes → Forall (λ rep, rep_succeeded rep = false) failures →
  slen dg1 = 32 → slen dg2 = 32 →
  let s0 := lateSummary original failures in
  let fp1 := lateReportFingerprint true dg1 "" in
  let fp2 := lateReportFingerprint true dg2 "" in
  let s1 := s0 +:+ lateReportSeparator +:+ lateReportMarker fp1 +:+ " " +:+ lateSuccessBody dg1 m1 in
  Contains s0 (lateReportMarker fp1) = false → Contains s1 (lateReportMarker fp2) = false →
  appendLateEvidence s0 fp1 (lateSuccessBody dg1 m1) true = (s1, lateEvidenceAppended) ∧
  appendLateEvidence s1 fp2 (lateSuccessBody dg2 m2) true =
    (s1 +:+ lateReportSeparator +:+ lateReportMarker fp2 +:+ " " +:+ lateSuccessBody dg2 m2, lateEvidenceAppended).
Proof.
  intros Ho Hf H1 H2 s0 fp1 fp2 s1 C1 C2.
  assert (slen s0 ≤ maxOutcomeSummaryBytes - lateSuccessReserve) as Hs0.
  { unfold s0, lateSummary. assert (slen original ≤ maxOutcomeSummaryBytes - lateSuccessReserve) as Hb
      by (unfold maxActivationFailureSummaryBytes, maxOutcomeSummaryBytes, lateSuccessReserve in *; lia).
    clear -Hf Hb. revert original Hb. induction Hf as [|rep l Hrep _ IH]; intros o Ho; simpl; [done|].
    apply IH. by apply failure_bound. }
  destruct (fingerprint_length true dg1 "") as [Hfp1 _], (fingerprint_length true dg2 "") as [Hfp2 _].
  destruct (lateSuccessBody_sanitized dg1 m1 H1) as [_ Hl]. pose proof (marker_length fp1 Hfp1) as Hm.
  unfold lateSuccessReserve, maxOutcomeSummaryBytes in Hs0.
  split; apply append_success_full; try done; unfold maxOutcomeSummaryBytes; [lia|].
  unfold s1. rewrite !slen_app, Hm. assert (slen lateReportSeparator = 3) as -> by done.
  assert (slen " " = 1) as -> by done. lia.
Qed.

(** The failure report that created a block stays recognisable: after any
    sequence of late reports, a replay of it is still an original replay. *)
Theorem original_replay_recognised original reports :
  isOriginalBlockReplay (lateSummary original reports) original = true.
Proof.
  assert (∀ s, s = original ∨ HasPrefix s (original +:+ lateReportSeparator +:+ lateReportMarkerPrefix) = true →
    let s' := lateSummary s reports in
    s' = original ∨ HasPrefix s' (original +:+ lateReportSeparator +:+ lateReportMarkerPrefix) = true) as H.
  { induction reports as [|rep reports IH]; intros s Hs; [done|]. apply IH. unfold lateEvidence.
    destruct (appendLateEvidence s _ _ _) as [out oc] eqn:E. simpl.
    destruct (append_cases _ _ _ _ _ _ E) as [->|[-> _]]; [|done]. right.
    apply append_shape in E as (t&->&_). apply HasPrefix_app. destruct Hs as [->|[r ->]%HasPrefix_app].
    - unfold lateReportMarker. eexists. by rewrite !string_app_assoc.
    - eexists. by rewrite !string_app_assoc. }
  unfold isOriginalBlockReplay. destruct (H original (or_introl eq_refl)) as [-> | ->].
  - by rewrite bool_decide_true.
  - apply orb_true_r.
Qed.

(** A declared outcome never replaces or cuts the evidence, and keeps the
    column's bound. *)
Theorem declared_summary_keeps_evidence existing outcome :
  slen existing ≤ maxOutcomeSummaryBytes →
  HasPrefix (declaredSummary existing outcome) existing = true ∧
  slen (declaredSummary existing outcome) ≤ maxOutcomeSummaryBytes ∧
  (maxOutcomeSummaryBytes - slen existing < 12 + slen outcome → existing ≠ "" → declaredSummary existing outcome = existing).
Proof.
  intros Hl. unfold declaredSummary. destruct (_ <? _) eqn:E; bool_hyps.
  - split_and!; [apply HasPrefix_app; exists ""; by rewrite string_app_nil|done|done].
  - split_and!; [apply HasPrefix_app; by eexists|by rewrite slen_app|].
    intros H Hne. exfalso. rewrite bool_decide_false in E by done. rewrite !slen_app in E.
    assert (slen lateReportSeparator = 3) as E1 by done. assert (slen "declared " = 9) as E2 by done. lia.
Qed.

(** ** Witnesses *)

Definition digestA : string := takeBytes 32 "AAAAAAAAAAAAAAAAAAAAAAAAAAAAAAAA".
Definition digestB : string := takeBytes 32 "BBBBBBBBBBBBBBBBBBBBBBBBBBBBBBBB".
Definition successReport (dg : string) : activationReport :=
  {| rep_succeeded := true; rep_digestMatches := true; rep_observedRouteDigest := dg; rep_failureSummary := emptyFailureSummary |}.
Definition failureReport (f : string) : activationReport :=
  {| rep_succeeded := false; rep_digestMatches := false; rep_observedRouteDigest := digestA; rep_failureSummary := f |}.

Lemma late_evidence_ledger_witness :
  ∃ out, lateEvidence "health gate failed" (successReport digestA) = (out, lateEvidenceAppended) ∧
         lateEvidence out (successReport digestA) = (out, lateEvidenceReplay).
Proof.
  destruct (lateEvidence "health gate failed" (successReport digestA)) as [out oc] eqn:E.
  assert (oc = lateEvidenceAppended) as -> by (vm_compute in E; by injection E).
  exists out. split; [done|].
  exact (proj2 (proj2 (proj2 (late_evidence_ledger "health gate failed" (successReport digestA) out lateEvidenceAppended
    ltac:(by vm_compute) ltac:(by vm_compute) E))) ltac:(done)).
Defined.

Lemma late_success_reserve_witness :
  let s0 := lateSummary "blocked" [failureReport "timeout"] in
  (appendLateEvidence s0 (lateReportFingerprint true digestA "") (lateSuccessBody digestA true) true).2 = lateEvidenceAppended.
Proof.
  intros s0. destruct (late_success_reserve "blocked" [failureReport "timeout"] digestA true digestB true) as [H _];
    [by vm_compute|by repeat constructor|done|done|by vm_compute|by vm_compute|]. exact (f_equal snd H).
Defined.

Lemma declared_summary_keeps_evidence_witness :
  HasPrefix (declaredSummary "blocked" "activated") "blocked" = true.
Proof. refine (proj1 (declared_summary_keeps_evidence "blocked" "activated" _)). by vm_compute. Defined.

(** The ledger recognises a report by searching its marker anywhere in the
    summary, agent-supplied text included: a failure report whose text spells
    the marker of a success report creates a block after which that success
    report is taken for a replay, though no evidence of it was ever recorded. *)
Theorem forged_marker_suppresses_success dg :
  slen dg = 32 →
  let marker := lateReportMarker (lateReportFingerprint true dg emptyFailureSummary) in
  let original := failureOutcomeSummary marker in
  lateSummary original [successReport dg] = original ∧
  (lateEvidence original (successReport dg)).2 = lateEvidenceReplay.
Proof.
  intros Hdg marker original.
  assert (original = marker) as Eo.
  { unfold original, failureOutcomeSummary, sanitizeOutcomeSummary.
    destruct (fingerprint_length true dg emptyFailureSummary) as [Hf _].
    assert (sanitizeBoundedText marker maxActivationFailureSummaryBytes = marker) as ->.
    { rewrite sanitize_printable.
      - unfold truncateOnRuneBoundary. rewrite (proj2 (Z.leb_gt maxActivationFailureSummaryBytes 0)) by done.
        unfold marker. rewrite marker_length by done. done.
      - unfold marker, lateReportMarker, lateReportFingerprint. by rewrite !forallBytes_app, EncodeToString_printable.
      - unfold marker, lateReportMarker. split.
        + intros r [= <-]. done.
        + intros r. rewrite !singles_app, !last_app. intros [= <-]. done. }
    rewrite bool_decide_false by done. done. }
  assert (lateEvidence original (successReport dg) = (original, lateEvidenceReplay)) as H.
  { unfold lateEvidence. cbn [rep_succeeded rep_observedRouteDigest rep_failureSummary rep_digestMatches successReport].
    rewrite Eo. unfold appendLateEvidence. fold marker.
    assert (Contains marker marker = true) as -> by (apply Contains_spec; exists "", ""; by rewrite string_app_nil). done. }
  split; [change ((lateEvidence original (successReport dg)).1 = original)|]; rewrite H; reflexivity.
Qed.

Lemma forged_marker_witness :
  (lateEvidence (failureOutcomeSummary (lateReportMarker (lateReportFingerprint true digestA emptyFailureSummary)))
     (successReport digestA)).2 = lateEvidenceReplay.
Proof. exact (proj2 (forged_marker_suppresses_success digestA eq_refl)). Defined.
