(* ===== verification/Fold.v ===== *)
(** * Lower case beyond ASCII

    [strings.ToLower], used by the host names of route heads and of public
    origins. *)
From S2P Require Import Prelude GoStd Route Evidence.
From Stdlib Require Import Ascii.
#[local] Open Scope Z_scope.

Section fold.
(** [unicode.ToLower] of a rune beyond ASCII, on UTF-8 encodings: the
    simple lower-case mapping of the Unicode Character Database. *)
Context (unicodeLower : string → string).

(** [strings.ToLower]; a byte that starts no rune becomes U+FFFD. *)
Definition lowerRune (r : string) : string :=
  match r with
  | String c EmptyString =>
      if byte_of c <? 128 then String (if isUpper (byte_of c) then GoStd.ascii_of_byte (byte_of c + 32) else c) ""
      else Sha256.string_of_bytes [239; 191; 189]
  | _ => unicodeLower r
  end.
Definition ToLower (s : string) : string := concatRunes (lowerRune <$> runes s).
End fold.
