(* ===== verification/DeploymentStore.v ===== *)
(** * Deployment persistence (src/internal/store/postgres/deployment_repository.go)

    Loading an aggregate, the compare-and-set [Save], and the
    [transitionDeployment] helper every lease operation shares. *)
From S2P Require Import Prelude GoStd Deployment Queue Schema.
#[local] Open Scope Z_scope.

Definition liftDeployment {A} (r : DeploymentError + A) : Tx DB Err A :=
  match r with inl e => tx_fail (ErrDeployment e) | inr a => tx_ret a end.

Definition readSnapshot (id : string) : Tx DB Err Snapshot :=
  tx_some (λ d, db_deployments d !! id) ErrNotFound.

Definition MaxInt64 : Z := 2 ^ 63 - 1.
Definition postgresRevision (revision : Z) : option Z :=
  if MaxInt64 <? revision then None else Some revision.

Definition checkedSnapshot (value : Deployment) : Tx DB Err Snapshot :=
  let! snapshot := liftDeployment (TakeSnapshot value) in
  match postgresRevision (snap_Revision snapshot) with
  | None => tx_fail ErrRevisionOverflow
  | Some _ => tx_ret snapshot
  end.

Fixpoint matchingPrefix (stored candidate : list Event) : bool :=
  match stored, candidate with
  | [], _ => true
  | _ :: _, [] => false
  | s :: stored', c :: candidate' => bool_decide (s = c) && matchingPrefix stored' candidate'
  end.

(** validate_deployment_event (000001): the legal edges as the trigger lists
    them, and the insert it guards. *)
Definition sqlTransition (from to : Status) : bool :=
  match from with
  | StatusQueued => bool_decide (to ∈ [StatusAssigned; StatusCancelled; StatusSuperseded])
  | StatusAssigned => bool_decide (to ∈ [StatusFetching; StatusCancelled; StatusFailed])
  | StatusFetching => bool_decide (to ∈ [StatusBuilding; StatusCancelled; StatusFailed])
  | StatusBuilding => bool_decide (to ∈ [StatusStarting; StatusCancelled; StatusFailed])
  | StatusStarting => bool_decide (to ∈ [StatusHealthChecking; StatusCancelled; StatusFailed])
  | StatusHealthChecking => bool_decide (to ∈ [StatusActivating; StatusCancelled; StatusFailed])
  | StatusActivating => bool_decide (to ∈ [StatusHealthy; StatusFailed])
  | StatusHealthy => bool_decide (to = StatusRolledBack)
  | _ => false
  end.

Definition validate_deployment_event (head : Snapshot) (e : Event) : bool :=
  match last (snap_Events head) with
  | None => bool_decide (ev_from e = StatusNone) && bool_decide (ev_to e = StatusQueued)
            && (ev_at e =? snap_CreatedAt head)
  | Some previous =>
      (ev_at previous <=? ev_at e) && bool_decide (ev_from e = ev_to previous)
      && sqlTransition (ev_from e) (ev_to e)
  end.

Definition with_events (s : Snapshot) (evs : list Event) : Snapshot :=
  {| snap_Version := snap_Version s; snap_Identity := snap_Identity s; snap_Status := snap_Status s;
     snap_CreatedAt := snap_CreatedAt s; snap_UpdatedAt := snap_UpdatedAt s;
     snap_Revision := snap_Revision s; snap_Events := evs |}.

Definition put_deployment (id : string) (s : Snapshot) : Tx DB Err unit :=
  tx_write (λ d, set_deployments (<[id := s]> (db_deployments d)) d).

Fixpoint appendEvents (id : string) (evs : list Event) : Tx DB Err unit :=
  match evs with
  | [] => tx_ret tt
  | e :: evs' =>
      let! head := tx_some (λ d, db_deployments d !! id) (ErrPg PgRaise) in
      do! tx_guard (validate_deployment_event head e) (ErrPg PgRaise) in
      do! put_deployment id (with_events head (snap_Events head ++ [e])) in
      appendEvents id evs'
  end.

(** [UPDATE deployments SET schema_version, status, updated_at, revision WHERE
    id AND revision = stored], with the table's CHECKs. *)
Definition update_deployment_head (snapshot stored : Snapshot) : Tx DB Err unit :=
  let id := DeploymentID (snap_Identity snapshot) in
  let new := {| snap_Version := snap_Version snapshot; snap_Identity := snap_Identity stored;
                snap_Status := snap_Status snapshot; snap_CreatedAt := snap_CreatedAt stored;
                snap_UpdatedAt := snap_UpdatedAt snapshot; snap_Revision := snap_Revision snapshot;
                snap_Events := snap_Events stored |} in
  do! tx_guard ((0 <? snap_Version new) && (0 <? snap_Revision new)
                && (snap_CreatedAt new <=? snap_UpdatedAt new) && isKnownStatus (snap_Status new))
        (ErrPg PgCheckViolation) in
  put_deployment id new.

Definition saveTx (value : Deployment) : Tx DB Err unit :=
  let! snapshot := checkedSnapshot value in
  let id := DeploymentID (snap_Identity snapshot) in
  let! stored := readSnapshot id in
  do! tx_guard (bool_decide (snap_Identity stored = snap_Identity snapshot)) ErrRevisionConflict in
  do! liftDeployment (Rehydrate stored) in
  do! tx_guard (negb ((snap_Revision snapshot <? snap_Revision stored)
                      || negb (matchingPrefix (snap_Events stored) (snap_Events snapshot))))
        ErrRevisionConflict in
  do! tx_guard (negb (snap_Revision stored =? snap_Revision snapshot)) ErrRevisionConflict in
  do! update_deployment_head snapshot stored in
  appendEvents id (drop (Z.to_nat (snap_Revision stored)) (snap_Events snapshot)).

(** [createTxWithHook]: insert the head, then its creation event. *)
Definition createTx (value : Deployment) : Tx DB Err unit :=
  let! snapshot := checkedSnapshot value in
  let id := DeploymentID (snap_Identity snapshot) in
  let! existing := tx_read (λ d, db_deployments d !! id) in
  do! tx_guard (match existing with Some _ => false | None => true end) ErrAlreadyExists in
  do! put_deployment id (with_events snapshot []) in
  appendEvents id (snap_Events snapshot).

(** [transitionDeployment] (agent_lease_repository.go): load, transition and
    save inside the caller's transaction; repeating the current status
    persists nothing. *)
Definition transitionDeployment (deploymentID : string) (target : Status) (at_ : Z) : Tx DB Err unit :=
  let! snapshot := readSnapshot deploymentID in
  let! current := liftDeployment (Rehydrate snapshot) in
  let! next := liftDeployment (Transition current target at_) in
  if revision next =? revision current then tx_ret tt else saveTx next.

(** Deployment writes keep every relation that ignores the deployments. *)
Section rel.
Context (R : DB → DB → Prop) `{!PreOrder R} (Hdep : ∀ m d, R d (set_deployments m d)).

Lemma rel_put id s : tx_rel R (put_deployment id s).
Proof. by apply tx_rel_write. Qed.
#[local] Hint Resolve rel_put : txrel.

Lemma rel_lift {A} (r : DeploymentError + A) : tx_rel R (liftDeployment r).
Proof using Type*. unfold liftDeployment. tx_rel. Qed.
#[local] Hint Resolve rel_lift : txrel.

Lemma rel_appendEvents id evs : tx_rel R (appendEvents id evs).
Proof using Type*. induction evs as [|e evs IH]; simpl; tx_rel. Qed.
#[local] Hint Resolve rel_appendEvents : txrel.

Lemma rel_checkedSnapshot v : tx_rel R (checkedSnapshot v).
Proof using Type*. unfold checkedSnapshot. tx_rel. Qed.
#[local] Hint Resolve rel_checkedSnapshot : txrel.

Lemma rel_transition id target now : tx_rel R (transitionDeployment id target now).
Proof using Type*. unfold transitionDeployment, readSnapshot, saveTx, readSnapshot, update_deployment_head. tx_rel. Qed.

Lemma rel_create v : tx_rel R (createTx v).
Proof using Type*. unfold createTx. tx_rel. Qed.
End rel.

(** ** The stored form of an aggregate *)

Definition snapshotOf (d : Deployment) : Snapshot :=
  {| snap_Version := Deployment.CurrentSchemaVersion; snap_Identity := identity d; snap_Status := status d;
     snap_CreatedAt := createdAt d; snap_UpdatedAt := updatedAt d; snap_Revision := revision d;
     snap_Events := events d |}.

(** A stored deployment: the snapshot of a valid canonical aggregate kept
    under its own ID. *)
Definition storedAs (id : string) (s : Snapshot) (dep : Deployment) : Prop :=
  s = snapshotOf dep ∧ DeploymentID (identity dep) = id ∧ validate dep = None ∧
  canonicalDeployment dep.

Lemma sqlTransition_canTransition a b : sqlTransition a b = canTransition a b.
Proof. destruct a; try reflexivity; destruct b; reflexivity. Qed.

Lemma canonicalEvents_id (evs : list Event) :
  Forall (λ e, canonical (ev_at e)) evs → canonicalEvent <$> evs = evs.
Proof.
  induction 1 as [|e l Hce _ IH]; [done|]. rewrite fmap_cons, IH. f_equal.
  unfold canonicalEvent. rewrite Hce. by destruct e.
Qed.

Lemma Rehydrate_snapshotOf dep :
  validate dep = None → canonicalDeployment dep → Rehydrate (snapshotOf dep) = inr dep.
Proof.
  intros Hv (Hc & Hu & He). unfold Rehydrate, snapshotOf. simpl.
  rewrite Hc, Hu, canonicalEvents_id by done. destruct dep; simpl in *. by rewrite Hv.
Qed.

Lemma advance_canonical dep to t :
  canonicalDeployment dep → canonical t → canonicalDeployment (advance dep to t).
Proof.
  intros (Hc & Hu & He) Ht. repeat split; try done. simpl. apply Forall_app.
  split; [done|]. by repeat constructor.
Qed.

Lemma matchingPrefix_app l k : matchingPrefix l (l ++ k) = true.
Proof. induction l as [|e l IH]; simpl; [done|]. by rewrite bool_decide_true, IH. Qed.

Lemma valid_last dep :
  validate dep = None →
  ∃ e, last (events dep) = Some e ∧ ev_to e = status dep ∧ ev_at e = updatedAt dep.
Proof.
  rewrite validate_None. intros (_ & _ & _ & _ & _ & _ & rest & He & Hv). rewrite He.
  revert Hv. generalize 0%nat as i. destruct (last rest) as [e|] eqn:El.
  - apply last_Some in El as [rest' ->]. intros i Hv. rewrite validateEvents_app in Hv.
    destruct (validateEvents i StatusQueued (createdAt dep) rest') as [|[c p]] eqn:Hv'; [done|].
    simpl in Hv. repeat case_match; simplify_eq. exists e. split; [|done].
    by rewrite app_comm_cons, last_snoc.
  - apply last_None in El as ->. intros i [= H1 H2]. eexists. split; [done|]. simpl. by rewrite H1, H2.
Qed.

Lemma validate_identity_nonempty dep : validate dep = None → validateIdentity (identity dep) = None.
Proof. intros (?&_)%validate_None. done. Qed.

(** A legal transition of a stored deployment commits exactly the advanced
    aggregate. *)
Lemma transitionDeployment_advance id target at_ d s dep :
  db_deployments d !! id = Some s → storedAs id s dep →
  canTransition (status dep) target = true →
  canonicalTime at_ ≠ 0 → updatedAt dep ≤ canonicalTime at_ →
  transitionDeployment id target at_ d =
  inr (tt, set_deployments (<[id := snapshotOf (advance dep target (canonicalTime at_))]> (db_deployments d)) d).
Proof.
  intros Hl (-> & Hid & Hv & Hc) Hcan Hz Hle.
  unfold transitionDeployment, readSnapshot, tx_bind, tx_some. rewrite Hl, Rehydrate_snapshotOf by done.
  unfold liftDeployment, tx_ret at 1. rewrite Transition_accepts by done.
  set (nxt := advance dep target (canonicalTime at_)).
  assert (Hvn : validate nxt = None) by by apply advance_valid.
  pose proof (valid_events_bound _ Hvn) as Hb.
  apply validate_None in Hv as Hv'. destruct Hv' as (Hi & Hk & Hc0 & Hu0 & Hcu & Hr & rest & He & Hve).
  apply validate_None in Hvn as Hvn'. destruct Hvn' as (_ & Hkn & _ & _ & Hcun & Hrn & _).
  unfold tx_ret at 1. rewrite (proj2 (Z.eqb_neq (revision nxt) (revision dep))) by (unfold nxt; simpl; lia).
  unfold saveTx, checkedSnapshot, tx_bind, liftDeployment, TakeSnapshot. rewrite Hvn.
  unfold tx_ret at 1. simpl snap_Revision. unfold postgresRevision, MaxInt64.
  rewrite (proj2 (Z.ltb_ge _ _)) by (simpl in *; lia). unfold tx_ret at 1. simpl.
  unfold readSnapshot, tx_some. rewrite Hid, Hl. simpl.
  rewrite bool_decide_true by done. simpl. rewrite Rehydrate_snapshotOf by done. simpl.
  rewrite matchingPrefix_app, (proj2 (Z.ltb_ge _ _)) by lia. simpl.
  rewrite (proj2 (Z.eqb_neq _ _)) by lia. simpl.
  unfold update_deployment_head, tx_bind. simpl.
  rewrite (proj2 (Z.ltb_lt 0 _)) by (simpl in *; lia).
  rewrite (proj2 (Z.leb_le _ _)) by (simpl in *; lia).
  pose proof (canTransition_known _ _ Hcan) as Hkk. apply andb_prop in Hkk as [_ Hkt].
  rewrite Hkt. simpl. rewrite Hid, Hr, Nat2Z.id, drop_app_length. simpl.
  unfold tx_bind, tx_some. simpl. rewrite lookup_insert_eq. simpl.
  unfold validate_deployment_event. simpl.
  destruct (valid_last dep Hv) as (e & Hlast & Hto & Hat). rewrite Hlast, Hto, Hat.
  rewrite (proj2 (Z.leb_le _ _)) by lia. rewrite bool_decide_true by done.
  rewrite sqlTransition_canTransition, Hcan. simpl. unfold put_deployment, tx_write. simpl.
  unfold tx_ret. do 2 f_equal. unfold set_deployments. simpl. f_equal.
  rewrite insert_insert_eq. f_equal. unfold with_events, snapshotOf, nxt, advance. simpl. by rewrite Hr.
Qed.

Lemma transitionDeployment_repeat id d s dep at_ :
  db_deployments d !! id = Some s → storedAs id s dep →
  transitionDeployment id (status dep) at_ d = inr (tt, d).
Proof.
  intros Hl (-> & Hid & Hv & Hc).
  unfold transitionDeployment, readSnapshot, tx_bind, tx_some. rewrite Hl, Rehydrate_snapshotOf by done.
  unfold liftDeployment, tx_ret at 1, Transition. rewrite Hv.
  apply validate_None in Hv as (_ & -> & _). simpl. rewrite bool_decide_true by done.
  unfold tx_ret. by rewrite Z.eqb_refl.
Qed.

(** Conversely, whatever [transitionDeployment] commits is one of the two. *)
Lemma transitionDeployment_inv id target at_ d u d' s dep :
  db_deployments d !! id = Some s → storedAs id s dep →
  transitionDeployment id target at_ d = inr (u, d') →
  (target = status dep ∧ d' = d) ∨
  (canTransition (status dep) target = true ∧ canonicalTime at_ ≠ 0 ∧ updatedAt dep ≤ canonicalTime at_ ∧
   d' = set_deployments (<[id := snapshotOf (advance dep target (canonicalTime at_))]> (db_deployments d)) d).
Proof.
  intros Hl Hs Ht. pose proof Hs as (-> & Hid & Hv & Hc). pose proof Ht as Ht'.
  unfold transitionDeployment, readSnapshot, tx_bind, tx_some in Ht.
  rewrite Hl, Rehydrate_snapshotOf in Ht by done. simpl in Ht.
  destruct (Transition dep target at_) as [|nxt] eqn:Etr; [done|]. simpl in Ht.
  apply Transition_inr in Etr as [_ [[-> ->]|(Hcan & Hz & Hle & ->)]].
  - left. split; [done|]. rewrite Z.eqb_refl in Ht. by injection Ht as _ ->.
  - right. split_and!; try done.
    rewrite (transitionDeployment_advance _ _ _ _ _ _ Hl Hs Hcan Hz Hle) in Ht'. by injection Ht' as _ <-.
Qed.

Lemma advance_stored id s dep to t :
  storedAs id s dep → canTransition (status dep) to = true → canonicalTime t ≠ 0 →
  updatedAt dep ≤ canonicalTime t →
  storedAs id (snapshotOf (advance dep to (canonicalTime t))) (advance dep to (canonicalTime t)).
Proof.
  intros (-> & Hid & Hv & Hc) Hcan Hz Hle. split_and!; try done.
  - by apply advance_valid.
  - apply advance_canonical; [done|]. apply canonicalTime_idemp.
Qed.
