(* ===== verification/LeaseCore.v ===== *)
(** * Shared pieces of the agent-lease repository
    (src/internal/store/postgres/agent_lease_repository.go and
    agent_lease_execution.go): credential checks, row locking, job events,
    the reconciliation block, closing an attempt, and the claim-time freeze.

    A transaction's row locks are held to commit, so a repository method is
    one atomic step over the database; [FOR UPDATE SKIP LOCKED] misses are
    inputs of the methods that use it.  [clock_timestamp()] is the argument
    [now]. *)
From S2P Require Import Prelude GoStd Deployment Queue Schema DeploymentStore.
From stdpp Require Import sorting.
#[local] Open Scope Z_scope.

Definition leaseDuration : Z := 90 * second.
Definition cancellationGrace : Z := 60 * second.
Definition claimDiscoveryPerJob : Z := 5.
Definition claimDiscoveryMax : Z := 200.
Definition expireBatchMaxLimit : Z := 100.

(** PostgreSQL stores microseconds. *)
Definition pgTime (t : Z) : Z := truncate t microsecond.

(** ** Authentication *)

Definition dummyCredentialDigest : string := Sum256 "autodeploy/server-repository/dummy-digest/v1".

Definition activeDigest (serverID : string) (d : DB) : option string :=
  cred_digest <$> head (filter (λ c, cred_server c = serverID ∧ cred_active c = true) (db_credentials d)).

Definition matchServerCredential (foundServer foundCredential : bool) (storedDigest presentedDigest : string) : bool :=
  let stored := if foundCredential then storedDigest else dummyCredentialDigest in
  foundServer && foundCredential && bool_decide (stored = presentedDigest).

(** What both authentication paths decide from the rows. *)
Definition credentialMatches (serverID presentedDigest : string) (d : DB) : bool :=
  let foundServer := match db_servers d !! serverID with Some s => srv_active s | None => false end in
  let storedDigest := if foundServer then activeDigest serverID d else None in
  matchServerCredential foundServer (isSomeb storedDigest) (default "" storedDigest) presentedDigest.

Definition lockActiveServerCredential (serverID presentedDigest : string) : Tx DB Err string :=
  let! ok := tx_read (credentialMatches serverID presentedDigest) in
  do! tx_guard ok ErrServerAuthorizationDenied in
  let! srv := tx_some (λ d, db_servers d !! serverID) ErrServerAuthorizationDenied in
  tx_ret (srv_owner srv).

Record Principal := {
  p_UserID : string; p_OwnerID : string; p_RoleOwner : bool; p_AuthRevision : Z; p_SessionID : string;
}.

Definition validPrincipal (p : Principal) : bool :=
  negb (bool_decide (p_UserID p = "")) && negb (bool_decide (p_OwnerID p = ""))
  && negb (bool_decide (p_SessionID p = "")) && negb (p_AuthRevision p =? 0) && p_RoleOwner p.

(** The WHERE clause of the session query. *)
Definition sessionLive (p : Principal) (now : Z) (s : SessionRow) : bool :=
  bool_decide (ses_user s = p_UserID p) && bool_decide (ses_owner s = p_OwnerID p)
  && (ses_auth_revision s =? p_AuthRevision p) && (ses_user_auth_revision s =? p_AuthRevision p)
  && ses_user_active s && negb (ses_revoked s)
  && (now <? ses_idle_expires s) && (now <? ses_absolute_expires s).

Definition lockAdministratorSession (p : Principal) (now : Z) : Tx DB Err unit :=
  do! tx_guard (validPrincipal p) ErrServerAuthorizationDenied in
  let! s := tx_some (λ d, db_sessions d !! p_SessionID p) ErrServerAuthorizationDenied in
  tx_guard (sessionLive p now s) ErrServerAuthorizationDenied.

Definition validReason (reason : string) : bool :=
  (slen reason <=? 512) && ValidString reason && forallBytes summaryByte reason.

Definition validOperationID (id : string) : bool := (1 <=? slen id) && (slen id <=? 128).

(** ** Events *)

Definition nextSequence (jobID : Z) (d : DB) : Z :=
  foldr Z.max 0 (e_sequence <$> filter (λ e, e_job e = jobID) (db_job_events d)) + 1.

Definition appendAgentJobEvent (jobID : Z) (attemptID : option Z) (eventType : EventType) : Tx DB Err unit :=
  let! sequence := tx_read (nextSequence jobID) in
  tx_write (λ d, set_logs (db_job_events d ++
      [{| e_job := jobID; e_sequence := sequence; e_type := eventType; e_attempt := attemptID |}])
    (db_route_events d) (db_audit d) d).

Definition insertServerAuditEvent (actor action reason : string) : Tx DB Err unit :=
  tx_write (λ d, set_logs (db_job_events d) (db_route_events d)
    (db_audit d ++ [{| au_actor := actor; au_action := action; au_reason := reason |}]) d).

(** [EXISTS(SELECT 1 FROM agent_job_events WHERE attempt_id AND event_type)] *)
Definition hasEvent (jobID attemptID : Z) (t : EventType) (d : DB) : bool :=
  existsb (λ e, (e_job e =? jobID) && bool_decide (e_attempt e = Some attemptID)
                && bool_decide (e_type e = t)) (db_job_events d).

(** ** Locking a lease's rows

    The prefix every agent-facing method shares: credential (SHARE), a
    non-locking look at the attempt to find its environment and job, then
    slot, job and attempt, with the ownership checks in between. *)
Definition lockLeaseRows (serverID presentedDigest : string) (attemptID : Z)
    : Tx DB Err (SlotRow * JobRow * AttemptRow) :=
  do! lockActiveServerCredential serverID presentedDigest in
  let! peek := tx_some (λ d, db_attempts d !! attemptID) ErrServerAuthorizationDenied in
  do! tx_guard (bool_decide (a_server peek = serverID)) ErrServerAuthorizationDenied in
  let! slot := tx_some (λ d, db_slots d !! a_env peek) ErrNoRows in
  let! job := tx_some (λ d, db_jobs d !! a_job peek) ErrNoRows in
  let! attempt := tx_some (λ d, db_attempts d !! attemptID) ErrNoRows in
  do! tx_guard (bool_decide (a_server attempt = serverID)) ErrServerAuthorizationDenied in
  tx_ret (slot, job, attempt).

(** ** Row updates, one per UPDATE statement *)

Definition a_set (a : AttemptRow) (st : AttemptState) (seq lease authority : Z) (deadline : option Z)
    (fc : option FailureClass) (op dg : option string) (closed : option Z) : AttemptRow :=
  {| a_job := a_job a; a_number := a_number a; a_server := a_server a; a_env := a_env a;
     a_fence := a_fence a; a_state := st; a_renewal_sequence := seq; a_lease_expires := lease;
     a_authority_expires := authority; a_cancel_deadline := deadline; a_failure_class := fc;
     a_result_operation := op; a_result_digest := dg; a_closed_at := closed |}.

Definition attempt_renew (sequence expires : Z) (a : AttemptRow) : AttemptRow :=
  a_set a (a_state a) sequence expires expires (a_cancel_deadline a) (a_failure_class a)
    (a_result_operation a) (a_result_digest a) (a_closed_at a).
Definition attempt_close (st : AttemptState) (now : Z) (a : AttemptRow) : AttemptRow :=
  a_set a st (a_renewal_sequence a) (a_lease_expires a) (a_authority_expires a) (a_cancel_deadline a)
    (a_failure_class a) (a_result_operation a) (a_result_digest a) (Some now).
Definition attempt_close_result (st : AttemptState) (now : Z) (fc : option FailureClass)
    (op dg : string) (a : AttemptRow) : AttemptRow :=
  a_set a st (a_renewal_sequence a) (a_lease_expires a) (a_authority_expires a) (a_cancel_deadline a)
    fc (Some op) (Some dg) (Some now).
Definition attempt_cap (deadline : Z) (a : AttemptRow) : AttemptRow :=
  a_set a (a_state a) (a_renewal_sequence a) (Z.min (a_lease_expires a) deadline)
    (Z.min (a_authority_expires a) deadline) (Some deadline) (a_failure_class a)
    (a_result_operation a) (a_result_digest a) (a_closed_at a).

Definition j_set (j : JobRow) (st : JobState) (avail : Z) (cancel : option Z) (count updated : Z) : JobRow :=
  {| j_owner := j_owner j; j_project := j_project j; j_env := j_env j; j_server := j_server j;
     j_deployment := j_deployment j; j_repository := j_repository j; j_ref := j_ref j;
     j_commit := j_commit j; j_priority := j_priority j; j_created_at := j_created_at j;
     j_state := st; j_available_at := avail; j_cancel_requested_at := cancel;
     j_attempt_count := count; j_updated_at := updated |}.

Definition job_lease (now : Z) (j : JobRow) : JobRow :=
  j_set j JobLeased (j_available_at j) (j_cancel_requested_at j) (j_attempt_count j + 1) now.
Definition job_retry (available now : Z) (j : JobRow) : JobRow :=
  j_set j JobRetryWait available (j_cancel_requested_at j) (j_attempt_count j) now.
Definition job_close (st : JobState) (now : Z) (j : JobRow) : JobRow :=
  j_set j st (j_available_at j) (j_cancel_requested_at j) (j_attempt_count j) now.
Definition job_cancel_now (now : Z) (j : JobRow) : JobRow :=
  j_set j JobCancelled (j_available_at j) (Some now) (j_attempt_count j) now.
Definition job_cancel_request (now : Z) (j : JobRow) : JobRow :=
  j_set j (j_state j) (j_available_at j) (Some now) (j_attempt_count j) now.
Definition isLeased (j : JobRow) : bool := bool_decide (j_state j = JobLeased).

Definition s_set (fence : Z) (cur : option Z) (rq : bool) (ra : option Z) (up : Z) : SlotRow :=
  {| s_fence := fence; s_current := cur; s_recon_required := rq; s_recon_attempt := ra; s_updated_at := up |}.
Definition slot_advance (now : Z) (s : SlotRow) : SlotRow :=
  s_set (s_fence s + 1) (s_current s) (s_recon_required s) (s_recon_attempt s) now.
Definition slot_occupy (attemptID now : Z) (s : SlotRow) : SlotRow :=
  s_set (s_fence s) (Some attemptID) (s_recon_required s) (s_recon_attempt s) now.
Definition slot_free (now : Z) (s : SlotRow) : SlotRow :=
  s_set (s_fence s) None (s_recon_required s) (s_recon_attempt s) now.
Definition slot_expire (attemptID now : Z) (s : SlotRow) : SlotRow :=
  s_set (s_fence s + 1) None true (Some attemptID) now.
Definition slot_flag (attemptID now : Z) (s : SlotRow) : SlotRow :=
  s_set (s_fence s) (s_current s) true (Some attemptID) now.
Definition slot_clear (now : Z) (s : SlotRow) : SlotRow :=
  s_set (s_fence s) (s_current s) false None now.
Definition slot_free_clear (now : Z) (s : SlotRow) : SlotRow :=
  s_set (s_fence s) None false None now.
Definition occupiedBy (attemptID : Z) (s : SlotRow) : bool := bool_decide (s_current s = Some attemptID).

Definition op_set (o : OpRow) (st : OpState) (summary : string) (closed : option Z) : OpRow :=
  {| o_release := o_release o; o_job := o_job o; o_attempt := o_attempt o; o_fence := o_fence o;
     o_digest := o_digest o; o_env := o_env o; o_expected_active := o_expected_active o;
     o_expected_revision := o_expected_revision o; o_route_digest := o_route_digest o;
     o_state := st; o_summary := summary; o_closed_at := closed |}.

Definition head_flag (flag : bool) (now : Z) (h : HeadRow) : HeadRow :=
  {| h_hostname := h_hostname h; h_revision := h_revision h; h_active := h_active h;
     h_recon_required := flag; h_updated_at := Z.max (h_updated_at h) now |}.

(** Rows affected must be one. *)
Definition expectRow (m : Tx DB Err bool) (e : Err) : Tx DB Err unit :=
  let! affected := m in tx_guard affected e.
(** The row count is ignored. *)
Definition execute (m : Tx DB Err bool) : Tx DB Err unit := let! _ := m in tx_ret tt.
Definition anyRow {A} (_ : A) : bool := true.

Lemma rel_expectRow R `{!PreOrder R} m e : tx_rel R m → tx_rel R (expectRow m e).
Proof. intros Hm. unfold expectRow. tx_rel. Qed.
Lemma rel_execute R `{!PreOrder R} m : tx_rel R m → tx_rel R (execute m).
Proof. intros Hm. unfold execute. tx_rel. Qed.
#[export] Hint Resolve rel_expectRow rel_execute : txrel.

(** ** The reconciliation block *)

Definition blockActivationForReconciliation (jobID attemptID operationID : Z) (environmentID summary : string)
    (now : Z) : Tx DB Err unit :=
  let! head := tx_read (λ d, db_heads d !! environmentID) in
  do! expectRow (update_op operationID (λ o, bool_decide (o_state o = OpSwitchAuthorized))
        (λ o, op_set o OpReconciliationRequired summary (Some now))) ErrAgentLeaseStale in
  do! match head with
      | Some h =>
          if h_recon_required h then tx_ret tt
          else expectRow (update_head environmentID (λ h, negb (h_recon_required h)) (head_flag true now))
                 ErrAgentLeaseCorruptState
      | None => tx_ret tt
      end in
  do! expectRow (update_slot environmentID anyRow (slot_flag attemptID now)) ErrAgentLeaseCorruptState in
  appendAgentJobEvent jobID (Some attemptID) EvActivationReconciliationRequired.

Definition activationBlockedByAuthorityEndSummary : string :=
  "attempt authority ended (expired or server revoked) while the activation was unresolved; live traffic may already have switched; operator reconciliation required".

(** The row of a query on [release_operations]: at most one row can match the
    queries below, by the unique index or because an attempt activates once. *)
Definition find_op (P : OpRow → bool) (d : DB) : option (Z * OpRow) :=
  head (filter (λ kv, P kv.2 = true) (map_to_list (db_ops d))).

Definition unresolvedOfAttempt (attemptID : Z) (environmentID : string) (o : OpRow) : bool :=
  (o_attempt o =? attemptID) && bool_decide (o_env o = environmentID) && unresolvedActivation (o_state o).

Definition divertUnresolvedActivation (jobID attemptID : Z) (environmentID : string) (now : Z) : Tx DB Err bool :=
  let! found := tx_read (find_op (unresolvedOfAttempt attemptID environmentID)) in
  match found with
  | None => tx_ret false
  | Some (operationID, o) =>
      if negb (bool_decide (o_state o = OpSwitchAuthorized)) then tx_ret true
      else
        do! blockActivationForReconciliation jobID attemptID operationID environmentID
              activationBlockedByAuthorityEndSummary now in
        tx_ret true
  end.

(** ** Closing an attempt whose authority ended *)

Definition closeAttemptOrdinary (jobID attemptID : Z) (environmentID : string) (attemptNumber : Z)
    (deploymentID : string) (cancelRequested : bool) (now draw : Z) : Tx DB Err unit :=
  let closedState := if cancelRequested then AttemptCancelled else AttemptExpired in
  do! execute (update_attempt attemptID anyRow (attempt_close closedState now)) in
  do! execute (update_slot environmentID anyRow (slot_expire attemptID now)) in
  let jobState := if cancelRequested then JobCancelled
                  else if MaxAttempts <=? attemptNumber then JobDead else JobRetryWait in
  do! (if bool_decide (jobState = JobRetryWait)
       then execute (update_job jobID isLeased (job_retry (pgTime (now + FullJitterDelay attemptNumber draw)) now))
       else execute (update_job jobID isLeased (job_close jobState now))) in
  do! (if bool_decide (jobState = JobCancelled) then transitionDeployment deploymentID StatusCancelled now
       else if bool_decide (jobState = JobDead) then transitionDeployment deploymentID StatusFailed now
       else tx_ret tt) in
  do! appendAgentJobEvent jobID (Some attemptID) (if cancelRequested then EvCancelled else EvExpired) in
  if cancelRequested then tx_ret tt
  else match jobState with
  | JobRetryWait => appendAgentJobEvent jobID (Some attemptID) EvRetryScheduled
  | JobDead => appendAgentJobEvent jobID (Some attemptID) EvDead
  | _ => tx_ret tt
  end.

(** The result is [diverted]. *)
Definition closeExpiredOrRevokedAttempt (jobID attemptID : Z) (environmentID : string) (attemptNumber : Z)
    (deploymentID : string) (cancelRequested : bool) (now draw : Z) : Tx DB Err bool :=
  let! diverted := divertUnresolvedActivation jobID attemptID environmentID now in
  if diverted then tx_ret true
  else
    do! closeAttemptOrdinary jobID attemptID environmentID attemptNumber deploymentID cancelRequested now draw in
    tx_ret false.

(** ** The claim-time freeze (agent_lease_execution.go) *)

#[global] Instance string_le_dec (a b : string) : Decision (String.leb a b = true) := decide _.

Definition bindingLe (a b : frozenBinding) : Prop := String.leb (fb_variable a) (fb_variable b) = true.
Definition literalLe (a b : frozenLiteral) : Prop := String.leb (fl_variable a) (fl_variable b) = true.
#[global] Instance bindingLe_dec a b : Decision (bindingLe a b) := decide _.
#[global] Instance literalLe_dec a b : Decision (literalLe a b) := decide _.

(** The JOIN of one secret binding with its head and active version. *)
Definition resolveSecret (d : DB) (b : BindingRow) : option frozenBinding :=
  match b_target b with
  | BindSecret h =>
      match db_secret_heads d !! h with
      | Some (Some v) =>
          match db_secret_versions d !! v with
          | Some VersionActive => Some {| fb_variable := b_variable b; fb_scope := b_scope b; fb_version := v |}
          | _ => None
          end
      | _ => None
      end
  | BindLiteral _ => None
  end.
Definition isSecretBinding (b : BindingRow) : bool := match b_target b with BindSecret _ => true | _ => false end.

(** [None] is the [ok=false] answer. *)
Definition resolveRuntimeSecretBindings (environmentID : string) (d : DB) : option (list frozenBinding) :=
  let rows := default [] (db_bindings d !! environmentID) in
  let total := length (filter (λ b, isSecretBinding b = true) rows) in
  let bindings := merge_sort bindingLe (omap (resolveSecret d) rows) in
  if negb (length bindings =? total)%nat then None else Some bindings.

(** The scan loop over the literal rows: a NULL value fails the candidate. *)
Fixpoint scanLiterals (rows : list BindingRow) : option (list frozenLiteral) :=
  match rows with
  | [] => Some []
  | b :: rows' =>
      match b_target b with
      | BindLiteral (Some v) =>
          match scanLiterals rows' with
          | Some ls => Some ({| fl_variable := b_variable b; fl_scope := b_scope b; fl_value := v |} :: ls)
          | None => None
          end
      | BindLiteral None => None
      | BindSecret _ => scanLiterals rows'
      end
  end.
Definition resolveRuntimeLiteralBindings (environmentID : string) (d : DB) : option (list frozenLiteral) :=
  let rows := default [] (db_bindings d !! environmentID) in
  let total := length (filter (λ b, isSecretBinding b = false) rows) in
  match scanLiterals rows with
  | None => None
  | Some ls => let ls := merge_sort literalLe ls in
               if negb (length ls =? total)%nat then None else Some ls
  end.

Definition insertAttemptExecution (attemptID : Z) (cfg : frozenExecutionSnapshot) : Tx DB Err unit := λ d,
  match db_execution d !! attemptID with
  | Some _ => inl (ErrPg PgUniqueViolation)
  | None => inr (tt, set_frozen (<[attemptID := cfg]> (db_execution d)) (db_frozen_secrets d) (db_frozen_literals d) d)
  end.
Definition insertFrozenSecretVersions (attemptID : Z) (bs : list frozenBinding) : Tx DB Err unit :=
  tx_write (λ d, set_frozen (db_execution d)
    (<[attemptID := default [] (db_frozen_secrets d !! attemptID) ++ bs]> (db_frozen_secrets d))
    (db_frozen_literals d) d).
Definition insertFrozenLiteralValues (attemptID : Z) (ls : list frozenLiteral) : Tx DB Err unit :=
  tx_write (λ d, set_frozen (db_execution d) (db_frozen_secrets d)
    (<[attemptID := default [] (db_frozen_literals d !! attemptID) ++ ls]> (db_frozen_literals d)) d).

Definition copyPreviousAttemptExecution (newAttemptID prevAttemptID : Z) : Tx DB Err frozenExecutionSnapshot :=
  let! cfg := tx_some (λ d, db_execution d !! prevAttemptID) ErrNoRows in
  do! insertAttemptExecution newAttemptID cfg in tx_ret cfg.
Definition copyPreviousFrozenSecretVersions (newAttemptID prevAttemptID : Z) : Tx DB Err (list frozenBinding) :=
  let! bs := tx_read (λ d, merge_sort bindingLe (default [] (db_frozen_secrets d !! prevAttemptID))) in
  do! insertFrozenSecretVersions newAttemptID bs in tx_ret bs.
Definition copyPreviousFrozenLiteralValues (newAttemptID prevAttemptID : Z) : Tx DB Err (list frozenLiteral) :=
  let! ls := tx_read (λ d, merge_sort literalLe (default [] (db_frozen_literals d !! prevAttemptID))) in
  do! insertFrozenLiteralValues newAttemptID ls in tx_ret ls.

(** The parts [computeConfigDigest] hashes, in order. *)
Definition configParts (cfg : frozenExecutionSnapshot) (bs : list frozenBinding) (ls : list frozenLiteral) : list string :=
  let sorted := merge_sort bindingLe bs in
  let sortedLiterals := merge_sort literalLe ls in
  ["3"; FormatInt (ContainerPort cfg); ContainerScheme cfg; ReleaseStrategy cfg;
   FormatInt (DrainSeconds cfg); FormatInt (HealthPolicyRevision cfg); FormatInt (CPUMillis cfg);
   FormatInt (MemoryBytes cfg); RestartPolicy cfg; HealthGatePath cfg; HealthGateHost cfg;
   FormatInt (ConfigRevision cfg); FormatInt (Z.of_nat (length sorted))]
  ++ mjoin ((λ b, [fb_variable b; fb_scope b; fb_version b]) <$> sorted)
  ++ [FormatInt (Z.of_nat (length sortedLiterals))]
  ++ mjoin ((λ l, [fl_variable l; fl_scope l; fl_value l]) <$> sortedLiterals).

Definition computeConfigDigest (cfg : frozenExecutionSnapshot) (bs : list frozenBinding) (ls : list frozenLiteral) : string :=
  Sum256 (lengthPrefixed (configParts cfg bs ls)).

(** releases is keyed by id; [WHERE deployment_id=$1] is the UNIQUE column. *)
Definition release_of_deployment (deploymentID : string) (d : DB) : option (string * ReleaseRow) :=
  head (filter (λ kv, rel_deployment kv.2 = deploymentID) (map_to_list (db_releases d))).

Definition ensureRelease (deploymentID environmentID commitSHA strategy configDigest : string) (now : Z) : Tx DB Err string :=
  let releaseID := deploymentID in
  let! existing := tx_read (release_of_deployment deploymentID) in
  match existing with
  | None =>
      let! clash := tx_read (λ d, isSomeb (db_releases d !! releaseID)) in
      do! tx_guard (negb clash) (ErrPg PgUniqueViolation) in
      do! tx_write (λ d, set_releases (<[releaseID :=
            {| rel_deployment := deploymentID; rel_env := environmentID; rel_config_digest := configDigest;
               rel_commit := commitSHA; rel_strategy := strategy; rel_image_digest := None;
               rel_state := ReleaseCandidate; rel_updated_at := now |}]> (db_releases d)) d) in
      tx_ret releaseID
  | Some (_, r) =>
      do! tx_guard (bool_decide (rel_config_digest r = configDigest)) ErrAgentLeaseCorruptState in
      tx_ret releaseID
  end.
