(* ===== verification/Lease.v ===== *)
(** * The agent-lease repository's operations
    (src/internal/store/postgres/agent_lease_repository.go,
    agent_lease_materialize.go): Claim, Renew, Complete, RequestCancellation,
    AcknowledgeCancellation, ExpireBatch, Reconcile, MarkReconciled,
    ReportProgress, AuthorizeCheckout and the revocation sweep.

    Every [..Tx] body is the code between BeginTx and Commit; the operation
    itself is [run_tx] of it, so a failed body leaves the database as it was. *)
From S2P Require Import Prelude GoStd Deployment Queue Schema DeploymentStore LeaseCore.
From stdpp Require Import sorting.
#[local] Open Scope Z_scope.

(** ** Claim *)

Record agentLeaseCandidate := { c_jobID : Z; c_environmentID : string }.

(** [queue.ClaimedLease] *)
Record ClaimedLease := {
  cl_JobID : Z; cl_AttemptID : Z; cl_AttemptNumber : Z; cl_Fence : Z;
  cl_OwnerID : string; cl_ProjectID : string; cl_EnvironmentID : string; cl_DeploymentID : string;
  cl_RepositoryID : Z; cl_Ref : string; cl_CommitSHA : string;
  cl_LeaseExpiresAt : Z; cl_AuthorityExpiresAt : Z;
  cl_Config : frozenExecutionSnapshot; cl_ReleaseID : string;
  cl_SecretBindings : list frozenBinding; cl_LiteralBindings : list frozenLiteral;
}.

(** Which rows another transaction holds when a [SKIP LOCKED] read runs. *)
Record Locked := { lk_slot : string → bool; lk_job : Z → bool; lk_attempt : Z → bool }.
Definition nothingLocked : Locked :=
  {| lk_slot := λ _, false; lk_job := λ _, false; lk_attempt := λ _, false |}.

(** [SELECT ... FOR UPDATE SKIP LOCKED]: no row when missing or locked. *)
Definition skipLocked {A} (locked : bool) (row : option A) : option A := if locked then None else row.

(** The freeze of [tryClaim], after the attempt row exists. *)
Definition freezeAttempt (plannedAttemptNumber attemptID prevAttemptID : Z) (runtimeConfig : frozenExecutionSnapshot)
    (freshBindings : list frozenBinding) (freshLiterals : list frozenLiteral)
    : Tx DB Err (frozenExecutionSnapshot * list frozenBinding * list frozenLiteral) :=
  if plannedAttemptNumber =? 1 then
    do! insertAttemptExecution attemptID runtimeConfig in
    do! insertFrozenSecretVersions attemptID freshBindings in
    do! insertFrozenLiteralValues attemptID freshLiterals in
    tx_ret (runtimeConfig, freshBindings, freshLiterals)
  else
    let! cfg := copyPreviousAttemptExecution attemptID prevAttemptID in
    let! bs := copyPreviousFrozenSecretVersions attemptID prevAttemptID in
    let! ls := copyPreviousFrozenLiteralValues attemptID prevAttemptID in
    tx_ret (cfg, bs, ls).

(** The id of attempt [n] of a job. *)
Definition attempt_of_job (jobID n : Z) (d : DB) : option Z :=
  fst <$> head (filter (λ kv, a_job kv.2 = jobID ∧ a_number kv.2 = n) (map_to_list (db_attempts d))).

(** The writes of [tryClaim]: fence, job, attempt, slot, deployment, freeze,
    release, event.  Leasing a job already at the attempt ceiling raises a
    check violation, which Go answers with [ok=false]; PostgreSQL has then
    aborted the transaction, so the next statement (or the commit) fails and
    with it the whole Claim.  The other [ok=false], no row matching the job
    UPDATE, cannot happen after [claimChecks]: the row has just been read
    under its lock with the same state. *)
Definition claimWrites (serverID : string) (jobID : Z) (environmentID : string) (job : JobRow)
    (prevAttemptID : Z) (runtimeConfig : frozenExecutionSnapshot)
    (freshBindings : list frozenBinding) (freshLiterals : list frozenLiteral)
    (now : Z) : Tx DB Err ClaimedLease :=
  let leaseExpiresAt := now + leaseDuration in
  let plannedAttemptNumber := j_attempt_count job + 1 in
  do! expectRow (update_slot environmentID anyRow (slot_advance now)) ErrNoRows in
  let! slot := tx_some (λ d, db_slots d !! environmentID) ErrNoRows in
  let newFence := s_fence slot in
  do! expectRow (λ d, match update_job jobID (λ j, bool_decide (j_state j = j_state job)) (job_lease now) d with
                      | inl (ErrPg PgCheckViolation) => inl (ErrPg PgInFailedTransaction)
                      | r => r
                      end) (ErrPg PgInFailedTransaction) in
  let! leased := tx_some (λ d, db_jobs d !! jobID) ErrNoRows in
  let attemptNumber := j_attempt_count leased in
  let! attemptID := insert_attempt
    {| a_job := jobID; a_number := attemptNumber; a_server := serverID; a_env := environmentID;
       a_fence := newFence; a_state := AttemptLeased; a_renewal_sequence := 0;
       a_lease_expires := leaseExpiresAt; a_authority_expires := leaseExpiresAt;
       a_cancel_deadline := None; a_failure_class := None; a_result_operation := None;
       a_result_digest := None; a_closed_at := None |} in
  do! execute (update_slot environmentID anyRow (slot_occupy attemptID now)) in
  do! (if attemptNumber =? 1 then transitionDeployment (j_deployment job) StatusAssigned now else tx_ret tt) in
  let! frozen := freezeAttempt plannedAttemptNumber attemptID prevAttemptID runtimeConfig freshBindings freshLiterals in
  let '(cfg, bs, ls) := frozen in
  let! releaseID := ensureRelease (j_deployment job) environmentID (j_commit job) (ReleaseStrategy cfg)
                      (computeConfigDigest cfg bs ls) now in
  do! appendAgentJobEvent jobID (Some attemptID) EvClaimed in
  tx_ret {| cl_JobID := jobID; cl_AttemptID := attemptID; cl_AttemptNumber := attemptNumber;
            cl_Fence := newFence; cl_OwnerID := j_owner job; cl_ProjectID := j_project job;
            cl_EnvironmentID := environmentID; cl_DeploymentID := j_deployment job;
            cl_RepositoryID := j_repository job; cl_Ref := j_ref job; cl_CommitSHA := j_commit job;
            cl_LeaseExpiresAt := leaseExpiresAt; cl_AuthorityExpiresAt := leaseExpiresAt;
            cl_Config := cfg; cl_ReleaseID := releaseID; cl_SecretBindings := bs; cl_LiteralBindings := ls |}.

(** The checks of [tryClaim] before its first write: [inr None] is
    [ok=false]. *)
Definition claimChecks (lk : Locked) (serverID : string) (jobID : Z) (environmentID : string) (now : Z) (d : DB)
    : Err + option (JobRow * Z * frozenExecutionSnapshot * list frozenBinding * list frozenLiteral) :=
  match db_configs d !! environmentID with
  | None => inr None
  | Some cfg =>
  match skipLocked (lk_slot lk environmentID) (db_slots d !! environmentID) with
  | None => inr None
  | Some slot =>
  if isSomeb (s_current slot) || s_recon_required slot then inr None else
  match skipLocked (lk_job lk jobID) (db_jobs d !! jobID) with
  | None => inr None
  | Some job =>
  if negb (bool_decide (j_env job = environmentID)) || negb (bool_decide (j_server job = serverID)) then inr None
  else if negb (bool_decide (j_state job ∈ [JobQueued; JobRetryWait])) || (now <? j_available_at job)
          || isSomeb (j_cancel_requested_at job) then inr None
  else if j_attempt_count job + 1 =? 1 then
    match resolveRuntimeSecretBindings environmentID d, resolveRuntimeLiteralBindings environmentID d with
    | Some bs, Some ls => inr (Some (job, 0, cfg, bs, ls))
    | _, _ => inr None
    end
  else match attempt_of_job jobID (j_attempt_count job) d with
       | None => inl ErrAgentLeaseCorruptState
       | Some prev => inr (Some (job, prev, cfg, [], []))
       end
  end end end.

Definition tryClaim (lk : Locked) (serverID : string) (jobID : Z) (environmentID : string) (now : Z)
    : Tx DB Err (option ClaimedLease) := λ d,
  match claimChecks lk serverID jobID environmentID now d with
  | inl e => inl e
  | inr None => inr (None, d)
  | inr (Some (job, prev, cfg, bs, ls)) =>
      tx_bind (claimWrites serverID jobID environmentID job prev cfg bs ls now) (λ l, tx_ret (Some l)) d
  end.

(** The candidate loop, [claimed] counting the leases already taken. *)
Fixpoint claimLoop (lk : Locked) (serverID : string) (limit now : Z) (claimed : list ClaimedLease)
    (candidates : list agentLeaseCandidate) : Tx DB Err (list ClaimedLease) :=
  match candidates with
  | [] => tx_ret claimed
  | c :: cs =>
      if limit <=? Z.of_nat (length claimed) then tx_ret claimed
      else
        let! r := tryClaim lk serverID (c_jobID c) (c_environmentID c) now in
        claimLoop lk serverID limit now (match r with Some l => claimed ++ [l] | None => claimed end) cs
  end.

Definition claimTx (lk : Locked) (serverID presentedDigest : string) (limit now : Z)
    (candidates : list agentLeaseCandidate) : Tx DB Err (list ClaimedLease) :=
  do! lockActiveServerCredential serverID presentedDigest in
  claimLoop lk serverID limit now [] candidates.

(** Non-locking discovery: runnable jobs of the server in claim order. *)
Definition claimOrder (x y : Z * JobRow) : Prop :=
  j_priority y.2 < j_priority x.2 ∨ (j_priority y.2 = j_priority x.2 ∧
  (j_available_at x.2 < j_available_at y.2 ∨ (j_available_at x.2 = j_available_at y.2 ∧
  (j_created_at x.2 < j_created_at y.2 ∨ (j_created_at x.2 = j_created_at y.2 ∧ x.1 ≤ y.1))))).
#[global] Instance claimOrder_dec x y : Decision (claimOrder x y) := decide _.

Definition runnable (serverID : string) (now : Z) (j : JobRow) : bool :=
  bool_decide (j_server j = serverID) && bool_decide (j_state j ∈ [JobQueued; JobRetryWait])
  && (j_available_at j <=? now).

Definition discoverCandidates (serverID : string) (now limit : Z) (d : DB) : list agentLeaseCandidate :=
  (λ kv, {| c_jobID := kv.1; c_environmentID := j_env kv.2 |}) <$>
  take (Z.to_nat limit)
    (merge_sort claimOrder (filter (λ kv, runnable serverID now kv.2 = true) (map_to_list (db_jobs d)))).

(** [sort.Strings] of the distinct environments, in any order of first
    occurrence. *)
Definition sortedDistinctEnvironments (candidates : list agentLeaseCandidate) : list string :=
  merge_sort (λ a b, String.leb a b = true) (remove_dups (c_environmentID <$> candidates)).

(** [INSERT INTO environment_slots ... ON CONFLICT DO NOTHING] *)
Definition ensureSlots (now : Z) (envs : list string) (d : DB) : DB :=
  set_slots (foldl (λ m e, match m !! e with
                           | Some _ => m
                           | None => <[e := {| s_fence := 0; s_current := None; s_recon_required := false;
                                               s_recon_attempt := None; s_updated_at := now |}]> m
                           end) (db_slots d) envs) d.

(** The whole call, with the clock readings of discovery and of the claim
    transaction; concurrent transactions may run between its three parts,
    which the step relation below allows. *)
Definition Claim (lk : Locked) (serverID presentedDigest : string) (limit discoveryNow now : Z) (d : DB)
    : (Err + list ClaimedLease) * DB :=
  if limit <=? 0 then (inr [], d)
  else if negb (ValidOpaqueID serverID) then (inl ErrServerAuthorizationDenied, d)
  else
    let limit := if 50 <? limit then 50 else limit in
    if negb (credentialMatches serverID presentedDigest d) then (inl ErrServerAuthorizationDenied, d)
    else
      let discoveryLimit := Z.min (limit * claimDiscoveryPerJob) claimDiscoveryMax in
      let candidates := discoverCandidates serverID discoveryNow discoveryLimit d in
      let d1 := ensureSlots discoveryNow (sortedDistinctEnvironments candidates) d in
      run_tx (claimTx lk serverID presentedDigest limit now candidates) d1.

(** ** Renew *)

Record RenewalResult := { rr_LeaseExpiresAt : Z; rr_AuthorityExpiresAt : Z; rr_CancelRequested : bool }.

Definition renewTx (serverID presentedDigest : string) (attemptID fence sequence now : Z) : Tx DB Err RenewalResult :=
  do! tx_guard (ValidOpaqueID serverID && (0 <? attemptID) && (0 <? fence) && (0 <=? sequence))
        ErrServerAuthorizationDenied in
  let! rows := lockLeaseRows serverID presentedDigest attemptID in
  let '(slot, job, a) := rows in
  do! tx_guard (negb (negb (bool_decide (a_state a = AttemptLeased)) || negb (a_fence a =? fence)
                      || negb (s_fence slot =? fence) || negb (occupiedBy attemptID slot)
                      || negb (now <? a_authority_expires a)))
        ErrAgentLeaseStale in
  let cancelRequested := isSomeb (j_cancel_requested_at job) in
  if sequence =? a_renewal_sequence a then
    tx_ret {| rr_LeaseExpiresAt := a_lease_expires a; rr_AuthorityExpiresAt := a_authority_expires a;
              rr_CancelRequested := cancelRequested |}
  else
    do! tx_guard (sequence =? a_renewal_sequence a + 1) ErrAgentLeaseStale in
    let newExpiresAt := match a_cancel_deadline a with
                        | Some dl => if dl <? now + leaseDuration then dl else now + leaseDuration
                        | None => now + leaseDuration
                        end in
    do! execute (update_attempt attemptID anyRow (attempt_renew sequence newExpiresAt)) in
    tx_ret {| rr_LeaseExpiresAt := newExpiresAt; rr_AuthorityExpiresAt := newExpiresAt;
              rr_CancelRequested := cancelRequested |}.

Definition Renew (serverID presentedDigest : string) (attemptID fence sequence now : Z) (d : DB) :=
  run_tx (renewTx serverID presentedDigest attemptID fence sequence now) d.

(** ** Complete *)

Inductive CompletionOutcome := CompletionSucceeded | CompletionFailed.
#[global] Instance CompletionOutcome_eq_dec : EqDecision CompletionOutcome.
Proof. solve_decision. Defined.

(** [outcome] and [failureClass] as received: both are strings in Go. *)
Definition parseCompletion (outcome failureClass : string) : option (CompletionOutcome * option FailureClass) :=
  if bool_decide (outcome = "succeeded") then
    if negb (bool_decide (failureClass = "")) then None else Some (CompletionSucceeded, None)
  else if bool_decide (outcome = "failed") then
    match parseFailureClass failureClass with
    | Some c => Some (CompletionFailed, Some c)
    | None => None
    end
  else None.

Definition newJobStateOf (outcome : CompletionOutcome) (fc : option FailureClass) (attemptNumber : Z) : JobState :=
  match outcome, fc with
  | CompletionSucceeded, _ => JobSucceeded
  | CompletionFailed, Some c =>
      if Retryable c && (attemptNumber <? MaxAttempts) then JobRetryWait
      else if Retryable c then JobDead else JobFailed
  | CompletionFailed, None => JobFailed
  end.

Definition closedStateOf (outcome : CompletionOutcome) : AttemptState :=
  match outcome with CompletionSucceeded => AttemptSucceeded | CompletionFailed => AttemptFailed end.

Definition completionEvent (s : JobState) : EventType :=
  match s with
  | JobFailed => EvFailed
  | JobRetryWait => EvRetryScheduled
  | JobDead => EvDead
  | _ => EvSucceeded
  end.

(** [EXISTS (SELECT 1 FROM release_operations WHERE attempt_id AND fence AND
    unresolved)] *)
Definition activationOpen (attemptID fence : Z) (d : DB) : bool :=
  isSomeb (find_op (λ o, (o_attempt o =? attemptID) && (o_fence o =? fence) && unresolvedActivation (o_state o)) d).

Definition completeWrites (jobID attemptID : Z) (environmentID deploymentID : string) (attemptNumber : Z)
    (outcome : CompletionOutcome) (fc : option FailureClass) (operationID resultDigest : string)
    (now draw : Z) : Tx DB Err unit :=
  do! execute (update_attempt attemptID anyRow
        (attempt_close_result (closedStateOf outcome) now fc operationID resultDigest)) in
  do! execute (update_slot environmentID (occupiedBy attemptID) (slot_free now)) in
  let newJobState := newJobStateOf outcome fc attemptNumber in
  do! (if bool_decide (newJobState = JobRetryWait)
       then execute (update_job jobID isLeased (job_retry (pgTime (now + FullJitterDelay attemptNumber draw)) now))
       else execute (update_job jobID isLeased (job_close newJobState now))) in
  do! (if bool_decide (newJobState ∈ [JobDead; JobFailed])
       then transitionDeployment deploymentID StatusFailed now else tx_ret tt) in
  appendAgentJobEvent jobID (Some attemptID) (completionEvent newJobState).

Definition completeTx (serverID presentedDigest : string) (attemptID fence : Z) (outcomeS failureClassS : string)
    (operationID resultDigest : string) (now draw : Z) : Tx DB Err unit :=
  do! tx_guard (ValidOpaqueID serverID && (0 <? attemptID) && (0 <? fence) && validOperationID operationID)
        ErrAgentLeaseInvalidInput in
  match parseCompletion outcomeS failureClassS with
  | None => tx_fail ErrAgentLeaseInvalidInput
  | Some (outcome, fc) =>
      let! rows := lockLeaseRows serverID presentedDigest attemptID in
      let '(slot, job, a) := rows in
      if negb (bool_decide (a_state a = AttemptLeased)) then
        match a_result_operation a with
        | None => tx_fail ErrAgentLeaseStale
        | Some storedOperationID =>
            tx_guard (bool_decide (a_state a = closedStateOf outcome)
                      && bool_decide (storedOperationID = operationID)
                      && bool_decide (a_result_digest a = Some resultDigest)
                      && bool_decide (a_failure_class a = fc))
              ErrAgentLeaseIntegrityConflict
        end
      else
        let! isOpen := tx_read (activationOpen attemptID fence) in
        do! tx_guard (negb isOpen) ErrAgentLeaseActivationOpen in
        do! tx_guard (negb (negb (a_fence a =? fence) || negb (s_fence slot =? fence)
                            || negb (occupiedBy attemptID slot) || negb (now <? a_authority_expires a)))
              ErrAgentLeaseStale in
        completeWrites (a_job a) attemptID (a_env a) (j_deployment job) (a_number a)
          outcome fc operationID resultDigest now draw
  end.

Definition Complete (serverID presentedDigest : string) (attemptID fence : Z) (outcomeS failureClassS : string)
    (operationID resultDigest : string) (now draw : Z) (d : DB) :=
  run_tx (completeTx serverID presentedDigest attemptID fence outcomeS failureClassS operationID resultDigest now draw) d.

(** ** Cancellation *)

Definition leased_attempt_of_job (jobID : Z) (d : DB) : option Z :=
  fst <$> head (filter (λ kv, a_job kv.2 = jobID ∧ a_state kv.2 = AttemptLeased) (map_to_list (db_attempts d))).

Definition requestCancellationTx (p : Principal) (jobID now : Z) : Tx DB Err unit :=
  do! tx_guard (validPrincipal p && (0 <? jobID)) ErrServerAuthorizationDenied in
  do! lockAdministratorSession p now in
  let! job := tx_some (λ d, db_jobs d !! jobID) ErrServerAuthorizationDenied in
  do! tx_guard (bool_decide (j_owner job = p_OwnerID p)) ErrServerAuthorizationDenied in
  match j_state job with
  | JobCancelled => tx_ret tt
  | JobSucceeded | JobFailed | JobDead => tx_fail ErrAgentJobTerminal
  | JobQueued | JobRetryWait =>
      do! execute (update_job jobID anyRow (job_cancel_now now)) in
      do! transitionDeployment (j_deployment job) StatusCancelled now in
      appendAgentJobEvent jobID None EvCancelled
  | JobLeased =>
      if isSomeb (j_cancel_requested_at job) then tx_ret tt
      else
        let! attemptID := tx_some (leased_attempt_of_job jobID) ErrNoRows in
        let! dep := tx_some (λ d, db_deployments d !! j_deployment job) ErrNoRows in
        do! tx_guard (negb (bool_decide (snap_Status dep = StatusActivating))) ErrAgentJobActivating in
        do! execute (update_job jobID anyRow (job_cancel_request now)) in
        do! execute (update_attempt attemptID anyRow (attempt_cap (now + cancellationGrace))) in
        appendAgentJobEvent jobID (Some attemptID) EvCancelRequested
  end.

Definition RequestCancellation (p : Principal) (jobID now : Z) (d : DB) :=
  run_tx (requestCancellationTx p jobID now) d.

Definition acknowledgeWrites (jobID attemptID : Z) (environmentID deploymentID operationID resultDigest : string)
    (now : Z) : Tx DB Err unit :=
  do! execute (update_attempt attemptID anyRow
        (λ a, attempt_close_result AttemptCancelled now (a_failure_class a) operationID resultDigest a)) in
  do! execute (update_slot environmentID (occupiedBy attemptID) (slot_free now)) in
  do! execute (update_job jobID isLeased (job_close JobCancelled now)) in
  do! transitionDeployment deploymentID StatusCancelled now in
  appendAgentJobEvent jobID (Some attemptID) EvCancelled.

Definition acknowledgeCancellationTx (serverID presentedDigest : string) (attemptID fence : Z)
    (operationID resultDigest : string) (now : Z) : Tx DB Err unit :=
  do! tx_guard (ValidOpaqueID serverID && (0 <? attemptID) && (0 <? fence) && validOperationID operationID)
        ErrAgentLeaseInvalidInput in
  let! rows := lockLeaseRows serverID presentedDigest attemptID in
  let '(slot, job, a) := rows in
  if negb (bool_decide (a_state a = AttemptLeased)) then
    match a_result_operation a with
    | None => tx_fail ErrAgentLeaseStale
    | Some storedOperationID =>
        tx_guard (bool_decide (a_state a = AttemptCancelled) && bool_decide (storedOperationID = operationID)
                  && bool_decide (a_result_digest a = Some resultDigest))
          ErrAgentLeaseIntegrityConflict
    end
  else
    do! tx_guard (isSomeb (j_cancel_requested_at job)) ErrAgentLeaseInvalidInput in
    do! tx_guard (negb (negb (a_fence a =? fence) || negb (s_fence slot =? fence)
                        || negb (occupiedBy attemptID slot) || negb (now <? a_authority_expires a)))
          ErrAgentLeaseStale in
    acknowledgeWrites (a_job a) attemptID (a_env a) (j_deployment job) operationID resultDigest now.

Definition AcknowledgeCancellation (serverID presentedDigest : string) (attemptID fence : Z)
    (operationID resultDigest : string) (now : Z) (d : DB) :=
  run_tx (acknowledgeCancellationTx serverID presentedDigest attemptID fence operationID resultDigest now) d.

(** ** Expiry *)

(** [expireOne]'s body; the result is [processed]. *)
Definition expireOneTx (lk : Locked) (attemptID now draw : Z) : Tx DB Err bool := λ d,
  match db_attempts d !! attemptID with
  | None => inr (false, d)
  | Some peek =>
  match skipLocked (lk_slot lk (a_env peek)) (db_slots d !! a_env peek) with
  | None => inr (false, d)
  | Some slot =>
  if negb (occupiedBy attemptID slot) then inr (false, d) else
  match skipLocked (lk_job lk (a_job peek)) (db_jobs d !! a_job peek) with
  | None => inr (false, d)
  | Some job =>
  if negb (isLeased job) then inr (false, d) else
  match skipLocked (lk_attempt lk attemptID) (db_attempts d !! attemptID) with
  | None => inr (false, d)
  | Some a =>
  if negb (bool_decide (a_state a = AttemptLeased)) || (now <? a_authority_expires a) then inr (false, d)
  else tx_bind (closeExpiredOrRevokedAttempt (a_job peek) attemptID (a_env peek) (a_number a) (j_deployment job)
                  (isSomeb (j_cancel_requested_at job)) now draw)
               (λ diverted, tx_ret (negb diverted)) d
  end end end end.

(** Discovery: leased, authority-expired attempts whose diversion would not be
    a no-op, oldest deadline first. *)
Definition expiryOrder (x y : Z * AttemptRow) : Prop :=
  a_authority_expires x.2 < a_authority_expires y.2 ∨
  (a_authority_expires x.2 = a_authority_expires y.2 ∧ x.1 ≤ y.1).
#[global] Instance expiryOrder_dec x y : Decision (expiryOrder x y) := decide _.

Definition expirable (now : Z) (d : DB) (id : Z) (a : AttemptRow) : bool :=
  bool_decide (a_state a = AttemptLeased) && (a_authority_expires a <=? now)
  && negb (isSomeb (find_op (λ o, unresolvedOfAttempt id (a_env a) o
                                  && negb (bool_decide (o_state o = OpSwitchAuthorized))) d)).

Definition discoverExpired (now limit : Z) (d : DB) : list Z :=
  fst <$> take (Z.to_nat limit)
    (merge_sort expiryOrder (filter (λ kv, expirable now d kv.1 kv.2 = true) (map_to_list (db_attempts d)))).

(** One independently committed transaction per candidate; the first error
    stops the batch and returns the count so far. *)
Fixpoint expireLoop (lk : Locked) (now draw : Z) (processed : Z) (candidates : list Z) (d : DB) : (Err + Z) * DB :=
  match candidates with
  | [] => (inr processed, d)
  | c :: cs =>
      match run_tx (expireOneTx lk c now draw) d with
      | (inl e, d') => (inl e, d')
      | (inr ok, d') => expireLoop lk now draw (if ok then processed + 1 else processed) cs d'
      end
  end.

Definition ExpireBatch (lk : Locked) (limit now draw : Z) (d : DB) : (Err + Z) * DB :=
  if limit <=? 0 then (inr 0, d)
  else
    let limit := if expireBatchMaxLimit <? limit then expireBatchMaxLimit else limit in
    expireLoop lk now draw 0 (discoverExpired now limit d) d.

(** ** Reconciliation *)

Definition reconcileTx (serverID presentedDigest environmentID : string) (attemptID fence now : Z) : Tx DB Err unit :=
  do! tx_guard (ValidOpaqueID serverID && ValidOpaqueID environmentID && (0 <? attemptID) && (0 <? fence))
        ErrAgentLeaseInvalidInput in
  do! lockActiveServerCredential serverID presentedDigest in
  let! slot := tx_some (λ d, db_slots d !! environmentID) ErrServerAuthorizationDenied in
  let! a := tx_some (λ d, db_attempts d !! attemptID) ErrServerAuthorizationDenied in
  do! tx_guard (bool_decide (a_server a = serverID) && bool_decide (a_env a = environmentID)
                && (a_fence a =? fence) && negb (bool_decide (a_state a = AttemptLeased))
                && isSomeb (a_closed_at a)) ErrServerAuthorizationDenied in
  let! unresolved := tx_read (find_op (unresolvedOfAttempt attemptID environmentID)) in
  do! tx_guard (negb (isSomeb unresolved)) ErrAgentLeaseCorruptState in
  if negb (bool_decide (s_recon_attempt slot = Some attemptID)) then
    let! already := tx_read (hasEvent (a_job a) attemptID EvReconciled) in
    tx_guard already ErrServerAuthorizationDenied
  else
    do! execute (update_slot environmentID anyRow (slot_clear now)) in
    appendAgentJobEvent (a_job a) (Some attemptID) EvReconciled.

Definition Reconcile (serverID presentedDigest environmentID : string) (attemptID fence now : Z) (d : DB) :=
  run_tx (reconcileTx serverID presentedDigest environmentID attemptID fence now) d.

(** [clearPlainReconciliation] (activation_resolution.go) *)
Definition clearPlainReconciliation (p : Principal) (environmentID : string) (jobID : Z) (attemptID : option Z)
    (reason : string) (now : Z) : Tx DB Err unit :=
  do! execute (update_slot environmentID anyRow (slot_clear now)) in
  do! insertServerAuditEvent (p_UserID p) "environment_mark_reconciled" reason in
  appendAgentJobEvent jobID attemptID EvReconciled.

(** [EXISTS (SELECT 1 FROM release_operations WHERE environment_id AND unresolved)] *)
Definition environmentUnresolved (environmentID : string) (d : DB) : bool :=
  isSomeb (find_op (λ o, bool_decide (o_env o = environmentID) && unresolvedActivation (o_state o)) d).

Definition markReconciledTx (p : Principal) (environmentID reason : string) (now : Z) : Tx DB Err unit :=
  do! tx_guard (validPrincipal p && ValidOpaqueID environmentID && validReason reason) ErrServerAuthorizationDenied in
  do! lockAdministratorSession p now in
  let! slot := tx_some (λ d, db_slots d !! environmentID) ErrServerAuthorizationDenied in
  match s_recon_attempt slot with
  | None => tx_fail ErrServerAuthorizationDenied
  | Some reconciliationAttemptID =>
      let! a := tx_some (λ d, db_attempts d !! reconciliationAttemptID) ErrNoRows in
      let! job := tx_some (λ d, db_jobs d !! a_job a) ErrNoRows in
      do! tx_guard (bool_decide (j_owner job = p_OwnerID p)) ErrServerAuthorizationDenied in
      let! unresolved := tx_read (environmentUnresolved environmentID) in
      do! tx_guard (negb unresolved) ErrAgentLeaseActivationUnresolved in
      clearPlainReconciliation p environmentID (a_job a) (Some reconciliationAttemptID) reason now
  end.

Definition MarkReconciled (p : Principal) (environmentID reason : string) (now : Z) (d : DB) :=
  run_tx (markReconciledTx p environmentID reason now) d.

(** ** Revocation (ServerRepository.RevokeServer and revokeInFlightLeases) *)

Definition revokeOne (now draw : Z) (c : Z * AttemptRow) : Tx DB Err unit :=
  let attemptID := c.1 in
  let! slot := tx_some (λ d, db_slots d !! a_env c.2) ErrNoRows in
  if negb (occupiedBy attemptID slot) then tx_ret tt
  else
    let! job := tx_some (λ d, db_jobs d !! a_job c.2) ErrNoRows in
    if negb (isLeased job) then tx_ret tt
    else
      let! a := tx_some (λ d, db_attempts d !! attemptID) ErrNoRows in
      if negb (bool_decide (a_state a = AttemptLeased)) then tx_ret tt
      else
        do! closeExpiredOrRevokedAttempt (a_job c.2) attemptID (a_env c.2) (a_number a) (j_deployment job)
              (isSomeb (j_cancel_requested_at job)) now draw in
        tx_ret tt.

Fixpoint revokeLoop (now draw : Z) (cs : list (Z * AttemptRow)) : Tx DB Err unit :=
  match cs with
  | [] => tx_ret tt
  | c :: cs' => do! revokeOne now draw c in revokeLoop now draw cs'
  end.

Definition revokeOrder (x y : Z * AttemptRow) : Prop :=
  if bool_decide (a_env x.2 = a_env y.2) then x.1 ≤ y.1 else String.leb (a_env x.2) (a_env y.2) = true.
#[global] Instance revokeOrder_dec x y : Decision (revokeOrder x y).
Proof. unfold revokeOrder. destruct (bool_decide _); apply _. Defined.

Definition inFlight (serverID : string) (d : DB) : list (Z * AttemptRow) :=
  merge_sort revokeOrder
    (filter (λ kv, a_server kv.2 = serverID ∧ a_state kv.2 = AttemptLeased) (map_to_list (db_attempts d))).

Definition revokeInFlightLeases (serverID : string) (now draw : Z) : Tx DB Err unit :=
  let! candidates := tx_read (inFlight serverID) in revokeLoop now draw candidates.

Definition revokeCredentials (serverID : string) (l : list CredentialRow) : list CredentialRow :=
  (λ c, if bool_decide (cred_server c = serverID)
        then {| cred_server := cred_server c; cred_active := false; cred_digest := cred_digest c |} else c) <$> l.

Definition revokeServerTx (p : Principal) (serverID reason : string) (now draw : Z) : Tx DB Err unit :=
  do! tx_guard (validPrincipal p && ValidOpaqueID serverID && validReason reason) ErrServerAuthorizationDenied in
  do! lockAdministratorSession p now in
  let! srv := tx_some (λ d, db_servers d !! serverID) ErrServerAuthorizationDenied in
  do! tx_guard (bool_decide (srv_owner srv = p_OwnerID p) && srv_active srv) ErrServerAuthorizationDenied in
  do! tx_write (λ d, set_servers (<[serverID := {| srv_owner := srv_owner srv; srv_active := false |}]> (db_servers d))
                       (revokeCredentials serverID (db_credentials d)) d) in
  do! revokeInFlightLeases serverID now draw in
  insertServerAuditEvent (p_UserID p) "server_revoked" reason.

Definition RevokeServer (p : Principal) (serverID reason : string) (now draw : Z) (d : DB) :=
  run_tx (revokeServerTx p serverID reason now draw) d.

(** ** Progress and checkout authorization (agent_lease_materialize.go) *)

(** The re-authorization prefix of AuthorizeMaterialization, AuthorizeCheckout
    and ReportProgress: same locks, every failure a generic denial. *)
Definition reauthorize (serverID presentedDigest : string) (attemptID fence now : Z)
    : Tx DB Err (JobRow * AttemptRow) :=
  do! lockActiveServerCredential serverID presentedDigest in
  let! peek := tx_some (λ d, db_attempts d !! attemptID) ErrServerAuthorizationDenied in
  do! tx_guard (bool_decide (a_server peek = serverID)) ErrServerAuthorizationDenied in
  let! slot := tx_some (λ d, db_slots d !! a_env peek) ErrNoRows in
  do! tx_guard ((s_fence slot =? fence) && negb (s_recon_required slot) && occupiedBy attemptID slot)
        ErrServerAuthorizationDenied in
  let! job := tx_some (λ d, db_jobs d !! a_job peek) ErrNoRows in
  do! tx_guard (negb (isSomeb (j_cancel_requested_at job))) ErrServerAuthorizationDenied in
  let! a := tx_some (λ d, db_attempts d !! attemptID) ErrNoRows in
  do! tx_guard (bool_decide (a_state a = AttemptLeased) && (a_fence a =? fence) && (now <? a_authority_expires a))
        ErrServerAuthorizationDenied in
  tx_ret (job, a).

Record CheckoutAuthorization := {
  ca_AttemptID : Z; ca_Fence : Z; ca_JobID : Z; ca_OwnerID : string; ca_ProjectID : string;
  ca_EnvironmentID : string; ca_DeploymentID : string; ca_RepositoryID : Z; ca_CommitSHA : string;
}.

Definition authorizeCheckoutTx (serverID presentedDigest : string) (attemptID fence now : Z) : Tx DB Err CheckoutAuthorization :=
  do! tx_guard (ValidOpaqueID serverID && (0 <? attemptID) && (0 <? fence)) ErrAgentLeaseInvalidInput in
  let! ja := reauthorize serverID presentedDigest attemptID fence now in
  let '(job, a) := ja in
  tx_ret {| ca_AttemptID := attemptID; ca_Fence := fence; ca_JobID := a_job a; ca_OwnerID := j_owner job;
            ca_ProjectID := j_project job; ca_EnvironmentID := a_env a; ca_DeploymentID := j_deployment job;
            ca_RepositoryID := j_repository job; ca_CommitSHA := j_commit job |}.

Definition reportProgressTx (serverID presentedDigest : string) (attemptID fence : Z) (phase : Status) (now : Z) : Tx DB Err unit :=
  do! tx_guard (ValidOpaqueID serverID && (0 <? attemptID) && (0 <? fence) && AgentReportablePhase phase)
        ErrAgentLeaseInvalidInput in
  let! ja := reauthorize serverID presentedDigest attemptID fence now in
  let '(job, a) := ja in
  let! dep := tx_some (λ d, db_deployments d !! j_deployment job) ErrNoRows in
  let '(currentOrder, onPath) := ExecutionOrder (snap_Status dep) in
  do! tx_guard onPath ErrServerAuthorizationDenied in
  let targetOrder := (ExecutionOrder phase).1 in
  if targetOrder <=? currentOrder then tx_ret tt
  else if currentOrder + 1 <? targetOrder then tx_fail ErrAgentLeaseInvalidInput
  else transitionDeployment (j_deployment job) phase now.

Definition ReportProgress (serverID presentedDigest : string) (attemptID fence : Z) (phase : Status) (now : Z) (d : DB) :=
  run_tx (reportProgressTx serverID presentedDigest attemptID fence phase now) d.
