(* ===== verification/LeaseInv.v ===== *)
(** * The lease invariant

    What every committed state of the lease tables satisfies: which rows
    refer to which, in which states, and how a job's state, its attempts, its
    environment's slot, its deployment and its activation hang together.  The
    lemmas of this file say that the shapes of change the repository makes
    (open an attempt, touch one, close one, touch a slot) keep it. *)
From S2P Require Import Prelude GoStd Deployment Queue Schema DeploymentStore LeaseCore Lease.
#[local] Open Scope Z_scope.

(** ** The invariant *)

(** The statuses of a deployment whose job is being executed, short of
    activation. *)
Definition working (st : Status) : Prop :=
  st ∈ [StatusAssigned; StatusFetching; StatusBuilding; StatusStarting; StatusHealthChecking].

Definition job_status_ok (js : JobState) (st : Status) : Prop :=
  match js with
  | JobQueued => st = StatusQueued
  | JobRetryWait => working st
  | JobLeased => working st ∨ st = StatusActivating
  | JobSucceeded => working st ∨ st = StatusHealthy
  | JobFailed | JobDead => st = StatusFailed
  | JobCancelled => st = StatusCancelled
  end.

(** The attempt counter each job state allows. *)
Definition job_count_ok (j : JobRow) : Prop :=
  0 ≤ j_attempt_count j ≤ MaxAttempts ∧
  match j_state j with
  | JobQueued => j_attempt_count j = 0
  | JobLeased => 1 ≤ j_attempt_count j
  | JobRetryWait => 1 ≤ j_attempt_count j < MaxAttempts
  | _ => True
  end.

Definition unresolved (o : OpRow) : Prop := unresolvedActivation (o_state o) = true.

Record lease_inv (d : DB) : Prop := {
  (** the occupant of a slot is a leased attempt under the slot's fence *)
  inv_occupant : ∀ e s a, db_slots d !! e = Some s → s_current s = Some a →
    ∃ r, db_attempts d !! a = Some r ∧ a_state r = AttemptLeased ∧ a_env r = e ∧ a_fence r = s_fence s;
  (** a leased attempt occupies its slot, and its job is leased at that attempt *)
  inv_leased : ∀ a r, db_attempts d !! a = Some r → a_state r = AttemptLeased →
    ∃ s j, db_slots d !! a_env r = Some s ∧ s_current s = Some a ∧
           db_jobs d !! a_job r = Some j ∧ j_state j = JobLeased ∧ a_number r = j_attempt_count j;
  (** every attempt belongs to a job of its environment and server *)
  inv_attempt : ∀ a r, db_attempts d !! a = Some r →
    a < db_next_attempt d ∧ attempt_check r = true ∧
    ∃ s j, db_slots d !! a_env r = Some s ∧ a_fence r ≤ s_fence s ∧
           db_jobs d !! a_job r = Some j ∧ j_env j = a_env r ∧ j_server j = a_server r ∧
           a_number r ≤ j_attempt_count j ∧
           (j_state j = JobLeased → a_number r = j_attempt_count j → a_state r = AttemptLeased);
  inv_numbers : ∀ a1 r1 a2 r2, db_attempts d !! a1 = Some r1 → db_attempts d !! a2 = Some r2 →
    a_job r1 = a_job r2 → a_number r1 = a_number r2 → a1 = a2;
  inv_fences : ∀ a1 r1 a2 r2, db_attempts d !! a1 = Some r1 → db_attempts d !! a2 = Some r2 →
    a_env r1 = a_env r2 → a_fence r1 = a_fence r2 → a1 = a2;
  (** a job has one frozen attempt for each number up to its counter *)
  inv_history : ∀ i j n, db_jobs d !! i = Some j → 1 ≤ n ≤ j_attempt_count j →
    ∃ a r, db_attempts d !! a = Some r ∧ a_job r = i ∧ a_number r = n ∧ is_Some (db_execution d !! a);
  inv_count : ∀ i j, db_jobs d !! i = Some j → job_count_ok j;
  inv_frozen : ∀ a, is_Some (db_execution d !! a) → is_Some (db_attempts d !! a);
  inv_slot : ∀ e s, db_slots d !! e = Some s →
    slot_check s = true ∧
    ∀ a, s_recon_attempt s = Some a → ∃ r, db_attempts d !! a = Some r ∧ a_env r = e;
  (** an unresolved activation belongs to a leased attempt *)
  inv_op : ∀ i o, db_ops d !! i = Some o →
    i < db_next_op d ∧ op_check o = true ∧
    ∃ r, db_attempts d !! o_attempt o = Some r ∧ a_env r = o_env o ∧ a_fence r = o_fence o ∧
         a_job r = o_job o ∧ (unresolved o → a_state r = AttemptLeased);
  inv_op_unique : ∀ i1 o1 i2 o2, db_ops d !! i1 = Some o1 → db_ops d !! i2 = Some o2 →
    o_env o1 = o_env o2 → unresolved o1 → unresolved o2 → i1 = i2;
  (** a job's deployment is stored, and its status follows the job's state *)
  inv_deployment : ∀ i j, db_jobs d !! i = Some j →
    ∃ s dep, db_deployments d !! j_deployment j = Some s ∧ storedAs (j_deployment j) s dep ∧
             job_status_ok (j_state j) (status dep) ∧
             (status dep = StatusActivating ↔ ∃ k o, db_ops d !! k = Some o ∧ o_job o = i ∧ unresolved o);
  inv_one_job : ∀ i1 j1 i2 j2, db_jobs d !! i1 = Some j1 → db_jobs d !! i2 = Some j2 →
    j_deployment j1 = j_deployment j2 → i1 = i2;
  (** a job whose cancellation was requested is not being activated *)
  inv_cancel : ∀ i j k o, db_jobs d !! i = Some j → isSomeb (j_cancel_requested_at j) = true →
    db_ops d !! k = Some o → o_job o = i → ¬ unresolved o;
}.

(** The parts of the database the invariant reads. *)
Definition lease_frame (d d' : DB) : Prop :=
  db_jobs d' = db_jobs d ∧ db_attempts d' = db_attempts d ∧ db_slots d' = db_slots d ∧
  db_deployments d' = db_deployments d ∧ db_ops d' = db_ops d ∧ db_execution d' = db_execution d ∧
  db_next_attempt d' = db_next_attempt d ∧ db_next_op d' = db_next_op d.

Lemma lease_frame_inv d d' : lease_frame d d' → lease_inv d → lease_inv d'.
Proof.
  intros (E1 & E2 & E3 & E4 & E5 & E6 & E7 & E8) [].
  split; rewrite ?E1, ?E2, ?E3, ?E4, ?E5, ?E6, ?E7, ?E8; done.
Qed.

#[global] Instance lease_frame_equiv : Equivalence lease_frame.
Proof.
  split.
  - by intros d.
  - intros d d' (?&?&?&?&?&?&?&?). by unfold lease_frame.
  - intros d1 d2 d3 (?&?&?&?&?&?&?&?) (?&?&?&?&?&?&?&?). unfold lease_frame. split_and!; by etrans.
Qed.

#[global] Instance lease_inv_proper : Proper (lease_frame ==> iff) lease_inv.
Proof. intros d d' H. split; apply lease_frame_inv; [done|by symmetry]. Qed.

(** Two rows describe the same thing at different times. *)
Definition same_attempt (r r' : AttemptRow) : Prop :=
  a_job r' = a_job r ∧ a_number r' = a_number r ∧ a_server r' = a_server r ∧
  a_env r' = a_env r ∧ a_fence r' = a_fence r.
Definition same_job (j j' : JobRow) : Prop :=
  j_owner j' = j_owner j ∧ j_project j' = j_project j ∧ j_env j' = j_env j ∧ j_server j' = j_server j ∧
  j_deployment j' = j_deployment j ∧ j_repository j' = j_repository j ∧ j_ref j' = j_ref j ∧
  j_commit j' = j_commit j ∧ j_priority j' = j_priority j.
Definition same_op (o o' : OpRow) : Prop :=
  o_release o' = o_release o ∧ o_job o' = o_job o ∧ o_attempt o' = o_attempt o ∧ o_fence o' = o_fence o ∧
  o_env o' = o_env o.

(** Split conjunctions in hypotheses and goal, and close the equational
    residue. *)
Ltac inv_split :=
  repeat match goal with H : _ ∧ _ |- _ => destruct H end;
  split_and!; first [assumption | reflexivity | congruence | tauto | lia | idtac].

(** ** Shapes of change *)

(** An attempt is rewritten in place and stays leased (renewal, cancellation
    cap). *)
Lemma touch_attempt_preserves d a r r' :
  lease_inv d → db_attempts d !! a = Some r → a_state r = AttemptLeased →
  same_attempt r r' → a_state r' = AttemptLeased → attempt_check r' = true →
  lease_inv (set_attempts (<[a := r']> (db_attempts d)) (db_next_attempt d) d).
Proof.
  intros [] Hr Hl (E1 & E2 & E3 & E4 & E5) Hl' Hc.
  split; simpl; try done.
  - intros e s b Hs Hb. destruct (inv_occupant0 e s b Hs Hb) as (q & Hq & ?&?&?).
    destruct (decide (b = a)) as [->|]; [|exists q; by rewrite lookup_insert_ne].
    simplify_eq. exists r'. rewrite lookup_insert_eq. split_and!; congruence.
  - intros b q [[<- <-]|[Hne Hq]]%lookup_insert_Some Hq'; [|by eauto].
    rewrite E1, E2, E4. by eauto.
  - intros b q [[<- <-]|[Hne Hq]]%lookup_insert_Some; [|by eauto].
    destruct (inv_attempt0 a r Hr) as (?&?& s & j &?). split_and!; [done|done|].
    exists s, j. rewrite E1, E2, E3, E4, E5. inv_split.
  - intros b q b' q' [[<- <-]|[? ?]]%lookup_insert_Some [[<- <-]|[? ?]]%lookup_insert_Some; rewrite ?E1, ?E2; eauto.
  - intros b q b' q' [[<- <-]|[? ?]]%lookup_insert_Some [[<- <-]|[? ?]]%lookup_insert_Some; rewrite ?E4, ?E5; eauto.
  - intros i j n Hj Hn. destruct (inv_history0 i j n Hj Hn) as (b & q & Hq & ?&?&?).
    destruct (decide (b = a)) as [->|]; [|exists b, q; by rewrite lookup_insert_ne].
    simplify_eq. exists a, r'. rewrite lookup_insert_eq. split_and!; congruence || done.
  - intros b Hb. rewrite lookup_insert_is_Some'. by right; auto.
  - intros e s Hs. destruct (inv_slot0 e s Hs) as [? Hrec]. split; [done|]. intros b Hb.
    destruct (Hrec b Hb) as (q & Hq & ?).
    destruct (decide (b = a)) as [->|]; [|exists q; by rewrite lookup_insert_ne].
    simplify_eq. exists r'. rewrite lookup_insert_eq. split_and!; congruence.
  - intros i o Ho. destruct (inv_op0 i o Ho) as (?&?& q & Hq & ?&?&?&?). split_and!; [done|done|].
    destruct (decide (o_attempt o = a)) as [Ho'|]; [|exists q; by rewrite lookup_insert_ne].
    rewrite Ho' in *. simplify_eq. exists r'. rewrite lookup_insert_eq. split_and!; congruence || done.
Qed.

(** A slot's flags change, its fence and occupant do not. *)
Lemma touch_slot_preserves d e s s' :
  lease_inv d → db_slots d !! e = Some s →
  s_fence s' = s_fence s → s_current s' = s_current s → slot_check s' = true →
  (∀ a, s_recon_attempt s' = Some a → ∃ r, db_attempts d !! a = Some r ∧ a_env r = e) →
  lease_inv (set_slots (<[e := s']> (db_slots d)) d).
Proof.
  intros [] Hs Ef Ec Hc Hrec. split; simpl; try done.
  - intros e' t a [[<- <-]|[? ?]]%lookup_insert_Some Ha; rewrite ?Ef; eapply inv_occupant0; eauto; congruence.
  - intros a r Hr Hl. destruct (inv_leased0 a r Hr Hl) as (t & j & Ht & ?).
    destruct (decide (a_env r = e)) as [He|]; [|exists t, j; by rewrite lookup_insert_ne].
    rewrite He in *. simplify_eq. exists s', j. rewrite lookup_insert_eq. inv_split.
  - intros a r Hr. destruct (inv_attempt0 a r Hr) as (?&?& t & j & Ht & ?). split_and!; [done|done|].
    destruct (decide (a_env r = e)) as [He|]; [|exists t, j; by rewrite lookup_insert_ne].
    rewrite He in *. simplify_eq. exists s', j. rewrite lookup_insert_eq, Ef. inv_split.
  - intros e' t [[<- <-]|[? ?]]%lookup_insert_Some; eauto.
Qed.

(** Slots created on demand are free under fence 0. *)
Lemma new_slot_preserves d e s :
  lease_inv d → db_slots d !! e = None → slot_check s = true → s_current s = None → s_recon_attempt s = None →
  lease_inv (set_slots (<[e := s]> (db_slots d)) d).
Proof.
  intros [] Hs Hc Hcur Hrec. split; simpl; try done.
  - intros e' t a [[<- <-]|[? ?]]%lookup_insert_Some Ha; [congruence|eauto].
  - intros a r Hr Hl. destruct (inv_leased0 a r Hr Hl) as (t & j & Ht & ?).
    exists t, j. rewrite lookup_insert_ne by congruence. done.
  - intros a r Hr. destruct (inv_attempt0 a r Hr) as (?&?& t & j & Ht & ?). split_and!; [done|done|].
    exists t, j. rewrite lookup_insert_ne by congruence. done.
  - intros e' t [[<- <-]|[? ?]]%lookup_insert_Some; [|by eauto]. split; [done|congruence].
Qed.

(** A job row changes without touching its attempts: a cancellation request
    on a leased job, or the direct cancellation of one that is not leased. *)
Lemma touch_job_preserves d i j j' s' dep' :
  lease_inv d → db_jobs d !! i = Some j → same_job j j' → j_attempt_count j' = j_attempt_count j →
  (j_state j' = JobLeased ↔ j_state j = JobLeased) → job_count_ok j' →
  storedAs (j_deployment j) s' dep' → job_status_ok (j_state j') (status dep') →
  (status dep' = StatusActivating ↔ ∃ k o, db_ops d !! k = Some o ∧ o_job o = i ∧ unresolved o) →
  (isSomeb (j_cancel_requested_at j') = true → status dep' ≠ StatusActivating) →
  lease_inv (set_deployments (<[j_deployment j := s']> (db_deployments d))
               (set_jobs (<[i := j']> (db_jobs d)) d)).
Proof.
  intros [] Hj (E1 & E2 & E3 & E4 & E5 & _) Ec Hl Hc Hst Hok Hact Hcan. split; simpl; try done.
  - intros a r Hr Hrl. destruct (inv_leased0 a r Hr Hrl) as (s & k & Hs & ? & Hk & ?&?).
    destruct (decide (a_job r = i)) as [Hi|]; [|exists s, k; by rewrite lookup_insert_ne].
    rewrite Hi in *. simplify_eq. exists s, j'. rewrite lookup_insert_eq, Ec. inv_split.
  - intros a r Hr. destruct (inv_attempt0 a r Hr) as (?&?& s & k & Hs & ? & Hk & ?&?&?&?). split_and!; [done|done|].
    destruct (decide (a_job r = i)) as [Hi|]; [|exists s, k; by rewrite lookup_insert_ne].
    rewrite Hi in *. simplify_eq. exists s, j'. rewrite lookup_insert_eq, Ec. inv_split.
  - intros i' k n [[<- <-]|[? ?]]%lookup_insert_Some; rewrite ?Ec; eauto.
  - intros i' k [[<- <-]|[? ?]]%lookup_insert_Some; eauto.
  - intros i' k [[<- <-]|[Hne Hk]]%lookup_insert_Some.
    + rewrite E5, lookup_insert_eq. by exists s', dep'.
    + destruct (decide (j_deployment k = j_deployment j)) as [Hd|].
      { exfalso. apply Hne. by eapply inv_one_job0. }
      rewrite lookup_insert_ne by done. eauto.
  - intros i1 k1 i2 k2 [[<- <-]|[? ?]]%lookup_insert_Some [[<- <-]|[? ?]]%lookup_insert_Some; rewrite ?E5; eauto.
  - intros i' k n o [[<- <-]|[? ?]]%lookup_insert_Some Hk Ho Hi Hu; [|by eapply inv_cancel0].
    apply (Hcan Hk), Hact. eauto.
Qed.

(** An unresolved activation is rewritten and stays unresolved (diversion,
    late evidence). *)
Lemma touch_op_preserves d k o o' :
  lease_inv d → db_ops d !! k = Some o → same_op o o' →
  (unresolved o' ↔ unresolved o) → op_check o' = true →
  lease_inv (set_ops (<[k := o']> (db_ops d)) (db_next_op d) d).
Proof.
  intros [] Ho (E1 & E2 & E3 & E4 & E5) Hu Hc. split; simpl; try done.
  - intros i p [[<- <-]|[? ?]]%lookup_insert_Some; [|by eauto].
    destruct (inv_op0 k o Ho) as (?&?& r &?). split_and!; [done|done|].
    exists r. rewrite E2, E3, E4, E5, Hu. done.
  - intros i1 p1 i2 p2 [[<- <-]|[? ?]]%lookup_insert_Some [[<- <-]|[? ?]]%lookup_insert_Some;
      rewrite ?E5, ?Hu; eauto.
  - intros i j Hj. destruct (inv_deployment0 i j Hj) as (s & dep &?&?&?& Hact). exists s, dep. split_and!; try done.
    rewrite Hact. split; intros (k' & p & Hp & ? & ?).
    + destruct (decide (k' = k)) as [->|]; [|exists k', p; by rewrite lookup_insert_ne].
      simplify_eq. exists k, o'. rewrite lookup_insert_eq. split_and!; congruence || tauto.
    + apply lookup_insert_Some in Hp as [[<- <-]|[? ?]]; [|by eauto 6].
      exists k, o. split_and!; [done|congruence|tauto].
  - intros i j n p Hj Hcan [[<- <-]|[? ?]]%lookup_insert_Some; [|by eauto].
    rewrite E2, Hu. eauto.
Qed.

(** An occupant is closed: its row leaves [leased], the slot is freed (the
    fence may advance and the reconciliation flag may change), its job leaves
    [leased] with the counter unchanged, its deployment follows, and no
    activation of it is left unresolved. *)
Record closes (d d' : DB) (a : Z) (r r' : AttemptRow) (s s' : SlotRow) (j j' : JobRow) : Prop := {
  cls_r : db_attempts d !! a = Some r;
  cls_rl : a_state r = AttemptLeased;
  cls_s : db_slots d !! a_env r = Some s;
  cls_sc : s_current s = Some a;
  cls_j : db_jobs d !! a_job r = Some j;
  cls_attempts : db_attempts d' = <[a := r']> (db_attempts d);
  cls_slots : db_slots d' = <[a_env r := s']> (db_slots d);
  cls_jobs : db_jobs d' = <[a_job r := j']> (db_jobs d);
  cls_r' : same_attempt r r' ∧ a_state r' ≠ AttemptLeased ∧ attempt_check r' = true;
  cls_s' : s_fence s ≤ s_fence s' ∧ s_current s' = None ∧ slot_check s' = true ∧
           ∀ b, s_recon_attempt s' = Some b → b = a ∨ s_recon_attempt s = Some b;
  cls_j' : same_job j j' ∧ j_attempt_count j' = j_attempt_count j ∧ j_state j' ≠ JobLeased ∧ job_count_ok j';
  cls_dep : ∃ st dep', db_deployments d' = <[j_deployment j := st]> (db_deployments d) ∧
              storedAs (j_deployment j) st dep' ∧ job_status_ok (j_state j') (status dep');
  cls_ops : ∀ k o, db_ops d' !! k = Some o →
              op_check o = true ∧ (unresolved o → o_attempt o ≠ a) ∧
              ∃ o0, db_ops d !! k = Some o0 ∧ same_op o0 o ∧ (unresolved o → unresolved o0);
  cls_ops_kept : ∀ k o, db_ops d !! k = Some o → o_attempt o ≠ a → db_ops d' !! k = Some o;
  cls_rest : db_execution d' = db_execution d ∧ db_next_attempt d' = db_next_attempt d ∧
             db_next_op d' = db_next_op d;
}.

Lemma closed_status_not_activating js st :
  js ≠ JobLeased → job_status_ok js st → st ≠ StatusActivating.
Proof. destruct js; simpl; unfold working; intros ? H ->; set_solver. Qed.

Section closing.
Context {d d' : DB} {a : Z} {r r' : AttemptRow} {s s' : SlotRow} {j j' : JobRow}.
Context (Hinv : lease_inv d) (Hcl : closes d d' a r r' s s' j j').

Lemma closes_attempt b q :
  db_attempts d' !! b = Some q →
  ∃ q0, db_attempts d !! b = Some q0 ∧ same_attempt q0 q ∧ attempt_check q = true ∧ (b ≠ a → q = q0).
Proof.
  rewrite (cls_attempts _ _ _ _ _ _ _ _ _ Hcl).
  destruct (cls_r' _ _ _ _ _ _ _ _ _ Hcl) as (?&?&?).
  intros [[<- <-]|[Hne Hq]]%lookup_insert_Some.
  - exists r. split_and!; try done. apply Hcl.
  - exists q. split_and!; try done. by apply (inv_attempt d Hinv) in Hq as (_&?&_).
Qed.

Lemma closes_op k o :
  db_ops d' !! k = Some o →
  k < db_next_op d' ∧ op_check o = true ∧
  ∃ q, db_attempts d' !! o_attempt o = Some q ∧ a_env q = o_env o ∧ a_fence q = o_fence o ∧
       a_job q = o_job o ∧ (unresolved o → a_state q = AttemptLeased).
Proof.
  destruct Hcl as [Hr Hrl _ _ _ Ea _ _ ((A1&A2&A3&A4&A5)&A6&A7) _ _ _ Hops _ (R1&R2&R3)].
  rewrite R3, Ea. intros Ho.
  destruct (Hops k o Ho) as (Hoc & Hna & o0 & Ho0 & (E1&E2&E3&E4&E5) & Hu).
  destruct (inv_op d Hinv k o0 Ho0) as (?&?&q&Hq&?&?&?&Hql). split_and!; [done|done|].
  rewrite E2, E3, E4, E5. destruct (decide (o_attempt o0 = a)) as [E|].
  - rewrite E in *. simplify_eq. exists r'. rewrite lookup_insert_eq. split_and!; try congruence.
    intros Hu'. by specialize (Hna Hu').
  - exists q. rewrite lookup_insert_ne by done. split_and!; auto.
Qed.

Lemma closes_leased b q :
  db_attempts d' !! b = Some q → a_state q = AttemptLeased →
  ∃ t k, db_slots d' !! a_env q = Some t ∧ s_current t = Some b ∧
         db_jobs d' !! a_job q = Some k ∧ j_state k = JobLeased ∧ a_number q = j_attempt_count k.
Proof.
  destruct Hcl as [Hr Hrl Hs Hsc Hj Ea Es Ej (_&A6&_) _ _ _ _ _ _]. destruct Hinv.
  rewrite Ea, Es, Ej. intros [[<- <-]|[Hne Hq]]%lookup_insert_Some Hql; [done|].
  destruct (inv_leased0 b q Hq Hql) as (t & k & Ht & Htc & Hk & Hkl & Hn).
  exists t, k. rewrite !lookup_insert_ne; [done|..].
  - intros E. rewrite E in *. apply Hne, (inv_numbers0 a r b q); try done.
    destruct (inv_leased0 a r Hr Hrl) as (?&k'&?&?&?&?&?). rewrite E in *. congruence.
  - intros E. rewrite E in *. simplify_eq.
Qed.

Lemma closes_rows b q :
  db_attempts d' !! b = Some q →
  b < db_next_attempt d' ∧ attempt_check q = true ∧
  ∃ t k, db_slots d' !! a_env q = Some t ∧ a_fence q ≤ s_fence t ∧
         db_jobs d' !! a_job q = Some k ∧ j_env k = a_env q ∧ j_server k = a_server q ∧
         a_number q ≤ j_attempt_count k ∧
         (j_state k = JobLeased → a_number q = j_attempt_count k → a_state q = AttemptLeased).
Proof.
  intros Hq. destruct (closes_attempt b q Hq) as (q0 & Hq0 & (Q1&Q2&Q3&Q4&Q5) & Qc & Q6).
  destruct Hcl as [Hr Hrl Hs Hsc Hj Ea Es Ej _ (S1&_) ((J1&J2&J3&J4&J5&_)&J6&J7&J8) _ _ _ (R1&R2&R3)].
  rewrite Es, Ej, R2. destruct (inv_attempt d Hinv b q0 Hq0) as (?&?&t&k&Ht&Hf&Hk&?&?&?&Hlast).
  split_and!; [done|done|]. rewrite Q1, Q2, Q3, Q4, Q5.
  exists (if decide (a_env q0 = a_env r) then s' else t), (if decide (a_job q0 = a_job r) then j' else k).
  destruct (decide (a_env q0 = a_env r)) as [E|]; destruct (decide (a_job q0 = a_job r)) as [E'|];
    rewrite ?E, ?E' in *; rewrite ?lookup_insert_eq, ?lookup_insert_ne by done; simplify_eq;
    split_and!; try done; try lia; try congruence; intros; rewrite Q6; try tauto;
    intros ->; simplify_eq; done.
Qed.

Lemma closes_slot e t :
  db_slots d' !! e = Some t →
  slot_check t = true ∧ ∀ b, s_recon_attempt t = Some b → ∃ q, db_attempts d' !! b = Some q ∧ a_env q = e.
Proof.
  destruct Hcl as [Hr _ Hs _ _ Ea Es _ ((A1&A2&A3&A4&A5)&_) (S1&S2&S3&S4) _ _ _ _ _].
  assert (∀ b q, db_attempts d !! b = Some q → a_env q = e →
          ∃ q', db_attempts d' !! b = Some q' ∧ a_env q' = e) as Hkeep.
  { intros b q Hq He. rewrite Ea. destruct (decide (b = a)) as [->|].
    - exists r'. rewrite lookup_insert_eq. split; [done|congruence].
    - exists q. by rewrite lookup_insert_ne. }
  rewrite Es. intros [[<- <-]|[Hne Ht]]%lookup_insert_Some.
  - split; [done|]. intros b [->|Hb]%S4; [by eapply Hkeep|].
    destruct (inv_slot d Hinv _ s Hs) as [_ H']. destruct (H' b Hb) as (q&?&?). by eapply Hkeep.
  - destruct (inv_slot d Hinv e t Ht) as [? H']. split; [done|].
    intros b Hb. destruct (H' b Hb) as (q&?&?). by eapply Hkeep.
Qed.

(** The closed job has no unresolved activation left. *)
Lemma closes_no_activation k o : db_ops d' !! k = Some o → o_job o = a_job r → ¬ unresolved o.
Proof.
  intros Ho Hi Hu. destruct Hcl as [Hr Hrl _ _ _ _ _ _ _ _ _ _ Hops _ _]. destruct Hinv.
  destruct (Hops k o Ho) as (_ & Hna & o0 & Ho0 & (E1&E2&E3&E4&E5) & Hu0).
  destruct (inv_op0 k o0 Ho0) as (?&?&q&Hq&?&?&?&Hql).
  apply Hna; [done|]. rewrite E3. specialize (Hql (Hu0 Hu)).
  destruct (inv_leased0 _ q Hq Hql) as (?&k1&?&?&Hk1&?&?).
  destruct (inv_leased0 a r Hr Hrl) as (?&k2&?&?&Hk2&?&?).
  assert (a_job q = a_job r) as E by congruence. rewrite E in *.
  eapply inv_numbers0; eauto. congruence.
Qed.

Lemma closes_deployment i k :
  db_jobs d' !! i = Some k →
  ∃ t dep, db_deployments d' !! j_deployment k = Some t ∧ storedAs (j_deployment k) t dep ∧
           job_status_ok (j_state k) (status dep) ∧
           (status dep = StatusActivating ↔ ∃ n o, db_ops d' !! n = Some o ∧ o_job o = i ∧ unresolved o).
Proof.
  pose proof closes_no_activation as Hno. destruct Hcl as [Hr _ _ _ Hj _ _ Ej _ _
    ((_&_&_&_&J5&_)&_&J7&_) (st&dep'&Ed&Hst&Hok) Hops Hkept _]. destruct Hinv.
  rewrite Ej, Ed. intros [[<- <-]|[Hne Hk]]%lookup_insert_Some.
  - rewrite J5, lookup_insert_eq. exists st, dep'. split_and!; try done. split.
    + intros H. by apply closed_status_not_activating in Hok.
    + intros (n & o & Ho & Hi & Hu). by destruct (Hno n o Ho Hi).
  - destruct (decide (j_deployment k = j_deployment j)) as [Hd|].
    { exfalso. apply Hne. by eapply inv_one_job0. }
    rewrite lookup_insert_ne by done. destruct (inv_deployment0 i k Hk) as (t & dep &?&?&?& Hact).
    exists t, dep. split_and!; try done. rewrite Hact. split; intros (m & o & Ho & Hi & Hu).
    + exists m, o. split_and!; try done. apply Hkept; [done|].
      destruct (inv_op0 m o Ho) as (?&?&q&Hq&?&?&?&_). intros E. rewrite E in *. congruence.
    + destruct (Hops m o Ho) as (_ & _ & o0 & Ho0 & (E1&E2&E3&E4&E5) & Hu0).
      exists m, o0. split_and!; [done|congruence|auto].
Qed.

Lemma closes_preserves : lease_inv d'.
Proof.
  pose proof closes_attempt as Hatt. pose proof closes_op as Hop. pose proof closes_leased as Hleased.
  pose proof closes_rows as Hrows. pose proof closes_slot as Hslot. pose proof closes_deployment as Hdep.
  pose proof closes_no_activation as Hno.
  destruct Hcl as [Hr Hrl Hs Hsc Hj Ea Es Ej ((A1&A2&A3&A4&A5)&A6&A7) (S1&S2&S3&S4)
    ((J1&J2&J3&J4&J5&_)&J6&J7&J8) _ Hops _ (R1&R2&R3)]. destruct Hinv. split; try done.
  - intros e t b. rewrite Es, Ea. intros [[<- <-]|[Hne Ht]]%lookup_insert_Some Hb; [congruence|].
    destruct (inv_occupant0 e t b Ht Hb) as (q & Hq & ? & He & ?).
    exists q. rewrite lookup_insert_ne; [done|]. intros <-. simplify_eq.
  - intros b1 q1 b2 q2 (p1&?&(?&?&_)&_)%Hatt (p2&?&(?&?&_)&_)%Hatt ??. eapply inv_numbers0; eauto; congruence.
  - intros b1 q1 b2 q2 (p1&?&(_&_&_&?&?)&_)%Hatt (p2&?&(_&_&_&?&?)&_)%Hatt ??. eapply inv_fences0; eauto; congruence.
  - intros i k n. rewrite Ej, Ea, R1. intros Hk Hn.
    assert (∃ k0, db_jobs d !! i = Some k0 ∧ j_attempt_count k0 = j_attempt_count k) as (k0 & Hk0 & Hc).
    { apply lookup_insert_Some in Hk as [[<- <-]|[? ?]]; eauto. }
    rewrite <-Hc in Hn. destruct (inv_history0 i k0 n Hk0 Hn) as (b & q & Hq & ?&?&?).
    destruct (decide (b = a)) as [->|]; [|exists b, q; by rewrite lookup_insert_ne].
    simplify_eq. exists a, r'. rewrite lookup_insert_eq. split_and!; congruence || done.
  - intros i k. rewrite Ej. intros [[<- <-]|[? ?]]%lookup_insert_Some; eauto.
  - intros b. rewrite R1, Ea, lookup_insert_is_Some'. intros Hb. right; auto.
  - intros k1 o1 k2 o2 (_&_&p1&?&(?&?&?&?&?)&?)%Hops (_&_&p2&?&(?&?&?&?&?)&?)%Hops.
    intros. eapply inv_op_unique0; eauto. congruence.
  - intros i1 k1 i2 k2. rewrite Ej. intros [[<- <-]|[? ?]]%lookup_insert_Some [[<- <-]|[? ?]]%lookup_insert_Some;
      rewrite ?J5; eauto.
  - intros i k n o. rewrite Ej. intros [[<- <-]|[? Hk]]%lookup_insert_Some Hcan Ho Hi Hu; [by eapply Hno|].
    destruct (Hops n o Ho) as (_&_&p&?&(?&?&?&?&?)&?). eapply inv_cancel0; eauto; congruence.
Qed.
End closing.

(** A claim: a fresh attempt under a strictly higher fence takes a free slot,
    and its job is leased with the counter advanced. *)
Record opens (d d' : DB) (r : AttemptRow) (s s' : SlotRow) (j j' : JobRow) : Prop := {
  opn_s : db_slots d !! a_env r = Some s;
  opn_sc : s_current s = None;
  opn_j : db_jobs d !! a_job r = Some j;
  opn_jl : j_state j ≠ JobLeased;
  opn_attempts : db_attempts d' = <[db_next_attempt d := r]> (db_attempts d);
  opn_slots : db_slots d' = <[a_env r := s']> (db_slots d);
  opn_jobs : db_jobs d' = <[a_job r := j']> (db_jobs d);
  opn_r : a_state r = AttemptLeased ∧ attempt_check r = true ∧ a_fence r = s_fence s' ∧
          a_number r = j_attempt_count j' ∧ j_env j = a_env r ∧ j_server j = a_server r;
  opn_s' : s_fence s < s_fence s' ∧ s_current s' = Some (db_next_attempt d) ∧ slot_check s' = true ∧
           s_recon_attempt s' = s_recon_attempt s;
  opn_j' : same_job j j' ∧ j_attempt_count j' = j_attempt_count j + 1 ∧ j_state j' = JobLeased ∧ job_count_ok j';
  opn_dep : ∃ st dep', db_deployments d' = <[j_deployment j := st]> (db_deployments d) ∧
              storedAs (j_deployment j) st dep' ∧ working (status dep');
  opn_execution : ∃ cfg, db_execution d' = <[db_next_attempt d := cfg]> (db_execution d);
  opn_rest : db_ops d' = db_ops d ∧ db_next_attempt d' = db_next_attempt d + 1 ∧ db_next_op d' = db_next_op d;
}.

Section opening.
Context {d d' : DB} {r : AttemptRow} {s s' : SlotRow} {j j' : JobRow}.
Context (Hinv : lease_inv d) (Hop : opens d d' r s s' j j').

Lemma opens_fresh b q : db_attempts d !! b = Some q → b ≠ db_next_attempt d.
Proof. intros (?&_)%(inv_attempt d Hinv). lia. Qed.

Lemma opens_attempt b q :
  db_attempts d' !! b = Some q →
  (b = db_next_attempt d ∧ q = r) ∨ (b ≠ db_next_attempt d ∧ db_attempts d !! b = Some q).
Proof. rewrite (opn_attempts _ _ _ _ _ _ _ Hop). intros [[<- <-]|[? ?]]%lookup_insert_Some; auto. Qed.

(** No attempt of the claimed job is leased before the claim. *)
Lemma opens_unleased b q :
  db_attempts d !! b = Some q → a_state q = AttemptLeased → a_job q ≠ a_job r ∧ a_env q ≠ a_env r.
Proof.
  intros Hq Hl. destruct (inv_leased d Hinv b q Hq Hl) as (t & k & Ht & Htc & Hk & Hkl & _).
  destruct Hop as [Hs Hsc Hj Hjl _ _ _ _ _ _ _ _ _].
  split; intros E; rewrite E in *; simplify_eq; congruence.
Qed.

Lemma opens_leased b q :
  db_attempts d' !! b = Some q → a_state q = AttemptLeased →
  ∃ t k, db_slots d' !! a_env q = Some t ∧ s_current t = Some b ∧
         db_jobs d' !! a_job q = Some k ∧ j_state k = JobLeased ∧ a_number q = j_attempt_count k.
Proof.
  pose proof opens_unleased as Hun. pose proof Hop as [_ _ _ _ _ Es Ej (_&_&_&Hn&_) (_&Hsc'&_) (_&_&Hjl'&_) _ _ _].
  intros [[-> ->]|[Hne Hq]]%opens_attempt Hl; rewrite Es, Ej.
  - exists s', j'. by rewrite !lookup_insert_eq.
  - destruct (Hun b q Hq Hl). destruct (inv_leased d Hinv b q Hq Hl) as (t & k & ?).
    exists t, k. by rewrite !lookup_insert_ne.
Qed.

Lemma opens_rows b q :
  db_attempts d' !! b = Some q →
  b < db_next_attempt d' ∧ attempt_check q = true ∧
  ∃ t k, db_slots d' !! a_env q = Some t ∧ a_fence q ≤ s_fence t ∧
         db_jobs d' !! a_job q = Some k ∧ j_env k = a_env q ∧ j_server k = a_server q ∧
         a_number q ≤ j_attempt_count k ∧
         (j_state k = JobLeased → a_number q = j_attempt_count k → a_state q = AttemptLeased).
Proof.
  pose proof Hop as [Hs _ Hj _ _ Es Ej (R1&R2&R3&R4&R5&R6) (S1&_) ((_&_&J3&J4&_)&Jc&_) _ _ (_&N1&_)].
  intros [[-> ->]|[Hne Hq]]%opens_attempt; rewrite Es, Ej, N1.
  - split_and!; [lia|done|]. exists s', j'. rewrite !lookup_insert_eq. split_and!; congruence || lia.
  - destruct (inv_attempt d Hinv b q Hq) as (?&?&t&k&Ht&Hf&Hk&?&?&?&Hlast). split_and!; [lia|done|].
    exists (if decide (a_env q = a_env r) then s' else t), (if decide (a_job q = a_job r) then j' else k).
    destruct (decide (a_env q = a_env r)) as [E|]; destruct (decide (a_job q = a_job r)) as [E'|];
      rewrite ?E, ?E' in *; rewrite ?lookup_insert_eq, ?lookup_insert_ne by done; simplify_eq;
      split_and!; try done; try lia; try congruence.
Qed.

Lemma opens_history i k n :
  db_jobs d' !! i = Some k → 1 ≤ n ≤ j_attempt_count k →
  ∃ a q, db_attempts d' !! a = Some q ∧ a_job q = i ∧ a_number q = n ∧ is_Some (db_execution d' !! a).
Proof.
  pose proof Hop as [_ _ Hj _ Ea _ Ej (_&_&_&R4&_) _ (_&Jc&_) _ [cfg Ex] _].
  rewrite Ej, Ea, Ex. intros Hk Hn.
  assert ((i = a_job r ∧ n = j_attempt_count j') ∨
          ∃ k0, db_jobs d !! i = Some k0 ∧ 1 ≤ n ≤ j_attempt_count k0) as [[-> ->]|(k0 & Hk0 & Hn0)].
  { apply lookup_insert_Some in Hk as [[<- <-]|[? ?]]; [|by eauto].
    destruct (decide (n = j_attempt_count j')); [by left|right]. exists j. split; [done|lia]. }
  - exists (db_next_attempt d), r. rewrite !lookup_insert_eq. split_and!; done.
  - destruct (inv_history d Hinv i k0 n Hk0 Hn0) as (b & q & Hq & ?&?&?). pose proof (opens_fresh b q Hq).
    exists b, q. by rewrite !lookup_insert_ne.
Qed.

Lemma opens_deployment i k :
  db_jobs d' !! i = Some k →
  ∃ t dep, db_deployments d' !! j_deployment k = Some t ∧ storedAs (j_deployment k) t dep ∧
           job_status_ok (j_state k) (status dep) ∧
           (status dep = StatusActivating ↔ ∃ n o, db_ops d' !! n = Some o ∧ o_job o = i ∧ unresolved o).
Proof.
  pose proof opens_unleased as Hun. pose proof Hop as [_ _ Hj _ _ _ Ej _ _ ((_&_&_&_&J5&_)&_&Jl&_)
    (st&dep'&Ed&Hst&Hw) _ (O1&_)]. rewrite Ej, Ed, O1. intros [[<- <-]|[Hne Hk]]%lookup_insert_Some.
  - rewrite J5, lookup_insert_eq, Jl. exists st, dep'. split_and!; try done; [by left|]. split.
    + intros E. exfalso. rewrite E in Hw. unfold working in Hw. set_solver.
    + intros (n & o & Ho & Hi & Hu). exfalso. destruct (inv_op d Hinv n o Ho) as (_&_&q&Hq&_&_&?&Hql).
      destruct (Hun _ q Hq (Hql Hu)). congruence.
  - destruct (decide (j_deployment k = j_deployment j)) as [Hd|].
    { exfalso. apply Hne. by eapply (inv_one_job d Hinv). }
    rewrite lookup_insert_ne by done. by apply (inv_deployment d Hinv).
Qed.

Lemma opens_preserves : lease_inv d'.
Proof.
  pose proof opens_attempt as Hatt. pose proof opens_fresh as Hfresh. pose proof opens_leased as Hleased.
  pose proof opens_rows as Hrows. pose proof opens_history as Hhist. pose proof opens_deployment as Hdep.
  pose proof opens_unleased as Hun.
  destruct Hop as [Hs Hsc Hj Hjl Ea Es Ej (R1&R2&R3&R4&R5&R6) (S1&S2&S3&S4)
    ((_&_&_&_&J5&_)&Jc&Jl&Jk) _ [cfg Ex] (O1&N1&N2)]. destruct Hinv.
  assert (∀ b q, db_attempts d !! b = Some q → db_attempts d' !! b = Some q) as Hkeep.
  { intros b q Hq. rewrite Ea, lookup_insert_ne; [done|]. by apply not_eq_sym, (Hfresh b q). }
  split; try done.
  - intros e t b. rewrite Es. intros [[<- <-]|[Hne Ht]]%lookup_insert_Some Hb.
    + rewrite S2 in Hb. simplify_eq. exists r. by rewrite Ea, lookup_insert_eq.
    + destruct (inv_occupant0 e t b Ht Hb) as (q&?&?). eauto.
  - intros b1 q1 b2 q2 [[-> ->]|[? H1]]%Hatt [[-> ->]|[? H2]]%Hatt; eauto; intros E1 E2; exfalso.
    + destruct (inv_attempt0 b2 q2 H2) as (_&_&?&k&_&_&Hk&_&_&?&_). rewrite <-E1 in *. simplify_eq. lia.
    + destruct (inv_attempt0 b1 q1 H1) as (_&_&?&k&_&_&Hk&_&_&?&_). rewrite E1 in *. simplify_eq. lia.
  - intros b1 q1 b2 q2 [[-> ->]|[? H1]]%Hatt [[-> ->]|[? H2]]%Hatt; eauto; intros E1 E2; exfalso.
    + destruct (inv_attempt0 b2 q2 H2) as (_&_&t&?&Ht&?&_). rewrite <-E1 in *. simplify_eq. lia.
    + destruct (inv_attempt0 b1 q1 H1) as (_&_&t&?&Ht&?&_). rewrite E1 in *. simplify_eq. lia.
  - intros i k. rewrite Ej. intros [[<- <-]|[? ?]]%lookup_insert_Some; eauto.
  - intros b. rewrite Ex, Ea. rewrite !lookup_insert_is_Some'. intros [?|?]; auto.
  - intros e t. rewrite Es. intros [[<- <-]|[? Ht]]%lookup_insert_Some.
    + split; [done|]. intros b. rewrite S4. intros Hb. destruct (inv_slot0 _ s Hs) as [_ H'].
      destruct (H' b Hb) as (q&?&?). eauto.
    + destruct (inv_slot0 e t Ht) as [? H']. split; [done|]. intros b Hb. destruct (H' b Hb) as (q&?&?). eauto.
  - intros k o. rewrite O1, N2. intros Ho. destruct (inv_op0 k o Ho) as (?&?&q&?&?). eauto 6.
  - rewrite O1. done.
  - intros i1 k1 i2 k2. rewrite Ej. intros [[<- <-]|[? ?]]%lookup_insert_Some [[<- <-]|[? ?]]%lookup_insert_Some;
      rewrite ?J5; eauto.
  - intros i k n o. rewrite Ej, O1. intros [[<- <-]|[? Hk]]%lookup_insert_Some Hcan Ho Hi Hu; [|by eapply inv_cancel0].
    destruct (inv_op0 n o Ho) as (_&_&q&Hq&_&_&?&Hql). destruct (Hun _ q Hq (Hql Hu)). congruence.
Qed.
End opening.
