(* ===== verification/LeaseSteps.v ===== *)
(** * The repository's operations keep the lease invariant

    One lemma per operation: what a successful run of its transaction did to
    the rows, and hence that the invariant of LeaseInv.v survives it. *)
From S2P Require Import Prelude GoStd Deployment Queue Schema DeploymentStore LeaseCore Lease LeaseInv.
#[local] Open Scope Z_scope.

(** ** Statements on rows known to exist *)

Lemma execute_inv m d u d' : execute m d = inr (u, d') → ∃ b, m d = inr (b, d').
Proof. unfold execute. intros H. tx_inv. eauto. Qed.

Lemma expectRow_inv m e d u d' : expectRow m e d = inr (u, d') → m d = inr (true, d').
Proof. unfold expectRow. intros H. tx_inv. by subst. Qed.

Lemma execute_attempt a wh f d u d' r :
  execute (update_attempt a wh f) d = inr (u, d') → db_attempts d !! a = Some r → wh r = true →
  validate_attempt_update d r (f r) = true ∧ attempt_check (f r) = true ∧
  d' = set_attempts (<[a := f r]> (db_attempts d)) (db_next_attempt d) d.
Proof. intros [b [(_&_&Hw)|(q&_&?&?&?&?&->)]%update_attempt_inv]%execute_inv Hr Hwr; [by rewrite (Hw _ Hr) in Hwr|by simplify_eq]. Qed.

Lemma execute_slot e wh f d u d' s :
  execute (update_slot e wh f) d = inr (u, d') → db_slots d !! e = Some s → wh s = true →
  validate_slot_update s (f s) = true ∧ slot_check (f s) = true ∧
  d' = set_slots (<[e := f s]> (db_slots d)) d.
Proof. intros [b [(_&_&Hw)|(q&_&?&?&?&?&->)]%update_slot_inv]%execute_inv Hr Hwr; [by rewrite (Hw _ Hr) in Hwr|by simplify_eq]. Qed.

Lemma execute_job i wh f d u d' j :
  execute (update_job i wh f) d = inr (u, d') → db_jobs d !! i = Some j → wh j = true →
  validate_agent_job_update j (f j) = true ∧ job_check (f j) = true ∧
  d' = set_jobs (<[i := f j]> (db_jobs d)) d.
Proof. intros [b [(_&_&Hw)|(q&_&?&?&?&?&->)]%update_job_inv]%execute_inv Hr Hwr; [by rewrite (Hw _ Hr) in Hwr|by simplify_eq]. Qed.

Lemma appendAgentJobEvent_inv i a t d u d' :
  appendAgentJobEvent i a t d = inr (u, d') →
  d' = set_logs (db_job_events d ++
         [{| e_job := i; e_sequence := nextSequence i d; e_type := t; e_attempt := a |}])
         (db_route_events d) (db_audit d) d.
Proof. unfold appendAgentJobEvent. intros H. by tx_inv. Qed.

(** Bodies that only write logs. *)
Definition tx_quiet {A} (m : Tx DB Err A) : Prop := tx_rel lease_frame m.

Lemma quiet_ret {A} (x : A) : tx_quiet (tx_ret x).
Proof. intros d u d' H. by tx_inv. Qed.
Lemma quiet_append i a t : tx_quiet (appendAgentJobEvent i a t).
Proof. intros d u d' ->%appendAgentJobEvent_inv. by unfold lease_frame. Qed.
Lemma quiet_audit x y z : tx_quiet (insertServerAuditEvent x y z).
Proof. unfold insertServerAuditEvent. intros d u d' H. tx_inv. by unfold lease_frame. Qed.
Lemma quiet_bind {A B} (m : Tx DB Err A) (k : A → Tx DB Err B) :
  tx_quiet m → (∀ x, tx_quiet (k x)) → tx_quiet (tx_bind m k).
Proof. intros Hm Hk d u d' (x&d1&H1&H2)%tx_bind_inv. etrans; [by eapply Hm|by eapply Hk]. Qed.

Create HintDb quiet.
#[export] Hint Resolve quiet_ret quiet_append quiet_audit quiet_bind : quiet.

Lemma lockActiveServerCredential_inv srv dg d o d' :
  lockActiveServerCredential srv dg d = inr (o, d') → credentialMatches srv dg d = true ∧ d' = d.
Proof. unfold lockActiveServerCredential. intros H. by tx_inv. Qed.

Lemma lockAdministratorSession_inv p now d u d' :
  lockAdministratorSession p now d = inr (u, d') → validPrincipal p = true ∧ d' = d.
Proof. unfold lockAdministratorSession. intros H. by tx_inv. Qed.

Lemma lockLeaseRows_inv srv dg a d s j r d' :
  lockLeaseRows srv dg a d = inr ((s, j, r), d') →
  d' = d ∧ credentialMatches srv dg d = true ∧ db_attempts d !! a = Some r ∧ a_server r = srv ∧
  db_slots d !! a_env r = Some s ∧ db_jobs d !! a_job r = Some j.
Proof.
  unfold lockLeaseRows. intros H. tx_inv.
  match goal with H : lockActiveServerCredential _ _ _ = _ |- _ =>
    apply lockActiveServerCredential_inv in H as [? ->] end.
  bool_hyps. simplify_eq. done.
Qed.

Lemma set_deployments_id d : set_deployments (db_deployments d) d = d.
Proof. by destruct d. Qed.

(** A transition that commits leaves the deployment stored at the target. *)
Lemma transitionDeployment_effect id target at_ d u d' s dep :
  db_deployments d !! id = Some s → storedAs id s dep →
  transitionDeployment id target at_ d = inr (u, d') →
  ∃ s' dep', d' = set_deployments (<[id := s']> (db_deployments d)) d ∧ storedAs id s' dep' ∧ status dep' = target.
Proof.
  intros Hl Hs [[-> ->]|(Hcan & Hz & Hle & ->)]%(transitionDeployment_inv _ _ _ _ _ _ _ _ Hl Hs).
  - exists s, dep. by rewrite insert_id, set_deployments_id.
  - eexists _, _. split; [done|]. split; [by eapply advance_stored|done].
Qed.

(** ** Facts about an occupant *)

Lemma find_op_None P d : find_op P d = None ↔ ∀ k o, db_ops d !! k = Some o → P o = false.
Proof.
  unfold find_op. rewrite head_None. split.
  - intros Hf k o Ho. destruct (P o) eqn:E; [|done].
    apply elem_of_map_to_list in Ho. assert ((k, o) ∈ filter (λ kv, P kv.2 = true) (map_to_list (db_ops d))) as Hin.
    { by apply list_elem_of_filter. }
    rewrite Hf in Hin. by apply elem_of_nil in Hin.
  - intros Hall. destruct (filter _ _) as [|[k o] l] eqn:E; [done|]. exfalso.
    assert ((k, o) ∈ filter (λ kv, P kv.2 = true) (map_to_list (db_ops d))) as Hin by (rewrite E; left).
    apply list_elem_of_filter in Hin as [HP Hin]. apply elem_of_map_to_list in Hin. simpl in HP.
    rewrite (Hall k o Hin) in HP. done.
Qed.

Lemma find_op_Some P d k o : find_op P d = Some (k, o) → db_ops d !! k = Some o ∧ P o = true.
Proof.
  unfold find_op. intros H%head_Some_elem_of. apply list_elem_of_filter in H as [HP Hin].
  by apply elem_of_map_to_list in Hin.
Qed.

Definition no_unresolved (a : Z) (d : DB) : Prop :=
  ∀ k o, db_ops d !! k = Some o → o_attempt o = a → ¬ unresolved o.

(** [unresolvedOfAttempt] filters on the environment too: under the invariant
    it finds exactly the attempt's unresolved activations. *)
Lemma no_unresolved_env d a r :
  lease_inv d → db_attempts d !! a = Some r →
  find_op (unresolvedOfAttempt a (a_env r)) d = None → no_unresolved a d.
Proof.
  intros Hinv Hr Hf k o Ho Ha Hu. rewrite find_op_None in Hf. specialize (Hf k o Ho).
  destruct (inv_op d Hinv k o Ho) as (_&_&q&Hq&?&_). rewrite Ha in Hq. simplify_eq.
  unfold unresolvedOfAttempt in Hf. rewrite Z.eqb_refl, bool_decide_true in Hf by done.
  unfold unresolved in Hu. by rewrite Hu in Hf.
Qed.

Lemma no_unresolved_fence d a r :
  lease_inv d → db_attempts d !! a = Some r → activationOpen a (a_fence r) d = false → no_unresolved a d.
Proof.
  intros Hinv Hr Hf k o Ho Ha Hu. unfold activationOpen in Hf.
  destruct (find_op _ d) eqn:E; [done|]. rewrite find_op_None in E. specialize (E k o Ho).
  destruct (inv_op d Hinv k o Ho) as (_&_&q&Hq&_&?&_). rewrite Ha in Hq. simplify_eq.
  unfold unresolved in Hu. rewrite Hu, !(proj2 (Z.eqb_eq _ _)) in E by congruence. done.
Qed.

Lemma leased_job_unique d a r b q :
  lease_inv d → db_attempts d !! a = Some r → a_state r = AttemptLeased →
  db_attempts d !! b = Some q → a_state q = AttemptLeased → a_job q = a_job r → b = a.
Proof.
  intros Hinv Hr Hl Hq Hql E. destruct (inv_leased d Hinv a r Hr Hl) as (?&j&_&_&?&_&?).
  destruct (inv_leased d Hinv b q Hq Hql) as (?&k&_&_&?&_&?). rewrite E in *. simplify_eq.
  eapply (inv_numbers d Hinv); eauto. congruence.
Qed.

(** Without an unresolved activation the deployment is short of activating. *)
Lemma leased_working d a r j :
  lease_inv d → db_attempts d !! a = Some r → a_state r = AttemptLeased → db_jobs d !! a_job r = Some j →
  no_unresolved a d →
  ∃ s dep, db_deployments d !! j_deployment j = Some s ∧ storedAs (j_deployment j) s dep ∧ working (status dep).
Proof.
  intros Hinv Hr Hl Hj Hno. destruct (inv_deployment d Hinv _ j Hj) as (s&dep&?&?&Hok&Hact).
  destruct (inv_leased d Hinv a r Hr Hl) as (?&k&_&_&?&Hkl&_). simplify_eq. rewrite Hkl in Hok.
  exists s, dep. split_and!; try done. destruct Hok as [?|E]; [done|]. exfalso.
  apply Hact in E as (n & o & Ho & Hi & Hu). destruct (inv_op d Hinv n o Ho) as (_&_&q&Hq&_&_&Hqj&Hql).
  apply (Hno n o Ho); [|done]. eapply leased_job_unique; [done|exact Hr|done|exact Hq|auto|congruence].
Qed.

(** ** Closing operations *)

(** The common core: once the attempt, slot and job rows are rewritten and the
    deployment is where the job's new state wants it, the occupant is closed. *)
Lemma closes_intro d a r s j fr fs fj st dep' d' :
  lease_inv d → db_attempts d !! a = Some r → a_state r = AttemptLeased →
  db_slots d !! a_env r = Some s → db_jobs d !! a_job r = Some j → no_unresolved a d →
  same_attempt r fr → a_state fr ≠ AttemptLeased → attempt_check fr = true →
  s_fence s ≤ s_fence fs → s_current fs = None → slot_check fs = true →
  (∀ b, s_recon_attempt fs = Some b → b = a ∨ s_recon_attempt s = Some b) →
  same_job j fj → j_attempt_count fj = j_attempt_count j → j_state fj ≠ JobLeased → job_count_ok fj →
  storedAs (j_deployment j) st dep' → job_status_ok (j_state fj) (status dep') →
  lease_frame (set_deployments (<[j_deployment j := st]> (db_deployments d))
                (set_jobs (<[a_job r := fj]> (db_jobs d))
                  (set_slots (<[a_env r := fs]> (db_slots d))
                    (set_attempts (<[a := fr]> (db_attempts d)) (db_next_attempt d) d)))) d' →
  closes d d' a r fr s fs j fj.
Proof.
  intros Hinv Hr Hl Hs Hj Hno ????????????? (E1&E2&E3&E4&E5&E6&E7&E8). simpl in *.
  destruct (inv_leased d Hinv a r Hr Hl) as (s0&j0&?&?&?&?&?). simplify_eq.
  split; try done.
  - eauto 6.
  - intros k o. rewrite E5. intros Ho. destruct (inv_op d Hinv k o Ho) as (?&?&?&?).
    split_and!; [done|intros Hu Ha; by eapply Hno|]. exists o. by split_and!.
  - intros k o Ho _. by rewrite E5.
Qed.

Lemma count_ok_closed j st av cn up :
  job_count_ok j → j_state j = JobLeased → (st = JobRetryWait → j_attempt_count j < MaxAttempts) →
  st ≠ JobQueued → job_count_ok (j_set j st av cn (j_attempt_count j) up).
Proof. unfold job_count_ok. simpl. intros [? Hm] E Hr Hq. rewrite E in Hm. split; [done|].
  destruct st; try done. split; [done|by apply Hr]. Qed.

Lemma occupant_rows d a r :
  lease_inv d → db_attempts d !! a = Some r → a_state r = AttemptLeased →
  ∃ s j, db_slots d !! a_env r = Some s ∧ s_current s = Some a ∧ db_jobs d !! a_job r = Some j ∧
         isLeased j = true ∧ a_number r = j_attempt_count j ∧ job_count_ok j.
Proof.
  intros Hinv Hr Hl. destruct (inv_leased d Hinv a r Hr Hl) as (s&j&?&?&Hj&E&?).
  exists s, j. split_and!; try done; [unfold isLeased; by rewrite bool_decide_true|by eapply inv_count].
Qed.

(** The job step of a close. *)
Lemma close_job i j js av now d u d' :
  db_jobs d !! i = Some j → isLeased j = true →
  (if bool_decide (js = JobRetryWait) then execute (update_job i isLeased (job_retry av now))
   else execute (update_job i isLeased (job_close js now))) d = inr (u, d') →
  ∃ av', d' = set_jobs (<[i := j_set j js av' (j_cancel_requested_at j) (j_attempt_count j) now]> (db_jobs d)) d.
Proof.
  intros Hj Hl. case_bool_decide as E; intros H;
    apply (execute_job _ _ _ _ _ _ j) in H as (_&_&->); try done; eexists; try done. by rewrite E.
Qed.

Definition authorityEndState (cancel : bool) (attemptNumber : Z) : JobState :=
  if cancel then JobCancelled else if MaxAttempts <=? attemptNumber then JobDead else JobRetryWait.

(** The deployment step: it follows the job's new state. *)
Lemma close_deployment id js (dead : JobState → bool) now d u d' st dep :
  db_deployments d !! id = Some st → storedAs id st dep → working (status dep) →
  js ≠ JobQueued → (js = JobSucceeded ∨ js = JobRetryWait ∨ js = JobCancelled ∨ dead js = true) →
  (∀ k, dead k = true → k = JobDead ∨ k = JobFailed) →
  (if bool_decide (js = JobCancelled) then transitionDeployment id StatusCancelled now
   else if dead js then transitionDeployment id StatusFailed now else tx_ret tt) d = inr (u, d') →
  ∃ st' dep', d' = set_deployments (<[id := st']> (db_deployments d)) d ∧ storedAs id st' dep' ∧
              job_status_ok js (status dep').
Proof.
  intros Hst Hsa Hw Hq Hjs Hdead. case_bool_decide as E; [|destruct (dead js) eqn:E2].
  - intros H. eapply transitionDeployment_effect in H as (st'&dep'&->&?&?); [|done..]. rewrite E. eauto.
  - intros H. eapply transitionDeployment_effect in H as (st'&dep'&->&?&Hf); [|done..].
    exists st', dep'. split_and!; try done. by destruct (Hdead _ E2) as [-> | ->].
  - intros H. tx_inv. exists st, dep. rewrite insert_id, set_deployments_id by done. split_and!; try done.
    destruct Hjs as [->|[->|[->|?]]]; simpl; auto; done.
Qed.

Lemma closeAttemptOrdinary_closes d a r j cancel now draw u d' :
  lease_inv d → db_attempts d !! a = Some r → a_state r = AttemptLeased → db_jobs d !! a_job r = Some j →
  no_unresolved a d →
  closeAttemptOrdinary (a_job r) a (a_env r) (a_number r) (j_deployment j) cancel now draw d = inr (u, d') →
  ∃ r' s s' j', closes d d' a r r' s s' j j' ∧ s_fence s' = s_fence s + 1 ∧ s_recon_attempt s' = Some a ∧
    a_state r' = (if cancel then AttemptCancelled else AttemptExpired) ∧
    j_state j' = authorityEndState cancel (a_number r).
Proof.
  intros Hinv Hr Hl Hj Hno H. destruct (occupant_rows d a r Hinv Hr Hl) as (s&j0&Hs&Hc&?&Hjl&Hn&Hco). simplify_eq.
  destruct (leased_working d a r j Hinv Hr Hl Hj Hno) as (st&dep&Hst&Hsa&Hw).
  unfold closeAttemptOrdinary in H. fold (authorityEndState cancel (a_number r)) in H.
  remember (authorityEndState cancel (a_number r)) as js eqn:Ejs.
  apply tx_bind_inv in H as (u1&d1&H1&H).
  apply (execute_attempt _ _ _ _ _ _ r) in H1 as (_&Hck&->); [|done..].
  apply tx_bind_inv in H as (u2&d2&H2&H).
  apply (execute_slot _ _ _ _ _ _ s) in H2 as (_&Hsk&->); [|done..].
  apply tx_bind_inv in H as (u3&d3&H3&H).
  apply (close_job _ j) in H3 as [av ->]; [|done..].
  apply tx_bind_inv in H as (u4&d4&H4&H).
  apply (close_deployment _ js (λ k, bool_decide (k = JobDead)) _ _ _ _ st dep) in H4
    as (st'&dep'&->&Hst'&Hok); try done; cycle 1.
  { subst js. unfold authorityEndState. by repeat case_match. }
  { subst js. unfold authorityEndState. repeat case_match; auto. }
  { intros k Hk. bool_hyps. auto. }
  exists (attempt_close (if cancel then AttemptCancelled else AttemptExpired) now r), s, (slot_expire a now s),
    (j_set j js av (j_cancel_requested_at j) (j_attempt_count j) now). split; [|by split_and!].
  eapply (closes_intro _ _ _ _ _ _ _ _ st' dep'); try done.
  - by destruct cancel.
  - simpl. lia.
  - simpl. intros b [= ->]. by left.
  - subst js. unfold authorityEndState. by repeat case_match.
  - apply count_ok_closed; try done; [by apply bool_decide_eq_true in Hjl|..]; subst js; unfold authorityEndState;
      destruct cancel; try done; destruct (MaxAttempts <=? a_number r) eqn:E; try done. bool_hyps. lia.
  - assert (tx_quiet (do! appendAgentJobEvent (a_job r) (Some a) (if cancel then EvCancelled else EvExpired) in
      if cancel then tx_ret tt else match js with
      | JobRetryWait => appendAgentJobEvent (a_job r) (Some a) EvRetryScheduled
      | JobDead => appendAgentJobEvent (a_job r) (Some a) EvDead
      | _ => tx_ret tt
      end)) as Hq by (apply quiet_bind; intros; repeat case_match; auto with quiet).
    by apply Hq in H.
Qed.

(** ** The reconciliation block and the diversion *)

(** What the block writes: the operation goes to [reconciliation_required],
    the environment is flagged for the attempt; no lease row moves. *)
Record blocks (d d' : DB) (a k : Z) (e : string) : Prop := {
  blk_op : ∃ o summary now, db_ops d !! k = Some o ∧ o_state o = OpSwitchAuthorized ∧
    db_ops d' = <[k := op_set o OpReconciliationRequired summary (Some now)]> (db_ops d) ∧
    op_check (op_set o OpReconciliationRequired summary (Some now)) = true;
  blk_slot : ∃ s now, db_slots d !! e = Some s ∧ db_slots d' = <[e := slot_flag a now s]> (db_slots d);
  blk_head : ∀ h, db_heads d' !! e = Some h → h_recon_required h = true;
  blk_rest : db_attempts d' = db_attempts d ∧ db_jobs d' = db_jobs d ∧ db_deployments d' = db_deployments d ∧
             db_execution d' = db_execution d ∧ db_next_attempt d' = db_next_attempt d ∧ db_next_op d' = db_next_op d;
}.

Lemma block_head e now hd d u d' :
  db_heads d !! e = hd →
  match hd with
  | Some h => if h_recon_required h then tx_ret tt
              else expectRow (update_head e (λ h, negb (h_recon_required h)) (head_flag true now)) ErrAgentLeaseCorruptState
  | None => tx_ret tt
  end d = inr (u, d') →
  ∃ hs, d' = set_heads hs d ∧ ∀ h, hs !! e = Some h → h_recon_required h = true.
Proof.
  assert (set_heads (db_heads d) d = d) as Hid by by destruct d.
  intros Eh. destruct hd as [h|]; [destruct (h_recon_required h) eqn:Ef|].
  - intros H. tx_inv. exists (db_heads d). split; [done|]. congruence.
  - intros [(?&_)|(h'&_&?&?&?&->)]%expectRow_inv%update_head_inv; [done|].
    eexists. split; [done|]. intros h0. rewrite lookup_insert_eq. by intros [= <-].
  - intros H. tx_inv. exists (db_heads d). split; [done|]. congruence.
Qed.

Lemma blockActivation_blocks i a k e summary now d u d' :
  blockActivationForReconciliation i a k e summary now d = inr (u, d') → blocks d d' a k e.
Proof.
  unfold blockActivationForReconciliation. intros H.
  apply tx_bind_inv in H as (h0&d0&H0&H). tx_inv.
  match goal with H : expectRow (update_op _ _ _) _ _ = _ |- _ =>
    apply expectRow_inv, update_op_inv in H as [(?&_)|(o&_&Ho&Hw&_&Hck&->)]; [done|] end.
  match goal with H : _ (set_ops _ _ _) = inr _ |- _ => apply block_head in H as (hs&->&Hhs); [|done] end.
  match goal with H : expectRow (update_slot _ _ _) _ _ = _ |- _ =>
    apply expectRow_inv, update_slot_inv in H as [(?&_)|(s&_&Hs&_&_&_&->)]; [done|] end.
  apply appendAgentJobEvent_inv in H as ->. bool_hyps. simpl in *.
  split; simpl; [by exists o, summary, now|by exists s, now|done|done].
Qed.

Lemma blocks_preserves d d' a k e :
  lease_inv d → blocks d d' a k e →
  (∃ r, db_attempts d !! a = Some r ∧ a_env r = e) → lease_inv d'.
Proof.
  intros Hinv [(o&summary&now&Ho&Host&Eo&Hck) (s&now'&Hs&Es) _ (E1&E2&E3&E4&E5&E6)] Hr.
  eapply (lease_frame_inv (set_slots (<[e := slot_flag a now' s]> (db_slots d))
           (set_ops (<[k := op_set o OpReconciliationRequired summary (Some now)]> (db_ops d)) (db_next_op d) d))).
  { unfold lease_frame. simpl. by split_and!. }
  assert (lease_inv (set_ops (<[k := op_set o OpReconciliationRequired summary (Some now)]> (db_ops d)) (db_next_op d) d)) as H1.
  { eapply touch_op_preserves; try done. unfold unresolved, unresolvedActivation. by rewrite Host. }
  apply (touch_slot_preserves _ e s (slot_flag a now' s) H1); try done.
  - destruct (inv_slot d Hinv e s Hs) as [Hsc _]. unfold slot_check in *. bool_hyps. simpl.
    rewrite andb_true_iff. split; [by apply Z.leb_le|done].
  - simpl. by intros b [= ->].
Qed.

Lemma divert_inv d a r now b d' :
  lease_inv d → db_attempts d !! a = Some r →
  divertUnresolvedActivation (a_job r) a (a_env r) now d = inr (b, d') →
  (b = false ∧ d' = d ∧ no_unresolved a d) ∨
  (b = true ∧ ∃ k o, db_ops d !! k = Some o ∧ o_attempt o = a ∧ unresolved o ∧
     ((o_state o ≠ OpSwitchAuthorized ∧ d' = d) ∨ blocks d d' a k (a_env r))).
Proof.
  intros Hinv Hr H. unfold divertUnresolvedActivation in H. apply tx_bind_inv in H as (f&d0&H0&H). tx_inv.
  destruct (find_op _ d) as [[k o]|] eqn:E.
  - right. apply find_op_Some in E as [Ho HP]. unfold unresolvedOfAttempt in HP. bool_hyps.
    case_bool_decide as Es; simpl in H; tx_inv.
    + split; [done|]. exists k, o. split_and!; try done. right. by eapply blockActivation_blocks.
    + split; [done|]. exists k, o. split_and!; try done. by left.
  - left. tx_inv. split_and!; try done. by eapply no_unresolved_env.
Qed.

(** No attempt appears or changes identity. *)
Definition attempts_stable (d d' : DB) : Prop :=
  ∀ a r', db_attempts d' !! a = Some r' → ∃ r, db_attempts d !! a = Some r ∧ same_attempt r r'.

Lemma same_attempt_refl r : same_attempt r r.
Proof. by unfold same_attempt. Qed.

#[global] Instance attempts_stable_preorder : PreOrder attempts_stable.
Proof.
  split.
  - intros d a r Hr. exists r. split; [done|apply same_attempt_refl].
  - intros d1 d2 d3 H12 H23 a r3 (r2&(r1&?&?&?&?&?&?)%H12&?&?&?&?&?)%H23.
    exists r1. split; [done|]. unfold same_attempt. split_and!; congruence.
Qed.

Lemma closes_stable d d' a r r' s s' j j' :
  lease_inv d → closes d d' a r r' s s' j j' → attempts_stable d d'.
Proof. intros Hinv Hc b q (q0&?&?&_)%(closes_attempt Hinv Hc). eauto. Qed.

(** Ending an attempt's authority keeps the invariant, whichever branch. *)
Lemma closeExpiredOrRevoked_preserves d a r j cancel now draw b d' :
  lease_inv d → db_attempts d !! a = Some r → a_state r = AttemptLeased → db_jobs d !! a_job r = Some j →
  closeExpiredOrRevokedAttempt (a_job r) a (a_env r) (a_number r) (j_deployment j) cancel now draw d = inr (b, d') →
  lease_inv d' ∧ attempts_stable d d'.
Proof.
  intros Hinv Hr Hl Hj H. unfold closeExpiredOrRevokedAttempt in H.
  apply tx_bind_inv in H as (v&d1&H1&H).
  apply (divert_inv d a r) in H1 as [(->&->&Hno)|(->&k&o&Ho&Ha&Hu&Hd)]; [| |done..].
  - apply tx_bind_inv in H as (v&d2&H2&H). tx_inv.
    apply (closeAttemptOrdinary_closes d a r j) in H2 as (?&?&?&?&Hc&_); [|done..].
    split; [by eapply closes_preserves|by eapply closes_stable].
  - tx_inv. destruct Hd as [[_ ->]|Hb]; [done|]. split; [by eapply blocks_preserves; eauto|].
    unfold attempts_stable. destruct (blk_rest _ _ _ _ _ Hb) as [-> _]. intros b q ?. exists q. split; [done|apply same_attempt_refl].
Qed.

(** ** Complete and AcknowledgeCancellation *)

Lemma newJobStateOf_cases outcome fc n :
  newJobStateOf outcome fc n = JobSucceeded ∨ newJobStateOf outcome fc n = JobFailed ∨
  newJobStateOf outcome fc n = JobDead ∨ (newJobStateOf outcome fc n = JobRetryWait ∧ n < MaxAttempts).
Proof.
  unfold newJobStateOf. destruct outcome; [auto|]. destruct fc as [c|]; [|auto].
  destruct (Retryable c); simpl; [|auto]. destruct (n <? MaxAttempts) eqn:E; [|auto]. bool_hyps. auto.
Qed.

Lemma completeWrites_closes d a r j outcome fc op dg now draw u d' :
  lease_inv d → db_attempts d !! a = Some r → a_state r = AttemptLeased → db_jobs d !! a_job r = Some j →
  no_unresolved a d →
  completeWrites (a_job r) a (a_env r) (j_deployment j) (a_number r) outcome fc op dg now draw d = inr (u, d') →
  ∃ s j', closes d d' a r (attempt_close_result (closedStateOf outcome) now fc op dg r) s (slot_free now s) j j' ∧
    j_state j' = newJobStateOf outcome fc (a_number r).
Proof.
  intros Hinv Hr Hl Hj Hno H. destruct (occupant_rows d a r Hinv Hr Hl) as (s&j0&Hs&Hc&?&Hjl&Hn&Hco). simplify_eq.
  destruct (leased_working d a r j Hinv Hr Hl Hj Hno) as (st&dep&Hst&Hsa&Hw).
  pose proof (newJobStateOf_cases outcome fc (a_number r)) as Hcases.
  unfold completeWrites in H. remember (newJobStateOf outcome fc (a_number r)) as js eqn:Ejs.
  apply tx_bind_inv in H as (u1&d1&H1&H).
  apply (execute_attempt _ _ _ _ _ _ r) in H1 as (_&Hck&->); [|done..].
  apply tx_bind_inv in H as (u2&d2&H2&H).
  apply (execute_slot _ _ _ _ _ _ s) in H2 as (_&Hsk&->); [|done|by apply bool_decide_true].
  apply tx_bind_inv in H as (u3&d3&H3&H).
  apply (close_job _ j) in H3 as [av ->]; [|done..].
  apply tx_bind_inv in H as (u4&d4&H4&H).
  assert (js ≠ JobCancelled) as Hnc by (destruct Hcases as [->|[->|[->|[-> _]]]]; done).
  pose proof (close_deployment (j_deployment j) js (λ k, bool_decide (k ∈ [JobDead; JobFailed])) now) as Hcd.
  rewrite (bool_decide_false _ Hnc) in Hcd.
  eapply Hcd in H4 as (st'&dep'&->&Hst'&Hok); clear Hcd; try done; cycle 1.
  { destruct Hcases as [->|[->|[->|[-> _]]]]; done. }
  { destruct Hcases as [->|[->|[->|[-> _]]]]; auto. }
  { intros k Hk. bool_hyps. set_solver. }
  exists s, (j_set j js av (j_cancel_requested_at j) (j_attempt_count j) now). split; [|done].
  eapply (closes_intro _ _ _ _ _ _ _ _ st' dep'); try done.
  - by destruct outcome.
  - by right.
  - destruct Hcases as [->|[->|[->|[-> _]]]]; done.
  - apply count_ok_closed; try done; [by apply bool_decide_eq_true in Hjl|..];
      destruct Hcases as [->|[->|[->|[-> ?]]]]; try done. intros _. lia.
  - by apply quiet_append in H.
Qed.

Lemma acknowledgeWrites_closes d a r j op dg now u d' :
  lease_inv d → db_attempts d !! a = Some r → a_state r = AttemptLeased → db_jobs d !! a_job r = Some j →
  no_unresolved a d →
  acknowledgeWrites (a_job r) a (a_env r) (j_deployment j) op dg now d = inr (u, d') →
  ∃ s j', closes d d' a r (attempt_close_result AttemptCancelled now (a_failure_class r) op dg r) s (slot_free now s) j j' ∧
    j_state j' = JobCancelled.
Proof.
  intros Hinv Hr Hl Hj Hno H. destruct (occupant_rows d a r Hinv Hr Hl) as (s&j0&Hs&Hc&?&Hjl&Hn&Hco). simplify_eq.
  destruct (leased_working d a r j Hinv Hr Hl Hj Hno) as (st&dep&Hst&Hsa&Hw).
  unfold acknowledgeWrites in H.
  apply tx_bind_inv in H as (u1&d1&H1&H).
  apply (execute_attempt _ _ _ _ _ _ r) in H1 as (_&Hck&->); [|done..].
  apply tx_bind_inv in H as (u2&d2&H2&H).
  apply (execute_slot _ _ _ _ _ _ s) in H2 as (_&Hsk&->); [|done|by apply bool_decide_true].
  apply tx_bind_inv in H as (u3&d3&H3&H).
  apply (execute_job _ _ _ _ _ _ j) in H3 as (_&_&->); [|done..].
  apply tx_bind_inv in H as (u4&d4&H4&H).
  eapply transitionDeployment_effect in H4 as (st'&dep'&->&Hst'&Hok); [|done..].
  exists s, (job_close JobCancelled now j). split; [|done].
  eapply (closes_intro _ _ _ _ _ _ _ _ st' dep'); try done.
  - by right.
  - apply count_ok_closed; try done. by apply bool_decide_eq_true in Hjl.
  - by apply quiet_append in H.
Qed.


Lemma cancelled_no_unresolved d a r j :
  lease_inv d → db_attempts d !! a = Some r → db_jobs d !! a_job r = Some j →
  isSomeb (j_cancel_requested_at j) = true → no_unresolved a d.
Proof.
  intros Hinv Hr Hj Hc k o Ho Ha. eapply (inv_cancel d Hinv); eauto.
  destruct (inv_op d Hinv k o Ho) as (_&_&q&Hq&_&_&?&_). rewrite Ha in Hq. congruence.
Qed.

(** Complete's successful runs: a replay that changes nothing, or the close. *)
Lemma completeTx_inv srv dg a fence outS fcS op rd now draw d u d' :
  lease_inv d → completeTx srv dg a fence outS fcS op rd now draw d = inr (u, d') →
  ∃ outcome fc r, parseCompletion outS fcS = Some (outcome, fc) ∧ db_attempts d !! a = Some r ∧ a_server r = srv ∧
    ((a_state r = closedStateOf outcome ∧ a_result_operation r = Some op ∧ a_result_digest r = Some rd ∧
      a_failure_class r = fc ∧ d' = d) ∨
     (a_state r = AttemptLeased ∧ a_fence r = fence ∧ now < a_authority_expires r ∧ no_unresolved a d ∧
      ∃ s j j', s_fence s = fence ∧
        closes d d' a r (attempt_close_result (closedStateOf outcome) now fc op rd r) s (slot_free now s) j j' ∧
        j_state j' = newJobStateOf outcome fc (a_number r))).
Proof.
  unfold completeTx. intros Hinv H. apply tx_bind_inv in H as (g&d0&Hg&H). tx_inv.
  destruct (parseCompletion outS fcS) as [[outcome fc]|]; [|tx_inv].
  apply tx_bind_inv in H as ([[s j] r]&d1&(->&Hcr&Hr&Hsv&Hs&Hj)%lockLeaseRows_inv&H).
  exists outcome, fc, r. split_and!; try done.
  case_bool_decide as Hl; simpl in H.
  - right. tx_inv. bool_hyps.
    assert (no_unresolved a d) as Hno by (eapply no_unresolved_fence; [done..|by subst]).
    apply (completeWrites_closes d a r j) in H as (s0&j'&Hc&Hj'); [|done..]. split_and!; try done.
    pose proof (cls_s _ _ _ _ _ _ _ _ _ Hc). simplify_eq. eauto 6.
  - left. destruct (a_result_operation r); [|tx_inv]. tx_inv. bool_hyps. subst. by split_and!.
Qed.

Lemma complete_preserves srv dg a fence outS fcS op rd now draw :
  tx_preserves lease_inv (completeTx srv dg a fence outS fcS op rd now draw).
Proof.
  intros d u d' Hinv (?&?&?&_&_&_&[(_&_&_&_&->)|(_&_&_&_&?&?&?&_&Hc&_)])%completeTx_inv; try done.
  by eapply closes_preserves.
Qed.

Lemma acknowledgeTx_inv srv dg a fence op rd now d u d' :
  lease_inv d → acknowledgeCancellationTx srv dg a fence op rd now d = inr (u, d') →
  ∃ r, db_attempts d !! a = Some r ∧ a_server r = srv ∧
    ((a_state r = AttemptCancelled ∧ a_result_operation r = Some op ∧ a_result_digest r = Some rd ∧ d' = d) ∨
     (a_state r = AttemptLeased ∧ a_fence r = fence ∧ now < a_authority_expires r ∧ no_unresolved a d ∧
      ∃ s j j', s_fence s = fence ∧ isSomeb (j_cancel_requested_at j) = true ∧
        closes d d' a r (attempt_close_result AttemptCancelled now (a_failure_class r) op rd r) s (slot_free now s) j j' ∧
        j_state j' = JobCancelled)).
Proof.
  unfold acknowledgeCancellationTx. intros Hinv H. apply tx_bind_inv in H as (g&d0&[Hg ->]%tx_guard_inv&H).
  apply tx_bind_inv in H as ([[s j] r]&d1&(->&Hcr&Hr&Hsv&Hs&Hj)%lockLeaseRows_inv&H).
  exists r. split_and!; try done. case_bool_decide as Hl; simpl in H.
  - right. tx_inv. bool_hyps.
    assert (no_unresolved a d) as Hno by by eapply cancelled_no_unresolved.
    apply (acknowledgeWrites_closes d a r j) in H as (s0&j'&Hc&Hj'); [|done..]. split_and!; try done.
    pose proof (cls_s _ _ _ _ _ _ _ _ _ Hc). simplify_eq. eauto 7.
  - left. destruct (a_result_operation r); [|tx_inv]. tx_inv. bool_hyps. subst. by split_and!.
Qed.

Lemma acknowledge_preserves srv dg a fence op rd now :
  tx_preserves lease_inv (acknowledgeCancellationTx srv dg a fence op rd now).
Proof.
  intros d u d' Hinv (?&_&_&[(_&_&_&->)|(_&_&_&_&?&?&?&_&_&Hc&_)])%acknowledgeTx_inv; try done.
  by eapply closes_preserves.
Qed.

(** ** Renew *)

Lemma renewTx_inv srv dg a fence sequence now d res d' :
  renewTx srv dg a fence sequence now d = inr (res, d') →
  ∃ s j r, db_attempts d !! a = Some r ∧ a_server r = srv ∧ db_slots d !! a_env r = Some s ∧
    db_jobs d !! a_job r = Some j ∧ a_state r = AttemptLeased ∧ a_fence r = fence ∧ s_fence s = fence ∧
    s_current s = Some a ∧ now < a_authority_expires r ∧
    rr_CancelRequested res = isSomeb (j_cancel_requested_at j) ∧
    ((sequence = a_renewal_sequence r ∧ rr_LeaseExpiresAt res = a_lease_expires r ∧
      rr_AuthorityExpiresAt res = a_authority_expires r ∧ d' = d) ∨
     (sequence = a_renewal_sequence r + 1 ∧
      let e := match a_cancel_deadline r with Some dl => Z.min dl (now + leaseDuration) | None => now + leaseDuration end in
      rr_LeaseExpiresAt res = e ∧ rr_AuthorityExpiresAt res = e ∧ attempt_check (attempt_renew sequence e r) = true ∧
      d' = set_attempts (<[a := attempt_renew sequence e r]> (db_attempts d)) (db_next_attempt d) d)).
Proof.
  unfold renewTx. intros H. apply tx_bind_inv in H as (g&d0&[Hg ->]%tx_guard_inv&H).
  apply tx_bind_inv in H as ([[s j] r]&d1&(->&Hcr&Hr&Hsv&Hs&Hj)%lockLeaseRows_inv&H).
  apply tx_bind_inv in H as (g'&d2&[Hg' ->]%tx_guard_inv&H). unfold occupiedBy in *. bool_hyps.
  exists s, j, r. destruct (sequence =? a_renewal_sequence r) eqn:Es.
  - tx_inv. bool_hyps. split_and!; try done. by left.
  - tx_inv. match goal with H : execute _ _ = _ |- _ =>
      apply (execute_attempt _ _ _ _ _ _ r) in H as (_&Hck&->); [|done..] end.
    bool_hyps. split_and!; try done. right. split; [done|].
    assert (match a_cancel_deadline r with
            | Some dl => if dl <? now + leaseDuration then dl else now + leaseDuration
            | None => now + leaseDuration end =
            match a_cancel_deadline r with Some dl => Z.min dl (now + leaseDuration) | None => now + leaseDuration end) as E.
    { destruct (a_cancel_deadline r) as [dl|]; [|done]. destruct (dl <? now + leaseDuration) eqn:E; bool_hyps; lia. }
    rewrite E in *. by split_and!.
Qed.

Lemma renew_preserves srv dg a fence sequence now : tx_preserves lease_inv (renewTx srv dg a fence sequence now).
Proof.
  intros d res d' Hinv (s&j&r&Hr&_&_&_&Hl&_&_&_&_&_&[(_&_&_&->)|(_&_&_&Hc&->)])%renewTx_inv; [done|].
  by eapply touch_attempt_preserves.
Qed.

(** ** RequestCancellation *)

Lemma unresolved_job_leased d k o i j :
  lease_inv d → db_ops d !! k = Some o → unresolved o → o_job o = i → db_jobs d !! i = Some j → j_state j = JobLeased.
Proof.
  intros Hinv Ho Hu Hi Hj. destruct (inv_op d Hinv k o Ho) as (_&_&q&Hq&_&_&Hqj&Hql).
  destruct (inv_leased d Hinv _ q Hq (Hql Hu)) as (?&j0&_&_&Hj0&?&_). congruence.
Qed.

(** A job that is not leased is cancelled directly. *)
Lemma cancel_waiting_preserves d i j now u d1 u' d2 :
  lease_inv d → db_jobs d !! i = Some j → j_state j ≠ JobLeased →
  execute (update_job i anyRow (job_cancel_now now)) d = inr (u, d1) →
  transitionDeployment (j_deployment j) StatusCancelled now d1 = inr (u', d2) → lease_inv d2.
Proof.
  intros Hinv Hj Hnl H1 H2. apply (execute_job _ _ _ _ _ _ j) in H1 as (_&_&->); [|done..].
  destruct (inv_deployment d Hinv i j Hj) as (s&dep&Hs&Hsa&_&_).
  eapply transitionDeployment_effect in H2 as (s'&dep'&->&Hs'&Hst); [|done..].
  apply (touch_job_preserves d i j (job_cancel_now now j) s' dep'); try done.
  - destruct (inv_count d Hinv i j Hj) as [Hb _]. by split.
  - rewrite Hst. split; [done|]. intros (k&o&Ho&Hi&Hu). by destruct Hnl; eapply unresolved_job_leased.
  - by rewrite Hst.
Qed.

(** A leased job keeps its lease, capped at the grace period. *)
Lemma cancel_leased_preserves d i j a r now deadline u d1 u' d2 :
  lease_inv d → db_jobs d !! i = Some j → j_state j = JobLeased →
  db_attempts d !! a = Some r → a_state r = AttemptLeased →
  (∀ s, db_deployments d !! j_deployment j = Some s → snap_Status s ≠ StatusActivating) →
  execute (update_job i anyRow (job_cancel_request now)) d = inr (u, d1) →
  execute (update_attempt a anyRow (attempt_cap deadline)) d1 = inr (u', d2) → lease_inv d2.
Proof.
  intros Hinv Hj Hjl Hr Hl Hna H1 H2. apply (execute_job _ _ _ _ _ _ j) in H1 as (_&_&->); [|done..].
  apply (execute_attempt _ _ _ _ _ _ r) in H2 as (_&Hck&->); [|done..].
  destruct (inv_deployment d Hinv i j Hj) as (s&dep&Hs&Hsa&Hok&Hact).
  assert (status dep ≠ StatusActivating) by (destruct Hsa as (->&_); by apply (Hna _ Hs)).
  eapply touch_attempt_preserves; try done.
  eapply (lease_frame_inv (set_deployments (<[j_deployment j := s]> (db_deployments d))
    (set_jobs (<[i := job_cancel_request now j]> (db_jobs d)) d))).
  { unfold lease_frame. simpl. rewrite (insert_id (db_deployments d)) by done. by split_and!. }
  apply (touch_job_preserves d i j (job_cancel_request now j) s dep); try done. by apply (inv_count d Hinv i j).
Qed.

Lemma leased_attempt_of_job_Some i d a :
  leased_attempt_of_job i d = Some a → ∃ r, db_attempts d !! a = Some r ∧ a_job r = i ∧ a_state r = AttemptLeased.
Proof.
  unfold leased_attempt_of_job. intros ([b r]&H%head_Some_elem_of&->)%fmap_Some.
  apply list_elem_of_filter in H as [[??] Hr%elem_of_map_to_list]. eauto.
Qed.

Lemma requestCancellation_preserves p i now : tx_preserves lease_inv (requestCancellationTx p i now).
Proof.
  intros d u d' Hinv H. unfold requestCancellationTx in H.
  apply tx_bind_inv in H as (g&d0&[_ ->]%tx_guard_inv&H).
  apply tx_bind_inv in H as (g1&d1&[_ ->]%lockAdministratorSession_inv&H).
  apply tx_bind_inv in H as (j&d2&[Hj ->]%tx_some_inv&H).
  apply tx_bind_inv in H as (g3&d3&[_ ->]%tx_guard_inv&H).
  assert (∀ (Hnl : j_state j ≠ JobLeased) u d', (do! execute (update_job i anyRow (job_cancel_now now)) in
    do! transitionDeployment (j_deployment j) StatusCancelled now in appendAgentJobEvent i None EvCancelled) d
    = inr (u, d') → lease_inv d') as Hwait.
  { intros Hnl v e He. tx_inv. eapply lease_frame_inv; [by eapply quiet_append|].
    by eapply (cancel_waiting_preserves d i j). }
  destruct (j_state j) eqn:Ej; try (by tx_inv); try (by eapply (Hwait ltac:(done) u d')).  
  destruct (isSomeb (j_cancel_requested_at j)); [by tx_inv|].
  apply tx_bind_inv in H as (a&d4&[Ha ->]%tx_some_inv&H).
  apply leased_attempt_of_job_Some in Ha as (r&Hr&_&Hl).
  apply tx_bind_inv in H as (s&d5&[Hs ->]%tx_some_inv&H).
  apply tx_bind_inv in H as (g6&d6&[Hna ->]%tx_guard_inv&H). bool_hyps. tx_inv.
  eapply lease_frame_inv; [by eapply quiet_append|].
  eapply (cancel_leased_preserves d i j a r); try done. intros s' Hs'. by simplify_eq.
Qed.

(** ** Expiry, revocation, reconciliation *)

Lemma expireOne_preserves lk a now draw : tx_preserves lease_inv (expireOneTx lk a now draw).
Proof.
  intros d u d' Hinv H. unfold expireOneTx in H.
  destruct (db_attempts d !! a) as [r|] eqn:Hr; [|by simplify_eq].
  destruct (skipLocked _ (db_slots d !! _)) as [s|]; [|by simplify_eq].
  destruct (occupiedBy a s); simpl in H; [|by simplify_eq].
  destruct (skipLocked _ (db_jobs d !! _)) as [j|] eqn:Hj; [|by simplify_eq].
  destruct (isLeased j); simpl in H; [|by simplify_eq].
  unfold skipLocked in H, Hj. destruct (lk_job lk _); [done|].
  destruct (lk_attempt lk a); [by simplify_eq|].
  destruct (negb _ || _) eqn:Eg; [by simplify_eq|]. bool_hyps. tx_inv.
  by eapply closeExpiredOrRevoked_preserves in Hm as [? _].
Qed.

(** A revocation candidate names the job and environment of its attempt. *)
Definition candidate_ok (d : DB) (c : Z * AttemptRow) : Prop :=
  ∀ r, db_attempts d !! c.1 = Some r → a_job r = a_job c.2 ∧ a_env r = a_env c.2.

Lemma candidate_ok_stable d d' c : attempts_stable d d' → candidate_ok d c → candidate_ok d' c.
Proof. intros Hst Hc r' (r&Hr&?&?&?&?&?)%Hst. destruct (Hc r Hr). split; congruence. Qed.

Lemma revokeOne_preserves now draw c d u d' :
  lease_inv d → candidate_ok d c → revokeOne now draw c d = inr (u, d') → lease_inv d' ∧ attempts_stable d d'.
Proof.
  intros Hinv Hc H. unfold revokeOne in H.
  apply tx_bind_inv in H as (s&d0&[_ ->]%tx_some_inv&H). destruct (occupiedBy _ s); simpl in H; [|by tx_inv].
  apply tx_bind_inv in H as (j&d0&[Hj ->]%tx_some_inv&H). destruct (isLeased j); simpl in H; [|by tx_inv].
  apply tx_bind_inv in H as (r&d0&[Hr ->]%tx_some_inv&H). case_bool_decide; simpl in H; [|by tx_inv]. tx_inv.
  destruct (Hc r Hr) as [E1 E2]. rewrite <-E1, <-E2 in *. by eapply closeExpiredOrRevoked_preserves.
Qed.

Lemma revokeLoop_preserves now draw cs d u d' :
  lease_inv d → Forall (candidate_ok d) cs → revokeLoop now draw cs d = inr (u, d') →
  lease_inv d' ∧ attempts_stable d d'.
Proof.
  revert d. induction cs as [|c cs IH]; intros d Hinv Hcs H; simpl in H; [by tx_inv|].
  apply Forall_cons in Hcs as [Hc Hcs]. apply tx_bind_inv in H as (v&d1&H1&H2).
  apply revokeOne_preserves in H1 as [Hinv1 Hst1]; [|done..].
  apply IH in H2 as [? ?]; [|done|by eapply Forall_impl; [|intros; by eapply candidate_ok_stable]].
  split; [done|by etrans].
Qed.

Lemma inFlight_elem srv d a r :
  (a, r) ∈ inFlight srv d ↔ db_attempts d !! a = Some r ∧ a_server r = srv ∧ a_state r = AttemptLeased.
Proof.
  unfold inFlight. rewrite sorting.merge_sort_Permutation, list_elem_of_filter, elem_of_map_to_list. naive_solver.
Qed.

Lemma revokeServer_preserves p srv reason now draw : tx_preserves lease_inv (revokeServerTx p srv reason now draw).
Proof.
  intros d u d' Hinv H. unfold revokeServerTx in H.
  apply tx_bind_inv in H as (g&d0&[_ ->]%tx_guard_inv&H).
  apply tx_bind_inv in H as (g1&d1&[_ ->]%lockAdministratorSession_inv&H). tx_inv.
  match goal with H : revokeInFlightLeases _ _ _ ?e = _ |- _ => rename H into Hrev; assert (lease_inv e) as He by
    (eapply lease_frame_inv; [|exact Hinv]; by unfold lease_frame) end.
  apply quiet_audit in H. eapply lease_frame_inv; [exact H|].
  unfold revokeInFlightLeases in Hrev. apply tx_bind_inv in Hrev as (cs&d3&H3&Hrev). tx_inv.
  eapply revokeLoop_preserves in Hrev as [? _]; [done..|].
  apply Forall_forall. intros [a r] [Hr _]%inFlight_elem q Hq. simpl in *. by simplify_eq.
Qed.

Lemma slot_check_clear now s : slot_check s = true → slot_check (slot_clear now s) = true.
Proof. unfold slot_check. simpl. intros H. bool_hyps. rewrite andb_true_iff. split; [by apply Z.leb_le|done]. Qed.

Lemma clear_slot_preserves e now d u d' :
  lease_inv d → execute (update_slot e anyRow (slot_clear now)) d = inr (u, d') → lease_inv d'.
Proof.
  intros Hinv [b [(_&->&_)|(s&_&Hs&_&_&Hck&->)]%update_slot_inv]%execute_inv; [done|].
  by eapply touch_slot_preserves.
Qed.

Lemma reconcile_preserves srv dg e a fence now : tx_preserves lease_inv (reconcileTx srv dg e a fence now).
Proof.
  intros d u d' Hinv H. unfold reconcileTx in H.
  apply tx_bind_inv in H as (g&d0&[_ ->]%tx_guard_inv&H).
  apply tx_bind_inv in H as (g1&d1&[_ ->]%lockActiveServerCredential_inv&H). tx_inv.
  case_bool_decide; simpl in H; tx_inv; [|done].
  eapply lease_frame_inv; [by eapply quiet_append|]. by eapply clear_slot_preserves.
Qed.

Lemma markReconciled_preserves p e reason now : tx_preserves lease_inv (markReconciledTx p e reason now).
Proof.
  intros d u d' Hinv H. unfold markReconciledTx in H.
  apply tx_bind_inv in H as (g&d0&[_ ->]%tx_guard_inv&H).
  apply tx_bind_inv in H as (g1&d1&[_ ->]%lockAdministratorSession_inv&H). tx_inv.
  case_match; [|by tx_inv]. unfold clearPlainReconciliation in H. tx_inv.
  eapply lease_frame_inv; [by eapply quiet_append|]. eapply lease_frame_inv; [by eapply quiet_audit|].
  by eapply clear_slot_preserves.
Qed.

(** ** Claim *)

Lemma freezeAttempt_effect n a prev cfg bs ls d res d' :
  freezeAttempt n a prev cfg bs ls d = inr (res, d') →
  ∃ fs fl, db_execution d !! a = None ∧ d' = set_frozen (<[a := res.1.1]> (db_execution d)) fs fl d.
Proof.
  assert (∀ c (e : DB) u e', insertAttemptExecution a c e = inr (u, e') → db_execution e !! a = None ∧
    e' = set_frozen (<[a := c]> (db_execution e)) (db_frozen_secrets e) (db_frozen_literals e) e) as Hins.
  { unfold insertAttemptExecution. intros c e u e'. case_match; [done|]. by intros [= ? <-]. }
  unfold freezeAttempt, copyPreviousAttemptExecution, copyPreviousFrozenSecretVersions,
    copyPreviousFrozenLiteralValues, insertFrozenSecretVersions, insertFrozenLiteralValues.
  destruct (n =? 1); intros H; tx_inv;
    match goal with H : insertAttemptExecution _ _ _ = _ |- _ => apply Hins in H as [? ->] end; simpl; eauto.
Qed.

Lemma ensureRelease_effect dep e commit strat dg now d id d' :
  ensureRelease dep e commit strat dg now d = inr (id, d') → id = dep ∧ ∃ rs, d' = set_releases rs d.
Proof.
  unfold ensureRelease. intros H. apply tx_bind_inv in H as (ex&d0&H0&H). tx_inv.
  destruct (release_of_deployment dep d) as [[? r]|]; tx_inv; (split; [done|]); [|by eexists].
  exists (db_releases d). by destruct d.
Qed.

(** What [claimChecks] has established when it lets a candidate through. *)
Lemma claimChecks_Some lk srv i e now d job prev cfg bs ls :
  claimChecks lk srv i e now d = inr (Some (job, prev, cfg, bs, ls)) →
  ∃ s, db_slots d !! e = Some s ∧ s_current s = None ∧ s_recon_required s = false ∧
    db_jobs d !! i = Some job ∧ j_env job = e ∧ j_server job = srv ∧ j_state job ∈ [JobQueued; JobRetryWait] ∧
    j_available_at job ≤ now ∧ j_cancel_requested_at job = None ∧ db_configs d !! e = Some cfg ∧
    ((j_attempt_count job + 1 = 1 ∧ prev = 0 ∧ resolveRuntimeSecretBindings e d = Some bs ∧
      resolveRuntimeLiteralBindings e d = Some ls) ∨
     (j_attempt_count job + 1 ≠ 1 ∧ attempt_of_job i (j_attempt_count job) d = Some prev)).
Proof.
  unfold claimChecks, skipLocked. intros H.
  destruct (db_configs d !! e) as [c|] eqn:Ec; [|done].
  destruct (lk_slot lk e); [done|]. destruct (db_slots d !! e) as [s|] eqn:Es; [|done].
  destruct (isSomeb (s_current s) || s_recon_required s) eqn:E1; [done|].
  destruct (lk_job lk i); [done|]. destruct (db_jobs d !! i) as [j|] eqn:Ej; [|done].
  destruct (negb _ || negb _) eqn:E2; [done|]. destruct (_ || isSomeb _) eqn:E3; [done|]. bool_hyps.
  assert (s_current s = None) by (by destruct (s_current s)).
  assert (j_cancel_requested_at j = None) by (by destruct (j_cancel_requested_at j)).
  exists s. destruct (j_attempt_count j + 1 =? 1) eqn:E4; bool_hyps.
  - destruct (resolveRuntimeSecretBindings e d); [|done]. destruct (resolveRuntimeLiteralBindings e d); [|done].
    simplify_eq. split_and!; try done. by left.
  - destruct (attempt_of_job i _ d) eqn:E5; [|done]. simplify_eq. split_and!; try done. by right.
Qed.

(** The leasing UPDATE, with its error branch. *)
Lemma lease_job i st now d u d' :
  expectRow (λ d, match update_job i (λ j, bool_decide (j_state j = st)) (job_lease now) d with
                  | inl (ErrPg PgCheckViolation) => inl (ErrPg PgInFailedTransaction)
                  | r => r
                  end) (ErrPg PgInFailedTransaction) d = inr (u, d') →
  ∃ j, db_jobs d !! i = Some j ∧ j_state j = st ∧ job_check (job_lease now j) = true ∧
       d' = set_jobs (<[i := job_lease now j]> (db_jobs d)) d.
Proof.
  intros H%expectRow_inv. destruct (update_job _ _ _ d) as [[]|[b e]] eqn:E; try done; [by repeat case_match|].
  simplify_eq. apply update_job_inv in E as [(?&_)|(j&_&?&?&_&?&->)]; [done|]. bool_hyps. eauto.
Qed.

Definition fresh_attempt (i n : Z) (srv e : string) (fence expires : Z) : AttemptRow :=
  {| a_job := i; a_number := n; a_server := srv; a_env := e; a_fence := fence; a_state := AttemptLeased;
     a_renewal_sequence := 0; a_lease_expires := expires; a_authority_expires := expires;
     a_cancel_deadline := None; a_failure_class := None; a_result_operation := None;
     a_result_digest := None; a_closed_at := None |}.

(** The deployment step of a claim: assigned on the first attempt, left where
    the previous attempt brought it on a later one. *)
Lemma claim_deployment d0 i job now d u d' :
  lease_inv d0 → db_jobs d0 !! i = Some job → j_state job ∈ [JobQueued; JobRetryWait] →
  db_deployments d = db_deployments d0 →
  (if j_attempt_count job + 1 =? 1 then transitionDeployment (j_deployment job) StatusAssigned now else tx_ret tt) d
    = inr (u, d') →
  ∃ st dep', d' = set_deployments (<[j_deployment job := st]> (db_deployments d)) d ∧
             storedAs (j_deployment job) st dep' ∧ working (status dep').
Proof.
  intros Hinv Hj Hst Ed. destruct (inv_deployment d0 Hinv i job Hj) as (st&dep&Hl&Hsa&Hok&_).
  destruct (inv_count d0 Hinv i job Hj) as [_ Hc]. rewrite <-Ed in Hl.
  destruct (j_attempt_count job + 1 =? 1) eqn:E; intros H; bool_hyps.
  - eapply transitionDeployment_effect in H as (st'&dep'&->&?&Hs); [|done..].
    exists st', dep'. split_and!; try done. rewrite Hs. unfold working. set_solver.
  - tx_inv. exists st, dep. rewrite insert_id, set_deployments_id by done. split_and!; try done.
    destruct (j_state job); try (by set_solver). lia.
Qed.

Lemma claimWrites_opens srv i e job prev cfg bs ls now d l d' s :
  lease_inv d → db_slots d !! e = Some s → s_current s = None → db_jobs d !! i = Some job →
  j_env job = e → j_server job = srv → j_state job ∈ [JobQueued; JobRetryWait] →
  claimWrites srv i e job prev cfg bs ls now d = inr (l, d') →
  opens d d' (fresh_attempt i (j_attempt_count job + 1) srv e (s_fence s + 1) (now + leaseDuration)) s
    (s_set (s_fence s + 1) (Some (db_next_attempt d)) (s_recon_required s) (s_recon_attempt s) now)
    job (job_lease now job) ∧
  cl_JobID l = i ∧ cl_AttemptID l = db_next_attempt d ∧ cl_AttemptNumber l = j_attempt_count job + 1 ∧
  cl_Fence l = s_fence s + 1 ∧ cl_EnvironmentID l = e ∧ cl_DeploymentID l = j_deployment job ∧
  cl_LeaseExpiresAt l = now + leaseDuration ∧ cl_AuthorityExpiresAt l = now + leaseDuration.
Proof.
  intros Hinv Hs Hsc Hj He Hsrv Hst H. unfold claimWrites in H.
  apply tx_bind_inv in H as (?&d1&H1%expectRow_inv&H).
  apply update_slot_inv in H1 as [(?&_)|(s0&_&Hs0&_&_&Hck1&->)]; [done|]. simplify_eq.
  apply tx_bind_inv in H as (s1&d1&[Hs1 ->]%tx_some_inv&H). simpl in Hs1. rewrite lookup_insert_eq in Hs1. simplify_eq.
  apply tx_bind_inv in H as (?&d1&(j0&Hj0&_&Hjck&->)%lease_job&H). simpl in Hj0. simplify_eq.
  apply tx_bind_inv in H as (j1&d1&[Hj1 ->]%tx_some_inv&H). simpl in Hj1. rewrite lookup_insert_eq in Hj1. simplify_eq.
  apply tx_bind_inv in H as (a&d1&(_&Hck&_&->&->)%insert_attempt_inv&H).
  apply tx_bind_inv in H as (?&d1&H1&H).
  apply (execute_slot _ _ _ _ _ _ (slot_advance now s)) in H1 as (_&Hck2&->);
    [|simpl; by rewrite lookup_insert_eq|done].
  apply tx_bind_inv in H as (?&d1&(st&dep'&->&Hsa&Hw)%(claim_deployment d i job)&H); [|done..].
  apply tx_bind_inv in H as ([[cfg' bs'] ls']&d1&(fs&fl&Hnone&->)%freezeAttempt_effect&H).
  apply tx_bind_inv in H as (rel&d1&[-> [rs ->]]%ensureRelease_effect&H).
  apply tx_bind_inv in H as (?&d1&->%appendAgentJobEvent_inv&H). tx_inv. simpl.
  split; [|by split_and!]. destruct (inv_slot d Hinv _ s Hs) as [Hsk _].
  split; simpl; try done.
  - destruct (j_state job); done || set_solver.
  - rewrite insert_insert_eq. done.
  - split_and!; try done. lia.
  - split_and!; try done. destruct (inv_count d Hinv i job Hj) as [Hb _].
    unfold job_check in Hjck. simpl in Hjck. bool_hyps. split; simpl; unfold MaxAttempts; lia.
  - eauto.
  - eauto.
Qed.

Lemma tryClaim_inv lk srv i e now d res d' :
  lease_inv d → tryClaim lk srv i e now d = inr (res, d') →
  (res = None ∧ d' = d) ∨
  ∃ l s job, res = Some l ∧ db_slots d !! e = Some s ∧ s_current s = None ∧ s_recon_required s = false ∧
    db_jobs d !! i = Some job ∧ j_cancel_requested_at job = None ∧ j_available_at job ≤ now ∧
    opens d d' (fresh_attempt i (j_attempt_count job + 1) srv e (s_fence s + 1) (now + leaseDuration)) s
      (s_set (s_fence s + 1) (Some (db_next_attempt d)) (s_recon_required s) (s_recon_attempt s) now)
      job (job_lease now job) ∧
    cl_JobID l = i ∧ cl_AttemptID l = db_next_attempt d ∧ cl_AttemptNumber l = j_attempt_count job + 1 ∧
    cl_Fence l = s_fence s + 1 ∧ cl_EnvironmentID l = e ∧ cl_DeploymentID l = j_deployment job ∧
    cl_LeaseExpiresAt l = now + leaseDuration ∧ cl_AuthorityExpiresAt l = now + leaseDuration.
Proof.
  unfold tryClaim. intros Hinv H.
  destruct (claimChecks lk srv i e now d) as [|[[[[[job prev] cfg] bs] ls]|]] eqn:Ec; [done| |].
  - right. apply claimChecks_Some in Ec as (s&Hs&Hsc&Hrec&Hj&He&Hsrv&Hst&Hav&Hcan&_).
    apply tx_bind_inv in H as (l&d1&H1&H). tx_inv.
    apply (claimWrites_opens _ _ _ _ _ _ _ _ _ _ _ _ s) in H1 as (?&?&?&?&?&?&?&?&?); [|done..].
    exists l, s, job. by split_and!.
  - left. by simplify_eq.
Qed.

Lemma tryClaim_preserves lk srv i e now : tx_preserves lease_inv (tryClaim lk srv i e now).
Proof.
  intros d res d' Hinv [[_ ->]|(?&?&?&_&_&_&_&_&_&_&Ho&_)]%tryClaim_inv; [done| |done].
  by eapply opens_preserves.
Qed.

Lemma claimLoop_preserves lk srv limit now claimed cs : tx_preserves lease_inv (claimLoop lk srv limit now claimed cs).
Proof.
  revert claimed. induction cs as [|c cs IH]; intros claimed d res d' Hinv H; simpl in H; [by tx_inv|].
  destruct (limit <=? _); [by tx_inv|]. apply tx_bind_inv in H as (r&d1&H1&H).
  eapply IH; [|done]. by eapply tryClaim_preserves.
Qed.

Lemma claim_preserves lk srv dg limit now cs : tx_preserves lease_inv (claimTx lk srv dg limit now cs).
Proof.
  intros d res d' Hinv H. unfold claimTx in H.
  apply tx_bind_inv in H as (o&d1&[_ ->]%lockActiveServerCredential_inv&H). by eapply claimLoop_preserves.
Qed.

Lemma ensureSlots_preserves now envs d : lease_inv d → lease_inv (ensureSlots now envs d).
Proof.
  intros Hinv. unfold ensureSlots. assert (lease_inv (set_slots (db_slots d) d)) as H by (by destruct d).
  revert H. generalize (db_slots d) as m. induction envs as [|e envs IH]; intros m Hm; simpl; [done|].
  apply IH. destruct (m !! e) eqn:E; [done|].
  apply (new_slot_preserves (set_slots m d) e {| s_fence := 0; s_current := None; s_recon_required := false;
    s_recon_attempt := None; s_updated_at := now |}); done.
Qed.

(** ** Progress and checkout *)

Lemma reauthorize_inv srv dg a fence now d j r d' :
  reauthorize srv dg a fence now d = inr ((j, r), d') →
  d' = d ∧ credentialMatches srv dg d = true ∧ db_attempts d !! a = Some r ∧ a_server r = srv ∧
  db_jobs d !! a_job r = Some j ∧ a_state r = AttemptLeased ∧ a_fence r = fence ∧ now < a_authority_expires r ∧
  j_cancel_requested_at j = None ∧
  ∃ s, db_slots d !! a_env r = Some s ∧ s_fence s = fence ∧ s_recon_required s = false ∧ s_current s = Some a.
Proof.
  unfold reauthorize. intros H. apply tx_bind_inv in H as (o&d1&[Hcr ->]%lockActiveServerCredential_inv&H).
  tx_inv. unfold occupiedBy in *. bool_hyps. simplify_eq.
  assert (j_cancel_requested_at j = None) by (by destruct (j_cancel_requested_at j)).
  split_and!; try done. eauto.
Qed.

(** Progress of a leased job that is short of activating. *)
Lemma progress_preserves d i j s dep target now u d' :
  lease_inv d → db_jobs d !! i = Some j → j_state j = JobLeased →
  db_deployments d !! j_deployment j = Some s → storedAs (j_deployment j) s dep →
  status dep ≠ StatusActivating → working target →
  transitionDeployment (j_deployment j) target now d = inr (u, d') → lease_inv d'.
Proof.
  intros Hinv Hj Hjl Hs Hsa Hna Hw H.
  eapply transitionDeployment_effect in H as (s'&dep'&->&Hs'&Hst); [|done..].
  destruct (inv_deployment d Hinv i j Hj) as (s0&dep0&Hs0&Hsa0&_&Hact). simplify_eq.
  assert (dep0 = dep) as -> by (destruct Hsa as (->&_&?&?), Hsa0 as (E&_&?&?); unfold snapshotOf in E;
    destruct dep, dep0; simpl in *; by simplify_eq).
  eapply (lease_frame_inv (set_deployments (<[j_deployment j := s']> (db_deployments d))
    (set_jobs (<[i := j]> (db_jobs d)) d))).
  { unfold lease_frame. simpl. rewrite (insert_id (db_jobs d)) by done. by split_and!. }
  assert (status dep' ≠ StatusActivating) by (intros E; rewrite E in Hw; unfold working in Hw; set_solver).
  apply (touch_job_preserves d i j j s' dep'); try done.
  - by apply (inv_count d Hinv i j).
  - rewrite Hjl. by left.
  - split; [done|]. intros H'. by apply Hact in H'.
Qed.

Lemma reportProgress_preserves srv dg a fence phase now :
  tx_preserves lease_inv (reportProgressTx srv dg a fence phase now).
Proof.
  intros d u d' Hinv H. unfold reportProgressTx in H.
  apply tx_bind_inv in H as (g&d0&[Hg ->]%tx_guard_inv&H). bool_hyps.
  apply tx_bind_inv in H as ([j r]&d1&(->&_&Hr&_&Hj&Hl&_)%reauthorize_inv&H).
  apply tx_bind_inv in H as (s&d2&[Hs ->]%tx_some_inv&H).
  destruct (inv_deployment d Hinv _ j Hj) as (s0&dep&Hs0&Hsa&Hok&_). simplify_eq.
  destruct (ExecutionOrder (snap_Status s)) as [cur onPath] eqn:Eo.
  apply tx_bind_inv in H as (g'&d3&[_ ->]%tx_guard_inv&H).
  destruct (_ <=? cur) eqn:E1; [by tx_inv|]. destruct (cur + 1 <? _) eqn:E2; [by tx_inv|]. bool_hyps.
  destruct (inv_leased d Hinv a r Hr Hl) as (?&j0&_&_&?&Hjl&_). simplify_eq.
  eapply (progress_preserves d (a_job r) j s dep phase); try done.
  - intros Ha. destruct Hsa as (->&_). simpl in Eo. rewrite Ha in Eo. simpl in Eo. simplify_eq.
    destruct phase; try done; simpl in *; lia.
  - destruct phase; try done; unfold working; set_solver.
Qed.
