(* ===== verification/LeaseSpec.v ===== *)
(** * The environment lease: abstract specification and refinement

    What the repository promises each environment is a small object: a fence,
    an optional holder and an optional block.  [lease_step] is its
    specification, a step relation labelled with what happened to whom;
    [change] lists the ways one repository write set can alter the lease
    tables, given the events it is permitted; and every change is, for every
    environment, at most one permitted step of the specification.  The second
    invariant [block_inv] ties the reconciliation flags of the slots to the
    activations that need reconciliation. *)
From S2P Require Import Prelude GoStd Deployment Queue Schema DeploymentStore LeaseCore Lease LeaseInv LeaseSteps.
From stdpp Require Import relations.
#[local] Open Scope Z_scope.

(** ** The specification *)

Record Lease := { l_fence : Z; l_holder : option Z; l_blocked : option Z }.

(** What happens to an environment's lease, and which attempt it concerns;
    a resolution names the activation it decides. *)
Inductive lease_event :=
  | Acquire (a : Z)
  | Release (a : Z)
  | Expire (a : Z)
  | Block (a : Z)
  | Resolve (a k : Z)
  | Clear (a : Z).

Inductive lease_step : lease_event → Lease → Lease → Prop :=
  (** a free, unblocked environment is leased under a new fence *)
  | step_acquire f a :
      lease_step (Acquire a) {| l_fence := f; l_holder := None; l_blocked := None |}
                             {| l_fence := f + 1; l_holder := Some a; l_blocked := None |}
  (** the holder reports its own end *)
  | step_release f a :
      lease_step (Release a) {| l_fence := f; l_holder := Some a; l_blocked := None |}
                             {| l_fence := f; l_holder := None; l_blocked := None |}
  (** the holder's authority is taken away: it is fenced off, and the
      environment stays blocked until somebody has looked at it *)
  | step_expire f a :
      lease_step (Expire a) {| l_fence := f; l_holder := Some a; l_blocked := None |}
                            {| l_fence := f + 1; l_holder := None; l_blocked := Some a |}
  (** the outcome of the holder's traffic switch is unknown *)
  | step_block f a b :
      b = None ∨ b = Some a →
      lease_step (Block a) {| l_fence := f; l_holder := Some a; l_blocked := b |}
                           {| l_fence := f; l_holder := Some a; l_blocked := Some a |}
  (** the outcome became known *)
  | step_resolve f a b k :
      b = None ∨ b = Some a →
      lease_step (Resolve a k) {| l_fence := f; l_holder := Some a; l_blocked := b |}
                               {| l_fence := f; l_holder := None; l_blocked := None |}
  (** the block of a fenced-off attempt is lifted *)
  | step_clear f a :
      lease_step (Clear a) {| l_fence := f; l_holder := None; l_blocked := Some a |}
                           {| l_fence := f; l_holder := None; l_blocked := None |}.

(** A step whose event satisfies [P]; any step. *)
Definition lease_step_in (P : lease_event → Prop) (x y : Lease) : Prop := ∃ ev, P ev ∧ lease_step ev x y.
Definition lease_moves : Lease → Lease → Prop := lease_step_in (λ _, True).

(** A step, or nothing. *)
Inductive rc {A} (R : A → A → Prop) (x : A) : A → Prop :=
  | rc_refl : rc R x x
  | rc_once y : R x y → rc R x y.

Lemma rc_rtc {A} (R : A → A → Prop) x y : rc R x y → rtc R x y.
Proof. destruct 1; [done|by apply rtc_once]. Qed.

Lemma rc_mono {A} (R S : A → A → Prop) x y : (∀ u v, R u v → S u v) → rc R x y → rc S x y.
Proof. intros H. destruct 1; [left|right; by apply H]. Qed.

(** Steps that never come two in a row, or then amount to one, are one. *)
Lemma rtc_rc {A} (R : A → A → Prop) x y : (∀ u v w, R u v → R v w → rc R u w) → rtc R x y → rc R x y.
Proof.
  intros HR H. revert x H. refine (rtc_ind_l (λ x, rc R x y) y _ _); [left|]. intros u v Huv _ [|w Hvw]; [by right|by eapply HR].
Qed.

(** An environment without a slot row is free under fence 0. *)
Definition lease_of (s : SlotRow) : Lease :=
  {| l_fence := s_fence s; l_holder := s_current s; l_blocked := s_recon_attempt s |}.
Definition lease_at (d : DB) (e : string) : Lease :=
  match db_slots d !! e with
  | Some s => lease_of s
  | None => {| l_fence := 0; l_holder := None; l_blocked := None |}
  end.

(** ** Facts about the specification *)

Lemma lease_step_fence x y : lease_moves x y → l_fence x ≤ l_fence y.
Proof. intros (ev&_&H). destruct H; simpl; lia. Qed.

Lemma lease_steps_fence x y : rtc lease_moves x y → l_fence x ≤ l_fence y.
Proof. induction 1 as [|x y z H _ IH]; [lia|]. apply lease_step_fence in H. lia. Qed.

(** One step does not hand a held environment over. *)
Lemma lease_step_holder P x y a b :
  rc (lease_step_in P) x y → l_holder x = Some a → l_holder y = Some b → a = b ∧ l_fence y = l_fence x.
Proof. intros [|z (ev&_&H)]; [by intros; simplify_eq|]. by destruct H; intros; simplify_eq/=. Qed.

(** A holder that is not there any more, or is another one, implies that the
    environment was released; a new holder has a larger fence. *)
Lemma lease_steps_holder x y a b :
  rtc lease_moves x y → l_holder x = Some a → l_holder y = Some b → l_fence x < l_fence y ∨ (b = a ∧ l_fence x = l_fence y).
Proof.
  intros H Hx Hy. revert x H Hx. refine (rtc_ind_l (λ x, l_holder x = Some a → _) y _ _).
  - intros Hx. right. split; [congruence|done].
  - assert (∀ z, rtc lease_moves z y → l_holder z = None → l_fence z < l_fence y) as Hfree.
    { intros z Hz Hn. revert z Hz Hn. refine (rtc_ind_l (λ z, l_holder z = None → _) y _ _); [congruence|].
      intros z z' (ev&_&Hz) Hs IH Hn. pose proof (lease_steps_fence _ _ Hs). destruct Hz; simpl in *; try done; [lia|]. by apply IH. }
    intros x z (ev&_&Hz) Hs IH Hx. pose proof (lease_steps_fence _ _ Hs). destruct Hz; simpl in *; try done.
    + left. by apply (Hfree _ Hs).
    + left. apply Hfree in Hs; [|done]. simpl in Hs. lia.
    + by apply IH.
    + left. by apply (Hfree _ Hs).
Qed.

(** ** Blocks and activations *)

Record block_inv (d : DB) : Prop := {
  (** an activation that needs reconciliation blocks its environment *)
  bi_flagged : ∀ k o, db_ops d !! k = Some o → o_state o = OpReconciliationRequired →
    ∃ s, db_slots d !! o_env o = Some s ∧ s_recon_attempt s = Some (o_attempt o);
  (** a held environment is blocked only by its holder's activation *)
  bi_held : ∀ e s a, db_slots d !! e = Some s → s_current s = Some a → s_recon_required s = true →
    ∃ k o, db_ops d !! k = Some o ∧ o_state o = OpReconciliationRequired ∧ o_attempt o = a;
  (** the repository authorizes a switch when it records the operation *)
  bi_started : ∀ k o, db_ops d !! k = Some o → o_state o ≠ OpStarted;
}.

Lemma recon_unresolved o : o_state o = OpReconciliationRequired → unresolved o.
Proof. unfold unresolved. by intros ->. Qed.

(** The occupant's environment has no other unresolved activation. *)
Lemma unresolved_occupant d k o e s :
  lease_inv d → db_ops d !! k = Some o → unresolved o → o_env o = e → db_slots d !! e = Some s →
  s_current s = Some (o_attempt o).
Proof.
  intros Hinv Ho Hu He Hs. destruct (inv_op d Hinv k o Ho) as (_&_&r&Hr&Hre&_&_&Hl).
  destruct (inv_leased d Hinv _ r Hr (Hl Hu)) as (s0&_&Hs0&Hc&_). congruence.
Qed.

Lemma flag_recon s : slot_check s = true → s_recon_required s = isSomeb (s_recon_attempt s).
Proof. unfold slot_check. intros H. bool_hyps. by apply Bool.eqb_prop. Qed.

(** A held, flagged slot is flagged for its occupant. *)
Lemma held_blocked d e s a :
  lease_inv d → block_inv d → db_slots d !! e = Some s → s_current s = Some a →
  s_recon_attempt s = None ∨
  (s_recon_attempt s = Some a ∧ ∃ k o, db_ops d !! k = Some o ∧ unresolved o ∧ o_attempt o = a).
Proof.
  intros Hinv Hb Hs Hc. destruct (s_recon_attempt s) as [b|] eqn:E; [right|by left].
  destruct (inv_slot d Hinv e s Hs) as [Hck _]. apply flag_recon in Hck. rewrite E in Hck.
  destruct (bi_held d Hb e s a Hs Hc Hck) as (k&o&Ho&Hst&Ha). pose proof (recon_unresolved o Hst).
  destruct (bi_flagged d Hb k o Ho Hst) as (s'&Hs'&Hr').
  destruct (inv_op d Hinv k o Ho) as (_&_&r&Hr&Hre&_). destruct (inv_occupant d Hinv e s a Hs Hc) as (r1&Hr1&_&He1&_).
  assert (o_env o = e) by congruence. split; [congruence|eauto].
Qed.

(** ** The kinds of change *)

(** [P e ev] says which events the change may cause in which environment; an
    attempt whose activation is unresolved can only end by resolving it in the
    same transaction. *)
Inductive change (P : string → lease_event → Prop) (d d' : DB) : Prop :=
  (** slots and blocked activations are as they were *)
  | change_quiet :
      db_slots d' = db_slots d →
      (∀ k o', db_ops d' !! k = Some o' → o_state o' = OpReconciliationRequired →
         ∃ o, db_ops d !! k = Some o ∧ o_state o = OpReconciliationRequired ∧ o_env o' = o_env o ∧ o_attempt o' = o_attempt o) →
      (∀ k o, db_ops d !! k = Some o → o_state o = OpReconciliationRequired →
         ∃ o', db_ops d' !! k = Some o' ∧ o_state o' = OpReconciliationRequired ∧ o_attempt o' = o_attempt o) →
      (∀ k o, db_ops d !! k = Some o → unresolved o →
         ∃ o', db_ops d' !! k = Some o' ∧ unresolved o' ∧ o_attempt o' = o_attempt o ∧ o_env o' = o_env o) →
      (∀ k o', db_ops d' !! k = Some o' → o_state o' = OpStarted → ∃ o, db_ops d !! k = Some o ∧ o_state o = OpStarted) →
      change P d d'
  | change_slot e s :
      db_slots d !! e = None → s_fence s = 0 → s_current s = None → s_recon_attempt s = None →
      db_slots d' = <[e := s]> (db_slots d) → db_ops d' = db_ops d → change P d d'
  | change_open r s s' j j' :
      opens d d' r s s' j j' → P (a_env r) (Acquire (db_next_attempt d)) → s_recon_required s = false → s_recon_required s' = false → s_fence s' = s_fence s + 1 →
      change P d d'
  | change_close a r r' s s' j j' :
      closes d d' a r r' s s' j j' →
      (no_unresolved a d ∧ P (a_env r) (Release a) ∧ s_fence s' = s_fence s ∧ s_recon_attempt s' = s_recon_attempt s) ∨
      (no_unresolved a d ∧ P (a_env r) (Expire a) ∧ s_fence s' = s_fence s + 1 ∧ s_recon_attempt s' = Some a) ∨
      ((∃ k o, db_ops d !! k = Some o ∧ o_attempt o = a ∧ unresolved o ∧ P (a_env r) (Resolve a k)) ∧
       s_fence s' = s_fence s ∧ s_recon_attempt s' = None) →
      change P d d'
  | change_block a k e r :
      blocks d d' a k e → P e (Block a) → db_attempts d !! a = Some r → a_env r = e → a_state r = AttemptLeased →
      (∀ o, db_ops d !! k = Some o → o_attempt o = a) → change P d d'
  | change_clear e s now :
      db_slots d !! e = Some s → db_slots d' = <[e := slot_clear now s]> (db_slots d) → db_ops d' = db_ops d →
      (∀ k o, db_ops d !! k = Some o → o_env o = e → ¬ unresolved o) → (∀ b, s_recon_attempt s = Some b → P e (Clear b)) → change P d d'.

Lemma change_blocks P d d' : lease_inv d → block_inv d → change P d d' → block_inv d'.
Proof.
  intros Hinv Hb Hch.
  destruct Hch as [Es Hback Hfwd _ Hstd|e s Hno Hf Hc Hr Es Eo|r s s' j j' Ho _ Hfl Hfl' Hf|a r r' s s' j j' Hcl Hk
    |a k e r Hblk _ Hr He Hl Hop|e s now Hs Es Eo Hnone _].
  - split; rewrite ?Es.
    + intros k o' Ho' Hst. destruct (Hback k o' Ho' Hst) as (o&Ho&Ho1&->&->). by eapply bi_flagged.
    + intros e s a Hs Hc Hfl. destruct (bi_held d Hb e s a Hs Hc Hfl) as (k&o&Ho&Hst&<-).
      destruct (Hfwd k o Ho Hst) as (o'&?&?&?). eauto.
    + intros k o' Ho' Hst. destruct (Hstd k o' Ho' Hst) as (o&Ho&?). by eapply bi_started.
  - split; rewrite ?Es, ?Eo.
    + intros k o Ho Hst. destruct (bi_flagged d Hb k o Ho Hst) as (t&Ht&?). exists t.
      rewrite lookup_insert_ne by congruence. done.
    + intros e' t a [[<- <-]|[_ Ht]]%lookup_insert_Some; [congruence|by eapply bi_held].
    + by apply bi_started.
  - destruct Ho as [Hs Hsc _ _ _ Es _ _ (_&Hsc'&_) _ _ _ (Eo&_)]. split; rewrite ?Es, ?Eo.
    + intros k o Ho Hst. destruct (bi_flagged d Hb k o Ho Hst) as (t&Ht&?). exists t.
      rewrite lookup_insert_ne; [done|]. intros E.
      pose proof (unresolved_occupant d k o _ s Hinv Ho (recon_unresolved o Hst) (eq_sym E) Hs). congruence.
    + intros e' t a [[<- <-]|[_ Ht]]%lookup_insert_Some; [congruence|by eapply bi_held].
    + by apply bi_started.
  - destruct Hcl as [Hr Hrl Hs Hsc _ _ Es _ _ (_&Hsc'&_) _ _ Hops Hkept _]. split; rewrite ?Es.
    + intros k o Ho Hst. pose proof (recon_unresolved o Hst) as Hu.
      destruct (Hops k o Ho) as (_&Hna&o0&Ho0&(_&_&Ea&_&_)&_). specialize (Hna Hu).
      assert (db_ops d' !! k = Some o0) by (apply Hkept; congruence). assert (o0 = o) as -> by congruence.
      destruct (bi_flagged d Hb k o Ho0 Hst) as (t&Ht&?). exists t. rewrite lookup_insert_ne; [done|].
      intros E. pose proof (unresolved_occupant d k o _ s Hinv Ho0 Hu (eq_sym E) Hs). congruence.
    + intros e t b [[<- <-]|[Hne Ht]]%lookup_insert_Some Hc Hfl; [congruence|].
      destruct (bi_held d Hb e t b Ht Hc Hfl) as (k&o&Ho&Hst&Ha). exists k, o. split_and!; [|done..].
      apply Hkept; [done|]. intros E. destruct (inv_occupant d Hinv e t b Ht Hc) as (q&Hq&_&Hqe&_). congruence.
    + intros k o Ho Hst. assert (unresolved o) as Hu by (unfold unresolved; by rewrite Hst).
      destruct (Hops k o Ho) as (_&Hna&o0&Ho0&(_&_&Ea&_&_)&_). specialize (Hna Hu).
      assert (db_ops d' !! k = Some o0) by (apply Hkept; congruence). apply (bi_started d Hb k o0 Ho0). congruence.
  - destruct Hblk as [(o&sm&now&Ho&Host&Eo&_) (s&now'&Hs&Es) _ _]. pose proof (Hop o Ho) as Ha.
    destruct (inv_op d Hinv k o Ho) as (_&_&q&Hq&Hqe&_). assert (o_env o = e) as Hoe by congruence.
    split; rewrite ?Es, ?Eo.
    + intros k' p [[<- <-]|[Hne Hp]]%lookup_insert_Some Hst.
      { exists (slot_flag a now' s). simpl. rewrite Hoe, lookup_insert_eq. by rewrite Ha. }
      destruct (bi_flagged d Hb k' p Hp Hst) as (t&Ht&?). exists t. rewrite lookup_insert_ne; [done|].
      intros E. destruct Hne. eapply (inv_op_unique d Hinv); eauto using recon_unresolved; [congruence|].
      unfold unresolved. by rewrite Host.
    + intros e' t b [[<- <-]|[Hne Ht]]%lookup_insert_Some Hc Hfl.
      { simpl in Hc. destruct (inv_leased d Hinv a r Hr Hl) as (s0&_&Hs0&Hc0&_). exists k. eexists.
        rewrite lookup_insert_eq. split_and!; [done|done|]. simpl. congruence. }
      destruct (bi_held d Hb e' t b Ht Hc Hfl) as (k'&p&Hp&Hst&Hpa). exists k', p. split_and!; [|done..].
      rewrite lookup_insert_ne; [done|]. intros <-. congruence.
    + intros k' p [[<- <-]|[_ Hp]]%lookup_insert_Some; [done|by eapply bi_started].
  - split; rewrite ?Es, ?Eo.
    + intros k o Ho Hst. destruct (bi_flagged d Hb k o Ho Hst) as (t&Ht&?). exists t. rewrite lookup_insert_ne; [done|].
      intros E. by destruct (Hnone k o Ho (eq_sym E)); apply recon_unresolved.
    + intros e' t b [[<- <-]|[Hne Ht]]%lookup_insert_Some Hc Hfl; [done|by eapply bi_held].
    + by apply bi_started.
Qed.

(** Rewriting one slot is a step of that environment's lease and of no other. *)
Lemma lease_at_insert P d d' e s' :
  db_slots d' = <[e := s']> (db_slots d) → rc (lease_step_in (P e)) (lease_at d e) (lease_of s') →
  ∀ e', rc (lease_step_in (P e')) (lease_at d e') (lease_at d' e').
Proof.
  intros Es Hstep e'. unfold lease_at at 2. rewrite Es. destruct (decide (e' = e)) as [->|Hne].
  - by rewrite lookup_insert_eq.
  - rewrite lookup_insert_ne by done. left.
Qed.

Lemma lease_at_Some d e s : db_slots d !! e = Some s → lease_at d e = lease_of s.
Proof. unfold lease_at. by intros ->. Qed.

Lemma permitted (P : lease_event → Prop) ev x y : P ev → lease_step ev x y → rc (lease_step_in P) x y.
Proof. intros. right. by exists ev. Qed.

Lemma change_refines P d d' :
  lease_inv d → block_inv d → change P d d' → ∀ e, rc (lease_step_in (P e)) (lease_at d e) (lease_at d' e).
Proof.
  intros Hinv Hb Hch.
  destruct Hch as [Es _ _ _ _|e s Hno Hf Hc Hr Es _|r s s' j j' Ho Hp Hfl Hfl' Hf|a r r' s s' j j' Hcl Hk
    |a k e r Hblk Hp Hr He Hl _|e s now Hs Es Eo Hnone Hp].
  - intros e. unfold lease_at. rewrite Es. left.
  - eapply lease_at_insert; [done|]. unfold lease_at, lease_of. rewrite Hno, Hf, Hc, Hr. left.
  - destruct Ho as [Hs Hsc _ _ _ Es _ _ (_&Hsc'&Hck'&Hra) _ _ _ _]. eapply lease_at_insert; [done|].
    rewrite (lease_at_Some d (a_env r) s Hs).
    assert (s_recon_attempt s = None) as E.
    { destruct (inv_slot d Hinv _ s Hs) as [Hck _]. apply flag_recon in Hck. rewrite Hfl in Hck. by destruct (s_recon_attempt s). }
    unfold lease_of. rewrite Hsc, Hsc', Hf, Hra, E. eapply permitted; [exact Hp|constructor].
  - destruct Hcl as [Hr Hrl Hs Hsc _ _ Es _ _ (_&Hsc'&_) _ _ _ _ _]. eapply lease_at_insert; [done|].
    rewrite (lease_at_Some d (a_env r) s Hs). unfold lease_of. rewrite Hsc, Hsc'.
    destruct (held_blocked d _ s a Hinv Hb Hs Hsc) as [Hn|(Hn&k&o&Ho&Hu&Ha)];
      destruct Hk as [(Hno&Hp&->&->)|[(Hno&Hp&->&->)|((k'&o'&_&_&_&Hp)&->&->)]]; rewrite ?Hn; try by destruct (Hno k o).
    all: eapply permitted; [exact Hp|constructor; by auto].
  - destruct Hblk as [_ (s&now'&Hs&Es) _ _]. eapply lease_at_insert; [done|]. rewrite (lease_at_Some d e s Hs).
    destruct (inv_leased d Hinv a r Hr Hl) as (s0&_&Hs0&Hc0&_). assert (s0 = s) as -> by congruence.
    unfold lease_of. simpl. rewrite Hc0. eapply permitted; [exact Hp|constructor].
    destruct (held_blocked d _ s a Hinv Hb Hs Hc0) as [Hn|(Hn&_)]; auto.
  - eapply lease_at_insert; [done|]. rewrite (lease_at_Some d e s Hs). unfold lease_of. simpl.
    destruct (s_current s) as [a|] eqn:Hc.
    + destruct (held_blocked d _ s a Hinv Hb Hs Hc) as [->|(Hn&k&o&Ho&Hu&Ha)]; [left|].
      exfalso. eapply (Hnone k o); [done| |done]. destruct (inv_op d Hinv k o Ho) as (_&_&q&Hq&Hqe&_).
      destruct (inv_occupant d Hinv e s a Hs Hc) as (q'&Hq'&_&Hqe'&_). congruence.
    + destruct (s_recon_attempt s) as [b|]; [|left]. eapply permitted; [by apply Hp|constructor].
Qed.
