(* ===== verification/Activation.v ===== *)
(** * Fenced activation (agent_lease_repository.go, activation_late_report.go)

    Activate (tx1: authorize the switch and render the route), the success
    writes [finalizeActivationSucceeded], and ReportActivationResult (tx2) with
    its rule that a deterministic failure to finalize becomes a durable
    reconciliation block.

    tx2 may commit and still answer an error, so it is a function from the
    database to an answer and a database rather than one transaction body.
    Statements that fail for reasons outside the database's own rules
    (connection loss, cancellation, fault injection) are not modelled: they
    roll back and leave no trace. *)
From S2P Require Import Prelude GoStd Deployment Queue Route Schema Evidence DeploymentStore LeaseCore Lease.
From Stdlib Require Import Ascii.
#[local] Open Scope Z_scope.

(** ** COMMIT *)

(** The deferred constraint triggers of 000018, checked at COMMIT: every
    release a route head names is active. *)
Definition headOk (d : DB) (h : HeadRow) : bool :=
  match h_active h with
  | Some id => bool_decide (rel_state <$> db_releases d !! id = Some ReleaseActive)
  | None => true
  end.
Definition commitOk (d : DB) : bool := bool_decide (map_Forall (λ _ h, headOk d h = true) (db_heads d)).

(** COMMIT with its deferred triggers. *)
Definition commitTx {A} (m : Tx DB Err A) : Tx DB Err A := λ d,
  match m d with
  | inl e => inl e
  | inr (x, d') => if commitOk d' then inr (x, d') else inl (ErrPg PgRaise)
  end.

(** ** Activate (tx1) *)

Record ActivationResult := {
  ar_OperationID : string; ar_RouteRevision : Z; ar_Hostname : string; ar_EntrypointName : string;
  ar_CertResolverName : string; ar_BackendRuntimeInstanceID : string; ar_RouteDigest : string;
}.

Definition activationResult (attemptID operationID routeRevision : Z) (hostname routeDigest : string) : ActivationResult :=
  {| ar_OperationID := FormatInt operationID; ar_RouteRevision := routeRevision; ar_Hostname := hostname;
     ar_EntrypointName := DefaultEntrypointName; ar_CertResolverName := DefaultCertResolverName;
     ar_BackendRuntimeInstanceID := AttemptRuntimeInstanceID attemptID; ar_RouteDigest := routeDigest |}.

(** [SELECT ... WHERE attempt_id AND fence AND kind='activate'] *)
Definition activationOf (attemptID fence : Z) (d : DB) : option (Z * OpRow) :=
  find_op (λ o, (o_attempt o =? attemptID) && (o_fence o =? fence)) d.

(** The replay branch: no write at all. *)
Definition activateReplay (attemptID : Z) (environmentID imageDigest : string) (operationID : Z) (o : OpRow)
    : Tx DB Err ActivationResult :=
  do! tx_guard (bool_decide (o_state o = OpSwitchAuthorized))
        (if unresolvedActivation (o_state o) then ErrAgentLeaseActivationEnvironmentBlocked else ErrAgentLeaseStale) in
  do! tx_guard ((slen (o_digest o) =? 32) && bool_decide (o_digest o = imageDigest)) ErrAgentLeaseIntegrityConflict in
  let! h := tx_some (λ d, db_heads d !! environmentID) ErrNoRows in
  tx_ret (activationResult attemptID operationID (o_expected_revision o + 1) (h_hostname h)
            ("sha256:" +:+ EncodeToString (o_route_digest o))).

Definition release_ready (imageDigest : string) (now : Z) (r : ReleaseRow) : ReleaseRow :=
  {| rel_deployment := rel_deployment r; rel_env := rel_env r; rel_config_digest := rel_config_digest r;
     rel_commit := rel_commit r; rel_strategy := rel_strategy r; rel_image_digest := Some imageDigest;
     rel_state := ReleaseReady; rel_updated_at := now |}.

(** The candidate release: [candidate] becomes ready with the digest, [ready]
    must agree with it, anything else is refused. *)
Definition readyCandidate (releaseID : string) (r : ReleaseRow) (imageDigest : string) (now : Z) : Tx DB Err unit :=
  match rel_state r with
  | ReleaseCandidate => execute (update_release releaseID anyRow (release_ready imageDigest now))
  | ReleaseReady => tx_guard (bool_decide (rel_image_digest r = Some imageDigest)) ErrAgentLeaseIntegrityConflict
  | _ => tx_fail ErrAgentLeaseActivationCandidateNotReady
  end.

Definition activationRoute (environmentID releaseID : string) (attemptID fence : Z) (h : HeadRow)
    (cfg : frozenExecutionSnapshot) : EnvironmentRoute :=
  {| r_EnvironmentID := environmentID; r_RouteRevision := u64 (u64 (h_revision h) + 1); r_Hostname := h_hostname h;
     r_EntrypointName := DefaultEntrypointName; r_CertResolverName := DefaultCertResolverName;
     r_BackendRuntimeInstanceID := AttemptRuntimeInstanceID attemptID; r_BackendPort := ContainerPort cfg;
     r_BackendScheme := ContainerScheme cfg; r_ReleaseID := releaseID; r_FenceID := FormatInt fence |}.

(** The fresh authorization.  [routeDigestRaw] is the digest the hex text of
    [Digest] decodes to. *)
Definition activateFresh (jobID attemptID fence : Z) (environmentID deploymentID imageDigest : string) (now : Z)
    : Tx DB Err ActivationResult :=
  do! transitionDeployment deploymentID StatusActivating now in
  let! h := tx_some (λ d, db_heads d !! environmentID) ErrAgentLeaseActivationNoRouteHead in
  do! tx_guard (negb (h_recon_required h)) ErrAgentLeaseStale in
  let! rel := tx_some (release_of_deployment deploymentID) ErrAgentLeaseCorruptState in
  let '(releaseID, r) := rel in
  do! readyCandidate releaseID r imageDigest now in
  let! cfg := tx_some (λ d, db_execution d !! attemptID) ErrNoRows in
  match Render (activationRoute environmentID releaseID attemptID fence h cfg) with
  | None => tx_fail ErrRenderRoute
  | Some (doc, routeDigestHex) =>
      let routeDigestRaw := Sum256 doc in
      let expectedActiveReleaseID := match h_active h with
                                     | Some a => if bool_decide (a = "") then None else Some a
                                     | None => None
                                     end in
      let! operationID := (λ d, match insert_op
        {| o_release := releaseID; o_job := jobID; o_attempt := attemptID; o_fence := fence; o_digest := imageDigest;
           o_env := environmentID; o_expected_active := expectedActiveReleaseID; o_expected_revision := h_revision h;
           o_route_digest := routeDigestRaw; o_state := OpSwitchAuthorized; o_summary := ""; o_closed_at := None |} d with
        | inl (ErrPg PgUniqueViolation) => inl ErrAgentLeaseActivationEnvironmentBlocked
        | r => r
        end) in
      do! appendAgentJobEvent jobID (Some attemptID) EvActivationAuthorized in
      tx_ret (activationResult attemptID operationID (h_revision h + 1) (h_hostname h) routeDigestHex)
  end.

Definition activateTx (serverID presentedDigest : string) (attemptID fence : Z) (imageDigest : string) (now : Z)
    : Tx DB Err ActivationResult :=
  do! tx_guard (ValidOpaqueID serverID && (0 <? attemptID) && (0 <? fence)) ErrAgentLeaseInvalidInput in
  let! rows := lockLeaseRows serverID presentedDigest attemptID in
  let '(slot, job, a) := rows in
  do! tx_guard (negb (negb (bool_decide (a_state a = AttemptLeased)) || negb (a_fence a =? fence)
                      || negb (s_fence slot =? fence) || negb (occupiedBy attemptID slot)
                      || negb (now <? a_authority_expires a))) ErrAgentLeaseStale in
  do! tx_guard (negb (isSomeb (j_cancel_requested_at job))) ErrAgentLeaseStale in
  let! existing := tx_read (activationOf attemptID fence) in
  match existing with
  | Some (operationID, o) => activateReplay attemptID (a_env a) imageDigest operationID o
  | None =>
      let! blocked := tx_read (environmentUnresolved (a_env a)) in
      do! tx_guard (negb blocked) ErrAgentLeaseActivationEnvironmentBlocked in
      activateFresh (a_job a) attemptID fence (a_env a) (j_deployment job) imageDigest now
  end.

Definition Activate (serverID presentedDigest : string) (attemptID fence : Z) (imageDigest : string) (now : Z) (d : DB) :=
  run_tx (commitTx (activateTx serverID presentedDigest attemptID fence imageDigest now)) d.

(** ** The success writes *)

Definition validateFinalizeFromState (fromState : OpState) : bool :=
  bool_decide (fromState ∈ [OpSwitchAuthorized; OpReconciliationRequired]).

Definition sameOptionalString (a b : option string) : bool := bool_decide (a = b).

Definition release_set (st : ReleaseState) (now : Z) (r : ReleaseRow) : ReleaseRow :=
  {| rel_deployment := rel_deployment r; rel_env := rel_env r; rel_config_digest := rel_config_digest r;
     rel_commit := rel_commit r; rel_strategy := rel_strategy r; rel_image_digest := rel_image_digest r;
     rel_state := st; rel_updated_at := now |}.
Definition head_activate (releaseID : string) (now : Z) (h : HeadRow) : HeadRow :=
  {| h_hostname := h_hostname h; h_revision := h_revision h + 1; h_active := Some releaseID;
     h_recon_required := false; h_updated_at := Z.max (h_updated_at h) now |}.
Definition inReleaseState (st : ReleaseState) (r : ReleaseRow) : bool := bool_decide (rel_state r = st).
Definition inOpState (st : OpState) (o : OpRow) : bool := bool_decide (o_state o = st).
Definition coalesce (c : option Z) (now : Z) : option Z := Some (default now c).

Definition insertRouteEvent (environmentID : string) (revision : Z) (releaseID : option string) : Tx DB Err unit :=
  tx_write (λ d, set_logs (db_job_events d)
    (db_route_events d ++ [{| re_env := environmentID; re_revision := revision; re_release := releaseID |}])
    (db_audit d) d).

(** Releases and route head. *)
Definition finalizeReleases (environmentID candidateReleaseID : string) (expectedActiveReleaseID : option string)
    (now : Z) : Tx DB Err unit :=
  let! candidateState := tx_read (λ d, rel_state <$> db_releases d !! candidateReleaseID) in
  let! predecessorState := tx_read (λ d, id ← expectedActiveReleaseID; rel_state <$> db_releases d !! id) in
  do! tx_guard (bool_decide (candidateState = Some ReleaseReady)) ErrAgentLeaseCorruptState in
  do! match expectedActiveReleaseID with
      | None => tx_ret tt
      | Some predecessor =>
          do! tx_guard (bool_decide (predecessorState = Some ReleaseActive)) ErrAgentLeaseCorruptState in
          execute (update_release predecessor (inReleaseState ReleaseActive) (release_set ReleaseRetained now))
      end in
  execute (update_release candidateReleaseID (inReleaseState ReleaseReady) (release_set ReleaseActive now)).

Definition finalizeHead (environmentID candidateReleaseID : string) (expectedRouteRevision now : Z) : Tx DB Err unit :=
  do! expectRow (update_head environmentID (λ h, h_revision h =? expectedRouteRevision) (head_activate candidateReleaseID now))
        ErrAgentLeaseActivationRouteMoved in
  insertRouteEvent environmentID (expectedRouteRevision + 1) (Some candidateReleaseID).

(** Attempt, slot and job, mirroring Complete's success branch. *)
Definition finalizeLease (jobID attemptID operationID : Z) (environmentID resultDigest : string) (now : Z) : Tx DB Err unit :=
  do! expectRow (update_attempt attemptID (λ a, bool_decide (a_state a = AttemptLeased))
        (attempt_close_result AttemptSucceeded now None (FormatInt operationID) resultDigest)) ErrAgentLeaseCorruptState in
  do! expectRow (update_slot environmentID
        (λ s, occupiedBy attemptID s
              && (negb (isSomeb (s_recon_attempt s)) || bool_decide (s_recon_attempt s = Some attemptID)))
        (slot_free_clear now)) ErrAgentLeaseCorruptState in
  do! expectRow (update_job jobID isLeased (job_close JobSucceeded now)) ErrAgentLeaseCorruptState in
  do! appendAgentJobEvent jobID (Some attemptID) EvActivated in
  appendAgentJobEvent jobID (Some attemptID) EvSucceeded.

Record activationFinalizeInput := {
  fin_jobID : Z; fin_attemptID : Z; fin_operationID : Z; fin_environmentID : string; fin_deploymentID : string;
  fin_candidateReleaseID : string; fin_expectedRouteRevision : Z; fin_expectedActiveReleaseID : option string;
  fin_resultDigest : string; fin_summary : string; fin_now : Z; fin_fromState : OpState;
}.

Definition finalizeActivationSucceeded (i : activationFinalizeInput) : Tx DB Err unit :=
  do! tx_guard (validateFinalizeFromState (fin_fromState i)) ErrInternal in
  do! transitionDeployment (fin_deploymentID i) StatusHealthy (fin_now i) in
  let! h := tx_some (λ d, db_heads d !! fin_environmentID i) ErrAgentLeaseCorruptState in
  do! tx_guard ((h_revision h =? fin_expectedRouteRevision i)
                && sameOptionalString (h_active h) (fin_expectedActiveReleaseID i)) ErrAgentLeaseActivationRouteMoved in
  do! tx_guard (negb (h_recon_required h && bool_decide (fin_fromState i = OpSwitchAuthorized))) ErrAgentLeaseCorruptState in
  do! finalizeReleases (fin_environmentID i) (fin_candidateReleaseID i) (fin_expectedActiveReleaseID i) (fin_now i) in
  do! finalizeHead (fin_environmentID i) (fin_candidateReleaseID i) (fin_expectedRouteRevision i) (fin_now i) in
  do! expectRow (update_op (fin_operationID i) (inOpState (fin_fromState i))
        (λ o, op_set o OpSucceeded (fin_summary i) (coalesce (o_closed_at o) (fin_now i)))) ErrAgentLeaseStale in
  finalizeLease (fin_jobID i) (fin_attemptID i) (fin_operationID i) (fin_environmentID i) (fin_resultDigest i) (fin_now i).

(** ** Classification of failures *)

Definition sqlState (e : PgError) : string :=
  match e with
  | PgCheckViolation => "23514" | PgUniqueViolation => "23505" | PgForeignKeyViolation => "23503" | PgRaise => "P0001" | PgInFailedTransaction => "25P02"
  end.

Definition isRetryableActivationPgCode (code : string) : bool :=
  bool_decide (code ∈ ["XX000"; "40001"; "40P01"; "40003"; "57014"; "57P01"; "57P02"; "57P03"; "57P05";
                       "55P03"; "25006"; "25P03"; "25P04"; "58030"; "26000"])
  || HasPrefix code "08" || HasPrefix code "53".

(** The errors of the model are database-rule and domain errors; the context,
    network and driver errors Go also lists are outside it. *)
Definition isTransientActivationFailure (e : Err) : bool :=
  match e with ErrPg p => isRetryableActivationPgCode (sqlState p) | _ => false end.
Definition isDeterministicActivationFailure (e : Err) : bool := negb (isTransientActivationFailure e).

Definition isDeploymentDomainError (e : Err) : bool :=
  match e with ErrDeployment _ | ErrRevisionConflict | ErrNotFound | ErrRevisionOverflow => true | _ => false end.

Definition classifyActivationResultError (r : Err + unit) : Err + unit :=
  match r with
  | inr u => inr u
  | inl ErrActivationBlockUnrecorded => r
  | inl (ErrPg p) => if isRetryableActivationPgCode (sqlState p) then r else inl ErrAgentLeaseConstraintViolation
  | inl e => if isDeploymentDomainError e then inl ErrAgentLeaseCorruptState else r
  end.

(** [strconv.ParseInt(s, 10, 64)] *)
Fixpoint parseDigits (acc : Z) (s : string) : option Z :=
  match s with
  | EmptyString => Some acc
  | String c r => if isDigit (byte_of c) then parseDigits (10 * acc + (byte_of c - 48)) r else None
  end.
Definition ParseInt (s : string) : option Z :=
  let '(neg, ds) := match s with
                    | String c r => if byte_of c =? 45 then (true, r) else if byte_of c =? 43 then (false, r) else (false, s)
                    | EmptyString => (false, s)
                    end in
  match ds with
  | EmptyString => None
  | _ => match parseDigits 0 ds with
         | None => None
         | Some n => let v := if neg then - n else n in
                     if (v <? - 2 ^ 63) || (MaxInt64 <? v) then None else Some v
         end
  end.

(** ** Late evidence *)

Definition leasedOccupant (a : AttemptRow) (slot : SlotRow) (fence attemptID : Z) : bool :=
  bool_decide (a_state a = AttemptLeased) && (s_fence slot =? fence) && occupiedBy attemptID slot.

Definition writeLateEvidence (jobID attemptID operationID : Z) (existingSummary : string) (rep : activationReport)
    : Tx DB Err bool :=
  let '(updated, outcome) := lateEvidence existingSummary rep in
  if negb (bool_decide (outcome = lateEvidenceAppended)) then tx_ret false
  else
    do! expectRow (update_op operationID (inOpState OpReconciliationRequired)
          (λ o, op_set o (o_state o) updated (o_closed_at o))) ErrInternal in
    do! appendAgentJobEvent jobID (Some attemptID) EvActivationLateReport in
    tx_ret true.

(** The answer is an error even when the evidence was committed. *)
Definition recordLateReport (jobID attemptID operationID fence : Z) (a : AttemptRow) (slot : SlotRow)
    (existingSummary : string) (rep : activationReport) (d : DB) : (Err + unit) * DB :=
  if negb (leasedOccupant a slot fence attemptID) then (inl ErrAgentLeaseStale, d)
  else match writeLateEvidence jobID attemptID operationID existingSummary rep d with
  | inl e => (inl e, d)
  | inr (false, _) => (inl ErrAgentLeaseActivationLateReportRecorded, d)
  | inr (true, d') => (inl ErrAgentLeaseActivationLateReportRecorded, d')
  end.

Definition maxSequence (jobID attemptID : Z) (t : EventType) (d : DB) : option Z :=
  match omap (λ e, if (e_job e =? jobID) && bool_decide (e_attempt e = Some attemptID) && bool_decide (e_type e = t)
                   then Some (e_sequence e) else None) (db_job_events d) with
  | [] => None
  | x :: xs => Some (foldr Z.max x xs)
  end.

Definition traceDeclaredContradiction (jobID attemptID : Z) (d : DB) : (Err + unit) * DB :=
  let declared := hasEvent jobID attemptID EvReconciled d in
  let traced := match maxSequence jobID attemptID EvReconciled d with
                | None => false
                | Some m => existsb (λ e, (e_job e =? jobID) && bool_decide (e_attempt e = Some attemptID)
                              && bool_decide (e_type e = EvActivationLateReport) && (m <? e_sequence e)) (db_job_events d)
                end in
  if negb declared || traced then (inl ErrAgentLeaseIntegrityConflict, d)
  else match appendAgentJobEvent jobID (Some attemptID) EvActivationLateReport d with
  | inl e => (inl e, d)
  | inr (_, d') => (inl ErrAgentLeaseIntegrityConflict, d')
  end.

(** ** The fresh-transaction block *)

Inductive activationBlockOutcome :=
  | activationBlockRecorded | activationBlockNoopSucceeded | activationBlockNoopOther
  | activationBlockLateRecorded | activationBlockStale.

Definition lateOutcomeError (o : activationBlockOutcome) : option Err :=
  match o with
  | activationBlockLateRecorded => Some ErrAgentLeaseActivationLateReportRecorded
  | activationBlockStale => Some ErrAgentLeaseStale
  | _ => None
  end.

Definition recordBlockTx (serverID : string) (attemptID fence operationID : Z) (evidence : string)
    (rep : activationReport) (now : Z) : Tx DB Err activationBlockOutcome :=
  let! a := tx_some (λ d, a ← db_attempts d !! attemptID; if bool_decide (a_server a = serverID) then Some a else None) ErrNoRows in
  let! slot := tx_some (λ d, db_slots d !! a_env a) ErrNoRows in
  let! o := tx_some (λ d, o ← db_ops d !! operationID;
                          if (o_attempt o =? attemptID) && (o_fence o =? fence) then Some o else None) ErrNoRows in
  let occupant := leasedOccupant a slot fence attemptID in
  match o_state o with
  | OpSucceeded => tx_ret activationBlockNoopSucceeded
  | OpReconciliationRequired =>
      if negb (rep_succeeded rep) && isOriginalBlockReplay (o_summary o) (rep_failureSummary rep)
      then tx_ret activationBlockRecorded
      else if negb occupant then tx_ret activationBlockStale
      else
        do! writeLateEvidence (a_job a) attemptID operationID (o_summary o) rep in
        tx_ret activationBlockLateRecorded
  | OpSwitchAuthorized =>
      if negb occupant then tx_ret activationBlockNoopOther
      else
        do! blockActivationForReconciliation (a_job a) attemptID operationID (a_env a) evidence now in
        tx_ret activationBlockRecorded
  | _ => tx_ret activationBlockNoopOther
  end.

(** Every failure is [ErrActivationBlockUnrecorded]. *)
Definition recordBlockInFreshTransaction (serverID : string) (attemptID fence operationID : Z) (evidence : string)
    (rep : activationReport) (now : Z) (d : DB) : (Err + activationBlockOutcome) * DB :=
  match recordBlockTx serverID attemptID fence operationID evidence rep now d with
  | inl _ => (inl ErrActivationBlockUnrecorded, d)
  | inr (o, d') => (inr o, d')
  end.

(** ** ReportActivationResult (tx2) *)

(** The locks and checks up to the operation row. *)
Definition reportPrefix (serverID presentedDigest : string) (attemptID fence : Z) (operationID : string)
    : Tx DB Err (SlotRow * JobRow * AttemptRow * Z * OpRow) :=
  do! tx_guard (ValidOpaqueID serverID && (0 <? attemptID) && (0 <? fence) && validOperationID operationID)
        ErrAgentLeaseInvalidInput in
  match ParseInt operationID with
  | None => tx_fail ErrAgentLeaseInvalidInput
  | Some parsedOperationID =>
      do! tx_guard (0 <? parsedOperationID) ErrAgentLeaseInvalidInput in
      let! rows := lockLeaseRows serverID presentedDigest attemptID in
      let '(slot, job, a) := rows in
      do! tx_guard (a_fence a =? fence) ErrAgentLeaseStale in
      let! op := tx_some (activationOf attemptID fence) ErrAgentLeaseStale in
      let '(opID, o) := op in
      do! tx_guard (opID =? parsedOperationID) ErrAgentLeaseIntegrityConflict in
      do! tx_guard (slen (o_route_digest o) =? 32) ErrAgentLeaseCorruptState in
      tx_ret (slot, job, a, opID, o)
  end.

Definition optionalStringForSummary (v : option string) : string := default "<none>" v.

Section report.
(** [err.Error()]: the text of a Go error, quoted in the evidence. *)
Context (errorText : Err → string).

(** Commit the block, then answer the typed refusal.  The block writes no
    column a deferred trigger watches, so its COMMIT cannot fail by rule. *)
Definition refuseAmbiguous (jobID attemptID operationID : Z) (environmentID evidence : string) (refusal : Err)
    (now : Z) (d : DB) : (Err + unit) * DB :=
  match blockActivationForReconciliation jobID attemptID operationID environmentID (sanitizeOutcomeSummary evidence) now d with
  | inl _ => (inl ErrActivationBlockUnrecorded, d)
  | inr (_, d') => (inl refusal, d')
  end.

Definition blockAfterAbortedTransaction (serverID : string) (attemptID fence operationID : Z) (evidencePrefix : string)
    (cause : Err) (rep : activationReport) (now : Z) (d : DB) : (Err + unit) * DB :=
  match recordBlockInFreshTransaction serverID attemptID fence operationID
          (sanitizeOutcomeSummary (evidencePrefix +:+ errorText cause)) rep now d with
  | (inl e, d') => (inl e, d')
  | (inr activationBlockNoopSucceeded, d') => (inr tt, d')
  | (inr o, d') => (inl (default cause (lateOutcomeError o)), d')
  end.

(** Roll back to the savepoint (the state [d] before the success writes) and
    commit the block there. *)
Definition blockAfterFinalizeFailure (jobID attemptID operationID : Z) (environmentID : string) (cause : Err)
    (now : Z) (d : DB) : (Err + unit) * DB :=
  if negb (isDeterministicActivationFailure cause) then (inl cause, d)
  else match blockActivationForReconciliation jobID attemptID operationID environmentID
               (sanitizeOutcomeSummary ("activation finalize failed: " +:+ errorText cause)) now d with
  | inl _ => (inl ErrActivationBlockUnrecorded, d)
  | inr (_, d') => (inl cause, d')
  end.

Definition routeDigestMismatch (expected observed : string) : string :=
  "route digest mismatch: expected sha256:" +:+ EncodeToString expected +:+ " observed sha256:" +:+ EncodeToString observed.
Definition routeHeadMissing (environmentID : string) : string :=
  "environment " +:+ environmentID +:+ " has no route head at activation result".
Definition routeHeadMoved (o : OpRow) (h : HeadRow) : string :=
  "route head moved since authorization: expected revision " +:+ FormatInt (o_expected_revision o) +:+ " active "
  +:+ optionalStringForSummary (o_expected_active o) +:+ ", found revision " +:+ FormatInt (h_revision h)
  +:+ " active " +:+ optionalStringForSummary (h_active h).

(** A report on a live (switch_authorized) operation of the leased occupant. *)
Definition reportOpen (serverID : string) (job : JobRow) (a : AttemptRow) (attemptID fence operationID : Z) (o : OpRow)
    (rep : activationReport) (now : Z) (d : DB) : (Err + unit) * DB :=
  let environmentID := a_env a in
  if negb (rep_succeeded rep) then
    match blockActivationForReconciliation (a_job a) attemptID operationID environmentID (rep_failureSummary rep) now d with
    | inl _ => (inl ErrActivationBlockUnrecorded, d)
    | inr (_, d') => (inr tt, d')
    end
  else if negb (rep_digestMatches rep) then
    refuseAmbiguous (a_job a) attemptID operationID environmentID
      (routeDigestMismatch (o_route_digest o) (rep_observedRouteDigest rep)) ErrAgentLeaseIntegrityConflict now d
  else match db_heads d !! environmentID with
  | None => refuseAmbiguous (a_job a) attemptID operationID environmentID (routeHeadMissing environmentID)
              ErrAgentLeaseCorruptState now d
  | Some h =>
      if negb (sameOptionalString (h_active h) (o_expected_active o)) || negb (h_revision h =? o_expected_revision o)
      then refuseAmbiguous (a_job a) attemptID operationID environmentID (routeHeadMoved o h)
             ErrAgentLeaseActivationRouteMoved now d
      else
        match finalizeActivationSucceeded
          {| fin_jobID := a_job a; fin_attemptID := attemptID; fin_operationID := operationID;
             fin_environmentID := environmentID; fin_deploymentID := j_deployment job;
             fin_candidateReleaseID := o_release o; fin_expectedRouteRevision := o_expected_revision o;
             fin_expectedActiveReleaseID := o_expected_active o; fin_resultDigest := rep_observedRouteDigest rep;
             fin_summary := "activated route_digest=sha256:" +:+ EncodeToString (rep_observedRouteDigest rep);
             fin_now := now; fin_fromState := OpSwitchAuthorized |} d with
        | inl cause => blockAfterFinalizeFailure (a_job a) attemptID operationID environmentID cause now d
        | inr (_, d') =>
            if commitOk d' then (inr tt, d')
            else blockAfterAbortedTransaction serverID attemptID fence operationID
                   "activation finalize failed at commit: " (ErrPg PgRaise) rep now d
        end
  end.

(** The boolean is [occupantChecked]. *)
Definition reportActivationResult (serverID presentedDigest : string) (attemptID fence : Z) (operationID : string)
    (succeeded : bool) (observedRouteDigest failureSummary : string) (now : Z) (d : DB) : bool * ((Err + unit) * DB) :=
  match reportPrefix serverID presentedDigest attemptID fence operationID d with
  | inl e => (false, (inl e, d))
  | inr (slot, job, a, opID, o, _) =>
      let digestMatches := bool_decide (o_route_digest o = observedRouteDigest) in
      let summary := failureOutcomeSummary failureSummary in
      let rep := {| rep_succeeded := succeeded; rep_digestMatches := digestMatches;
                    rep_observedRouteDigest := observedRouteDigest; rep_failureSummary := summary |} in
      match o_state o with
      | OpSucceeded =>
          if negb succeeded || negb digestMatches then (false, traceDeclaredContradiction (a_job a) attemptID d)
          else (false, (inr tt, d))
      | OpFailed =>
          if negb succeeded then (false, (inl ErrAgentLeaseIntegrityConflict, d))
          else (false, traceDeclaredContradiction (a_job a) attemptID d)
      | OpReconciliationRequired =>
          if negb succeeded && isOriginalBlockReplay (o_summary o) summary then (false, (inr tt, d))
          else (false, recordLateReport (a_job a) attemptID opID fence a slot (o_summary o) rep d)
      | OpStarted => (false, (inl ErrAgentLeaseCorruptState, d))
      | OpSwitchAuthorized =>
          if negb (leasedOccupant a slot fence attemptID) then (false, (inl ErrAgentLeaseStale, d))
          else (true, reportOpen serverID job a attemptID fence opID o rep now d)
      end
  end.

Definition ReportActivationResult (serverID presentedDigest : string) (attemptID fence : Z) (operationID : string)
    (succeeded : bool) (observedRouteDigest failureSummary : string) (now : Z) (d : DB) : (Err + unit) * DB :=
  let '(occupantChecked, (r, d')) := reportActivationResult serverID presentedDigest attemptID fence operationID
                                       succeeded observedRouteDigest failureSummary now d in
  if negb occupantChecked then (r, d') else (classifyActivationResultError r, d').
End report.
