(* ===== verification/Resolution.v ===== *)
(** * Declared resolution of a blocked activation (activation_resolution.go)

    The operator's ResolveActivation and the agent's ReconcileActivation share
    one core, [resolveDeclared]; a repeat is judged by
    [confirmResolvedOutcome] / [agreeResolvedOutcome] without a write. *)
From S2P Require Import Prelude GoStd Deployment Queue Route Schema Evidence DeploymentStore LeaseCore Lease Activation.
From stdpp Require Import sorting.
#[local] Open Scope Z_scope.

(** ** Not activated *)

Definition resolveNotActivated (jobID attemptID operationID : Z) (environmentID deploymentID : string)
    (headFlagged : bool) (summary : string) (now : Z) : Tx DB Err unit :=
  do! transitionDeployment deploymentID StatusFailed now in
  do! (if headFlagged
       then expectRow (update_head environmentID h_recon_required (head_flag false now)) ErrAgentLeaseCorruptState
       else tx_ret tt) in
  do! expectRow (update_op operationID (inOpState OpReconciliationRequired)
        (λ o, op_set o OpFailed summary (coalesce (o_closed_at o) now))) ErrAgentLeaseCorruptState in
  do! expectRow (update_attempt attemptID (λ a, bool_decide (a_state a = AttemptLeased)) (attempt_close AttemptExpired now))
        ErrAgentLeaseCorruptState in
  do! expectRow (update_slot environmentID
        (λ s, occupiedBy attemptID s && bool_decide (s_recon_attempt s = Some attemptID)) (slot_free_clear now))
        ErrAgentLeaseCorruptState in
  do! expectRow (update_job jobID isLeased (job_close JobFailed now)) ErrAgentLeaseCorruptState in
  do! appendAgentJobEvent jobID (Some attemptID) EvActivationNotActivated in
  appendAgentJobEvent jobID (Some attemptID) EvFailed.

(** ** The shared core *)

(** The closures of [declaredResolution]; [None] is a nil function or
    pointer. *)
Record declaredResolution := {
  dr_environmentID : string; dr_jobID : Z; dr_attemptID : Z; dr_slotCurrentAttemptID : option Z; dr_outcome : string;
  dr_authorize : AttemptRow → option Err;
  dr_outcomeDigest : option string;
  dr_plainAttemptRefusal : AttemptRow → option Err;
  dr_clearPlain : Tx DB Err unit;
  dr_audit : Tx DB Err unit;
}.

Definition refuse (e : option Err) : Tx DB Err unit := match e with Some err => tx_fail err | None => tx_ret tt end.

(** The shape every activation block leaves, checked under the locks. *)
Definition blockShape (r : declaredResolution) (job : JobRow) (a : AttemptRow) (o : OpRow) : bool :=
  negb (negb (bool_decide (a_state a = AttemptLeased)) || isSomeb (a_closed_at a))
  && negb (negb (bool_decide (a_env a = dr_environmentID r)) || negb (a_fence a =? o_fence o))
  && isLeased job
  && bool_decide (dr_slotCurrentAttemptID r = Some (dr_attemptID r))
  && (slen (o_route_digest o) =? 32).

(** The writes, once the block is known to be activation-caused. *)
Definition resolveWrites (r : declaredResolution) (job : JobRow) (operationID : Z) (o : OpRow) (now : Z) : Tx DB Err unit :=
  let! dep := tx_some (λ d, db_deployments d !! j_deployment job) ErrNoRows in
  do! tx_guard (bool_decide (snap_Status dep = StatusActivating)) ErrAgentLeaseCorruptState in
  let! head := tx_read (λ d, db_heads d !! dr_environmentID r) in
  let headFlagged := match head with Some h => h_recon_required h | None => false end in
  do! (if bool_decide (dr_outcome r = ActivationOutcomeActivated) then
         finalizeActivationSucceeded
           {| fin_jobID := dr_jobID r; fin_attemptID := dr_attemptID r; fin_operationID := operationID;
              fin_environmentID := dr_environmentID r; fin_deploymentID := j_deployment job;
              fin_candidateReleaseID := o_release o; fin_expectedRouteRevision := o_expected_revision o;
              fin_expectedActiveReleaseID := o_expected_active o; fin_resultDigest := o_route_digest o;
              fin_summary := declaredSummary (o_summary o) (dr_outcome r); fin_now := now;
              fin_fromState := OpReconciliationRequired |}
       else resolveNotActivated (dr_jobID r) (dr_attemptID r) operationID (dr_environmentID r) (j_deployment job)
              headFlagged (declaredSummary (o_summary o) (dr_outcome r)) now) in
  do! dr_audit r in
  appendAgentJobEvent (dr_jobID r) (Some (dr_attemptID r)) EvReconciled.

Definition resolveDeclared (r : declaredResolution) (now : Z) : Tx DB Err unit :=
  let! job := tx_some (λ d, db_jobs d !! dr_jobID r) ErrNoRows in
  let! a := tx_some (λ d, db_attempts d !! dr_attemptID r) ErrNoRows in
  do! refuse (dr_authorize r a) in
  let! found := tx_read (find_op (λ o, bool_decide (o_env o = dr_environmentID r) && unresolvedActivation (o_state o))) in
  match found with
  | None =>
      do! tx_guard (bool_decide (dr_outcome r = ActivationOutcomeNoActivation)) ErrAgentLeaseOutcomeMismatch in
      do! refuse (dr_plainAttemptRefusal r a) in
      dr_clearPlain r
  | Some (operationID, o) =>
      do! tx_guard (o_attempt o =? dr_attemptID r) ErrAgentLeaseCorruptState in
      do! tx_guard (negb (bool_decide (dr_outcome r = ActivationOutcomeNoActivation))) ErrAgentLeaseOutcomeMismatch in
      do! tx_guard (bool_decide (o_state o = OpReconciliationRequired)) ErrAgentLeaseActivationUnresolved in
      do! tx_guard (blockShape r job a o) ErrAgentLeaseCorruptState in
      do! tx_guard (negb (bool_decide (dr_outcome r = ActivationOutcomeActivated)
                          && match dr_outcomeDigest r with
                             | Some dg => negb (bool_decide (dg = o_route_digest o))
                             | None => false
                             end)) ErrAgentLeaseIntegrityConflict in
      resolveWrites r job operationID o now
  end.

(** ** Repeats *)

Definition maxAttemptOf (environmentID : string) (d : DB) : option Z :=
  last (merge_sort Z.le (fst <$> filter (λ kv, a_env kv.2 = environmentID) (map_to_list (db_attempts d)))).

Definition opIdLe (x y : Z * OpRow) : Prop := x.1 ≤ y.1.
#[global] Instance opIdLe_dec x y : Decision (opIdLe x y).
Proof. unfold opIdLe. apply _. Defined.
Definition latestOpOf (attemptID : Z) (d : DB) : option OpRow :=
  snd <$> last (merge_sort opIdLe
                  (filter (λ kv, o_attempt kv.2 = attemptID) (map_to_list (db_ops d)))).

Definition agreeResolvedOutcome (attemptID : Z) (outcome : string) (digest : option string) (d : DB) : option Err :=
  let judge (want routeDigest : string) :=
    if negb (bool_decide (outcome = want)) then Some ErrAgentLeaseIntegrityConflict
    else match digest with
         | Some dg => if bool_decide (want = ActivationOutcomeActivated) && negb (bool_decide (dg = routeDigest))
                      then Some ErrAgentLeaseIntegrityConflict else None
         | None => None
         end in
  match latestOpOf attemptID d with
  | None => judge ActivationOutcomeNoActivation ""
  | Some o => match o_state o with
              | OpSucceeded => judge ActivationOutcomeActivated (o_route_digest o)
              | OpFailed => judge ActivationOutcomeNotActivated (o_route_digest o)
              | _ => Some ErrAgentLeaseCorruptState
              end
  end.

Definition hasAttemptEvent (attemptID : Z) (t : EventType) (d : DB) : bool :=
  existsb (λ e, bool_decide (e_attempt e = Some attemptID) && bool_decide (e_type e = t)) (db_job_events d).

Definition confirmResolvedOutcome (p : Principal) (environmentID outcome : string) : Tx DB Err unit :=
  let! attemptID := tx_some (λ d,
    id ← maxAttemptOf environmentID d; a ← db_attempts d !! id; j ← db_jobs d !! a_job a;
    if bool_decide (j_owner j = p_OwnerID p) && hasAttemptEvent id EvReconciled d then Some id else None)
    ErrServerAuthorizationDenied in
  let! e := tx_read (agreeResolvedOutcome attemptID outcome None) in
  refuse e.

(** ** The operator path *)

Definition resolveActivationTx (p : Principal) (environmentID outcome reason : string) (now : Z) : Tx DB Err unit :=
  do! tx_guard (validPrincipal p && ValidOpaqueID environmentID) ErrServerAuthorizationDenied in
  do! tx_guard (validActivationOutcome outcome) ErrAgentLeaseInvalidInput in
  let auditReason := "outcome=" +:+ outcome +:+ "; " +:+ reason in
  do! tx_guard (validReason auditReason) ErrServerAuthorizationDenied in
  do! lockAdministratorSession p now in
  let! slot := tx_some (λ d, db_slots d !! environmentID) ErrServerAuthorizationDenied in
  match s_recon_attempt slot with
  | None => confirmResolvedOutcome p environmentID outcome
  | Some attemptID =>
      let! a := tx_some (λ d, db_attempts d !! attemptID) ErrNoRows in
      let! job := tx_some (λ d, db_jobs d !! a_job a) ErrNoRows in
      do! tx_guard (bool_decide (j_owner job = p_OwnerID p)) ErrServerAuthorizationDenied in
      resolveDeclared
        {| dr_environmentID := environmentID; dr_jobID := a_job a; dr_attemptID := attemptID;
           dr_slotCurrentAttemptID := s_current slot; dr_outcome := outcome;
           dr_authorize := λ _, None; dr_outcomeDigest := None;
           dr_plainAttemptRefusal := λ a, if bool_decide (a_state a = AttemptLeased) && negb (isSomeb (a_closed_at a))
                                          then Some ErrAgentLeaseCorruptState else None;
           dr_clearPlain := clearPlainReconciliation p environmentID (a_job a) (Some attemptID) auditReason now;
           dr_audit := insertServerAuditEvent (p_UserID p) "environment_mark_reconciled" auditReason |} now
  end.

Definition ResolveActivation (p : Principal) (environmentID outcome reason : string) (now : Z) (d : DB) :=
  run_tx (commitTx (resolveActivationTx p environmentID outcome reason now)) d.

(** ** The agent path *)

Definition authorizeAttempt (serverID environmentID : string) (fence : Z) (a : AttemptRow) : option Err :=
  if negb (bool_decide (a_server a = serverID)) || negb (bool_decide (a_env a = environmentID)) || negb (a_fence a =? fence)
  then Some ErrServerAuthorizationDenied else None.

Definition reconcileActivationTx (serverID presentedDigest environmentID : string) (attemptID fence : Z)
    (outcome outcomeDigest : string) (now : Z) : Tx DB Err unit :=
  do! tx_guard (ValidOpaqueID serverID && ValidOpaqueID environmentID && (0 <? attemptID) && (0 <? fence)
                && validActivationOutcome outcome) ErrAgentLeaseInvalidInput in
  do! lockActiveServerCredential serverID presentedDigest in
  let! slot := tx_some (λ d, db_slots d !! environmentID) ErrServerAuthorizationDenied in
  if negb (bool_decide (s_recon_attempt slot = Some attemptID)) then
    let! a := tx_some (λ d, db_attempts d !! attemptID) ErrServerAuthorizationDenied in
    do! refuse (authorizeAttempt serverID environmentID fence a) in
    do! tx_guard (negb (bool_decide (a_state a = AttemptLeased) || negb (isSomeb (a_closed_at a)))) ErrServerAuthorizationDenied in
    let! already := tx_read (hasEvent (a_job a) attemptID EvReconciled) in
    do! tx_guard already ErrServerAuthorizationDenied in
    let! e := tx_read (agreeResolvedOutcome attemptID outcome (Some outcomeDigest)) in
    refuse e
  else
    let! a := tx_some (λ d, db_attempts d !! attemptID) ErrNoRows in
    do! refuse (authorizeAttempt serverID environmentID fence a) in
    resolveDeclared
      {| dr_environmentID := environmentID; dr_jobID := a_job a; dr_attemptID := attemptID;
         dr_slotCurrentAttemptID := s_current slot; dr_outcome := outcome;
         dr_authorize := authorizeAttempt serverID environmentID fence; dr_outcomeDigest := Some outcomeDigest;
         dr_plainAttemptRefusal := λ a, if bool_decide (a_state a = AttemptLeased) || negb (isSomeb (a_closed_at a))
                                        then Some ErrServerAuthorizationDenied else None;
         dr_clearPlain := do! execute (update_slot environmentID anyRow (slot_clear now)) in
                          appendAgentJobEvent (a_job a) (Some attemptID) EvReconciled;
         dr_audit := tx_ret tt |} now.

Definition ReconcileActivation (serverID presentedDigest environmentID : string) (attemptID fence : Z)
    (outcome outcomeDigest : string) (now : Z) (d : DB) :=
  run_tx (commitTx (reconcileActivationTx serverID presentedDigest environmentID attemptID fence outcome outcomeDigest now)) d.
