(* ===== verification/ActivationSteps.v ===== *)
(** * Activation and resolution keep the lease invariant *)
From S2P Require Import Prelude GoStd Deployment Queue Route Schema Evidence DeploymentStore LeaseCore Lease LeaseInv LeaseSteps Activation Resolution.
#[local] Open Scope Z_scope.

(** ** Authorizing an activation *)

(** A new operation of a leased, uncancelled occupant, in an environment with
    no unresolved activation, with the deployment moved to activating. *)
Lemma authorize_preserves d i j a r st dep' o :
  lease_inv d → db_attempts d !! a = Some r → a_state r = AttemptLeased → a_job r = i → db_jobs d !! i = Some j →
  j_cancel_requested_at j = None → storedAs (j_deployment j) st dep' → status dep' = StatusActivating →
  (∀ k p, db_ops d !! k = Some p → o_env p = a_env r → ¬ unresolved p) →
  op_check o = true → o_attempt o = a → o_job o = i → o_env o = a_env r → o_fence o = a_fence r → unresolved o →
  lease_inv (set_ops (<[db_next_op d := o]> (db_ops d)) (db_next_op d + 1)
               (set_deployments (<[j_deployment j := st]> (db_deployments d)) d)).
Proof.
  intros [inv_occupant0 inv_leased0 inv_attempt0 inv_numbers0 inv_fences0 inv_history0 inv_count0 inv_frozen0 inv_slot0
    inv_op0 inv_op_unique0 inv_deployment0 inv_one_job0 inv_cancel0] Hr Hl Hi Hj Hcan Hst Hact Hnone Hck Ha Hoj Hoe Hof Hu.
  assert (∀ k p, db_ops d !! k = Some p → k ≠ db_next_op d) as Hfresh by (intros k p (?&_)%inv_op0; lia).
  split; simpl; try done.
  - intros k p [[<- <-]|[Hne Hp]]%lookup_insert_Some.
    + split_and!; [lia|done|]. exists r. rewrite Ha, Hoj, Hoe, Hof, Hi. done.
    + destruct (inv_op0 k p Hp) as (?&?&?). split_and!; [lia|done|done].
  - intros k1 p1 k2 p2 [[<- <-]|[? H1]]%lookup_insert_Some [[<- <-]|[? H2]]%lookup_insert_Some; eauto; intros E U1 U2; exfalso.
    + apply (Hnone k2 p2 H2); [congruence|done].
    + apply (Hnone k1 p1 H1); [congruence|done].
  - intros i' j' Hj'. destruct (decide (j_deployment j' = j_deployment j)) as [Hd|Hd].
    + assert (i' = i) as -> by by eapply inv_one_job0.
      assert (j' = j) as -> by congruence. rewrite lookup_insert_eq.
      exists st, dep'. destruct (inv_leased0 a r Hr Hl) as (?&j1&_&_&Hj1&Hjl&_).
      assert (j1 = j) as -> by congruence. rewrite Hjl, Hact.
      split_and!; [done|done|by right|]. split; [|done]. intros _. exists (db_next_op d), o. by rewrite lookup_insert_eq.
    + rewrite lookup_insert_ne by done. destruct (inv_deployment0 i' j' Hj') as (s&dep&?&?&?&Hiff).
      exists s, dep. split_and!; try done. rewrite Hiff. split; intros (k & p & Hp & Hpi & Hpu).
      * exists k, p. rewrite lookup_insert_ne; [done|]. by apply not_eq_sym, (Hfresh k p).
      * apply lookup_insert_Some in Hp as [[<- <-]|[? ?]]; [|by eauto 6]. exfalso.
        assert (i' = i) as -> by congruence. congruence.
  - intros i' j' k p Hj' Hc [[<- <-]|[Hne Hp]]%lookup_insert_Some; [|by eauto].
    intros E. assert (j' = j) as -> by congruence. by rewrite Hcan in Hc.
Qed.

Lemma environmentUnresolved_false e d :
  environmentUnresolved e d = false ↔ ∀ k p, db_ops d !! k = Some p → o_env p = e → ¬ unresolved p.
Proof.
  unfold environmentUnresolved. split.
  - destruct (find_op _ d) eqn:E; [done|]. rewrite find_op_None in E. intros _ k p Hp He Hu. specialize (E k p Hp).
    rewrite bool_decide_true in E by done. unfold unresolved in Hu. by rewrite Hu in E.
  - intros H. destruct (find_op _ d) as [[k p]|] eqn:E; [|done]. apply find_op_Some in E as [Hp HP]. bool_hyps.
    by destruct (H k p Hp).
Qed.

Lemma readyCandidate_effect id r dg now d u d' :
  readyCandidate id r dg now d = inr (u, d') → ∃ rs, d' = set_releases rs d.
Proof.
  assert (d = set_releases (db_releases d) d) as Hid by by destruct d.
  unfold readyCandidate. destruct (rel_state r); intros H; tx_inv; try (by eexists).
  apply execute_inv in H as [b [(_&->&_)|(q&_&_&_&_&_&->)]%update_release_inv]; by eexists.
Qed.

Lemma activate_insert o d id d' :
  match insert_op o d with inl (ErrPg PgUniqueViolation) => inl ErrAgentLeaseActivationEnvironmentBlocked | r => r end
    = inr (id, d') → insert_op o d = inr (id, d').
Proof. destruct (insert_op o d) as [[]|]; try done. by repeat case_match. Qed.

Lemma activateFresh_preserves d a r j dg now res d' :
  lease_inv d → db_attempts d !! a = Some r → a_state r = AttemptLeased → db_jobs d !! a_job r = Some j →
  j_cancel_requested_at j = None → environmentUnresolved (a_env r) d = false →
  activateFresh (a_job r) a (a_fence r) (a_env r) (j_deployment j) dg now d = inr (res, d') → lease_inv d'.
Proof.
  intros Hinv Hr Hl Hj Hcan Hnone H. rewrite environmentUnresolved_false in Hnone. unfold activateFresh in H.
  destruct (inv_deployment d Hinv _ j Hj) as (s&dep&Hs&Hsa&_&_).
  apply tx_bind_inv in H as (u&d1&H1&H). eapply transitionDeployment_effect in H1 as (st&dep'&->&Hst&Hact); [|done..].
  apply tx_bind_inv in H as (h&d2&[Hh ->]%tx_some_inv&H). apply tx_bind_inv in H as (u2&d2&[_ ->]%tx_guard_inv&H).
  apply tx_bind_inv in H as ([rid rr]&d2&[Hrel ->]%tx_some_inv&H).
  apply tx_bind_inv in H as (u3&d3&[rs ->]%readyCandidate_effect&H).
  apply tx_bind_inv in H as (cfg&d4&[Hcfg ->]%tx_some_inv&H). destruct (Render _) as [[doc hex]|]; [|by tx_inv].
  apply tx_bind_inv in H as (k&d5&(_&Hck&_&->&->)%activate_insert%insert_op_inv&H). tx_inv.
  match goal with H : appendAgentJobEvent _ _ _ _ = _ |- _ => apply quiet_append in H; rename H into Hq end.
  eapply lease_frame_inv; [exact Hq|].
  eapply lease_frame_inv; [|eapply (authorize_preserves d (a_job r) j a r st dep' _ Hinv Hr Hl eq_refl Hj Hcan Hst Hact Hnone Hck);
    done]. by unfold lease_frame.
Qed.

Lemma activate_preserves srv dg a fence img now : tx_preserves lease_inv (activateTx srv dg a fence img now).
Proof.
  intros d res d' Hinv H. unfold activateTx in H.
  apply tx_bind_inv in H as (g&d0&[_ ->]%tx_guard_inv&H).
  apply tx_bind_inv in H as ([[s j] r]&d1&(->&Hcr&Hr&Hsv&Hs&Hj)%lockLeaseRows_inv&H).
  apply tx_bind_inv in H as (g1&d1&[Hg1 ->]%tx_guard_inv&H). apply tx_bind_inv in H as (g2&d1&[Hg2 ->]%tx_guard_inv&H).
  apply tx_bind_inv in H as (ex&d1&H1&H). tx_inv.
  destruct (activationOf a fence d) as [[k o]|].
  - unfold activateReplay in H. by tx_inv.
  - tx_inv. bool_hyps. assert (j_cancel_requested_at j = None) by (by destruct (j_cancel_requested_at j)).
    subst fence. by eapply (activateFresh_preserves d a r j).
Qed.

Lemma commitTx_inv {A} (m : Tx DB Err A) d x d' : commitTx m d = inr (x, d') → m d = inr (x, d') ∧ commitOk d' = true.
Proof. unfold commitTx. destruct (m d) as [|[y e]]; [done|]. destruct (commitOk e) eqn:E; [|done]. by intros [= -> ->]. Qed.

Lemma commit_preserves {A} P (m : Tx DB Err A) : tx_preserves P m → tx_preserves P (commitTx m).
Proof. intros Hm d x d' HP [H _]%commitTx_inv. by eapply Hm. Qed.

(** ** Resolving an activation closes its attempt *)

(** Like [closes_intro], for the occupant of an unresolved activation [k] that
    the same transaction resolves. *)
Lemma closes_resolved d a r s j k o o' fr fs fj st dep' d' :
  lease_inv d → db_attempts d !! a = Some r → a_state r = AttemptLeased →
  db_slots d !! a_env r = Some s → db_jobs d !! a_job r = Some j →
  db_ops d !! k = Some o → o_attempt o = a → unresolved o →
  same_op o o' → op_check o' = true → ¬ unresolved o' →
  same_attempt r fr → a_state fr ≠ AttemptLeased → attempt_check fr = true →
  s_fence s ≤ s_fence fs → s_current fs = None → slot_check fs = true →
  (∀ b, s_recon_attempt fs = Some b → b = a ∨ s_recon_attempt s = Some b) →
  same_job j fj → j_attempt_count fj = j_attempt_count j → j_state fj ≠ JobLeased → job_count_ok fj →
  storedAs (j_deployment j) st dep' → job_status_ok (j_state fj) (status dep') →
  lease_frame (set_deployments (<[j_deployment j := st]> (db_deployments d))
                (set_jobs (<[a_job r := fj]> (db_jobs d))
                  (set_slots (<[a_env r := fs]> (db_slots d))
                    (set_attempts (<[a := fr]> (db_attempts d)) (db_next_attempt d)
                      (set_ops (<[k := o']> (db_ops d)) (db_next_op d) d))))) d' →
  closes d d' a r fr s fs j fj.
Proof.
  intros Hinv Hr Hl Hs Hj Ho Ha Hu Hsame Hck' Hnu ????????????? (E1&E2&E3&E4&E5&E6&E7&E8). simpl in *.
  destruct (inv_leased d Hinv a r Hr Hl) as (s0&j0&?&?&?&?&?). simplify_eq.
  assert (∀ k' p, db_ops d !! k' = Some p → unresolved p → o_attempt p = o_attempt o → k' = k) as Huniq.
  { intros k' p Hp Hpu Hpa. eapply (inv_op_unique d Hinv); eauto.
    destruct (inv_op d Hinv k' p Hp) as (_&_&q&Hq&?&_), (inv_op d Hinv k o Ho) as (_&_&q'&Hq'&?&_). congruence. }
  split; try done.
  - eauto 6.
  - intros k' p. rewrite E5. intros [[<- <-]|[Hne Hp]]%lookup_insert_Some.
    + split_and!; [done|done|]. exists o. by split_and!.
    + destruct (inv_op d Hinv k' p Hp) as (_&?&_). split_and!; [done| |].
      * intros Hpu Hpa. by destruct Hne; symmetry; apply (Huniq k' p).
      * exists p. split_and!; try done. 
  - intros k' p Hp Hne. rewrite E5, lookup_insert_ne; [done|]. intros <-. by simplify_eq.
Qed.

Lemma finalizeReleases_effect e c ex now d u d' :
  finalizeReleases e c ex now d = inr (u, d') → ∃ rs, d' = set_releases rs d.
Proof.
  unfold finalizeReleases. intros H. do 2 (apply tx_bind_inv in H as (?&?&[_ ->]%tx_read_inv&H)).
  apply tx_bind_inv in H as (?&?&[_ ->]%tx_guard_inv&H). apply tx_bind_inv in H as (?&?&H1&H).
  assert (∀ (y : DB) id w f v y', execute (update_release id w f) y = inr (v, y') → ∃ rs, y' = set_releases rs y) as He.
  { intros y id w f v y' [b [(_&->&_)|(q&_&_&_&_&_&->)]%update_release_inv]%execute_inv; [|by eexists].
    exists (db_releases y). by destruct y. }
  apply He in H as [rs ->]. destruct ex; tx_inv; [|by eexists]. apply He in H1 as [rs' ->]. by eexists.
Qed.

Lemma finalizeHead_effect e c rev now d u d' :
  finalizeHead e c rev now d = inr (u, d') → ∃ hs re, d' = set_logs (db_job_events d) re (db_audit d) (set_heads hs d).
Proof.
  unfold finalizeHead, insertRouteEvent. intros H. tx_inv.
  match goal with H : expectRow _ _ _ = _ |- _ => apply expectRow_inv, update_head_inv in H as [(?&_)|(h&_&_&_&_&->)] end;
    [done|]. by eexists _, _.
Qed.

Lemma finalizeLease_effect i a k e rd now d u d' :
  finalizeLease i a k e rd now d = inr (u, d') →
  ∃ r s j, db_attempts d !! a = Some r ∧ a_state r = AttemptLeased ∧ db_slots d !! e = Some s ∧ s_current s = Some a ∧
    db_jobs d !! i = Some j ∧ j_state j = JobLeased ∧
    attempt_check (attempt_close_result AttemptSucceeded now None (FormatInt k) rd r) = true ∧
    slot_check (slot_free_clear now s) = true ∧
    lease_frame (set_jobs (<[i := job_close JobSucceeded now j]> (db_jobs d))
      (set_slots (<[e := slot_free_clear now s]> (db_slots d))
        (set_attempts (<[a := attempt_close_result AttemptSucceeded now None (FormatInt k) rd r]> (db_attempts d))
           (db_next_attempt d) d))) d'.
Proof.
  unfold finalizeLease. intros H.
  apply tx_bind_inv in H as (?&d1&H1%expectRow_inv&H). apply tx_bind_inv in H as (?&d2&H2%expectRow_inv&H).
  apply tx_bind_inv in H as (?&d3&H3%expectRow_inv&H).
  apply update_attempt_inv in H1 as [(?&_)|(r&_&Hr&Hrl&_&Hck&->)]; [done|].
  apply update_slot_inv in H2 as [(?&_)|(s&_&Hs&Hsl&_&Hsk&->)]; [done|].
  apply update_job_inv in H3 as [(?&_)|(j&_&Hj&Hjl&_&_&->)]; [done|]. simpl in *.
  unfold isLeased, occupiedBy in *. bool_hyps. exists r, s, j. split_and!; try done.
  apply tx_bind_inv in H as (?&d4&H4%quiet_append&H5%quiet_append). by etrans.
Qed.

(** The success writes close the attempt and resolve the operation. *)
Lemma finalize_closes d inp k o u d' r j :
  lease_inv d → finalizeActivationSucceeded inp d = inr (u, d') →
  fin_operationID inp = k → db_ops d !! k = Some o → o_attempt o = fin_attemptID inp →
  db_attempts d !! fin_attemptID inp = Some r → a_job r = fin_jobID inp → a_env r = fin_environmentID inp →
  db_jobs d !! fin_jobID inp = Some j → j_deployment j = fin_deploymentID inp →
  ∃ s j', closes d d' (fin_attemptID inp) r
    (attempt_close_result AttemptSucceeded (fin_now inp) None (FormatInt k) (fin_resultDigest inp) r) s
    (slot_free_clear (fin_now inp) s) j j' ∧ j_state j' = JobSucceeded.
Proof.
  intros Hinv H Hk Ho Hoa Hr Hrj Hre Hj Hjd. unfold finalizeActivationSucceeded in H.
  apply tx_bind_inv in H as (?&d0&[Hfrom ->]%tx_guard_inv&H).
  destruct (inv_deployment d Hinv _ j Hj) as (st&dep&Hst&Hsa&_&_). rewrite <-Hjd in H.
  apply tx_bind_inv in H as (?&d1&H1&H). eapply transitionDeployment_effect in H1 as (st'&dep'&->&Hst'&Hact); [|done..].
  apply tx_bind_inv in H as (h&d1&[_ ->]%tx_some_inv&H). do 2 (apply tx_bind_inv in H as (?&d1&[_ ->]%tx_guard_inv&H)).
  apply tx_bind_inv in H as (?&d1&[rs ->]%finalizeReleases_effect&H).
  apply tx_bind_inv in H as (?&d1&(hs&re&->)%finalizeHead_effect&H).
  apply tx_bind_inv in H as (?&d1&H1%expectRow_inv&H).
  apply update_op_inv in H1 as [(?&_)|(o1&_&Ho1&Hw&_&Hck&->)]; [done|]. simpl in Ho1. rewrite Hk, Ho in Ho1. injection Ho1 as <-.
  apply finalizeLease_effect in H as (r1&s&j1&Hr1&Hrl&Hs&Hsc&Hj1&Hjl&Hrk&Hsk&Hfr). simpl in *.
  assert (r1 = r) as -> by congruence. assert (j1 = j) as -> by congruence.
  exists s, (job_close JobSucceeded (fin_now inp) j). split; [|done].
  unfold inOpState in Hw. bool_hyps. rewrite Hk in *.
  assert (unresolved o) as Hu by (unfold unresolved; rewrite Hw; by destruct (fin_fromState inp)).
  eapply (closes_resolved d _ r s j k o (op_set o OpSucceeded (fin_summary inp) (coalesce (o_closed_at o) (fin_now inp)))
    _ _ _ st' dep'); try done.
  - by rewrite Hre.
  - by rewrite Hrj.
  - apply count_ok_closed; try done. by eapply (inv_count d Hinv).
  - rewrite Hact. by right.
  - rewrite Hre, Hrj. etrans; [|exact Hfr]. by unfold lease_frame.
Qed.

Lemma resolveNotActivated_closes d i a k e hf summary now u d' o r j :
  lease_inv d → resolveNotActivated i a k e (j_deployment j) hf summary now d = inr (u, d') →
  db_ops d !! k = Some o → o_attempt o = a → db_attempts d !! a = Some r → a_job r = i → a_env r = e →
  db_jobs d !! i = Some j →
  ∃ s j', closes d d' a r (attempt_close AttemptExpired now r) s (slot_free_clear now s) j j' ∧ j_state j' = JobFailed.
Proof.
  intros Hinv H Ho Hoa Hr Hrj Hre Hj. unfold resolveNotActivated in H.
  destruct (inv_deployment d Hinv _ j Hj) as (st&dep&Hst&Hsa&_&_).
  apply tx_bind_inv in H as (?&d1&H1&H). eapply transitionDeployment_effect in H1 as (st'&dep'&->&Hst'&Hact); [|done..].
  apply tx_bind_inv in H as (?&d1&H1&H). assert (∃ hs, d1 = set_heads hs (set_deployments
    (<[j_deployment j := st']> (db_deployments d)) d)) as [hs ->].
  { destruct hf; [|tx_inv; exists (db_heads d); by destruct d].
    apply expectRow_inv, update_head_inv in H1 as [(?&_)|(h&_&_&_&_&->)]; [done|]. by eexists. }
  apply tx_bind_inv in H as (?&d2&H2%expectRow_inv&H). apply tx_bind_inv in H as (?&d3&H3%expectRow_inv&H).
  apply tx_bind_inv in H as (?&d4&H4%expectRow_inv&H). apply tx_bind_inv in H as (?&d5&H5%expectRow_inv&H).
  apply update_op_inv in H2 as [(?&_)|(o1&_&Ho1&Hw&_&Hck&->)]; [done|].
  apply update_attempt_inv in H3 as [(?&_)|(r1&_&Hr1&Hrl&_&Hrk&->)]; [done|].
  apply update_slot_inv in H4 as [(?&_)|(s&_&Hs&Hsl&_&Hsk&->)]; [done|].
  apply update_job_inv in H5 as [(?&_)|(j1&_&Hj1&Hjl&_&_&->)]; [done|]. simpl in *.
  assert (o1 = o) as -> by congruence. assert (r1 = r) as -> by congruence. assert (j1 = j) as -> by congruence.
  unfold inOpState, isLeased, occupiedBy in *. bool_hyps.
  exists s, (job_close JobFailed now j). split; [|done].
  eapply (closes_resolved d a r s j k o (op_set o OpFailed summary (coalesce (o_closed_at o) now)) _ _ _ st' dep'); try done.
  - by rewrite Hre.
  - by rewrite Hrj.
  - unfold unresolved. by rewrite Hw.
  - apply count_ok_closed; try done. by eapply (inv_count d Hinv).
  - rewrite Hre, Hrj. apply tx_bind_inv in H as (?&d6&H6%quiet_append&H7%quiet_append). etrans; [|by etrans].
    by unfold lease_frame.
Qed.

Lemma refuse_inv e d u d' : refuse e d = inr (u, d') → e = None ∧ d' = d.
Proof. unfold refuse. destruct e; intros H; by tx_inv. Qed.

Lemma resolveWrites_preserves d r job k o now u d' a :
  lease_inv d → tx_quiet (dr_audit r) → db_jobs d !! dr_jobID r = Some job →
  db_attempts d !! dr_attemptID r = Some a → a_job a = dr_jobID r → a_env a = dr_environmentID r →
  db_ops d !! k = Some o → o_attempt o = dr_attemptID r →
  resolveWrites r job k o now d = inr (u, d') → lease_inv d'.
Proof.
  intros Hinv Hq Hj Ha Haj Hae Ho Hoa H. unfold resolveWrites in H.
  apply tx_bind_inv in H as (s&d0&[_ ->]%tx_some_inv&H). apply tx_bind_inv in H as (?&d0&[_ ->]%tx_guard_inv&H).
  apply tx_bind_inv in H as (h&d0&[<- ->]%tx_read_inv&H).
  apply tx_bind_inv in H as (?&d1&H1&H). apply tx_bind_inv in H as (?&d2&H2%Hq&H3%quiet_append).
  eapply lease_frame_inv; [exact H3|]. eapply lease_frame_inv; [exact H2|].
  case_bool_decide.
  - eapply finalize_closes in H1 as (s1&j'&Hc&_); try done. by eapply closes_preserves.
  - eapply resolveNotActivated_closes in H1 as (s1&j'&Hc&_); try done. by eapply closes_preserves.
Qed.

Lemma resolveDeclared_preserves d r now u d' :
  lease_inv d → tx_preserves lease_inv (dr_clearPlain r) → tx_quiet (dr_audit r) →
  (∀ a, db_attempts d !! dr_attemptID r = Some a → a_job a = dr_jobID r) →
  resolveDeclared r now d = inr (u, d') → lease_inv d'.
Proof.
  intros Hinv Hclear Hq Hpeek H. unfold resolveDeclared in H.
  apply tx_bind_inv in H as (job&d0&[Hj ->]%tx_some_inv&H). apply tx_bind_inv in H as (a&d0&[Ha ->]%tx_some_inv&H).
  apply tx_bind_inv in H as (?&d0&[_ ->]%refuse_inv&H). apply tx_bind_inv in H as (f&d0&[<- ->]%tx_read_inv&H).
  destruct (find_op _ d) as [[k o]|] eqn:Ef.
  - apply find_op_Some in Ef as [Ho HP]. tx_inv. unfold blockShape in *. bool_hyps.
    eapply (resolveWrites_preserves d r job k o); eauto.
  - apply tx_bind_inv in H as (?&d0&[_ ->]%tx_guard_inv&H). apply tx_bind_inv in H as (?&d0&[_ ->]%refuse_inv&H).
    by eapply Hclear.
Qed.

Lemma clearPlain_preserves p e i a reason now : tx_preserves lease_inv (clearPlainReconciliation p e i a reason now).
Proof.
  intros d u d' Hinv H. unfold clearPlainReconciliation in H. tx_inv.
  eapply lease_frame_inv; [by eapply quiet_append|]. eapply lease_frame_inv; [by eapply quiet_audit|].
  by eapply clear_slot_preserves.
Qed.

Lemma resolveActivation_preserves p e outcome reason now :
  tx_preserves lease_inv (resolveActivationTx p e outcome reason now).
Proof.
  intros d u d' Hinv H. unfold resolveActivationTx in H.
  do 3 (apply tx_bind_inv in H as (?&?&[_ ->]%tx_guard_inv&H)).
  apply tx_bind_inv in H as (?&?&[_ ->]%lockAdministratorSession_inv&H).
  apply tx_bind_inv in H as (s&?&[_ ->]%tx_some_inv&H). destruct (s_recon_attempt s) as [a|].
  - apply tx_bind_inv in H as (r&?&[Hr ->]%tx_some_inv&H). apply tx_bind_inv in H as (j&?&[_ ->]%tx_some_inv&H).
    apply tx_bind_inv in H as (?&?&[_ ->]%tx_guard_inv&H).
    eapply resolveDeclared_preserves in H; try done; simpl; [apply clearPlain_preserves|apply quiet_audit|].
    intros r' Hr'. by simplify_eq.
  - unfold confirmResolvedOutcome in H. apply tx_bind_inv in H as (?&?&[_ ->]%tx_some_inv&H).
    apply tx_bind_inv in H as (?&?&[_ ->]%tx_read_inv&H). by apply refuse_inv in H as [_ ->].
Qed.

Lemma reconcileActivation_preserves srv dg e a fence outcome odg now :
  tx_preserves lease_inv (reconcileActivationTx srv dg e a fence outcome odg now).
Proof.
  intros d u d' Hinv H. unfold reconcileActivationTx in H.
  apply tx_bind_inv in H as (?&?&[_ ->]%tx_guard_inv&H).
  apply tx_bind_inv in H as (?&?&[_ ->]%lockActiveServerCredential_inv&H).
  apply tx_bind_inv in H as (s&?&[_ ->]%tx_some_inv&H). case_bool_decide; simpl in H.
  - apply tx_bind_inv in H as (r&?&[Hr ->]%tx_some_inv&H). apply tx_bind_inv in H as (?&?&[_ ->]%refuse_inv&H).
    eapply resolveDeclared_preserves in H; try done; simpl; [|apply quiet_ret|intros r' Hr'; by simplify_eq].
    intros d1 u1 d2 Hinv1 H1. tx_inv. eapply lease_frame_inv; [by eapply quiet_append|]. by eapply clear_slot_preserves.
  - apply tx_bind_inv in H as (r&?&[Hr ->]%tx_some_inv&H). apply tx_bind_inv in H as (?&?&[_ ->]%refuse_inv&H).
    apply tx_bind_inv in H as (?&?&[_ ->]%tx_guard_inv&H). apply tx_bind_inv in H as (?&?&[_ ->]%tx_read_inv&H).
    apply tx_bind_inv in H as (?&?&[_ ->]%tx_guard_inv&H). apply tx_bind_inv in H as (?&?&[_ ->]%tx_read_inv&H).
    by apply refuse_inv in H as [_ ->].
Qed.

(** ** Reporting a result *)

Lemma block_preserves i a k e summary now d u d' r :
  lease_inv d → db_attempts d !! a = Some r → a_env r = e →
  blockActivationForReconciliation i a k e summary now d = inr (u, d') → lease_inv d'.
Proof. intros Hinv Hr He H%blockActivation_blocks. eapply blocks_preserves; eauto. Qed.

Lemma writeLateEvidence_preserves i a k summary rep : tx_preserves lease_inv (writeLateEvidence i a k summary rep).
Proof.
  intros d u d' Hinv H. unfold writeLateEvidence in H. destruct (lateEvidence summary rep) as [updated outcome].
  destruct (negb _); [by tx_inv|].
  apply tx_bind_inv in H as (?&d1&H1%expectRow_inv&H). apply tx_bind_inv in H as (?&d2&H2%quiet_append&H). tx_inv.
  eapply lease_frame_inv; [exact H2|]. apply update_op_inv in H1 as [(?&_)|(o&_&Ho&_&_&Hck&->)]; [done|].
  by eapply touch_op_preserves.
Qed.

Lemma recordBlockTx_preserves srv a fence k evidence rep now :
  tx_preserves lease_inv (recordBlockTx srv a fence k evidence rep now).
Proof.
  intros d u d' Hinv H. unfold recordBlockTx in H.
  apply tx_bind_inv in H as (r&d0&[Hr ->]%tx_some_inv&H). apply tx_bind_inv in H as (s&d0&[_ ->]%tx_some_inv&H).
  apply tx_bind_inv in H as (o&d0&[_ ->]%tx_some_inv&H).
  apply bind_Some in Hr as (r'&Hr&E). case_bool_decide; [|done]. injection E as ->.
  destruct (o_state o); try (by tx_inv).
  - destruct (negb _); [by tx_inv|]. apply tx_bind_inv in H as (?&d1&H1&H). tx_inv. by eapply block_preserves.
  - destruct (negb (rep_succeeded rep) && _); [by tx_inv|]. destruct (negb _); [by tx_inv|].
    apply tx_bind_inv in H as (?&d1&H1&H). tx_inv. by eapply writeLateEvidence_preserves.
Qed.

Lemma recordBlock_preserves srv a fence k evidence rep now d :
  lease_inv d → lease_inv (recordBlockInFreshTransaction srv a fence k evidence rep now d).2.
Proof.
  intros Hinv. unfold recordBlockInFreshTransaction. destruct (recordBlockTx _ _ _ _ _ _ _ d) as [|[o d']] eqn:E; [done|].
  by eapply recordBlockTx_preserves.
Qed.

Lemma trace_preserves i a d : lease_inv d → lease_inv (traceDeclaredContradiction i a d).2.
Proof.
  intros Hinv. unfold traceDeclaredContradiction. destruct (negb _ || _); [done|].
  destruct (appendAgentJobEvent _ _ _ d) as [|[u d']] eqn:E; [done|]. simpl. eapply lease_frame_inv; [|done]. by eapply quiet_append.
Qed.

Lemma recordLate_preserves i a k fence r s summary rep d :
  lease_inv d → lease_inv (recordLateReport i a k fence r s summary rep d).2.
Proof.
  intros Hinv. unfold recordLateReport. destruct (negb _); [done|].
  destruct (writeLateEvidence _ _ _ _ _ d) as [|[[] d']] eqn:E; try done. by eapply writeLateEvidence_preserves.
Qed.

(** What the report transaction holds once its checks have passed. *)
Lemma reportPrefix_inv srv dg a fence op d s j r k o d' :
  reportPrefix srv dg a fence op d = inr (s, j, r, k, o, d') →
  d' = d ∧ db_attempts d !! a = Some r ∧ a_server r = srv ∧ a_fence r = fence ∧ db_slots d !! a_env r = Some s ∧
  db_jobs d !! a_job r = Some j ∧ db_ops d !! k = Some o ∧ o_attempt o = a ∧ o_fence o = fence ∧
  ParseInt op = Some k ∧ slen (o_route_digest o) = 32.
Proof.
  unfold reportPrefix. intros H. apply tx_bind_inv in H as (?&d0&[_ ->]%tx_guard_inv&H).
  destruct (ParseInt op) as [p|] eqn:Ep; [|done]. apply tx_bind_inv in H as (?&d0&[_ ->]%tx_guard_inv&H).
  apply tx_bind_inv in H as ([[s' j'] r']&d1&(->&Hcr&Hr&Hsv&Hs&Hj)%lockLeaseRows_inv&H).
  apply tx_bind_inv in H as (?&d0&[Hf ->]%tx_guard_inv&H).
  apply tx_bind_inv in H as ([k' o']&d0&[Ho ->]%tx_some_inv&H).
  apply tx_bind_inv in H as (?&d0&[Hg1 ->]%tx_guard_inv&H). apply tx_bind_inv in H as (?&d0&[Hg2 ->]%tx_guard_inv&H).
  apply tx_ret_inv in H as [[= -> -> -> -> ->] ->].
  apply find_op_Some in Ho as [Ho HP]. bool_hyps. subst. by split_and!.
Qed.

Section report.
Context (errorText : Err → string).

Lemma blockAfterAborted_preserves srv a fence k pre cause rep now d :
  lease_inv d → lease_inv (blockAfterAbortedTransaction errorText srv a fence k pre cause rep now d).2.
Proof.
  intros Hinv. unfold blockAfterAbortedTransaction.
  pose proof (recordBlock_preserves srv a fence k (sanitizeOutcomeSummary (pre +:+ errorText cause)) rep now d Hinv) as H.
  destruct (recordBlockInFreshTransaction _ _ _ _ _ _ _ d) as [[e|o] d']; [done|]. by destruct o.
Qed.

Lemma reportOpen_preserves srv j r a fence k o rep now d :
  lease_inv d → db_attempts d !! a = Some r → db_jobs d !! a_job r = Some j → db_ops d !! k = Some o → o_attempt o = a →
  lease_inv (reportOpen errorText srv j r a fence k o rep now d).2.
Proof.
  intros Hinv Hr Hj Ho Hoa. unfold reportOpen.
  assert (∀ summary u d', blockActivationForReconciliation (a_job r) a k (a_env r) summary now d = inr (u, d') → lease_inv d')
    as Hblock by (intros ???; by eapply block_preserves).
  assert (∀ evidence refusal, lease_inv (refuseAmbiguous (a_job r) a k (a_env r) evidence refusal now d).2) as Hrefuse.
  { intros evidence refusal. unfold refuseAmbiguous.
    destruct (blockActivationForReconciliation _ _ _ _ _ _ d) as [|[u d']] eqn:E; [done|]. by eapply Hblock. }
  destruct (negb (rep_succeeded rep)).
  { destruct (blockActivationForReconciliation _ _ _ _ _ _ d) as [|[u d']] eqn:E; [done|]. by eapply Hblock. }
  destruct (negb (rep_digestMatches rep)); [apply Hrefuse|].
  destruct (db_heads d !! a_env r) as [h|]; [|apply Hrefuse]. destruct (_ || _); [apply Hrefuse|].
  destruct (finalizeActivationSucceeded _ d) as [cause|[u d']] eqn:E.
  - unfold blockAfterFinalizeFailure. destruct (negb _); [done|].
    destruct (blockActivationForReconciliation _ _ _ _ _ _ d) as [|[u d']] eqn:E'; [done|]. by eapply Hblock.
  - destruct (commitOk d'); [|by apply blockAfterAborted_preserves].
    eapply (finalize_closes d _ k o) in E as (s&j'&Hc&_); try done. by eapply closes_preserves.
Qed.

Lemma report_preserves srv dg a fence op succeeded od summary now d :
  lease_inv d → lease_inv (ReportActivationResult errorText srv dg a fence op succeeded od summary now d).2.
Proof.
  intros Hinv. unfold ReportActivationResult.
  assert (lease_inv (reportActivationResult errorText srv dg a fence op succeeded od summary now d).2.2) as H.
  { unfold reportActivationResult. destruct (reportPrefix _ _ _ _ _ d) as [e|[[[[[s j] r] k] o] d0]] eqn:E; [done|].
    apply reportPrefix_inv in E as (->&Hr&_&_&Hs&Hj&Ho&Hoa&_).
    destruct (o_state o); try done.
    - destruct (negb (leasedOccupant _ _ _ _)); [done|]. by apply reportOpen_preserves.
    - case_match; [done|]. by apply recordLate_preserves.
    - case_match; [|done]. by apply trace_preserves.
    - case_match; [done|]. by apply trace_preserves. }
  destruct (reportActivationResult _ _ _ _ _ _ _ _ _ _ d) as [b [x d']]. by destruct b.
Qed.
End report.
