(* ===== verification/Enqueue.v ===== *)
(** * Enqueuing a verified push (src/internal/store/postgres/webhook_job_repository.go)

    The values ProcessPush derives from a push and its binding target, and the
    writes of [enqueueVerifiedPushTx] for a new intent: the queued job, its
    deployment and the [enqueued] event.  The receipts and intents that decide
    whether a push is new are modelled in Webhooks.v. *)
From S2P Require Import Prelude GoStd Deployment Queue Schema DeploymentStore LeaseCore Lease LeaseInv LeaseSteps.
From Stdlib Require Import Ascii.
#[local] Open Scope Z_scope.

(** [github.Push] *)
Record Push := {
  push_InstallationID : Z; push_RepositoryID : Z; push_OwnerID : Z; push_Ref : string; push_CommitSHA : string;
}.
Definition PushValidate (p : Push) : bool :=
  (0 <? push_InstallationID p) && (0 <? push_RepositoryID p) && (0 <? push_OwnerID p)
  && ValidBranchRef (push_Ref p) && ValidCommitSHA (push_CommitSHA p).

Record webhookTarget := { t_ownerID : string; t_projectID : string; t_environmentID : string; t_serverID : string }.

(** Big-endian uint32 length, then the bytes. *)
Fixpoint lengthFramed (parts : list string) : string :=
  match parts with
  | [] => ""
  | p :: ps => Sha256.string_of_bytes (Sha256.bytesBE 4 (slen p mod 2 ^ 32)) +:+ p +:+ lengthFramed ps
  end.

Definition webhookParts (target : webhookTarget) (push : Push) : list string :=
  ["autodeploy:webhook:v1"; t_ownerID target; t_projectID target; t_environmentID target; t_serverID target;
   FormatInt (push_RepositoryID push); push_Ref push; push_CommitSHA push].

Definition webhookIDs (target : webhookTarget) (push : Push) : string * string :=
  let seed := EncodeToString (Sum256 (lengthFramed (webhookParts target push))) in
  ("whd_" +:+ takeBytes 40 seed, "whj_" +:+ dropBytes 40 seed).

(** [INSERT INTO agent_jobs ... RETURNING id]: [jobID] is the identity value,
    [keyTaken] whether another job of the owner has the idempotency key. *)
Definition job_row (j : Job) (now : Z) : JobRow :=
  {| j_owner := job_OwnerID j; j_project := job_ProjectID j; j_env := job_EnvironmentID j; j_server := job_ServerID j;
     j_deployment := job_DeploymentID j; j_repository := job_RepositoryID j; j_ref := job_Ref j;
     j_commit := job_CommitSHA j; j_priority := job_Priority j; j_created_at := now; j_state := JobQueued;
     j_available_at := instant (job_AvailableAt j); j_cancel_requested_at := None; j_attempt_count := 0;
     j_updated_at := now |}.
Definition insert_job (jobID : Z) (keyTaken : bool) (row : JobRow) : Tx DB Err unit := λ d,
  if isSomeb (db_jobs d !! jobID) || keyTaken
     || negb (bool_decide (map_Forall (λ _ k, j_deployment k ≠ j_deployment row) (db_jobs d)))
  then inl (ErrPg PgUniqueViolation)
  else inr (tt, set_jobs (<[jobID := row]> (db_jobs d)) d).

Definition insert_enqueued (jobID : Z) : Tx DB Err unit := λ d,
  if existsb (λ e, (e_job e =? jobID) && (e_sequence e =? 1)) (db_job_events d) then inl (ErrPg PgUniqueViolation)
  else inr (tt, set_logs (db_job_events d ++ [{| e_job := jobID; e_sequence := 1; e_type := EvEnqueued; e_attempt := None |}])
                  (db_route_events d) (db_audit d) d).

(** A unique violation is reported as an integrity error. *)
Definition onUnique {A} (m : Tx DB Err A) : Tx DB Err A := λ d,
  match m d with
  | inl (ErrPg PgUniqueViolation) | inl ErrAlreadyExists => inl ErrWebhookIntegrity
  | r => r
  end.

Definition targetMatches (dep : Deployment) (job : Job) (target : webhookTarget) : bool :=
  let i := identity dep in
  bool_decide (job_OwnerID job = t_ownerID target) && bool_decide (job_ProjectID job = t_projectID target)
  && bool_decide (ProjectID i = t_projectID target) && bool_decide (job_EnvironmentID job = t_environmentID target)
  && bool_decide (EnvironmentID i = t_environmentID target) && bool_decide (job_ServerID job = t_serverID target)
  && bool_decide (ServerID i = t_serverID target).

(** [enqueueVerifiedPushTx] from the target check on, for a push whose receipt
    and intent are new. *)
Definition enqueueNewIntent (jobID : Z) (keyTaken : bool) (dep : Deployment) (job : Job) (target : webhookTarget)
    (now : Z) : Tx DB Err Z :=
  do! tx_guard (targetMatches dep job target) ErrWebhookUnauthorized in
  do! onUnique (insert_job jobID keyTaken (job_row job now)) in
  do! onUnique (createTx dep) in
  do! insert_enqueued jobID in
  tx_ret jobID.

(** [ProcessPush] after the authority locks have resolved [target]. *)
Definition processPushTx (jobID : Z) (keyTaken : bool) (target : webhookTarget) (push : Push) (now : Z) : Tx DB Err Z :=
  do! tx_guard (PushValidate push) ErrWebhookUnauthorized in
  let '(deploymentID, jobKey) := webhookIDs target push in
  match New {| DeploymentID := deploymentID; ProjectID := t_projectID target; EnvironmentID := t_environmentID target;
               ServerID := t_serverID target; CommitSHA := push_CommitSHA push |} now with
  | inl _ => tx_fail ErrWebhookUnauthorized
  | inr dep =>
      match NewDeploymentExecutionJob (t_ownerID target) (t_projectID target) (t_environmentID target) (t_serverID target)
              deploymentID (push_RepositoryID push) (push_Ref push) (push_CommitSHA push) jobKey 0 now with
      | None => tx_fail ErrWebhookUnauthorized
      | Some job => enqueueNewIntent jobID keyTaken dep job target now
      end
  end.

(** ** Derived identities *)

Lemma hexDigit_inj a b : 0 ≤ a < 16 → 0 ≤ b < 16 → hexDigit a = hexDigit b → a = b.
Proof.
  intros Ha Hb H.
  assert (∀ x, 0 ≤ x < 16 → byte_of (hexDigit x) = if x <? 10 then 48 + x else 87 + x) as E.
  { intros x Hx. unfold hexDigit. destruct (x <? 10) eqn:Ex; bool_hyps; unfold GoStd.ascii_of_byte, byte_of;
      rewrite N_ascii_embedding by (apply N2Z.inj_lt; rewrite Z2N.id; [|apply Z.mod_pos_bound; lia];
        apply (Z.mod_pos_bound _ 256); lia);
      rewrite Z2N.id by (apply Z.mod_pos_bound; lia); apply Z.mod_small; lia. }
  apply (f_equal byte_of) in H. rewrite !E in H by done.
  destruct (a <? 10) eqn:E1, (b <? 10) eqn:E2; bool_hyps; lia.
Qed.

Lemma byte_of_bounds c : 0 ≤ byte_of c < 256.
Proof. unfold byte_of. pose proof (N_ascii_bounded c). lia. Qed.

Lemma byte_of_inj c e : byte_of c = byte_of e → c = e.
Proof. unfold byte_of. intros H%N2Z.inj. rewrite <-(ascii_N_embedding c), <-(ascii_N_embedding e). by f_equal. Qed.

Lemma EncodeToString_inj s t : EncodeToString s = EncodeToString t → s = t.
Proof.
  revert t. induction s as [|c s IH]; intros [|e t]; simpl; try done. intros [= H1 H2 H3].
  pose proof (byte_of_bounds c). pose proof (byte_of_bounds e).
  apply hexDigit_inj in H1; [|split; [apply Z.div_pos|apply Z.div_lt_upper_bound]; lia..].
  apply hexDigit_inj in H2; [|apply Z.mod_pos_bound; lia..].
  f_equal; [|by apply IH]. apply byte_of_inj.
  rewrite (Z.div_mod (byte_of c) 16), (Z.div_mod (byte_of e) 16) by lia. congruence.
Qed.

Lemma length_EncodeToString s : String.length (EncodeToString s) = (2 * String.length s)%nat.
Proof. induction s; simpl; lia. Qed.

Lemma ascii_of_byte_inj a b : GoStd.ascii_of_byte a = GoStd.ascii_of_byte b → a mod 256 = b mod 256.
Proof.
  intros H%(f_equal byte_of). unfold GoStd.ascii_of_byte, byte_of in H.
  pose proof (Z.mod_pos_bound a 256). pose proof (Z.mod_pos_bound b 256).
  rewrite !N_ascii_embedding in H by (apply N2Z.inj_lt; rewrite Z2N.id; lia). rewrite !Z2N.id in H by lia. done.
Qed.

Lemma be32_inj x y :
  0 ≤ x < 2 ^ 32 → 0 ≤ y < 2 ^ 32 →
  Sha256.string_of_bytes (Sha256.bytesBE 4 x) = Sha256.string_of_bytes (Sha256.bytesBE 4 y) → x = y.
Proof.
  assert (∀ z, 0 ≤ z < 2 ^ 32 → z = (z / 2 ^ 24) mod 256 * 2 ^ 24 + (z / 2 ^ 16) mod 256 * 2 ^ 16
                 + (z / 2 ^ 8) mod 256 * 2 ^ 8 + z mod 256) as E.
  { intros z Hz. change (2 ^ 32) with 4294967296 in Hz. change (2 ^ 24) with 16777216.
    change (2 ^ 16) with 65536. change (2 ^ 8) with 256. Z.div_mod_to_equations. lia. }
  intros Hx Hy [= H1 H2 H3 H4].
  repeat match goal with H : GoStd.ascii_of_byte _ = _ |- _ => apply ascii_of_byte_inj in H end.
  rewrite !Z.mod_mod in * by lia. rewrite (E x Hx), (E y Hy). 
  change (8 * Z.of_nat 0) with 0 in *. rewrite !Z.div_1_r in *. 
  change (8 * Z.of_nat 3) with 24 in *. change (8 * Z.of_nat 2) with 16 in *. change (8 * Z.of_nat 1) with 8 in *. congruence.
Qed.

Lemma lengthFramed_inj ps qs :
  length ps = length qs → Forall (λ p, slen p < 2 ^ 32) ps → Forall (λ q, slen q < 2 ^ 32) qs →
  lengthFramed ps = lengthFramed qs → ps = qs.
Proof.
  revert qs. induction ps as [|p ps IH]; intros [|q qs] Hl Hp Hq; simpl; try done. intros H. injection Hl as Hl.
  apply Forall_cons in Hp as [Hp Hps]. apply Forall_cons in Hq as [Hq Hqs].
  apply app_inj_length in H as [H1 H2]; [|done].
  pose proof (slen_nonneg p). pose proof (slen_nonneg q).
  apply (be32_inj (slen p mod 2 ^ 32) (slen q mod 2 ^ 32)) in H1; [|by apply Z.mod_pos_bound..].
  rewrite !Z.mod_small in H1 by lia. apply app_inj_length in H2 as [-> H2]; [|unfold slen in H1; lia]. by rewrite (IH qs).
Qed.

(** the deployment and job identities of two pushes coincide only for the
    same owner, project, environment, server, repository, ref and commit: the
    length framing leaves no ambiguity, so anything else is a SHA-256
    collision.  (Every field is shorter than 4 GiB.) *)
Theorem webhook_ids_bind_fields t p u q :
  Forall (λ x, slen x < 2 ^ 32) (webhookParts t p) → Forall (λ x, slen x < 2 ^ 32) (webhookParts u q) →
  webhookIDs t p = webhookIDs u q →
  (t = u ∧ push_RepositoryID p = push_RepositoryID q ∧ push_Ref p = push_Ref q ∧ push_CommitSHA p = push_CommitSHA q) ∨
  (lengthFramed (webhookParts t p) ≠ lengthFramed (webhookParts u q) ∧
   Sum256 (lengthFramed (webhookParts t p)) = Sum256 (lengthFramed (webhookParts u q))).
Proof.
  intros Hp Hq H. unfold webhookIDs in H.
  apply pair_equal_spec in H as [H1%app_inj_l H2%app_inj_l].
  assert (EncodeToString (Sum256 (lengthFramed (webhookParts t p)))
          = EncodeToString (Sum256 (lengthFramed (webhookParts u q)))) as E.
  { rewrite <-(takeBytes_dropBytes 40 (EncodeToString (Sum256 (lengthFramed (webhookParts t p))))).
    by rewrite H1, H2, takeBytes_dropBytes. }
  apply EncodeToString_inj in E.
  destruct (decide (lengthFramed (webhookParts t p) = lengthFramed (webhookParts u q))) as [He|Hne]; [left|by right].
  apply lengthFramed_inj in He; [|done..]. unfold webhookParts in He. destruct t, u. simpl in *. simplify_eq.
  by split_and!; try done; apply (inj FormatInt).
Qed.

Lemma webhook_ids_bind_fields_witness :
  let t := {| t_ownerID := "owner"; t_projectID := "project"; t_environmentID := "env"; t_serverID := "server" |} in
  let p := {| push_InstallationID := 3; push_RepositoryID := 4; push_OwnerID := 5; push_Ref := "refs/heads/main";
              push_CommitSHA := "0123456789abcdef0123456789abcdef01234567" |} in
  let q := {| push_InstallationID := 9; push_RepositoryID := 4; push_OwnerID := 7; push_Ref := "refs/heads/main";
              push_CommitSHA := "0123456789abcdef0123456789abcdef01234567" |} in
  push_CommitSHA p = push_CommitSHA q ∨ lengthFramed (webhookParts t p) ≠ lengthFramed (webhookParts t q).
Proof.
  intros t p q. destruct (webhook_ids_bind_fields t p t q) as [(_&_&_&H)|[H _]].
  - by repeat constructor.
  - by repeat constructor.
  - reflexivity.
  - by left.
  - by right.
Defined.

(** ** Enqueuing keeps the lease invariant *)

Lemma createTx_effect i t dep d u d' :
  New i t = inr dep → createTx dep d = inr (u, d') →
  storedAs (DeploymentID i) (snapshotOf dep) dep ∧ status dep = StatusQueued ∧
  db_deployments d !! DeploymentID i = None ∧
  d' = set_deployments (<[DeploymentID i := snapshotOf dep]> (db_deployments d)) d.
Proof.
  intros Hn H. unfold createTx, checkedSnapshot in H. apply tx_bind_inv in H as (sn&d0&H0&H).
  apply tx_bind_inv in H0 as (sn'&d1&H1&H0). unfold liftDeployment, TakeSnapshot in H1.
  destruct (validate dep) eqn:Hv; [done|]. apply tx_ret_inv in H1 as [<- ->].
  destruct (postgresRevision _); [|done]. apply tx_ret_inv in H0 as [<- ->].
  assert (identity dep = i ∧ status dep = StatusQueued ∧ events dep =
    [{| ev_from := StatusNone; ev_to := StatusQueued; ev_at := createdAt dep |}] ∧ canonicalDeployment dep) as (Hi&Hst&Hev&Hc).
  { unfold New in Hn. destruct (validateIdentity i); [done|]. destruct (t =? 0); [done|]. injection Hn as <-. simpl.
    split_and!; try done. repeat constructor; apply canonicalTime_idemp. }
  simpl in H. apply tx_bind_inv in H as (ex&d1&[<- ->]%tx_read_inv&H).
  apply tx_bind_inv in H as (?&d1&[Hg ->]%tx_guard_inv&H). rewrite Hi in *.
  destruct (db_deployments d !! DeploymentID i) eqn:El; [done|].
  apply tx_bind_inv in H as (?&d1&->%tx_write_inv&H). rewrite Hev in H. simpl in H.
  apply tx_bind_inv in H as (h&d2&[Hh ->]%tx_some_inv&H). simpl in Hh. rewrite lookup_insert_eq in Hh. injection Hh as <-.
  apply tx_bind_inv in H as (?&d2&[_ ->]%tx_guard_inv&H). apply tx_bind_inv in H as (?&d2&->%tx_write_inv&H).
  apply tx_ret_inv in H as [_ ->]. split_and!; try done; [split_and!; try done; by rewrite Hi|].
  unfold set_deployments. simpl. f_equal. rewrite insert_insert_eq. f_equal. unfold with_events, snapshotOf. simpl.
  by rewrite Hev, Hi.
Qed.

(** A queued job under a new identity, with a new queued deployment. *)
Lemma new_job_preserves d i j s dep :
  lease_inv d → db_jobs d !! i = None → db_deployments d !! j_deployment j = None →
  (∀ k q, db_jobs d !! k = Some q → j_deployment q ≠ j_deployment j) →
  storedAs (j_deployment j) s dep → status dep = StatusQueued → j_state j = JobQueued → j_attempt_count j = 0 →
  j_cancel_requested_at j = None →
  lease_inv (set_deployments (<[j_deployment j := s]> (db_deployments d)) (set_jobs (<[i := j]> (db_jobs d)) d)).
Proof.
  intros [inv_occupant0 inv_leased0 inv_attempt0 inv_numbers0 inv_fences0 inv_history0 inv_count0 inv_frozen0 inv_slot0
    inv_op0 inv_op_unique0 inv_deployment0 inv_one_job0 inv_cancel0] Hi Hdn Hdep Hs Hq Hst Hc Hcan.
  assert (∀ a r, db_attempts d !! a = Some r → a_job r ≠ i) as Hna.
  { intros a r Hr E. destruct (inv_attempt0 a r Hr) as (_&_&?&?&_&_&Hj&_). congruence. }
  assert (∀ k o, db_ops d !! k = Some o → o_job o ≠ i) as Hno.
  { intros k o Ho. destruct (inv_op0 k o Ho) as (_&_&r&Hr&_&_&<-&_). by eapply Hna. }
  split; simpl; try done.
  - intros a r Hr Hl. rewrite lookup_insert_ne by by apply not_eq_sym, (Hna a r). by apply inv_leased0.
  - intros a r Hr. rewrite lookup_insert_ne by by apply not_eq_sym, (Hna a r). by apply inv_attempt0.
  - intros k q n [[<- <-]|[_ Hk]]%lookup_insert_Some Hn; [lia|by eauto].
  - intros k q [[<- <-]|[_ Hk]]%lookup_insert_Some; [|by eauto]. unfold job_count_ok. rewrite Hst, Hc. unfold MaxAttempts. lia.
  - intros k q [[<- <-]|[_ Hk]]%lookup_insert_Some.
    + exists s, dep. rewrite lookup_insert_eq, Hst, Hq. split_and!; try done.
      split; [done|]. intros (k&o&Ho&E&_). by destruct (Hno k o).
    + rewrite lookup_insert_ne by (apply not_eq_sym; eauto). eauto.
  - intros k1 q1 k2 q2 [[<- <-]|[_ H1]]%lookup_insert_Some [[<- <-]|[_ H2]]%lookup_insert_Some; eauto; intros E; exfalso;
      eapply Hdep; eauto.
  - intros k q n o [[<- <-]|[_ Hk]]%lookup_insert_Some; [|by eauto]. by rewrite Hcan.
Qed.

Lemma onUnique_inv {A} (m : Tx DB Err A) d x d' : onUnique m d = inr (x, d') → m d = inr (x, d').
Proof. unfold onUnique. destruct (m d) as [[]|]; try done. by case_match. Qed.

Lemma processPush_preserves i kt t p now : tx_preserves lease_inv (processPushTx i kt t p now).
Proof.
  intros d x d' Hinv H. unfold processPushTx in H. apply tx_bind_inv in H as (?&d0&[_ ->]%tx_guard_inv&H).
  destruct (webhookIDs t p) as [did key]. destruct (New _ now) as [|dep] eqn:En; [done|].
  destruct (NewDeploymentExecutionJob _ _ _ _ _ _ _ _ _ _ _) as [job|] eqn:Ej; [|done].
  assert (job_DeploymentID job = did) as Hd by (unfold NewDeploymentExecutionJob in Ej; case_match; [|done]; by injection Ej as <-).
  unfold enqueueNewIntent in H. apply tx_bind_inv in H as (?&d0&[_ ->]%tx_guard_inv&H).
  apply tx_bind_inv in H as (?&d1&H1%onUnique_inv&H). apply tx_bind_inv in H as (?&d2&H2%onUnique_inv&H).
  apply tx_bind_inv in H as (?&d3&H3&H). apply tx_ret_inv in H as [_ ->].
  unfold insert_job in H1. destruct (_ || _) eqn:Eg; [done|]. bool_hyps. injection H1 as _ <-.
  apply (createTx_effect _ _ _ _ _ _ En) in H2 as (Hsa&Hst&Hno&->). simpl in Hno, Hsa.
  unfold insert_enqueued in H3. case_match; [done|]. injection H3 as _ <-.
  eapply lease_frame_inv; [|eapply (new_job_preserves d i (job_row job now) (snapshotOf dep) dep); simpl; rewrite ?Hd; try done].
  - unfold lease_frame. simpl. by rewrite Hd.
  - by destruct (db_jobs d !! i).
  - intros k q Hk. match goal with H : map_Forall _ _ |- _ => specialize (H k q Hk); simpl in H end. congruence.
Qed.
