(* ===== verification/LeaseSystem.v ===== *)
(** * The lease system: every call as a step

    [Call] lists the calls that write the lease tables, [exec] runs one
    against the database, and a run of the control plane is a list of calls:
    each call is one committed transaction (Claim's three parts are separate
    calls, so other transactions may run between them), with arbitrary
    arguments, clock readings, lock misses and random draws.  [permits] says
    which lease events a call may cause where, and on whose authority;
    [LeaseSafe] is what the system asks of each call; its instances discharge
    it. *)
From S2P Require Import Prelude GoStd Deployment Queue Route Schema Evidence DeploymentStore LeaseCore Lease LeaseInv LeaseSteps LeaseSpec Activation Resolution ActivationSteps Enqueue.
From stdpp Require Import relations.
#[local] Open Scope Z_scope.

(** ** The calls and what they are permitted *)

Inductive Call :=
  | CallPush (jobID : Z) (keyTaken : bool) (target : webhookTarget) (push : Push) (now : Z)
  | CallEnsureSlots (now : Z) (envs : list string)
  | CallClaim (lk : Locked) (serverID digest : string) (limit now : Z) (candidates : list agentLeaseCandidate)
  | CallRenew (serverID digest : string) (attemptID fence sequence now : Z)
  | CallComplete (serverID digest : string) (attemptID fence : Z) (outcome failureClass operationID result : string) (now draw : Z)
  | CallCancel (p : Principal) (jobID now : Z)
  | CallAcknowledge (serverID digest : string) (attemptID fence : Z) (operationID result : string) (now : Z)
  | CallExpire (lk : Locked) (attemptID now draw : Z)
  | CallReconcile (serverID digest environmentID : string) (attemptID fence now : Z)
  | CallMarkReconciled (p : Principal) (environmentID reason : string) (now : Z)
  | CallRevoke (p : Principal) (serverID reason : string) (now draw : Z)
  | CallProgress (serverID digest : string) (attemptID fence : Z) (phase : Status) (now : Z)
  | CallActivate (serverID digest : string) (attemptID fence : Z) (imageDigest : string) (now : Z)
  | CallReport (serverID digest : string) (attemptID fence : Z) (operationID : string) (succeeded : bool)
      (observed summary : string) (now : Z)
  | CallResolve (p : Principal) (environmentID outcome reason : string) (now : Z)
  | CallReconcileActivation (serverID digest environmentID : string) (attemptID fence : Z) (outcome observed : string) (now : Z).

(** The administrator's session is live. *)
Definition liveAdministrator (p : Principal) (now : Z) (d : DB) : Prop :=
  validPrincipal p = true ∧ ∃ s, db_sessions d !! p_SessionID p = Some s ∧ sessionLive p now s = true.
(** The server presents its credential and names an attempt of its own under
    the fence it was given. *)
Definition agentOf (serverID digest : string) (attemptID fence : Z) (d : DB) : Prop :=
  credentialMatches serverID digest d = true ∧
  ∃ r, db_attempts d !! attemptID = Some r ∧ a_server r = serverID ∧ a_fence r = fence.

(** [permits c d e ev]: the call, made in [d], may cause this event in the
    environment. *)
Definition permits (c : Call) (d : DB) (e : string) (ev : lease_event) : Prop :=
  match c with
  | CallClaim _ srv dg _ _ cs =>
      credentialMatches srv dg d = true ∧ e ∈ c_environmentID <$> cs ∧ ∃ a, ev = Acquire a ∧ db_attempts d !! a = None
  | CallComplete srv dg a f _ _ _ _ _ _ | CallAcknowledge srv dg a f _ _ _ => agentOf srv dg a f d ∧ ev = Release a
  | CallExpire _ a now _ =>
      (ev = Expire a ∨ ev = Block a) ∧ ∃ r, db_attempts d !! a = Some r ∧ a_authority_expires r ≤ now
  | CallRevoke p srv _ now _ =>
      liveAdministrator p now d ∧
      ∃ a r, (ev = Expire a ∨ ev = Block a) ∧ db_attempts d !! a = Some r ∧ a_server r = srv ∧ a_state r = AttemptLeased
  | CallReport srv dg a f op succeeded _ _ _ =>
      agentOf srv dg a f d ∧ (ev = Block a ∨ (succeeded = true ∧ ∃ k, ParseInt op = Some k ∧ ev = Resolve a k))
  | CallResolve p e' _ _ now => e = e' ∧ liveAdministrator p now d ∧ ∃ a, ev = Clear a ∨ ∃ k, ev = Resolve a k
  | CallReconcileActivation srv dg e' a f _ _ _ => e = e' ∧ agentOf srv dg a f d ∧ (ev = Clear a ∨ ∃ k, ev = Resolve a k)
  | CallReconcile srv dg e' a f _ => e = e' ∧ agentOf srv dg a f d ∧ ev = Clear a
  | CallMarkReconciled p e' _ now => e = e' ∧ liveAdministrator p now d ∧ ∃ a, ev = Clear a
  | CallPush _ _ _ _ _ | CallEnsureSlots _ _ | CallRenew _ _ _ _ _ _ | CallCancel _ _ _ | CallProgress _ _ _ _ _ _
  | CallActivate _ _ _ _ _ _ => False
  end.

(** The calls that decide the outcome of the activation [k]: a success report
    of that operation, and the declared resolutions of its environment. *)
Definition decides (k : Z) (o : OpRow) (c : Call) : bool :=
  match c with
  | CallReport _ _ a f op succeeded _ _ _ => succeeded && (a =? o_attempt o) && (f =? o_fence o) && bool_decide (ParseInt op = Some k)
  | CallResolve _ e _ _ _ => bool_decide (e = o_env o)
  | CallReconcileActivation _ _ e a f _ _ _ => bool_decide (e = o_env o) && (a =? o_attempt o) && (f =? o_fence o)
  | _ => false
  end.

Lemma lockAdministratorSession_live p now d u d' : lockAdministratorSession p now d = inr (u, d') → liveAdministrator p now d ∧ d' = d.
Proof.
  unfold lockAdministratorSession. intros H. apply tx_bind_inv in H as (?&?&[Hv ->]%tx_guard_inv&H).
  apply tx_bind_inv in H as (s&?&[Hs ->]%tx_some_inv&[Hl ->]%tx_guard_inv). split; [|done]. split; [done|]. by exists s.
Qed.

(** ** Tracked changes *)

(** A change between two states that satisfy the lease invariant. *)
Definition tracked (P : string → lease_event → Prop) (d d' : DB) : Prop := lease_inv d ∧ lease_inv d' ∧ change P d d'.

(** The invariant of the system. *)
Record sys_inv (d : DB) : Prop := { sys_lease : lease_inv d; sys_block : block_inv d }.
#[export] Hint Resolve sys_lease sys_block : core.

(** What is permitted depends on the state a transaction starts in. *)
Definition Permission := DB → string → lease_event → Prop.
Definition tx_tracked {A} (P : Permission) (m : Tx DB Err A) : Prop := ∀ d x d', sys_inv d → m d = inr (x, d') → rtc (tracked (P d)) d d'.

Lemma tracked_once {P} d d' : lease_inv d → lease_inv d' → change P d d' → rtc (tracked P) d d'.
Proof. intros. by apply rtc_once. Qed.

Lemma tracked_inv {P} d d' : lease_inv d → rtc (tracked P) d d' → lease_inv d'.
Proof. intros H. induction 1 as [|x y z (_&Hy&_) _ IH]; auto. Qed.

Lemma tracked_sys {P} d d' : sys_inv d → rtc (tracked P) d d' → sys_inv d'.
Proof.
  intros H. induction 1 as [|x y z (?&?&?) _ IH]; [done|]. apply IH. split; [done|].
  eapply change_blocks; [|by apply sys_block|]; done.
Qed.

(** ** Transactions that leave slots and activations alone *)

Definition same_lease_rows (d d' : DB) : Prop := db_slots d' = db_slots d ∧ db_ops d' = db_ops d.

#[global] Instance same_lease_rows_preorder : PreOrder same_lease_rows.
Proof. split; [done|]. intros d1 d2 d3 [E1 E2] [E3 E4]. split; congruence. Qed.

Section keeps.
Lemma keeps_append i a t : tx_rel same_lease_rows (appendAgentJobEvent i a t).
Proof. by intros d u d' ->%appendAgentJobEvent_inv. Qed.
Lemma keeps_update_attempt a w f : tx_rel same_lease_rows (update_attempt a w f).
Proof. by intros d u d' [(_&->&_)|(r&_&_&_&_&_&->)]%update_attempt_inv. Qed.
Lemma keeps_update_job i w f : tx_rel same_lease_rows (update_job i w f).
Proof. by intros d u d' [(_&->&_)|(r&_&_&_&_&_&->)]%update_job_inv. Qed.
Lemma keeps_lockAdministrator p now : tx_rel same_lease_rows (lockAdministratorSession p now).
Proof. by intros d u d' [_ ->]%lockAdministratorSession_inv. Qed.
Lemma keeps_lockLease srv dg a : tx_rel same_lease_rows (lockLeaseRows srv dg a).
Proof. intros d [[s j] r] d' H. by apply lockLeaseRows_inv in H as (->&_). Qed.
Lemma keeps_reauthorize srv dg a fence now : tx_rel same_lease_rows (reauthorize srv dg a fence now).
Proof. intros d [j r] d' H. by apply reauthorize_inv in H as (->&_). Qed.
Lemma keeps_transition id target now : tx_rel same_lease_rows (transitionDeployment id target now).
Proof. by apply (rel_transition _). Qed.
Lemma keeps_create v : tx_rel same_lease_rows (createTx v).
Proof. by apply (rel_create _). Qed.
End keeps.

#[export] Hint Resolve keeps_append keeps_update_attempt keeps_update_job keeps_lockAdministrator keeps_lockLease
  keeps_reauthorize keeps_transition keeps_create : txrel.

Lemma keeps_tracked {P} {A} (m : Tx DB Err A) : tx_rel same_lease_rows m → tx_preserves lease_inv m → tx_tracked P m.
Proof.
  intros Hk Hp d x d' [Hinv _] H. apply tracked_once; [done|by eapply Hp|]. apply Hk in H as [Es Eo].
  apply change_quiet; rewrite ?Es, ?Eo; eauto 6.
Qed.

Lemma renew_tracked {P} srv dg a fence sq now : tx_tracked P (renewTx srv dg a fence sq now).
Proof. apply keeps_tracked; [|apply renew_preserves]. unfold renewTx. tx_rel. Qed.

Lemma cancel_tracked {P} p i now : tx_tracked P (requestCancellationTx p i now).
Proof. apply keeps_tracked; [|apply requestCancellation_preserves]. unfold requestCancellationTx. tx_rel. Qed.

Lemma progress_tracked {P} srv dg a fence phase now : tx_tracked P (reportProgressTx srv dg a fence phase now).
Proof. apply keeps_tracked; [|apply reportProgress_preserves]. unfold reportProgressTx. tx_rel. Qed.

Lemma push_tracked {P} i kt t p now : tx_tracked P (processPushTx i kt t p now).
Proof.
  apply keeps_tracked; [|apply processPush_preserves].
  assert (∀ A (m : Tx DB Err A), tx_rel same_lease_rows m → tx_rel same_lease_rows (onUnique m)) as Hu.
  { intros A m Hm d x d' H%onUnique_inv. by apply Hm in H. }
  assert (∀ row, tx_rel same_lease_rows (insert_job i kt row)) as Hi.
  { intros row d x d'. unfold insert_job. case_match; [done|]. by intros [= _ <-]. }
  assert (tx_rel same_lease_rows (insert_enqueued i)) as He.
  { intros d x d'. unfold insert_enqueued. case_match; [done|]. by intros [= _ <-]. }
  unfold processPushTx, enqueueNewIntent. tx_rel.
Qed.

(** ** Closing transactions *)

Lemma completeTx_credential srv dg a fence outS fcS op rd now draw d x d' :
  completeTx srv dg a fence outS fcS op rd now draw d = inr (x, d') →
  credentialMatches srv dg d = true ∧ ValidOpaqueID srv = true ∧ 0 < a ∧ 0 < fence ∧ validOperationID op = true.
Proof.
  intros H. unfold completeTx in H. apply tx_bind_inv in H as (?&d0&[Hg ->]%tx_guard_inv&H). bool_hyps.
  destruct (parseCompletion outS fcS) as [[out fc]|]; [|done].
  apply tx_bind_inv in H as ([[s j] r]&d1&(_&Hc&_)%lockLeaseRows_inv&_). by split_and!.
Qed.

Lemma complete_tracked srv dg a fence outS fcS op rd now draw :
  tx_tracked (permits (CallComplete srv dg a fence outS fcS op rd now draw)) (completeTx srv dg a fence outS fcS op rd now draw).
Proof.
  intros d x d' [Hinv _] H. assert (lease_inv d') as Hinv' by by eapply complete_preserves.
  pose proof (completeTx_credential _ _ _ _ _ _ _ _ _ _ _ _ _ H) as [Hcr _].
  apply completeTx_inv in H as (outcome&fc&r&_&Hr&Hsv&[(_&_&_&_&->)|(_&Hf&_&Hno&s&j&j'&_&Hc&_)]); [done| |done].
  apply tracked_once; [done..|]. eapply change_close; [done|]. left. simpl.
  split_and!; [done|split; [done|by exists r]|done..].
Qed.

Lemma acknowledgeTx_credential srv dg a fence op rd now d u d' :
  acknowledgeCancellationTx srv dg a fence op rd now d = inr (u, d') → credentialMatches srv dg d = true.
Proof.
  unfold acknowledgeCancellationTx. intros H. apply tx_bind_inv in H as (?&?&[_ ->]%tx_guard_inv&H).
  by apply tx_bind_inv in H as ([[? ?] ?]&?&(->&?&_)%lockLeaseRows_inv&_).
Qed.

Lemma acknowledge_tracked srv dg a fence op rd now :
  tx_tracked (permits (CallAcknowledge srv dg a fence op rd now)) (acknowledgeCancellationTx srv dg a fence op rd now).
Proof.
  intros d x d' [Hinv _] H. assert (lease_inv d') as Hinv' by by eapply acknowledge_preserves.
  pose proof (acknowledgeTx_credential _ _ _ _ _ _ _ _ _ _ H) as Hcr.
  apply acknowledgeTx_inv in H as (r&Hr&Hsv&[(_&_&_&->)|(_&Hf&_&Hno&s&j&j'&_&_&Hc&_)]); [done| |done].
  apply tracked_once; [done..|]. eapply change_close; [done|]. left. simpl.
  split_and!; [done|split; [done|by exists r]|done..].
Qed.

Lemma closeExpired_tracked {P} d a r j cancel now draw b d' :
  P (a_env r) (Expire a) → P (a_env r) (Block a) → lease_inv d → db_attempts d !! a = Some r → a_state r = AttemptLeased → db_jobs d !! a_job r = Some j →
  closeExpiredOrRevokedAttempt (a_job r) a (a_env r) (a_number r) (j_deployment j) cancel now draw d = inr (b, d') →
  rtc (tracked P) d d' ∧ attempts_stable d d'.
Proof.
  intros HPe HPb Hinv Hr Hl Hj H. pose proof H as H0. apply (closeExpiredOrRevoked_preserves d a r j) in H0 as [Hinv' Hst]; [|done..].
  split; [|done]. unfold closeExpiredOrRevokedAttempt in H. apply tx_bind_inv in H as (v&d1&H1&H).
  apply (divert_inv d a r) in H1 as [(->&->&Hno)|(->&k&o&Ho&Ha&Hu&Hd)]; [| |done..].
  - apply tx_bind_inv in H as (v&d2&H2&H). tx_inv.
    apply (closeAttemptOrdinary_closes d a r j) in H2 as (r'&s&s'&j'&Hc&Hf&Hra&_); [|done..].
    apply tracked_once; [done..|]. eapply change_close; [done|]. right. left. by split_and!.
  - tx_inv. destruct Hd as [[_ ->]|Hb]; [done|]. apply tracked_once; [done..|].
    eapply change_block; try done. intros o' Ho'. congruence.
Qed.

Lemma expireOne_tracked lk a now draw : tx_tracked (permits (CallExpire lk a now draw)) (expireOneTx lk a now draw).
Proof.
  intros d x d' [Hinv _] H. unfold expireOneTx, skipLocked in H.
  destruct (db_attempts d !! a) as [r|] eqn:Hr; [|by simplify_eq].
  destruct (lk_slot lk (a_env r)); [by simplify_eq|]. destruct (db_slots d !! a_env r) as [s|]; [|by simplify_eq].
  destruct (negb (occupiedBy a s)); [by simplify_eq|].
  destruct (lk_job lk (a_job r)); [by simplify_eq|]. destruct (db_jobs d !! a_job r) as [j|] eqn:Hj; [|by simplify_eq].
  destruct (negb (isLeased j)); [by simplify_eq|]. destruct (lk_attempt lk a); [by simplify_eq|].
  destruct (negb _ || _) eqn:E; [by simplify_eq|]. bool_hyps.
  apply tx_bind_inv in H as (b&d1&Hcl&H). tx_inv.
  eapply closeExpired_tracked in Hcl as [? _]; try done; simpl; eauto 6.
Qed.

Lemma revokeOne_tracked {P} now draw c d u d' :
  P (a_env c.2) (Expire c.1) → P (a_env c.2) (Block c.1) →
  lease_inv d → candidate_ok d c → revokeOne now draw c d = inr (u, d') → rtc (tracked P) d d' ∧ attempts_stable d d'.
Proof.
  intros HPe HPb Hinv Hc H. unfold revokeOne in H. apply tx_bind_inv in H as (s&d0&[_ ->]%tx_some_inv&H).
  destruct (negb _); [by tx_inv|]. apply tx_bind_inv in H as (j&d0&[Hj ->]%tx_some_inv&H).
  destruct (negb _); [by tx_inv|]. apply tx_bind_inv in H as (r&d0&[Hr ->]%tx_some_inv&H).
  case_bool_decide as Hl; simpl in H; [|by tx_inv]. apply tx_bind_inv in H as (b&d1&H1&H). tx_inv.
  destruct (Hc r Hr) as [Ej Ee]. rewrite <-Ej, <-Ee in *. by eapply closeExpired_tracked.
Qed.

Lemma revokeLoop_tracked {P} now draw cs d u d' :
  Forall (λ c, P (a_env c.2) (Expire c.1) ∧ P (a_env c.2) (Block c.1)) cs →
  lease_inv d → Forall (candidate_ok d) cs → revokeLoop now draw cs d = inr (u, d') → rtc (tracked P) d d'.
Proof.
  intros HP. revert d. induction HP as [|c cs [HPe HPb] _ IH]; intros d Hinv Hcs H; simpl in H; [by tx_inv|].
  apply Forall_cons in Hcs as [Hc Hcs]. apply tx_bind_inv in H as (?&d1&H1&H).
  apply (revokeOne_tracked (P:=P)) in H1 as [Ht Hs]; [|done..]. etrans; [done|].
  eapply IH; [by eapply tracked_inv| |done]. eapply Forall_impl; [done|]. intros c'. by apply candidate_ok_stable.
Qed.

Lemma revokeServer_tracked p srv reason now draw :
  tx_tracked (permits (CallRevoke p srv reason now draw)) (revokeServerTx p srv reason now draw).
Proof.
  intros d x d' [Hinv _] H. assert (lease_inv d') as Hinv' by by eapply revokeServer_preserves. unfold revokeServerTx in H.
  apply tx_bind_inv in H as (?&d0&[_ ->]%tx_guard_inv&H). apply tx_bind_inv in H as (?&d0&[Hadm ->]%lockAdministratorSession_live&H).
  apply tx_bind_inv in H as (s&d0&[_ ->]%tx_some_inv&H). apply tx_bind_inv in H as (?&d0&[_ ->]%tx_guard_inv&H).
  apply tx_bind_inv in H as (?&d0&->%tx_write_inv&H). apply tx_bind_inv in H as (?&d2&H2&H).
  unfold revokeInFlightLeases in H2. apply tx_bind_inv in H2 as (cs&d1&[<- ->]%tx_read_inv&H2).
  match type of H2 with revokeLoop _ _ _ ?e = _ => set (d1 := e) in * end.
  assert (lease_inv d1) as Hinv1 by (eapply lease_frame_inv; [|exact Hinv]; by unfold lease_frame).
  assert (rtc (tracked (permits (CallRevoke p srv reason now draw) d)) d1 d2) as Hloop.
  { eapply revokeLoop_tracked in H2; [exact H2|..|done|]; apply Forall_forall; intros [a r] (Hr&Hsv&Hl)%inFlight_elem; simpl in *.
    - split; (split; [done|]); exists a, r; auto.
    - intros q Hq. simpl in *. by simplify_eq. }
  etrans; [apply tracked_once; [exact Hinv|exact Hinv1|apply change_quiet; simpl; eauto 6]|]. etrans; [exact Hloop|].
  apply tracked_once; [by eapply tracked_inv|done|]. unfold insertServerAuditEvent in H. apply tx_write_inv in H as ->.
  apply change_quiet; simpl; eauto 6.
Qed.

(** ** Claim *)

Lemma claimLoop_tracked {P : string → lease_event → Prop} (d0 : DB) lk srv limit now all :
  (∀ c a, c ∈ all → db_attempts d0 !! a = None → P (c_environmentID c) (Acquire a)) →
  ∀ cs, cs ⊆ all → ∀ d claimed x d', lease_inv d → (∀ a, db_attempts d !! a = None → db_attempts d0 !! a = None) →
  claimLoop lk srv limit now claimed cs d = inr (x, d') → rtc (tracked P) d d'.
Proof.
  intros HP. induction cs as [|c cs IH]; intros Hcs d claimed x d' Hinv Hold H; simpl in H; [by tx_inv|].
  destruct (limit <=? _); [by tx_inv|]. apply tx_bind_inv in H as (r&d1&H1&H).
  assert (lease_inv d1) as Hinv1 by by eapply tryClaim_preserves.
  apply tryClaim_inv in H1 as [[_ ->]|(l&s&job&_&_&_&Hfl&_&_&_&Ho&_)]; [eapply IH in H; try done; set_solver| |done].
  etrans; [apply tracked_once; [done..|]; eapply change_open; try done|eapply IH; try done; [set_solver|]].
  - apply HP; [set_solver|]. apply Hold, eq_None_not_Some. intros [q Hq]. by apply (opens_fresh Hinv _ _ Hq).
  - intros a. rewrite (opn_attempts _ _ _ _ _ _ _ Ho), lookup_insert_None. intros [? _]. auto.
Qed.

Lemma claim_tracked lk srv dg limit now cs : tx_tracked (permits (CallClaim lk srv dg limit now cs)) (claimTx lk srv dg limit now cs).
Proof.
  intros d x d' [Hinv _] H. unfold claimTx in H. apply tx_bind_inv in H as (?&d0&[Hcr ->]%lockActiveServerCredential_inv&H).
  eapply (claimLoop_tracked d) in H; try done. intros c a Hc Ha. simpl. split_and!; [done|by apply list_elem_of_fmap_2|eauto].
Qed.

Lemma ensureSlots_tracked {P} now envs d : sys_inv d → rtc (tracked P) d (ensureSlots now envs d).
Proof.
  intros [Hinv _]. unfold ensureSlots. assert (rtc (tracked P) d (set_slots (db_slots d) d)) as H by (by destruct d).
  assert (lease_inv (set_slots (db_slots d) d)) as Hi by (by destruct d).
  revert H Hi. generalize (db_slots d) as m. induction envs as [|e envs IH]; intros m Hm Hi; simpl; [done|].
  destruct (m !! e) eqn:E; [by apply IH|].
  set (s := {| s_fence := 0; s_current := None; s_recon_required := false; s_recon_attempt := None; s_updated_at := now |}).
  assert (lease_inv (set_slots (<[e := s]> m) d)) as Hi'.
  { apply (new_slot_preserves (set_slots m d) e s); done. }
  apply IH; [|done]. etrans; [done|]. apply tracked_once; [done..|]. by apply (change_slot _ _ _ e s).
Qed.

(** ** Clearing a block *)

Lemma clear_slot_change {P : string → lease_event → Prop} e now d u d' d2 :
  execute (update_slot e anyRow (slot_clear now)) d = inr (u, d') → lease_frame d' d2 →
  (∀ k o, db_ops d !! k = Some o → o_env o = e → ¬ unresolved o) →
  (∀ s b, db_slots d !! e = Some s → s_recon_attempt s = Some b → P e (Clear b)) → d' = d ∧ lease_frame d d2 ∨ change P d d2.
Proof.
  intros [b [(_&->&_)|(s&_&Hs&_&_&_&->)]%update_slot_inv]%execute_inv (E1&E2&E3&E4&E5&E6&E7&E8) Hno HP.
  - left. by unfold lease_frame.
  - right. simpl in *. eapply (change_clear _ _ _ e s now); try done. intros b'. by apply HP.
Qed.

Lemma clear_tracked {P : string → lease_event → Prop} e now d u d' d2 :
  lease_inv d → execute (update_slot e anyRow (slot_clear now)) d = inr (u, d') → lease_frame d' d2 →
  (∀ k o, db_ops d !! k = Some o → o_env o = e → ¬ unresolved o) →
  (∀ s b, db_slots d !! e = Some s → s_recon_attempt s = Some b → P e (Clear b)) → rtc (tracked P) d d2.
Proof.
  intros Hinv H Hf Hno HP. assert (lease_inv d') as Hinv' by by eapply clear_slot_preserves.
  assert (lease_inv d2) as Hinv2 by by eapply lease_frame_inv. apply tracked_once; [done..|].
  eapply clear_slot_change in H as [[-> (E1&E2&E3&E4&E5&_)]|H]; [|done..].
  apply change_quiet; rewrite ?E3, ?E5; eauto 6.
Qed.

Lemma reconcile_tracked srv dg e a fence now : tx_tracked (permits (CallReconcile srv dg e a fence now)) (reconcileTx srv dg e a fence now).
Proof.
  intros d x d' [Hinv Hb] H. unfold reconcileTx in H.
  apply tx_bind_inv in H as (?&d0&[_ ->]%tx_guard_inv&H). apply tx_bind_inv in H as (?&d0&[Hcr ->]%lockActiveServerCredential_inv&H).
  apply tx_bind_inv in H as (s&d0&[Hs ->]%tx_some_inv&H). apply tx_bind_inv in H as (r&d0&[Hr ->]%tx_some_inv&H).
  apply tx_bind_inv in H as (?&d0&[Hg ->]%tx_guard_inv&H). apply tx_bind_inv in H as (f&d0&[_ ->]%tx_read_inv&H).
  apply tx_bind_inv in H as (?&d0&[_ ->]%tx_guard_inv&H). bool_hyps. case_bool_decide as Hra; simpl in H; [|by tx_inv].
  apply tx_bind_inv in H as (?&d1&Hx&Hy%quiet_append). eapply clear_tracked; [done..| |].
  - intros k o Ho He Hu. pose proof (unresolved_occupant d k o e s Hinv Ho Hu He Hs) as Hc.
    destruct (held_blocked d e s _ Hinv Hb Hs Hc) as [?|[E _]]; [congruence|].
    destruct (inv_op d Hinv k o Ho) as (_&_&q&Hq&_&_&_&Hl). assert (q = r) as -> by congruence. auto.
  - intros s' b Hs' Hb'. simpl. split_and!; [done|by split; eauto|congruence].
Qed.

Lemma clearPlain_tracked {P : string → lease_event → Prop} p e i a reason now d u d' :
  lease_inv d → environmentUnresolved e d = false → (∀ s b, db_slots d !! e = Some s → s_recon_attempt s = Some b → P e (Clear b)) →
  clearPlainReconciliation p e i a reason now d = inr (u, d') → rtc (tracked P) d d'.
Proof.
  intros Hinv Hno HP H. rewrite environmentUnresolved_false in Hno. unfold clearPlainReconciliation in H.
  apply tx_bind_inv in H as (?&d1&H1&H). apply tx_bind_inv in H as (?&d2&H2%quiet_audit&H3%quiet_append).
  eapply clear_tracked; [done..| |done|done]. by etrans.
Qed.

Lemma markReconciled_tracked p e reason now : tx_tracked (permits (CallMarkReconciled p e reason now)) (markReconciledTx p e reason now).
Proof.
  intros d x d' [Hinv _] H. unfold markReconciledTx in H.
  apply tx_bind_inv in H as (?&d0&[_ ->]%tx_guard_inv&H). apply tx_bind_inv in H as (?&d0&[Hadm ->]%lockAdministratorSession_live&H).
  apply tx_bind_inv in H as (s&d0&[_ ->]%tx_some_inv&H). destruct (s_recon_attempt s); [|done].
  apply tx_bind_inv in H as (r&d0&[_ ->]%tx_some_inv&H). apply tx_bind_inv in H as (j&d0&[_ ->]%tx_some_inv&H).
  apply tx_bind_inv in H as (?&d0&[_ ->]%tx_guard_inv&H). apply tx_bind_inv in H as (b&d0&[<- ->]%tx_read_inv&H).
  apply tx_bind_inv in H as (?&d0&[Hg ->]%tx_guard_inv&H). bool_hyps. eapply clearPlain_tracked; try done. intros. simpl. eauto.
Qed.

(** ** Activation *)

Lemma activateFresh_effect i a fence e dg now d x d' i' j :
  lease_inv d → db_jobs d !! i' = Some j → activateFresh i a fence e (j_deployment j) dg now d = inr (x, d') →
  db_slots d' = db_slots d ∧ ∃ o, o_state o = OpSwitchAuthorized ∧ db_ops d' = <[db_next_op d := o]> (db_ops d).
Proof.
  intros Hinv Hj H. unfold activateFresh in H. destruct (inv_deployment d Hinv _ j Hj) as (st&dep&Hst&Hsa&_&_).
  apply tx_bind_inv in H as (?&d1&H1&H). eapply transitionDeployment_effect in H1 as (st'&dep'&->&_&_); [|done..].
  apply tx_bind_inv in H as (h&d2&[_ ->]%tx_some_inv&H). apply tx_bind_inv in H as (?&d2&[_ ->]%tx_guard_inv&H).
  apply tx_bind_inv in H as ([rid rr]&d2&[_ ->]%tx_some_inv&H).
  apply tx_bind_inv in H as (?&d3&[rs ->]%readyCandidate_effect&H).
  apply tx_bind_inv in H as (cfg&d4&[_ ->]%tx_some_inv&H). destruct (Render _) as [[doc hex]|]; [|done].
  apply tx_bind_inv in H as (k&d5&(_&_&_&->&->)%activate_insert%insert_op_inv&H).
  apply tx_bind_inv in H as (?&d6&->%appendAgentJobEvent_inv&H). apply tx_ret_inv in H as [_ ->].
  split; [done|]. by eexists; split; [|reflexivity].
Qed.

Lemma activate_tracked {P} srv dg a fence img now : tx_tracked P (activateTx srv dg a fence img now).
Proof.
  intros d x d' [Hinv _] H. assert (lease_inv d') as Hinv' by by eapply activate_preserves. unfold activateTx in H.
  apply tx_bind_inv in H as (?&d0&[_ ->]%tx_guard_inv&H).
  apply tx_bind_inv in H as ([[s j] r]&d1&(->&_&_&_&_&Hj)%lockLeaseRows_inv&H).
  do 2 (apply tx_bind_inv in H as (?&d1&[_ ->]%tx_guard_inv&H)). apply tx_bind_inv in H as (ex&d1&[<- ->]%tx_read_inv&H).
  destruct (activationOf a fence d) as [[k o]|]; [unfold activateReplay in H; by tx_inv|].
  apply tx_bind_inv in H as (?&d1&[_ ->]%tx_read_inv&H). apply tx_bind_inv in H as (?&d1&[_ ->]%tx_guard_inv&H).
  eapply activateFresh_effect in H as (Es&o&Host&Eo); [|done..]. apply tracked_once; [done..|].
  apply change_quiet; [done|..]; rewrite Eo.
  - intros k o' [[<- <-]|[_ Ho]]%lookup_insert_Some Hst; [congruence|eauto 6].
  - intros k o' Ho Hst. exists o'. rewrite lookup_insert_ne; [done|]. intros <-.
    destruct (inv_op d Hinv _ o' Ho) as [? _]. lia.
  - intros k o' Ho Hst. exists o'. rewrite lookup_insert_ne; [done|]. intros <-.
    destruct (inv_op d Hinv _ o' Ho) as [? _]. lia.
  - intros k o' [[<- <-]|[_ Ho]]%lookup_insert_Some Hst; [congruence|eauto].
Qed.

Lemma commit_tracked {P} {A} (m : Tx DB Err A) : tx_tracked P m → tx_tracked P (commitTx m).
Proof. intros Hm d x d' HP [H _]%commitTx_inv. by eapply Hm. Qed.

(** ** Reporting *)

Lemma block_tracked {P : string → lease_event → Prop} i a k e sm now d u d' r o :
  P e (Block a) → lease_inv d → db_attempts d !! a = Some r → a_env r = e → db_ops d !! k = Some o → o_attempt o = a → unresolved o →
  blockActivationForReconciliation i a k e sm now d = inr (u, d') → rtc (tracked P) d d'.
Proof.
  intros HP Hinv Hr He Ho Ha Hu H. apply tracked_once; [done|by eapply block_preserves|].
  apply blockActivation_blocks in H. eapply change_block; try done.
  - destruct (inv_op d Hinv k o Ho) as (_&_&q&Hq&_&_&_&Hl). assert (q = r) as -> by congruence. auto.
  - intros o' Ho'. congruence.
Qed.

Lemma writeLate_tracked {P} i a k sm rep : tx_tracked P (writeLateEvidence i a k sm rep).
Proof.
  intros d x d' [Hinv _] H. apply tracked_once; [done|by eapply writeLateEvidence_preserves|]. unfold writeLateEvidence in H.
  destruct (lateEvidence sm rep) as [updated outcome]. destruct (negb _).
  { apply tx_ret_inv in H as [_ ->]. apply change_quiet; eauto 6. }
  apply tx_bind_inv in H as (?&d1&H1%expectRow_inv&H). apply tx_bind_inv in H as (?&d2&->%appendAgentJobEvent_inv&H).
  apply tx_ret_inv in H as [_ ->]. apply update_op_inv in H1 as [(?&_)|(o&_&Ho&_&_&_&->)]; [done|].
  apply change_quiet; simpl; [done|..].
  - intros k' p [[<- <-]|[_ Hp]]%lookup_insert_Some Hst; simpl in *; eauto 6.
  - intros k' p Hp Hst. destruct (decide (k' = k)) as [->|]; [|exists p; by rewrite lookup_insert_ne].
    rewrite lookup_insert_eq. assert (p = o) as -> by congruence. by eexists.
  - intros k' p Hp Hst. destruct (decide (k' = k)) as [->|]; [|exists p; by rewrite lookup_insert_ne].
    rewrite lookup_insert_eq. assert (p = o) as -> by congruence. by eexists.
  - intros k' p [[<- <-]|[_ Hp]]%lookup_insert_Some Hst; simpl in *; eauto.
Qed.

Lemma recordBlockTx_tracked {P : Permission} srv a fence k evidence rep now :
  (∀ d e, P d e (Block a)) → tx_tracked P (recordBlockTx srv a fence k evidence rep now).
Proof.
  intros HP d u d' Hsys H. pose proof (sys_lease d Hsys) as Hinv. unfold recordBlockTx in H.
  apply tx_bind_inv in H as (r&d0&[Hr ->]%tx_some_inv&H). apply tx_bind_inv in H as (s&d0&[_ ->]%tx_some_inv&H).
  apply tx_bind_inv in H as (o&d0&[Ho ->]%tx_some_inv&H).
  apply bind_Some in Hr as (r'&Hr&E). case_bool_decide; [|done]. injection E as ->.
  apply bind_Some in Ho as (o'&Ho&E). destruct (_ && _) eqn:Eo; [|done]. injection E as ->. bool_hyps.
  destruct (o_state o) eqn:Est; try (by tx_inv).
  - destruct (negb _); [by tx_inv|]. apply tx_bind_inv in H as (?&d1&Hx&H). tx_inv.
    eapply (block_tracked _ _ _ _ _ _ _ _ _ r o); try done. unfold unresolved. by rewrite Est.
  - destruct (negb (rep_succeeded rep) && _); [by tx_inv|]. destruct (negb _); [by tx_inv|].
    apply tx_bind_inv in H as (?&d1&Hx&H). tx_inv. by eapply (writeLate_tracked (P:=P)).
Qed.

Lemma trace_tracked {P} i a d : sys_inv d → rtc (tracked P) d (traceDeclaredContradiction i a d).2.
Proof.
  intros [Hinv _]. pose proof (trace_preserves i a d Hinv) as Hinv'. apply tracked_once; [done..|].
  unfold traceDeclaredContradiction. destruct (negb _ || _); [apply change_quiet; simpl; eauto 6|].
  destruct (appendAgentJobEvent _ _ _ d) as [|[u d']] eqn:E; simpl; [apply change_quiet; eauto 6|].
  apply appendAgentJobEvent_inv in E as ->. apply change_quiet; simpl; eauto 6.
Qed.

Lemma recordLate_tracked {P} i a k fence r s summary rep d :
  sys_inv d → rtc (tracked P) d (recordLateReport i a k fence r s summary rep d).2.
Proof.
  intros Hsys. unfold recordLateReport. destruct (negb _); [done|].
  destruct (writeLateEvidence _ _ _ _ _ d) as [|[[] d']] eqn:E; try done. by eapply (writeLate_tracked (P:=λ _, P)).
Qed.

Lemma recordBlock_tracked {P : string → lease_event → Prop} srv a fence k evidence rep now d :
  (∀ e, P e (Block a)) → sys_inv d → rtc (tracked P) d (recordBlockInFreshTransaction srv a fence k evidence rep now d).2.
Proof.
  intros HP Hsys. unfold recordBlockInFreshTransaction. destruct (recordBlockTx _ _ _ _ _ _ _ d) as [|[o d']] eqn:E; [done|].
  by eapply (recordBlockTx_tracked (P:=λ _, P)).
Qed.

Section report.
Context (errorText : Err → string).

Lemma reportOpen_tracked {P : string → lease_event → Prop} srv j r a fence k o rep now d :
  (∀ e, P e (Block a)) → (rep_succeeded rep = true → ∀ e, P e (Resolve a k)) → sys_inv d → db_attempts d !! a = Some r → db_jobs d !! a_job r = Some j → db_ops d !! k = Some o → o_attempt o = a →
  unresolved o → rtc (tracked P) d (reportOpen errorText srv j r a fence k o rep now d).2.
Proof.
  intros HPb HPr Hsys Hr Hj Ho Hoa Hu. pose proof (sys_lease d Hsys) as Hinv. unfold reportOpen.
  assert (∀ summary u d', blockActivationForReconciliation (a_job r) a k (a_env r) summary now d = inr (u, d') → rtc (tracked P) d d')
    as Hblock by (intros ???; eapply block_tracked; try done; by apply HPb).
  assert (∀ evidence refusal, rtc (tracked P) d (refuseAmbiguous (a_job r) a k (a_env r) evidence refusal now d).2) as Hrefuse.
  { intros evidence refusal. unfold refuseAmbiguous.
    destruct (blockActivationForReconciliation _ _ _ _ _ _ d) as [|[u d']] eqn:E; [done|]. by eapply Hblock. }
  destruct (rep_succeeded rep) eqn:Esu; simpl; cycle 1.
  { destruct (blockActivationForReconciliation _ _ _ _ _ _ d) as [|[u d']] eqn:E; [done|]. by eapply Hblock. }
  destruct (negb (rep_digestMatches rep)); [apply Hrefuse|].
  destruct (db_heads d !! a_env r) as [h|]; [|apply Hrefuse]. destruct (_ || _); [apply Hrefuse|].
  destruct (finalizeActivationSucceeded _ d) as [cause|[u d']] eqn:E.
  - unfold blockAfterFinalizeFailure. destruct (negb _); [done|].
    destruct (blockActivationForReconciliation _ _ _ _ _ _ d) as [|[u d']] eqn:E'; [done|]. by eapply Hblock.
  - destruct (commitOk d').
    + eapply (finalize_closes d _ k o) in E as (s&j'&Hc&_); try done. apply tracked_once; [done|by eapply closes_preserves|].
      eapply change_close; [done|]. right. right. split; [|done]. exists k, o. split_and!; auto.
    + unfold blockAfterAbortedTransaction.
      match goal with |- context [recordBlockInFreshTransaction ?x1 ?x2 ?x3 ?x4 ?x5 ?x6 ?x7 d] =>
        pose proof (recordBlock_tracked (P:=P) x1 x2 x3 x4 x5 x6 x7 d HPb Hsys) as Ht;
        destruct (recordBlockInFreshTransaction x1 x2 x3 x4 x5 x6 x7 d) as [[e|out] d2] end; [done|]. by destruct out.
Qed.

Lemma reportPrefix_credential srv dg a fence op d x d' :
  reportPrefix srv dg a fence op d = inr (x, d') → credentialMatches srv dg d = true.
Proof.
  unfold reportPrefix. intros H. apply tx_bind_inv in H as (?&?&[_ ->]%tx_guard_inv&H). destruct (ParseInt op); [|done].
  apply tx_bind_inv in H as (?&?&[_ ->]%tx_guard_inv&H).
  by apply tx_bind_inv in H as ([[? ?] ?]&?&(->&?&_)%lockLeaseRows_inv&_).
Qed.

Lemma report_tracked srv dg a fence op succeeded od summary now d :
  sys_inv d → let c := CallReport srv dg a fence op succeeded od summary now in
  rtc (tracked (permits c d)) d (ReportActivationResult errorText srv dg a fence op succeeded od summary now d).2.
Proof.
  intros Hsys c. unfold ReportActivationResult.
  assert (rtc (tracked (permits c d)) d (reportActivationResult errorText srv dg a fence op succeeded od summary now d).2.2) as H.
  { unfold reportActivationResult. destruct (reportPrefix _ _ _ _ _ d) as [e|[[[[[s j] r] k] o] d0]] eqn:E; [done|].
    pose proof (reportPrefix_credential _ _ _ _ _ _ _ _ E) as Hcr. apply reportPrefix_inv in E as (->&Hr&Hsv&Hf&Hs&Hj&Ho&Hoa&_&Hk&_).
    assert (agentOf srv dg a fence d) as Hag by (split; [done|by exists r]).
    destruct (o_state o) eqn:Est; try done.
    - destruct (negb (leasedOccupant _ _ _ _)); [done|]. apply reportOpen_tracked; try done.
      + intros e. simpl. auto.
      + simpl. intros Hsu e. split; [done|]. right. eauto.
      + unfold unresolved. by rewrite Est.
    - case_match; [done|]. by apply recordLate_tracked.
    - case_match; [|done]. by apply trace_tracked.
    - case_match; [done|]. by apply trace_tracked. }
  destruct (reportActivationResult _ _ _ _ _ _ _ _ _ _ d) as [b [x d']]. by destruct b.
Qed.
End report.

(** ** Declared resolution *)

Lemma resolveWrites_tracked {P : string → lease_event → Prop} d r job k o now u d' a :
  P (dr_environmentID r) (Resolve (dr_attemptID r) k) → unresolved o → lease_inv d → tx_quiet (dr_audit r) → db_jobs d !! dr_jobID r = Some job →
  db_attempts d !! dr_attemptID r = Some a → a_job a = dr_jobID r → a_env a = dr_environmentID r →
  db_ops d !! k = Some o → o_attempt o = dr_attemptID r →
  resolveWrites r job k o now d = inr (u, d') → rtc (tracked P) d d'.
Proof.
  intros HP Hu Hinv Hq Hj Ha Haj Hae Ho Hoa H. assert (lease_inv d') as Hinv' by by eapply resolveWrites_preserves.
  unfold resolveWrites in H.
  apply tx_bind_inv in H as (s&d0&[_ ->]%tx_some_inv&H). apply tx_bind_inv in H as (?&d0&[_ ->]%tx_guard_inv&H).
  apply tx_bind_inv in H as (h&d0&[<- ->]%tx_read_inv&H).
  apply tx_bind_inv in H as (?&d1&H1&H). apply tx_bind_inv in H as (?&d2&H2%Hq&H3%quiet_append).
  assert (∃ rr s s' j j', closes d d1 (dr_attemptID r) a rr s s' j j' ∧ s_fence s' = s_fence s ∧ s_recon_attempt s' = None)
    as (rr&s1&s1'&j1&j1'&Hc&Hf&Hra).
  { case_bool_decide.
    - eapply finalize_closes in H1 as (s1&j'&Hc&_); try done. do 5 eexists. split; [exact Hc|done].
    - eapply resolveNotActivated_closes in H1 as (s1&j'&Hc&_); try done. do 5 eexists. split; [exact Hc|done]. }
  assert (lease_inv d1) by exact (closes_preserves Hinv Hc).
  etrans; [apply tracked_once; [done..|]; eapply change_close; [done|]; right; right; split; [exists k, o; rewrite Hae; by split_and!|done]|].
  assert (lease_frame d1 d') as (E1&E2&E3&E4&E5&_) by by etrans. apply tracked_once; [done..|].
  apply change_quiet; rewrite ?E3, ?E5; eauto 6.
Qed.

Lemma resolveDeclared_tracked {P : string → lease_event → Prop} d r now u d' :
  (∀ k, P (dr_environmentID r) (Resolve (dr_attemptID r) k)) → lease_inv d → tx_quiet (dr_audit r) →
  (∀ u d', environmentUnresolved (dr_environmentID r) d = false → dr_clearPlain r d = inr (u, d') → rtc (tracked P) d d') →
  (∀ a, db_attempts d !! dr_attemptID r = Some a → a_job a = dr_jobID r) →
  resolveDeclared r now d = inr (u, d') → rtc (tracked P) d d'.
Proof.
  intros HP Hinv Hq Hclear Hpeek H. unfold resolveDeclared in H.
  apply tx_bind_inv in H as (job&d0&[Hj ->]%tx_some_inv&H). apply tx_bind_inv in H as (a&d0&[Ha ->]%tx_some_inv&H).
  apply tx_bind_inv in H as (?&d0&[_ ->]%refuse_inv&H). apply tx_bind_inv in H as (f&d0&[<- ->]%tx_read_inv&H).
  destruct (find_op _ d) as [[k o]|] eqn:Ef.
  - apply find_op_Some in Ef as [Ho Hop]. tx_inv. unfold blockShape in *. bool_hyps.
    eapply (resolveWrites_tracked d r job k o); eauto.
  - apply tx_bind_inv in H as (?&d0&[_ ->]%tx_guard_inv&H). apply tx_bind_inv in H as (?&d0&[_ ->]%refuse_inv&H).
    eapply Hclear; [|done]. unfold environmentUnresolved. by rewrite Ef.
Qed.

Lemma resolveActivation_tracked p e outcome reason now :
  tx_tracked (permits (CallResolve p e outcome reason now)) (resolveActivationTx p e outcome reason now).
Proof.
  intros d u d' [Hinv _] H. unfold resolveActivationTx in H.
  do 3 (apply tx_bind_inv in H as (?&?&[_ ->]%tx_guard_inv&H)).
  apply tx_bind_inv in H as (?&?&[Hadm ->]%lockAdministratorSession_live&H).
  apply tx_bind_inv in H as (s&?&[Hs ->]%tx_some_inv&H). destruct (s_recon_attempt s) as [a|] eqn:Ha.
  - apply tx_bind_inv in H as (r&?&[Hr ->]%tx_some_inv&H). apply tx_bind_inv in H as (j&?&[_ ->]%tx_some_inv&H).
    apply tx_bind_inv in H as (?&?&[_ ->]%tx_guard_inv&H).
    eapply resolveDeclared_tracked in H; try done; simpl; [eauto 6|apply quiet_audit| |].
    + intros ????. eapply clearPlain_tracked; try done. intros. simpl. eauto 6.
    + intros r' Hr'. by simplify_eq.
  - unfold confirmResolvedOutcome in H. apply tx_bind_inv in H as (?&?&[_ ->]%tx_some_inv&H).
    apply tx_bind_inv in H as (?&?&[_ ->]%tx_read_inv&H). by apply refuse_inv in H as [_ ->].
Qed.

Lemma authorizeAttempt_agent srv dg e fence a r d : credentialMatches srv dg d = true → db_attempts d !! a = Some r →
  authorizeAttempt srv e fence r = None → agentOf srv dg a fence d.
Proof. intros Hcr Hr. unfold authorizeAttempt. case_match eqn:E; [done|]. intros _. split; [done|]. exists r. bool_hyps. auto. Qed.

Lemma reconcileActivation_tracked srv dg e a fence outcome odg now :
  tx_tracked (permits (CallReconcileActivation srv dg e a fence outcome odg now)) (reconcileActivationTx srv dg e a fence outcome odg now).
Proof.
  intros d u d' [Hinv _] H. unfold reconcileActivationTx in H.
  apply tx_bind_inv in H as (?&?&[_ ->]%tx_guard_inv&H).
  apply tx_bind_inv in H as (?&?&[Hcr ->]%lockActiveServerCredential_inv&H).
  apply tx_bind_inv in H as (s&?&[Hs ->]%tx_some_inv&H). case_bool_decide as Hra; simpl in H.
  - apply tx_bind_inv in H as (r&?&[Hr ->]%tx_some_inv&H). apply tx_bind_inv in H as (?&?&[Hau ->]%refuse_inv&H).
    pose proof (authorizeAttempt_agent _ _ _ _ _ _ _ Hcr Hr Hau) as Hag.
    eapply resolveDeclared_tracked in H; try done; simpl; [eauto 6|apply quiet_ret| |intros r' Hr'; by simplify_eq].
    intros u1 d2 Hno H1. rewrite environmentUnresolved_false in Hno.
    apply tx_bind_inv in H1 as (?&d3&H3&H4%quiet_append). eapply clear_tracked; try done.
    intros s' b Hs' Hb. simpl. split_and!; [done|done|left; congruence].
  - apply tx_bind_inv in H as (r&?&[Hr ->]%tx_some_inv&H). apply tx_bind_inv in H as (?&?&[_ ->]%refuse_inv&H).
    apply tx_bind_inv in H as (?&?&[_ ->]%tx_guard_inv&H). apply tx_bind_inv in H as (?&?&[_ ->]%tx_read_inv&H).
    apply tx_bind_inv in H as (?&?&[_ ->]%tx_guard_inv&H). apply tx_bind_inv in H as (?&?&[_ ->]%tx_read_inv&H).
    by apply refuse_inv in H as [_ ->].
Qed.

(** ** The machine *)

(** What the system asks of a call: from a state that satisfies the
    invariant, it goes through tracked changes only, and only those it is
    permitted in that state. *)
Class LeaseSafe (P : Permission) (op : DB → DB) : Prop := lease_safe : ∀ d, sys_inv d → rtc (tracked (P d)) d (op d).

Lemma tx_safe {P} {A} (m : Tx DB Err A) : tx_tracked P m → LeaseSafe P (λ d, (run_tx m d).2).
Proof. intros Hm d Hd. unfold run_tx. destruct (m d) as [|[x d']] eqn:E; simpl; [done|]. by eapply Hm. Qed.

Create HintDb tracked.

(** A change that may not resolve this activation keeps it unresolved. *)
Lemma guarded_keeps (P : string → lease_event → Prop) d d' k o :
  lease_inv d → change P d d' → db_ops d !! k = Some o → unresolved o → ¬ P (o_env o) (Resolve (o_attempt o) k) →
  ∃ o', db_ops d' !! k = Some o' ∧ unresolved o' ∧ o_attempt o' = o_attempt o ∧ o_env o' = o_env o.
Proof.
  intros Hinv Hch Ho Hu HP.
  destruct Hch as [_ _ _ Hun _|e s _ _ _ _ _ Eo|r s s' j j' Hop _ _ _ _|a r r' s s' j j' Hcl Hk|a k' e r Hblk _ _ _ _ _|e s now _ _ Eo _ _];
    rewrite ?Eo; eauto.
  - destruct (opn_rest _ _ _ _ _ _ _ Hop) as [-> _]. eauto.
  - exists o. split_and!; [|done..]. apply (cls_ops_kept _ _ _ _ _ _ _ _ _ Hcl); [done|]. intros Ha.
    destruct Hk as [[Hno _]|[[Hno _]|[(k'&o1&Ho1&Ha1&Hu1&Hp) _]]]; [by destruct (Hno k o)..|].
    destruct (inv_op d Hinv k o Ho) as (_&_&q&Hq&Hqe&_), (inv_op d Hinv k' o1 Ho1) as (_&_&q1&Hq1&Hqe1&_).
    assert (q1 = q) as -> by congruence. pose proof (cls_r _ _ _ _ _ _ _ _ _ Hcl). assert (q = r) as -> by congruence.
    assert (k' = k) as -> by (eapply (inv_op_unique d Hinv); eauto; congruence). apply HP. congruence.
  - destruct (blk_op _ _ _ _ _ Hblk) as (o1&sm&now&Ho1&_&->&_). destruct (decide (k = k')) as [->|].
    + rewrite lookup_insert_eq. eexists. split; [done|]. by assert (o1 = o) as -> by congruence.
    + rewrite lookup_insert_ne by done. eauto.
Qed.

Lemma guarded_keeps_rtc P d d' k o :
  rtc (tracked P) d d' → db_ops d !! k = Some o → unresolved o → ¬ P (o_env o) (Resolve (o_attempt o) k) →
  ∃ o', db_ops d' !! k = Some o' ∧ unresolved o' ∧ o_attempt o' = o_attempt o ∧ o_env o' = o_env o.
Proof.
  intros H. revert o. induction H as [|x y z (Hx&Hy&Hc) _ IH]; intros o Ho Hu HP; [eauto|].
  destruct (guarded_keeps P x y k o Hx Hc Ho Hu HP) as (o1&Ho1&Hu1&Ea&Ee).
  rewrite <-Ea, <-Ee in *. by apply IH.
Qed.

Lemma permits_decides c d k o :
  sys_inv d → db_ops d !! k = Some o → permits c d (o_env o) (Resolve (o_attempt o) k) → decides k o c = true.
Proof.
  intros [Hinv _] Ho Hp. destruct (inv_op d Hinv k o Ho) as (_&_&r&Hr&_&Hf&_).
  destruct c; simpl in Hp; try naive_solver.
  - destruct Hp as [[_ (q&Hq&_&<-)] [?|(->&k'&Hk&[= <- <-])]]; [done|]. simpl. assert (q = r) as -> by congruence.
    by rewrite Z.eqb_refl, Hf, Z.eqb_refl, bool_decide_true.
  - simpl. rewrite bool_decide_true; naive_solver.
  - destruct Hp as (<-&[_ (q&Hq&_&<-)]&[?|(k'&[= <- <-])]); [done|]. simpl. assert (q = r) as -> by congruence.
    by rewrite bool_decide_true, Z.eqb_refl, Hf, Z.eqb_refl.
Qed.

Section system.
(** [err.Error()], as in Activation. *)
Context (errorText : Err → string).

Definition exec (c : Call) (d : DB) : DB :=
  match c with
  | CallPush i kt t p now => (run_tx (processPushTx i kt t p now) d).2
  | CallEnsureSlots now envs => ensureSlots now envs d
  | CallClaim lk srv dg limit now cs => (run_tx (claimTx lk srv dg limit now cs) d).2
  | CallRenew srv dg a f sq now => (Renew srv dg a f sq now d).2
  | CallComplete srv dg a f out fc op rd now draw => (Complete srv dg a f out fc op rd now draw d).2
  | CallCancel p i now => (RequestCancellation p i now d).2
  | CallAcknowledge srv dg a f op rd now => (AcknowledgeCancellation srv dg a f op rd now d).2
  | CallExpire lk a now draw => (run_tx (expireOneTx lk a now draw) d).2
  | CallReconcile srv dg e a f now => (Reconcile srv dg e a f now d).2
  | CallMarkReconciled p e reason now => (MarkReconciled p e reason now d).2
  | CallRevoke p srv reason now draw => (RevokeServer p srv reason now draw d).2
  | CallProgress srv dg a f phase now => (ReportProgress srv dg a f phase now d).2
  | CallActivate srv dg a f img now => (Activate srv dg a f img now d).2
  | CallReport srv dg a f op ok od sm now => (ReportActivationResult errorText srv dg a f op ok od sm now d).2
  | CallResolve p e out reason now => (ResolveActivation p e out reason now d).2
  | CallReconcileActivation srv dg e a f out od now => (ReconcileActivation srv dg e a f out od now d).2
  end.

#[local] Hint Resolve tx_safe commit_tracked push_tracked claim_tracked renew_tracked complete_tracked cancel_tracked
  acknowledge_tracked expireOne_tracked reconcile_tracked markReconciled_tracked revokeServer_tracked progress_tracked
  activate_tracked resolveActivation_tracked reconcileActivation_tracked : tracked.

#[global] Instance exec_safe c : LeaseSafe (permits c) (exec c).
Proof.
  destruct c; try (apply tx_safe; auto with tracked).
  - intros d. apply ensureSlots_tracked.
  - intros d. apply report_tracked.
Qed.

(** One committed call, or a write of another repository (sessions, servers,
    runtime configuration, route heads) that leaves the lease tables alone. *)
Inductive step (d : DB) : DB → Prop :=
  | step_call c : step d (exec c d)
  | step_other d' : lease_frame d d' → step d d'.

(** No job has ever been enqueued. *)
Definition initial (d : DB) : Prop :=
  db_jobs d = ∅ ∧ db_attempts d = ∅ ∧ db_slots d = ∅ ∧ db_ops d = ∅ ∧ db_execution d = ∅.

Inductive reachable : DB → Prop :=
  | reach_init d : initial d → reachable d
  | reach_step d d' : reachable d → step d d' → reachable d'.

Lemma initial_sys d : initial d → sys_inv d.
Proof.
  intros (E1&E2&E3&E4&E5). split; split; rewrite ?E1, ?E2, ?E3, ?E4, ?E5; try (by intros; simplify_map_eq).
Qed.

Lemma frame_tracked {P} d d' : sys_inv d → lease_frame d d' → rtc (tracked P) d d'.
Proof.
  intros Hd Hf. apply tracked_once; [auto|by eapply lease_frame_inv; eauto|].
  destruct Hf as (E1&E2&E3&E4&E5&_). apply change_quiet; rewrite ?E3, ?E5; eauto 6.
Qed.

Lemma step_tracked d d' : sys_inv d → step d d' → ∃ P, rtc (tracked P) d d'.
Proof. intros Hd [c|d2 Hf]; [exists (permits c d); by apply lease_safe|exists (λ _ _, False); by apply frame_tracked]. Qed.

Lemma reachable_sys d : reachable d → sys_inv d.
Proof.
  induction 1 as [d Hi|d d' _ IH Hs]; [by apply initial_sys|]. destruct (step_tracked d d' IH Hs) as [P Ht].
  by eapply tracked_sys.
Qed.

Lemma reachable_steps d d' : reachable d → rtc step d d' → reachable d'.
Proof. intros H. induction 1; [done|]. eauto using reach_step. Qed.

Lemma tracked_refines {P} d d' e : sys_inv d → rtc (tracked P) d d' → rtc (lease_step_in (P e)) (lease_at d e) (lease_at d' e).
Proof.
  intros Hd H. induction H as [|x y z (?&?&?) _ IH]; [done|]. etrans; [eapply rc_rtc, change_refines; eauto|].
  apply IH. split; [done|]. by apply (change_blocks P x); auto.
Qed.

Lemma lease_step_any P x y : rtc (lease_step_in P) x y → rtc lease_moves x y.
Proof. induction 1 as [|x y z (ev&_&H) _ IH]; [done|]. etrans; [|exact IH]. apply rtc_once. by exists ev. Qed.

Lemma steps_refine d d' e : reachable d → rtc step d d' → rtc lease_moves (lease_at d e) (lease_at d' e).
Proof.
  intros Hd H. induction H as [|x y z Hs _ IH]; [done|]. etrans; [|apply IH; by eapply reach_step].
  destruct (step_tracked x y (reachable_sys x Hd) Hs) as [P Ht]. eapply lease_step_any, tracked_refines; [by apply reachable_sys|done].
Qed.

(** What one call is permitted never happens twice to one lease. *)
Lemma permitted_once c d e x y z :
  lease_step_in (permits c d e) x y → lease_step_in (permits c d e) y z → rc (lease_step_in (permits c d e)) x z.
Proof.
  intros (ev1&P1&S1) (ev2&P2&S2). destruct S1; inversion S2; subst.
  all: first [exfalso; destruct c; simpl in P1, P2; naive_solver|by eapply permitted; [exact P2|constructor; auto]].
Qed.

Lemma call_refines c d e : sys_inv d → rc (lease_step_in (permits c d e)) (lease_at d e) (lease_at (exec c d) e).
Proof.
  intros Hd. apply rtc_rc; [apply permitted_once|]. by apply tracked_refines, lease_safe.
Qed.
End system.
