(* ===== verification/Scenario.v ===== *)
(** * A concrete run of the control plane

    One environment from its first push to a live release, with the failure
    branches: the states the witnesses of the lease theorems are about.  Every
    state is computed by running the model's own operations. *)
From S2P Require Import Prelude GoStd Deployment Queue Route Schema Evidence DeploymentStore LeaseCore Lease LeaseInv LeaseSpec Activation Resolution Enqueue LeaseSystem.
From stdpp Require Import relations.
#[local] Open Scope Z_scope.

Definition noErrorText : Err → string := λ _, "error".

Definition epoch : Z := 63870000000 * second.
Definition at_second (n : Z) : Z := epoch + n * second.

Definition exampleConfig : frozenExecutionSnapshot :=
  {| ContainerPort := 8080; ContainerScheme := "http"; ReleaseStrategy := "blue_green"; DrainSeconds := 30;
     HealthPolicyRevision := 1; CPUMillis := 500; MemoryBytes := 268435456; RestartPolicy := "no";
     HealthGatePath := "/health"; HealthGateHost := "app.example.com"; ConfigRevision := 7 |}.

Definition exampleHead : HeadRow :=
  {| h_hostname := "app.example.com"; h_revision := 1; h_active := None; h_recon_required := false; h_updated_at := epoch |}.

Definition exampleSession : SessionRow :=
  {| ses_user := "user"; ses_owner := "owner"; ses_auth_revision := 1; ses_user_auth_revision := 1; ses_user_active := true;
     ses_revoked := false; ses_idle_expires := at_second 100000; ses_absolute_expires := at_second 100000 |}.
Definition admin : Principal :=
  {| p_UserID := "user"; p_OwnerID := "owner"; p_RoleOwner := true; p_AuthRevision := 1; p_SessionID := "session" |}.

(** Server, credential, session, configuration and route head exist; no job
    has been enqueued. *)
Definition db_empty : DB :=
  {| db_servers := {["server" := {| srv_owner := "owner"; srv_active := true |}]};
     db_credentials := [{| cred_server := "server"; cred_active := true; cred_digest := "digest" |}];
     db_sessions := {["session" := exampleSession]}; db_jobs := ∅; db_attempts := ∅; db_slots := ∅; db_deployments := ∅;
     db_releases := ∅; db_ops := ∅; db_heads := {["env" := exampleHead]}; db_job_events := []; db_route_events := [];
     db_audit := []; db_configs := {["env" := exampleConfig]};
     db_bindings := {["env" := [{| b_variable := "DATABASE_URL"; b_scope := "runtime"; b_target := BindSecret "head-1" |};
                                {| b_variable := "APP_MODE"; b_scope := "runtime"; b_target := BindLiteral (Some "live") |}]]};
     db_secret_heads := {["head-1" := Some "version-1"]}; db_secret_versions := {["version-1" := VersionActive]};
     db_execution := ∅; db_frozen_secrets := ∅; db_frozen_literals := ∅; db_next_attempt := 1; db_next_op := 1 |}.

Definition exampleTarget : webhookTarget :=
  {| t_ownerID := "owner"; t_projectID := "project"; t_environmentID := "env"; t_serverID := "server" |}.
Definition examplePush (sha : string) : Push :=
  {| push_InstallationID := 3; push_RepositoryID := 4; push_OwnerID := 5; push_Ref := "refs/heads/main"; push_CommitSHA := sha |}.
Definition sha_a : string := "0123456789abcdef0123456789abcdef01234567".
Definition sha_b : string := "89abcdef0123456789abcdef0123456789abcdef".

Definition image : string := Sum256 "image".
Definition candidate (i : Z) : agentLeaseCandidate := {| c_jobID := i; c_environmentID := "env" |}.
Definition claim (i now : Z) : Call := CallClaim nothingLocked "server" "digest" 5 now [candidate i].

Definition runCalls (cs : list Call) (d : DB) : DB := foldl (λ d c, exec noErrorText c d) d cs.

(** Two jobs queued; then job 1 leased as attempt 1 under fence 1. *)
Definition calls_queued : list Call :=
  [CallPush 1 false exampleTarget (examplePush sha_a) (at_second 1); CallPush 2 false exampleTarget (examplePush sha_b) (at_second 2);
   CallEnsureSlots (at_second 3) ["env"]].
Definition calls_leased : list Call := [claim 1 (at_second 4)].
(** Attempt 1 through its phases up to an authorized traffic switch. *)
Definition progress (phase : Status) (n : Z) : Call := CallProgress "server" "digest" 1 1 phase (at_second n).
Definition calls_switching : list Call :=
  [progress StatusFetching 5; progress StatusBuilding 6; progress StatusStarting 7;
   progress StatusHealthChecking 8; CallActivate "server" "digest" 1 1 image (at_second 9)].
(** The switch failed as far as the agent can tell. *)
Definition calls_blocked : list Call :=
  [CallReport "server" "digest" 1 1 "1" false "" "probe timed out" (at_second 10)].
(** Attempt 1 failed transiently and the job waits for its retry. *)
Definition calls_retry : list Call :=
  [CallComplete "server" "digest" 1 1 "failed" "transient" "op-1" image (at_second 5) 0].
(** Attempt 1's authority expired, the operator cleared the environment, and
    job 2 holds it as attempt 2 under fence 3. *)
Definition calls_moved_on : list Call :=
  [CallExpire nothingLocked 1 (at_second 200) 0; CallMarkReconciled admin "env" "checked" (at_second 201); claim 2 (at_second 202)].
(** The running attempt's job is asked to stop. *)
Definition calls_cancelling : list Call := [CallCancel admin 1 (at_second 5)].

Definition db_queued : DB := Eval vm_compute in runCalls calls_queued db_empty.
Definition db_leased : DB := Eval vm_compute in runCalls calls_leased db_queued.
Definition db_switching : DB := Eval vm_compute in runCalls calls_switching db_leased.
Definition db_blocked : DB := Eval vm_compute in runCalls calls_blocked db_switching.
Definition db_retry : DB := Eval vm_compute in runCalls calls_retry db_leased.
Definition db_moved_on : DB := Eval vm_compute in runCalls calls_moved_on db_leased.
Definition db_cancelling : DB := Eval vm_compute in runCalls calls_cancelling db_leased.

(** ** The states are reachable *)

Lemma runCalls_steps cs d : rtc (step noErrorText) d (runCalls cs d).
Proof. revert d. induction cs as [|c cs IH]; intros d; simpl; [done|]. eapply rtc_l; [apply step_call|apply IH]. Qed.

Lemma runCalls_reachable cs d d' : reachable noErrorText d → runCalls cs d = d' → reachable noErrorText d'.
Proof. intros H <-. eapply reachable_steps; [done|apply runCalls_steps]. Qed.

Lemma db_empty_reachable : reachable noErrorText db_empty.
Proof. by apply reach_init. Qed.
Lemma db_queued_reachable : reachable noErrorText db_queued.
Proof. apply (runCalls_reachable calls_queued db_empty); [apply db_empty_reachable|vm_compute; reflexivity]. Qed.
Lemma db_leased_reachable : reachable noErrorText db_leased.
Proof. apply (runCalls_reachable calls_leased db_queued); [apply db_queued_reachable|vm_compute; reflexivity]. Qed.
Lemma db_switching_reachable : reachable noErrorText db_switching.
Proof. apply (runCalls_reachable calls_switching db_leased); [apply db_leased_reachable|vm_compute; reflexivity]. Qed.
Lemma db_blocked_reachable : reachable noErrorText db_blocked.
Proof. apply (runCalls_reachable calls_blocked db_switching); [apply db_switching_reachable|vm_compute; reflexivity]. Qed.
Lemma db_retry_reachable : reachable noErrorText db_retry.
Proof. apply (runCalls_reachable calls_retry db_leased); [apply db_leased_reachable|vm_compute; reflexivity]. Qed.
Lemma db_cancelling_reachable : reachable noErrorText db_cancelling.
Proof. apply (runCalls_reachable calls_cancelling db_leased); [apply db_leased_reachable|vm_compute; reflexivity]. Qed.

Lemma leased_to_moved_on : rtc (step noErrorText) db_leased db_moved_on.
Proof.
  assert (runCalls calls_moved_on db_leased = db_moved_on) as <- by (vm_compute; reflexivity). apply runCalls_steps.
Qed.
