(* ===== verification/LeaseProps.v ===== *)
(** * What the lease system guarantees

    The theorems about runs of the whole system, stated for every reachable
    database and proved from the system invariant and the refinement; each is
    followed by its instance on the scenario's states. *)
From S2P Require Import Prelude GoStd Deployment Queue Route Schema Evidence DeploymentStore LeaseCore Lease LeaseInv LeaseSteps LeaseSpec Activation Resolution ActivationSteps Enqueue LeaseSystem Scenario.
From stdpp Require Import relations.
#[local] Open Scope Z_scope.

Section runs.
Context (errorText : Err → string).

(** C1: mutual exclusion: in every reachable database two leased attempts of
    one environment are the same attempt; it occupies the environment's slot
    under the slot's current fence, and its job is leased at exactly that
    attempt number. *)
Theorem lease_mutual_exclusion d a1 r1 a2 r2 :
  reachable errorText d → db_attempts d !! a1 = Some r1 → db_attempts d !! a2 = Some r2 →
  a_state r1 = AttemptLeased → a_state r2 = AttemptLeased → a_env r1 = a_env r2 →
  a1 = a2 ∧ r1 = r2 ∧
  ∃ s j, db_slots d !! a_env r1 = Some s ∧ s_current s = Some a1 ∧ s_fence s = a_fence r1 ∧
         db_jobs d !! a_job r1 = Some j ∧ j_state j = JobLeased ∧ j_attempt_count j = a_number r1.
Proof.
  intros [Hinv _]%reachable_sys H1 H2 L1 L2 E.
  destruct (inv_leased d Hinv a1 r1 H1 L1) as (s&j&Hs&Hc&Hj&Hjl&Hn).
  destruct (inv_leased d Hinv a2 r2 H2 L2) as (s2&j2&Hs2&Hc2&_).
  assert (a1 = a2) as -> by congruence. split_and!; [done|congruence|].
  exists s, j. split_and!; try done. destruct (inv_occupant d Hinv _ s a2 Hs Hc) as (r&Hr&_&_&?). congruence.
Qed.

(** C2: refinement: every call of the system is, for every environment, at
    most one step of the abstract lease, one the call is permitted: only a
    claim acquires, a free and unblocked environment for a new attempt; only
    the holder's own agent, by its credential and fence, releases; only the
    expiry of an attempt past its authority or the revocation of its server by
    a live administrator fences a holder off; only those and the holder's agent
    block; a block is resolved or cleared by the holder's agent or a live
    administrator. A held environment is never handed over: after the call it
    has the same holder under the same fence, or none. Writes of other
    repositories change no lease. *)
Theorem lease_refines_spec d c e :
  reachable errorText d →
  rc (lease_step_in (permits c d e)) (lease_at d e) (lease_at (exec errorText c d) e) ∧
  (∀ a, l_holder (lease_at d e) = Some a →
     l_holder (lease_at (exec errorText c d) e) = None ∨
     (l_holder (lease_at (exec errorText c d) e) = Some a ∧ l_fence (lease_at (exec errorText c d) e) = l_fence (lease_at d e))) ∧
  (∀ d', lease_frame d d' → lease_at d' e = lease_at d e).
Proof.
  intros Hd%reachable_sys. pose proof (call_refines errorText c d e Hd) as H. split_and!; [done|..].
  - intros a Ha. destruct (l_holder (lease_at (exec errorText c d) e)) as [b|] eqn:Hb; [right|by left].
    destruct (lease_step_holder _ _ _ a b H Ha Hb) as [-> ?]. done.
  - intros d' (_&_&Es&_). unfold lease_at. by rewrite Es.
Qed.

(** C5: fencing: along any run an environment's fence never decreases, and a
    different later holder has a strictly larger one, so the fence an attempt
    was given identifies it for ever. *)
Theorem fencing_tokens d d' e :
  reachable errorText d → rtc (step errorText) d d' →
  l_fence (lease_at d e) ≤ l_fence (lease_at d' e) ∧
  ∀ a b, l_holder (lease_at d e) = Some a → l_holder (lease_at d' e) = Some b →
    (a ≠ b → l_fence (lease_at d e) < l_fence (lease_at d' e)) ∧
    (l_fence (lease_at d e) = l_fence (lease_at d' e) → a = b).
Proof.
  intros Hd Hs. pose proof (steps_refine errorText d d' e Hd Hs) as H. split; [by apply lease_steps_fence|].
  intros a b Ha Hb. destruct (lease_steps_holder _ _ a b H Ha Hb) as [?|[-> _]]; [|done]. split; [done|lia].
Qed.

(** C3: an unresolved traffic switch is never closed behind the operator's
    back: unless the call is a success report of this very operation by its own
    attempt under its own fence, or a declared resolution of its environment,
    the operation stays unresolved and its attempt stays leased and keeps the
    environment's slot, whatever expiry, revocation, completion, cancellation,
    reconciliation, claim or report of another operation was executed. *)
Theorem unresolved_activation_kept d k o c :
  reachable errorText d → db_ops d !! k = Some o → unresolved o → decides k o c = false →
  ∃ o' r s, db_ops (exec errorText c d) !! k = Some o' ∧ unresolved o' ∧ o_attempt o' = o_attempt o ∧
    db_attempts (exec errorText c d) !! o_attempt o = Some r ∧ a_state r = AttemptLeased ∧
    db_slots (exec errorText c d) !! a_env r = Some s ∧ s_current s = Some (o_attempt o).
Proof.
  intros Hd%reachable_sys Ho Hu Hc. pose proof (exec_safe errorText c d Hd) as Ht.
  destruct (guarded_keeps_rtc _ d _ k o Ht Ho Hu) as (o'&Ho'&Hu'&Ha&_).
  { intros Hp. eapply permits_decides in Hp; [|done..]. congruence. }
  pose proof (tracked_sys d _ Hd Ht) as [Hinv' _].
  destruct (inv_op _ Hinv' k o' Ho') as (_&_&r&Hr&_&_&_&Hl). rewrite Ha in Hr.
  destruct (inv_leased _ Hinv' _ r Hr (Hl Hu')) as (s&j&Hs&Hcur&_). exists o', r, s. split_and!; auto.
Qed.

(** a blocked environment stays closed to new work: while an activation
    of the environment needs reconciliation, the slot is flagged for and held
    by its attempt, and no claim of that environment succeeds. *)
Theorem blocked_environment_not_claimable d k o lk srv i now :
  reachable errorText d → db_ops d !! k = Some o → o_state o = OpReconciliationRequired →
  lease_at d (o_env o) = {| l_fence := o_fence o; l_holder := Some (o_attempt o); l_blocked := Some (o_attempt o) |} ∧
  tryClaim lk srv i (o_env o) now d = inr (None, d).
Proof.
  intros [Hinv Hb]%reachable_sys Ho Hst. pose proof (recon_unresolved o Hst) as Hu.
  destruct (bi_flagged d Hb k o Ho Hst) as (s&Hs&Hra).
  pose proof (unresolved_occupant d k o _ s Hinv Ho Hu eq_refl Hs) as Hc.
  destruct (inv_occupant d Hinv _ s _ Hs Hc) as (r&Hr&_&_&Hf). destruct (inv_op d Hinv k o Ho) as (_&_&r'&Hr'&_&Hf'&_).
  split.
  - rewrite (lease_at_Some d _ s Hs). unfold lease_of. rewrite Hc, Hra. f_equal. congruence.
  - unfold tryClaim, claimChecks. destruct (db_configs d !! o_env o); [|done]. unfold skipLocked. rewrite Hs.
    destruct (lk_slot lk (o_env o)); [done|]. by rewrite Hc.
Qed.

(** The attempt history of a job: its counter never exceeds five, it has
    exactly one attempt for every number from 1 to its counter, each with a
    frozen execution snapshot, and no other. *)
Theorem attempt_history d i j :
  reachable errorText d → db_jobs d !! i = Some j →
  0 ≤ j_attempt_count j ≤ MaxAttempts ∧
  (∀ n, 1 ≤ n ≤ j_attempt_count j → ∃ a r, db_attempts d !! a = Some r ∧ a_job r = i ∧ a_number r = n ∧
     is_Some (db_execution d !! a) ∧ ∀ b q, db_attempts d !! b = Some q → a_job q = i → a_number q = n → b = a) ∧
  (∀ a r, db_attempts d !! a = Some r → a_job r = i → 1 ≤ a_number r ≤ j_attempt_count j).
Proof.
  intros [Hinv _]%reachable_sys Hj. split_and!; [by apply (inv_count d Hinv i j)|by apply (inv_count d Hinv i j)|..].
  - intros n Hn. destruct (inv_history d Hinv i j n Hj Hn) as (a&r&Hr&Hi&Hnn&He). exists a, r. split_and!; try done.
    intros b q Hq Hqi Hqn. eapply (inv_numbers d Hinv); eauto; congruence.
  - intros a r Hr Hi. destruct (inv_attempt d Hinv a r Hr) as (_&Hck&_&j0&_&_&Hj0&_&_&Hle&_).
    unfold attempt_check in Hck. bool_hyps. assert (j0 = j) as -> by congruence. done.
Qed.

(** C6: a job, its deployment and its activation never disagree: the
    deployment is stored as a valid aggregate whose status is one the job's
    state allows, and it is [activating] exactly while an activation of the
    job is unresolved, in which case the job is leased and not asked to
    cancel. *)
Theorem job_deployment_agree d i j :
  reachable errorText d → db_jobs d !! i = Some j →
  ∃ s dep, db_deployments d !! j_deployment j = Some s ∧ Rehydrate s = inr dep ∧ validate dep = None ∧
    job_status_ok (j_state j) (status dep) ∧
    (status dep = StatusActivating ↔ ∃ k o, db_ops d !! k = Some o ∧ o_job o = i ∧ unresolved o) ∧
    (status dep = StatusActivating → j_state j = JobLeased ∧ j_cancel_requested_at j = None).
Proof.
  intros [Hinv _]%reachable_sys Hj. destruct (inv_deployment d Hinv i j Hj) as (s&dep&Hs&(->&_&Hv&Hc)&Hok&Hact).
  exists (snapshotOf dep), dep. split_and!; try done; [by apply Rehydrate_snapshotOf|..].
  intros (k&o&Ho&Hoi&Hu)%Hact. split; [by eapply unresolved_job_leased|].
  destruct (j_cancel_requested_at j) eqn:E; [|done]. exfalso. eapply (inv_cancel d Hinv); eauto. by rewrite E.
Qed.
End runs.

(** ** Witnesses *)

Lemma lease_mutual_exclusion_witness :
  ∃ r, db_attempts db_leased !! 1 = Some r ∧ a_state r = AttemptLeased ∧
    ∃ s j, db_slots db_leased !! a_env r = Some s ∧ s_current s = Some 1 ∧ s_fence s = a_fence r ∧
           db_jobs db_leased !! a_job r = Some j ∧ j_state j = JobLeased ∧ j_attempt_count j = a_number r.
Proof.
  eexists. split; [vm_compute; reflexivity|]. split; [reflexivity|].
  refine (proj2 (proj2 (lease_mutual_exclusion noErrorText db_leased 1 _ 1 _ db_leased_reachable _ _ _ _ _)));
    vm_compute; reflexivity.
Defined.

(** A claim acquires the free environment for the first attempt. *)
Lemma lease_refines_spec_witness :
  rc (lease_step_in (permits (claim 1 (at_second 4)) db_queued "env")) (lease_at db_queued "env")
     (lease_at (exec noErrorText (claim 1 (at_second 4)) db_queued) "env") ∧
  l_holder (lease_at db_queued "env") = None ∧ l_holder (lease_at (exec noErrorText (claim 1 (at_second 4)) db_queued) "env") = Some 1.
Proof.
  split; [exact (proj1 (lease_refines_spec noErrorText db_queued (claim 1 (at_second 4)) "env" db_queued_reachable))|].
  split; vm_compute; reflexivity.
Defined.

Lemma fencing_tokens_witness :
  l_holder (lease_at db_leased "env") = Some 1 ∧ l_holder (lease_at db_moved_on "env") = Some 2 ∧
  l_fence (lease_at db_leased "env") < l_fence (lease_at db_moved_on "env").
Proof.
  assert (l_holder (lease_at db_leased "env") = Some 1) as H1 by (vm_compute; reflexivity).
  assert (l_holder (lease_at db_moved_on "env") = Some 2) as H2 by (vm_compute; reflexivity).
  split; [exact H1|]. split; [exact H2|].
  apply (proj2 (fencing_tokens noErrorText db_leased db_moved_on "env" db_leased_reachable leased_to_moved_on) 1 2 H1 H2). discriminate.
Defined.

(** A revocation of the server while the switch is open. *)
Lemma unresolved_activation_kept_witness :
  ∃ o' r s, db_ops (exec noErrorText (CallRevoke admin "server" "lost" (at_second 11) 0) db_switching) !! 1 = Some o' ∧
    unresolved o' ∧ o_attempt o' = 1 ∧
    db_attempts (exec noErrorText (CallRevoke admin "server" "lost" (at_second 11) 0) db_switching) !! 1 = Some r ∧
    a_state r = AttemptLeased ∧
    db_slots (exec noErrorText (CallRevoke admin "server" "lost" (at_second 11) 0) db_switching) !! a_env r = Some s ∧
    s_current s = Some 1.
Proof.
  assert (∃ o, db_ops db_switching !! 1 = Some o ∧ unresolved o ∧ o_attempt o = 1) as (o&Ho&Hu&Ha)
    by (eexists; split; [vm_compute; reflexivity|split; vm_compute; reflexivity]).
  pose proof (unresolved_activation_kept noErrorText db_switching 1 o
    (CallRevoke admin "server" "lost" (at_second 11) 0) db_switching_reachable Ho Hu eq_refl) as H.
  rewrite Ha in H. exact H.
Defined.

Lemma blocked_environment_not_claimable_witness :
  lease_at db_blocked "env" = {| l_fence := 1; l_holder := Some 1; l_blocked := Some 1 |} ∧
  tryClaim nothingLocked "server" 2 "env" (at_second 500) db_blocked = inr (None, db_blocked).
Proof.
  assert (∃ o, db_ops db_blocked !! 1 = Some o ∧ o_state o = OpReconciliationRequired ∧ o_env o = "env" ∧
    o_fence o = 1 ∧ o_attempt o = 1) as (o&Ho&Hst&He&Hf&Ha)
    by (eexists; split; [vm_compute; reflexivity|split_and!; vm_compute; reflexivity]).
  pose proof (blocked_environment_not_claimable noErrorText db_blocked 1 o nothingLocked "server" 2 (at_second 500)
    db_blocked_reachable Ho Hst) as H. rewrite He, Hf, Ha in H. exact H.
Defined.

Lemma attempt_history_witness :
  ∃ j, db_jobs db_retry !! 1 = Some j ∧ j_attempt_count j = 1 ∧
    ∀ a r, db_attempts db_retry !! a = Some r → a_job r = 1 → 1 ≤ a_number r ≤ j_attempt_count j.
Proof.
  eexists. split; [vm_compute; reflexivity|]. split; [reflexivity|].
  refine (proj2 (proj2 (attempt_history noErrorText db_retry 1 _ db_retry_reachable _))). vm_compute; reflexivity.
Defined.

Lemma job_deployment_agree_witness :
  ∃ j s dep, db_jobs db_switching !! 1 = Some j ∧ db_deployments db_switching !! j_deployment j = Some s ∧
    Rehydrate s = inr dep ∧ status dep = StatusActivating ∧ j_state j = JobLeased.
Proof.
  assert (∃ j, db_jobs db_switching !! 1 = Some j) as [j Hj] by (eexists; vm_compute; reflexivity).
  destruct (job_deployment_agree noErrorText db_switching 1 j db_switching_reachable Hj) as (s&dep&Hs&Hr&_&_&Hact&Hl).
  assert (status dep = StatusActivating) as Ha.
  { apply Hact. eexists 1, _. split; [vm_compute; reflexivity|]. split; vm_compute; reflexivity. }
  exists j, s, dep. split_and!; try done. by apply Hl.
Defined.
