(* ===== verification/OperationProps.v ===== *)
(** * What each lease operation guarantees

    The behaviour of the single operations on every branch: stale callers,
    replays, renewals, claims and their frozen configuration, completion,
    expiry and revocation. *)
From S2P Require Import Prelude GoStd Deployment Queue Route Schema Evidence DeploymentStore LeaseCore Lease LeaseInv LeaseSteps LeaseSpec Activation Resolution ActivationSteps Enqueue LeaseSystem Scenario.
From stdpp Require Import relations sorting.
#[local] Open Scope Z_scope.

(** ** Stale callers *)

Lemma run_refused {A} (m : Tx DB Err A) d :
  (∀ x d', m d = inr (x, d') → False) → ∃ e, run_tx m d = (inl e, d).
Proof. intros H. unfold run_tx. destruct (m d) as [e|[x d']]; [by exists e|]. by destruct (H x d'). Qed.

Lemma run_unchanged {A} (m : Tx DB Err A) d : (∀ x d', m d = inr (x, d') → d' = d) → (run_tx m d).2 = d.
Proof. intros H. unfold run_tx. destruct (m d) as [e|[x d']]; [done|]. by apply (H x). Qed.

Lemma activateTx_leased srv dg a fence img now d x d' :
  activateTx srv dg a fence img now d = inr (x, d') → ∃ r, db_attempts d !! a = Some r ∧ a_state r = AttemptLeased.
Proof.
  intros H. unfold activateTx in H. apply tx_bind_inv in H as (?&d0&[_ ->]%tx_guard_inv&H).
  apply tx_bind_inv in H as ([[s j] r]&d1&(->&_&Hr&_)%lockLeaseRows_inv&H).
  apply tx_bind_inv in H as (?&d1&[Hg _]%tx_guard_inv&_). bool_hyps. eauto.
Qed.

Lemma reportProgressTx_leased srv dg a fence phase now d x d' :
  reportProgressTx srv dg a fence phase now d = inr (x, d') → ∃ r, db_attempts d !! a = Some r ∧ a_state r = AttemptLeased.
Proof.
  intros H. unfold reportProgressTx in H. apply tx_bind_inv in H as (?&d0&[_ ->]%tx_guard_inv&H).
  apply tx_bind_inv in H as ([j r]&d1&(_&_&Hr&_&_&Hl&_)%reauthorize_inv&_). eauto.
Qed.

(** C4: an agent whose environment has moved on is powerless: once the fence
    of the slot differs from the attempt's, renewing, reporting progress and
    activating fail whatever fence the agent claims, and completing or
    acknowledging cancellation leaves the database as it was. *)
Theorem stale_attempt_powerless errorText d a r srv dg f sq phase img outS fcS op rd now draw :
  reachable errorText d → db_attempts d !! a = Some r → l_fence (lease_at d (a_env r)) ≠ a_fence r →
  (∃ e, Renew srv dg a f sq now d = (inl e, d)) ∧ (∃ e, ReportProgress srv dg a f phase now d = (inl e, d)) ∧
  (∃ e, Activate srv dg a f img now d = (inl e, d)) ∧
  (Complete srv dg a f outS fcS op rd now draw d).2 = d ∧ (AcknowledgeCancellation srv dg a f op rd now d).2 = d.
Proof.
  intros [Hinv _]%reachable_sys Hr Hf.
  assert (a_state r ≠ AttemptLeased) as Hnl.
  { intros Hl. destruct (inv_leased d Hinv a r Hr Hl) as (s&j&Hs&Hc&_). destruct (inv_occupant d Hinv _ s a Hs Hc) as (q&Hq&_&_&?).
    rewrite (lease_at_Some d _ s Hs) in Hf. simpl in Hf. congruence. }
  split_and!.
  - apply run_refused. intros x d' (s&j&q&Hq&_&_&_&Hl&_)%renewTx_inv. congruence.
  - apply run_refused. intros x d' (q&Hq&Hl)%reportProgressTx_leased. congruence.
  - apply run_refused. intros x d' [(q&Hq&Hl)%activateTx_leased _]%commitTx_inv. congruence.
  - apply run_unchanged. intros x d' (?&?&q&_&Hq&_&[(_&_&_&_&->)|(Hl&_)])%completeTx_inv; [done|congruence|done].
  - apply run_unchanged. intros x d' (q&Hq&_&[(_&_&_&->)|(Hl&_)])%acknowledgeTx_inv; [done|congruence|done].
Qed.

Lemma stale_attempt_powerless_witness :
  ∃ e, Renew "server" "digest" 1 1 1 (at_second 203) db_moved_on = (inl e, db_moved_on).
Proof.
  assert (reachable noErrorText db_moved_on) as Hd
    by (eapply reachable_steps; [exact db_leased_reachable|exact leased_to_moved_on]).
  assert (∃ r, db_attempts db_moved_on !! 1 = Some r ∧ l_fence (lease_at db_moved_on (a_env r)) ≠ a_fence r) as (r&Hr&Hf)
    by (eexists; split; [vm_compute; reflexivity|vm_compute; discriminate]).
  exact (proj1 (stale_attempt_powerless noErrorText db_moved_on 1 r "server" "digest" 1 1 StatusFetching "" "" "" "" "" (at_second 203) 0
           Hd Hr Hf)).
Defined.

(** ** Renewal *)

(** renewal: a successful renewal of the next sequence number moves both
    deadlines to the earlier of ninety seconds from now and the cancellation
    deadline, and writes nothing else; repeating the last number returns the
    stored deadlines and writes nothing.  Either way the granted authority
    never outlives the cancellation deadline, and the lease is the current
    occupant's. *)
Theorem renew_spec errorText d srv dg a f sq now res d' :
  reachable errorText d → Renew srv dg a f sq now d = (inr res, d') →
  ∃ r, db_attempts d !! a = Some r ∧ a_server r = srv ∧ now < a_authority_expires r ∧
    l_holder (lease_at d (a_env r)) = Some a ∧ l_fence (lease_at d (a_env r)) = f ∧
    (∀ c, a_cancel_deadline r = Some c → rr_AuthorityExpiresAt res ≤ c) ∧
    ((sq = a_renewal_sequence r ∧ d' = d ∧ rr_LeaseExpiresAt res = a_lease_expires r ∧
      rr_AuthorityExpiresAt res = a_authority_expires r) ∨
     (sq = a_renewal_sequence r + 1 ∧ rr_LeaseExpiresAt res = rr_AuthorityExpiresAt res ∧
      rr_AuthorityExpiresAt res = Z.min (now + 90 * second) (default (now + 90 * second) (a_cancel_deadline r)) ∧
      d' = set_attempts (<[a := attempt_renew sq (rr_AuthorityExpiresAt res) r]> (db_attempts d)) (db_next_attempt d) d)).
Proof.
  intros [Hinv _]%reachable_sys H. unfold Renew, run_tx in H.
  destruct (renewTx srv dg a f sq now d) as [|[x e]] eqn:E; [done|]. injection H as -> ->.
  apply renewTx_inv in E as (s&j&r&Hr&Hsv&Hs&_&_&_&Hf&Hc&Hnow&_&Hcase). exists r.
  rewrite (lease_at_Some d _ s Hs). split_and!; try done.
  - intros c Hcd. destruct (inv_attempt d Hinv a r Hr) as (_&Hck&_). unfold attempt_check in Hck. bool_hyps.
    rewrite Hcd in *. simpl in *. destruct Hcase as [(_&_&->&_)|(_&_&->&_)]; [bool_hyps; lia|]. cbv zeta. lia.
  - destruct Hcase as [(->&->&->&->)|(->&H1&H2&_&->)]; [by left|right]. rewrite H1, H2.
    assert (match a_cancel_deadline r with Some dl => Z.min dl (now + leaseDuration) | None => now + leaseDuration end =
            Z.min (now + 90 * second) (default (now + 90 * second) (a_cancel_deadline r))) as E.
    { destruct (a_cancel_deadline r); simpl; unfold leaseDuration; lia. }
    split_and!; [done|done|exact E|done].
Qed.

Lemma renew_spec_witness :
  ∃ res d', Renew "server" "digest" 1 1 1 (at_second 10) db_cancelling = (inr res, d') ∧
    ∃ r, db_attempts db_cancelling !! 1 = Some r ∧ ∀ c, a_cancel_deadline r = Some c → rr_AuthorityExpiresAt res ≤ c.
Proof.
  destruct (Renew "server" "digest" 1 1 1 (at_second 10) db_cancelling) as [[e|res] d'] eqn:E; [vm_compute in E; discriminate|].
  exists res, d'. split; [done|].
  destruct (renew_spec noErrorText db_cancelling "server" "digest" 1 1 1 (at_second 10) res d' db_cancelling_reachable E)
    as (r&Hr&_&_&_&_&Hc&_). exists r. split; [done|exact Hc].
Defined.

(** ** Completion *)

(** Statements of the lease operations never touch servers or credentials. *)
Definition same_auth (d d' : DB) : Prop := db_servers d' = db_servers d ∧ db_credentials d' = db_credentials d.

#[global] Instance same_auth_preorder : PreOrder same_auth.
Proof. split; [done|]. intros d1 d2 d3 [E1 E2] [E3 E4]. split; congruence. Qed.

Section auth.
Lemma auth_append i a t : tx_rel same_auth (appendAgentJobEvent i a t).
Proof. by intros d u d' ->%appendAgentJobEvent_inv. Qed.
Lemma auth_update_attempt a w f : tx_rel same_auth (update_attempt a w f).
Proof. by intros d u d' [(_&->&_)|(r&_&_&_&_&_&->)]%update_attempt_inv. Qed.
Lemma auth_update_job i w f : tx_rel same_auth (update_job i w f).
Proof. by intros d u d' [(_&->&_)|(r&_&_&_&_&_&->)]%update_job_inv. Qed.
Lemma auth_update_slot e w f : tx_rel same_auth (update_slot e w f).
Proof. by intros d u d' [(_&->&_)|(r&_&_&_&_&_&->)]%update_slot_inv. Qed.
Lemma auth_update_op k w f : tx_rel same_auth (update_op k w f).
Proof. by intros d u d' [(_&->&_)|(r&_&_&_&_&_&->)]%update_op_inv. Qed.
Lemma auth_update_head e w f : tx_rel same_auth (update_head e w f).
Proof. by intros d u d' [(_&->&_)|(r&_&_&_&_&->)]%update_head_inv. Qed.
Lemma auth_lockLease srv dg a : tx_rel same_auth (lockLeaseRows srv dg a).
Proof. intros d [[s j] r] d' H. by apply lockLeaseRows_inv in H as (->&_). Qed.
Lemma auth_transition id target now : tx_rel same_auth (transitionDeployment id target now).
Proof. by apply (rel_transition _). Qed.
End auth.

#[export] Hint Resolve auth_append auth_update_attempt auth_update_job auth_update_slot auth_update_op auth_update_head
  auth_lockLease auth_transition : txrel.

Lemma auth_complete srv dg a fence outS fcS op rd now draw : tx_rel same_auth (completeTx srv dg a fence outS fcS op rd now draw).
Proof. unfold completeTx, completeWrites. tx_rel. Qed.

Lemma credentialMatches_frame srv dg d d' :
  db_servers d' = db_servers d → db_credentials d' = db_credentials d →
  credentialMatches srv dg d' = credentialMatches srv dg d.
Proof. intros E1 E2. unfold credentialMatches, activeDigest. by rewrite E1, E2. Qed.

(** The locked rows of a closed attempt. *)
Lemma lockLeaseRows_run srv dg a d r s j :
  credentialMatches srv dg d = true → db_attempts d !! a = Some r → a_server r = srv → db_slots d !! a_env r = Some s →
  db_jobs d !! a_job r = Some j → lockLeaseRows srv dg a d = inr (s, j, r, d).
Proof.
  intros Hc Hr Hsv Hs Hj. unfold lockLeaseRows, lockActiveServerCredential, tx_bind, tx_read, tx_guard, tx_some, tx_ret. simpl.
  assert (is_Some (db_servers d !! srv)) as [sr Hsr].
  { pose proof Hc as Hc'. unfold credentialMatches, matchServerCredential in Hc'. apply andb_true_iff in Hc' as [[Hc' _]%andb_true_iff _].
    destruct (db_servers d !! srv); [by eexists|discriminate]. }
  rewrite Hc, Hsr, Hr, Hsv. simpl. rewrite (bool_decide_true (srv = srv)) by done. by rewrite Hs, Hj, Hr, Hsv, bool_decide_true by done.
Qed.

(** A completion of an attempt that already has a result. *)
Lemma completeTx_replay srv dg a fence outS fcS op rd now draw d r s j out fc sop srd :
  credentialMatches srv dg d = true → ValidOpaqueID srv = true → 0 < a → 0 < fence → validOperationID op = true →
  parseCompletion outS fcS = Some (out, fc) → db_attempts d !! a = Some r → a_server r = srv →
  db_slots d !! a_env r = Some s → db_jobs d !! a_job r = Some j → a_state r ≠ AttemptLeased →
  a_result_operation r = Some sop → a_result_digest r = Some srd →
  completeTx srv dg a fence outS fcS op rd now draw d =
    if bool_decide (a_state r = closedStateOf out ∧ sop = op ∧ srd = rd ∧ a_failure_class r = fc)
    then inr (tt, d) else inl ErrAgentLeaseIntegrityConflict.
Proof.
  intros Hc Hv Ha Hf Hop Hp Hr Hsv Hs Hj Hnl Hso Hsd. unfold completeTx. unfold tx_bind at 1, tx_guard at 1.
  rewrite Hv, Hop, (proj2 (Z.ltb_lt _ _) Ha), (proj2 (Z.ltb_lt _ _) Hf). simpl. rewrite Hp. unfold tx_bind at 1.
  rewrite (lockLeaseRows_run srv dg a d r s j) by done. rewrite (bool_decide_false _ Hnl). simpl. rewrite Hso, Hsd. unfold tx_guard.
  repeat case_bool_decide; simpl; try done; naive_solver.
Qed.

Lemma parseCompletion_state outS fcS out fc n :
  parseCompletion outS fcS = Some (out, fc) →
  newJobStateOf out fc n =
    if bool_decide (outS = "succeeded") then JobSucceeded
    else if bool_decide (fcS = "transient") then (if n <? 5 then JobRetryWait else JobDead) else JobFailed.
Proof.
  unfold parseCompletion, parseFailureClass, newJobStateOf, Retryable, MaxAttempts. intros H.
  destruct (bool_decide (outS = "succeeded")) eqn:E1; [case_bool_decide; simpl in H; by simplify_eq|].
  destruct (bool_decide (outS = "failed")); [|done]. destruct (bool_decide (fcS = "transient")) eqn:E2.
  - simplify_eq. simpl. by destruct (n <? 5).
  - repeat case_match; simplify_eq; done.
Qed.

(** Completion: a first completion of a leased attempt closes it with the
    result it carries, frees the environment under the same fence and leaves
    it unblocked, and moves the job to succeeded, to a retry when the failure
    is transient and attempts are left, to dead when none is, and to failed
    otherwise.  It is accepted only from the current holder before its
    authority expired and with no open activation. *)
Theorem complete_spec errorText d srv dg a f outS fcS op rd now draw d' r :
  reachable errorText d → Complete srv dg a f outS fcS op rd now draw d = (inr tt, d') →
  db_attempts d !! a = Some r → a_state r = AttemptLeased →
  ∃ out fc j', parseCompletion outS fcS = Some (out, fc) ∧
    a_server r = srv ∧ a_fence r = f ∧ now < a_authority_expires r ∧ no_unresolved a d ∧
    lease_at d (a_env r) = {| l_fence := f; l_holder := Some a; l_blocked := None |} ∧
    lease_at d' (a_env r) = {| l_fence := f; l_holder := None; l_blocked := None |} ∧
    db_attempts d' = <[a := attempt_close_result (closedStateOf out) now fc op rd r]> (db_attempts d) ∧
    db_jobs d' = <[a_job r := j']> (db_jobs d) ∧ j_attempt_count j' = a_number r ∧
    j_state j' = if bool_decide (outS = "succeeded") then JobSucceeded
                 else if bool_decide (fcS = "transient") then (if a_number r <? 5 then JobRetryWait else JobDead) else JobFailed.
Proof.
  intros [Hinv Hb]%reachable_sys H Hr Hl. unfold Complete, run_tx in H.
  destruct (completeTx _ _ _ _ _ _ _ _ _ _ d) as [|[x e]] eqn:E; [done|]. injection H as _ ->.
  apply completeTx_inv in E as (out&fc&q&Hp&Hq&Hsv&Hcase); [|done]. assert (q = r) as -> by congruence.
  destruct Hcase as [(Hcl&_)|(_&Hf&Hnow&Hno&s&j&j'&Hsf&Hc&Hj')]; [rewrite Hl in Hcl; by destruct out|].
  exists out, fc, j'. pose proof (cls_s _ _ _ _ _ _ _ _ _ Hc) as Hs. pose proof (cls_sc _ _ _ _ _ _ _ _ _ Hc) as Hsc.
  pose proof (cls_slots _ _ _ _ _ _ _ _ _ Hc) as Es.
  assert (s_recon_attempt s = None) as Hra.
  { destruct (held_blocked d _ s a Hinv Hb Hs Hsc) as [?|(_&k&o&Ho&Hu&Ha)]; [done|]. by destruct (Hno k o). }
  rewrite (lease_at_Some d _ s Hs), (lease_at_Some d' (a_env r) (slot_free now s)) by (by rewrite Es, lookup_insert_eq).
  unfold lease_of. simpl. rewrite Hsc, Hra, Hsf.
  destruct (inv_leased d Hinv a r Hr Hl) as (_&j0&_&_&Hj0&_&Hn).
  assert (j0 = j) as -> by (rewrite (cls_j _ _ _ _ _ _ _ _ _ Hc) in Hj0; congruence).
  destruct (cls_j' _ _ _ _ _ _ _ _ _ Hc) as (_&Hcnt&_). split_and!; try done.
  - apply Hc.
  - apply Hc.
  - congruence.
  - rewrite Hj'. by apply parseCompletion_state.
Qed.

Lemma complete_spec_witness :
  ∃ r d' j', db_attempts db_leased !! 1 = Some r ∧
    Complete "server" "digest" 1 1 "failed" "transient" "op-1" image (at_second 5) 0 db_leased = (inr tt, d') ∧
    db_jobs d' = <[a_job r := j']> (db_jobs db_leased) ∧
    lease_at d' (a_env r) = {| l_fence := 1; l_holder := None; l_blocked := None |} ∧ j_state j' = JobRetryWait.
Proof.
  assert (∃ r, db_attempts db_leased !! 1 = Some r ∧ a_state r = AttemptLeased ∧ a_number r = 1) as (r&Hr&Hl&Hn)
    by (eexists; split; [vm_compute; reflexivity|split; reflexivity]).
  destruct (Complete "server" "digest" 1 1 "failed" "transient" "op-1" image (at_second 5) 0 db_leased) as [[e|[]] d'] eqn:E;
    [vm_compute in E; discriminate|].
  destruct (complete_spec noErrorText db_leased "server" "digest" 1 1 "failed" "transient" "op-1" image (at_second 5) 0 d' r
    db_leased_reachable E Hr Hl) as (out&fc&j'&_&_&_&_&_&_&Hfree&_&Hjobs&_&Hst).
  rewrite Hn in Hst. exists r, d', j'. split_and!; [done..|]. exact Hst.
Defined.

(** completion is idempotent and tamper-evident: after an attempt was
    completed, repeating the same completion at any later time succeeds and
    changes nothing, and a well-formed completion that differs in outcome,
    failure class, operation or result digest is refused as an integrity
    conflict and changes nothing. *)
Theorem complete_replay errorText d srv dg a f outS fcS op rd now draw d' f2 now2 draw2 :
  reachable errorText d → Complete srv dg a f outS fcS op rd now draw d = (inr tt, d') → 0 < f2 →
  Complete srv dg a f2 outS fcS op rd now2 draw2 d' = (inr tt, d') ∧
  (∀ outS2 fcS2 op2 rd2, is_Some (parseCompletion outS2 fcS2) → validOperationID op2 = true →
     (parseCompletion outS2 fcS2, op2, rd2) ≠ (parseCompletion outS fcS, op, rd) →
     Complete srv dg a f2 outS2 fcS2 op2 rd2 now2 draw2 d' = (inl ErrAgentLeaseIntegrityConflict, d')).
Proof.
  intros Hd%reachable_sys H Hf2. pose proof (sys_lease d Hd) as Hinv. unfold Complete, run_tx in H.
  destruct (completeTx _ _ _ _ _ _ _ _ _ _ d) as [|[x e]] eqn:E; [done|]. injection H as -> ->.
  pose proof (completeTx_credential _ _ _ _ _ _ _ _ _ _ _ _ _ E) as (Hc&Hv&Ha&_&Hop).
  pose proof (auth_complete _ _ _ _ _ _ _ _ _ _ _ _ _ E) as [E1 E2].
  assert (lease_inv d') as Hinv' by by eapply complete_preserves.
  assert (∃ out fc r, parseCompletion outS fcS = Some (out, fc) ∧ db_attempts d' !! a = Some r ∧ a_server r = srv ∧
    a_state r = closedStateOf out ∧ a_result_operation r = Some op ∧ a_result_digest r = Some rd ∧ a_failure_class r = fc)
    as (out&fc&r&Hp&Hr&Hsv&Hst&Hro&Hrd&Hfc).
  { apply completeTx_inv in E as (out&fc&r&Hp&Hr&Hsv&[(?&?&?&?&->)|(Hl&_&_&_&s&j&j'&_&Hcl&_)]); [by exists out, fc, r| |done].
    exists out, fc, (attempt_close_result (closedStateOf out) now fc op rd r).
    rewrite (cls_attempts _ _ _ _ _ _ _ _ _ Hcl), lookup_insert_eq. by split_and!. }
  destruct (inv_attempt d' Hinv' a r Hr) as (_&_&s&j&Hs&_&Hj&_).
  assert (a_state r ≠ AttemptLeased) as Hnl by (rewrite Hst; by destruct out).
  rewrite <-(credentialMatches_frame srv dg d d' E1 E2) in Hc. unfold Complete. split.
  - apply run_tx_inr. rewrite (completeTx_replay srv dg a f2 outS fcS op rd now2 draw2 d' r s j out fc op rd) by done.
    by rewrite bool_decide_true.
  - intros outS2 fcS2 op2 rd2 [[out2 fc2] Hp2] Hop2 Hne. apply run_tx_inl.
    rewrite (completeTx_replay srv dg a f2 outS2 fcS2 op2 rd2 now2 draw2 d' r s j out2 fc2 op rd) by done.
    rewrite bool_decide_false; [done|]. intros (Hs2&<-&<-&Hfc2). apply Hne. rewrite Hp, Hp2.
    assert (out2 = out) as -> by (rewrite Hst in Hs2; by destruct out, out2). congruence.
Qed.

Lemma complete_replay_witness :
  ∃ d', Complete "server" "digest" 1 1 "failed" "transient" "op-1" image (at_second 5) 0 db_leased = (inr tt, d') ∧
    Complete "server" "digest" 1 1 "failed" "transient" "op-1" image (at_second 900) 7 d' = (inr tt, d') ∧
    Complete "server" "digest" 1 1 "succeeded" "" "op-1" image (at_second 900) 7 d' = (inl ErrAgentLeaseIntegrityConflict, d').
Proof.
  destruct (Complete "server" "digest" 1 1 "failed" "transient" "op-1" image (at_second 5) 0 db_leased) as [[e|[]] d'] eqn:E;
    [vm_compute in E; discriminate|].
  destruct (complete_replay noErrorText db_leased "server" "digest" 1 1 "failed" "transient" "op-1" image (at_second 5) 0 d'
    1 (at_second 900) 7 db_leased_reachable E) as [H1 H2]; [lia|].
  exists d'. split; [done|]. split; [exact H1|]. apply H2; [by eexists|reflexivity|]. vm_compute. discriminate.
Defined.
