(* ===== verification/ClaimProps.v ===== *)
(** * Claims: what a granted lease is, and what it freezes

    Claim hands out leases of distinct free environments; a first attempt
    freezes the environment's current configuration and a retry runs what the
    attempt before it ran; the configuration digest determines what was
    frozen. *)
From S2P Require Import Prelude GoStd Deployment Queue Route Schema Evidence DeploymentStore LeaseCore Lease LeaseInv LeaseSteps LeaseSpec Activation Resolution ActivationSteps Enqueue LeaseSystem Scenario.
From stdpp Require Import relations sorting.
#[local] Open Scope Z_scope.

(** ** Granted leases *)

(** The state of a lease that was just handed out. *)
Record granted (srv : string) (now : Z) (d : DB) (l : ClaimedLease) : Prop := {
  gr_attempt : ∃ r, db_attempts d !! cl_AttemptID l = Some r ∧ a_state r = AttemptLeased ∧ a_server r = srv ∧
    a_env r = cl_EnvironmentID l ∧ a_fence r = cl_Fence l ∧ a_job r = cl_JobID l ∧ a_number r = cl_AttemptNumber l ∧
    a_authority_expires r = cl_AuthorityExpiresAt l ∧ a_lease_expires r = cl_LeaseExpiresAt l;
  gr_lease : lease_at d (cl_EnvironmentID l) =
    {| l_fence := cl_Fence l; l_holder := Some (cl_AttemptID l); l_blocked := None |};
  gr_job : ∃ j, db_jobs d !! cl_JobID l = Some j ∧ j_state j = JobLeased ∧ j_cancel_requested_at j = None ∧
    j_available_at j ≤ now ∧ j_deployment j = cl_DeploymentID l ∧ j_attempt_count j = cl_AttemptNumber l;
  gr_deadline : cl_LeaseExpiresAt l = now + 90 * second ∧ cl_AuthorityExpiresAt l = now + 90 * second;
}.

Section opening.
Context {d d' : DB} {r : AttemptRow} {s s' : SlotRow} {j j' : JobRow}.
Context (Hinv : lease_inv d) (Hop : opens d d' r s s' j j').

(** A later claim of the same call leaves an earlier lease alone. *)
Lemma granted_open srv now l : granted srv now d l → granted srv now d' l ∧ cl_EnvironmentID l ≠ a_env r.
Proof.
  intros [(q&Hq&Hl&Hsv&He&Hrest) Hle (k&Hk&Hkl&Hkrest) Hd].
  destruct (opens_unleased Hinv Hop (cl_AttemptID l) q Hq Hl) as [Hnj Hne]. rewrite He in Hne.
  assert (a_job q = cl_JobID l) as Hqj by apply Hrest. rewrite Hqj in Hnj.
  pose proof (opens_fresh Hinv (cl_AttemptID l) q Hq) as Hfresh.
  split; [|done]. split; [| | |done].
  - exists q. rewrite (opn_attempts _ _ _ _ _ _ _ Hop), lookup_insert_ne by done. tauto.
  - rewrite <-Hle. unfold lease_at. by rewrite (opn_slots _ _ _ _ _ _ _ Hop), lookup_insert_ne by done.
  - exists k. rewrite (opn_jobs _ _ _ _ _ _ _ Hop), lookup_insert_ne by done. tauto.
Qed.
End opening.

Lemma tryClaim_granted lk srv i e now d l d' :
  lease_inv d → tryClaim lk srv i e now d = inr (Some l, d') →
  granted srv now d' l ∧ cl_EnvironmentID l = e ∧ l_fence (lease_at d e) < cl_Fence l ∧
  (∀ l', granted srv now d l' → granted srv now d' l' ∧ cl_EnvironmentID l' ≠ e).
Proof.
  intros Hinv H. apply tryClaim_inv in H as [[? _]|(l0&s&job&Hl&Hs&Hsc&Hrf&Hj&Hcan&Hav&Hop&E1&E2&E3&E4&E5&E6&E7&E8)]; [done| |done].
  injection Hl as <-. pose proof (opn_slots _ _ _ _ _ _ _ Hop) as Es. simpl in Es. split_and!.
  - split.
    + eexists. rewrite (opn_attempts _ _ _ _ _ _ _ Hop), E2, lookup_insert_eq. split; [done|]. rewrite E1, E3, E4, E5, E7, E8. by split_and!.
    + erewrite (lease_at_Some d'); [|rewrite Es, E5; apply lookup_insert_eq]. unfold lease_of. simpl. rewrite E2, E4.
      destruct (inv_slot d Hinv _ s Hs) as [Hck _]. apply flag_recon in Hck. rewrite Hrf in Hck. by destruct (s_recon_attempt s).
    + exists (job_lease now job). rewrite (opn_jobs _ _ _ _ _ _ _ Hop), E1. simpl. rewrite lookup_insert_eq. by split_and!.
    + by rewrite E7, E8.
  - done.
  - rewrite (lease_at_Some d e s Hs), E4. simpl. lia.
  - intros l' Hl'. exact (granted_open Hinv Hop srv now l' Hl').
Qed.

Lemma claimLoop_granted lk srv limit now d0 cs claimed d ls d' :
  lease_inv d → 0 ≤ limit → Z.of_nat (length claimed) ≤ limit → NoDup (cl_EnvironmentID <$> claimed) →
  (∀ l, l ∈ claimed → granted srv now d l ∧ l_fence (lease_at d0 (cl_EnvironmentID l)) < cl_Fence l) →
  (∀ e, l_fence (lease_at d0 e) ≤ l_fence (lease_at d e)) →
  claimLoop lk srv limit now claimed cs d = inr (ls, d') →
  Z.of_nat (length ls) ≤ limit ∧ NoDup (cl_EnvironmentID <$> ls) ∧
  (∀ l, l ∈ ls → granted srv now d' l ∧ l_fence (lease_at d0 (cl_EnvironmentID l)) < cl_Fence l).
Proof.
  revert claimed d. induction cs as [|c cs IH]; intros claimed d Hinv Hlim Hlen Hnd Hgr Hmono H; simpl in H.
  { apply tx_ret_inv in H as [<- ->]. by split_and!. }
  destruct (limit <=? Z.of_nat (length claimed)) eqn:El; bool_hyps.
  { apply tx_ret_inv in H as [<- ->]. by split_and!. }
  apply tx_bind_inv in H as ([l|]&d1&H1&H).
  - assert (lease_inv d1) as Hinv1 by by eapply tryClaim_preserves. pose proof H1 as H1'.
    apply tryClaim_granted in H1 as (Hl&He&Hf&Hkeep); [|done]. apply IH in H; try done.
    + rewrite length_app. simpl. lia.
    + rewrite fmap_app. apply NoDup_app. split_and!; [done| |apply NoDup_singleton].
      intros e (l'&->&Hin)%list_elem_of_fmap Hin'. apply list_elem_of_singleton in Hin'.
      destruct (Hgr l' Hin) as [Hg _]. destruct (Hkeep l' Hg) as [_ Hne]. congruence.
    + intros l' [Hin| ->%list_elem_of_singleton]%elem_of_app.
      * destruct (Hgr l' Hin) as [Hg ?]. split; [by apply Hkeep|done].
      * split; [done|]. specialize (Hmono (c_environmentID c)). rewrite He. lia.
    + intros e. specialize (Hmono e). apply tryClaim_inv in H1' as [[_ ->]|(?&s&?&_&Hs&_&_&_&_&_&Hop&_)]; [done| |done].
      unfold lease_at at 2. rewrite (opn_slots _ _ _ _ _ _ _ Hop). simpl. destruct (decide (e = c_environmentID c)) as [->|].
      * rewrite lookup_insert_eq. simpl. rewrite (lease_at_Some d _ s Hs) in Hmono. simpl in Hmono. lia.
      * rewrite lookup_insert_ne by done. exact Hmono.
  - apply tryClaim_inv in H1 as [[_ ->]|(?&?&?&?&_)]; [|done|done]. by eapply IH in H.
Qed.

Lemma lease_at_ensureSlots now envs d e : lease_at (ensureSlots now envs d) e = lease_at d e.
Proof.
  unfold ensureSlots, lease_at at 1. simpl. assert (∀ m : gmap string SlotRow,
    match m !! e with Some s => lease_of s | None => {| l_fence := 0; l_holder := None; l_blocked := None |} end = lease_at d e →
    match foldl (λ m e, match m !! e with Some _ => m | None => <[e := {| s_fence := 0; s_current := None; s_recon_required := false;
      s_recon_attempt := None; s_updated_at := now |}]> m end) m envs !! e with
    | Some s => lease_of s | None => {| l_fence := 0; l_holder := None; l_blocked := None |} end = lease_at d e) as H; [|by apply H].
  induction envs as [|x envs IH]; intros m Hm; simpl; [done|]. apply IH. destruct (m !! x) eqn:E; [done|].
  destruct (decide (e = x)) as [->|]; [by rewrite lookup_insert_eq, <-Hm, E|by rewrite lookup_insert_ne].
Qed.

(** C7: claiming: the leases a Claim call returns are at most the requested
    number and at most fifty, of pairwise different environments; each is
    held in the resulting database by its attempt under a fence larger than
    the environment ever had, for ninety seconds from the claim, by a leased,
    runnable, uncancelled job at the attempt number returned. *)
Theorem claim_grants_leases errorText d lk srv dg limit dnow now ls d' :
  reachable errorText d → 0 ≤ limit → Claim lk srv dg limit dnow now d = (inr ls, d') →
  Z.of_nat (length ls) ≤ limit ∧ Z.of_nat (length ls) ≤ 50 ∧ NoDup (cl_EnvironmentID <$> ls) ∧
  (∀ l, l ∈ ls → granted srv now d' l ∧ l_fence (lease_at d (cl_EnvironmentID l)) < cl_Fence l).
Proof.
  intros Hd%reachable_sys Hlim H. pose proof (sys_lease d Hd) as Hinv. unfold Claim in H.
  destruct (limit <=? 0) eqn:E0; bool_hyps.
  { injection H as <- <-. simpl. split_and!; try lia; [constructor|by intros l ?%elem_of_nil]. }
  destruct (negb (ValidOpaqueID srv)); [done|]. destruct (negb (credentialMatches srv dg d)); [done|].
  remember (if 50 <? limit then 50 else limit) as lim eqn:Elim.
  assert (0 ≤ lim ≤ limit ∧ lim ≤ 50) as [Hl1 Hl2] by (subst lim; destruct (50 <? limit) eqn:E; bool_hyps; lia).
  unfold run_tx in H. destruct (claimTx _ _ _ _ _ _ _) as [|[x e]] eqn:E; [done|]. injection H as -> ->.
  unfold claimTx in E. apply tx_bind_inv in E as (o&d1&[_ ->]%lockActiveServerCredential_inv&E).
  eapply (claimLoop_granted _ _ _ _ d) in E; [| |lia|simpl; lia|constructor|by intros l ?%elem_of_nil|].
  - destruct E as (?&?&?). split_and!; [lia|lia|done|done].
  - by apply ensureSlots_preserves.
  - intros e0. by rewrite lease_at_ensureSlots.
Qed.

Lemma claim_grants_leases_witness :
  ∃ l d', Claim nothingLocked "server" "digest" 5 (at_second 4) (at_second 5) db_queued = (inr [l], d') ∧
    lease_at d' (cl_EnvironmentID l) = {| l_fence := cl_Fence l; l_holder := Some (cl_AttemptID l); l_blocked := None |}.
Proof.
  assert (match (Claim nothingLocked "server" "digest" 5 (at_second 4) (at_second 5) db_queued).1 with
          | inr [_] => true | _ => false end = true) as Hlen by (vm_compute; reflexivity).
  destruct (Claim nothingLocked "server" "digest" 5 (at_second 4) (at_second 5) db_queued) as [[e|ls] d'] eqn:E; [discriminate|].
  destruct ls as [|l [|]]; [discriminate| |discriminate]. exists l, d'. split; [reflexivity|].
  destruct (claim_grants_leases noErrorText db_queued nothingLocked "server" "digest" 5 (at_second 4) (at_second 5) [l] d'
    db_queued_reachable) as (_&_&_&H); [lia|exact E|]. apply gr_lease with "server" (at_second 5), H. by left.
Defined.

(** ** The freeze *)

Definition frozenSecrets (a : Z) (d : DB) : list frozenBinding := default [] (db_frozen_secrets d !! a).
Definition frozenLiterals (a : Z) (d : DB) : list frozenLiteral := default [] (db_frozen_literals d !! a).

(** Where a claim's configuration comes from. *)
Definition freezeSource (d : DB) (i n : Z) (e : string) (cfg : frozenExecutionSnapshot) (bs : list frozenBinding)
    (ls : list frozenLiteral) : Prop :=
  (n = 1 ∧ db_configs d !! e = Some cfg ∧ resolveRuntimeSecretBindings e d = Some bs ∧
   resolveRuntimeLiteralBindings e d = Some ls) ∨
  (1 < n ∧ ∃ p r, db_attempts d !! p = Some r ∧ a_job r = i ∧ a_number r = n - 1 ∧ db_execution d !! p = Some cfg ∧
     bs ≡ₚ frozenSecrets p d ∧ ls ≡ₚ frozenLiterals p d).

Lemma freezeAttempt_spec n a p cfg bs ls d c b l d' :
  (n ≠ 1 → a ≠ p) → freezeAttempt n a p cfg bs ls d = inr (c, b, l, d') →
  ((n = 1 ∧ c = cfg ∧ b = bs ∧ l = ls) ∨
   (n ≠ 1 ∧ db_execution d !! p = Some c ∧ b ≡ₚ frozenSecrets p d ∧ l ≡ₚ frozenLiterals p d)) ∧
  db_execution d' = <[a := c]> (db_execution d) ∧ db_frozen_secrets d' = <[a := frozenSecrets a d ++ b]> (db_frozen_secrets d) ∧
  frozenLiterals a d' = frozenLiterals a d ++ l ∧ db_releases d' = db_releases d.
Proof.
  intros Hne. assert (∀ c (e : DB) u e', insertAttemptExecution a c e = inr (u, e') →
    e' = set_frozen (<[a := c]> (db_execution e)) (db_frozen_secrets e) (db_frozen_literals e) e) as Hins.
  { unfold insertAttemptExecution. intros c0 e u e'. case_match; [done|]. by intros [= ? <-]. }
  unfold freezeAttempt, copyPreviousAttemptExecution, copyPreviousFrozenSecretVersions,
    copyPreviousFrozenLiteralValues, insertFrozenSecretVersions, insertFrozenLiteralValues, frozenSecrets, frozenLiterals.
  destruct (n =? 1) eqn:En; bool_hyps; intros H; tx_inv;
    match goal with H : insertAttemptExecution _ _ _ = _ |- _ => apply Hins in H as -> end; simpl in *;
    rewrite ?lookup_insert_eq, ?lookup_insert_ne by (by apply Hne); simpl; simplify_eq; (split; [|by split_and!]).
  - by left.
  - right. split_and!; [done|done|apply merge_sort_Permutation..].
Qed.

Lemma release_insert d id r : db_releases (set_releases (<[id := r]> (db_releases d)) d) !! id = Some r.
Proof. simpl. apply lookup_insert_eq. Qed.

Lemma ensureRelease_spec dep e commit strat dg now d id d' :
  ensureRelease dep e commit strat dg now d = inr (id, d') →
  id = dep ∧ db_execution d' = db_execution d ∧ db_frozen_secrets d' = db_frozen_secrets d ∧
  db_frozen_literals d' = db_frozen_literals d ∧
  ∃ rid r, db_releases d' !! rid = Some r ∧ rel_deployment r = dep ∧ rel_config_digest r = dg.
Proof.
  unfold ensureRelease. intros H. apply tx_bind_inv in H as (ex&d0&H0&H). tx_inv.
  destruct (release_of_deployment dep d) as [[rid r]|] eqn:E; tx_inv; split_and!; try done.
  - unfold release_of_deployment in E. apply head_Some_elem_of, list_elem_of_filter in E as [Hd Hr%elem_of_map_to_list].
    bool_hyps. eauto.
  - eexists dep, _. split; [apply release_insert|]. done.
Qed.

Lemma claimWrites_freeze srv i e job prev cfg bs ls now d l d' :
  lease_inv d → db_jobs d !! i = Some job → j_state job ∈ [JobQueued; JobRetryWait] →
  (j_attempt_count job + 1 ≠ 1 → is_Some (db_attempts d !! prev)) → 
  claimWrites srv i e job prev cfg bs ls now d = inr (l, d') →
  ((j_attempt_count job + 1 = 1 ∧ cl_Config l = cfg ∧ cl_SecretBindings l = bs ∧ cl_LiteralBindings l = ls) ∨
   (j_attempt_count job + 1 ≠ 1 ∧ db_execution d !! prev = Some (cl_Config l) ∧
    cl_SecretBindings l ≡ₚ frozenSecrets prev d ∧ cl_LiteralBindings l ≡ₚ frozenLiterals prev d)) ∧
  db_execution d' = <[cl_AttemptID l := cl_Config l]> (db_execution d) ∧
  db_frozen_secrets d' = <[cl_AttemptID l := frozenSecrets (cl_AttemptID l) d ++ cl_SecretBindings l]> (db_frozen_secrets d) ∧
  frozenLiterals (cl_AttemptID l) d' = frozenLiterals (cl_AttemptID l) d ++ cl_LiteralBindings l ∧
  cl_ReleaseID l = j_deployment job ∧
  ∃ rid r, db_releases d' !! rid = Some r ∧ rel_deployment r = j_deployment job ∧
    rel_config_digest r = computeConfigDigest (cl_Config l) (cl_SecretBindings l) (cl_LiteralBindings l).
Proof.
  intros Hinv Hj Hst Hprev H. unfold claimWrites in H.
  apply tx_bind_inv in H as (?&d1&H1%expectRow_inv&H). apply update_slot_inv in H1 as [(?&_)|(s0&_&Hs0&_&_&_&->)]; [done|].
  apply tx_bind_inv in H as (s1&d1&[_ ->]%tx_some_inv&H).
  apply tx_bind_inv in H as (?&d1&(j0&Hj0&_&_&->)%lease_job&H). simpl in Hj0. assert (j0 = job) as -> by congruence.
  apply tx_bind_inv in H as (j1&d1&[Hj1 ->]%tx_some_inv&H). simpl in Hj1. rewrite lookup_insert_eq in Hj1. injection Hj1 as <-.
  apply tx_bind_inv in H as (a&d1&(_&_&_&->&->)%insert_attempt_inv&H).
  apply tx_bind_inv in H as (?&d1&[b [(_&->&_)|(?&_&_&_&_&_&->)]%update_slot_inv]%execute_inv&H);
  (apply tx_bind_inv in H as (?&d1&(st&dep'&->&_&_)%(claim_deployment d i job)&H); [|done..];
   apply tx_bind_inv in H as ([[cfg' bs'] ls']&d1&Hfz&H);
   apply freezeAttempt_spec in Hfz as (Hsrc&Ee&Ebs&Els&Erel);
     [apply tx_bind_inv in H as (rel&d2&(->&E1&E2&E3&rid&rr&Hrr&Hd&Hdg)%ensureRelease_spec&H);
      apply tx_bind_inv in H as (?&d3&->%appendAgentJobEvent_inv&H); apply tx_ret_inv in H as [<- ->]; simpl in *;
      unfold frozenSecrets, frozenLiterals in *; simpl in *; rewrite E1, E2, E3, Ee;
      split_and!; [exact Hsrc|done|exact Ebs|exact Els|done|by exists rid, rr]|]).
  all: simpl; intros [q Hq]%Hprev; destruct (inv_attempt d Hinv prev q Hq) as [? _]; lia.
Qed.

Lemma tryClaim_freeze d lk srv i e now l d' :
  lease_inv d → tryClaim lk srv i e now d = inr (Some l, d') →
  freezeSource d i (cl_AttemptNumber l) e (cl_Config l) (cl_SecretBindings l) (cl_LiteralBindings l) ∧
  db_execution d' = <[cl_AttemptID l := cl_Config l]> (db_execution d) ∧
  db_frozen_secrets d' = <[cl_AttemptID l := frozenSecrets (cl_AttemptID l) d ++ cl_SecretBindings l]> (db_frozen_secrets d) ∧
  frozenLiterals (cl_AttemptID l) d' = frozenLiterals (cl_AttemptID l) d ++ cl_LiteralBindings l ∧
  ∃ rid r, db_releases d' !! rid = Some r ∧ rel_deployment r = cl_DeploymentID l ∧
    rel_config_digest r = computeConfigDigest (cl_Config l) (cl_SecretBindings l) (cl_LiteralBindings l).
Proof.
  intros Hinv H. unfold tryClaim in H.
  destruct (claimChecks lk srv i e now d) as [|[[[[[job prev] cfg] bs] ls]|]] eqn:Ec; [done| |done].
  apply claimChecks_Some in Ec as (s&Hs&Hsc&_&Hj&He&Hsrv&Hst&_&_&Hcfg&Hsrc).
  apply tx_bind_inv in H as (l0&d1&H1&H). apply tx_ret_inv in H as [[= ->] ->].
  assert (j_attempt_count job + 1 ≠ 1 → ∃ r, db_attempts d !! prev = Some r ∧ a_job r = i ∧ a_number r = j_attempt_count job) as Hprev.
  { intros Hn. destruct Hsrc as [[? _]|[_ Hp]]; [done|]. unfold attempt_of_job in Hp.
    apply fmap_Some in Hp as ([p r]&Hp%head_Some_elem_of&->). apply list_elem_of_filter in Hp as [[??] Hr%elem_of_map_to_list]. eauto. }
  pose proof H1 as H2. apply (claimWrites_opens _ _ _ _ _ _ _ _ _ _ _ _ s) in H2 as (_&_&_&En&_&_&Ed&_); [|done..].
  apply claimWrites_freeze in H1 as (Hcase&?&?&?&_&Hrel); [|done..|intros Hn; destruct (Hprev Hn) as (r&?&_); by eexists].
  rewrite Ed. split_and!; try done. unfold freezeSource. rewrite En.
  destruct (inv_count d Hinv i job Hj) as [[Hc _] _].
  destruct Hcase as [(Hn&->&->&->)|(Hn&?&?&?)].
  - left. destruct Hsrc as [(_&_&?&?)|[? _]]; [by split_and!|done].
  - right. split; [lia|]. destruct (Hprev Hn) as (r&?&?&?). exists prev, r. split_and!; try done. lia.
Qed.

(** C8: the freeze: a first attempt freezes the environment's current runtime
    configuration, secret versions and literals; a retry freezes exactly what
    the previous attempt of the job ran, whatever the environment's
    configuration is by then.  The rows written for the attempt are those
    returned to the agent, and the deployment's release carries the digest of
    exactly that configuration. *)
Theorem claim_freezes errorText d lk srv i e now l d' :
  reachable errorText d → tryClaim lk srv i e now d = inr (Some l, d') →
  freezeSource d i (cl_AttemptNumber l) e (cl_Config l) (cl_SecretBindings l) (cl_LiteralBindings l) ∧
  db_execution d' !! cl_AttemptID l = Some (cl_Config l) ∧
  frozenSecrets (cl_AttemptID l) d' = frozenSecrets (cl_AttemptID l) d ++ cl_SecretBindings l ∧
  frozenLiterals (cl_AttemptID l) d' = frozenLiterals (cl_AttemptID l) d ++ cl_LiteralBindings l ∧
  ∃ rid r, db_releases d' !! rid = Some r ∧ rel_deployment r = cl_DeploymentID l ∧
    rel_config_digest r = computeConfigDigest (cl_Config l) (cl_SecretBindings l) (cl_LiteralBindings l).
Proof.
  intros [Hinv _]%reachable_sys H. apply tryClaim_freeze in H as (?&Ex&Es&?&?); [|done]. unfold frozenSecrets at 1.
  rewrite Ex, Es, !lookup_insert_eq. done.
Qed.

(** The retry of the scenario's job, one second after its failure. *)
Lemma claim_freezes_witness :
  ∃ l d', tryClaim nothingLocked "server" 1 "env" (at_second 20) db_retry = inr (Some l, d') ∧ cl_AttemptNumber l = 2 ∧
    freezeSource db_retry 1 2 "env" (cl_Config l) (cl_SecretBindings l) (cl_LiteralBindings l).
Proof.
  assert (match tryClaim nothingLocked "server" 1 "env" (at_second 20) db_retry with
          | inr (Some l, _) => cl_AttemptNumber l | _ => 0 end = 2) as Hn by (vm_compute; reflexivity).
  destruct (tryClaim nothingLocked "server" 1 "env" (at_second 20) db_retry) as [|[[l|] d']] eqn:E; [discriminate| |discriminate].
  exists l, d'. split; [reflexivity|]. split; [exact Hn|]. rewrite <-Hn at 1.
  exact (proj1 (claim_freezes noErrorText db_retry nothingLocked "server" 1 "env" (at_second 20) l d' db_retry_reachable E)).
Defined.

(** ** The configuration digest *)

Lemma triples_inj {A} (f g h : A → string) (l k : list A) (x y : list string) :
  (∀ a b, f a = f b → g a = g b → h a = h b → a = b) → length l = length k →
  mjoin ((λ a, [f a; g a; h a]) <$> l) ++ x = mjoin ((λ a, [f a; g a; h a]) <$> k) ++ y → l = k ∧ x = y.
Proof.
  intros Hinj. revert k. induction l as [|a l IH]; intros [|b k] Hl H; simpl in *; try done.
  injection H as H1 H2 H3 H4. apply IH in H4 as [-> ->]; [|congruence]. by rewrite (Hinj a b).
Qed.

Lemma configParts_inj c1 b1 l1 c2 b2 l2 :
  configParts c1 b1 l1 = configParts c2 b2 l2 →
  c1 = c2 ∧ merge_sort bindingLe b1 = merge_sort bindingLe b2 ∧ merge_sort literalLe l1 = merge_sort literalLe l2.
Proof.
  unfold configParts. intros H. simpl in H. injection H as E1 E2 E3 E4 E5 E6 E7 E8 E9 E10 E11 E12 H.
  repeat match goal with H : FormatInt _ = FormatInt _ |- _ => apply (inj FormatInt) in H end.
  apply triples_inj in H as [-> H]; [|intros [] []; simpl; by intros -> -> ->|lia].
  injection H as E13 H. apply (inj FormatInt) in E13. 
  rewrite <-(app_nil_r (mjoin _)), <-(app_nil_r (mjoin (_ <$> merge_sort literalLe l2))) in H.
  apply triples_inj in H as [-> _]; [|intros [] []; simpl; by intros -> -> ->|lia].
  split_and!; try done. destruct c1, c2. simpl in *. by subst.
Qed.

(** the configuration digest determines what was frozen: two
    configurations with the same digest have the same execution parameters
    and the same secret versions and literals up to order, unless their
    encodings are a SHA-256 collision. *)
Theorem config_digest_binds c1 b1 l1 c2 b2 l2 :
  computeConfigDigest c1 b1 l1 = computeConfigDigest c2 b2 l2 →
  (c1 = c2 ∧ b1 ≡ₚ b2 ∧ l1 ≡ₚ l2) ∨
  (lengthPrefixed (configParts c1 b1 l1) ≠ lengthPrefixed (configParts c2 b2 l2) ∧
   Sum256 (lengthPrefixed (configParts c1 b1 l1)) = Sum256 (lengthPrefixed (configParts c2 b2 l2))).
Proof.
  intros H. destruct (decide (lengthPrefixed (configParts c1 b1 l1) = lengthPrefixed (configParts c2 b2 l2))) as [E|E];
    [left|by right]. apply lengthPrefixed_inj, configParts_inj in E as (->&Hb&Hl). split_and!; [done|..].
  - by rewrite <-(merge_sort_Permutation bindingLe b1), Hb, merge_sort_Permutation.
  - by rewrite <-(merge_sort_Permutation literalLe l1), Hl, merge_sort_Permutation.
Qed.

(** Whether the digest is insensitive to the order of the bindings given. *)
Lemma config_digest_binds_witness :
  let x := {| fb_variable := "A"; fb_scope := "runtime"; fb_version := "1" |} in
  let y := {| fb_variable := "B"; fb_scope := "runtime"; fb_version := "2" |} in
  computeConfigDigest exampleConfig [x; y] [] = computeConfigDigest exampleConfig [y; x] [] ∧
  ((exampleConfig = exampleConfig ∧ [x; y] ≡ₚ [y; x] ∧ [] ≡ₚ ([] : list frozenLiteral)) ∨
   lengthPrefixed (configParts exampleConfig [x; y] []) ≠ lengthPrefixed (configParts exampleConfig [y; x] [])).
Proof.
  intros x y.
  assert (computeConfigDigest exampleConfig [x; y] [] = computeConfigDigest exampleConfig [y; x] []) as E
    by (unfold computeConfigDigest; f_equal).
  split; [exact E|]. destruct (config_digest_binds _ _ _ _ _ _ E) as [H|[H _]]; [left; exact H|right; exact H].
Defined.
