(* ===== verification/CallsKeep.v ===== *)
(** * What every lease call keeps

    A relation on databases that the statements of the lease repository keep
    is kept by its calls.  [KeptWhileLeased] asks this of the statements every
    call is made of, [KeptByStatements] also of the job updates of a claim and
    a cancellation, [KeptByClaims] and [KeptByPush] of the statements that only
    a claim or an enqueued push runs; the lemmas of this file then hold for
    any instance, so that a frame property of the whole repository costs one
    lemma per statement. *)
From S2P Require Import Prelude GoStd Deployment Queue Route Schema Evidence DeploymentStore LeaseCore Lease LeaseInv LeaseSteps LeaseSpec Activation Resolution ActivationSteps Enqueue LeaseSystem.
From stdpp Require Import relations.
#[local] Open Scope Z_scope.

(** Apart from claims and cancellations every update of a job is one of a
    leased job. *)
Class KeptWhileLeased (R : DB → DB → Prop) : Prop := {
  ks_preorder :: PreOrder R;
  ks_update_leased i f : tx_rel R (update_job i isLeased f);
  ks_update_attempt a w f : tx_rel R (update_attempt a w f);
  ks_update_slot e w f : tx_rel R (update_slot e w f);
  ks_update_op k w f : tx_rel R (update_op k w f);
  ks_update_head e w f : (∀ h, h_hostname (f h) = h_hostname h) → tx_rel R (update_head e w f);
  ks_insert_op o : tx_rel R (insert_op o);
  ks_servers x y d : R d (set_servers x y d);
  ks_slots x d : R d (set_slots x d);
  ks_deployments x d : R d (set_deployments x d);
  ks_releases x d : R d (set_releases x d);
  ks_logs x y z d : R d (set_logs x y z d);
}.
Class KeptByStatements (R : DB → DB → Prop) : Prop := {
  ks_while_leased :: KeptWhileLeased R;
  ks_update_job i w f : tx_rel R (update_job i w f);
}.
Class KeptByClaims (R : DB → DB → Prop) : Prop := {
  kc_insert_attempt r : tx_rel R (insert_attempt r);
  kc_frozen x y z d : R d (set_frozen x y z d);
}.
Class KeptByPush (R : DB → DB → Prop) : Prop := { kp_insert_job i kt row : tx_rel R (insert_job i kt row) }.

Section keep.
Context (R : DB → DB → Prop) `{!KeptWhileLeased R}.

#[local] Hint Resolve ks_update_leased ks_update_attempt ks_update_slot ks_update_op ks_insert_op : txrel.
#[local] Hint Extern 1 (tx_rel R (update_head _ _ _)) => apply ks_update_head; intros; reflexivity : txrel.

(** ** Statements *)

Lemma keep_update_release e w f : tx_rel R (update_release e w f).
Proof using Type*.
  intros d u d' [(_&->&_)|(r&_&_&_&_&_&->)]%update_release_inv; [done|apply ks_releases].
Qed.
Lemma keep_transition id target now : tx_rel R (transitionDeployment id target now).
Proof using Type*. apply (rel_transition _). intros. apply ks_deployments. Qed.
Lemma keep_append i a t : tx_rel R (appendAgentJobEvent i a t).
Proof using Type*. intros d u d' ->%appendAgentJobEvent_inv. apply ks_logs. Qed.
Lemma keep_audit a b c : tx_rel R (insertServerAuditEvent a b c).
Proof using Type*. apply tx_rel_write. intros d. apply ks_logs. Qed.
Lemma keep_routeEvent a b c : tx_rel R (insertRouteEvent a b c).
Proof using Type*. apply tx_rel_write. intros d. apply ks_logs. Qed.
Lemma keep_lockServer srv dg : tx_rel R (lockActiveServerCredential srv dg).
Proof using Type*. by intros d u d' [_ ->]%lockActiveServerCredential_inv. Qed.
Lemma keep_lockAdministrator p now : tx_rel R (lockAdministratorSession p now).
Proof using Type*. by intros d u d' [_ ->]%lockAdministratorSession_inv. Qed.
Lemma keep_lockLease srv dg a : tx_rel R (lockLeaseRows srv dg a).
Proof using Type*. intros d [[s j] r] d' H. by apply lockLeaseRows_inv in H as (->&_). Qed.
Lemma keep_reauthorize srv dg a fence now : tx_rel R (reauthorize srv dg a fence now).
Proof using Type*. intros d [j r] d' H. by apply reauthorize_inv in H as (->&_). Qed.
Lemma keep_commit {A} (m : Tx DB Err A) : tx_rel R m → tx_rel R (commitTx m).
Proof using Type*. intros Hm d x d' [H _]%commitTx_inv. by eapply Hm. Qed.
Lemma keep_execute m : tx_rel R m → tx_rel R (execute m).
Proof using Type*. intros Hm d u d' [b H]%execute_inv. by eapply Hm. Qed.
#[local] Hint Resolve keep_update_release keep_transition keep_append keep_audit keep_routeEvent keep_lockServer
  keep_lockAdministrator keep_lockLease keep_reauthorize keep_commit : txrel.

(** ** Shared pieces *)

Lemma keep_block i a k e sm now : tx_rel R (blockActivationForReconciliation i a k e sm now).
Proof using Type*. unfold blockActivationForReconciliation. tx_rel. Qed.
#[local] Hint Resolve keep_block : txrel.
Lemma keep_close i a e n dep cancel now draw : tx_rel R (closeExpiredOrRevokedAttempt i a e n dep cancel now draw).
Proof using Type*. unfold closeExpiredOrRevokedAttempt, divertUnresolvedActivation, closeAttemptOrdinary. tx_rel. Qed.
Lemma keep_finalize i : tx_rel R (finalizeActivationSucceeded i).
Proof using Type*. unfold finalizeActivationSucceeded, finalizeReleases, finalizeHead, finalizeLease. tx_rel. Qed.
Lemma keep_late i a k sm rep : tx_rel R (writeLateEvidence i a k sm rep).
Proof using Type*. unfold writeLateEvidence. tx_rel. Qed.
#[local] Hint Resolve keep_close keep_finalize keep_late : txrel.
Lemma keep_recordBlock srv a fence k ev rep now : tx_rel R (recordBlockTx srv a fence k ev rep now).
Proof using Type*. unfold recordBlockTx. tx_rel. Qed.
#[local] Hint Resolve keep_recordBlock : txrel.
Lemma keep_expireOne lk a now draw : tx_rel R (expireOneTx lk a now draw).
Proof using Type*.
  intros d x d' H. unfold expireOneTx in H. repeat (case_match; simplify_eq; try done).
  apply tx_bind_inv in H as (b&d1&Hc%keep_close&[_ ->]%tx_ret_inv). done.
Qed.
Lemma keep_resolveDeclared r now : tx_rel R (dr_clearPlain r) → tx_rel R (dr_audit r) → tx_rel R (resolveDeclared r now).
Proof using Type*. intros Hc Ha. unfold resolveDeclared, refuse, resolveWrites, resolveNotActivated. tx_rel. Qed.
Lemma keep_clearPlain p e i a reason now : tx_rel R (clearPlainReconciliation p e i a reason now).
Proof using Type*. unfold clearPlainReconciliation. tx_rel. Qed.
Lemma keep_confirm p e outcome : tx_rel R (confirmResolvedOutcome p e outcome).
Proof using Type*. unfold confirmResolvedOutcome, refuse. tx_rel. Qed.
Lemma keep_revokeServer p srv reason now draw : tx_rel R (revokeServerTx p srv reason now draw).
Proof using Type*.
  unfold revokeServerTx, revokeInFlightLeases.
  assert (∀ cs, tx_rel R (revokeLoop now draw cs)) as Hl by (induction cs as [|c cs IH]; simpl; unfold revokeOne; tx_rel).
  tx_rel. apply tx_rel_write. intros d. apply ks_servers.
Qed.
Lemma keep_activate srv dg a f img now : tx_rel R (activateTx srv dg a f img now).
Proof using Type*.
  unfold activateTx, activateReplay, activateFresh, readyCandidate.
  assert (∀ o, tx_rel R (λ d, match insert_op o d with
    | inl (ErrPg PgUniqueViolation) => inl ErrAgentLeaseActivationEnvironmentBlocked | r => r end)) as Hi.
  { intros o d u d' H. apply (ks_insert_op o d u d'). by repeat case_match. }
  tx_rel.
Qed.
Lemma keep_resolveActivation p e out reason now : tx_rel R (resolveActivationTx p e out reason now).
Proof using Type*.
  unfold resolveActivationTx. tx_rel; try apply keep_confirm. apply keep_resolveDeclared; simpl; [apply keep_clearPlain|tx_rel].
Qed.
Lemma keep_reconcileActivation srv dg e a f out od now : tx_rel R (reconcileActivationTx srv dg e a f out od now).
Proof using Type*. unfold reconcileActivationTx, refuse. tx_rel; apply keep_resolveDeclared; simpl; tx_rel. Qed.

(** ** Pushes *)

Lemma keep_push `{!KeptByPush R} i kt t p now : tx_rel R (processPushTx i kt t p now).
Proof using Type*.
  assert (∀ A (m : Tx DB Err A), tx_rel R m → tx_rel R (onUnique m)) as Hu.
  { intros A m Hm d x d' H%onUnique_inv. by apply Hm in H. }
  assert (∀ row, tx_rel R (insert_job i kt row)) as Hi by apply kp_insert_job.
  assert (∀ v, tx_rel R (createTx v)) as Hc by (intros v; apply (rel_create _); intros; apply ks_deployments).
  assert (tx_rel R (insert_enqueued i)) as He.
  { intros d x d'. unfold insert_enqueued. case_match; [done|]. intros [= _ <-]. apply ks_logs. }
  unfold processPushTx, enqueueNewIntent. tx_rel.
Qed.

(** ** Reports, whose transaction may commit on an error *)

Section report.
Context (errorText : Err → string).

Lemma keep_aborted srv a fence k prefix cause rep now d :
  R d (blockAfterAbortedTransaction errorText srv a fence k prefix cause rep now d).2.
Proof using Type*.
  unfold blockAfterAbortedTransaction, recordBlockInFreshTransaction.
  destruct (recordBlockTx _ _ _ _ _ _ _ d) as [|[o d']] eqn:E; simpl; [done|]. apply keep_recordBlock in E. by destruct o.
Qed.

Lemma keep_reportOpen srv j r a fence k o rep now d : R d (reportOpen errorText srv j r a fence k o rep now d).2.
Proof using Type*.
  unfold reportOpen, refuseAmbiguous. repeat case_match; simplify_eq; try done; try (by eapply keep_block);
    try (by eapply keep_finalize); try apply keep_aborted.
  all: unfold blockAfterFinalizeFailure; repeat case_match; try done; by eapply keep_block.
Qed.

Lemma keep_report srv dg a fence op ok od sm now d :
  R d (ReportActivationResult errorText srv dg a fence op ok od sm now d).2.
Proof using Type*.
  unfold ReportActivationResult.
  assert (R d (reportActivationResult errorText srv dg a fence op ok od sm now d).2.2) as H.
  { unfold reportActivationResult, recordLateReport, traceDeclaredContradiction.
    repeat case_match; simpl in *; simplify_eq; try done; try (by eapply keep_late); try (by eapply keep_append);
      try apply keep_reportOpen; apply ks_logs. }
  destruct (reportActivationResult _ _ _ _ _ _ _ _ _ _ _) as [oc [res d']]. simpl in H. by destruct oc.
Qed.
End report.

(** ** Every call *)

Lemma keep_tx {A} (m : Tx DB Err A) d : tx_rel R m → R d (run_tx m d).2.
Proof using Type*. intros Hm. unfold run_tx. destruct (m d) as [|[x d']] eqn:E; simpl; [done|by eapply Hm]. Qed.

Definition isPush (c : Call) : bool := match c with CallPush _ _ _ _ _ => true | _ => false end.
Definition isClaim (c : Call) : bool := match c with CallClaim _ _ _ _ _ _ => true | _ => false end.
Definition isCancel (c : Call) : bool := match c with CallCancel _ _ _ => true | _ => false end.

#[local] Hint Resolve keep_expireOne keep_clearPlain keep_revokeServer keep_activate keep_resolveActivation
  keep_reconcileActivation : txrel.

Lemma leased_keeps errorText c d : isPush c = false → isClaim c = false → isCancel c = false → R d (exec errorText c d).
Proof using Type*.
  destruct c; simpl; intros Hp Hc Hx; try done; try apply keep_report; try (apply keep_tx; auto with txrel; fail); try apply keep_tx.
  - apply ks_slots.
  - unfold renewTx. tx_rel.
  - unfold completeTx, completeWrites. tx_rel.
  - unfold acknowledgeCancellationTx, acknowledgeWrites. tx_rel.
  - unfold reconcileTx. tx_rel.
  - unfold markReconciledTx. tx_rel.
  - unfold reportProgressTx. tx_rel.
Qed.

Lemma push_keeps `{!KeptByPush R} errorText c d : isPush c = true → R d (exec errorText c d).
Proof using Type*. destruct c; simpl; intros; try done. apply keep_tx, keep_push. Qed.
End keep.

(** ** Claims and cancellations *)

Section any_job.
Context (R : DB → DB → Prop) `{!KeptByStatements R}.
#[local] Hint Resolve ks_update_job ks_update_attempt ks_update_slot keep_update_release keep_transition keep_append
  keep_lockServer keep_lockAdministrator : txrel.

Lemma keep_tryClaim `{!KeptByClaims R} lk srv i e now : tx_rel R (tryClaim lk srv i e now).
Proof using Type*.
  intros d x d' H. unfold tryClaim in H. destruct (claimChecks _ _ _ _ _ _) as [|[[[[[job prev] cfg] bs] ls]|]]; [done| |by simplify_eq].
  revert d x d' H. change (tx_rel R (tx_bind (claimWrites srv i e job prev cfg bs ls now) (λ l, tx_ret (Some l)))).
  assert (∀ w f, tx_rel R (λ d, match update_job i w f d with
    | inl (ErrPg PgCheckViolation) => inl (ErrPg PgInFailedTransaction) | r => r end)) as Hu.
  { intros w f d u d' H. apply (ks_update_job i w f d u d'). by repeat case_match. }
  assert (∀ r, tx_rel R (insert_attempt r)) as Hins by apply kc_insert_attempt.
  assert (∀ a c, tx_rel R (insertAttemptExecution a c)) as Hx.
  { intros a c d u d'. unfold insertAttemptExecution. case_match; intros [=]; subst. apply kc_frozen. }
  assert (∀ x y z, tx_rel (E := Err) R (tx_write (λ d, set_frozen (x d) (y d) (z d) d))) as Hf.
  { intros x y z. apply tx_rel_write. intros d. apply kc_frozen. }
  assert (∀ a c, tx_rel R (insertFrozenSecretVersions a c)) as Hs by (intros; apply (Hf _ _ _)).
  assert (∀ a c, tx_rel R (insertFrozenLiteralValues a c)) as Hl by (intros; apply (Hf _ _ _)).
  assert (∀ x, tx_rel (E := Err) R (tx_write (λ d, set_releases (x d) d))) as Hr.
  { intros x. apply tx_rel_write. intros d. apply ks_releases. }
  unfold claimWrites, freezeAttempt, copyPreviousAttemptExecution, copyPreviousFrozenSecretVersions,
    copyPreviousFrozenLiteralValues, ensureRelease.
  tx_rel; apply (Hr _).
Qed.
#[local] Hint Resolve keep_tryClaim : txrel.
Lemma keep_claim `{!KeptByClaims R} lk srv dg limit now cs : tx_rel R (claimTx lk srv dg limit now cs).
Proof using Type*.
  unfold claimTx. apply tx_rel_bind; [apply _|apply (keep_lockServer R)|]. intros _. generalize (@nil ClaimedLease).
  induction cs as [|c cs IH]; intros claimed; simpl; tx_rel.
Qed.

Lemma exec_keeps errorText c d : isPush c = false → isClaim c = false → R d (exec errorText c d).
Proof using Type*.
  intros Hp Hc. destruct (isCancel c) eqn:Hx; [|by apply (leased_keeps R)]. destruct c; try done. simpl. apply (keep_tx R).
  unfold requestCancellationTx. tx_rel.
Qed.
Lemma claim_keeps `{!KeptByClaims R} errorText c d : isClaim c = true → R d (exec errorText c d).
Proof using Type*. destruct c; simpl; intros; try done. apply (keep_tx R), keep_claim. Qed.
End any_job.
