(* ===== verification/EndProps.v ===== *)
(** * How a lease ends: expiry, revocation, and cancelled retries *)
From S2P Require Import Prelude GoStd Deployment Queue Route Schema Evidence DeploymentStore LeaseCore Lease LeaseInv LeaseSteps LeaseSpec Activation Resolution ActivationSteps Enqueue LeaseSystem CallsKeep Scenario OperationProps.
From stdpp Require Import relations sorting.
#[local] Open Scope Z_scope.

(** ** Expiry *)

(** Expiry: an attempt is closed by the sweeper only when its authority has
    run out and no activation of it is open.  The environment is fenced off
    (the fence advances) and blocked for the expired attempt; the attempt ends
    expired, or cancelled when cancellation was requested, and the job retries,
    dies at its fifth attempt, or is cancelled.  A pass that closes nothing
    changes nothing, except that it turns an open traffic switch of an expired
    attempt into a reconciliation block. *)
Theorem expire_spec errorText d lk a now draw ok d' :
  reachable errorText d → run_tx (expireOneTx lk a now draw) d = (inr ok, d') →
  (ok = false ∧ (d' = d ∨ ∃ r k, db_attempts d !! a = Some r ∧ a_authority_expires r ≤ now ∧ blocks d d' a k (a_env r))) ∨
  (ok = true ∧ ∃ r r' j j' f, db_attempts d !! a = Some r ∧ a_state r = AttemptLeased ∧ a_authority_expires r ≤ now ∧
     no_unresolved a d ∧ db_jobs d !! a_job r = Some j ∧
     lease_at d (a_env r) = {| l_fence := f; l_holder := Some a; l_blocked := None |} ∧
     lease_at d' (a_env r) = {| l_fence := f + 1; l_holder := None; l_blocked := Some a |} ∧
     db_attempts d' = <[a := r']> (db_attempts d) ∧ db_jobs d' = <[a_job r := j']> (db_jobs d) ∧
     if j_cancel_requested_at j is Some _ then a_state r' = AttemptCancelled ∧ j_state j' = JobCancelled
     else a_state r' = AttemptExpired ∧ j_state j' = if 5 <=? a_number r then JobDead else JobRetryWait).
Proof.
  intros [Hinv Hb]%reachable_sys H. unfold run_tx in H.
  destruct (expireOneTx lk a now draw d) as [|[x e]] eqn:E; [done|]. injection H as -> ->. rename E into H.
  unfold expireOneTx, skipLocked in H.
  destruct (db_attempts d !! a) as [r|] eqn:Hr; [|injection H as <- <-; auto].
  destruct (lk_slot lk (a_env r)); [injection H as <- <-; auto|].
  destruct (db_slots d !! a_env r) as [s|] eqn:Hs; [|injection H as <- <-; auto].
  destruct (negb (occupiedBy a s)); [injection H as <- <-; auto|].
  destruct (lk_job lk (a_job r)); [injection H as <- <-; auto|].
  destruct (db_jobs d !! a_job r) as [j|] eqn:Hj; [|injection H as <- <-; auto].
  destruct (negb (isLeased j)); [injection H as <- <-; auto|]. destruct (lk_attempt lk a); [injection H as <- <-; auto|].
  destruct (negb _ || _) eqn:Eg; [injection H as <- <-; auto|]. bool_hyps.
  apply tx_bind_inv in H as (b&d1&Hcl&H). apply tx_ret_inv in H as [<- ->].
  unfold closeExpiredOrRevokedAttempt in Hcl. apply tx_bind_inv in Hcl as (v&d2&Hdv&Hcl).
  apply (divert_inv d a r) in Hdv as [(->&->&Hno)|(->&k&o&Ho&Ha&Hu&Hd)]; [| |done..].
  - apply tx_bind_inv in Hcl as (v&d2&Hco&Hcl). apply tx_ret_inv in Hcl as [<- ->].
    apply (closeAttemptOrdinary_closes d a r j) in Hco as (r'&s1&s'&j'&Hc&Hf&Hra&Hst&Hjs); [|done..].
    right. split; [done|]. exists r, r', j, j', (s_fence s1).
    pose proof (cls_s _ _ _ _ _ _ _ _ _ Hc) as Hs1. pose proof (cls_sc _ _ _ _ _ _ _ _ _ Hc) as Hsc.
    rewrite (lease_at_Some d _ s1 Hs1), (lease_at_Some d2 (a_env r) s')
      by (by rewrite (cls_slots _ _ _ _ _ _ _ _ _ Hc), lookup_insert_eq).
    destruct (cls_s' _ _ _ _ _ _ _ _ _ Hc) as (_&Hsc'&_). unfold lease_of. rewrite Hsc, Hsc', Hf, Hra.
    destruct (held_blocked d _ s1 a Hinv Hb Hs1 Hsc) as [Hn|(_&k&o&Ho&Hu&Ha)]; [|by destruct (Hno k o)].
    rewrite Hn. split_and!; try done; [apply Hc|apply Hc|]. by destruct (j_cancel_requested_at j).
  - apply tx_ret_inv in Hcl as [<- ->]. left. split; [done|]. destruct Hd as [[_ ->]|Hblk]; [by left|right]. by exists r, k.
Qed.

Lemma expire_spec_witness :
  ∃ d', run_tx (expireOneTx nothingLocked 1 (at_second 200) 0) db_leased = (inr true, d') ∧
    ∃ r f, db_attempts db_leased !! 1 = Some r ∧
      lease_at d' (a_env r) = {| l_fence := f + 1; l_holder := None; l_blocked := Some 1 |}.
Proof.
  assert (match (run_tx (expireOneTx nothingLocked 1 (at_second 200) 0) db_leased).1 with inr b => b | _ => false end = true)
    as Hok by (vm_compute; reflexivity).
  destruct (run_tx (expireOneTx nothingLocked 1 (at_second 200) 0) db_leased) as [[e|ok] d'] eqn:E; [discriminate|].
  simpl in Hok. subst ok. exists d'. split; [reflexivity|].
  destruct (expire_spec noErrorText db_leased nothingLocked 1 (at_second 200) 0 true d' db_leased_reachable E)
    as [[? _]|(_&r&r'&j&j'&f&Hr&_&_&_&_&_&Hl&_)]; [discriminate|]. exists r, f. split; [exact Hr|exact Hl].
Defined.

(** ** Revocation *)

(** What the sweep may do to attempts and blocked activations. *)
Definition sweeps (d d' : DB) : Prop :=
  (∀ b q, db_attempts d' !! b = Some q → a_state q = AttemptLeased → db_attempts d !! b = Some q) ∧
  (∀ k o, db_ops d !! k = Some o → o_state o = OpReconciliationRequired →
     ∃ o', db_ops d' !! k = Some o' ∧ o_state o' = OpReconciliationRequired ∧ o_attempt o' = o_attempt o).

#[global] Instance sweeps_preorder : PreOrder sweeps.
Proof.
  split.
  - intros d. split; eauto.
  - intros d1 d2 d3 [H1 H2] [H3 H4]. split; [eauto|]. intros k o Ho Hst. destruct (H2 k o Ho Hst) as (o2&Ho2&Hst2&<-). eauto.
Qed.

Lemma closes_sweeps d d' a r r' s s' j j' :
  lease_inv d → no_unresolved a d → closes d d' a r r' s s' j j' → sweeps d d'.
Proof.
  intros Hinv Hno Hc. destruct (cls_r' _ _ _ _ _ _ _ _ _ Hc) as (_&Hnl&_). split.
  - intros b q. rewrite (cls_attempts _ _ _ _ _ _ _ _ _ Hc). by intros [[<- <-]|[_ Hq]]%lookup_insert_Some.
  - intros k o Ho Hst. exists o. split_and!; [|done..]. apply (cls_ops_kept _ _ _ _ _ _ _ _ _ Hc); [done|].
    intros Ha. by destruct (Hno k o Ho Ha); apply recon_unresolved.
Qed.

Lemma blocks_sweeps d d' a k e : blocks d d' a k e → sweeps d d'.
Proof.
  intros [(o&sm&now&Ho&Host&Eo&_) _ _ (Ea&_)]. split; [intros b q; by rewrite Ea|].
  intros k' p Hp Hst. rewrite Eo, lookup_insert_ne by congruence. eauto.
Qed.

(** The attempt is not leased, or its activation blocks the environment. *)
Definition settled (a : Z) (d : DB) : Prop :=
  (∀ r, db_attempts d !! a = Some r → a_state r ≠ AttemptLeased) ∨
  ∃ k o, db_ops d !! k = Some o ∧ o_attempt o = a ∧ o_state o = OpReconciliationRequired.

Lemma settled_sweeps a d d' : sweeps d d' → settled a d → settled a d'.
Proof.
  intros [H1 H2] [Hn|(k&o&Ho&Ha&Hst)].
  - left. intros r Hr Hl. by eapply (Hn r (H1 a r Hr Hl)).
  - right. destruct (H2 k o Ho Hst) as (o'&?&?&?). exists k, o'. split_and!; congruence || done.
Qed.

(** No activation row is ever in the [started] state. *)
Definition no_started (d : DB) : Prop := ∀ k o, db_ops d !! k = Some o → o_state o ≠ OpStarted.

Lemma op_started o : op_check o = true → unresolved o → o_state o = OpStarted ∨ o_state o = OpSwitchAuthorized ∨ o_state o = OpReconciliationRequired.
Proof. unfold unresolved. destruct (o_state o); simpl; intros; auto; discriminate. Qed.

Lemma revokeOne_settles now draw c d u d' :
  lease_inv d → candidate_ok d c → no_started d → revokeOne now draw c d = inr (u, d') → sweeps d d' ∧ settled c.1 d' ∧ no_started d'.
Proof.
  intros Hinv Hok Hns H. unfold revokeOne in H. apply tx_bind_inv in H as (s&d0&[Hs ->]%tx_some_inv&H).
  assert (∀ (Hn : ∀ r, db_attempts d !! c.1 = Some r → a_state r = AttemptLeased → False) d', d' = d →
    sweeps d d' ∧ settled c.1 d' ∧ no_started d') as Hskip by (intros Hn ? ->; split_and!; [done|by left|done]).
  assert (∀ r, db_attempts d !! c.1 = Some r → a_state r = AttemptLeased →
    s_current s = Some c.1 ∧ ∃ j, db_jobs d !! a_job c.2 = Some j ∧ j_state j = JobLeased) as Hocc.
  { intros r Hr Hl. destruct (Hok r Hr) as [Ej Ee]. destruct (inv_leased d Hinv _ r Hr Hl) as (s0&j0&Hs0&Hc0&Hj0&Hjl&_).
    rewrite Ej in Hj0. rewrite Ee in Hs0. split; [congruence|eauto]. }
  destruct (negb (occupiedBy c.1 s)) eqn:Eo.
  { apply tx_ret_inv in H as [_ ->]. apply Hskip; [|done]. intros r Hr Hl. destruct (Hocc r Hr Hl) as [Hc _].
    unfold occupiedBy in Eo. bool_hyps. done. }
  apply tx_bind_inv in H as (j&d0&[Hj ->]%tx_some_inv&H). destruct (negb (isLeased j)) eqn:El.
  { apply tx_ret_inv in H as [_ ->]. apply Hskip; [|done]. intros r Hr Hl. destruct (Hocc r Hr Hl) as (_&j0&Hj0&Hjl).
    unfold isLeased in El. bool_hyps. congruence. }
  apply tx_bind_inv in H as (r&d0&[Hr ->]%tx_some_inv&H). case_bool_decide as Hl; simpl in H.
  2: { apply tx_ret_inv in H as [_ ->]. apply Hskip; [|done]. intros r0 Hr0 Hl0. congruence. }
  apply tx_bind_inv in H as (b&d1&Hcl&H). apply tx_ret_inv in H as [_ ->]. destruct (Hok r Hr) as [Ej Ee].
  rewrite <-Ej, <-Ee in *. unfold closeExpiredOrRevokedAttempt in Hcl. apply tx_bind_inv in Hcl as (v&d2&Hdv&Hcl).
  apply (divert_inv d c.1 r) in Hdv as [(->&->&Hno)|(->&k&o&Ho&Ha&Hu&Hd)]; [| |done..].
  - apply tx_bind_inv in Hcl as (v&d2&Hco&Hcl). apply tx_ret_inv in Hcl as [_ ->].
    apply (closeAttemptOrdinary_closes d c.1 r j) in Hco as (r'&s1&s'&j'&Hc&_); [|done..].
    split_and!; [by eapply closes_sweeps|..].
    + left. intros q. rewrite (cls_attempts _ _ _ _ _ _ _ _ _ Hc), lookup_insert_eq. intros [= <-]. apply Hc.
    + intros k o Ho Hst. destruct (cls_ops _ _ _ _ _ _ _ _ _ Hc k o Ho) as (Hck&Hne&o0&Ho0&Hsame&Hun).
      assert (unresolved o) as Hu by (unfold unresolved; by rewrite Hst). specialize (Hne Hu). destruct Hsame as (_&_&E&_).
      pose proof (cls_ops_kept _ _ _ _ _ _ _ _ _ Hc k o0 Ho0 ltac:(congruence)) as Hk. apply (Hns k o0 Ho0). congruence.
  - apply tx_ret_inv in Hcl as [_ ->]. destruct Hd as [[Hst ->]|Hblk].
    + split_and!; [done| |done]. right. exists k, o. split_and!; try done.
      destruct (inv_op d Hinv k o Ho) as (_&Hck&_). destruct (op_started o Hck Hu) as [?|[?|?]]; [by destruct (Hns k o Ho)|done|done].
    + pose proof Hblk as Hs'. apply blocks_sweeps in Hs'. destruct (blk_op _ _ _ _ _ Hblk) as (o1&sm&nw&Ho1&_&Eops&_).
      split_and!; [done| |].
      * right. exists k. eexists. rewrite Eops, lookup_insert_eq. split; [done|]. simpl. split; [congruence|done].
      * intros k' p. rewrite Eops. intros [[<- <-]|[_ Hp]]%lookup_insert_Some; [done|by eapply Hns].
Qed.

Lemma revokeLoop_settles now draw cs d u d' :
  lease_inv d → Forall (candidate_ok d) cs → no_started d → revokeLoop now draw cs d = inr (u, d') →
  sweeps d d' ∧ ∀ c, c ∈ cs → settled c.1 d'.
Proof.
  revert d. induction cs as [|c cs IH]; intros d Hinv Hcs Hns H; simpl in H.
  { apply tx_ret_inv in H as [_ ->]. split; [done|]. by intros c ?%elem_of_nil. }
  apply Forall_cons in Hcs as [Hc Hcs]. apply tx_bind_inv in H as (?&d1&H1&H). pose proof H1 as H2.
  apply revokeOne_preserves in H2 as [Hinv1 Hst1]; [|done..].
  apply revokeOne_settles in H1 as (Hsw&Hset&Hns1); [|done..].
  apply IH in H as [Hsw' Hset']; [|done|eapply Forall_impl; [done|]; intros c'; by apply candidate_ok_stable|done].
  split; [by etrans|]. intros c' [->|Hin]%elem_of_cons; [by eapply settled_sweeps|by apply Hset'].
Qed.

Lemma auth_block i a k e sm now : tx_rel same_auth (blockActivationForReconciliation i a k e sm now).
Proof. unfold blockActivationForReconciliation. tx_rel. Qed.
#[local] Hint Resolve auth_block : txrel.

Lemma auth_close i a e n dep cancel now draw : tx_rel same_auth (closeExpiredOrRevokedAttempt i a e n dep cancel now draw).
Proof. unfold closeExpiredOrRevokedAttempt, divertUnresolvedActivation, closeAttemptOrdinary. tx_rel. Qed.
#[local] Hint Resolve auth_close : txrel.

Lemma auth_revokeLoop now draw cs : tx_rel same_auth (revokeLoop now draw cs).
Proof. induction cs as [|c cs IH]; simpl; unfold revokeOne; tx_rel. Qed.

(** Revocation: when RevokeServer has succeeded, no credential of the
    server is accepted any more, and none of its attempts is leased except
    those whose traffic switch is unresolved: these stay, and every one of
    them is blocked for reconciliation. *)
Theorem revoke_server_spec errorText d p srv reason now draw d' :
  reachable errorText d → RevokeServer p srv reason now draw d = (inr tt, d') →
  (∀ dg, credentialMatches srv dg d' = false) ∧
  ∀ a r, db_attempts d' !! a = Some r → a_server r = srv → a_state r = AttemptLeased →
    ∃ k o, db_ops d' !! k = Some o ∧ o_attempt o = a ∧ o_state o = OpReconciliationRequired ∧
           lease_at d' (a_env r) = {| l_fence := a_fence r; l_holder := Some a; l_blocked := Some a |}.
Proof.
  intros Hd H. pose proof (reachable_sys errorText d Hd) as [Hinv Hb].
  assert (sys_inv d') as [Hinv' Hb'].
  { apply (reachable_sys errorText). eapply reach_step; [exact Hd|]. pose proof (step_call errorText d (CallRevoke p srv reason now draw)) as Hs.
    simpl in Hs. by rewrite H in Hs. }
  unfold RevokeServer, run_tx in H. destruct (revokeServerTx p srv reason now draw d) as [|[x e]] eqn:E; [done|]. injection H as _ ->.
  unfold revokeServerTx in E. apply tx_bind_inv in E as (?&d0&[_ ->]%tx_guard_inv&E).
  apply tx_bind_inv in E as (?&d0&[_ ->]%lockAdministratorSession_inv&E). apply tx_bind_inv in E as (sv&d0&[_ ->]%tx_some_inv&E).
  apply tx_bind_inv in E as (?&d0&[_ ->]%tx_guard_inv&E). apply tx_bind_inv in E as (?&d0&->%tx_write_inv&E).
  apply tx_bind_inv in E as (?&d2&E2&E). unfold insertServerAuditEvent in E. apply tx_write_inv in E as ->.
  unfold revokeInFlightLeases in E2. apply tx_bind_inv in E2 as (cs&d1&[<- ->]%tx_read_inv&E2).
  match type of E2 with revokeLoop _ _ _ ?e = _ => set (d1 := e) in * end. split.
  - intros dg. apply auth_revokeLoop in E2 as [Es _]. unfold credentialMatches. simpl. rewrite Es. simpl.
    rewrite lookup_insert_eq. reflexivity.
  - intros a r Hr Hsv Hl. simpl in Hr.
    apply revokeLoop_settles in E2 as [[Hback _] Hset]; cycle 1.
    { eapply lease_frame_inv; [|exact Hinv]. by unfold lease_frame. }
    { apply Forall_forall. intros [b q] [Hq _]%inFlight_elem q' Hq'. simpl in *. by simplify_eq. }
    { exact (bi_started d Hb). }
    destruct (Hset (a, r)) as [Hn|(k&o&Ho&Ha&Hst)].
    { unfold inFlight. rewrite merge_sort_Permutation, list_elem_of_filter, elem_of_map_to_list. split; [done|]. by apply Hback. }
    { by destruct (Hn r Hr). }
    simpl in Ha. exists k, o. split_and!; try done. destruct (bi_flagged _ Hb' k o Ho Hst) as (s&Hs&Hra).
    destruct (inv_op _ Hinv' k o Ho) as (_&_&q&Hq&Hqe&Hqf&_). simpl in Hq.
    assert (q = r) as -> by congruence. rewrite Hqe, (lease_at_Some _ _ s Hs). unfold lease_of.
    pose proof (unresolved_occupant _ k o _ s Hinv' Ho (recon_unresolved o Hst) eq_refl Hs) as Hc.
    destruct (inv_occupant _ Hinv' _ s _ Hs Hc) as (q'&Hq'&_&_&Hf). simpl in Hq'. f_equal; congruence.
Qed.

Lemma revoke_server_spec_witness :
  ∃ d', RevokeServer admin "server" "lost" (at_second 11) 0 db_switching = (inr tt, d') ∧ credentialMatches "server" "digest" d' = false.
Proof.
  assert (match (RevokeServer admin "server" "lost" (at_second 11) 0 db_switching).1 with inr _ => true | _ => false end = true)
    as Hok by (vm_compute; reflexivity).
  destruct (RevokeServer admin "server" "lost" (at_second 11) 0 db_switching) as [[e|[]] d'] eqn:E; [discriminate|].
  exists d'. split; [reflexivity|].
  exact (proj1 (revoke_server_spec noErrorText db_switching admin "server" "lost" (at_second 11) 0 d' db_switching_reachable E) "digest").
Defined.

(** ** A cancelled job that retries *)

(** A recorded cancellation request is never withdrawn. *)
Definition keeps_request (d d' : DB) : Prop :=
  ∀ i j c, db_jobs d !! i = Some j → j_cancel_requested_at j = Some c →
    ∃ j', db_jobs d' !! i = Some j' ∧ j_cancel_requested_at j' = Some c.

#[global] Instance keeps_request_preorder : PreOrder keeps_request.
Proof.
  split; [intros d i j c; eauto|]. intros d1 d2 d3 H1 H2 i j c Hj Hc. destruct (H1 i j c Hj Hc) as (j2&?&?). eauto.
Qed.

Lemma same_jobs_request d d' : db_jobs d' = db_jobs d → keeps_request d d'.
Proof. intros E i j c. rewrite E. eauto. Qed.

(** The row trigger refuses to change the request. *)
Lemma trigger_keeps_request old new c :
  validate_agent_job_update old new = true → j_cancel_requested_at old = Some c → j_cancel_requested_at new = Some c.
Proof.
  intros Hv Hc. unfold validate_agent_job_update in Hv. bool_hyps. rewrite Hc in *. simpl in *. by bool_hyps.
Qed.

Lemma request_update_job i w f : tx_rel keeps_request (update_job i w f).
Proof.
  intros d b d' [(_&->&_)|(j&_&Hj&_&Hv&_&->)]%update_job_inv; [done|]. intros i' j' c Hj' Hc. simpl.
  destruct (decide (i' = i)) as [->|]; [|rewrite lookup_insert_ne by done; eauto]. rewrite lookup_insert_eq.
  assert (j' = j) as -> by congruence. eauto using trigger_keeps_request.
Qed.
Lemma request_update_attempt a w f : tx_rel keeps_request (update_attempt a w f).
Proof. by intros d u d' [(_&->&_)|(r&_&_&_&_&_&->)]%update_attempt_inv; [|apply same_jobs_request]. Qed.
Lemma request_update_slot e w f : tx_rel keeps_request (update_slot e w f).
Proof. by intros d u d' [(_&->&_)|(r&_&_&_&_&_&->)]%update_slot_inv; [|apply same_jobs_request]. Qed.
Lemma request_append i a t : tx_rel keeps_request (appendAgentJobEvent i a t).
Proof. by intros d u d' ->%appendAgentJobEvent_inv; apply same_jobs_request. Qed.
Lemma request_lockLease srv dg a : tx_rel keeps_request (lockLeaseRows srv dg a).
Proof. intros d [[s j] r] d' H. by apply lockLeaseRows_inv in H as (->&_). Qed.
Lemma request_transition id target now : tx_rel keeps_request (transitionDeployment id target now).
Proof. apply (rel_transition _). intros m d. by apply same_jobs_request. Qed.
#[local] Hint Resolve request_update_job request_update_attempt request_update_slot request_append request_lockLease
  request_transition : txrel.

Lemma request_complete srv dg a f outS fcS op rd now draw : tx_rel keeps_request (completeTx srv dg a f outS fcS op rd now draw).
Proof. unfold completeTx, completeWrites. tx_rel. Qed.

(** A job waiting for a retry with a recorded request is never leased again,
    and a new request is refused by the trigger. *)
Lemma requested_not_claimed lk srv i e now d l d' j c :
  db_jobs d !! i = Some j → j_cancel_requested_at j = Some c → tryClaim lk srv i e now d ≠ inr (Some l, d').
Proof.
  intros Hj Hc H. unfold tryClaim in H. destruct (claimChecks lk srv i e now d) as [|[[[[[job prev] cfg] bs] ls]|]] eqn:E; [done| |done].
  apply claimChecks_Some in E as (s&_&_&_&Hj'&_&_&_&_&Hn&_). congruence.
Qed.

Lemma requested_not_cancelled p i now d j c :
  db_jobs d !! i = Some j → j_state j = JobRetryWait → j_cancel_requested_at j = Some c → now ≠ c →
  ∃ e, RequestCancellation p i now d = (inl e, d).
Proof.
  intros Hj Hst Hc Hne. apply run_refused. intros x d' H. unfold requestCancellationTx in H.
  apply tx_bind_inv in H as (?&d0&[_ ->]%tx_guard_inv&H). apply tx_bind_inv in H as (?&d0&[_ ->]%lockAdministratorSession_inv&H).
  apply tx_bind_inv in H as (j0&d0&[Hj0 ->]%tx_some_inv&H). assert (j0 = j) as -> by congruence.
  apply tx_bind_inv in H as (?&d0&[_ ->]%tx_guard_inv&H). rewrite Hst in H.
  apply tx_bind_inv in H as (?&d1&H1&_). apply (execute_job _ _ _ _ _ _ j) in H1 as (Hv&_); [|done..].
  apply (trigger_keeps_request _ _ c) in Hv; [|done]. simpl in Hv. congruence.
Qed.

(** Calls that do not concern it leave a waiting job with a recorded request
    alone: every other update is one of a leased job. *)
Definition wait_kept (i c : Z) (d d' : DB) : Prop :=
  ∀ j, db_jobs d !! i = Some j → j_state j = JobRetryWait → j_cancel_requested_at j = Some c → db_jobs d' !! i = Some j.
#[global] Instance wait_kept_preorder i c : PreOrder (wait_kept i c).
Proof. split; [by intros d j|]. intros d1 d2 d3 H1 H2 j Hj Hs Hc. eauto. Qed.
Lemma same_jobs_wait i c d d' : db_jobs d' = db_jobs d → wait_kept i c d d'.
Proof. intros E j. by rewrite E. Qed.

#[local] Instance wait_kept_leased i c : KeptWhileLeased (wait_kept i c).
Proof.
  split; try (by intros; apply same_jobs_wait); try apply _.
  - intros k f d b d' [(_&->&_)|(x&_&Hx&Hl&_&_&->)]%update_job_inv; [done|]. intros j Hj Hs Hc. simpl.
    rewrite lookup_insert_ne; [done|]. intros ->. assert (x = j) as -> by congruence. unfold isLeased in Hl. bool_hyps. congruence.
  - intros a w f d u d' [(_&->&_)|(r&_&_&_&_&_&->)]%update_attempt_inv; by apply same_jobs_wait.
  - intros e w f d u d' [(_&->&_)|(r&_&_&_&_&_&->)]%update_slot_inv; by apply same_jobs_wait.
  - intros k w f d u d' [(_&->&_)|(r&_&_&_&_&_&->)]%update_op_inv; by apply same_jobs_wait.
  - intros e w f _ d u d' [(_&->&_)|(h&_&_&_&_&->)]%update_head_inv; by apply same_jobs_wait.
  - intros o d u d' (_&_&_&_&->)%insert_op_inv. by apply same_jobs_wait.
Qed.
#[local] Instance wait_kept_push i c : KeptByPush (wait_kept i c).
Proof.
  split. intros k kt row d u d'. unfold insert_job. destruct (_ || _ || _) eqn:E; [done|]. intros [= _ <-] j Hj _ _. bool_hyps. simpl.
  rewrite lookup_insert_ne; [done|]. intros ->. by rewrite Hj in *.
Qed.

Lemma wait_claim i c lk srv dg limit now cs d x d' :
  lease_inv d → claimTx lk srv dg limit now cs d = inr (x, d') → wait_kept i c d d'.
Proof.
  intros Hinv H. unfold claimTx in H. apply tx_bind_inv in H as (?&d0&[_ ->]%lockActiveServerCredential_inv&H).
  revert H. generalize (@nil ClaimedLease). revert d Hinv.
  induction cs as [|k cs IH]; intros d Hinv claimed H; simpl in H; [by tx_inv|]. destruct (limit <=? _); [by tx_inv|].
  apply tx_bind_inv in H as (r&d1&H1&H). assert (lease_inv d1) as Hinv1 by by eapply tryClaim_preserves.
  etrans; [|by eapply IH]. apply tryClaim_inv in H1 as [[_ ->]|(l&s&job&_&_&_&_&Hj&Hn&_&Ho&_)]; [done| |done].
  intros j Hj' _ Hc. rewrite (opn_jobs _ _ _ _ _ _ _ Ho), lookup_insert_ne; [done|]. simpl. congruence.
Qed.

(** A cancellation touches the row of no other job. *)
Definition others_kept (n : Z) (d d' : DB) : Prop := ∀ i, i ≠ n → db_jobs d' !! i = db_jobs d !! i.
#[global] Instance others_kept_preorder n : PreOrder (others_kept n).
Proof. split; [by intros d i|]. intros d1 d2 d3 H1 H2 i Hi. by rewrite (H2 i Hi), (H1 i Hi). Qed.
Lemma same_jobs_others n d d' : db_jobs d' = db_jobs d → others_kept n d d'.
Proof. intros E i _. by rewrite E. Qed.

Lemma others_update_job n w f : tx_rel (others_kept n) (update_job n w f).
Proof. intros d b d' [(_&->&_)|(j&_&_&_&_&_&->)]%update_job_inv; [done|]. intros i Hi. simpl. by rewrite lookup_insert_ne. Qed.
Lemma others_update_attempt n a w f : tx_rel (others_kept n) (update_attempt a w f).
Proof. by intros d u d' [(_&->&_)|(r&_&_&_&_&_&->)]%update_attempt_inv; [|apply same_jobs_others]. Qed.
Lemma others_transition n id target now : tx_rel (others_kept n) (transitionDeployment id target now).
Proof. apply (rel_transition _). intros m d. by apply same_jobs_others. Qed.
Lemma others_append n i a t : tx_rel (others_kept n) (appendAgentJobEvent i a t).
Proof. by intros d u d' ->%appendAgentJobEvent_inv; apply same_jobs_others. Qed.
Lemma others_lockAdministrator n p now : tx_rel (others_kept n) (lockAdministratorSession p now).
Proof. by intros d u d' [_ ->]%lockAdministratorSession_inv. Qed.
#[local] Hint Resolve others_update_job others_update_attempt others_transition others_append others_lockAdministrator : txrel.
Lemma others_cancel p n now : tx_rel (others_kept n) (requestCancellationTx p n now).
Proof. unfold requestCancellationTx. tx_rel. Qed.

(** A step other than a cancellation of this very job at this very instant. *)
Inductive later_step (errorText : Err → string) (i c : Z) (d : DB) : DB → Prop :=
  | later_call k : (∀ p, k ≠ CallCancel p i c) → later_step errorText i c d (exec errorText k d)
  | later_other d' : lease_frame d d' → later_step errorText i c d d'.

Lemma later_is_step errorText i c d d' : later_step errorText i c d d' → step errorText d d'.
Proof. destruct 1; by constructor. Qed.

Lemma later_wait errorText i c d d' : sys_inv d → later_step errorText i c d d' → wait_kept i c d d'.
Proof.
  intros [Hinv _] [k Hk|d2 (E&_)]; [|by apply same_jobs_wait].
  destruct (isPush k) eqn:Hp; [by apply (push_keeps (wait_kept i c))|]. destruct (isClaim k) eqn:Hc.
  { destruct k; try done. simpl. unfold run_tx. destruct (claimTx _ _ _ _ _ _ d) as [|[x d2]] eqn:E; simpl; [done|by eapply wait_claim]. }
  destruct (isCancel k) eqn:Hx; [|by apply (leased_keeps (wait_kept i c))]. destruct k as [| | | | |p n now| | | | | | | | | |]; try done.
  intros j Hj Hst Hcr. destruct (decide (n = i)) as [->|Hne].
  - destruct (requested_not_cancelled p i now d j c Hj Hst Hcr) as [e He]; [intros ->; by apply (Hk p)|]. simpl. by rewrite He.
  - simpl. unfold RequestCancellation, run_tx. destruct (requestCancellationTx p n now d) as [|[x d2]] eqn:E; simpl; [done|].
    apply others_cancel in E. by rewrite E by done.
Qed.

(** C39: a job whose cancellation was requested and whose running attempt, any
    but its fifth, then reports a transient failure is wedged: it waits for a
    retry with the request recorded, and in every later state, whatever calls
    are made and whatever other repositories write (a cancellation request at
    the very instant of the first excepted), the job's row is unchanged, no
    claim leases it, and no cancellation request at another instant cancels
    it. *)
Theorem cancelled_retry_wedged errorText d srv dg a f op rd now draw d' r j c :
  reachable errorText d → db_attempts d !! a = Some r → a_state r = AttemptLeased → a_number r < 5 →
  db_jobs d !! a_job r = Some j → j_cancel_requested_at j = Some c →
  Complete srv dg a f "failed" "transient" op rd now draw d = (inr tt, d') →
  ∃ j', j_state j' = JobRetryWait ∧ j_cancel_requested_at j' = Some c ∧
    ∀ d2, rtc (later_step errorText (a_job r) c) d' d2 →
      db_jobs d2 !! a_job r = Some j' ∧
      (∀ lk srv2 e now2 l d3, tryClaim lk srv2 (a_job r) e now2 d2 ≠ inr (Some l, d3)) ∧
      (∀ p now2, now2 ≠ c → ∃ e, RequestCancellation p (a_job r) now2 d2 = (inl e, d2)).
Proof.
  intros Hd Hr Hl Hn Hj Hc H. pose proof (reachable_sys _ _ Hd) as [Hinv Hb].
  assert (reachable errorText d') as Hd'.
  { eapply reach_step; [exact Hd|]. pose proof (step_call errorText d (CallComplete srv dg a f "failed" "transient" op rd now draw)) as Hs.
    simpl in Hs. by rewrite H in Hs. }
  unfold Complete, run_tx in H.
  destruct (completeTx _ _ _ _ _ _ _ _ _ _ d) as [|[x e]] eqn:E; [done|]. injection H as _ ->.
  destruct (request_complete _ _ _ _ _ _ _ _ _ _ d _ _ E _ j c Hj Hc) as (j'&Hj'&Hc').
  assert (j_state j' = JobRetryWait) as Hst.
  { apply completeTx_inv in E as (out&fc&q&Hp&Hq&_&Hcase); [|done]. assert (q = r) as -> by congruence.
    destruct Hcase as [(Hcl&_)|(_&_&_&_&s&j0&j1&_&Hcl&Hj1)]; [rewrite Hl in Hcl; by destruct out|].
    rewrite (cls_jobs _ _ _ _ _ _ _ _ _ Hcl), lookup_insert_eq in Hj'. injection Hj' as ->.
    rewrite Hj1. injection Hp as <- <-. unfold newJobStateOf, MaxAttempts. simpl. by rewrite (proj2 (Z.ltb_lt _ _) Hn). }
  exists j'. split_and!; [done..|]. intros d2 Hrun.
  assert (db_jobs d2 !! a_job r = Some j') as Hj2.
  { clear E. induction Hrun as [|u v w Huv _ IH]; [done|]. apply IH.
    - eapply reach_step; [done|by eapply later_is_step].
    - eapply later_wait; [by apply (reachable_sys errorText)|done..]. }
  split_and!; [done|..].
  - intros. by eapply requested_not_claimed.
  - intros p now2 Hne. by eapply requested_not_cancelled.
Qed.

(** The wedged job of the scenario, then a claim and an expiry sweep later. *)
Lemma cancelled_retry_wedged_witness :
  ∃ d', Complete "server" "digest" 1 1 "failed" "transient" "op-1" image (at_second 6) 0 db_cancelling = (inr tt, d') ∧
    ∃ e, RequestCancellation admin 1 (at_second 900) (exec noErrorText (claim 1 (at_second 800)) d') =
         (inl e, exec noErrorText (claim 1 (at_second 800)) d').
Proof.
  assert (match (Complete "server" "digest" 1 1 "failed" "transient" "op-1" image (at_second 6) 0 db_cancelling).1 with
          | inr _ => true | _ => false end = true) as Hok by (vm_compute; reflexivity).
  destruct (Complete "server" "digest" 1 1 "failed" "transient" "op-1" image (at_second 6) 0 db_cancelling) as [[e|[]] d'] eqn:E;
    [discriminate|]. exists d'. split; [reflexivity|].
  assert (∃ r, db_attempts db_cancelling !! 1 = Some r ∧ a_state r = AttemptLeased ∧ a_number r = 1 ∧ a_job r = 1) as (r&Hr&Hl&Hn&Hi)
    by (eexists; split; [vm_compute; reflexivity|split_and!; reflexivity]).
  assert (∃ j, db_jobs db_cancelling !! 1 = Some j ∧ j_cancel_requested_at j = Some (at_second 5)) as (j&Hj&Hc)
    by (eexists; split; [vm_compute; reflexivity|vm_compute; reflexivity]).
  rewrite <-Hi in Hj. destruct (cancelled_retry_wedged noErrorText db_cancelling "server" "digest" 1 1 "op-1" image (at_second 6) 0 d' r j
    (at_second 5) db_cancelling_reachable Hr Hl ltac:(lia) Hj Hc E) as (j'&_&_&Hlater).
  rewrite Hi in Hlater. apply (Hlater (exec noErrorText (claim 1 (at_second 800)) d')); [|discriminate].
  apply rtc_once, later_call. discriminate.
Defined.
