(* ===== verification/JobsKept.v ===== *)
(** * No lease operation creates a job or rewrites what it deploys

    The identity of a job (owner, project, environment, server, deployment,
    repository, ref, commit, priority, creation time) is written once, by the
    enqueue; the trigger [validate_agent_job_update] refuses an update that
    changes it.  Hence every call of the lease repository keeps the identities
    of all jobs, and adds none: the frame the webhook repository builds on. *)
From S2P Require Import Prelude GoStd Deployment Queue Route Schema Evidence DeploymentStore LeaseCore Lease LeaseInv LeaseSteps LeaseSpec Activation Resolution ActivationSteps Enqueue LeaseSystem CallsKeep.
From stdpp Require Import relations.
#[local] Open Scope Z_scope.

Record JobIdentity := {
  ji_owner : string; ji_project : string; ji_env : string; ji_server : string; ji_deployment : string;
  ji_repository : Z; ji_ref : string; ji_commit : string; ji_priority : Z; ji_created_at : Z;
}.
Definition jobIdentity (j : JobRow) : JobIdentity :=
  {| ji_owner := j_owner j; ji_project := j_project j; ji_env := j_env j; ji_server := j_server j;
     ji_deployment := j_deployment j; ji_repository := j_repository j; ji_ref := j_ref j; ji_commit := j_commit j;
     ji_priority := j_priority j; ji_created_at := j_created_at j |}.
Definition jobIdentities (d : DB) : gmap Z JobIdentity := jobIdentity <$> db_jobs d.

Definition jobs_kept (d d' : DB) : Prop := jobIdentities d' = jobIdentities d.
#[global] Instance jobs_kept_preorder : PreOrder jobs_kept.
Proof. split; [done|]. intros d1 d2 d3 H1 H2. unfold jobs_kept in *. congruence. Qed.

Lemma same_jobs_kept d d' : db_jobs d' = db_jobs d → jobs_kept d d'.
Proof. unfold jobs_kept, jobIdentities. by intros ->. Qed.

Lemma trigger_keeps_identity old new : validate_agent_job_update old new = true → jobIdentity new = jobIdentity old.
Proof. unfold validate_agent_job_update, jobIdentity. intros H. bool_hyps. congruence. Qed.

Lemma jobs_kept_update_job i w f : tx_rel jobs_kept (update_job i w f).
Proof.
  intros d b d' [(_&->&_)|(j&_&Hj&_&Hv&_&->)]%update_job_inv; [done|].
  unfold jobs_kept, jobIdentities. simpl. rewrite fmap_insert, (trigger_keeps_identity _ _ Hv).
  apply insert_id. by rewrite lookup_fmap, Hj.
Qed.

#[export] Instance jobs_kept_statements : KeptByStatements jobs_kept.
Proof.
  split; [split|]; try done; try apply _; try (intros; apply jobs_kept_update_job).
  - by intros a w f d u d' [(_&->&_)|(r&_&_&_&_&_&->)]%update_attempt_inv.
  - by intros e w f d u d' [(_&->&_)|(r&_&_&_&_&_&->)]%update_slot_inv.
  - by intros k w f d u d' [(_&->&_)|(r&_&_&_&_&_&->)]%update_op_inv.
  - by intros e w f _ d u d' [(_&->&_)|(h&_&_&_&_&->)]%update_head_inv.
  - by intros o d u d' (_&_&_&_&->)%insert_op_inv.
Qed.
#[export] Instance jobs_kept_claims : KeptByClaims jobs_kept.
Proof. split; [|done]. by intros r d u d' (_&_&_&_&->)%insert_attempt_inv. Qed.

Lemma exec_keeps_jobs errorText c d : isPush c = false → jobs_kept d (exec errorText c d).
Proof.
  intros Hp. destruct (isClaim c) eqn:Hc; [by apply (claim_keeps jobs_kept)|by apply (exec_keeps jobs_kept)].
Qed.
