(* ===== verification/Webhooks.v ===== *)
(** * Webhook receipts and intents (src/internal/store/postgres/webhook_job_repository.go,
    src/internal/github/webhook.go, migrations 000005, 000009 and 000010)

    A verified push becomes a receipt, an intent (one per binding, repository,
    ref and commit), a deployment and a queued job in one transaction; a
    lifecycle event withdraws authority.  The state extends the lease
    repository's database, whose jobs and deployments the enqueue writes
    through Enqueue.v.

    [app_registration_id] is 1 in every row (its CHECK), so the tables carry
    none.  [clock_timestamp()] is the argument [now].  Identity columns count
    up by one; PostgreSQL may skip values, which nothing here depends on.  The
    CHECKs of the intents and jobs on refs, commits and identifiers repeat
    what [PushValidate] and the job's [Validate] have established and are not
    written twice; the deferred foreign key from intent to deployment holds
    because the deployment is created in the same transaction.  An error the
    Go code wraps with context only is [ErrInternal]. *)
From S2P Require Import Prelude GoStd Deployment Queue Schema DeploymentStore LeaseCore Lease Enqueue.
#[local] Open Scope Z_scope.

(** ** Deliveries and lifecycle events (webhook.go) *)

Inductive EventType := EventPush | EventInstallation | EventInstallationRepositories.
Inductive VerificationState := VerificationPending | VerificationVerified | VerificationRejected.
Inductive ProcessingState := ProcessingPending | ProcessingProcessed | ProcessingRejected.
Inductive Failure := FailureNone | FailureSignature | FailureMalformed | FailureUnsupported | FailureUnauthorized.
#[global] Instance EventType_eq_dec : EqDecision EventType.
Proof. solve_decision. Defined.
#[global] Instance VerificationState_eq_dec : EqDecision VerificationState.
Proof. solve_decision. Defined.
#[global] Instance ProcessingState_eq_dec : EqDecision ProcessingState.
Proof. solve_decision. Defined.
#[global] Instance Failure_eq_dec : EqDecision Failure.
Proof. solve_decision. Defined.

Record Delivery := {
  dl_ID : string; dl_Event : EventType; dl_Digest : string;
  dl_Verification : VerificationState; dl_Processing : ProcessingState; dl_Failure : Failure;
}.

(** [Digest.valid]: not all zero. *)
Definition digestValid (d : string) : bool := negb (forallBytes (λ b, b =? 0) d).

(** The failure classes of the three verification states. *)
Definition stateConsistent (v : VerificationState) (p : ProcessingState) (f : Failure) : bool :=
  match v, p, f with
  | VerificationPending, ProcessingPending, FailureNone
  | VerificationRejected, ProcessingRejected, FailureSignature
  | VerificationVerified, (ProcessingPending | ProcessingProcessed), FailureNone
  | VerificationVerified, ProcessingRejected, (FailureMalformed | FailureUnsupported | FailureUnauthorized) => true
  | _, _, _ => false
  end.
Definition DeliveryValidate (d : Delivery) : bool :=
  ValidOpaqueID (dl_ID d) && digestValid (dl_Digest d) && stateConsistent (dl_Verification d) (dl_Processing d) (dl_Failure d).

Record Lifecycle := {
  lc_Event : EventType; lc_InstallationID : Z; lc_RepositoryID : Z; lc_OwnerID : Z; lc_RepositoryIDs : list Z; lc_Action : string;
}.
Definition MaxLifecycleRepositories : Z := 100.

(** [id <= 0 || (index > 0 && ids[index-1] >= id)] refuses. *)
Fixpoint ascending (ids : list Z) : bool :=
  match ids with
  | [] => true
  | a :: r => (0 <? a) && match r with b :: _ => a <? b | [] => true end && ascending r
  end.
Definition LifecycleValidate (e : Lifecycle) : bool :=
  (0 <? lc_InstallationID e) && (0 <? lc_OwnerID e) &&
  match lc_Event e with
  | EventInstallation =>
      bool_decide (lc_RepositoryIDs e = []) && (lc_RepositoryID e =? 0)
      && bool_decide (lc_Action e ∈ ["created"; "deleted"; "suspend"; "unsuspend"])
  | EventInstallationRepositories =>
      let ids := if bool_decide (lc_RepositoryIDs e = []) && (0 <? lc_RepositoryID e) then [lc_RepositoryID e] else lc_RepositoryIDs e in
      negb (bool_decide (ids = [])) && (Z.of_nat (length ids) <=? MaxLifecycleRepositories)
      && bool_decide (lc_Action e ∈ ["added"; "removed"]) && ascending ids
  | EventPush => false
  end.

(** ** Tables *)

Record DeliveryRow := {
  w_delivery : string; w_event : EventType; w_action : string; w_digest : string;
  w_verification : VerificationState; w_processing : ProcessingState; w_failure : Failure;
  w_installation : option Z; w_repository : option Z; w_owner : option Z; w_processed : option Z;
}.
Record IntentRow := {
  i_delivery : Z; i_owner : string; i_project : string; i_repository : Z; i_ref : string; i_commit : string; i_deployment : string;
}.
Record InstallationRow := { gi_owner : string; gi_account : Z; gi_active : bool; gi_suspended : bool; gi_revision : Z }.
Record RepositoryRow := { gr_installation : Z; gr_owner : string; gr_github_owner : Z; gr_active : bool; gr_revision : Z }.
Record BindingTarget := { bt_ref : string; bt_environment : string; bt_server : string }.
Record GitBindingRow := {
  gb_repository : Z; gb_installation : Z; gb_active : bool; gb_revision : Z; gb_target : option BindingTarget;
}.

Record WebhookDB := {
  wh_db : DB;
  wh_deliveries : gmap Z DeliveryRow;
  wh_intents : gmap Z IntentRow;
  wh_lifecycle : gmap Z (list Z);        (** webhook_lifecycle_repositories, per delivery, ascending *)
  wh_payloads : gmap Z (string * string); (** idempotency_key and payload_digest of a job *)
  wh_app_active : bool;
  wh_installations : gmap Z InstallationRow;
  wh_repositories : gmap Z RepositoryRow;
  wh_bindings : gmap (string * string) GitBindingRow; (** by owner and project *)
  wh_next_delivery : Z; wh_next_intent : Z; wh_next_job : Z;
}.

Definition set_db (x : DB) (payloads : gmap Z (string * string)) (next : Z) (w : WebhookDB) : WebhookDB :=
  Build_WebhookDB x (wh_deliveries w) (wh_intents w) (wh_lifecycle w) payloads (wh_app_active w)
    (wh_installations w) (wh_repositories w) (wh_bindings w) (wh_next_delivery w) (wh_next_intent w) next.
Definition set_deliveries (x : gmap Z DeliveryRow) (next : Z) (w : WebhookDB) : WebhookDB :=
  Build_WebhookDB (wh_db w) x (wh_intents w) (wh_lifecycle w) (wh_payloads w) (wh_app_active w)
    (wh_installations w) (wh_repositories w) (wh_bindings w) next (wh_next_intent w) (wh_next_job w).
Definition set_intents (x : gmap Z IntentRow) (next : Z) (w : WebhookDB) : WebhookDB :=
  Build_WebhookDB (wh_db w) (wh_deliveries w) x (wh_lifecycle w) (wh_payloads w) (wh_app_active w)
    (wh_installations w) (wh_repositories w) (wh_bindings w) (wh_next_delivery w) next (wh_next_job w).
Definition set_lifecycle (x : gmap Z (list Z)) (w : WebhookDB) : WebhookDB :=
  Build_WebhookDB (wh_db w) (wh_deliveries w) (wh_intents w) x (wh_payloads w) (wh_app_active w)
    (wh_installations w) (wh_repositories w) (wh_bindings w) (wh_next_delivery w) (wh_next_intent w) (wh_next_job w).
Definition set_authority (app : bool) (ins : gmap Z InstallationRow) (rs : gmap Z RepositoryRow)
    (bs : gmap (string * string) GitBindingRow) (w : WebhookDB) : WebhookDB :=
  Build_WebhookDB (wh_db w) (wh_deliveries w) (wh_intents w) (wh_lifecycle w) (wh_payloads w) app ins rs bs
    (wh_next_delivery w) (wh_next_intent w) (wh_next_job w).

Definition positive (x : option Z) : bool := match x with Some v => 0 <? v | None => false end.
Definition nullOrPositive (x : option Z) : bool := match x with Some v => 0 <? v | None => true end.

(** The CHECKs of webhook_deliveries. *)
Definition delivery_check (r : DeliveryRow) : bool :=
  (1 <=? slen (w_delivery r)) && (slen (w_delivery r) <=? 128) && (slen (w_digest r) =? 32)
  && nullOrPositive (w_installation r) && nullOrPositive (w_repository r) && nullOrPositive (w_owner r)
  && stateConsistent (w_verification r) (w_processing r) (w_failure r)
  && Bool.eqb (bool_decide (w_processing r = ProcessingProcessed)) (isSomeb (w_processed r))
  && (bool_decide (w_processing r = ProcessingRejected)
      || bool_decide (w_verification r = VerificationVerified) &&
         match w_event r with
         | EventPush => bool_decide (w_action r = "") && positive (w_installation r) && positive (w_repository r) && positive (w_owner r)
         | EventInstallation => bool_decide (w_action r ∈ ["created"; "deleted"; "suspend"; "unsuspend"])
                                && positive (w_installation r) && negb (isSomeb (w_repository r)) && positive (w_owner r)
         | EventInstallationRepositories => bool_decide (w_action r ∈ ["added"; "removed"])
                                && positive (w_installation r) && positive (w_repository r) && positive (w_owner r)
         end)
  && (negb (bool_decide (w_processing r = ProcessingRejected)) || bool_decide (w_action r = "")).

(** [validate_webhook_delivery_update] for an update of the processing columns. *)
Definition validate_delivery_update (old new : ProcessingState) : bool :=
  bool_decide (old = ProcessingPending) && negb (bool_decide (new = ProcessingPending)).

(** ** Statements *)

Definition find_delivery (delivery : string) (w : WebhookDB) : option (Z * DeliveryRow) :=
  head (filter (λ kv, w_delivery kv.2 = delivery) (map_to_list (wh_deliveries w))).

(** [INSERT ... ON CONFLICT (app_registration_id,delivery_id) DO NOTHING
    RETURNING id]: [None] is a conflict; the partial index on the digests of
    verified deliveries still raises. *)
Definition insert_delivery (row : DeliveryRow) : Tx WebhookDB Err (option Z) := λ w,
  if negb (delivery_check row) then inl (ErrPg PgCheckViolation)
  else if isSomeb (find_delivery (w_delivery row) w) then inr (None, w)
  else if bool_decide (w_verification row = VerificationVerified)
          && existsb (λ kv, bool_decide (w_verification kv.2 = VerificationVerified) && bool_decide (w_digest kv.2 = w_digest row))
                     (map_to_list (wh_deliveries w))
  then inl (ErrPg PgUniqueViolation)
  else inr (Some (wh_next_delivery w), set_deliveries (<[wh_next_delivery w := row]> (wh_deliveries w)) (wh_next_delivery w + 1) w).

Definition same_intent (x y : IntentRow) : Prop :=
  i_owner x = i_owner y ∧ i_project x = i_project y ∧ i_repository x = i_repository y ∧ i_ref x = i_ref y ∧ i_commit x = i_commit y.
#[global] Instance same_intent_dec x y : Decision (same_intent x y) := decide _.

Definition find_intent (row : IntentRow) (w : WebhookDB) : option (Z * IntentRow) :=
  head (filter (λ kv, same_intent kv.2 row) (map_to_list (wh_intents w))).

(** [ON CONFLICT (binding_owner_id,...,commit_sha) DO NOTHING]; [delivery_id]
    and [deployment_id] are unique too, and the binding is a foreign key. *)
Definition insert_intent (row : IntentRow) : Tx WebhookDB Err (option Z) := λ w,
  if isSomeb (find_intent row w) then inr (None, w)
  else if existsb (λ kv, (i_delivery kv.2 =? i_delivery row) || bool_decide (i_deployment kv.2 = i_deployment row)) (map_to_list (wh_intents w))
  then inl (ErrPg PgUniqueViolation)
  else if negb (isSomeb (wh_bindings w !! (i_owner row, i_project row))) || negb (isSomeb (wh_deliveries w !! i_delivery row))
  then inl (ErrPg PgForeignKeyViolation)
  else inr (Some (wh_next_intent w), set_intents (<[wh_next_intent w := row]> (wh_intents w)) (wh_next_intent w + 1) w).

Definition orIntegrity {A} (m : Tx WebhookDB Err A) : Tx WebhookDB Err A := λ w,
  match m w with inl (ErrPg PgUniqueViolation) => inl ErrWebhookIntegrity | r => r end.

(** A transaction of the lease database. *)
Definition onDB {A} (m : Tx DB Err A) : Tx WebhookDB Err A := λ w,
  match m (wh_db w) with
  | inl e => inl e
  | inr (a, d) => inr (a, set_db d (wh_payloads w) (wh_next_job w) w)
  end.

Definition markDeliveryProcessed (id now : Z) : Tx WebhookDB Err unit := λ w,
  match wh_deliveries w !! id with
  | None => inl ErrWebhookIntegrity
  | Some r =>
      if bool_decide (w_verification r = VerificationVerified) && bool_decide (w_processing r = ProcessingPending) then
        let r' := {| w_delivery := w_delivery r; w_event := w_event r; w_action := w_action r; w_digest := w_digest r;
                     w_verification := w_verification r; w_processing := ProcessingProcessed; w_failure := w_failure r;
                     w_installation := w_installation r; w_repository := w_repository r; w_owner := w_owner r;
                     w_processed := Some now |} in
        if negb (validate_delivery_update (w_processing r) (w_processing r')) then inl (ErrPg PgRaise)
        else if negb (delivery_check r') then inl (ErrPg PgCheckViolation)
        else inr (tt, set_deliveries (<[id := r']> (wh_deliveries w)) (wh_next_delivery w) w)
      else inl ErrWebhookIntegrity
  end.

(** ** Authority *)

Definition bindingFor (owner : string) (repository installation : Z) (ref : string) (w : WebhookDB) : option webhookTarget :=
  head (omap (λ kv,
    match gb_target kv.2 with
    | Some t =>
        if bool_decide (kv.1.1 = owner) && (gb_repository kv.2 =? repository) && (gb_installation kv.2 =? installation)
           && gb_active kv.2 && bool_decide (bt_ref t = ref)
        then Some {| t_ownerID := kv.1.1; t_projectID := kv.1.2; t_environmentID := bt_environment t; t_serverID := bt_server t |}
        else None
    | None => None
    end) (map_to_list (wh_bindings w))).

Definition lockWebhookAuthorityForPush (push : Push) : Tx WebhookDB Err webhookTarget :=
  let! app := tx_read wh_app_active in
  do! tx_guard app ErrWebhookUnauthorized in
  let! inst := tx_some (λ w, wh_installations w !! push_InstallationID push) ErrWebhookUnauthorized in
  do! tx_guard ((gi_account inst =? push_OwnerID push) && gi_active inst && negb (gi_suspended inst)) ErrWebhookUnauthorized in
  let! repo := tx_some (λ w, wh_repositories w !! push_RepositoryID push) ErrWebhookUnauthorized in
  do! tx_guard ((gr_installation repo =? push_InstallationID push) && bool_decide (gr_owner repo = gi_owner inst)
                && (gr_github_owner repo =? push_OwnerID push) && gr_active repo) ErrWebhookUnauthorized in
  tx_some (bindingFor (gi_owner inst) (push_RepositoryID push) (push_InstallationID push) (push_Ref push)) ErrWebhookUnauthorized.

(** ** Enqueue *)

Record WebhookEnqueueInput := { we_Delivery : Delivery; we_Push : Push; we_Deployment : Deployment; we_Job : Job }.
Record WebhookEnqueueResult := { wr_DeliveryID : Z; wr_DeploymentID : string; wr_JobID : Z }.

Definition push_row (inp : WebhookEnqueueInput) : DeliveryRow :=
  {| w_delivery := dl_ID (we_Delivery inp); w_event := dl_Event (we_Delivery inp); w_action := ""; w_digest := dl_Digest (we_Delivery inp);
     w_verification := VerificationVerified; w_processing := ProcessingPending; w_failure := FailureNone;
     w_installation := Some (push_InstallationID (we_Push inp)); w_repository := Some (push_RepositoryID (we_Push inp));
     w_owner := Some (push_OwnerID (we_Push inp)); w_processed := None |}.

(** A NULL id does not scan into an [int64]. *)
Definition insertOrResolveDelivery (inp : WebhookEnqueueInput) : Tx WebhookDB Err (Z * bool) :=
  let! inserted := orIntegrity (insert_delivery (push_row inp)) in
  match inserted with
  | Some id => tx_ret (id, true)
  | None =>
      let! found := tx_some (find_delivery (dl_ID (we_Delivery inp))) ErrInternal in
      let '(id, r) := found in
      match w_installation r, w_repository r, w_owner r with
      | Some installation, Some repository, Some owner =>
          do! tx_guard (bool_decide (w_digest r = dl_Digest (we_Delivery inp)) && bool_decide (w_event r = dl_Event (we_Delivery inp))
                        && (installation =? push_InstallationID (we_Push inp)) && (repository =? push_RepositoryID (we_Push inp))
                        && (owner =? push_OwnerID (we_Push inp))) ErrWebhookIntegrity in
          tx_ret (id, false)
      | _, _, _ => tx_fail ErrInternal
      end
  end.

Definition intent_row (deliveryID : Z) (inp : WebhookEnqueueInput) : IntentRow :=
  {| i_delivery := deliveryID; i_owner := job_OwnerID (we_Job inp); i_project := job_ProjectID (we_Job inp);
     i_repository := push_RepositoryID (we_Push inp); i_ref := push_Ref (we_Push inp); i_commit := push_CommitSHA (we_Push inp);
     i_deployment := job_DeploymentID (we_Job inp) |}.
Definition insertOrResolveIntent (deliveryID : Z) (inp : WebhookEnqueueInput) : Tx WebhookDB Err (Z * bool) :=
  let! inserted := orIntegrity (insert_intent (intent_row deliveryID inp)) in
  match inserted with
  | Some id => tx_ret (id, true)
  | None => let! found := tx_some (find_intent (intent_row deliveryID inp)) ErrInternal in tx_ret (found.1, false)
  end.

(** The job of a deployment; [deployment_id] is unique among jobs. *)
Definition job_of (deployment : string) (w : WebhookDB) : option Z :=
  fst <$> head (filter (λ kv, j_deployment kv.2 = deployment) (map_to_list (db_jobs (wh_db w)))).

Definition intentResult (deliveryID : Z) (i : IntentRow) (w : WebhookDB) : option WebhookEnqueueResult :=
  job ← job_of (i_deployment i) w;
  if bool_decide (i_deployment i = "") then None
  else Some {| wr_DeliveryID := deliveryID; wr_DeploymentID := i_deployment i; wr_JobID := job |}.

(** [WHERE i.delivery_id=$1] *)
Definition resultForDelivery (deliveryID : Z) (w : WebhookDB) : option WebhookEnqueueResult :=
  kv ← head (filter (λ kv, i_delivery kv.2 = deliveryID) (map_to_list (wh_intents w))); intentResult deliveryID kv.2 w.
(** [WHERE i.id=$1] *)
Definition resultForStoredIntent (intentID deliveryID : Z) (w : WebhookDB) : option WebhookEnqueueResult :=
  i ← wh_intents w !! intentID; intentResult deliveryID i w.

(** The stored deployment, its first event and the job are the ones given; a
    job that has been claimed no longer is ([state] differs). *)
Definition resultForIntent (intentID : Z) (inp : WebhookEnqueueInput) (w : WebhookDB) : option WebhookEnqueueResult :=
  i ← wh_intents w !! intentID;
  job ← job_of (i_deployment i) w;
  row ← db_jobs (wh_db w) !! job;
  payload ← wh_payloads w !! job;
  snap ← db_deployments (wh_db w) !! i_deployment i;
  first ← head (snap_Events snap);
  match TakeSnapshot (we_Deployment inp) with
  | inl _ => None
  | inr s =>
      let j := we_Job inp in
      if bool_decide (i_deployment i = DeploymentID (identity (we_Deployment inp))) && bool_decide (snap_Identity snap = identity (we_Deployment inp))
         && (snap_Version snap =? snap_Version s) && (snap_CreatedAt snap =? snap_CreatedAt s)
         && bool_decide (ev_from first = StatusNone) && bool_decide (ev_to first = StatusQueued)
         && bool_decide (Some (ev_at first) = ev_at <$> head (snap_Events s))
         && bool_decide (j_owner row = job_OwnerID j) && bool_decide (j_project row = job_ProjectID j)
         && bool_decide (j_env row = job_EnvironmentID j) && bool_decide (j_server row = job_ServerID j)
         && bool_decide (j_deployment row = job_DeploymentID j) && (j_repository row =? job_RepositoryID j)
         && bool_decide (j_ref row = job_Ref j) && bool_decide (j_commit row = job_CommitSHA j) && (j_priority row =? job_Priority j)
         && (j_available_at row =? instant (job_AvailableAt j)) && bool_decide (payload = (job_IdempotencyKey j, job_PayloadDigest j))
         && bool_decide (j_state row = JobQueued)
      then Some {| wr_DeliveryID := i_delivery i; wr_DeploymentID := i_deployment i; wr_JobID := job |} else None
  end.

(** Another job of the owner has the idempotency key. *)
Definition keyTaken (owner key : string) (w : WebhookDB) : bool :=
  existsb (λ kv, bool_decide (j_owner kv.2 = owner) && bool_decide (fst <$> wh_payloads w !! kv.1 = Some key)) (map_to_list (db_jobs (wh_db w))).

(** The job row, with the next identity value. *)
Definition insertJob (j : Job) (now : Z) : Tx WebhookDB Err Z :=
  let! id := tx_read wh_next_job in
  let! taken := tx_read (keyTaken (job_OwnerID j) (job_IdempotencyKey j)) in
  do! onDB (onUnique (insert_job id taken (job_row j now))) in
  do! tx_write (λ w, set_db (wh_db w) (<[id := (job_IdempotencyKey j, job_PayloadDigest j)]> (wh_payloads w)) (id + 1) w) in
  tx_ret id.

Definition enqueueVerifiedPushTx (inp : WebhookEnqueueInput) (target : webhookTarget) (strictReplay : bool) (now : Z)
    : Tx WebhookDB Err WebhookEnqueueResult :=
  do! tx_guard (targetMatches (we_Deployment inp) (we_Job inp) target) ErrWebhookUnauthorized in
  let! receipt := insertOrResolveDelivery inp in
  let '(deliveryID, created) := receipt in
  if negb created then tx_some (resultForDelivery deliveryID) ErrWebhookIntegrity
  else
    let! intent := insertOrResolveIntent deliveryID inp in
    let '(intentID, inserted) := intent in
    if negb inserted then
      let! result := tx_some (if strictReplay then resultForIntent intentID inp else resultForStoredIntent intentID deliveryID)
                       ErrWebhookIntegrity in
      do! markDeliveryProcessed deliveryID now in
      tx_ret result
    else
      let! jobID := insertJob (we_Job inp) now in
      do! onDB (onUnique (createTx (we_Deployment inp))) in
      do! onDB (insert_enqueued jobID) in
      do! markDeliveryProcessed deliveryID now in
      tx_ret {| wr_DeliveryID := deliveryID; wr_DeploymentID := DeploymentID (identity (we_Deployment inp)); wr_JobID := jobID |}.

Definition verifiedPush (d : Delivery) : bool :=
  DeliveryValidate d && bool_decide (dl_Event d = EventPush) && bool_decide (dl_Verification d = VerificationVerified)
  && bool_decide (dl_Processing d = ProcessingPending).

Definition processPush (delivery : Delivery) (push : Push) (now : Z) : Tx WebhookDB Err WebhookEnqueueResult :=
  do! tx_guard (verifiedPush delivery && PushValidate push) ErrWebhookUnauthorized in
  let! target := lockWebhookAuthorityForPush push in
  let '(deploymentID, jobKey) := webhookIDs target push in
  match New {| DeploymentID := deploymentID; ProjectID := t_projectID target; EnvironmentID := t_environmentID target;
               ServerID := t_serverID target; CommitSHA := push_CommitSHA push |} now with
  | inl _ => tx_fail ErrWebhookUnauthorized
  | inr dep =>
      match NewDeploymentExecutionJob (t_ownerID target) (t_projectID target) (t_environmentID target) (t_serverID target)
              deploymentID (push_RepositoryID push) (push_Ref push) (push_CommitSHA push) jobKey 0 now with
      | None => tx_fail ErrWebhookUnauthorized
      | Some job => enqueueVerifiedPushTx {| we_Delivery := delivery; we_Push := push; we_Deployment := dep; we_Job := job |} target false now
      end
  end.
Definition ProcessPush (delivery : Delivery) (push : Push) (now : Z) (w : WebhookDB) := run_tx (processPush delivery push now) w.

Definition validWebhookEnqueueInput (inp : WebhookEnqueueInput) : bool :=
  let d := we_Deployment inp in
  verifiedPush (we_Delivery inp) && PushValidate (we_Push inp) && Validate (we_Job inp)
  && match TakeSnapshot d with
     | inl _ => false
     | inr s =>
         bool_decide (snap_Status s = StatusQueued) && (snap_Revision s =? 1)
         && match snap_Events s with
            | [e] => bool_decide (ev_from e = StatusNone) && bool_decide (ev_to e = StatusQueued) && (ev_at e =? snap_CreatedAt s)
            | _ => false
            end
         && bool_decide (DeploymentID (identity d) = job_DeploymentID (we_Job inp))
         && bool_decide (CommitSHA (identity d) = push_CommitSHA (we_Push inp))
         && (job_RepositoryID (we_Job inp) =? push_RepositoryID (we_Push inp))
         && bool_decide (job_Ref (we_Job inp) = push_Ref (we_Push inp))
         && bool_decide (job_CommitSHA (we_Job inp) = push_CommitSHA (we_Push inp))
     end.
Definition enqueueVerifiedPush (inp : WebhookEnqueueInput) (now : Z) : Tx WebhookDB Err WebhookEnqueueResult :=
  do! tx_guard (validWebhookEnqueueInput inp) ErrWebhookUnauthorized in
  let! target := lockWebhookAuthorityForPush (we_Push inp) in
  enqueueVerifiedPushTx inp target true now.
Definition EnqueueVerifiedPush (inp : WebhookEnqueueInput) (now : Z) (w : WebhookDB) := run_tx (enqueueVerifiedPush inp now) w.

(** ** Lifecycle events *)

Definition lifecycleRepositoryIDs (l : Lifecycle) : list Z :=
  if negb (bool_decide (lc_RepositoryIDs l = [])) then lc_RepositoryIDs l
  else if 0 <? lc_RepositoryID l then [lc_RepositoryID l] else [].

(** [lifecycle.RepositoryIDs = ...; lifecycle.RepositoryID = first] *)
Definition normalized (l : Lifecycle) : Lifecycle :=
  let ids := lifecycleRepositoryIDs l in
  {| lc_Event := lc_Event l; lc_InstallationID := lc_InstallationID l; lc_OwnerID := lc_OwnerID l; lc_Action := lc_Action l;
     lc_RepositoryIDs := ids; lc_RepositoryID := default (lc_RepositoryID l) (head ids) |}.

Fixpoint forEach {A} (f : A → Tx WebhookDB Err unit) (xs : list A) : Tx WebhookDB Err unit :=
  match xs with [] => tx_ret tt | x :: r => do! f x in forEach f r end.

Definition lockLifecycleAuthority (l : Lifecycle) : Tx WebhookDB Err unit :=
  let! app := tx_read wh_app_active in
  do! tx_guard app ErrWebhookUnauthorized in
  let! inst := tx_some (λ w, wh_installations w !! lc_InstallationID l) ErrWebhookUnauthorized in
  do! tx_guard (gi_account inst =? lc_OwnerID l) ErrWebhookUnauthorized in
  if bool_decide (lc_Event l = EventInstallationRepositories) then
    forEach (λ id,
      let! repo := tx_some (λ w, wh_repositories w !! id) ErrWebhookUnauthorized in
      tx_guard ((gr_installation repo =? lc_InstallationID l) && (gr_github_owner repo =? lc_OwnerID l)) ErrWebhookUnauthorized)
      (lifecycleRepositoryIDs l)
  else tx_ret tt.

Definition nullableRepository (l : Lifecycle) : option Z := if lc_RepositoryID l =? 0 then None else Some (lc_RepositoryID l).

Definition lifecycle_row (d : Delivery) (l : Lifecycle) : DeliveryRow :=
  {| w_delivery := dl_ID d; w_event := dl_Event d; w_action := lc_Action l; w_digest := dl_Digest d;
     w_verification := VerificationVerified; w_processing := ProcessingPending; w_failure := FailureNone;
     w_installation := Some (lc_InstallationID l); w_repository := nullableRepository l; w_owner := Some (lc_OwnerID l);
     w_processed := None |}.

(** Rows sealed once the receipt is processed; (delivery, repository) is the
    key, and the ids come ascending. *)
Definition insertLifecycleRepositories (deliveryID : Z) (ids : list Z) : Tx WebhookDB Err unit :=
  forEach (λ id w,
    match wh_deliveries w !! deliveryID with
    | None => inl (ErrPg PgForeignKeyViolation)
    | Some r =>
        let have := default [] (wh_lifecycle w !! deliveryID) in
        if negb (bool_decide (w_verification r = VerificationVerified) && bool_decide (w_processing r = ProcessingPending))
        then inl (ErrPg PgRaise)
        else if negb (0 <? id) then inl (ErrPg PgCheckViolation)
        else if bool_decide (id ∈ have) then inl (ErrPg PgUniqueViolation)
        else inr (tt, set_lifecycle (<[deliveryID := have ++ [id]]> (wh_lifecycle w)) w)
    end) ids.

Definition lifecycleRepositoriesMatch (deliveryID : Z) (want : list Z) : Tx WebhookDB Err unit :=
  let! have := tx_read (λ w, default [] (wh_lifecycle w !! deliveryID)) in
  tx_guard (bool_decide (have = want)) ErrWebhookIntegrity.

Definition suspend (r : InstallationRow) : InstallationRow :=
  {| gi_owner := gi_owner r; gi_account := gi_account r; gi_active := false; gi_suspended := true; gi_revision := gi_revision r + 1 |}.
Definition retire_repository (r : RepositoryRow) : RepositoryRow :=
  {| gr_installation := gr_installation r; gr_owner := gr_owner r; gr_github_owner := gr_github_owner r; gr_active := false;
     gr_revision := gr_revision r + 1 |}.
Definition retire_binding (r : GitBindingRow) : GitBindingRow :=
  {| gb_repository := gb_repository r; gb_installation := gb_installation r; gb_active := false; gb_revision := gb_revision r + 1;
     gb_target := gb_target r |}.

(** [requireOneUpdate] of the installation, then every repository and binding of it. *)
Definition suspendInstallation (installation owner : Z) : Tx WebhookDB Err unit :=
  let! inst := tx_some (λ w, wh_installations w !! installation) ErrWebhookUnauthorized in
  do! tx_guard (gi_account inst =? owner) ErrWebhookUnauthorized in
  tx_write (λ w, set_authority (wh_app_active w) (<[installation := suspend inst]> (wh_installations w))
    ((λ r, if gr_installation r =? installation then retire_repository r else r) <$> wh_repositories w)
    ((λ b, if gb_installation b =? installation then retire_binding b else b) <$> wh_bindings w) w).

Definition removeRepository (installation repository : Z) : Tx WebhookDB Err unit :=
  let! repo := tx_some (λ w, wh_repositories w !! repository) ErrWebhookUnauthorized in
  do! tx_guard (gr_installation repo =? installation) ErrWebhookUnauthorized in
  tx_write (λ w, set_authority (wh_app_active w) (wh_installations w)
    (<[repository := retire_repository repo]> (wh_repositories w))
    ((λ b, if (gb_repository b =? repository) && (gb_installation b =? installation) then retire_binding b else b) <$> wh_bindings w) w).

Definition lifecycleEffect (l : Lifecycle) : Tx WebhookDB Err unit :=
  do! (if bool_decide (lc_Event l = EventInstallation) && bool_decide (lc_Action l ∈ ["deleted"; "suspend"])
       then suspendInstallation (lc_InstallationID l) (lc_OwnerID l) else tx_ret tt) in
  if bool_decide (lc_Event l = EventInstallationRepositories) && bool_decide (lc_Action l = "removed")
  then forEach (removeRepository (lc_InstallationID l)) (lc_RepositoryIDs l) else tx_ret tt.

Definition processLifecycle (d : Delivery) (l0 : Lifecycle) (now : Z) : Tx WebhookDB Err unit :=
  do! tx_guard (DeliveryValidate d && LifecycleValidate l0) ErrWebhookUnauthorized in
  let l := normalized l0 in
  do! lockLifecycleAuthority l in
  let! inserted := insert_delivery (lifecycle_row d l) in
  match inserted with
  | None =>
      let! found := tx_some (find_delivery (dl_ID d)) ErrWebhookIntegrity in
      let '(id, r) := found in
      do! tx_guard (bool_decide (w_digest r = dl_Digest d) && bool_decide (w_event r = dl_Event d) && bool_decide (w_action r = lc_Action l)
                    && bool_decide (w_installation r = Some (lc_InstallationID l)) && (default 0 (w_repository r) =? lc_RepositoryID l)
                    && bool_decide (w_owner r = Some (lc_OwnerID l))) ErrWebhookIntegrity in
      lifecycleRepositoriesMatch id (lc_RepositoryIDs l)
  | Some id =>
      do! insertLifecycleRepositories id (lc_RepositoryIDs l) in
      do! lifecycleEffect l in
      markDeliveryProcessed id now
  end.
Definition ProcessLifecycle (d : Delivery) (l : Lifecycle) (now : Z) (w : WebhookDB) := run_tx (processLifecycle d l now) w.

(** ** Rejections *)

Record TerminalRejectionInput := {
  tr_Delivery : Delivery; tr_Action : string; tr_InstallationID : option Z; tr_RepositoryID : option Z; tr_OwnerID : option Z;
}.
Definition validTerminalRejection (inp : TerminalRejectionInput) : bool :=
  let d := tr_Delivery inp in
  DeliveryValidate d && bool_decide (dl_Processing d = ProcessingRejected) && bool_decide (tr_Action inp = "")
  && nullOrPositive (tr_InstallationID inp) && nullOrPositive (tr_RepositoryID inp) && nullOrPositive (tr_OwnerID inp)
  && (bool_decide (dl_Verification d = VerificationRejected)
      || bool_decide (dl_Verification d = VerificationVerified)
         && bool_decide (dl_Failure d ∈ [FailureMalformed; FailureUnsupported; FailureUnauthorized])).

Definition rejection_row (inp : TerminalRejectionInput) : DeliveryRow :=
  let d := tr_Delivery inp in
  {| w_delivery := dl_ID d; w_event := dl_Event d; w_action := tr_Action inp; w_digest := dl_Digest d;
     w_verification := dl_Verification d; w_processing := dl_Processing d; w_failure := dl_Failure d;
     w_installation := tr_InstallationID inp; w_repository := tr_RepositoryID inp; w_owner := tr_OwnerID inp; w_processed := None |}.

Definition recordTerminalRejection (inp : TerminalRejectionInput) : Tx WebhookDB Err Z :=
  let d := tr_Delivery inp in
  do! tx_guard (validTerminalRejection inp) ErrWebhookUnauthorized in
  let! inserted := orIntegrity (insert_delivery (rejection_row inp)) in
  match inserted with
  | Some id => tx_ret id
  | None =>
      let! found := tx_some (find_delivery (dl_ID d)) ErrWebhookIntegrity in
      let '(id, r) := found in
      do! tx_guard (bool_decide (w_digest r = dl_Digest d) && bool_decide (w_event r = dl_Event d) && bool_decide (w_action r = tr_Action inp)
                    && bool_decide (w_verification r = dl_Verification d) && bool_decide (w_processing r = dl_Processing d)
                    && bool_decide (w_failure r = dl_Failure d) && bool_decide (w_installation r = tr_InstallationID inp)
                    && bool_decide (w_repository r = tr_RepositoryID inp) && bool_decide (w_owner r = tr_OwnerID inp)) ErrWebhookIntegrity in
      tx_ret id
  end.
Definition RecordTerminalRejection (inp : TerminalRejectionInput) (w : WebhookDB) := run_tx (recordTerminalRejection inp) w.
