(* ===== verification/WebhookSteps.v ===== *)
(** * What a webhook transaction can do

    The successful runs of [enqueueVerifiedPushTx]: an exact redelivery that
    changes nothing, a new receipt that resolves to an existing intent, or a
    new receipt with a new intent, job and deployment. *)
From S2P Require Import Prelude GoStd Deployment Queue Schema DeploymentStore LeaseCore Lease LeaseInv LeaseSteps Enqueue LeaseSystem CallsKeep JobsKept Webhooks.
From stdpp Require Import relations.
#[local] Open Scope Z_scope.

(** ** Finding rows *)

Section find.
Context {K A : Type} `{Countable K} (P : A → Prop) `{!∀ x, Decision (P x)}.
Implicit Types (m : gmap K A).

Lemma find_Some m k x : head (filter (λ kv, P kv.2) (map_to_list m)) = Some (k, x) → m !! k = Some x ∧ P x.
Proof.
  intros Hh. assert ((k, x) ∈ filter (λ kv, P kv.2) (map_to_list m)) as Hin.
  { destruct (filter _ _) as [|y l]; [done|]. injection Hh as ->. by left. }
  apply list_elem_of_filter in Hin as [Hp Hin]. by apply elem_of_map_to_list in Hin.
Qed.
Lemma find_None m k x : head (filter (λ kv, P kv.2) (map_to_list m)) = None → m !! k = Some x → ¬ P x.
Proof.
  intros Hh Hk Hp. assert ((k, x) ∈ filter (λ kv, P kv.2) (map_to_list m)) as Hin.
  { apply list_elem_of_filter. split; [done|]. by apply elem_of_map_to_list. }
  destruct (filter _ _); [by apply elem_of_nil in Hin|done].
Qed.
Lemma find_unique m k x :
  m !! k = Some x → P x → (∀ k' x', m !! k' = Some x' → P x' → k' = k) →
  head (filter (λ kv, P kv.2) (map_to_list m)) = Some (k, x).
Proof.
  intros Hk Hp Hu. destruct (head _) as [[k' x']|] eqn:E; [|by destruct (find_None m k x E Hk)].
  apply find_Some in E as [Hk' Hp']. assert (k' = k) as -> by eauto. congruence.
Qed.
End find.

(** ** The receipt after its push has been handled *)

Definition processed_at (now : Z) (r : DeliveryRow) : DeliveryRow :=
  {| w_delivery := w_delivery r; w_event := w_event r; w_action := w_action r; w_digest := w_digest r;
     w_verification := w_verification r; w_processing := ProcessingProcessed; w_failure := w_failure r;
     w_installation := w_installation r; w_repository := w_repository r; w_owner := w_owner r; w_processed := Some now |}.

Definition with_receipt (row : DeliveryRow) (w : WebhookDB) : WebhookDB :=
  set_deliveries (<[wh_next_delivery w := row]> (wh_deliveries w)) (wh_next_delivery w + 1) w.

(** Everything a new intent writes. *)
Definition with_enqueued (inp : WebhookEnqueueInput) (now : Z) (d : DB) (w : WebhookDB) : WebhookDB :=
  Build_WebhookDB d
    (<[wh_next_delivery w := processed_at now (push_row inp)]> (wh_deliveries w))
    (<[wh_next_intent w := intent_row (wh_next_delivery w) inp]> (wh_intents w))
    (wh_lifecycle w)
    (<[wh_next_job w := (job_IdempotencyKey (we_Job inp), job_PayloadDigest (we_Job inp))]> (wh_payloads w))
    (wh_app_active w) (wh_installations w) (wh_repositories w) (wh_bindings w)
    (wh_next_delivery w + 1) (wh_next_intent w + 1) (wh_next_job w + 1).

Lemma orIntegrity_inv {A} (m : Tx WebhookDB Err A) w x w' : orIntegrity m w = inr (x, w') → m w = inr (x, w').
Proof. unfold orIntegrity. destruct (m w) as [[]|]; try done. by case_match. Qed.

Lemma insert_delivery_inv row w x w' :
  insert_delivery row w = inr (x, w') →
  (x = None ∧ w' = w ∧ delivery_check row = true ∧ ∃ kv, find_delivery (w_delivery row) w = Some kv) ∨
  (x = Some (wh_next_delivery w) ∧ find_delivery (w_delivery row) w = None ∧ w' = with_receipt row w ∧ delivery_check row = true ∧
   (w_verification row = VerificationVerified →
    ∀ k r, wh_deliveries w !! k = Some r → w_verification r = VerificationVerified → w_digest r ≠ w_digest row)).
Proof.
  unfold insert_delivery. destruct (negb (delivery_check row)) eqn:Ec; [done|].
  destruct (find_delivery (w_delivery row) w) as [kv|] eqn:E; simpl.
  - intros [= <- <-]. left. split_and!; try done; [by destruct (delivery_check row)|eauto].
  - destruct (bool_decide _ && _) eqn:Ed; [done|]. intros [= <- <-]. right. split_and!; try done; [by destruct (delivery_check row)|].
    intros Hv k r Hk Hr Heq. rewrite bool_decide_true in Ed by done. simpl in Ed.
    apply not_true_iff_false in Ed. apply Ed. apply existsb_exists. exists (k, r). split.
    + by apply list_elem_of_In, elem_of_map_to_list.
    + simpl. by rewrite !bool_decide_true.
Qed.

Lemma insert_intent_inv row w x w' :
  insert_intent row w = inr (x, w') →
  (x = None ∧ w' = w ∧ ∃ kv, find_intent row w = Some kv) ∨
  (x = Some (wh_next_intent w) ∧ find_intent row w = None ∧
   w' = set_intents (<[wh_next_intent w := row]> (wh_intents w)) (wh_next_intent w + 1) w ∧
   (∀ k i, wh_intents w !! k = Some i → i_delivery i ≠ i_delivery row ∧ i_deployment i ≠ i_deployment row) ∧
   is_Some (wh_bindings w !! (i_owner row, i_project row))).
Proof.
  unfold insert_intent. destruct (find_intent row w) as [kv|] eqn:E; simpl.
  - intros [= <- <-]. left. eauto.
  - destruct (existsb _ _) eqn:Ed; [done|]. destruct (_ || _) eqn:Eb; [done|]. intros [= <- <-]. right. bool_hyps.
    split_and!; try done; [|destruct (wh_bindings w !! _); [eauto|done]].
    intros k i Hk. apply not_true_iff_false in Ed. rewrite existsb_exists in Ed.
    assert ((i_delivery i =? i_delivery row) || bool_decide (i_deployment i = i_deployment row) = false) as Hn.
    { apply not_true_iff_false. intros Ht. apply Ed. exists (k, i). split; [|done]. by apply list_elem_of_In, elem_of_map_to_list. }
    bool_hyps. split; [lia|done].
Qed.

Lemma mark_receipt_inv id row now w u w' :
  wh_deliveries w !! id = Some row → markDeliveryProcessed id now w = inr (u, w') →
  w_verification row = VerificationVerified ∧ w_processing row = ProcessingPending ∧
  delivery_check (processed_at now row) = true ∧
  w' = set_deliveries (<[id := processed_at now row]> (wh_deliveries w)) (wh_next_delivery w) w.
Proof.
  intros Hr. unfold markDeliveryProcessed. rewrite Hr. destruct (_ && _) eqn:E; [|done].
  destruct (negb (validate_delivery_update _ _)); [done|]. fold (processed_at now row).
  destruct (negb (delivery_check _)) eqn:Ec; [done|]. intros [= _ <-]. bool_hyps. by split_and!.
Qed.

(** ** Enqueuing *)

(** The stored receipt of a delivery carries what the delivery does. *)
Definition receipt_matches (inp : WebhookEnqueueInput) (row : DeliveryRow) : Prop :=
  w_digest row = dl_Digest (we_Delivery inp) ∧ w_event row = dl_Event (we_Delivery inp) ∧
  w_installation row = Some (push_InstallationID (we_Push inp)) ∧ w_repository row = Some (push_RepositoryID (we_Push inp)) ∧
  w_owner row = Some (push_OwnerID (we_Push inp)).

(** The lease repository's part of a new intent. *)
Definition job_enqueued (inp : WebhookEnqueueInput) (now : Z) (w : WebhookDB) (d' : DB) : Prop :=
  ∃ d1 d2, insert_job (wh_next_job w) (keyTaken (job_OwnerID (we_Job inp)) (job_IdempotencyKey (we_Job inp)) w)
             (job_row (we_Job inp) now) (wh_db w) = inr (tt, d1) ∧
    createTx (we_Deployment inp) d1 = inr (tt, d2) ∧ insert_enqueued (wh_next_job w) d2 = inr (tt, d').

Inductive enqueue_case (inp : WebhookEnqueueInput) (strict : bool) (now : Z) (r : WebhookEnqueueResult) (w w' : WebhookDB) : Prop :=
  | case_redelivered row :
      find_delivery (dl_ID (we_Delivery inp)) w = Some (wr_DeliveryID r, row) →
      delivery_check (push_row inp) = true → receipt_matches inp row →
      resultForDelivery (wr_DeliveryID r) w = Some r → w' = w → enqueue_case inp strict now r w w'
  | case_known k i :
      find_delivery (dl_ID (we_Delivery inp)) w = None →
      find_intent (intent_row (wh_next_delivery w) inp) w = Some (k, i) →
      (if strict then resultForIntent k inp else resultForStoredIntent k (wh_next_delivery w)) w = Some r →
      delivery_check (push_row inp) = true → delivery_check (processed_at now (push_row inp)) = true →
      (∀ k r, wh_deliveries w !! k = Some r → w_verification r = VerificationVerified → w_digest r ≠ w_digest (push_row inp)) →
      w' = with_receipt (processed_at now (push_row inp)) w → enqueue_case inp strict now r w w'
  | case_new d' :
      find_delivery (dl_ID (we_Delivery inp)) w = None →
      find_intent (intent_row (wh_next_delivery w) inp) w = None →
      r = {| wr_DeliveryID := wh_next_delivery w; wr_DeploymentID := DeploymentID (identity (we_Deployment inp));
             wr_JobID := wh_next_job w |} →
      delivery_check (push_row inp) = true → delivery_check (processed_at now (push_row inp)) = true →
      (∀ k r, wh_deliveries w !! k = Some r → w_verification r = VerificationVerified → w_digest r ≠ w_digest (push_row inp)) →
      (∀ k i, wh_intents w !! k = Some i → i_delivery i ≠ wh_next_delivery w ∧ i_deployment i ≠ job_DeploymentID (we_Job inp)) →
      job_enqueued inp now w d' → w' = with_enqueued inp now d' w → enqueue_case inp strict now r w w'.

Lemma resolve_delivery_inv inp w x w' :
  insertOrResolveDelivery inp w = inr (x, w') →
  (∃ id row, x = (id, false) ∧ w' = w ∧ find_delivery (dl_ID (we_Delivery inp)) w = Some (id, row) ∧
     delivery_check (push_row inp) = true ∧ receipt_matches inp row) ∨
  (x = (wh_next_delivery w, true) ∧ find_delivery (dl_ID (we_Delivery inp)) w = None ∧ w' = with_receipt (push_row inp) w ∧
   delivery_check (push_row inp) = true ∧
   (∀ k r, wh_deliveries w !! k = Some r → w_verification r = VerificationVerified → w_digest r ≠ w_digest (push_row inp))).
Proof.
  unfold insertOrResolveDelivery. intros (o&w1&H1%orIntegrity_inv%insert_delivery_inv&H)%tx_bind_inv.
  destruct H1 as [(->&->&Hc&_)|(->&Hf&->&Hc&Hd)].
  - left. apply tx_bind_inv in H as ([id row]&w2&[Hf ->]%tx_some_inv&H).
    destruct (w_installation row) eqn:E1; [|done]. destruct (w_repository row) eqn:E2; [|done]. destruct (w_owner row) eqn:E3; [|done].
    tx_inv. bool_hyps. exists id, row. split_and!; try done. unfold receipt_matches. rewrite E1, E2, E3. split_and!; try done; f_equal; lia.
  - right. apply tx_ret_inv in H as [<- ->]. split_and!; try done. by apply Hd.
Qed.

Lemma resolve_intent_inv id inp w x w' :
  insertOrResolveIntent id inp w = inr (x, w') →
  (∃ k i, x = (k, false) ∧ w' = w ∧ find_intent (intent_row id inp) w = Some (k, i)) ∨
  (x = (wh_next_intent w, true) ∧ find_intent (intent_row id inp) w = None ∧
   w' = set_intents (<[wh_next_intent w := intent_row id inp]> (wh_intents w)) (wh_next_intent w + 1) w ∧
   (∀ k i, wh_intents w !! k = Some i → i_delivery i ≠ id ∧ i_deployment i ≠ job_DeploymentID (we_Job inp))).
Proof.
  unfold insertOrResolveIntent. intros (o&w1&H1%orIntegrity_inv%insert_intent_inv&H)%tx_bind_inv.
  destruct H1 as [(->&->&_)|(->&Hf&->&Hn&_)].
  - left. apply tx_bind_inv in H as ([k i]&w2&[Hf ->]%tx_some_inv&H). tx_inv. by exists k, i.
  - right. tx_inv. by split_and!.
Qed.

Lemma onDB_inv {A} (m : Tx DB Err A) w x w' :
  onDB m w = inr (x, w') → ∃ d', m (wh_db w) = inr (x, d') ∧ w' = set_db d' (wh_payloads w) (wh_next_job w) w.
Proof. unfold onDB. destruct (m (wh_db w)) as [|[y d']]; [done|]. intros [= -> <-]. eauto. Qed.

Lemma resultForDelivery_id id w r : resultForDelivery id w = Some r → wr_DeliveryID r = id.
Proof.
  unfold resultForDelivery, intentResult. intros (?&_&H)%bind_Some. apply bind_Some in H as (?&_&H). case_bool_decide; [done|].
  by injection H as <-.
Qed.

Lemma enqueue_inv inp target strict now w r w' :
  enqueueVerifiedPushTx inp target strict now w = inr (r, w') →
  targetMatches (we_Deployment inp) (we_Job inp) target = true ∧ enqueue_case inp strict now r w w'.
Proof.
  unfold enqueueVerifiedPushTx. intros (?&w0&[Ht ->]%tx_guard_inv&H)%tx_bind_inv. split; [done|].
  apply tx_bind_inv in H as ([id created]&w1&H1%resolve_delivery_inv&H).
  destruct H1 as [(id'&row&[= -> ->]&->&Hf&Hc&Hm)|([= -> ->]&Hf&->&Hc&Hdg)]; simpl in H.
  { tx_inv. pose proof (resultForDelivery_id _ _ _ H) as <-. by eapply case_redelivered. }
  apply tx_bind_inv in H as ([k inserted]&w1&H1%resolve_intent_inv&H).
  destruct H1 as [(k'&i&[= -> ->]&->&Hi)|([= -> ->]&Hi&->&Hn)]; simpl in H.
  - apply tx_bind_inv in H as (r'&w2&[Hr ->]%tx_some_inv&H). apply tx_bind_inv in H as (?&w3&Hm&H). tx_inv.
    eapply mark_receipt_inv in Hm as (_&_&Hc'&->); [|by simpl; rewrite lookup_insert_eq].
    eapply case_known; try done; [by destruct strict|]. unfold with_receipt, set_deliveries. simpl. f_equal. by rewrite insert_insert_eq.
  - apply tx_bind_inv in H as (jid&w2&Hj&H). unfold insertJob in Hj.
    do 2 (apply tx_bind_inv in Hj as (?&?&[<- ->]%tx_read_inv&Hj)).
    apply tx_bind_inv in Hj as ([]&w3&(d1&Hj1%onUnique_inv&->)%onDB_inv&Hj).
    apply tx_bind_inv in Hj as (?&w4&->%tx_write_inv&[<- ->]%tx_ret_inv).
    apply tx_bind_inv in H as ([]&w4&(d2&Hd2%onUnique_inv&->)%onDB_inv&H).
    apply tx_bind_inv in H as ([]&w4&(d3&Hd3&->)%onDB_inv&H).
    apply tx_bind_inv in H as (?&w4&Hm&[<- ->]%tx_ret_inv). simpl in *.
    eapply mark_receipt_inv in Hm as (_&_&Hc'&->); [|by simpl; rewrite lookup_insert_eq].
    eapply (case_new _ _ _ _ _ _ d3); try done; [by exists d1, d2|].
    unfold with_enqueued, set_deliveries. simpl. f_equal. by rewrite insert_insert_eq.
Qed.
