(* ===== verification/WebhookSystem.v ===== *)
(** * The webhook repository and the lease repository as one system

    Deliveries arrive in any order, any number of times and with any content;
    lease calls, administrator writes of the GitHub tables and other
    repositories' writes happen in between.  [wh_inv] is the invariant of the
    receipts, intents and jobs over all runs. *)
From S2P Require Import Prelude GoStd Deployment Queue Schema DeploymentStore LeaseCore Lease LeaseInv LeaseSteps Enqueue LeaseSystem CallsKeep JobsKept Webhooks WebhookSteps.
From stdpp Require Import relations.
#[local] Open Scope Z_scope.

(** ** Changes that leave the receipts alone *)

Definition same_receipts (w w' : WebhookDB) : Prop :=
  wh_db w' = wh_db w ∧ wh_deliveries w' = wh_deliveries w ∧ wh_intents w' = wh_intents w ∧ wh_payloads w' = wh_payloads w ∧
  wh_next_delivery w' = wh_next_delivery w ∧ wh_next_intent w' = wh_next_intent w ∧ wh_next_job w' = wh_next_job w.
#[global] Instance same_receipts_preorder : PreOrder same_receipts.
Proof. split; [done|]. intros ??? (?&?&?&?&?&?&?) (?&?&?&?&?&?&?). unfold same_receipts. split_and!; congruence. Qed.

Lemma rel_forEach R `{!PreOrder R} {A} (f : A → Tx WebhookDB Err unit) xs : (∀ x, tx_rel R (f x)) → tx_rel R (forEach f xs).
Proof. intros Hf. induction xs as [|x xs IH]; simpl; tx_rel. Qed.

Lemma lockLifecycle_reads l : tx_rel eq (lockLifecycleAuthority l).
Proof. unfold lockLifecycleAuthority. tx_rel. apply (rel_forEach eq). tx_rel. Qed.
Lemma lockPush_reads p : tx_rel eq (lockWebhookAuthorityForPush p).
Proof. unfold lockWebhookAuthorityForPush. tx_rel. Qed.
Lemma receipts_insertRepositories id ids : tx_rel same_receipts (insertLifecycleRepositories id ids).
Proof.
  apply (rel_forEach _). intros x w u w'. destruct (wh_deliveries w !! id); [|done]. cbv zeta.
  destruct (negb (_ && _)); [done|]. destruct (negb (0 <? x)); [done|]. case_bool_decide; [done|]. by intros [= _ <-].
Qed.
Lemma receipts_effect l : tx_rel same_receipts (lifecycleEffect l).
Proof.
  unfold lifecycleEffect. tx_rel.
  - unfold suspendInstallation. tx_rel. by apply tx_rel_write.
  - apply (rel_forEach _). intros id. unfold removeRepository. tx_rel. by apply tx_rel_write.
Qed.

(** ** Receipts *)

(** At most one receipt is added, and it is not left pending. *)
Inductive receipt_case (w w' : WebhookDB) : Prop :=
  | receipt_same : same_receipts w w' → receipt_case w w'
  | receipt_new row :
      find_delivery (w_delivery row) w = None → w_processing row ≠ ProcessingPending →
      (w_verification row = VerificationVerified →
       ∀ k r, wh_deliveries w !! k = Some r → w_verification r = VerificationVerified → w_digest r ≠ w_digest row) →
      same_receipts (with_receipt row w) w' → receipt_case w w'.

Lemma processed_receipt row now w w1 w' u :
  find_delivery (w_delivery row) w = None → delivery_check row = true →
  (w_verification row = VerificationVerified →
   ∀ k r, wh_deliveries w !! k = Some r → w_verification r = VerificationVerified → w_digest r ≠ w_digest row) →
  same_receipts (with_receipt row w) w1 → markDeliveryProcessed (wh_next_delivery w) now w1 = inr (u, w') → receipt_case w w'.
Proof.
  intros Hf Hc Hd (E1&E2&E3&E4&E5&E6&E7) Hm. eapply mark_receipt_inv in Hm as (_&_&_&->); [|by rewrite E2; simpl; rewrite lookup_insert_eq].
  apply (receipt_new _ _ (processed_at now row)); try done. unfold same_receipts. simpl in *.
  rewrite E1, E2, E3, E4, E5, E6, E7. by rewrite insert_insert_eq.
Qed.

Lemma lifecycle_case d l now w u w' : processLifecycle d l now w = inr (u, w') → receipt_case w w'.
Proof.
  unfold processLifecycle. intros (?&w0&[_ ->]%tx_guard_inv&H)%tx_bind_inv.
  apply tx_bind_inv in H as (?&w1&<-%lockLifecycle_reads&H).
  apply tx_bind_inv in H as (o&w1&H1%insert_delivery_inv&H). destruct H1 as [(->&->&_)|(->&Hf&->&Hc&Hd)].
  - apply tx_bind_inv in H as ([id r]&w1&[_ ->]%tx_some_inv&H). unfold lifecycleRepositoriesMatch in H. tx_inv. by apply receipt_same.
  - apply tx_bind_inv in H as (?&w2&H2%receipts_insertRepositories&H). apply tx_bind_inv in H as (?&w3&H3%receipts_effect&H).
    eapply processed_receipt; [done..| |done]. by etrans.
Qed.

Lemma rejection_case inp w x w' : recordTerminalRejection inp w = inr (x, w') → receipt_case w w'.
Proof.
  unfold recordTerminalRejection. intros (?&w0&[Hv ->]%tx_guard_inv&H)%tx_bind_inv.
  apply tx_bind_inv in H as (o&w1&H1%orIntegrity_inv%insert_delivery_inv&H). destruct H1 as [(->&->&_)|(->&Hf&->&Hc&Hd)].
  - apply tx_bind_inv in H as ([id r]&w1&[_ ->]%tx_some_inv&H). tx_inv. by apply receipt_same.
  - tx_inv. apply (receipt_new _ _ (rejection_row inp)); try done. unfold validTerminalRejection in Hv. bool_hyps. simpl.
    match goal with H : dl_Processing _ = _ |- _ => by rewrite H end.
Qed.

(** ** What an enqueue adds to the lease tables *)

Definition same_jobs (d d' : DB) : Prop := db_jobs d' = db_jobs d.
#[global] Instance same_jobs_preorder : PreOrder same_jobs.
Proof. split; [done|]. intros ??? H1 H2. unfold same_jobs in *. congruence. Qed.

Lemma job_enqueued_jobs inp now w d' :
  job_enqueued inp now w d' →
  db_jobs d' = <[wh_next_job w := job_row (we_Job inp) now]> (db_jobs (wh_db w)) ∧
  (∀ k j, db_jobs (wh_db w) !! k = Some j → j_deployment j ≠ job_DeploymentID (we_Job inp)).
Proof.
  intros (d1&d2&H1&H2&H3). unfold insert_job in H1. destruct (_ || _) eqn:Eg; [done|]. injection H1 as <-. bool_hyps.
  apply (rel_create same_jobs) in H2; [|done]. unfold same_jobs in H2. simpl in H2.
  unfold insert_enqueued in H3. destruct (existsb _ _); [done|]. injection H3 as <-. simpl. split; [done|].
  intros k j Hk. match goal with H : map_Forall _ _ |- _ => exact (H k j Hk) end.
Qed.

(** ** The invariant *)

(** What an intent asks for and what a job does. *)
Definition serves (i : IntentRow) (j : JobRow) : Prop :=
  j_deployment j = i_deployment i ∧ j_owner j = i_owner i ∧ j_project j = i_project i ∧
  j_repository j = i_repository i ∧ j_ref j = i_ref i ∧ j_commit j = i_commit i.

Record wh_inv (w : WebhookDB) : Prop := {
  wi_delivery_ids : ∀ k r, wh_deliveries w !! k = Some r → k < wh_next_delivery w;
  wi_intent_ids : ∀ k i, wh_intents w !! k = Some i → k < wh_next_intent w;
  wi_job_ids : ∀ k j, db_jobs (wh_db w) !! k = Some j → k < wh_next_job w;
  (** no receipt is left half-handled *)
  wi_settled : ∀ k r, wh_deliveries w !! k = Some r → w_processing r ≠ ProcessingPending;
  wi_one_delivery : ∀ k1 r1 k2 r2, wh_deliveries w !! k1 = Some r1 → wh_deliveries w !! k2 = Some r2 →
    w_delivery r1 = w_delivery r2 → k1 = k2;
  wi_one_body : ∀ k1 r1 k2 r2, wh_deliveries w !! k1 = Some r1 → wh_deliveries w !! k2 = Some r2 →
    w_verification r1 = VerificationVerified → w_verification r2 = VerificationVerified → w_digest r1 = w_digest r2 → k1 = k2;
  wi_one_intent : ∀ k1 i1 k2 i2, wh_intents w !! k1 = Some i1 → wh_intents w !! k2 = Some i2 →
    same_intent i1 i2 ∨ i_delivery i1 = i_delivery i2 ∨ i_deployment i1 = i_deployment i2 → k1 = k2;
  (** an intent comes from a processed push *)
  wi_source : ∀ k i, wh_intents w !! k = Some i → ∃ r, wh_deliveries w !! i_delivery i = Some r ∧
    w_event r = EventPush ∧ w_verification r = VerificationVerified ∧ w_processing r = ProcessingProcessed ∧
    w_repository r = Some (i_repository i);
  (** intents and jobs correspond *)
  wi_served : ∀ k i, wh_intents w !! k = Some i → ∃ n j, db_jobs (wh_db w) !! n = Some j ∧ serves i j;
  wi_wanted : ∀ n j, db_jobs (wh_db w) !! n = Some j → ∃ k i, wh_intents w !! k = Some i ∧ i_deployment i = j_deployment j;
  wi_one_job : ∀ n1 j1 n2 j2, db_jobs (wh_db w) !! n1 = Some j1 → db_jobs (wh_db w) !! n2 = Some j2 →
    j_deployment j1 = j_deployment j2 → n1 = n2;
}.

(** The invariant only looks at the identity of the jobs. *)
Lemma kept_job d d' n j' : jobs_kept d d' → db_jobs d' !! n = Some j' → ∃ j, db_jobs d !! n = Some j ∧ jobIdentity j = jobIdentity j'.
Proof.
  intros H Hn. apply (f_equal (.!! n)) in H. unfold jobIdentities in H. rewrite !lookup_fmap, Hn in H. simpl in H.
  destruct (db_jobs d !! n) as [j|]; [|done]. exists j. split; [done|]. by apply (inj Some) in H.
Qed.

Lemma serves_identity i j j' : jobIdentity j = jobIdentity j' → serves i j → serves i j'.
Proof. unfold serves, jobIdentity. intros [= E1 E2 E3 E4 E5 E6 E7 E8 _ _]. by rewrite E1, E2, E5, E6, E7, E8. Qed.

Lemma wh_inv_frame w w' :
  wh_inv w → jobs_kept (wh_db w) (wh_db w') → wh_deliveries w' = wh_deliveries w → wh_intents w' = wh_intents w →
  wh_next_delivery w' = wh_next_delivery w → wh_next_intent w' = wh_next_intent w → wh_next_job w' = wh_next_job w → wh_inv w'.
Proof.
  intros [] Hk E2 E3 E4 E5 E6. split; rewrite ?E2, ?E3, ?E4, ?E5, ?E6; try done.
  - intros n j' (j&Hj&_)%(kept_job _ _ _ _ Hk). eauto.
  - intros k i Hi. destruct (wi_served0 k i Hi) as (n&j&Hj&Hs). symmetry in Hk. apply (kept_job _ _ _ _ Hk) in Hj as (j'&Hj'&E).
    eauto using serves_identity.
  - intros n j' (j&Hj&E)%(kept_job _ _ _ _ Hk). destruct (wi_wanted0 n j Hj) as (k&i&Hi&Ei). exists k, i. split; [done|].
    rewrite Ei. by injection E.
  - intros n1 j1 n2 j2 (j1'&H1&E1)%(kept_job _ _ _ _ Hk) (j2'&H2&E7)%(kept_job _ _ _ _ Hk) E. eapply wi_one_job0; [done..|].
    injection E1 as ?. injection E7 as ?. congruence.
Qed.

Lemma wh_inv_same w w' : wh_inv w → same_receipts w w' → wh_inv w'.
Proof. intros Hw (E1&E2&E3&_&E5&E6&E7). eapply wh_inv_frame; try done. by rewrite E1. Qed.

Lemma fresh_receipt w row k r : find_delivery (w_delivery row) w = None → wh_deliveries w !! k = Some r → w_delivery r ≠ w_delivery row.
Proof. intros Hf Hk. by apply (find_None (λ x, w_delivery x = w_delivery row) _ _ _ Hf Hk). Qed.

Lemma with_receipt_inv w row :
  wh_inv w → find_delivery (w_delivery row) w = None → w_processing row ≠ ProcessingPending →
  (w_verification row = VerificationVerified →
   ∀ k r, wh_deliveries w !! k = Some r → w_verification r = VerificationVerified → w_digest r ≠ w_digest row) →
  wh_inv (with_receipt row w).
Proof.
  intros [] Hf Hp Hd. pose proof (λ k r, fresh_receipt w row k r Hf) as Hfr. split; simpl; try done.
  - intros k r [[<- _]|[_ Hk]]%lookup_insert_Some; [lia|]. apply wi_delivery_ids0 in Hk. lia.
  - intros k r [[_ <-]|[_ Hk]]%lookup_insert_Some; eauto.
  - intros k1 r1 k2 r2 [[<- <-]|[_ H1]]%lookup_insert_Some [[<- <-]|[_ H2]]%lookup_insert_Some E; eauto; exfalso; by eapply Hfr.
  - intros k1 r1 k2 r2 [[<- <-]|[_ H1]]%lookup_insert_Some [[<- <-]|[_ H2]]%lookup_insert_Some V1 V2 E; eauto; exfalso; by eapply Hd.
  - intros k i Hi. destruct (wi_source0 k i Hi) as (r&Hr&?). exists r. split; [|done]. rewrite lookup_insert_ne; [done|].
    apply wi_delivery_ids0 in Hr. lia.
Qed.

Lemma receipt_case_inv w w' : wh_inv w → receipt_case w w' → wh_inv w'.
Proof.
  intros Hw [Hs|row Hf Hp Hd Hs]; [by eapply wh_inv_same|]. eapply wh_inv_same; [|done]. by apply with_receipt_inv.
Qed.

Lemma with_enqueued_inv inp now d' w :
  wh_inv w → dl_Event (we_Delivery inp) = EventPush →
  job_RepositoryID (we_Job inp) = push_RepositoryID (we_Push inp) → job_Ref (we_Job inp) = push_Ref (we_Push inp) →
  job_CommitSHA (we_Job inp) = push_CommitSHA (we_Push inp) →
  find_delivery (dl_ID (we_Delivery inp)) w = None → find_intent (intent_row (wh_next_delivery w) inp) w = None →
  (∀ k r, wh_deliveries w !! k = Some r → w_verification r = VerificationVerified → w_digest r ≠ w_digest (push_row inp)) →
  (∀ k i, wh_intents w !! k = Some i → i_delivery i ≠ wh_next_delivery w ∧ i_deployment i ≠ job_DeploymentID (we_Job inp)) →
  job_enqueued inp now w d' → wh_inv (with_enqueued inp now d' w).
Proof.
  intros Hw He Er Ef Ec Hf Hi Hd Hn [Ej Hjd]%job_enqueued_jobs.
  pose proof (with_receipt_inv w (processed_at now (push_row inp)) Hw Hf ltac:(done) ltac:(eauto)) as [].
  destruct Hw as [_ ? ? _ _ _ ? ? ? ? ?]. split; simpl in *; rewrite ?Ej; try done.
  - intros k i [[<- _]|[_ Hk]]%lookup_insert_Some; [lia|]. apply wi_intent_ids1 in Hk. lia.
  - intros k j [[<- _]|[_ Hk]]%lookup_insert_Some; [lia|]. apply wi_job_ids1 in Hk. lia.
  - intros k1 i1 k2 i2 [[<- <-]|[_ H1]]%lookup_insert_Some [[<- <-]|[_ H2]]%lookup_insert_Some E; eauto; exfalso.
    + destruct (Hn k2 i2 H2) as [? ?]. destruct E as [(E1&E2&E3&E4&E5)|[E|E]]; simpl in *; [|congruence..].
      by apply (find_None (λ x, same_intent x (intent_row (wh_next_delivery w) inp)) _ _ _ Hi H2).
    + destruct (Hn k1 i1 H1) as [? ?]. destruct E as [E|[E|E]]; simpl in *; [|congruence..].
      by apply (find_None (λ x, same_intent x (intent_row (wh_next_delivery w) inp)) _ _ _ Hi H1).
  - intros k i [[<- <-]|[_ Hk]]%lookup_insert_Some; simpl; [|by eauto]. rewrite lookup_insert_eq. eexists. by split_and!.
  - intros k i [[<- <-]|[_ Hk]]%lookup_insert_Some.
    + exists (wh_next_job w), (job_row (we_Job inp) now). rewrite lookup_insert_eq. split; [done|]. unfold serves. simpl. by split_and!.
    + destruct (wi_served1 k i Hk) as (n&j&Hj&Hs). exists n, j. split; [|done]. rewrite lookup_insert_ne; [done|].
      apply wi_job_ids1 in Hj. lia.
  - intros n j [[<- <-]|[_ Hj]]%lookup_insert_Some.
    + eexists (wh_next_intent w), _. by rewrite lookup_insert_eq.
    + destruct (wi_wanted1 n j Hj) as (k&i&Hk&Ek). exists k, i. split; [|done]. rewrite lookup_insert_ne; [done|].
      apply wi_intent_ids1 in Hk. lia.
  - intros n1 j1 n2 j2 [[<- <-]|[_ H1]]%lookup_insert_Some [[<- <-]|[_ H2]]%lookup_insert_Some E; eauto; exfalso;
      by eapply Hjd.
Qed.

Lemma enqueue_case_inv inp strict now r w w' :
  wh_inv w → dl_Event (we_Delivery inp) = EventPush →
  job_RepositoryID (we_Job inp) = push_RepositoryID (we_Push inp) → job_Ref (we_Job inp) = push_Ref (we_Push inp) →
  job_CommitSHA (we_Job inp) = push_CommitSHA (we_Push inp) → enqueue_case inp strict now r w w' → wh_inv w'.
Proof.
  intros Hw He Er Ef Ec [row _ _ _ _ ->|k i Hf _ _ _ _ Hd ->|d' Hf Hi _ _ _ Hd Hn Hj ->]; [done| |].
  - by apply with_receipt_inv.
  - by apply with_enqueued_inv.
Qed.

(** ** ProcessPush *)

Definition push_identity (t : webhookTarget) (p : Push) : Identity :=
  {| DeploymentID := (webhookIDs t p).1; ProjectID := t_projectID t; EnvironmentID := t_environmentID t;
     ServerID := t_serverID t; CommitSHA := push_CommitSHA p |}.
Definition push_job (t : webhookTarget) (p : Push) (now : Z) : option Job :=
  NewDeploymentExecutionJob (t_ownerID t) (t_projectID t) (t_environmentID t) (t_serverID t) (webhookIDs t p).1
    (push_RepositoryID p) (push_Ref p) (push_CommitSHA p) (webhookIDs t p).2 0 now.

Record pushed (delivery : Delivery) (push : Push) (now : Z) (r : WebhookEnqueueResult) (w w' : WebhookDB)
    (t : webhookTarget) (dep : Deployment) (job : Job) : Prop := {
  pd_verified : verifiedPush delivery = true;
  pd_valid : PushValidate push = true;
  pd_authority : lockWebhookAuthorityForPush push w = inr (t, w);
  pd_deployment : New (push_identity t push) now = inr dep;
  pd_job : push_job t push now = Some job;
  pd_case : enqueue_case {| we_Delivery := delivery; we_Push := push; we_Deployment := dep; we_Job := job |} false now r w w';
}.

Lemma processPush_inv delivery push now w r w' :
  processPush delivery push now w = inr (r, w') → ∃ t dep job, pushed delivery push now r w w' t dep job.
Proof.
  unfold processPush. intros (?&w0&[Hg ->]%tx_guard_inv&H)%tx_bind_inv. apply andb_true_iff in Hg as [Hv Hp].
  apply tx_bind_inv in H as (t&w1&Ht&H). pose proof (lockPush_reads push _ _ _ Ht) as <-.
  destruct (webhookIDs t push) as [did key] eqn:Eids. destruct (New _ now) as [|dep] eqn:En; [done|].
  destruct (NewDeploymentExecutionJob _ _ _ _ _ _ _ _ _ _ _) as [job|] eqn:Ej; [|done].
  apply enqueue_inv in H as [_ Hc]. exists t, dep, job. split; try done; [unfold push_identity|unfold push_job]; by rewrite Eids.
Qed.

Lemma push_job_fields t p now job :
  push_job t p now = Some job →
  job_OwnerID job = t_ownerID t ∧ job_ProjectID job = t_projectID t ∧ job_EnvironmentID job = t_environmentID t ∧
  job_ServerID job = t_serverID t ∧ job_DeploymentID job = (webhookIDs t p).1 ∧ job_RepositoryID job = push_RepositoryID p ∧
  job_Ref job = push_Ref p ∧ job_CommitSHA job = push_CommitSHA p ∧ job_IdempotencyKey job = (webhookIDs t p).2.
Proof. unfold push_job, NewDeploymentExecutionJob. case_match; [|done]. by intros [= <-]. Qed.

Lemma processPush_wh_inv delivery push now w r w' : wh_inv w → processPush delivery push now w = inr (r, w') → wh_inv w'.
Proof.
  intros Hw (t&dep&job&[Hv _ _ _ Hj Hc])%processPush_inv. apply push_job_fields in Hj as (_&_&_&_&_&Er&Ef&Ec&_).
  unfold verifiedPush in Hv. bool_hyps. by eapply enqueue_case_inv in Hc.
Qed.

Lemma enqueueVerifiedPush_wh_inv inp now w r w' : wh_inv w → enqueueVerifiedPush inp now w = inr (r, w') → wh_inv w'.
Proof.
  intros Hw. unfold enqueueVerifiedPush. intros (?&w0&[Hg ->]%tx_guard_inv&H)%tx_bind_inv.
  apply tx_bind_inv in H as (t&w1&<-%lockPush_reads&H). apply enqueue_inv in H as [_ Hc].
  unfold validWebhookEnqueueInput, verifiedPush in Hg. destruct (TakeSnapshot _) as [|s]; [by rewrite andb_false_r in Hg|]. bool_hyps.
  by eapply enqueue_case_inv in Hc.
Qed.

(** ** The system *)

Inductive WCall :=
  | WPush (delivery : Delivery) (push : Push) (now : Z)
  | WEnqueue (inp : WebhookEnqueueInput) (now : Z)
  | WLifecycle (delivery : Delivery) (lifecycle : Lifecycle) (now : Z)
  | WReject (inp : TerminalRejectionInput)
  | WLease (c : Call).

Section system.
Context (errorText : Err → string).

(** A lease call; jobs enter through the webhook repository only. *)
Definition wexec (c : WCall) (w : WebhookDB) : WebhookDB :=
  match c with
  | WPush delivery push now => (ProcessPush delivery push now w).2
  | WEnqueue inp now => (EnqueueVerifiedPush inp now w).2
  | WLifecycle delivery lifecycle now => (ProcessLifecycle delivery lifecycle now w).2
  | WReject inp => (RecordTerminalRejection inp w).2
  | WLease c => if isPush c then w else set_db (exec errorText c (wh_db w)) (wh_payloads w) (wh_next_job w) w
  end.

(** A call; a write of another repository; an administrator's write of the
    GitHub tables (registration, installations, repositories, bindings). *)
Inductive wstep (w : WebhookDB) : WebhookDB → Prop :=
  | wstep_call c : wstep w (wexec c w)
  | wstep_other d' : lease_frame (wh_db w) d' → wstep w (set_db d' (wh_payloads w) (wh_next_job w) w)
  | wstep_authority app ins rs bs : wstep w (set_authority app ins rs bs w).

Definition winitial (w : WebhookDB) : Prop :=
  initial (wh_db w) ∧ wh_deliveries w = ∅ ∧ wh_intents w = ∅.

Inductive wreachable : WebhookDB → Prop :=
  | wreach_init w : winitial w → wreachable w
  | wreach_step w w' : wreachable w → wstep w w' → wreachable w'.

Lemma winitial_inv w : winitial w → wh_inv w.
Proof. intros ((Ej&_)&Ed&Ei). split; rewrite ?Ej, ?Ed, ?Ei; by intros; simplify_map_eq. Qed.

Lemma wexec_inv c w : wh_inv w → wh_inv (wexec c w).
Proof.
  intros Hw. destruct c as [dl p now|inp now|dl l now|inp|c]; simpl; unfold ProcessPush, EnqueueVerifiedPush, ProcessLifecycle, RecordTerminalRejection.
  - eapply run_tx_preserves; [|done]. intros ????. by eapply processPush_wh_inv.
  - eapply run_tx_preserves; [|done]. intros ????. by eapply enqueueVerifiedPush_wh_inv.
  - eapply run_tx_preserves; [|done]. intros ???? ?%lifecycle_case. by eapply receipt_case_inv.
  - eapply run_tx_preserves; [|done]. intros ???? ?%rejection_case. by eapply receipt_case_inv.
  - destruct (isPush c) eqn:Ec; [done|]. eapply wh_inv_frame; simpl; try done. by apply exec_keeps_jobs.
Qed.

Lemma wstep_inv w w' : wh_inv w → wstep w w' → wh_inv w'.
Proof.
  intros Hw [c|d' (E&_)|app ins rs bs]; [by apply wexec_inv|eapply wh_inv_frame; try done..].
  by apply same_jobs_kept.
Qed.

Lemma wreachable_inv w : wreachable w → wh_inv w.
Proof. induction 1; [by apply winitial_inv|]. by eapply wstep_inv. Qed.

Lemma wsteps_inv w w' : wh_inv w → rtc wstep w w' → wh_inv w'.
Proof. intros Hw. induction 1; [done|]. eauto using wstep_inv. Qed.
End system.
