(* ===== verification/WebhookProps.v ===== *)
(** * What the webhook repository guarantees

    One job per pushed commit whatever arrives and however often, the exact
    answer to a redelivery, the authority a push needs and how a lifecycle
    event withdraws it, and the composition with the lease system. *)
From S2P Require Import Prelude GoStd Deployment Queue Schema DeploymentStore LeaseCore Lease LeaseInv LeaseSteps Enqueue LeaseSystem Scenario CallsKeep JobsKept Webhooks WebhookSteps WebhookSystem.
From stdpp Require Import relations.
#[local] Open Scope Z_scope.
#[local] Arguments webhookIDs : simpl never.

(** ** Stored intents and their jobs *)

Lemma job_of_Some dep w n : job_of dep w = Some n → ∃ j, db_jobs (wh_db w) !! n = Some j ∧ j_deployment j = dep.
Proof.
  unfold job_of. intros H. apply fmap_Some in H as ([k j]&H&->). destruct (find_Some (λ x, j_deployment x = dep) _ _ _ H). eauto.
Qed.

Lemma job_of_unique dep w n j :
  wh_inv w → db_jobs (wh_db w) !! n = Some j → j_deployment j = dep → job_of dep w = Some n.
Proof.
  intros Hw Hj Hd. apply fmap_Some. exists (n, j). split; [|done].
  pose proof (find_unique (λ x, j_deployment x = dep) _ n j Hj Hd) as Hu. apply Hu.
  intros k x Hk Hx. eapply wi_one_job; [done..|congruence].
Qed.

(** The job an intent names serves it. *)
Lemma intent_job w k i n j :
  wh_inv w → wh_intents w !! k = Some i → db_jobs (wh_db w) !! n = Some j → j_deployment j = i_deployment i → serves i j.
Proof.
  intros Hw Hi Hj Hd. destruct (wi_served w Hw k i Hi) as (n'&j'&Hj'&Hs). assert (n' = n) as ->.
  { eapply wi_one_job; [done..|]. destruct Hs. congruence. }
  congruence.
Qed.

Lemma job_intent w n j :
  wh_inv w → db_jobs (wh_db w) !! n = Some j → ∃ k i, wh_intents w !! k = Some i ∧ serves i j.
Proof. intros Hw Hj. destruct (wi_wanted w Hw n j Hj) as (k&i&Hi&Hd). eauto using intent_job. Qed.

Lemma find_intent_Some row w k i : find_intent row w = Some (k, i) → wh_intents w !! k = Some i ∧ same_intent i row.
Proof. intros H. exact (find_Some (λ x, same_intent x row) _ _ _ H). Qed.

Lemma find_delivery_Some id w k r : find_delivery id w = Some (k, r) → wh_deliveries w !! k = Some r ∧ w_delivery r = id.
Proof. intros H. exact (find_Some (λ x, w_delivery x = id) _ _ _ H). Qed.

Lemma find_delivery_unique id w k r :
  wh_inv w → wh_deliveries w !! k = Some r → w_delivery r = id → find_delivery id w = Some (k, r).
Proof.
  intros Hw Hk Hd. pose proof (find_unique (λ x, w_delivery x = id) _ k r Hk Hd) as Hu. apply Hu.
  intros k' r' Hk' Hd'. eapply wi_one_delivery; [done..|congruence].
Qed.

Lemma New_identity i t dep : New i t = inr dep → identity dep = i.
Proof. unfold New. destruct (validateIdentity i); [done|]. destruct (t =? 0); [done|]. by intros [= <-]. Qed.

Section runs.
Context (errorText : Err → string).

(** C18: a pushed commit is deployed once. In every reachable state, whatever
    was delivered and redelivered and whatever the agents did in between, two
    jobs for the same owner, project, repository, ref and commit are the same
    job; every job comes from an intent recorded by a verified push of its
    repository that has been processed, every intent has its job, and no
    receipt is left pending. *)
Theorem push_exactly_once w :
  wreachable errorText w →
  (∀ n1 j1 n2 j2, db_jobs (wh_db w) !! n1 = Some j1 → db_jobs (wh_db w) !! n2 = Some j2 →
     j_owner j1 = j_owner j2 → j_project j1 = j_project j2 → j_repository j1 = j_repository j2 →
     j_ref j1 = j_ref j2 → j_commit j1 = j_commit j2 → n1 = n2) ∧
  (∀ n j, db_jobs (wh_db w) !! n = Some j → ∃ k i r,
     wh_intents w !! k = Some i ∧ serves i j ∧ wh_deliveries w !! i_delivery i = Some r ∧
     w_event r = EventPush ∧ w_verification r = VerificationVerified ∧ w_processing r = ProcessingProcessed ∧
     w_repository r = Some (j_repository j)) ∧
  (∀ k i, wh_intents w !! k = Some i → ∃ n j, db_jobs (wh_db w) !! n = Some j ∧ serves i j) ∧
  (∀ k r, wh_deliveries w !! k = Some r → w_processing r ≠ ProcessingPending).
Proof.
  intros Hw%wreachable_inv. split_and!.
  - intros n1 j1 n2 j2 H1 H2 E1 E2 E3 E4 E5.
    destruct (job_intent w n1 j1 Hw H1) as (k1&i1&Hi1&D1&?&?&?&?&?). destruct (job_intent w n2 j2 Hw H2) as (k2&i2&Hi2&D2&?&?&?&?&?).
    assert (k1 = k2) as -> by (eapply wi_one_intent; [done..|left; unfold same_intent; split_and!; congruence]).
    eapply wi_one_job; [done..|congruence].
  - intros n j Hj. destruct (job_intent w n j Hw Hj) as (k&i&Hi&Hs). destruct (wi_source w Hw k i Hi) as (r&?&?&?&?&?).
    exists k, i, r. split_and!; try done. destruct Hs as (_&_&_&->&_). done.
  - apply Hw.
  - apply Hw.
Qed.

(** ** Authority *)

(** The registration is active, the installation belongs to the push's
    account and is live, the repository belongs to it and is live, and an
    active binding of the owner deploys this ref to the target. *)
Definition authorizes (w : WebhookDB) (p : Push) (t : webhookTarget) : Prop :=
  wh_app_active w = true ∧
  ∃ inst repo b bt, wh_installations w !! push_InstallationID p = Some inst ∧ gi_account inst = push_OwnerID p ∧
    gi_active inst = true ∧ gi_suspended inst = false ∧ t_ownerID t = gi_owner inst ∧
    wh_repositories w !! push_RepositoryID p = Some repo ∧ gr_installation repo = push_InstallationID p ∧
    gr_owner repo = gi_owner inst ∧ gr_github_owner repo = push_OwnerID p ∧ gr_active repo = true ∧
    wh_bindings w !! (t_ownerID t, t_projectID t) = Some b ∧ gb_repository b = push_RepositoryID p ∧
    gb_installation b = push_InstallationID p ∧ gb_active b = true ∧ gb_target b = Some bt ∧ bt_ref bt = push_Ref p ∧
    t_environmentID t = bt_environment bt ∧ t_serverID t = bt_server bt.

Lemma head_omap_elem {A B} (f : A → option B) l y : head (omap f l) = Some y → ∃ x, x ∈ l ∧ f x = Some y.
Proof.
  intros H. apply (list_elem_of_omap f l y). destruct (omap f l); [done|]. injection H as ->. by left.
Qed.

Lemma authority_sound p w t w' : lockWebhookAuthorityForPush p w = inr (t, w') → authorizes w p t.
Proof.
  unfold lockWebhookAuthorityForPush. intros (app&w0&[<- ->]%tx_read_inv&H)%tx_bind_inv.
  apply tx_bind_inv in H as (?&w0&[Ha ->]%tx_guard_inv&H). apply tx_bind_inv in H as (inst&w0&[Hi ->]%tx_some_inv&H).
  apply tx_bind_inv in H as (?&w0&[Hg1 ->]%tx_guard_inv&H). apply tx_bind_inv in H as (repo&w0&[Hr ->]%tx_some_inv&H).
  apply tx_bind_inv in H as (?&w0&[Hg2 ->]%tx_guard_inv&[Hb _]%tx_some_inv).
  apply head_omap_elem in Hb as ([[o pr] b]&Hin%elem_of_map_to_list&Hf). simpl in Hf.
  destruct (gb_target b) as [bt|] eqn:Et; [|done]. match type of Hf with (if ?c then _ else _) = _ => destruct c eqn:Ec; [|done] end. injection Hf as <-. bool_hyps. subst o.
  split; [done|]. exists inst, repo, b, bt. simpl. split_and!; try done; try lia.
Qed.

(** ** Pushes *)

Lemma stored_intent_serves w k i n dep id r :
  wh_inv w → wh_intents w !! k = Some i → intentResult id i w = Some r → n = wr_JobID r → dep = wr_DeploymentID r →
  wr_DeliveryID r = id ∧ dep = i_deployment i ∧ ∃ j, db_jobs (wh_db w) !! n = Some j ∧ serves i j.
Proof.
  intros Hw Hi H -> ->. unfold intentResult in H. apply bind_Some in H as (n&(j&Hj&Hd)%job_of_Some&H).
  case_bool_decide; [done|]. injection H as <-. simpl. eauto 6 using intent_job.
Qed.

(** An accepted push. When ProcessPush succeeds for a delivery that was
    not known, the push was authorized by an active registration, a live
    installation and repository of the account that pushed, and an active
    binding that deploys this ref; the receipt is recorded as processed; the
    returned job deploys exactly the pushed commit of the pushed ref for the
    binding's owner and project, and no other job is touched.  If the job did
    not exist before, it is queued for the binding's environment and server
    with no attempt made, and its deployment is a valid aggregate in status
    queued. *)
Theorem push_spec delivery push now w r w' :
  wreachable errorText w → ProcessPush delivery push now w = (inr r, w') →
  find_delivery (dl_ID delivery) w = None →
  ∃ t row j, authorizes w push t ∧
    wh_deliveries w' !! wr_DeliveryID r = Some row ∧ w_delivery row = dl_ID delivery ∧ w_digest row = dl_Digest delivery ∧
    w_processing row = ProcessingProcessed ∧
    db_jobs (wh_db w') !! wr_JobID r = Some j ∧ j_deployment j = wr_DeploymentID r ∧
    j_owner j = t_ownerID t ∧ j_project j = t_projectID t ∧ j_repository j = push_RepositoryID push ∧
    j_ref j = push_Ref push ∧ j_commit j = push_CommitSHA push ∧
    (∀ n, n ≠ wr_JobID r → db_jobs (wh_db w') !! n = db_jobs (wh_db w) !! n) ∧
    (db_jobs (wh_db w) !! wr_JobID r = None →
       j_env j = t_environmentID t ∧ j_server j = t_serverID t ∧ j_state j = JobQueued ∧ j_attempt_count j = 0 ∧
       ∃ dep, db_deployments (wh_db w') !! wr_DeploymentID r = Some (snapshotOf dep) ∧ status dep = StatusQueued ∧
              validate dep = None ∧ CommitSHA (identity dep) = push_CommitSHA push).
Proof.
  intros Hw%wreachable_inv H Hf. unfold ProcessPush, run_tx in H. destruct (processPush _ _ _ _) as [|[r0 w0]] eqn:E; [done|].
  injection H as -> ->. apply processPush_inv in E as (t&dep&job&[Hv Hp Ha Hd Hj Hc]).
  apply authority_sound in Ha. pose proof (push_job_fields _ _ _ _ Hj) as (Eo&Epr&Ee&Es&Edp&Er&Ef&Ec&_).
  destruct Hc as [row Hf' _ _ _ _|k i _ Hi Hr _ _ _ ->|d' _ Hi -> _ _ _ _ Hje ->]; simpl in *; [congruence| |].
  - apply find_intent_Some in Hi as [Hk (E1&E2&E3&E4&E5)]. simpl in *. unfold resultForStoredIntent in Hr. rewrite Hk in Hr. simpl in Hr.
    destruct (stored_intent_serves _ _ _ _ _ _ _ Hw Hk Hr eq_refl eq_refl) as (->&Ed&j&Hjj&(S1&S2&S3&S4&S5&S6)).
    eexists t, _, j. rewrite lookup_insert_eq. split_and!; try done; try congruence.
  - pose proof Hje as (d1&d2&H1&H2&H3). apply job_enqueued_jobs in Hje as [Ej _]. simpl in *.
    eexists t, _, (job_row job now). rewrite Ej, !lookup_insert_eq. split_and!; simpl; try done; try congruence.
    + rewrite (New_identity _ _ _ Hd). simpl. congruence.
    + intros n Hn. by rewrite lookup_insert_ne.
    + intros _. split_and!; try congruence. exists dep. rewrite (New_identity _ _ _ Hd).
      apply (createTx_effect _ _ _ _ _ _ Hd) in H2 as ((_&_&Hval&_)&Hq&_&->). unfold insert_enqueued in H3.
      destruct (existsb _ _); [done|]. injection H3 as <-. simpl. by rewrite lookup_insert_eq.
Qed.

(** ** Receipts, intents and jobs stay *)

Record kept_rows (w w' : WebhookDB) : Prop := {
  kr_deliveries : ∀ k r, wh_deliveries w !! k = Some r → wh_deliveries w' !! k = Some r;
  kr_intents : ∀ k i, wh_intents w !! k = Some i → wh_intents w' !! k = Some i;
  kr_new : ∀ k i, wh_intents w' !! k = Some i → wh_intents w !! k = None → wh_next_delivery w ≤ i_delivery i;
  kr_next : wh_next_delivery w ≤ wh_next_delivery w';
  kr_jobs : ∀ n j, db_jobs (wh_db w) !! n = Some j → ∃ j', db_jobs (wh_db w') !! n = Some j' ∧ jobIdentity j' = jobIdentity j;
}.
#[global] Instance kept_rows_preorder : PreOrder kept_rows.
Proof.
  split; [split; eauto; try lia; congruence|]. intros w1 w2 w3 H1 H2. split.
  - intros. by apply H2, H1.
  - intros. by apply H2, H1.
  - intros k i H3 Hn. pose proof (kr_next _ _ H1). destruct (wh_intents w2 !! k) as [i2|] eqn:E.
    + pose proof (kr_intents _ _ H2 k i2 E). apply (kr_new _ _ H1 k); [congruence|done].
    + pose proof (kr_new _ _ H2 k i H3 E). lia.
  - pose proof (kr_next _ _ H1). pose proof (kr_next _ _ H2). lia.
  - intros n j Hj. destruct (kr_jobs _ _ H1 n j Hj) as (j2&Hj2&E2). destruct (kr_jobs _ _ H2 n j2 Hj2) as (j3&Hj3&E3).
    exists j3. split; [done|congruence].
Qed.

Lemma kept_same w w' :
  jobs_kept (wh_db w) (wh_db w') → wh_deliveries w' = wh_deliveries w → wh_intents w' = wh_intents w →
  wh_next_delivery w' = wh_next_delivery w → kept_rows w w'.
Proof.
  intros Hk E1 E2 E3. split; rewrite ?E1, ?E2, ?E3; try done; try lia; [congruence|].
  intros n j Hj. symmetry in Hk. destruct (kept_job _ _ _ _ Hk Hj) as (j'&Hj'&E). eauto.
Qed.

Lemma kept_receipt w row : wh_inv w → kept_rows w (with_receipt row w).
Proof.
  intros Hw. split; simpl; eauto; try lia; [|congruence]. intros k r Hk. rewrite lookup_insert_ne; [done|].
  apply (wi_delivery_ids w Hw) in Hk. lia.
Qed.

Lemma kept_receipt_case w w' : wh_inv w → receipt_case w w' → kept_rows w w'.
Proof.
  intros Hw [(E1&E2&E3&E4&E5&E6&E7)|row Hf Hp Hd (E1&E2&E3&E4&E5&E6&E7)]; [apply kept_same; try done; by rewrite E1|].
  etrans; [by apply (kept_receipt w row)|]. apply kept_same; try done. by rewrite E1.
Qed.

Lemma kept_enqueue_case inp strict now r w w' : wh_inv w → enqueue_case inp strict now r w w' → kept_rows w w'.
Proof.
  intros Hw [row _ _ _ _ ->|k i _ _ _ _ _ _ ->|d' _ _ _ _ _ _ _ [Ej _]%job_enqueued_jobs ->]; [done|by apply kept_receipt|].
  split; simpl; rewrite ?Ej; [..|lia|].
  - intros k r' Hk. rewrite lookup_insert_ne; [done|]. apply (wi_delivery_ids w Hw) in Hk. lia.
  - intros k i Hk. rewrite lookup_insert_ne; [done|]. apply (wi_intent_ids w Hw) in Hk. lia.
  - intros k i [[<- <-]|[_ Hk]]%lookup_insert_Some Hn; simpl; [lia|congruence].
  - intros n j Hj. exists j. split; [|done]. rewrite lookup_insert_ne; [done|]. apply (wi_job_ids w Hw) in Hj. lia.
Qed.

Lemma run_tx_rel {A} (R : WebhookDB → WebhookDB → Prop) `{!Reflexive R} (m : Tx WebhookDB Err A) w :
  (∀ x w', m w = inr (x, w') → R w w') → R w (run_tx m w).2.
Proof. intros Hm. unfold run_tx. destruct (m w) as [|[x w']] eqn:E; simpl; [done|by eapply Hm]. Qed.

Lemma wstep_kept w w' : wh_inv w → wstep errorText w w' → kept_rows w w'.
Proof.
  intros Hw [c|d' (E&_)|app ins rs bs]; [|by apply kept_same; try done; apply same_jobs_kept|by apply kept_same].
  destruct c as [dl p now|inp now|dl l now|inp|c]; simpl;
    unfold ProcessPush, EnqueueVerifiedPush, ProcessLifecycle, RecordTerminalRejection; try (apply run_tx_rel; [apply _|]).
  - intros x v (t&dep&job&[])%processPush_inv. by eapply kept_enqueue_case.
  - unfold enqueueVerifiedPush. intros x v (?&w0&[_ ->]%tx_guard_inv&H)%tx_bind_inv.
    apply tx_bind_inv in H as (t&w1&<-%lockPush_reads&[_ H]%enqueue_inv). by eapply kept_enqueue_case.
  - intros x v H%lifecycle_case. by apply kept_receipt_case.
  - intros x v H%rejection_case. by apply kept_receipt_case.
  - destruct (isPush c) eqn:Ec; [done|]. apply kept_same; try done. by apply exec_keeps_jobs.
Qed.

Lemma wsteps_kept w w' : wh_inv w → rtc (wstep errorText) w w' → kept_rows w w' ∧ wh_inv w'.
Proof.
  intros Hw Hs. induction Hs as [|w1 w2 w3 Hs _ IH]; [done|]. destruct IH as [? ?]; [by eapply wstep_inv|].
  split; [|done]. etrans; [by apply wstep_kept|done].
Qed.

(** ** Redelivery *)

(** The delivery created an intent (and was not resolved to an existing one). *)
Definition createdIntent (id : Z) (w : WebhookDB) : bool :=
  existsb (λ kv, i_delivery kv.2 =? id) (map_to_list (wh_intents w)).

Lemma createdIntent_true id w : createdIntent id w = true ↔ ∃ k i, wh_intents w !! k = Some i ∧ i_delivery i = id.
Proof.
  unfold createdIntent. rewrite existsb_exists. split.
  - intros ([k i]&Hin&He). apply list_elem_of_In, elem_of_map_to_list in Hin. exists k, i. split; [done|]. simpl in He. lia.
  - intros (k&i&Hk&He). exists (k, i). split; [by apply list_elem_of_In, elem_of_map_to_list|]. simpl. lia.
Qed.

(** The push is authorized and its deployment and job can be built. *)
Definition acceptable (push : Push) (now : Z) (w : WebhookDB) : bool :=
  match lockWebhookAuthorityForPush push w with
  | inl _ => false
  | inr (t, _) => match New (push_identity t push) now, push_job t push now with inr _, Some _ => true | _, _ => false end
  end.

Lemma resultForDelivery_Some id w r :
  resultForDelivery id w = Some r → ∃ k i n j, wh_intents w !! k = Some i ∧ i_delivery i = id ∧ i_deployment i ≠ "" ∧
    db_jobs (wh_db w) !! n = Some j ∧ j_deployment j = i_deployment i ∧
    r = {| wr_DeliveryID := id; wr_DeploymentID := i_deployment i; wr_JobID := n |}.
Proof.
  unfold resultForDelivery, intentResult. intros ([k i]&Hh&H)%bind_Some. destruct (find_Some (λ x, i_delivery x = id) _ _ _ Hh) as [Hk Hd].
  apply bind_Some in H as (n&(j&Hj&Hjd)%job_of_Some&H). case_bool_decide as Hne; [done|]. injection H as <-. simpl in *. by exists k, i, n, j.
Qed.

Lemma resultForDelivery_intro w k i n j :
  wh_inv w → wh_intents w !! k = Some i → i_deployment i ≠ "" → db_jobs (wh_db w) !! n = Some j → j_deployment j = i_deployment i →
  resultForDelivery (i_delivery i) w = Some {| wr_DeliveryID := i_delivery i; wr_DeploymentID := i_deployment i; wr_JobID := n |}.
Proof.
  intros Hw Hi Hne Hj Hd. unfold resultForDelivery. apply bind_Some. exists (k, i). split.
  - pose proof (find_unique (λ x, i_delivery x = i_delivery i) _ k i Hi eq_refl) as Hu. apply Hu.
    intros k' i' Hk' E. eapply wi_one_intent; [done..|]. by right; left.
  - simpl. unfold intentResult. rewrite (job_of_unique _ w n j) by done. simpl. by rewrite bool_decide_false.
Qed.

Lemma resultForDelivery_kept id w w' r :
  wh_inv w' → kept_rows w w' → resultForDelivery id w = Some r → resultForDelivery id w' = Some r.
Proof.
  intros Hw' Hk (k&i&n&j&Hi&<-&Hne&Hj&Hd&->)%resultForDelivery_Some. destruct (kr_jobs _ _ Hk n j Hj) as (j'&Hj'&E).
  apply (resultForDelivery_intro w' k i n j'); try done; [by apply Hk|]. by injection E as _ _ _ _ -> _ _ _ _ _.
Qed.

Lemma resultForDelivery_None id w w' :
  kept_rows w w' → id < wh_next_delivery w → createdIntent id w = false → resultForDelivery id w' = None.
Proof.
  intros Hk Hid Hc. destruct (resultForDelivery id w') as [r|] eqn:E; [exfalso|done].
  apply resultForDelivery_Some in E as (k&i&n&j&Hi&Hd&_). destruct (wh_intents w !! k) as [i0|] eqn:E0.
  - pose proof (kr_intents _ _ Hk k i0 E0) as Hi0. assert (i0 = i) as -> by congruence.
    apply not_true_iff_false in Hc. apply Hc, createdIntent_true. eauto.
  - pose proof (kr_new _ _ Hk k i Hi E0). lia.
Qed.

(** A delivery with a matching receipt is answered from the stored intent. *)
Lemma redelivered_run inp t strict now w id row :
  targetMatches (we_Deployment inp) (we_Job inp) t = true → delivery_check (push_row inp) = true →
  find_delivery (dl_ID (we_Delivery inp)) w = Some (id, row) → receipt_matches inp row →
  enqueueVerifiedPushTx inp t strict now w =
    match resultForDelivery id w with Some r => inr (r, w) | None => inl ErrWebhookIntegrity end.
Proof.
  intros Ht Hc Hf (E1&E2&E3&E4&E5). unfold enqueueVerifiedPushTx, tx_bind, tx_guard. rewrite Ht. simpl.
  unfold insertOrResolveDelivery, orIntegrity, insert_delivery, tx_bind. rewrite Hc. simpl. rewrite Hf. simpl.
  unfold tx_some. rewrite Hf. rewrite E3, E4, E5. unfold tx_guard. rewrite E1, E2, !bool_decide_true, !Z.eqb_refl by done. simpl.
  by destruct (resultForDelivery id w).
Qed.

Lemma push_targetMatches t p now dep job :
  New (push_identity t p) now = inr dep → push_job t p now = Some job → targetMatches dep job t = true.
Proof.
  intros Hd%New_identity (E1&E2&E3&E4&_)%push_job_fields. unfold targetMatches.
  by rewrite Hd, E1, E2, E3, E4, !bool_decide_true.
Qed.

Lemma lockPush_error p w e : lockWebhookAuthorityForPush p w = inl e → e = ErrWebhookUnauthorized.
Proof.
  unfold lockWebhookAuthorityForPush, tx_bind, tx_read, tx_guard, tx_some. cbn beta iota.
  destruct (wh_app_active w); [|by intros [= <-]]. simpl. destruct (wh_installations w !! _) as [inst|]; [|by intros [= <-]].
  destruct (_ && negb (gi_suspended inst)); [|by intros [= <-]]. simpl.
  destruct (wh_repositories w !! _) as [repo|]; [|by intros [= <-]]. destruct (_ && gr_active repo); [|by intros [= <-]]. simpl.
  destruct (bindingFor _ _ _ _ w); [done|by intros [= <-]].
Qed.

(** The receipt a successful call leaves or finds. *)
Lemma pushed_receipt delivery push now r w w' t dep job :
  wh_inv w → pushed delivery push now r w w' t dep job →
  wr_DeliveryID r < wh_next_delivery w' ∧
  (∃ row, wh_deliveries w' !! wr_DeliveryID r = Some row ∧ w_delivery row = dl_ID delivery ∧
     ∀ dep' job', let inp := {| we_Delivery := delivery; we_Push := push; we_Deployment := dep'; we_Job := job' |} in
       receipt_matches inp row ∧ delivery_check (push_row inp) = true) ∧
  (createdIntent (wr_DeliveryID r) w' = true → resultForDelivery (wr_DeliveryID r) w' = Some r).
Proof.
  intros Hw [Hv Hp Ha Hd Hj Hc]. pose proof (push_job_fields _ _ _ _ Hj) as (_&_&_&_&Edp&_).
  assert (wh_inv w') as Hw'.
  { apply push_job_fields in Hj as (_&_&_&_&_&Er&Ef&Ec&_). unfold verifiedPush in Hv. bool_hyps. by eapply enqueue_case_inv in Hc. }
  destruct Hc as [row Hf Hck Hm Hr ->|k i Hf Hi Hr Hck _ _ ->|d' Hf Hi -> Hck _ _ _ Hje ->]; simpl in *.
  - apply find_delivery_Some in Hf as [Hf Hdl]. split_and!; [by eapply wi_delivery_ids|by exists row|done].
  - unfold resultForStoredIntent in Hr. apply find_intent_Some in Hi as [Hk _]. rewrite Hk in Hr. simpl in Hr.
    destruct (stored_intent_serves _ _ _ _ _ _ _ Hw Hk Hr eq_refl eq_refl) as (->&_&_).
    split_and!; [lia|eexists; rewrite lookup_insert_eq; by split_and!|].
    intros (k2&i2&Hi2&E)%createdIntent_true. simpl in Hi2. exfalso.
    destruct (wi_source w Hw k2 i2 Hi2) as (r2&Hr2&_). apply (wi_delivery_ids w Hw) in Hr2. lia.
  - split_and!; [lia|eexists; rewrite lookup_insert_eq; by split_and!|]. intros _. apply job_enqueued_jobs in Hje as [Ej _].
    pose proof (resultForDelivery_intro _ (wh_next_intent w)
      (intent_row (wh_next_delivery w) {| we_Delivery := delivery; we_Push := push; we_Deployment := dep; we_Job := job |})
      (wh_next_job w) (job_row job now) Hw') as H. simpl in H. rewrite Ej, !lookup_insert_eq in H.
    rewrite (New_identity _ _ _ Hd). simpl. rewrite <-Edp. apply H; try done. rewrite Edp. done.
Qed.

(** C20: redelivery. After a delivery has been accepted, sending it again, at
    any time and after anything else has happened, changes nothing.  The
    answer is exact: refused as unauthorized when the binding no longer
    authorizes the push; otherwise the very result of the first time, if the
    delivery created its intent; and otherwise an integrity error. *)
Theorem redelivery_spec delivery push now w r w' w'' now' :
  wreachable errorText w → ProcessPush delivery push now w = (inr r, w') → rtc (wstep errorText) w' w'' →
  ProcessPush delivery push now' w'' =
    (if acceptable push now' w'' then if createdIntent (wr_DeliveryID r) w' then inr r else inl ErrWebhookIntegrity
     else inl ErrWebhookUnauthorized, w'').
Proof.
  intros Hw%wreachable_inv H Hs. unfold ProcessPush, run_tx in H. destruct (processPush _ _ _ _) as [|[r0 w0]] eqn:E; [done|].
  injection H as -> ->. pose proof (processPush_wh_inv _ _ _ _ _ _ Hw E) as Hw'.
  apply processPush_inv in E as (t&dep&job&Hp). destruct (wsteps_kept _ _ Hw' Hs) as [Hk Hw''].
  destruct (pushed_receipt _ _ _ _ _ _ _ _ _ Hw Hp) as (Hid&(row&Hrow&Hdl&Hm)&Hres).
  pose proof (find_delivery_unique _ _ _ _ Hw'' (kr_deliveries _ _ Hk _ _ Hrow) Hdl) as Hf.
  destruct Hp as [Hv Hpv _ _ _ _]. unfold ProcessPush, run_tx, processPush, acceptable, tx_bind at 1, tx_guard at 1.
  rewrite Hv, Hpv. cbn beta iota delta [andb tx_ret]. unfold tx_bind. destruct (lockWebhookAuthorityForPush push w'') as [e|[t' w1]] eqn:El.
  { by rewrite (lockPush_error _ _ _ El). }
  pose proof (lockPush_reads _ _ _ _ El) as <-. unfold push_identity, push_job. destruct (webhookIDs t' push) as [did key] eqn:Eids.
  cbn beta iota delta [fst snd]. destruct (New _ now') as [|dep'] eqn:En; [done|].
  destruct (NewDeploymentExecutionJob _ _ _ _ _ _ _ _ _ _ _) as [job'|] eqn:Ej; [|done].
  destruct (Hm dep' job') as [Hm1 Hm2].
  rewrite (redelivered_run _ t' false now' w'' (wr_DeliveryID r) row); try done.
  - destruct (createdIntent (wr_DeliveryID r) w') eqn:Ec.
    + by rewrite (resultForDelivery_kept _ w' w'' r) by auto.
    + by rewrite (resultForDelivery_None _ w' w'').
  - simpl. apply (push_targetMatches t' push now'); [unfold push_identity|unfold push_job]; by rewrite Eids.
Qed.

(** ** Withdrawal of authority *)

(** No installation or repository has come alive. *)
Definition no_revival (w w' : WebhookDB) : Prop :=
  (∀ k x', wh_installations w' !! k = Some x' → gi_active x' = true → ∃ x, wh_installations w !! k = Some x ∧ gi_active x = true) ∧
  (∀ k x', wh_repositories w' !! k = Some x' → gr_active x' = true → ∃ x, wh_repositories w !! k = Some x ∧ gr_active x = true).
#[global] Instance no_revival_preorder : PreOrder no_revival.
Proof.
  split; [split; eauto|]. intros w1 w2 w3 [H1 H2] [H3 H4]. split.
  - intros k x Hx Ha. destruct (H3 k x Hx Ha) as (?&?&?). eauto.
  - intros k x Hx Ha. destruct (H4 k x Hx Ha) as (?&?&?). eauto.
Qed.
Lemma same_authority w w' : wh_installations w' = wh_installations w → wh_repositories w' = wh_repositories w → no_revival w w'.
Proof. unfold no_revival. intros -> ->. split; eauto. Qed.

Lemma suspend_effect n o w u w' :
  suspendInstallation n o w = inr (u, w') → no_revival w w' ∧ ∃ x, wh_installations w' !! n = Some x ∧ gi_active x = false.
Proof.
  unfold suspendInstallation. intros (inst&w0&[Hi ->]%tx_some_inv&H)%tx_bind_inv.
  apply tx_bind_inv in H as (?&w0&[_ ->]%tx_guard_inv&->%tx_write_inv). simpl. split; [split|]; simpl.
  - intros k y [[<- <-]|[_ Hk]]%lookup_insert_Some; simpl; [done|eauto].
  - intros k y'. rewrite lookup_fmap. intros (y&Hy&->)%fmap_Some. case_match; simpl; [done|eauto].
  - exists (suspend inst). by rewrite lookup_insert_eq.
Qed.

Lemma remove_effect n id w u w' :
  removeRepository n id w = inr (u, w') → no_revival w w' ∧ ∃ x, wh_repositories w' !! id = Some x ∧ gr_active x = false.
Proof.
  unfold removeRepository. intros (repo&w0&[Hi ->]%tx_some_inv&H)%tx_bind_inv.
  apply tx_bind_inv in H as (?&w0&[_ ->]%tx_guard_inv&->%tx_write_inv). simpl. split; [split|]; simpl.
  - eauto.
  - intros k y [[<- <-]|[_ Hk]]%lookup_insert_Some; simpl; [done|eauto].
  - exists (retire_repository repo). by rewrite lookup_insert_eq.
Qed.

(** Retired rows stay retired while nothing comes alive. *)
Definition installation_dead (n : Z) (w : WebhookDB) : Prop := ∀ x, wh_installations w !! n = Some x → gi_active x = false.
Definition repository_dead (id : Z) (w : WebhookDB) : Prop := ∀ x, wh_repositories w !! id = Some x → gr_active x = false.
Lemma dead_stays w w' n id :
  no_revival w w' → (installation_dead n w → installation_dead n w') ∧ (repository_dead id w → repository_dead id w').
Proof.
  intros [H1 H2]. split; intros Hd x Hx; apply not_true_iff_false; intros Ha.
  - destruct (H1 _ _ Hx Ha) as (y&Hy&Hya). rewrite (Hd y Hy) in Hya. done.
  - destruct (H2 _ _ Hx Ha) as (y&Hy&Hya). rewrite (Hd y Hy) in Hya. done.
Qed.

Lemma remove_all n ids w u w' :
  forEach (removeRepository n) ids w = inr (u, w') → no_revival w w' ∧ ∀ id, id ∈ ids → repository_dead id w'.
Proof.
  revert w. induction ids as [|i ids IH]; intros w H; simpl in H.
  - tx_inv. split; [done|]. by intros id ?%elem_of_nil.
  - apply tx_bind_inv in H as (?&w1&[Hr (x&Hx&Hxa)]%remove_effect&H). destruct (IH _ H) as [Hr' Hd]. split; [by etrans|].
    intros id [->|Hin]%elem_of_cons; [|auto]. apply (dead_stays w1 w' 0 i Hr'). intros y Hy. congruence.
Qed.

Lemma lifecycle_effect_spec l w u w' :
  lifecycleEffect l w = inr (u, w') →
  no_revival w w' ∧
  (lc_Event l = EventInstallation → lc_Action l ∈ ["deleted"; "suspend"] → installation_dead (lc_InstallationID l) w') ∧
  (lc_Event l = EventInstallationRepositories → lc_Action l = "removed" →
   ∀ id, id ∈ lc_RepositoryIDs l → repository_dead id w').
Proof.
  unfold lifecycleEffect. destruct (lc_Event l); simpl; intros (v&w1&H1&H2)%tx_bind_inv.
  - tx_inv. by split_and!.
  - tx_inv. destruct (decide (lc_Action l ∈ ["deleted"; "suspend"])) as [Ha|Ha].
    + rewrite bool_decide_true in H1 by done. apply suspend_effect in H1 as [Hr (x&Hx&Hxa)].
      split_and!; [done|intros _ _ y Hy; congruence|done].
    + rewrite bool_decide_false in H1 by done. tx_inv. by split_and!.
  - tx_inv. destruct (decide (lc_Action l = "removed")) as [Ha|Ha].
    + rewrite bool_decide_true in H2 by done. apply remove_all in H2 as [Hr Hd]. by split_and!.
    + rewrite bool_decide_false in H2 by done. tx_inv. by split_and!.
Qed.

Lemma revival_enqueue inp strict now r w w' : enqueue_case inp strict now r w w' → no_revival w w'.
Proof. by intros [row _ _ _ _ ->|k i _ _ _ _ _ _ ->|d' _ _ _ _ _ _ _ _ ->]; [|apply same_authority..]. Qed.

Lemma revival_insert_delivery row : tx_rel no_revival (insert_delivery row).
Proof. intros w x w' [(->&->&_)|(_&_&->&_)]%insert_delivery_inv; [done|by apply same_authority]. Qed.
Lemma revival_mark id now : tx_rel no_revival (markDeliveryProcessed id now).
Proof.
  intros w x w' H. unfold markDeliveryProcessed in H. destruct (wh_deliveries w !! id) as [r|]; [|done].
  destruct (_ && _); [|done]. destruct (negb (validate_delivery_update _ _)); [done|]. destruct (negb (delivery_check _)); [done|].
  injection H as _ <-. by apply same_authority.
Qed.
Lemma revival_repositories id ids : tx_rel no_revival (insertLifecycleRepositories id ids).
Proof.
  apply (rel_forEach _). intros x w u w'. destruct (wh_deliveries w !! id); [|done]. cbv zeta.
  destruct (negb (_ && _)); [done|]. destruct (negb (0 <? x)); [done|]. case_bool_decide; [done|]. intros [= _ <-].
  by apply same_authority.
Qed.

Lemma processLifecycle_authority d l now w u w' :
  processLifecycle d l now w = inr (u, w') →
  no_revival w w' ∧
  (find_delivery (dl_ID d) w = None →
   (lc_Event l = EventInstallation → lc_Action l ∈ ["deleted"; "suspend"] → installation_dead (lc_InstallationID l) w') ∧
   (lc_Event l = EventInstallationRepositories → lc_Action l = "removed" →
    ∀ id, id ∈ lifecycleRepositoryIDs l → repository_dead id w')).
Proof.
  unfold processLifecycle. intros (?&w0&[_ ->]%tx_guard_inv&H)%tx_bind_inv.
  apply tx_bind_inv in H as (?&w1&<-%lockLifecycle_reads&H).
  apply tx_bind_inv in H as (o&w1&H1&H). pose proof (revival_insert_delivery _ _ _ _ H1) as Hr1.
  apply insert_delivery_inv in H1 as [(->&->&_&kv&Hkv)|(->&Hf&->&_)].
  - apply tx_bind_inv in H as ([id r]&w1&[_ ->]%tx_some_inv&H). unfold lifecycleRepositoriesMatch in H. tx_inv.
    split; [done|]. simpl in Hkv. by rewrite Hkv.
  - apply tx_bind_inv in H as (?&w2&Hr2%revival_repositories&H). apply tx_bind_inv in H as (?&w3&(Hr3&Hd1&Hd2)%lifecycle_effect_spec&Hr4%revival_mark).
    split; [by repeat (etrans; [done|])|]. intros _. split.
    + intros He Ha. apply (dead_stays w3 w' _ 0 Hr4). by apply Hd1.
    + intros He Ha id Hid. apply (dead_stays w3 w' 0 id Hr4). by apply Hd2.
Qed.

(** Calls of the repositories, without an administrator's write of the GitHub
    tables. *)
Inductive callstep (w : WebhookDB) : WebhookDB → Prop :=
  | callstep_call c : callstep w (wexec errorText c w)
  | callstep_other d' : lease_frame (wh_db w) d' → callstep w (set_db d' (wh_payloads w) (wh_next_job w) w).

Lemma callstep_revival w w' : callstep w w' → no_revival w w'.
Proof.
  intros [c|d' _]; [|by apply same_authority]. destruct c as [dl p now|inp now|dl l now|inp|c]; simpl;
    unfold ProcessPush, EnqueueVerifiedPush, ProcessLifecycle, RecordTerminalRejection; try (apply run_tx_rel; [apply _|]).
  - intros x v (t&dep&job&[])%processPush_inv. by eapply revival_enqueue.
  - unfold enqueueVerifiedPush. intros x v (?&w0&[_ ->]%tx_guard_inv&H)%tx_bind_inv.
    apply tx_bind_inv in H as (t&w1&<-%lockPush_reads&[_ H]%enqueue_inv). by eapply revival_enqueue.
  - by intros x v [? _]%processLifecycle_authority.
  - unfold recordTerminalRejection. intros x v (?&w0&[_ ->]%tx_guard_inv&H)%tx_bind_inv.
    apply tx_bind_inv in H as (o&w1&H1%orIntegrity_inv%revival_insert_delivery&H). destruct o; [by tx_inv|].
    apply tx_bind_inv in H as ([id r]&w2&[_ ->]%tx_some_inv&H). by tx_inv.
  - destruct (isPush c); [done|]. by apply same_authority.
Qed.

Lemma callsteps_revival w w' : rtc callstep w w' → no_revival w w'.
Proof. induction 1 as [|w1 w2 w3 H _ IH]; [done|]. etrans; [by apply callstep_revival|done]. Qed.

Lemma dead_refused delivery push now w :
  installation_dead (push_InstallationID push) w ∨ repository_dead (push_RepositoryID push) w →
  ProcessPush delivery push now w = (inl ErrWebhookUnauthorized, w).
Proof.
  intros Hd. apply run_tx_inl. unfold processPush, tx_bind at 1, tx_guard at 1. destruct (verifiedPush delivery && PushValidate push); [|done].
  cbn beta iota delta [tx_ret]. unfold tx_bind at 1. destruct (lockWebhookAuthorityForPush push w) as [e|[t w1]] eqn:El.
  - by rewrite (lockPush_error _ _ _ El).
  - exfalso. apply authority_sound in El as (_&inst&repo&b&bt&Hi&_&Hia&_&_&Hr&_&_&_&Hra&_). destruct Hd as [Hd|Hd].
    + by rewrite (Hd inst Hi) in Hia.
    + by rewrite (Hd repo Hr) in Hra.
Qed.

(** C21: authority is withdrawn at once. After a suspension or deletion of an
    installation, or the removal of repositories, has been processed, every
    push of that installation or those repositories is refused and changes
    nothing, whatever deliveries and agent calls follow, until an
    administrator writes the GitHub tables again. *)
Theorem lifecycle_withdraws d l now w w' w'' delivery push now' :
  ProcessLifecycle d l now w = (inr tt, w') → find_delivery (dl_ID d) w = None → rtc callstep w' w'' →
  (lc_Event l = EventInstallation ∧ lc_Action l ∈ ["deleted"; "suspend"] ∧ push_InstallationID push = lc_InstallationID l) ∨
  (lc_Event l = EventInstallationRepositories ∧ lc_Action l = "removed" ∧ push_RepositoryID push ∈ lifecycleRepositoryIDs l) →
  ProcessPush delivery push now' w'' = (inl ErrWebhookUnauthorized, w'').
Proof.
  intros H Hf Hs%callsteps_revival Hl. unfold ProcessLifecycle, run_tx in H. destruct (processLifecycle _ _ _ _) as [|[u v]] eqn:E; [done|].
  injection H as _ ->. apply processLifecycle_authority in E as [_ Hd]. destruct (Hd Hf) as [Hi Hr]. apply dead_refused.
  destruct Hl as [(He&Ha&->)|(He&Ha&Hin)].
  - left. apply (dead_stays _ _ _ 0 Hs). by apply Hi.
  - right. apply (dead_stays _ _ 0 _ Hs). by apply Hr.
Qed.

(** ** The lease system underneath *)

(** [EnqueueVerifiedPush], which takes a deployment and a job the caller has
    built, is not called by the program. *)
Definition production (c : WCall) : bool := match c with WEnqueue _ _ => false | _ => true end.
Inductive pstep (w : WebhookDB) : WebhookDB → Prop :=
  | pstep_call c : production c = true → pstep w (wexec errorText c w)
  | pstep_other d' : lease_frame (wh_db w) d' → pstep w (set_db d' (wh_payloads w) (wh_next_job w) w)
  | pstep_authority app ins rs bs : pstep w (set_authority app ins rs bs w).

Lemma onUnique_run {A} (m : Tx DB Err A) d x : m d = inr x → onUnique m d = inr x.
Proof. unfold onUnique. by intros ->. Qed.

(** A push that creates a job is a [CallPush] of the lease system. *)
Lemma pushed_new delivery push now w t dep job d' :
  PushValidate push = true → New (push_identity t push) now = inr dep → push_job t push now = Some job →
  job_enqueued {| we_Delivery := delivery; we_Push := push; we_Deployment := dep; we_Job := job |} now w d' →
  d' = exec errorText (CallPush (wh_next_job w) (keyTaken (job_OwnerID job) (job_IdempotencyKey job) w) t push now) (wh_db w).
Proof.
  intros Hp Hd Hj (d1&d2&H1&H2&H3). cbn [exec we_Job we_Deployment] in *. pose proof (push_targetMatches _ _ _ _ _ Hd Hj) as Ht.
  unfold run_tx, processPushTx, tx_bind at 1, tx_guard at 1. rewrite Hp. cbn beta iota delta [tx_ret].
  unfold push_identity, push_job in Hd, Hj. destruct (webhookIDs t push) as [did key]. cbn beta iota delta [fst snd] in *.
  rewrite Hd, Hj. unfold enqueueNewIntent, tx_bind, tx_guard. rewrite Ht. cbn beta iota delta [tx_ret].
  by rewrite (onUnique_run _ _ _ H1), (onUnique_run _ _ _ H2), H3.
Qed.

Definition lease_run (w w' : WebhookDB) : Prop := rtc (step errorText) (wh_db w) (wh_db w').
#[local] Instance lease_run_refl : Reflexive lease_run.
Proof. intros w. unfold lease_run. done. Qed.

Lemma pstep_refines w w' : pstep w w' → lease_run w w'.
Proof.
  intros [c Hc|d' Hf|app ins rs bs]; [|by apply rtc_once, step_other|by unfold lease_run].
  destruct c as [dl p now|inp now|dl l now|inp|c]; simpl; try done;
    unfold ProcessPush, ProcessLifecycle, RecordTerminalRejection;
    try (apply (run_tx_rel lease_run)).
  - intros x v (t&dep&job&[Hv Hp Ha Hd Hj Hcase])%processPush_inv.
    unfold lease_run. destruct Hcase as [row _ _ _ _ ->|k i _ _ _ _ _ _ ->|d' _ _ _ _ _ _ _ Hje ->]; [done..|]. simpl.
    rewrite (pushed_new _ _ _ _ _ _ _ _ Hp Hd Hj Hje). apply rtc_once, step_call.
  - intros x v [(E&_)|row _ _ _ (E&_)]%lifecycle_case; unfold lease_run; simpl in *; by rewrite E.
  - intros x v [(E&_)|row _ _ _ (E&_)]%rejection_case; unfold lease_run; simpl in *; by rewrite E.
  - destruct (isPush c); [done|]. apply rtc_once, step_call.
Qed.

(** C19: composition. Every run of the webhook and lease repositories together
    is, on the lease tables, a run of the lease system in which jobs enter by
    [CallPush] only; so from an initial state it reaches only states the lease
    theorems cover. *)
Theorem webhook_refines_lease w w' :
  rtc pstep w w' →
  rtc (step errorText) (wh_db w) (wh_db w') ∧ (winitial w → reachable errorText (wh_db w')).
Proof.
  intros Hs. assert (rtc (step errorText) (wh_db w) (wh_db w')) as H.
  { induction Hs as [|w1 w2 w3 Hs _ IH]; [done|]. etrans; [by apply pstep_refines|done]. }
  split; [done|]. intros [Hi _]. eapply reachable_steps; [by apply reach_init|done].
Qed.
End runs.

(** ** Instances *)

Lemma push_wstep e delivery push now w r w' : ProcessPush delivery push now w = (r, w') → wstep e w w'.
Proof. intros H. pose proof (wstep_call e w (WPush delivery push now)) as Hs. unfold wexec in Hs. by rewrite H in Hs. Qed.
Lemma push_pstep e delivery push now w r w' : ProcessPush delivery push now w = (r, w') → pstep e w w'.
Proof. intros H. pose proof (pstep_call e w (WPush delivery push now) eq_refl) as Hs. unfold wexec in Hs. by rewrite H in Hs. Qed.

Definition webhook_0 : WebhookDB :=
  {| wh_db := db_empty; wh_deliveries := ∅; wh_intents := ∅; wh_lifecycle := ∅; wh_payloads := ∅; wh_app_active := true;
     wh_installations := {[3 := {| gi_owner := "owner"; gi_account := 5; gi_active := true; gi_suspended := false; gi_revision := 1 |}]};
     wh_repositories := {[4 := {| gr_installation := 3; gr_owner := "owner"; gr_github_owner := 5; gr_active := true; gr_revision := 1 |}]};
     wh_bindings := {[("owner", "project") :=
       {| gb_repository := 4; gb_installation := 3; gb_active := true; gb_revision := 1;
          gb_target := Some {| bt_ref := "refs/heads/main"; bt_environment := "env"; bt_server := "server" |} |}]};
     wh_next_delivery := 1; wh_next_intent := 1; wh_next_job := 1 |}.
Definition exampleDelivery (id : string) (event : EventType) : Delivery :=
  {| dl_ID := id; dl_Event := event; dl_Digest := Sum256 id; dl_Verification := VerificationVerified;
     dl_Processing := ProcessingPending; dl_Failure := FailureNone |}.
Definition delivery_1 : Delivery := exampleDelivery "delivery-1" EventPush.
(** The same commit, pushed to the ref a second time. *)
Definition delivery_2 : Delivery := exampleDelivery "delivery-2" EventPush.
Definition delivery_3 : Delivery := exampleDelivery "delivery-3" EventInstallation.
Definition exampleSuspension : Lifecycle :=
  {| lc_Event := EventInstallation; lc_InstallationID := 3; lc_RepositoryID := 0; lc_OwnerID := 5; lc_RepositoryIDs := []; lc_Action := "suspend" |}.

Definition webhook_1 : WebhookDB := Eval vm_compute in (ProcessPush delivery_1 (examplePush sha_a) (at_second 1) webhook_0).2.
Definition webhook_2 : WebhookDB := Eval vm_compute in (ProcessPush delivery_2 (examplePush sha_a) (at_second 2) webhook_1).2.
Definition webhook_3 : WebhookDB := Eval vm_compute in (ProcessLifecycle delivery_3 exampleSuspension (at_second 3) webhook_2).2.
Definition result_1 : WebhookEnqueueResult :=
  {| wr_DeliveryID := 1; wr_DeploymentID := (webhookIDs exampleTarget (examplePush sha_a)).1; wr_JobID := 1 |}.
Definition result_2 : WebhookEnqueueResult :=
  {| wr_DeliveryID := 2; wr_DeploymentID := (webhookIDs exampleTarget (examplePush sha_a)).1; wr_JobID := 1 |}.

Lemma push_1 : ProcessPush delivery_1 (examplePush sha_a) (at_second 1) webhook_0 = (inr result_1, webhook_1).
Proof. vm_compute. reflexivity. Qed.
Lemma push_2 : ProcessPush delivery_2 (examplePush sha_a) (at_second 2) webhook_1 = (inr result_2, webhook_2).
Proof. vm_compute. reflexivity. Qed.
Lemma suspension_3 : ProcessLifecycle delivery_3 exampleSuspension (at_second 3) webhook_2 = (inr tt, webhook_3).
Proof. vm_compute. reflexivity. Qed.

Lemma webhook_0_initial : winitial webhook_0.
Proof. done. Qed.
Lemma webhook_1_reachable : wreachable noErrorText webhook_1.
Proof. eapply wreach_step; [apply wreach_init, webhook_0_initial|eapply push_wstep, push_1]. Qed.
Lemma webhook_2_reachable : wreachable noErrorText webhook_2.
Proof. eapply wreach_step; [apply webhook_1_reachable|eapply push_wstep, push_2]. Qed.

Lemma push_exactly_once_witness :
  ∃ k i r, wh_intents webhook_2 !! k = Some i ∧ wh_deliveries webhook_2 !! i_delivery i = Some r ∧ w_event r = EventPush.
Proof.
  destruct (push_exactly_once noErrorText webhook_2 webhook_2_reachable) as (_&H&_).
  assert (∃ j, db_jobs (wh_db webhook_2) !! 1 = Some j) as [j Hj] by (eexists; vm_compute; reflexivity).
  destruct (H 1 j Hj) as (k&i&r&Hi&_&Hr&He&_). exists k, i, r. exact (conj Hi (conj Hr He)).
Defined.

Lemma push_spec_witness :
  ∃ t j, authorizes webhook_0 (examplePush sha_a) t ∧ db_jobs (wh_db webhook_1) !! 1 = Some j ∧ j_env j = "env" ∧ j_commit j = sha_a.
Proof.
  destruct (push_spec noErrorText delivery_1 (examplePush sha_a) (at_second 1) webhook_0 result_1 webhook_1)
    as (t&row&j&Ha&_&_&_&_&Hj&_&_&_&_&_&Hc&_).
  - apply wreach_init, webhook_0_initial.
  - apply push_1.
  - reflexivity.
  - exists t, j. split; [exact Ha|]. split; [exact Hj|]. split; [|exact Hc].
    assert (j_env <$> db_jobs (wh_db webhook_1) !! 1 = Some "env") as He by (vm_compute; reflexivity).
    change (wr_JobID result_1) with 1 in Hj. rewrite Hj in He. by injection He.
Defined.

(** The first delivery is answered as before; the second, which was accepted
    and resolved to the first one's intent, is refused when repeated. *)
Lemma redelivery_spec_witness :
  ProcessPush delivery_1 (examplePush sha_a) (at_second 9) webhook_2 = (inr result_1, webhook_2) ∧
  ProcessPush delivery_2 (examplePush sha_a) (at_second 9) webhook_2 = (inl ErrWebhookIntegrity, webhook_2).
Proof.
  split.
  - rewrite (redelivery_spec noErrorText delivery_1 (examplePush sha_a) (at_second 1) webhook_0 result_1 webhook_1 webhook_2 (at_second 9)).
    + vm_compute. reflexivity.
    + apply wreach_init, webhook_0_initial.
    + apply push_1.
    + eapply rtc_once, push_wstep, push_2.
  - rewrite (redelivery_spec noErrorText delivery_2 (examplePush sha_a) (at_second 2) webhook_1 result_2 webhook_2 webhook_2 (at_second 9)).
    + vm_compute. reflexivity.
    + apply webhook_1_reachable.
    + apply push_2.
    + apply rtc_refl.
Defined.

Lemma lifecycle_withdraws_witness :
  ProcessPush delivery_1 (examplePush sha_b) (at_second 9) webhook_3 = (inl ErrWebhookUnauthorized, webhook_3).
Proof.
  apply (lifecycle_withdraws noErrorText delivery_3 exampleSuspension (at_second 3) webhook_2 webhook_3 webhook_3).
  - apply suspension_3.
  - vm_compute. reflexivity.
  - apply rtc_refl.
  - left. split; [reflexivity|]. split; [|reflexivity]. simpl. set_solver.
Defined.

Lemma webhook_refines_lease_witness : reachable noErrorText (wh_db webhook_1).
Proof.
  apply (webhook_refines_lease noErrorText webhook_0 webhook_1); [|apply webhook_0_initial].
  eapply rtc_once, push_pstep, push_1.
Defined.
