(* ===== verification/Servers.v ===== *)
(** * Server identity (src/internal/store/postgres/server_repository.go,
    src/internal/server/server.go, migration 000012)

    Registered servers, their enrollment tokens and bearer credentials, and
    the audit trail.  Each repository method is one transaction; [clk] lists
    the readings of [clock_timestamp()] in the order in which the method's
    statements take them, so nothing is assumed about the clock between two
    of them.  Connection loss and fault injection only roll back.

    The lease repository sees this state through [leaseView]. *)
From S2P Require Import Prelude GoStd Queue Schema LeaseCore Lease.
From Stdlib Require Import Ascii.
From stdpp Require Import sorting.
#[local] Open Scope Z_scope.

(** ** Servers (server.go) *)

Inductive SrvStatus := SrvActive | SrvRevoked.
#[global] Instance SrvStatus_eq_dec : EqDecision SrvStatus.
Proof. solve_decision. Defined.

Definition ProtocolVersion : Z := 1.

(** [server.Server] without its id; the row of [servers]. *)
Record Server := {
  sv_owner : string; sv_name : string; sv_protocol : Z; sv_status : SrvStatus;
  sv_created : Z; sv_revoked : option Z; sv_heartbeat : option Z;
}.

(** The UTF-8 forms of the white space [strings.TrimSpace] cuts. *)
Definition whiteSpace : list string :=
  Sha256.string_of_bytes <$>
  [[9]; [10]; [11]; [12]; [13]; [32]; [194; 133]; [194; 160]; [225; 154; 128];
   [226; 128; 128]; [226; 128; 129]; [226; 128; 130]; [226; 128; 131]; [226; 128; 132]; [226; 128; 133];
   [226; 128; 134]; [226; 128; 135]; [226; 128; 136]; [226; 128; 137]; [226; 128; 138];
   [226; 128; 168]; [226; 128; 169]; [226; 128; 175]; [226; 129; 159]; [227; 128; 128]].

(** [strings.TrimSpace(s) == s] for valid UTF-8: no white space at either end. *)
Definition trimmed (s : string) : bool :=
  negb (existsb (HasPrefix s) whiteSpace) && negb (existsb (HasSuffix s) whiteSpace).

Definition maxNameBytes : Z := 128.
Definition ValidName (name : string) : bool :=
  negb (slen name =? 0) && (slen name <=? maxNameBytes) && ValidString name && trimmed name
  && forallBytes (λ b, (32 <=? b) && negb (b =? 127)) name.

Definition notBefore (t : option Z) (created : Z) : bool :=
  match t with None => true | Some x => created <=? x end.

(** [Server.Validate]: an absent timestamp is Go's zero time. *)
Definition ServerValidate (id : string) (s : Server) : bool :=
  ValidOpaqueID id && ValidOpaqueID (sv_owner s) && ValidName (sv_name s) && (sv_protocol s =? ProtocolVersion)
  && negb (sv_created s =? 0)
  && Bool.eqb (bool_decide (sv_status s = SrvRevoked)) (isSomeb (sv_revoked s))
  && notBefore (sv_revoked s) (sv_created s) && notBefore (sv_heartbeat s) (sv_created s).

(** ** Tables (migration 000012) *)

Record Credential := {
  cd_server : string; cd_version : Z; cd_digest : string; cd_status : SrvStatus; cd_issued : Z; cd_revoked : option Z;
}.
Record Enrollment := { tk_digest : string; tk_issued : Z; tk_expires : Z; tk_consumed : option Z }.

Inductive ActorType := ActorAdministrator | ActorAgent | ActorSystem.
Record ServerAudit := {
  sa_type : ActorType; sa_actor : string; sa_action : string; sa_server : string; sa_version : option Z; sa_reason : string;
}.

Record IdentityDB := {
  id_servers : gmap string Server;
  id_creds : gmap Z Credential;
  id_tokens : gmap string Enrollment;
  id_audit : list ServerAudit;
  id_sessions : gmap string SessionRow;
  id_owners : gset string;
  id_next : Z;
}.

Definition with_servers (x : gmap string Server) (i : IdentityDB) : IdentityDB :=
  Build_IdentityDB x (id_creds i) (id_tokens i) (id_audit i) (id_sessions i) (id_owners i) (id_next i).
Definition with_creds (x : gmap Z Credential) (next : Z) (i : IdentityDB) : IdentityDB :=
  Build_IdentityDB (id_servers i) x (id_tokens i) (id_audit i) (id_sessions i) (id_owners i) next.
Definition with_tokens (x : gmap string Enrollment) (i : IdentityDB) : IdentityDB :=
  Build_IdentityDB (id_servers i) (id_creds i) x (id_audit i) (id_sessions i) (id_owners i) (id_next i).
Definition with_audit (x : list ServerAudit) (i : IdentityDB) : IdentityDB :=
  Build_IdentityDB (id_servers i) (id_creds i) (id_tokens i) x (id_sessions i) (id_owners i) (id_next i).
Definition with_sessions (x : gmap string SessionRow) (owners : gset string) (i : IdentityDB) : IdentityDB :=
  Build_IdentityDB (id_servers i) (id_creds i) (id_tokens i) (id_audit i) x owners (id_next i).

(** CHECK constraints *)
Definition server_check (id : string) (s : Server) : bool :=
  (1 <=? slen id) && (slen id <=? 128) && (1 <=? slen (sv_name s)) && (slen (sv_name s) <=? 128)
  && negb (HasPrefix (sv_name s) " ") && negb (HasSuffix (sv_name s) " ")
  && forallBytes (λ b, (32 <=? b) && negb (b =? 127)) (sv_name s) && (sv_protocol s =? 1)
  && Bool.eqb (bool_decide (sv_status s = SrvRevoked)) (isSomeb (sv_revoked s))
  && notBefore (sv_revoked s) (sv_created s) && notBefore (sv_heartbeat s) (sv_created s).
Definition credential_check (c : Credential) : bool :=
  (0 <? cd_version c) && (slen (cd_digest c) =? 32)
  && Bool.eqb (bool_decide (cd_status c = SrvRevoked)) (isSomeb (cd_revoked c)) && notBefore (cd_revoked c) (cd_issued c).
Definition enrollment_check (t : Enrollment) : bool :=
  (slen (tk_digest t) =? 32) && (tk_issued t <? tk_expires t)
  && match tk_consumed t with None => true | Some c => (tk_issued t <=? c) && (c <=? tk_expires t) end.

(** Update triggers; the identity columns they compare first. *)
Definition validate_server_update (old new : Server) : bool :=
  bool_decide (sv_owner new = sv_owner old) && bool_decide (sv_name new = sv_name old)
  && (sv_protocol new =? sv_protocol old) && (sv_created new =? sv_created old)
  && match sv_heartbeat old, sv_heartbeat new with
     | Some x, Some y => x <=? y | Some _, None => false | None, _ => true
     end
  && match sv_status old, sv_status new with
     | SrvActive, SrvActive => negb (isSomeb (sv_revoked new))
     | SrvActive, SrvRevoked => isSomeb (sv_revoked new)
     | _, _ => false
     end.
Definition validate_credential_update (old new : Credential) : bool :=
  bool_decide (cd_server new = cd_server old) && (cd_version new =? cd_version old)
  && bool_decide (cd_digest new = cd_digest old) && (cd_issued new =? cd_issued old)
  && bool_decide (cd_status old = SrvActive) && bool_decide (cd_status new = SrvRevoked) && isSomeb (cd_revoked new).
Definition validate_enrollment_update (old new : Enrollment) : bool :=
  negb (isSomeb (tk_consumed old))
  && (negb (isSomeb (tk_consumed new))
      || bool_decide (tk_digest new = tk_digest old) && (tk_issued new =? tk_issued old) && (tk_expires new =? tk_expires old)).

(** ** Statements *)

Definition insert_server (id : string) (row : Server) : Tx IdentityDB Err unit := λ i,
  if negb (server_check id row) then inl (ErrPg PgCheckViolation)
  else if isSomeb (id_servers i !! id) then inl (ErrPg PgUniqueViolation)
  else if negb (bool_decide (sv_owner row ∈ id_owners i)) then inl (ErrPg PgForeignKeyViolation)
  else inr (tt, with_servers (<[id := row]> (id_servers i)) i).

Definition update_server (id : string) (f : Server → Server) : Tx IdentityDB Err bool := λ i,
  match id_servers i !! id with
  | None => inr (false, i)
  | Some old =>
      if negb (validate_server_update old (f old)) then inl (ErrPg PgRaise)
      else if negb (server_check id (f old)) then inl (ErrPg PgCheckViolation)
      else inr (true, with_servers (<[id := f old]> (id_servers i)) i)
  end.

Definition insert_enrollment (server : string) (t : Enrollment) : Tx IdentityDB Err unit := λ i,
  if negb (enrollment_check t) then inl (ErrPg PgCheckViolation)
  else if isSomeb (id_tokens i !! server) then inl (ErrPg PgUniqueViolation)
  else if negb (isSomeb (id_servers i !! server)) then inl (ErrPg PgForeignKeyViolation)
  else inr (tt, with_tokens (<[server := t]> (id_tokens i)) i).

(** [UPDATE ... WHERE server_id=$1 AND consumed_at IS NULL] *)
Definition update_enrollment (server : string) (f : Enrollment → Enrollment) : Tx IdentityDB Err bool := λ i,
  match id_tokens i !! server with
  | None => inr (false, i)
  | Some old =>
      if isSomeb (tk_consumed old) then inr (false, i)
      else if negb (validate_enrollment_update old (f old)) then inl (ErrPg PgRaise)
      else if negb (enrollment_check (f old)) then inl (ErrPg PgCheckViolation)
      else inr (true, with_tokens (<[server := f old]> (id_tokens i)) i)
  end.

Definition someCredential (f : Credential → bool) (i : IdentityDB) : bool :=
  existsb (λ kv, f kv.2) (map_to_list (id_creds i)).
Definition of_server (server : string) (c : Credential) : bool := bool_decide (cd_server c = server).
Definition active_of (server : string) (c : Credential) : bool :=
  of_server server c && bool_decide (cd_status c = SrvActive).

(** UNIQUE (server_id, version) and the partial index of active rows. *)
Definition insert_credential (row : Credential) : Tx IdentityDB Err unit := λ i,
  if negb (credential_check row) then inl (ErrPg PgCheckViolation)
  else if someCredential (λ c, of_server (cd_server row) c && (cd_version c =? cd_version row)) i
          || bool_decide (cd_status row = SrvActive) && someCredential (active_of (cd_server row)) i
  then inl (ErrPg PgUniqueViolation)
  else if negb (isSomeb (id_servers i !! cd_server row)) then inl (ErrPg PgForeignKeyViolation)
  else inr (tt, with_creds (<[id_next i := row]> (id_creds i)) (id_next i + 1) i).

Definition revoke_row (now : Z) (c : Credential) : Credential :=
  {| cd_server := cd_server c; cd_version := cd_version c; cd_digest := cd_digest c; cd_status := SrvRevoked;
     cd_issued := cd_issued c; cd_revoked := Some now |}.

(** [UPDATE server_credentials SET status='revoked' WHERE cond] *)
Definition revoke_where (cond : Z → Credential → bool) (now : Z) : Tx IdentityDB Err unit := λ i,
  if existsb (λ kv, cond kv.1 kv.2 && negb (validate_credential_update kv.2 (revoke_row now kv.2))) (map_to_list (id_creds i))
  then inl (ErrPg PgRaise)
  else if existsb (λ kv, cond kv.1 kv.2 && negb (credential_check (revoke_row now kv.2))) (map_to_list (id_creds i))
  then inl (ErrPg PgCheckViolation)
  else inr (tt, with_creds (map_imap (λ k c, Some (if cond k c then revoke_row now c else c)) (id_creds i)) (id_next i) i).

Definition active_credential (server : string) (i : IdentityDB) : option (Z * Credential) :=
  head (filter (λ kv, active_of server kv.2 = true) (map_to_list (id_creds i))).

(** ** Operations *)

Definition sessionLocked (p : Principal) (now : Z) : Tx IdentityDB Err unit :=
  do! tx_guard (validPrincipal p) ErrServerAuthorizationDenied in
  let! s := tx_some (λ i, id_sessions i !! p_SessionID p) ErrServerAuthorizationDenied in
  tx_guard (sessionLive p now s) ErrServerAuthorizationDenied.

Definition lockActiveServer (server owner : string) : Tx IdentityDB Err unit :=
  let! s := tx_some (λ i, id_servers i !! server) ErrServerAuthorizationDenied in
  tx_guard (bool_decide (sv_owner s = owner) && bool_decide (sv_status s = SrvActive)) ErrServerAuthorizationDenied.

Definition audit (type : ActorType) (actor action server : string) (version : option Z) (reason : string)
    : Tx IdentityDB Err unit :=
  tx_write (λ i, with_audit (id_audit i ++
    [{| sa_type := type; sa_actor := actor; sa_action := action; sa_server := server; sa_version := version;
        sa_reason := reason |}]) i).

(** [if isUniqueViolation(err) || isForeignKeyViolation(err) { denied }] *)
Definition denyOn (codes : PgError → bool) {A} (m : Tx IdentityDB Err A) : Tx IdentityDB Err A := λ i,
  match m i with
  | inl (ErrPg e) => if codes e then inl ErrServerAuthorizationDenied else inl (ErrPg e)
  | r => r
  end.
Definition isUnique (e : PgError) : bool := match e with PgUniqueViolation => true | _ => false end.
Definition isUniqueOrForeign (e : PgError) : bool :=
  match e with PgUniqueViolation | PgForeignKeyViolation => true | _ => false end.
Definition isAny (e : PgError) : bool := true.

Definition validTTL (ttl : Z) : bool := (0 <? ttl) && (ttl <=? 3600).

Record RegisterServerInput := { in_ServerID : string; in_Name : string; in_Protocol : Z; in_Digest : string; in_TTL : Z }.

(** [in.valid] builds an active server created at [time.Unix(1,0)]. *)
Definition inputValid (owner : string) (inp : RegisterServerInput) : bool :=
  ServerValidate (in_ServerID inp)
    {| sv_owner := owner; sv_name := in_Name inp; sv_protocol := in_Protocol inp; sv_status := SrvActive;
       sv_created := 62135596801 * second; sv_revoked := None; sv_heartbeat := None |} && validTTL (in_TTL inp).

Definition registerTx (p : Principal) (inp : RegisterServerInput) (clk : nat → Z) : Tx IdentityDB Err (Server * Z) :=
  do! tx_guard (validPrincipal p && inputValid (p_OwnerID p) inp) ErrServerAuthorizationDenied in
  do! sessionLocked p (clk 0%nat) in
  let row := {| sv_owner := p_OwnerID p; sv_name := in_Name inp; sv_protocol := in_Protocol inp; sv_status := SrvActive;
                sv_created := clk 1%nat; sv_revoked := None; sv_heartbeat := None |} in
  do! denyOn isUniqueOrForeign (insert_server (in_ServerID inp) row) in
  let expires := clk 3%nat + in_TTL inp * second in
  do! insert_enrollment (in_ServerID inp)
        {| tk_digest := in_Digest inp; tk_issued := clk 2%nat; tk_expires := expires; tk_consumed := None |} in
  do! audit ActorAdministrator (p_UserID p) "register" (in_ServerID inp) None "" in
  tx_ret (row, expires).
Definition RegisterServer (p : Principal) (inp : RegisterServerInput) (clk : nat → Z) (i : IdentityDB) :=
  run_tx (registerTx p inp clk) i.

Definition issueTx (p : Principal) (server digest : string) (ttl : Z) (clk : nat → Z) : Tx IdentityDB Err Z :=
  do! tx_guard (validPrincipal p && ValidOpaqueID server && validTTL ttl) ErrServerAuthorizationDenied in
  do! sessionLocked p (clk 0%nat) in
  do! lockActiveServer server (p_OwnerID p) in
  let! t := tx_some (λ i, id_tokens i !! server) ErrServerAuthorizationDenied in
  do! tx_guard (negb (isSomeb (tk_consumed t))) ErrServerAuthorizationDenied in
  let expires := clk 2%nat + ttl * second in
  let! updated := denyOn isAny (update_enrollment server (λ t,
      {| tk_digest := digest; tk_issued := clk 1%nat; tk_expires := expires; tk_consumed := tk_consumed t |})) in
  do! tx_guard updated ErrServerAuthorizationDenied in
  do! audit ActorAdministrator (p_UserID p) "enrollment_issued" server None "" in
  tx_ret expires.
Definition IssueEnrollment (p : Principal) (server digest : string) (ttl : Z) (clk : nat → Z) (i : IdentityDB) :=
  run_tx (issueTx p server digest ttl clk) i.

Definition activeServer (server : string) (i : IdentityDB) : option Server :=
  s ← id_servers i !! server; if bool_decide (sv_status s = SrvActive) then Some s else None.

(** Whether the presented enrollment digest is accepted at [now]. *)
Definition enrollmentAccepted (server enrollmentDigest : string) (now : Z) (i : IdentityDB) : bool :=
  let foundServer := isSomeb (activeServer server i) in
  let token := if foundServer then id_tokens i !! server else None in
  let stored := match token with Some t => tk_digest t | None => dummyCredentialDigest end in
  let consumed := match token with Some t => isSomeb (tk_consumed t) | None => false end in
  let unexpired := match token with Some t => now <? tk_expires t | None => false end in
  foundServer && isSomeb token && negb consumed && unexpired && bool_decide (stored = enrollmentDigest).

Definition enrollTx (server enrollmentDigest credentialDigest : string) (clk : nat → Z) : Tx IdentityDB Err Z :=
  do! tx_guard (ValidOpaqueID server) ErrServerAuthorizationDenied in
  let now := clk 0%nat in
  let! ok := tx_read (enrollmentAccepted server enrollmentDigest now) in
  do! tx_guard ok ErrServerAuthorizationDenied in
  let! _ := update_enrollment server (λ t,
      {| tk_digest := tk_digest t; tk_issued := tk_issued t; tk_expires := tk_expires t; tk_consumed := Some now |}) in
  let version := 1 in
  do! denyOn isUnique (insert_credential
        {| cd_server := server; cd_version := version; cd_digest := credentialDigest; cd_status := SrvActive;
           cd_issued := clk 1%nat; cd_revoked := None |}) in
  do! audit ActorAgent server "enrolled" server (Some version) "" in
  tx_ret version.
Definition Enroll (server enrollmentDigest credentialDigest : string) (clk : nat → Z) (i : IdentityDB) :=
  run_tx (enrollTx server enrollmentDigest credentialDigest clk) i.

Definition rotateTx (p : Principal) (server newDigest : string) (clk : nat → Z) : Tx IdentityDB Err Z :=
  do! tx_guard (validPrincipal p && ValidOpaqueID server) ErrServerAuthorizationDenied in
  do! sessionLocked p (clk 0%nat) in
  do! lockActiveServer server (p_OwnerID p) in
  let! active := tx_some (active_credential server) ErrServerAuthorizationDenied in
  do! revoke_where (λ k _, k =? active.1) (clk 1%nat) in
  let newVersion := cd_version active.2 + 1 in
  do! denyOn isUnique (insert_credential
        {| cd_server := server; cd_version := newVersion; cd_digest := newDigest; cd_status := SrvActive;
           cd_issued := clk 2%nat; cd_revoked := None |}) in
  do! audit ActorAdministrator (p_UserID p) "credential_rotated" server (Some newVersion) "" in
  tx_ret newVersion.
Definition RotateCredential (p : Principal) (server newDigest : string) (clk : nat → Z) (i : IdentityDB) :=
  run_tx (rotateTx p server newDigest clk) i.

Definition revoke_server (now : Z) (s : Server) : Server :=
  {| sv_owner := sv_owner s; sv_name := sv_name s; sv_protocol := sv_protocol s; sv_status := SrvRevoked;
     sv_created := sv_created s; sv_revoked := Some now; sv_heartbeat := sv_heartbeat s |}.

(** RevokeServer's writes to the identity tables; its sweep of in-flight
    leases and the whole method on the lease tables are [Lease.revokeServerTx]. *)
Definition revokeIdentityTx (p : Principal) (server reason : string) (clk : nat → Z) : Tx IdentityDB Err unit :=
  do! tx_guard (validPrincipal p && ValidOpaqueID server && validReason reason) ErrServerAuthorizationDenied in
  do! sessionLocked p (clk 0%nat) in
  do! lockActiveServer server (p_OwnerID p) in
  let! updated := update_server server (revoke_server (clk 1%nat)) in
  do! tx_guard updated ErrServerAuthorizationDenied in
  do! revoke_where (λ _, active_of server) (clk 2%nat) in
  audit ActorAdministrator (p_UserID p) "server_revoked" server None reason.
Definition RevokeIdentity (p : Principal) (server reason : string) (clk : nat → Z) (i : IdentityDB) :=
  run_tx (revokeIdentityTx p server reason clk) i.

(** The verdict Authenticate and Heartbeat share. *)
Definition authenticated (server presentedDigest : string) (i : IdentityDB) : option (Server * Credential) :=
  let foundServer := activeServer server i in
  let cred := s ← foundServer; snd <$> active_credential server i in
  if matchServerCredential (isSomeb foundServer) (isSomeb cred) (default "" (cd_digest <$> cred)) presentedDigest
  then s ← foundServer; c ← cred; Some (s, c) else None.

Record AuthenticatedServer := { as_ServerID : string; as_OwnerID : string; as_Version : Z }.
Definition Authenticate (server presentedDigest : string) (i : IdentityDB) : Err + AuthenticatedServer :=
  if negb (ValidOpaqueID server) then inl ErrServerAuthorizationDenied
  else match authenticated server presentedDigest i with
       | Some (s, c) => inr {| as_ServerID := server; as_OwnerID := sv_owner s; as_Version := cd_version c |}
       | None => inl ErrServerAuthorizationDenied
       end.

(** [GREATEST(COALESCE(last_heartbeat_at,clock),clock)] *)
Definition beat (t1 t2 : Z) (s : Server) : Server :=
  {| sv_owner := sv_owner s; sv_name := sv_name s; sv_protocol := sv_protocol s; sv_status := sv_status s;
     sv_created := sv_created s; sv_revoked := sv_revoked s;
     sv_heartbeat := Some (Z.max (default t1 (sv_heartbeat s)) t2) |}.
Definition heartbeatTx (server presentedDigest : string) (clk : nat → Z) : Tx IdentityDB Err unit :=
  do! tx_guard (ValidOpaqueID server) ErrServerAuthorizationDenied in
  let! _ := tx_some (authenticated server presentedDigest) ErrServerAuthorizationDenied in
  let! _ := update_server server (beat (clk 0%nat) (clk 1%nat)) in
  tx_ret tt.
Definition Heartbeat (server presentedDigest : string) (clk : nat → Z) (i : IdentityDB) :=
  run_tx (heartbeatTx server presentedDigest clk) i.

Inductive EnrollmentState := EnrollmentNone | EnrollmentPending | EnrollmentConsumed | EnrollmentExpired.
Definition enrollmentState (now : Z) (t : option Enrollment) : EnrollmentState :=
  match t with
  | None => EnrollmentNone
  | Some t => if isSomeb (tk_consumed t) then EnrollmentConsumed
              else if now <? tk_expires t then EnrollmentPending else EnrollmentExpired
  end.

Record ServerSummary := {
  ss_ID : string; ss_Name : string; ss_Status : SrvStatus; ss_Created : Z; ss_Heartbeat : option Z;
  ss_Version : Z; ss_Enrollment : EnrollmentState;
}.
(** [ORDER BY created_at DESC, id] *)
Definition listOrder (x y : string * Server) : Prop :=
  sv_created y.2 < sv_created x.2 ∨ (sv_created x.2 = sv_created y.2 ∧ String.leb x.1 y.1 = true).
#[global] Instance listOrder_dec x y : Decision (listOrder x y) := decide _.
Definition listServersTx (p : Principal) (clk : nat → Z) : Tx IdentityDB Err (list ServerSummary) :=
  do! tx_guard (validPrincipal p) ErrServerAuthorizationDenied in
  do! sessionLocked p (clk 0%nat) in
  tx_read (λ i,
    (λ kv, {| ss_ID := kv.1; ss_Name := sv_name kv.2; ss_Status := sv_status kv.2; ss_Created := sv_created kv.2;
              ss_Heartbeat := sv_heartbeat kv.2;
              ss_Version := match active_credential kv.1 i with Some c => cd_version c.2 | None => 0 end;
              ss_Enrollment := enrollmentState (clk 1%nat) (id_tokens i !! kv.1) |}) <$>
    merge_sort listOrder (filter (λ kv, sv_owner kv.2 = p_OwnerID p) (map_to_list (id_servers i)))).
Definition ListServers (p : Principal) (clk : nat → Z) (i : IdentityDB) := run_tx (listServersTx p clk) i.

(** ** What the lease repository reads of it *)

Definition leaseServer (s : Server) : ServerRow :=
  {| srv_owner := sv_owner s; srv_active := bool_decide (sv_status s = SrvActive) |}.
Definition leaseCredential (c : Credential) : CredentialRow :=
  {| cred_server := cd_server c; cred_active := bool_decide (cd_status c = SrvActive); cred_digest := cd_digest c |}.
Definition leaseView (i : IdentityDB) (d : DB) : DB :=
  set_servers (leaseServer <$> id_servers i) (leaseCredential <$> (map_to_list (id_creds i)).*2) d.

(** ** Calls *)

Inductive IdCall :=
  | CallRegister (p : Principal) (inp : RegisterServerInput) (clk : nat → Z)
  | CallIssue (p : Principal) (server digest : string) (ttl : Z) (clk : nat → Z)
  | CallEnroll (server enrollmentDigest credentialDigest : string) (clk : nat → Z)
  | CallRotate (p : Principal) (server newDigest : string) (clk : nat → Z)
  | CallRevoke (p : Principal) (server reason : string) (clk : nat → Z)
  | CallHeartbeat (server presentedDigest : string) (clk : nat → Z)
  | CallSessions (sessions : gmap string SessionRow) (owners : gset string). (** logins, by the auth repository *)

Definition idExec (c : IdCall) (i : IdentityDB) : IdentityDB :=
  match c with
  | CallRegister p inp clk => (RegisterServer p inp clk i).2
  | CallIssue p server digest ttl clk => (IssueEnrollment p server digest ttl clk i).2
  | CallEnroll server e c clk => (Enroll server e c clk i).2
  | CallRotate p server digest clk => (RotateCredential p server digest clk i).2
  | CallRevoke p server reason clk => (RevokeIdentity p server reason clk i).2
  | CallHeartbeat server digest clk => (Heartbeat server digest clk i).2
  | CallSessions sessions owners => with_sessions sessions owners i
  end.
Definition idStep (i i' : IdentityDB) : Prop := ∃ c, i' = idExec c i.

Definition noIdentity : IdentityDB :=
  {| id_servers := ∅; id_creds := ∅; id_tokens := ∅; id_audit := []; id_sessions := ∅; id_owners := ∅; id_next := 1 |}.
