(* ===== verification/ServerProps.v ===== *)
(** * Server identity: the invariant and its consequences

    One token and at most one active credential per server, consecutive
    versions, and what enrolment, rotation, revocation and authentication do
    in every state the repository can reach. *)
From S2P Require Import Prelude GoStd Queue Schema LeaseCore Lease Servers.
From stdpp Require Import relations sorting.
#[local] Open Scope Z_scope.

(** ** Statements *)

Lemma isSomeb_true {A} (x : option A) : isSomeb x = true ↔ is_Some x.
Proof. destruct x; simpl; split; intros H; [by eexists|done|done|by destruct H]. Qed.
Lemma isSomeb_false {A} (x : option A) : isSomeb x = false ↔ x = None.
Proof. destruct x; simpl; split; done. Qed.

Lemma someCredential_false f i : someCredential f i = false ↔ ∀ k c, id_creds i !! k = Some c → f c = false.
Proof.
  unfold someCredential. split.
  - intros H k c Hk. apply elem_of_map_to_list in Hk. destruct (f c) eqn:E; [|done].
    assert (existsb (λ kv : Z * Credential, f kv.2) (map_to_list (id_creds i)) = true); [|congruence].
    apply existsb_exists. exists (k, c). split; [by apply list_elem_of_In|done].
  - intros H. destruct (existsb _ _) eqn:E; [|done]. apply existsb_exists in E as ([k c]&Hin&Hf).
    apply list_elem_of_In, elem_of_map_to_list in Hin. simpl in Hf. by rewrite (H _ _ Hin) in Hf.
Qed.

Lemma active_of_spec s c : active_of s c = true ↔ cd_server c = s ∧ cd_status c = SrvActive.
Proof. unfold active_of, of_server. rewrite andb_true_iff, !bool_decide_eq_true. done. Qed.

Lemma active_credential_Some s i k c :
  active_credential s i = Some (k, c) → id_creds i !! k = Some c ∧ cd_server c = s ∧ cd_status c = SrvActive.
Proof.
  unfold active_credential. intros H. destruct (filter _ _) as [|x l] eqn:E; [done|]. injection H as ->.
  assert ((k, c) ∈ filter (λ kv, active_of s kv.2 = true) (map_to_list (id_creds i))) as Hin by (rewrite E; apply elem_of_cons; by left).
  apply list_elem_of_filter in Hin as [Ha Hin]. apply elem_of_map_to_list in Hin. by apply active_of_spec in Ha as [? ?].
Qed.

Lemma active_credential_None s i :
  active_credential s i = None ↔ ∀ k c, id_creds i !! k = Some c → cd_server c = s → cd_status c ≠ SrvActive.
Proof.
  unfold active_credential. split.
  - intros H k c Hk Hs Ha. destruct (filter _ _) as [|x l] eqn:E; [|done]. clear H.
    assert ((k, c) ∈ filter (λ kv, active_of s kv.2 = true) (map_to_list (id_creds i))) as Hin.
    { apply list_elem_of_filter. split; [by apply active_of_spec|by apply elem_of_map_to_list]. }
    rewrite E in Hin. by apply elem_of_nil in Hin.
  - intros H. destruct (active_credential s i) as [[k c]|] eqn:E; unfold active_credential in E; [|done].
    apply (active_credential_Some s i) in E as (Hk&Hs&Ha). by destruct (H k c Hk Hs).
Qed.

Lemma insert_credential_inv row i u i' :
  insert_credential row i = inr (u, i') →
  credential_check row = true ∧ i' = with_creds (<[id_next i := row]> (id_creds i)) (id_next i + 1) i ∧
  (∀ k c, id_creds i !! k = Some c → cd_server c = cd_server row → cd_version c ≠ cd_version row) ∧
  (cd_status row = SrvActive → ∀ k c, id_creds i !! k = Some c → cd_server c = cd_server row → cd_status c ≠ SrvActive) ∧
  is_Some (id_servers i !! cd_server row).
Proof.
  unfold insert_credential. destruct (negb (credential_check row)) eqn:E1; [done|]. destruct (_ || _) eqn:E2; [done|].
  destruct (negb (isSomeb _)) eqn:E3; [done|]. intros [= _ <-]. apply negb_false_iff in E1, E3. apply orb_false_iff in E2 as [E2 E2'].
  rewrite someCredential_false in E2. apply isSomeb_true in E3. split_and!; [done|done| | |done].
  - intros k c Hk Hs Hv. specialize (E2 k c Hk). unfold of_server in E2. rewrite Hs, Hv, Z.eqb_refl, bool_decide_true in E2; done.
  - intros Ha k c Hk Hs Hca. rewrite Ha, bool_decide_true in E2' by done. simpl in E2'. rewrite someCredential_false in E2'.
    specialize (E2' k c Hk). assert (active_of (cd_server row) c = true) by (by apply active_of_spec). congruence.
Qed.

Lemma revoke_where_inv cond now i u i' :
  revoke_where cond now i = inr (u, i') →
  i' = with_creds (map_imap (λ k c, Some (if cond k c then revoke_row now c else c)) (id_creds i)) (id_next i) i ∧
  ∀ k c, id_creds i !! k = Some c → cond k c = true → cd_status c = SrvActive ∧ cd_issued c ≤ now.
Proof.
  unfold revoke_where. destruct (existsb _ _) eqn:E1; [done|]. destruct (existsb (λ kv, _ && negb (credential_check _)) _) eqn:E2; [done|].
  intros [= _ <-]. split; [done|]. intros k c Hk Hc. apply elem_of_map_to_list, list_elem_of_In in Hk.
  split.
  - destruct (decide (cd_status c = SrvActive)) as [|Hne]; [done|]. exfalso.
    assert (existsb (λ kv, cond kv.1 kv.2 && negb (validate_credential_update kv.2 (revoke_row now kv.2))) (map_to_list (id_creds i)) = true);
      [|congruence]. apply existsb_exists. exists (k, c). split; [done|]. simpl. rewrite Hc. unfold validate_credential_update.
    by rewrite (bool_decide_false (cd_status c = SrvActive)), !andb_false_r.
  - destruct (decide (cd_issued c ≤ now)) as [|Hne]; [done|]. exfalso.
    assert (existsb (λ kv, cond kv.1 kv.2 && negb (credential_check (revoke_row now kv.2))) (map_to_list (id_creds i)) = true);
      [|congruence]. apply existsb_exists. exists (k, c). split; [done|]. simpl. rewrite Hc. unfold credential_check. simpl.
    destruct (Z.leb_spec (cd_issued c) now); [lia|]. by rewrite !andb_false_r.
Qed.

(** ** The invariant

    [X] is the server whose rows a running transaction has half changed. *)
Record id_inv_but (X : gset string) (i : IdentityDB) : Prop := {
  ii_next : ∀ k c, id_creds i !! k = Some c → k < id_next i;
  ii_owned : ∀ k c, id_creds i !! k = Some c → 0 < cd_version c ∧ is_Some (id_servers i !! cd_server c) ∧
             ∃ t, id_tokens i !! cd_server c = Some t ∧ is_Some (tk_consumed t);
  ii_version : ∀ k c k' c', id_creds i !! k = Some c → id_creds i !! k' = Some c' → cd_server c = cd_server c' →
               cd_version c = cd_version c' → k = k';
  ii_dense : ∀ k c v, id_creds i !! k = Some c → 1 ≤ v ≤ cd_version c →
             ∃ k' c', id_creds i !! k' = Some c' ∧ cd_server c' = cd_server c ∧ cd_version c' = v;
  ii_top : ∀ k c k' c', id_creds i !! k = Some c → id_creds i !! k' = Some c' → cd_server c' = cd_server c →
           cd_status c = SrvActive → cd_version c' ≤ cd_version c;
  ii_active : ∀ k c s, id_creds i !! k = Some c → cd_status c = SrvActive → cd_server c ∉ X →
              id_servers i !! cd_server c = Some s → sv_status s = SrvActive;
  ii_enrolled : ∀ n s t, id_servers i !! n = Some s → sv_status s = SrvActive → id_tokens i !! n = Some t →
                is_Some (tk_consumed t) → n ∉ X → ∃ k c, id_creds i !! k = Some c ∧ cd_server c = n ∧ cd_status c = SrvActive;
  ii_token : ∀ n, is_Some (id_servers i !! n) ↔ is_Some (id_tokens i !! n);
  ii_window : ∀ n t, id_tokens i !! n = Some t → enrollment_check t = true;
}.
Definition id_inv : IdentityDB → Prop := id_inv_but ∅.

Lemma noIdentity_inv : id_inv noIdentity.
Proof. split; simpl; intros *; rewrite ?lookup_empty; try done. Qed.

Lemma inv_more X Y i : X ⊆ Y → id_inv_but X i → id_inv_but Y i.
Proof. intros HXY [? ? ? ? ? Ha He ? ?]. split; try done; [intros k c s|intros n s t]; intros; [eapply Ha|eapply He]; eauto; set_solver. Qed.

(** A new active credential, one version above the ones there are. *)
Lemma insert_inv s row t X i u i' :
  insert_credential row i = inr (u, i') → id_inv_but ({[cd_server row]} ∪ X) i → cd_status row = SrvActive →
  id_servers i !! cd_server row = Some s → sv_status s = SrvActive →
  id_tokens i !! cd_server row = Some t → is_Some (tk_consumed t) →
  (∀ k c, id_creds i !! k = Some c → cd_server c = cd_server row → cd_version c < cd_version row) →
  (cd_version row = 1 ∨ ∃ k c, id_creds i !! k = Some c ∧ cd_server c = cd_server row ∧ cd_version c = cd_version row - 1) →
  id_inv_but X i'.
Proof.
  intros Hins [I1 I2 I3 I4 I5 I6 I7 I8 I9] Ha Hs Hsa Ht Htc Hlt Hprev.
  apply insert_credential_inv in Hins as (Hck&->&_&Hna&_). specialize (Hna Ha).
  assert (0 < cd_version row) as Hpos by (unfold credential_check in Hck; bool_hyps; lia).
  split; simpl.
  - intros k c [[<- <-]|[_ Hk]]%lookup_insert_Some; [lia|]. specialize (I1 k c Hk). lia.
  - intros k c [[<- <-]|[_ Hk]]%lookup_insert_Some; [by eauto|by apply (I2 k c)].
  - intros k c k' c' [[<- <-]|[_ Hk]]%lookup_insert_Some [[<- <-]|[_ Hk']]%lookup_insert_Some Hsv Hv; [done| | |by eapply I3].
    + specialize (Hlt k' c' Hk'). rewrite Hsv in Hlt. specialize (Hlt eq_refl). lia.
    + specialize (Hlt k c Hk Hsv). lia.
  - intros k c v [[<- <-]|[Hne Hk]]%lookup_insert_Some Hv.
    + destruct (decide (v = cd_version row)) as [->|Hvne]; [exists (id_next i), row; by rewrite lookup_insert_eq|].
      destruct Hprev as [?|(k&c&Hk&Hcs&Hcv)]; [lia|]. destruct (I4 k c v Hk) as (k'&c'&Hk'&Hs'&Hv'); [lia|].
      exists k', c'. rewrite lookup_insert_ne by (specialize (I1 k' c' Hk'); lia). split_and!; [done|congruence|done].
    + destruct (I4 k c v Hk Hv) as (k'&c'&Hk'&?). exists k', c'. rewrite lookup_insert_ne by (specialize (I1 k' c' Hk'); lia). done.
  - intros k c k' c' [[<- <-]|[_ Hk]]%lookup_insert_Some [[<- <-]|[_ Hk']]%lookup_insert_Some Hsv Hca; [lia| | |by eapply I5].
    + specialize (Hlt k' c' Hk' Hsv). lia.
    + by destruct (Hna k c Hk).
  - intros k c s' [[<- <-]|[_ Hk]]%lookup_insert_Some Hca HX Hs'; [congruence|]. eapply I6; [done|done| |done].
    intros Hin. apply elem_of_union in Hin as [Hin%elem_of_singleton|]; [|done]. by destruct (Hna k c Hk).
  - intros n s' t' Hn Hna' Hnt Hc HX. destruct (decide (n = cd_server row)) as [->|Hne].
    { exists (id_next i), row. by rewrite lookup_insert_eq. }
    destruct (I7 n s' t' Hn Hna' Hnt Hc) as (k&c&Hk&?); [set_solver|]. exists k, c.
    rewrite lookup_insert_ne by (specialize (I1 k c Hk); lia). done.
  - done.
  - done.
Qed.

Lemma lookup_revoke (cond : Z → Credential → bool) now i k c :
  id_creds (with_creds (map_imap (λ k c, Some (if cond k c then revoke_row now c else c)) (id_creds i)) (id_next i) i) !! k = Some c ↔
  ∃ c0, id_creds i !! k = Some c0 ∧ c = (if cond k c0 then revoke_row now c0 else c0).
Proof. simpl. rewrite map_lookup_imap. destruct (id_creds i !! k); simpl; naive_solver. Qed.

(** Revoking rows of one server. *)
Lemma revoke_inv server cond now X i u i' :
  revoke_where cond now i = inr (u, i') → (∀ k c, id_creds i !! k = Some c → cond k c = true → cd_server c = server) →
  id_inv_but X i → id_inv_but ({[server]} ∪ X) i'.
Proof.
  intros [-> _]%revoke_where_inv Hof [I1 I2 I3 I4 I5 I6 I7 I8 I9].
  assert (∀ k c, cd_server (if cond k c then revoke_row now c else c) = cd_server c ∧
                 cd_version (if cond k c then revoke_row now c else c) = cd_version c) as Hsame
    by (intros k c; destruct (cond k c); done).
  assert (∀ k c, cd_status (if cond k c then revoke_row now c else c) = SrvActive → cd_status c = SrvActive) as Hact
    by (intros k c; destruct (cond k c); done).
  split.
  - intros k c (c0&Hk&->)%lookup_revoke. by eapply I1.
  - intros k c (c0&Hk&->)%lookup_revoke. destruct (Hsame k c0) as [-> ->]. by apply (I2 k c0).
  - intros k c k' c' (c0&Hk&->)%lookup_revoke (c0'&Hk'&->)%lookup_revoke.
    destruct (Hsame k c0) as [-> ->], (Hsame k' c0') as [-> ->]. by eapply I3.
  - intros k c v (c0&Hk&->)%lookup_revoke. destruct (Hsame k c0) as [-> ->]. intros Hv.
    destruct (I4 k c0 v Hk Hv) as (k'&c'&Hk'&Hs'&Hv'). eexists k', _. split; [apply lookup_revoke; eauto|].
    destruct (Hsame k' c') as [-> ->]. done.
  - intros k c k' c' (c0&Hk&->)%lookup_revoke (c0'&Hk'&->)%lookup_revoke.
    destruct (Hsame k c0) as [-> ->], (Hsame k' c0') as [-> ->]. intros Hs Ha%Hact. by eapply I5.
  - intros k c s (c0&Hk&->)%lookup_revoke. destruct (Hsame k c0) as [-> _]. intros Ha%Hact HX. eapply I6; [done|done|set_solver].
  - intros n s t Hn Ha Ht Hc HX. destruct (I7 n s t Hn Ha Ht Hc) as (k&c&Hk&Hs&Hca); [set_solver|].
    eexists k, _. split; [apply lookup_revoke; eauto|]. destruct (cond k c) eqn:Hcond; [|done]. specialize (Hof k c Hk Hcond). set_solver.
  - done.
  - done.
Qed.

(** A change of one server's own row. *)
Lemma server_inv n f X i b i' :
  update_server n f i = inr (b, i') → id_inv_but X i → (∀ s, sv_status (f s) = SrvActive → sv_status s = SrvActive) →
  id_inv_but ({[n]} ∪ X) i'.
Proof.
  unfold update_server. intros H Hi Hf. destruct (id_servers i !! n) as [old|] eqn:E; [|simplify_eq; eapply inv_more; [|done]; set_solver].
  destruct (negb (validate_server_update _ _)); [done|]. destruct (negb (server_check _ _)); [done|]. simplify_eq.
  destruct Hi as [I1 I2 I3 I4 I5 I6 I7 I8 I9]. split; simpl; try done.
  - intros k c Hk. destruct (I2 k c Hk) as (?&?&?). split_and!; [done| |done].
    destruct (decide (cd_server c = n)) as [Hn|]; [rewrite Hn, lookup_insert_eq; by eexists|].
    by rewrite lookup_insert_ne.
  - intros k c s Hk Ha HX [[Hn _]|[_ Hs]]%lookup_insert_Some; [set_solver|]. eapply I6; [done|done|set_solver|done].
  - intros m s t [[Hn _]|[_ Hs]]%lookup_insert_Some; [set_solver|]. intros. eapply I7; [done..|set_solver].
  - intros m. rewrite <-I8. destruct (decide (m = n)) as [->|]; [rewrite lookup_insert_eq, E; naive_solver|by rewrite lookup_insert_ne].
Qed.

Lemma enrollment_inv n f X i b i' :
  update_enrollment n f i = inr (b, i') → id_inv_but X i → id_inv_but ({[n]} ∪ X) i'.
Proof.
  unfold update_enrollment. intros H Hi. destruct (id_tokens i !! n) as [old|] eqn:E; [|simplify_eq; eapply inv_more; [|done]; set_solver].
  destruct (isSomeb (tk_consumed old)) eqn:Ec; [simplify_eq; eapply inv_more; [|done]; set_solver|]. apply isSomeb_false in Ec.
  destruct (negb (validate_enrollment_update _ _)); [done|]. destruct (negb (enrollment_check _)) eqn:Ew; [done|]. simplify_eq.
  destruct Hi as [I1 I2 I3 I4 I5 I6 I7 I8 I9]. split; simpl; try done.
  - intros k c Hk. destruct (I2 k c Hk) as (?&?&t&Ht&Hc). split_and!; [done|done|]. exists t. split; [|done].
    rewrite lookup_insert_ne; [done|]. intros Hn. rewrite <-Hn, E in Ht. injection Ht as <-. rewrite Ec in Hc. by destruct Hc.
  - intros k c s Hk Ha HX. eapply I6; [done|done|set_solver].
  - intros m s t Hm Ha [[Hn _]|[_ Ht]]%lookup_insert_Some; [set_solver|]. intros. eapply I7; [done..|set_solver].
  - intros m. rewrite I8. destruct (decide (m = n)) as [->|]; [rewrite lookup_insert_eq, E; naive_solver|by rewrite lookup_insert_ne].
  - intros m t [[_ <-]|[_ Ht]]%lookup_insert_Some; [by apply negb_false_iff in Ew|by eapply I9].
Qed.

(** A server whose rows agree again. *)
Definition settled (n : string) (i : IdentityDB) : Prop :=
  ∀ s, id_servers i !! n = Some s →
    (sv_status s = SrvActive ∧ ∀ t, id_tokens i !! n = Some t → is_Some (tk_consumed t) →
       ∃ k c, id_creds i !! k = Some c ∧ cd_server c = n ∧ cd_status c = SrvActive) ∨
    (sv_status s = SrvRevoked ∧ ∀ k c, id_creds i !! k = Some c → cd_server c = n → cd_status c ≠ SrvActive).

Lemma inv_settle n X i : id_inv_but ({[n]} ∪ X) i → settled n i → id_inv_but X i.
Proof.
  intros [I1 I2 I3 I4 I5 I6 I7 I8 I9] Hs. split; try done.
  - intros k c s Hk Ha HX Hsv. destruct (decide (cd_server c = n)) as [E|Hne]; [|eapply I6; [done|done|set_solver|done]].
    rewrite E in Hsv. destruct (Hs s Hsv) as [[? _]|[_ Hno]]; [done|]. by destruct (Hno k c Hk E).
  - intros m s t Hm Ha Ht Hc HX. destruct (decide (m = n)) as [->|Hne]; [|eapply I7; [done..|set_solver]].
    destruct (Hs s Hm) as [[_ He]|[Hr _]]; [by eapply He|congruence].
Qed.

Lemma inv_frame X i i' :
  id_servers i' = id_servers i → id_creds i' = id_creds i → id_tokens i' = id_tokens i → id_next i' = id_next i →
  id_inv_but X i → id_inv_but X i'.
Proof. intros E1 E2 E3 E4 [? ? ? ? ? ? ? ? ?]. split; rewrite ?E1, ?E2, ?E3, ?E4; done. Qed.

Lemma new_server_inv n row t X i :
  id_servers i !! n = None → tk_consumed t = None → enrollment_check t = true → id_inv_but X i →
  id_inv_but X (with_tokens (<[n := t]> (id_tokens i)) (with_servers (<[n := row]> (id_servers i)) i)).
Proof.
  intros Hn Ht Hw [I1 I2 I3 I4 I5 I6 I7 I8 I9].
  assert (∀ k c, id_creds i !! k = Some c → cd_server c ≠ n) as Hnc.
  { intros k c Hk E. destruct (I2 k c Hk) as (_&[? Hs]&_). by rewrite E, Hn in Hs. }
  split; simpl; try done.
  - intros k c Hk. rewrite !lookup_insert_ne by (by apply not_eq_sym, (Hnc k c)). by apply (I2 k c).
  - intros k c s Hk Ha HX. rewrite lookup_insert_ne by (by apply not_eq_sym, (Hnc k c)). by eapply I6.
  - intros m s u [[<- <-]|[Hne Hm]]%lookup_insert_Some Ha.
    + rewrite lookup_insert_eq. intros [= <-] Hc. rewrite Ht in Hc. by destruct Hc.
    + rewrite lookup_insert_ne by done. by eapply I7.
  - intros m. destruct (decide (m = n)) as [->|]; [rewrite !lookup_insert_eq; naive_solver|by rewrite !lookup_insert_ne].
  - intros m u [[_ <-]|[_ Hu]]%lookup_insert_Some; [done|by eapply I9].
Qed.

(** ** The operations keep it *)

Lemma denyOn_inv codes {A} (m : Tx IdentityDB Err A) i r : denyOn codes m i = inr r → m i = inr r.
Proof. unfold denyOn. destruct (m i) as [[]|]; try done. by destruct (codes e). Qed.

Lemma sessionLocked_inv p now i u i' : sessionLocked p now i = inr (u, i') → i' = i.
Proof. unfold sessionLocked. intros H. by tx_inv. Qed.

Lemma lockActiveServer_inv n owner i u i' :
  lockActiveServer n owner i = inr (u, i') →
  i' = i ∧ ∃ s, id_servers i !! n = Some s ∧ sv_owner s = owner ∧ sv_status s = SrvActive.
Proof. unfold lockActiveServer. intros H. tx_inv. bool_hyps. split; [done|]. eauto. Qed.

Lemma audit_inv type actor action server version reason X i u i' :
  audit type actor action server version reason i = inr (u, i') → id_inv_but X i → id_inv_but X i'.
Proof. unfold audit. intros H Hi. tx_inv. by eapply inv_frame; [..|exact Hi]. Qed.

(** Take the next statement of a transaction apart, with one of the lemmas
    above. *)
Ltac id_step H :=
  first [ apply tx_bind_inv in H as (?&?&[_ ->]%tx_guard_inv&H)
        | apply tx_bind_inv in H as (?&?&->%sessionLocked_inv&H)
        | let Hs := fresh "Hsrv" in apply tx_bind_inv in H as (?&?&[-> Hs]%lockActiveServer_inv&H) ].

Lemma insert_server_inv n row i u i' :
  insert_server n row i = inr (u, i') → id_servers i !! n = None ∧ i' = with_servers (<[n := row]> (id_servers i)) i.
Proof.
  unfold insert_server. destruct (negb (server_check _ _)); [done|]. destruct (isSomeb (id_servers i !! n)) eqn:E; [done|].
  destruct (negb (bool_decide _)); [done|]. intros [= _ <-]. by apply isSomeb_false in E.
Qed.

Lemma insert_enrollment_inv n t i u i' :
  insert_enrollment n t i = inr (u, i') → enrollment_check t = true ∧ i' = with_tokens (<[n := t]> (id_tokens i)) i.
Proof.
  unfold insert_enrollment. destruct (negb (enrollment_check t)) eqn:E; [done|]. destruct (isSomeb (id_tokens i !! n)); [done|].
  destruct (negb (isSomeb (id_servers i !! n))); [done|]. intros [= _ <-]. by apply negb_false_iff in E.
Qed.

Lemma register_keeps p inp clk : tx_preserves id_inv (registerTx p inp clk).
Proof.
  intros i x i' Hi H. unfold registerTx in H. do 2 id_step H.
  apply tx_bind_inv in H as (?&i1&H1%denyOn_inv&H). apply tx_bind_inv in H as (?&i2&H2&H).
  apply tx_bind_inv in H as (?&i3&H3&H). tx_inv. eapply audit_inv; [exact H3|].
  apply insert_server_inv in H1 as [Hn ->]. apply insert_enrollment_inv in H2 as [Hw ->].
  refine (new_server_inv _ _ _ _ i Hn _ Hw Hi). done.
Qed.

Lemma update_enrollment_inv n f i b i' :
  update_enrollment n f i = inr (b, i') →
  (b = false ∧ i' = i ∧ (∀ t, id_tokens i !! n = Some t → is_Some (tk_consumed t))) ∨
  (b = true ∧ ∃ t, id_tokens i !! n = Some t ∧ tk_consumed t = None ∧ enrollment_check (f t) = true ∧
                   i' = with_tokens (<[n := f t]> (id_tokens i)) i).
Proof.
  unfold update_enrollment. destruct (id_tokens i !! n) as [t|] eqn:E; [|intros [= <- <-]; left; by split_and!].
  destruct (isSomeb (tk_consumed t)) eqn:Ec.
  { intros [= <- <-]. left. split; [done|]. split; [done|]. intros ? [= <-]. by apply isSomeb_true. }
  destruct (negb (validate_enrollment_update _ _)); [done|]. destruct (negb (enrollment_check _)) eqn:Ew; [done|].
  intros [= <- <-]. right. split; [done|]. exists t. apply negb_false_iff in Ew. by apply isSomeb_false in Ec.
Qed.

Lemma issue_keeps p n digest ttl clk : tx_preserves id_inv (issueTx p n digest ttl clk).
Proof.
  intros i x i' Hi H. unfold issueTx in H. do 3 id_step H. destruct Hsrv as (s&Hs&_&Ha).
  apply tx_bind_inv in H as (t&i0&[Ht ->]%tx_some_inv&H). id_step H.
  apply tx_bind_inv in H as (b&i1&H1%denyOn_inv&H). id_step H. apply tx_bind_inv in H as (?&i2&H2&H). tx_inv.
  eapply audit_inv; [exact H2|]. pose proof (enrollment_inv _ _ ∅ _ _ _ H1 Hi) as Hi1. eapply inv_settle; [exact Hi1|].
  apply update_enrollment_inv in H1 as [(_&->&Hc)|(_&t'&Ht'&Hc&_&->)]; intros s' Hs'; simpl in *; left; rewrite Hs in Hs'; injection Hs' as <-.
  - split; [done|]. intros t0 Ht0 Hc0. eapply (ii_enrolled _ _ Hi); [done..|]. set_solver.
  - split; [done|]. rewrite lookup_insert_eq. intros t0 [= <-] Hc0. simpl in Hc0. rewrite Hc in Hc0. by destruct Hc0.
Qed.

Lemma enrollmentAccepted_spec n e now i :
  enrollmentAccepted n e now i = true ↔
  ∃ s t, id_servers i !! n = Some s ∧ sv_status s = SrvActive ∧ id_tokens i !! n = Some t ∧ tk_consumed t = None ∧
         now < tk_expires t ∧ tk_digest t = e.
Proof.
  unfold enrollmentAccepted, activeServer. destruct (id_servers i !! n) as [s|]; simpl; [|split; [done|by intros (?&?&?&?)]].
  destruct (decide (sv_status s = SrvActive)) as [Ha|Hna].
  2:{ rewrite bool_decide_false by done. simpl. split; [done|]. intros (?&?&[= <-]&?&?). done. }
  rewrite bool_decide_true by done. simpl. destruct (id_tokens i !! n) as [t|]; simpl; [|split; [done|by intros (?&?&?&?&?&?)]].
  split.
  - intros H. bool_hyps. exists s, t. split_and!; try done. by apply isSomeb_false.
  - intros (?&?&[= <-]&_&[= <-]&Hc&Hx&<-). rewrite Hc, bool_decide_true by done. simpl. by apply andb_true_iff; rewrite Z.ltb_lt.
Qed.

(** What a successful enrolment found and did. *)
Lemma enrollTx_inv n e c clk i v i' :
  enrollTx n e c clk i = inr (v, i') →
  ∃ t i1 i2 u, v = 1 ∧ enrollmentAccepted n e (clk 0%nat) i = true ∧ id_tokens i !! n = Some t ∧ tk_consumed t = None ∧
    tk_issued t ≤ clk 0%nat ∧
    i1 = with_tokens (<[n := {| tk_digest := tk_digest t; tk_issued := tk_issued t; tk_expires := tk_expires t;
                                tk_consumed := Some (clk 0%nat) |}]> (id_tokens i)) i ∧
    update_enrollment n (λ t, {| tk_digest := tk_digest t; tk_issued := tk_issued t; tk_expires := tk_expires t;
                                 tk_consumed := Some (clk 0%nat) |}) i = inr (true, i1) ∧
    insert_credential {| cd_server := n; cd_version := 1; cd_digest := c; cd_status := SrvActive;
                         cd_issued := clk 1%nat; cd_revoked := None |} i1 = inr (u, i2) ∧
    audit ActorAgent n "enrolled" n (Some 1) "" i2 = inr (tt, i').
Proof.
  unfold enrollTx. intros H. id_step H. apply tx_bind_inv in H as (ok&i0&[<- ->]%tx_read_inv&H).
  apply tx_bind_inv in H as (?&i0&[Hok ->]%tx_guard_inv&H). apply tx_bind_inv in H as (b&i1&H1&H).
  apply tx_bind_inv in H as ([]&i2&H2%denyOn_inv&H). apply tx_bind_inv in H as ([]&i3&H3&H). tx_inv.
  apply enrollmentAccepted_spec in Hok as Hacc. destruct Hacc as (s&t&Hs&Ha&Ht&Hc&Hx&He).
  pose proof H1 as Hup. apply update_enrollment_inv in H1 as [(_&_&Hno)|(->&t'&Ht'&_&Hw&->)].
  { specialize (Hno t Ht). rewrite Hc in Hno. by destruct Hno. }
  rewrite Ht in Ht'. injection Ht' as <-. unfold enrollment_check in Hw. simpl in Hw. bool_hyps.
  exists t, (with_tokens (<[n := {| tk_digest := tk_digest t; tk_issued := tk_issued t; tk_expires := tk_expires t;
                                tk_consumed := Some (clk 0%nat) |}]> (id_tokens i)) i), i2, (). split_and!; try done.
Qed.

Lemma enroll_keeps n e c clk : tx_preserves id_inv (enrollTx n e c clk).
Proof.
  intros i v i' Hi H. apply enrollTx_inv in H as (t&i1&i2&u&_&Hacc&Ht&Hc&_&Ei1&Hup&Hins&Hau). eapply audit_inv; [exact Hau|].
  apply enrollmentAccepted_spec in Hacc as (s&t'&Hs&Ha&Ht'&_). simplify_eq.
  pose proof (enrollment_inv _ _ ∅ _ _ _ Hup Hi) as Hi1. pose proof (insert_credential_inv _ _ _ _ Hins) as (_&_&Hv&_&_). simpl in Hv.
  eapply (insert_inv s); [exact Hins|exact Hi1|done|done|done|simpl; apply lookup_insert_eq|by eexists| |by left].
  intros k c0 Hk Hsv. exfalso. simpl in Hk. destruct (ii_owned _ _ Hi k c0 Hk) as (Hpos&_&_).
  destruct (ii_dense _ _ Hi k c0 1 Hk) as (k'&c'&Hk'&Hs'&Hv'); [lia|]. apply (Hv k' c' Hk'); [|done]. simpl in Hsv. congruence.
Qed.

Lemma revoke_where_unchanged cond now i u i' :
  revoke_where cond now i = inr (u, i') → id_servers i' = id_servers i ∧ id_tokens i' = id_tokens i.
Proof. by intros [-> _]%revoke_where_inv. Qed.

Lemma rotate_keeps p n digest clk : tx_preserves id_inv (rotateTx p n digest clk).
Proof.
  intros i x i' Hi H. unfold rotateTx in H. do 3 id_step H. destruct Hsrv as (s&Hs&_&Ha).
  apply tx_bind_inv in H as ([k0 c0]&i0&[Hact ->]%tx_some_inv&H). simpl in H.
  apply active_credential_Some in Hact as (Hk0&Hc0&Hca). apply tx_bind_inv in H as (?&i1&H1&H).
  apply tx_bind_inv in H as (?&i2&H2%denyOn_inv&H). apply tx_bind_inv in H as (?&i3&H3&H). tx_inv. eapply audit_inv; [exact H3|].
  assert (id_inv_but ({[n]} ∪ ∅) i1) as Hi1.
  { eapply revoke_inv; [exact H1| |exact Hi]. intros k c Hk ->%Z.eqb_eq. congruence. }
  destruct (revoke_where_unchanged _ _ _ _ _ H1) as [Es Et]. apply revoke_where_inv in H1 as [E1 _].
  destruct (ii_owned _ _ Hi k0 c0 Hk0) as (_&_&t&Ht&Htc). rewrite Hc0 in Ht.
  assert (∀ k c, id_creds i1 !! k = Some c → ∃ c1, id_creds i !! k = Some c1 ∧ cd_server c = cd_server c1 ∧ cd_version c = cd_version c1) as Hold.
  { intros k c Hk. rewrite E1 in Hk. apply lookup_revoke in Hk as (c1&Hk&->). exists c1. by destruct (k =? k0). }
  eapply (insert_inv s _ t); [exact H2|exact Hi1|done|by rewrite Es|done|by rewrite Et|done| |].
  - intros k c Hk Hsv. simpl in *. destruct (Hold k c Hk) as (c1&Hk1&Hs1&Hv1).
    pose proof (ii_top _ _ Hi k0 c0 k c1 Hk0 Hk1 ltac:(congruence) Hca). lia.
  - right. eexists k0, _. rewrite E1. split; [apply lookup_revoke; eauto|]. rewrite Z.eqb_refl. simpl. split; [done|lia].
Qed.

Lemma update_server_inv n f i b i' :
  update_server n f i = inr (b, i') →
  (b = false ∧ i' = i ∧ id_servers i !! n = None) ∨
  (b = true ∧ ∃ s, id_servers i !! n = Some s ∧ i' = with_servers (<[n := f s]> (id_servers i)) i).
Proof.
  unfold update_server. destruct (id_servers i !! n) as [s|]; [|intros [= <- <-]; by left].
  destruct (negb (validate_server_update _ _)); [done|]. destruct (negb (server_check _ _)); [done|]. intros [= <- <-]. right. eauto.
Qed.

Lemma revoke_keeps p n reason clk : tx_preserves id_inv (revokeIdentityTx p n reason clk).
Proof.
  intros i x i' Hi H. unfold revokeIdentityTx in H. do 3 id_step H. destruct Hsrv as (s&Hs&_&Ha).
  apply tx_bind_inv in H as (b&i1&H1&H). id_step H. apply tx_bind_inv in H as (?&i2&H2&H). eapply audit_inv; [exact H|].
  pose proof (server_inv _ _ ∅ _ _ _ H1 Hi ltac:(done)) as Hi1.
  pose proof (revoke_inv n _ _ _ _ _ _ H2 (λ k c _ Hc, proj1 (proj1 (active_of_spec n c) Hc)) Hi1) as Hi2.
  assert (id_inv_but ({[n]} ∪ ∅) i2) as Hi2' by (eapply inv_more; [|exact Hi2]; set_solver).
  apply (inv_settle n ∅); [exact Hi2'|]. destruct (revoke_where_unchanged _ _ _ _ _ H2) as [Es _].
  apply update_server_inv in H1 as [(_&_&?)|(_&s1&Hs1&->)]; [congruence|]. intros s2. rewrite Es. simpl.
  rewrite lookup_insert_eq. intros [= <-]. right. split; [done|]. apply revoke_where_inv in H2 as [-> _].
  intros k c (c0&Hk&->)%lookup_revoke Hsv. destruct (active_of n c0) eqn:E; [done|]. intros Hca.
  by rewrite (proj2 (active_of_spec n c0)) in E.
Qed.

Lemma authenticated_spec n g i s c :
  authenticated n g i = Some (s, c) ↔
  id_servers i !! n = Some s ∧ sv_status s = SrvActive ∧ snd <$> active_credential n i = Some c ∧ cd_digest c = g.
Proof.
  unfold authenticated, activeServer, matchServerCredential. destruct (id_servers i !! n) as [s'|]; simpl; [|naive_solver].
  destruct (decide (sv_status s' = SrvActive)) as [Ha|Hna].
  2:{ rewrite bool_decide_false by done. simpl. naive_solver. }
  rewrite bool_decide_true by done. simpl. destruct (active_credential n i) as [[k c']|]; simpl; [|naive_solver].
  case_bool_decide; simpl; naive_solver.
Qed.

Lemma heartbeat_keeps n g clk : tx_preserves id_inv (heartbeatTx n g clk).
Proof.
  intros i x i' Hi H. unfold heartbeatTx in H. id_step H. apply tx_bind_inv in H as ([s c]&i0&[Hau ->]%tx_some_inv&H).
  apply tx_bind_inv in H as (b&i1&H1&H). tx_inv. apply authenticated_spec in Hau as (Hs&Ha&Hc&_).
  pose proof (server_inv _ _ ∅ _ _ _ H1 Hi ltac:(done)) as Hi1. eapply inv_settle; [exact Hi1|].
  apply update_server_inv in H1 as [(_&_&?)|(_&s1&Hs1&->)]; [congruence|]. rewrite Hs in Hs1. injection Hs1 as <-.
  intros s2. simpl. rewrite lookup_insert_eq. intros [= <-]. left. split; [done|]. intros t _ _.
  apply fmap_Some in Hc as ([k c']&Hact&->). apply active_credential_Some in Hact as (?&?&?). eauto.
Qed.

Lemma idExec_keeps call i : id_inv i → id_inv (idExec call i).
Proof.
  intros Hi. destruct call; simpl.
  - apply (run_tx_preserves id_inv); [apply register_keeps|done].
  - apply (run_tx_preserves id_inv); [apply issue_keeps|done].
  - apply (run_tx_preserves id_inv); [apply enroll_keeps|done].
  - apply (run_tx_preserves id_inv); [apply rotate_keeps|done].
  - apply (run_tx_preserves id_inv); [apply revoke_keeps|done].
  - apply (run_tx_preserves id_inv); [apply heartbeat_keeps|done].
  - by eapply inv_frame; [..|exact Hi].
Qed.

Lemma id_reachable i : rtc idStep noIdentity i → id_inv i.
Proof.
  intros H. refine (rtc_ind_r (R := idStep) id_inv noIdentity _ _ i H); [apply noIdentity_inv|].
  intros j k _ [c ->]. apply idExec_keeps.
Qed.

(** ** What never changes back *)

Definition later (i i' : IdentityDB) : Prop :=
  (∀ n t, id_tokens i !! n = Some t → is_Some (tk_consumed t) → id_tokens i' !! n = Some t) ∧
  (∀ n s, id_servers i !! n = Some s → sv_status s = SrvRevoked → id_servers i' !! n = Some s).
#[local] Instance later_preorder : PreOrder later.
Proof.
  split; [by intros i|]. intros a b c [H1 H2] [H3 H4]. split; intros; [apply H3; [by apply H1|done]|apply H4; [by apply H2|done]].
Qed.

Lemma later_insert_server n row : tx_rel later (insert_server n row).
Proof.
  intros i u i' [Hn ->]%insert_server_inv. split; simpl; [done|]. intros m s Hm _. rewrite lookup_insert_ne; [done|congruence].
Qed.
Lemma later_insert_enrollment n t : tx_rel later (insert_enrollment n t).
Proof.
  intros i u i'. unfold insert_enrollment. destruct (negb _); [done|]. destruct (isSomeb (id_tokens i !! n)) eqn:E; [done|].
  destruct (negb _); [done|]. intros [= _ <-]. apply isSomeb_false in E. split; simpl; [|done]. intros m x Hm _.
  rewrite lookup_insert_ne; [done|congruence].
Qed.
Lemma later_update_enrollment n f : tx_rel later (update_enrollment n f).
Proof.
  intros i b i' [(_&->&_)|(_&t&Ht&Hc&_&->)]%update_enrollment_inv; [done|]. split; simpl; [|done]. intros m x Hm Hx.
  rewrite lookup_insert_ne; [done|]. intros <-. rewrite Ht in Hm. injection Hm as <-. rewrite Hc in Hx. by destruct Hx.
Qed.
Lemma later_update_server n f : tx_rel later (update_server n f).
Proof.
  intros i b i'. unfold update_server. destruct (id_servers i !! n) as [s|] eqn:E; [|by intros [= _ <-]].
  destruct (negb (validate_server_update _ _)) eqn:Ev; [done|]. destruct (negb (server_check _ _)); [done|]. intros [= _ <-].
  split; simpl; [done|]. intros m x Hm Hx. rewrite lookup_insert_ne; [done|]. intros <-. rewrite E in Hm. injection Hm as <-.
  unfold validate_server_update in Ev. rewrite Hx in Ev. by rewrite !andb_false_r in Ev.
Qed.
Lemma later_insert_credential row : tx_rel later (insert_credential row).
Proof. by intros i u i' (_&->&_)%insert_credential_inv. Qed.
Lemma later_revoke_where cond now : tx_rel later (revoke_where cond now).
Proof. by intros i u i' [-> _]%revoke_where_inv. Qed.
Lemma later_deny codes {A} (m : Tx IdentityDB Err A) : tx_rel later m → tx_rel later (denyOn codes m).
Proof. intros Hm i a i' H%denyOn_inv. by eapply Hm. Qed.
Lemma later_session p now : tx_rel later (sessionLocked p now).
Proof. by intros i u i' ->%sessionLocked_inv. Qed.
Lemma later_lock n o : tx_rel later (lockActiveServer n o).
Proof. by intros i u i' [-> _]%lockActiveServer_inv. Qed.
Lemma later_audit type actor action server version reason : tx_rel later (audit type actor action server version reason).
Proof. by apply tx_rel_write. Qed.
#[local] Hint Resolve later_insert_server later_insert_enrollment later_update_enrollment later_update_server
  later_insert_credential later_revoke_where later_deny later_session later_lock later_audit : txrel.

Lemma idStep_later i i' : idStep i i' → later i i'.
Proof.
  assert (∀ A (m : Tx IdentityDB Err A) j, tx_rel later m → later j (run_tx m j).2) as Hrun.
  { intros A m j Hm. unfold run_tx. destruct (m j) as [|[a j']] eqn:E; simpl; [done|by eapply Hm]. }
  intros [c ->]. destruct c; simpl; try (apply Hrun).
  - unfold registerTx. tx_rel.
  - unfold issueTx. tx_rel.
  - unfold enrollTx. tx_rel.
  - unfold rotateTx. tx_rel.
  - unfold revokeIdentityTx. tx_rel.
  - unfold heartbeatTx. tx_rel.
  - done.
Qed.
Lemma idSteps_later i i' : rtc idStep i i' → later i i'.
Proof. induction 1 as [|i j k H _ IH]; [done|]. etrans; [by apply idStep_later|done]. Qed.

(** ** Theorems *)

Lemma sole_active i k c :
  id_inv i → id_creds i !! k = Some c → cd_status c = SrvActive → active_credential (cd_server c) i = Some (k, c).
Proof.
  intros Hi Hk Ha. destruct (active_credential (cd_server c) i) as [[k' c']|] eqn:E.
  - apply active_credential_Some in E as (Hk'&Hs&Ha'). assert (k' = k) as ->; [|congruence].
    apply (ii_version _ _ Hi k' c' k c Hk' Hk Hs).
    pose proof (ii_top _ _ Hi k c k' c' Hk Hk' Hs Ha). pose proof (ii_top _ _ Hi k' c' k c Hk' Hk (eq_sym Hs) Ha'). lia.
  - rewrite active_credential_None in E. by destruct (E k c Hk eq_refl).
Qed.

Lemma authenticate_current i s k c :
  id_inv i → ValidOpaqueID (cd_server c) = true → id_servers i !! cd_server c = Some s → sv_status s = SrvActive →
  id_creds i !! k = Some c → cd_status c = SrvActive →
  ∀ g, (∃ a, Authenticate (cd_server c) g i = inr a) ↔ g = cd_digest c.
Proof.
  intros Hi Hid Hs Ha Hk Hc g. unfold Authenticate. rewrite Hid. simpl.
  destruct (authenticated (cd_server c) g i) as [[s' c']|] eqn:E.
  - apply authenticated_spec in E as (_&_&Hact&<-). rewrite (sole_active i k c) in Hact by done. injection Hact as <-. naive_solver.
  - split; [by intros [a ?]|]. intros ->. assert (authenticated (cd_server c) (cd_digest c) i = Some (s, c)); [|congruence].
    apply authenticated_spec. by rewrite (sole_active i k c).
Qed.

(** C37: server credentials: in every reachable state a server has at most one
    active credential; it belongs to an active server and carries the highest
    version issued to it; versions count up from 1 without gaps or repeats;
    and an active server holds an active credential exactly when its
    enrollment token has been consumed, so rotation never leaves an agent
    without one. *)
Theorem server_credentials_sound i :
  rtc idStep noIdentity i →
  (∀ k c k' c', id_creds i !! k = Some c → id_creds i !! k' = Some c' → cd_server c = cd_server c' →
     cd_status c = SrvActive → cd_status c' = SrvActive → k = k') ∧
  (∀ k c, id_creds i !! k = Some c → cd_status c = SrvActive →
     ∃ s, id_servers i !! cd_server c = Some s ∧ sv_status s = SrvActive ∧
          ∀ k' c', id_creds i !! k' = Some c' → cd_server c' = cd_server c → cd_version c' ≤ cd_version c) ∧
  (∀ k c v, id_creds i !! k = Some c → 1 ≤ v ≤ cd_version c →
     exists! k', ∃ c', id_creds i !! k' = Some c' ∧ cd_server c' = cd_server c ∧ cd_version c' = v) ∧
  (∀ n s t, id_servers i !! n = Some s → sv_status s = SrvActive → id_tokens i !! n = Some t →
     is_Some (tk_consumed t) ↔ ∃ k c, id_creds i !! k = Some c ∧ cd_server c = n ∧ cd_status c = SrvActive).
Proof.
  intros Hi%id_reachable. split_and!.
  - intros k c k' c' Hk Hk' Hs Ha Ha'. pose proof (sole_active i k c Hi Hk Ha) as E1.
    pose proof (sole_active i k' c' Hi Hk' Ha') as E2. rewrite Hs in E1. congruence.
  - intros k c Hk Ha. destruct (ii_owned _ _ Hi k c Hk) as (_&[s Hs]&_). exists s. split_and!; [done| |].
    + eapply (ii_active _ _ Hi); [done|done|set_solver|done].
    + intros k' c' Hk' Hs'. by eapply (ii_top _ _ Hi).
  - intros k c v Hk Hv. destruct (ii_dense _ _ Hi k c v Hk Hv) as (k'&c'&Hk'&Hs'&Hv'). exists k'. split; [eauto|].
    intros k2 (c2&Hk2&Hs2&Hv2). eapply (ii_version _ _ Hi); [done|done|congruence|congruence].
  - intros n s t Hn Ha Ht. split.
    + intros Hc. eapply (ii_enrolled _ _ Hi); [done..|set_solver].
    + intros (k&c&Hk&Hs&_). destruct (ii_owned _ _ Hi k c Hk) as (_&_&t'&Ht'&Hc'). rewrite Hs, Ht in Ht'. by injection Ht' as <-.
Qed.

(** an enrollment token is good once: after a successful enrolment of a
    server, whatever calls follow, no token enrols it again and no
    administrator can issue it another one; both are refused with the generic
    denial and change nothing. *)
Theorem enrollment_single_use n e c clk i v i' i'' :
  Enroll n e c clk i = (inr v, i') → rtc idStep i' i'' →
  (∀ e2 c2 clk2, Enroll n e2 c2 clk2 i'' = (inl ErrServerAuthorizationDenied, i'')) ∧
  (∀ p g ttl clk2, IssueEnrollment p n g ttl clk2 i'' = (inl ErrServerAuthorizationDenied, i'')).
Proof.
  intros HE Hr. unfold Enroll, run_tx in HE. destruct (enrollTx n e c clk i) as [|[v' j]] eqn:E; [done|]. injection HE as -> ->.
  apply enrollTx_inv in E as (t&i1&i2&u&_&_&Ht&_&_&->&_&Hins&Hau). apply insert_credential_inv in Hins as (_&->&_).
  unfold audit in Hau. apply tx_write_inv in Hau as ->. apply idSteps_later in Hr as [Hr _]. simpl in Hr.
  specialize (Hr n _ (lookup_insert_eq _ _ _) (mk_is_Some _ _ eq_refl)). split.
  - intros e2 c2 clk2. unfold Enroll, run_tx, enrollTx. unfold tx_bind at 1. destruct (ValidOpaqueID n); [|done]. simpl.
    unfold tx_bind at 1. simpl. destruct (enrollmentAccepted n e2 (clk2 0%nat) i'') eqn:E; [|done]. exfalso.
    apply enrollmentAccepted_spec in E as (s2&t2&_&_&Ht2&Hc2&_). rewrite Hr in Ht2. by injection Ht2 as <-.
  - intros p g ttl clk2. unfold IssueEnrollment, run_tx, issueTx. unfold tx_bind at 1. destruct (_ && _); [|done]. simpl.
    unfold tx_bind at 1. unfold sessionLocked. destruct (tx_bind _ _ i'') as [err|[u2 j2]] eqn:E.
    + assert (err = ErrServerAuthorizationDenied) as ->; [|done]. unfold tx_bind, tx_guard, tx_some in E.
      destruct (validPrincipal p); [|by injection E]. simpl in E. destruct (id_sessions i'' !! p_SessionID p); [|by injection E].
      destruct (sessionLive _ _ _); [done|by injection E].
    + apply sessionLocked_inv in E as ->. unfold tx_bind at 1. unfold lockActiveServer at 1. unfold tx_bind at 1. unfold tx_some at 1.
      destruct (id_servers i'' !! n); [|done]. unfold tx_guard at 1. destruct (_ && _); [|done]. simpl.
      unfold tx_bind at 1. unfold tx_some at 1. rewrite Hr. done.
Qed.

Lemma enroll_possible n e c clk i s t :
  id_inv i → slen c = 32 → ValidOpaqueID n = true → id_servers i !! n = Some s → sv_status s = SrvActive →
  id_tokens i !! n = Some t → tk_consumed t = None → tk_issued t ≤ clk 0%nat < tk_expires t → tk_digest t = e →
  ∃ i', enrollTx n e c clk i = inr (1, i').
Proof.
  intros Hi Hc Hid Hs Ha Ht Htc Hx He.
  assert (∀ k c, id_creds i !! k = Some c → cd_server c ≠ n) as Hnone.
  { intros k c0 Hk E. destruct (ii_owned _ _ Hi k c0 Hk) as (_&_&t'&Ht'&Hc'). rewrite E, Ht in Ht'. injection Ht' as <-.
    rewrite Htc in Hc'. by destruct Hc'. }
  pose proof (ii_window _ _ Hi n t Ht) as Hw. unfold enrollment_check in Hw. bool_hyps.
  eexists. unfold enrollTx, tx_bind at 1. rewrite Hid. cbn [tx_guard tx_ret]. unfold tx_bind at 1. cbn [tx_read].
  rewrite (proj2 (enrollmentAccepted_spec n e (clk 0%nat) i)) by (exists s, t; split_and!; lia || done).
  unfold tx_bind at 1. cbn [tx_guard tx_ret]. unfold tx_bind at 1. unfold update_enrollment at 1. rewrite Ht, Htc.
  cbn [isSomeb]. unfold validate_enrollment_update. rewrite Htc. cbn [isSomeb tk_consumed tk_digest tk_issued tk_expires].
  rewrite bool_decide_true, !Z.eqb_refl by done. cbn [negb andb orb]. unfold enrollment_check.
  cbn [isSomeb tk_consumed tk_digest tk_issued tk_expires].
  rewrite (proj2 (Z.eqb_eq _ _)), (proj2 (Z.ltb_lt _ _)), !(proj2 (Z.leb_le _ _)) by (done || lia). cbn [negb andb].
  unfold tx_bind at 1. unfold denyOn, insert_credential, credential_check.
  cbn [cd_version cd_digest cd_status cd_revoked cd_issued cd_server notBefore isSomeb]. rewrite Hc.
  rewrite (proj2 (someCredential_false _ _)), (proj2 (someCredential_false _ _)).
  - simpl. rewrite Hs. simpl. reflexivity.
  - intros k c0 Hk. unfold active_of, of_server. by rewrite bool_decide_false by (by eapply Hnone).
  - intros k c0 Hk. unfold of_server. by rewrite bool_decide_false by (by eapply Hnone).
Qed.

(** enrolment: in every reachable state Enroll succeeds exactly when the
    server is active and its token is the presented one, unconsumed, issued
    and not yet expired by PostgreSQL's clock.  It then consumes the token and
    the presented credential, and no other, authenticates as version 1; a
    refusal changes nothing. *)
Theorem enroll_spec n e c clk i :
  rtc idStep noIdentity i → slen c = 32 →
  (∀ err i', Enroll n e c clk i = (inl err, i') → i' = i) ∧
  (∀ v i', Enroll n e c clk i = (inr v, i') →
     v = 1 ∧ id_servers i' = id_servers i ∧ (∀ m, m ≠ n → id_tokens i' !! m = id_tokens i !! m) ∧
     (∃ t, id_tokens i' !! n = Some t ∧ tk_consumed t = Some (clk 0%nat)) ∧
     ∀ g, (∃ a, Authenticate n g i' = inr a) ↔ g = c) ∧
  ((∃ v i', Enroll n e c clk i = (inr v, i')) ↔
     ValidOpaqueID n = true ∧ ∃ s t, id_servers i !! n = Some s ∧ sv_status s = SrvActive ∧ id_tokens i !! n = Some t ∧
       tk_consumed t = None ∧ tk_issued t ≤ clk 0%nat < tk_expires t ∧ tk_digest t = e).
Proof.
  intros Hi%id_reachable Hc. unfold Enroll, run_tx. destruct (enrollTx n e c clk i) as [err|[v i']] eqn:E; split_and!.
  - by intros ? ? [= _ ->].
  - done.
  - split; [by intros (?&?&?)|]. intros (Hid&s&t&Hs&Ha&Ht&Htc&Hx&He).
    destruct (enroll_possible n e c clk i s t Hi Hc Hid Hs Ha Ht Htc Hx He). congruence.
  - done.
  - intros v' i'' [= <- <-]. pose proof (enroll_keeps _ _ _ _ _ _ _ Hi E) as Hi'.
    assert (ValidOpaqueID n = true) as Hid by (unfold enrollTx in E; apply tx_bind_inv in E as (?&?&[? _]%tx_guard_inv&_); done).
    apply enrollTx_inv in E as (t&i1&i2&u&->&Hacc&Ht&_&_&->&_&Hins&Hau). apply insert_credential_inv in Hins as (_&->&_).
    unfold audit in Hau. apply tx_write_inv in Hau as ->. apply enrollmentAccepted_spec in Hacc as (s&?&Hs&Ha&_).
    split_and!; [done|done| | |].
    + intros m Hm. simpl. by rewrite lookup_insert_ne.
    + simpl. rewrite lookup_insert_eq. eauto.
    + set (i3 := with_audit _ _) in *. set (row := {| cd_server := n; cd_version := 1; cd_digest := c; cd_status := SrvActive; cd_issued := clk 1%nat; cd_revoked := None |}).
      apply (authenticate_current i3 s (id_next i) row); simpl; try done. apply lookup_insert_eq.
  - split; [|by eauto]. intros _. assert (ValidOpaqueID n = true) as Hid
      by (unfold enrollTx in E; apply tx_bind_inv in E as (?&?&[? _]%tx_guard_inv&_); done).
    apply enrollTx_inv in E as (t&i1&i2&u&->&Hacc&Ht&_&Hiss&_). apply enrollmentAccepted_spec in Hacc as (s&t'&Hs&Ha&Ht'&Htc&Hx&He).
    rewrite Ht in Ht'. injection Ht' as <-. split; [done|]. exists s, t. split_and!; done.
Qed.

(** rotation and revocation take effect at once.  After RotateCredential
    the new credential, and no other, authenticates the server, under the next
    version; after RevokeServer none does, whatever calls follow. *)
Theorem credential_switch i p n :
  rtc idStep noIdentity i →
  (∀ g clk v i', RotateCredential p n g clk i = (inr v, i') →
     (∃ k c, id_creds i !! k = Some c ∧ cd_server c = n ∧ cd_status c = SrvActive ∧ v = cd_version c + 1) ∧
     ∀ g', (∃ a, Authenticate n g' i' = inr a ∧ as_Version a = v) ↔ g' = g) ∧
  (∀ reason clk i' i'', RevokeIdentity p n reason clk i = (inr tt, i') → rtc idStep i' i'' →
     ∀ g, Authenticate n g i'' = inl ErrServerAuthorizationDenied).
Proof.
  intros Hi%id_reachable. split.
  - intros g clk v i' H. unfold RotateCredential, run_tx in H. destruct (rotateTx p n g clk i) as [|[v' j]] eqn:E; [done|].
    injection H as -> ->. pose proof (rotate_keeps _ _ _ _ _ _ _ Hi E) as Hi'. unfold rotateTx in E.
    apply tx_bind_inv in E as (?&?&[Hg ->]%tx_guard_inv&E). bool_hyps. do 2 id_step E. destruct Hsrv as (s&Hs&_&Ha).
    apply tx_bind_inv in E as ([k0 c0]&i0&[Hact ->]%tx_some_inv&E). simpl in E. apply active_credential_Some in Hact as (Hk0&Hc0&Hca).
    apply tx_bind_inv in E as (?&i1&H1&E). apply tx_bind_inv in E as (?&i2&H2%denyOn_inv&E).
    apply tx_bind_inv in E as (?&i3&H3&E). tx_inv. unfold audit in H3. apply tx_write_inv in H3 as ->.
    apply insert_credential_inv in H2 as (_&->&_). destruct (revoke_where_unchanged _ _ _ _ _ H1) as [Es _].
    split; [by eauto 6|]. set (i3 := with_audit _ _) in *. intros g'.
    set (row := {| cd_server := n; cd_version := cd_version c0 + 1; cd_digest := g; cd_status := SrvActive; cd_issued := clk 2%nat; cd_revoked := None |}).
    assert (id_creds i3 !! id_next i1 = Some row) as Hrow by apply lookup_insert_eq.
    assert (id_servers i3 !! n = Some s) as Hs3 by (simpl; by rewrite Es).
    pose proof (authenticate_current i3 s (id_next i1) row Hi' ltac:(done) Hs3 Ha Hrow eq_refl g') as Hcur.
    change (cd_server row) with n in Hcur. change (cd_digest row) with g in Hcur. rewrite <-Hcur. split; [by intros (a&?&_); exists a|]. intros [a Hau]. exists a.
    split; [done|]. unfold Authenticate in Hau. destruct (negb _); [done|]. destruct (authenticated _ _ i3) as [[s' c']|] eqn:Eq; [|done].
    injection Hau as <-. simpl. apply authenticated_spec in Eq as (_&_&Hact&_).
    pose proof (sole_active i3 (id_next i1) row Hi' Hrow eq_refl) as Hsole. change (cd_server row) with n in Hsole.
    simpl in Hact. rewrite Hsole in Hact. by injection Hact as <-.
  - intros reason clk i' i'' H Hr g. unfold RevokeIdentity, run_tx in H. destruct (revokeIdentityTx _ _ _ _ _) as [|[u j]] eqn:E; [done|].
    injection H as _ ->. apply idSteps_later in Hr as [_ Hr]. unfold revokeIdentityTx in E. do 3 id_step E. destruct Hsrv as (s&Hs&_&_).
    apply tx_bind_inv in E as (b&i1&H1&E). id_step E. apply tx_bind_inv in E as (?&i2&H2&E).
    unfold audit in E. apply tx_write_inv in E as ->. destruct (revoke_where_unchanged _ _ _ _ _ H2) as [Es _].
    apply update_server_inv in H1 as [(_&_&?)|(_&s1&Hs1&->)]; [congruence|]. simpl in Hr.
    assert (id_servers i'' !! n = Some (revoke_server (clk 1%nat) s1)) as Hn by (apply Hr; [rewrite Es; apply lookup_insert_eq|done]).
    unfold Authenticate. destruct (negb _); [done|]. destruct (authenticated n g i'') as [[s' c']|] eqn:Eq; [|done].
    apply authenticated_spec in Eq as (Hs'&Ha'&_). rewrite Hn in Hs'. injection Hs' as <-. done.
Qed.

(** ** The lease repository's view *)

Lemma head_filter_fmap {A B} (f : A → B) (P : A → Prop) (Q : B → Prop) `{!∀ x, Decision (P x), !∀ y, Decision (Q y)} l :
  (∀ x, Q (f x) ↔ P x) → head (filter Q (f <$> l)) = f <$> head (filter P l).
Proof.
  intros HPQ. induction l as [|x l IH]; [done|]. rewrite fmap_cons. destruct (decide (P x)) as [Hp|Hp].
  - rewrite (filter_cons_True P), (filter_cons_True Q) by (done || by apply HPQ). done.
  - rewrite (filter_cons_False Q), (filter_cons_False P) by (by rewrite ?HPQ). exact IH.
Qed.

Lemma activeDigest_view n i d : activeDigest n (leaseView i d) = cd_digest <$> (snd <$> active_credential n i).
Proof.
  unfold activeDigest, leaseView, active_credential. simpl.
  pose proof (head_filter_fmap (leaseCredential ∘ snd) (λ kv, active_of n kv.2 = true)
                (λ c, cred_server c = n ∧ cred_active c = true) (map_to_list (id_creds i))) as H.
  rewrite <-list_fmap_compose. etrans; [apply (f_equal (fmap cred_digest)), H|].
  - intros [k c]. rewrite active_of_spec. simpl. by rewrite bool_decide_eq_true.
  - rewrite <-!option_fmap_compose. reflexivity.
Qed.

Lemma imap_values (f : Z → Credential → Credential) (m : gmap Z Credential) :
  map_to_list (map_imap (λ k c, Some (f k c)) m) ≡ₚ (λ kv, (kv.1, f kv.1 kv.2)) <$> map_to_list m.
Proof.
  apply NoDup_Permutation; [apply NoDup_map_to_list| |].
  - eapply NoDup_fmap_2_strong; [|apply NoDup_map_to_list]. intros [k c] [k' c'] H1 H2 [= -> _].
    apply elem_of_map_to_list in H1, H2. congruence.
  - intros [k c]. rewrite elem_of_map_to_list, map_lookup_imap, list_elem_of_fmap. split.
    + intros (c0&Hk&[= <-])%bind_Some. exists (k, c0). by rewrite elem_of_map_to_list.
    + intros ([k' c0]&[= -> ->]&Hk%elem_of_map_to_list). simpl in *. by rewrite Hk.
Qed.

(** the interface to the lease repository: on the columns the lease
    operations read of the identity tables, their own credential check is
    Authenticate's verdict, and what [Lease.revokeServerTx] writes to these
    columns is what RevokeServer did to the identity tables (credentials up to
    order). *)
Theorem lease_view_agrees i d :
  (∀ n g, credentialMatches n g (leaseView i d) = isSomeb (authenticated n g i)) ∧
  (∀ p n reason clk i' owner, RevokeIdentity p n reason clk i = (inr tt, i') →
     db_servers (leaseView i d) !! n = Some {| srv_owner := owner; srv_active := true |} →
     db_servers (leaseView i' d) = <[n := {| srv_owner := owner; srv_active := false |}]> (db_servers (leaseView i d)) ∧
     db_credentials (leaseView i' d) ≡ₚ revokeCredentials n (db_credentials (leaseView i d))).
Proof.
  split.
  - intros n g. unfold credentialMatches. rewrite activeDigest_view. simpl. rewrite lookup_fmap. unfold authenticated, activeServer.
    destruct (id_servers i !! n) as [s|]; simpl; [|done]. destruct (bool_decide (sv_status s = SrvActive)) eqn:E; simpl; [|done].
    destruct (active_credential n i) as [[k c]|]; simpl; [|done]. unfold matchServerCredential. simpl. by destruct (bool_decide (cd_digest c = g)).
  - intros p n reason clk i' owner H Hn. simpl in *. unfold RevokeIdentity, run_tx in H.
    destruct (revokeIdentityTx _ _ _ _ _) as [|[u j]] eqn:E; [done|]. injection H as _ ->. unfold revokeIdentityTx in E.
    do 3 id_step E. destruct Hsrv as (s&Hs&_&_). apply tx_bind_inv in E as (b&i1&H1&E). id_step E.
    apply tx_bind_inv in E as (?&i2&H2&E). unfold audit in E. apply tx_write_inv in E as ->.
    apply update_server_inv in H1 as [(_&_&?)|(_&s1&Hs1&->)]; [congruence|]. apply revoke_where_inv in H2 as [-> _]. simpl.
    rewrite lookup_fmap, Hs1 in Hn. simpl in Hn. injection Hn as <- _. split.
    + rewrite fmap_insert. done.
    + unfold revokeCredentials. rewrite imap_values, <-!list_fmap_compose. apply Permutation_refl'.
      apply list_fmap_ext. intros k [k' c] _. simpl. unfold active_of, of_server, leaseCredential. simpl.
      destruct (bool_decide (cd_server c = n)) eqn:Ec; simpl; [|done]. destruct (cd_status c) eqn:Es; simpl; [done|].
      rewrite Es. by rewrite bool_decide_false.
Qed.

(** ** Instances *)

Definition demoAdmin : Principal :=
  {| p_UserID := "user_1"; p_OwnerID := "owner_1"; p_RoleOwner := true; p_AuthRevision := 1; p_SessionID := "session_1" |}.
Definition demoSession : SessionRow :=
  {| ses_user := "user_1"; ses_owner := "owner_1"; ses_auth_revision := 1; ses_user_auth_revision := 1;
     ses_user_active := true; ses_revoked := false; ses_idle_expires := 10 ^ 15; ses_absolute_expires := 10 ^ 15 |}.
Definition digestA : string := Sum256 "a".
Definition digestB : string := Sum256 "b".
Definition demoCalls : list IdCall :=
  [CallSessions {["session_1" := demoSession]} {["owner_1"]};
   CallRegister demoAdmin {| in_ServerID := "server_1"; in_Name := "edge"; in_Protocol := 1; in_Digest := digestA; in_TTL := 60 |}
     (λ k, 1000 + Z.of_nat k)].
Definition demoRegistered : IdentityDB := foldl (λ i c, idExec c i) noIdentity demoCalls.
Definition demoClk : nat → Z := λ k, 2000 + Z.of_nat k.
Definition demoEnrolled : IdentityDB := (Enroll "server_1" digestA digestB demoClk demoRegistered).2.

Lemma calls_reachable cs i : rtc idStep i (foldl (λ i c, idExec c i) i cs).
Proof. revert i. induction cs as [|c cs IH]; intros i; simpl; [done|]. eapply rtc_l; [by exists c|apply IH]. Qed.
Lemma registered_reachable : rtc idStep noIdentity demoRegistered.
Proof. apply calls_reachable. Qed.
Lemma enrolled_reachable : rtc idStep noIdentity demoEnrolled.
Proof. eapply rtc_r; [apply registered_reachable|]. by exists (CallEnroll "server_1" digestA digestB demoClk). Qed.

Lemma enrollment_single_use_witness :
  Enroll "server_1" digestA digestB demoClk demoEnrolled = (inl ErrServerAuthorizationDenied, demoEnrolled).
Proof.
  assert ((Enroll "server_1" digestA digestB demoClk demoRegistered).1 = inr 1) as H1 by (vm_compute; reflexivity).
  destruct (Enroll "server_1" digestA digestB demoClk demoRegistered) as [r i'] eqn:E. simpl in H1. subst r.
  replace demoEnrolled with i' by (unfold demoEnrolled; rewrite E; reflexivity).
  destruct (enrollment_single_use "server_1" digestA digestB demoClk demoRegistered 1 i' i' E (rtc_refl _ _)) as [H _].
  apply H.
Defined.

Lemma enroll_spec_witness : ∃ v i', Enroll "server_1" digestA digestB demoClk demoRegistered = (inr v, i').
Proof.
  apply (enroll_spec "server_1" digestA digestB demoClk demoRegistered registered_reachable); [vm_compute; reflexivity|].
  split; [vm_compute; reflexivity|]. eexists _, _. split; [vm_compute; reflexivity|].
  split; [reflexivity|]. split; [vm_compute; reflexivity|]. split; [reflexivity|]. split; [vm_compute; done|reflexivity].
Defined.

Lemma server_credentials_sound_witness :
  ∃ s, id_servers demoEnrolled !! "server_1" = Some s ∧ sv_status s = SrvActive.
Proof.
  assert (∃ c, id_creds demoEnrolled !! 1 = Some c ∧ cd_status c = SrvActive ∧ cd_server c = "server_1") as (c&E&Ha&Hn)
    by (eexists; split; [vm_compute; reflexivity|split; reflexivity]).
  destruct (server_credentials_sound demoEnrolled enrolled_reachable) as (_&H&_).
  destruct (H 1 c E Ha) as (s&Hs&Hsa&_). rewrite Hn in Hs. exists s. exact (conj Hs Hsa).
Defined.

Lemma credential_switch_witness :
  ∃ i', RotateCredential demoAdmin "server_1" digestA demoClk demoEnrolled = (inr 2, i') ∧
        ∃ a, Authenticate "server_1" digestA i' = inr a ∧ as_Version a = 2.
Proof.
  assert ((RotateCredential demoAdmin "server_1" digestA demoClk demoEnrolled).1 = inr 2) as H1 by (vm_compute; reflexivity).
  destruct (RotateCredential demoAdmin "server_1" digestA demoClk demoEnrolled) as [r i'] eqn:E. simpl in H1. subst r.
  exists i'. split; [reflexivity|]. destruct (credential_switch demoEnrolled demoAdmin "server_1" enrolled_reachable) as [H _].
  destruct (H digestA demoClk 2 i' E) as [_ H2]. apply (H2 digestA). reflexivity.
Defined.

Definition noLeases : DB :=
  {| db_servers := ∅; db_credentials := []; db_sessions := ∅; db_jobs := ∅; db_attempts := ∅; db_slots := ∅; db_deployments := ∅;
     db_releases := ∅; db_ops := ∅; db_heads := ∅; db_job_events := []; db_route_events := []; db_audit := []; db_configs := ∅;
     db_bindings := ∅; db_secret_heads := ∅; db_secret_versions := ∅; db_execution := ∅; db_frozen_secrets := ∅;
     db_frozen_literals := ∅; db_next_attempt := 1; db_next_op := 1 |}.

Lemma lease_view_agrees_witness :
  credentialMatches "server_1" digestB (leaseView demoEnrolled noLeases) = true ∧
  ∃ i', RevokeIdentity demoAdmin "server_1" "retired" demoClk demoEnrolled = (inr tt, i') ∧
        db_servers (leaseView i' noLeases) !! "server_1" = Some {| srv_owner := "owner_1"; srv_active := false |}.
Proof.
  destruct (lease_view_agrees demoEnrolled noLeases) as [H1 H2]. split.
  - rewrite (H1 "server_1" digestB). vm_compute. reflexivity.
  - assert ((RevokeIdentity demoAdmin "server_1" "retired" demoClk demoEnrolled).1 = inr tt) as Hr by (vm_compute; reflexivity).
    destruct (RevokeIdentity demoAdmin "server_1" "retired" demoClk demoEnrolled) as [r i'] eqn:E. simpl in Hr. subst r.
    exists i'. split; [reflexivity|].
    destruct (H2 demoAdmin "server_1" "retired" demoClk i' "owner_1" E) as [Hs _]; [vm_compute; reflexivity|].
    rewrite Hs. vm_compute. reflexivity.
Defined.
