(* ===== verification/Aes.v ===== *)
(** * crypto/aes and crypto/cipher's AES-GCM with a random nonce

    The envelopes of src/internal/crypto use [aes.NewCipher] on 32-byte keys
    and [cipher.NewGCMWithRandomNonce]: AES-256 (FIPS 197) in Galois/Counter
    mode (NIST SP 800-38D) with a 12-byte nonce in front of the ciphertext
    and a 16-byte tag behind it.  Both are executable here and checked
    against the published vectors at the end of the file. *)
From S2P Require Import Prelude GoStd.
From Stdlib Require Import Ascii.
#[local] Open Scope Z_scope.

(** ** AES-256 *)

Module Aes.

(** Multiplication in GF(2^8). *)
Definition xtime (b : Z) : Z := if b <? 128 then 2 * b else Z.lxor (2 * b) 283.
Fixpoint gmul (n : nat) (a b : Z) : Z :=
  match n with
  | O => 0
  | S n' => Z.lxor (if Z.odd b then a else 0) (gmul n' (xtime a) (b / 2))
  end.
Definition mul (a b : Z) : Z := gmul 8 a b.
(** The inverse is the 254th power. *)
Definition square (a : Z) : Z := mul a a.
Definition inverse (a : Z) : Z :=
  let a2 := square a in let a4 := square a2 in let a8 := square a4 in let a16 := square a8 in
  let a32 := square a16 in let a64 := square a32 in let a128 := square a64 in
  mul a2 (mul a4 (mul a8 (mul a16 (mul a32 (mul a64 a128))))).
Definition rotl8 (n b : Z) : Z := (b * 2 ^ n + b / 2 ^ (8 - n)) mod 256.
Definition affine (b : Z) : Z :=
  Z.lxor b (Z.lxor (rotl8 1 b) (Z.lxor (rotl8 2 b) (Z.lxor (rotl8 3 b) (Z.lxor (rotl8 4 b) 99)))).
Definition sbox : list Z := Eval vm_compute in (λ i : nat, affine (inverse (Z.of_nat i))) <$> seq 0 256.
Definition sub (b : Z) : Z := nth (Z.to_nat b) sbox 0.

(** The key schedule: 60 words of four bytes. *)
Definition xors (a b : list Z) : list Z := zip_with Z.lxor a b.
Fixpoint chunks (n : nat) (l : list Z) : list (list Z) :=
  match n with O => [] | S n' => take 4 l :: chunks n' (drop 4 l) end.
Definition rotWord (w : list Z) : list Z := drop 1 w ++ take 1 w.
(** [ws] are the words so far, the latest first. *)
Fixpoint expand (n : nat) (i : Z) (rcon : Z) (ws : list (list Z)) : list (list Z) :=
  match n with
  | O => rev ws
  | S n' =>
      let prev := nth 0 ws [] in
      let t := if i mod 8 =? 0 then xors (sub <$> rotWord prev) [rcon; 0; 0; 0]
               else if i mod 8 =? 4 then sub <$> prev else prev in
      expand n' (i + 1) (if i mod 8 =? 0 then xtime rcon else rcon) (xors (nth 7 ws []) t :: ws)
  end.
Definition keySchedule (key : list Z) : list (list Z) := expand 52 8 1 (rev (chunks 8 key)).

(** The state is 16 bytes, column by column. *)
Definition shiftRows (s : list Z) : list Z :=
  (λ i : nat, nth ((i + 4 * (i mod 4)) mod 16) s 0) <$> seq 0 16.
Definition mixColumn (c : list Z) : list Z :=
  match c with
  | [a; b; d; e] =>
      [Z.lxor (mul 2 a) (Z.lxor (mul 3 b) (Z.lxor d e)); Z.lxor a (Z.lxor (mul 2 b) (Z.lxor (mul 3 d) e));
       Z.lxor a (Z.lxor b (Z.lxor (mul 2 d) (mul 3 e))); Z.lxor (mul 3 a) (Z.lxor b (Z.lxor d (mul 2 e)))]
  | _ => c
  end.
Definition mixColumns (s : list Z) : list Z := mjoin (mixColumn <$> chunks 4 s).
Definition roundKey (ks : list (list Z)) (r : nat) : list Z := mjoin (take 4 (drop (4 * r) ks)).

Fixpoint rounds (n r : nat) (ks : list (list Z)) (s : list Z) : list Z :=
  match n with
  | O => xors (shiftRows (sub <$> s)) (roundKey ks r)
  | S n' => rounds n' (S r) ks (xors (mixColumns (shiftRows (sub <$> s))) (roundKey ks r))
  end.
Definition encryptBlock (ks : list (list Z)) (block : list Z) : list Z := rounds 13 1 ks (xors block (roundKey ks 0)).
End Aes.

(** ** GCM *)

Module Gcm.

(** Blocks of the universal hash are 128-bit integers, first byte highest. *)
Definition toZ (bs : list Z) : Z := fold_left (λ n b, 256 * n + b) bs 0.
Definition toBytes (n : nat) (x : Z) : list Z := (λ i : nat, (x / 2 ^ (8 * Z.of_nat (n - 1 - i))) mod 256) <$> seq 0 n.

(** Multiplication in GF(2^128), highest bit first. *)
Definition R : Z := 225 * 2 ^ 120.
Fixpoint mulLoop (n : nat) (x v z : Z) : Z :=
  match n with
  | O => z
  | S n' =>
      mulLoop n' x (if Z.odd v then Z.lxor (v / 2) R else v / 2)
        (if Z.testbit x (Z.of_nat n') then Z.lxor z v else z)
  end.
Definition mul (x y : Z) : Z := mulLoop 128 x y 0.

Fixpoint blocks (n : nat) (bs : list Z) : list (list Z) :=
  match n with O => [] | S n' => take 16 bs :: blocks n' (drop 16 bs) end.
Definition blockCount (bs : list Z) : nat := ((length bs + 15) / 16)%nat.
(** Zero padding to whole blocks. *)
Definition padded (bs : list Z) : list Z := bs ++ replicate (16 * blockCount bs - length bs) 0.
Definition blocksOf (bs : list Z) : list (list Z) := blocks (blockCount bs) (padded bs).

Definition ghash (h : Z) (bs : list (list Z)) : Z := fold_left (λ y b, mul (Z.lxor y (toZ b)) h) bs 0.

Definition lengths (aad ct : list Z) : list Z :=
  toBytes 8 (8 * Z.of_nat (length aad)) ++ toBytes 8 (8 * Z.of_nat (length ct)).

(** The counter block: nonce and a 32-bit counter that starts at 1. *)
Definition counterBlock (nonce : list Z) (n : nat) : list Z := nonce ++ toBytes 4 (Z.of_nat n mod 2 ^ 32).
Definition keyStream (ks : list (list Z)) (nonce : list Z) (n : nat) : list Z :=
  mjoin ((λ i, Aes.encryptBlock ks (counterBlock nonce i)) <$> seq 2 n).

Definition tag (ks : list (list Z)) (nonce aad ct : list Z) : list Z :=
  let h := toZ (Aes.encryptBlock ks (replicate 16 0)) in
  let s := ghash h (blocksOf aad ++ blocksOf ct ++ [lengths aad ct]) in
  Aes.xors (toBytes 16 s) (Aes.encryptBlock ks (counterBlock nonce 1)).
End Gcm.

(** ** Byte strings *)

Definition xorAscii (a b : ascii) : ascii :=
  match a, b with
  | Ascii a0 a1 a2 a3 a4 a5 a6 a7, Ascii b0 b1 b2 b3 b4 b5 b6 b7 =>
      Ascii (xorb a0 b0) (xorb a1 b1) (xorb a2 b2) (xorb a3 b3) (xorb a4 b4) (xorb a5 b5) (xorb a6 b6) (xorb a7 b7)
  end.
(** Exclusive or with the front of a stream of bytes; bytes past its end stay. *)
Fixpoint xorStream (s : string) (stream : list Z) : string :=
  match s, stream with
  | String c s', b :: stream' => String (xorAscii c (GoStd.ascii_of_byte b)) (xorStream s' stream')
  | _, _ => s
  end.

Definition bytes (s : string) : list Z := Sha256.bytes_of_string s.
Definition NonceSize : nat := 12.
Definition TagSize : nat := 16.

Definition gcmStream (key nonce : string) (n : nat) : list Z :=
  Gcm.keyStream (Aes.keySchedule (bytes key)) (bytes nonce) ((n + 15) / 16).
Definition gcmTag (key nonce ct aad : string) : string :=
  Sha256.string_of_bytes (Gcm.tag (Aes.keySchedule (bytes key)) (bytes nonce) (bytes aad) (bytes ct)).

(** [aead.Seal(nil, nil, plaintext, aad)] with the nonce it draws. *)
Definition gcmSeal (key nonce plaintext aad : string) : string :=
  let ct := xorStream plaintext (gcmStream key nonce (String.length plaintext)) in
  nonce +:+ ct +:+ gcmTag key nonce ct aad.

(** [aead.Open(nil, nil, ciphertext, aad)]; [None] is an error. *)
Definition gcmOpen (key ciphertext aad : string) : option string :=
  if (String.length ciphertext <? NonceSize + TagSize)%nat then None
  else
    let nonce := takeBytes NonceSize ciphertext in
    let rest := dropBytes NonceSize ciphertext in
    let n := (String.length rest - TagSize)%nat in
    let ct := takeBytes n rest in
    if bool_decide (dropBytes n rest = gcmTag key nonce ct aad)
    then Some (xorStream ct (gcmStream key nonce (String.length ct)))
    else None.

(** ** The published vectors *)

Definition ofHex (s : string) : string :=
  (fix go s := match s with
    | String a (String b r) =>
        let v c := let x := byte_of c in if x <? 58 then x - 48 else x - 87 in
        String (GoStd.ascii_of_byte (16 * v a + v b)) (go r)
    | _ => EmptyString end) s.

(** FIPS 197, appendix C.3. *)
Example aes256_fips197 :
  EncodeToString (Sha256.string_of_bytes (Aes.encryptBlock
    (Aes.keySchedule (bytes (ofHex "000102030405060708090a0b0c0d0e0f101112131415161718191a1b1c1d1e1f")))
    (bytes (ofHex "00112233445566778899aabbccddeeff")))) = "8ea2b7ca516745bfeafc49904b496089".
Proof. vm_compute. reflexivity. Qed.

(** The GCM specification, test case 16. *)
Example gcm_case_16 :
  let k := ofHex "feffe9928665731c6d6a8f9467308308feffe9928665731c6d6a8f9467308308" in
  let iv := ofHex "cafebabefacedbaddecaf888" in
  let p := ofHex "d9313225f88406e5a55909c5aff5269a86a7a9531534f7da2e4c303d8a318a721c3c0c95956809532fcf0e2449a6b525b16aedf5aa0de657ba637b39" in
  let a := ofHex "feedfacedeadbeeffeedfacedeadbeefabaddad2" in
  EncodeToString (gcmSeal k iv p a) =
    "cafebabefacedbaddecaf888" +:+
    "522dc1f099567d07f47f37a32a84427d643a8cdcbfe5c0c97598a2bd2555d1aa8cb08e48590dbb3da7b08b1056828838c5f61e6393ba7a0abcc9f662" +:+
    "76fc6ece0f4e1768cddf8853bb2d551b".
Proof. vm_compute. reflexivity. Qed.

(** ** Opening what was sealed *)

Lemma xorAscii_involutive c k : xorAscii (xorAscii c k) k = c.
Proof. destruct c, k. simpl. by rewrite !xorb_assoc, !xorb_nilpotent, !xorb_false_r. Qed.
Lemma xorStream_involutive s st : xorStream (xorStream s st) st = s.
Proof.
  revert st. induction s as [|c s IH]; intros [|b st]; simpl; [done..|]. by rewrite xorAscii_involutive, IH.
Qed.
Lemma length_xorStream s st : String.length (xorStream s st) = String.length s.
Proof. revert st. induction s as [|c s IH]; intros [|b st]; simpl; auto. Qed.

Lemma length_string_of_bytes l : String.length (Sha256.string_of_bytes l) = length l.
Proof. induction l; simpl; auto. Qed.

(** The cipher keeps the shape of a block. *)
Lemma length_toBytes n x : length (Gcm.toBytes n x) = n.
Proof. unfold Gcm.toBytes. by rewrite length_fmap, length_seq. Qed.
Lemma length_xors a b : length (Aes.xors a b) = min (length a) (length b).
Proof. apply length_zip_with. Qed.

Lemma expand_words n i rcon ws :
  (8 ≤ length ws)%nat → Forall (λ w, length w = 4%nat) ws →
  length (Aes.expand n i rcon ws) = (n + length ws)%nat ∧ Forall (λ w, length w = 4%nat) (Aes.expand n i rcon ws).
Proof.
  revert i rcon ws. induction n as [|n IH]; intros i rcon ws Hl Hws; cbn [Aes.expand].
  - rewrite length_rev. split; [done|]. by apply Forall_rev.
  - edestruct IH as [H1 H2]; [| |split; [rewrite H1; simpl; lia|exact H2]]; [simpl; lia|].
    constructor; [|done]. assert (∀ k, (k < 8)%nat → length (nth k ws []) = 4%nat) as Hn.
    { intros k Hk. rewrite Forall_forall in Hws. apply Hws. apply list_elem_of_In, nth_In. lia. }
    rewrite length_xors, Hn by lia. repeat case_match; rewrite ?length_xors, ?length_fmap; unfold Aes.rotWord;
      rewrite ?length_app, ?length_drop, ?length_take, ?Hn by lia; done.
Qed.

Lemma chunks_words n l : length l = (4 * n)%nat →
  length (Aes.chunks n l) = n ∧ Forall (λ w, length w = 4%nat) (Aes.chunks n l).
Proof.
  revert l. induction n as [|n IH]; intros l Hl; cbn [Aes.chunks]; [by split|].
  destruct (IH (drop 4 l)) as [H1 H2]; [rewrite length_drop; lia|]. split; [simpl; by rewrite H1|].
  constructor; [rewrite length_take; lia|done].
Qed.

Lemma keySchedule_words key : length key = 32%nat →
  length (Aes.keySchedule key) = 60%nat ∧ Forall (λ w, length w = 4%nat) (Aes.keySchedule key).
Proof.
  intros Hk. destruct (chunks_words 8 key Hk) as [Hl Hw]. unfold Aes.keySchedule.
  destruct (expand_words 52 8 1 (rev (Aes.chunks 8 key))) as [H1 H2];
    [rewrite length_rev; lia|by apply Forall_rev|]. split; [by rewrite H1, length_rev, Hl|done].
Qed.

Lemma length_words (ks : list (list Z)) : Forall (λ w, length w = 4%nat) ks → length (mjoin ks) = (4 * length ks)%nat.
Proof. induction 1 as [|w ks Hw _ IH]; [done|]. change (mjoin (w :: ks)) with (w ++ mjoin ks). rewrite length_app. simpl. lia. Qed.

(** A block comes out of the cipher as 16 bytes. *)
Lemma length_encryptBlock key block : length key = 32%nat → length (Aes.encryptBlock (Aes.keySchedule key) block) = 16%nat.
Proof.
  intros Hk. destruct (keySchedule_words key Hk) as [Hl Hw]. unfold Aes.encryptBlock.
  assert (∀ n r s, (n + r = 14)%nat → length (Aes.rounds n r (Aes.keySchedule key) s) = 16%nat) as H; [|by apply H].
  induction n as [|n IH]; intros r s Hr; cbn [Aes.rounds]; [|apply IH; lia].
  assert (r = 14)%nat as -> by lia. rewrite length_xors.
  assert (length (Aes.shiftRows (Aes.sub <$> s)) = 16%nat) as -> by (unfold Aes.shiftRows; by rewrite length_fmap, length_seq).
  unfold Aes.roundKey. rewrite length_words; [rewrite length_take, length_drop; lia|]. by apply Forall_take, Forall_drop.
Qed.

Lemma length_aes_bytes s : length (bytes s) = String.length s.
Proof. unfold bytes. induction s; simpl; auto. Qed.

Lemma length_gcmTag key nonce ct aad : String.length key = 32%nat → String.length (gcmTag key nonce ct aad) = 16%nat.
Proof.
  intros Hk. unfold gcmTag, Gcm.tag. rewrite length_string_of_bytes, length_xors, length_toBytes, length_encryptBlock; [done|].
  by rewrite length_aes_bytes.
Qed.

Lemma length_gcmSeal key nonce p aad : String.length key = 32%nat → String.length nonce = NonceSize →
  String.length (gcmSeal key nonce p aad) = (28 + String.length p)%nat.
Proof.
  intros Hk Hn. unfold gcmSeal. rewrite !length_string_app, length_xorStream, length_gcmTag by done. rewrite Hn. unfold NonceSize. lia.
Qed.

(** Opening with the same key and additional data gives the plaintext back. *)
Lemma gcmOpen_gcmSeal key nonce p aad : String.length key = 32%nat → String.length nonce = NonceSize →
  gcmOpen key (gcmSeal key nonce p aad) aad = Some p.
Proof.
  intros Hk Hn. unfold gcmOpen. rewrite length_gcmSeal by done. unfold gcmSeal.
  set (ct := xorStream p (gcmStream key nonce (String.length p))).
  assert (String.length ct = String.length p) as Hct by apply length_xorStream.
  assert ((28 + String.length p <? NonceSize + TagSize)%nat = false) as -> by (apply Nat.ltb_ge; unfold NonceSize, TagSize; lia).
  rewrite <-Hn, takeBytes_app, dropBytes_app, length_string_app, length_gcmTag by done.
  replace (String.length ct + 16 - TagSize)%nat with (String.length ct) by (unfold TagSize; lia).
  rewrite takeBytes_app, dropBytes_app, bool_decide_true by done. f_equal. unfold ct at 1. rewrite Hct. apply xorStream_involutive.
Qed.

(** What opens has the shape [Seal] gives it. *)
Lemma gcmOpen_length key c aad p : gcmOpen key c aad = Some p → String.length c = (28 + String.length p)%nat.
Proof.
  unfold gcmOpen. case_match eqn:E; [done|]. apply Nat.ltb_ge in E. case_bool_decide; [|done]. intros Hp. apply (inj Some) in Hp. subst p.
  rewrite length_xorStream, length_takeBytes. assert (∀ n s, String.length (dropBytes n s) = (String.length s - n)%nat) as Hd.
  { clear. induction n as [|n IH]; intros [|c s]; simpl; auto. }
  rewrite Hd. unfold NonceSize, TagSize in *. lia.
Qed.
