(* ===== verification/Crypto.v ===== *)
(** * Secret cryptography (src/internal/crypto/crypto.go, key_provider.go)

    Envelopes: a value sealed under a fresh data key, and the data key
    wrapped under a key-encryption key, each bound to the secret's scope by
    its additional data.  The key ring is the mounted-file provider's.  The
    invocation ledger an encryption reserves from is the argument [reserve]
    (the [WrapInvocationReserver] interface; [Secrets] has its
    implementation), and the random bytes an operation draws are arguments,
    [None] where the source handles a failing reader. *)
From S2P Require Import Prelude GoStd Route Aes.
From Stdlib Require Import Ascii.
#[local] Open Scope Z_scope.

Definition SuiteAES256GCMRandomNonceV1 : string := "AES-256-GCM-RANDOMNONCE-v1".
Definition AADFormatV1 : string := "v1".
Definition MaxPlaintextBytes : Z := 65536.

Inductive CryptoErr := CryptoInvalidInput | CryptoInvalidEnvelope | CryptographicFail.

Record CryptoScope := {
  c_OwnerID : string; c_ProjectID : string; c_EnvironmentID : string; c_VariableID : string;
  c_SecretVersionID : string; c_Purpose : string; c_DeliveryScope : string;
}.
Definition scopeFields (s : CryptoScope) : list string :=
  [c_OwnerID s; c_ProjectID s; c_EnvironmentID s; c_VariableID s; c_SecretVersionID s; c_Purpose s; c_DeliveryScope s].

Record Envelope := {
  env_Suite : string; env_AADVersion : string; env_KEKID : string; env_Ciphertext : string; env_WrappedDEK : string;
}.

Definition validCryptoScope (s : CryptoScope) : bool :=
  forallb (λ f, negb (bool_decide (f = "")) && (slen f <=? 255) && ValidString f
                && negb (ContainsByte f 0 || ContainsByte f 13 || ContainsByte f 10)) (scopeFields s)
  && (bool_decide (c_Purpose s = "build") || bool_decide (c_Purpose s = "runtime") || bool_decide (c_Purpose s = "provider"))
  && (bool_decide (c_DeliveryScope s = "build") || bool_decide (c_DeliveryScope s = "runtime")).

(** Every rune outside the class, an invalid byte included, has a byte
    outside it. *)
Definition validKeyID (id : string) : bool :=
  negb (bool_decide (id = "")) && (slen id <=? 64) && ValidString id && forallBytes isIdByte id.

Definition validEnvelope (e : Envelope) : bool :=
  ValidString (env_Suite e) && ValidString (env_AADVersion e)
  && bool_decide (env_Suite e = SuiteAES256GCMRandomNonceV1) && bool_decide (env_AADVersion e = AADFormatV1)
  && validKeyID (env_KEKID e) && (28 <=? slen (env_Ciphertext e))
  && (slen (env_Ciphertext e) <=? MaxPlaintextBytes + 28) && (slen (env_WrappedDEK e) =? 60).

(** ** Additional data *)

(** [binary.BigEndian.PutUint32(uint32(n))] *)
Definition putUint32 (n : Z) : string := Sha256.string_of_bytes (Sha256.bytesBE 4 (n mod 2 ^ 32)).
Fixpoint encodeFields (fields : list string) : string :=
  match fields with [] => "" | f :: fs => putUint32 (slen f) +:+ f +:+ encodeFields fs end.

Definition valueAAD (s : CryptoScope) : string :=
  encodeFields ("autodeploy:secret-value:v1" :: SuiteAES256GCMRandomNonceV1 :: AADFormatV1 :: scopeFields s).
Definition wrapAAD (kekID : string) (s : CryptoScope) : string :=
  encodeFields ("autodeploy:secret-dek-wrap:v1" :: SuiteAES256GCMRandomNonceV1 :: AADFormatV1 :: kekID :: scopeFields s).

(** ** seal and open: every caller has checked that the key has 32 bytes *)

Definition seal (key nonce plaintext aad : string) : option string :=
  if (String.length key =? 32)%nat then Some (gcmSeal key nonce plaintext aad) else None.
Definition open (key ciphertext aad : string) : option string :=
  if (String.length key =? 32)%nat then gcmOpen key ciphertext aad else None.

(** ** The key ring (key_provider.go) *)

Record KeyRing := { ring_activeID : string; ring_keys : gmap string string }.

Definition Resolve (ring : KeyRing) (id : string) : option string :=
  match ring_keys ring !! id with
  | Some key => if (String.length key =? 32)%nat then Some key else None
  | None => None
  end.
Definition Active (ring : KeyRing) : option (string * string) :=
  match Resolve ring (ring_activeID ring) with Some key => Some (ring_activeID ring, key) | None => None end.

Definition zeroKey : string := Sha256.string_of_bytes (replicate 32 0).
Definition ringValidate (ring : KeyRing) : bool :=
  validKeyID (ring_activeID ring) && negb (Z.of_nat (size (ring_keys ring)) =? 0)
  && (Z.of_nat (size (ring_keys ring)) <=? 64)
  && bool_decide (map_Forall (λ id key, validKeyID id = true ∧ String.length key = 32%nat ∧ key ≠ zeroKey) (ring_keys ring))
  && bool_decide (is_Some (ring_keys ring !! ring_activeID ring)).
Definition NewKeyRing (activeID : string) (keys : gmap string string) : option KeyRing :=
  let ring := {| ring_activeID := activeID; ring_keys := keys |} in
  if ringValidate ring then Some ring else None.

(** ** Encrypt, Decrypt, Rewrap *)

(** What the random reader delivers to one call. *)
Record Entropy := { en_dek : option string; en_valueNonce : string; en_wrapNonce : string }.

(** The reservation is a call of the [WrapInvocationReserver]; the operations
    are written around it, so that whoever runs them decides what happens
    between the reservation and the rest. *)
Section operations.
Context {X : Type} (reserve : string → (bool → X) → X).

Definition Encrypt (ring : KeyRing) (scope : CryptoScope) (plaintext : string) (en : Entropy) (k : CryptoErr + Envelope → X) : X :=
  if (MaxPlaintextBytes <? slen plaintext) || negb (validCryptoScope scope) then k (inl CryptoInvalidInput)
  else match Active ring with
  | None => k (inl CryptographicFail)
  | Some (kekID, kek) =>
      if negb (validKeyID kekID) || negb (String.length kek =? 32)%nat then k (inl CryptographicFail)
      else reserve kekID (λ ok, k (
        if negb ok then inl CryptographicFail
        else match en_dek en with
        | None => inl CryptographicFail
        | Some dek =>
            match seal dek (en_valueNonce en) plaintext (valueAAD scope) with
            | None => inl CryptographicFail
            | Some valueCiphertext =>
                match seal kek (en_wrapNonce en) dek (wrapAAD kekID scope) with
                | None => inl CryptographicFail
                | Some wrappedDEK =>
                    inr {| env_Suite := SuiteAES256GCMRandomNonceV1; env_AADVersion := AADFormatV1; env_KEKID := kekID;
                           env_Ciphertext := valueCiphertext; env_WrappedDEK := wrappedDEK |}
                end
            end
        end))
  end.

Definition Rewrap (ring : KeyRing) (scope : CryptoScope) (e : Envelope) (wrapNonce : string) (k : CryptoErr + Envelope → X) : X :=
  if negb (validCryptoScope scope) || negb (validEnvelope e) then k (inl CryptoInvalidInput)
  else match Resolve ring (env_KEKID e) with
  | None => k (inl CryptographicFail)
  | Some oldKey =>
      match open oldKey (env_WrappedDEK e) (wrapAAD (env_KEKID e) scope) with
      | None => k (inl CryptographicFail)
      | Some dek =>
          if negb (String.length dek =? 32)%nat then k (inl CryptographicFail)
          else match Active ring with
          | None => k (inl CryptographicFail)
          | Some (newID, newKey) =>
              if negb (validKeyID newID) || negb (String.length newKey =? 32)%nat || bool_decide (newID = env_KEKID e)
              then k (inl CryptographicFail)
              else reserve newID (λ ok, k (
                if negb ok then inl CryptographicFail
                else match seal newKey wrapNonce dek (wrapAAD newID scope) with
                | None => inl CryptographicFail
                | Some wrapped =>
                    inr {| env_Suite := env_Suite e; env_AADVersion := env_AADVersion e; env_KEKID := newID;
                           env_Ciphertext := env_Ciphertext e; env_WrappedDEK := wrapped |}
                end))
          end
      end
  end.
End operations.

Definition Decrypt (ring : KeyRing) (scope : CryptoScope) (e : Envelope) : CryptoErr + string :=
  if negb (validCryptoScope scope) || negb (validEnvelope e) then inl CryptoInvalidEnvelope
  else match Resolve ring (env_KEKID e) with
  | None => inl CryptographicFail
  | Some kek =>
      match open kek (env_WrappedDEK e) (wrapAAD (env_KEKID e) scope) with
      | None => inl CryptographicFail
      | Some dek =>
          if negb (String.length dek =? 32)%nat then inl CryptographicFail
          else match open dek (env_Ciphertext e) (valueAAD scope) with
          | None => inl CryptographicFail
          | Some plaintext => if MaxPlaintextBytes <? slen plaintext then inl CryptographicFail else inr plaintext
          end
      end
  end.

(** ** The binary form of an envelope *)

Fixpoint uint32At (bs : list Z) : Z := match bs with [a; b; c; d] => ((a * 256 + b) * 256 + c) * 256 + d | _ => 0 end.
Definition maxFieldLength (index : nat) : Z :=
  match index with
  | 0%nat => slen SuiteAES256GCMRandomNonceV1 | 1%nat => slen AADFormatV1 | 2%nat => 64
  | 3%nat => MaxPlaintextBytes + 28 | 4%nat => 60 | _ => 0
  end.
Definition maxSerializedEnvelopeBytes : Z :=
  4 + slen SuiteAES256GCMRandomNonceV1 + 4 + slen AADFormatV1 + 4 + 64 + 4 + MaxPlaintextBytes + 28 + 4 + 60.

(** The fields still to parse and how many are there already. *)
Fixpoint parseFields (want index : nat) (encoded : string) : option (list string) :=
  match want with
  | O => if bool_decide (encoded = "") then Some [] else None
  | S want' =>
      if slen encoded <? 4 then None
      else
        let n := uint32At (bytes (takeBytes 4 encoded)) in
        let rest := dropBytes 4 encoded in
        if (slen rest <? n) || (maxFieldLength index <? n) then None
        else match parseFields want' (S index) (dropBytes (Z.to_nat n) rest) with
             | Some fs => Some (takeBytes (Z.to_nat n) rest :: fs)
             | None => None
             end
  end.

Definition envelopeFields (e : Envelope) : list string :=
  [env_Suite e; env_AADVersion e; env_KEKID e; env_Ciphertext e; env_WrappedDEK e].
Definition MarshalBinary (e : Envelope) : option string :=
  if negb (validEnvelope e) then None else Some (encodeFields (envelopeFields e)).
Definition ParseEnvelope (encoded : string) : option Envelope :=
  if maxSerializedEnvelopeBytes <? slen encoded then None
  else match parseFields 5 0 encoded with
  | Some [suite; aad; kek; ct; dek] =>
      let e := {| env_Suite := suite; env_AADVersion := aad; env_KEKID := kek; env_Ciphertext := ct; env_WrappedDEK := dek |} in
      if validEnvelope e then Some e else None
  | _ => None
  end.

(** ** Length-prefixed fields are unambiguous *)

Lemma length_putUint32 n : String.length (putUint32 n) = 4%nat.
Proof. reflexivity. Qed.

Lemma bytes_of_string_of_bytes l : Forall (λ b, 0 ≤ b < 256) l → bytes (Sha256.string_of_bytes l) = l.
Proof.
  induction 1 as [|b l Hb _ IH]; [done|]. simpl. unfold bytes in IH |- *. simpl. rewrite IH. f_equal.
  unfold byte_of, GoStd.ascii_of_byte. rewrite Z.mod_small by done. rewrite N_ascii_embedding; lia.
Qed.

Lemma uint32At_putUint32 n : 0 ≤ n < 2 ^ 32 → uint32At (bytes (putUint32 n)) = n.
Proof.
  intros Hn. unfold putUint32. rewrite Z.mod_small by lia. rewrite bytes_of_string_of_bytes.
  - cbn [Sha256.bytesBE uint32At].
    change (2 ^ (8 * Z.of_nat 3)) with (256 * 256 * 256). change (2 ^ (8 * Z.of_nat 2)) with (256 * 256).
    change (2 ^ (8 * Z.of_nat 1)) with 256. change (2 ^ (8 * Z.of_nat 0)) with 1. rewrite Z.div_1_r, <-!Z.div_div by lia.
    pose proof (Z.div_mod n 256). pose proof (Z.div_mod (n / 256) 256). pose proof (Z.div_mod (n / 256 / 256) 256).
    rewrite (Z.mod_small (n / 256 / 256 / 256)); [lia|]. rewrite !Z.div_div by lia.
    split; [apply Z.div_pos; lia|apply Z.div_lt_upper_bound; lia].
  - repeat constructor; apply Z.mod_pos_bound; lia.
Qed.

Lemma slen_small f : slen f < 2 ^ 32 → uint32At (bytes (putUint32 (slen f))) = slen f.
Proof. intros. apply uint32At_putUint32. pose proof (slen_nonneg f). lia. Qed.

Definition smallField (f : string) : Prop := slen f < 2 ^ 32.

Lemma encodeFields_inj fs gs : length fs = length gs → Forall smallField fs → Forall smallField gs →
  encodeFields fs = encodeFields gs → fs = gs.
Proof.
  revert gs. induction fs as [|f fs IH]; intros [|g gs] Hl Hf Hg E; try done. apply Forall_cons in Hf as [Hf Hfs], Hg as [Hg Hgs].
  simpl in E. apply app_inj_length in E as [E1 E]; [|done]. apply (f_equal (λ x, uint32At (bytes x))) in E1.
  rewrite !slen_small in E1 by done. apply app_inj_length in E as [-> E]; [|unfold slen in E1; lia].
  f_equal. apply IH; [by injection Hl|done..].
Qed.

Lemma validCryptoScope_fields s : validCryptoScope s = true → Forall (λ f, 1 ≤ slen f ≤ 255) (scopeFields s).
Proof.
  unfold validCryptoScope. intros H. bool_hyps. match goal with H : forallb _ _ = true |- _ => rewrite forallb_forall in H; rename H into Hf end.
  apply Forall_forall. intros f Hin. apply list_elem_of_In, Hf in Hin. bool_hyps. split; [|done].
  destruct f; [done|]. unfold slen. simpl. lia.
Qed.
Lemma scopeFields_inj s t : scopeFields s = scopeFields t → s = t.
Proof. destruct s, t. unfold scopeFields. simpl. by intros [= -> -> -> -> -> -> ->]. Qed.
Lemma validKeyID_length id : validKeyID id = true → slen id ≤ 64.
Proof. unfold validKeyID. intros H. by bool_hyps. Qed.

Lemma small_scope s : validCryptoScope s = true → Forall smallField (scopeFields s).
Proof. intros H%validCryptoScope_fields. eapply Forall_impl; [exact H|]. unfold smallField. simpl. lia. Qed.

Ltac small_fields := repeat (apply Forall_cons; split; [first [done|by auto]|]).

(** Additional data binds the scope. On valid scopes and key identifiers the additional data of a value determines
    its whole scope (owner, project, environment, variable, version, purpose, delivery), the additional data of a
    wrapped key determines scope and key identifier, and neither is ever the other's: a sealed value or data key
    presented under any other scope, version or key is authenticated against different bytes. *)
Theorem aad_binds_scope (s t : CryptoScope) (k l : string) :
  validCryptoScope s = true → validCryptoScope t = true → validKeyID k = true → validKeyID l = true →
  (valueAAD s = valueAAD t → s = t) ∧ (wrapAAD k s = wrapAAD l t → k = l ∧ s = t) ∧ valueAAD s ≠ wrapAAD k t.
Proof.
  intros Hs%small_scope Ht%small_scope Hk%validKeyID_length Hl%validKeyID_length.
  assert (∀ x, slen x ≤ 64 → smallField x) as H64 by (intros; unfold smallField; lia).
  assert (smallField SuiteAES256GCMRandomNonceV1) as H1 by done. assert (smallField AADFormatV1) as H2 by done.
  unfold valueAAD, wrapAAD. split_and!.
  - intros E%encodeFields_inj; [|done|by small_fields..]. apply scopeFields_inj. exact (f_equal (drop 3) E).
  - intros E%encodeFields_inj; [|done|by small_fields..]. split; [exact (f_equal (λ x, nth 3 x "") E)|].
    apply scopeFields_inj. exact (f_equal (drop 4) E).
  - cbn [encodeFields]. intros E. apply app_inj_length in E as [E _]; [|done]. done.
Qed.

Lemma slen_takeBytes n s : (n ≤ String.length s)%nat → slen (takeBytes n s) = Z.of_nat n.
Proof. intros H. unfold slen. rewrite length_takeBytes. lia. Qed.

Lemma uint32At_range s : String.length s = 4%nat → 0 ≤ uint32At (bytes s) < 2 ^ 32.
Proof.
  intros H. do 4 (destruct s as [|? s]; [done|]). destruct s; [|done]. unfold bytes. simpl.
  assert (∀ c, 0 ≤ byte_of c < 256) as Hb.
  { intros c. unfold byte_of. pose proof (N_ascii_bounded c). lia. }
  pose proof (Hb a). pose proof (Hb a0). pose proof (Hb a1). pose proof (Hb a2). lia.
Qed.

Lemma putUint32_uint32At s : String.length s = 4%nat → putUint32 (uint32At (bytes s)) = s.
Proof.
  intros H. pose proof (uint32At_range s H) as Hr. unfold putUint32. rewrite Z.mod_small by done.
  do 4 (destruct s as [|? s]; [done|]). destruct s; [|done]. clear H. unfold bytes in *. simpl in *.
  assert (∀ c, 0 ≤ byte_of c < 256) as Hb by (intros c; unfold byte_of; pose proof (N_ascii_bounded c); lia).
  pose proof (Hb a). pose proof (Hb a0). pose proof (Hb a1). pose proof (Hb a2).
  set (n := ((byte_of a * 256 + byte_of a0) * 256 + byte_of a1) * 256 + byte_of a2) in *.
  change (2 ^ (8 * Z.of_nat 3)) with (256 * 256 * 256). change (2 ^ (8 * Z.of_nat 2)) with (256 * 256).
  change (2 ^ (8 * Z.of_nat 1)) with 256. change (2 ^ (8 * Z.of_nat 0)) with 1. rewrite Z.div_1_r, <-!Z.div_div by lia.
  assert (n / 256 = (byte_of a * 256 + byte_of a0) * 256 + byte_of a1) as -> by (symmetry; apply (Z.div_unique _ _ _ (byte_of a2)); lia).
  assert (n mod 256 = byte_of a2) as -> by (symmetry; apply (Z.mod_unique _ _ ((byte_of a * 256 + byte_of a0) * 256 + byte_of a1)); lia).
  set (m := (byte_of a * 256 + byte_of a0) * 256 + byte_of a1) in *.
  assert (m / 256 = byte_of a * 256 + byte_of a0) as -> by (symmetry; apply (Z.div_unique _ _ _ (byte_of a1)); lia).
  assert (m mod 256 = byte_of a1) as -> by (symmetry; apply (Z.mod_unique _ _ (byte_of a * 256 + byte_of a0)); lia).
  assert ((byte_of a * 256 + byte_of a0) / 256 = byte_of a) as -> by (symmetry; apply (Z.div_unique _ _ _ (byte_of a0)); lia).
  assert ((byte_of a * 256 + byte_of a0) mod 256 = byte_of a0) as -> by (symmetry; apply (Z.mod_unique _ _ (byte_of a)); lia).
  rewrite (Z.mod_small (byte_of a)) by lia.
  assert (∀ c, GoStd.ascii_of_byte (byte_of c) = c) as Hc.
  { intros c. unfold GoStd.ascii_of_byte. rewrite Z.mod_small by done. unfold byte_of. by rewrite N2Z.id, ascii_N_embedding. }
  by rewrite !Hc.
Qed.

(** Parsing inverts the encoding of fields within the limits, and only
    encodings parse. *)
Lemma parse_encode index fs :
  (∀ i f, fs !! i = Some f → slen f ≤ maxFieldLength (index + i)) → Forall smallField fs →
  parseFields (length fs) index (encodeFields fs) = Some fs.
Proof.
  revert index. induction fs as [|f fs IH]; intros index Hmax Hsm; [done|]. apply Forall_cons in Hsm as [Hf Hfs].
  cbn [parseFields length encodeFields]. pose proof (slen_nonneg f) as Hf0.
  assert (slen (putUint32 (slen f) +:+ f +:+ encodeFields fs) <? 4 = false) as ->.
  { apply Z.ltb_ge. rewrite slen_app. unfold slen at 1. rewrite length_putUint32. pose proof (slen_nonneg (f +:+ encodeFields fs)). lia. }
  rewrite <-(length_putUint32 (slen f)), takeBytes_app, dropBytes_app, slen_small by done.
  assert ((slen (f +:+ encodeFields fs) <? slen f) || (maxFieldLength index <? slen f) = false) as ->.
  { apply orb_false_iff. rewrite !Z.ltb_ge, slen_app. pose proof (slen_nonneg (encodeFields fs)).
    pose proof (Hmax 0%nat f eq_refl) as H0. rewrite Nat.add_0_r in H0. lia. }
  assert (Z.to_nat (slen f) = String.length f) as -> by (unfold slen; lia).
  rewrite takeBytes_app, dropBytes_app. change (String.length (putUint32 _)) with 4%nat.
  rewrite IH; [done| |done]. intros i g Hg. specialize (Hmax (S i) g Hg). by rewrite Nat.add_succ_r in Hmax.
Qed.

Lemma parse_only_encodings want index b fs : parseFields want index b = Some fs → b = encodeFields fs.
Proof.
  revert index b fs. induction want as [|want IH]; intros index b fs; cbn [parseFields].
  - case_bool_decide; [|done]. by intros [= <-].
  - destruct (slen b <? 4) eqn:E4; [done|]. apply Z.ltb_ge in E4.
    set (n := uint32At (bytes (takeBytes 4 b))). set (rest := dropBytes 4 b).
    destruct ((slen rest <? n) || (maxFieldLength index <? n)) eqn:En; [done|]. apply orb_false_iff in En as [En _].
    apply Z.ltb_ge in En. destruct (parseFields want (S index) _) as [gs|] eqn:E; [|done]. intros Hfs.
    apply (inj Some) in Hfs. subst fs. apply IH in E. cbn [encodeFields]. rewrite <-E, takeBytes_dropBytes.
    assert (String.length (takeBytes 4 b) = 4%nat) as H4 by (rewrite length_takeBytes; unfold slen in E4; lia).
    pose proof (uint32At_range _ H4) as Hr. fold n in Hr. rewrite slen_takeBytes by (unfold slen in En; lia).
    rewrite Z2Nat.id by lia. unfold n. rewrite putUint32_uint32At by done. unfold rest. by rewrite takeBytes_dropBytes.
Qed.

Lemma envelope_fields_bound e : validEnvelope e = true →
  Forall smallField (envelopeFields e) ∧ ∀ i f, envelopeFields e !! i = Some f → slen f ≤ maxFieldLength i.
Proof.
  unfold validEnvelope, MaxPlaintextBytes. intros H. bool_hyps.
  match goal with H : validKeyID _ = true |- _ => apply validKeyID_length in H end.
  assert (slen (env_Suite e) = 26 ∧ slen (env_AADVersion e) = 2) as [? ?].
  { split; match goal with H : ?x = _ |- slen ?x = _ => by rewrite H end. }
  unfold envelopeFields, smallField. split.
  - repeat (apply Forall_cons; split; [lia|]). done.
  - intros [|[|[|[|[|i]]]]] f; simpl; intros Hf; try done; apply (inj Some) in Hf; subst f; simpl;
      unfold MaxPlaintextBytes; change (slen SuiteAES256GCMRandomNonceV1) with 26; change (slen AADFormatV1) with 2; lia.
Qed.

Lemma envelope_eta e : e = {| env_Suite := env_Suite e; env_AADVersion := env_AADVersion e; env_KEKID := env_KEKID e;
  env_Ciphertext := env_Ciphertext e; env_WrappedDEK := env_WrappedDEK e |}.
Proof. by destruct e. Qed.

(** The binary envelope is canonical. Every valid envelope has a serialization within the size limit that parses
    back to it, and a byte string that parses is the serialization of what it parses to: truncated, oversized,
    trailing or re-encoded forms are all refused. *)
Theorem envelope_codec :
  (∀ e, validEnvelope e = true → ∃ b, MarshalBinary e = Some b ∧ ParseEnvelope b = Some e) ∧
  (∀ b e, ParseEnvelope b = Some e → MarshalBinary e = Some b).
Proof.
  split.
  - intros e He. unfold MarshalBinary. rewrite He. eexists. split; [done|]. unfold ParseEnvelope.
    destruct (envelope_fields_bound e He) as [Hsm Hmax].
    assert (slen (encodeFields (envelopeFields e)) ≤ maxSerializedEnvelopeBytes) as Hl.
    { unfold envelopeFields in *. cbn [encodeFields]. rewrite !slen_app.
      assert (∀ n, slen (putUint32 n) = 4) as Hp by done. rewrite !Hp. change (slen "") with 0.
      pose proof (Hmax 0%nat _ eq_refl). pose proof (Hmax 1%nat _ eq_refl). pose proof (Hmax 2%nat _ eq_refl).
      pose proof (Hmax 3%nat _ eq_refl). pose proof (Hmax 4%nat _ eq_refl). simpl in *. unfold maxSerializedEnvelopeBytes. lia. }
    rewrite (proj2 (Z.ltb_ge _ _)) by done.
    pose proof (parse_encode 0 (envelopeFields e) Hmax Hsm) as Hp. change (length (envelopeFields e)) with 5%nat in Hp.
    rewrite Hp. unfold envelopeFields. rewrite <-envelope_eta. by rewrite He.
  - intros b e. unfold ParseEnvelope. case_match; [done|]. destruct (parseFields 5 0 b) as [fs|] eqn:E; [|done].
    destruct fs as [|f1 [|f2 [|f3 [|f4 [|f5 [|]]]]]]; try done.
    destruct (validEnvelope _) eqn:Ev; [|done]. intros He. apply (inj Some) in He. subst e. unfold MarshalBinary. rewrite Ev.
    apply parse_only_encodings in E. by rewrite E.
Qed.

(** ** Recoverability

    [keys] is the key material that was ever deployed under each identifier;
    a ring holds some of it.  An envelope recovers a plaintext when its
    wrapped key opens under the key its identifier names. *)
Definition ringOf (keys : gmap string string) (ring : KeyRing) : Prop := ∀ id k, Resolve ring id = Some k → keys !! id = Some k.

Record recovers (keys : gmap string string) (scope : CryptoScope) (e : Envelope) (p : string) : Prop := {
  rec_scope : validCryptoScope scope = true;
  rec_envelope : validEnvelope e = true;
  rec_size : slen p ≤ MaxPlaintextBytes;
  rec_open : ∃ k dek, keys !! env_KEKID e = Some k ∧ String.length k = 32%nat ∧ String.length dek = 32%nat ∧
    gcmOpen k (env_WrappedDEK e) (wrapAAD (env_KEKID e) scope) = Some dek ∧
    gcmOpen dek (env_Ciphertext e) (valueAAD scope) = Some p;
}.

Definition goodEntropy (en : Entropy) : Prop :=
  (∀ dek, en_dek en = Some dek → String.length dek = 32%nat) ∧
  String.length (en_valueNonce en) = NonceSize ∧ String.length (en_wrapNonce en) = NonceSize.

Lemma Resolve_length ring id k : Resolve ring id = Some k → String.length k = 32%nat.
Proof. unfold Resolve. repeat case_match; try done. intros [= <-]. by apply Nat.eqb_eq. Qed.
Lemma Active_Resolve ring id k : Active ring = Some (id, k) → Resolve ring id = Some k ∧ id = ring_activeID ring.
Proof. unfold Active. destruct (Resolve ring (ring_activeID ring)) eqn:E; [|done]. by intros [= <- <-]. Qed.

Lemma seal_Some key nonce p aad c : String.length key = 32%nat → seal key nonce p aad = Some c → c = gcmSeal key nonce p aad.
Proof. intros Hk. unfold seal. rewrite Hk. by intros [= <-]. Qed.

Lemma Decrypt_recovers keys ring scope e p : ringOf keys ring → is_Some (Resolve ring (env_KEKID e)) →
  recovers keys scope e p → Decrypt ring scope e = inr p.
Proof.
  intros Hring [k Hk] [Hs He Hp (k'&dek&Hk'&Hl&Hd&Ho1&Ho2)]. unfold Decrypt. rewrite Hs, He. simpl. rewrite Hk.
  apply Hring in Hk. assert (k' = k) as -> by congruence. unfold open. rewrite Hl. simpl. rewrite Ho1, Hd. simpl.
  rewrite Ho2. assert (MaxPlaintextBytes <? slen p = false) as -> by by apply Z.ltb_ge. done.
Qed.

Lemma Decrypt_sound keys ring scope e p q : ringOf keys ring → recovers keys scope e p → Decrypt ring scope e = inr q → q = p.
Proof.
  intros Hring [_ _ _ (k'&dek&Hk'&Hl&Hd&Ho1&Ho2)]. unfold Decrypt. case_match; [done|].
  destruct (Resolve ring (env_KEKID e)) as [k|] eqn:Hk; [|done]. apply Hring in Hk. assert (k' = k) as -> by congruence.
  unfold open. rewrite Hl. simpl. rewrite Ho1, Hd. simpl. rewrite Ho2. case_match; [done|]. by intros [= ->].
Qed.

Lemma recovers_fun keys scope e p q : recovers keys scope e p → recovers keys scope e q → p = q.
Proof. intros [_ _ _ (k&dek&Hk&_&_&H1&H2)] [_ _ _ (k'&dek'&Hk'&_&_&H1'&H2')]. congruence. Qed.

Section operations_spec.
Context {X : Type} (reserve : string → (bool → X) → X) (keys : gmap string string).

(** An encryption either refuses, or reserves one invocation of the active
    key and then answers; the envelope it answers recovers its plaintext. *)
Lemma Encrypt_cases ring scope p en (k : CryptoErr + Envelope → X) : ringOf keys ring → goodEntropy en →
  (∃ err, Encrypt reserve ring scope p en k = k (inl err)) ∨
  (∃ f, Encrypt reserve ring scope p en k = reserve (ring_activeID ring) (λ ok, k (f ok)) ∧
     (∃ err, f false = inl err) ∧ validKeyID (ring_activeID ring) = true ∧
     ((∃ err, f true = inl err) ∧ en_dek en = None ∨
      ∃ e, f true = inr e ∧ env_KEKID e = ring_activeID ring ∧ recovers keys scope e p)).
Proof.
  intros Hring (Hd&Hn1&Hn2). unfold Encrypt. destruct (_ || _) eqn:E1; [left; eauto|]. apply orb_false_iff in E1 as [Ep Es].
  apply Z.ltb_ge in Ep. apply negb_false_iff in Es. destruct (Active ring) as [[id kek]|] eqn:Ea; [|left; eauto].
  destruct (_ || _) eqn:E2; [left; eauto|]. apply orb_false_iff in E2 as [Eid Ek]. apply negb_false_iff in Eid, Ek. apply Nat.eqb_eq in Ek.
  apply Active_Resolve in Ea as [Ha ->]. right. eexists. split; [reflexivity|]. split; [simpl; eauto|]. split; [done|]. cbn [negb].
  destruct (en_dek en) as [dek|] eqn:Edek; [right|left; eauto].
  specialize (Hd dek eq_refl). unfold seal. rewrite Hd, Ek. simpl. eexists. split_and!; [done..|].
  assert (Hpb := slen_nonneg p).
  split; simpl; [done| |done|].
  - unfold validEnvelope. simpl. rewrite Eid. unfold slen. rewrite !length_gcmSeal by done. unfold NonceSize, TagSize. rewrite Hd.
    unfold slen in Ep. rewrite !(proj2 (Z.leb_le _ _)) by (unfold MaxPlaintextBytes in *; lia). done.
  - exists kek, dek. split_and!; [by apply Hring|done|done|by apply gcmOpen_gcmSeal..].
Qed.

(** The data key [dek] of an envelope, wrapped under another key instead. *)
Definition rewrapEnvelope (e : Envelope) (id kek nonce dek : string) (scope : CryptoScope) : Envelope :=
  {| env_Suite := env_Suite e; env_AADVersion := env_AADVersion e; env_KEKID := id; env_Ciphertext := env_Ciphertext e;
     env_WrappedDEK := gcmSeal kek nonce dek (wrapAAD id scope) |}.

Lemma rewrapEnvelope_recovers scope e id old kek nonce dek : String.length nonce = NonceSize → validEnvelope e = true →
  keys !! env_KEKID e = Some old → gcmOpen old (env_WrappedDEK e) (wrapAAD (env_KEKID e) scope) = Some dek → String.length dek = 32%nat →
  keys !! id = Some kek → String.length kek = 32%nat → validKeyID id = true →
  validEnvelope (rewrapEnvelope e id kek nonce dek scope) = true ∧
  ∀ p, recovers keys scope e p → recovers keys scope (rewrapEnvelope e id kek nonce dek scope) p.
Proof.
  intros Hn He Hold Ho Hd Hk Hl Hid.
  assert (validEnvelope (rewrapEnvelope e id kek nonce dek scope) = true) as Hv.
  { revert He. unfold validEnvelope. simpl. rewrite Hid. unfold slen at 6. rewrite length_gcmSeal, Hd by done.
    intros H. bool_hyps. rewrite !andb_true_iff. split_and!; first [done|by apply bool_decide_eq_true|by apply Z.leb_le]. }
  split; [done|]. intros p [Hs _ Hp (k1&d1&Hk1&_&_&Ho1&Ho2)]. assert (k1 = old) as -> by congruence.
  assert (d1 = dek) as -> by congruence. split; [done..|]. exists kek, dek. simpl. split_and!; [done..|by apply gcmOpen_gcmSeal|done].
Qed.

(** A rewrapping either refuses, or reserves one invocation of the active
    key, which is another than the envelope's, and then answers; the envelope
    it answers recovers everything the old one recovers. *)
Lemma Rewrap_cases ring scope e nonce (k : CryptoErr + Envelope → X) : ringOf keys ring → String.length nonce = NonceSize →
  (∃ err, Rewrap reserve ring scope e nonce k = k (inl err)) ∨
  (∃ f e', Rewrap reserve ring scope e nonce k = reserve (ring_activeID ring) (λ ok, k (f ok)) ∧
     (∃ err, f false = inl err) ∧ f true = inr e' ∧ validKeyID (ring_activeID ring) = true ∧
     env_KEKID e' = ring_activeID ring ∧ env_KEKID e' ≠ env_KEKID e ∧ validEnvelope e' = true ∧
     env_Suite e' = env_Suite e ∧ env_AADVersion e' = env_AADVersion e ∧ env_Ciphertext e' = env_Ciphertext e ∧
     ∀ p, recovers keys scope e p → recovers keys scope e' p).
Proof.
  intros Hring Hn. unfold Rewrap. destruct (_ || _) eqn:E1; [left; eauto|]. apply orb_false_iff in E1 as [Es Ee].
  apply negb_false_iff in Es, Ee. destruct (Resolve ring (env_KEKID e)) as [old|] eqn:Eold; [|left; eauto].
  destruct (open old _ _) as [dek|] eqn:Eo; [|left; eauto]. destruct (negb (String.length dek =? 32)%nat) eqn:Ed; [left; eauto|].
  apply negb_false_iff, Nat.eqb_eq in Ed. destruct (Active ring) as [[id kek]|] eqn:Ea; [|left; eauto].
  destruct (_ || _) eqn:E2; [left; eauto|]. rewrite !orb_false_iff, !negb_false_iff, Nat.eqb_eq, bool_decide_eq_false in E2.
  destruct E2 as [[Eid Ek] Hne]. apply Active_Resolve in Ea as [Ha ->]. right.
  unfold open in Eo. rewrite (Resolve_length _ _ _ Eold) in Eo. simpl in Eo.
  destruct (rewrapEnvelope_recovers scope e (ring_activeID ring) old kek nonce dek) as [Hv Hrec]; try done; [by apply Hring..|].
  eexists _, _. split; [reflexivity|]. split; [simpl; eauto|]. unfold seal. cbn [negb]. rewrite Ek. simpl. split; [reflexivity|]. done.
Qed.

(** With both keys in the ring, a recoverable envelope is always rewrapped,
    the reservation granted. *)
Lemma Rewrap_succeeds ring scope e nonce p (k : CryptoErr + Envelope → X) newKey :
  ringOf keys ring → String.length nonce = NonceSize → recovers keys scope e p → is_Some (Resolve ring (env_KEKID e)) →
  Active ring = Some (ring_activeID ring, newKey) → validKeyID (ring_activeID ring) = true → ring_activeID ring ≠ env_KEKID e →
  ∃ wrapped,
    let e' := {| env_Suite := env_Suite e; env_AADVersion := env_AADVersion e; env_KEKID := ring_activeID ring;
                 env_Ciphertext := env_Ciphertext e; env_WrappedDEK := wrapped |} in
    Rewrap reserve ring scope e nonce k = reserve (ring_activeID ring) (λ ok, k (if negb ok then inl CryptographicFail else inr e')) ∧
    ∀ q, recovers keys scope e q → recovers keys scope e' q.
Proof.
  intros Hring Hn [Hs He Hp (k1&dek&Hk1&Hl1&Hd&Ho1&Ho2)] [old Hold] Ha Hid Hne. unfold Rewrap. rewrite Hs, He. simpl. rewrite Hold.
  apply Hring in Hold as Hk. assert (k1 = old) as -> by congruence. unfold open. rewrite Hl1. simpl. rewrite Ho1, Hd. simpl.
  rewrite Ha. apply Active_Resolve in Ha as [Ha _]. apply Resolve_length in Ha as Hnl. rewrite Hid, Hnl, bool_decide_eq_false_2 by done. simpl.
  exists (gcmSeal newKey nonce dek (wrapAAD (ring_activeID ring) scope)). split; [unfold seal; by rewrite Hnl|].
  apply (rewrapEnvelope_recovers scope e (ring_activeID ring) old newKey nonce dek); try done. by apply Hring.
Qed.
End operations_spec.
