(* ===== verification/Secrets.v ===== *)
(** * Secret versions and key ledger (src/internal/store/postgres/secret_repository.go,
    key_repository.go, migration 000004)

    Secret heads, their immutable versions, the wrap-invocation ledger and the
    audit trail, with the CHECK constraints and triggers of the migration, and
    one definition per repository method.  A [text] parameter must be valid
    UTF-8 without NUL, or the server refuses the statement; [length] counts
    characters.  Identifiers compare bytewise (the C collation); creation
    times are not kept. *)
From S2P Require Import Prelude GoStd Route Schema Crypto.
From Stdlib Require Import Ascii.
From stdpp Require Import sorting.
#[local] Open Scope Z_scope.

(** ** Errors of the repositories *)

Inductive SErr :=
  | SErrInvalidInput | SErrUnauthorized | SErrCorrupt
  | SErrSecretNotFound | SErrRevisionConflict | SErrAlreadyExists
  | SErrWrapInvocationExhausted | SErrKeyLedgerContinuity
  | SErrPg (e : PgError)
  | SErrEncoding (* 22021: a text parameter that is not UTF-8, or has a NUL *)
  | SErrRange    (* 22003: bigint out of range *)
  | SErrScan.    (* NULL scanned into a Go string *)

(** ** Rows *)

Record SecretScope := {
  sc_OwnerID : string; sc_ProjectID : string; sc_EnvironmentID : string; sc_SecretID : string;
  sc_Purpose : string; sc_DeliveryScope : string;
}.
#[global] Instance SecretScope_eq_dec : EqDecision SecretScope.
Proof. solve_decision. Defined.

(** [secret.Version]; its numbers are [uint64]. *)
Record SVersion := {
  v_ID : string; v_Scope : SecretScope; v_Number : Z; v_State : VersionState; v_Envelope : Envelope; v_EnvelopeRevision : Z;
}.

Record SecretAudit := {
  x_ID : string; x_OwnerID : string; x_SecretID : string; x_VersionID : string; x_Action : string; x_ActorID : string;
  x_ServiceID : string; x_DeploymentID : string; x_LeaseID : string; x_Result : string; x_OldVersionID : string; x_KEKID : string;
}.
Record Mutation := { mu_Version : SVersion; mu_Audit : SecretAudit }.

(** secret_heads, secret_versions, secret_wrap_invocations, secret_audit_events *)
Record SecretHeadRow := {
  sh_owner : string; sh_project : string; sh_env : string; sh_purpose : string; sh_delivery : string;
  sh_current : option string; sh_revision : Z;
}.
Record SecretVersionRow := {
  vr_secret : string; vr_owner : string; vr_project : string; vr_env : string; vr_number : Z; vr_state : VersionState;
  vr_suite : string; vr_aad : string; vr_kek : string; vr_ciphertext : string; vr_wrapped : string; vr_revision : Z;
}.
Record LedgerRow := { lr_reserved : Z; lr_generation : string }.
Record SecretAuditRow := {
  xr_owner : string; xr_secret : string; xr_version : string; xr_action : string; xr_actor : string; xr_service : string;
  xr_result : string; xr_old : option string; xr_kek : string; xr_project : string; xr_env : string;
  xr_deployment : string; xr_lease : string;
}.

Record SecretDB := {
  sd_generation : string;
  sd_ledger : gmap string LedgerRow;
  sd_heads : gmap string SecretHeadRow;
  sd_versions : gmap string SecretVersionRow;
  sd_audit : gmap string SecretAuditRow;
}.
Definition sd_with_ledger (x : gmap string LedgerRow) (d : SecretDB) : SecretDB :=
  Build_SecretDB (sd_generation d) x (sd_heads d) (sd_versions d) (sd_audit d).
Definition sd_with_heads (x : gmap string SecretHeadRow) (d : SecretDB) : SecretDB :=
  Build_SecretDB (sd_generation d) (sd_ledger d) x (sd_versions d) (sd_audit d).
Definition sd_with_versions (x : gmap string SecretVersionRow) (d : SecretDB) : SecretDB :=
  Build_SecretDB (sd_generation d) (sd_ledger d) (sd_heads d) x (sd_audit d).
Definition sd_with_audit (x : gmap string SecretAuditRow) (d : SecretDB) : SecretDB :=
  Build_SecretDB (sd_generation d) (sd_ledger d) (sd_heads d) (sd_versions d) x.

(** ** Machine integers and texts *)

Definition maxInt64 : Z := 2 ^ 63 - 1.
(** [int64(x)] of a [uint64], and of a wrapped sum *)
Definition i64 (x : Z) : Z := (x + 2 ^ 63) mod 2 ^ 64 - 2 ^ 63.

Definition textParam (s : string) : bool := ValidString s && negb (ContainsByte s 0).

(** [length(text)]: the characters of a valid UTF-8 text *)
Fixpoint charLength (s : string) : Z :=
  match s with EmptyString => 0 | String c s' => (if RuneStart c then 1 else 0) + charLength s' end.
Definition textCheck (max : Z) (s : string) : bool := negb (bool_decide (s = "")) && (charLength s <=? max).

Definition stateName (s : VersionState) : string :=
  match s with VersionActive => "active" | VersionSuperseded => "superseded" | VersionRevoked => "revoked" end.

(** ** CHECK constraints and triggers (migration 000004) *)

Definition secret_head_check (id : string) (h : SecretHeadRow) : bool :=
  textCheck 128 id && textCheck 128 (sh_owner h) && textCheck 128 (sh_project h) && textCheck 128 (sh_env h)
  && (bool_decide (sh_purpose h = "build") || bool_decide (sh_purpose h = "runtime") || bool_decide (sh_purpose h = "provider"))
  && (bool_decide (sh_delivery h = "build") || bool_decide (sh_delivery h = "runtime"))
  && (0 <=? sh_revision h).

Definition secret_version_check (id : string) (v : SecretVersionRow) : bool :=
  textCheck 128 id && textCheck 128 (vr_owner v) && textCheck 128 (vr_project v) && textCheck 128 (vr_env v)
  && (0 <? vr_number v) && bool_decide (vr_suite v = "AES-256-GCM-RANDOMNONCE-v1") && bool_decide (vr_aad v = "v1")
  && textCheck 64 (vr_kek v) && (28 <=? slen (vr_ciphertext v)) && (slen (vr_ciphertext v) <=? 65564)
  && (slen (vr_wrapped v) =? 60) && (0 <? vr_revision v).

(** UNIQUE(secret_id, version_number) and secret_versions_one_active_idx *)
Definition secret_version_unique (d : SecretDB) (id : string) (v : SecretVersionRow) : bool :=
  bool_decide (map_Forall (λ i w, i = id ∨ ¬ (vr_secret w = vr_secret v ∧
    (vr_number w = vr_number v ∨ vr_state w = VersionActive ∧ vr_state v = VersionActive))) (sd_versions d)).

Definition secret_audit_check (id : string) (a : SecretAuditRow) : bool :=
  textCheck 128 id && textCheck 128 (xr_owner a)
  && bool_decide (xr_action a ∈ ["created"; "replaced"; "replaced_compromised"; "materialized"; "revoked"])
  && (charLength (xr_actor a) <=? 128) && (charLength (xr_service a) <=? 128)
  && bool_decide (xr_result a ∈ ["success"; "denied"; "failed"])
  && match xr_old a with Some o => textCheck 128 o | None => true end
  && textCheck 64 (xr_kek a) && textCheck 128 (xr_project a) && textCheck 128 (xr_env a)
  && (charLength (xr_deployment a) <=? 128) && (charLength (xr_lease a) <=? 128)
  && negb (Bool.eqb (bool_decide (xr_actor a = "")) (bool_decide (xr_service a = ""))).

(** The CHECKs of secret_wrap_invocations: the key, the counter's range and the generation.  What the two statements
    that write the table verify themselves implies them ([SecretInv.si_ledger_check]). *)
Definition secret_wrap_invocations_check (kek_id : string) (r : LedgerRow) : bool :=
  textCheck 64 kek_id && (0 <=? lr_reserved r) && (lr_reserved r <=? 2147483648) && textCheck 128 (lr_generation r).

Definition validate_secret_version_scope (d : SecretDB) (v : SecretVersionRow) : bool :=
  match sd_heads d !! vr_secret v with
  | Some h => bool_decide (vr_owner v = sh_owner h) && bool_decide (vr_project v = sh_project h) && bool_decide (vr_env v = sh_env h)
  | None => false
  end.

Definition validate_secret_head_current (d : SecretDB) (id : string) (h : SecretHeadRow) : bool :=
  match sh_current h with
  | None => true
  | Some c => match sd_versions d !! c with
              | Some v => bool_decide (vr_secret v = id) && bool_decide (vr_state v = VersionActive)
              | None => false
              end
  end.

Definition secret_heads_immutable (old new : SecretHeadRow) : bool :=
  bool_decide (sh_owner new = sh_owner old) && bool_decide (sh_project new = sh_project old) && bool_decide (sh_env new = sh_env old)
  && bool_decide (sh_purpose new = sh_purpose old) && bool_decide (sh_delivery new = sh_delivery old)
  && (if bool_decide (sh_current new = sh_current old) then sh_revision new =? sh_revision old
      else sh_revision new =? sh_revision old + 1).

Definition secret_versions_immutable (old new : SecretVersionRow) : bool :=
  bool_decide (vr_secret new = vr_secret old) && bool_decide (vr_owner new = vr_owner old)
  && bool_decide (vr_project new = vr_project old) && bool_decide (vr_env new = vr_env old) && (vr_number new =? vr_number old)
  && bool_decide (vr_suite new = vr_suite old) && bool_decide (vr_aad new = vr_aad old)
  && bool_decide (vr_ciphertext new = vr_ciphertext old)
  && (if negb (bool_decide (vr_kek new = vr_kek old)) || negb (bool_decide (vr_wrapped new = vr_wrapped old))
         || negb (vr_revision new =? vr_revision old)
      then negb (bool_decide (vr_state old = VersionRevoked)) && bool_decide (vr_state new = vr_state old)
           && (vr_revision new =? vr_revision old + 1)
      else match vr_state old, vr_state new with
           | VersionActive, (VersionSuperseded | VersionRevoked) | VersionSuperseded, VersionRevoked => true
           | _, _ => false
           end).

(** Deferred to the commit of a transaction that updated the version's state. *)
Definition validate_current_secret_version_state (d : SecretDB) (id : string) : bool :=
  match sd_versions d !! id with
  | Some v => bool_decide (vr_state v = VersionActive) || bool_decide (map_Forall (λ _ h, sh_current h ≠ Some id) (sd_heads d))
  | None => true
  end.

Definition validate_secret_audit_scope (d : SecretDB) (a : SecretAuditRow) : bool :=
  let ofSecret id := match sd_versions d !! id with
                     | Some v => bool_decide (vr_secret v = xr_secret a) && bool_decide (vr_owner v = xr_owner a)
                     | None => false
                     end in
  let oldState s := match o ← xr_old a; sd_versions d !! o with Some v => bool_decide (vr_state v = s) | None => false end in
  match sd_heads d !! xr_secret a with
  | None => false
  | Some h =>
      bool_decide (xr_owner a = sh_owner h)
      && (bool_decide (xr_project a = "") || bool_decide (xr_project a = sh_project h))
      && (bool_decide (xr_env a = "") || bool_decide (xr_env a = sh_env h))
      && ofSecret (xr_version a)
      && match xr_old a with Some o => ofSecret o | None => true end
      && negb (bool_decide (xr_action a = "created") && isSomeb (xr_old a))
      && negb (bool_decide (xr_action a = "replaced") && negb (oldState VersionSuperseded))
      && negb (bool_decide (xr_action a = "replaced_compromised") && negb (oldState VersionRevoked))
  end.

(** ** Statements *)

Definition params (texts : list string) : Tx SecretDB SErr unit := tx_guard (forallb textParam texts) SErrEncoding.

Definition insert_secret_head (id : string) (h : SecretHeadRow) : Tx SecretDB SErr unit := λ d,
  if negb (validate_secret_head_current d id h) then inl (SErrPg PgRaise)
  else if negb (secret_head_check id h) then inl (SErrPg PgCheckViolation)
  else if isSomeb (sd_heads d !! id) then inl (SErrPg PgUniqueViolation)
  else inr (tt, sd_with_heads (<[id := h]> (sd_heads d)) d).

(** [UPDATE secret_heads SET current_version_id=..., revision=revision+1 WHERE id=... AND cond] *)
Definition advance_secret_head (id version : string) (cond : SecretHeadRow → bool) : Tx SecretDB SErr bool := λ d,
  match sd_heads d !! id with
  | None => inr (false, d)
  | Some h =>
      let new := {| sh_owner := sh_owner h; sh_project := sh_project h; sh_env := sh_env h; sh_purpose := sh_purpose h;
                    sh_delivery := sh_delivery h; sh_current := Some version; sh_revision := sh_revision h + 1 |} in
      if negb (cond h) then inr (false, d)
      else if maxInt64 <? sh_revision new then inl SErrRange
      else if negb (validate_secret_head_current d id new) || negb (secret_heads_immutable h new) then inl (SErrPg PgRaise)
      else if negb (secret_head_check id new) then inl (SErrPg PgCheckViolation)
      else inr (true, sd_with_heads (<[id := new]> (sd_heads d)) d)
  end.

Definition insert_secret_version (id : string) (v : SecretVersionRow) : Tx SecretDB SErr unit := λ d,
  if negb (validate_secret_version_scope d v) then inl (SErrPg PgRaise)
  else if negb (secret_version_check id v) then inl (SErrPg PgCheckViolation)
  else if isSomeb (sd_versions d !! id) || negb (secret_version_unique d id v) then inl (SErrPg PgUniqueViolation)
  else inr (tt, sd_with_versions (<[id := v]> (sd_versions d)) d).

Definition update_secret_version (id : string) (cond : SecretVersionRow → bool) (f : SecretVersionRow → SecretVersionRow)
    : Tx SecretDB SErr bool := λ d,
  match sd_versions d !! id with
  | None => inr (false, d)
  | Some old =>
      if negb (cond old) then inr (false, d)
      else if maxInt64 <? vr_revision (f old) then inl SErrRange
      else if negb (secret_versions_immutable old (f old)) then inl (SErrPg PgRaise)
      else if negb (secret_version_check id (f old)) then inl (SErrPg PgCheckViolation)
      else if negb (secret_version_unique d id (f old)) then inl (SErrPg PgUniqueViolation)
      else inr (true, sd_with_versions (<[id := f old]> (sd_versions d)) d)
  end.

(** ** Write errors and guards of the repository *)

Definition validKEKID (id : string) : bool := negb (slen id =? 0) && (slen id <=? 64) && forallBytes isIdByte id.
Definition validGenerationID (id : string) : bool := (16 <=? slen id) && (slen id <=? 128).

(** [secretWriteErr]: a unique violation is [ErrAlreadyExists]. *)
Definition secretWriteErr {A} (m : Tx SecretDB SErr A) : Tx SecretDB SErr A := λ d,
  match m d with
  | inl (SErrPg PgUniqueViolation) => inl SErrAlreadyExists
  | r => r
  end.

Definition validStoredVersion (v : SVersion) : bool :=
  let e := v_Envelope v in
  negb (bool_decide (v_ID v = "")) && (0 <? v_Number v)
  && (bool_decide (v_State v = VersionActive) || bool_decide (v_State v = VersionSuperseded) || bool_decide (v_State v = VersionRevoked))
  && bool_decide (env_Suite e = SuiteAES256GCMRandomNonceV1) && bool_decide (env_AADVersion e = AADFormatV1)
  && validKEKID (env_KEKID e) && (28 <=? slen (env_Ciphertext e)) && (slen (env_Ciphertext e) <=? MaxPlaintextBytes + 28)
  && (slen (env_WrappedDEK e) =? 60).

Definition validSecretMutation (m : Mutation) (want : Z) : bool :=
  let v := mu_Version m in let a := mu_Audit m in
  negb ((0 <? want) && negb (v_Number v =? want))
  && negb (bool_decide (v_ID v = "") || bool_decide (x_ID a = "") || negb (bool_decide (x_OwnerID a = sc_OwnerID (v_Scope v)))
           || negb (bool_decide (x_SecretID a = sc_SecretID (v_Scope v))) || negb (bool_decide (x_VersionID a = v_ID v))
           || negb (validStoredVersion v))
  && negb (negb (bool_decide (x_Result a = "success")) || negb (bool_decide (x_KEKID a = env_KEKID (v_Envelope v)))
           || Bool.eqb (bool_decide (x_ActorID a = "")) (bool_decide (x_ServiceID a = ""))
           || (want =? 1) && negb (bool_decide (x_OldVersionID a = "")) || (want =? 0) && bool_decide (x_OldVersionID a = "")
           || (want =? 1) && (negb (bool_decide (v_State v = VersionActive)) || negb (bool_decide (x_Action a = "created")))
           || (want =? 0) && (negb (bool_decide (v_State v = VersionActive))
                              || negb (bool_decide (x_Action a = "replaced")) && negb (bool_decide (x_Action a = "replaced_compromised")))).

Definition insertSecretVersion (v : SVersion) : Tx SecretDB SErr unit :=
  let s := v_Scope v in let e := v_Envelope v in
  do! params [v_ID v; sc_SecretID s; sc_OwnerID s; sc_ProjectID s; sc_EnvironmentID s; env_Suite e; env_AADVersion e; env_KEKID e] in
  secretWriteErr (insert_secret_version (v_ID v)
    {| vr_secret := sc_SecretID s; vr_owner := sc_OwnerID s; vr_project := sc_ProjectID s; vr_env := sc_EnvironmentID s;
       vr_number := i64 (v_Number v); vr_state := v_State v; vr_suite := env_Suite e; vr_aad := env_AADVersion e;
       vr_kek := env_KEKID e; vr_ciphertext := env_Ciphertext e; vr_wrapped := env_WrappedDEK e; vr_revision := 1 |}).

Definition nullIfEmpty (value : string) : option string := if bool_decide (value = "") then None else Some value.

(** [INSERT ... SELECT ... FROM secret_heads h JOIN secret_versions v]: no row
    unless secret, version and owner belong together. *)
Definition insertSecretAudit (a : SecretAudit) : Tx SecretDB SErr unit :=
  let result := if bool_decide (x_Result a = "") then "success" else x_Result a in
  do! params [x_ID a; x_OwnerID a; x_SecretID a; x_VersionID a; x_Action a; x_ActorID a; x_ServiceID a; result;
              x_OldVersionID a; x_KEKID a; x_DeploymentID a; x_LeaseID a] in
  let! row := tx_some (λ d,
      h ← sd_heads d !! x_SecretID a; v ← sd_versions d !! x_VersionID a;
      if bool_decide (vr_secret v = x_SecretID a) && bool_decide (sh_owner h = x_OwnerID a)
      then Some {| xr_owner := x_OwnerID a; xr_secret := x_SecretID a; xr_version := x_VersionID a; xr_action := x_Action a;
                   xr_actor := x_ActorID a; xr_service := x_ServiceID a; xr_result := result; xr_old := nullIfEmpty (x_OldVersionID a);
                   xr_kek := x_KEKID a; xr_project := sh_project h; xr_env := sh_env h; xr_deployment := x_DeploymentID a;
                   xr_lease := x_LeaseID a |}
      else None) SErrCorrupt in
  secretWriteErr (λ d,
    if negb (validate_secret_audit_scope d row) then inl (SErrPg PgRaise)
    else if negb (secret_audit_check (x_ID a) row) then inl (SErrPg PgCheckViolation)
    else if isSomeb (sd_audit d !! x_ID a) then inl (SErrPg PgUniqueViolation)
    else inr (tt, sd_with_audit (<[x_ID a := row]> (sd_audit d)) d)).

(** ** SecretRepository *)

Definition createTx (m : Mutation) : Tx SecretDB SErr unit :=
  do! tx_guard (validSecretMutation m 1) SErrInvalidInput in
  let v := mu_Version m in let s := v_Scope v in
  do! params [sc_SecretID s; sc_OwnerID s; sc_ProjectID s; sc_EnvironmentID s; sc_Purpose s; sc_DeliveryScope s] in
  do! secretWriteErr (insert_secret_head (sc_SecretID s)
        {| sh_owner := sc_OwnerID s; sh_project := sc_ProjectID s; sh_env := sc_EnvironmentID s; sh_purpose := sc_Purpose s;
           sh_delivery := sc_DeliveryScope s; sh_current := None; sh_revision := 0 |}) in
  do! insertSecretVersion v in
  let! advanced := advance_secret_head (sc_SecretID s) (v_ID v) (λ h, sh_revision h =? 0) in
  do! tx_guard advanced SErrRevisionConflict in
  insertSecretAudit (mu_Audit m).
Definition Create (m : Mutation) (d : SecretDB) : (SErr + unit) * SecretDB := run_tx (createTx m) d.

Definition headScope (s : SecretScope) (h : SecretHeadRow) : bool :=
  bool_decide (sh_owner h = sc_OwnerID s) && bool_decide (sh_project h = sc_ProjectID s) && bool_decide (sh_env h = sc_EnvironmentID s)
  && bool_decide (sh_purpose h = sc_Purpose s) && bool_decide (sh_delivery h = sc_DeliveryScope s).

Definition with_state (st : VersionState) (v : SecretVersionRow) : SecretVersionRow :=
  {| vr_secret := vr_secret v; vr_owner := vr_owner v; vr_project := vr_project v; vr_env := vr_env v; vr_number := vr_number v;
     vr_state := st; vr_suite := vr_suite v; vr_aad := vr_aad v; vr_kek := vr_kek v; vr_ciphertext := vr_ciphertext v;
     vr_wrapped := vr_wrapped v; vr_revision := vr_revision v |}.

Definition replaceTx (m : Mutation) (compromised : bool) : Tx SecretDB SErr unit :=
  do! tx_guard (validSecretMutation m 0) SErrInvalidInput in
  do! tx_guard (Bool.eqb compromised (bool_decide (x_Action (mu_Audit m) = "replaced_compromised"))) SErrInvalidInput in
  let v := mu_Version m in let s := v_Scope v in
  do! params [sc_SecretID s] in
  let! h := tx_some (λ d, sd_heads d !! sc_SecretID s) SErrSecretNotFound in
  let! current := tx_some (λ _, sh_current h) SErrScan in
  do! tx_guard (headScope s h) SErrSecretNotFound in
  let! number := tx_some (λ d,
      w ← sd_versions d !! current;
      if bool_decide (vr_secret w = sc_SecretID s) && bool_decide (vr_state w = VersionActive) then Some (vr_number w) else None)
      SErrSecretNotFound in
  do! tx_guard (v_Number v =? u64 (i64 (number + 1))) SErrRevisionConflict in
  do! tx_guard (bool_decide (x_OldVersionID (mu_Audit m) = current)) SErrInvalidInput in
  let oldState := if compromised then VersionRevoked else VersionSuperseded in
  let! _ := update_secret_version current (λ _, true) (with_state oldState) in
  do! insertSecretVersion v in
  let! advanced := advance_secret_head (sc_SecretID s) (v_ID v) (λ h, bool_decide (sh_current h = Some current)) in
  do! tx_guard advanced SErrRevisionConflict in
  do! insertSecretAudit (mu_Audit m) in
  let! deferred := tx_read (λ d, validate_current_secret_version_state d current) in
  tx_guard deferred (SErrPg PgRaise).
Definition Replace (m : Mutation) (d : SecretDB) : (SErr + unit) * SecretDB := run_tx (replaceTx m false) d.
Definition ReplaceCompromised (m : Mutation) (d : SecretDB) : (SErr + unit) * SecretDB := run_tx (replaceTx m true) d.

Definition rowEnvelope (v : SecretVersionRow) : Envelope :=
  {| env_Suite := vr_suite v; env_AADVersion := vr_aad v; env_KEKID := vr_kek v; env_Ciphertext := vr_ciphertext v;
     env_WrappedDEK := vr_wrapped v |}.

(** The version a row and its head's purpose and delivery scope make. *)
Definition rowVersion (id : string) (v : SecretVersionRow) (purpose delivery : string) : SVersion :=
  {| v_ID := id;
     v_Scope := {| sc_OwnerID := vr_owner v; sc_ProjectID := vr_project v; sc_EnvironmentID := vr_env v; sc_SecretID := vr_secret v;
                   sc_Purpose := purpose; sc_DeliveryScope := delivery |};
     v_Number := vr_number v; v_State := vr_state v; v_Envelope := rowEnvelope v; v_EnvelopeRevision := u64 (vr_revision v) |}.

Definition GetVersion (scope : SecretScope) (versionID : string) (d : SecretDB) : SErr + SVersion :=
  if negb (forallb textParam [sc_SecretID scope; sc_OwnerID scope; sc_ProjectID scope; sc_EnvironmentID scope; sc_Purpose scope;
                              sc_DeliveryScope scope; versionID]) then inl SErrEncoding
  else match
    h ← sd_heads d !! sc_SecretID scope;
    if negb (headScope scope h) then None
    else
      id ← (if bool_decide (versionID = "") then sh_current h else Some versionID);
      v ← sd_versions d !! id;
      if bool_decide (vr_secret v = sc_SecretID scope) then Some (id, v) else None
  with
  | None => inl SErrSecretNotFound
  | Some (id, v) =>
      let ver := rowVersion id v (sc_Purpose scope) (sc_DeliveryScope scope) in
      if (vr_revision v <? 1) || negb (bool_decide (v_Scope ver = scope)) || negb (validStoredVersion ver) then inl SErrCorrupt
      else inr ver
  end.

Definition materializationAuditValid (a : SecretAudit) : bool :=
  negb (negb (bool_decide (x_Action a = "materialized"))
        || negb (bool_decide (x_Result a = "success")) && negb (bool_decide (x_Result a = "denied")) && negb (bool_decide (x_Result a = "failed"))
        || Bool.eqb (bool_decide (x_ActorID a = "")) (bool_decide (x_ServiceID a = "")) || bool_decide (x_KEKID a = "")).
Definition appendMaterializationAuditTx (a : SecretAudit) : Tx SecretDB SErr unit :=
  do! tx_guard (materializationAuditValid a) SErrInvalidInput in insertSecretAudit a.
Definition AppendMaterializationAudit (a : SecretAudit) (d : SecretDB) : (SErr + unit) * SecretDB :=
  run_tx (appendMaterializationAuditTx a) d.

Definition rewrapped (kek wrapped : string) (v : SecretVersionRow) : SecretVersionRow :=
  {| vr_secret := vr_secret v; vr_owner := vr_owner v; vr_project := vr_project v; vr_env := vr_env v; vr_number := vr_number v;
     vr_state := vr_state v; vr_suite := vr_suite v; vr_aad := vr_aad v; vr_kek := kek; vr_ciphertext := vr_ciphertext v;
     vr_wrapped := wrapped; vr_revision := vr_revision v + 1 |}.
Definition live (st : VersionState) : bool := bool_decide (st = VersionActive) || bool_decide (st = VersionSuperseded).

Definition rewrapTx (scope : SecretScope) (versionID : string) (expectedRevision : Z) (e : Envelope) : Tx SecretDB SErr unit :=
  do! tx_guard (negb ((maxInt64 <? expectedRevision) || negb (validKEKID (env_KEKID e))
        || negb (bool_decide (env_Suite e = SuiteAES256GCMRandomNonceV1)) || negb (bool_decide (env_AADVersion e = AADFormatV1))
        || negb (slen (env_WrappedDEK e) =? 60) || (expectedRevision =? 0))) SErrInvalidInput in
  do! params [versionID; sc_SecretID scope; sc_OwnerID scope; sc_ProjectID scope; sc_EnvironmentID scope; sc_Purpose scope;
              sc_DeliveryScope scope; env_KEKID e] in
  let! head := tx_read (λ d, sd_heads d !! sc_SecretID scope) in
  let! updated := update_secret_version versionID (λ v,
      match head with
      | Some h => bool_decide (vr_secret v = sc_SecretID scope) && headScope scope h && live (vr_state v)
                  && (vr_revision v =? expectedRevision)
                  && (negb (bool_decide (vr_kek v = env_KEKID e)) || negb (bool_decide (vr_wrapped v = env_WrappedDEK e)))
      | None => false
      end) (rewrapped (env_KEKID e) (env_WrappedDEK e)) in
  tx_guard updated SErrRevisionConflict.
Definition RewrapVersion (scope : SecretScope) (versionID : string) (expectedRevision : Z) (e : Envelope) (d : SecretDB) :=
  run_tx (rewrapTx scope versionID expectedRevision e) d.

Definition MaxRewrapBatchSize : Z := 100.

(** [ORDER BY v.id ASC] *)
Definition idOrder (x y : string * SecretVersionRow) : Prop := String.leb x.1 y.1 = true.
#[global] Instance idOrder_dec x y : Decision (idOrder x y) := decide (String.leb x.1 y.1 = true).

Definition keyset (kekID cursor : string) (d : SecretDB) : list (string * SecretVersionRow) :=
  merge_sort idOrder (filter (λ kv, (bool_decide (vr_kek kv.2 = kekID) && live (vr_state kv.2) && String.ltb cursor kv.1
      && isSomeb (sd_heads d !! vr_secret kv.2)) = true) (map_to_list (sd_versions d))).

(** Scanning stops at the first corrupt row. *)
Fixpoint scanVersions (d : SecretDB) (rows : list (string * SecretVersionRow)) : SErr + list SVersion :=
  match rows with
  | [] => inr []
  | (id, v) :: rows =>
      let h := sd_heads d !! vr_secret v in
      let ver := rowVersion id v (default "" (sh_purpose <$> h)) (default "" (sh_delivery <$> h)) in
      if (vr_revision v <? 1) || negb (validStoredVersion ver) then inl SErrCorrupt
      else match scanVersions d rows with inl e => inl e | inr vs => inr (ver :: vs) end
  end.

Definition ListVersionsByKEK (kekID cursor : string) (limit : Z) (d : SecretDB) : SErr + list SVersion :=
  if negb (validKEKID kekID) || (128 <? slen cursor) || (limit <? 1) || (MaxRewrapBatchSize <? limit) then inl SErrInvalidInput
  else if negb (textParam cursor) then inl SErrEncoding
  else scanVersions d (take (Z.to_nat limit) (keyset kekID cursor d)).

Definition versionsByKEK (kekID : string) (d : SecretDB) : Z :=
  Z.of_nat (length (filter (λ kv, vr_kek kv.2 = kekID) (map_to_list (sd_versions d)))).
Definition CountVersionsByKEK (kekID : string) (d : SecretDB) : SErr + Z :=
  if negb (validKEKID kekID) then inl SErrInvalidInput else inr (versionsByKEK kekID d).

(** ** KeyRepository *)

Definition maxWrapInvocations : Z := 2 ^ 31.
Definition maxReservedWrapInvocations : Z := maxWrapInvocations - 1.

Definition ReserveWrapInvocation (kekID : string) (d : SecretDB) : (SErr + unit) * SecretDB :=
  if negb (validKEKID kekID) then (inl SErrWrapInvocationExhausted, d)
  else match sd_ledger d !! kekID with
  | Some r =>
      if bool_decide (lr_generation r = sd_generation d) && (lr_reserved r <? maxReservedWrapInvocations)
      then (inr tt, sd_with_ledger (<[kekID := {| lr_reserved := lr_reserved r + 1; lr_generation := lr_generation r |}]> (sd_ledger d)) d)
      else (inl SErrWrapInvocationExhausted, d)
  | None => (inl SErrWrapInvocationExhausted, d)
  end.

Definition HasWrapInvocationLedger (kekID : string) (d : SecretDB) : SErr + bool :=
  if negb (validKEKID kekID) then inl SErrWrapInvocationExhausted else inr (isSomeb (sd_ledger d !! kekID)).

Definition LedgerReady (kekID generationID : string) (d : SecretDB) : SErr + bool :=
  if negb (validKEKID kekID) || negb (validGenerationID generationID) then inl SErrKeyLedgerContinuity
  else if negb (textParam generationID) then inl SErrEncoding
  else inr (match sd_ledger d !! kekID with
            | Some r => bool_decide (lr_generation r = sd_generation d) && bool_decide (sd_generation d = generationID)
            | None => false
            end).

Definition initializeActiveLedgerTx (kekID generationID : string) : Tx SecretDB SErr unit :=
  do! tx_guard (validKEKID kekID && validGenerationID generationID) SErrKeyLedgerContinuity in
  let! dbGeneration := tx_read sd_generation in
  do! tx_guard (bool_decide (dbGeneration = generationID)) SErrKeyLedgerContinuity in
  let! referenced := tx_read (λ d, negb (versionsByKEK kekID d =? 0)) in
  do! tx_guard (negb referenced) SErrKeyLedgerContinuity in
  let! present := tx_read (λ d, isSomeb (sd_ledger d !! kekID)) in
  do! tx_guard (negb present) SErrKeyLedgerContinuity in
  tx_write (λ d, sd_with_ledger (<[kekID := {| lr_reserved := 0; lr_generation := generationID |}]> (sd_ledger d)) d).
Definition InitializeActiveLedger (kekID generationID : string) (d : SecretDB) : (SErr + unit) * SecretDB :=
  run_tx (initializeActiveLedgerTx kekID generationID) d.
