(* ===== verification/SecretInv.v ===== *)
(** * The secret store's invariant

    What a committed mutation of [Secrets] did, exactly; the invariant every
    committed state satisfies; and the relation [secretsKept] between a state
    and any later one, which is what concurrent callers rely on. *)
From S2P Require Import Prelude GoStd Route Schema Crypto Secrets.
#[local] Open Scope Z_scope.

(** ** What a successful statement means *)

Lemma secretWriteErr_inv {A} (m : Tx SecretDB SErr A) d r : secretWriteErr m d = inr r → m d = inr r.
Proof. unfold secretWriteErr. destruct (m d) as [[| | | | | | | |[]| | |]|]; naive_solver. Qed.

Lemma params_inv texts d u d' : params texts d = inr (u, d') ↔ forallb textParam texts = true ∧ d' = d.
Proof. apply tx_guard_inv. Qed.

Lemma insert_secret_head_inv id h d u d' : insert_secret_head id h d = inr (u, d') →
  secret_head_check id h = true ∧ sd_heads d !! id = None ∧ d' = sd_with_heads (<[id := h]> (sd_heads d)) d.
Proof. unfold insert_secret_head. repeat case_match; intros [=]; subst. bool_hyps. by destruct (sd_heads d !! id). Qed.

Lemma insert_secret_version_inv id v d u d' : insert_secret_version id v d = inr (u, d') →
  validate_secret_version_scope d v = true ∧ secret_version_check id v = true ∧ sd_versions d !! id = None ∧
  secret_version_unique d id v = true ∧ d' = sd_with_versions (<[id := v]> (sd_versions d)) d.
Proof. unfold insert_secret_version. repeat case_match; intros [=]; subst. bool_hyps. by destruct (sd_versions d !! id). Qed.

Lemma update_secret_version_inv id cond f d b d' : update_secret_version id cond f d = inr (b, d') →
  (b = false ∧ d' = d ∧ ∀ v, sd_versions d !! id = Some v → cond v = false) ∨
  ∃ old, b = true ∧ sd_versions d !! id = Some old ∧ cond old = true ∧ vr_revision (f old) ≤ maxInt64 ∧
    secret_versions_immutable old (f old) = true ∧ secret_version_check id (f old) = true ∧
    secret_version_unique d id (f old) = true ∧ d' = sd_with_versions (<[id := f old]> (sd_versions d)) d.
Proof.
  unfold update_secret_version. destruct (sd_versions d !! id) as [old|]; [|intros [= <- <-]; left; naive_solver].
  destruct (cond old) eqn:Ec; simpl; [|intros [= <- <-]; left; naive_solver]. destruct (maxInt64 <? _) eqn:Em; [done|]. apply Z.ltb_ge in Em.
  destruct (secret_versions_immutable _ _) eqn:E1; [|done]. destruct (secret_version_check _ _) eqn:E2; [|done].
  destruct (secret_version_unique _ _ _) eqn:E3; [|done]. intros [= <- <-]. right. exists old. split_and!; done.
Qed.

Definition advanced (version : string) (h : SecretHeadRow) : SecretHeadRow :=
  {| sh_owner := sh_owner h; sh_project := sh_project h; sh_env := sh_env h; sh_purpose := sh_purpose h;
     sh_delivery := sh_delivery h; sh_current := Some version; sh_revision := sh_revision h + 1 |}.

Lemma advance_secret_head_inv id version cond d d' : advance_secret_head id version cond d = inr (true, d') →
  ∃ h, sd_heads d !! id = Some h ∧ cond h = true ∧ sh_revision h + 1 ≤ maxInt64 ∧
    validate_secret_head_current d id (advanced version h) = true ∧ secret_head_check id (advanced version h) = true ∧
    d' = sd_with_heads (<[id := advanced version h]> (sd_heads d)) d.
Proof.
  unfold advance_secret_head. destruct (sd_heads d !! id) as [h|]; [|done]. destruct (cond h) eqn:Ec; simpl; [|done].
  destruct (maxInt64 <? _) eqn:Em; [done|]. apply Z.ltb_ge in Em. destruct (_ || _) eqn:E1; [done|]. apply orb_false_iff in E1 as [E1 _].
  apply negb_false_iff in E1. destruct (secret_head_check _ _) eqn:E2; [|done]. intros [= <-]. exists h. split_and!; done.
Qed.

Lemma insertSecretVersion_inv v d u d' : insertSecretVersion v d = inr (u, d') →
  let row := {| vr_secret := sc_SecretID (v_Scope v); vr_owner := sc_OwnerID (v_Scope v); vr_project := sc_ProjectID (v_Scope v);
    vr_env := sc_EnvironmentID (v_Scope v); vr_number := i64 (v_Number v); vr_state := v_State v;
    vr_suite := env_Suite (v_Envelope v); vr_aad := env_AADVersion (v_Envelope v); vr_kek := env_KEKID (v_Envelope v);
    vr_ciphertext := env_Ciphertext (v_Envelope v); vr_wrapped := env_WrappedDEK (v_Envelope v); vr_revision := 1 |} in
  validate_secret_version_scope d row = true ∧ secret_version_check (v_ID v) row = true ∧ sd_versions d !! v_ID v = None ∧
  secret_version_unique d (v_ID v) row = true ∧ d' = sd_with_versions (<[v_ID v := row]> (sd_versions d)) d.
Proof.
  unfold insertSecretVersion. intros H. tx_inv. apply params_inv in Hm as [_ ->].
  apply secretWriteErr_inv in H. by apply insert_secret_version_inv in H.
Qed.

(** The audit event an appended record becomes. *)
Definition auditRow (a : SecretAudit) (h : SecretHeadRow) : SecretAuditRow :=
  {| xr_owner := x_OwnerID a; xr_secret := x_SecretID a; xr_version := x_VersionID a; xr_action := x_Action a;
     xr_actor := x_ActorID a; xr_service := x_ServiceID a;
     xr_result := if bool_decide (x_Result a = "") then "success" else x_Result a; xr_old := nullIfEmpty (x_OldVersionID a);
     xr_kek := x_KEKID a; xr_project := sh_project h; xr_env := sh_env h; xr_deployment := x_DeploymentID a; xr_lease := x_LeaseID a |}.

Lemma insertSecretAudit_inv a d u d' : insertSecretAudit a d = inr (u, d') →
  ∃ h v, sd_heads d !! x_SecretID a = Some h ∧ sd_versions d !! x_VersionID a = Some v ∧ vr_secret v = x_SecretID a ∧
    sh_owner h = x_OwnerID a ∧ validate_secret_audit_scope d (auditRow a h) = true ∧ sd_audit d !! x_ID a = None ∧
    d' = sd_with_audit (<[x_ID a := auditRow a h]> (sd_audit d)) d ∧ secret_audit_check (x_ID a) (auditRow a h) = true.
Proof.
  unfold insertSecretAudit. intros H. tx_inv. apply params_inv in Hm as [_ ->].
  destruct (sd_heads d !! x_SecretID a) as [h|] eqn:Eh; [|done].
  cbn in Hm0. destruct (sd_versions d !! x_VersionID a) as [w|] eqn:Ew; [|done]. cbn in Hm0.
  destruct (_ && _) eqn:Eb; [|done]. apply (inj Some) in Hm0. subst v0. bool_hyps.
  apply secretWriteErr_inv in H. fold (auditRow a h) in H.
  destruct (validate_secret_audit_scope d (auditRow a h)) eqn:E1; [|done]. destruct (secret_audit_check _ _) eqn:E2; [|done].
  destruct (sd_audit d !! x_ID a) eqn:E3; [done|]. injection H as <- <-. exists h, w. split_and!; done.
Qed.

(** ** Creation and replacement *)

Definition newRow (v : SVersion) (number : Z) : SecretVersionRow :=
  {| vr_secret := sc_SecretID (v_Scope v); vr_owner := sc_OwnerID (v_Scope v); vr_project := sc_ProjectID (v_Scope v);
     vr_env := sc_EnvironmentID (v_Scope v); vr_number := number; vr_state := VersionActive;
     vr_suite := env_Suite (v_Envelope v); vr_aad := env_AADVersion (v_Envelope v); vr_kek := env_KEKID (v_Envelope v);
     vr_ciphertext := env_Ciphertext (v_Envelope v); vr_wrapped := env_WrappedDEK (v_Envelope v); vr_revision := 1 |}.
Definition newHead (s : SecretScope) (version : string) : SecretHeadRow :=
  {| sh_owner := sc_OwnerID s; sh_project := sc_ProjectID s; sh_env := sc_EnvironmentID s; sh_purpose := sc_Purpose s;
     sh_delivery := sc_DeliveryScope s; sh_current := Some version; sh_revision := 1 |}.

Lemma validSecretMutation_inv m w : w = 0 ∨ w = 1 → validSecretMutation m w = true →
  let v := mu_Version m in let a := mu_Audit m in
  (w = 1 → v_Number v = 1 ∧ x_Action a = "created" ∧ x_OldVersionID a = "") ∧
  (w = 0 → x_OldVersionID a ≠ "" ∧ (x_Action a = "replaced" ∨ x_Action a = "replaced_compromised")) ∧
  x_OwnerID a = sc_OwnerID (v_Scope v) ∧ x_SecretID a = sc_SecretID (v_Scope v) ∧ x_VersionID a = v_ID v ∧
  validStoredVersion v = true ∧ x_Result a = "success" ∧ x_KEKID a = env_KEKID (v_Envelope v) ∧ v_State v = VersionActive.
Proof.
  unfold validSecretMutation. intros [-> | ->] H; simpl.
  - change (0 <? 0) with false in H. change (0 =? 1) with false in H. change (0 =? 0) with true in H. simpl in H. bool_hyps.
    split_and!; try done. intros _. split; [done|]. destruct (bool_decide (x_Action _ = "replaced")) eqn:E; bool_hyps; [by left|].
    simpl in *. bool_hyps. by right.
  - change (0 <? 1) with true in H. change (1 =? 1) with true in H. change (1 =? 0) with false in H. simpl in H. bool_hyps.
    split_and!; done.
Qed.

Lemma createTx_inv m d u d' : createTx m d = inr (u, d') →
  let v := mu_Version m in let s := v_Scope v in let a := mu_Audit m in
  validSecretMutation m 1 = true ∧ sd_heads d !! sc_SecretID s = None ∧ sd_versions d !! v_ID v = None ∧ sd_audit d !! x_ID a = None ∧
  secret_head_check (sc_SecretID s) (newHead s (v_ID v)) = true ∧ secret_version_check (v_ID v) (newRow v 1) = true ∧
  secret_version_unique d (v_ID v) (newRow v 1) = true ∧
  d' = {| sd_generation := sd_generation d; sd_ledger := sd_ledger d;
          sd_heads := <[sc_SecretID s := newHead s (v_ID v)]> (sd_heads d);
          sd_versions := <[v_ID v := newRow v 1]> (sd_versions d);
          sd_audit := <[x_ID a := auditRow a (newHead s (v_ID v))]> (sd_audit d) |} ∧
  secret_audit_check (x_ID a) (auditRow a (newHead s (v_ID v))) = true.
Proof.
  unfold createTx. intros H. tx_inv. apply params_inv in Hm0 as [_ ->]. apply secretWriteErr_inv in Hm1.
  apply insert_secret_head_inv in Hm1 as (_&Hh&->).
  apply insertSecretVersion_inv in Hm2 as (_&Hc&Hf&Hu&->). simpl in *. subst.
  apply advance_secret_head_inv in Hm3 as (h&Eh&_&_&_&Hhc&->). simpl in Eh. rewrite lookup_insert_eq in Eh. apply (inj Some) in Eh. subst h.
  apply insertSecretAudit_inv in H as (h&w&Eh&_&_&_&_&Ha&->&Hac). simpl in *.
  assert (v_Number (mu_Version m) = 1 ∧ v_State (mu_Version m) = VersionActive ∧ x_SecretID (mu_Audit m) = sc_SecretID (v_Scope (mu_Version m))) as (En&Es&Ei).
  { apply validSecretMutation_inv in Hm; naive_solver. }
  rewrite En, Es in *. rewrite Ei, insert_insert_eq, lookup_insert_eq in Eh. apply (inj Some) in Eh. subst h.
  unfold sd_with_heads, sd_with_versions, sd_with_audit. simpl. rewrite insert_insert_eq. split_and!; done.
Qed.

Definition retired (compromised : bool) : VersionState := if compromised then VersionRevoked else VersionSuperseded.

Lemma replaceTx_inv m compromised d u d' : replaceTx m compromised d = inr (u, d') →
  let v := mu_Version m in let s := v_Scope v in let a := mu_Audit m in
  ∃ h c w, validSecretMutation m 0 = true ∧ x_Action a = (if compromised then "replaced_compromised" else "replaced") ∧
  sd_heads d !! sc_SecretID s = Some h ∧ sh_current h = Some c ∧ headScope s h = true ∧
  sd_versions d !! c = Some w ∧ vr_secret w = sc_SecretID s ∧ vr_state w = VersionActive ∧ x_OldVersionID a = c ∧
  v_Number v = u64 (i64 (vr_number w + 1)) ∧ c ≠ v_ID v ∧
  sd_versions d !! v_ID v = None ∧ sd_audit d !! x_ID a = None ∧
  secret_version_check c (with_state (retired compromised) w) = true ∧
  secret_version_check (v_ID v) (newRow v (i64 (v_Number v))) = true ∧
  secret_version_unique (sd_with_versions (<[c := with_state (retired compromised) w]> (sd_versions d)) d) (v_ID v) (newRow v (i64 (v_Number v))) = true ∧
  secret_head_check (sc_SecretID s) (advanced (v_ID v) h) = true ∧ sh_revision h + 1 ≤ maxInt64 ∧
  d' = {| sd_generation := sd_generation d; sd_ledger := sd_ledger d;
          sd_heads := <[sc_SecretID s := advanced (v_ID v) h]> (sd_heads d);
          sd_versions := <[v_ID v := newRow v (i64 (v_Number v))]> (<[c := with_state (retired compromised) w]> (sd_versions d));
          sd_audit := <[x_ID a := auditRow a h]> (sd_audit d) |} ∧ secret_audit_check (x_ID a) (auditRow a h) = true.
Proof.
  unfold replaceTx. fold (retired compromised). intros H. tx_inv. apply params_inv in Hm1 as [_ ->].
  apply validSecretMutation_inv in Hm as Hv; [|by left]. destruct Hv as (_&Hold&_&Es&_&_&_&_&Est).
  destruct (Hold eq_refl) as [_ Hact]. clear Hold. bool_hyps.
  destruct (sd_versions d !! v3) as [w|] eqn:Ew; [|done]. cbn in Hm5. destruct (_ && _) eqn:Eb in Hm5; [|done]. apply (inj Some) in Hm5. subst v5 v10. bool_hyps.
  apply update_secret_version_inv in Hm8 as [(_&_&Hc)|(old&_&Eold&_&_&_&Hwc&_&->)]; [by specialize (Hc w Ew)|].
  assert (old = w) as -> by congruence. clear Eold.
  apply insertSecretVersion_inv in Hm9 as (_&Hc&Hf&Hu&->). simpl in *. rewrite Est in *. fold (newRow (mu_Version m) (i64 (v_Number (mu_Version m)))) in *.
  apply lookup_insert_None in Hf as [Hf Hne].
  apply advance_secret_head_inv in Hm10 as (h&Eh&_&Hmax&_&Hhc&->). simpl in *. assert (h = v2) as -> by congruence.
  apply insertSecretAudit_inv in Hm12 as (h&w'&Eh'&_&_&_&_&Ha&->&Hac). simpl in *. rewrite Es, lookup_insert_eq in Eh'. apply (inj Some) in Eh'. subst h.
  exists v2, v3, w. split_and!; try done.
  apply eqb_prop in Hm0. subst compromised. destruct Hact as [-> | ->]; done.
Qed.

Lemma rewrapTx_inv scope id rev e d u d' : rewrapTx scope id rev e d = inr (u, d') →
  ∃ h w, sd_heads d !! sc_SecretID scope = Some h ∧ headScope scope h = true ∧ sd_versions d !! id = Some w ∧
    vr_secret w = sc_SecretID scope ∧ live (vr_state w) = true ∧ vr_revision w = rev ∧ vr_revision w + 1 ≤ maxInt64 ∧
    validKEKID (env_KEKID e) = true ∧ secret_version_check id (rewrapped (env_KEKID e) (env_WrappedDEK e) w) = true ∧
    d' = sd_with_versions (<[id := rewrapped (env_KEKID e) (env_WrappedDEK e) w]> (sd_versions d)) d.
Proof.
  unfold rewrapTx. intros H. tx_inv. apply params_inv in Hm0 as [_ ->]. subst. bool_hyps.
  apply update_secret_version_inv in Hm2 as [(?&_)|(w&_&Ew&Hc&Hmax&_&Hwc&_&->)]; [done|].
  destruct (sd_heads d !! sc_SecretID scope) as [h|] eqn:Eh; [|done]. bool_hyps. exists h, w. split_and!; done.
Qed.

(** ** The invariant *)

Record SecretInv (d : SecretDB) : Prop := {
  si_version : ∀ id v, sd_versions d !! id = Some v →
    secret_version_check id v = true ∧ validKEKID (vr_kek v) = true ∧ vr_revision v ≤ maxInt64;
  si_head : ∀ id h, sd_heads d !! id = Some h → secret_head_check id h = true ∧ sh_revision h ≤ maxInt64 ∧
    ∃ c v, sh_current h = Some c ∧ sd_versions d !! c = Some v ∧ vr_secret v = id ∧ vr_state v = VersionActive ∧
      vr_number v = sh_revision h;
  si_scope : ∀ id v, sd_versions d !! id = Some v → ∃ h, sd_heads d !! vr_secret v = Some h ∧
    vr_owner v = sh_owner h ∧ vr_project v = sh_project h ∧ vr_env v = sh_env h ∧ 1 ≤ vr_number v ≤ sh_revision h;
  si_unique : ∀ i v j w, sd_versions d !! i = Some v → sd_versions d !! j = Some w → vr_secret v = vr_secret w →
    vr_number v = vr_number w ∨ vr_state v = VersionActive ∧ vr_state w = VersionActive → i = j;
  si_history : ∀ id h n, sd_heads d !! id = Some h → 1 ≤ n ≤ sh_revision h →
    ∃ i v, sd_versions d !! i = Some v ∧ vr_secret v = id ∧ vr_number v = n;
  si_audit : ∀ id v, sd_versions d !! id = Some v → ∃ i a, sd_audit d !! i = Some a ∧ xr_version a = id ∧ xr_secret a = vr_secret v ∧
    ((vr_number v = 1 ∧ xr_action a = "created") ∨
     ∃ o w c, xr_old a = Some o ∧ sd_versions d !! o = Some w ∧ vr_secret w = vr_secret v ∧ vr_number w = vr_number v - 1 ∧
       vr_state w = retired c ∧ xr_action a = if c then "replaced_compromised" else "replaced");
  si_ledger : ∀ k r, sd_ledger d !! k = Some r → 0 ≤ lr_reserved r ≤ maxReservedWrapInvocations;
  si_ledger_check : ∀ k r, sd_ledger d !! k = Some r → secret_wrap_invocations_check k r = true;
  si_audit_check : ∀ i a, sd_audit d !! i = Some a → secret_audit_check i a = true;
}.

(** ** What later states keep *)

Definition stateRank (s : VersionState) : Z := match s with VersionActive => 0 | VersionSuperseded => 1 | VersionRevoked => 2 end.

Record versionKept (v v' : SecretVersionRow) : Prop := {
  vk_columns : vr_secret v' = vr_secret v ∧ vr_owner v' = vr_owner v ∧ vr_project v' = vr_project v ∧ vr_env v' = vr_env v ∧
    vr_number v' = vr_number v ∧ vr_suite v' = vr_suite v ∧ vr_aad v' = vr_aad v ∧ vr_ciphertext v' = vr_ciphertext v;
  vk_revision : vr_revision v ≤ vr_revision v';
  vk_envelope : vr_revision v' = vr_revision v → vr_kek v' = vr_kek v ∧ vr_wrapped v' = vr_wrapped v;
  vk_state : stateRank (vr_state v) ≤ stateRank (vr_state v');
}.
Definition headKept (h h' : SecretHeadRow) : Prop :=
  sh_owner h' = sh_owner h ∧ sh_project h' = sh_project h ∧ sh_env h' = sh_env h ∧ sh_purpose h' = sh_purpose h ∧
  sh_delivery h' = sh_delivery h ∧ sh_revision h ≤ sh_revision h'.

Record secretsKept (d d' : SecretDB) : Prop := {
  sk_versions : ∀ id v, sd_versions d !! id = Some v → ∃ v', sd_versions d' !! id = Some v' ∧ versionKept v v';
  sk_heads : ∀ id h, sd_heads d !! id = Some h → ∃ h', sd_heads d' !! id = Some h' ∧ headKept h h';
  sk_audit : sd_audit d ⊆ sd_audit d';
  sk_ledger : ∀ k r, sd_ledger d !! k = Some r → ∃ r', sd_ledger d' !! k = Some r' ∧ lr_reserved r ≤ lr_reserved r' ∧
    lr_generation r' = lr_generation r;
  sk_generation : sd_generation d' = sd_generation d;
}.

#[global] Instance versionKept_preorder : PreOrder versionKept.
Proof.
  split.
  - intros v. split; [done|lia|done|lia].
  - intros u v w [(?&?&?&?&?&?&?&?) Hr1 He1 Hs1] [(?&?&?&?&?&?&?&?) Hr2 He2 Hs2]. split; [|lia| |lia].
    + split_and!; by etrans.
    + intros. destruct He1, He2; [lia..|]. split; by etrans.
Qed.
#[global] Instance headKept_preorder : PreOrder headKept.
Proof.
  split; [intros h; unfold headKept; split_and!; done || lia|]. intros a b c (?&?&?&?&?&?) (?&?&?&?&?&?).
  unfold headKept. split_and!; first [lia|by etrans].
Qed.
#[global] Instance secretsKept_preorder : PreOrder secretsKept.
Proof.
  split.
  - intros d. split; try done; eauto.
    + intros id v Hv. exists v. by split.
    + intros id h Hh. exists h. by split.
    + intros k r Hr. exists r. split_and!; done || lia.
  - intros a b c [] []. split.
    + intros id v (v1&H1&K1)%sk_versions0. apply sk_versions1 in H1 as (v2&H2&K2). exists v2. split; [done|by etrans].
    + intros id h (h1&H1&K1)%sk_heads0. apply sk_heads1 in H1 as (h2&H2&K2). exists h2. split; [done|by etrans].
    + by etrans.
    + intros k r (r1&H1&?&?)%sk_ledger0. apply sk_ledger1 in H1 as (r2&H2&?&?). exists r2. split_and!; [done|lia|congruence].
    + congruence.
Qed.

Lemma kept_versions d id v : (∀ w, sd_versions d !! id = Some w → versionKept w v) →
  secretsKept d (sd_with_versions (<[id := v]> (sd_versions d)) d).
Proof.
  intros H. split; try done; simpl; eauto.
  - intros i w Hw. destruct (decide (i = id)) as [->|]; [|rewrite lookup_insert_ne by done; by exists w].
    rewrite lookup_insert_eq. eauto.
  - intros i h Hh. exists h. by split.
  - intros k r Hr. exists r. split_and!; done || lia.
Qed.
Lemma kept_heads d id h : (∀ g, sd_heads d !! id = Some g → headKept g h) →
  secretsKept d (sd_with_heads (<[id := h]> (sd_heads d)) d).
Proof.
  intros H. split; try done; simpl; eauto.
  - intros i w Hw. by exists w.
  - intros i w Hw. destruct (decide (i = id)) as [->|]; [|rewrite lookup_insert_ne by done; by exists w].
    rewrite lookup_insert_eq. eauto.
  - intros k r Hr. exists r. split_and!; done || lia.
Qed.
Lemma secrets_kept_audit d id a : sd_audit d !! id = None → secretsKept d (sd_with_audit (<[id := a]> (sd_audit d)) d).
Proof.
  intros H. split; try done; simpl.
  - intros i w Hw. by exists w.
  - intros i h Hh. exists h. by split.
  - by apply insert_subseteq.
  - intros k r Hr. exists r. split_and!; done || lia.
Qed.
Lemma kept_ledger d k r : (∀ q, sd_ledger d !! k = Some q → lr_reserved q ≤ lr_reserved r ∧ lr_generation r = lr_generation q) →
  secretsKept d (sd_with_ledger (<[k := r]> (sd_ledger d)) d).
Proof.
  intros H. split; try done; simpl.
  - intros i w Hw. by exists w.
  - intros i h Hh. exists h. by split.
  - intros i q Hq. destruct (decide (i = k)) as [->|].
    + rewrite lookup_insert_eq. exists r. destruct (H q Hq). split_and!; done.
    + rewrite lookup_insert_ne by done. exists q. split_and!; done || lia.
Qed.

Lemma insertSecretAudit_kept a d u d' : insertSecretAudit a d = inr (u, d') → secretsKept d d'.
Proof. intros (h&v&_&_&_&_&_&Ha&->&_)%insertSecretAudit_inv. by apply secrets_kept_audit. Qed.

Lemma versionKept_state st v : stateRank (vr_state v) ≤ stateRank st → versionKept v (with_state st v).
Proof. by split; simpl. Qed.
Lemma versionKept_rewrapped kek wrapped v : versionKept v (rewrapped kek wrapped v).
Proof. split; simpl; done || lia. Qed.
Lemma headKept_advanced id h : headKept h (advanced id h).
Proof. unfold headKept. simpl. split_and!; done || lia. Qed.

Lemma create_kept m d u d' : createTx m d = inr (u, d') → secretsKept d d'.
Proof.
  intros (_&Hh&Hv&Ha&_&_&_&->&_)%createTx_inv.
  etrans; [eapply kept_versions; by rewrite Hv|]. etrans; [eapply kept_heads; simpl; by rewrite Hh|].
  etrans; [eapply secrets_kept_audit; exact Ha|]. unfold sd_with_audit, sd_with_heads, sd_with_versions. simpl. reflexivity.
Qed.

Lemma replace_kept m c d u d' : replaceTx m c d = inr (u, d') → secretsKept d d'.
Proof.
  intros (h&cur&w&_&_&Hh&_&_&Hw&_&Hst&_&_&Hne&Hv&Ha&_&_&_&_&_&->&_)%replaceTx_inv.
  etrans; [eapply (kept_versions d cur (with_state (retired c) w))|].
  { rewrite Hw. intros ? [= <-]. apply versionKept_state. rewrite Hst. by destruct c. }
  etrans; [eapply kept_versions; simpl; by rewrite lookup_insert_ne, Hv|].
  etrans; [eapply kept_heads; simpl; rewrite Hh; intros ? [= <-]; apply headKept_advanced|].
  etrans; [eapply secrets_kept_audit; exact Ha|]. unfold sd_with_audit, sd_with_heads, sd_with_versions. simpl. reflexivity.
Qed.

Lemma rewrap_kept scope id rev e d u d' : rewrapTx scope id rev e d = inr (u, d') → secretsKept d d'.
Proof.
  intros (h&w&_&_&Hw&_&_&_&_&_&_&->)%rewrapTx_inv. apply kept_versions. rewrite Hw. intros ? [= <-]. apply versionKept_rewrapped.
Qed.

Lemma reserve_kept k d : secretsKept d (ReserveWrapInvocation k d).2.
Proof.
  unfold ReserveWrapInvocation. case_match; [done|]. destruct (sd_ledger d !! k) as [r|] eqn:Er; [|done]. case_match; [|done].
  apply kept_ledger. rewrite Er. intros ? [= <-]. simpl. split; [lia|done].
Qed.

Lemma initializeActiveLedgerTx_inv k g d u d' : initializeActiveLedgerTx k g d = inr (u, d') →
  validKEKID k = true ∧ sd_generation d = g ∧ versionsByKEK k d = 0 ∧ sd_ledger d !! k = None ∧
  d' = sd_with_ledger (<[k := {| lr_reserved := 0; lr_generation := g |}]> (sd_ledger d)) d ∧ validGenerationID g = true.
Proof.
  unfold initializeActiveLedgerTx. intros H. tx_inv. bool_hyps. split_and!; try done. by destruct (sd_ledger d !! k).
Qed.
Lemma initialize_kept k g d u d' : initializeActiveLedgerTx k g d = inr (u, d') → secretsKept d d'.
Proof. intros (_&_&_&Hk&->&_)%initializeActiveLedgerTx_inv. apply kept_ledger. by rewrite Hk. Qed.

(** ** Every committed mutation keeps the invariant *)

Lemma i64_small x : 0 ≤ x ≤ maxInt64 → i64 x = x.
Proof. unfold i64, maxInt64. intros. rewrite Z.mod_small; lia. Qed.
Lemma u64_i64_small x : 0 ≤ x ≤ maxInt64 → i64 (u64 (i64 x)) = x.
Proof. intros. rewrite (i64_small x) by done. rewrite u64_small by (unfold maxInt64 in *; lia). by apply i64_small. Qed.

Lemma validStoredVersion_kek v : validStoredVersion v = true → validKEKID (env_KEKID (v_Envelope v)) = true.
Proof. unfold validStoredVersion. intros. by bool_hyps. Qed.

Lemma create_inv m d u d' : SecretInv d → createTx m d = inr (u, d') → SecretInv d'.
Proof.
  intros I (Hm&Hh&Hv&Ha&Hhc&Hvc&Hu&->&Hac)%createTx_inv. apply validSecretMutation_inv in Hm as (H1&_&_&Es&Ev&Hst&_&_&_); [|by right].
  destruct (H1 eq_refl) as (_&Hact&_). clear H1. set (v := mu_Version m) in *. set (s := sc_SecretID (v_Scope v)) in *.
  assert (∀ i w, sd_versions d !! i = Some w → vr_secret w ≠ s) as Hfresh.
  { intros i w Hw E. destruct (si_scope d I i w Hw) as (h&Hh'&_). congruence. }
  split; simpl.
  - intros i w. rewrite lookup_insert_Some. intros [[<- <-]|[_ Hw]]; [|by apply (si_version d I)].
    split_and!; [done|by apply validStoredVersion_kek|simpl; unfold maxInt64; lia].
  - intros i h. rewrite lookup_insert_Some. intros [[<- <-]|[Hne Hi]].
    + split_and!; [done|simpl; unfold maxInt64; lia|]. exists (v_ID v), (newRow v 1). rewrite lookup_insert_eq. done.
    + destruct (si_head d I i h Hi) as (?&?&c&w&?&Hw&?). split_and!; [done..|]. exists c, w.
      rewrite lookup_insert_ne by congruence. done.
  - intros i w. rewrite lookup_insert_Some. intros [[<- <-]|[_ Hw]].
    + exists (newHead (v_Scope v) (v_ID v)). simpl. rewrite lookup_insert_eq. split_and!; done || lia.
    + destruct (si_scope d I i w Hw) as (h&?&?). exists h. rewrite lookup_insert_ne; [done|]. intros E. by eapply Hfresh.
  - intros i x j y. rewrite !lookup_insert_Some. intros [[<- <-]|[_ Hx]] [[<- <-]|[_ Hy]]; [done|..]; simpl; intros E ?.
    + exfalso. by eapply Hfresh.
    + exfalso. by eapply Hfresh.
    + by eapply (si_unique d I).
  - intros i h n. rewrite lookup_insert_Some. intros [[<- <-]|[_ Hi]] Hn; simpl in *.
    + exists (v_ID v), (newRow v 1). rewrite lookup_insert_eq. split_and!; [done..|simpl; lia].
    + destruct (si_history d I i h n Hi Hn) as (j&w&Hw&?). exists j, w. rewrite lookup_insert_ne by congruence. done.
  - intros i w. rewrite lookup_insert_Some. intros [[<- <-]|[_ Hw]].
    + eexists (x_ID (mu_Audit m)), _. rewrite lookup_insert_eq. split; [done|]. simpl. split_and!; [done..|]. by left.
    + destruct (si_audit d I i w Hw) as (j&a&Hj&?&?&Hc). exists j, a. rewrite lookup_insert_ne by congruence. split_and!; [done..|].
      destruct Hc as [Hc|(o&x&c&?&Hx&?)]; [by left|right]. exists o, x, c. rewrite lookup_insert_ne by congruence. done.
  - apply (si_ledger d I).
  - apply (si_ledger_check d I).
  - intros i a. rewrite lookup_insert_Some. intros [[<- <-]|[_ Hi]]; [done|by apply (si_audit_check d I)].
Qed.

Lemma replace_inv m comp d u d' : SecretInv d → replaceTx m comp d = inr (u, d') → SecretInv d'.
Proof.
  intros I (h&c&w&Hm&Hact&Hh&Hcur&Hsc&Hw&Hsec&Hst&Hold&Hnum&Hne&Hv&Ha&Hwc&Hvc&Hu&Hhc&Hmax&->&Hac)%replaceTx_inv.
  apply validSecretMutation_inv in Hm as (_&_&_&Es&Ev&Hsv&_&_&_); [|by left].
  set (v := mu_Version m) in *. set (s := sc_SecretID (v_Scope v)) in *.
  destruct (si_head d I s h Hh) as (_&_&c'&w'&Hc'&Hw'&_&_&Hrev). assert (c' = c) as -> by congruence. assert (w' = w) as -> by congruence.
  destruct (si_scope d I c w Hw) as (h'&Hh'&Ho&Hp&He&Hr). rewrite Hsec in Hh'. assert (h' = h) as -> by congruence.
  assert (i64 (v_Number v) = sh_revision h + 1) as En by (rewrite Hnum, Hrev; apply u64_i64_small; lia). rewrite En in *. clear Hnum En Hw' Hh' Hc'.
  unfold headScope in Hsc. bool_hyps.
  set (w1 := with_state (retired comp) w) in *. set (v1 := newRow v (sh_revision h + 1)) in *.
  (* a version of the new state: the new one, the retired one, or another *)
  assert (∀ i x, <[v_ID v := v1]> (<[c := w1]> (sd_versions d)) !! i = Some x →
    i = v_ID v ∧ x = v1 ∨ i = c ∧ x = w1 ∨ i ≠ c ∧ i ≠ v_ID v ∧ sd_versions d !! i = Some x) as Hlook.
  { intros i x. rewrite !lookup_insert_Some. naive_solver. }
  assert (∀ i x, sd_versions d !! i = Some x → ∃ y, <[v_ID v := v1]> (<[c := w1]> (sd_versions d)) !! i = Some y ∧
    vr_secret y = vr_secret x ∧ vr_number y = vr_number x ∧ (i ≠ c → y = x)) as Hkeep.
  { intros i x Hi. destruct (decide (i = c)) as [->|].
    - exists w1. rewrite lookup_insert_ne, lookup_insert_eq by done. assert (x = w) as -> by congruence. done.
    - exists x. rewrite !lookup_insert_ne by congruence. done. }
  assert (∀ i x, i ≠ c → sd_versions d !! i = Some x → vr_secret x = s → vr_state x ≠ VersionActive) as Hone.
  { intros i x Hi Hx Hs Ha'. apply Hi. eapply (si_unique d I i x c w); [done..|congruence|]. by right. }
  split; simpl.
  - intros i x [[-> ->]|[[-> ->]|(_&_&Hx)]]%Hlook; [| |by apply (si_version d I)].
    + split_and!; [done|by apply validStoredVersion_kek|simpl; unfold maxInt64; lia].
    + destruct (si_version d I c w Hw) as (_&?&?). done.
  - intros i g. rewrite lookup_insert_Some. intros [[<- <-]|[Hi Hg]].
    + split_and!; [done|simpl; lia|]. exists (v_ID v), v1. rewrite lookup_insert_eq. done.
    + destruct (si_head d I i g Hg) as (?&?&c2&w2&?&Hw2&?&?). split_and!; [done..|]. exists c2, w2.
      rewrite !lookup_insert_ne by congruence. done.
  - intros i x [[-> ->]|[[-> ->]|(_&_&Hx)]]%Hlook.
    + exists (advanced (v_ID v) h). simpl. rewrite lookup_insert_eq. split_and!; done || lia.
    + exists (advanced (v_ID v) h). simpl. rewrite Hsec, lookup_insert_eq. simpl. split_and!; done || lia.
    + destruct (si_scope d I i x Hx) as (g&Hg&?&?&?&?&?). destruct (decide (vr_secret x = s)) as [E|].
      * rewrite E in *. assert (g = h) as -> by congruence. exists (advanced (v_ID v) h). rewrite lookup_insert_eq. simpl. split_and!; done || lia.
      * exists g. rewrite lookup_insert_ne by done. done.
  - assert (∀ j y, j ≠ v_ID v → <[v_ID v := v1]> (<[c := w1]> (sd_versions d)) !! j = Some y → vr_secret y = s →
      vr_number y ≠ sh_revision h + 1 ∧ vr_state y ≠ VersionActive) as Hnew.
    { intros j y Hj [[-> ->]|[[-> ->]|(Hjc&_&Hy)]]%Hlook Hs; [done| |].
      - simpl. split; [lia|by destruct comp].
      - split; [|by eapply Hone]. destruct (si_scope d I j y Hy) as (g&Hg&_&_&_&?). rewrite Hs in Hg.
        assert (g = h) as -> by congruence. lia. }
    intros i x j y Hx Hy E Hc. destruct (decide (i = v_ID v)) as [->|Hi], (decide (j = v_ID v)) as [->|Hj]; [done|..].
    + rewrite lookup_insert_eq in Hx. apply (inj Some) in Hx. subst x. destruct (Hnew j y Hj Hy); [done|].
      destruct Hc as [Hc|[_ Hc]]; [|done]. simpl in Hc. congruence.
    + rewrite lookup_insert_eq in Hy. apply (inj Some) in Hy. subst y. destruct (Hnew i x Hi Hx); [done|].
      destruct Hc as [Hc|[Hc _]]; [|done]. simpl in Hc. congruence.
    + apply Hlook in Hx as [[? _]|[[-> ->]|(Hic&_&Hx)]], Hy as [[? _]|[[-> ->]|(Hjc&_&Hy)]]; try done.
      * eapply (si_unique d I c w j y); try done. destruct Hc as [Hc|[Hc _]]; [by left|by destruct comp].
      * eapply (si_unique d I i x c w); try done. destruct Hc as [Hc|[_ Hc]]; [by left|by destruct comp].
      * by eapply (si_unique d I i x j y).
  - intros i g n. rewrite lookup_insert_Some. intros [[<- <-]|[_ Hg]] Hn; simpl in *.
    + destruct (decide (n = sh_revision h + 1)) as [->|].
      { exists (v_ID v), v1. rewrite lookup_insert_eq. done. }
      destruct (si_history d I s h n Hh) as (j&x&Hx&?&?); [lia|]. destruct (Hkeep j x Hx) as (y&?&?&?&_). exists j, y. split_and!; [done|congruence..].
    + destruct (si_history d I i g n Hg Hn) as (j&x&Hx&?&?). destruct (Hkeep j x Hx) as (y&?&?&?&_). exists j, y. split_and!; [done|congruence..].
  - assert (∀ i x, sd_versions d !! i = Some x → ∃ j a, <[x_ID (mu_Audit m) := auditRow (mu_Audit m) h]> (sd_audit d) !! j = Some a ∧
      xr_version a = i ∧ xr_secret a = vr_secret x ∧ ((vr_number x = 1 ∧ xr_action a = "created") ∨
      ∃ o w0 c0, xr_old a = Some o ∧ <[v_ID v := v1]> (<[c := w1]> (sd_versions d)) !! o = Some w0 ∧ vr_secret w0 = vr_secret x ∧
        vr_number w0 = vr_number x - 1 ∧ vr_state w0 = retired c0 ∧ xr_action a = if c0 then "replaced_compromised" else "replaced")) as Hau.
    { intros i x Hx. destruct (si_audit d I i x Hx) as (j&a&Hj&?&?&Hc). exists j, a. rewrite lookup_insert_ne by congruence.
      split_and!; [done..|]. destruct Hc as [Hc|(o&y&c0&?&Hy&?&?&Hyst&?)]; [by left|right]. exists o, y, c0.
      assert (o ≠ c) as Hoc. { intros ->. assert (y = w) as -> by congruence. rewrite Hst in Hyst. by destruct c0. }
      rewrite !lookup_insert_ne by congruence. done. }
    intros i x [[-> ->]|[[-> ->]|(_&_&Hx)]]%Hlook; [|by destruct (Hau c w Hw) as (j&a&?); exists j, a|by apply Hau].
    eexists (x_ID (mu_Audit m)), _. rewrite lookup_insert_eq. split; [done|]. simpl. split_and!; [done..|]. right.
    exists c, w1, comp. rewrite lookup_insert_ne, lookup_insert_eq by done. split_and!; try done; simpl; [|lia].
    unfold nullIfEmpty. rewrite bool_decide_eq_false_2; [by rewrite Hold|]. rewrite Hold. intros ->. destruct (si_version d I "" w Hw) as [Hc _].
    by unfold secret_version_check in Hc.
  - apply (si_ledger d I).
  - apply (si_ledger_check d I).
  - intros i a. rewrite lookup_insert_Some. intros [[<- <-]|[_ Hi]]; [done|by apply (si_audit_check d I)].
Qed.

Lemma rewrap_inv scope id rev e d u d' : SecretInv d → rewrapTx scope id rev e d = inr (u, d') → SecretInv d'.
Proof.
  intros I (h&w&_&_&Hw&_&_&_&Hmax&Hk&Hc&->)%rewrapTx_inv. set (w' := rewrapped _ _ w).
  assert (∀ i x, <[id := w']> (sd_versions d) !! i = Some x → ∃ y, sd_versions d !! i = Some y ∧ vr_secret x = vr_secret y ∧
    vr_owner x = vr_owner y ∧ vr_project x = vr_project y ∧ vr_env x = vr_env y ∧ vr_number x = vr_number y ∧ vr_state x = vr_state y) as Hback.
  { intros i x. rewrite lookup_insert_Some. intros [[<- <-]|[_ Hx]]; [by exists w|by exists x]. }
  assert (∀ i y, sd_versions d !! i = Some y → ∃ x, <[id := w']> (sd_versions d) !! i = Some x ∧ vr_secret x = vr_secret y ∧
    vr_number x = vr_number y ∧ vr_state x = vr_state y) as Hforth.
  { intros i y Hy. destruct (decide (i = id)) as [->|]; [|rewrite lookup_insert_ne by done; by exists y].
    rewrite lookup_insert_eq. exists w'. assert (y = w) as -> by congruence. done. }
  split; simpl.
  - intros i x. rewrite lookup_insert_Some. intros [[<- <-]|[_ Hx]]; [|by apply (si_version d I)]. split_and!; done.
  - intros i g Hg. destruct (si_head d I i g Hg) as (?&?&c&x&?&Hx&?&?&?). split_and!; [done..|].
    destruct (Hforth c x Hx) as (y&?&?&?&?). exists c, y. split_and!; [done..|congruence|congruence|congruence].
  - intros i x (y&Hy&->&->&->&->&->&_)%Hback. by apply (si_scope d I i).
  - intros i x j y (x'&Hx&->&_&_&_&->&->)%Hback (y'&Hy&->&_&_&_&->&->)%Hback. by apply (si_unique d I i x' j y').
  - intros i g n Hg Hn. destruct (si_history d I i g n Hg Hn) as (j&x&Hx&?&?). destruct (Hforth j x Hx) as (y&?&?&?&?).
    exists j, y. split_and!; [done|congruence|congruence].
  - intros i x (y&Hy&->&_&_&_&->&_)%Hback. destruct (si_audit d I i y Hy) as (j&a&?&?&?&Hc'). exists j, a. split_and!; [done..|].
    destruct Hc' as [Hc'|(o&z&c&?&Hz&?&?&?&?)]; [by left|right]. destruct (Hforth o z Hz) as (z'&?&?&?&?).
    exists o, z', c. split_and!; [done|done|congruence|congruence|congruence|done].
  - apply (si_ledger d I).
  - apply (si_ledger_check d I).
  - apply (si_audit_check d I).
Qed.

Lemma secret_audit_inv d id a : SecretInv d → sd_audit d !! id = None → secret_audit_check id a = true →
  SecretInv (sd_with_audit (<[id := a]> (sd_audit d)) d).
Proof.
  intros I Ha Hc. split; simpl; try apply I.
  - intros i v Hv. destruct (si_audit d I i v Hv) as (j&b&?&?). exists j, b. by rewrite lookup_insert_ne by congruence.
  - intros i b. rewrite lookup_insert_Some. intros [[<- <-]|[_ Hi]]; [done|by apply (si_audit_check d I)].
Qed.
Lemma append_inv a d u d' : SecretInv d → appendMaterializationAuditTx a d = inr (u, d') → SecretInv d'.
Proof.
  intros I H. unfold appendMaterializationAuditTx in H. tx_inv.
  apply insertSecretAudit_inv in H as (?&?&_&_&_&_&_&Ha&->&?). by apply secret_audit_inv.
Qed.

Lemma ledger_inv d k r : SecretInv d → 0 ≤ lr_reserved r ≤ maxReservedWrapInvocations →
  textCheck 64 k && textCheck 128 (lr_generation r) = true →
  SecretInv (sd_with_ledger (<[k := r]> (sd_ledger d)) d).
Proof.
  intros I Hr Hc. split; simpl; try apply I; intros i q; rewrite lookup_insert_Some; intros [[<- <-]|[_ Hq]].
  - done.
  - by apply (si_ledger d I i).
  - bool_hyps. unfold secret_wrap_invocations_check, maxReservedWrapInvocations, maxWrapInvocations in *.
    rewrite !andb_true_iff, !Z.leb_le. split_and!; done || lia.
  - by apply (si_ledger_check d I i).
Qed.
Lemma reserve_inv k d : SecretInv d → SecretInv (ReserveWrapInvocation k d).2.
Proof.
  intros I. unfold ReserveWrapInvocation. case_match; [done|]. destruct (sd_ledger d !! k) as [r|] eqn:Er; [|done].
  destruct (_ && _) eqn:E; [|done]. bool_hyps. pose proof (si_ledger d I k r Er). pose proof (si_ledger_check d I k r Er) as Hc.
  apply ledger_inv; [done|simpl; lia|]. unfold secret_wrap_invocations_check in Hc. bool_hyps. by apply andb_true_iff.
Qed.
Lemma charLength_le s : 0 ≤ charLength s ≤ slen s.
Proof.
  induction s as [|c s IH]; [unfold slen; simpl; lia|]. unfold slen in *. cbn [charLength String.length]. destruct (RuneStart c); lia.
Qed.

Lemma textCheck_bytes max s : 0 < slen s ≤ max → textCheck max s = true.
Proof.
  intros H. pose proof (charLength_le s). unfold textCheck. rewrite bool_decide_eq_false_2; [simpl; apply Z.leb_le; lia|].
  intros ->. unfold slen in *. simpl in *. lia.
Qed.

Lemma initialize_inv k g d u d' : SecretInv d → initializeActiveLedgerTx k g d = inr (u, d') → SecretInv d'.
Proof.
  intros I (Hk&_&_&_&->&Hg)%initializeActiveLedgerTx_inv. unfold validKEKID, validGenerationID in *. bool_hyps. pose proof (slen_nonneg k).
  apply ledger_inv; [done|simpl; unfold maxReservedWrapInvocations, maxWrapInvocations; lia|].
  apply andb_true_iff. split; apply textCheck_bytes; simpl; lia.
Qed.

(** A freshly migrated database. *)
Definition freshSecrets (generation : string) : SecretDB :=
  {| sd_generation := generation; sd_ledger := ∅; sd_heads := ∅; sd_versions := ∅; sd_audit := ∅ |}.
Lemma fresh_inv g : SecretInv (freshSecrets g).
Proof. by split. Qed.
