(* ===== verification/SecretService.v ===== *)
(** * The secret service and key rotation (src/internal/secret, the
    materialization handler of src/internal/agent/http/materialize.go)

    A service method calls its repository several times, and every call is a
    transaction of its own: between two of them other requests run.  A method
    is therefore a program [Prog], a tree of repository calls and what is done
    with their answers, and concurrent requests are a pool of programs whose
    calls a schedule interleaves.  A call can also fail for a reason outside
    the model, with or without its effect committed ([Fault]). *)
From S2P Require Import Prelude GoStd Route Schema Crypto Secrets.
#[local] Open Scope Z_scope.

(** ** Repository calls and programs *)

(** [secret.Repository], [secret.RotationRepository] and the ledger; the index
    is what a successful call answers. *)
Inductive RepoCall : Set → Type :=
  | RReserveWrapInvocation (kekID : string) : RepoCall unit
  | RCreate (m : Mutation) : RepoCall unit
  | RReplace (m : Mutation) : RepoCall unit
  | RReplaceCompromised (m : Mutation) : RepoCall unit
  | RGetVersion (scope : SecretScope) (versionID : string) : RepoCall SVersion
  | RRewrap (scope : SecretScope) (versionID : string) (expectedRevision : Z) (e : Envelope) : RepoCall unit
  | RAppendMaterializationAudit (a : SecretAudit) : RepoCall unit
  | RListVersionsByKEK (kekID cursor : string) (limit : Z) : RepoCall (list SVersion)
  | RCountVersionsByKEK (kekID : string) : RepoCall Z
  | RInitializeActiveLedger (kekID generationID : string) : RepoCall unit.

Definition runCall {T} (c : RepoCall T) (d : SecretDB) : (SErr + T) * SecretDB :=
  match c in RepoCall T return (SErr + T) * SecretDB with
  | RReserveWrapInvocation kekID => ReserveWrapInvocation kekID d
  | RCreate m => Create m d
  | RReplace m => Replace m d
  | RReplaceCompromised m => ReplaceCompromised m d
  | RGetVersion scope versionID => (GetVersion scope versionID d, d)
  | RRewrap scope versionID rev e => RewrapVersion scope versionID rev e d
  | RAppendMaterializationAudit a => AppendMaterializationAudit a d
  | RListVersionsByKEK kekID cursor limit => (ListVersionsByKEK kekID cursor limit d, d)
  | RCountVersionsByKEK kekID => (CountVersionsByKEK kekID d, d)
  | RInitializeActiveLedger kekID generationID => InitializeActiveLedger kekID generationID d
  end.

Inductive Prog (A : Type) : Type :=
  | Done (a : A)
  | Do {T : Set} (c : RepoCall T) (k : SErr + T → Prog A).
Arguments Done {A} _.
Arguments Do {A T} _ _.

Fixpoint mapProg {A B} (f : A → B) (p : Prog A) : Prog B :=
  match p with Done a => Done (f a) | Do c k => Do c (λ r, mapProg f (k r)) end.

(** Alone, and without faults. *)
Fixpoint runProg {A} (p : Prog A) (d : SecretDB) : A * SecretDB :=
  match p with
  | Done a => (a, d)
  | Do c k => let '(r, d') := runCall c d in runProg (k r) d'
  end.

(** ** secret.go *)

Record Metadata := { md_ID : string; md_Scope : SecretScope; md_Number : Z; md_State : VersionState }.
Record OperationContext := { oc_AuditID : string; oc_ActorID : string; oc_ServiceID : string; oc_DeploymentID : string; oc_LeaseID : string }.
Record AuthorizationRequest := {
  ar_Scope : SecretScope; ar_VersionID : string; ar_ActorID : string; ar_ServiceID : string; ar_DeploymentID : string;
  ar_LeaseID : string; ar_Frozen : bool;
}.

Definition validID (v : string) : bool := (0 <? slen v) && (slen v <=? 128).
Definition validScope (s : SecretScope) : bool :=
  validID (sc_OwnerID s) && validID (sc_ProjectID s) && validID (sc_EnvironmentID s) && validID (sc_SecretID s)
  && (bool_decide (sc_Purpose s = "build") || bool_decide (sc_Purpose s = "runtime") || bool_decide (sc_Purpose s = "provider"))
  && (bool_decide (sc_DeliveryScope s = "build") || bool_decide (sc_DeliveryScope s = "runtime")).
Definition oneIdentity (actor service : string) : bool :=
  validID actor && bool_decide (service = "") || validID service && bool_decide (actor = "").
Definition validOperation (o : OperationContext) : bool :=
  validID (oc_AuditID o) && oneIdentity (oc_ActorID o) (oc_ServiceID o)
  && (bool_decide (oc_DeploymentID o = "") || validID (oc_DeploymentID o)) && (bool_decide (oc_LeaseID o = "") || validID (oc_LeaseID o)).
Definition validNew (scope : SecretScope) (versionID auditID plaintext : string) : bool :=
  validScope scope && validID versionID && validID auditID && (slen plaintext <=? MaxPlaintextBytes).

Definition cryptoScope (v : SVersion) : CryptoScope :=
  let s := v_Scope v in
  {| c_OwnerID := sc_OwnerID s; c_ProjectID := sc_ProjectID s; c_EnvironmentID := sc_EnvironmentID s; c_VariableID := sc_SecretID s;
     c_SecretVersionID := v_ID v; c_Purpose := sc_Purpose s; c_DeliveryScope := sc_DeliveryScope s |}.
Definition metadata (v : SVersion) : Metadata :=
  {| md_ID := v_ID v; md_Scope := v_Scope v; md_Number := v_Number v; md_State := v_State v |}.
Definition audit (o : OperationContext) (s : SecretScope) (version old action kek : string) : SecretAudit :=
  {| x_ID := oc_AuditID o; x_OwnerID := sc_OwnerID s; x_SecretID := sc_SecretID s; x_VersionID := version; x_Action := action;
     x_ActorID := oc_ActorID o; x_ServiceID := oc_ServiceID o; x_DeploymentID := oc_DeploymentID o; x_LeaseID := oc_LeaseID o;
     x_Result := "success"; x_OldVersionID := old; x_KEKID := kek |}.

Definition noEnvelope : Envelope :=
  {| env_Suite := ""; env_AADVersion := ""; env_KEKID := ""; env_Ciphertext := ""; env_WrappedDEK := "" |}.
Definition newVersion (versionID : string) (scope : SecretScope) (number : Z) (e : Envelope) : SVersion :=
  {| v_ID := versionID; v_Scope := scope; v_Number := number; v_State := VersionActive; v_Envelope := e; v_EnvelopeRevision := 0 |}.

(** The reserver an encryption is given: its call of the repository. *)
Definition reserver {A} (kekID : string) (k : bool → Prog A) : Prog A :=
  Do (RReserveWrapInvocation kekID) (λ r, k (match r with inr _ => true | inl _ => false end)).

Section service.
Context (ring : KeyRing) (authorizer : AuthorizationRequest → bool).

Definition CreateWithContext (scope : SecretScope) (versionID : string) (op : OperationContext) (plaintext : string) (en : Entropy)
    : Prog (SErr + Metadata) :=
  if negb (validOperation op) || negb (validNew scope versionID (oc_AuditID op) plaintext) then Done (inl SErrInvalidInput)
  else Encrypt reserver ring (cryptoScope (newVersion versionID scope 1 noEnvelope)) plaintext en (λ r,
    match r with
    | inl _ => Done (inl SErrCorrupt)
    | inr e =>
        let v := newVersion versionID scope 1 e in
        Do (RCreate {| mu_Version := v; mu_Audit := audit op scope versionID "" "created" (env_KEKID e) |}) (λ r,
          match r with inl _ => Done (inl SErrCorrupt) | inr _ => Done (inr (metadata v)) end)
    end).

(** [ReplaceWithContext] answers [ErrInvalidInput] for a version that is not
    active, [ReplaceCompromisedWithContext] [ErrCorrupt]. *)
Definition replaceWith (compromised : bool) (scope : SecretScope) (versionID : string) (op : OperationContext) (plaintext : string)
    (en : Entropy) : Prog (SErr + Metadata) :=
  if negb (validOperation op) || negb (validNew scope versionID (oc_AuditID op) plaintext) then Done (inl SErrInvalidInput)
  else Do (RGetVersion scope "") (λ r,
    match r with
    | inl _ => Done (inl SErrCorrupt)
    | inr old =>
        if negb (bool_decide (v_State old = VersionActive)) then Done (inl (if compromised then SErrCorrupt else SErrInvalidInput))
        else
          let number := u64 (v_Number old + 1) in
          Encrypt reserver ring (cryptoScope (newVersion versionID scope number noEnvelope)) plaintext en (λ r,
            match r with
            | inl _ => Done (inl SErrCorrupt)
            | inr e =>
                let v := newVersion versionID scope number e in
                let action := if compromised then "replaced_compromised" else "replaced" in
                let m := {| mu_Version := v; mu_Audit := audit op scope versionID (v_ID old) action (env_KEKID e) |} in
                Do (if compromised then RReplaceCompromised m else RReplace m) (λ r,
                  match r with inl _ => Done (inl SErrCorrupt) | inr _ => Done (inr (metadata v)) end)
            end)
    end).
Definition ReplaceWithContext := replaceWith false.
Definition ReplaceCompromisedWithContext := replaceWith true.

Definition materializationAudit (request : AuthorizationRequest) (auditID : string) (v : SVersion) (result : string) : SecretAudit :=
  {| x_ID := auditID; x_OwnerID := sc_OwnerID (ar_Scope request); x_SecretID := sc_SecretID (ar_Scope request);
     x_VersionID := v_ID v; x_Action := "materialized"; x_ActorID := ar_ActorID request; x_ServiceID := ar_ServiceID request;
     x_DeploymentID := ar_DeploymentID request; x_LeaseID := ar_LeaseID request; x_Result := result; x_OldVersionID := "";
     x_KEKID := env_KEKID (v_Envelope v) |}.
Definition versionRequested (request : AuthorizationRequest) (v : SVersion) : bool :=
  bool_decide (v_ID v = ar_VersionID request) && bool_decide (v_Scope v = ar_Scope request).

Definition MaterializeAuthorized (request : AuthorizationRequest) (auditID : string) : Prog (SErr + string) :=
  if negb (validScope (ar_Scope request)) || negb (validID (ar_VersionID request)) || negb (validID auditID)
     || negb (oneIdentity (ar_ActorID request) (ar_ServiceID request)) then Done (inl SErrInvalidInput)
  else if negb (authorizer request) then
    Do (RGetVersion (ar_Scope request) (ar_VersionID request)) (λ r,
      match r with
      | inr v =>
          if versionRequested request v
          then Do (RAppendMaterializationAudit (materializationAudit request auditID v "denied")) (λ _, Done (inl SErrUnauthorized))
          else Done (inl SErrUnauthorized)
      | inl _ => Done (inl SErrUnauthorized)
      end)
  else Do (RGetVersion (ar_Scope request) (ar_VersionID request)) (λ r,
    match r with
    | inl _ => Done (inl SErrCorrupt)
    | inr v =>
        if negb (versionRequested request v) then Done (inl SErrCorrupt)
        else if negb (bool_decide (v_State v = VersionActive)) && negb (ar_Frozen request && bool_decide (v_State v = VersionSuperseded))
        then Done (inl SErrCorrupt)
        else match Decrypt ring (cryptoScope v) (v_Envelope v) with
        | inl _ => Do (RAppendMaterializationAudit (materializationAudit request auditID v "failed")) (λ _, Done (inl SErrCorrupt))
        | inr p =>
            Do (RAppendMaterializationAudit (materializationAudit request auditID v "success")) (λ r,
              match r with inl _ => Done (inl SErrCorrupt) | inr _ => Done (inr p) end)
        end
    end).
End service.

(** ** setauthorizer.go *)

Record AuthorizationKey := { ak_Scope : SecretScope; ak_VersionID : string }.
#[global] Instance AuthorizationKey_eq_dec : EqDecision AuthorizationKey.
Proof. solve_decision. Defined.
Definition AuthorizeSecret (allowed : list AuthorizationKey) (request : AuthorizationRequest) : bool :=
  bool_decide ({| ak_Scope := ar_Scope request; ak_VersionID := ar_VersionID request |} ∈ allowed).

(** ** rotation.go *)

Definition DefaultRewrapBatchSize : Z := 100.
Record RewrapRequest := { rr_OldKEKID : string; rr_Cursor : string; rr_BatchSize : Z; rr_DryRun : bool }.
Record RewrapResult := { rw_NextCursor : string; rw_Selected : Z; rw_Rewrapped : Z; rw_Conflicts : Z }.
Inductive RotationErr := ErrRotationInput | ErrRetirement | ErrRotationCorrupt.

Definition validRotationID (id : string) : bool := validID id && (slen id <=? 64).
Definition validStoredRotationVersion (v : SVersion) : bool :=
  let e := v_Envelope v in
  validScope (v_Scope v) && validID (v_ID v) && (0 <? v_EnvelopeRevision v) && bool_decide (env_Suite e = SuiteAES256GCMRandomNonceV1)
  && bool_decide (env_AADVersion e = AADFormatV1) && (28 <=? slen (env_Ciphertext e))
  && (slen (env_Ciphertext e) <=? MaxPlaintextBytes + 28) && (slen (env_WrappedDEK e) =? 60).

Section rotation.
Context (ring : KeyRing).

(** The batch loop; [nonces] are the wrap nonces it draws. *)
Fixpoint rewrapLoop (request : RewrapRequest) (versions : list SVersion) (nonces : nat → string) (result : RewrapResult)
    : Prog (RotationErr + RewrapResult) :=
  match versions with
  | [] => Done (inr result)
  | v :: versions =>
      if negb (bool_decide (env_KEKID (v_Envelope v) = rr_OldKEKID request)) || negb (validStoredRotationVersion v)
      then Done (inl ErrRotationCorrupt)
      else if rr_DryRun request then rewrapLoop request versions nonces result
      else Rewrap reserver ring (cryptoScope v) (v_Envelope v) (nonces 0%nat) (λ r,
        match r with
        | inl _ => Done (inl ErrRotationCorrupt)
        | inr e =>
            Do (RRewrap (v_Scope v) (v_ID v) (v_EnvelopeRevision v) e) (λ r,
              match r with
              | inl _ => Done (inr {| rw_NextCursor := rw_NextCursor result; rw_Selected := rw_Selected result;
                                      rw_Rewrapped := rw_Rewrapped result; rw_Conflicts := rw_Conflicts result + 1 |})
              | inr _ => rewrapLoop request versions (λ i, nonces (S i))
                           {| rw_NextCursor := v_ID v; rw_Selected := rw_Selected result;
                              rw_Rewrapped := rw_Rewrapped result + 1; rw_Conflicts := rw_Conflicts result |}
              end)
        end)
  end.

Definition activeOK : bool :=
  match Active ring with Some (id, key) => validRotationID id && (String.length key =? 32)%nat | None => false end.

Definition RewrapBatch (request : RewrapRequest) (nonces : nat → string) : Prog (RotationErr + RewrapResult) :=
  if negb (validRotationID (rr_OldKEKID request)) || negb (bool_decide (rr_Cursor request = "") || validID (rr_Cursor request))
  then Done (inl ErrRotationInput)
  else
    let size := if rr_BatchSize request =? 0 then DefaultRewrapBatchSize else rr_BatchSize request in
    if (size <? 1) || (MaxRewrapBatchSize <? size) then Done (inl ErrRotationInput)
    else if negb activeOK || bool_decide (ring_activeID ring = rr_OldKEKID request) then Done (inl ErrRotationInput)
    else Do (RListVersionsByKEK (rr_OldKEKID request) (rr_Cursor request) size) (λ r,
      match r with
      | inl _ => Done (inl ErrRotationCorrupt)
      | inr versions =>
          rewrapLoop request versions nonces
            {| rw_NextCursor := ""; rw_Selected := Z.of_nat (length versions); rw_Rewrapped := 0; rw_Conflicts := 0 |}
      end).

Definition CanRetire (kekID : string) : Prog (option RotationErr) :=
  if negb (validRotationID kekID) then Done (Some ErrRotationInput)
  else match Active ring with
  | None => Done (Some ErrRotationInput)
  | Some (active, _) =>
      if negb (validRotationID active) then Done (Some ErrRotationInput)
      else if bool_decide (active = kekID) then Done (Some ErrRetirement)
      else Do (RCountVersionsByKEK kekID) (λ r,
        match r with
        | inl _ => Done (Some ErrRotationCorrupt)
        | inr n => Done (if n =? 0 then None else Some ErrRetirement)
        end)
  end.
End rotation.

(** ** The materialization handler (materialize.go) *)

(** [queue.FrozenSecretReference] and [queue.MaterializationAuthorization] *)
Record FrozenSecretReference := {
  fr_VariableName : string; fr_SecretID : string; fr_SecretVersionID : string; fr_Purpose : string; fr_DeliveryScope : string;
}.
Record MaterializationAuthorization := {
  ma_AttemptID : Z; ma_Fence : Z; ma_JobID : Z; ma_OwnerID : string; ma_ProjectID : string; ma_EnvironmentID : string;
  ma_DeploymentID : string; ma_Secrets : list FrozenSecretReference;
}.

Record materializedSecretView := { mv_VariableName : string; mv_DeliveryScope : string; mv_Value : string }.
Inductive MaterializeReply :=
  | ReplySecrets (values : list materializedSecretView)
  | ReplyUnauthorized
  | ReplyInternalError.

Definition referenceScope (a : MaterializationAuthorization) (ref : FrozenSecretReference) : SecretScope :=
  {| sc_OwnerID := ma_OwnerID a; sc_ProjectID := ma_ProjectID a; sc_EnvironmentID := ma_EnvironmentID a; sc_SecretID := fr_SecretID ref;
     sc_Purpose := fr_Purpose ref; sc_DeliveryScope := fr_DeliveryScope ref |}.
Definition frozenKeys (a : MaterializationAuthorization) : list AuthorizationKey :=
  (λ ref, {| ak_Scope := referenceScope a ref; ak_VersionID := fr_SecretVersionID ref |}) <$> ma_Secrets a.

(** [itoa] is decimal for the positive numbers it is given. *)
Definition leaseIdentifier (a : MaterializationAuthorization) : string :=
  "attempt-" +:+ FormatInt (ma_AttemptID a) +:+ "-fence-" +:+ FormatInt (ma_Fence a).
Definition referenceRequest (serverID : string) (a : MaterializationAuthorization) (ref : FrozenSecretReference) : AuthorizationRequest :=
  {| ar_Scope := referenceScope a ref; ar_VersionID := fr_SecretVersionID ref; ar_ActorID := ""; ar_ServiceID := serverID;
     ar_DeploymentID := ma_DeploymentID a; ar_LeaseID := leaseIdentifier a; ar_Frozen := true |}.

(** [materializationAuditID] from the random bytes drawn, if they could be. *)
Definition materializationAuditID (raw : option string) : option string :=
  (λ raw, "materialize-" +:+ EncodeToString raw) <$> raw.

(** A program after another. *)
Fixpoint bindProg {A B} (p : Prog A) (f : A → Prog B) : Prog B :=
  match p with Done a => f a | Do c k => Do c (λ r, bindProg (k r) f) end.

(** The loop over the frozen references: one refusal fails the whole request. *)
Fixpoint materializeLoop (ring : KeyRing) (serverID : string) (a : MaterializationAuthorization) (allowed : list AuthorizationKey)
    (refs : list FrozenSecretReference) (raws : nat → option string) (values : list materializedSecretView) : Prog MaterializeReply :=
  match refs with
  | [] => Done (ReplySecrets values)
  | ref :: refs =>
      match materializationAuditID (raws 0%nat) with
      | None => Done ReplyInternalError
      | Some auditID =>
          bindProg (MaterializeAuthorized ring (AuthorizeSecret allowed) (referenceRequest serverID a ref) auditID) (λ r,
            match r with
            | inl _ => Done ReplyUnauthorized
            | inr plaintext =>
                materializeLoop ring serverID a allowed refs (λ i, raws (S i))
                  (values ++ [{| mv_VariableName := fr_VariableName ref; mv_DeliveryScope := fr_DeliveryScope ref; mv_Value := plaintext |}])
            end)
      end
  end.
(** What [handleMaterializeSecrets] does once the attempt is authorized. *)
Definition materializeFrozen (ring : KeyRing) (serverID : string) (a : MaterializationAuthorization) (raws : nat → option string)
    : Prog MaterializeReply :=
  materializeLoop ring serverID a (frozenKeys a) (ma_Secrets a) raws [].
