(* ===== verification/SecretPool.v ===== *)
(** * Concurrent secret operations

    A pool of the service's programs, whose repository calls a schedule
    interleaves in any order and with any faults, and the rely-guarantee
    argument about it: [persists] is what every call guarantees to all others,
    [safe Q p d] says that [p], started in [d] or any later state, keeps the
    store good and ends with [Q]. *)
From S2P Require Import Prelude GoStd Route Schema Aes Crypto Secrets SecretInv SecretService.
From stdpp Require Import sorting.
#[local] Open Scope Z_scope.

(** ** Pools and schedules *)

Inductive SecretOp :=
  | OpCreate (ring : KeyRing) (scope : SecretScope) (versionID : string) (op : OperationContext) (plaintext : string) (en : Entropy)
  | OpReplace (compromised : bool) (ring : KeyRing) (scope : SecretScope) (versionID : string) (op : OperationContext)
      (plaintext : string) (en : Entropy)
  | OpMaterialize (ring : KeyRing) (authorizer : AuthorizationRequest → bool) (request : AuthorizationRequest) (auditID : string)
  | OpMaterializeFrozen (ring : KeyRing) (serverID : string) (a : MaterializationAuthorization) (raws : nat → option string)
  | OpRewrapBatch (ring : KeyRing) (request : RewrapRequest) (nonces : nat → string)
  | OpCanRetire (ring : KeyRing) (kekID : string)
  | OpInitialize (kekID generationID : string).

Inductive Outcome :=
  | OutMetadata (r : SErr + Metadata)
  | OutPlaintext (r : SErr + string)
  | OutReply (r : MaterializeReply)
  | OutRewrap (r : RotationErr + RewrapResult)
  | OutRetire (r : option RotationErr)
  | OutUnit (r : SErr + unit).

Definition progOf (o : SecretOp) : Prog Outcome :=
  match o with
  | OpCreate ring scope version op p en => mapProg OutMetadata (CreateWithContext ring scope version op p en)
  | OpReplace c ring scope version op p en => mapProg OutMetadata (replaceWith ring c scope version op p en)
  | OpMaterialize ring auth request auditID => mapProg OutPlaintext (MaterializeAuthorized ring auth request auditID)
  | OpMaterializeFrozen ring server a raws => mapProg OutReply (materializeFrozen ring server a raws)
  | OpRewrapBatch ring request nonces => mapProg OutRewrap (RewrapBatch ring request nonces)
  | OpCanRetire ring kek => mapProg OutRetire (CanRetire ring kek)
  | OpInitialize kek generation => Do (RInitializeActiveLedger kek generation) (λ r, Done (OutUnit r))
  end.

(** A lost call answers an error; its effect is committed or not. *)
Inductive Fault := NoFault | Lost (e : SErr) (committed : bool).

Definition callStep {T : Set} (f : Fault) (c : RepoCall T) (d : SecretDB) : (SErr + T) * SecretDB :=
  match f with
  | NoFault => runCall c d
  | Lost e committed => (inl e, if committed then (runCall c d).2 else d)
  end.

Definition World : Type := SecretDB * list (Prog Outcome).
Definition poolStep (w : World) (s : nat * Fault) : World :=
  match w.2 !! s.1 with
  | Some (Do c k) => let '(r, d') := callStep s.2 c w.1 in (d', <[s.1 := k r]> w.2)
  | _ => w
  end.
Definition runSchedule (schedule : list (nat * Fault)) (w : World) : World := foldl poolStep w schedule.

(** ** Rely and guarantee *)

Definition rowScope (id : string) (v : SecretVersionRow) (h : SecretHeadRow) : CryptoScope :=
  cryptoScope (rowVersion id v (sh_purpose h) (sh_delivery h)).

Section rely.
Context (keys : gmap string string) (intended : CryptoScope → string → Prop).

Record Good (d : SecretDB) : Prop := {
  good_inv : SecretInv d;
  good_recovers : ∀ id v h, sd_versions d !! id = Some v → sd_heads d !! vr_secret v = Some h →
    ∃ p, intended (rowScope id v h) p ∧ recovers keys (rowScope id v h) (rowEnvelope v) p;
}.

Record persists (d d' : SecretDB) : Prop := {
  persists_kept : secretsKept d d';
  persists_recovers : ∀ id v h v' p, sd_versions d !! id = Some v → sd_heads d !! vr_secret v = Some h → sd_versions d' !! id = Some v' →
    recovers keys (rowScope id v h) (rowEnvelope v) p → recovers keys (rowScope id v h) (rowEnvelope v') p;
}.

Lemma rowScope_kept id v v' h h' : versionKept v v' → headKept h h' → rowScope id v' h' = rowScope id v h.
Proof.
  intros [(E1&E2&E3&E4&_) _ _ _] (_&_&_&E5&E6&_). unfold rowScope, cryptoScope, rowVersion. simpl. by rewrite E1, E2, E3, E4, E5, E6.
Qed.

#[global] Instance persists_preorder : PreOrder persists.
Proof.
  split.
  - intros d. split; [reflexivity|]. intros. by simplify_eq.
  - intros a b c [K1 L1] [K2 L2]. split; [by etrans|]. intros id v h v2 p Hv Hh Hv2 Hp.
    destruct (sk_versions a b K1 id v Hv) as (v1&Hv1&KV). destruct (sk_heads a b K1 _ h Hh) as (h1&Hh1&KH).
    pose proof (rowScope_kept id v v1 h h1 KV KH) as Es. destruct KV as [(E&_) _ _ _].
    rewrite <-Es. eapply (L2 id v1 h1); [done|by rewrite E|done|]. rewrite Es. by eapply L1.
Qed.

(** Whatever the call's answer, and whether it was lost or not. *)
Fixpoint safe {A} (Q : A → SecretDB → Prop) (p : Prog A) (d : SecretDB) : Prop :=
  match p with
  | Done a => Q a d
  | Do c k => ∀ d1, persists d d1 → Good d1 → ∀ f, let '(r, d2) := callStep f c d1 in Good d2 ∧ persists d1 d2 ∧ safe Q (k r) d2
  end.

Definition stable {A} (Q : A → SecretDB → Prop) : Prop := ∀ a d d', persists d d' → Good d' → Q a d → Q a d'.

Lemma safe_later {A} (Q : A → SecretDB → Prop) p d d' : stable Q → persists d d' → Good d' → safe Q p d → safe Q p d'.
Proof.
  destruct p as [a|T c k]; simpl; intros HQ Hl Hg; [by apply HQ|]. intros Hs d1 Hl1 Hg1. apply Hs; [by etrans|done].
Qed.

Definition callKeeps {T} (c : RepoCall T) (d : SecretDB) : Prop := Good (runCall c d).2 ∧ persists d (runCall c d).2.

Lemma safe_Do {A} {T : Set} (Q : A → SecretDB → Prop) (c : RepoCall T) k d : stable Q →
  (∀ d1, persists d d1 → Good d1 → callKeeps c d1 ∧ safe Q (k (runCall c d1).1) (runCall c d1).2 ∧ ∀ e, safe Q (k (inl e)) d1) →
  safe Q (Do c k) d.
Proof.
  intros HQ H d1 Hl Hg. destruct (H d1 Hl Hg) as ([Hg2 Hl2]&Hs&He). intros [|e []]; simpl.
  - destruct (runCall c d1) as [r d2]. done.
  - split_and!; [done..|]. by eapply safe_later.
  - split_and!; [done|reflexivity|done].
Qed.

Lemma safe_mono {A} (Q Q' : A → SecretDB → Prop) p d : (∀ a d, Q a d → Q' a d) → safe Q p d → safe Q' p d.
Proof.
  intros HQ. revert d. induction p as [a|T c k IH]; intros d; simpl; [apply HQ|]. intros Hs d1 Hl Hg f.
  specialize (Hs d1 Hl Hg f). destruct (callStep f c d1) as [r d2]. destruct Hs as (?&?&?). eauto.
Qed.
Lemma safe_mapProg {A B} (f : A → B) (Q : B → SecretDB → Prop) p d : safe (λ a, Q (f a)) p d → safe Q (mapProg f p) d.
Proof.
  revert d. induction p as [a|T c k IH]; intros d; simpl; [done|]. intros Hs d1 Hl Hg g.
  specialize (Hs d1 Hl Hg g). destruct (callStep g c d1) as [r d2]. destruct Hs as (?&?&?). eauto.
Qed.
Lemma safe_bindProg {A B} (f : A → Prog B) (Q : A → SecretDB → Prop) (Q' : B → SecretDB → Prop) p d : Good d → safe Q p d →
  (∀ a d1, persists d d1 → Good d1 → Q a d1 → safe Q' (f a) d1) → safe Q' (bindProg p f) d.
Proof.
  revert d. induction p as [a|T c k IH]; intros d Hd; simpl; intros Hs Hf; [by apply Hf|]. intros d1 Hl Hg g.
  specialize (Hs d1 Hl Hg g). destruct (callStep g c d1) as [r d2]. destruct Hs as (?&?&?). split_and!; [done..|].
  apply IH; [done..|]. intros a d3 Hl3. apply Hf. etrans; [done|]. by etrans.
Qed.

(** ** What each call guarantees *)

Lemma keeps_same d d' : Good d → SecretInv d' → secretsKept d d' → sd_versions d' = sd_versions d → sd_heads d' = sd_heads d →
  Good d' ∧ persists d d'.
Proof.
  intros [I G] I' K Ev Eh. split; (split; [done|]).
  - rewrite Ev, Eh. done.
  - rewrite Ev. intros. by simplify_eq.
Qed.

Lemma keeps_refl d : Good d → Good d ∧ persists d d.
Proof. by split. Qed.

Lemma guar_reserve k d : Good d → callKeeps (RReserveWrapInvocation k) d.
Proof.
  intros G. apply keeps_same; [done|apply reserve_inv, G|apply reserve_kept|..]; simpl; unfold ReserveWrapInvocation; repeat case_match; done.
Qed.

(** A transaction's call keeps what its commits keep. *)
Lemma keeps_tx {T} (m : Tx SecretDB SErr T) d : Good d → (∀ a d', m d = inr (a, d') → Good d' ∧ persists d d') →
  Good (run_tx m d).2 ∧ persists d (run_tx m d).2.
Proof. intros G H. unfold run_tx. destruct (m d) as [e|[a d']] eqn:E; simpl; [by apply keeps_refl|eauto]. Qed.

Lemma guar_initialize k g d : Good d → callKeeps (RInitializeActiveLedger k g) d.
Proof.
  intros G. apply keeps_tx; [done|]. intros u d' H. apply keeps_same; [done|by eapply initialize_inv, H; apply G|by eapply initialize_kept|..];
    apply initializeActiveLedgerTx_inv in H as (_&_&_&_&->&_); done.
Qed.
Lemma guar_append a d : Good d → callKeeps (RAppendMaterializationAudit a) d.
Proof.
  intros G. apply keeps_tx; [done|]. intros u d' H. pose proof (append_inv a d u d' (good_inv d G) H) as I.
  unfold appendMaterializationAuditTx in H. tx_inv. apply keeps_same; [done..|by eapply insertSecretAudit_kept| |];
    apply insertSecretAudit_inv in H as (?&?&_&_&_&_&_&_&->&_); done.
Qed.

(** A new version must recover a value intended for its scope. *)
Definition freshOK (v : SVersion) : Prop :=
  ∃ p, intended (cryptoScope v) p ∧ recovers keys (cryptoScope v) (v_Envelope v) p.

Lemma cryptoScope_row v n h : sc_Purpose (v_Scope v) = sh_purpose h → sc_DeliveryScope (v_Scope v) = sh_delivery h →
  rowScope (v_ID v) (newRow v n) h = cryptoScope v.
Proof. intros E1 E2. unfold rowScope, cryptoScope, rowVersion. simpl. by rewrite <-E1, <-E2. Qed.
Lemma newRow_envelope v n : rowEnvelope (newRow v n) = v_Envelope v.
Proof. unfold rowEnvelope. simpl. by destruct (v_Envelope v). Qed.

Lemma guar_create m d : Good d → freshOK (mu_Version m) → callKeeps (RCreate m) d.
Proof.
  intros G (p&Hi&Hp). apply keeps_tx; [done|]. intros u d' H. pose proof (create_inv m d u d' (good_inv d G) H) as I.
  pose proof (create_kept m d u d' H) as K. apply createTx_inv in H as (_&Hh&Hv&_&_&_&_&->&_). split; (split; [done|]); simpl.
  - intros id v h. rewrite lookup_insert_Some. intros [[<- <-]|[_ Hv']] Hh'.
    + simpl in Hh'. rewrite lookup_insert_eq in Hh'. apply (inj Some) in Hh'. subst h. rewrite cryptoScope_row, newRow_envelope by done. eauto.
    + rewrite lookup_insert_ne in Hh'; [by apply (good_recovers d G)|]. intros E.
      destruct (si_scope d (good_inv d G) id v Hv') as (h'&?&_). congruence.
  - intros id v h v' q Hv' Hh'. rewrite lookup_insert_ne by congruence. intros. by simplify_eq.
Qed.

Lemma guar_replace m c d : Good d → freshOK (mu_Version m) → Good (run_tx (replaceTx m c) d).2 ∧ persists d (run_tx (replaceTx m c) d).2.
Proof.
  intros G (p&Hi&Hp). apply keeps_tx; [done|]. intros u d' H. pose proof (replace_inv m c d u d' (good_inv d G) H) as I.
  pose proof (replace_kept m c d u d' H) as K.
  apply replaceTx_inv in H as (h0&cur&w&_&_&Hh&_&Hsc&Hw&Hs&_&_&_&Hne&Hv&_&_&_&_&_&_&->&_).
  unfold headScope in Hsc. bool_hyps. split; (split; [done|]); simpl.
  - assert (∀ id v h, sd_versions d !! id = Some v →
      <[sc_SecretID (v_Scope (mu_Version m)) := advanced (v_ID (mu_Version m)) h0]> (sd_heads d) !! vr_secret v = Some h →
      ∃ p, intended (rowScope id v h) p ∧ recovers keys (rowScope id v h) (rowEnvelope v) p) as Hold.
    { intros id v h Hv' Hh'. apply lookup_insert_Some in Hh' as [[E <-]|[_ Hh']]; [|by apply (good_recovers d G)].
      change (rowScope id v (advanced (v_ID (mu_Version m)) h0)) with (rowScope id v h0). apply (good_recovers d G); [done|by rewrite <-E]. }
    intros id v h Hv' Hh'. rewrite !lookup_insert_Some in Hv'. destruct Hv' as [[<- <-]|[_ [[<- <-]|[_ Hv']]]].
    + simpl in Hh'. rewrite lookup_insert_Some in Hh'. destruct Hh' as [[_ <-]|[? _]]; [|done]. rewrite cryptoScope_row, newRow_envelope by done. eauto.
    + exact (Hold cur w h Hw Hh').
    + by apply Hold.
  - intros id v h v' q Hv' Hh'. rewrite lookup_insert_ne by congruence. rewrite lookup_insert_Some.
    intros [[<- <-]|[_ Hv'']] Hq; by simplify_eq.
Qed.

(** A rewrapped envelope must recover what the row of its revision recovers. *)
Definition rewrapOK (scope : SecretScope) (id : string) (rev : Z) (e : Envelope) (d : SecretDB) : Prop :=
  ∀ v h, sd_versions d !! id = Some v → vr_revision v = rev → vr_secret v = sc_SecretID scope → sd_heads d !! sc_SecretID scope = Some h →
  headScope scope h = true →
  ∀ p, recovers keys (rowScope id v h) (rowEnvelope v) p →
       recovers keys (rowScope id v h) (rowEnvelope (rewrapped (env_KEKID e) (env_WrappedDEK e) v)) p.

Lemma guar_rewrap scope id rev e d : Good d → rewrapOK scope id rev e d → callKeeps (RRewrap scope id rev e) d.
Proof.
  intros G HR. apply keeps_tx; [done|]. intros u d' H. pose proof (rewrap_inv scope id rev e d u d' (good_inv d G) H) as I.
  pose proof (rewrap_kept scope id rev e d u d' H) as K. apply rewrapTx_inv in H as (h0&w&Hh&Hsc&Hw&Hs&_&Hrev&_&_&_&->).
  assert (∀ h, sd_heads d !! vr_secret w = Some h → ∀ p, recovers keys (rowScope id w h) (rowEnvelope w) p →
    recovers keys (rowScope id w h) (rowEnvelope (rewrapped (env_KEKID e) (env_WrappedDEK e) w)) p) as Hkey.
  { intros h Hh'. rewrite Hs in Hh'. assert (h = h0) as -> by congruence. by apply HR. }
  split; (split; [done|]); simpl.
  - intros i v h. rewrite lookup_insert_Some. intros [[<- <-]|[_ Hv']] Hh'; [|by apply (good_recovers d G)].
    destruct (good_recovers d G id w h Hw Hh') as (p&?&?). exists p. split; [done|]. by apply Hkey.
  - intros i v h v' p Hv' Hh'. rewrite lookup_insert_Some. intros [[<- <-]|[_ Hv'']] Hp; [|by simplify_eq].
    assert (v = w) as -> by congruence. by apply Hkey.
Qed.

(** ** The programs *)

Lemma safe_reserve {A} (Q : A → SecretDB → Prop) id k d : stable Q →
  (∀ d1 b, persists d d1 → Good d1 → safe Q (k b) d1) → safe Q (reserver id k) d.
Proof.
  intros HQ H. apply safe_Do; [done|]. intros d1 Hl Hg. pose proof (guar_reserve id d1 Hg) as [Hg2 Hl2].
  split_and!; [by split|apply H; [by etrans|done]|intros; by apply H].
Qed.

Lemma safe_Encrypt {A} (Q : A → SecretDB → Prop) ring scope p en k d : stable Q → ringOf keys ring → goodEntropy en → Good d →
  (∀ d1 r, persists d d1 → Good d1 →
    match r with inr e => env_KEKID e = ring_activeID ring ∧ recovers keys scope e p | inl _ => True end →
    safe Q (k r) d1) →
  safe Q (Encrypt reserver ring scope p en k) d.
Proof.
  intros HQ Hr He Hg H. destruct (Encrypt_cases reserver keys ring scope p en k Hr He) as [(err&->)|(f&->&(err0&Hf)&_&Ht)].
  - apply H; [reflexivity|done..].
  - apply safe_reserve; [done|]. intros d1 b Hl Hg1. apply H; [done..|]. destruct b; [|by rewrite Hf].
    destruct Ht as [[(err&->) _]|(e&->&?&?)]; done.
Qed.

Lemma safe_Rewrap {A} (Q : A → SecretDB → Prop) ring scope e nonce k d : stable Q → ringOf keys ring → String.length nonce = NonceSize →
  Good d →
  (∀ d1 r, persists d d1 → Good d1 →
    match r with
    | inr e' => env_Suite e' = env_Suite e ∧ env_AADVersion e' = env_AADVersion e ∧ env_Ciphertext e' = env_Ciphertext e ∧
        ∀ p, recovers keys scope e p → recovers keys scope e' p
    | inl _ => True
    end → safe Q (k r) d1) →
  safe Q (Rewrap reserver ring scope e nonce k) d.
Proof.
  intros HQ Hr Hn Hg H.
  destruct (Rewrap_cases reserver keys ring scope e nonce k Hr Hn) as [(err&->)|(f&e'&->&(err0&Hf)&Ht&_&_&_&_&?&?&?&?)].
  - apply H; [reflexivity|done..].
  - apply safe_reserve; [done|]. intros d1 b Hl Hg1. apply H; [done..|]. destruct b; [|by rewrite Hf]. by rewrite Ht.
Qed.

(** [p] is what version [id] of [scope] holds, now and ever after. *)
Definition holds (scope : SecretScope) (id p : string) (d : SecretDB) : Prop :=
  ∃ v h, sd_versions d !! id = Some v ∧ sd_heads d !! vr_secret v = Some h ∧
    v_Scope (rowVersion id v (sh_purpose h) (sh_delivery h)) = scope ∧ recovers keys (rowScope id v h) (rowEnvelope v) p.

Lemma holds_later scope id p d d' : persists d d' → holds scope id p d → holds scope id p d'.
Proof.
  intros [K L] (v&h&Hv&Hh&<-&Hp). destruct (sk_versions d d' K id v Hv) as (v'&Hv'&KV).
  destruct (sk_heads d d' K _ h Hh) as (h'&Hh'&KH). exists v', h'. split; [done|].
  pose proof (rowScope_kept id v v' h h' KV KH) as Es. destruct KV as [(E1&E2&E3&E4&_) _ _ _]. destruct KH as (_&_&_&E5&E6&_).
  split_and!; [by rewrite E1|unfold rowVersion; simpl; by rewrite E1, E2, E3, E4, E5, E6|]. rewrite Es. by eapply L.
Qed.

Definition createPost (scope : SecretScope) (versionID plaintext : string) (r : SErr + Metadata) (d : SecretDB) : Prop :=
  match r with
  | inr md => md_ID md = versionID ∧ md_Scope md = scope ∧ holds scope versionID plaintext d
  | inl _ => True
  end.
Lemma createPost_stable scope versionID plaintext : stable (createPost scope versionID plaintext).
Proof. intros [|md] d d' Hl _; [done|]. intros (?&?&?). split_and!; [done..|by eapply holds_later]. Qed.

Definition newScope (versionID : string) (scope : SecretScope) : CryptoScope := cryptoScope (newVersion versionID scope 0 noEnvelope).

Lemma safe_create ring scope versionID op plaintext en d : ringOf keys ring → goodEntropy en → Good d →
  (validNew scope versionID (oc_AuditID op) plaintext = true → intended (newScope versionID scope) plaintext) →
  safe (createPost scope versionID plaintext) (CreateWithContext ring scope versionID op plaintext en) d.
Proof.
  intros Hr He Hg Hi. pose proof (createPost_stable scope versionID plaintext) as HQ. unfold CreateWithContext.
  destruct (_ || _) eqn:Ev; [done|]. bool_hyps. specialize (Hi ltac:(done)).
  apply safe_Encrypt; [done..|]. intros d1 [err|e] Hl1 Hg1; [done|]. intros (_&Hp).
  apply safe_Do; [done|]. intros d2 Hl2 Hg2. split_and!; [apply guar_create; [done|by exists plaintext]| |done].
  simpl. unfold Create, run_tx. destruct (createTx _ d2) as [|[u d3]] eqn:E; simpl; [done|]. split_and!; [done..|].
  apply createTx_inv in E as (_&_&_&_&_&_&_&->&_). unfold holds. simpl.
  eexists _, _. rewrite lookup_insert_eq. split; [done|]. simpl. rewrite lookup_insert_eq. split; [done|]. simpl. split.
  - unfold rowVersion. simpl. by destruct scope.
  - unfold newRow, rowEnvelope. simpl. by destruct e.
Qed.

Lemma safe_replace c ring scope versionID op plaintext en d : ringOf keys ring → goodEntropy en → Good d →
  (validNew scope versionID (oc_AuditID op) plaintext = true → intended (newScope versionID scope) plaintext) →
  safe (createPost scope versionID plaintext) (replaceWith ring c scope versionID op plaintext en) d.
Proof.
  intros Hr He Hg Hi. pose proof (createPost_stable scope versionID plaintext) as HQ. unfold replaceWith.
  destruct (_ || _) eqn:Ev; [done|]. bool_hyps. specialize (Hi ltac:(done)).
  apply safe_Do; [done|]. intros d0 Hl0 Hg0. split_and!; [by apply keeps_refl| |done]. simpl.
  destruct (GetVersion scope "" d0) as [|old]; [done|]. case_match; [done|].
  apply safe_Encrypt; [done..|]. intros d1 [err|e] Hl1 Hg1; [done|]. intros (_&Hp).
  set (m := {| mu_Version := _; mu_Audit := _ |}).
  assert (∀ d2, Good d2 → callKeeps (if c then RReplaceCompromised m else RReplace m) d2) as Hk.
  { intros d2 Hg2. destruct c; (apply guar_replace; [done|by exists plaintext]). }
  apply safe_Do; [done|]. intros d2 Hl2 Hg2. split_and!; [by apply Hk| |done].
  assert (runCall (if c then RReplaceCompromised m else RReplace m) d2 = run_tx (replaceTx m c) d2) as -> by (by destruct c).
  unfold run_tx. destruct (replaceTx m c d2) as [|[u d3]] eqn:E; simpl; [done|]. split_and!; [done..|].
  apply replaceTx_inv in E as (h0&cur&w&_&_&Hh&_&Hsc&_&_&_&_&_&_&_&_&_&_&_&_&_&->&_). unfold headScope in Hsc. bool_hyps.
  unfold holds. simpl in *. eexists _, _. rewrite lookup_insert_eq. split; [done|]. simpl. rewrite lookup_insert_eq. split; [done|]. simpl. split.
  - unfold rowVersion. simpl. destruct scope. simpl in *. congruence.
  - unfold rowScope, newRow, rowEnvelope, cryptoScope, rowVersion in *. simpl in *. destruct e. simpl in *. congruence.
Qed.

(** A version as some row and its head make it. *)
Definition fromRow (d : SecretDB) (ver : SVersion) : Prop :=
  ∃ v h, sd_versions d !! v_ID ver = Some v ∧ sd_heads d !! vr_secret v = Some h ∧
    ver = rowVersion (v_ID ver) v (sh_purpose h) (sh_delivery h).

Lemma scanVersions_rows d rows vs :
  Forall (λ kv, sd_versions d !! kv.1 = Some kv.2 ∧ is_Some (sd_heads d !! vr_secret kv.2)) rows →
  scanVersions d rows = inr vs → Forall (fromRow d) vs.
Proof.
  intros H. revert vs. induction H as [|[id v] rows [Hv [h Hh]] _ IH]; intros vs; simpl in *; [intros [= <-]; by apply Forall_nil|].
  case_match; [done|]. destruct (scanVersions d rows) as [|ws]; [done|]. intros [= <-]. apply Forall_cons. split; [|by apply IH].
  exists v, h. rewrite Hh. done.
Qed.

Lemma keyset_rows k cursor d :
  Forall (λ kv, sd_versions d !! kv.1 = Some kv.2 ∧ is_Some (sd_heads d !! vr_secret kv.2)) (keyset k cursor d).
Proof.
  apply Forall_forall. intros [id v] Hin. unfold keyset in Hin. rewrite merge_sort_Permutation in Hin.
  apply list_elem_of_filter in Hin as [Hc Hin]. apply elem_of_map_to_list in Hin. simpl in *. bool_hyps. split; [done|].
  destruct (sd_heads d !! vr_secret v); [by eexists|done].
Qed.

Lemma ListVersionsByKEK_rows k cursor limit d vs : ListVersionsByKEK k cursor limit d = inr vs → Forall (fromRow d) vs.
Proof.
  unfold ListVersionsByKEK. case_match; [done|]. case_match; [done|]. apply scanVersions_rows, Forall_take, keyset_rows.
Qed.

Lemma rewrapOK_row d0 d ver e : SecretInv d0 → persists d0 d → fromRow d0 ver →
  env_Suite e = env_Suite (v_Envelope ver) → env_AADVersion e = env_AADVersion (v_Envelope ver) →
  env_Ciphertext e = env_Ciphertext (v_Envelope ver) →
  (∀ p, recovers keys (cryptoScope ver) (v_Envelope ver) p → recovers keys (cryptoScope ver) e p) →
  rewrapOK (v_Scope ver) (v_ID ver) (v_EnvelopeRevision ver) e d.
Proof.
  intros I [K L] (v0&h0&Hv0&Hh0&Ever) E1 E2 E3 Hp v h Hv Hrev Hs Hh Hsc p.
  destruct (sk_versions d0 d K _ v0 Hv0) as (v'&Hv'&KV). assert (v' = v) as -> by congruence. clear Hv'.
  destruct (sk_heads d0 d K _ h0 Hh0) as (h'&Hh'&KH).
  assert (vr_secret v = vr_secret v0) as Esec by (by destruct KV as [(?&_) _ _ _]).
  rewrite <-Hs, Esec, Hh' in Hh. apply (inj Some) in Hh. subst h'.
  rewrite (rowScope_kept _ v0 v h0 h KV KH).
  assert (rowScope (v_ID ver) v0 h0 = cryptoScope ver) as -> by (by rewrite Ever at 2).
  assert (vr_revision v = vr_revision v0) as Er.
  { rewrite Hrev, Ever. simpl. apply u64_small. destruct (si_version d0 I _ v0 Hv0) as (Hc&_&Hm).
    unfold secret_version_check in Hc. bool_hyps. unfold maxInt64 in Hm. lia. }
  destruct KV as [(_&_&_&_&_&F1&F2&F3) _ He _]. destruct (He Er) as [F4 F5].
  assert (rowEnvelope v = v_Envelope ver) as ->.
  { rewrite Ever. unfold rowEnvelope. simpl. unfold rowEnvelope. by rewrite F1, F2, F3, F4, F5. }
  intros Hr%Hp. assert (rowEnvelope (rewrapped (env_KEKID e) (env_WrappedDEK e) v) = e) as ->; [|done].
  unfold rowEnvelope. simpl. rewrite F1, F2, F3. rewrite Ever in E1, E2, E3. simpl in *. destruct e. simpl in *. congruence.
Qed.

Definition anything {A} : A → SecretDB → Prop := λ _ _, True.
Lemma anything_stable {A} : stable (@anything A).
Proof. done. Qed.

Lemma safe_rewrapLoop ring request d0 : ringOf keys ring → SecretInv d0 → ∀ versions, Forall (fromRow d0) versions → ∀ nonces result d,
  (∀ i, String.length (nonces i) = NonceSize) → persists d0 d → Good d →
  safe anything (rewrapLoop ring request versions nonces result) d.
Proof.
  intros Hr I versions Hvs. induction Hvs as [|ver versions Hver _ IH]; intros nonces result d Hn Hl Hg; simpl; [done|].
  case_match; [done|]. case_match; [by apply IH|].
  apply safe_Rewrap; [apply anything_stable|done|done|done|]. intros d1 [err|e] Hl1 Hg1; [done|]. intros (E1&E2&E3&Hp).
  apply safe_Do; [apply anything_stable|]. intros d2 Hl2 Hg2.
  assert (callKeeps (RRewrap (v_Scope ver) (v_ID ver) (v_EnvelopeRevision ver) e) d2) as Hk.
  { apply guar_rewrap; [done|]. eapply rewrapOK_row; [done| |done..]. etrans; [done|]. by etrans. }
  split_and!; [done| |done]. destruct Hk as [Hg3 Hl3]. destruct (runCall _ d2) as [[err|u] d3]; simpl in *; [done|].
  apply IH; [done| |done]. etrans; [done|]. etrans; [done|]. by etrans.
Qed.

Lemma safe_RewrapBatch ring request nonces d : ringOf keys ring → (∀ i, String.length (nonces i) = NonceSize) → Good d →
  safe anything (RewrapBatch ring request nonces) d.
Proof.
  intros Hr Hn Hg. unfold RewrapBatch. cbv zeta. do 3 (match goal with |- safe _ (if ?b then Done _ else _) _ => destruct b; [done|] end).
  apply safe_Do; [apply anything_stable|]. intros d1 Hl1 Hg1. split_and!; [by apply keeps_refl| |done]. simpl.
  destruct (ListVersionsByKEK _ _ _ d1) as [|vs] eqn:E; [done|].
  apply (safe_rewrapLoop ring request d1); [done|apply Hg1|by eapply ListVersionsByKEK_rows|done|reflexivity|done].
Qed.

(** ** Materialization *)

(** The success is in the audit trail before the value is handed out. *)
Definition revokedIn (id : string) (d : SecretDB) : Prop := ∃ v, sd_versions d !! id = Some v ∧ vr_state v = VersionRevoked.
Lemma revokedIn_later id d d' : persists d d' → revokedIn id d → revokedIn id d'.
Proof.
  intros [K _] (v&Hv&Hs). destruct (sk_versions d d' K id v Hv) as (v'&Hv'&[_ _ _ Hr]). exists v'. split; [done|].
  rewrite Hs in Hr. by destruct (vr_state v').
Qed.

Definition materializePost (d0 : SecretDB) (authorizer : AuthorizationRequest → bool) (request : AuthorizationRequest) (auditID : string)
    (r : SErr + string) (d : SecretDB) : Prop :=
  match r with
  | inl _ => True
  | inr p => authorizer request = true ∧ ¬ revokedIn (ar_VersionID request) d0 ∧ holds (ar_Scope request) (ar_VersionID request) p d ∧
      ∃ a, sd_audit d !! auditID = Some a ∧ xr_version a = ar_VersionID request ∧ xr_secret a = sc_SecretID (ar_Scope request) ∧
        xr_action a = "materialized" ∧ xr_result a = "success" ∧ xr_actor a = ar_ActorID request ∧ xr_service a = ar_ServiceID request ∧
        xr_deployment a = ar_DeploymentID request ∧ xr_lease a = ar_LeaseID request
  end.
Lemma materializePost_stable d0 authorizer request auditID : stable (materializePost d0 authorizer request auditID).
Proof.
  intros [|p] d d' Hl _; [done|]. intros (?&?&?&a&Ha&?). split_and!; [done|done|by eapply holds_later|]. exists a. split; [|done].
  by eapply lookup_weaken, (sk_audit d d'), Hl.
Qed.

Lemma GetVersion_inv scope id d ver : SecretInv d → GetVersion scope id d = inr ver → id ≠ "" →
  ∃ v h, v_ID ver = id ∧ sd_versions d !! id = Some v ∧ sd_heads d !! vr_secret v = Some h ∧
    ver = rowVersion id v (sh_purpose h) (sh_delivery h) ∧ v_Scope ver = scope ∧ vr_state v = v_State ver.
Proof.
  intros I. unfold GetVersion. case_match; [done|]. destruct (sd_heads d !! sc_SecretID scope) as [h|] eqn:Eh; [|done]. cbn.
  destruct (headScope scope h) eqn:Esc; [|done]. cbn. intros H' Hid. rewrite bool_decide_eq_false_2 in H' by done. cbn in H'.
  destruct (sd_versions d !! id) as [v|] eqn:Ev; [|done]. cbn in H'. case_bool_decide as Es; [|done].
  destruct (_ || _) eqn:E in H'; [done|]. bool_hyps. injection H' as <-. exists v, h. unfold headScope in Esc. bool_hyps. simpl in *.
  split_and!; [done|done|by rewrite Es|congruence|done|done].
Qed.

Lemma runCall_append a d u d' : AppendMaterializationAudit a d = (inr u, d') → ∃ h, sd_heads d !! x_SecretID a = Some h ∧
  d' = sd_with_audit (<[x_ID a := auditRow a h]> (sd_audit d)) d.
Proof.
  unfold AppendMaterializationAudit, run_tx. destruct (appendMaterializationAuditTx a d) as [|[u' d1]] eqn:E; [done|].
  intros [= _ <-]. unfold appendMaterializationAuditTx in E. tx_inv. apply insertSecretAudit_inv in E as (h&w&?&_&_&_&_&_&->&_). by exists h.
Qed.

Lemma safe_materialize ring authorizer request auditID d : ringOf keys ring → Good d →
  safe (materializePost d authorizer request auditID) (MaterializeAuthorized ring authorizer request auditID) d.
Proof.
  intros Hr Hg. pose proof (materializePost_stable d authorizer request auditID) as HQ. unfold MaterializeAuthorized.
  case_match; [done|]. destruct (authorizer request) eqn:Eauth; simpl negb; cbv iota.
  2: { apply safe_Do; [done|]. intros d1 Hl1 Hg1. split_and!; [by apply keeps_refl| |done]. simpl.
       destruct (GetVersion _ _ d1) as [|ver]; [done|]. case_match; [|done].
       apply safe_Do; [done|]. intros d2 Hl2 Hg2. split_and!; [by apply guar_append|done|done]. }
  apply safe_Do; [done|]. intros d1 Hl1 Hg1. split_and!; [by apply keeps_refl| |done]. simpl.
  destruct (GetVersion _ _ d1) as [|ver] eqn:EG; [done|]. destruct (versionRequested request ver) eqn:EV; simpl; [|done].
  case_match; [done|]. bool_hyps.
  apply GetVersion_inv in EG as (v&h&Eid&Hv&Hh&Ever&Escope&Est); [|apply Hg1|intros E; rewrite E in *; done].
  assert (cryptoScope ver = rowScope (ar_VersionID request) v h) as Ecs by (by rewrite Ever).
  destruct (good_recovers d1 Hg1 _ v h Hv Hh) as (q&_&Hq). assert (v_Envelope ver = rowEnvelope v) as Eenv by (by rewrite Ever).
  rewrite Ecs, Eenv. destruct (Decrypt ring _ _) as [err|p] eqn:ED.
  { apply safe_Do; [done|]. intros d2 Hl2 Hg2. split_and!; [by apply guar_append|done|done]. }
  apply (Decrypt_sound keys ring _ _ q p Hr) in ED as ->; [|done].
  apply safe_Do; [done|]. intros d2 Hl2 Hg2. split_and!; [by apply guar_append| |done]. simpl.
  destruct (AppendMaterializationAudit _ d2) as [[err|u] d3] eqn:EA; [done|]. simpl.
  assert (persists d2 d3) as Hl3 by (change d3 with ((inr u : SErr + unit, d3).2); rewrite <-EA; by apply guar_append).
  split_and!; [done|..].
  - intros Hrev%(revokedIn_later _ d d1); [|done]. destruct Hrev as (v2&Hv2&Hs2). assert (v2 = v) as -> by congruence.
    rewrite <-Est, Hs2 in *. by destruct (ar_Frozen request).
  - apply (holds_later _ _ _ d1); [by etrans|]. exists v, h. split_and!; [done..| |done]. by rewrite <-Ever.
  - apply runCall_append in EA as (h2&_&->). eexists. simpl. rewrite lookup_insert_eq. split; [done|]. unfold versionRequested in EV. bool_hyps. done.
Qed.

Definition frozenPost (d0 : SecretDB) (serverID : string) (a : MaterializationAuthorization) (refs : list FrozenSecretReference)
    (r : MaterializeReply) (d : SecretDB) : Prop :=
  match r with
  | ReplySecrets values =>
      Forall2 (λ ref value, mv_VariableName value = fr_VariableName ref ∧ mv_DeliveryScope value = fr_DeliveryScope ref ∧
        ¬ revokedIn (fr_SecretVersionID ref) d0 ∧ holds (referenceScope a ref) (fr_SecretVersionID ref) (mv_Value value) d ∧
        ∃ i x, sd_audit d !! i = Some x ∧ xr_version x = fr_SecretVersionID ref ∧ xr_action x = "materialized" ∧
          xr_result x = "success" ∧ xr_service x = serverID ∧ xr_deployment x = ma_DeploymentID a ∧ xr_lease x = leaseIdentifier a)
        refs values
  | _ => True
  end.
Lemma frozenPost_stable d0 serverID a refs : stable (frozenPost d0 serverID a refs).
Proof.
  intros [values| |] d d' Hl _; [|done..]. intros H. eapply Forall2_impl; [exact H|].
  intros ref value (?&?&?&?&i&x&Hx&?). split_and!; [done..|by eapply holds_later|]. exists i, x. split; [|done].
  by eapply lookup_weaken, (sk_audit d d'), Hl.
Qed.

Lemma safe_materializeLoop d0 ring serverID a refs2 : ringOf keys ring → ∀ refs1 raws values d, persists d0 d → Good d →
  frozenPost d0 serverID a refs1 (ReplySecrets values) d →
  safe (frozenPost d0 serverID a (refs1 ++ refs2)) (materializeLoop ring serverID a (frozenKeys a) refs2 raws values) d.
Proof.
  intros Hr. induction refs2 as [|ref refs IH]; intros refs1 raws values d Hl Hg H; cbn [materializeLoop]; [by rewrite app_nil_r|].
  case_match; [|done]. eapply safe_bindProg; [done|by apply safe_materialize|]. intros [err|p] d1 Hl1 Hg1; [done|].
  intros (_&Hrev&Hp&i&x). rewrite cons_middle, (assoc (++)). apply IH; [by etrans|done|].
  apply Forall2_app; [by apply (frozenPost_stable d0 serverID a refs1 (ReplySecrets values) d)|].
  apply Forall2_cons. split; [|done]. simpl in *. split_and!; [done|done| |done|naive_solver].
  intros H1. apply Hrev. by eapply revokedIn_later.
Qed.

Lemma safe_materializeFrozen ring serverID a raws d : ringOf keys ring → Good d →
  safe (frozenPost d serverID a (ma_Secrets a)) (materializeFrozen ring serverID a raws) d.
Proof.
  intros Hr Hg. apply (safe_materializeLoop d ring serverID a (ma_Secrets a) Hr []); [reflexivity|done|]. by apply Forall2_nil.
Qed.

(** ** Operations and pools *)

Definition opOK (o : SecretOp) : Prop :=
  match o with
  | OpCreate ring scope id op p en | OpReplace _ ring scope id op p en =>
      ringOf keys ring ∧ goodEntropy en ∧ (validNew scope id (oc_AuditID op) p = true → intended (newScope id scope) p)
  | OpMaterialize ring _ _ _ | OpMaterializeFrozen ring _ _ _ => ringOf keys ring
  | OpRewrapBatch ring _ nonces => ringOf keys ring ∧ ∀ i, String.length (nonces i) = NonceSize
  | OpCanRetire _ _ | OpInitialize _ _ => True
  end.

Definition postOf (o : SecretOp) (d0 : SecretDB) (r : Outcome) (d : SecretDB) : Prop :=
  match o, r with
  | (OpCreate _ scope id _ p _ | OpReplace _ _ scope id _ p _), OutMetadata r => createPost scope id p r d
  | OpMaterialize _ authorizer request auditID, OutPlaintext r => materializePost d0 authorizer request auditID r d
  | OpMaterializeFrozen _ serverID a _, OutReply r => frozenPost d0 serverID a (ma_Secrets a) r d
  | OpRewrapBatch _ _ _, OutRewrap _ | OpCanRetire _ _, OutRetire _ | OpInitialize _ _, OutUnit _ => True
  | _, _ => False
  end.
Lemma postOf_stable o d0 : stable (postOf o d0).
Proof.
  intros r d d' Hl Hg. destruct o, r; try done; simpl.
  - by apply createPost_stable.
  - by apply createPost_stable.
  - by apply materializePost_stable.
  - by apply frozenPost_stable.
Qed.

Lemma safe_op o d : opOK o → Good d → safe (postOf o d) (progOf o) d.
Proof.
  intros Ho Hg. destruct o; cbn [opOK progOf] in *.
  - destruct Ho as (?&?&?). by apply safe_mapProg, safe_create.
  - destruct Ho as (?&?&?). by apply safe_mapProg, safe_replace.
  - by apply safe_mapProg, safe_materialize.
  - by apply safe_mapProg, safe_materializeFrozen.
  - destruct Ho as (?&?). apply safe_mapProg. eapply safe_mono; [|by apply safe_RewrapBatch]. done.
  - apply safe_mapProg. unfold CanRetire. repeat (case_match; [done|]). case_match; [|done]. destruct p. repeat (case_match; [done|]).
    apply safe_Do; [by intros ?|]. intros d1 _ Hg1. split_and!; [by apply keeps_refl| |done]. simpl. by case_match.
  - apply safe_Do; [by intros ?|]. intros d1 _ Hg1. split_and!; [by apply guar_initialize|done|done].
Qed.

Lemma poolStep_safe (Qs : list (Outcome → SecretDB → Prop)) w s : Forall stable Qs → Good w.1 →
  Forall2 (λ Q p, safe Q p w.1) Qs w.2 →
  Good (poolStep w s).1 ∧ persists w.1 (poolStep w s).1 ∧ Forall2 (λ Q p, safe Q p (poolStep w s).1) Qs (poolStep w s).2.
Proof.
  intros HQs Hg H. destruct w as [d pool], s as [i f]. unfold poolStep. simpl in *.
  destruct (pool !! i) as [[a|T c k]|] eqn:Ei; [by split_and!..| |by split_and!].
  destruct (Forall2_lookup_r _ _ _ _ _ H Ei) as (Q&HQ&Hs). pose proof (Hs d (reflexivity d) Hg f) as Hs'.
  destruct (callStep f c d) as [r d2]. destruct Hs' as (Hg2&Hl2&Hs2). simpl. split_and!; [done..|].
  apply Forall2_same_length_lookup. rewrite length_insert. apply Forall2_same_length_lookup in H as [Hlen H].
  split; [done|]. intros j Q' p HQ' Hp. apply list_lookup_insert_Some in Hp as [(<-&<-&_)|[Hne Hp]].
  - by assert (Q' = Q) as -> by congruence.
  - eapply safe_later; [|done..|by eapply H]. by eapply Forall_lookup_1.
Qed.

Lemma runSchedule_safe Qs schedule : ∀ w, Forall stable Qs → Good w.1 → Forall2 (λ Q p, safe Q p w.1) Qs w.2 →
  let w' := runSchedule schedule w in Good w'.1 ∧ persists w.1 w'.1 ∧ Forall2 (λ Q p, safe Q p w'.1) Qs w'.2.
Proof.
  induction schedule as [|s schedule IH]; intros w HQs Hg H; simpl; [by split_and!|].
  destruct (poolStep_safe Qs w s HQs Hg H) as (Hg1&Hl1&H1). destruct (IH _ HQs Hg1 H1) as (?&?&?). split_and!; [done|by etrans|done].
Qed.

Lemma pool_safe ops schedule d : Forall opOK ops → Good d →
  let w := runSchedule schedule (d, progOf <$> ops) in
  Good w.1 ∧ persists d w.1 ∧ Forall2 (λ o p, safe (postOf o d) p w.1) ops w.2.
Proof.
  intros Hops Hg. destruct (runSchedule_safe ((λ o, postOf o d) <$> ops) schedule (d, progOf <$> ops)) as (?&?&H).
  - apply Forall_fmap, Forall_true. intros o. apply postOf_stable.
  - done.
  - apply Forall2_fmap_2. apply Forall_Forall2_diag. eapply Forall_impl; [exact Hops|]. intros o Ho. by apply safe_op.
  - simpl. split_and!; [done..|]. by apply Forall2_fmap_l in H.
Qed.
End rely.
