(* ===== verification/SecretProps.v ===== *)
(** * Properties of the secret store and service *)
From S2P Require Import Prelude GoStd Route Schema Aes Crypto Secrets SecretInv SecretService SecretPool.
#[local] Open Scope Z_scope.

(** ** Any sequence of repository calls *)

Definition AnyCall : Type := {T : Set & RepoCall T}.
Definition anyCall {T : Set} (c : RepoCall T) : AnyCall := existT T c.
Definition runAny (d : SecretDB) (c : AnyCall) : SecretDB := (runCall (projT2 c) d).2.

Lemma run_tx_keeps {S E A} (P : S → Prop) (m : Tx S E A) d : P d → (∀ a d', m d = inr (a, d') → P d') → P (run_tx m d).2.
Proof. intros HP H. unfold run_tx. destruct (m d) as [|[a d']]; simpl; eauto. Qed.

Lemma runCall_inv {T} (c : RepoCall T) d : SecretInv d → SecretInv (runCall c d).2.
Proof.
  intros I. destruct c; simpl; try done; try (apply (run_tx_keeps SecretInv); [done|intros u d' H]).
  - by apply reserve_inv.
  - by eapply create_inv.
  - by eapply replace_inv.
  - by eapply replace_inv.
  - by eapply rewrap_inv.
  - by eapply append_inv.
  - by eapply initialize_inv.
Qed.

Lemma runCall_kept {T} (c : RepoCall T) d : secretsKept d (runCall c d).2.
Proof.
  destruct c; simpl; try done; try (apply (run_tx_keeps (secretsKept d)); [done|intros u d' H]).
  - apply reserve_kept.
  - by eapply create_kept.
  - by eapply replace_kept.
  - by eapply replace_kept.
  - by eapply rewrap_kept.
  - unfold appendMaterializationAuditTx in H. tx_inv. by eapply insertSecretAudit_kept.
  - by eapply initialize_kept.
Qed.

(** C11: The secret store's invariant. Whatever repository calls are made, with whatever arguments, in whatever order:
    every secret has exactly one active version, its head names it and counts it; versions are numbered 1 to the
    head's revision without a gap or a repetition and share the head's scope; every version's creation is in the audit
    trail, naming the version it replaced and whether that one was compromised; every column check of the heads, the
    versions, the audit events and the wrap-invocation ledger holds. And no row, audit event or reservation count of an
    earlier state is ever lost, changed in its immutable columns, or taken back. *)
Theorem secret_store_invariant (generation : string) (calls more : list AnyCall) :
  let d := foldl runAny (freshSecrets generation) calls in
  SecretInv d ∧ secretsKept d (foldl runAny d more).
Proof.
  assert (∀ cs d, SecretInv d → SecretInv (foldl runAny d cs)) as HI.
  { induction cs as [|c cs IH]; intros d I; [done|]. simpl. apply IH, (runCall_inv (projT2 c)), I. }
  assert (∀ cs d, secretsKept d (foldl runAny d cs)) as HK.
  { induction cs as [|c cs IH]; intros d; [done|]. simpl. etrans; [apply (runCall_kept (projT2 c))|apply IH]. }
  split; [apply HI, fresh_inv|apply HK].
Qed.

(** ** The invocation ledger *)

Definition granted (k : string) (d : SecretDB) (c : AnyCall) : bool :=
  match projT2 c with
  | RReserveWrapInvocation kek => bool_decide (kek = k) && match (ReserveWrapInvocation kek d).1 with inr _ => true | inl _ => false end
  | _ => false
  end.
Fixpoint grants (k : string) (d : SecretDB) (calls : list AnyCall) : Z :=
  match calls with [] => 0 | c :: calls => (if granted k d c then 1 else 0) + grants k (runAny d c) calls end.
Definition reservedOf (k : string) (d : SecretDB) : Z := default 0 (lr_reserved <$> sd_ledger d !! k).

Lemma reserved_same k d d' : sd_ledger d' = sd_ledger d → reservedOf k d' = reservedOf k d.
Proof. unfold reservedOf. by intros ->. Qed.

Lemma reserved_call k d c : reservedOf k (runAny d c) = reservedOf k d + if granted k d c then 1 else 0.
Proof.
  destruct c as [T c]. unfold runAny, granted. simpl.
  assert (∀ m : Tx SecretDB SErr unit, (∀ u d', m d = inr (u, d') → sd_ledger d' = sd_ledger d) → reservedOf k (run_tx m d).2 = reservedOf k d + 0) as Htx.
  { intros m H. unfold run_tx. destruct (m d) as [|[u d']] eqn:E; simpl; [lia|]. rewrite (reserved_same k d d'); [lia|by eapply H]. }
  destruct c; simpl; try lia.
  - unfold ReserveWrapInvocation. destruct (negb (validKEKID kekID)); [simpl; rewrite andb_false_r; lia|].
    destruct (sd_ledger d !! kekID) as [r|] eqn:Er; [|simpl; rewrite andb_false_r; lia].
    destruct (_ && _); simpl; [|rewrite andb_false_r; lia]. rewrite andb_true_r. unfold reservedOf. simpl. case_bool_decide as E.
    + subst kekID. rewrite lookup_insert_eq, Er. done.
    + rewrite lookup_insert_ne by done. lia.
  - apply Htx; intros ? ?. by intros (_&_&_&_&_&_&_&->&_)%createTx_inv.
  - apply Htx; intros ? ?. by intros (h&c&w&_&_&_&_&_&_&_&_&_&_&_&_&_&_&_&_&_&_&->&_)%replaceTx_inv.
  - apply Htx; intros ? ?. by intros (h&c&w&_&_&_&_&_&_&_&_&_&_&_&_&_&_&_&_&_&_&->&_)%replaceTx_inv.
  - apply Htx; intros ? ?. by intros (h&w&_&_&_&_&_&_&_&_&_&->)%rewrapTx_inv.
  - apply Htx; intros ? ?. unfold appendMaterializationAuditTx. intros H. tx_inv. by apply insertSecretAudit_inv in H as (?&?&_&_&_&_&_&_&->&_).
  - unfold InitializeActiveLedger, run_tx. destruct (initializeActiveLedgerTx _ _ d) as [|[? ?]] eqn:E; simpl; [lia|].
    apply initializeActiveLedgerTx_inv in E as (_&_&_&Hk&->&_). unfold reservedOf. simpl. destruct (decide (k = kekID)) as [->|].
    + rewrite lookup_insert_eq, Hk. done.
    + rewrite lookup_insert_ne by done. lia.
Qed.

(** The wrap-invocation budget. In any sequence of calls on a fresh database the reservations granted for a key are
    exactly what its ledger row counts, so that at most 2^31 - 1 data keys are ever wrapped under one key with a random
    nonce, whatever failed or was retried in between: a reservation is never handed back and a ledger never reset. *)
Theorem wrap_invocation_budget (generation k : string) (calls : list AnyCall) :
  let d := foldl runAny (freshSecrets generation) calls in
  grants k (freshSecrets generation) calls = reservedOf k d ∧ 0 ≤ reservedOf k d ≤ 2 ^ 31 - 1.
Proof.
  assert (∀ cs d, reservedOf k (foldl runAny d cs) = reservedOf k d + grants k d cs) as HG.
  { induction cs as [|c cs IH]; intros d; simpl; [lia|]. rewrite IH, reserved_call. lia. }
  assert (∀ cs d, SecretInv d → SecretInv (foldl runAny d cs)) as HI.
  { induction cs as [|c cs IH]; intros d I; [done|]. simpl. apply IH, (runCall_inv (projT2 c)), I. }
  simpl. rewrite HG. split; [done|]. rewrite <-HG. pose proof (HI calls _ (fresh_inv generation)) as I. unfold reservedOf.
  destruct (sd_ledger _ !! k) as [r|] eqn:Er; simpl; [|lia]. exact (si_ledger _ I k r Er).
Qed.

(** ** Concurrent operations

    Every operation brings its own key ring, whose keys agree with [keys],
    the key material ever deployed under each identifier, and well-sized
    random bytes. *)

Definition requested (ops : list SecretOp) (scope : CryptoScope) (p : string) : Prop :=
  ∃ o, o ∈ ops ∧ match o with
                 | OpCreate _ s id op q _ | OpReplace _ _ s id op q _ =>
                     validNew s id (oc_AuditID op) q = true ∧ newScope id s = scope ∧ q = p
                 | _ => False
                 end.

Definition deployed (keys : gmap string string) (o : SecretOp) : Prop :=
  match o with
  | OpCreate ring _ _ _ _ en | OpReplace _ ring _ _ _ _ en => ringOf keys ring ∧ goodEntropy en
  | OpMaterialize ring _ _ _ | OpMaterializeFrozen ring _ _ _ => ringOf keys ring
  | OpRewrapBatch ring _ nonces => ringOf keys ring ∧ ∀ i, String.length (nonces i) = NonceSize
  | OpCanRetire _ _ | OpInitialize _ _ => True
  end.

Lemma deployed_opOK keys ops : Forall (deployed keys) ops → Forall (opOK keys (requested ops)) ops.
Proof.
  rewrite !Forall_forall. intros H o Ho. specialize (H o Ho).
  destruct o; simpl in *; try exact H; destruct H as [H1 H2]; split_and!; try done; eexists; (split; [exact Ho|done]).
Qed.

Lemma fresh_good keys intended g : Good keys intended (freshSecrets g).
Proof. split; [apply fresh_inv|done]. Qed.

(** The pool of [ops] after a schedule on a freshly migrated database. *)
Definition after (generation : string) (ops : list SecretOp) (schedule : list (nat * Fault)) : World :=
  runSchedule schedule (freshSecrets generation, progOf <$> ops).

Lemma after_safe keys g ops schedule : Forall (deployed keys) ops →
  let w := after g ops schedule in
  Good keys (requested ops) w.1 ∧ Forall2 (λ o p, safe keys (requested ops) (postOf keys o (freshSecrets g)) p w.1) ops w.2.
Proof. intros H%deployed_opOK. destruct (pool_safe keys _ ops schedule _ H (fresh_good keys _ g)) as (?&_&?). done. Qed.

Lemma after_post keys g ops schedule i o r : Forall (deployed keys) ops → ops !! i = Some o →
  (after g ops schedule).2 !! i = Some (Done r) → postOf keys o (freshSecrets g) r (after g ops schedule).1.
Proof.
  intros H Ho Hi. destruct (after_safe keys g ops schedule H) as [_ HF].
  exact (Forall2_lookup_lr _ _ _ _ _ _ HF Ho Hi).
Qed.

(** What an operation not yet started ensures, relative to the store it will start on. *)
Lemma started_safe keys generation ops before rest i o : Forall (deployed keys) ops → ops !! i = Some o →
  (after generation ops before).2 !! i = Some (progOf o) →
  let w := runSchedule rest (after generation ops before) in
  Good keys (requested ops) w.1 ∧ persists keys (after generation ops before).1 w.1 ∧
  ∀ r, w.2 !! i = Some (Done r) → postOf keys o (after generation ops before).1 r w.1.
Proof.
  intros H Ho Hi. destruct (after_safe keys generation ops before H) as [G HF]. set (w0 := after generation ops before) in *.
  pose proof (deployed_opOK keys ops H) as HO.
  set (Qs := <[i := postOf keys o w0.1]> ((λ o, postOf keys o (freshSecrets generation)) <$> ops)).
  destruct (runSchedule_safe keys (requested ops) Qs rest w0) as (G1&L1&H1).
  - apply Forall_insert; [|apply postOf_stable]. apply Forall_fmap, Forall_true. intros. apply postOf_stable.
  - done.
  - rewrite <-(list_insert_id w0.2 i (progOf o)) by done. apply Forall2_insert; [by apply Forall2_fmap_l|]. apply safe_op; [|done]. by eapply Forall_lookup_1.
  - simpl. split_and!; [done..|]. intros r Hr. assert (Qs !! i = Some (postOf keys o w0.1)) as HQ.
    { apply list_lookup_insert_eq. rewrite length_fmap. by eapply lookup_lt_Some. }
    exact (Forall2_lookup_lr _ _ _ _ _ _ H1 HQ Hr).
Qed.

(** C9: Stored secrets stay recoverable. However the requests of any number of clients interleave (creations,
    replacements, rotations to other keys, materializations), and whichever of their repository calls are lost with or
    without effect: every version row in the database decrypts, with any key ring that holds the key it names, to a
    plaintext some request submitted for exactly that version and scope. *)
Theorem secrets_stay_recoverable (keys : gmap string string) (generation : string) (ops : list SecretOp)
    (schedule : list (nat * Fault)) (id : string) (v : SecretVersionRow) :
  Forall (deployed keys) ops →
  sd_versions (after generation ops schedule).1 !! id = Some v →
  ∃ h p, sd_heads (after generation ops schedule).1 !! vr_secret v = Some h ∧ requested ops (rowScope id v h) p ∧
    ∀ ring, ringOf keys ring → is_Some (Resolve ring (vr_kek v)) → Decrypt ring (rowScope id v h) (rowEnvelope v) = inr p.
Proof.
  intros H Hv. destruct (after_safe keys generation ops schedule H) as [G _].
  destruct (si_scope _ (good_inv _ _ _ G) id v Hv) as (h&Hh&_). destruct (good_recovers _ _ _ G id v h Hv Hh) as (p&?&?).
  exists h, p. split_and!; [done..|]. intros ring Hr Hk. by eapply Decrypt_recovers.
Qed.

(** Acknowledged secrets are durable. Once a creation or replacement has answered with success, the submitted
    plaintext is what its version holds at every later moment of every schedule: whatever is replaced, revoked or
    rewrapped afterwards, the row is still there under its scope and decrypts to that plaintext. *)
Theorem acknowledged_secret_durable (keys : gmap string string) (generation : string) (ops : list SecretOp)
    (schedule : list (nat * Fault)) (i : nat) (o : SecretOp) (md : Metadata) :
  Forall (deployed keys) ops → ops !! i = Some o →
  (after generation ops schedule).2 !! i = Some (Done (OutMetadata (inr md))) →
  ∃ v h, sd_versions (after generation ops schedule).1 !! md_ID md = Some v ∧
    sd_heads (after generation ops schedule).1 !! vr_secret v = Some h ∧
    match o with
    | OpCreate _ scope id _ p _ | OpReplace _ _ scope id _ p _ =>
        md_ID md = id ∧ v_Scope (rowVersion id v (sh_purpose h) (sh_delivery h)) = scope ∧
        ∀ ring, ringOf keys ring → is_Some (Resolve ring (vr_kek v)) → Decrypt ring (rowScope id v h) (rowEnvelope v) = inr p
    | _ => False
    end.
Proof.
  intros H Ho Hi. pose proof (after_post keys generation ops schedule i o _ H Ho Hi) as HP.
  assert (∀ scope id p d, createPost keys scope id p (inr md) d → ∃ v h, sd_versions d !! md_ID md = Some v ∧
    sd_heads d !! vr_secret v = Some h ∧ md_ID md = id ∧ v_Scope (rowVersion id v (sh_purpose h) (sh_delivery h)) = scope ∧
    ∀ ring, ringOf keys ring → is_Some (Resolve ring (vr_kek v)) → Decrypt ring (rowScope id v h) (rowEnvelope v) = inr p) as Hpost.
  { intros scope id p d (<-&_&v&h&Hv&Hh&Hs&Hp). exists v, h. split_and!; [done..|]. intros ring Hr Hk. by eapply Decrypt_recovers. }
  destruct o; try done; by apply Hpost in HP.
Qed.

(** C10: What materialization hands out. Under every interleaving and any faults, a value returned for a request was
    admitted by the request's authorizer, is what the requested version of exactly the requested scope holds, and its
    success, with the requester's identity and the lease, is already in the audit trail. The agent's handler returns
    all values of the frozen set, each under its own variable name, or none. *)
Theorem materialization_exact (keys : gmap string string) (generation : string) (ops : list SecretOp)
    (schedule : list (nat * Fault)) (i : nat) :
  Forall (deployed keys) ops →
  let w := after generation ops schedule in
  (∀ ring authorizer request auditID p, ops !! i = Some (OpMaterialize ring authorizer request auditID) →
    w.2 !! i = Some (Done (OutPlaintext (inr p))) →
    authorizer request = true ∧ holds keys (ar_Scope request) (ar_VersionID request) p w.1 ∧
    ∃ a, sd_audit w.1 !! auditID = Some a ∧ xr_version a = ar_VersionID request ∧ xr_action a = "materialized" ∧
      xr_result a = "success" ∧ xr_actor a = ar_ActorID request ∧ xr_service a = ar_ServiceID request ∧
      xr_deployment a = ar_DeploymentID request ∧ xr_lease a = ar_LeaseID request) ∧
  (∀ ring serverID a raws values, ops !! i = Some (OpMaterializeFrozen ring serverID a raws) →
    w.2 !! i = Some (Done (OutReply (ReplySecrets values))) →
    Forall2 (λ ref value, mv_VariableName value = fr_VariableName ref ∧ mv_DeliveryScope value = fr_DeliveryScope ref ∧
      holds keys (referenceScope a ref) (fr_SecretVersionID ref) (mv_Value value) w.1 ∧
      ∃ j x, sd_audit w.1 !! j = Some x ∧ xr_version x = fr_SecretVersionID ref ∧ xr_action x = "materialized" ∧
        xr_result x = "success" ∧ xr_service x = serverID ∧ xr_deployment x = ma_DeploymentID a ∧ xr_lease x = leaseIdentifier a)
      (ma_Secrets a) values).
Proof.
  intros H. split.
  - intros ring authorizer request auditID p Ho Hi. destruct (after_post keys generation ops schedule i _ _ H Ho Hi) as (?&_&?&a&?).
    split_and!; [done..|]. exists a. naive_solver.
  - intros ring serverID a raws values Ho Hi. pose proof (after_post keys generation ops schedule i _ _ H Ho Hi) as HP.
    eapply Forall2_impl; [exact HP|]. intros ref value (?&?&_&?&?). done.
Qed.

(** Revocation is final. Once a version is revoked, no materialization that starts afterwards returns it, frozen
    or not, whatever runs beside it; and a revoked version stays revoked. *)
Theorem revoked_never_materialized (keys : gmap string string) (generation : string) (ops : list SecretOp)
    (before rest : list (nat * Fault)) (id : string) (i : nat) (o : SecretOp) :
  Forall (deployed keys) ops →
  revokedIn id (after generation ops before).1 →
  ops !! i = Some o → (after generation ops before).2 !! i = Some (progOf o) →
  let w := runSchedule rest (after generation ops before) in
  revokedIn id w.1 ∧
  (∀ ring authorizer request auditID p, o = OpMaterialize ring authorizer request auditID → ar_VersionID request = id →
    w.2 !! i ≠ Some (Done (OutPlaintext (inr p)))) ∧
  (∀ ring serverID a raws values, o = OpMaterializeFrozen ring serverID a raws → id ∈ fr_SecretVersionID <$> ma_Secrets a →
    w.2 !! i ≠ Some (Done (OutReply (ReplySecrets values)))).
Proof.
  intros H Hrev Ho Hi. destruct (started_safe keys generation ops before rest i o H Ho Hi) as (_&L1&HP). simpl.
  split_and!; [by eapply revokedIn_later|..].
  - intros ring authorizer request auditID p -> Hid Hr%HP. destruct Hr as (_&Hn&_). apply Hn. by rewrite Hid.
  - intros ring serverID a raws values -> Hin Hr%HP. apply list_elem_of_fmap in Hin as (ref&->&Hin).
    apply list_elem_of_lookup in Hin as [j Hj]. simpl in Hr. destruct (Forall2_lookup_l _ _ _ _ _ Hr Hj) as (value&_&_&_&Hn&_). done.
Qed.

(** ** A concrete pool

    Two keys; a secret is created and replaced under the first while a
    rotation to the second is under way, a frozen set naming the superseded
    version is materialized, and the second version is replaced as
    compromised. *)

Definition demoGeneration : string := "generation-00001".
Definition demoKeys : gmap string string :=
  <["k1" := Sha256.string_of_bytes (replicate 32 1)]> {["k2" := Sha256.string_of_bytes (replicate 32 2)]}.
Definition demoRing (active : string) : KeyRing := {| ring_activeID := active; ring_keys := demoKeys |}.
Definition demoScope : SecretScope :=
  {| sc_OwnerID := "owner"; sc_ProjectID := "project"; sc_EnvironmentID := "env"; sc_SecretID := "secret";
     sc_Purpose := "runtime"; sc_DeliveryScope := "runtime" |}.
Definition demoContext (auditID : string) : OperationContext :=
  {| oc_AuditID := auditID; oc_ActorID := "admin"; oc_ServiceID := ""; oc_DeploymentID := ""; oc_LeaseID := "" |}.
Definition demoEntropy (n : Z) : Entropy :=
  {| en_dek := Some (Sha256.string_of_bytes (replicate 32 n)); en_valueNonce := Sha256.string_of_bytes (replicate 12 n);
     en_wrapNonce := Sha256.string_of_bytes (replicate 12 (n + 1)) |}.
Definition demoRequest (version : string) : AuthorizationRequest :=
  {| ar_Scope := demoScope; ar_VersionID := version; ar_ActorID := ""; ar_ServiceID := "agent"; ar_DeploymentID := "";
     ar_LeaseID := ""; ar_Frozen := true |}.
Definition demoAuthorization : MaterializationAuthorization :=
  {| ma_AttemptID := 7; ma_Fence := 3; ma_JobID := 5; ma_OwnerID := "owner"; ma_ProjectID := "project"; ma_EnvironmentID := "env";
     ma_DeploymentID := "deployment";
     ma_Secrets := [{| fr_VariableName := "TOKEN"; fr_SecretID := "secret"; fr_SecretVersionID := "v1"; fr_Purpose := "runtime";
                       fr_DeliveryScope := "runtime" |}] |}.
Definition demoOps : list SecretOp :=
  [OpInitialize "k1" demoGeneration; OpInitialize "k2" demoGeneration;
   OpCreate (demoRing "k1") demoScope "v1" (demoContext "a1") "hunter2" (demoEntropy 10);
   OpReplace false (demoRing "k1") demoScope "v2" (demoContext "a2") "hunter3" (demoEntropy 20);
   OpRewrapBatch (demoRing "k2") {| rr_OldKEKID := "k1"; rr_Cursor := ""; rr_BatchSize := 0; rr_DryRun := false |}
     (λ i, Sha256.string_of_bytes (replicate 12 (30 + Z.of_nat i)));
   OpMaterializeFrozen (demoRing "k2") "server" demoAuthorization (λ _, Some "0123456789abcdef");
   OpReplace true (demoRing "k2") demoScope "v3" (demoContext "a3") "hunter4" (demoEntropy 50);
   OpMaterialize (demoRing "k2") (λ _, true) (demoRequest "v2") "a4"].
Definition demoSchedule : list (nat * Fault) :=
  (λ i, (i, NoFault)) <$> [0; 1; 2; 2; 3; 4; 3; 4; 4; 3; 5; 5; 6; 6]%nat.
Definition demoRevoked : list (nat * Fault) := demoSchedule ++ [(6%nat, Lost SErrScan true)].

Lemma demoRing_keys a : ringOf demoKeys (demoRing a).
Proof. intros id k. unfold Resolve, demoRing. simpl. repeat case_match; congruence. Qed.
Lemma demoEntropy_good n : goodEntropy (demoEntropy n).
Proof. split_and!; [by intros ? [= <-]|done|done]. Qed.

Lemma demo_deployed : Forall (deployed demoKeys) demoOps.
Proof. repeat (apply Forall_cons; split; [simpl; auto using demoRing_keys, demoEntropy_good|]). by apply Forall_nil. Qed.

(** One evaluation of the schedule: the created version's two answers, and
    the second version revoked by a replacement whose answer was lost. *)
#[local] Notation demoRun := (after demoGeneration demoOps demoRevoked).
Definition demoCheck (w : World) : bool :=
  match w.2 !! 2%nat, w.2 !! 5%nat, sd_versions w.1 !! "v1", sd_versions w.1 !! "v2" with
  | Some (Done (OutMetadata (inr md))), Some (Done (OutReply (ReplySecrets [value]))), Some row1, Some row2 =>
      bool_decide (md_ID md = "v1") && bool_decide (mv_Value value = "hunter2")
      && bool_decide (vr_kek row1 = "k2") && bool_decide (vr_state row2 = VersionRevoked)
  | _, _, _, _ => false
  end.
Lemma demo_run : demoCheck demoRun = true.
Proof. vm_compute. reflexivity. Qed.

Lemma demo_facts : ∃ md value row1 row2,
  demoRun.2 !! 2%nat = Some (Done (OutMetadata (inr md))) ∧ md_ID md = "v1" ∧
  demoRun.2 !! 5%nat = Some (Done (OutReply (ReplySecrets [value]))) ∧ mv_Value value = "hunter2" ∧
  sd_versions demoRun.1 !! "v1" = Some row1 ∧ vr_kek row1 = "k2" ∧
  sd_versions demoRun.1 !! "v2" = Some row2 ∧ vr_state row2 = VersionRevoked.
Proof.
  pose proof demo_run as H. revert H. generalize demoRun. intros [d pool] H. unfold demoCheck in H. simpl in *. destruct (pool !! 2%nat) as [[[[|md]| | | | |]|]|]; try done.
  destruct (pool !! 5%nat) as [[[| |[[|value []]| |]| | |]|]|]; try done.
  destruct (sd_versions d !! "v1") as [row1|]; [|done]. destruct (sd_versions d !! "v2") as [row2|]; [|done].
  bool_hyps. eauto 20.
Qed.

Lemma runSchedule_other i schedule w : Forall (λ s, s.1 ≠ i) schedule → (runSchedule schedule w).2 !! i = w.2 !! i.
Proof.
  intros H. revert w. induction H as [|[j f] schedule Hj _ IH]; intros w; [done|]. simpl. rewrite IH. unfold poolStep. simpl in *.
  destruct (w.2 !! j) as [[|T c k]|]; [done| |done]. destruct (callStep f c w.1). simpl. by rewrite list_lookup_insert_ne.
Qed.

Lemma secrets_stay_recoverable_witness : ∃ v, sd_versions demoRun.1 !! "v1" = Some v ∧ vr_kek v = "k2" ∧
  ∃ h p, sd_heads demoRun.1 !! vr_secret v = Some h ∧ requested demoOps (rowScope "v1" v h) p ∧
    ∀ ring, ringOf demoKeys ring → is_Some (Resolve ring (vr_kek v)) → Decrypt ring (rowScope "v1" v h) (rowEnvelope v) = inr p.
Proof.
  destruct demo_facts as (md&value&row1&row2&_&_&_&_&H1&H2&_). exists row1. split; [exact H1|split; [exact H2|]].
  exact (secrets_stay_recoverable demoKeys demoGeneration demoOps demoRevoked "v1" row1 demo_deployed H1).
Defined.

Lemma acknowledged_secret_durable_witness : ∃ md v h, md_ID md = "v1" ∧ sd_versions demoRun.1 !! md_ID md = Some v ∧
  sd_heads demoRun.1 !! vr_secret v = Some h ∧ md_ID md = "v1" ∧ v_Scope (rowVersion "v1" v (sh_purpose h) (sh_delivery h)) = demoScope ∧
  ∀ ring, ringOf demoKeys ring → is_Some (Resolve ring (vr_kek v)) → Decrypt ring (rowScope "v1" v h) (rowEnvelope v) = inr "hunter2".
Proof.
  destruct demo_facts as (md&value&row1&row2&H1&H2&_). exists md.
  destruct (acknowledged_secret_durable demoKeys demoGeneration demoOps demoRevoked 2%nat _ md demo_deployed eq_refl H1) as (v&h&?&?&?).
  exists v, h. split; [exact H2|]. split; [assumption|]. split; [assumption|]. assumption.
Defined.

Lemma materialization_exact_witness : ∃ value, demoRun.2 !! 5%nat = Some (Done (OutReply (ReplySecrets [value]))) ∧
  mv_VariableName value = "TOKEN" ∧ mv_Value value = "hunter2".
Proof.
  destruct demo_facts as (md&value&row1&row2&_&_&H1&H2&_). exists value. split; [exact H1|].
  pose proof (proj2 (materialization_exact demoKeys demoGeneration demoOps demoRevoked 5%nat demo_deployed)
    (demoRing "k2") "server" demoAuthorization _ [value] eq_refl H1) as HF.
  apply Forall2_cons in HF as [(HV&_) _]. split; [exact HV|exact H2].
Defined.

(** The revoked version's materialization, run to its end after the pool's schedule. *)
#[local] Notation demoRest := (replicate 6 (7%nat, NoFault)).

Lemma revoked_never_materialized_witness : revokedIn "v2" (runSchedule demoRest demoRun).1 ∧
  (runSchedule demoRest demoRun).2 !! 7%nat ≠ Some (Done (OutPlaintext (inr "hunter3"))).
Proof.
  destruct demo_facts as (md&value&row1&row2&_&_&_&_&_&_&H1&H2).
  assert (demoRun.2 !! 7%nat = Some (progOf (OpMaterialize (demoRing "k2") (λ _, true) (demoRequest "v2") "a4"))) as Hi.
  { unfold after. rewrite runSchedule_other; [reflexivity|]. repeat (apply Forall_cons; split; [done|]). by apply Forall_nil. }
  destruct (revoked_never_materialized demoKeys demoGeneration demoOps demoRevoked demoRest "v2" 7%nat _ demo_deployed
    (ex_intro _ row2 (conj H1 H2)) eq_refl Hi) as (Hrev&Hm&_).
  split; [exact Hrev|]. exact (Hm _ _ _ _ "hunter3" eq_refl eq_refl).
Defined.
