(* ===== verification/SecretRotation.v ===== *)
(** * Key rotation drains the old key

    The rotation command run on an otherwise idle database: a batch rewraps
    the next versions of the old key and nothing else, and repeating it
    terminates with no live version under that key. *)
From S2P Require Import Prelude GoStd Route Schema Aes Crypto Secrets SecretInv SecretService SecretPool SecretProps.
From stdpp Require Import sorting.
#[local] Open Scope Z_scope.

(** ** Texts and identifiers *)

Lemma validKeyID_KEKID id : validKeyID id = true → validKEKID id = true ∧ textParam id = true ∧ textCheck 64 id = true.
Proof.
  unfold validKeyID, validKEKID, textParam, textCheck. intros H. bool_hyps. pose proof (charLength_le id).
  rewrite !andb_true_iff, !negb_true_iff. split_and!; try done.
  - apply Z.eqb_neq. destruct id; [done|]. unfold slen. simpl. lia.
  - by apply Z.leb_le.
  - unfold ContainsByte. apply negb_false_iff. eapply forallBytes_impl; [|eassumption]. intros b Hb. destruct (Z.eqb_spec b 0) as [->|]; done.
  - by apply bool_decide_eq_false.
  - apply Z.leb_le. lia.
Qed.

Lemma validCryptoScope_params s : validCryptoScope s = true → forallb textParam (scopeFields s) = true.
Proof.
  unfold validCryptoScope. intros H. bool_hyps. match goal with H : forallb _ _ = true |- _ => revert H end.
  rewrite !forallb_forall. intros H x Hx. specialize (H x Hx). bool_hyps. unfold textParam. by rewrite andb_true_iff, negb_true_iff.
Qed.

(** ** The compare-and-set of an unchanged row succeeds *)

Lemma row_unique d id v w : SecretInv d → sd_versions d !! id = Some v → vr_secret w = vr_secret v → vr_number w = vr_number v →
  vr_state w = vr_state v → secret_version_unique d id w = true.
Proof.
  intros I Hv E1 E2 E3. apply bool_decide_eq_true. intros i x Hx. destruct (decide (i = id)) as [|Hne]; [by left|right].
  intros [Es Hc]. apply Hne. eapply (si_unique d I i x id v Hx Hv); [congruence|]. destruct Hc as [|[? ?]]; [left|right]; split || idtac; congruence.
Qed.

Lemma tx_bind_eq {S E A B} (m : Tx S E A) (k : A → Tx S E B) d a d' : m d = inr (a, d') → tx_bind m k d = k a d'.
Proof. unfold tx_bind. by intros ->. Qed.
Lemma tx_guard_eq {S E} (e : E) (ok : bool) (d : S) : ok = true → tx_guard ok e d = inr (tt, d).
Proof. by intros ->. Qed.

Lemma update_secret_version_eq id cond f d old : sd_versions d !! id = Some old → cond old = true → vr_revision (f old) ≤ maxInt64 →
  secret_versions_immutable old (f old) = true → secret_version_check id (f old) = true → secret_version_unique d id (f old) = true →
  update_secret_version id cond f d = inr (true, sd_with_versions (<[id := f old]> (sd_versions d)) d).
Proof.
  intros Ho Hc Hm H1 H2 H3. unfold update_secret_version. by rewrite Ho, Hc, (proj2 (Z.ltb_ge _ _) Hm), H1, H2, H3.
Qed.

Lemma rewrap_call d ver v h e : SecretInv d → sd_versions d !! v_ID ver = Some v → sd_heads d !! vr_secret v = Some h →
  ver = rowVersion (v_ID ver) v (sh_purpose h) (sh_delivery h) → live (vr_state v) = true → vr_revision v < maxInt64 →
  validCryptoScope (cryptoScope ver) = true → validKeyID (env_KEKID e) = true → env_KEKID e ≠ vr_kek v →
  env_Suite e = SuiteAES256GCMRandomNonceV1 → env_AADVersion e = AADFormatV1 → slen (env_WrappedDEK e) = 60 →
  runCall (RRewrap (v_Scope ver) (v_ID ver) (v_EnvelopeRevision ver) e) d =
    (inr tt, sd_with_versions (<[v_ID ver := rewrapped (env_KEKID e) (env_WrappedDEK e) v]> (sd_versions d)) d).
Proof.
  intros I Hv Hh Ever Hlive Hmax Hscope Hid Hne Es Ea Hw. destruct (si_version d I _ v Hv) as (Hc&_&_).
  destruct (si_scope d I _ v Hv) as (h'&Hh'&Eo&Ep&Ee&_). assert (h' = h) as -> by congruence.
  pose proof (validCryptoScope_params _ Hscope) as Hpar. destruct (validKeyID_KEKID _ Hid) as (Hk&Ht&Htc).
  assert (1 ≤ vr_revision v) as Hr1 by (unfold secret_version_check in Hc; bool_hyps; lia).
  assert (v_EnvelopeRevision ver = vr_revision v) as Er.
  { rewrite Ever. simpl. apply u64_small. unfold maxInt64 in Hmax. lia. }
  cbn [runCall]. unfold RewrapVersion. apply run_tx_inr. unfold rewrapTx. rewrite Er.
  erewrite tx_bind_eq; [|apply tx_guard_eq].
  2: { rewrite Hk, Es, Ea, Hw, !bool_decide_eq_true_2, (proj2 (Z.ltb_ge _ _)), (proj2 (Z.eqb_neq _ 0)) by (done || lia). done. }
  erewrite tx_bind_eq; [|apply tx_guard_eq].
  2: { change (textParam (v_ID ver) && forallb textParam [sc_SecretID (v_Scope ver); sc_OwnerID (v_Scope ver); sc_ProjectID (v_Scope ver);
         sc_EnvironmentID (v_Scope ver); sc_Purpose (v_Scope ver); sc_DeliveryScope (v_Scope ver); env_KEKID e] = true).
       simpl in Hpar |- *. bool_hyps. rewrite !andb_true_iff. done. }
  unfold tx_bind at 1, tx_read. rewrite (tx_bind_eq _ _ d true (sd_with_versions (<[v_ID ver := rewrapped (env_KEKID e) (env_WrappedDEK e) v]> (sd_versions d)) d));
    [by apply tx_guard_eq|].
  assert (sc_SecretID (v_Scope ver) = vr_secret v) as Esec by by rewrite Ever.
  apply (update_secret_version_eq _ _ _ _ v); [done|..].
  - rewrite Esec, Hh, bool_decide_eq_true_2, Hlive, Z.eqb_refl, (bool_decide_eq_false_2 (vr_kek v = env_KEKID e)) by congruence. simpl.
    rewrite andb_true_r. unfold headScope. rewrite Ever. simpl. rewrite !bool_decide_eq_true_2 by done. done.
  - simpl. lia.
  - unfold secret_versions_immutable. simpl. rewrite !bool_decide_eq_true_2, (bool_decide_eq_false_2 (env_KEKID e = vr_kek v)), !Z.eqb_refl by done.
    simpl. unfold live in Hlive. destruct (vr_state v); done.
  - unfold secret_version_check in *. simpl. bool_hyps. rewrite Hw, Htc, !andb_true_iff.
    split_and!; try done; try (by apply bool_decide_eq_true); try (by apply Z.leb_le); apply Z.ltb_lt; lia.
  - by eapply row_unique.
Qed.

(** ** The batch loop *)

(** Scopes whose identifiers the service admits. *)
Definition sized (s : CryptoScope) (_ : string) : Prop :=
  ∃ id scope, newScope id scope = s ∧ validScope scope = true ∧ validID id = true.

Section drain.
Context (keys : gmap string string) (ring : KeyRing) (old newKey : string).
Notation new := (ring_activeID ring).
Notation good := (Good keys sized).
Context (Hring : ringOf keys ring) (Hold : is_Some (Resolve ring old)) (Hactive : Active ring = Some (new, newKey))
  (Hnew : validKeyID new = true) (Hne : new ≠ old).

Definition underOld (v : SecretVersionRow) : Prop := vr_kek v = old ∧ live (vr_state v) = true.
(** The live versions whose data key is wrapped under the old key. *)
Definition remaining (d : SecretDB) : nat := size (filter (λ kv : string * SecretVersionRow, underOld kv.2) (sd_versions d)).

(** [n] more invocations of the new key may be reserved. *)
Definition capacity (d : SecretDB) (n : nat) : Prop :=
  ∃ r, sd_ledger d !! new = Some r ∧ lr_generation r = sd_generation d ∧ lr_reserved r + Z.of_nat n ≤ maxReservedWrapInvocations.

Definition rotatable (d : SecretDB) (ver : SVersion) : Prop :=
  ∃ v h, sd_versions d !! v_ID ver = Some v ∧ sd_heads d !! vr_secret v = Some h ∧
    ver = rowVersion (v_ID ver) v (sh_purpose h) (sh_delivery h) ∧ underOld v ∧ vr_revision v < maxInt64.

(** What a rotation leaves alone: revoked versions, and what is still under
    the old key. *)
Record drained (d d' : SecretDB) (n : nat) : Prop := {
  dr_later : persists keys d d';
  dr_remaining : remaining d = (remaining d' + n)%nat;
  dr_old : ∀ id v, sd_versions d' !! id = Some v → vr_kek v = old → sd_versions d !! id = Some v;
  dr_revoked : ∀ id v, sd_versions d !! id = Some v → vr_state v = VersionRevoked → sd_versions d' !! id = Some v;
  dr_capacity : ∀ m, capacity d (n + m) → capacity d' m;
}.

Lemma drained_refl d : drained d d 0.
Proof. split; [reflexivity|lia|done..]. Qed.
Lemma drained_trans d d1 d2 n m : drained d d1 n → drained d1 d2 m → drained d d2 (n + m).
Proof.
  intros [] []. split; [by etrans|lia|eauto|eauto|]. intros k Hk. apply dr_capacity1, dr_capacity0. by rewrite Nat.add_assoc.
Qed.

Definition moved (id wrapped : string) (v : SecretVersionRow) (r : LedgerRow) (d : SecretDB) : SecretDB :=
  sd_with_versions (<[id := rewrapped new wrapped v]> (sd_versions d))
    (sd_with_ledger (<[new := {| lr_reserved := lr_reserved r + 1; lr_generation := lr_generation r |}]> (sd_ledger d)) d).

Lemma reserve_call d r : sd_ledger d !! new = Some r → lr_generation r = sd_generation d → lr_reserved r < maxReservedWrapInvocations →
  runCall (RReserveWrapInvocation new) d =
    (inr tt, sd_with_ledger (<[new := {| lr_reserved := lr_reserved r + 1; lr_generation := lr_generation r |}]> (sd_ledger d)) d).
Proof.
  intros Hr Hg Hmax. cbn [runCall]. unfold ReserveWrapInvocation. rewrite (proj1 (validKeyID_KEKID _ Hnew)), Hr. simpl.
  by rewrite bool_decide_eq_true_2, (proj2 (Z.ltb_lt _ _) Hmax).
Qed.

Lemma remaining_moved d id wrapped v r : sd_versions d !! id = Some v → underOld v → remaining d = S (remaining (moved id wrapped v r d)).
Proof.
  intros Hv Hu. unfold remaining. simpl. rewrite map_filter_insert_False, map_filter_delete by (intros [E _]; done).
  set (m := filter _ (sd_versions d)). assert (m !! id = Some v) as Hf by (by apply map_lookup_filter_Some).
  rewrite <-(insert_delete_id m id v Hf) at 1. by rewrite map_size_insert_None by apply lookup_delete_eq.
Qed.

Lemma moved_drained d id wrapped v r : good d → good (moved id wrapped v r d) → persists keys d (moved id wrapped v r d) →
  sd_versions d !! id = Some v → underOld v → sd_ledger d !! new = Some r → lr_generation r = sd_generation d →
  drained d (moved id wrapped v r d) 1.
Proof.
  intros G G' L Hv Hu Hr Hgen. split; [done|rewrite (remaining_moved d id wrapped v r) by done; lia|..].
  - intros i w. simpl. rewrite lookup_insert_Some. intros [[<- <-]|[_ Hw]]; [done|done].
  - intros i w Hw Hs. simpl. destruct (decide (i = id)) as [->|]; [|by rewrite lookup_insert_ne].
    assert (w = v) as -> by congruence. destruct Hu as [_ Hu]. by rewrite Hs in Hu.
  - intros m (r'&Hr'&_&Hm). assert (r' = r) as -> by congruence. eexists. simpl. rewrite lookup_insert_eq. split_and!; [done|done|simpl; lia].
Qed.

Lemma cryptoScope_inj id scope ver : newScope id scope = cryptoScope ver → v_ID ver = id ∧ v_Scope ver = scope.
Proof. unfold newScope, cryptoScope. simpl. destruct scope, ver as [? []]. simpl. by intros [= -> -> -> -> -> -> ->]. Qed.

Lemma rotatable_facts d ver : good d → rotatable d ver →
  validStoredRotationVersion ver = true ∧ env_KEKID (v_Envelope ver) = old ∧ ∃ p, recovers keys (cryptoScope ver) (v_Envelope ver) p.
Proof.
  intros G (v&h&Hv&Hh&Ever&[Hk _]&_). destruct (good_recovers _ _ d G _ v h Hv Hh) as (p&(id&scope&Es&Hsc&Hid)&Hp).
  assert (rowScope (v_ID ver) v h = cryptoScope ver) as E by (by rewrite Ever at 2).
  assert (rowEnvelope v = v_Envelope ver) as Ee by (by rewrite Ever). rewrite E, Ee in *.
  apply cryptoScope_inj in Es as [<- <-]. split_and!; [|by rewrite <-Ee|by exists p].
  destruct (si_version d (good_inv _ _ _ G) _ v Hv) as (Hc&_&Hm). unfold validStoredRotationVersion. rewrite Hsc, Hid. simpl.
  rewrite <-Ee. unfold secret_version_check in Hc. bool_hyps. simpl. rewrite Ever. simpl.
  rewrite u64_small by (unfold maxInt64 in Hm; lia). rewrite !andb_true_iff. unfold MaxPlaintextBytes.
  split_and!; first [by apply bool_decide_eq_true|by apply Z.ltb_lt|apply Z.leb_le; lia|by apply Z.eqb_eq].
Qed.

(** One version: its data key is rewrapped and the row moved to the new key. *)
Lemma rotate_one {A} d ver nonce (err : Prog A) (next : SErr + unit → Prog A) : good d → rotatable d ver → capacity d 1 →
  String.length nonce = NonceSize →
  ∃ d', runProg (Rewrap reserver ring (cryptoScope ver) (v_Envelope ver) nonce (λ r,
      match r with inl _ => err | inr e => Do (RRewrap (v_Scope ver) (v_ID ver) (v_EnvelopeRevision ver) e) next end)) d
    = runProg (next (inr tt)) d' ∧ good d' ∧ drained d d' 1 ∧
    (∀ i, i ≠ v_ID ver → sd_versions d' !! i = sd_versions d !! i) ∧ (∀ i h, sd_heads d !! i = Some h → sd_heads d' !! i = Some h).
Proof.
  intros G Hrot (r&Hr&Hgen&Hcap) Hn. destruct (rotatable_facts d ver G Hrot) as (_&Hkek&p&Hp).
  destruct Hrot as (v&h&Hv&Hh&Ever&Hu&Hmax). rewrite <-Hkek in Hold.
  destruct (Rewrap_succeeds reserver keys ring (cryptoScope ver) (v_Envelope ver) nonce p (λ r,
      match r with inl _ => err | inr e => Do (RRewrap (v_Scope ver) (v_ID ver) (v_EnvelopeRevision ver) e) next end) newKey)
    as (wrapped&->&Hrec); [done..|by rewrite Hkek|].
  set (e := {| env_Suite := _; env_AADVersion := _; env_KEKID := _; env_Ciphertext := _; env_WrappedDEK := _ |}) in *.
  set (d1 := sd_with_ledger (<[new := {| lr_reserved := lr_reserved r + 1; lr_generation := lr_generation r |}]> (sd_ledger d)) d).
  assert (runCall (RReserveWrapInvocation new) d = (inr tt, d1)) as Ecall by (apply reserve_call; done || lia).
  destruct (guar_reserve keys sized new d G) as [G1 L1]. rewrite Ecall in G1, L1. simpl in G1, L1.
  assert (callKeeps keys sized (RRewrap (v_Scope ver) (v_ID ver) (v_EnvelopeRevision ver) e) d1) as [G2 L2].
  { apply guar_rewrap; [done|]. by apply (rewrapOK_row keys d d1 ver e (good_inv _ _ _ G) L1); [exists v, h|..]. }
  pose proof (rec_envelope _ _ _ _ (Hrec p Hp)) as He. unfold validEnvelope in He. simpl in He. bool_hyps.
  assert (runCall (RRewrap (v_Scope ver) (v_ID ver) (v_EnvelopeRevision ver) e) d1 = (inr tt, moved (v_ID ver) wrapped v r d)) as Ecall2.
  { apply (rewrap_call d1 ver v h e); try done; [apply G1|apply Hu|apply Hp|]. simpl. destruct Hu as [-> _]. done. }
  rewrite Ecall2 in G2, L2. simpl in G2, L2. exists (moved (v_ID ver) wrapped v r d). unfold reserver. cbn [runProg].
  rewrite Ecall. cbn [negb runProg]. rewrite Ecall2. split_and!; try done.
  - apply moved_drained; try done. by etrans.
  - intros i Hi. simpl. by rewrite lookup_insert_ne.
Qed.

Lemma rewrapLoop_drains request vs : rr_OldKEKID request = old → rr_DryRun request = false → ∀ d nonces result,
  good d → Forall (rotatable d) vs → NoDup (v_ID <$> vs) → capacity d (length vs) → (∀ i, String.length (nonces i) = NonceSize) →
  ∃ d' next, runProg (rewrapLoop ring request vs nonces result) d =
      (inr {| rw_NextCursor := next; rw_Selected := rw_Selected result;
              rw_Rewrapped := rw_Rewrapped result + Z.of_nat (length vs); rw_Conflicts := rw_Conflicts result |}, d') ∧
    good d' ∧ drained d d' (length vs).
Proof.
  intros Ho Hdry. induction vs as [|ver vs IH]; intros d nonces result G Hvs Hnd Hcap Hn.
  { exists d, (rw_NextCursor result). simpl. rewrite Z.add_0_r. split_and!; [by destruct result|done|apply drained_refl]. }
  apply Forall_cons in Hvs as [Hver Hvs]. apply NoDup_cons in Hnd as [Hnin Hnd].
  destruct (rotatable_facts d ver G Hver) as (Hst&Hkek&_). cbn [rewrapLoop]. rewrite Hkek, Hst, Ho, bool_decide_eq_true_2, Hdry by done. cbn [negb orb].
  destruct (rotate_one d ver (nonces 0%nat) (Done (inl ErrRotationCorrupt)) (λ r,
              match r with
              | inl _ => Done (inr {| rw_NextCursor := rw_NextCursor result; rw_Selected := rw_Selected result;
                                      rw_Rewrapped := rw_Rewrapped result; rw_Conflicts := rw_Conflicts result + 1 |})
              | inr _ => rewrapLoop ring request vs (λ i, nonces (S i))
                           {| rw_NextCursor := v_ID ver; rw_Selected := rw_Selected result;
                              rw_Rewrapped := rw_Rewrapped result + 1; rw_Conflicts := rw_Conflicts result |}
              end) G Hver) as (d1&->&G1&D1&Hsame&Hheads); [|done|].
  { destruct Hcap as (r&?&?&Hr). exists r. split_and!; [done..|]. simpl in Hr. lia. }
  destruct (IH d1 (λ i, nonces (S i)) {| rw_NextCursor := v_ID ver; rw_Selected := rw_Selected result;
    rw_Rewrapped := rw_Rewrapped result + 1; rw_Conflicts := rw_Conflicts result |} G1) as (d2&next&->&G2&D2); [|done| |done|].
  - apply Forall_forall. intros w Hw. rewrite Forall_forall in Hvs. destruct (Hvs w Hw) as (v&h&Hv&Hh&?). exists v, h.
    rewrite Hsame; [by eauto|]. intros E. apply Hnin. apply list_elem_of_fmap. by exists w.
  - by apply (dr_capacity _ _ _ D1).
  - exists d2, next. simpl. split_and!; [do 3 f_equal; lia|done|]. by apply (drained_trans d d1 d2 1).
Qed.

(** ** A whole batch *)

Lemma map_to_list_filter_perm (P : string * SecretVersionRow → Prop) `{∀ x, Decision (P x)} (m : gmap string SecretVersionRow) :
  map_to_list (filter P m) ≡ₚ filter P (map_to_list m).
Proof.
  apply NoDup_Permutation; [apply NoDup_map_to_list|apply NoDup_filter, NoDup_map_to_list|]. intros [i x].
  rewrite elem_of_map_to_list, map_lookup_filter_Some, list_elem_of_filter, elem_of_map_to_list. tauto.
Qed.

Lemma keyset_remaining d : SecretInv d →
  keyset old "" d ≡ₚ map_to_list (filter (λ kv : string * SecretVersionRow, underOld kv.2) (sd_versions d)).
Proof.
  intros I. unfold keyset. rewrite merge_sort_Permutation, map_to_list_filter_perm.
  apply NoDup_Permutation; [apply NoDup_filter, NoDup_map_to_list..|]. intros [id v].
  rewrite !list_elem_of_filter, elem_of_map_to_list. simpl. split; intros [Hc Hv]; (split; [|exact Hv]).
  - bool_hyps. by split.
  - destruct Hc as [Hk Hl]. destruct (si_scope d I id v Hv) as (h&Hh&_). destruct (si_version d I id v Hv) as (Hc&_&_).
    rewrite bool_decide_eq_true_2, Hl, Hh by done. simpl. unfold secret_version_check, textCheck in Hc. bool_hyps. by destruct id.
Qed.

Lemma scanVersions_ok d rows :
  Forall (λ kv, sd_versions d !! kv.1 = Some kv.2 ∧ is_Some (sd_heads d !! vr_secret kv.2)) rows → SecretInv d →
  ∃ vs, scanVersions d rows = inr vs ∧ v_ID <$> vs = rows.*1.
Proof.
  intros H I. induction H as [|[id v] rows [Hv [h Hh]] _ (vs&IH&IHn)]; [by exists []|]. cbn [scanVersions]. simpl in Hv.
  rewrite IH. destruct (si_version d I id v Hv) as (Hc&Hk&_). unfold secret_version_check, textCheck in Hc. bool_hyps.
  assert (validStoredVersion (rowVersion id v (default "" (sh_purpose <$> sd_heads d !! vr_secret v))
    (default "" (sh_delivery <$> sd_heads d !! vr_secret v))) = true) as ->.
  { unfold validStoredVersion. simpl. rewrite Hk. unfold MaxPlaintextBytes. rewrite !andb_true_iff.
    split_and!; first [by destruct (vr_state v)|by apply bool_decide_eq_true|by apply Z.ltb_lt|apply Z.leb_le; lia|by apply Z.eqb_eq|
      apply negb_true_iff; by apply bool_decide_eq_false|done]. }
  rewrite (proj2 (Z.ltb_ge _ _)) by lia. simpl. eexists. split; [done|]. by rewrite !fmap_cons, IHn.
Qed.

Lemma list_batch d size : good d → (∀ id v, sd_versions d !! id = Some v → underOld v → vr_revision v < maxInt64) →
  validKEKID old = true → 1 ≤ size ≤ MaxRewrapBatchSize →
  ∃ vs, ListVersionsByKEK old "" size d = inr vs ∧ Forall (rotatable d) vs ∧ NoDup (v_ID <$> vs) ∧
    length vs = (Z.to_nat size `min` remaining d)%nat.
Proof.
  intros G Hmax Hk Hs. unfold ListVersionsByKEK. rewrite Hk, (proj2 (Z.ltb_ge size 1)), (proj2 (Z.ltb_ge MaxRewrapBatchSize size)) by lia.
  simpl. pose proof (keyset_rows old "" d) as Hrows. pose proof (keyset_remaining d (good_inv _ _ _ G)) as Hperm.
  destruct (scanVersions_ok d (take (Z.to_nat size) (keyset old "" d)) (Forall_take _ _ _ Hrows) (good_inv _ _ _ G)) as (vs&E&En).
  exists vs. split; [done|]. assert (NoDup (v_ID <$> vs)) as Hnd.
  { rewrite En, fmap_take. eapply sublist_NoDup, sublist_take. rewrite Hperm. apply NoDup_fst_map_to_list. }
  split_and!; [|done|].
  - pose proof (scanVersions_rows d _ _ (Forall_take _ _ _ Hrows) E) as Hfrom. apply Forall_forall. intros ver Hin.
    rewrite Forall_forall in Hfrom. destruct (Hfrom ver Hin) as (v&h&Hv&Hh&Ever). exists v, h.
    assert (underOld v) as Hu; [|split_and!; [done..|by eapply Hmax]].
    assert (v_ID ver ∈ (take (Z.to_nat size) (keyset old "" d)).*1) as Hin2 by (rewrite <-En; by apply list_elem_of_fmap_2).
    apply list_elem_of_fmap in Hin2 as ([i w]&Ei&Hin2). simpl in Ei. subst i. apply elem_of_take in Hin2 as (j&Hj&_).
    apply list_elem_of_lookup_2 in Hj. rewrite Hperm in Hj. apply elem_of_map_to_list, map_lookup_filter_Some in Hj as [Hw Hu].
    assert (w = v) as -> by congruence. done.
  - apply (f_equal length) in En. rewrite !length_fmap in En. rewrite En, length_take, (Permutation_length Hperm).
    by rewrite length_map_to_list.
Qed.

Definition drainRequest (size : Z) : RewrapRequest := {| rr_OldKEKID := old; rr_Cursor := ""; rr_BatchSize := size; rr_DryRun := false |}.

Lemma RewrapBatch_drains d size nonces : good d → (∀ id v, sd_versions d !! id = Some v → underOld v → vr_revision v < maxInt64) →
  validKEKID old = true → 1 ≤ size ≤ MaxRewrapBatchSize → capacity d (remaining d) → (∀ i, String.length (nonces i) = NonceSize) →
  let n := (Z.to_nat size `min` remaining d)%nat in
  ∃ d' next, runProg (RewrapBatch ring (drainRequest size) nonces) d =
      (inr {| rw_NextCursor := next; rw_Selected := Z.of_nat n; rw_Rewrapped := Z.of_nat n; rw_Conflicts := 0 |}, d') ∧
    good d' ∧ drained d d' n.
Proof.
  intros G Hmax Hk Hs Hcap Hn n. destruct (list_batch d size G Hmax Hk Hs) as (vs&E&Hrot&Hnd&Hlen).
  destruct (rewrapLoop_drains (drainRequest size) vs eq_refl eq_refl d nonces
    {| rw_NextCursor := ""; rw_Selected := Z.of_nat (length vs); rw_Rewrapped := 0; rw_Conflicts := 0 |} G Hrot Hnd) as (d'&next&Erun&G'&D); [|done|].
  { destruct Hcap as (r&?&?&?). exists r. split_and!; [done..|]. rewrite Hlen. lia. }
  exists d', next. unfold n. rewrite <-Hlen. split_and!; [|done..].
  assert (activeOK ring = true) as Hok.
  { unfold activeOK. rewrite Hactive. apply Active_Resolve in Hactive as [Ha _]. rewrite (Resolve_length _ _ _ Ha).
    destruct (validKeyID_KEKID _ Hnew) as (Hv&_). unfold validKEKID in Hv. unfold validRotationID, validID. bool_hyps.
    pose proof (slen_nonneg new). rewrite !andb_true_iff, Z.ltb_lt, !Z.leb_le. split_and!; done || lia. }
  assert (validRotationID old = true) as Hor.
  { unfold validKEKID in Hk. unfold validRotationID, validID. bool_hyps. pose proof (slen_nonneg old).
    rewrite !andb_true_iff, Z.ltb_lt, !Z.leb_le. split_and!; done || lia. }
  unfold RewrapBatch. simpl rr_OldKEKID. simpl rr_Cursor. simpl rr_BatchSize. rewrite Hor, bool_decide_eq_true_2 by done. cbn [negb orb].
  cbv zeta. rewrite (proj2 (Z.eqb_neq size 0)), (proj2 (Z.ltb_ge size 1)), (proj2 (Z.ltb_ge MaxRewrapBatchSize size)), Hok by lia.
  rewrite bool_decide_eq_false_2 by done. cbn [negb orb runProg runCall]. rewrite E. exact Erun.
Qed.

(** Batches until none of the old key is left: what each answered, and the database after the last. *)
Fixpoint rotate (rounds : nat) (size : Z) (nonces : nat → nat → string) (d : SecretDB) : list (RotationErr + RewrapResult) * SecretDB :=
  match rounds with
  | O => ([], d)
  | S rounds =>
      let '(answer, d) := runProg (RewrapBatch ring (drainRequest size) (nonces 0%nat)) d in
      let '(answers, d) := rotate rounds size (λ i, nonces (S i)) d in (answer :: answers, d)
  end.

(** The batches all succeed: each rewraps every version it selects, without a conflict, and together they rewrap [n]. *)
Definition allRewrapped (answers : list (RotationErr + RewrapResult)) (n : nat) : Prop :=
  ∃ results, answers = inr <$> results ∧
    Forall (λ r, rw_Conflicts r = 0 ∧ rw_Rewrapped r = rw_Selected r) results ∧ foldr Z.add 0 (rw_Rewrapped <$> results) = Z.of_nat n.

Lemma rotate_drains rounds size : validKEKID old = true → 1 ≤ size ≤ MaxRewrapBatchSize → ∀ d nonces, good d →
  (∀ id v, sd_versions d !! id = Some v → underOld v → vr_revision v < maxInt64) → capacity d (remaining d) →
  (∀ i j, String.length (nonces i j) = NonceSize) → (remaining d ≤ rounds * Z.to_nat size)%nat →
  let '(answers, d') := rotate rounds size nonces d in
  length answers = rounds ∧ allRewrapped answers (remaining d) ∧ good d' ∧ drained d d' (remaining d).
Proof.
  intros Hk Hs. induction rounds as [|rounds IH]; intros d nonces G Hmax Hcap Hn Hr; cbn [rotate].
  { assert (remaining d = 0%nat) as -> by lia. split_and!; [done|by exists []|done|apply drained_refl]. }
  destruct (RewrapBatch_drains d size (nonces 0%nat) G Hmax Hk Hs Hcap (Hn 0%nat)) as (d1&next&->&G1&D).
  set (n := (Z.to_nat size `min` remaining d)%nat) in *. pose proof (dr_remaining _ _ _ D) as Hrem.
  assert (remaining d = n + remaining d1)%nat as -> by lia. specialize (IH d1 (λ i, nonces (S i)) G1).
  destruct (rotate rounds size (λ i, nonces (S i)) d1) as [answers d']. destruct IH as (El&(rs&->&Hrs&Hsum)&G2&D2).
  - intros id v Hv [Hkek Hl]. eapply Hmax; [by apply (dr_old _ _ _ D)|done].
  - apply (dr_capacity _ _ _ D). by assert (n + remaining d1 = remaining d)%nat as -> by lia.
  - done.
  - lia.
  - split_and!; [by rewrite <-El| |done|by eapply drained_trans]. eexists (_ :: rs). split_and!; [done|by constructor|].
    cbn [fmap list_fmap foldr rw_Rewrapped]. change (foldr Z.add 0 _) with (foldr Z.add 0 (rw_Rewrapped <$> rs)). rewrite Hsum. lia.
Qed.
End drain.

Lemma CanRetire_run ring old newKey d : Active ring = Some (ring_activeID ring, newKey) → validKeyID (ring_activeID ring) = true →
  ring_activeID ring ≠ old → validKEKID old = true →
  (runProg (CanRetire ring old) d).1 = if versionsByKEK old d =? 0 then None else Some ErrRetirement.
Proof.
  intros Ha Hn Hne Ho. assert (∀ id, validKEKID id = true → validRotationID id = true) as Hv.
  { intros id H. unfold validKEKID in H. unfold validRotationID, validID. bool_hyps. pose proof (slen_nonneg id).
    rewrite !andb_true_iff, Z.ltb_lt, !Z.leb_le. split_and!; done || lia. }
  unfold CanRetire. rewrite Ha, (Hv old Ho), (Hv _ (proj1 (validKeyID_KEKID _ Hn))), bool_decide_eq_false_2 by done.
  cbn [negb runProg runCall]. unfold CountVersionsByKEK. by rewrite Ho.
Qed.

Lemma versionsByKEK_zero k d : versionsByKEK k d = 0 ↔ ∀ id v, sd_versions d !! id = Some v → vr_kek v ≠ k.
Proof.
  unfold versionsByKEK. split.
  - intros H id v Hv E. assert (filter (λ kv : string * SecretVersionRow, vr_kek kv.2 = k) (map_to_list (sd_versions d)) = []) as Hnil.
    { apply length_zero_iff_nil. lia. }
    assert ((id, v) ∈ filter (λ kv : string * SecretVersionRow, vr_kek kv.2 = k) (map_to_list (sd_versions d))) as Hin.
    { apply list_elem_of_filter. split; [done|]. by apply elem_of_map_to_list. }
    rewrite Hnil in Hin. by apply not_elem_of_nil in Hin.
  - intros H. assert (filter (λ kv : string * SecretVersionRow, vr_kek kv.2 = k) (map_to_list (sd_versions d)) = []) as ->; [|done].
    destruct (filter _ _) as [|[id v] l] eqn:E; [done|]. exfalso.
    assert ((id, v) ∈ filter (λ kv : string * SecretVersionRow, vr_kek kv.2 = k) (map_to_list (sd_versions d))) as Hin.
    { rewrite E. by left. }
    apply list_elem_of_filter in Hin as [Hk Hin]. apply elem_of_map_to_list in Hin. by apply (H id v).
Qed.

Lemma remaining_zero old d : remaining old d = 0%nat → ∀ id v, sd_versions d !! id = Some v → ¬ underOld old v.
Proof.
  intros H id v Hv Hu. unfold remaining in H. apply map_size_empty_inv in H.
  assert (filter (λ kv : string * SecretVersionRow, underOld old kv.2) (sd_versions d) !! id = Some v) as E.
  { by apply map_lookup_filter_Some. }
  by rewrite H in E.
Qed.

(** C12: Rotation terminates and drains the old key. With both keys in the ring, enough invocations of the new one left
    and no live version's envelope revision at the int64 limit, ceil(n / size) batches rewrap the n live versions of
    the old key: every batch succeeds and rewraps each version it selects, without a conflict, and together they rewrap
    n. Every version keeps its row and the plaintext it recovers, and [CanRetire] then answers that the old key can go
    exactly if no revoked version was wrapped under it. *)
Theorem rotation_drains (keys : gmap string string) (ring : KeyRing) (old newKey : string) (size : Z) (d : SecretDB)
    (nonces : nat → nat → string) :
  ringOf keys ring → is_Some (Resolve ring old) → Active ring = Some (ring_activeID ring, newKey) →
  validKeyID (ring_activeID ring) = true → ring_activeID ring ≠ old → validKEKID old = true → 1 ≤ size ≤ MaxRewrapBatchSize →
  (∀ i j, String.length (nonces i j) = NonceSize) →
  Good keys sized d → capacity ring d (remaining old d) →
  (∀ id v, sd_versions d !! id = Some v → underOld old v → vr_revision v < maxInt64) →
  let rounds := Z.to_nat ((Z.of_nat (remaining old d) + size - 1) / size) in
  let '(answers, d') := rotate ring old rounds size nonces d in
  length answers = rounds ∧ allRewrapped answers (remaining old d) ∧
  remaining old d' = 0%nat ∧ Good keys sized d' ∧ persists keys d d' ∧
  ((runProg (CanRetire ring old) d').1 = None ↔ ∀ id v, sd_versions d !! id = Some v → vr_kek v = old → vr_state v ≠ VersionRevoked).
Proof.
  intros Hring Hold Ha Hnew Hne Hk Hs Hn G Hcap Hmax rounds.
  pose proof (rotate_drains keys ring old newKey Hring Hold Ha Hnew Hne rounds size Hk Hs d nonces G Hmax Hcap Hn) as HD.
  destruct (rotate ring old rounds size nonces d) as [answers d']. destruct HD as (El&Hall&G'&D).
  { unfold rounds. set (n := Z.of_nat (remaining old d)).
    assert (n ≤ ((n + size - 1) / size) * size) by (pose proof (Z.mod_pos_bound (n + size - 1) size); pose proof (Z.div_mod (n + size - 1) size); lia).
    assert (0 ≤ (n + size - 1) / size) by (apply Z.div_pos; lia). unfold n in *. nia. }
  pose proof (dr_remaining _ _ _ _ _ _ D) as Hrem. assert (remaining old d' = 0%nat) as Hz by lia.
  split_and!; [done..|apply D|]. rewrite (CanRetire_run ring old newKey d') by done.
  transitivity (versionsByKEK old d' = 0); [destruct (Z.eqb_spec (versionsByKEK old d') 0); naive_solver|].
  rewrite versionsByKEK_zero. split.
  - intros H id v Hv E Hst. apply (H id v); [by apply (dr_revoked _ _ _ _ _ _ D)|done].
  - intros H id v Hv E. eapply (H id v); [by apply (dr_old _ _ _ _ _ _ D)|done|].
    pose proof (remaining_zero old d' Hz id v Hv) as Hnu. destruct (vr_state v) eqn:Est; [..|done]; exfalso; apply Hnu; (split; [done|by rewrite Est]).
Qed.

(** ** A concrete rotation *)

Lemma Good_mono keys (P Q : CryptoScope → string → Prop) d : (∀ s p, P s p → Q s p) → Good keys P d → Good keys Q d.
Proof. intros H [I G]. split; [done|]. intros id v h Hv Hh. destruct (G id v h Hv Hh) as (p&?&?). eauto. Qed.

Lemma requested_sized ops s p : requested ops s p → sized s p.
Proof.
  assert (∀ id scope audit, validNew scope id audit p = true → sized (newScope id scope) p) as H.
  { intros id scope audit Hv. exists id, scope. unfold validNew in Hv. by bool_hyps. }
  intros (o&_&Ho). destruct o; try done; destruct Ho as (Hv&<-&<-); by eapply H.
Qed.

(** The demonstration pool, the secret created and replaced under [k1]. *)
Definition rotationSchedule : list (nat * Fault) := (λ i, (i, NoFault)) <$> [0; 1; 2; 2; 3; 3; 3]%nat.
#[local] Notation rotationDB := (after demoGeneration demoOps rotationSchedule).1.
Definition rotationCheck (d : SecretDB) : bool :=
  (remaining "k1" d =? 2)%nat
  && match sd_ledger d !! "k2" with
     | Some r => bool_decide (lr_generation r = sd_generation d) && (lr_reserved r =? 0)
     | None => false
     end
  && forallb (λ kv, vr_revision kv.2 =? 1) (map_to_list (sd_versions d))
  && forallb (λ kv, negb (bool_decide (vr_state kv.2 = VersionRevoked))) (map_to_list (sd_versions d)).
Lemma rotation_check : rotationCheck rotationDB = true.
Proof. vm_compute. reflexivity. Qed.

Lemma rotationCheck_facts d : rotationCheck d = true → remaining "k1" d = 2%nat ∧ capacity (demoRing "k2") d (remaining "k1" d) ∧
  ∀ id v, sd_versions d !! id = Some v → vr_revision v < maxInt64 ∧ vr_state v ≠ VersionRevoked.
Proof.
  unfold rotationCheck. intros H. apply andb_true_iff in H as [H H4]. apply andb_true_iff in H as [H H3].
  apply andb_true_iff in H as [H1 H2]. apply Nat.eqb_eq in H1. split_and!; [done|..].
  - unfold capacity. simpl. destruct (sd_ledger d !! "k2") as [r|]; [|done]. bool_hyps. exists r. rewrite H1.
    split_and!; [done|done|]. unfold maxReservedWrapInvocations, maxWrapInvocations. lia.
  - intros id v Hv. rewrite forallb_forall in H3, H4. apply elem_of_map_to_list in Hv. apply list_elem_of_In in Hv as Hv'.
    specialize (H3 _ Hv'). specialize (H4 _ Hv'). simpl in *. bool_hyps. split; [unfold maxInt64; lia|done].
Qed.

Lemma rotation_drains_witness : ∃ answers d', allRewrapped answers 2 ∧ remaining "k1" d' = 0%nat ∧ persists demoKeys rotationDB d' ∧
  (runProg (CanRetire (demoRing "k2") "k1") d').1 = None.
Proof.
  destruct (rotationCheck_facts _ rotation_check) as (Hr&Hcap&Hv).
  destruct (after_safe demoKeys demoGeneration demoOps rotationSchedule demo_deployed) as [G _].
  assert (ringOf demoKeys (demoRing "k2")) as Hring by (intros id k; unfold Resolve, demoRing; simpl; repeat case_match; congruence).
  assert (is_Some (Resolve (demoRing "k2") "k1")) as Hold by (eexists; vm_compute; reflexivity).
  assert (∃ k, Active (demoRing "k2") = Some ("k2", k)) as [k Hact] by (eexists; vm_compute; reflexivity).
  pose proof (rotation_drains demoKeys (demoRing "k2") "k1" k 100 rotationDB (λ i j, Sha256.string_of_bytes (replicate 12 0)) Hring Hold Hact
    eq_refl ltac:(discriminate) eq_refl ltac:(unfold MaxRewrapBatchSize; lia) ltac:(reflexivity)
    (Good_mono _ _ _ _ (requested_sized demoOps) G) Hcap (λ id v H _, proj1 (Hv id v H))) as H.
  cbv zeta in H. rewrite Hr in H. destruct (rotate _ _ _ _ _ _) as [answers d']. destruct H as (_&Hall&H1&_&H2&H3).
  exists answers, d'. split; [exact Hall|]. split; [exact H1|]. split; [exact H2|].
  apply H3. intros id v H _. exact (proj2 (Hv id v H)).
Defined.
