(* ===== verification/Plane.v ===== *)
(** * The administrator's plane: environment configuration, bindings and host
    names (src/internal/store/postgres/environment_runtime_config_repository.go,
    route_head_repository.go, the authorization of a materialization in
    agent_lease_materialize.go; migrations 000014 to 000018 and 000020)

    These repositories write the tables the lease repository reads and join
    its frozen rows with the secret store, so the state here is the lease
    tables and the secret tables together, with the columns neither of the
    two models keeps.  [clock_timestamp()] is the argument [now].  A method
    that refuses with an audit row either commits the refusal (its body
    answers [inl]) or rolls back and writes the row on its own. *)
From S2P Require Import Prelude GoStd Deployment Queue Route Regex HealthGate Schema Evidence Fold DeploymentStore LeaseCore Lease Secrets SecretService.
From Stdlib Require Import Ascii.
From stdpp Require Import sorting.
#[local] Open Scope Z_scope.

(** ** State *)

(** environment_runtime_config_audit_events, route_head_audit_events and the
    rows of route_events whose kind is [hostname_assigned]
    ([db_route_events] has those of activations). *)
Record ConfigAuditRow := {
  ca_actor : string; ca_owner : string; ca_env : string; ca_action : string; ca_variable : option string;
  ca_revision : option Z; ca_result : string;
}.
Record HeadAuditRow := {
  ha_actor : string; ha_owner : string; ha_env : string; ha_hostname : string; ha_revision : option Z; ha_result : string;
}.
Record HostnameEvent := { he_env : string; he_revision : Z; he_hostname : string }.

Record PlaneDB := {
  pl_db : DB;
  pl_secrets : SecretDB;
  pl_config_updated : gmap string Z;            (* environment_runtime_configs.updated_at *)
  pl_binding_created : gmap (string * string) Z; (* environment_runtime_bindings.created_at *)
  pl_head_created : gmap string Z;              (* route_heads.created_at *)
  pl_config_audit : list ConfigAuditRow;
  pl_head_audit : list HeadAuditRow;
  pl_hostname_events : list HostnameEvent;
}.
Definition with_db (d : DB) (w : PlaneDB) : PlaneDB :=
  Build_PlaneDB d (pl_secrets w) (pl_config_updated w) (pl_binding_created w) (pl_head_created w)
    (pl_config_audit w) (pl_head_audit w) (pl_hostname_events w).
Definition with_times (x : gmap string Z) (y : gmap (string * string) Z) (z : gmap string Z) (w : PlaneDB) : PlaneDB :=
  Build_PlaneDB (pl_db w) (pl_secrets w) x y z (pl_config_audit w) (pl_head_audit w) (pl_hostname_events w).
Definition with_logs (x : list ConfigAuditRow) (y : list HeadAuditRow) (z : list HostnameEvent) (w : PlaneDB) : PlaneDB :=
  Build_PlaneDB (pl_db w) (pl_secrets w) (pl_config_updated w) (pl_binding_created w) (pl_head_created w) x y z.

Definition set_plane (cs : gmap string frozenExecutionSnapshot) (bs : gmap string (list BindingRow))
    (hs : gmap string (option string)) (vs : gmap string VersionState) (d : DB) : DB :=
  Build_DB (db_servers d) (db_credentials d) (db_sessions d) (db_jobs d) (db_attempts d) (db_slots d) (db_deployments d)
    (db_releases d) (db_ops d) (db_heads d) (db_job_events d) (db_route_events d) (db_audit d) cs bs hs vs (db_execution d)
    (db_frozen_secrets d) (db_frozen_literals d) (db_next_attempt d) (db_next_op d).
Definition set_configs (x : gmap string frozenExecutionSnapshot) (d : DB) : DB :=
  set_plane x (db_bindings d) (db_secret_heads d) (db_secret_versions d) d.
Definition set_bindings (x : gmap string (list BindingRow)) (d : DB) : DB :=
  set_plane (db_configs d) x (db_secret_heads d) (db_secret_versions d) d.

(** The columns of the secret tables the lease repository reads. *)
Definition secretView (s : SecretDB) (d : DB) : DB :=
  set_plane (db_configs d) (db_bindings d) (sh_current <$> sd_heads s) (vr_state <$> sd_versions s) d.
Definition with_secrets (s : SecretDB) (w : PlaneDB) : PlaneDB :=
  Build_PlaneDB (secretView s (pl_db w)) s (pl_config_updated w) (pl_binding_created w) (pl_head_created w)
    (pl_config_audit w) (pl_head_audit w) (pl_hostname_events w).

(** ** Errors and bodies *)

Inductive PlaneErr :=
  | ErrEnvironmentRuntimeConfigNotFound | ErrEnvironmentRuntimeConfigConflict | ErrEnvironmentRuntimeConfigAlreadyExists
  | ErrEnvironmentRuntimeBindingInvalid | ErrEnvironmentRuntimeBindingNotFound
  | ErrRouteHeadNotFound | ErrRouteHeadAlreadyExists | ErrRouteHeadConflict | ErrRouteHeadHostnameTaken
  | ErrRouteHeadHostnameImmutable
  | ErrBigintRange (* 22003 *)
  | PErr (e : Err).
Definition denied : PlaneErr := PErr ErrServerAuthorizationDenied.

Definition PlaneTx (A : Type) : Type := Tx PlaneDB PlaneErr A.

(** A statement on the lease tables. *)
Definition onTables {A} (m : Tx DB Err A) : PlaneTx A := λ w,
  match m (pl_db w) with inl e => inl (PErr e) | inr (a, d) => inr (a, with_db d w) end.

(** [inr (inl e)] commits and then answers [e]. *)
Definition settle {A} (m : PlaneTx (PlaneErr + A)) (w : PlaneDB) : (PlaneErr + A) * PlaneDB :=
  match m w with inl e => (inl e, w) | inr (r, w') => (r, w') end.

(** The statement failed: [tx.Rollback] to [before], then [audit] in a
    transaction of its own, then the typed error. *)
Definition rolledBack {A} (before : PlaneDB) (audit : PlaneTx unit) (e : PlaneErr) : PlaneTx (PlaneErr + A) := λ _,
  match audit before with inl e' => inl e' | inr (_, w) => inr (inl e, w) end.

(** A statement and what its caller does with the PostgreSQL errors it
    recognizes. *)
Definition recovering {A B} (stmt : PlaneTx A) (recognized : PgError → option (PlaneTx (PlaneErr + B)))
    (k : A → PlaneTx (PlaneErr + B)) : PlaneTx (PlaneErr + B) := λ w,
  match stmt w with
  | inl (PErr (ErrPg e)) => match recognized e with Some m => m w | None => inl (PErr (ErrPg e)) end
  | inl e => inl e
  | inr (a, w') => k a w'
  end.

(** ** Validation *)

(** [^[A-Za-z_][A-Za-z0-9_]*$] *)
Definition isNameStart (b : Z) : bool := isLower b || isUpper b || (b =? 95).
Definition isNameByte (b : Z) : bool := isAlnum b || (b =? 95).
Definition variableNamePattern : regex := RSeq (RClass isNameStart) (RStar (RClass isNameByte)).
Definition validVariableName (name : string) : bool :=
  (1 <=? slen name) && (slen name <=? 128) && MatchString variableNamePattern name.

(** A rune is a control character when its only byte is one. *)
Definition noControl (s : string) : bool := forallBytes (λ b, negb (b <? 32) && negb (b =? 127)) s.
Definition validLiteralValue (value : string) : bool :=
  if (slen value <? 1) || (4096 <? slen value) || negb (ValidString value) then false else noControl value.
Definition validDeliveryScope (scope : string) : bool := bool_decide (scope = "build") || bool_decide (scope = "runtime").

Record RuntimeConfigInput := {
  in_ContainerPort : Z; in_ContainerScheme : string; in_ReleaseStrategy : string; in_DrainSeconds : Z; in_CPUMillis : Z;
  in_MemoryBytes : Z; in_RestartPolicy : string; in_HealthGatePath : string; in_HealthGateHost : string;
}.
Definition RuntimeConfigInput_valid (i : RuntimeConfigInput) : bool :=
  (1 <=? in_ContainerPort i) && (in_ContainerPort i <=? 65535)
  && (bool_decide (in_ContainerScheme i = "http") || bool_decide (in_ContainerScheme i = "https"))
  && (bool_decide (in_ReleaseStrategy i = "blue_green") || bool_decide (in_ReleaseStrategy i = "stop_then_start"))
  && (1 <=? in_DrainSeconds i) && (in_DrainSeconds i <=? 300)
  && (0 <? in_CPUMillis i) && (in_CPUMillis i <=? 256000)
  && (0 <? in_MemoryBytes i) && (in_MemoryBytes i <=? 549755813888)
  && (bool_decide (in_RestartPolicy i = "unless-stopped") || bool_decide (in_RestartPolicy i = "on-failure"))
  && ValidPath (in_HealthGatePath i) && ValidHost (in_HealthGateHost i).

(** [BindingInput]; an unknown kind is refused before any use of it. *)
Record BindingInput := {
  bi_VariableName : string; bi_BindingKind : string; bi_DeliveryScope : string; bi_SecretHeadID : string; bi_LiteralValue : string;
}.
Definition BindingInput_valid (i : BindingInput) : bool :=
  if negb (validVariableName (bi_VariableName i)) || negb (validDeliveryScope (bi_DeliveryScope i)) then false
  else if bool_decide (bi_BindingKind i = "secret") then ValidOpaqueID (bi_SecretHeadID i) && bool_decide (bi_LiteralValue i = "")
  else if bool_decide (bi_BindingKind i = "literal_nonsecret") then bool_decide (bi_SecretHeadID i = "") && validLiteralValue (bi_LiteralValue i)
  else false.
Definition bindingRow (i : BindingInput) : BindingRow :=
  {| b_variable := bi_VariableName i; b_scope := bi_DeliveryScope i;
     b_target := if bool_decide (bi_BindingKind i = "secret") then BindSecret (bi_SecretHeadID i)
                 else BindLiteral (Some (bi_LiteralValue i)) |}.

(** ** CHECK constraints and triggers *)

Definition octets (lo hi : Z) (s : string) : bool := (lo <=? slen s) && (slen s <=? hi).

(** environment_runtime_configs (000014, 000017) *)
Definition config_check (env : string) (c : frozenExecutionSnapshot) : bool :=
  octets 1 128 env && (1 <=? ContainerPort c) && (ContainerPort c <=? 65535)
  && (bool_decide (ContainerScheme c = "http") || bool_decide (ContainerScheme c = "https"))
  && (bool_decide (ReleaseStrategy c = "blue_green") || bool_decide (ReleaseStrategy c = "stop_then_start"))
  && (1 <=? DrainSeconds c) && (DrainSeconds c <=? 300) && (0 <? CPUMillis c) && (CPUMillis c <=? 256000)
  && (0 <? MemoryBytes c) && (MemoryBytes c <=? 549755813888)
  && (bool_decide (RestartPolicy c = "unless-stopped") || bool_decide (RestartPolicy c = "on-failure"))
  && (HealthPolicyRevision c =? 1) && (0 <=? ConfigRevision c)
  && octets 1 2048 (HealthGatePath c) && MatchString pathPattern (HealthGatePath c) && negb (HasPrefix (HealthGatePath c) "//")
  && MatchString hostPattern (HealthGateHost c) && (slen (hostPart (HealthGateHost c)) <=? 253).

(** validate_environment_runtime_config_update *)
Definition validate_config_update (old new : frozenExecutionSnapshot) (oldUpdated newUpdated : Z) : bool :=
  (ConfigRevision new =? ConfigRevision old + 1) && (oldUpdated <=? newUpdated).

(** environment_runtime_bindings (000014, 000015) *)
Definition nameCheck (name : string) : bool := MatchString variableNamePattern name && (slen name <=? 128).
Definition binding_check (env : string) (b : BindingRow) : bool :=
  octets 1 128 env && nameCheck (b_variable b) && validDeliveryScope (b_scope b)
  && match b_target b with
     | BindSecret _ => true
     | BindLiteral (Some v) => octets 1 4096 v && noControl v
     | BindLiteral None => false
     end.

(** validate_environment_runtime_binding_scope *)
Definition validate_binding_scope (s : SecretDB) (env : string) (b : BindingRow) : bool :=
  match b_target b with
  | BindLiteral _ => true
  | BindSecret id =>
      match sd_heads s !! id with
      | None => false
      | Some h => bool_decide (sh_env h = env) && bool_decide (sh_delivery h = b_scope b) && negb (bool_decide (sh_purpose h = "provider"))
      end
  end.

(** route_heads (000018); the revision trigger is [validate_head_update]. *)
Definition hostname_check (h : string) : bool :=
  octets 1 253 h && MatchString routeHostnamePattern h && negb (forallBytes isDigit (List.last (SplitByte "." h) "")).
Definition head_check (env : string) (created : Z) (h : HeadRow) : bool :=
  octets 1 128 env && hostname_check (h_hostname h) && (0 <=? h_revision h) && (created <=? h_updated_at h).
Definition hostname_unique (d : DB) (env hostname : string) : bool :=
  bool_decide (map_Forall (λ e h, e = env ∨ h_hostname h ≠ hostname) (db_heads d)).

(** environment_runtime_config_audit_events (000016), route_head_audit_events *)
Definition config_audit_check (a : ConfigAuditRow) : bool :=
  let binding := bool_decide (ca_action a ∈ ["binding_added"; "binding_removed"]) in
  let config := bool_decide (ca_action a ∈ ["config_created"; "config_updated"]) in
  octets 1 128 (ca_actor a) && octets 1 128 (ca_owner a) && octets 1 128 (ca_env a) && (binding || config)
  && match ca_variable a with Some v => nameCheck v | None => true end
  && match ca_revision a with Some r => 0 <=? r | None => true end
  && bool_decide (ca_result a ∈ ["success"; "failure"])
  && Bool.eqb binding (isSomeb (ca_variable a))
  && Bool.eqb (config && bool_decide (ca_result a = "success")) (isSomeb (ca_revision a)).
Definition head_audit_check (a : HeadAuditRow) : bool :=
  octets 1 128 (ha_actor a) && octets 1 128 (ha_owner a) && octets 1 128 (ha_env a) && octets 1 253 (ha_hostname a)
  && match ha_revision a with Some r => 0 <=? r | None => true end
  && bool_decide (ha_result a ∈ ["success"; "failure"])
  && Bool.eqb (bool_decide (ha_result a = "success")) (isSomeb (ha_revision a)).

(** ** Statements *)

Definition pgFail {A} (e : PgError) : PlaneTx A := tx_fail (PErr (ErrPg e)).

Definition insertEnvironmentRuntimeConfigAuditEvent (p : Principal) (env action : string) (variable : option string)
    (revision : option Z) (result : string) : PlaneTx unit :=
  let row := {| ca_actor := p_UserID p; ca_owner := p_OwnerID p; ca_env := env; ca_action := action; ca_variable := variable;
                ca_revision := revision; ca_result := result |} in
  do! tx_guard (config_audit_check row) (PErr (ErrPg PgCheckViolation)) in
  tx_write (λ w, with_logs (pl_config_audit w ++ [row]) (pl_head_audit w) (pl_hostname_events w) w).
Definition insertRouteHeadAuditEvent (p : Principal) (env hostname : string) (revision : option Z) (result : string) : PlaneTx unit :=
  let row := {| ha_actor := p_UserID p; ha_owner := p_OwnerID p; ha_env := env; ha_hostname := hostname; ha_revision := revision;
                ha_result := result |} in
  do! tx_guard (head_audit_check row) (PErr (ErrPg PgCheckViolation)) in
  tx_write (λ w, with_logs (pl_config_audit w) (pl_head_audit w ++ [row]) (pl_hostname_events w) w).
(** [insertRouteEvent] of the kind [hostname_assigned] *)
Definition insertHostnameEvent (env : string) (revision : Z) (hostname : string) : PlaneTx unit :=
  do! tx_guard ((0 <=? revision) && octets 1 253 hostname) (PErr (ErrPg PgCheckViolation)) in
  do! tx_some (λ w, db_heads (pl_db w) !! env) (PErr (ErrPg PgForeignKeyViolation)) in
  tx_write (λ w, with_logs (pl_config_audit w) (pl_head_audit w)
                   (pl_hostname_events w ++ [{| he_env := env; he_revision := revision; he_hostname := hostname |}]) w).

Definition write_config (env : string) (c : frozenExecutionSnapshot) (now : Z) (w : PlaneDB) : PlaneDB :=
  with_times (<[env := now]> (pl_config_updated w)) (pl_binding_created w) (pl_head_created w)
    (with_db (set_configs (<[env := c]> (db_configs (pl_db w))) (pl_db w)) w).
Definition insert_config (env : string) (c : frozenExecutionSnapshot) (now : Z) : PlaneTx unit :=
  do! tx_guard (config_check env c) (PErr (ErrPg PgCheckViolation)) in
  let! present := tx_read (λ w, isSomeb (db_configs (pl_db w) !! env)) in
  do! tx_guard (negb present) (PErr (ErrPg PgUniqueViolation)) in
  tx_write (write_config env c now).

(** [UPDATE ... WHERE environment_id=$1 AND revision=$11 RETURNING revision];
    [None] is no row. *)
Definition update_config (env : string) (f : Z → frozenExecutionSnapshot) (expected now : Z) : PlaneTx (option Z) := λ w,
  match db_configs (pl_db w) !! env with
  | Some old =>
      if negb (ConfigRevision old =? expected) then inr (None, w)
      else
        let new := f (ConfigRevision old + 1) in
        if maxInt64 <? ConfigRevision new then inl ErrBigintRange
        else if negb (validate_config_update old new (default 0 (pl_config_updated w !! env)) now) then inl (PErr (ErrPg PgRaise))
        else if negb (config_check env new) then inl (PErr (ErrPg PgCheckViolation))
        else inr (Some (ConfigRevision new), write_config env new now w)
  | None => inr (None, w)
  end.

Definition bindingsOf (env : string) (d : DB) : list BindingRow := default [] (db_bindings d !! env).
Definition bound (name : string) (rows : list BindingRow) : bool := bool_decide (Exists (λ b, b_variable b = name) rows).

Definition insert_binding (env : string) (b : BindingRow) (now : Z) : PlaneTx unit :=
  let! scoped := tx_read (λ w, validate_binding_scope (pl_secrets w) env b) in
  do! tx_guard scoped (PErr (ErrPg PgRaise)) in
  do! tx_guard (binding_check env b) (PErr (ErrPg PgCheckViolation)) in
  let! taken := tx_read (λ w, bound (b_variable b) (bindingsOf env (pl_db w))) in
  do! tx_guard (negb taken) (PErr (ErrPg PgUniqueViolation)) in
  tx_write (λ w, with_times (pl_config_updated w) (<[(env, b_variable b) := now]> (pl_binding_created w)) (pl_head_created w)
    (with_db (set_bindings (<[env := bindingsOf env (pl_db w) ++ [b]]> (db_bindings (pl_db w))) (pl_db w)) w)).

(** [DELETE]; the answer is [RowsAffected() = 1]. *)
Definition delete_binding (env name : string) : PlaneTx bool := λ w,
  let rows := bindingsOf env (pl_db w) in
  if bound name rows then
    inr (true, with_times (pl_config_updated w) (delete (env, name) (pl_binding_created w)) (pl_head_created w)
      (with_db (set_bindings (<[env := filter (λ b, b_variable b ≠ name) rows]> (db_bindings (pl_db w))) (pl_db w)) w))
  else inr (false, w).

Inductive HeadClash := HeadPkey | HeadHostname.
(** Both indexes are checked in the order of their creation. *)
Definition head_clash (env hostname : string) (d : DB) : option HeadClash :=
  if isSomeb (db_heads d !! env) then Some HeadPkey
  else if negb (hostname_unique d env hostname) then Some HeadHostname else None.
Definition insert_head (env : string) (h : HeadRow) (now : Z) : PlaneTx unit :=
  do! tx_guard (head_check env now h) (PErr (ErrPg PgCheckViolation)) in
  let! clash := tx_read (λ w, head_clash env (h_hostname h) (pl_db w)) in
  do! tx_guard (negb (isSomeb clash)) (PErr (ErrPg PgUniqueViolation)) in
  tx_write (λ w, with_times (pl_config_updated w) (pl_binding_created w) (<[env := now]> (pl_head_created w))
    (with_db (set_heads (<[env := h]> (db_heads (pl_db w))) (pl_db w)) w)).

Definition rename_head (env hostname : string) (now : Z) (h : HeadRow) : HeadRow :=
  {| h_hostname := hostname; h_revision := h_revision h + 1; h_active := h_active h; h_recon_required := h_recon_required h;
     h_updated_at := now |}.
Definition update_hostname (env hostname : string) (now : Z) : PlaneTx Z := λ w,
  match db_heads (pl_db w) !! env with
  | None => inl (PErr ErrNoRows)
  | Some old =>
      let new := rename_head env hostname now old in
      if maxInt64 <? h_revision new then inl ErrBigintRange
      else if negb (validate_head_update old new) then inl (PErr (ErrPg PgRaise))
      else if negb (head_check env (default 0 (pl_head_created w !! env)) new) then inl (PErr (ErrPg PgCheckViolation))
      else if negb (hostname_unique (pl_db w) env hostname) then inl (PErr (ErrPg PgUniqueViolation))
      else inr (h_revision new, with_db (set_heads (<[env := new]> (db_heads (pl_db w))) (pl_db w)) w)
  end.

(** ** EnvironmentRuntimeConfigRepository *)

(** [SELECT EXISTS(SELECT 1 FROM agent_jobs WHERE environment_id AND owner_id)] *)
Definition environmentOwnedBy (env owner : string) (d : DB) : bool :=
  bool_decide (Exists (λ kv, j_env kv.2 = env ∧ j_owner kv.2 = owner) (map_to_list (db_jobs d))).

(** What every method of the two repositories does first. *)
Definition authorizeAdministrator (p : Principal) (env : string) (now : Z) : PlaneTx unit :=
  do! onTables (lockAdministratorSession p now) in
  let! owned := tx_read (λ w, environmentOwnedBy env (p_OwnerID p) (pl_db w)) in
  tx_guard owned denied.

Definition configSnapshot (i : RuntimeConfigInput) (revision : Z) : frozenExecutionSnapshot :=
  {| ContainerPort := in_ContainerPort i; ContainerScheme := in_ContainerScheme i; ReleaseStrategy := in_ReleaseStrategy i;
     DrainSeconds := in_DrainSeconds i; HealthPolicyRevision := 1; CPUMillis := in_CPUMillis i; MemoryBytes := in_MemoryBytes i;
     RestartPolicy := in_RestartPolicy i; HealthGatePath := in_HealthGatePath i; HealthGateHost := in_HealthGateHost i;
     ConfigRevision := revision |}.

(** The row and its [updated_at]. *)
Record RuntimeConfig := { rc_EnvironmentID : string; rc_Config : frozenExecutionSnapshot; rc_UpdatedAt : Z }.
Record RuntimeBinding := {
  rb_VariableName : string; rb_BindingKind : string; rb_DeliveryScope : string; rb_SecretHeadID : string;
  rb_SecretVersionNumber : Z; rb_LiteralValue : string; rb_CreatedAt : Z;
}.

Definition readRuntimeConfig (env : string) (w : PlaneDB) : option RuntimeConfig :=
  (λ c, {| rc_EnvironmentID := env; rc_Config := c; rc_UpdatedAt := default 0 (pl_config_updated w !! env) |})
  <$> db_configs (pl_db w) !! env.

(** The LEFT JOINs: the number of the head's current version, if active. *)
Definition currentNumber (s : SecretDB) (head : string) : Z :=
  default 0 (h ← sd_heads s !! head; id ← sh_current h; v ← sd_versions s !! id;
             if bool_decide (vr_state v = VersionActive) then Some (vr_number v) else None).
Definition readBinding (env : string) (w : PlaneDB) (b : BindingRow) : RuntimeBinding :=
  {| rb_VariableName := b_variable b;
     rb_BindingKind := match b_target b with BindSecret _ => "secret" | BindLiteral _ => "literal_nonsecret" end;
     rb_DeliveryScope := b_scope b;
     rb_SecretHeadID := match b_target b with BindSecret h => h | BindLiteral _ => "" end;
     rb_SecretVersionNumber := match b_target b with BindSecret h => currentNumber (pl_secrets w) h | BindLiteral _ => 0 end;
     rb_LiteralValue := match b_target b with BindLiteral v => default "" v | BindSecret _ => "" end;
     rb_CreatedAt := default 0 (pl_binding_created w !! (env, b_variable b)) |}.
Definition rowLe (a b : BindingRow) : Prop := String.leb (b_variable a) (b_variable b) = true.
#[global] Instance rowLe_dec a b : Decision (rowLe a b) := decide _.
Definition readRuntimeBindings (env : string) (w : PlaneDB) : list RuntimeBinding :=
  readBinding env w <$> merge_sort rowLe (bindingsOf env (pl_db w)).

Definition getConfigTx (p : Principal) (env : string) (now : Z) : PlaneTx (option RuntimeConfig * list RuntimeBinding) :=
  do! tx_guard (validPrincipal p && ValidOpaqueID env) denied in
  do! authorizeAdministrator p env now in
  let! cfg := tx_read (readRuntimeConfig env) in
  let! bindings := tx_read (readRuntimeBindings env) in
  tx_ret (cfg, bindings).
Definition GetEnvironmentRuntimeConfig (p : Principal) (env : string) (now : Z) (w : PlaneDB) := run_tx (getConfigTx p env now) w.

Definition createConfigTx (p : Principal) (env : string) (i : RuntimeConfigInput) (now : Z) : PlaneTx (PlaneErr + RuntimeConfig) :=
  do! tx_guard (validPrincipal p && ValidOpaqueID env && RuntimeConfigInput_valid i) denied in
  let! before := tx_read id in
  do! authorizeAdministrator p env now in
  recovering (insert_config env (configSnapshot i 0) now)
    (λ e, match e with
          | PgUniqueViolation =>
              Some (rolledBack before (insertEnvironmentRuntimeConfigAuditEvent p env "config_created" None None "failure")
                      ErrEnvironmentRuntimeConfigAlreadyExists)
          | _ => None
          end)
    (λ _,
      do! insertEnvironmentRuntimeConfigAuditEvent p env "config_created" None (Some 0) "success" in
      tx_ret (inr {| rc_EnvironmentID := env; rc_Config := configSnapshot i 0; rc_UpdatedAt := now |})).
Definition CreateEnvironmentRuntimeConfig (p : Principal) (env : string) (i : RuntimeConfigInput) (now : Z) (w : PlaneDB) :=
  settle (createConfigTx p env i now) w.

Definition updateConfigTx (p : Principal) (env : string) (i : RuntimeConfigInput) (expectedRevision now : Z)
    : PlaneTx (PlaneErr + RuntimeConfig) :=
  do! tx_guard (validPrincipal p && ValidOpaqueID env && RuntimeConfigInput_valid i && (0 <=? expectedRevision)) denied in
  do! authorizeAdministrator p env now in
  let! updated := update_config env (configSnapshot i) expectedRevision now in
  match updated with
  | None =>
      let! found := tx_read (λ w, isSomeb (readRuntimeConfig env w)) in
      do! insertEnvironmentRuntimeConfigAuditEvent p env "config_updated" None None "failure" in
      tx_ret (inl (if found then ErrEnvironmentRuntimeConfigConflict else ErrEnvironmentRuntimeConfigNotFound))
  | Some revision =>
      do! insertEnvironmentRuntimeConfigAuditEvent p env "config_updated" None (Some revision) "success" in
      tx_ret (inr {| rc_EnvironmentID := env; rc_Config := configSnapshot i revision; rc_UpdatedAt := now |})
  end.
Definition UpdateEnvironmentRuntimeConfig (p : Principal) (env : string) (i : RuntimeConfigInput) (expectedRevision now : Z)
    (w : PlaneDB) := settle (updateConfigTx p env i expectedRevision now) w.

(** Without a match, the zero value. *)
Definition noBinding : RuntimeBinding :=
  {| rb_VariableName := ""; rb_BindingKind := ""; rb_DeliveryScope := ""; rb_SecretHeadID := ""; rb_SecretVersionNumber := 0;
     rb_LiteralValue := ""; rb_CreatedAt := 0 |}.
Definition addBindingTx (p : Principal) (env : string) (i : BindingInput) (now : Z) : PlaneTx (PlaneErr + RuntimeBinding) :=
  do! tx_guard (validPrincipal p && ValidOpaqueID env && BindingInput_valid i) denied in
  let! before := tx_read id in
  do! authorizeAdministrator p env now in
  recovering (insert_binding env (bindingRow i) now)
    (λ e, match e with
          | PgCheckViolation | PgForeignKeyViolation | PgRaise | PgUniqueViolation =>
              Some (rolledBack before
                      (insertEnvironmentRuntimeConfigAuditEvent p env "binding_added" (Some (bi_VariableName i)) None "failure")
                      ErrEnvironmentRuntimeBindingInvalid)
          | PgInFailedTransaction => None
          end)
    (λ _,
      do! insertEnvironmentRuntimeConfigAuditEvent p env "binding_added" (Some (bi_VariableName i)) None "success" in
      let! bindings := tx_read (readRuntimeBindings env) in
      tx_ret (inr (default noBinding (head (filter (λ b, rb_VariableName b = bi_VariableName i) bindings))))).
Definition AddEnvironmentRuntimeBinding (p : Principal) (env : string) (i : BindingInput) (now : Z) (w : PlaneDB) :=
  settle (addBindingTx p env i now) w.

Definition removeBindingTx (p : Principal) (env name : string) (now : Z) : PlaneTx (PlaneErr + unit) :=
  do! tx_guard (validPrincipal p && ValidOpaqueID env && validVariableName name) denied in
  do! authorizeAdministrator p env now in
  let! removed := delete_binding env name in
  if negb removed then
    do! insertEnvironmentRuntimeConfigAuditEvent p env "binding_removed" (Some name) None "failure" in
    tx_ret (inl ErrEnvironmentRuntimeBindingNotFound)
  else
    do! insertEnvironmentRuntimeConfigAuditEvent p env "binding_removed" (Some name) None "success" in
    tx_ret (inr tt).
Definition RemoveEnvironmentRuntimeBinding (p : Principal) (env name : string) (now : Z) (w : PlaneDB) :=
  settle (removeBindingTx p env name now) w.

(** ** RouteHeadRepository *)

Record RouteHead := {
  rh_EnvironmentID : string; rh_Hostname : string; rh_RouteRevision : Z; rh_ActiveReleaseID : string;
  rh_ReconciliationRequired : bool; rh_CreatedAt : Z; rh_UpdatedAt : Z;
}.
Definition readRouteHead (env : string) (w : PlaneDB) : option RouteHead :=
  (λ h, {| rh_EnvironmentID := env; rh_Hostname := h_hostname h; rh_RouteRevision := h_revision h;
           rh_ActiveReleaseID := default "" (h_active h); rh_ReconciliationRequired := h_recon_required h;
           rh_CreatedAt := default 0 (pl_head_created w !! env); rh_UpdatedAt := h_updated_at h |}) <$> db_heads (pl_db w) !! env.
Definition getRouteHeadTx (p : Principal) (env : string) (now : Z) : PlaneTx (option RouteHead) :=
  do! tx_guard (validPrincipal p && ValidOpaqueID env) denied in
  do! authorizeAdministrator p env now in
  tx_read (readRouteHead env).
Definition GetRouteHead (p : Principal) (env : string) (now : Z) (w : PlaneDB) := run_tx (getRouteHeadTx p env now) w.

Section hostnames.
(** [unicode.ToLower] beyond ASCII ([Fold]). *)
Context (unicodeLower : string → string).

Definition normalizeRouteHostname (hostname : string) : string := ToLower unicodeLower hostname.

Definition createRouteHeadTx (before : PlaneDB) (p : Principal) (env hostname : string) (now : Z) : PlaneTx (PlaneErr + RouteHead) :=
  let row := {| h_hostname := hostname; h_revision := 0; h_active := None; h_recon_required := false; h_updated_at := now |} in
  let! clash := tx_read (λ w, head_clash env hostname (pl_db w)) in
  recovering (insert_head env row now)
    (λ e, match e with
          | PgUniqueViolation =>
              Some (rolledBack before (insertRouteHeadAuditEvent p env hostname None "failure")
                      (match clash with Some HeadPkey => ErrRouteHeadAlreadyExists | _ => ErrRouteHeadHostnameTaken end))
          | _ => None
          end)
    (λ _,
      do! insertRouteHeadAuditEvent p env hostname (Some 0) "success" in
      do! insertHostnameEvent env 0 hostname in
      tx_ret (inr {| rh_EnvironmentID := env; rh_Hostname := hostname; rh_RouteRevision := 0; rh_ActiveReleaseID := "";
                     rh_ReconciliationRequired := false; rh_CreatedAt := now; rh_UpdatedAt := now |})).

(** A refusal decided from the locked row. *)
Definition refuseHostname (p : Principal) (env hostname : string) (e : PlaneErr) : PlaneTx (PlaneErr + RouteHead) :=
  do! insertRouteHeadAuditEvent p env hostname None "failure" in tx_ret (inl e).

(** The answer has the columns of the statement's RETURNING list. *)
Definition updateRouteHeadHostnameTx (before : PlaneDB) (p : Principal) (env hostname : string) (expectedRevision now : Z)
    : PlaneTx (PlaneErr + RouteHead) :=
  let! current := tx_read (readRouteHead env) in
  match current with
  | None => refuseHostname p env hostname ErrRouteHeadNotFound
  | Some c =>
      if negb (bool_decide (rh_ActiveReleaseID c = "")) then refuseHostname p env hostname ErrRouteHeadHostnameImmutable
      else if negb (rh_RouteRevision c =? expectedRevision) then refuseHostname p env hostname ErrRouteHeadConflict
      else
        recovering (update_hostname env hostname now)
          (λ e, match e with
                | PgUniqueViolation =>
                    Some (rolledBack before (insertRouteHeadAuditEvent p env hostname None "failure") ErrRouteHeadHostnameTaken)
                | _ => None
                end)
          (λ revision,
            do! insertRouteHeadAuditEvent p env hostname (Some revision) "success" in
            do! insertHostnameEvent env revision hostname in
            tx_ret (inr {| rh_EnvironmentID := env; rh_Hostname := hostname; rh_RouteRevision := revision; rh_ActiveReleaseID := "";
                           rh_ReconciliationRequired := false; rh_CreatedAt := rh_CreatedAt c; rh_UpdatedAt := now |}))
  end.

Definition assignRouteHostnameTx (p : Principal) (env hostname : string) (expectedRevision : option Z) (now : Z)
    : PlaneTx (PlaneErr + RouteHead) :=
  let hostname := normalizeRouteHostname hostname in
  do! tx_guard (validPrincipal p && ValidOpaqueID env && ValidRouteHostname hostname) denied in
  do! tx_guard (match expectedRevision with Some r => 0 <=? r | None => true end) denied in
  let! before := tx_read id in
  do! authorizeAdministrator p env now in
  match expectedRevision with
  | None => createRouteHeadTx before p env hostname now
  | Some r => updateRouteHeadHostnameTx before p env hostname r now
  end.
Definition AssignRouteHostname (p : Principal) (env hostname : string) (expectedRevision : option Z) (now : Z) (w : PlaneDB) :=
  settle (assignRouteHostnameTx p env hostname expectedRevision now) w.
End hostnames.

(** ** AuthorizeMaterialization (agent_lease_materialize.go) *)

(** One row of the join of frozen_secret_versions, secret_versions and
    secret_heads. *)
Record FrozenRow := { fz_binding : frozenBinding; fz_version : SecretVersionRow; fz_head : SecretHeadRow }.
Definition joinFrozen (s : SecretDB) (b : frozenBinding) : option FrozenRow :=
  v ← sd_versions s !! fb_version b; h ← sd_heads s !! vr_secret v; Some {| fz_binding := b; fz_version := v; fz_head := h |}.
Definition frozenRows (attemptID : Z) (w : PlaneDB) : list FrozenRow :=
  omap (joinFrozen (pl_secrets w)) (merge_sort bindingLe (default [] (db_frozen_secrets (pl_db w) !! attemptID))).

Definition frozenReference (r : FrozenRow) : FrozenSecretReference :=
  {| fr_VariableName := fb_variable (fz_binding r); fr_SecretID := vr_secret (fz_version r);
     fr_SecretVersionID := fb_version (fz_binding r); fr_Purpose := sh_purpose (fz_head r); fr_DeliveryScope := fb_scope (fz_binding r) |}.

(** The loop over the rows. *)
Fixpoint scanFrozen (job : JobRow) (env : string) (rows : list FrozenRow) : option (list FrozenSecretReference) :=
  match rows with
  | [] => Some []
  | r :: rows =>
      let v := fz_version r in
      if bool_decide (vr_state v = VersionRevoked) then None
      else if negb (bool_decide (vr_owner v = j_owner job)) || negb (bool_decide (vr_project v = j_project job))
              || negb (bool_decide (vr_env v = env)) || negb (bool_decide (sh_delivery (fz_head r) = fb_scope (fz_binding r)))
      then None
      else cons (frozenReference r) <$> scanFrozen job env rows
  end.

Definition authorizeMaterializationTx (serverID presentedDigest : string) (attemptID fence now : Z)
    : PlaneTx MaterializationAuthorization :=
  do! tx_guard (ValidOpaqueID serverID && (0 <? attemptID) && (0 <? fence)) (PErr ErrAgentLeaseInvalidInput) in
  let! ja := onTables (reauthorize serverID presentedDigest attemptID fence now) in
  let '(job, a) := ja in
  let! refs := tx_some (λ w, scanFrozen job (a_env a) (frozenRows attemptID w)) denied in
  tx_ret {| ma_AttemptID := attemptID; ma_Fence := fence; ma_JobID := a_job a; ma_OwnerID := j_owner job;
            ma_ProjectID := j_project job; ma_EnvironmentID := a_env a; ma_DeploymentID := j_deployment job; ma_Secrets := refs |}.
Definition AuthorizeMaterialization (serverID presentedDigest : string) (attemptID fence now : Z) (w : PlaneDB) :=
  run_tx (authorizeMaterializationTx serverID presentedDigest attemptID fence now) w.
