(* ===== verification/PlaneSteps.v ===== *)
(** * What the administrator's operations did

    For every operation of [Plane]: a refused call changes nothing but the
    audit trail ([audited]), and an accepted one made exactly its change. *)
From S2P Require Import Prelude GoStd Deployment Queue Route Regex HealthGate Schema Evidence DeploymentStore LeaseCore Lease LeaseInv LeaseSteps Secrets SecretService Plane.
From stdpp Require Import sorting.
#[local] Open Scope Z_scope.

(** The tables proper are untouched. *)
Record audited (w w' : PlaneDB) : Prop := {
  au_db : pl_db w' = pl_db w;
  au_secrets : pl_secrets w' = pl_secrets w;
  au_config_times : pl_config_updated w' = pl_config_updated w;
  au_binding_times : pl_binding_created w' = pl_binding_created w;
  au_head_times : pl_head_created w' = pl_head_created w;
}.
#[global] Instance audited_equiv : Equivalence audited.
Proof. split; [by split|by intros ?? []; split|]. intros a b c [] []. split; by etrans. Qed.

Lemma with_db_id w : with_db (pl_db w) w = w.
Proof. by destruct w. Qed.

(** ** Bodies *)

Lemma onTables_inv {A} (m : Tx DB Err A) w a w' : onTables m w = inr (a, w') ↔ ∃ d, m (pl_db w) = inr (a, d) ∧ w' = with_db d w.
Proof. unfold onTables. destruct (m (pl_db w)) as [|[x d]]; naive_solver. Qed.

Lemma recovering_inv {A B} (stmt : PlaneTx A) recognized (k : A → PlaneTx (PlaneErr + B)) w r w' :
  recovering stmt recognized k w = inr (r, w') →
  (∃ a w1, stmt w = inr (a, w1) ∧ k a w1 = inr (r, w')) ∨
  (∃ e m, stmt w = inl (PErr (ErrPg e)) ∧ recognized e = Some m ∧ m w = inr (r, w')).
Proof.
  unfold recovering. destruct (stmt w) as [[| | | | | | | | | | |e]|[a w1]]; try done; [|eauto].
  destruct e; try done. destruct (recognized e) as [m|] eqn:E; [|done]. right. eauto.
Qed.

Lemma rolledBack_inv {A} before audit e w (r : PlaneErr + A) w' :
  rolledBack before audit e w = inr (r, w') → r = inl e ∧ audit before = inr (tt, w').
Proof. unfold rolledBack. destruct (audit before) as [|[[] w1]]; [done|]. by intros [= <- <-]. Qed.

Lemma settle_inv {A} (m : PlaneTx (PlaneErr + A)) w r w' : settle m w = (r, w') →
  (∃ e, m w = inl e ∧ r = inl e ∧ w' = w) ∨ m w = inr (r, w').
Proof. unfold settle. destruct (m w) as [e|[x w1]]; [|by right; simplify_eq]. intros [= <- <-]. eauto. Qed.

Lemma config_audit_inv p env action v rev res w u w' :
  insertEnvironmentRuntimeConfigAuditEvent p env action v rev res w = inr (u, w') → audited w w'.
Proof. unfold insertEnvironmentRuntimeConfigAuditEvent. intros H. tx_inv. by destruct w. Qed.
Lemma head_audit_inv p env host rev res w u w' : insertRouteHeadAuditEvent p env host rev res w = inr (u, w') → audited w w'.
Proof. unfold insertRouteHeadAuditEvent. intros H. tx_inv. by destruct w. Qed.
Lemma hostname_event_inv env rev host w u w' : insertHostnameEvent env rev host w = inr (u, w') → audited w w'.
Proof. unfold insertHostnameEvent. intros H. tx_inv. by destruct w. Qed.

(** A live administrator session of the owner of one of the environment's
    jobs. *)
Definition authorized (p : Principal) (env : string) (now : Z) (d : DB) : Prop :=
  validPrincipal p = true ∧ (∃ s, db_sessions d !! p_SessionID p = Some s ∧ sessionLive p now s = true) ∧
  ∃ n j, db_jobs d !! n = Some j ∧ j_env j = env ∧ j_owner j = p_OwnerID p.

Lemma environmentOwnedBy_true env owner d : environmentOwnedBy env owner d = true ↔
  ∃ n j, db_jobs d !! n = Some j ∧ j_env j = env ∧ j_owner j = owner.
Proof.
  unfold environmentOwnedBy. rewrite bool_decide_eq_true, Exists_exists. split.
  - intros ([n j]&Hin%elem_of_map_to_list&?&?). eauto.
  - intros (n&j&Hj&?&?). exists (n, j). rewrite elem_of_map_to_list. eauto.
Qed.

Lemma authorizeAdministrator_iff p env now w u w' :
  authorizeAdministrator p env now w = inr (u, w') ↔ authorized p env now (pl_db w) ∧ w' = w.
Proof.
  unfold authorizeAdministrator, authorized. split.
  - intros H. apply tx_bind_inv in H as (?&w1&(d&H1&->)%onTables_inv&H). unfold lockAdministratorSession in H1. tx_inv.
    rewrite with_db_id in *. apply environmentOwnedBy_true in H. eauto 6.
  - intros [(Hp&(s&Hs&Hl)&Ho%environmentOwnedBy_true) ->]. apply tx_bind_inv. exists tt, w. split.
    + apply onTables_inv. exists (pl_db w). rewrite with_db_id. split; [|done]. unfold lockAdministratorSession, tx_bind, tx_guard, tx_some.
      rewrite Hp. simpl. by rewrite Hs, Hl.
    + unfold tx_bind, tx_read, tx_guard. rewrite Ho. by destruct u.
Qed.

(** ** Configuration *)

Lemma insert_config_inv env c now w u w' : insert_config env c now w = inr (u, w') →
  config_check env c = true ∧ db_configs (pl_db w) !! env = None ∧ w' = write_config env c now w.
Proof. unfold insert_config. intros H. tx_inv. bool_hyps. by destruct (db_configs (pl_db w) !! env). Qed.

Lemma createConfig_cases p env i now w r w' : CreateEnvironmentRuntimeConfig p env i now w = (r, w') →
  match r with
  | inl _ => audited w w'
  | inr rc => authorized p env now (pl_db w) ∧ RuntimeConfigInput_valid i = true ∧ config_check env (configSnapshot i 0) = true ∧
      db_configs (pl_db w) !! env = None ∧ rc_Config rc = configSnapshot i 0 ∧
      audited (write_config env (configSnapshot i 0) now w) w'
  end.
Proof.
  intros [(e&_&->&->)|H]%settle_inv; [done|]. unfold createConfigTx in H.
  apply tx_bind_inv in H as (?&w0&[Hg ->]%tx_guard_inv&H). apply tx_bind_inv in H as (before&w0&[<- ->]%tx_read_inv&H).
  apply tx_bind_inv in H as (?&w0&[Ha ->]%authorizeAdministrator_iff&H). bool_hyps.
  apply recovering_inv in H as [(a&w1&(Hc&Hn&->)%insert_config_inv&H)|(e&m&_&Hm&H)].
  - apply tx_bind_inv in H as (?&w2&H%config_audit_inv&[<- ->]%tx_ret_inv). done.
  - destruct e; simplify_eq. by apply rolledBack_inv in H as [-> ?%config_audit_inv].
Qed.

Lemma update_config_inv env f expected now w r w' : update_config env f expected now w = inr (r, w') →
  match r with
  | None => w' = w ∧ ∀ c, db_configs (pl_db w) !! env = Some c → ConfigRevision c ≠ expected
  | Some n => ∃ c, db_configs (pl_db w) !! env = Some c ∧ ConfigRevision c = expected ∧ ConfigRevision (f (expected + 1)) = n ∧
      n = expected + 1 ∧ n ≤ maxInt64 ∧ config_check env (f n) = true ∧
      default 0 (pl_config_updated w !! env) ≤ now ∧ w' = write_config env (f n) now w
  end.
Proof.
  unfold update_config. destruct (db_configs (pl_db w) !! env) as [c|] eqn:E; [|by intros [= <- <-]].
  destruct (negb _) eqn:Eb; [intros [= <- <-]; split; [done|]; intros ? [= <-]; bool_hyps; done|].
  destruct (maxInt64 <? _) eqn:Em; [done|]. destruct (validate_config_update _ _ _ _) eqn:Ev; [|done].
  destruct (config_check _ _) eqn:Ec; [|done]. intros [= <- <-]. unfold validate_config_update in Ev. bool_hyps.
  subst expected. exists c. match goal with H : ConfigRevision (f _) = _ |- _ => rewrite H in * end. split_and!; done.
Qed.

Lemma updateConfig_cases p env i expected now w r w' : UpdateEnvironmentRuntimeConfig p env i expected now w = (r, w') →
  match r with
  | inl _ => audited w w'
  | inr rc => authorized p env now (pl_db w) ∧ RuntimeConfigInput_valid i = true ∧ config_check env (configSnapshot i (expected + 1)) = true ∧
      (∃ c, db_configs (pl_db w) !! env = Some c ∧ ConfigRevision c = expected) ∧ rc_Config rc = configSnapshot i (expected + 1) ∧
      audited (write_config env (configSnapshot i (expected + 1)) now w) w'
  end.
Proof.
  intros [(e&_&->&->)|H]%settle_inv; [done|]. unfold updateConfigTx in H.
  apply tx_bind_inv in H as (?&w0&[Hg ->]%tx_guard_inv&H). apply tx_bind_inv in H as (?&w0&[Ha ->]%authorizeAdministrator_iff&H).
  apply tx_bind_inv in H as ([n|]&w1&H1%update_config_inv&H); bool_hyps.
  - apply tx_bind_inv in H as (?&w2&H%config_audit_inv&[<- ->]%tx_ret_inv).
    destruct H1 as (c&?&?&_&->&_&?&_&->). split_and!; eauto.
  - destruct H1 as [-> Hne]. apply tx_bind_inv in H as (f&w1&[<- ->]%tx_read_inv&H).
    by apply tx_bind_inv in H as (?&w2&H%config_audit_inv&[<- ->]%tx_ret_inv).
Qed.

(** ** Bindings *)

Lemma insert_binding_inv env b now w u w' : insert_binding env b now w = inr (u, w') →
  validate_binding_scope (pl_secrets w) env b = true ∧ binding_check env b = true ∧
  b_variable b ∉ b_variable <$> bindingsOf env (pl_db w) ∧
  pl_db w' = set_bindings (<[env := bindingsOf env (pl_db w) ++ [b]]> (db_bindings (pl_db w))) (pl_db w) ∧ pl_secrets w' = pl_secrets w.
Proof.
  unfold insert_binding. intros H. tx_inv. unfold bound in *. bool_hyps. split_and!; try done.
  intros (b'&E&Hb')%list_elem_of_fmap. match goal with H : ¬ Exists _ _ |- _ => apply H end. apply Exists_exists. eauto.
Qed.

Lemma addBinding_cases p env i now w r w' : AddEnvironmentRuntimeBinding p env i now w = (r, w') →
  match r with
  | inl _ => audited w w'
  | inr _ => authorized p env now (pl_db w) ∧ BindingInput_valid i = true ∧
      validate_binding_scope (pl_secrets w) env (bindingRow i) = true ∧ binding_check env (bindingRow i) = true ∧
      bi_VariableName i ∉ b_variable <$> bindingsOf env (pl_db w) ∧
      pl_db w' = set_bindings (<[env := bindingsOf env (pl_db w) ++ [bindingRow i]]> (db_bindings (pl_db w))) (pl_db w) ∧
      pl_secrets w' = pl_secrets w
  end.
Proof.
  intros [(e&_&->&->)|H]%settle_inv; [done|]. unfold addBindingTx in H.
  apply tx_bind_inv in H as (?&w0&[Hg ->]%tx_guard_inv&H). apply tx_bind_inv in H as (before&w0&[<- ->]%tx_read_inv&H).
  apply tx_bind_inv in H as (?&w0&[Ha ->]%authorizeAdministrator_iff&H). bool_hyps.
  apply recovering_inv in H as [(a&w1&(Hs&Hc&Hn&Ed&Es)%insert_binding_inv&H)|(e&m&_&Hm&H)].
  - apply tx_bind_inv in H as (?&w2&[Ad As _ _ _]%config_audit_inv&H). apply tx_bind_inv in H as (?&w3&[_ ->]%tx_read_inv&[<- ->]%tx_ret_inv).
    split_and!; try done; congruence.
  - assert (m = rolledBack (id w) (insertEnvironmentRuntimeConfigAuditEvent p env "binding_added" (Some (bi_VariableName i)) None "failure")
      ErrEnvironmentRuntimeBindingInvalid) as -> by (by destruct e; simplify_eq).
    by apply rolledBack_inv in H as [-> ?%config_audit_inv].
Qed.

Lemma removeBinding_cases p env name now w r w' : RemoveEnvironmentRuntimeBinding p env name now w = (r, w') →
  match r with
  | inl _ => audited w w'
  | inr _ => authorized p env now (pl_db w) ∧ name ∈ b_variable <$> bindingsOf env (pl_db w) ∧
      pl_db w' = set_bindings (<[env := filter (λ b, b_variable b ≠ name) (bindingsOf env (pl_db w))]> (db_bindings (pl_db w))) (pl_db w) ∧
      pl_secrets w' = pl_secrets w
  end.
Proof.
  intros [(e&_&->&->)|H]%settle_inv; [done|]. unfold removeBindingTx in H.
  apply tx_bind_inv in H as (?&w0&[Hg ->]%tx_guard_inv&H). apply tx_bind_inv in H as (?&w0&[Ha ->]%authorizeAdministrator_iff&H).
  apply tx_bind_inv in H as (removed&w1&H1&H). unfold delete_binding in H1. destruct (bound _ _) eqn:E; injection H1 as <- <-; simpl in H.
  - apply tx_bind_inv in H as (?&w2&[Ad As _ _ _]%config_audit_inv&[<- ->]%tx_ret_inv). split_and!; try done.
    unfold bound in E. bool_hyps. apply Exists_exists in E as (b&?&?). apply list_elem_of_fmap. eauto.
  - by apply tx_bind_inv in H as (?&w2&?%config_audit_inv&[<- ->]%tx_ret_inv).
Qed.

(** ** Host names *)

Lemma hostname_unique_true d env hostname : hostname_unique d env hostname = true ↔
  ∀ e h, db_heads d !! e = Some h → h_hostname h = hostname → e = env.
Proof.
  unfold hostname_unique. rewrite bool_decide_eq_true. split.
  - intros H e h Hh E. destruct (H e h Hh) as [?|?]; done.
  - intros H e h Hh. destruct (decide (h_hostname h = hostname)); [left|by right]. by eapply H.
Qed.

Definition firstHead (hostname : string) (now : Z) : HeadRow :=
  {| h_hostname := hostname; h_revision := 0; h_active := None; h_recon_required := false; h_updated_at := now |}.

Lemma insert_head_inv env h now w u w' : insert_head env h now w = inr (u, w') →
  head_check env now h = true ∧ db_heads (pl_db w) !! env = None ∧ hostname_unique (pl_db w) env (h_hostname h) = true ∧
  pl_db w' = set_heads (<[env := h]> (db_heads (pl_db w))) (pl_db w) ∧ pl_secrets w' = pl_secrets w.
Proof.
  unfold insert_head, head_clash. intros H. tx_inv. bool_hyps. destruct (db_heads (pl_db w) !! env); [done|]. simpl in *.
  by destruct (hostname_unique _ _ _).
Qed.

Lemma update_hostname_inv env hostname now w n w' : update_hostname env hostname now w = inr (n, w') →
  ∃ h, db_heads (pl_db w) !! env = Some h ∧ n = h_revision h + 1 ∧ validate_head_update h (rename_head env hostname now h) = true ∧
    (∃ created, head_check env created (rename_head env hostname now h) = true) ∧ hostname_unique (pl_db w) env hostname = true ∧
    pl_db w' = set_heads (<[env := rename_head env hostname now h]> (db_heads (pl_db w))) (pl_db w) ∧ pl_secrets w' = pl_secrets w.
Proof.
  unfold update_hostname. destruct (db_heads (pl_db w) !! env) as [h|]; [|done]. destruct (maxInt64 <? _); [done|].
  destruct (validate_head_update _ _) eqn:Ev; [|done]. destruct (head_check _ _ _) eqn:Ec; [|done].
  destruct (hostname_unique _ _ _) eqn:Eu; [|done]. intros [= <- <-]. exists h. split_and!; eauto.
Qed.

Lemma assign_cases lower p env hostname expected now w r w' :
  AssignRouteHostname lower p env hostname expected now w = (r, w') →
  match r with
  | inl _ => audited w w'
  | inr _ =>
      let host := normalizeRouteHostname lower hostname in
      authorized p env now (pl_db w) ∧ ValidRouteHostname host = true ∧ hostname_check host = true ∧
      hostname_unique (pl_db w) env host = true ∧ pl_secrets w' = pl_secrets w ∧
      match expected with
      | None => db_heads (pl_db w) !! env = None ∧
          pl_db w' = set_heads (<[env := firstHead host now]> (db_heads (pl_db w))) (pl_db w)
      | Some n => ∃ h, db_heads (pl_db w) !! env = Some h ∧ h_revision h = n ∧ default "" (h_active h) = "" ∧
          validate_head_update h (rename_head env host now h) = true ∧
          pl_db w' = set_heads (<[env := rename_head env host now h]> (db_heads (pl_db w))) (pl_db w)
      end
  end.
Proof.
  intros [(e&_&->&->)|H]%settle_inv; [done|]. unfold assignRouteHostnameTx in H. set (host := normalizeRouteHostname lower hostname) in *.
  apply tx_bind_inv in H as (?&w0&[Hg ->]%tx_guard_inv&H). apply tx_bind_inv in H as (?&w0&[_ ->]%tx_guard_inv&H).
  apply tx_bind_inv in H as (before&w0&[<- ->]%tx_read_inv&H). apply tx_bind_inv in H as (?&w0&[Ha ->]%authorizeAdministrator_iff&H).
  bool_hyps. destruct expected as [n|].
  - unfold updateRouteHeadHostnameTx in H. apply tx_bind_inv in H as (c&w0&[<- ->]%tx_read_inv&H).
    assert (∀ e r w', refuseHostname p env host e w = inr (r, w') → match r with inl _ => audited w w' | inr _ => False end) as Hrefuse.
    { intros e r1 w1 Hr. by apply tx_bind_inv in Hr as (?&w2&?%head_audit_inv&[<- ->]%tx_ret_inv). }
    unfold readRouteHead in H. destruct (db_heads (pl_db w) !! env) as [h|] eqn:Eh; simpl in H; [|apply Hrefuse in H; by destruct r].
    case_bool_decide as Eact; simpl in H; [|apply Hrefuse in H; by destruct r].
    destruct (h_revision h =? n) eqn:En; simpl in H; [|apply Hrefuse in H; by destruct r]. bool_hyps.
    apply recovering_inv in H as [(k&w1&(h'&Hh'&_&Hv&(cr&Hc)&Hu&Ed&Es)%update_hostname_inv&H)|(e&m&_&Hm&H)].
    + apply tx_bind_inv in H as (?&w2&[Ad1 As1 _ _ _]%head_audit_inv&H).
      apply tx_bind_inv in H as (?&w3&[Ad2 As2 _ _ _]%hostname_event_inv&[<- ->]%tx_ret_inv). simplify_eq.
      unfold head_check in Hc. simpl in Hc. bool_hyps. split_and!; try done; [congruence|]. exists h. split_and!; try done. congruence.
    + destruct e; simplify_eq. by apply rolledBack_inv in H as [-> ?%head_audit_inv].
  - unfold createRouteHeadTx in H. apply tx_bind_inv in H as (clash&w0&[<- ->]%tx_read_inv&H).
    apply recovering_inv in H as [(k&w1&(Hc&Hn&Hu&Ed&Es)%insert_head_inv&H)|(e&m&_&Hm&H)].
    + apply tx_bind_inv in H as (?&w2&[Ad1 As1 _ _ _]%head_audit_inv&H).
      apply tx_bind_inv in H as (?&w3&[Ad2 As2 _ _ _]%hostname_event_inv&[<- ->]%tx_ret_inv).
      unfold head_check in Hc. simpl in Hc, Hu. bool_hyps. split_and!; try done; unfold firstHead; congruence.
    + destruct e; simplify_eq. by apply rolledBack_inv in H as [-> ?%head_audit_inv].
Qed.

(** ** Materialization *)

(** The attempt holds its environment's slot under the fence, uncancelled and
    before its deadline, and the server presents its current credential. *)
Definition liveAttempt (serverID digest : string) (attemptID fence now : Z) (d : DB) (job : JobRow) (a : AttemptRow) : Prop :=
  credentialMatches serverID digest d = true ∧ db_attempts d !! attemptID = Some a ∧ a_server a = serverID ∧
  a_state a = AttemptLeased ∧ a_fence a = fence ∧ now < a_authority_expires a ∧
  db_jobs d !! a_job a = Some job ∧ j_cancel_requested_at job = None ∧
  ∃ s, db_slots d !! a_env a = Some s ∧ s_fence s = fence ∧ s_recon_required s = false ∧ s_current s = Some attemptID.

Lemma reauthorize_iff serverID digest attemptID fence now d job a d' :
  reauthorize serverID digest attemptID fence now d = inr ((job, a), d') ↔
  liveAttempt serverID digest attemptID fence now d job a ∧ d' = d.
Proof.
  split.
  - intros (->&?&?&?&?&?&?&?&?&?)%reauthorize_inv. split; [|done]. unfold liveAttempt. by split_and!.
  - intros [(Hcred&Ha&Hs&Hst&Hf&Hnow&Hj&Hcan&s&Hslot&Hsf&Hrec&Hcur) ->].
    unfold reauthorize, lockActiveServerCredential, occupiedBy, tx_bind, tx_read, tx_guard, tx_some. rewrite Hcred.
    assert (∃ srv, db_servers d !! serverID = Some srv) as [srv Hsrv].
    { unfold credentialMatches, matchServerCredential in Hcred. destruct (db_servers d !! serverID) eqn:E; [eauto|done]. }
    simpl. rewrite Hsrv. simpl. rewrite Ha. simpl. rewrite Hs, bool_decide_true by done. simpl. rewrite Hslot. simpl.
    rewrite Hsf, Z.eqb_refl, Hrec, Hcur, bool_decide_true by done. simpl. rewrite Hj, Hcan. simpl.
    rewrite Ha. by rewrite Hst, Hf, Z.eqb_refl, (proj2 (Z.ltb_lt _ _) Hnow).
Qed.

(** What a frozen row must satisfy to be handed out. *)
Definition deliverable (job : JobRow) (env : string) (r : FrozenRow) : Prop :=
  vr_state (fz_version r) ≠ VersionRevoked ∧ vr_owner (fz_version r) = j_owner job ∧ vr_project (fz_version r) = j_project job ∧
  vr_env (fz_version r) = env ∧ sh_delivery (fz_head r) = fb_scope (fz_binding r).

Lemma scanFrozen_iff job env rows refs :
  scanFrozen job env rows = Some refs ↔ Forall (deliverable job env) rows ∧ refs = frozenReference <$> rows.
Proof.
  revert refs. induction rows as [|r rows IH]; intros refs; simpl; [split; [by intros [= <-]|by intros [_ ->]]|].
  rewrite Forall_cons. unfold deliverable at 1. case_bool_decide as Er; [split; [done|tauto]|].
  do 4 (case_bool_decide; simpl; [|split; [done|tauto]]).
  rewrite fmap_Some. setoid_rewrite IH. split; [intros (x&[Hx ->]&->); tauto|]. intros [[_ HF] ->]. eauto.
Qed.

Lemma authorizeMaterialization_iff serverID digest attemptID fence now w m w' :
  AuthorizeMaterialization serverID digest attemptID fence now w = (inr m, w') ↔
  w' = w ∧ ValidOpaqueID serverID = true ∧ 0 < attemptID ∧ 0 < fence ∧
  ∃ job a, liveAttempt serverID digest attemptID fence now (pl_db w) job a ∧
    Forall (deliverable job (a_env a)) (frozenRows attemptID w) ∧
    m = {| ma_AttemptID := attemptID; ma_Fence := fence; ma_JobID := a_job a; ma_OwnerID := j_owner job;
           ma_ProjectID := j_project job; ma_EnvironmentID := a_env a; ma_DeploymentID := j_deployment job;
           ma_Secrets := frozenReference <$> frozenRows attemptID w |}.
Proof.
  unfold AuthorizeMaterialization, authorizeMaterializationTx. split.
  - intros H. assert (authorizeMaterializationTx serverID digest attemptID fence now w = inr (m, w')) as H'.
    { unfold run_tx in H. destruct (tx_bind _ _ w) as [|[]] eqn:E; [done|]. injection H as -> ->. exact E. }
    clear H. unfold authorizeMaterializationTx in H'. apply tx_bind_inv in H' as (?&w0&[Hg ->]%tx_guard_inv&H).
    apply tx_bind_inv in H as ([job a]&w0&(d&[Hl ->]%reauthorize_iff&->)%onTables_inv&H). rewrite with_db_id in H.
    apply tx_bind_inv in H as (refs&w0&[[HF ->]%scanFrozen_iff ->]%tx_some_inv&[<- ->]%tx_ret_inv). bool_hyps.
    split_and!; try done. by exists job, a.
  - intros (->&Hs&Ha&Hf&job&a&Hl&HF&->). apply run_tx_inr. apply tx_bind_inv. exists tt, w. split.
    { apply tx_guard_inv. rewrite Hs, (proj2 (Z.ltb_lt _ _) Ha), (proj2 (Z.ltb_lt _ _) Hf). done. }
    apply tx_bind_inv. exists (job, a), w. split.
    { apply onTables_inv. exists (pl_db w). rewrite with_db_id. split; [|done]. by apply reauthorize_iff. }
    apply tx_bind_inv. exists (frozenReference <$> frozenRows attemptID w), w. split; [|done].
    apply tx_some_inv. split; [|done]. by apply scanFrozen_iff.
Qed.
