(* ===== verification/PlaneKept.v ===== *)
(** * What the lease repository leaves to the administrator

    No lease call writes the configuration, the bindings, the columns of the
    secret tables or a host name ([plane_same]); only a claim writes frozen
    rows or attempts, and it freezes one attempt as [tryClaim_freeze] says
    ([frozen_same] for every other call, [freezes] for a claimed lease). *)
From S2P Require Import Prelude GoStd Deployment Queue Route Schema Evidence DeploymentStore LeaseCore Lease LeaseInv LeaseSteps LeaseSpec Activation Resolution ActivationSteps Enqueue LeaseSystem Scenario ClaimProps CallsKeep.
From stdpp Require Import relations.
#[local] Open Scope Z_scope.

Definition hostnames (d : DB) : gmap string string := h_hostname <$> db_heads d.
Definition attemptEnvs (d : DB) : gmap Z string := a_env <$> db_attempts d.

Record plane_same (d d' : DB) : Prop := {
  ps_configs : db_configs d' = db_configs d;
  ps_bindings : db_bindings d' = db_bindings d;
  ps_secret_heads : db_secret_heads d' = db_secret_heads d;
  ps_secret_versions : db_secret_versions d' = db_secret_versions d;
  ps_hostnames : hostnames d' = hostnames d;
}.
#[global] Instance plane_same_preorder : PreOrder plane_same.
Proof. split; [by split|]. intros d1 d2 d3 [] []. split; by etrans. Qed.

Record frozen_same (d d' : DB) : Prop := {
  fs_plane : plane_same d d';
  fs_execution : db_execution d' = db_execution d;
  fs_secrets : db_frozen_secrets d' = db_frozen_secrets d;
  fs_attempts : attemptEnvs d' = attemptEnvs d;
}.
#[global] Instance frozen_same_preorder : PreOrder frozen_same.
Proof. split; [by split|]. intros d1 d2 d3 [] []. split; by etrans. Qed.

Lemma hostnames_insert d e h h' : db_heads d !! e = Some h → h_hostname h' = h_hostname h →
  hostnames (set_heads (<[e := h']> (db_heads d)) d) = hostnames d.
Proof. intros Hh E. unfold hostnames. simpl. rewrite fmap_insert, E. apply insert_id. by rewrite lookup_fmap, Hh. Qed.

Lemma attemptEnvs_insert d a r r' n : db_attempts d !! a = Some r → a_env r' = a_env r →
  attemptEnvs (set_attempts (<[a := r']> (db_attempts d)) n d) = attemptEnvs d.
Proof. intros Hr E. unfold attemptEnvs. simpl. rewrite fmap_insert, E. apply insert_id. by rewrite lookup_fmap, Hr. Qed.

Lemma frozen_same_update_job i w f : tx_rel frozen_same (update_job i w f).
Proof. by intros d b d' [(_&->&_)|(j&_&Hj&_&Hv&_&->)]%update_job_inv. Qed.

#[export] Instance frozen_same_statements : KeptByStatements frozen_same.
Proof.
  split; [split|]; try done; try apply _; try (intros; apply frozen_same_update_job).
  - intros a w f d u d' [(_&->&_)|(r&_&Hr&_&Hv&_&->)]%update_attempt_inv; [done|]. split; try done.
    eapply attemptEnvs_insert; [done|]. unfold validate_attempt_update in Hv. by bool_hyps.
  - by intros e w f d u d' [(_&->&_)|(r&_&_&_&_&_&->)]%update_slot_inv.
  - by intros k w f d u d' [(_&->&_)|(r&_&_&_&_&_&->)]%update_op_inv.
  - intros e w f Hf d u d' [(_&->&_)|(h&_&Hh&_&_&->)]%update_head_inv; [done|]. split; try done. split; try done.
    by eapply hostnames_insert.
  - by intros o d u d' (_&_&_&_&->)%insert_op_inv.
Qed.
#[export] Instance frozen_same_push : KeptByPush frozen_same.
Proof. split. intros i kt row d u d'. unfold insert_job. case_match; [done|]. by intros [= _ <-]. Qed.

Lemma frozen_plane {A} (m : Tx DB Err A) : tx_rel frozen_same m → tx_rel plane_same m.
Proof. intros Hm d x d' H. by eapply fs_plane, Hm. Qed.

#[export] Instance plane_same_statements : KeptByStatements plane_same.
Proof.
  split; [split|]; try done; try apply _; intros; apply frozen_plane.
  all: first [apply ks_update_job|apply ks_update_attempt|apply ks_update_slot|apply ks_update_op|by apply ks_update_head|apply ks_insert_op].
Qed.
#[export] Instance plane_same_claims : KeptByClaims plane_same.
Proof. split; [|done]. by intros r d u d' (_&_&_&_&->)%insert_attempt_inv. Qed.

Lemma exec_frozen_same errorText c d : isClaim c = false → frozen_same d (exec errorText c d).
Proof.
  intros Hc. destruct (isPush c) eqn:Hp; [by apply (push_keeps frozen_same)|by apply (exec_keeps frozen_same)].
Qed.
Lemma exec_plane_same errorText c d : plane_same d (exec errorText c d).
Proof.
  destruct (isClaim c) eqn:Hc; [by apply (claim_keeps plane_same)|by apply fs_plane, exec_frozen_same].
Qed.
