(* ===== verification/PlaneSystem.v ===== *)
(** * The plane: administrators, agents and the secret store together

    A run of the plane is a list of calls of the administrator's repositories,
    of the lease repository and of the secret repository, in any order and
    with any arguments.  [plane_inv] is what every reachable state satisfies;
    its history [H] records the configuration each revision of each
    environment had. *)
From S2P Require Import Prelude GoStd Deployment Queue Route Regex HealthGate Schema Evidence DeploymentStore LeaseCore Lease LeaseInv LeaseSteps LeaseSpec Activation Resolution ActivationSteps Enqueue LeaseSystem Scenario ClaimProps CallsKeep Crypto Secrets SecretInv SecretService SecretPool SecretProps Plane PlaneSteps PlaneKept.
From stdpp Require Import relations sorting.
#[local] Open Scope Z_scope.

(** ** The invariant *)

(** A frozen reference names a version of the environment, in the scope it
    was bound with, of a secret that may be deployed. *)
Definition scoped (s : SecretDB) (env : string) (b : frozenBinding) : Prop :=
  ∃ v h, sd_versions s !! fb_version b = Some v ∧ sd_heads s !! vr_secret v = Some h ∧ vr_env v = env ∧
    sh_delivery h = fb_scope b ∧ sh_purpose h ≠ "provider".

#[local] Notation History := (gmap (string * Z) frozenExecutionSnapshot).

Record plane_inv (H : History) (s : SecretDB) (d : DB) : Prop := {
  pi_secrets : SecretInv s;
  pi_view : db_secret_heads d = sh_current <$> sd_heads s ∧ db_secret_versions d = vr_state <$> sd_versions s;
  pi_config : ∀ e c, db_configs d !! e = Some c → H !! (e, ConfigRevision c) = Some c;
  pi_history : ∀ e n c, H !! (e, n) = Some c →
    ConfigRevision c = n ∧ config_check e c = true ∧ ∃ c', db_configs d !! e = Some c' ∧ n ≤ ConfigRevision c';
  pi_execution : ∀ a c, db_execution d !! a = Some c → ∃ e, attemptEnvs d !! a = Some e ∧ H !! (e, ConfigRevision c) = Some c;
  pi_bindings : ∀ e, NoDup (b_variable <$> bindingsOf e d) ∧
    Forall (λ b, binding_check e b = true ∧ validate_binding_scope s e b = true) (bindingsOf e d);
  pi_frozen : ∀ a bs, db_frozen_secrets d !! a = Some bs →
    ∃ e, attemptEnvs d !! a = Some e ∧ NoDup (fb_variable <$> bs) ∧ Forall (scoped s e) bs;
  pi_hostname : ∀ e x, hostnames d !! e = Some x → hostname_check x = true;
  pi_unique : ∀ e1 e2 x, hostnames d !! e1 = Some x → hostnames d !! e2 = Some x → e1 = e2;
}.

(** ** Calls that write none of it *)

Lemma plane_frozen_same H s d d' : frozen_same d d' → plane_inv H s d → plane_inv H s d'.
Proof.
  intros [[E1 E2 E3 E4 E5] E6 E7 E8] []. assert (∀ e, bindingsOf e d' = bindingsOf e d) as Eb by (intros e; unfold bindingsOf; by rewrite E2).
  split; try done; rewrite ?E1, ?E3, ?E4, ?E5, ?E6, ?E7, ?E8; try done. intros e. by rewrite Eb.
Qed.

(** ** Claims *)

Lemma resolveSecret_scoped s d e b fb : validate_binding_scope s e b = true → SecretInv s →
  db_secret_heads d = sh_current <$> sd_heads s → resolveSecret d b = Some fb →
  scoped s e fb ∧ fb_variable fb = b_variable b.
Proof.
  unfold resolveSecret, validate_binding_scope. intros Hs Hi Ev H. destruct (b_target b) as [id|]; [|done].
  destruct (sd_heads s !! id) as [h|] eqn:Eh; [|done]. rewrite Ev, lookup_fmap, Eh in H. simpl in H.
  destruct (sh_current h) as [v|] eqn:Ec; [|done]. case_match; [|done]. case_match; try done. injection H as <-. bool_hyps.
  split; [|done]. destruct (si_head s Hi id h Eh) as (_&_&c&w&Hc&Hw&Es&_). simplify_eq.
  destruct (si_scope s Hi _ w Hw) as (h'&Hh'&_&_&E&_). assert (h' = h) as -> by congruence.
  exists w, h. split_and!; try done; congruence.
Qed.

Lemma omap_NoDup (f : BindingRow → option frozenBinding) l :
  (∀ b fb, b ∈ l → f b = Some fb → fb_variable fb = b_variable b) → NoDup (b_variable <$> l) → NoDup (fb_variable <$> omap f l).
Proof.
  intros Hf. induction l as [|b l IH]; intros Hn; [constructor|]. apply NoDup_cons in Hn as [Hb Hn]. simpl.
  assert (NoDup (fb_variable <$> omap f l)) as Hl by (apply IH; [|done]; intros; apply Hf; [by right|done]).
  destruct (f b) as [fb|] eqn:E; [|done]. simpl. apply NoDup_cons. split; [|done].
  rewrite (Hf b fb); [|by left|done]. intros (fb'&Ev&Hin)%list_elem_of_fmap. apply list_elem_of_omap in Hin as (b'&Hb'&E').
  apply Hb. rewrite Ev, (Hf b' fb'); [by apply list_elem_of_fmap_2|by right|done].
Qed.

Lemma resolved_scoped H s d e bs : plane_inv H s d → resolveRuntimeSecretBindings e d = Some bs →
  NoDup (fb_variable <$> bs) ∧ Forall (scoped s e) bs.
Proof.
  intros [Hi [Ev _] _ _ _ Hb _ _ _] Hr. destruct (Hb e) as [Hn HF]. unfold resolveRuntimeSecretBindings in Hr.
  case_match; [done|]. injection Hr as <-. rewrite Forall_forall in HF. unfold bindingsOf in *.
  rewrite merge_sort_Permutation. split.
  - apply omap_NoDup; [|done]. intros b fb Hin E. eapply resolveSecret_scoped in E as [_ ?]; [done|by apply HF| |]; done.
  - apply Forall_forall. intros fb (b&Hin&E)%list_elem_of_omap. eapply resolveSecret_scoped in E as [? _]; [done|by apply HF| |]; done.
Qed.

Lemma attemptEnvs_lookup d a e : attemptEnvs d !! a = Some e ↔ ∃ r, db_attempts d !! a = Some r ∧ a_env r = e.
Proof. unfold attemptEnvs. rewrite lookup_fmap, fmap_Some. naive_solver. Qed.

Lemma frozenSecrets_inv H s d a : plane_inv H s d → frozenSecrets a d = [] ∨
  ∃ bs, frozenSecrets a d = bs ∧ db_frozen_secrets d !! a = Some bs.
Proof. intros _. unfold frozenSecrets. destruct (db_frozen_secrets d !! a); simpl; eauto. Qed.

Lemma plane_tryClaim H s lk srv i e now d x d' : plane_inv H s d → lease_inv d → tryClaim lk srv i e now d = inr (x, d') → plane_inv H s d'.
Proof.
  intros HP Hl Ht. pose proof Ht as Hsame. apply (keep_tryClaim plane_same) in Hsame. destruct Hsame as [E1 E2 E3 E4 E5].
  pose proof Ht as Ho. apply tryClaim_inv in Ho as [[-> ->]|(l&slot&job&->&Hs&Hsc&_&Hj&_&_&Hop&_&Ea&_)]; [done| |done].
  apply tryClaim_freeze in Ht as (Hsrc&Ex&Ef&_); [|done]. rewrite Ea in *. pose proof (opn_attempts _ _ _ _ _ _ _ Hop) as Eat.
  assert (attemptEnvs d' = <[db_next_attempt d := e]> (attemptEnvs d)) as Een by (unfold attemptEnvs; by rewrite Eat, fmap_insert).
  assert (∀ a, is_Some (attemptEnvs d !! a) → a ≠ db_next_attempt d) as Hfresh.
  { intros a [e' (r&Hr&_)%attemptEnvs_lookup]. destruct (inv_attempt d Hl a r Hr) as [? _]. lia. }
  assert (j_env job = e) as He by apply (opn_r _ _ _ _ _ _ _ Hop).
  assert (frozenSecrets (db_next_attempt d) d = []) as Enil.
  { unfold frozenSecrets. destruct (db_frozen_secrets d !! db_next_attempt d) eqn:E; [|done].
    destruct (pi_frozen H s d HP _ _ E) as (e'&Hin&_). by destruct (Hfresh (db_next_attempt d)). }
  rewrite Enil in Ef. simpl in Ef.
  assert (H !! (e, ConfigRevision (cl_Config l)) = Some (cl_Config l) ∧ NoDup (fb_variable <$> cl_SecretBindings l) ∧
    Forall (scoped s e) (cl_SecretBindings l)) as (Hcfg&Hnd&Hsc').
  { destruct Hsrc as [(_&Hc&Hb&_)|(_&p&r&Hp&Hpj&_&Hc&Hb&_)].
    - split; [by apply (pi_config H s d HP)|by eapply resolved_scoped].
    - destruct (inv_attempt d Hl p r Hp) as (_&_&s0&j0&_&_&Hj0&Ej&_).
      assert (attemptEnvs d !! p = Some e) as Hpe by (apply attemptEnvs_lookup; exists r; split; [done|congruence]).
      split. { destruct (pi_execution H s d HP p _ Hc) as (e'&He'&?). congruence. }
      rewrite Hb. destruct (frozenSecrets_inv H s d p HP) as [->|(bs&->&Hbs)]; [by repeat constructor|].
      destruct (pi_frozen H s d HP p bs Hbs) as (e'&He'&?). congruence. }
  destruct HP as [Hi Hv Hcf Hh Hx Hbi Hfz Hhn Hu]. split; try done; rewrite ?E1, ?E3, ?E4, ?E5; try done.
  - intros a c. rewrite Ex, Een. intros [[<- <-]|[Hne Ha]]%lookup_insert_Some; [exists e; by rewrite lookup_insert_eq|].
    destruct (Hx a c Ha) as (e'&He'&?). exists e'. by rewrite lookup_insert_ne.
  - intros e'. unfold bindingsOf. rewrite E2. apply Hbi.
  - intros a bs. rewrite Ef, Een. intros [[<- <-]|[Hne Ha]]%lookup_insert_Some; [exists e; by rewrite lookup_insert_eq|].
    destruct (Hfz a bs Ha) as (e'&He'&?). exists e'. by rewrite lookup_insert_ne.
Qed.

Lemma plane_claim H s lk srv dg limit now cs d x d' : plane_inv H s d → lease_inv d →
  claimTx lk srv dg limit now cs d = inr (x, d') → plane_inv H s d'.
Proof.
  intros HP Hl Hc. unfold claimTx in Hc. apply tx_bind_inv in Hc as (?&d0&[_ ->]%lockActiveServerCredential_inv&Hc).
  revert d HP Hl Hc. generalize (@nil ClaimedLease). induction cs as [|c cs IH]; intros claimed d HP Hl Hc; simpl in Hc; [by tx_inv|].
  destruct (limit <=? _); [by tx_inv|]. apply tx_bind_inv in Hc as (r&d1&H1&Hc).
  eapply IH; [by eapply plane_tryClaim|by eapply tryClaim_preserves|done].
Qed.

(** ** The secret store *)

Lemma scoped_kept s s' e b : secretsKept s s' → scoped s e b → scoped s' e b.
Proof.
  intros Hk (v&h&Hv&Hh&?&?&?). destruct (sk_versions s s' Hk _ v Hv) as (v'&Hv'&[(Es&_&_&Ee&_) _ _ _]).
  destruct (sk_heads s s' Hk _ h Hh) as (h'&Hh'&(_&_&_&Ep&Ed&_)). exists v', h'. rewrite Es. split_and!; congruence.
Qed.

Lemma binding_scope_kept s s' e b : secretsKept s s' → validate_binding_scope s e b = true → validate_binding_scope s' e b = true.
Proof.
  intros Hk. unfold validate_binding_scope. destruct (b_target b) as [id|]; [|done].
  destruct (sd_heads s !! id) as [h|] eqn:Eh; [|done]. destruct (sk_heads s s' Hk id h Eh) as (h'&->&(_&_&E1&E2&E3&_)).
  by rewrite E1, E2, E3.
Qed.

Lemma plane_secret H s s' d : plane_inv H s d → SecretInv s' → secretsKept s s' → plane_inv H s' (secretView s' d).
Proof.
  intros [] Hi Hk. split; try done.
  - intros e. destruct (pi_bindings0 e) as [? HF]. split; [done|]. eapply Forall_impl; [exact HF|]. intros b [? ?].
    split; [done|by eapply binding_scope_kept].
  - intros a bs Ha. destruct (pi_frozen0 a bs Ha) as (e&?&?&HF). exists e. split_and!; [done..|].
    eapply Forall_impl; [exact HF|]. intros b. by apply scoped_kept.
Qed.

(** ** The administrator's writes *)

Lemma plane_config H s d e c : plane_inv H s d → config_check e c = true → H !! (e, ConfigRevision c) = None →
  (∀ c', db_configs d !! e = Some c' → ConfigRevision c' ≤ ConfigRevision c) →
  plane_inv (<[(e, ConfigRevision c) := c]> H) s (set_configs (<[e := c]> (db_configs d)) d).
Proof.
  intros [] Hc Hn Hle. split; try done; simpl.
  - intros e' c' [[-> ->]|[Hne Hc']]%lookup_insert_Some; [apply lookup_insert_eq|].
    rewrite lookup_insert_ne; [by apply pi_config0|congruence].
  - intros e' n c' [[[= <- <-] <-]|[Hne Hc']]%lookup_insert_Some.
    + split_and!; [done..|]. exists c. by rewrite lookup_insert_eq.
    + destruct (pi_history0 e' n c' Hc') as (?&?&c2&Hc2&?). split_and!; [done..|].
      destruct (decide (e' = e)) as [->|]; [|exists c2; by rewrite lookup_insert_ne].
      exists c. rewrite lookup_insert_eq. split; [done|]. specialize (Hle c2 Hc2). lia.
  - intros a c' Ha. destruct (pi_execution0 a c' Ha) as (e'&?&Hc'). exists e'. split; [done|].
    rewrite lookup_insert_ne; [done|]. intros [= -> E]. rewrite E in Hn. congruence.
Qed.

Lemma plane_bindings H s d e bs : plane_inv H s d → NoDup (b_variable <$> bs) →
  Forall (λ b, binding_check e b = true ∧ validate_binding_scope s e b = true) bs →
  plane_inv H s (set_bindings (<[e := bs]> (db_bindings d)) d).
Proof.
  intros [] Hn HF. split; try done. intros e'. unfold bindingsOf. simpl. destruct (decide (e' = e)) as [->|].
  - by rewrite lookup_insert_eq.
  - rewrite lookup_insert_ne by done. apply pi_bindings0.
Qed.

Lemma plane_hostname H s d e h : plane_inv H s d → hostname_check (h_hostname h) = true → hostname_unique d e (h_hostname h) = true →
  plane_inv H s (set_heads (<[e := h]> (db_heads d)) d).
Proof.
  intros [] Hc Hu. rewrite hostname_unique_true in Hu.
  assert (∀ e' x, hostnames d !! e' = Some x → x = h_hostname h → e' = e) as Hu'.
  { intros e' x Hx ->. unfold hostnames in Hx. rewrite lookup_fmap in Hx. apply fmap_Some in Hx as (h'&Hh'&E). by eapply Hu. }
  assert (hostnames (set_heads (<[e := h]> (db_heads d)) d) = <[e := h_hostname h]> (hostnames d)) as Eh
    by (unfold hostnames; simpl; apply fmap_insert).
  split; try done; rewrite Eh.
  - intros e' x [[<- <-]|[_ Hx]]%lookup_insert_Some; [done|by eapply pi_hostname0].
  - intros e1 e2 x [[<- <-]|[Hn1 H1]]%lookup_insert_Some [[<- Ex]|[Hn2 H2]]%lookup_insert_Some; subst; try done.
    + symmetry. by eapply Hu'.
    + by eapply Hu'.
    + by eapply pi_unique0.
Qed.

(** ** The system *)

Section system.
Context (errorText : Err → string).

Inductive PlaneCall :=
  | PlLease (c : Call)
  | PlSecret (c : AnyCall)
  | PlCreateConfig (p : Principal) (env : string) (i : RuntimeConfigInput) (now : Z)
  | PlUpdateConfig (p : Principal) (env : string) (i : RuntimeConfigInput) (expected now : Z)
  | PlAddBinding (p : Principal) (env : string) (i : BindingInput) (now : Z)
  | PlRemoveBinding (p : Principal) (env name : string) (now : Z)
  | PlAssignHostname (lower : string → string) (p : Principal) (env hostname : string) (expected : option Z) (now : Z).

Definition planeExec (c : PlaneCall) (w : PlaneDB) : PlaneDB :=
  match c with
  | PlLease c => with_db (exec errorText c (pl_db w)) w
  | PlSecret c => with_secrets (runAny (pl_secrets w) c) w
  | PlCreateConfig p env i now => (CreateEnvironmentRuntimeConfig p env i now w).2
  | PlUpdateConfig p env i expected now => (UpdateEnvironmentRuntimeConfig p env i expected now w).2
  | PlAddBinding p env i now => (AddEnvironmentRuntimeBinding p env i now w).2
  | PlRemoveBinding p env name now => (RemoveEnvironmentRuntimeBinding p env name now w).2
  | PlAssignHostname lower p env hostname expected now => (AssignRouteHostname lower p env hostname expected now w).2
  end.

(** One call, or a write of another repository (sessions, servers) that
    leaves the lease tables and the plane's alone. *)
Inductive plane_step (w : PlaneDB) : PlaneDB → Prop :=
  | plane_call c : plane_step w (planeExec c w)
  | plane_other d' : lease_frame (pl_db w) d' → frozen_same (pl_db w) d' → plane_step w (with_db d' w).

(** A migrated database, apart from sessions, servers and credentials. *)
Definition plane_initial (w : PlaneDB) : Prop :=
  (∃ g, pl_secrets w = freshSecrets g) ∧ initial (pl_db w) ∧ db_configs (pl_db w) = ∅ ∧ db_bindings (pl_db w) = ∅ ∧
  db_secret_heads (pl_db w) = ∅ ∧ db_secret_versions (pl_db w) = ∅ ∧ db_heads (pl_db w) = ∅ ∧ db_frozen_secrets (pl_db w) = ∅.

Inductive plane_reachable : PlaneDB → Prop :=
  | plane_init w : plane_initial w → plane_reachable w
  | plane_next w w' : plane_reachable w → plane_step w w' → plane_reachable w'.

(** The lease repository sees the administrators as other repositories. *)
Lemma planeExec_lease c w : (∃ c', c = PlLease c') ∨ lease_frame (pl_db w) (pl_db (planeExec c w)).
Proof.
  assert (∀ w w', audited w w' → lease_frame (pl_db w) (pl_db w')) as Haud by (by intros ?? [-> _ _ _ _]).
  destruct c as [c|c|p env i now|p env i expected now|p env i now|p env name now|lower p env hostname expected now]; [eauto|right..]; simpl.
  - by unfold lease_frame.
  - destruct (CreateEnvironmentRuntimeConfig p env i now w) as [[e|rc] w'] eqn:E; apply createConfig_cases in E; simpl; [auto|].
    destruct E as (_&_&_&_&_&[-> _ _ _ _]). by unfold lease_frame.
  - destruct (UpdateEnvironmentRuntimeConfig p env i expected now w) as [[e|rc] w'] eqn:E; apply updateConfig_cases in E; simpl; [auto|].
    destruct E as (_&_&_&_&_&[-> _ _ _ _]). by unfold lease_frame.
  - destruct (AddEnvironmentRuntimeBinding p env i now w) as [[e|rc] w'] eqn:E; apply addBinding_cases in E; simpl; [auto|].
    destruct E as (_&_&_&_&_&->&_). by unfold lease_frame.
  - destruct (RemoveEnvironmentRuntimeBinding p env name now w) as [[e|rc] w'] eqn:E; apply removeBinding_cases in E; simpl; [auto|].
    destruct E as (_&_&->&_). by unfold lease_frame.
  - destruct (AssignRouteHostname lower p env hostname expected now w) as [[e|rc] w'] eqn:E; apply assign_cases in E; simpl; [auto|].
    destruct E as (_&_&_&_&_&E). destruct expected; [destruct E as (h&_&_&_&_&->)|destruct E as [_ ->]]; by unfold lease_frame.
Qed.

Lemma plane_lease w : plane_reachable w → reachable errorText (pl_db w).
Proof.
  induction 1 as [w (_&Hi&_)|w w' _ IH Hs]; [by apply reach_init|]. destruct Hs as [c|d' Hf _].
  - destruct (planeExec_lease c w) as [[c' ->]|Hf]; [apply (reach_step _ (pl_db w)); [done|apply step_call]|].
    apply (reach_step _ (pl_db w)); [done|by apply step_other].
  - apply (reach_step _ (pl_db w)); [done|by apply step_other].
Qed.

(** The history only grows. *)
Lemma planeExec_inv H c w : plane_inv H (pl_secrets w) (pl_db w) → lease_inv (pl_db w) →
  ∃ H', H ⊆ H' ∧ plane_inv H' (pl_secrets (planeExec c w)) (pl_db (planeExec c w)).
Proof.
  intros HP Hl.
  assert (∀ w', audited w w' → ∃ H', H ⊆ H' ∧ plane_inv H' (pl_secrets w') (pl_db w')) as Haud.
  { intros w' [-> -> _ _ _]. eauto. }
  destruct c as [c|c|p env i now|p env i expected now|p env i now|p env name now|lower p env hostname expected now]; simpl.
  - exists H. split; [done|]. destruct (isClaim c) eqn:Ec; [|by eapply plane_frozen_same; [apply exec_frozen_same|]].
    destruct c; try done. simpl. unfold run_tx. destruct (claimTx _ _ _ _ _ _ _) as [|[x d']] eqn:E; simpl; [done|by eapply plane_claim].
  - exists H. split; [done|]. apply (plane_secret H (pl_secrets w)); [done| |apply runCall_kept].
    apply runCall_inv, HP.
  - destruct (CreateEnvironmentRuntimeConfig p env i now w) as [[e|rc] w'] eqn:E; apply createConfig_cases in E; simpl; [auto|].
    destruct E as (_&_&Hc&Hn&_&[-> -> _ _ _]). simpl.
    assert (∀ n, H !! (env, n) = None) as Hh.
    { intros n. destruct (H !! (env, n)) as [c|] eqn:Eh; [|done]. destruct (pi_history _ _ _ HP env n c Eh) as (_&_&c'&?&_). congruence. }
    eexists. split; [|apply plane_config; [done..|apply Hh|by intros c' ?; simplify_eq]]. by apply insert_subseteq.
  - destruct (UpdateEnvironmentRuntimeConfig p env i expected now w) as [[e|rc] w'] eqn:E; apply updateConfig_cases in E; simpl; [auto|].
    destruct E as (_&_&Hc&(c&Hcur&Hrev)&_&[-> -> _ _ _]). simpl.
    assert (H !! (env, expected + 1) = None) as Hh.
    { destruct (H !! (env, expected + 1)) as [c0|] eqn:Eh; [|done].
      destruct (pi_history _ _ _ HP env _ c0 Eh) as (_&_&c'&?&?). simplify_eq. lia. }
    eexists. split; [|apply plane_config; [done..|exact Hh|intros c' ?; simplify_eq; simpl; lia]]. by apply insert_subseteq.
  - destruct (AddEnvironmentRuntimeBinding p env i now w) as [[e|rc] w'] eqn:E; apply addBinding_cases in E; simpl; [auto|].
    destruct E as (_&_&Hs&Hc&Hn&->&->). exists H. split; [done|]. destruct (pi_bindings _ _ _ HP env) as [Hnd HF].
    apply plane_bindings; [done|..].
    + rewrite fmap_app. apply NoDup_app. split_and!; [done| |apply NoDup_singleton].
      intros x Hx ->%list_elem_of_singleton. by apply Hn.
    + apply Forall_app. split; [done|by apply Forall_singleton].
  - destruct (RemoveEnvironmentRuntimeBinding p env name now w) as [[e|rc] w'] eqn:E; apply removeBinding_cases in E; simpl; [auto|].
    destruct E as (_&_&->&->). exists H. split; [done|]. destruct (pi_bindings _ _ _ HP env) as [Hnd HF].
    apply plane_bindings; [done|..].
    + eapply sublist_NoDup; [exact Hnd|]. apply fmap_sublist, sublist_filter.
    + rewrite Forall_forall in *. intros b [_ Hb]%list_elem_of_filter. by apply HF.
  - destruct (AssignRouteHostname lower p env hostname expected now w) as [[e|rc] w'] eqn:E; apply assign_cases in E; simpl; [auto|].
    destruct E as (_&_&Hc&Hu&->&E). exists H. split; [done|].
    destruct expected; [destruct E as (h&_&_&_&_&->)|destruct E as [_ ->]]; by apply plane_hostname.
Qed.

Lemma plane_initial_inv w : plane_initial w → plane_inv ∅ (pl_secrets w) (pl_db w).
Proof.
  intros ([g ->]&(_&E2&_&_&E3)&E4&E5&E6&E7&E8&E9). split; try (by rewrite ?E3, ?E4, ?E9; intros *; rewrite ?lookup_empty).
  - intros e. unfold bindingsOf. rewrite E5, lookup_empty. split; [constructor|done].
  - unfold hostnames. rewrite E8. intros e x. by rewrite fmap_empty, lookup_empty.
  - unfold hostnames. rewrite E8. intros e e2 x. by rewrite fmap_empty, lookup_empty.
Qed.

Lemma plane_step_inv H w w' : plane_inv H (pl_secrets w) (pl_db w) → lease_inv (pl_db w) → plane_step w w' →
  ∃ H', H ⊆ H' ∧ plane_inv H' (pl_secrets w') (pl_db w').
Proof.
  intros HP Hl [c|d' _ Hf]; [by apply planeExec_inv|]. exists H. split; [done|]. by eapply plane_frozen_same.
Qed.

Lemma plane_reachable_inv w : plane_reachable w → ∃ H, plane_inv H (pl_secrets w) (pl_db w).
Proof.
  induction 1 as [w Hi|w w' Hr [H HP] Hs]; [exists ∅; by apply plane_initial_inv|].
  destruct (plane_step_inv H w w' HP) as (H'&_&?); [by apply sys_lease, (reachable_sys errorText), plane_lease|done|]. eauto.
Qed.

(** Between two states of a run. *)
Lemma plane_run_inv H w w' : plane_reachable w → plane_inv H (pl_secrets w) (pl_db w) → rtc plane_step w w' →
  plane_reachable w' ∧ ∃ H', H ⊆ H' ∧ plane_inv H' (pl_secrets w') (pl_db w').
Proof.
  intros Hr HP Hs. revert H Hr HP. induction Hs as [w|w1 w2 w3 Hs _ IH]; intros H Hr HP; [eauto|].
  destruct (plane_step_inv H w1 w2 HP) as (H2&Hle&HP2); [by apply sys_lease, (reachable_sys errorText), plane_lease|done|].
  destruct (IH H2) as (?&H3&Hle'&?); [by eapply plane_next|done|]. split; [done|]. exists H3. split; [by etrans|done].
Qed.
End system.
