(* ===== verification/PlaneScenario.v ===== *)
(** * A concrete run of the plane

    A secret is created, an environment configured, bound and named, its job
    claimed, and the claim's secret materialized: the states the witnesses of
    [PlaneProps] are about, each computed by the model's own operations. *)
From S2P Require Import Prelude GoStd Deployment Queue Route Regex HealthGate Schema Evidence DeploymentStore LeaseCore Lease LeaseInv LeaseSteps LeaseSpec Activation Resolution ActivationSteps Enqueue LeaseSystem Scenario ClaimProps CallsKeep Aes Crypto Secrets SecretInv SecretService SecretPool SecretProps Plane PlaneSteps PlaneKept PlaneSystem.
From stdpp Require Import relations sorting.
#[local] Open Scope Z_scope.

(** ** A pool of secret operations is a run of the plane *)

Lemma with_secrets_same errorText w : plane_reachable errorText w → with_secrets (pl_secrets w) w = w.
Proof.
  intros [H HP]%plane_reachable_inv. destruct (pi_view _ _ _ HP) as [E1 E2]. destruct w as [d]. unfold with_secrets, secretView. simpl in *.
  rewrite <-E1, <-E2. by destruct d.
Qed.

Lemma with_secrets_twice s s' w : with_secrets s' (with_secrets s w) = with_secrets s' w.
Proof. done. Qed.

Lemma pool_runs_in_plane errorText schedule w pool : plane_reachable errorText w →
  plane_reachable errorText (with_secrets (runSchedule schedule (pl_secrets w, pool)).1 w).
Proof.
  intros Hr. assert (∀ W : World, plane_reachable errorText (with_secrets W.1 w) →
    plane_reachable errorText (with_secrets (runSchedule schedule W).1 w)) as Hrun; [|apply Hrun; simpl; by rewrite (with_secrets_same errorText)].
  induction schedule as [|[i f] schedule IH]; intros W HW; [done|]. simpl. apply IH. unfold poolStep. simpl.
  destruct (W.2 !! i) as [[o|T c k]|]; [done| |done].
  assert (plane_reachable errorText (with_secrets (runCall c W.1).2 w)) as Hcall.
  { eapply plane_next; [exact HW|]. rewrite <-(with_secrets_twice W.1). apply (plane_call errorText (with_secrets W.1 w) (PlSecret (existT T c))). }
  destruct f as [|e []]; simpl; [by destruct (runCall c W.1)|done|done].
Qed.

(** ** The run *)

(** Server and session only. *)
Definition plane_empty : PlaneDB :=
  {| pl_db := set_heads ∅ (set_plane ∅ ∅ ∅ ∅ db_empty); pl_secrets := freshSecrets demoGeneration; pl_config_updated := ∅;
     pl_binding_created := ∅; pl_head_created := ∅; pl_config_audit := []; pl_head_audit := []; pl_hostname_events := [] |}.

(** What the agent will be authorized to materialize. *)
Definition planeAuthorization : MaterializationAuthorization :=
  {| ma_AttemptID := 1; ma_Fence := 1; ma_JobID := 1; ma_OwnerID := "owner"; ma_ProjectID := "project"; ma_EnvironmentID := "env";
     ma_DeploymentID := (webhookIDs exampleTarget (examplePush sha_a)).1;
     ma_Secrets := [{| fr_VariableName := "TOKEN"; fr_SecretID := "secret"; fr_SecretVersionID := "v1"; fr_Purpose := "runtime";
                       fr_DeliveryScope := "runtime" |}] |}.
Definition planeOps : list SecretOp :=
  [OpInitialize "k1" demoGeneration; OpCreate (demoRing "k1") demoScope "v1" (demoContext "a1") "hunter2" (demoEntropy 10);
   OpMaterializeFrozen (demoRing "k1") "server" planeAuthorization (λ _, Some "0123456789abcdef")].
Definition planeBefore : list (nat * Fault) := [(0, NoFault); (1, NoFault); (1, NoFault)]%nat.
Definition planeRest : list (nat * Fault) := replicate 6 (2, NoFault)%nat.

Definition planeConfig : RuntimeConfigInput :=
  {| in_ContainerPort := 8080; in_ContainerScheme := "http"; in_ReleaseStrategy := "blue_green"; in_DrainSeconds := 30;
     in_CPUMillis := 500; in_MemoryBytes := 268435456; in_RestartPolicy := "on-failure"; in_HealthGatePath := "/health";
     in_HealthGateHost := "app.example.com" |}.
Definition tokenBinding : BindingInput :=
  {| bi_VariableName := "TOKEN"; bi_BindingKind := "secret"; bi_DeliveryScope := "runtime"; bi_SecretHeadID := "secret"; bi_LiteralValue := "" |}.
Definition modeBinding : BindingInput :=
  {| bi_VariableName := "APP_MODE"; bi_BindingKind := "literal_nonsecret"; bi_DeliveryScope := "runtime"; bi_SecretHeadID := "";
     bi_LiteralValue := "live" |}.

(** The Kelvin sign U+212A, the one rune beyond ASCII the run folds. *)
Definition kelvin : string := Sha256.string_of_bytes [226; 132; 170].
Definition kelvinLower (r : string) : string := if bool_decide (r = kelvin) then "k" else r.

Definition planeCalls : list PlaneCall :=
  [PlLease (CallPush 1 false exampleTarget (examplePush sha_a) (at_second 1));
   PlCreateConfig admin "env" planeConfig (at_second 1); PlAddBinding admin "env" tokenBinding (at_second 1);
   PlAddBinding admin "env" modeBinding (at_second 1);
   PlAssignHostname kelvinLower admin "env" "App.Example.com" None (at_second 2);
   PlLease (CallEnsureSlots (at_second 3) ["env"]); PlLease (claim 1 (at_second 4))].

Notation plane_stored := (with_secrets (after demoGeneration planeOps planeBefore).1 plane_empty).
Notation plane_claimed := (foldl (λ w c, planeExec noErrorText c w) plane_stored planeCalls).

Lemma planeCalls_reachable calls w : plane_reachable noErrorText w →
  plane_reachable noErrorText (foldl (λ w c, planeExec noErrorText c w) w calls).
Proof. revert w. induction calls as [|c calls IH]; intros w Hw; [done|]. apply IH. eapply plane_next; [done|apply plane_call]. Qed.

Lemma plane_claimed_reachable : plane_reachable noErrorText plane_claimed.
Proof.
  apply planeCalls_reachable. apply (pool_runs_in_plane noErrorText planeBefore plane_empty). apply plane_init.
  split; [by exists demoGeneration|]. by split_and!.
Qed.

Lemma plane_deployed : Forall (deployed demoKeys) planeOps.
Proof.
  repeat (apply Forall_cons; split; [simpl; auto using demoRing_keys, demoEntropy_good|]). by apply Forall_nil.
Qed.

(** ** What the run did *)

Lemma plane_authorized :
  (AuthorizeMaterialization "server" "digest" 1 1 (at_second 5) plane_claimed).1 = inr planeAuthorization.
Proof. vm_compute. reflexivity. Qed.

Lemma plane_updated : (UpdateEnvironmentRuntimeConfig admin "env" planeConfig 0 (at_second 6) plane_claimed).1 =
  inr {| rc_EnvironmentID := "env"; rc_Config := configSnapshot planeConfig 1; rc_UpdatedAt := at_second 6 |}.
Proof. vm_compute. reflexivity. Qed.

Lemma plane_rows : db_configs (pl_db plane_claimed) !! "env" = Some (configSnapshot planeConfig 0) ∧
  db_execution (pl_db plane_claimed) !! 1 = Some (configSnapshot planeConfig 0) ∧
  a_env <$> db_attempts (pl_db plane_claimed) !! 1 = Some "env" ∧
  db_heads (pl_db plane_claimed) !! "env" = Some (firstHead "app.example.com" (at_second 2)).
Proof. vm_compute. by split_and!. Qed.

(** The materialization, run to its end. *)
Lemma plane_materialized :
  match (runSchedule planeRest (after demoGeneration planeOps planeBefore)).2 !! 2%nat with
  | Some (Done (OutReply (ReplySecrets [value]))) => (mv_VariableName value, mv_Value value)
  | _ => ("", "")
  end = ("TOKEN", "hunter2").
Proof. vm_compute. reflexivity. Qed.
