(* ===== verification/PlaneProps.v ===== *)
(** * Properties of the plane

    What an agent can materialize, end to end; that frozen configurations are
    the ones administrators wrote; that updates are never lost; that bindings
    always resolve; and what assigning a host name does. *)
From S2P Require Import Prelude GoStd Deployment Queue Route Regex HealthGate Schema Evidence DeploymentStore LeaseCore Lease LeaseInv LeaseSteps LeaseSpec Activation Resolution ActivationSteps Enqueue LeaseSystem Scenario ClaimProps CallsKeep Aes Crypto Secrets SecretInv SecretService SecretPool SecretProps Plane PlaneSteps PlaneKept PlaneSystem PlaneScenario.
From stdpp Require Import relations sorting.
#[local] Open Scope Z_scope.

(** ** Authorizing a materialization *)

Lemma frozenRows_bindings errorText w a : plane_reachable errorText w →
  fz_binding <$> frozenRows a w = merge_sort bindingLe (frozenSecrets a (pl_db w)) ∧
  Forall (λ r, sd_versions (pl_secrets w) !! fb_version (fz_binding r) = Some (fz_version r) ∧
    sd_heads (pl_secrets w) !! vr_secret (fz_version r) = Some (fz_head r) ∧ sh_delivery (fz_head r) = fb_scope (fz_binding r) ∧
    sh_purpose (fz_head r) ≠ "provider" ∧ attemptEnvs (pl_db w) !! a = Some (vr_env (fz_version r))) (frozenRows a w).
Proof.
  intros [H HP]%plane_reachable_inv. unfold frozenRows. fold (frozenSecrets a (pl_db w)).
  assert (Forall (λ b, ∃ e, attemptEnvs (pl_db w) !! a = Some e ∧ scoped (pl_secrets w) e b) (merge_sort bindingLe (frozenSecrets a (pl_db w)))) as HF.
  { rewrite merge_sort_Permutation. destruct (frozenSecrets_inv H _ _ a HP) as [->|(bs&->&Hbs)]; [constructor|].
    destruct (pi_frozen _ _ _ HP a bs Hbs) as (e&He&_&HF). eapply Forall_impl; [exact HF|]. eauto. }
  induction HF as [|b l (e&He&v&h&Hv&Hh&Ee&Ed&Ep) _ [IH1 IH2]]; [done|]. 
  assert (joinFrozen (pl_secrets w) b = Some {| fz_binding := b; fz_version := v; fz_head := h |}) as Ej
    by (unfold joinFrozen; rewrite Hv; simpl; by rewrite Hh).
  simpl. rewrite Ej. simpl. split; [f_equal; exact IH1|]. apply Forall_cons. split; [|exact IH2]. simpl. by rewrite Ee.
Qed.

(** Materialization is authorized exactly for live work. In every reachable state the control plane answers
    a materialization request with a reference set if and only if the server presents its current credential, the
    attempt is its own, holds its environment's slot under the presented fence, is uncancelled and before its deadline,
    and every frozen version is unrevoked and belongs to the job's owner and project; the set is then every frozen row
    of the attempt, in variable order, each with the secret its version belongs to. Nothing is written, and the
    environment and delivery scope of a frozen version always agree, whatever was rotated since. *)
Theorem materialization_authorized_exact errorText w srv digest a fence now m w' :
  plane_reachable errorText w →
  AuthorizeMaterialization srv digest a fence now w = (inr m, w') ↔
  w' = w ∧ ValidOpaqueID srv = true ∧ 0 < a ∧ 0 < fence ∧
  ∃ job r rows, liveAttempt srv digest a fence now (pl_db w) job r ∧
    fz_binding <$> rows = merge_sort bindingLe (frozenSecrets a (pl_db w)) ∧
    Forall (λ z, sd_versions (pl_secrets w) !! fb_version (fz_binding z) = Some (fz_version z) ∧
      sd_heads (pl_secrets w) !! vr_secret (fz_version z) = Some (fz_head z) ∧ vr_state (fz_version z) ≠ VersionRevoked ∧
      vr_owner (fz_version z) = j_owner job ∧ vr_project (fz_version z) = j_project job) rows ∧
    m = {| ma_AttemptID := a; ma_Fence := fence; ma_JobID := a_job r; ma_OwnerID := j_owner job; ma_ProjectID := j_project job;
           ma_EnvironmentID := a_env r; ma_DeploymentID := j_deployment job; ma_Secrets := frozenReference <$> rows |}.
Proof.
  intros Hr. rewrite authorizeMaterialization_iff. destruct (frozenRows_bindings errorText w a Hr) as [Eb HF].
  split; intros (->&Hs&Ha&Hf&H); split_and!; try done.
  - destruct H as (job&r&Hl&Hd&->). exists job, r, (frozenRows a w). split_and!; try done.
    apply Forall_forall. intros z Hz. rewrite Forall_forall in HF, Hd. destruct (HF z Hz) as (?&?&_), (Hd z Hz) as (?&?&?&_). done.
  - destruct H as (job&r&rows&Hl&Er&Hd&->). assert (frozenRows a w = rows) as E.
    { rewrite <-Eb in Er. clear Eb. revert Er HF. generalize (frozenRows a w) as l. induction Hd as [|z rows (Hv&Hh&_) _ IH]; intros [|y l]; try done.
      simpl. intros [= E Er] [(Hv'&Hh'&_) HF]%Forall_cons. f_equal; [|by apply IH]. destruct y as [b v h], z as [b' v' h']. simpl in *. subst.
      assert (v = v') as -> by congruence. congruence. }
    exists job, r. rewrite E. split_and!; try done. rewrite E in HF. apply Forall_forall. intros z Hz. rewrite Forall_forall in HF, Hd.
    destruct (HF z Hz) as (_&_&?&_&Henv), (Hd z Hz) as (_&_&?&?&?). unfold deliverable. split_and!; try done.
    destruct Hl as (_&Hat&_). apply attemptEnvs_lookup in Henv as (r'&Hr'&<-). congruence.
Qed.

(** ** Materialization, end to end *)

Lemma rowScope_requested keys ops d scope id p v h : Good keys (requested ops) d → sd_versions d !! id = Some v →
  sd_heads d !! vr_secret v = Some h → rowScope id v h = scope → recovers keys scope (rowEnvelope v) p → requested ops scope p.
Proof.
  intros G Hv Hh <- Hp. destruct (good_recovers _ _ _ G id v h Hv Hh) as (q&Hq&Hr). by rewrite (recovers_fun _ _ _ _ _ Hp Hr).
Qed.

(** C13: What an agent receives. Whatever clients, administrators and other agents do at the same time: when a
    materialization request is authorized and its handler later answers with values, the agent held the attempt's
    live lease when it asked, and the values are, for each variable frozen for the attempt and under its name and
    delivery scope, the very plaintext some client submitted for that frozen version, in the scope of the attempt's
    own environment and the job's owner and project, never a provider credential. *)
Theorem agent_receives_frozen_secrets errorText keys generation ops before rest w srv digest a fence now m w' i ring raws values :
  Forall (deployed keys) ops →
  plane_reachable errorText w → pl_secrets w = (after generation ops before).1 →
  AuthorizeMaterialization srv digest a fence now w = (inr m, w') →
  ops !! i = Some (OpMaterializeFrozen ring srv m raws) →
  (after generation ops before).2 !! i = Some (progOf (OpMaterializeFrozen ring srv m raws)) →
  (runSchedule rest (after generation ops before)).2 !! i = Some (Done (OutReply (ReplySecrets values))) →
  ∃ job r, liveAttempt srv digest a fence now (pl_db w) job r ∧
    Forall2 (λ b value, mv_VariableName value = fb_variable b ∧ mv_DeliveryScope value = fb_scope b ∧
      ∃ scope, requested ops scope (mv_Value value) ∧ c_SecretVersionID scope = fb_version b ∧ c_OwnerID scope = j_owner job ∧
        c_ProjectID scope = j_project job ∧ c_EnvironmentID scope = a_env r ∧ c_DeliveryScope scope = fb_scope b ∧
        c_Purpose scope ≠ "provider")
      (merge_sort bindingLe (frozenSecrets a (pl_db w))) values.
Proof.
  intros H Hr Ew Hm Ho Hi Hv. destruct (frozenRows_bindings errorText w a Hr) as [Eb HF].
  apply authorizeMaterialization_iff in Hm as (_&_&_&_&job&r&Hl&Hd&->). exists job, r. split; [done|].
  destruct (started_safe keys generation ops before rest i _ H Ho Hi) as (G&_&HP). specialize (HP _ Hv). simpl in HP.
  rewrite <-Eb. apply Forall2_fmap_l. rewrite Forall2_fmap_l in HP. clear Hv Hi Ho. revert HF Hd.
  induction HP as [|z value rows values (Ev&Es&_&(v&h&Hv&Hh&Esc&Hp)&_) _ IH]; intros HF Hd; [constructor|].
  apply Forall_cons in HF as [(_&_&_&Hpr&_) HF]. apply Forall_cons in Hd as [(_&_&_&_&_) Hd]. apply Forall2_cons. split; [|by apply IH].
  split_and!; [done..|]. exists (rowScope (fb_version (fz_binding z)) v h). split; [by eapply rowScope_requested|].
  change (fr_SecretVersionID (frozenReference z)) with (fb_version (fz_binding z)) in Esc.
  unfold rowScope, cryptoScope. rewrite Esc. by split_and!.
Qed.

(** ** Frozen configurations *)

(** The target [RunHealthGate] is given (executor.go). *)
Definition gateTarget (c : frozenExecutionSnapshot) : HealthGateTarget :=
  {| HealthGate.t_Host := HealthGateHost c; t_Path := HealthGatePath c; t_Port := ContainerPort c; t_Scheme := ContainerScheme c |}.

Lemma config_gateTarget e c : config_check e c = true → validateTarget (gateTarget c) = true.
Proof.
  unfold config_check, octets. intros H. bool_hyps. rewrite validateTarget_fields. simpl. unfold ValidHost, ValidPath, MaxPathBytes, MaxHostLabelBytes.
  assert (HealthGateHost c ≠ "") as Hne.
  { intros E. match goal with H : MatchString hostPattern _ = true |- _ => rewrite E in H; vm_compute in H; done end. }
  rewrite (bool_decide_false (HealthGateHost c = "")) by done.
  repeat match goal with H : MatchString _ _ = true |- _ => rewrite H; clear H | H : HasPrefix _ _ = false |- _ => rewrite H; clear H end.
  rewrite (proj2 (Z.ltb_ge _ _)) by lia. rewrite (proj2 (Z.ltb_ge _ _)) by lia. simpl.
  repeat (rewrite (proj2 (Z.leb_le _ _)) by lia). done.
Qed.

(** What an attempt runs is what an administrator wrote. In every reachable state each frozen configuration
    satisfies the configuration table's constraints, so that the health gate accepts its target; two attempts of one
    environment that froze the same revision froze the same configuration; a frozen revision is never newer than the
    environment's current one, and when it is the current one the frozen configuration is the stored one. *)
Theorem frozen_config_sound errorText w : plane_reachable errorText w →
  (∀ a r c, db_attempts (pl_db w) !! a = Some r → db_execution (pl_db w) !! a = Some c →
    config_check (a_env r) c = true ∧ validateTarget (gateTarget c) = true ∧
    ∃ c', db_configs (pl_db w) !! a_env r = Some c' ∧ ConfigRevision c ≤ ConfigRevision c' ∧
      (ConfigRevision c = ConfigRevision c' → c = c')) ∧
  (∀ a1 r1 c1 a2 r2 c2, db_attempts (pl_db w) !! a1 = Some r1 → db_execution (pl_db w) !! a1 = Some c1 →
    db_attempts (pl_db w) !! a2 = Some r2 → db_execution (pl_db w) !! a2 = Some c2 →
    a_env r1 = a_env r2 → ConfigRevision c1 = ConfigRevision c2 → c1 = c2).
Proof.
  intros [H HP]%plane_reachable_inv.
  assert (∀ a r c, db_attempts (pl_db w) !! a = Some r → db_execution (pl_db w) !! a = Some c →
    H !! (a_env r, ConfigRevision c) = Some c) as Hx.
  { intros a r c Hr Hc. destruct (pi_execution _ _ _ HP a c Hc) as (e&(r'&Hr'&<-)%attemptEnvs_lookup&?). congruence. }
  split.
  - intros a r c Hr Hc. pose proof (Hx a r c Hr Hc) as Hh. destruct (pi_history _ _ _ HP _ _ _ Hh) as (_&Hck&c'&Hc'&Hle).
    split_and!; [done|by eapply config_gateTarget|]. exists c'. split_and!; [done..|]. intros E.
    pose proof (pi_config _ _ _ HP _ c' Hc') as Hh'. rewrite <-E in Hh'. congruence.
  - intros a1 r1 c1 a2 r2 c2 H1 E1 H2 E2 Ee Er. pose proof (Hx a1 r1 c1 H1 E1) as X1. pose proof (Hx a2 r2 c2 H2 E2) as X2.
    rewrite Ee, Er in X1. congruence.
Qed.

(** No configuration update is lost. An update that answers with success replaced exactly the revision its
    author had seen; the configuration it stored is the one of the next revision for ever, and at every later moment an
    update that names the replaced revision is refused, whoever sends it. *)
Theorem config_updates_serialized errorText w p env i expected now rc w1 w2 :
  plane_reachable errorText w → UpdateEnvironmentRuntimeConfig p env i expected now w = (inr rc, w1) → rtc (plane_step errorText) w1 w2 →
  authorized p env now (pl_db w) ∧
  (∃ c, db_configs (pl_db w) !! env = Some c ∧ ConfigRevision c = expected) ∧
  rc_Config rc = configSnapshot i (expected + 1) ∧ db_configs (pl_db w1) !! env = Some (rc_Config rc) ∧
  (∃ c, db_configs (pl_db w2) !! env = Some c ∧ expected + 1 ≤ ConfigRevision c ∧ (ConfigRevision c = expected + 1 → c = rc_Config rc)) ∧
  ∀ p' i' now' rc' w3, UpdateEnvironmentRuntimeConfig p' env i' expected now' w2 ≠ (inr rc', w3).
Proof.
  intros Hr Hu Hs. assert (plane_reachable errorText w1) as Hr1.
  { apply (plane_next errorText w); [done|]. pose proof (plane_call errorText w (PlUpdateConfig p env i expected now)) as Hc. simpl in Hc.
    by rewrite Hu in Hc. }
  apply updateConfig_cases in Hu as (Ha&_&_&Hex&Erc&[Ed _ _ _ _]).
  assert (db_configs (pl_db w1) !! env = Some (rc_Config rc)) as H1 by (rewrite Ed, Erc; simpl; apply lookup_insert_eq).
  destruct (plane_reachable_inv errorText w1 Hr1) as [H HP]. pose proof (pi_config _ _ _ HP env _ H1) as Hh.
  rewrite Erc in Hh. simpl in Hh. destruct (plane_run_inv errorText H w1 w2 Hr1 HP Hs) as (_&H2&Hle&HP2).
  assert (H2 !! (env, expected + 1) = Some (configSnapshot i (expected + 1))) as Hh2 by by eapply lookup_weaken.
  destruct (pi_history _ _ _ HP2 env _ _ Hh2) as (_&_&c&Hc&Hge).
  split_and!; [done..| |].
  - exists c. split_and!; [done..|]. intros E. pose proof (pi_config _ _ _ HP2 env c Hc) as Hc'. rewrite E in Hc'. congruence.
  - intros p' i' now' rc' w3 (_&_&_&(c'&Hc'&E)&_)%updateConfig_cases. assert (c' = c) as -> by congruence. lia.
Qed.

(** ** Bindings *)

Lemma scanLiterals_ok rows : Forall (λ b, ∀ v, b_target b = BindLiteral v → is_Some v) rows →
  ∃ ls, scanLiterals rows = Some ls ∧ fl_variable <$> ls = b_variable <$> filter (λ b, isSecretBinding b = false) rows ∧
    Forall (λ l, ∃ b, b ∈ rows ∧ l = {| fl_variable := b_variable b; fl_scope := b_scope b; fl_value := fl_value l |} ∧
      b_target b = BindLiteral (Some (fl_value l))) ls.
Proof.
  induction 1 as [|b rows Hb _ (ls&IH1&IH2&IH3)]; [exists []; by split_and!|]. simpl. unfold isSecretBinding at 1.
  assert (∀ l : frozenLiteral, (∃ b0, b0 ∈ rows ∧ l = {| fl_variable := b_variable b0; fl_scope := b_scope b0; fl_value := fl_value l |} ∧
    b_target b0 = BindLiteral (Some (fl_value l))) → ∃ b0, b0 ∈ b :: rows ∧
    l = {| fl_variable := b_variable b0; fl_scope := b_scope b0; fl_value := fl_value l |} ∧ b_target b0 = BindLiteral (Some (fl_value l))) as Hw.
  { intros l (b0&?&?). exists b0. split; [by right|done]. }
  destruct (b_target b) as [h|v] eqn:E.
  - exists ls. rewrite filter_cons_False by (by unfold isSecretBinding; rewrite E). split_and!; [done..|].
    eapply Forall_impl; [exact IH3|exact Hw].
  - destruct (Hb v eq_refl) as [x ->]. rewrite IH1. eexists. split; [done|].
    rewrite filter_cons_True by (by unfold isSecretBinding; rewrite E). split; [simpl; f_equal; exact IH2|].
    apply Forall_cons. split; [|eapply Forall_impl; [exact IH3|exact Hw]]. exists b. split_and!; [by left|done..].
Qed.

Lemma omap_all {A B} (f : A → option B) (P : A → Prop) `{∀ a, Decision (P a)} (g : A → string) (h : B → string) (l : list A) :
  (∀ a, a ∈ l → P a → ∃ b, f a = Some b ∧ h b = g a) → (∀ a, a ∈ l → ¬ P a → f a = None) →
  h <$> omap f l = g <$> filter P l.
Proof.
  induction l as [|a l IH]; intros H1 H2; [done|]. simpl. assert (h <$> omap f l = g <$> filter P l) as E.
  { apply IH; intros; [apply H1|apply H2]; (by right) || done. }
  destruct (decide (P a)) as [Ha|Ha].
  - destruct (H1 a) as (b&->&Eb); [by left|done|]. rewrite filter_cons_True by done. simpl. f_equal; [exact Eb|exact E].
  - rewrite (H2 a), filter_cons_False; [done|done|by left|done].
Qed.

Lemma filter_split (rows : list BindingRow) :
  filter (λ b, isSecretBinding b = true) rows ++ filter (λ b, isSecretBinding b = false) rows ≡ₚ rows.
Proof.
  induction rows as [|b rows IH]; [done|]. destruct (isSecretBinding b) eqn:E.
  - rewrite filter_cons_True, filter_cons_False by congruence. simpl. by rewrite IH.
  - rewrite filter_cons_False, filter_cons_True by congruence. by rewrite <-Permutation_middle, IH.
Qed.

(** Bindings always resolve. In every reachable state a claim can freeze the bindings of every environment:
    each secret binding resolves to the one active version of the secret it names, a secret of that environment and
    delivery scope that is not a provider credential, each literal binding to its value, and the frozen variables are
    exactly the bound ones, each once. *)
Theorem bindings_always_resolve errorText w env : plane_reachable errorText w →
  ∃ bs ls, resolveRuntimeSecretBindings env (pl_db w) = Some bs ∧ resolveRuntimeLiteralBindings env (pl_db w) = Some ls ∧
    (fb_variable <$> bs) ++ (fl_variable <$> ls) ≡ₚ b_variable <$> bindingsOf env (pl_db w) ∧
    NoDup ((fb_variable <$> bs) ++ (fl_variable <$> ls)) ∧
    Forall (λ b, scoped (pl_secrets w) env b ∧
      ∃ v h, sd_versions (pl_secrets w) !! fb_version b = Some v ∧ vr_state v = VersionActive ∧
        sd_heads (pl_secrets w) !! vr_secret v = Some h ∧ sh_current h = Some (fb_version b) ∧
        ∃ row, row ∈ bindingsOf env (pl_db w) ∧ b_target row = BindSecret (vr_secret v) ∧ b_variable row = fb_variable b) bs.
Proof.
  intros [H HP]%plane_reachable_inv. destruct (pi_bindings _ _ _ HP env) as [Hnd HF]. rewrite Forall_forall in HF.
  pose proof (pi_secrets _ _ _ HP) as Hi. destruct (pi_view _ _ _ HP) as [Evh Evv].
  set (d := pl_db w) in *. set (s := pl_secrets w) in *.
  assert (∀ b, b ∈ bindingsOf env d → isSecretBinding b = true → ∃ fb, resolveSecret d b = Some fb ∧ fb_variable fb = b_variable b) as Hres.
  { intros b Hin Hs. destruct (HF b Hin) as [_ Hsc]. unfold isSecretBinding, validate_binding_scope, resolveSecret in *.
    destruct (b_target b) as [id|]; [|done]. destruct (sd_heads s !! id) as [h|] eqn:Eh; [|done].
    destruct (si_head s Hi id h Eh) as (_&_&c&v&Hc&Hv&_&Hst&_). rewrite Evh, Evv, lookup_fmap, Eh. simpl. rewrite Hc, lookup_fmap, Hv. simpl.
    rewrite Hst. eauto. }
  assert (fb_variable <$> omap (resolveSecret d) (bindingsOf env d) = b_variable <$> filter (λ b, isSecretBinding b = true) (bindingsOf env d)) as Esec.
  { apply omap_all; [done|]. intros b _ Hb. unfold isSecretBinding, resolveSecret in *. by destruct (b_target b). }
  destruct (scanLiterals_ok (bindingsOf env d)) as (ls&Els&Elit&_).
  { apply Forall_forall. intros b Hin v Ev. destruct (HF b Hin) as [Hc _]. unfold binding_check in Hc. rewrite Ev in Hc.
    destruct v; [by eexists|]. by rewrite andb_false_r in Hc. }
  exists (merge_sort bindingLe (omap (resolveSecret d) (bindingsOf env d))), (merge_sort literalLe ls).
  assert (resolveRuntimeSecretBindings env d = Some (merge_sort bindingLe (omap (resolveSecret d) (bindingsOf env d)))) as Er1.
  { unfold resolveRuntimeSecretBindings. fold (bindingsOf env d).
    rewrite (Permutation_length (merge_sort_Permutation bindingLe (omap (resolveSecret d) (bindingsOf env d)))).
    by rewrite <-(length_fmap fb_variable (omap _ _)), Esec, length_fmap, Nat.eqb_refl. }
  assert (resolveRuntimeLiteralBindings env d = Some (merge_sort literalLe ls)) as Er2.
  { unfold resolveRuntimeLiteralBindings. fold (bindingsOf env d). rewrite Els.
    rewrite (Permutation_length (merge_sort_Permutation literalLe ls)). by rewrite <-(length_fmap fl_variable ls), Elit, length_fmap, Nat.eqb_refl. }
  assert ((fb_variable <$> merge_sort bindingLe (omap (resolveSecret d) (bindingsOf env d))) ++ (fl_variable <$> merge_sort literalLe ls)
    ≡ₚ b_variable <$> bindingsOf env d) as Ep.
  { rewrite !merge_sort_Permutation, Esec, Elit, <-fmap_app. by rewrite filter_split. }
  split_and!; [done..|by rewrite Ep|]. rewrite merge_sort_Permutation. apply Forall_forall. intros fb (b&Hin&E)%list_elem_of_omap.
  destruct (HF b Hin) as [_ Hsc]. pose proof E as E0. apply (resolveSecret_scoped s d env b fb) in E as [? Ev]; [|done..]. split; [done|].
  unfold resolveSecret in E0. destruct (b_target b) as [id|] eqn:Et; [|done]. rewrite Evh, Evv, lookup_fmap in E0.
  destruct (sd_heads s !! id) as [h|] eqn:Eh; [|done]. simpl in E0. destruct (si_head s Hi id h Eh) as (_&_&c&v&Hc&Hv&Es&Hst&_).
  rewrite Hc, lookup_fmap, Hv in E0. simpl in E0. rewrite Hst in E0. injection E0 as <-. simpl in *. subst id.
  exists v, h. split_and!; try done. by exists b.
Qed.

(** ** Host names *)

Definition headsOk (h : HeadRow) (e : string) (d' : DB) : Prop :=
  ∃ x, hostnames d' !! e = Some x ∧
    (x = h_hostname h ∨ h_active h = None ∧ ∃ h', db_heads d' !! e = Some h' ∧ h_revision h' = h_revision h + 1).

Lemma headsOk_same h e d d' : db_heads d !! e = Some h → hostnames d' = hostnames d → headsOk h e d'.
Proof. intros Hh E. exists (h_hostname h). rewrite E. split; [unfold hostnames; by rewrite lookup_fmap, Hh|by left]. Qed.

Lemma plane_step_heads errorText w w' e h : plane_step errorText w w' → db_heads (pl_db w) !! e = Some h → headsOk h e (pl_db w').
Proof.
  intros Hs Hh. pose proof (λ d', headsOk_same h e (pl_db w) d' Hh) as Hsame.
  destruct Hs as [c|d' _ [[_ _ _ _ E] _ _ _]]; [|by apply Hsame].
  assert (∀ w', audited w w' → headsOk h e (pl_db w')) as Haud by (intros ? [-> _ _ _ _]; by apply Hsame).
  destruct c as [c|c|p env i now|p env i expected now|p env i now|p env name now|lower p env host expected now]; simpl.
  - apply Hsame, exec_plane_same.
  - by apply (Hsame (secretView _ _)).
  - destruct (CreateEnvironmentRuntimeConfig p env i now w) as [[x|rc] w'] eqn:E; apply createConfig_cases in E; simpl; [auto|].
    destruct E as (_&_&_&_&_&[-> _ _ _ _]). by apply Hsame.
  - destruct (UpdateEnvironmentRuntimeConfig p env i expected now w) as [[x|rc] w'] eqn:E; apply updateConfig_cases in E; simpl; [auto|].
    destruct E as (_&_&_&_&_&[-> _ _ _ _]). by apply Hsame.
  - destruct (AddEnvironmentRuntimeBinding p env i now w) as [[x|rc] w'] eqn:E; apply addBinding_cases in E; simpl; [auto|].
    destruct E as (_&_&_&_&_&->&_). by apply Hsame.
  - destruct (RemoveEnvironmentRuntimeBinding p env name now w) as [[x|rc] w'] eqn:E; apply removeBinding_cases in E; simpl; [auto|].
    destruct E as (_&_&->&_). by apply Hsame.
  - destruct (AssignRouteHostname lower p env host expected now w) as [[x|rc] w'] eqn:E; apply assign_cases in E; simpl; [auto|].
    destruct E as (_&_&_&_&_&E). destruct expected as [n|].
    + destruct E as (g&Hg&_&_&Hv&->). unfold headsOk, hostnames. simpl. rewrite fmap_insert.
      destruct (decide (env = e)) as [->|]; [|rewrite !lookup_insert_ne, lookup_fmap, Hh by done; eauto].
      rewrite !lookup_insert_eq. simpl. eexists. split; [done|]. assert (g = h) as -> by congruence.
      unfold validate_head_update in Hv. simpl in Hv. destruct (h_active h); simpl in Hv; [left|right; eauto].
      bool_hyps. done.
    + destruct E as [Hn ->]. unfold headsOk, hostnames. simpl. rewrite fmap_insert, lookup_insert_ne, lookup_fmap, Hh by congruence. eauto.
Qed.

(** C14: Host names are exclusive and stay with live traffic. In every reachable state two environments never have
    the same host name and every host name is a valid DNS name; no step of any repository removes a route head, and a
    step that changes a host name happened while no release was active and advanced the route revision by one. *)
Theorem hostnames_exclusive errorText w : plane_reachable errorText w →
  (∀ e1 e2 h1 h2, db_heads (pl_db w) !! e1 = Some h1 → db_heads (pl_db w) !! e2 = Some h2 → h_hostname h1 = h_hostname h2 → e1 = e2) ∧
  (∀ e h, db_heads (pl_db w) !! e = Some h → ValidRouteHostname (h_hostname h) = true) ∧
  (∀ w' e h, plane_step errorText w w' → db_heads (pl_db w) !! e = Some h → ∃ h', db_heads (pl_db w') !! e = Some h' ∧
     (h_hostname h' = h_hostname h ∨ h_active h = None ∧ h_revision h' = h_revision h + 1)).
Proof.
  intros [H HP]%plane_reachable_inv.
  assert (∀ d e h, db_heads d !! e = Some h → hostnames d !! e = Some (h_hostname h)) as Hn.
  { intros d e h Hh. unfold hostnames. by rewrite lookup_fmap, Hh. }
  split_and!.
  - intros e1 e2 h1 h2 H1%Hn H2%Hn E. eapply (pi_unique _ _ _ HP); [exact H1|]. by rewrite E.
  - intros e h Hh%Hn. apply (pi_hostname _ _ _ HP) in Hh. unfold hostname_check, octets in Hh. bool_hyps.
    rewrite ValidRouteHostname_pattern. unfold MaxHostLabelBytes.
    match goal with H : MatchString _ _ = true |- _ => rewrite H end. match goal with H : forallBytes _ _ = false |- _ => rewrite H end.
    rewrite (proj2 (Z.leb_le _ _)) by lia. rewrite bool_decide_false; [done|]. intros E. rewrite E in *. done.
  - intros w' e h Hs Hh. destruct (plane_step_heads errorText w w' e h Hs Hh) as (x&Hx&Hcase).
    unfold hostnames in Hx. rewrite lookup_fmap in Hx. apply fmap_Some in Hx as (h'&Hh'&->). exists h'. split; [done|].
    destruct Hcase as [->|(Ha&h2&Hh2&E)]; [by left|right]. split; [done|]. congruence.
Qed.

(** ** What assigning a host name answers *)

(** The decision table of [AssignRouteHostname]: an error, or the new
    revision. *)
Definition hostnameOutcome (d : DB) (env host : string) (expected : option Z) : PlaneErr + Z :=
  match expected, db_heads d !! env with
  | None, Some _ => inl ErrRouteHeadAlreadyExists
  | None, None => if hostname_unique d env host then inr 0 else inl ErrRouteHeadHostnameTaken
  | Some _, None => inl ErrRouteHeadNotFound
  | Some n, Some h =>
      if isSomeb (h_active h) then inl ErrRouteHeadHostnameImmutable
      else if negb (h_revision h =? n) then inl ErrRouteHeadConflict
      else if hostname_unique d env host then inr (n + 1) else inl ErrRouteHeadHostnameTaken
  end.

(** The head after a successful assignment. *)
Definition assignedHead (d : DB) (env host : string) (now : Z) : HeadRow :=
  match db_heads d !! env with Some h => rename_head env host now h | None => firstHead host now end.

Definition headAudit (p : Principal) (env host : string) (revision : option Z) (result : string) : HeadAuditRow :=
  {| ha_actor := p_UserID p; ha_owner := p_OwnerID p; ha_env := env; ha_hostname := host; ha_revision := revision; ha_result := result |}.

(** What the database guarantees of the environment's head row at [now]. *)
Definition headAt (w : PlaneDB) (env : string) (now : Z) : Prop := ∀ h, db_heads (pl_db w) !! env = Some h →
  0 ≤ h_revision h < maxInt64 ∧ h_updated_at h ≤ now ∧ default 0 (pl_head_created w !! env) ≤ now ∧ h_active h ≠ Some "".

Lemma ValidOpaqueID_octets id : ValidOpaqueID id = true → octets 1 128 id = true.
Proof. unfold ValidOpaqueID, octets. intros H. bool_hyps. apply andb_true_iff. lia. Qed.

Lemma octets_nonempty id : id ≠ "" → slen id ≤ 128 → octets 1 128 id = true.
Proof. intros H Hle. unfold octets. assert (0 < slen id) by (destruct id; [done|simpl; unfold slen; simpl; lia]). apply andb_true_iff. lia. Qed.

Lemma hostname_check_valid host : ValidRouteHostname host = true → hostname_check host = true.
Proof.
  rewrite ValidRouteHostname_pattern. unfold hostname_check, MaxHostLabelBytes. intros H. bool_hyps.
  assert (0 < slen host) by (destruct host; [done|unfold slen; simpl; lia]). unfold octets.
  repeat match goal with H : _ = true |- _ => rewrite H; clear H | H : _ = false |- _ => rewrite H; clear H end.
  rewrite (proj2 (Z.leb_le _ _)), (proj2 (Z.leb_le _ _)) by lia. done.
Qed.

Section outcomes.
Context (p : Principal) (env host : string) (now : Z).
Hypotheses (Hp : validPrincipal p = true) (Hu : slen (p_UserID p) ≤ 128) (Ho : slen (p_OwnerID p) ≤ 128)
  (He : ValidOpaqueID env = true) (Hh : ValidRouteHostname host = true).

Definition afterAudit (w : PlaneDB) (revision : option Z) (result : string) : PlaneDB :=
  with_logs (pl_config_audit w) (pl_head_audit w ++ [headAudit p env host revision result]) (pl_hostname_events w) w.

(** The state after a success. *)
Definition renamed (w : PlaneDB) (h : HeadRow) (created : gmap string Z) : PlaneDB :=
  Build_PlaneDB (set_heads (<[env := h]> (db_heads (pl_db w))) (pl_db w)) (pl_secrets w) (pl_config_updated w) (pl_binding_created w)
    created (pl_config_audit w) (pl_head_audit w ++ [headAudit p env host (Some (h_revision h)) "success"])
    (pl_hostname_events w ++ [{| he_env := env; he_revision := h_revision h; he_hostname := host |}]).

Lemma head_audit_written revision result w : match revision with Some r => 0 <= r ∧ result = "success" | None => result = "failure" end →
  insertRouteHeadAuditEvent p env host revision result w = inr (tt, afterAudit w revision result).
Proof.
  intros Hr. unfold insertRouteHeadAuditEvent. fold (headAudit p env host revision result).
  assert (head_audit_check (headAudit p env host revision result) = true) as ->; [|done].
  unfold head_audit_check. simpl. unfold validPrincipal in Hp. bool_hyps. rewrite !octets_nonempty by done. rewrite (ValidOpaqueID_octets env He).
  pose proof (hostname_check_valid host Hh) as Hc. unfold hostname_check in Hc. bool_hyps.
  match goal with H : octets 1 253 host = true |- _ => rewrite H end.
  destruct revision as [r|]; [destruct Hr as [Hr ->]|subst result]; [by rewrite (proj2 (Z.leb_le _ _) Hr)|done].
Qed.

Lemma hostname_event_written revision w h : 0 ≤ revision → db_heads (pl_db w) !! env = Some h →
  insertHostnameEvent env revision host w =
  inr (tt, with_logs (pl_config_audit w) (pl_head_audit w)
             (pl_hostname_events w ++ [{| he_env := env; he_revision := revision; he_hostname := host |}]) w).
Proof.
  intros Hr Hw. unfold insertHostnameEvent, tx_bind, tx_guard, tx_some. rewrite (proj2 (Z.leb_le _ _) Hr). simpl.
  pose proof (hostname_check_valid host Hh) as Hc. unfold hostname_check in Hc. bool_hyps.
  match goal with H : octets 1 253 host = true |- _ => rewrite H end. simpl. by rewrite Hw.
Qed.

Lemma refuse_written e w : refuseHostname p env host e w = inr (inl e, afterAudit w None "failure").
Proof. unfold refuseHostname, tx_bind. by rewrite head_audit_written. Qed.

Lemma rolledBack_written {A} e before w :
  rolledBack (A:=A) before (insertRouteHeadAuditEvent p env host None "failure") e w = inr (inl e, afterAudit before None "failure").
Proof. unfold rolledBack. by rewrite head_audit_written. Qed.

Lemma create_outcome w : headAt w env now → db_heads (pl_db w) !! env = None →
  createRouteHeadTx w p env host now w =
  if hostname_unique (pl_db w) env host
  then inr (inr {| rh_EnvironmentID := env; rh_Hostname := host; rh_RouteRevision := 0; rh_ActiveReleaseID := "";
                   rh_ReconciliationRequired := false; rh_CreatedAt := now; rh_UpdatedAt := now |},
            renamed w (firstHead host now) (<[env := now]> (pl_head_created w)))
  else inr (inl ErrRouteHeadHostnameTaken, afterAudit w None "failure").
Proof.
  intros _ Hn. unfold createRouteHeadTx. fold (firstHead host now).
  assert (head_check env now (firstHead host now) = true) as Hc.
  { unfold head_check. simpl. by rewrite (ValidOpaqueID_octets env He), (hostname_check_valid host Hh), !Z.leb_refl. }
  unfold tx_bind at 1, tx_read at 1, head_clash. rewrite Hn. simpl. unfold recovering, insert_head, tx_bind, tx_guard, tx_read. rewrite Hc. simpl.
  unfold head_clash. rewrite Hn. simpl. destruct (hostname_unique _ _ _); simpl; [|by rewrite rolledBack_written].
  rewrite head_audit_written by (split; [lia|done]). erewrite hostname_event_written; [done|lia|]. simpl. apply lookup_insert_eq.
Qed.

Lemma rename_outcome w h n : headAt w env now → db_heads (pl_db w) !! env = Some h →
  updateRouteHeadHostnameTx w p env host n now w =
  if isSomeb (h_active h) then inr (inl ErrRouteHeadHostnameImmutable, afterAudit w None "failure")
  else if negb (h_revision h =? n) then inr (inl ErrRouteHeadConflict, afterAudit w None "failure")
  else if hostname_unique (pl_db w) env host
  then inr (inr {| rh_EnvironmentID := env; rh_Hostname := host; rh_RouteRevision := n + 1; rh_ActiveReleaseID := "";
                   rh_ReconciliationRequired := false; rh_CreatedAt := default 0 (pl_head_created w !! env); rh_UpdatedAt := now |},
            renamed w (rename_head env host now h) (pl_head_created w))
  else inr (inl ErrRouteHeadHostnameTaken, afterAudit w None "failure").
Proof.
  intros Hat Eh. destruct (Hat h Eh) as ([Hr0 Hr]&Hup&Hcr&Hact). unfold updateRouteHeadHostnameTx, tx_bind at 1, tx_read at 1, readRouteHead.
  rewrite Eh. simpl. destruct (h_active h) as [a|] eqn:Ea; simpl.
  { rewrite bool_decide_false by (simpl; congruence). simpl. by apply refuse_written. }
  destruct (h_revision h =? n) eqn:En; simpl; [|by apply refuse_written]. bool_hyps.
  unfold recovering, update_hostname. rewrite Eh. simpl. rewrite (proj2 (Z.ltb_ge _ _)) by lia.
  assert (validate_head_update h (rename_head env host now h) = true) as ->.
  { unfold validate_head_update. simpl. rewrite (proj2 (Z.eqb_neq _ _)), Z.eqb_refl, (proj2 (Z.leb_le _ _) Hup), Ea by lia. done. }
  assert (head_check env (default 0 (pl_head_created w !! env)) (rename_head env host now h) = true) as ->.
  { unfold head_check. simpl. rewrite (ValidOpaqueID_octets env He), (hostname_check_valid host Hh). simpl.
    apply andb_true_iff. rewrite !Z.leb_le. lia. }
  simpl. destruct (hostname_unique _ _ _); simpl; [|by rewrite rolledBack_written].
  unfold tx_bind. rewrite head_audit_written by (split; [lia|done]). erewrite hostname_event_written; [|lia|simpl; apply lookup_insert_eq].
  subst n. unfold renamed. simpl. by destruct w.
Qed.
End outcomes.

(** What assigning a host name answers and does. For an authorized administrator and a valid name (after
    case folding), on a head row the database could hold: without an expected revision the name is assigned to an
    environment that has none, and refused as existing otherwise; with one it replaces the name of the head at that
    revision and advances it by one, refused as not found without a head, as immutable while a release is active, and as a
    conflict at any other revision; a name another environment has is refused as taken. A refusal writes nothing but
    one failure row of the audit; a success writes the head, one success row and one host name event. *)
Theorem hostname_outcomes lower p env hostname expected now w :
  let host := normalizeRouteHostname lower hostname in
  authorized p env now (pl_db w) → slen (p_UserID p) ≤ 128 → slen (p_OwnerID p) ≤ 128 → ValidOpaqueID env = true →
  ValidRouteHostname host = true → 0 ≤ default 0 expected → headAt w env now →
  let '(r, w') := AssignRouteHostname lower p env hostname expected now w in
  pl_secrets w' = pl_secrets w ∧ pl_config_audit w' = pl_config_audit w ∧
  match hostnameOutcome (pl_db w) env host expected with
  | inl e => r = inl e ∧ pl_db w' = pl_db w ∧ pl_head_audit w' = pl_head_audit w ++ [headAudit p env host None "failure"] ∧
      pl_hostname_events w' = pl_hostname_events w
  | inr n => (∃ rh, r = inr rh ∧ rh_RouteRevision rh = n ∧ rh_Hostname rh = host) ∧
      pl_db w' = set_heads (<[env := assignedHead (pl_db w) env host now]> (db_heads (pl_db w))) (pl_db w) ∧
      h_revision (assignedHead (pl_db w) env host now) = n ∧
      pl_head_audit w' = pl_head_audit w ++ [headAudit p env host (Some n) "success"] ∧
      pl_hostname_events w' = pl_hostname_events w ++ [{| he_env := env; he_revision := n; he_hostname := host |}]
  end.
Proof.
  intros host Ha Hu Ho He Hh Hexp Hat. unfold AssignRouteHostname, settle, assignRouteHostnameTx. fold host.
  pose proof Ha as [Hp _]. unfold tx_bind at 1, tx_guard at 1. rewrite Hp, He, Hh. simpl. unfold tx_bind at 1, tx_guard at 1.
  assert (match expected with Some r => 0 <=? r | None => true end = true) as -> by (destruct expected; [by apply Z.leb_le|done]).
  simpl. unfold tx_bind at 1, tx_read at 1. simpl. unfold tx_bind at 1.
  rewrite (proj2 (authorizeAdministrator_iff p env now w tt w)) by done. unfold hostnameOutcome, assignedHead.
  destruct expected as [n|]; destruct (db_heads (pl_db w) !! env) as [h|] eqn:Eh.
  - rewrite (rename_outcome p env host now) with (h := h) by done. destruct (h_active h); simpl; [done|].
    destruct (h_revision h =? n) eqn:En; simpl; [|done]. bool_hyps. subst n.
    destruct (hostname_unique _ _ _); simpl; [|done]. split_and!; eauto.
  - unfold updateRouteHeadHostnameTx, tx_bind, tx_read, readRouteHead. rewrite Eh. simpl. by rewrite (refuse_written p env host).
  - unfold createRouteHeadTx, tx_bind at 1, tx_read at 1, recovering, insert_head, head_clash, tx_bind, tx_guard, tx_read.
    fold (firstHead host now). rewrite Eh. simpl.
    assert (head_check env now (firstHead host now) = true) as Hc.
    { unfold head_check. simpl. by rewrite (ValidOpaqueID_octets env He), (hostname_check_valid host Hh), !Z.leb_refl. }
    unfold firstHead in *. rewrite Hc. simpl. unfold head_clash. rewrite Eh. simpl. by rewrite (rolledBack_written p env host).
  - rewrite (create_outcome p env host now) by done. destruct (hostname_unique _ _ _); simpl; [|done]. split_and!; eauto.
Qed.

(** Folding case can make an ASCII name of one that is not: U+212A becomes
    [k]. *)
Example kelvin_hostname : normalizeRouteHostname kelvinLower (kelvin +:+ "ube.example.com") = "kube.example.com" ∧
  ValidRouteHostname (kelvin +:+ "ube.example.com") = false ∧ ValidRouteHostname "kube.example.com" = true.
Proof. vm_compute. by split_and!. Qed.

(** ** The theorems on the concrete run *)

Lemma settled {A B : Type} (r : A * B) a : r.1 = a → r = (a, r.2).
Proof. destruct r. by intros [= ->]. Qed.

Lemma materialization_authorized_exact_witness : ∃ job r rows,
  liveAttempt "server" "digest" 1 1 (at_second 5) (pl_db plane_claimed) job r ∧
  fz_binding <$> rows = merge_sort bindingLe (frozenSecrets 1 (pl_db plane_claimed)) ∧ frozenReference <$> rows = ma_Secrets planeAuthorization.
Proof.
  destruct (proj1 (materialization_authorized_exact noErrorText plane_claimed "server" "digest" 1 1 (at_second 5) planeAuthorization _
    plane_claimed_reachable) (settled _ _ plane_authorized)) as (_&_&_&_&job&r&rows&Hl&Eb&_&E).
  exists job, r, rows. split; [exact Hl|]. split; [exact Eb|]. by rewrite E.
Defined.

Lemma plane_claimed_secrets : pl_secrets plane_claimed = (after demoGeneration planeOps planeBefore).1.
Proof. vm_compute. reflexivity. Qed.

Lemma plane_values : ∃ value, (runSchedule planeRest (after demoGeneration planeOps planeBefore)).2 !! 2%nat =
  Some (Done (OutReply (ReplySecrets [value]))) ∧ mv_VariableName value = "TOKEN" ∧ mv_Value value = "hunter2".
Proof.
  pose proof plane_materialized as H. revert H.
  destruct ((runSchedule planeRest (after demoGeneration planeOps planeBefore)).2 !! 2%nat) as [[[| |[[|value []]| |]| | |]|]|]; try done.
  intros [= E1 E2]. by exists value.
Qed.

Lemma plane_pending : (after demoGeneration planeOps planeBefore).2 !! 2%nat =
  Some (progOf (OpMaterializeFrozen (demoRing "k1") "server" planeAuthorization (λ _, Some "0123456789abcdef"))).
Proof. unfold after. rewrite runSchedule_other; [done|]. repeat (apply Forall_cons; split; [done|]). by apply Forall_nil. Qed.

Lemma agent_receives_frozen_secrets_witness : ∃ job r b scope,
  liveAttempt "server" "digest" 1 1 (at_second 5) (pl_db plane_claimed) job r ∧
  merge_sort bindingLe (frozenSecrets 1 (pl_db plane_claimed)) = [b] ∧ fb_variable b = "TOKEN" ∧ requested planeOps scope "hunter2" ∧
  c_SecretVersionID scope = fb_version b.
Proof.
  destruct plane_values as (value&Hv&En&Ev).
  destruct (agent_receives_frozen_secrets noErrorText demoKeys demoGeneration planeOps planeBefore planeRest plane_claimed "server" "digest" 1 1
    (at_second 5) planeAuthorization _ 2%nat (demoRing "k1") _ [value] plane_deployed plane_claimed_reachable plane_claimed_secrets
    (settled _ _ plane_authorized) eq_refl plane_pending Hv) as (job&r&Hl&HF).
  revert HF. generalize (merge_sort bindingLe (frozenSecrets 1 (pl_db plane_claimed))). intros [|b bs] HF; [by apply Forall2_length in HF|].
  apply Forall2_cons in HF as [(E1&_&scope&Hr&Es&_) HF]. apply Forall2_nil_inv_r in HF as ->. rewrite Ev in Hr.
  exists job, r, b, scope. split; [exact Hl|]. split; [reflexivity|]. split; [congruence|]. split; [exact Hr|exact Es].
Defined.

Lemma frozen_config_sound_witness : ∃ c, db_execution (pl_db plane_claimed) !! 1 = Some c ∧ config_check "env" c = true ∧
  validateTarget (gateTarget c) = true.
Proof.
  destruct plane_rows as (_&Hx&Hr&_). apply fmap_Some in Hr as (r&Hr&Ee). eexists. split; [exact Hx|].
  destruct (proj1 (frozen_config_sound noErrorText plane_claimed plane_claimed_reachable) 1 r _ Hr Hx) as (Hc&Ht&_).
  rewrite <-Ee in Hc. split; [exact Hc|exact Ht].
Defined.

Lemma config_updates_serialized_witness :
  let w1 := (UpdateEnvironmentRuntimeConfig admin "env" planeConfig 0 (at_second 6) plane_claimed).2 in
  db_configs (pl_db w1) !! "env" = Some (configSnapshot planeConfig 1) ∧
  ∀ p' i' now' rc' w3, UpdateEnvironmentRuntimeConfig p' "env" i' 0 now' w1 ≠ (inr rc', w3).
Proof.
  intros w1. destruct (config_updates_serialized noErrorText plane_claimed admin "env" planeConfig 0 (at_second 6) _ w1 w1
    plane_claimed_reachable (settled _ _ plane_updated) (rtc_refl _ _)) as (_&_&_&Hc&_&Hno).
  split; [exact Hc|exact Hno].
Defined.

Lemma bindings_always_resolve_witness : ∃ bs ls, resolveRuntimeSecretBindings "env" (pl_db plane_claimed) = Some bs ∧
  resolveRuntimeLiteralBindings "env" (pl_db plane_claimed) = Some ls ∧ NoDup ((fb_variable <$> bs) ++ (fl_variable <$> ls)).
Proof.
  destruct (bindings_always_resolve noErrorText plane_claimed "env" plane_claimed_reachable) as (bs&ls&E1&E2&_&Hn&_).
  exists bs, ls. split; [exact E1|split; [exact E2|exact Hn]].
Defined.

Lemma hostnames_exclusive_witness : ∃ h, db_heads (pl_db plane_claimed) !! "env" = Some h ∧ h_hostname h = "app.example.com" ∧
  ValidRouteHostname (h_hostname h) = true.
Proof.
  destruct plane_rows as (_&_&_&Hh). eexists. split; [exact Hh|]. split; [reflexivity|].
  exact (proj1 (proj2 (hostnames_exclusive noErrorText plane_claimed plane_claimed_reachable)) "env" _ Hh).
Defined.

Lemma plane_admin : authorized admin "env" (at_second 7) (pl_db plane_claimed).
Proof.
  split; [done|]. split.
  - exists exampleSession. split; [vm_compute; reflexivity|vm_compute; reflexivity].
  - apply environmentOwnedBy_true. vm_compute. reflexivity.
Qed.
Lemma plane_headAt : headAt plane_claimed "env" (at_second 7).
Proof.
  destruct plane_rows as (_&_&_&E). intros h Hh. rewrite E in Hh. injection Hh as <-.
  assert (default 0 (pl_head_created plane_claimed !! "env") = at_second 2) as -> by (vm_compute; reflexivity).
  split_and!; [done|vm_compute; reflexivity|vm_compute; discriminate|vm_compute; discriminate|done].
Qed.
Lemma plane_outcome : hostnameOutcome (pl_db plane_claimed) "env" "kube.example.com" (Some 0) = inr 1.
Proof. vm_compute. reflexivity. Qed.

Lemma hostname_outcomes_witness : ∃ w' rh,
  AssignRouteHostname kelvinLower admin "env" "Kube.example.com" (Some 0) (at_second 7) plane_claimed = (inr rh, w') ∧ rh_RouteRevision rh = 1.
Proof.
  assert (slen "user" ≤ 128) as Hu by (vm_compute; discriminate). assert (slen "owner" ≤ 128) as Ho by (vm_compute; discriminate).
  assert (normalizeRouteHostname kelvinLower "Kube.example.com" = "kube.example.com") as En by (vm_compute; reflexivity).
  assert (ValidRouteHostname (normalizeRouteHostname kelvinLower "Kube.example.com") = true) as Hh by (vm_compute; reflexivity).
  pose proof (hostname_outcomes kelvinLower admin "env" "Kube.example.com" (Some 0) (at_second 7) plane_claimed plane_admin
    Hu Ho eq_refl Hh (Z.le_refl 0) plane_headAt) as H. revert H. cbv zeta. rewrite En, plane_outcome.
  destruct (AssignRouteHostname _ _ _ _ _ _ _) as [r w']. intros (_&_&(rh&->&Hrev&_)&_). exists w', rh. split; [reflexivity|exact Hrev].
Defined.
