(* ===== verification/Matcher.v ===== *)
(** * The redaction automaton (src/internal/crypto/redactor.go)

    [newMatcher] builds a compact Aho-Corasick automaton: a trie whose edges
    are sorted slices, failure links set breadth first, and per node the
    length of the pattern ending there ([terminal]), the nearest failure
    ancestor with one ([outputLink]) and the longest ending there at all
    ([output]).  [advance] is one transition.

    The theorems are against a specification on words: after reading a text
    the state stands for the longest suffix of the text that is a path of the
    trie, and following [outputLink] from it lists exactly the patterns that
    end at this point of the text. *)
From S2P Require Import Prelude.
From stdpp Require Import sorting.
#[local] Open Scope nat_scope.

(** ** The code *)

(** Bytes are numbers; node indexes and lengths are Go [int]s that stay below
    [MaxRedactionNodes] and the input sizes. *)
Definition MaxRedactionNodes : Z := 65536.

Record acNode := { edges : list (Z * nat); fail : nat; outputLink : nat; terminal : nat; output : nat }.
#[global] Instance acNode_inhabited : Inhabited acNode :=
  populate {| edges := []; fail := 0; outputLink := 0; terminal := 0; output := 0 |}.
Definition newNode : acNode := {| edges := []; fail := 0; outputLink := 0; terminal := 0; output := 0 |}.

Record redactionMatcher := { nodes : list acNode; maxPattern : nat }.

(** [sort.Search(n, f)]: the binary search of the standard library. *)
Fixpoint searchLoop (fuel : nat) (f : nat → bool) (i j : nat) : nat :=
  match fuel with
  | O => i
  | S fuel =>
      if i <? j then
        let h := (i + j) / 2 in
        if f h then searchLoop fuel f i h else searchLoop fuel f (S h) j
      else i
  end.
Definition Search (n : nat) (f : nat → bool) : nat := searchLoop n f 0 n.

Definition searchByte (es : list (Z * nat)) (b : Z) : nat :=
  Search (length es) (λ i, match es !! i with Some (c, _) => (b <=? c)%Z | None => false end).

Definition edge (m : list acNode) (state : nat) (b : Z) : option nat :=
  let es := edges (m !!! state) in
  match es !! searchByte es b with
  | Some (c, n) => if (c =? b)%Z then Some n else None
  | None => None
  end.

Fixpoint advanceLoop (fuel : nat) (m : list acNode) (state : nat) (b : Z) : nat :=
  match fuel with
  | O => default 0 (edge m 0 b)
  | S fuel =>
      if state =? 0 then default 0 (edge m 0 b)
      else match edge m state b with
           | Some next => next
           | None => advanceLoop fuel m (fail (m !!! state)) b
           end
  end.
Definition advance (m : redactionMatcher) (state : nat) (b : Z) : nat :=
  advanceLoop (length (nodes m)) (nodes m) state b.

Definition with_edges (es : list (Z * nat)) (n : acNode) : acNode :=
  {| edges := es; fail := fail n; outputLink := outputLink n; terminal := terminal n; output := output n |}.
Definition with_terminal (len : nat) (n : acNode) : acNode :=
  {| edges := edges n; fail := fail n; outputLink := outputLink n; terminal := len; output := len |}.
Definition with_fail (failure link out : nat) (n : acNode) : acNode :=
  {| edges := edges n; fail := failure; outputLink := link; terminal := terminal n; output := out |}.

(** One byte of a pattern: follow the edge or create it, in byte order. *)
Definition insertByte (m : list acNode) (state : nat) (b : Z) : option (list acNode * nat) :=
  match edge m state b with
  | Some next => Some (m, next)
  | None =>
      if (MaxRedactionNodes <=? Z.of_nat (length m))%Z then None
      else
        let next := length m in
        let es := edges (m !!! state) in
        let index := searchByte es b in
        Some (alter (with_edges (take index es ++ (b, next) :: drop index es)) state (m ++ [newNode]), next)
  end.

Fixpoint insertBytes (m : list acNode) (state : nat) (pattern : list Z) : option (list acNode * nat) :=
  match pattern with
  | [] => Some (m, state)
  | b :: rest => '(m', next) ← insertByte m state b; insertBytes m' next rest
  end.

Definition insertPattern (m : list acNode) (pattern : list Z) : option (list acNode) :=
  '(m', state) ← insertBytes m 0 pattern;
  Some (if terminal (m' !!! state) <? length pattern then alter (with_terminal (length pattern)) state m' else m').

Fixpoint insertPatterns (m : list acNode) (patterns : list (list Z)) : option (list acNode) :=
  match patterns with
  | [] => Some m
  | p :: ps => m' ← insertPattern m p; insertPatterns m' ps
  end.

(** The failure link of the child of [state] over [b]. *)
Fixpoint failLoop (fuel : nat) (m : list acNode) (failure : nat) (b : Z) : nat :=
  match fuel with
  | O => 0
  | S fuel =>
      if failure =? 0 then 0
      else match edge m failure b with
           | Some next => next
           | None => failLoop fuel m (fail (m !!! failure)) b
           end
  end.
Definition failureOf (m : list acNode) (state : nat) (b : Z) (child : nat) : nat :=
  let failure := failLoop (length m) m (fail (m !!! state)) b in
  if failure =? 0 then
    match edge m 0 b with
    | Some next => if next =? child then failure else next
    | None => failure
    end
  else failure.

Definition setFailure (m : list acNode) (child failure : nat) : list acNode :=
  let f := m !!! failure in
  alter (λ n, with_fail failure (if 0 <? terminal f then failure else outputLink f)
                (if output n <? output f then output f else output n) n) child m.

(** The edges of the dequeued state. *)
Fixpoint linkChildren (m : list acNode) (state : nat) (es : list (Z * nat)) (queue : list nat) : list acNode * list nat :=
  match es with
  | [] => (m, queue)
  | (b, child) :: r => linkChildren (setFailure m child (failureOf m state b child)) state r (queue ++ [child])
  end.

(** [for head := 0; head < len(queue); head++]: the queue from [head] on. *)
Fixpoint linkAll (fuel : nat) (m : list acNode) (queue : list nat) : list acNode :=
  match fuel with
  | O => m
  | S fuel =>
      match queue with
      | [] => m
      | state :: rest => let '(m', queue') := linkChildren m state (edges (m !!! state)) rest in linkAll fuel m' queue'
      end
  end.

Definition newMatcher (patterns : list (list Z)) : option redactionMatcher :=
  m ← insertPatterns [newNode] patterns;
  Some {| nodes := linkAll (length m) m (snd <$> edges (m !!! 0)); maxPattern := foldl (λ n p, max n (length p)) 0 patterns |}.

(** ** Sorted edges *)

Lemma searchLoop_spec fuel f n i j :
  (∀ a b, a ≤ b → b < n → f a = true → f b = true) → i ≤ j → j ≤ n → j - i ≤ fuel →
  (∀ a, a < i → f a = false) → (∀ a, j ≤ a → a < n → f a = true) →
  let r := searchLoop fuel f i j in
  r ≤ n ∧ (∀ a, a < r → f a = false) ∧ (∀ a, r ≤ a → a < n → f a = true).
Proof.
  intros Hm. revert i j. induction fuel as [|fuel IH]; intros i j Hij Hjn Hf Hlo Hhi; cbn [searchLoop]; cbv zeta.
  { replace j with i in * by lia. done. }
  destruct (Nat.ltb_spec i j) as [Hlt|?]; [|replace j with i in * by lia; done].
  pose proof (Nat.div_mod_eq (i + j) 2) as Hd. pose proof (Nat.mod_upper_bound (i + j) 2 ltac:(lia)) as Hm2.
  set (h := (i + j) / 2) in *. destruct (f h) eqn:Eh.
  - apply IH; try lia; try done. intros a ? ?. apply (Hm h); [lia..|done].
  - apply IH; try lia; try done. intros a ?. destruct (decide (a < i)); [by apply Hlo|].
    destruct (f a) eqn:Ea; [|done]. rewrite (Hm a h) in Eh; [done|lia..|done].
Qed.

Definition byteLt (x y : Z * nat) : Prop := (x.1 < y.1)%Z.

Lemma sorted_lookup es i j x y :
  StronglySorted byteLt es → es !! i = Some x → es !! j = Some y → i < j → byteLt x y.
Proof.
  intros Hs Hi Hj Hij. rewrite <-(take_drop (S i) es) in Hs.
  eapply StronglySorted_app_1_elem_of; [done| |].
  - apply list_elem_of_lookup. exists i. rewrite lookup_take_lt by lia. done.
  - apply list_elem_of_lookup. exists (j - S i). rewrite lookup_drop. by replace (S i + (j - S i)) with j by lia.
Qed.

Lemma searchByte_spec es b :
  StronglySorted byteLt es →
  searchByte es b ≤ length es ∧
  (∀ a x, es !! a = Some x → a < searchByte es b ↔ (x.1 < b)%Z).
Proof.
  intros Hs. unfold searchByte, Search. set (f := λ i, _).
  destruct (searchLoop_spec (length es) f (length es) 0 (length es)) as (Hr&Hlo&Hhi); try lia.
  { intros a c Hac Hc. subst f. simpl.
    destruct (lookup_lt_is_Some_2 es a) as [[x ?] Ex]; [lia|]. destruct (lookup_lt_is_Some_2 es c) as [[y ?] Ey]; [lia|].
    rewrite Ex, Ey. intros Hx%Z.leb_le. apply Z.leb_le. destruct (decide (a = c)) as [->|]; [by simplify_eq|].
    pose proof (sorted_lookup es a c _ _ Hs Ex Ey). unfold byteLt in *. simpl in *. lia. }
  split; [done|]. intros a [c n] Ha. simpl. pose proof (lookup_lt_Some _ _ _ Ha).
  set (r := searchLoop _ _ _ _) in *. split.
  - intros Hlt. specialize (Hlo a Hlt). unfold f in Hlo. rewrite Ha in Hlo. by apply Z.leb_gt in Hlo.
  - intros Hlt. destruct (decide (a < r)) as [|Hge]; [done|]. exfalso.
    assert (f a = true) as E by (apply Hhi; lia). unfold f in E. rewrite Ha in E. apply Z.leb_le in E. lia.
Qed.

Lemma edge_spec m i b n :
  StronglySorted byteLt (edges (m !!! i)) → edge m i b = Some n ↔ (b, n) ∈ edges (m !!! i).
Proof.
  intros Hs. unfold edge. set (es := edges _) in *. destruct (searchByte_spec es b Hs) as [_ Hb].
  rewrite list_elem_of_lookup. split.
  - destruct (es !! searchByte es b) as [[c k]|] eqn:E; [|done].
    destruct (Z.eqb_spec c b) as [->|]; [|done]. intros [= <-]. by eexists.
  - intros [k Hk]. destruct (Nat.lt_trichotomy k (searchByte es b)) as [Hlt|[->|Hgt]].
    + apply (Hb k _ Hk) in Hlt. simpl in Hlt. lia.
    + rewrite Hk, Z.eqb_refl. done.
    + assert (searchByte es b < length es) as Hl by (apply lookup_lt_Some in Hk; lia).
      destruct (lookup_lt_is_Some_2 es _ Hl) as [[c q] Ec]. pose proof (sorted_lookup es _ _ _ _ Hs Ec Hk Hgt) as Hlt.
      assert (searchByte es b < searchByte es b) as Habs by by apply (Hb _ _ Ec). lia.
Qed.

Lemma insert_sorted es b n :
  StronglySorted byteLt es → (∀ k, (b, k) ∉ es) →
  let index := searchByte es b in StronglySorted byteLt (take index es ++ (b, n) :: drop index es).
Proof.
  intros Hs Hno index. destruct (searchByte_spec es b Hs) as [_ Hb]. fold index in Hb.
  rewrite <-(take_drop index es) in Hs. apply StronglySorted_app in Hs as (Hlt&H1&H2).
  apply StronglySorted_app. split_and!; [|done|apply StronglySorted_cons; split; [|done]].
  - intros x y Hx [->|Hy]%elem_of_cons; [|by apply Hlt].
    apply list_elem_of_lookup in Hx as [a Ha]. apply lookup_take_Some in Ha as [Ha ?]. by apply (Hb a x Ha).
  - apply Forall_forall. intros [c k] Hx. unfold byteLt. simpl.
    assert ((c, k) ∈ es) as Hin by (rewrite <-(take_drop index es); apply elem_of_app; by right).
    assert (c ≠ b) by (intros ->; by eapply Hno).
    apply list_elem_of_lookup in Hx as [a Ha]. rewrite lookup_drop in Ha. specialize (Hb _ _ Ha). simpl in Hb. lia.
Qed.

Lemma insert_edge_elem (es : list (Z * nat)) b n i x : x ∈ take i es ++ (b, n) :: drop i es ↔ x ∈ es ∨ x = (b, n).
Proof.
  rewrite elem_of_app, elem_of_cons. rewrite <-(take_drop i es) at 3. rewrite elem_of_app. tauto.
Qed.

(** ** The trie

    [ws] lists, for every node, the path from the root to it. *)

Record trie (m : list acNode) (ws : list (list Z)) : Prop := {
  tr_length : length ws = length m;
  tr_root : ws !! 0 = Some [];
  tr_nodup : NoDup ws;
  tr_sorted : ∀ i, StronglySorted byteLt (edges (m !!! i));
  tr_edges : ∀ i w b j, ws !! i = Some w → (b, j) ∈ edges (m !!! i) ↔ ws !! j = Some (w ++ [b]);
  tr_closed : ∀ w b, w ++ [b] ∈ ws → w ∈ ws;
}.

Lemma trie_edge m ws i w b j : trie m ws → ws !! i = Some w → edge m i b = Some j ↔ ws !! j = Some (w ++ [b]).
Proof. intros Ht Hi. rewrite edge_spec by apply (tr_sorted m ws Ht). by apply (tr_edges m ws Ht). Qed.

Lemma trie_edge_None m ws i w b : trie m ws → ws !! i = Some w → edge m i b = None ↔ w ++ [b] ∉ ws.
Proof.
  intros Ht Hi. split.
  - intros E [j Hj]%list_elem_of_lookup. apply (trie_edge m ws i w b j Ht Hi) in Hj. congruence.
  - intros Hn. destruct (edge m i b) as [j|] eqn:E; [|done]. apply (trie_edge m ws i w b j Ht Hi) in E.
    by destruct Hn; eapply list_elem_of_lookup_2.
Qed.

Lemma trie_inj m ws i j w : trie m ws → ws !! i = Some w → ws !! j = Some w → i = j.
Proof. intros Ht. apply NoDup_lookup, (tr_nodup m ws Ht). Qed.

Lemma trie_prefix m ws w w' : trie m ws → w ++ w' ∈ ws → w ∈ ws.
Proof.
  intros Ht. induction w' as [|b r IH] using rev_ind; [by rewrite app_nil_r|].
  rewrite app_assoc. intros H%(tr_closed m ws Ht). by apply IH.
Qed.

Lemma alter_total (f : acNode → acNode) i (m : list acNode) k :
  alter f i m !!! k = if decide (k = i ∧ i < length m) then f (m !!! k) else m !!! k.
Proof.
  rewrite !list_lookup_total_alt. destruct (decide (k = i)) as [->|Hne].
  - rewrite list_lookup_alter_eq. destruct (m !! i) eqn:E; simpl.
    + rewrite decide_True; [done|]. split; [done|by eapply lookup_lt_Some].
    + rewrite decide_False; [done|]. intros [_ H]. apply lookup_ge_None in E. lia.
  - rewrite list_lookup_alter_ne by done. rewrite decide_False by naive_solver. done.
Qed.

Lemma snoc_total (m : list acNode) k : (m ++ [newNode]) !!! k = m !!! k.
Proof.
  rewrite !list_lookup_total_alt. destruct (decide (k < length m)) as [Hk|Hk].
  - by rewrite lookup_app_l.
  - rewrite (lookup_ge_None_2 m) by lia. destruct (decide (k = length m)) as [->|].
    + by rewrite list_lookup_middle.
    + rewrite lookup_ge_None_2; [done|]. rewrite length_app. simpl. lia.
Qed.

(** A step of the insertion keeps everything but the edges. *)
Definition sameData (m m' : list acNode) : Prop := ∀ k, with_edges [] (m' !!! k) = with_edges [] (m !!! k).

Lemma sameData_fields m m' k :
  sameData m m' → fail (m' !!! k) = fail (m !!! k) ∧ outputLink (m' !!! k) = outputLink (m !!! k) ∧
  terminal (m' !!! k) = terminal (m !!! k) ∧ output (m' !!! k) = output (m !!! k).
Proof. intros H. specialize (H k). by injection H. Qed.

Lemma insertByte_spec m ws i w b m' n :
  trie m ws → ws !! i = Some w → insertByte m i b = Some (m', n) →
  ∃ new, trie m' (ws ++ new) ∧ (ws ++ new) !! n = Some (w ++ [b]) ∧ sameData m m'.
Proof.
  intros Ht Hi. unfold insertByte. destruct (edge m i b) as [j|] eqn:E.
  { intros [= <- <-]. exists []. rewrite app_nil_r. split_and!; [done| |done]. by apply (trie_edge m ws i w b j Ht Hi). }
  destruct (_ <=? _)%Z; [done|]. intros [= <- <-]. apply (trie_edge_None m ws i w b Ht Hi) in E.
  pose proof (tr_length m ws Ht) as Hlen. pose proof (lookup_lt_Some _ _ _ Hi) as Hil.
  exists [w ++ [b]]. set (es := edges (m !!! i)). set (es' := take _ _ ++ _).
  assert (∀ k, alter (with_edges es') i (m ++ [newNode]) !!! k = if decide (k = i) then with_edges es' (m !!! k) else m !!! k) as Hk.
  { intros k. rewrite alter_total, snoc_total, length_app. simpl.
    destruct (decide (k = i)); [rewrite decide_True by (split; [done|lia])|rewrite decide_False by tauto]; done. }
  split_and!.
  - split.
    + rewrite length_alter, !length_app. simpl. lia.
    + rewrite lookup_app_l by (apply (tr_root m ws) in Ht; by eapply lookup_lt_Some). apply Ht.
    + apply NoDup_app. split_and!; [apply Ht| |apply NoDup_singleton]. intros x Hx ->%list_elem_of_singleton. done.
    + intros k. rewrite Hk. destruct (decide (k = i)) as [->|]; [|apply Ht]. simpl. apply insert_sorted; [apply Ht|].
      intros k Hin. apply (tr_edges m ws Ht i w b k Hi) in Hin. apply list_elem_of_lookup_2 in Hin. done.
    + intros k v c j Hv. rewrite Hk.
      assert (ws !! j = Some (v ++ [c]) ∨ (j = length ws ∧ v ++ [c] = w ++ [b]) ↔ (ws ++ [w ++ [b]]) !! j = Some (v ++ [c])) as Hj.
      { rewrite lookup_app_Some. split; [intros [?|[-> ->]]; [by left|right; by rewrite Nat.sub_diag]|].
        intros [?|[Hge Hj]]; [by left|right]. destruct (j - length ws) eqn:E0; [|done]. simpl in Hj. split; [lia|congruence]. }
      rewrite <-Hj. apply lookup_app_Some in Hv as [Hv|[Hge Hv]].
      * destruct (decide (k = i)) as [->|Hne].
        -- simplify_eq. simpl. unfold es', es. rewrite insert_edge_elem, (tr_edges m ws Ht i w c j Hi).
           rewrite pair_equal_spec. rewrite Hlen. split; [intros [?|[-> ->]]; [by left|by right]|].
           intros [?|[-> [_ ->]%app_inj_tail]]; [by left|by right].
        -- rewrite (tr_edges m ws Ht k v c j Hv). split; [by left|]. intros [?|[_ [-> _]%app_inj_tail]]; [done|].
           destruct Hne. by eapply trie_inj.
      * destruct (k - length ws) eqn:E0; [|done]. injection Hv as <-.
        rewrite decide_False by lia. replace (m !!! k) with newNode; [|].
        2:{ rewrite list_lookup_total_alt, lookup_ge_None_2 by lia. done. }
        simpl. split; [by intros ?%elem_of_nil|]. intros [Hx|[_ [Hx _]%app_inj_tail]].
        -- exfalso. apply E. apply (tr_closed m ws Ht _ c). by eapply list_elem_of_lookup_2.
        -- exfalso. apply (f_equal length) in Hx. rewrite length_app in Hx. simpl in Hx. lia.
    + intros v c [Hv|Hv%list_elem_of_singleton]%elem_of_app; apply elem_of_app; left.
      * by apply (tr_closed m ws Ht v c).
      * apply app_inj_tail in Hv as [-> _]. by eapply list_elem_of_lookup_2.
  - rewrite <-Hlen. by rewrite list_lookup_middle.
  - intros k. rewrite Hk. by destruct (decide (k = i)).
Qed.

Lemma insertBytes_spec p m ws i w m' n :
  trie m ws → ws !! i = Some w → insertBytes m i p = Some (m', n) →
  ∃ new, trie m' (ws ++ new) ∧ (ws ++ new) !! n = Some (w ++ p) ∧ sameData m m'.
Proof.
  revert m ws i w. induction p as [|b p IH]; intros m ws i w Ht Hi; simpl.
  { intros [= <- <-]. exists []. rewrite !app_nil_r. done. }
  destruct (insertByte m i b) as [[m1 n1]|] eqn:E1; simpl; [|done]. intros H.
  destruct (insertByte_spec _ _ _ _ _ _ _ Ht Hi E1) as (new1&Ht1&Hn1&Hd1).
  destruct (IH _ _ _ _ Ht1 Hn1 H) as (new2&Ht2&Hn2&Hd2).
  exists (new1 ++ new2). rewrite (app_assoc ws). rewrite <-(app_assoc w) in Hn2. split_and!; [done..|].
  intros k. by rewrite Hd2, Hd1.
Qed.

(** The trie of the patterns [ps], before the links are set. *)
Record loaded (m : list acNode) (ws ps : list (list Z)) : Prop := {
  ld_trie : trie m ws;
  ld_fields : ∀ i, fail (m !!! i) = 0 ∧ outputLink (m !!! i) = 0 ∧ output (m !!! i) = terminal (m !!! i);
  ld_terminal : ∀ i w, ws !! i = Some w → terminal (m !!! i) = if bool_decide (w ∈ ps) then length w else 0;
  ld_patterns : ∀ p, p ∈ ps → p ∈ ws;
}.

Lemma loaded_data m ws ps m' new :
  loaded m ws ps → trie m' (ws ++ new) → sameData m m' → loaded m' (ws ++ new) ps.
Proof.
  intros [Ht Hf Hm Hp] Ht' Hd. split; [done| | |].
  - intros i. destruct (sameData_fields m m' i Hd) as (->&->&->&->). apply Hf.
  - intros i w Hi. destruct (sameData_fields m m' i Hd) as (_&_&->&_).
    destruct (decide (i < length ws)) as [Hl|Hl]; [by apply Hm; rewrite lookup_app_l in Hi|].
    rewrite list_lookup_total_alt, lookup_ge_None_2 by (rewrite <-(tr_length m ws Ht); lia). simpl.
    rewrite bool_decide_false; [done|]. intros Hw%Hp. apply list_elem_of_lookup in Hw as [k Hk].
    pose proof (lookup_lt_Some _ _ _ Hk). assert (i = k); [|lia].
    eapply trie_inj; [done..|]. by rewrite lookup_app_l.
  - intros p Hin. apply elem_of_app. left. by apply Hp.
Qed.

Lemma insertPattern_spec m ws ps p m' :
  loaded m ws ps → insertPattern m p = Some m' → ∃ ws', loaded m' ws' (ps ++ [p]).
Proof.
  intros Hl. unfold insertPattern. destruct (insertBytes m 0 p) as [[m1 n]|] eqn:E; simpl; [|done].
  destruct (insertBytes_spec _ _ _ _ _ _ _ (ld_trie _ _ _ Hl) (tr_root _ _ (ld_trie _ _ _ Hl)) E) as (new&Ht&Hn&Hd).
  pose proof (loaded_data _ _ _ _ _ Hl Ht Hd) as [_ Hf Hm Hp]. set (ws' := ws ++ new) in *. simpl in Hn.
  assert (∀ q, q ∈ ps ++ [p] → q ∈ ws') as Hp'.
  { intros q [Hq| ->%list_elem_of_singleton]%elem_of_app; [by apply Hp|by eapply list_elem_of_lookup_2]. }
  pose proof (Hm n p Hn) as Hn'. intros [= <-]. exists ws'. destruct (Nat.ltb_spec (terminal (m1 !!! n)) (length p)) as [Hlt|Hge].
  - assert (∀ k, alter (with_terminal (length p)) n m1 !!! k = if decide (k = n) then with_terminal (length p) (m1 !!! k) else m1 !!! k) as Hk.
    { intros k. rewrite alter_total. destruct (decide (k = n)) as [->|]; [rewrite decide_True|rewrite decide_False]; try tauto.
      split; [done|]. rewrite <-(tr_length m1 ws' Ht). by eapply lookup_lt_Some. }
    split; [| | |done].
    + split; try apply Ht; [by rewrite length_alter; apply Ht| |]; intros k; rewrite Hk;
        destruct (decide (k = n)) as [->|]; simpl; apply Ht.
    + intros k. rewrite Hk. destruct (decide (k = n)) as [->|]; simpl; [|apply Hf]. destruct (Hf n) as (->&->&_). done.
    + intros k w Hw. rewrite Hk. destruct (decide (k = n)) as [->|Hne]; simpl.
      * simplify_eq. rewrite bool_decide_true; [done|]. apply elem_of_app. right. by apply list_elem_of_singleton.
      * rewrite (Hm k w Hw). assert (w ≠ p) by (intros ->; destruct Hne; by eapply trie_inj).
        by rewrite (bool_decide_ext (w ∈ ps ++ [p]) (w ∈ ps)) by (rewrite elem_of_app, list_elem_of_singleton; tauto).
  - split; [done..| |done]. intros k w Hw. rewrite (Hm k w Hw). destruct (decide (w = p)) as [->|Hne].
    + assert (k = n) as -> by by eapply trie_inj. rewrite (bool_decide_true (p ∈ ps ++ [p])) by (apply elem_of_app; right; by apply list_elem_of_singleton).
      rewrite Hn' in Hge. case_bool_decide; [done|lia].
    + by rewrite (bool_decide_ext (w ∈ ps ++ [p]) (w ∈ ps)) by (rewrite elem_of_app, list_elem_of_singleton; tauto).
Qed.

Lemma insertPatterns_spec qs m ws ps m' :
  loaded m ws ps → insertPatterns m qs = Some m' → ∃ ws', loaded m' ws' (ps ++ qs).
Proof.
  revert m ws ps. induction qs as [|q qs IH]; intros m ws ps Hl; simpl.
  - intros [= <-]. exists ws. by rewrite app_nil_r.
  - destruct (insertPattern m q) as [m1|] eqn:E; simpl; [|done]. intros H.
    destruct (insertPattern_spec _ _ _ _ _ Hl E) as [ws1 Hl1]. destruct (IH _ _ _ Hl1 H) as [ws2 Hl2].
    exists ws2. by rewrite <-app_assoc in Hl2.
Qed.

Lemma empty_loaded : loaded [newNode] [[]] [].
Proof.
  assert (∀ i, [newNode] !!! i = newNode) as E by (intros [|[]]; done).
  split.
  - split; try done; [apply NoDup_singleton|intros i; rewrite E; constructor| |].
    + intros i w b j Hi. rewrite E. simpl. split; [by intros ?%elem_of_nil|]. intros Hj. exfalso.
      apply list_elem_of_lookup_2, list_elem_of_singleton in Hj. by destruct w.
    + intros w b Hw%list_elem_of_singleton. by destruct w.
  - intros i. by rewrite E.
  - intros i w Hi. by rewrite E.
  - by intros p ?%elem_of_nil.
Qed.

(** ** Words: longest suffixes *)

Section words.
Context (ws : list (list Z)) (Hroot : [] ∈ ws) (Hclosed : ∀ w b, w ++ [b] ∈ ws → w ∈ ws).

(** The longest suffix of [t] among [ws]. *)
Fixpoint lsuf (t : list Z) : list Z :=
  if decide (t ∈ ws) then t else match t with [] => [] | _ :: r => lsuf r end.

Lemma lsuf_elem t : lsuf t ∈ ws.
Proof. induction t as [|c t IH]; simpl; case_decide; done. Qed.

Lemma lsuf_suffix t : lsuf t `suffix_of` t.
Proof. induction t as [|c t IH]; simpl; case_decide; try done. by apply suffix_cons_r. Qed.

Lemma lsuf_max s t : s ∈ ws → s `suffix_of` t → s `suffix_of` lsuf t.
Proof.
  intros Hs. induction t as [|c t IH]; simpl; case_decide as E; try done.
  destruct s as [|x s]; [intros _; apply suffix_nil|]. intros [?|H]%suffix_cons_inv; [congruence|by apply IH].
Qed.

Lemma lsuf_self t : t ∈ ws → lsuf t = t.
Proof. intros Ht. destruct t; simpl; by rewrite decide_True. Qed.

Lemma lsuf_skip c t : c :: t ∉ ws → lsuf (c :: t) = lsuf t.
Proof. intros H. simpl. by rewrite decide_False. Qed.

Lemma lsuf_snoc t b : lsuf (t ++ [b]) = lsuf (lsuf t ++ [b]).
Proof.
  apply (anti_symm suffix).
  - apply lsuf_max; [apply lsuf_elem|]. pose proof (lsuf_elem (t ++ [b])) as He. pose proof (lsuf_suffix (t ++ [b])) as Hs.
    destruct (lsuf (t ++ [b])) as [|c s _] using rev_ind; [apply suffix_nil|].
    apply suffix_snoc_inv_1 in Hs as Hc. apply suffix_snoc_inv_2 in Hs. subst c. apply suffix_app. apply lsuf_max; [|done].
    by eapply Hclosed.
  - apply lsuf_max; [apply lsuf_elem|]. etrans; [apply lsuf_suffix|]. apply suffix_app, lsuf_suffix.
Qed.

Lemma lsuf_length t : length (lsuf t) ≤ length t.
Proof. apply suffix_length, lsuf_suffix. Qed.
End words.

(** The lengths of the patterns that are suffixes of a word, longest first. *)
Fixpoint outs (ps : list (list Z)) (w : list Z) : list nat :=
  match w with
  | [] => []
  | _ :: r => if decide (w ∈ ps) then length w :: outs ps r else outs ps r
  end.

Lemma elem_of_outs ps w n : n ∈ outs ps w ↔ n ≠ 0 ∧ ∃ p, p ∈ ps ∧ p `suffix_of` w ∧ length p = n.
Proof.
  induction w as [|c w IH]; simpl.
  - rewrite elem_of_nil. split; [done|]. intros (Hn&p&_&->%suffix_nil_inv&Hl). simpl in Hl. lia.
  - assert (∀ p, p `suffix_of` c :: w ↔ p = c :: w ∨ p `suffix_of` w) as Hs.
    { intros [|x p]; [split; [intros _; right; apply suffix_nil|intros _; apply suffix_nil]|].
      split; [apply suffix_cons_inv|]. intros [->|?]; [done|by apply suffix_cons_r]. }
    assert (n ≠ 0 ∧ (∃ p, p ∈ ps ∧ p `suffix_of` c :: w ∧ length p = n) ↔
            (c :: w ∈ ps ∧ n = S (length w)) ∨ n ∈ outs ps w) as ->.
    { rewrite IH. setoid_rewrite Hs. split.
      - intros (Hn&p&Hp&[->|Hw]&Hl); [left; split; [done|by rewrite <-Hl]|right; eauto].
      - intros [[Hp ->]|(Hn&p&Hp&Hw&Hl)]; split; eauto 8. }
    case_decide; [rewrite elem_of_cons|]; tauto.
Qed.

Lemma outs_lsuf ws ps t : (∀ p, p ∈ ps → p ∈ ws) → outs ps (lsuf ws t) = outs ps t.
Proof.
  intros Hp. induction t as [|c t IH]; cbn [lsuf]; case_decide as E; try done.
  rewrite IH. simpl. rewrite decide_False by (intros ?%Hp; done). done.
Qed.

Lemma outs_cons ps c w : outs ps (c :: w) = (if decide (c :: w ∈ ps) then [S (length w)] else []) ++ outs ps w.
Proof. simpl. by case_decide. Qed.

Lemma outs_head_le ps w : default 0 (head (outs ps w)) ≤ length w.
Proof. induction w as [|c w IH]; simpl; [done|]. case_decide; simpl; lia. Qed.

Lemma trie_depth m ws w : trie m ws → w ∈ ws → length w ≤ length m.
Proof.
  intros Ht Hw. rewrite <-(tr_length m ws Ht).
  assert ((λ n, take n w) <$> seq 1 (length w) ⊆+ ws) as Hs.
  { apply NoDup_submseteq.
    - apply NoDup_fmap_2_strong; [|apply NoDup_seq]. intros x y Hx%elem_of_seq Hy%elem_of_seq E.
      apply (f_equal length) in E. rewrite !length_take in E. lia.
    - intros v (n&->&_)%list_elem_of_fmap. apply (trie_prefix m ws _ (drop n w) Ht). by rewrite take_drop. }
  apply submseteq_length in Hs. by rewrite length_fmap, length_seq in Hs.
Qed.

(** ** The links *)

Section links.
Context (ws ps : list (list Z)) (Hpat : ∀ p, p ∈ ps → p ∈ ws).

(** What the links of the node with path [w] have to be. *)
Record good (m : list acNode) (i : nat) (w : list Z) : Prop := {
  gd_fail : ws !! fail (m !!! i) = Some (lsuf ws (tail w));
  gd_link : ∃ v, ws !! outputLink (m !!! i) = Some v ∧ outs ps v = outs ps (tail w) ∧ (v = [] ∨ v ∈ ps) ∧
                 v `suffix_of` tail w;
  gd_output : output (m !!! i) = default 0 (head (outs ps w));
}.

Definition terminals (m : list acNode) : Prop :=
  ∀ i w, ws !! i = Some w → terminal (m !!! i) = if bool_decide (w ∈ ps) then length w else 0.

Lemma good_same m m' i w : m' !!! i = m !!! i → good m i w → good m' i w.
Proof. intros E [H1 H2 H3]. split; by rewrite E. Qed.

(** A transition from a state whose failure ancestors are all linked. *)
Lemma advanceLoop_spec m fuel f u b :
  trie m ws → ws !! f = Some u → length u ≤ fuel →
  (∀ i w, ws !! i = Some w → length w ≤ length u → good m i w) →
  ws !! advanceLoop fuel m f b = Some (lsuf ws (u ++ [b])).
Proof.
  intros Ht. revert f u. induction fuel as [|fuel IH]; intros f u Hf Hl Hg.
  all: assert ([] ∈ ws) as Hroot by (eapply list_elem_of_lookup_2, (tr_root m ws Ht)).
  all: assert (u = [] → ws !! default 0 (edge m 0 b) = Some (lsuf ws (u ++ [b]))) as H0
    by (intros ->; destruct (edge m 0 b) as [j|] eqn:E; simpl;
        [apply (trie_edge m ws 0 [] b j Ht (tr_root m ws Ht)) in E as E'; rewrite E'; by rewrite decide_True by by eapply list_elem_of_lookup_2
        |apply (trie_edge_None m ws 0 [] b Ht (tr_root m ws Ht)) in E; rewrite !decide_False by done; rewrite decide_True by done; apply Ht]).
  - simpl. apply H0. destruct u; [done|simpl in Hl; lia].
  - cbn [advanceLoop]. destruct (Nat.eqb_spec f 0) as [->|Hf0].
    { apply H0. rewrite (tr_root m ws Ht) in Hf. congruence. }
    destruct (edge m f b) as [j|] eqn:E.
    + apply (trie_edge m ws f u b j Ht Hf) in E. rewrite E. by rewrite lsuf_self by by eapply list_elem_of_lookup_2.
    + apply (trie_edge_None m ws f u b Ht Hf) in E. destruct u as [|c r].
      { destruct Hf0. by eapply trie_inj; [| |apply Ht]. }
      pose proof (lsuf_length ws r) as Hr. simpl in Hl.
      rewrite <-app_comm_cons in *. rewrite lsuf_skip by done. rewrite lsuf_snoc; [|done|apply (tr_closed m ws Ht)].
      apply IH; [by apply (gd_fail m f (c :: r)), Hg|lia|]. intros i w Hi Hw. apply Hg; [done|]. simpl. lia.
Qed.

Lemma failLoop_advance m fuel f b :
  (∀ i j, edge m i b = Some j → j ≠ 0) →
  (if failLoop fuel m f b =? 0 then default 0 (edge m 0 b) else failLoop fuel m f b) = advanceLoop fuel m f b.
Proof.
  intros Hj. revert f. induction fuel as [|fuel IH]; intros f; simpl; [done|].
  destruct (f =? 0); [done|]. destruct (edge m f b) as [j|] eqn:E; [|apply IH].
  apply Hj in E. by destruct j.
Qed.

Lemma edge_nonroot m i b j : trie m ws → edge m i b = Some j → i < length m → j ≠ 0.
Proof.
  intros Ht E Hi ->. rewrite <-(tr_length m ws Ht) in Hi. apply lookup_lt_is_Some_2 in Hi as [w Hw].
  apply (trie_edge m ws i w b 0 Ht Hw) in E. rewrite (tr_root m ws Ht) in E. injection E as E. by destruct w.
Qed.

Lemma edge_in_range m i b j : edge m i b = Some j → i < length m.
Proof.
  unfold edge. destruct (decide (i < length m)); [done|]. rewrite list_lookup_total_alt, (lookup_ge_None_2 m i) by lia. done.
Qed.

(** The failure link computed for the child of [s] over [b]. *)
Lemma failureOf_spec m s w b c :
  trie m ws → ws !! s = Some w → w ≠ [] → ws !! c = Some (w ++ [b]) →
  (∀ i v, ws !! i = Some v → length v ≤ length w → good m i v) →
  ws !! failureOf m s b c = Some (lsuf ws (tail (w ++ [b]))).
Proof.
  intros Ht Hs Hw Hc Hg.
  assert (failureOf m s b c = advanceLoop (length m) m (fail (m !!! s)) b) as ->.
  { rewrite <-failLoop_advance by (intros i j E; eapply edge_nonroot; [done..|by eapply edge_in_range]).
    unfold failureOf. cbv zeta. destruct (Nat.eqb_spec (failLoop (length m) m (fail (m !!! s)) b) 0) as [->|]; [|done].
    destruct (edge m 0 b) as [j|] eqn:E; simpl; [|done].
    destruct (Nat.eqb_spec j c) as [->|]; [|done]. apply (trie_edge m ws 0 [] b c Ht (tr_root m ws Ht)) in E.
      rewrite Hc in E. injection E as E. destruct w as [|? []]; done. }
  destruct w as [|x r]; [done|]. simpl.
  assert ([] ∈ ws) as Hroot by (eapply list_elem_of_lookup_2, (tr_root m ws Ht)).
  rewrite lsuf_snoc; [|done|apply (tr_closed m ws Ht)].
  pose proof (lsuf_length ws r). apply advanceLoop_spec; [done| | |].
  - by apply (gd_fail m s (x :: r)), Hg.
  - apply (trie_depth m ws); [done|]. by apply lsuf_elem.
  - intros i v Hi Hv. apply Hg; [done|]. simpl. lia.
Qed.

Lemma setFailure_total m c f k :
  k ≠ c → setFailure m c f !!! k = m !!! k.
Proof. intros Hk. unfold setFailure. rewrite alter_total, decide_False by tauto. done. Qed.

Lemma setFailure_shape m c f k :
  edges (setFailure m c f !!! k) = edges (m !!! k) ∧ terminal (setFailure m c f !!! k) = terminal (m !!! k).
Proof. unfold setFailure. rewrite alter_total. by case_decide. Qed.

Lemma setFailure_trie m c f : trie m ws → trie (setFailure m c f) ws.
Proof.
  intros Ht. split; try apply Ht; [unfold setFailure; rewrite length_alter; apply Ht| |];
    intros i; rewrite (proj1 (setFailure_shape m c f i)); apply Ht.
Qed.

(** The freshly linked child. *)
Lemma setFailure_good m c f w :
  trie m ws → terminals m → ws !! c = Some w → w ≠ [] → output (m !!! c) = terminal (m !!! c) →
  ws !! f = Some (lsuf ws (tail w)) → good m f (lsuf ws (tail w)) → good (setFailure m c f) c w.
Proof.
  intros Ht Hm Hc Hw Hout Hf Hg. set (u := lsuf ws (tail w)) in *.
  assert (c < length m) as Hlt by (rewrite <-(tr_length m ws Ht); by eapply lookup_lt_Some).
  assert (setFailure m c f !!! c = with_fail f (if 0 <? terminal (m !!! f) then f else outputLink (m !!! f))
            (if output (m !!! c) <? output (m !!! f) then output (m !!! f) else output (m !!! c)) (m !!! c)) as E.
  { unfold setFailure. by rewrite alter_total, decide_True. }
  assert (outs ps u = outs ps (tail w)) as Hou by by apply outs_lsuf.
  assert (u `suffix_of` tail w) as Hsu by apply lsuf_suffix.
  pose proof (Hm f u Hf) as Htf. split; rewrite E; simpl.
  - done.
  - destruct (Nat.ltb_spec 0 (terminal (m !!! f))) as [Hpos|Hzero].
    + exists u. split_and!; try done. right. rewrite Htf in Hpos. case_bool_decide; [done|lia].
    + destruct (gd_link m f u Hg) as (v&Hv&Hvo&Hvp&Hvs). exists v. split_and!; [done| |done|].
      * rewrite Hvo, <-Hou. destruct u as [|x r]; [done|]. rewrite outs_cons, decide_False; [done|].
        intros Hin. rewrite bool_decide_true in Htf by done. simpl in Htf. lia.
      * etrans; [done|]. etrans; [|done]. destruct u; [done|by apply suffix_cons_r].
  - rewrite Hout, (Hm c w Hc), (gd_output m f u Hg), Hou.
    pose proof (outs_head_le ps (tail w)). destruct w as [|x r]; [done|]. simpl in *. rewrite bool_decide_decide.
    set (h := default 0 (head (outs ps r))) in *. destruct (decide (x :: r ∈ ps)); cbv iota.
    + destruct (Nat.ltb_spec (S (length r)) h); [lia|done].
    + fold h. destruct (Nat.ltb_spec 0 h); lia.
Qed.

(** ** Breadth first *)

Definition depth (x : nat) : nat := length (ws !!! x).

(** [D] are the states already dequeued, [q] the queue, [o] the children of
    the last state of [D] that are still to be linked. *)
Record linking (m : list acNode) (D q o : list nat) : Prop := {
  lk_trie : trie m ws;
  lk_terminals : terminals m;
  lk_range : ∀ x, x ∈ D ++ q ++ o → ∃ w, ws !! x = Some w ∧ w ≠ [];
  lk_nodup : NoDup (D ++ q ++ o);
  lk_good : ∀ i w, ws !! i = Some w → i ∈ D ++ q ∨ w = [] → good m i w;
  lk_fresh : ∀ i, i ∉ D ++ q → output (m !!! i) = terminal (m !!! i);
  lk_first : ∀ i b, ws !! i = Some [b] → i ∈ D ++ q;
  lk_children : ∀ i w j b, i ∈ D → ws !! i = Some w → ws !! j = Some (w ++ [b]) → j ∈ D ++ q ++ o;
  lk_parent : ∀ i w j b, j ∈ D ++ q → ws !! i = Some w → ws !! j = Some (w ++ [b]) → i ∈ D ∨ i = 0;
  lk_sorted : StronglySorted (λ x y, depth x ≤ depth y) (D ++ q);
  lk_window : ∀ x y, x ∈ q → y ∈ q → depth x ≤ S (depth y);
}.

Lemma depth_word x w : ws !! x = Some w → depth x = length w.
Proof. intros H. unfold depth. by rewrite (list_lookup_total_correct _ _ _ H). Qed.

(** Every node no deeper than the state being processed is linked. *)
Lemma linking_complete m D s q o i w :
  linking m (D ++ [s]) q o → (∀ x, x ∈ o → depth x = S (depth s)) →
  ws !! i = Some w → w ≠ [] → length w ≤ depth s → i ∈ (D ++ [s]) ++ q.
Proof.
  intros Hl Ho. revert i. induction w as [|b v IH] using rev_ind; [done|]. intros i Hi _ Hle.
  rewrite length_app in Hle. simpl in Hle. destruct (decide (v = [])) as [->|Hv].
  { by apply (lk_first _ _ _ _ Hl i b). }
  assert (v ∈ ws) as [k Hk]%list_elem_of_lookup.
  { apply (tr_closed m ws (lk_trie _ _ _ _ Hl) v b). by eapply list_elem_of_lookup_2. }
  assert (k ∈ (D ++ [s]) ++ q) as Hin by (apply IH; [done..|lia]).
  assert (k ∈ D ++ [s]) as HD.
  { apply elem_of_app in Hin as [|Hq]; [done|]. exfalso.
    assert (depth s ≤ depth k) as Hd.
    { apply (StronglySorted_app_1_elem_of _ (D ++ [s]) q s k (lk_sorted _ _ _ _ Hl)); [|done].
      apply elem_of_app. right. by apply list_elem_of_singleton. }
    rewrite (depth_word k v Hk) in Hd. lia. }
  pose proof (lk_children _ _ _ _ Hl k v i b HD Hk Hi) as Hc. rewrite app_assoc in Hc.
  apply elem_of_app in Hc as [|Hx]; [done|]. apply Ho in Hx. rewrite (depth_word i _ Hi), length_app in Hx. simpl in Hx. lia.
Qed.

Lemma linking_good_upto m D s q o w :
  linking m (D ++ [s]) q o → (∀ x, x ∈ o → depth x = S (depth s)) → ws !! s = Some w →
  ∀ i v, ws !! i = Some v → length v ≤ length w → good m i v.
Proof.
  intros Hl Ho Hs i v Hi Hv. apply (lk_good _ _ _ _ Hl); [done|].
  destruct (decide (v = [])) as [->|Hne]; [by right|left].
  eapply linking_complete; [done..|]. by rewrite (depth_word s w Hs).
Qed.

Lemma dequeued_shallow m D s q o x : linking m (D ++ [s]) q o → x ∈ D ++ [s] → depth x ≤ depth s.
Proof.
  intros Hl [Hx| ->%list_elem_of_singleton]%elem_of_app; [|done].
  pose proof (lk_sorted _ _ _ _ Hl) as Hs. apply StronglySorted_app_1_l in Hs.
  apply (StronglySorted_app_1_elem_of _ D [s] x s Hs); [done|]. by apply list_elem_of_singleton.
Qed.

(** One edge of the state being processed. *)
Lemma link_step m D s w q b c o :
  linking m (D ++ [s]) q (c :: o) → ws !! s = Some w → w ≠ [] → ws !! c = Some (w ++ [b]) →
  (∀ x, x ∈ o → depth x = S (depth s)) → (∀ x, x ∈ q → depth s ≤ depth x ≤ S (depth s)) →
  linking (setFailure m c (failureOf m s b c)) (D ++ [s]) (q ++ [c]) o.
Proof.
  intros Hl Hs Hw Hc Ho Hq. assert (depth c = S (depth s)) as Hdc.
  { rewrite (depth_word c _ Hc), (depth_word s w Hs), length_app. simpl. lia. }
  assert (∀ x, x ∈ c :: o → depth x = S (depth s)) as Ho' by (intros x [->|?]%elem_of_cons; [done|by apply Ho]).
  pose proof (linking_good_upto _ _ _ _ _ _ Hl Ho' Hs) as Hup.
  assert (c ∉ (D ++ [s]) ++ q) as Hfresh.
  { intros Hin. pose proof (lk_nodup _ _ _ _ Hl) as Hnd. rewrite app_assoc in Hnd. apply NoDup_app in Hnd as (_&Hdis&_).
    apply (Hdis c Hin). by apply elem_of_cons; left. }
  pose proof (failureOf_spec m s w b c (lk_trie _ _ _ _ Hl) Hs Hw Hc Hup) as Hf. set (f := failureOf m s b c) in *.
  assert ((D ++ [s]) ++ (q ++ [c]) ++ o = (D ++ [s]) ++ q ++ c :: o) as El by (rewrite <-(app_assoc q); done).
  assert (∀ x, x ∈ (D ++ [s]) ++ q ++ [c] ↔ x ∈ (D ++ [s]) ++ q ∨ x = c) as Ex.
  { intros x. rewrite (app_assoc _ q), elem_of_app, list_elem_of_singleton. done. }
  split.
  - apply setFailure_trie, Hl.
  - intros i v Hi. rewrite (proj2 (setFailure_shape m c f i)). by apply (lk_terminals _ _ _ _ Hl).
  - rewrite El. apply Hl.
  - rewrite El. apply Hl.
  - intros i v Hi Hin. destruct (decide (i = c)) as [->|Hne].
    + rewrite Hc in Hi. injection Hi as <-.
      apply setFailure_good; [apply Hl|apply Hl|done|by destruct w|by apply (lk_fresh _ _ _ _ Hl)|done|].
      apply Hup; [done|]. pose proof (lsuf_length ws (tail (w ++ [b]))) as Hle. destruct w; [done|]. simpl in *.
      rewrite length_app in Hle. simpl in Hle. lia.
    + eapply good_same; [by apply setFailure_total|]. apply (lk_good _ _ _ _ Hl); [done|]. rewrite Ex in Hin. naive_solver.
  - intros i Hi. rewrite Ex in Hi. rewrite setFailure_total by naive_solver. apply (lk_fresh _ _ _ _ Hl). naive_solver.
  - intros i x Hi. apply Ex. left. by eapply (lk_first _ _ _ _ Hl).
  - rewrite El. apply Hl.
  - intros i v j x Hj Hi Hji. apply Ex in Hj as [Hj| ->]; [by eapply (lk_parent _ _ _ _ Hl)|].
    rewrite Hc in Hji. injection Hji as Hji. apply app_inj_tail in Hji as [-> _]. left. apply elem_of_app. right.
    apply list_elem_of_singleton. by eapply trie_inj; [apply (lk_trie _ _ _ _ Hl)|..].
  - rewrite (app_assoc _ q). apply StronglySorted_app. split_and!; [|apply Hl|repeat constructor].
    intros x y [Hx|Hx]%elem_of_app ->%list_elem_of_singleton; rewrite Hdc.
    + apply (dequeued_shallow _ _ _ _ _ _ Hl) in Hx. lia.
    + by apply Hq.
  - assert (∀ x, x ∈ q ++ [c] → depth s ≤ depth x ≤ S (depth s)) as Hb.
    { intros x [Hx| ->%list_elem_of_singleton]%elem_of_app; [by apply Hq|lia]. }
    intros x y Hx%Hb Hy%Hb. lia.
Qed.

Lemma linkChildren_spec es m D s w q m' q' :
  linking m (D ++ [s]) q (snd <$> es) → ws !! s = Some w → w ≠ [] →
  (∀ b c, (b, c) ∈ es → ws !! c = Some (w ++ [b])) → (∀ x, x ∈ q → depth s ≤ depth x ≤ S (depth s)) →
  linkChildren m s es q = (m', q') → linking m' (D ++ [s]) q' [].
Proof.
  revert m q. induction es as [|[b c] es IH]; intros m q Hl Hs Hw Hes Hq; simpl.
  { by intros [= <- <-]. }
  assert (∀ x y, (x, y) ∈ (b, c) :: es → depth y = S (depth s)) as Hd.
  { intros x y Hy%Hes. rewrite (depth_word y _ Hy), (depth_word s w Hs), length_app. simpl. lia. }
  apply IH; [|done..| |].
  - apply link_step with w; [done..|by apply Hes, elem_of_cons; left| |done].
    intros y ([x y']&->&Hx)%list_elem_of_fmap. apply (Hd x). apply elem_of_cons. by right.
  - intros x y Hx. apply Hes, elem_of_cons. by right.
  - intros x [Hx| ->%list_elem_of_singleton]%elem_of_app; [by apply Hq|].
    rewrite (Hd b c) by (apply elem_of_cons; by left). lia.
Qed.

Lemma sorted_nodup es : StronglySorted byteLt es → NoDup es.
Proof.
  induction 1 as [|[b n] es _ IH Hf]; constructor; [|done]. intros Hin.
  rewrite Forall_forall in Hf. specialize (Hf _ Hin). unfold byteLt in Hf. lia.
Qed.

Lemma children_nodup m s w : trie m ws → ws !! s = Some w → NoDup (snd <$> edges (m !!! s)).
Proof.
  intros Ht Hs. apply NoDup_fmap_2_strong; [|apply sorted_nodup, Ht].
  intros [b c] [b' c'] Hx Hy E. simpl in E. subst c'.
  apply (tr_edges m ws Ht s w b c Hs) in Hx. apply (tr_edges m ws Ht s w b' c Hs) in Hy. rewrite Hx in Hy.
  injection Hy as Hy. by apply app_inj_tail in Hy as [_ ->].
Qed.

(** The head of the queue becomes the state being processed. *)
Lemma linking_dequeue m D s q :
  linking m D (s :: q) [] → linking m (D ++ [s]) q (snd <$> edges (m !!! s)).
Proof.
  intros Hl. pose proof (lk_trie _ _ _ _ Hl) as Ht.
  assert (∀ o, (D ++ [s]) ++ q ++ o = D ++ (s :: q) ++ o) as El by (intros o; by rewrite <-app_assoc).
  assert ((D ++ [s]) ++ q = D ++ s :: q) as El' by by rewrite <-app_assoc.
  destruct (lk_range _ _ _ _ Hl s) as (w&Hs&Hw).
  { apply elem_of_app. right. rewrite app_nil_r. apply elem_of_cons. by left. }
  assert (∀ c, c ∈ snd <$> edges (m !!! s) → ∃ b, ws !! c = Some (w ++ [b])) as Ho.
  { intros c ([b c']&->&Hin)%list_elem_of_fmap. exists b. by apply (tr_edges m ws Ht s w b c' Hs). }
  pose proof (lk_nodup _ _ _ _ Hl) as Hnd. rewrite app_nil_r in Hnd.
  split; rewrite ?El'; try apply Hl; rewrite ?El.
  - intros x. rewrite app_assoc. intros [Hx|Hx]%elem_of_app; [apply (lk_range _ _ _ _ Hl); by rewrite app_nil_r|].
    destruct (Ho x Hx) as [b Hb]. exists (w ++ [b]). split; [done|by destruct w].
  - rewrite app_assoc. apply NoDup_app. split_and!; [done| |by eapply children_nodup].
    intros x Hx Hc. destruct (Ho x Hc) as [b Hb]. destruct (lk_parent _ _ _ _ Hl s w x b Hx Hs Hb) as [HD| ->].
    + apply NoDup_app in Hnd as (_&Hdis&_). apply (Hdis s HD). apply elem_of_cons. by left.
    + rewrite (tr_root m ws Ht) in Hs. congruence.
  - intros i v j b Hi Hv Hj. rewrite app_assoc. apply elem_of_app. apply elem_of_app in Hi as [Hi| ->%list_elem_of_singleton].
    + left. pose proof (lk_children _ _ _ _ Hl i v j b Hi Hv Hj) as H. by rewrite app_nil_r in H.
    + right. rewrite Hs in Hv. injection Hv as <-. apply list_elem_of_fmap. exists (b, j). split; [done|].
      by apply (tr_edges m ws Ht s w b j Hs).
  - intros i v j b Hj Hv Hjw. destruct (lk_parent _ _ _ _ Hl i v j b Hj Hv Hjw); [left; apply elem_of_app; by left|by right].
  - intros x y Hx Hy. apply (lk_window _ _ _ _ Hl); apply elem_of_cons; by right.
Qed.

Record linked (m : list acNode) : Prop := {
  ln_trie : trie m ws;
  ln_terminals : terminals m;
  ln_good : ∀ i w, ws !! i = Some w → good m i w;
}.

Lemma linking_done m D : linking m D [] [] → linked m.
Proof.
  intros Hl. pose proof (lk_trie _ _ _ _ Hl) as Ht. split; [apply Hl..|]. intros i w Hi. apply (lk_good _ _ _ _ Hl); [done|].
  destruct (decide (w = [])) as [|Hw]; [by right|left]. revert i Hi Hw. induction w as [|b v IH] using rev_ind; [done|].
  intros i Hi _. destruct (decide (v = [])) as [->|Hv]; [by apply (lk_first _ _ _ _ Hl i b)|].
  assert (v ∈ ws) as [k Hk]%list_elem_of_lookup.
  { apply (tr_closed m ws Ht v b). by eapply list_elem_of_lookup_2. }
  specialize (IH k Hk Hv). rewrite app_nil_r in IH. apply (lk_children _ _ _ _ Hl k v i b IH Hk Hi).
Qed.

Lemma linking_bound m D q o : linking m D q o → length D < length m.
Proof.
  intros Hl. pose proof (lk_trie _ _ _ _ Hl) as Ht. rewrite <-(tr_length m ws Ht).
  assert (0 :: D ⊆+ seq 0 (length ws)) as Hs.
  { apply NoDup_submseteq.
    - constructor; [|pose proof (lk_nodup _ _ _ _ Hl) as Hnd; by apply NoDup_app in Hnd as [? _]].
      intros H0. destruct (lk_range _ _ _ _ Hl 0) as (w&Hw&Hne); [apply elem_of_app; by left|].
      rewrite (tr_root m ws Ht) in Hw. congruence.
    - intros x [->|Hx]%elem_of_cons; apply elem_of_seq.
      + pose proof (lookup_lt_Some _ _ _ (tr_root m ws Ht)). lia.
      + destruct (lk_range _ _ _ _ Hl x) as (w&Hw&_); [apply elem_of_app; by left|].
        pose proof (lookup_lt_Some _ _ _ Hw). lia. }
  apply submseteq_length in Hs. rewrite length_seq in Hs. simpl in Hs. lia.
Qed.

Lemma linkAll_spec fuel m D q :
  linking m D q [] → length m ≤ length D + fuel → linked (linkAll fuel m q).
Proof.
  revert m D q. induction fuel as [|fuel IH]; intros m D q Hl Hf; cbn [linkAll].
  { pose proof (linking_bound _ _ _ _ Hl). lia. }
  destruct q as [|s q]; [by eapply linking_done|].
  destruct (linkChildren m s (edges (m !!! s)) q) as [m' q'] eqn:E.
  destruct (lk_range _ _ _ _ Hl s) as (w&Hs&Hw).
  { apply elem_of_app. right. rewrite app_nil_r. apply elem_of_cons. by left. }
  assert (linking m' (D ++ [s]) q' []) as Hl'.
  { eapply linkChildren_spec; [by apply linking_dequeue|done..| | |done].
    - intros b c Hin. by apply (tr_edges m ws (lk_trie _ _ _ _ Hl) s w b c Hs).
    - intros x Hx. split.
      + pose proof (lk_sorted _ _ _ _ Hl) as Hso. apply StronglySorted_app in Hso as (_&_&Hso).
        apply StronglySorted_cons in Hso as [Hfa _]. rewrite Forall_forall in Hfa. by apply Hfa.
      + apply (lk_window _ _ _ _ Hl); apply elem_of_cons; [by right|by left]. }
  apply (IH m' (D ++ [s])); [done|]. rewrite length_app. simpl.
  pose proof (tr_length m' ws (lk_trie _ _ _ _ Hl')). pose proof (tr_length m ws (lk_trie _ _ _ _ Hl)). lia.
Qed.
End links.

Lemma loaded_linking m ws ps : loaded m ws ps → linking ws ps m [] (snd <$> edges (m !!! 0)) [].
Proof.
  intros [Ht Hf Hm Hp]. pose proof (tr_root m ws Ht) as H0. pose proof (lookup_lt_Some _ _ _ H0) as H0l.
  assert (∀ x, x ∈ snd <$> edges (m !!! 0) ↔ ∃ b, ws !! x = Some [b]) as Hx.
  { intros x. rewrite list_elem_of_fmap. split.
    - intros ([b c]&->&Hin). exists b. by apply (tr_edges m ws Ht 0 [] b c H0).
    - intros [b Hb]. exists (b, x). split; [done|]. by apply (tr_edges m ws Ht 0 [] b x H0). }
  assert (∀ x, x ∈ snd <$> edges (m !!! 0) → depth ws x = 1) as Hd.
  { intros x [b Hb]%Hx. by rewrite (depth_word ws x _ Hb). }
  split; rewrite ?app_nil_r; simpl.
  - done.
  - intros i w. apply Hm.
  - intros x [b Hb]%Hx. by exists [b].
  - by eapply children_nodup.
  - intros i w Hi Hw. assert (length w ≤ 1) as Hle.
    { destruct Hw as [[b Hb]%Hx| ->]; [|simpl; lia]. rewrite Hi in Hb. by injection Hb as ->. }
    assert (tail w = []) as Et by (destruct w as [|? []]; simpl in *; [done|done|lia]).
    destruct (Hf i) as (Hfi&Hli&Hoi). split; rewrite ?Hfi, ?Hli, ?Hoi, ?Et.
    + simpl. rewrite decide_True; [done|]. by eapply list_elem_of_lookup_2.
    + exists []. split_and!; [done..|by left|done].
    + rewrite (Hm i w Hi). destruct w as [|x [|? ?]]; simpl in *; [by case_bool_decide| |lia].
      rewrite bool_decide_decide. by case_decide.
  - intros i _. by destruct (Hf i) as (_&_&->).
  - intros i b Hi. apply Hx. eauto.
  - by intros i w j b ?%elem_of_nil.
  - intros i w j b [c Hc]%Hx Hi Hj. rewrite Hc in Hj. injection Hj as Hj. destruct w as [|? [|? ?]]; try done. right.
    by eapply trie_inj.
  - assert (∀ l, (∀ x, x ∈ l → depth ws x = 1) → StronglySorted (λ x y, depth ws x ≤ depth ws y) l) as Hs.
    { induction l as [|x l IH]; intros Hl; constructor; [apply IH; intros y Hy; apply Hl, elem_of_cons; by right|].
      apply Forall_forall. intros y Hy. rewrite !Hl; [done|apply elem_of_cons; by right|apply elem_of_cons; by left]. }
    by apply Hs.
  - intros x y ->%Hd ->%Hd. lia.
Qed.

Lemma newMatcher_linked ps mt :
  newMatcher ps = Some mt → ∃ ws, linked ws ps (nodes mt) ∧ (∀ p, p ∈ ps → p ∈ ws).
Proof.
  unfold newMatcher. destruct (insertPatterns [newNode] ps) as [m|] eqn:E; simpl; [|done]. intros [= <-].
  destruct (insertPatterns_spec _ _ _ _ _ empty_loaded E) as [ws Hl]. simpl in Hl. exists ws.
  split; [|apply Hl]. apply linkAll_spec with []; [apply Hl|by apply loaded_linking|done].
Qed.

(** ** Reading a text *)

(** The state after a text. *)
Definition readText (mt : redactionMatcher) (t : list Z) : nat := foldl (advance mt) 0 t.

Lemma readText_word ws ps mt t :
  linked ws ps (nodes mt) → ws !! readText mt t = Some (lsuf ws t).
Proof.
  intros [Ht _ Hg]. assert ([] ∈ ws) as Hroot by (eapply list_elem_of_lookup_2, (tr_root _ ws Ht)).
  unfold readText. induction t as [|b t IH] using rev_ind; simpl.
  - rewrite decide_True by done. apply Ht.
  - rewrite foldl_snoc. rewrite lsuf_snoc; [|done|apply (tr_closed _ ws Ht)]. unfold advance.
    eapply advanceLoop_spec; [done..| |].
    + eapply trie_depth; [done|]. by apply lsuf_elem.
    + intros i w Hi _. by apply Hg.
Qed.

(** The lengths met by following [outputLink] from a state, the loop of
    [recordSourceMatches]. *)
Fixpoint outputChain (fuel : nat) (m : list acNode) (state : nat) : list nat :=
  match fuel with
  | O => []
  | S fuel =>
      if state =? 0 then []
      else (if 0 <? terminal (m !!! state) then [terminal (m !!! state)] else [])
           ++ outputChain fuel m (outputLink (m !!! state))
  end.

Lemma outputChain_spec ws ps m fuel s w :
  linked ws ps m → ws !! s = Some w → length w ≤ fuel → outputChain fuel m s = outs ps w.
Proof.
  intros [Ht Hm Hg]. revert s w. induction fuel as [|fuel IH]; intros s w Hs Hf.
  { destruct w; [done|simpl in Hf; lia]. }
  cbn [outputChain]. destruct w as [|c r].
  { assert (s = 0) as -> by (by eapply trie_inj; [| |apply Ht]). done. }
  destruct (Nat.eqb_spec s 0) as [->|Hs0]; [by rewrite (tr_root m ws Ht) in Hs|].
  rewrite outs_cons, (Hm s _ Hs), bool_decide_decide. destruct (gd_link _ _ _ _ _ (Hg s _ Hs)) as (v&Hv&Ho&_&Hsuf).
  simpl in Ho, Hsuf. rewrite (IH _ v); [|done|]. 2:{ apply suffix_length in Hsuf. simpl in Hf. lia. }
  rewrite Ho. by destruct (decide (c :: r ∈ ps)).
Qed.

(** What the writer reads off the automaton after a text. *)
Lemma readText_outs ps mt t :
  newMatcher ps = Some mt →
  outputChain (length (nodes mt)) (nodes mt) (readText mt t) = outs ps t ∧
  output (nodes mt !!! readText mt t) = default 0 (head (outs ps t)).
Proof.
  intros (ws&Hl&Hp)%newMatcher_linked. pose proof (readText_word ws ps mt t Hl) as Hw. split.
  - rewrite (outputChain_spec ws ps (nodes mt) _ _ _ Hl Hw); [by apply outs_lsuf|].
    eapply trie_depth; [apply Hl|]. by eapply list_elem_of_lookup_2.
  - rewrite (gd_output _ _ _ _ _ (ln_good _ _ _ Hl _ _ Hw)). by rewrite outs_lsuf.
Qed.

Lemma outs_sorted ps w : StronglySorted (λ x y, y < x) (outs ps w).
Proof.
  induction w as [|c w IH]; simpl; [constructor|]. case_decide; [constructor|]; try done.
  apply Forall_forall. intros n (_&p&_&Hs&<-)%elem_of_outs. apply suffix_length in Hs. lia.
Qed.

(** The states visited by that loop: the first one, then one per pattern. *)
Fixpoint chainNodes (fuel : nat) (m : list acNode) (state : nat) : nat :=
  match fuel with
  | O => 0
  | S fuel => if state =? 0 then 0 else S (chainNodes fuel m (outputLink (m !!! state)))
  end.

Lemma chainNodes_spec ws ps m fuel s w :
  linked ws ps m → ws !! s = Some w → length w ≤ fuel →
  chainNodes fuel m s = match w with [] => 0 | _ :: r => S (length (outs ps r)) end.
Proof.
  intros [Ht Hm Hg]. revert s w. induction fuel as [|fuel IH]; intros s w Hs Hf.
  { destruct w; [done|simpl in Hf; lia]. }
  cbn [chainNodes]. destruct w as [|c r].
  { assert (s = 0) as -> by (by eapply trie_inj; [| |apply Ht]). done. }
  destruct (Nat.eqb_spec s 0) as [->|Hs0]; [by rewrite (tr_root m ws Ht) in Hs|].
  destruct (gd_link _ _ _ _ _ (Hg s _ Hs)) as (v&Hv&Ho&Hp&Hsuf). simpl in Ho, Hsuf. f_equal.
  rewrite (IH _ v); [|done|apply suffix_length in Hsuf; simpl in Hf; lia]. rewrite <-Ho.
  destruct v as [|d v]; [done|]. destruct Hp as [?|Hp]; [done|]. by rewrite outs_cons, decide_True.
Qed.

Lemma readText_nodes ps mt t k :
  newMatcher ps = Some mt → (∀ u, length (outs ps u) ≤ k) →
  chainNodes (length (nodes mt)) (nodes mt) (readText mt t) ≤ S k.
Proof.
  intros (ws&Hl&Hp)%newMatcher_linked Hk. pose proof (readText_word ws ps mt t Hl) as Hw.
  rewrite (chainNodes_spec ws ps (nodes mt) _ _ _ Hl Hw).
  - destruct (lsuf ws t) as [|c r]; [lia|]. specialize (Hk r). lia.
  - eapply trie_depth; [apply Hl|]. by eapply list_elem_of_lookup_2.
Qed.

(** Patterns ending together have different lengths. *)
Lemma outs_few ps w : length (outs ps w) ≤ length ps.
Proof.
  rewrite <-(length_fmap length ps). apply submseteq_length, NoDup_submseteq.
  - pose proof (outs_sorted ps w) as Hs. induction Hs as [|x l Hs IH Hx]; constructor; [|done].
    intros Hin. rewrite Forall_forall in Hx. specialize (Hx x Hin). lia.
  - intros n (_&p&Hp&_&<-)%elem_of_outs. by apply list_elem_of_fmap_2.
Qed.

(** the automaton is exact: for every list of patterns it accepts and
    every text read from the initial state, following [outputLink] from the
    reached state lists exactly the lengths of the non-empty patterns that
    end at this point of the text (each once, longest first), and [output] is
    the longest of them, zero when there is none. *)
Theorem matcher_exact ps mt t :
  newMatcher ps = Some mt →
  let chain := outputChain (length (nodes mt)) (nodes mt) (readText mt t) in
  (∀ n, n ∈ chain ↔ n ≠ 0 ∧ ∃ p, p ∈ ps ∧ p `suffix_of` t ∧ length p = n) ∧
  StronglySorted (λ x y, y < x) chain ∧ output (nodes mt !!! readText mt t) = default 0 (head chain).
Proof.
  intros H chain. destruct (readText_outs ps mt t H) as [Hc Ho]. unfold chain. rewrite Hc.
  split_and!; [intros n; apply elem_of_outs|apply outs_sorted|done].
Qed.

(** "she", "he" and "hers" after "ushe". *)
Definition demoMatcher : redactionMatcher :=
  default {| nodes := []; maxPattern := 0 |} (newMatcher [[115; 104; 101]; [104; 101]; [104; 101; 114; 115]]%Z).

Lemma matcher_exact_witness :
  2 ∈ outputChain (length (nodes demoMatcher)) (nodes demoMatcher) (readText demoMatcher [117; 115; 104; 101]%Z).
Proof.
  assert (newMatcher [[115; 104; 101]; [104; 101]; [104; 101; 114; 115]]%Z = Some demoMatcher) as H by (vm_compute; reflexivity).
  apply (proj1 (matcher_exact _ demoMatcher [117; 115; 104; 101]%Z H)). split; [discriminate|].
  exists [104; 101]%Z. split; [apply elem_of_cons; right; apply elem_of_cons; by left|]. split; [|reflexivity].
  exists [117; 115]%Z. reflexivity.
Defined.
