(* ===== verification/Redactor.v ===== *)
(** * Streaming redaction (src/internal/crypto/redactor.go)

    A [RedactingWriter] replaces every occurrence of a secret in a byte stream
    by a marker before passing it on, without ever holding the whole stream:
    one automaton finds the matches of the source, a ring of candidate starts
    decides leftmost-longest, and a second scan of the output keeps the last
    [maxPattern-1] bytes back so that the marker and its surroundings cannot
    form a secret.

    Go's [int64] and [uint64] counters are integers here: every byte read costs
    the work counter at least one unit before it leaves [pending], and
    [redactionMatchWorkLimit] refuses beyond 2^61 bytes, so neither
    [sourceOffset] nor [sourceTransitions] comes near its width.  [matchWork]
    saturates as written. *)
From S2P Require Import Prelude Base64 Matcher.
#[local] Open Scope Z_scope.

(** ** Patterns *)

Definition MaxRedactionPatterns : Z := 4096.
Definition MaxRedactionRawBytes : Z := 8 * 2 ^ 20.
Definition redactionChunk : Z := 32 * 2 ^ 10.
Definition redactionMatchWorkPerByte : Z := 8.
Definition maxRedactionWork : Z := 2 ^ 64 - 1.

(** ["[REDACTED]"] *)
Definition Redacted : list Z := [91; 82; 69; 68; 65; 67; 84; 69; 68; 93].

Notation len l := (Z.of_nat (length l)).

Fixpoint indexFrom (i : Z) (haystack needle : list Z) : Z :=
  if len needle <=? len haystack then
    if bool_decide (needle `prefix_of` haystack) then i
    else match haystack with [] => -1 | _ :: r => indexFrom (i + 1) r needle end
  else -1.
Definition indexBytes (haystack needle : list Z) : Z := indexFrom 0 haystack needle.

Definition containsMarkerConflict (pattern : list Z) : bool :=
  (0 <? len pattern) && (0 <=? indexBytes Redacted pattern).

(** The map [unique] holds exactly the patterns collected so far. *)
Definition addPattern (patterns : list (list Z)) (pattern : list Z) : option (list (list Z)) :=
  if bool_decide (pattern ∈ patterns) then Some patterns
  else if MaxRedactionPatterns <=? len patterns then None
  else if containsMarkerConflict pattern then None
  else Some (patterns ++ [pattern]).

Fixpoint redactionPatternsLoop (patterns : list (list Z)) (total : Z) (values : list (list Z)) : option (list (list Z)) :=
  match values with
  | [] => Some patterns
  | value :: rest =>
      if len value =? 0 then redactionPatternsLoop patterns total rest
      else if MaxRedactionRawBytes - total <? len value then None
      else
        p1 ← addPattern patterns value;
        p2 ← addPattern p1 (base64Encode stdAlphabet true value);
        p3 ← addPattern p2 (base64Encode stdAlphabet false value);
        redactionPatternsLoop p3 (total + len value) rest
  end.
Definition redactionPatterns (values : list (list Z)) : option (list (list Z)) := redactionPatternsLoop [] 0 values.

(** ** The destination

    An [io.Writer] answers each call with a count and perhaps an error; the
    bytes it took are the first [n] of the slice.  [responses] are its answers
    to the coming calls, after which it takes everything. *)
Record Dst := { received : list Z; responses : list (Z * bool) }.

Definition dstWrite (d : Dst) (data : list Z) : (Z * bool) * Dst :=
  match responses d with
  | [] => ((len data, false), {| received := received d ++ data; responses := [] |})
  | (n, err) :: r => ((n, err), {| received := received d ++ take (Z.to_nat n) data; responses := r |})
  end.

(** The boolean is [err == nil]. *)
Fixpoint writeAllLoop (fuel : nat) (d : Dst) (data : list Z) : bool * Dst :=
  match data, fuel with
  | [], _ => (true, d)
  | _, O => (false, d)
  | _, S fuel =>
      let '((n, err), d') := dstWrite d data in
      if (n <? 0) || (len data <? n) then (false, d')
      else if err then (false, d')
      else if n =? 0 then (false, d')
      else writeAllLoop fuel d' (drop (Z.to_nat n) data)
  end.
Definition writeAll (d : Dst) (data : list Z) : bool * Dst := writeAllLoop (length data) d data.

(** ** The writer *)

(** Its mutable fields; [matcher] and [safety] are the same immutable
    automaton, a parameter below. *)
Record RedactingWriter := {
  dst : Dst;
  sourceState : nat; sourceOffset : Z; sourceTransitions : Z;
  pending : list Z; pendingBase : Z;
  candidateStarts : list Z; candidateLengths : list Z;
  matchWork : Z;
  safetyState : nat; safePending : list Z;
  failed : bool;
}.

Definition set_work (x : Z) (w : RedactingWriter) : RedactingWriter :=
  {| dst := dst w; sourceState := sourceState w; sourceOffset := sourceOffset w; sourceTransitions := sourceTransitions w;
     pending := pending w; pendingBase := pendingBase w; candidateStarts := candidateStarts w;
     candidateLengths := candidateLengths w; matchWork := x; safetyState := safetyState w; safePending := safePending w;
     failed := failed w |}.
Definition set_failed (w : RedactingWriter) : RedactingWriter :=
  {| dst := dst w; sourceState := sourceState w; sourceOffset := sourceOffset w; sourceTransitions := sourceTransitions w;
     pending := pending w; pendingBase := pendingBase w; candidateStarts := candidateStarts w;
     candidateLengths := candidateLengths w; matchWork := matchWork w; safetyState := safetyState w;
     safePending := safePending w; failed := true |}.
Definition set_ring (starts lengths : list Z) (w : RedactingWriter) : RedactingWriter :=
  {| dst := dst w; sourceState := sourceState w; sourceOffset := sourceOffset w; sourceTransitions := sourceTransitions w;
     pending := pending w; pendingBase := pendingBase w; candidateStarts := starts; candidateLengths := lengths;
     matchWork := matchWork w; safetyState := safetyState w; safePending := safePending w; failed := failed w |}.
Definition set_pending (p : list Z) (base : Z) (w : RedactingWriter) : RedactingWriter :=
  {| dst := dst w; sourceState := sourceState w; sourceOffset := sourceOffset w; sourceTransitions := sourceTransitions w;
     pending := p; pendingBase := base; candidateStarts := candidateStarts w; candidateLengths := candidateLengths w;
     matchWork := matchWork w; safetyState := safetyState w; safePending := safePending w; failed := failed w |}.
Definition set_source (state : nat) (w : RedactingWriter) : RedactingWriter :=
  {| dst := dst w; sourceState := state; sourceOffset := sourceOffset w + 1; sourceTransitions := sourceTransitions w + 1;
     pending := pending w; pendingBase := pendingBase w; candidateStarts := candidateStarts w;
     candidateLengths := candidateLengths w; matchWork := matchWork w; safetyState := safetyState w;
     safePending := safePending w; failed := failed w |}.
Definition set_safe (d : Dst) (state : nat) (p : list Z) (w : RedactingWriter) : RedactingWriter :=
  {| dst := d; sourceState := sourceState w; sourceOffset := sourceOffset w; sourceTransitions := sourceTransitions w;
     pending := pending w; pendingBase := pendingBase w; candidateStarts := candidateStarts w;
     candidateLengths := candidateLengths w; matchWork := matchWork w; safetyState := state; safePending := p;
     failed := failed w |}.

(** [None] is [ok == false]. *)
Definition redactionMatchWorkLimit (transitions : Z) : option Z :=
  if (maxRedactionWork - MaxRedactionPatterns) / redactionMatchWorkPerByte <? transitions then None
  else Some (MaxRedactionPatterns + transitions * redactionMatchWorkPerByte).

Definition consumeMatchWork (w : RedactingWriter) : bool * RedactingWriter :=
  if matchWork w =? maxRedactionWork then (false, w)
  else
    let w := set_work (matchWork w + 1) w in
    (match redactionMatchWorkLimit (sourceTransitions w) with Some limit => matchWork w <=? limit | None => false end, w).

Section writer.
Context (mt : redactionMatcher).

Definition ringIndex (start : Z) : nat := Z.to_nat (start mod Z.of_nat (maxPattern mt)).

Definition recordMatch (start length : Z) (w : RedactingWriter) : RedactingWriter :=
  if start <? pendingBase w then w
  else if pendingBase w + Z.of_nat (maxPattern mt) <=? start then set_failed w
  else
    let '(ok, w) := consumeMatchWork w in
    if negb ok then set_failed w
    else
      let index := ringIndex start in
      if negb (candidateStarts w !!! index =? start) || (candidateLengths w !!! index <? length)
      then set_ring (<[index := start]> (candidateStarts w)) (<[index := length]> (candidateLengths w)) w
      else w.

(** A failing [recordMatch] sets [failed] and the loop goes on. *)
Fixpoint recordLoop (fuel : nat) (state : nat) (w : RedactingWriter) : RedactingWriter :=
  match fuel with
  | O => w
  | S fuel =>
      if (state =? 0)%nat then w
      else
        let '(ok, w) := consumeMatchWork w in
        if negb ok then set_failed w
        else
          let length := terminal (nodes mt !!! state) in
          let w := if (0 <? length)%nat then recordMatch (sourceOffset w - Z.of_nat length) (Z.of_nat length) w else w in
          recordLoop fuel (outputLink (nodes mt !!! state)) w
  end.
Definition recordSourceMatches (w : RedactingWriter) : RedactingWriter :=
  recordLoop (length (nodes mt)) (sourceState w) w.

(** The scan of [emitSafe]: the state and the bytes kept, and whether no
    pattern ended. *)
Fixpoint scanSafe (state : nat) (kept input : list Z) : bool * nat * list Z :=
  match input with
  | [] => (true, state, kept)
  | b :: r =>
      let state := advance mt state b in
      if (0 <? output (nodes mt !!! state))%nat then (false, state, kept ++ [b]) else scanSafe state (kept ++ [b]) r
  end.

Definition emitSafe (input : list Z) (final : bool) (w : RedactingWriter) : bool * RedactingWriter :=
  if (maxPattern mt =? 0)%nat then
    let '(ok, d) := writeAll (dst w) input in (ok, set_safe d (safetyState w) (safePending w) w)
  else
    let '(ok, state, kept) := scanSafe (safetyState w) (safePending w) input in
    if negb ok then (false, set_safe (dst w) state kept w)
    else
      let hold := Z.of_nat (maxPattern mt) - 1 in
      let flush := if final then len kept else len kept - hold in
      if flush <=? 0 then (true, set_safe (dst w) state kept w)
      else
        let '(ok, d) := writeAll (dst w) (take (Z.to_nat flush) kept) in
        if negb ok then (false, set_safe d state kept w)
        else (true, set_safe d state (drop (Z.to_nat flush) kept) w).

(** The interior candidates of a match of [length], from [offset] on. *)
Fixpoint clearInterior (fuel : nat) (offset length : Z) (w : RedactingWriter) : bool * RedactingWriter :=
  match fuel with
  | O => (true, w)
  | S fuel =>
      if offset <? length then
        let '(ok, w) := consumeMatchWork w in
        if negb ok then (false, w)
        else
          let index := ringIndex (pendingBase w + offset) in
          clearInterior fuel (offset + 1) length
            (set_ring (<[index := 0]> (candidateStarts w)) (<[index := 0]> (candidateLengths w)) w)
      else (true, w)
  end.

(** One turn of [resolveSource]'s loop, after its two early returns. *)
Definition resolveOne (w : RedactingWriter) : bool * RedactingWriter :=
  let '(ok, w) := consumeMatchWork w in
  if negb ok then (false, w)
  else
    let index := ringIndex (pendingBase w) in
    let found := if candidateStarts w !!! index =? pendingBase w then candidateLengths w !!! index else 0 in
    let w := set_ring (<[index := 0]> (candidateStarts w)) (<[index := 0]> (candidateLengths w)) w in
    let length := if found =? 0 then 1 else found in
    let '(ok, w) := if found =? 0 then emitSafe (take 1 (pending w)) false w
                    else if len (pending w) <? found then (false, w)
                    else emitSafe Redacted false w in
    if negb ok then (false, w)
    else
      let '(ok, w) := clearInterior (Z.to_nat length) 1 length w in
      if negb ok then (false, w)
      else (true, set_pending (drop (Z.to_nat length) (pending w)) (pendingBase w + length) w).

Fixpoint resolveLoop (fuel : nat) (final : bool) (w : RedactingWriter) : bool * RedactingWriter :=
  match fuel with
  | O => (true, w)
  | S fuel =>
      if len (pending w) =? 0 then (true, w)
      else if negb final && (sourceOffset w <? pendingBase w + Z.of_nat (maxPattern mt)) then (true, w)
      else let '(ok, w) := resolveOne w in if negb ok then (false, w) else resolveLoop fuel final w
  end.
Definition resolveSource (final : bool) (w : RedactingWriter) : bool * RedactingWriter :=
  resolveLoop (S (length (pending w))) final w.

Definition acceptByte (b : Z) (w : RedactingWriter) : bool * RedactingWriter :=
  let w := set_pending (pending w ++ [b]) (pendingBase w) w in
  let w := set_source (advance mt (sourceState w) b) w in
  let w := recordSourceMatches w in
  if failed w then (false, w) else resolveSource false w.

Fixpoint accept (input : list Z) (w : RedactingWriter) : bool * RedactingWriter :=
  match input with
  | [] => (true, w)
  | b :: r => let '(ok, w) := acceptByte b w in if negb ok then (false, w) else accept r w
  end.

Fixpoint writeChunks (fuel : nat) (input : list Z) (w : RedactingWriter) : bool * RedactingWriter :=
  match input, fuel with
  | [], _ => (true, w)
  | _, O => (true, w)
  | _, S fuel =>
      let n := Z.to_nat (Z.min (len input) redactionChunk) in
      let '(ok, w) := accept (take n input) w in
      if negb ok then (false, set_failed w) else writeChunks fuel (drop n input) w
  end.

(** [None] is [ErrRedaction]. *)
Definition Write (input : list Z) (w : RedactingWriter) : option Z * RedactingWriter :=
  if failed w then (None, w)
  else if (maxPattern mt =? 0)%nat then
    let '(ok, d) := writeAll (dst w) input in
    let w := set_safe d (safetyState w) (safePending w) w in
    if ok then (Some (len input), w) else (None, set_failed w)
  else
    let '(ok, w) := writeChunks (length input) input w in
    if ok then (Some (len input), w) else (None, w).

Definition Close (w : RedactingWriter) : bool * RedactingWriter :=
  if failed w then (false, w)
  else if (maxPattern mt =? 0)%nat then (true, w)
  else
    let '(ok, w) := resolveSource true w in
    if negb ok then (false, set_failed w)
    else
      let '(ok, w) := emitSafe [] true w in
      if negb ok then (false, set_failed w) else (true, w).
End writer.

Definition writerOf (mt : redactionMatcher) (d : Dst) : RedactingWriter :=
  {| dst := d; sourceState := 0; sourceOffset := 0; sourceTransitions := 0; pending := []; pendingBase := 0;
     candidateStarts := replicate (maxPattern mt) 0; candidateLengths := replicate (maxPattern mt) 0;
     matchWork := 0; safetyState := 0; safePending := []; failed := false |}.

(** [dst] is not nil; [None] is [ErrRedaction]. *)
Definition NewRedactingWriter (d : Dst) (values : list (list Z)) : option (redactionMatcher * RedactingWriter) :=
  patterns ← redactionPatterns values;
  mt ← newMatcher patterns;
  Some (mt, writerOf mt d).
