(* ===== verification/Redaction.v ===== *)
(** * Correctness of the streaming redactor

    The writer of Redactor.v against the reference [redact] on whole texts:
    what has been passed on is always a beginning of the reference output that
    touches no occurrence of a secret in it, and on success it is all of it. *)
From S2P Require Import Prelude Base64 Matcher Redactor.
#[local] Open Scope Z_scope.

(** ** The reference *)

(** The longest pattern at the head of [s], 0 when there is none. *)
Definition longestAt (ps : list (list Z)) (s : list Z) : nat :=
  foldr (λ p n, if decide (p `prefix_of` s) then Nat.max (length p) n else n) 0%nat ps.

Fixpoint redactFuel (ps : list (list Z)) (fuel : nat) (s : list Z) : list Z :=
  match s, fuel with
  | [], _ | _, O => []
  | c :: r, S fuel =>
      if (longestAt ps s =? 0)%nat then c :: redactFuel ps fuel r
      else Redacted ++ redactFuel ps fuel (drop (longestAt ps s) s)
  end.
(** Leftmost, then longest. *)
Definition redact (ps : list (list Z)) (s : list Z) : list Z := redactFuel ps (length s) s.

Section reference.
Context (ps : list (list Z)).

Lemma longestAt_le s : (longestAt ps s ≤ length s)%nat.
Proof.
  unfold longestAt. induction ps as [|p qs IH]; simpl; [lia|]. case_decide as H; [|done].
  apply prefix_length in H. lia.
Qed.

Lemma longestAt_spec s n :
  longestAt ps s = n ↔
  (∀ p, p ∈ ps → p `prefix_of` s → (length p ≤ n)%nat) ∧ (n = 0%nat ∨ ∃ p, p ∈ ps ∧ p `prefix_of` s ∧ length p = n).
Proof.
  assert ((∀ p, p ∈ ps → p `prefix_of` s → (length p ≤ longestAt ps s)%nat) ∧
          (longestAt ps s = 0%nat ∨ ∃ p, p ∈ ps ∧ p `prefix_of` s ∧ length p = longestAt ps s)) as [Hu He].
  { unfold longestAt. induction ps as [|q qs [IHu IHe]]; simpl.
    - split; [by intros p ?%elem_of_nil|by left].
    - set (n0 := foldr _ _ _) in *. split.
      + intros p [->|Hp]%elem_of_cons Hs; [rewrite decide_True by done; lia|]. specialize (IHu p Hp Hs). case_decide; lia.
      + case_decide as Hq; [destruct (Nat.max_spec (length q) n0) as [[_ ->]|[_ ->]]|].
        2:{ right. exists q. split_and!; [apply elem_of_cons; by left|done..]. }
        all: destruct IHe as [->|(p&Hp&Hs&Hl)]; [by left|right; exists p; split_and!; [apply elem_of_cons; by right|done..]]. }
  split; [by intros <-|]. intros [Hu' He']. apply Nat.le_antisymm.
  - destruct He as [->|(p&Hp&Hs&<-)]; [lia|by apply Hu'].
  - destruct He' as [->|(p&Hp&Hs&<-)]; [lia|by apply Hu].
Qed.

(** Patterns of at most [m] bytes are decided by the first [m] bytes. *)
Lemma longestAt_app s x : (∀ p, p ∈ ps → (length p ≤ length s)%nat) → longestAt ps (s ++ x) = longestAt ps s.
Proof.
  intros Hm. assert (∀ p, p ∈ ps → p `prefix_of` s ++ x ↔ p `prefix_of` s) as Hp.
  { intros p Hp. split; [|by apply prefix_app_r]. intros [k Hk]. specialize (Hm p Hp).
    apply (f_equal (take (length p))) in Hk. rewrite take_app_le, take_app_length in Hk by lia.
    rewrite <-Hk. apply prefix_take. }
  apply longestAt_spec. destruct (proj1 (longestAt_spec s _) eq_refl) as [Hu He]. split.
  - intros p Hin Hs. apply Hu; [done|]. by apply Hp.
  - destruct He as [He|(p&Hin&Hs&Hl)]; [by left|right]. exists p. split_and!; [done| |done]. by apply Hp.
Qed.

(** One more byte: only a pattern that is the whole text is new. *)
Lemma longestAt_snoc s b :
  longestAt ps (s ++ [b]) = if decide (s ++ [b] ∈ ps) then S (length s) else longestAt ps s.
Proof.
  destruct (proj1 (longestAt_spec s _) eq_refl) as [Hu He].
  assert (∀ p, p `prefix_of` s ++ [b] ↔ p = s ++ [b] ∨ p `prefix_of` s) as Hp.
  { intros p. split; [|intros [->|?]; [done|by apply prefix_app_r]]. intros [k Hk].
    destruct k as [|x k _] using rev_ind; [left; by rewrite app_nil_r in Hk|right].
    rewrite app_assoc in Hk. apply app_inj_tail in Hk as [-> _]. by eexists. }
  apply longestAt_spec. case_decide as Hin; split.
  - intros p _ [->|Hs]%Hp; [rewrite length_app; simpl; lia|]. apply prefix_length in Hs. lia.
  - right. exists (s ++ [b]). split_and!; [done|done|]. rewrite length_app. simpl. lia.
  - intros p Hps [->|Hs]%Hp; [done|by apply Hu].
  - destruct He as [?|(p&Hps&Hs&Hl)]; [by left|right]. exists p. split_and!; [done| |done]. apply Hp. by right.
Qed.

Lemma redactFuel_enough fuel s : (length s ≤ fuel)%nat → redactFuel ps fuel s = redact ps s.
Proof.
  unfold redact. revert s. induction fuel as [fuel IH] using lt_wf_ind. intros [|c r] Hf.
  { by destruct fuel. }
  destruct fuel as [|fuel]; simpl in Hf; [lia|]. cbn [redactFuel length]. destruct (Nat.eqb_spec (longestAt ps (c :: r)) 0) as [|Hn].
  - f_equal. apply IH; lia.
  - pose proof (length_drop (c :: r) (longestAt ps (c :: r))) as Hd. simpl in Hd.
    f_equal. etrans; [apply IH; lia|symmetry; apply IH; lia].
Qed.

Lemma redact_nil : redact ps [] = [].
Proof. done. Qed.
Lemma redact_plain c r : longestAt ps (c :: r) = 0%nat → redact ps (c :: r) = c :: redact ps r.
Proof. intros H. unfold redact at 1. cbn [redactFuel length]. by rewrite H. Qed.
Lemma redact_match s : longestAt ps s ≠ 0%nat → redact ps s = Redacted ++ redact ps (drop (longestAt ps s) s).
Proof.
  intros H. destruct s as [|c r].
  { pose proof (longestAt_le []). simpl in *. lia. }
  unfold redact at 1. cbn [redactFuel length]. destruct (Nat.eqb_spec (longestAt ps (c :: r)) 0); [done|].
  f_equal. apply redactFuel_enough. rewrite length_drop. simpl. lia.
Qed.
End reference.

(** ** Passing bytes on *)

Lemma writeAllLoop_spec fuel d data ok d' :
  (length data ≤ fuel)%nat → writeAllLoop fuel d data = (ok, d') →
  ∃ k, received d' = received d ++ take k data ∧ (ok = true → take k data = data).
Proof.
  revert d data. induction fuel as [|fuel IH]; intros d [|c r] Hf; cbn [writeAllLoop].
  1,3: intros [= <- <-]; exists 0%nat; simpl; by rewrite app_nil_r.
  { simpl in Hf. lia. }
  set (data := c :: r) in *. unfold dstWrite. destruct (responses d) as [|[n err] rest].
  - destruct (_ || _) eqn:E1; [apply orb_true_iff in E1 as [E1|E1]; bool_hyps; lia|].
    destruct (_ =? 0) eqn:E2; [bool_hyps; simpl in E2; lia|]. rewrite Nat2Z.id, drop_all.
    destruct fuel; cbn [writeAllLoop]; intros [= <- <-]; exists (length data); rewrite take_ge by lia; done.
  - destruct (_ || _) eqn:E1; [intros [= <- <-]; by exists (Z.to_nat n)|]. bool_hyps.
    destruct err; [intros [= <- <-]; by exists (Z.to_nat n)|].
    destruct (n =? 0) eqn:E2; [intros [= <- <-]; by exists (Z.to_nat n)|]. bool_hyps. intros Hw.
    apply IH in Hw as (k&Hk&Hok); [|rewrite length_drop; simpl in *; lia]. exists (Z.to_nat n + k)%nat. simpl in Hk.
    rewrite Hk, <-app_assoc, take_take_drop. split; [done|]. intros E. specialize (Hok E).
    rewrite <-take_take_drop, Hok. apply take_drop.
Qed.

Lemma writeAll_spec d data ok d' :
  writeAll d data = (ok, d') → ∃ k, received d' = received d ++ take k data ∧ (ok = true → take k data = data).
Proof. by apply writeAllLoop_spec. Qed.

(** [p] occurs in [t]. *)
Definition occurs (p t : list Z) : Prop := ∃ a b, t = a ++ p ++ b.
Definition clean (ps : list (list Z)) (t : list Z) : Prop := ∀ p, p ∈ ps → p ≠ [] → ¬ occurs p t.

(** A caller's writes, in order, whatever each of them returns. *)
Definition writes (mt : redactionMatcher) (inputs : list (list Z)) (w : RedactingWriter) : RedactingWriter :=
  foldl (λ w input, (Write mt input w).2) w inputs.

Section redaction.
Context (ps : list (list Z)) (mt : redactionMatcher) (Hmt : newMatcher ps = Some mt).
#[local] Notation M := (maxPattern mt).

Lemma maxPattern_le p : p ∈ ps → (length p ≤ M)%nat.
Proof.
  intros Hp. unfold newMatcher in Hmt. destruct (insertPatterns _ _); [|done]. injection Hmt as <-. simpl.
  set (f := λ n (q : list Z), Nat.max n (length q)).
  assert (∀ n q, (n ≤ f n q ∧ length q ≤ f n q)%nat) as Hf by (intros; unfold f; lia).
  assert (∀ l n, (n ≤ foldl f n l)%nat) as Hmono.
  { intros qs. induction qs as [|x qs IHl]; intros k; simpl; [done|]. etrans; [apply (Hf k x)|apply IHl]. }
  generalize 0%nat. induction ps as [|q qs IH]; [by apply elem_of_nil in Hp|]. intros n. simpl.
  apply elem_of_cons in Hp as [->|Hp]; [|by apply IH]. etrans; [apply (Hf n q)|apply Hmono].
Qed.

Context (HM : maxPattern mt ≠ 0%nat).

Lemma output_suffix t :
  output (nodes mt !!! readText mt t) = 0%nat ↔ ∀ p, p ∈ ps → p ≠ [] → ¬ p `suffix_of` t.
Proof.
  destruct (readText_outs ps mt t Hmt) as [_ ->]. split.
  - intros H p Hp Hne Hs. assert (length p ∈ outs ps t) as Hin.
    { apply elem_of_outs. split; [by destruct p|]. by exists p. }
    destruct (outs ps t) as [|n l] eqn:E; [by apply elem_of_nil in Hin|]. simpl in H. subst n.
    assert (0%nat ∈ outs ps t) as H0 by (rewrite E; apply elem_of_cons; by left). by apply elem_of_outs in H0 as [? _].
  - intros H. destruct (outs ps t) as [|n l] eqn:E; [done|]. exfalso.
    assert (n ∈ outs ps t) as Hn by (rewrite E; apply elem_of_cons; by left).
    apply elem_of_outs in Hn as (Hn0&p&Hp&Hs&Hl). apply (H p); [done|intros ->; simpl in Hl; lia|done].
Qed.

Lemma clean_nil : clean ps [].
Proof. intros p _ Hne (a&b&E). symmetry in E. apply app_nil in E as [_ E]. apply app_nil in E as [-> _]. done. Qed.

Lemma clean_snoc t b : clean ps t → output (nodes mt !!! readText mt (t ++ [b])) = 0%nat → clean ps (t ++ [b]).
Proof.
  intros Hc Ho p Hp Hne (x&y&E). destruct y as [|c y _] using rev_ind.
  - apply (proj1 (output_suffix _) Ho p Hp Hne). exists x. by rewrite app_nil_r in E.
  - rewrite !app_assoc in E. apply app_inj_tail in E as [E _]. apply (Hc p Hp Hne). exists x, y. by rewrite <-app_assoc in E.
Qed.

Lemma clean_prefix t u : t `prefix_of` u → clean ps u → clean ps t.
Proof. intros [k ->] Hc p Hp Hne (x&y&->). apply (Hc p Hp Hne). exists x, (y ++ k). by rewrite !app_assoc. Qed.

Lemma readText_snoc t b : readText mt (t ++ [b]) = advance mt (readText mt t) b.
Proof. unfold readText. by rewrite foldl_snoc. Qed.

Lemma scanSafe_spec input E kept ok st kept' :
  clean ps E → scanSafe mt (readText mt E) kept input = (ok, st, kept') →
  if ok then kept' = kept ++ input ∧ st = readText mt (E ++ input) ∧ clean ps (E ++ input) else True.
Proof.
  revert E kept. induction input as [|b r IH]; intros E kept Hc; cbn [scanSafe].
  { intros [= <- <- <-]. by rewrite !app_nil_r. }
  rewrite <-readText_snoc. destruct (Nat.ltb_spec 0 (output (nodes mt !!! readText mt (E ++ [b])))) as [|Hz].
  { by intros [= <- _ _]. }
  intros H. apply IH in H; [|apply clean_snoc; [done|lia]]. by rewrite <-!app_assoc in H.
Qed.

(** The output side while the writer runs: everything emitted so far is [E],
    what is not yet passed on is held back. *)
Record safe (w : RedactingWriter) (E : list Z) : Prop := {
  sf_state : safetyState w = readText mt E;
  sf_clean : clean ps E;
  sf_split : received (dst w) ++ safePending w = E;
  sf_hold : received (dst w) = [] ∨ (M - 1 ≤ length (safePending w))%nat;
}.

(** What remains true for ever once it has failed. *)
Definition contained (w : RedactingWriter) (E : list Z) : Prop :=
  clean ps E ∧ received (dst w) `prefix_of` E ∧
  (received (dst w) = [] ∨ (length (received (dst w)) + (M - 1) ≤ length E)%nat).

Lemma safe_contained w E : safe w E → contained w E.
Proof.
  intros [_ Hc <- Hh]. split_and!; [done|by eexists|]. destruct Hh as [?|Hh]; [by left|right].
  rewrite length_app. lia.
Qed.

Lemma emitSafe_spec w E input ok w' :
  safe w E → emitSafe mt input false w = (ok, w') →
  (∃ d s p, w' = set_safe d s p w) ∧
  (if ok then safe w' (E ++ input) else contained w' E ∨ contained w' (E ++ input)).
Proof.
  intros Hs. pose proof (safe_contained w E Hs) as Hcon. destruct Hs as [Hst Hc Hsp Hh]. unfold emitSafe.
  destruct (Nat.eqb_spec M 0) as [|_]; [done|]. rewrite Hst.
  destruct (scanSafe mt (readText mt E) (safePending w) input) as [[ok1 st] kept] eqn:Esc.
  pose proof (scanSafe_spec _ _ _ _ _ _ Hc Esc) as Hscan. destruct ok1; cbv beta iota.
  2:{ intros [= <- <-]. split; [by do 3 eexists|]. left. exact Hcon. }
  destruct Hscan as (->&->&Hc'). set (flush := _ - _). destruct (flush <=? 0) eqn:Ef; bool_hyps.
  - intros [= <- <-]. split; [by do 3 eexists|]. split; simpl; [done|done|by rewrite app_assoc, Hsp|].
    destruct Hh as [?|?]; [by left|right]. rewrite length_app. lia.
  - destruct (writeAll _ _) as [ok2 d] eqn:Ew. apply writeAll_spec in Ew as (k&Hk&Hok).
    assert (flush ≤ len (safePending w ++ input)) as Hfl by (unfold flush; lia).
    destruct ok2; intros [= <- <-]; (split; [by do 3 eexists|]).
    + specialize (Hok eq_refl). rewrite Hok in Hk. split; simpl; [done|done| |].
      * rewrite Hk, <-app_assoc, take_drop, app_assoc. by rewrite Hsp.
      * right. rewrite length_drop. unfold flush. lia.
    + right. split_and!; simpl; [done| |].
      * rewrite Hk, <-Hsp, <-app_assoc. apply prefix_app. etrans; [apply prefix_take|apply prefix_take].
      * right. rewrite Hk, <-Hsp, !length_app, !length_take, !length_app. rewrite length_app in Hfl.
        unfold flush in *. rewrite length_app in *. lia.
Qed.

Lemma emitSafe_final w E ok w' :
  safe w E → emitSafe mt [] true w = (ok, w') →
  (∃ d s p, w' = set_safe d s p w) ∧ clean ps E ∧ received (dst w') `prefix_of` E ∧ (ok = true → received (dst w') = E).
Proof.
  intros [Hst Hc Hsp Hh]. unfold emitSafe. destruct (Nat.eqb_spec M 0) as [|_]; [done|]. simpl.
  destruct (_ <=? 0) eqn:Ef; bool_hyps.
  - intros [= <- <-]. split_and!; [by do 3 eexists|done| |]; simpl.
    + rewrite <-Hsp. by eexists.
    + intros _. destruct (safePending w); [by rewrite app_nil_r in Hsp|simpl in Ef; lia].
  - rewrite Nat2Z.id, take_ge by lia. destruct (writeAll _ _) as [ok2 d] eqn:Ew. apply writeAll_spec in Ew as (k&Hk&Hok).
    destruct ok2; intros [= <- <-]; (split_and!; [by do 3 eexists|done|..]); simpl; try done.
    + rewrite Hk, Hok by done. by rewrite Hsp.
    + intros _. rewrite Hk, Hok by done. done.
    + rewrite Hk, <-Hsp. apply prefix_app, prefix_take.
Qed.

(** ** The ring of candidates *)

(** Everything but the ring, the work counter and the failure flag. *)
Definition sameCore (w w' : RedactingWriter) : Prop :=
  (dst w', sourceState w', sourceOffset w', sourceTransitions w', pending w', pendingBase w', safetyState w', safePending w')
  = (dst w, sourceState w, sourceOffset w, sourceTransitions w, pending w, pendingBase w, safetyState w, safePending w).
#[local] Instance sameCore_preorder : PreOrder sameCore.
Proof. split; unfold sameCore; [by intros w|]. intros a b c H1 H2. by rewrite H2. Qed.

Lemma consume_core w ok w' :
  consumeMatchWork w = (ok, w') → sameCore w w' ∧ failed w' = failed w ∧
  candidateStarts w' = candidateStarts w ∧ candidateLengths w' = candidateLengths w.
Proof. unfold consumeMatchWork. destruct (_ =? _); intros [= <- <-]; done. Qed.

Definition ringLen (w : RedactingWriter) (s : Z) : Z :=
  if candidateStarts w !!! ringIndex mt s =? s then candidateLengths w !!! ringIndex mt s else 0.

(** For the starts [lo <= s < hi] the ring holds the lengths [f s], and
    nothing else. *)
Record ring (w : RedactingWriter) (lo hi : Z) (f : Z → Z) : Prop := {
  rg_starts : length (candidateStarts w) = M;
  rg_lengths : length (candidateLengths w) = M;
  rg_len : ∀ s, lo ≤ s < hi → ringLen w s = f s;
  rg_live : ∀ i, (i < M)%nat → candidateLengths w !!! i ≠ 0 →
            lo ≤ candidateStarts w !!! i < hi ∧ ringIndex mt (candidateStarts w !!! i) = i;
}.

Lemma ringIndex_lt s : (ringIndex mt s < M)%nat.
Proof. unfold ringIndex. pose proof (Z.mod_pos_bound s (Z.of_nat M)). lia. Qed.

Lemma ringIndex_inj lo a b : lo ≤ a < lo + Z.of_nat M → lo ≤ b < lo + Z.of_nat M → ringIndex mt a = ringIndex mt b → a = b.
Proof.
  intros Ha Hb E. unfold ringIndex in E. pose proof (Z.mod_pos_bound a (Z.of_nat M)). pose proof (Z.mod_pos_bound b (Z.of_nat M)).
  assert (a mod Z.of_nat M = b mod Z.of_nat M) as E' by lia.
  pose proof (Z.div_mod a (Z.of_nat M)). pose proof (Z.div_mod b (Z.of_nat M)).
  assert (a / Z.of_nat M = b / Z.of_nat M) by nia. nia.
Qed.

Lemma ring_same w w' lo hi f g :
  ring w lo hi f → candidateStarts w' = candidateStarts w → candidateLengths w' = candidateLengths w →
  (∀ s, lo ≤ s < hi → g s = f s) → ring w' lo hi g.
Proof.
  intros [H1 H2 H3 H4] E1 E2 Hg. split; rewrite ?E1, ?E2; try done. intros s Hs. rewrite Hg by done. rewrite <-H3 by done.
  unfold ringLen. by rewrite E1, E2.
Qed.

Lemma insert_total (l : list Z) i j x :
  (i < length l)%nat → <[i := x]> l !!! j = if decide (j = i) then x else l !!! j.
Proof.
  intros Hi. rewrite !list_lookup_total_alt. destruct (decide (j = i)) as [->|Hne].
  - by rewrite list_lookup_insert_eq.
  - by rewrite list_lookup_insert_ne.
Qed.

Lemma ring_put w lo hi f s n :
  ring w lo hi f → hi ≤ lo + Z.of_nat M → lo ≤ s < hi →
  ring (set_ring (<[ringIndex mt s := s]> (candidateStarts w)) (<[ringIndex mt s := n]> (candidateLengths w)) w)
    lo hi (λ x, if x =? s then n else f x).
Proof.
  intros [H1 H2 H3 H4] Hhi Hs. pose proof (ringIndex_lt s) as Hi. split; simpl; rewrite ?length_insert; try done.
  - intros x Hx. unfold ringLen. simpl. rewrite !insert_total by lia. destruct (Z.eqb_spec x s) as [->|Hne].
    + rewrite !decide_True by done. by rewrite Z.eqb_refl.
    + rewrite !decide_False by (intros E; by apply (ringIndex_inj lo) in E; [|lia..]). by apply H3.
  - intros i Hil. rewrite !insert_total by lia. destruct (decide (i = _)) as [->|]; [|by apply H4]. done.
Qed.

(** Clearing the first start of the window. *)
Lemma ring_pop w lo hi f :
  ring w lo hi f → hi ≤ lo + Z.of_nat M → lo < hi →
  ring (set_ring (<[ringIndex mt lo := 0]> (candidateStarts w)) (<[ringIndex mt lo := 0]> (candidateLengths w)) w)
    (lo + 1) hi f.
Proof.
  intros [H1 H2 H3 H4] Hhi Hlt. pose proof (ringIndex_lt lo) as Hi. split; simpl; rewrite ?length_insert; try done.
  - intros x Hx. unfold ringLen. simpl. rewrite !insert_total by lia.
    rewrite !decide_False by (intros E; apply (ringIndex_inj lo) in E; lia). apply H3. lia.
  - intros i Hil. rewrite !insert_total by lia. destruct (decide (i = _)) as [->|Hne]; [done|]. intros Hnz.
    destruct (H4 i Hil Hnz) as [Hb Hx]. split; [|done]. split; [|lia].
    destruct (decide (candidateStarts w !!! i = lo)) as [E|]; [|lia]. rewrite E in Hx. congruence.
Qed.

(** ** Recording matches *)

Lemma recordMatch_core s n w : sameCore w (recordMatch mt s n w) ∧ (failed w = true → failed (recordMatch mt s n w) = true).
Proof.
  unfold recordMatch. destruct (_ <? _); [done|]. destruct (_ <=? _); [done|].
  destruct (consumeMatchWork w) as [ok w1] eqn:E. apply consume_core in E as (Hc&Hf&_&_).
  destruct ok; simpl; [destruct (_ || _)|]; simpl; rewrite ?Hf; split; try done.
Qed.

Lemma recordMatch_ring s n w hi f :
  ring w (pendingBase w) hi f → hi ≤ pendingBase w + Z.of_nat M → s < hi → (pendingBase w ≤ s → f s ≤ n) →
  failed (recordMatch mt s n w) = false →
  ring (recordMatch mt s n w) (pendingBase w) hi (λ x, if x =? s then n else f x).
Proof.
  intros Hr Hhi Hs Hn. unfold recordMatch. destruct (_ <? _) eqn:E1; bool_hyps.
  { intros _. eapply ring_same; [done..|]. intros x Hx. destruct (Z.eqb_spec x s); [lia|done]. }
  destruct (_ <=? _) eqn:E2; [done|]. bool_hyps. specialize (Hn E1).
  destruct (consumeMatchWork w) as [ok w1] eqn:E. apply consume_core in E as (Hc&Hf&Hst&Hln).
  destruct ok; simpl; [|done]. assert (pendingBase w1 = pendingBase w) as Hb by by injection Hc.
  assert (ring w1 (pendingBase w) hi f) as Hr1 by (eapply ring_same; done).
  destruct (_ || _) eqn:E3; intros _.
  - apply ring_put; [done|lia|lia].
  - bool_hyps. eapply ring_same; [done..|]. intros x Hx. destruct (Z.eqb_spec x s) as [->|]; [|done].
    rewrite <-(rg_len _ _ _ _ Hr1 s) by lia. unfold ringLen. rewrite Z.eqb_refl in * || idtac.
    match goal with H : candidateStarts w1 !!! _ = s |- _ => rewrite H, Z.eqb_refl end.
    rewrite <-(rg_len _ _ _ _ Hr1 s) in Hn by lia. unfold ringLen in Hn.
    match goal with H : candidateStarts w1 !!! _ = s |- _ => rewrite H, Z.eqb_refl in Hn end. lia.
Qed.

Lemma recordLoop_core fuel st w : sameCore w (recordLoop mt fuel st w) ∧ (failed w = true → failed (recordLoop mt fuel st w) = true).
Proof.
  revert st w. induction fuel as [|fuel IH]; intros st w; cbn [recordLoop]; [done|].
  destruct (st =? 0)%nat; [done|]. destruct (consumeMatchWork w) as [ok w1] eqn:E. apply consume_core in E as (Hc&Hf&_&_).
  destruct ok; simpl; [|done]. set (w2 := if (0 <? _)%nat then _ else _).
  assert (sameCore w1 w2 ∧ (failed w1 = true → failed w2 = true)) as [Hc2 Hf2].
  { unfold w2. destruct (0 <? _)%nat; [apply recordMatch_core|done]. }
  destruct (IH (outputLink (nodes mt !!! st)) w2) as [Hc3 Hf3]. split; [by etrans; [|etrans]|]. rewrite Hf in Hf2. auto.
Qed.

Lemma recordLoop_ring fuel st w hi f :
  ring w (pendingBase w) hi f → sourceOffset w = hi → hi ≤ pendingBase w + Z.of_nat M →
  (∀ x, pendingBase w ≤ x < hi → f x ≤ hi - x) → failed (recordLoop mt fuel st w) = false →
  ring (recordLoop mt fuel st w) (pendingBase w) hi
    (λ x, if bool_decide (Z.to_nat (hi - x) ∈ outputChain fuel (nodes mt) st) then hi - x else f x).
Proof.
  revert st w f. induction fuel as [|fuel IH]; intros st w f Hr Ho Hhi Hf; cbn [recordLoop outputChain].
  { intros _. eapply ring_same; [done..|]. intros x Hx. rewrite bool_decide_false by apply not_elem_of_nil. done. }
  destruct (st =? 0)%nat.
  { intros _. eapply ring_same; [done..|]. intros x Hx. rewrite bool_decide_false by apply not_elem_of_nil. done. }
  destruct (consumeMatchWork w) as [ok w1] eqn:E. apply consume_core in E as (Hc&Hfl&Hst&Hln).
  destruct ok; simpl; [|done]. set (n := terminal (nodes mt !!! st)).
  set (w2 := if (0 <? n)%nat then _ else _). intros Hok.
  assert (pendingBase w1 = pendingBase w ∧ sourceOffset w1 = sourceOffset w) as [Hb1 Ho1] by by injection Hc.
  assert (ring w1 (pendingBase w1) hi f) as Hr1 by (rewrite Hb1; by eapply ring_same).
  assert (failed w2 = false) as Hf2.
  { destruct (failed w2) eqn:E2; [|done]. by rewrite (proj2 (recordLoop_core _ _ _) E2) in Hok. }
  assert (sameCore w1 w2 ∧ ring w2 (pendingBase w1) hi (λ x, if bool_decide (0 < n)%nat && (x =? hi - Z.of_nat n) then Z.of_nat n else f x)) as [Hc2 Hr2].
  { unfold w2 in *. destruct (Nat.ltb_spec 0 n) as [Hn|Hn].
    - split; [apply recordMatch_core|]. rewrite bool_decide_true by done. simpl. rewrite Ho1, Ho in *.
      apply recordMatch_ring; [done|lia|lia| |done]. intros Hx. rewrite Hb1 in Hx. specialize (Hf (hi - Z.of_nat n)). lia.
    - split; [done|]. rewrite bool_decide_false by lia. done. }
  assert (pendingBase w2 = pendingBase w ∧ sourceOffset w2 = hi) as [Hb2 Ho2] by (injection Hc2; intros; split; congruence).
  rewrite <-Hb2 in *. rewrite Hb1 in Hr2. specialize (IH (outputLink (nodes mt !!! st)) w2 _ Hr2 Ho2 Hhi).
  eapply ring_same; [apply IH; [|done]|done|done|].
  - intros x Hx. specialize (Hf x Hx). simpl. destruct (bool_decide _ && _) eqn:Ex; bool_hyps; lia.
  - intros x Hx. simpl. destruct (Nat.ltb_spec 0 n) as [Hn|Hn].
    + rewrite (bool_decide_true (0 < n)%nat) by done. simpl. rewrite (bool_decide_ext (_ ∈ n :: _)
        (Z.to_nat (hi - x) = n ∨ Z.to_nat (hi - x) ∈ outputChain fuel (nodes mt) (outputLink (nodes mt !!! st)))) by apply elem_of_cons.
      destruct (Z.eqb_spec x (hi - Z.of_nat n)) as [->|Hne].
      * rewrite (bool_decide_true (_ ∨ _)) by (left; lia). destruct (bool_decide (_ ∈ outputChain _ _ _)); lia.
      * rewrite (bool_decide_ext (_ ∨ _) (Z.to_nat (hi - x) ∈ outputChain fuel (nodes mt) (outputLink (nodes mt !!! st)))); [done|].
        split; [intros [?|?]; [lia|done]|by right].
    + by rewrite (bool_decide_false (0 < n)%nat) by lia.
Qed.

(** ** The source side *)

Definition matchAt (t : list Z) (s : Z) : Z := Z.of_nat (longestAt ps (drop (Z.to_nat s) t)).

(** The writer has read [t] and still holds it from [pendingBase] on. *)
Record source (w : RedactingWriter) (t : list Z) : Prop := {
  so_state : sourceState w = readText mt t;
  so_offset : sourceOffset w = len t;
  so_transitions : sourceTransitions w = len t;
  so_base : 0 ≤ pendingBase w ≤ len t;
  so_pending : pending w = drop (Z.to_nat (pendingBase w)) t;
  so_window : len t ≤ pendingBase w + Z.of_nat M;
  so_ring : ring w (pendingBase w) (len t) (matchAt t);
}.

Lemma ring_extend w lo hi f :
  ring w lo hi f → ring w lo (hi + 1) (λ s, if s =? hi then 0 else f s).
Proof.
  intros [H1 H2 H3 H4]. split; [done|done| |].
  - intros s Hs. destruct (Z.eqb_spec s hi) as [->|]; [|apply H3; lia]. unfold ringLen.
    destruct (Z.eqb_spec (candidateStarts w !!! ringIndex mt hi) hi) as [E|]; [|done].
    destruct (decide (candidateLengths w !!! ringIndex mt hi = 0)) as [|Hnz]; [done|].
    destruct (H4 _ (ringIndex_lt hi) Hnz). lia.
  - intros i Hi Hnz. destruct (H4 i Hi Hnz). split; [lia|done].
Qed.

Lemma matchAt_snoc t b s :
  0 ≤ s ≤ len t →
  matchAt (t ++ [b]) s = if bool_decide (Z.to_nat (len t + 1 - s) ∈ outs ps (t ++ [b])) then len t + 1 - s
                         else if s =? len t then 0 else matchAt t s.
Proof.
  intros Hs. unfold matchAt. rewrite drop_app_le, longestAt_snoc by lia.
  assert (Z.to_nat (len t + 1 - s) ∈ outs ps (t ++ [b]) ↔ drop (Z.to_nat s) t ++ [b] ∈ ps) as E.
  { rewrite elem_of_outs. split.
    - intros (_&p&Hp&[k Hk]&Hl). assert (p = drop (Z.to_nat s) (t ++ [b])) as ->.
      { rewrite Hk. apply (f_equal length) in Hk. rewrite !length_app in Hk. simpl in Hk. rewrite drop_app_length'; [done|lia]. }
      by rewrite drop_app_le in Hp by lia.
    - intros Hp. split; [lia|]. exists (drop (Z.to_nat s) t ++ [b]). split_and!; [done| |].
      + rewrite <-drop_app_le by lia. apply suffix_drop.
      + rewrite length_app, length_drop. simpl. lia. }
  rewrite (bool_decide_ext _ _ E), bool_decide_decide. destruct (decide (_ ∈ ps)).
  - rewrite length_drop. lia.
  - destruct (Z.eqb_spec s (len t)) as [->|]; [|done]. rewrite Nat2Z.id, drop_all.
    pose proof (longestAt_le ps []). simpl in *. lia.
Qed.

Definition readByte (b : Z) (w : RedactingWriter) : RedactingWriter :=
  set_source (advance mt (sourceState w) b) (set_pending (pending w ++ [b]) (pendingBase w) w).

Lemma record_source w t b :
  source w t → len t < pendingBase w + Z.of_nat M → failed (recordSourceMatches mt (readByte b w)) = false →
  source (recordSourceMatches mt (readByte b w)) (t ++ [b]).
Proof.
  intros [H1 H2 H3 H4 H5 H6 H7] Hlt Hok. unfold recordSourceMatches in *. set (w1 := readByte b w) in *.
  pose proof (proj1 (recordLoop_core (length (nodes mt)) (sourceState w1) w1)) as Hc.
  assert (len (t ++ [b]) = len t + 1) as Hl by (rewrite length_app; simpl; lia).
  pose proof (recordLoop_ring (length (nodes mt)) (sourceState w1) w1 (len t + 1) (λ s, if s =? len t then 0 else matchAt t s)) as Hr.
  assert (sourceState w1 = readText mt (t ++ [b])) as Hst by (simpl; rewrite readText_snoc, H1; done).
  set (w2 := recordLoop _ _ _ _) in *. injection Hc as E1 E2 E3 E4 E5 E6 E7 E8. split.
  - by rewrite E2.
  - rewrite E3, Hl. simpl. lia.
  - rewrite E4, Hl. simpl. lia.
  - rewrite E6, Hl. simpl. lia.
  - rewrite E5, E6. simpl. rewrite H5, drop_app_le by lia. done.
  - rewrite E6, Hl. simpl. lia.
  - rewrite E6, Hl. eapply ring_same; [apply Hr; try done|done|done|].
    + apply ring_extend. simpl. eapply ring_same; done.
    + simpl. lia.
    + simpl. lia.
    + simpl. intros x Hx. destruct (Z.eqb_spec x (len t)); [lia|]. unfold matchAt.
      pose proof (longestAt_le ps (drop (Z.to_nat x) t)) as Hle. rewrite length_drop in Hle. lia.
    + intros s Hs. simpl in Hs. rewrite matchAt_snoc by lia. rewrite Hst, (proj1 (readText_outs ps mt (t ++ [b]) Hmt)). done.
Qed.

Lemma clearInterior_spec fuel offset length w hi f ok w' :
  ring w (pendingBase w + offset) hi f → hi ≤ pendingBase w + offset + Z.of_nat M → pendingBase w + length ≤ hi →
  offset ≤ length → length - offset ≤ Z.of_nat fuel → clearInterior mt fuel offset length w = (ok, w') →
  sameCore w w' ∧ failed w' = failed w ∧ (ok = true → ring w' (pendingBase w + length) hi f).
Proof.
  revert offset w. induction fuel as [|fuel IH]; intros offset w Hr Hhi Hlen Ho Hf; cbn [clearInterior].
  { intros [= <- <-]. replace length with offset by lia. done. }
  destruct (offset <? length) eqn:El; bool_hyps.
  2:{ intros [= <- <-]. replace length with offset by lia. done. }
  destruct (consumeMatchWork w) as [ok1 w1] eqn:E. apply consume_core in E as (Hc&Hfl&Hst&Hln).
  assert (pendingBase w1 = pendingBase w) as Hb by by injection Hc.
  destruct ok1; simpl; [|intros [= <- <-]; done]. set (w2 := set_ring _ _ w1). intros H.
  assert (sameCore w w2) as Hc2 by done. assert (pendingBase w2 = pendingBase w) as Hb2 by done.
  apply (IH (offset + 1) w2) in H as (Hc'&Hf'&Hr').
  - split_and!; [by etrans|by rewrite Hf'|]. intros E. rewrite Hb2 in Hr'. by apply Hr'.
  - rewrite Hb2, Z.add_assoc. unfold w2. rewrite Hb. apply ring_pop; [by eapply ring_same|lia|lia].
  - rewrite Hb2. lia.
  - rewrite Hb2. lia.
  - lia.
  - lia.
Qed.

(** The piece of output for the first held byte, and the source bytes it
    stands for. *)
Definition token (s : list Z) : list Z := if (longestAt ps s =? 0)%nat then take 1 s else Redacted.
Definition tokenLen (s : list Z) : nat := Nat.max 1 (longestAt ps s).

Lemma redact_token s : s ≠ [] → redact ps s = token s ++ redact ps (drop (tokenLen s) s).
Proof.
  intros Hs. unfold token, tokenLen. destruct (Nat.eqb_spec (longestAt ps s) 0) as [E|Hne].
  - destruct s as [|c r]; [done|]. rewrite redact_plain by done. rewrite E. done.
  - rewrite redact_match by done. by replace (Nat.max 1 (longestAt ps s)) with (longestAt ps s) by lia.
Qed.

Lemma resolveOne_spec w t e ok w' :
  source w t → safe w e → pending w ≠ [] → resolveOne mt w = (ok, w') →
  failed w' = failed w ∧
  if ok then source w' t ∧ safe w' (e ++ token (pending w)) ∧ pending w' = drop (tokenLen (pending w)) (pending w)
  else contained w' e ∨ contained w' (e ++ token (pending w)).
Proof.
  intros Hso Hsa Hne. pose proof Hso as [H1 H2 H3 H4 H5 H6 H7]. unfold resolveOne.
  destruct (consumeMatchWork w) as [ok1 w1] eqn:E. apply consume_core in E as (Hc&Hfl&Hst&Hln).
  injection Hc as E1 E2 E3 E4 E5 E6 E7 E8.
  assert (∀ v, dst v = dst w → safetyState v = safetyState w → safePending v = safePending w → safe v e) as Hsafe.
  { intros v Ed Es Ep. destruct Hsa as [Sa Sb Sc Sd]. split; rewrite ?Ed, ?Es, ?Ep; done. }
  destruct ok1; simpl; [|intros [= <- <-]; split; [done|left; apply safe_contained, Hsafe; done]].
  assert (0 < len (pending w)) as Hpos by (destruct (pending w); [done|simpl; lia]).
  assert (len (pending w) = len t - pendingBase w) as Hlp by (rewrite H5, length_drop; lia).
  assert ((if candidateStarts w1 !!! ringIndex mt (pendingBase w1) =? pendingBase w1
           then candidateLengths w1 !!! ringIndex mt (pendingBase w1) else 0) = Z.of_nat (longestAt ps (pending w))) as ->.
  { rewrite E6, Hst, Hln. pose proof (rg_len _ _ _ _ H7 (pendingBase w)) as Hr. unfold ringLen in Hr. rewrite Hr by lia.
    unfold matchAt. by rewrite <-H5. }
  set (n := longestAt ps (pending w)) in *. set (w2 := set_ring _ _ w1).
  assert (ring w2 (pendingBase w + 1) (len t) (matchAt t)) as Hr2.
  { unfold w2. rewrite E6. apply ring_pop; [by eapply ring_same|lia|lia]. }
  assert (pending w2 = pending w) as Ep2 by done. assert (safe w2 e) as Hsafe2 by by apply Hsafe.
  pose proof (longestAt_le ps (pending w)) as Hnle. fold n in Hnle.
  set (emitted := if Z.of_nat n =? 0 then _ else _).
  assert (emitted = emitSafe mt (token (pending w)) false w2) as ->.
  { unfold emitted, token. fold n. rewrite E5. destruct (Z.eqb_spec (Z.of_nat n) 0) as [E0|Hn0].
    - replace (n =? 0)%nat with true by (symmetry; apply Nat.eqb_eq; lia). done.
    - replace (n =? 0)%nat with false by (symmetry; apply Nat.eqb_neq; lia).
      destruct (len (pending w) <? Z.of_nat n) eqn:El; [|done]. bool_hyps. lia. }
  destruct (emitSafe mt (token (pending w)) false w2) as [ok3 w3] eqn:Ee.
  apply (emitSafe_spec _ e) in Ee as [(d&s&p&->) Hres]; [|done]. destruct ok3; simpl; [|intros [= <- <-]; done].
  set (L := if Z.of_nat n =? 0 then 1 else Z.of_nat n).
  assert (L = Z.of_nat (tokenLen (pending w))) as HL by (unfold L, tokenLen; fold n; destruct (Z.eqb_spec (Z.of_nat n) 0); lia).
  assert (1 ≤ L ≤ len (pending w)) as HLb by (unfold L; destruct (Z.eqb_spec (Z.of_nat n) 0); lia).
  set (w3 := set_safe d s p w2) in *. destruct (clearInterior mt (Z.to_nat L) 1 L w3) as [ok4 w4] eqn:Ec.
  apply (clearInterior_spec _ _ _ _ (len t) (matchAt t)) in Ec as (Hc4&Hf4&Hr4).
  2:{ unfold w3. simpl. rewrite E6. eapply ring_same; done. }
  2-5: unfold w3; simpl; rewrite ?E6; lia.
  pose proof Hc4 as Hc4'. injection Hc4' as F1 F2 F3 F4 F5 F6 F7 F8.
  assert (∀ v, dst v = dst w4 → safetyState v = safetyState w4 → safePending v = safePending w4 → safe v (e ++ token (pending w))) as Hsafe4.
  { intros v Ed Es Ep. destruct Hres as [Sa Sb Sc Sd]. split; rewrite ?Ed, ?Es, ?Ep, ?F1, ?F7, ?F8; done. }
  assert (failed w4 = failed w) as Hf4' by (rewrite Hf4; exact Hfl).
  destruct ok4; simpl; intros [= <- <-]; (split; [done|]).
  - simpl in *. split_and!; [split; simpl|by apply Hsafe4|by rewrite F5, E5, HL, Nat2Z.id].
    + by rewrite F2, E2.
    + by rewrite F3, E3.
    + by rewrite F4, E4.
    + rewrite F6, E6. lia.
    + rewrite F5, F6, E5, E6, H5, drop_drop. f_equal. lia.
    + rewrite F6, E6. lia.
    + rewrite F6. eapply ring_same; [by apply Hr4|done|done|done].
  - right. by apply safe_contained, Hsafe4.
Qed.

Lemma redact_token_app s x :
  s ≠ [] → longestAt ps (s ++ x) = longestAt ps s → redact ps (s ++ x) = token s ++ redact ps (drop (tokenLen s) s ++ x).
Proof.
  intros Hs E. pose proof (longestAt_le ps s). assert (0 < length s)%nat by (destruct s; [done|simpl; lia]).
  rewrite redact_token by (by destruct s). unfold token, tokenLen. rewrite E. f_equal.
  - destruct s; [done|]. by destruct (_ =? 0)%nat.
  - by rewrite drop_app_le by lia.
Qed.

(** Whatever follows, the reference output of the text is what was emitted,
    then that of the bytes still held. *)
Definition ahead (final : bool) (t e : list Z) (w : RedactingWriter) : Prop :=
  ∀ x, (final = true → x = []) → redact ps (t ++ x) = e ++ redact ps (pending w ++ x).

(** What a failed writer has passed on. *)
Definition stopped (final : bool) (t : list Z) (w : RedactingWriter) : Prop :=
  ∃ e, contained w e ∧ ∀ x, (final = true → x = []) → e `prefix_of` redact ps (t ++ x).

(** [resolveSource] leaves its loop. *)
Definition waits (final : bool) (w : RedactingWriter) : bool :=
  negb final && (sourceOffset w <? pendingBase w + Z.of_nat M).

(** Otherwise no pattern can still start at the first held byte. *)
Lemma ahead_token final t e w :
  source w t → ahead final t e w → pending w ≠ [] → waits final w = false →
  ∀ x, (final = true → x = []) →
    redact ps (t ++ x) = (e ++ token (pending w)) ++ redact ps (drop (tokenLen (pending w)) (pending w) ++ x).
Proof.
  intros Hso Ha Hne E1 x Hx. rewrite (Ha x Hx), redact_token_app; [by rewrite app_assoc|done|].
  apply andb_false_iff in E1 as [E1|E1]; bool_hyps.
  - rewrite Hx by done. by rewrite app_nil_r.
  - apply longestAt_app. intros p Hp. pose proof (maxPattern_le p Hp). rewrite (so_offset _ _ Hso) in E1.
    pose proof (so_base _ _ Hso). rewrite (so_pending _ _ Hso), length_drop. lia.
Qed.

Lemma resolveLoop_spec final fuel w t e ok w' :
  source w t → safe w e → ahead final t e w → (length (pending w) < fuel)%nat → resolveLoop mt fuel final w = (ok, w') →
  failed w' = failed w ∧
  if ok then ∃ e', source w' t ∧ safe w' e' ∧ ahead final t e' w' ∧
                   (if final then pending w' = [] else len t < pendingBase w' + Z.of_nat M)
  else stopped final t w'.
Proof.
  revert w e. induction fuel as [|fuel IH]; intros w e Hso Hsa Ha Hf; [lia|]. cbn [resolveLoop].
  destruct (len (pending w) =? 0) eqn:E0; bool_hyps.
  { intros [= <- <-]. split; [done|]. exists e. split_and!; [done..|]. destruct final; [by destruct (pending w)|].
    pose proof (so_base _ _ Hso). rewrite (so_pending _ _ Hso), length_drop in E0. lia. }
  assert (pending w ≠ []) as Hne by (destruct (pending w); [done|done]).
  fold (waits final w). destruct (waits final w) eqn:E1.
  { unfold waits in E1. bool_hyps. subst final. intros [= <- <-]. split; [done|]. exists e. split_and!; [done..|].
    by rewrite <-(so_offset _ _ Hso). }
  pose proof (ahead_token final t e w Hso Ha Hne E1) as Ha'.
  destruct (resolveOne mt w) as [ok1 w1] eqn:E. apply (resolveOne_spec _ t e) in E as [Hfl Hres]; [|done..].
  destruct ok1; simpl.
  - destruct Hres as (Hso1&Hsa1&Hp1). intros H. rewrite <-Hfl. eapply (IH w1); [done|done| | |done].
    + intros x Hx. rewrite Hp1. by apply Ha'.
    + rewrite Hp1, length_drop. unfold tokenLen. destruct (pending w); [done|]. simpl in *. lia.
  - intros [= <- <-]. split; [done|]. destruct Hres as [Hcon|Hcon]; (eexists; split; [exact Hcon|]); intros x Hx; rewrite (Ha' x Hx).
    + rewrite <-app_assoc. apply prefix_app_r. done.
    + apply prefix_app_r. done.
Qed.

(** The writer between calls, after the text [t]. *)
Record running (w : RedactingWriter) (t : list Z) : Prop := {
  rn_failed : failed w = false;
  rn_emitted : ∃ e, source w t ∧ safe w e ∧ ahead false t e w;
  rn_room : len t < pendingBase w + Z.of_nat M;
}.

Lemma ahead_read t e w b w' : ahead false t e w → pending w' = pending w ++ [b] → ahead false (t ++ [b]) e w'.
Proof. intros Ha Hp x _. rewrite Hp, <-!app_assoc. by apply Ha. Qed.

Lemma acceptByte_spec b w t ok w' :
  running w t → acceptByte mt b w = (ok, w') → if ok then running w' (t ++ [b]) else stopped false (t ++ [b]) w'.
Proof.
  intros [Hf (e&Hso&Hsa&Ha) Hroom]. 
  change (acceptByte mt b w) with (let w1 := recordSourceMatches mt (readByte b w) in
                                   if failed w1 then (false, w1) else resolveSource mt false w1).
  cbv zeta. set (w1 := recordSourceMatches mt (readByte b w)).
  pose proof (proj1 (recordLoop_core (length (nodes mt)) (sourceState (readByte b w)) (readByte b w))) as Hc.
  fold (recordSourceMatches mt (readByte b w)) in Hc. fold w1 in Hc. injection Hc as E1 E2 E3 E4 E5 E6 E7 E8. simpl in *.
  assert (safe w1 e) as Hsa1 by (destruct Hsa as [Sa Sb Sc Sd]; split; rewrite ?E1, ?E7, ?E8; done).
  pose proof (ahead_read _ _ _ b w1 Ha E5) as Ha1. destruct (failed w1) eqn:Ef.
  { intros [= <- <-]. exists e. split; [by apply safe_contained|]. intros x Hx. rewrite (Ha1 x Hx). by apply prefix_app_r. }
  intros H. apply (resolveLoop_spec false _ _ (t ++ [b]) e) in H as [Hf' Hres]; [|by apply record_source|done|done|lia].
  destruct ok; [|done]. destruct Hres as (e'&?&?&?&?). split; [congruence|eauto|done].
Qed.

Lemma stopped_more t x w : stopped false t w → stopped false (t ++ x) w.
Proof. intros (e&Hc&He). exists e. split; [done|]. intros y _. rewrite <-app_assoc. by apply He. Qed.

Lemma accept_spec input w t ok w' :
  running w t → accept mt input w = (ok, w') → if ok then running w' (t ++ input) else stopped false (t ++ input) w'.
Proof.
  revert w t. induction input as [|b r IH]; intros w t Hr; cbn [accept].
  { intros [= <- <-]. by rewrite app_nil_r. }
  destruct (acceptByte mt b w) as [ok1 w1] eqn:E. apply (acceptByte_spec _ _ t) in E; [|done].
  replace (t ++ b :: r) with ((t ++ [b]) ++ r) by by rewrite <-app_assoc.
  destruct ok1; simpl; [by apply IH|]. intros [= <- <-]. by apply stopped_more.
Qed.

Lemma writeChunks_spec fuel input w t ok w' :
  (length input ≤ fuel)%nat → running w t → writeChunks mt fuel input w = (ok, w') →
  if ok then running w' (t ++ input) else stopped false (t ++ input) w' ∧ failed w' = true.
Proof.
  revert input w t. induction fuel as [|fuel IH]; intros [|c r] w t Hf Hr; cbn [writeChunks].
  1,3: intros [= <- <-]; by rewrite app_nil_r.
  { simpl in Hf. lia. }
  set (input := c :: r) in *. set (n := Z.to_nat _). assert (1 ≤ n ≤ length input)%nat as Hn.
  { unfold n, redactionChunk. simpl length. lia. }
  destruct (accept mt (take n input) w) as [ok1 w1] eqn:E. apply (accept_spec _ _ t) in E; [|done].
  replace (t ++ input) with ((t ++ take n input) ++ drop n input) by by rewrite <-app_assoc, take_drop.
  destruct ok1; simpl.
  - intros H. eapply IH; [|done..]. rewrite length_drop. lia.
  - intros [= <- <-]. split; [|done]. apply stopped_more. destruct E as (e&He). exists e. done.
Qed.

(** The writer after the text [t], failed or not. *)
Definition live (w : RedactingWriter) (t : list Z) : Prop :=
  if failed w then stopped false t w else running w t.

Lemma Write_live w t input : live w t → live (Write mt input w).2 (t ++ input).
Proof.
  unfold Write. destruct (failed w) eqn:Ef; unfold live at 1; rewrite Ef; intros Hl.
  { unfold live. simpl. rewrite Ef. by apply stopped_more. }
  destruct (Nat.eqb_spec M 0) as [|_]; [done|]. destruct (writeChunks mt (length input) input w) as [ok w'] eqn:E.
  apply (writeChunks_spec _ _ _ t) in E; [|done|done]. unfold live. destruct ok; simpl in *.
  - by rewrite (rn_failed _ _ E).
  - by destruct E as [? ->].
Qed.

Lemma writes_live inputs w t : live w t → live (writes mt inputs w) (t ++ concat inputs).
Proof.
  revert w t. induction inputs as [|i r IH]; intros w t Hl; simpl; [by rewrite app_nil_r|].
  rewrite app_assoc. by apply IH, Write_live.
Qed.

(** No secret occurs, whole or cut off at the end, in what was passed on. *)
Definition untouched (out ref : list Z) : Prop :=
  out `prefix_of` ref ∧ ∀ p a b, p ∈ ps → p ≠ [] → ref = a ++ p ++ b → out `prefix_of` a.

Lemma contained_untouched w e ref : contained w e → e `prefix_of` ref → untouched (received (dst w)) ref.
Proof.
  intros (Hc&Hp&Hh) He. split; [by etrans|]. intros p a b Hin Hne ->.
  destruct Hh as [->|Hh]; [apply prefix_nil|].
  assert (received (dst w) `prefix_of` a ++ p ++ b) as Hr by by etrans.
  pose proof (maxPattern_le p Hin). destruct (decide (length (a ++ p) ≤ length e)%nat) as [Hle|Hgt].
  - exfalso. apply (Hc p Hin Hne). rewrite app_assoc in He.
    destruct (prefix_weak_total (a ++ p) e ((a ++ p) ++ b)) as [[k ->]|Hk]; [by eexists|done| |].
    + exists a, k. by rewrite app_assoc.
    + pose proof (prefix_length _ _ Hk). rewrite (prefix_length_eq e (a ++ p)) by (done || lia). exists a, []. by rewrite app_nil_r.
  - rewrite length_app in Hgt. destruct (prefix_weak_total (received (dst w)) a (a ++ p ++ b)) as [?|Hk]; [done|by eexists|done|].
    pose proof (prefix_length _ _ Hk). rewrite (prefix_length_eq a (received (dst w))) by (done || lia). done.
Qed.

Lemma live_untouched w t x : live w t → untouched (received (dst w)) (redact ps (t ++ x)).
Proof.
  unfold live. destruct (failed w) eqn:Ef.
  - intros (e&Hc&He). eapply contained_untouched; [done|by apply He].
  - intros [_ (e&_&Hs&Ha) _]. eapply contained_untouched; [by apply safe_contained|]. rewrite Ha by done. by eexists.
Qed.

Lemma clean_untouched out ref : clean ps ref → out `prefix_of` ref → untouched out ref.
Proof. intros Hc Hp. split; [done|]. intros p a b Hin Hne ->. destruct (Hc p Hin Hne). by exists a, b. Qed.

Lemma Close_spec w t ok w' :
  live w t → Close mt w = (ok, w') →
  untouched (received (dst w')) (redact ps t) ∧ (ok = true → received (dst w') = redact ps t ∧ clean ps (redact ps t)).
Proof.
  unfold Close. intros Hl. destruct (failed w) eqn:Ef.
  { intros [= <- <-]. split; [|done]. apply (live_untouched _ _ []) in Hl. by rewrite app_nil_r in Hl. }
  destruct (Nat.eqb_spec M 0) as [|_]; [done|]. unfold live in Hl. rewrite Ef in Hl. destruct Hl as [_ (e&Hso&Hsa&Ha) _].
  destruct (resolveSource mt true w) as [ok1 w1] eqn:E.
  apply (resolveLoop_spec true _ _ t e) in E as [Hf Hres]; [|done|done|by intros x _; apply Ha|lia].
  destruct ok1; simpl.
  2:{ intros [= <- <-]. split; [|done]. destruct Hres as (e'&Hc&He). specialize (He [] ltac:(done)). rewrite app_nil_r in He.
      by eapply (contained_untouched w1). }
  destruct Hres as (e'&Hso1&Hsa1&Ha1&Hp1). specialize (Ha1 [] ltac:(done)). rewrite Hp1, !app_nil_r in Ha1. rewrite Ha1.
  destruct (emitSafe mt [] true w1) as [ok2 w2] eqn:E2. apply (emitSafe_final _ e') in E2 as (_&Hc&Hp&Hr); [|done].
  destruct ok2; simpl; intros [= <- <-]; (split; [by apply clean_untouched|]); [|done]. intros _. split; [by apply Hr|done].
Qed.

Lemma initial_running w :
  received (dst w) = [] → w = writerOf mt (dst w) → running w [].
Proof.
  intros Hd ->. split; [done| |simpl; lia]. exists []. split_and!; [split; simpl; try done; try lia|split; simpl|].
  - split; simpl; [by rewrite length_replicate..|intros; lia|].
    intros i Hi H. exfalso. apply H. rewrite list_lookup_total_alt, lookup_replicate_2 by done. done.
  - done.
  - apply clean_nil.
  - by rewrite app_nil_r.
  - by left.
  - by intros x _.
Qed.
End redaction.

(** ** The patterns of a list of secrets *)

Lemma base64Encode_nonempty alphabet padding bs : bs ≠ [] → base64Encode alphabet padding bs ≠ [].
Proof. by destruct bs as [|a [|b [|c r]]]. Qed.

Lemma addPattern_spec ps p ps' :
  addPattern ps p = Some ps' →
  p ∈ ps' ∧ (∀ q, q ∈ ps → q ∈ ps') ∧ (∀ q, q ∈ ps' → q ∈ ps ∨ q = p) ∧ (length ps' ≤ S (length ps))%nat.
Proof.
  unfold addPattern. case_bool_decide as Hin; [intros [= <-]; split_and!; [done|done|by left|lia]|].
  destruct (_ <=? _); [done|]. destruct (containsMarkerConflict p); [done|]. intros [= <-]. split_and!.
  - apply elem_of_app. right. by apply list_elem_of_singleton.
  - intros q Hq. apply elem_of_app. by left.
  - intros q [Hq|Hq%list_elem_of_singleton]%elem_of_app; [by left|by right].
  - rewrite length_app. simpl. lia.
Qed.

(** A secret in clear and in its two base64 forms. *)
Definition formsOf (value : list Z) : list (list Z) :=
  [value; base64Encode stdAlphabet true value; base64Encode stdAlphabet false value].

Lemma formsOf_nonempty v p : v ≠ [] → p ∈ formsOf v → p ≠ [].
Proof.
  unfold formsOf. intros Hv [->|[->|[->|[]%elem_of_nil]%elem_of_cons]%elem_of_cons]%elem_of_cons; [done|by apply base64Encode_nonempty..].
Qed.

Lemma redactionPatternsLoop_spec values ps0 total ps :
  redactionPatternsLoop ps0 total values = Some ps →
  (∀ p, p ∈ ps0 → p ∈ ps) ∧ (∀ v p, v ∈ values → v ≠ [] → p ∈ formsOf v → p ∈ ps) ∧
  (∀ p, p ∈ ps → p ∈ ps0 ∨ ∃ v, v ∈ values ∧ v ≠ [] ∧ p ∈ formsOf v) ∧
  (length ps ≤ length ps0 + 3 * length values)%nat.
Proof.
  revert ps0 total. induction values as [|v r IH]; intros ps0 total; cbn [redactionPatternsLoop].
  { intros [= <-]. split_and!; [done|by intros v p []%elem_of_nil|by left|simpl; lia]. }
  destruct (Z.eqb_spec (len v) 0) as [E0|Hv].
  { intros H. destruct (IH _ _ H) as (I1&I2&I3&I4). split_and!; [done| | |simpl; lia].
    - intros u p [->|Hu]%elem_of_cons Hne; [by destruct v|by apply I2].
    - intros p Hp. destruct (I3 p Hp) as [?|(u&?&?)]; [by left|right]. exists u. split; [apply elem_of_cons; by right|done]. }
  destruct (_ <? _); [done|]. intros (p1&H1&H)%bind_Some. apply bind_Some in H as (p2&H2&(p3&H3&H)%bind_Some).
  apply addPattern_spec in H1 as (A1&A2&A3&A4), H2 as (B1&B2&B3&B4), H3 as (C1&C2&C3&C4).
  destruct (IH _ _ H) as (I1&I2&I3&I4). split_and!; [auto| | |simpl; lia].
  - intros u p [->|Hu]%elem_of_cons Hne Hp; [|by eapply I2]. unfold formsOf in Hp.
    apply elem_of_cons in Hp as [->|[->|[->|[]%elem_of_nil]%elem_of_cons]%elem_of_cons]; auto.
  - assert (v ≠ []) as Hne by by destruct v. intros p Hp.
    assert (p ∈ formsOf v → p ∈ ps0 ∨ ∃ u, u ∈ v :: r ∧ u ≠ [] ∧ p ∈ formsOf u) as Hv'.
    { intros Hf. right. exists v. split_and!; [apply elem_of_cons; by left|done|done]. }
    destruct (I3 p Hp) as [Hp3|(u&Hu&?)].
    + unfold formsOf in Hv'. rewrite !elem_of_cons in Hv'. destruct (C3 p Hp3) as [Hp2|?]; [|by apply Hv'; auto].
      destruct (B3 p Hp2) as [Hp1|?]; [|by apply Hv'; auto]. destruct (A3 p Hp1) as [?|?]; [by left|by apply Hv'; auto].
    + right. exists u. split; [apply elem_of_cons; by right|done].
Qed.

Lemma patterns_forms values ps v p :
  redactionPatterns values = Some ps → v ∈ values → v ≠ [] → p ∈ formsOf v → p ∈ ps.
Proof. intros H. apply redactionPatternsLoop_spec in H as (_&H&_). apply H. Qed.
Lemma patterns_nonempty values ps p : redactionPatterns values = Some ps → p ∈ ps → p ≠ [].
Proof.
  intros H Hp. apply redactionPatternsLoop_spec in H as (_&_&H&_).
  destruct (H p Hp) as [[]%elem_of_nil|(v&_&Hv&Hf)]. by eapply formsOf_nonempty.
Qed.

(** ** Without secrets the text goes through unchanged *)

Lemma longestAt_no s : longestAt [] s = 0%nat.
Proof. done. Qed.
Lemma redact_no s : redact [] s = s.
Proof. induction s as [|c r IH]; [done|]. by rewrite redact_plain, IH. Qed.

Lemma no_pattern values ps mt :
  redactionPatterns values = Some ps → newMatcher ps = Some mt → maxPattern mt = 0%nat → ps = [].
Proof.
  intros Hps Hmt HM. destruct ps as [|p qs]; [done|]. exfalso.
  assert (p ∈ p :: qs) as Hp by (apply elem_of_cons; by left).
  apply (patterns_nonempty _ _ _ Hps Hp). apply (maxPattern_le _ _ Hmt) in Hp. destruct p; [done|simpl in Hp; lia].
Qed.

Lemma plain_writes mt inputs w t :
  maxPattern mt = 0%nat →
  received (dst w) `prefix_of` t ∧ (failed w = false → received (dst w) = t) →
  received (dst (writes mt inputs w)) `prefix_of` t ++ concat inputs ∧
  (failed (writes mt inputs w) = false → received (dst (writes mt inputs w)) = t ++ concat inputs).
Proof.
  intros HM. revert w t. induction inputs as [|i r IH]; intros w t Hw; simpl; [by rewrite app_nil_r|].
  rewrite app_assoc. apply IH. clear IH. destruct Hw as [Hp Ht]. unfold Write.
  destruct (failed w) eqn:Ef; simpl; [split; [by apply prefix_app_r|by rewrite Ef]|]. rewrite HM. simpl.
  specialize (Ht eq_refl). destruct (writeAll (dst w) i) as [ok d] eqn:E. apply writeAll_spec in E as (k&Hk&Hok).
  rewrite Ht in Hk. destruct ok; simpl; rewrite Hk.
  - rewrite Hok by done. done.
  - split; [|done]. apply prefix_app, prefix_take.
Qed.

(** ** The theorems *)

(** What a caller sees: the secrets, the writes and the close. *)
Lemma session_spec d values inputs ps mt w0 :
  redactionPatterns values = Some ps → NewRedactingWriter d values = Some (mt, w0) → received d = [] →
  let w := writes mt inputs w0 in
  let T := concat inputs in
  untouched ps (received (dst w)) (redact ps T) ∧
  untouched ps (received (dst (Close mt w).2)) (redact ps T) ∧
  ((Close mt w).1 = true → received (dst (Close mt w).2) = redact ps T).
Proof.
  unfold NewRedactingWriter. intros Hps H Hd. rewrite Hps in H. simpl in H. apply bind_Some in H as (mt'&Hmt&H). simpl in H. injection H as <- <-. simpl.
  destruct (decide (maxPattern mt' = 0%nat)) as [HM|HM].
  - rewrite (no_pattern _ _ _ Hps Hmt HM), redact_no.
    destruct (plain_writes mt' inputs (writerOf mt' d) [] HM) as [Hp Ht]; [by rewrite <-Hd|]. simpl in *.
    assert (∀ out, out `prefix_of` concat inputs → untouched [] out (concat inputs)) as Hu.
    { intros out Ho. split; [done|]. by intros p a b []%elem_of_nil. }
    unfold Close. rewrite HM. destruct (failed (writes mt' inputs (writerOf mt' d))) eqn:Ef; simpl.
    + split_and!; [by apply Hu|by apply Hu|done].
    + split_and!; [by apply Hu|by apply Hu|by intros _; apply Ht].
  - assert (live ps mt' (writes mt' inputs (writerOf mt' d)) (concat inputs)) as Hl.
    { apply (writes_live ps mt' Hmt HM inputs _ []). unfold live. simpl. by apply initial_running. }
    destruct (Close mt' _) as [ok w'] eqn:E. destruct (Close_spec ps mt' Hmt HM _ _ _ _ Hl E) as [Hu Hr]. simpl.
    split_and!; [|done|intros Hok; by apply Hr]. rewrite <-(app_nil_r (concat inputs)). by eapply live_untouched.
Qed.

(** C15: Redaction never leaks.  Whatever the sequence of writes, wherever the
    chunk borders fall and however the destination answers (short writes,
    errors, at any call), before [Close] and after it, failed or not: what has
    reached the destination is a beginning of the redacted text, contains no
    non-empty secret either in clear or in its padded or unpadded base64 form, and
    ends before the start of any place where the marker and its neighbourhood
    would spell one. *)
Theorem redaction_no_leak d values inputs ps mt w0 :
  redactionPatterns values = Some ps → NewRedactingWriter d values = Some (mt, w0) → received d = [] →
  let w := writes mt inputs w0 in
  ∀ out, out = received (dst w) ∨ out = received (dst (Close mt w).2) →
  out `prefix_of` redact ps (concat inputs) ∧
  ∀ v p, v ∈ values → v ≠ [] → p ∈ formsOf v →
    ¬ occurs p out ∧ ∀ a b, redact ps (concat inputs) = a ++ p ++ b → out `prefix_of` a.
Proof.
  intros Hps HN Hd w out Hout. destruct (session_spec d values inputs ps mt w0 Hps HN Hd) as (H1&H2&_).
  assert (untouched ps out (redact ps (concat inputs))) as [Hp Hu] by (destruct Hout as [->| ->]; done).
  split; [done|]. intros v p Hv Hne Hf. pose proof (patterns_forms _ _ _ _ Hps Hv Hne Hf) as Hin.
  pose proof (formsOf_nonempty _ _ Hne Hf) as Hpne. split; [|by intros a b; apply Hu].
  intros (a&b&E). destruct Hp as [k Hk]. rewrite E, <-!app_assoc in Hk. pose proof (Hu p a (b ++ k) Hin Hpne Hk) as Ha.
  apply prefix_length in Ha. rewrite E, !length_app in Ha. destruct p; [done|]. simpl in Ha. lia.
Qed.

(** C16: The streaming redactor is the reference redaction: when [Close] reports
    success, the destination has received exactly the leftmost-longest
    redaction of the whole text, independently of how the text was cut into
    writes and of how many calls the destination needed. *)
Theorem redaction_exact d values inputs ps mt w0 w' :
  redactionPatterns values = Some ps → NewRedactingWriter d values = Some (mt, w0) → received d = [] →
  Close mt (writes mt inputs w0) = (true, w') → received (dst w') = redact ps (concat inputs).
Proof.
  intros Hps HN Hd HC. destruct (session_spec d values inputs ps mt w0 Hps HN Hd) as (_&_&H).
  rewrite HC in H. by apply H.
Qed.

(** Two secrets, "abc" and "bcd", in "xabcdbcd" and a destination that takes
    one byte, then fails; or all. *)
Definition demoSecrets : list (list Z) := [[97; 98; 99]; [98; 99; 100]].
Definition demoInputs : list (list Z) := [[120; 97; 98]; [99; 100; 98; 99]; [100]].
Definition demoDst (answers : list (Z * bool)) : Dst := {| received := []; responses := answers |}.
Definition demoPatterns : list (list Z) := default [] (redactionPatterns demoSecrets).
Definition demoWriter (answers : list (Z * bool)) : redactionMatcher * RedactingWriter :=
  default ({| nodes := []; maxPattern := 0 |}, writerOf {| nodes := []; maxPattern := 0 |} (demoDst []))
    (NewRedactingWriter (demoDst answers) demoSecrets).

Lemma redaction_no_leak_witness :
  let '(mt, w0) := demoWriter [(1, false); (2, true)] in
  let w := writes mt demoInputs w0 in
  ¬ occurs [98; 99; 100] (received (dst (Close mt w).2)) ∧ (Close mt w).1 = false.
Proof.
  destruct (demoWriter [(1, false); (2, true)]) as [mt w0] eqn:E. split.
  - assert (redactionPatterns demoSecrets = Some demoPatterns) as Hps by (vm_compute; reflexivity).
    assert (NewRedactingWriter (demoDst [(1, false); (2, true)]) demoSecrets = Some (mt, w0)) as HN
      by (rewrite <-E; vm_compute; reflexivity).
    destruct (redaction_no_leak _ demoSecrets demoInputs demoPatterns mt w0 Hps HN eq_refl _ (or_intror eq_refl)) as [_ H].
    apply (H [98; 99; 100] [98; 99; 100]); [|discriminate|apply elem_of_cons; by left].
    apply elem_of_cons. right. apply elem_of_cons. by left.
  - vm_compute in E. injection E as <- <-. vm_compute. reflexivity.
Defined.

Lemma redaction_exact_witness :
  ∃ mt w0 w', NewRedactingWriter (demoDst [(1, false)]) demoSecrets = Some (mt, w0) ∧
              Close mt (writes mt demoInputs w0) = (true, w') ∧
              received (dst w') = [120] ++ Redacted ++ [100] ++ Redacted.
Proof.
  do 3 eexists. split; [vm_compute; reflexivity|]. split; [vm_compute; reflexivity|].
  etransitivity; [eapply (redaction_exact (demoDst [(1, false)]) demoSecrets demoInputs demoPatterns);
    [vm_compute; reflexivity|vm_compute; reflexivity|reflexivity|vm_compute; reflexivity]|vm_compute; reflexivity].
Defined.
