(* ===== verification/RedactionWork.v ===== *)
(** * The redactor's work budget

    Matching may spend 4096 units and 8 more per source byte before the writer
    gives up.  With at most three patterns ending at any place, recording a
    byte costs at most 7 and resolving it 1, so the budget is never exhausted:
    a writer on one secret only fails when its destination does or when the
    redacted text itself would spell the secret. *)
From S2P Require Import Prelude Matcher Redactor Redaction.
#[local] Open Scope Z_scope.

(** The destination takes everything. *)
Definition open (w : RedactingWriter) : Prop := responses (dst w) = [].

Lemma writeAll_open d data : responses d = [] → (writeAll d data).1 = true ∧ responses (writeAll d data).2 = [].
Proof.
  intros Hd. unfold writeAll. destruct data as [|c r]; [done|]. set (data := c :: r).
  change (length data) with (S (length r)). cbn [writeAllLoop data]. fold data. unfold dstWrite. rewrite Hd.
  destruct (_ || _) eqn:E1; [apply orb_true_iff in E1 as [E1|E1]; bool_hyps; lia|].
  destruct (_ =? 0) eqn:E2; [bool_hyps; simpl in E2; lia|]. rewrite Nat2Z.id, drop_all. by destruct (length r).
Qed.

Section work.
Context (ps : list (list Z)) (mt : redactionMatcher) (Hmt : newMatcher ps = Some mt) (HM : maxPattern mt ≠ 0%nat).
#[local] Notation M := (maxPattern mt).

Definition budget (w : RedactingWriter) : Z := MaxRedactionPatterns + 8 * sourceTransitions w.

(** [n] more units can be spent. *)
Definition affords (n : Z) (w : RedactingWriter) : Prop :=
  0 ≤ matchWork w ∧ matchWork w + n ≤ budget w ≤ maxRedactionWork.

Lemma consume_ok n w :
  affords n w → 1 ≤ n → consumeMatchWork w = (true, set_work (matchWork w + 1) w).
Proof.
  intros (H0&H1&H2) Hn. unfold consumeMatchWork, redactionMatchWorkLimit, redactionMatchWorkPerByte. unfold budget in *.
  destruct (Z.eqb_spec (matchWork w) maxRedactionWork); [lia|]. simpl.
  destruct (Z.ltb_spec ((maxRedactionWork - MaxRedactionPatterns) / 8) (sourceTransitions w)) as [Hlt|_].
  - exfalso. pose proof (Z.div_le_lower_bound (maxRedactionWork - MaxRedactionPatterns) 8 (sourceTransitions w)). lia.
  - f_equal. apply Z.leb_le. lia.
Qed.

Lemma affords_spent n k w w' :
  affords n w → sourceTransitions w' = sourceTransitions w → matchWork w ≤ matchWork w' ≤ matchWork w + k →
  affords (n - k) w'.
Proof. unfold affords, budget. intros (?&?&?) -> ?. lia. Qed.

Lemma recordMatch_work s n w :
  affords 1 w → failed w = false → s < pendingBase w + Z.of_nat M →
  failed (recordMatch mt s n w) = false ∧ matchWork w ≤ matchWork (recordMatch mt s n w) ≤ matchWork w + 1.
Proof.
  intros Ha Hf Hs. unfold recordMatch. destruct (_ <? _); [lia || done || (split; [done|lia])|].
  destruct (Z.leb_spec (pendingBase w + Z.of_nat M) s); [lia|]. rewrite (consume_ok 1) by done. simpl.
  destruct (_ || _); simpl; (split; [done|lia]).
Qed.

Lemma recordLoop_work fuel st w :
  let cost := Z.of_nat (chainNodes fuel (nodes mt) st) + len (outputChain fuel (nodes mt) st) in
  affords cost w → failed w = false → sourceOffset w ≤ pendingBase w + Z.of_nat M →
  failed (recordLoop mt fuel st w) = false ∧ matchWork w ≤ matchWork (recordLoop mt fuel st w) ≤ matchWork w + cost.
Proof.
  revert st w. induction fuel as [|fuel IH]; intros st w; cbn [recordLoop chainNodes outputChain].
  { simpl. intros _ Hf _. split; [done|lia]. }
  destruct (st =? 0)%nat; [simpl; intros _ Hf _; split; [done|lia]|].
  set (nd := nodes mt !!! st). set (ch := outputChain _ _ _). set (cn := chainNodes _ _ _). rewrite length_app.
  set (u := if (0 <? terminal nd)%nat then [terminal nd] else []). intros Ha Hf Ho.
  rewrite (consume_ok _ _ Ha) by lia. simpl. set (w1 := set_work (matchWork w + 1) w).
  set (w2 := if (0 <? terminal nd)%nat then _ else w1).
  assert (failed w2 = false ∧ matchWork w1 ≤ matchWork w2 ≤ matchWork w1 + len u ∧ sameCore w1 w2) as (Hf2&Hw2&Hc2).
  { unfold w2, u in *. destruct (Nat.ltb_spec 0 (terminal nd)) as [Ht|_]; [|split_and!; simpl; done || lia].
    destruct (recordMatch_work (sourceOffset w - Z.of_nat (terminal nd)) (Z.of_nat (terminal nd)) w1) as [? ?]; [|done|simpl; lia|].
    - destruct Ha as (?&?&?). unfold affords, budget in *. simpl in *. lia.
    - split_and!; [done|simpl in *; lia|simpl in *; lia|apply recordMatch_core]. }
  injection Hc2 as E1 E2 E3 E4 E5 E6 E7 E8. simpl in *.
  pose proof (IH (outputLink nd) w2) as IH2. fold ch in IH2. fold cn in IH2. destruct IH2 as [Hf3 Hw3].
  - destruct Ha as (?&?&?). unfold affords, budget in *. rewrite E4. lia.
  - done.
  - rewrite E3, E6. done.
  - split; [done|]. lia.
Qed.

Lemma scanSafe_clean input E kept :
  clean ps (E ++ input) → (scanSafe mt (readText mt E) kept input).1.1 = true.
Proof.
  revert E kept. induction input as [|b r IH]; intros E kept Hc; cbn [scanSafe]; [done|].
  rewrite <-readText_snoc. replace (E ++ b :: r) with ((E ++ [b]) ++ r) in Hc by by rewrite <-app_assoc.
  destruct (Nat.ltb_spec 0 (output (nodes mt !!! readText mt (E ++ [b])))) as [Hlt|_]; [|by apply IH]. exfalso.
  cut (output (nodes mt !!! readText mt (E ++ [b])) = 0%nat); [lia|]. apply (proj2 (output_suffix ps mt Hmt HM _)).
  intros p Hp Hne [a Hs]. apply (Hc p Hp Hne). exists a, r. by rewrite Hs, <-app_assoc.
Qed.

Lemma emitSafe_open w E input final :
  safe ps mt w E → open w → clean ps (E ++ input) →
  (emitSafe mt input final w).1 = true ∧ open (emitSafe mt input final w).2.
Proof.
  intros [Hst _ _ _] Ho Hc. unfold emitSafe. destruct (Nat.eqb_spec M 0); [done|]. rewrite Hst.
  pose proof (scanSafe_clean input E (safePending w) Hc) as Hs.
  destruct (scanSafe mt (readText mt E) (safePending w) input) as [[ok st] kept]. simpl in Hs. subst ok. simpl.
  destruct (_ <=? 0); [done|]. set (flush := take _ kept). destruct (writeAll_open (dst w) flush Ho) as [H1 H2].
  destruct (writeAll (dst w) flush) as [ok d]. simpl in *. by subst ok.
Qed.

Lemma clearInterior_work fuel offset length w :
  offset ≤ length → affords (length - offset) w → length - offset ≤ Z.of_nat fuel →
  ∃ w', clearInterior mt fuel offset length w = (true, w') ∧ sameCore w w' ∧ matchWork w' = matchWork w + (length - offset).
Proof.
  revert offset w. induction fuel as [|fuel IH]; intros offset w Hle Ha Hf; cbn [clearInterior].
  { exists w. split_and!; [done..|lia]. }
  destruct (Z.ltb_spec offset length); [|exists w; split_and!; [done..|lia]].
  rewrite (consume_ok _ _ Ha) by lia. simpl. set (w1 := set_ring _ _ _).
  destruct (IH (offset + 1) w1) as (w'&E&Hc&Hw).
  - lia.
  - destruct Ha as (?&?&?). unfold affords, budget in *. simpl. lia.
  - lia.
  - exists w'. rewrite E. split_and!; [done|done|]. rewrite Hw. simpl. lia.
Qed.

Lemma resolveOne_work w t e :
  source ps mt w t → safe ps mt w e → open w → pending w ≠ [] → clean ps (e ++ token ps (pending w)) →
  affords (Z.of_nat (tokenLen ps (pending w))) w →
  ∃ w', resolveOne mt w = (true, w') ∧ open w' ∧ matchWork w' = matchWork w + Z.of_nat (tokenLen ps (pending w)) ∧
        pendingBase w' = pendingBase w + Z.of_nat (tokenLen ps (pending w)).
Proof.
  intros Hso Hsa Ho Hne Hc Ha. unfold resolveOne. assert (1 ≤ tokenLen ps (pending w))%nat as Hl by (unfold tokenLen; lia).
  rewrite (consume_ok _ _ Ha) by lia. simpl. set (w1 := set_ring _ _ _).
  pose proof (longestAt_le ps (pending w)) as Hle. assert (0 < length (pending w))%nat as Hpos by (destruct (pending w); [done|simpl; lia]).
  assert ((if candidateStarts w !!! ringIndex mt (pendingBase w) =? pendingBase w
           then candidateLengths w !!! ringIndex mt (pendingBase w) else 0) = Z.of_nat (longestAt ps (pending w))) as ->.
  { pose proof (rg_len _ _ _ _ _ (so_ring _ _ _ _ Hso) (pendingBase w)) as Hr. unfold ringLen in Hr.
    pose proof (so_base _ _ _ _ Hso). pose proof (so_pending _ _ _ _ Hso) as Hp. rewrite Hp, length_drop in Hpos.
    rewrite Hr by lia. unfold matchAt. by rewrite <-Hp. }
  set (n := longestAt ps (pending w)) in *. set (emitted := if Z.of_nat n =? 0 then _ else _).
  assert (emitted = emitSafe mt (token ps (pending w)) false w1) as ->.
  { unfold emitted, token. fold n. destruct (Z.eqb_spec (Z.of_nat n) 0) as [E0|Hn0].
    - replace (n =? 0)%nat with true by (symmetry; apply Nat.eqb_eq; lia). done.
    - replace (n =? 0)%nat with false by (symmetry; apply Nat.eqb_neq; lia).
      destruct (Z.ltb_spec (len (pending w)) (Z.of_nat n)); [lia|done]. }
  assert (safe ps mt w1 e) as Hsa1 by (destruct Hsa as [? ? ? ?]; by split).
  destruct (emitSafe_open w1 e (token ps (pending w)) false Hsa1 Ho Hc) as [Hok Ho1].
  destruct (emitSafe mt (token ps (pending w)) false w1) as [ok w2] eqn:Ee. simpl in Hok, Ho1. subst ok. simpl.
  apply (emitSafe_spec ps mt Hmt HM _ e) in Ee as [(d&x&y&->) _]; [|done].
  replace (if Z.of_nat n =? 0 then 1 else Z.of_nat n) with (Z.of_nat (tokenLen ps (pending w)))
    by (unfold tokenLen; fold n; destruct (Z.eqb_spec (Z.of_nat n) 0); lia).
  set (L := tokenLen ps (pending w)) in *. set (w2 := set_safe d x y w1) in *.
  destruct (clearInterior_work (Z.to_nat (Z.of_nat L)) 1 (Z.of_nat L) w2) as (w'&E&Hcore&Hw).
  - lia.
  - destruct Ha as (?&?&?). unfold affords, budget in *. simpl. lia.
  - lia.
  - rewrite E. simpl. injection Hcore as E1 E2 E3 E4 E5 E6 E7 E8. eexists. split; [done|]. unfold open. simpl.
    rewrite E1, E6, Hw. simpl. split_and!; [exact Ho1|lia|done].
Qed.

(** What has been spent: at most 7 for each byte read, 1 for each byte
    resolved. *)
Definition economy (w : RedactingWriter) : Prop :=
  open w ∧ 0 ≤ matchWork w ≤ 7 * sourceTransitions w + pendingBase w.

Context (Hfew : ∀ u, (length (outs ps u) ≤ 3)%nat).
Context (T : list Z) (Hclean : clean ps (redact ps T)) (HT : MaxRedactionPatterns + 8 * len T ≤ maxRedactionWork).

Lemma resolveLoop_work final fuel w t e x :
  T = t ++ x → (final = true → x = []) → source ps mt w t → safe ps mt w e → ahead ps final t e w → economy w →
  (length (pending w) < fuel)%nat → ∃ w', resolveLoop mt fuel final w = (true, w') ∧ economy w'.
Proof.
  intros ET Hx. revert w e. induction fuel as [|fuel IH]; intros w e Hso Hsa Ha He Hf; [lia|]. cbn [resolveLoop].
  destruct (Z.eqb_spec (len (pending w)) 0) as [|Hne0]; [eauto|]. fold (waits mt final w).
  assert (pending w ≠ []) as Hne by (intros E; by rewrite E in Hne0).
  destruct (waits mt final w) eqn:Ew; [eauto|]. pose proof (ahead_token ps mt Hmt HM final t e w Hso Ha Hne Ew) as Ha'.
  assert (clean ps (e ++ token ps (pending w))) as Hc.
  { eapply clean_prefix; [|exact Hclean]. rewrite ET, (Ha' x Hx). by eexists. }
  pose proof (longestAt_le ps (pending w)) as Hle. assert (tokenLen ps (pending w) ≤ length (pending w))%nat as Hl.
  { unfold tokenLen. destruct (pending w); [done|]. simpl in *. lia. }
  pose proof (so_transitions _ _ _ _ Hso) as Htr. pose proof (so_base _ _ _ _ Hso) as Hb. pose proof (so_pending _ _ _ _ Hso) as Hp.
  pose proof (f_equal length Hp) as Hpl. rewrite length_drop in Hpl.
  assert (len T = len t + len x) as HlT by (rewrite ET, length_app; lia). destruct He as [Ho He].
  destruct (resolveOne_work w t e Hso Hsa Ho Hne Hc) as (w1&E&Ho1&Hw1&Hb1).
  { unfold affords, budget, MaxRedactionPatterns in *. lia. }
  rewrite E. simpl. apply (resolveOne_spec ps mt Hmt HM _ t e) in E as (_&Hso1&Hsa1&Hp1); [|done..].
  apply (IH w1 (e ++ token ps (pending w))); [done|done| | |].
  - intros y Hy. rewrite Hp1. by apply Ha'.
  - split; [done|]. rewrite (so_transitions _ _ _ _ Hso1). lia.
  - rewrite Hp1, length_drop. unfold tokenLen in *. lia.
Qed.

Lemma acceptByte_work b w t x :
  T = (t ++ [b]) ++ x → running ps mt w t → economy w → ∃ w', acceptByte mt b w = (true, w') ∧ economy w'.
Proof.
  intros ET [Hf (e&Hso&Hsa&Ha) Hroom] [Ho He].
  change (acceptByte mt b w) with (let w1 := recordSourceMatches mt (readByte mt b w) in
                                   if failed w1 then (false, w1) else resolveSource mt false w1).
  cbv zeta. set (w1 := recordSourceMatches mt (readByte mt b w)).
  pose proof (proj1 (recordLoop_core mt (length (nodes mt)) (sourceState (readByte mt b w)) (readByte mt b w))) as Hc.
  fold (recordSourceMatches mt (readByte mt b w)) in Hc. fold w1 in Hc. injection Hc as E1 E2 E3 E4 E5 E6 E7 E8.
  assert (sourceState (readByte mt b w) = readText mt (t ++ [b])) as Hst by (simpl; rewrite readText_snoc, (so_state _ _ _ _ Hso); done).
  pose proof (recordLoop_work (length (nodes mt)) (sourceState (readByte mt b w)) (readByte mt b w)) as Hw.
  fold (recordSourceMatches mt (readByte mt b w)) in Hw. fold w1 in Hw. cbv zeta in Hw.
  pose proof (readText_nodes ps mt (t ++ [b]) 3 Hmt Hfew) as Hn. specialize (Hfew (t ++ [b])).
  rewrite <-(proj1 (readText_outs ps mt (t ++ [b]) Hmt)), <-Hst in Hfew. rewrite <-Hst in Hn.
  set (cn := chainNodes _ _ _) in Hw, Hn. set (oc := outputChain _ _ _) in Hw, Hfew.
  pose proof (so_transitions _ _ _ _ Hso) as Htr. pose proof (so_base _ _ _ _ Hso) as Hb. pose proof (so_offset _ _ _ _ Hso) as Hof.
  assert (len T = len t + 1 + len x) as HlT by (rewrite ET, !length_app; simpl; lia).
  destruct Hw as [Hf1 Hw1]; [unfold affords, budget, MaxRedactionPatterns in *; simpl; lia|done|simpl; lia|].
  rewrite Hf1. simpl in *. eapply (resolveLoop_work false _ w1 (t ++ [b]) e x ET); [done| | | | |lia].
  - apply record_source; done.
  - destruct Hsa as [? ? ? ?]. split; rewrite ?E1, ?E7, ?E8; done.
  - by apply (ahead_read ps t e w b w1).
  - unfold economy, open. rewrite E1, E4, E6. split; [done|]. lia.
Qed.

Lemma accept_work input w t x :
  T = (t ++ input) ++ x → running ps mt w t → economy w → ∃ w', accept mt input w = (true, w') ∧ economy w'.
Proof.
  revert w t. induction input as [|b r IH]; intros w t ET Hr He; cbn [accept]; [eauto|].
  replace (t ++ b :: r) with ((t ++ [b]) ++ r) in ET by by rewrite <-app_assoc.
  destruct (acceptByte_work b w t (r ++ x)) as (w1&E&He1); [by rewrite ET, <-!app_assoc|done|done|].
  rewrite E. simpl. apply (acceptByte_spec ps mt Hmt HM _ _ t) in E; [|done]. by apply (IH w1 (t ++ [b])).
Qed.

Lemma writeChunks_work fuel input w t x :
  (length input ≤ fuel)%nat → T = (t ++ input) ++ x → running ps mt w t → economy w →
  ∃ w', writeChunks mt fuel input w = (true, w') ∧ economy w'.
Proof.
  revert input w t. induction fuel as [|fuel IH]; intros [|c r] w t Hf ET Hr He; cbn [writeChunks]; [eauto|simpl in Hf; lia|eauto|].
  set (input := c :: r) in *. set (n := Z.to_nat _). assert (1 ≤ n ≤ length input)%nat as Hn.
  { unfold n, redactionChunk. simpl length. lia. }
  replace (t ++ input) with ((t ++ take n input) ++ drop n input) in ET by by rewrite <-app_assoc, take_drop.
  destruct (accept_work (take n input) w t (drop n input ++ x)) as (w1&E&He1); [by rewrite ET, <-!app_assoc|done|done|].
  rewrite E. simpl. apply (accept_spec ps mt Hmt HM _ _ t) in E; [|done].
  apply (IH _ w1 (t ++ take n input)); [rewrite length_drop; lia|done..].
Qed.

Lemma writes_work inputs w t x :
  T = (t ++ concat inputs) ++ x → running ps mt w t → economy w →
  running ps mt (writes mt inputs w) (t ++ concat inputs) ∧ economy (writes mt inputs w).
Proof.
  revert w t. induction inputs as [|i r IH]; intros w t ET Hr He; simpl; [by rewrite app_nil_r|].
  simpl in ET. rewrite app_assoc in ET |- *. assert (running ps mt (Write mt i w).2 (t ++ i) ∧ economy (Write mt i w).2) as [Hr1 He1].
  { unfold Write. rewrite (rn_failed _ _ _ _ Hr). destruct (Nat.eqb_spec M 0); [done|].
    destruct (writeChunks_work (length i) i w t (concat r ++ x)) as (w1&E&He1); [done|by rewrite ET, <-!app_assoc|done|done|].
    rewrite E. split; [|done]. by apply (writeChunks_spec ps mt Hmt HM _ _ _ t) in E. }
  by apply IH.
Qed.

Lemma Close_work w : running ps mt w T → economy w → (Close mt w).1 = true.
Proof.
  intros [Hf (e&Hso&Hsa&Ha) _] He. unfold Close. rewrite Hf. destruct (Nat.eqb_spec M 0); [done|].
  assert (ahead ps true T e w) as Ha1 by (intros y _; by apply Ha).
  destruct (resolveLoop_work true (S (length (pending w))) w T e []) as (w1&E&[Ho1 _]); [by rewrite app_nil_r|done..|lia|].
  unfold resolveSource. rewrite E. simpl. apply (resolveLoop_spec ps mt Hmt HM true _ _ T e) in E as [_ (e'&_&Hsa1&Ha'&Hp1)]; [|done..|lia].
  destruct (emitSafe_open w1 e' [] true Hsa1 Ho1) as [Hok _].
  { specialize (Ha' [] ltac:(done)). by rewrite Hp1, !app_nil_r in Ha'; rewrite app_nil_r, <-Ha'. }
  destruct (emitSafe mt [] true w1) as [ok w2]. simpl in Hok. by subst ok.
Qed.
End work.

(** C17: A redactor for few secrets works to the end.  With at most three
    patterns (one secret gives a clear and two base64 forms), a destination that takes
    what it is given and fewer than 2^61 - 512 bytes of text whose redaction does
    not itself spell a pattern, every write and the close succeed: the matching
    budget of 4096 units plus 8 per byte is never exhausted, whatever the text. *)
Theorem redaction_available d values inputs ps mt w0 :
  redactionPatterns values = Some ps → (length ps ≤ 3)%nat → NewRedactingWriter d values = Some (mt, w0) →
  received d = [] → responses d = [] → clean ps (redact ps (concat inputs)) → len (concat inputs) < 2 ^ 61 - 512 →
  failed (writes mt inputs w0) = false ∧ (Close mt (writes mt inputs w0)).1 = true.
Proof.
  unfold NewRedactingWriter. intros Hps H3 H Hd Hr Hc HT. rewrite Hps in H. simpl in H.
  apply bind_Some in H as (mt'&Hmt&H). injection H as -> <-. destruct (decide (maxPattern mt = 0%nat)) as [HM|HM].
  - assert (∀ w, failed w = false → open w → failed (writes mt inputs w) = false) as Hw.
    { clear Hc HT. induction inputs as [|i r IH]; [done|]. intros w Hf Ho.
      change (writes mt (i :: r) w) with (writes mt r (Write mt i w).2). unfold Write. rewrite Hf, HM. simpl.
      destruct (writeAll_open (dst w) i Ho) as [H1 H2]. destruct (writeAll (dst w) i) as [ok d']. simpl in *. subst ok. by apply IH. }
    specialize (Hw (writerOf mt d) eq_refl Hr). unfold Close. by rewrite Hw, HM.
  - assert (∀ u, (length (outs ps u) ≤ 3)%nat) as Hfew by (intros u; pose proof (outs_few ps u); lia).
    assert (MaxRedactionPatterns + 8 * len (concat inputs) ≤ maxRedactionWork) as HB
      by (unfold MaxRedactionPatterns, maxRedactionWork; lia).
    destruct (writes_work ps mt Hmt HM Hfew (concat inputs) Hc HB inputs (writerOf mt d) [] []) as [Hrun He].
    + by rewrite app_nil_r.
    + by apply initial_running.
    + split; [done|]. simpl. lia.
    + split; [apply Hrun|]. by apply (Close_work ps mt Hmt HM (concat inputs) Hc HB).
Qed.

Lemma redaction_available_witness :
  ∃ mt w0, NewRedactingWriter (demoDst []) [[97; 98; 99]] = Some (mt, w0) ∧
           (Close mt (writes mt demoInputs w0)).1 = true.
Proof.
  do 2 eexists. split; [vm_compute; reflexivity|].
  eapply (redaction_available (demoDst []) [[97; 98; 99]] demoInputs [[97; 98; 99]; [89; 87; 74; 106]]).
  - vm_compute; reflexivity.
  - simpl. lia.
  - vm_compute; reflexivity.
  - reflexivity.
  - reflexivity.
  - vm_compute redact. intros p Hp _ (a&b&E). apply elem_of_cons in Hp as [->|[->|[]%elem_of_nil]%elem_of_cons].
    all: do 15 (destruct a as [|? a]; [discriminate E|injection E as _ E]); destruct a; discriminate E.
  - simpl. lia.
Defined.
