(* ===== verification/Hmac.v ===== *)
(** * crypto/hmac with SHA-256 (RFC 2104)

    Executable, checked against the vectors of RFC 4231, with the lemma that
    a code determines its key and its message up to a SHA-256 collision of
    two byte strings the lemma names. *)
From S2P Require Import Prelude GoStd Base64 Password.
From Stdlib Require Import Ascii.
#[local] Open Scope Z_scope.

Definition blockSize : nat := 64.
(** A key longer than a block is hashed; a shorter one is filled with zeros. *)
Definition keyBlock (key : string) : string :=
  let key := if (blockSize <? String.length key)%nat then Sum256 key else key in
  key +:+ Sha256.string_of_bytes (replicate (blockSize - String.length key) 0).

Definition innerText (key msg : string) : string := mapBytes (Z.lxor 54) (keyBlock key) +:+ msg.
Definition outerText (key msg : string) : string := mapBytes (Z.lxor 92) (keyBlock key) +:+ Sum256 (innerText key msg).
Definition HMAC (key msg : string) : string := Sum256 (outerText key msg).

(** ** Published vectors (RFC 4231, test cases 1, 2 and 6) *)

Example hmac_case_1 :
  EncodeToString (HMAC (Sha256.string_of_bytes (replicate 20 11)) "Hi There")
  = "b0344c61d8db38535ca8afceaf0bf12b881dc200c9833da726e9376c2e32cff7".
Proof. vm_compute. reflexivity. Qed.
Example hmac_case_2 :
  EncodeToString (HMAC "Jefe" "what do ya want for nothing?") = "5bdcc146bf60754e6a042426089575c75a003f089d2739839dec58b964ec3843".
Proof. vm_compute. reflexivity. Qed.
Example hmac_case_6 :
  EncodeToString (HMAC (Sha256.string_of_bytes (replicate 131 170)) "Test Using Larger Than Block-Size Key - Hash Key First")
  = "60e431591ee0b67f0d8a26aacbf5b77f8e0bc6213728c5140546040f0ee37f54".
Proof. vm_compute. reflexivity. Qed.

(** ** A code determines key and message *)

Lemma length_mapBytes f s : String.length (mapBytes f s) = String.length s.
Proof. induction s as [|c s IH]; [done|]. simpl. by rewrite IH. Qed.

Lemma mapBytes_inj f a b :
  (∀ x y, byteOk x → byteOk y → f x `mod` 256 = f y `mod` 256 → x = y) → mapBytes f a = mapBytes f b → a = b.
Proof.
  intros Hf. revert b. induction a as [|c a IH]; intros [|c' b]; simpl; try done. intros [= Hc Hr].
  f_equal; [|by apply IH]. assert (byte_of c = byte_of c') as E.
  { apply Hf; [apply byte_of_range..|]. apply (f_equal byte_of) in Hc.
    assert (∀ z, byte_of (GoStd.ascii_of_byte z) = z `mod` 256) as Hb.
    { intros z. pose proof (byte_ascii (z `mod` 256)) as H. unfold GoStd.ascii_of_byte in *. rewrite Zmod_mod in H.
      apply H. unfold byteOk. apply Z.mod_pos_bound. lia. }
    by rewrite !Hb in Hc. }
  apply (f_equal GoStd.ascii_of_byte) in E. by rewrite !ascii_byte in E.
Qed.

Lemma lxor_byte_inj k x y : byteOk k → byteOk x → byteOk y → Z.lxor k x `mod` 256 = Z.lxor k y `mod` 256 → x = y.
Proof.
  intros Hk Hx Hy H. assert (∀ z, byteOk z → Z.lxor k (Z.lxor k z `mod` 256) = z) as Hinv.
  { intros z Hz. assert (0 ≤ Z.lxor k z < 256) as Hr.
    { unfold byteOk in *. split; [by apply Z.lxor_nonneg; lia|].
      destruct (decide (Z.lxor k z = 0)) as [->|Hn]; [lia|]. change 256 with (2 ^ 8). apply Z.log2_lt_pow2; [pose proof (Z.lxor_nonneg k z); lia|].
      pose proof (Z.log2_lxor k z ltac:(lia) ltac:(lia)) as Hl.
      assert (∀ w, 0 ≤ w < 256 → Z.log2 w < 8) as Hlog.
      { intros w Hw. destruct (decide (w = 0)) as [->|]; [done|]. apply Z.log2_lt_pow2; simpl; lia. }
      pose proof (Hlog k Hk). pose proof (Hlog z Hz). lia. }
    rewrite Z.mod_small by done. by rewrite <-Z.lxor_assoc, Z.lxor_nilpotent, Z.lxor_0_l. }
  rewrite <-(Hinv x Hx), <-(Hinv y Hy). by rewrite H.
Qed.

Lemma length_keyBlock key : String.length (keyBlock key) = blockSize.
Proof.
  unfold keyBlock. rewrite length_string_app, length_of_bytes, length_replicate.
  destruct (Nat.ltb_spec blockSize (String.length key)); [by rewrite Sum256_length|]. lia.
Qed.

Lemma keyBlock_inj k k' : String.length k = String.length k' → (String.length k ≤ blockSize)%nat → keyBlock k = keyBlock k' → k = k'.
Proof.
  intros Hl Hb. unfold keyBlock. rewrite <-Hl. rewrite (proj2 (Nat.ltb_ge _ _)) by done. intros H.
  by apply app_inj_length in H as [? _].
Qed.

Lemma HMAC_length key msg : String.length (HMAC key msg) = 32%nat.
Proof. apply Sum256_length. Qed.

(** Two different byte strings with one digest. *)
Definition Collision (a b : string) : Prop := a ≠ b ∧ Sum256 a = Sum256 b.
(** The two places where equal codes can come from a collision. *)
Definition MacCollision (k m k' m' : string) : Prop :=
  Collision (outerText k m) (outerText k' m') ∨ Collision (innerText k m) (innerText k' m').

Lemma pad_inj p a b : byteOk p → mapBytes (Z.lxor p) a = mapBytes (Z.lxor p) b → a = b.
Proof. intros Hp. apply mapBytes_inj. intros x y Hx Hy. by apply lxor_byte_inj. Qed.

Lemma HMAC_binding k m k' m' :
  String.length k = 32%nat → String.length k' = 32%nat → HMAC k m = HMAC k' m' → (k = k' ∧ m = m') ∨ MacCollision k m k' m'.
Proof.
  intros Hk Hk' H. unfold MacCollision, Collision. destruct (decide (outerText k m = outerText k' m')) as [Ho|]; [|by auto].
  destruct (decide (innerText k m = innerText k' m')) as [Hi|].
  - left. apply app_inj_length in Hi as [Hb ->]; [|by rewrite !length_mapBytes, !length_keyBlock].
    split; [|done]. apply keyBlock_inj; [by rewrite Hk, Hk'|unfold blockSize; lia|]. by apply (pad_inj 54).
  - right. right. split; [done|]. apply app_inj_length in Ho as [_ Ho]; [done|]. by rewrite !length_mapBytes, !length_keyBlock.
Qed.
