(* ===== verification/AuthTokens.v ===== *)
(** * Session tokens, CSRF tokens, login envelopes and throttle digests
    (src/internal/auth/auth.go)

    Everything a browser presents before and after a login: the bearer token
    of a session, the CSRF tokens bound to a session or a login nonce and to
    the public origin, the short-lived login envelope, and the keyed digests
    throttle rows are filed under.  A map of keys is a [gmap]; a key that is
    not in the map reads as Go's nil slice.

    What [url.Parse] answers is a parameter: its grammar for hosts has changed
    between releases of the toolchain, and the theorems hold for any. *)
From S2P Require Import Prelude GoStd Base64 Token Route HealthGate Evidence Fold Password Hmac.
From Stdlib Require Import Ascii.
#[local] Open Scope Z_scope.
#[local] Open Scope res_scope.

(** ** Sessions *)

Definition sessionTokenPrefix : string := "v1.".
Definition NewSessionToken (randomness : string) : Result string :=
  let? raw := found (readFull 32 randomness) "generate session token" in
  inr (sessionTokenPrefix +:+ RawURLEncodeToString raw).
Definition ParseSessionToken (value : string) : Result string :=
  do? found (decodeToken value sessionTokenPrefix) "invalid session token" in inr value.
Definition SessionTokenDigest (token : string) : Result string :=
  let? raw := found (decodeToken token sessionTokenPrefix) "invalid session token" in
  inr (domainDigest "autodeploy/session-token/v1" raw).

Record SessionPolicy := { sp_IdleSeconds : Z; sp_AbsoluteSeconds : Z; sp_MaxActive : Z; sp_TouchIntervalSeconds : Z }.
#[global] Instance SessionPolicy_eq_dec : EqDecision SessionPolicy.
Proof. solve_decision. Defined.
Definition SessionIdleTimeout : Z := 30 * minute.
Definition SessionAbsoluteLife : Z := 480 * minute.
Definition MaxActiveSessions : Z := 10.
Definition SessionTouchInterval : Z := 5 * minute.
Definition DefaultSessionPolicy : SessionPolicy :=
  {| sp_IdleSeconds := SessionIdleTimeout / second; sp_AbsoluteSeconds := SessionAbsoluteLife / second;
     sp_MaxActive := MaxActiveSessions; sp_TouchIntervalSeconds := SessionTouchInterval / second |}.
Definition sessionPolicyValidate (p : SessionPolicy) : Result unit :=
  require (bool_decide (p = DefaultSessionPolicy)) "invalid session policy".

(** ** Key rings *)

Definition keyBytes (keys : gmap string string) (version : string) : string := default "" (keys !! version).
Definition isZeroKey (key : string) : bool := fold_left Z.lor (Sha256.bytes_of_string key) 0 =? 0.
(** Every rune outside the class has a byte outside it. *)
Definition validKeyVersion (v : string) : bool := (1 <=? slen v) && (slen v <=? 32) && forallBytes isIdByte v.
Definition validKey (v key : string) : bool := validKeyVersion v && (slen key =? 32) && negb (isZeroKey key).

Record CSRFKeyRing := { ck_ActiveVersion : string; ck_Keys : gmap string string }.
Definition csrfRingValidate (r : CSRFKeyRing) : Result unit :=
  do? require (validKeyVersion (ck_ActiveVersion r) && negb (Z.of_nat (size (ck_Keys r)) =? 0)
               && (Z.of_nat (size (ck_Keys r)) <=? 5) && (slen (keyBytes (ck_Keys r) (ck_ActiveVersion r)) =? 32)) "invalid CSRF key ring" in
  require (bool_decide (map_Forall (λ v key, validKey v key = true) (ck_Keys r))) "invalid CSRF key".

Record UsernameThrottleKeyRing := {
  uk_ActiveVersion : string; uk_Keys : gmap string string; uk_RetainedVersions : list string;
}.
Definition uk_versions (r : UsernameThrottleKeyRing) : list string := uk_ActiveVersion r :: uk_RetainedVersions r.
(** One error text for every refusal. *)
Definition usernameRingValidate (r : UsernameThrottleKeyRing) : Result unit :=
  let invalid := "invalid username throttle key ring" in
  do? require (validKeyVersion (uk_ActiveVersion r) && negb (Z.of_nat (size (uk_Keys r)) =? 0)
               && (Z.of_nat (size (uk_Keys r)) <=? 5) && (Z.of_nat (length (uk_RetainedVersions r)) <=? 4)) invalid in
  do? require (forallb (λ v, validKeyVersion v && (slen (keyBytes (uk_Keys r) v) =? 32)) (uk_versions r)
               && bool_decide (NoDup (uk_versions r))) invalid in
  do? require (Z.of_nat (length (uk_versions r)) =? Z.of_nat (size (uk_Keys r))) invalid in
  require (bool_decide (map_Forall (λ v key, validKey v key = true) (uk_Keys r))
           && bool_decide (NoDup (map_to_list (uk_Keys r)).*2)) invalid.

(** Written piece by piece by the source. *)
Definition usernameText (canonical : string) : string := "autodeploy/username-throttle/v1" +:+ nul +:+ canonical.
Definition UsernameDigests (r : UsernameThrottleKeyRing) (username : string) : Result (list string) :=
  do? usernameRingValidate r in
  do? require (match CanonicalUsername username with inr canonical => bool_decide (canonical = username) | inl _ => false end)
        "invalid canonical username" in
  inr ((λ version, HMAC (keyBytes (uk_Keys r) version) (usernameText username)) <$> uk_versions r).

(** ** Throttle digests *)

(** [binary.BigEndian.PutUint16(uint16(n))] *)
Definition putUint16 (n : Z) : string := Sha256.string_of_bytes (Sha256.bytesBE 2 (n `mod` 2 ^ 16)).
Fixpoint prefixedComponents (components : list string) : string :=
  match components with [] => "" | c :: cs => putUint16 (slen c) +:+ c +:+ prefixedComponents cs end.
Definition throttleText (domain : string) (components : list string) : string :=
  "autodeploy/throttle/v1" +:+ nul +:+ domain +:+ prefixedComponents components.
Definition ThrottleDigest (key domain : string) (components : list string) : Result string :=
  do? require (negb (negb (slen key =? 32) || isZeroKey key || (slen domain =? 0) || (64 <? slen domain)
                     || (Z.of_nat (length components) =? 0) || (3 <? Z.of_nat (length components)))) "invalid throttle digest input" in
  do? require (forallb (λ c, negb ((slen c =? 0) || (256 <? slen c))) components) "invalid throttle digest input" in
  inr (HMAC key (throttleText domain components)).

(** ** Origins *)

(** The fields of a [url.URL] the source reads. *)
Record OriginURL := {
  o_Scheme : string; o_Opaque : string; o_HasUser : bool; o_Host : string; o_Path : string; o_RawQuery : string;
  o_ForceQuery : bool; o_Fragment : string;
}.

(** The text before and after the last byte [b]. *)
Fixpoint cutLast (b : Z) (s : string) : option (string * string) :=
  match s with
  | EmptyString => None
  | String c r =>
      match cutLast b r with
      | Some (x, y) => Some (String c x, y)
      | None => if byte_of c =? b then Some ("", r) else None
      end
  end.
Definition unbracket (host : string) : string :=
  if HasPrefix host "[" && HasSuffix host "]" then takeBytes (String.length host - 2) (dropBytes 1 host) else host.
(** [u.Hostname()] and [u.Port()] *)
Definition splitHostPort (host : string) : string * string :=
  match cutLast 58 host with
  | Some (h, p) => if forallBytes isDigit p then (unbracket h, p) else (unbracket host, "")
  | None => (unbracket host, "")
  end.
Definition JoinHostPort (host port : string) : string :=
  if ContainsByte host 58 then "[" +:+ host +:+ "]:" +:+ port else host +:+ ":" +:+ port.

Section origins.
Context (urlParse : string → option OriginURL) (unicodeLower : string → string).

Definition CanonicalHTTPSOrigin (value : string) : Result string :=
  let invalid := "invalid HTTPS origin" in
  let? u := found (urlParse value) invalid in
  do? require (bool_decide (ToLower unicodeLower (o_Scheme u) = "https") && bool_decide (o_Opaque u = "")
               && negb (bool_decide (o_Host u = "")) && negb (o_HasUser u)
               && (bool_decide (o_Path u = "") || bool_decide (o_Path u = "/")) && bool_decide (o_RawQuery u = "")
               && negb (o_ForceQuery u) && bool_decide (o_Fragment u = "")) invalid in
  let host := ToLower unicodeLower (splitHostPort (o_Host u)).1 in
  do? require (negb (bool_decide (host = "") || ContainsByte host 37)) invalid in
  do? require (forallBytes ascii7 host) invalid in
  let port := (splitHostPort (o_Host u)).2 in
  do? require (negb (ContainsByte (o_Host u) 58 && bool_decide (port = "") && negb (HasSuffix (o_Host u) "]"))) invalid in
  let bracketed := if ContainsByte host 58 then "[" +:+ host +:+ "]" else host in
  if negb (bool_decide (port = "")) then
    let? parsed := found (ParseUint 16 port) invalid in
    do? require (negb (parsed =? 0)) invalid in
    inr ("https://" +:+ (if negb (parsed =? 443) then JoinHostPort host (FormatInt parsed) else bracketed))
  else inr ("https://" +:+ bracketed).

(** ** CSRF tokens *)

Definition csrfText (domain context origin : string) : string := domain +:+ nul +:+ context +:+ nul +:+ origin.
Definition csrfMAC (key domain context origin : string) : string := HMAC key (csrfText domain context origin).
Definition csrfToken (r : CSRFKeyRing) (domain context origin : string) : Result string :=
  do? csrfRingValidate r in
  let? origin := CanonicalHTTPSOrigin origin in
  inr ("v1." +:+ ck_ActiveVersion r +:+ "."
       +:+ RawURLEncodeToString (csrfMAC (keyBytes (ck_Keys r) (ck_ActiveVersion r)) domain context origin)).

(** The base64 text of [n] bytes, in its one canonical form. *)
Definition decodeCanonicalRawURL (s : string) : option string :=
  raw ← RawURLDecodeString s; if bool_decide (RawURLEncodeToString raw = s) then Some raw else None.
(** The shape [v1.version.text] both readers ask for. *)
Definition splitVersioned (token : string) (textBytes : Z) : option (string * string) :=
  match SplitByte "." token with
  | [p0; p1; p2] => if bool_decide (p0 = "v1") && validKeyVersion p1 && (slen p2 =? textBytes) then Some (p1, p2) else None
  | _ => None
  end.

Definition validateCSRF (r : CSRFKeyRing) (token domain context origin : string) : bool :=
  isOk (do? csrfRingValidate r in
        let? origin := CanonicalHTTPSOrigin origin in
        do? require (negb ((slen token <? 46) || (79 <? slen token))) "" in
        let? p := found (splitVersioned token 43) "" in
        let? key := found (ck_Keys r !! p.1) "" in
        let? got := found (decodeCanonicalRawURL p.2) "" in
        require (bool_decide (got = csrfMAC key domain context origin)) "").

Definition sessionCSRFDomain : string := "autodeploy/session-csrf/v1".
Definition loginCSRFDomain : string := "autodeploy/login-csrf/v1".
Definition NewSessionCSRF (r : CSRFKeyRing) (sessionID origin : string) : Result string :=
  do? require (negb (bool_decide (sessionID = ""))) "empty session ID" in csrfToken r sessionCSRFDomain sessionID origin.
Definition ValidateSessionCSRF (r : CSRFKeyRing) (token sessionID origin : string) : bool :=
  negb (bool_decide (sessionID = "")) && validateCSRF r token sessionCSRFDomain sessionID origin.

(** A [LoginNonce] is a string of 32 bytes. *)
Definition NewLoginNonce (randomness : string) : Result string := found (readFull 32 randomness) "unexpected EOF".
Definition ParseLoginNonce (value : string) : Result string :=
  let invalid := "invalid login nonce" in
  do? require (slen value =? 43) invalid in
  let? decoded := found (decodeCanonicalRawURL value) invalid in
  do? require (slen decoded =? 32) invalid in
  inr decoded.
Definition LoginNonceDigest (n : string) : string := domainDigest "autodeploy/login-nonce/v1" n.
Definition NewLoginCSRF (r : CSRFKeyRing) (nonce origin : string) : Result string := csrfToken r loginCSRFDomain nonce origin.
Definition ValidateLoginCSRF (r : CSRFKeyRing) (token nonce origin : string) : bool := validateCSRF r token loginCSRFDomain nonce origin.

(** ** Login envelopes *)

Definition LoginEnvelopeMaxAge : Z := 10 * minute.
Record LoginEnvelope := { le_Nonce : string; le_IssuedAt : Z }.

(** [t.Unix()], [time.Unix(s, 0)] (the internal seconds are an [int64] and
    wrap) and [t.Sub(u)] (saturating). *)
Definition unixToInternal : Z := 62135596800.
Definition wrap64 (x : Z) : Z := (x + 2 ^ 63) `mod` 2 ^ 64 - 2 ^ 63.
Definition Unix (t : Z) : Z := t / second - unixToInternal.
Definition timeUnix (s : Z) : Z := wrap64 (s + unixToInternal) * second.
Definition timeSub (t u : Z) : Z := Z.max (- 2 ^ 63) (Z.min (2 ^ 63 - 1) (t - u)).

Definition putUint64 (n : Z) : string := Sha256.string_of_bytes (Sha256.bytesBE 8 (n `mod` 2 ^ 64)).
(** [binary.BigEndian.Uint64] *)
Definition getUint64 (s : string) : Z := fold_left (λ n b, 256 * n + b) (Sha256.bytes_of_string s) 0.

Definition envelopeText (envelopeVersion keyVersion payload origin : string) : string :=
  "autodeploy/login-envelope/v1" +:+ nul +:+ envelopeVersion +:+ nul +:+ keyVersion +:+ nul
  +:+ takeBytes 8 payload +:+ nul +:+ takeBytes 32 (dropBytes 8 payload) +:+ nul +:+ origin.
Definition loginEnvelopeMAC (key envelopeVersion keyVersion payload origin : string) : string :=
  HMAC key (envelopeText envelopeVersion keyVersion payload origin).

Definition NewLoginEnvelope (r : CSRFKeyRing) (nonce : string) (issuedAt : Z) (origin : string) : Result string :=
  do? csrfRingValidate r in
  let? origin := CanonicalHTTPSOrigin origin in
  let issuedAt := truncate issuedAt second in
  do? require (negb (Unix issuedAt <? 0)) "invalid login envelope time" in
  let signed := putUint64 (Unix issuedAt) +:+ nonce in
  let mac := loginEnvelopeMAC (keyBytes (ck_Keys r) (ck_ActiveVersion r)) "v1" (ck_ActiveVersion r) signed origin in
  inr ("v1." +:+ ck_ActiveVersion r +:+ "." +:+ RawURLEncodeToString (signed +:+ mac)).

Definition ParseLoginEnvelope (r : CSRFKeyRing) (value : string) (now : Z) (origin : string) : Result LoginEnvelope :=
  let invalid := "invalid login envelope" in
  do? csrfRingValidate r in
  let? origin := CanonicalHTTPSOrigin origin in
  do? require (negb ((slen value <? 101) || (132 <? slen value))) invalid in
  let? p := found (splitVersioned value 96) invalid in
  let? key := found (ck_Keys r !! p.1) invalid in
  let? payload := found (decodeCanonicalRawURL p.2) invalid in
  do? require (slen payload =? 72) invalid in
  let issuedSeconds := getUint64 (takeBytes 8 payload) in
  do? require (negb (2 ^ 63 - 1 <? issuedSeconds)) invalid in
  let issuedAt := timeUnix issuedSeconds in
  do? require (bool_decide (dropBytes 40 payload = loginEnvelopeMAC key "v1" p.1 (takeBytes 40 payload) origin)
               && negb (now <? issuedAt) && negb (LoginEnvelopeMaxAge <? timeSub now issuedAt)) invalid in
  inr {| le_Nonce := takeBytes 32 (dropBytes 8 payload); le_IssuedAt := issuedAt |}.
End origins.
