(* ===== verification/AuthTokenProps.v ===== *)
(** * What a browser's tokens are worth

    A CSRF token is accepted for exactly the session or login nonce and the
    canonical origin it was minted for; a login envelope is accepted for ten
    minutes and carries exactly the nonce and the second it was signed with;
    throttle digests tell component sequences apart.  Each up to a SHA-256
    collision the statement names. *)
From S2P Require Import Prelude GoStd Base64 Token Queue Route HealthGate Evidence Fold Password Hmac AuthTokens.
From Stdlib Require Import Ascii.
#[local] Open Scope Z_scope.
#[local] Open Scope res_scope.

(** ** Big-endian integers *)

Lemma getUint64_put n : 0 ≤ n < 2 ^ 64 → getUint64 (putUint64 n) = n.
Proof.
  intros Hn. unfold getUint64, putUint64. rewrite Z.mod_small by done.
  assert (∀ k x, Forall byteOk (Sha256.bytesBE k x)) as Hok.
  { induction k as [|k IH]; intros x; simpl; constructor; [unfold byteOk; apply Z.mod_pos_bound; lia|done]. }
  rewrite bytes_string by done.
  assert (∀ k x acc, 0 ≤ x → fold_left (λ n b, 256 * n + b) (Sha256.bytesBE k x) acc = acc * 2 ^ (8 * Z.of_nat k) + x `mod` 2 ^ (8 * Z.of_nat k)) as Hf.
  { induction k as [|k IH]; intros x acc Hx; [simpl; rewrite Z.mod_1_r; lia|]. cbn [Sha256.bytesBE fold_left]. rewrite IH by done.
    replace (8 * Z.of_nat (S k)) with (8 * Z.of_nat k + 8) by lia. rewrite Z.pow_add_r by lia.
    set (p := 2 ^ (8 * Z.of_nat k)). assert (0 < p) by (apply Z.pow_pos_nonneg; lia). change (2 ^ 8) with 256.
    rewrite Z.rem_mul_r by lia. lia. }
  rewrite (Hf 8%nat n 0) by lia. change (8 * Z.of_nat 8) with 64. rewrite Z.mod_small by done. lia.
Qed.
Lemma slen_putUint64 n : slen (putUint64 n) = 8.
Proof. unfold slen, putUint64. by rewrite length_of_bytes. Qed.

Lemma putUint16_inj a b : 0 ≤ a < 2 ^ 16 → 0 ≤ b < 2 ^ 16 → putUint16 a = putUint16 b → a = b.
Proof.
  intros Ha Hb H. unfold putUint16 in H. rewrite !Z.mod_small in H by done. apply (f_equal Sha256.bytes_of_string) in H.
  assert (∀ x, Forall byteOk (Sha256.bytesBE 2 x)) as Hok by (intros x; repeat constructor; apply Z.mod_pos_bound; lia).
  rewrite !bytes_string in H by done. cbn [Sha256.bytesBE] in H. injection H as H1 H2.
  change (2 ^ (8 * Z.of_nat 1)) with 256 in H1. change (2 ^ (8 * Z.of_nat 0)) with 1 in H2. rewrite !Z.div_1_r in H2.
  change (2 ^ 16) with 65536 in *. rewrite !Z.mod_small in H1 by (Z.div_mod_to_equations; lia). Z.div_mod_to_equations. lia.
Qed.
Lemma length_putUint16 n : String.length (putUint16 n) = 2%nat.
Proof. unfold putUint16. by rewrite length_of_bytes. Qed.

(** ** The versioned texts *)

Definition tokenText (version raw : string) : string := "v1." +:+ version +:+ "." +:+ RawURLEncodeToString raw.

Lemma url_free s : free "." (RawURLEncodeToString s).
Proof. apply (free_forall "." isSafe); [done|]. apply (raw_safe urlAlphabet urlSextet). Qed.
Lemma version_free v : validKeyVersion v = true → free "." v.
Proof. unfold validKeyVersion. intros H. bool_hyps. by apply (free_forall "." isIdByte). Qed.
Lemma version_length v : validKeyVersion v = true → 1 ≤ slen v ≤ 32.
Proof. unfold validKeyVersion. intros H. bool_hyps. lia. Qed.

Lemma splitVersioned_text v raw n :
  splitVersioned (tokenText v raw) n = Some (v, RawURLEncodeToString raw) ↔ validKeyVersion v = true ∧ slen (RawURLEncodeToString raw) = n.
Proof.
  unfold splitVersioned. split.
  - pose proof (concat_SplitByte "." (tokenText v raw)) as E. destruct (SplitByte _ _) as [|p0 [|p1 [|p2 [|]]]]; try done.
    destruct (_ && _) eqn:Hb; [|done]. bool_hyps. intros [= -> ->]. done.
  - intros [Hv Hn]. replace (tokenText v raw) with (String.concat "." ["v1"; v; RawURLEncodeToString raw]).
    + rewrite SplitByte_concat; [|done|repeat (apply Forall_cons; split); [done|by apply version_free|apply url_free|constructor]].
      rewrite bool_decide_true, Hv, Hn, Z.eqb_refl by done. done.
    + reflexivity.
Qed.
Lemma splitVersioned_inv t n v x : splitVersioned t n = Some (v, x) →
  t = "v1." +:+ v +:+ "." +:+ x ∧ validKeyVersion v = true ∧ slen x = n.
Proof.
  unfold splitVersioned. pose proof (concat_SplitByte "." t) as E. destruct (SplitByte _ _) as [|p0 [|p1 [|p2 [|]]]]; try done.
  destruct (_ && _) eqn:Hb; [|done]. bool_hyps. intros [= -> ->]. subst p0. rewrite <-E. done.
Qed.
Lemma decodeCanonicalRawURL_exact s raw : decodeCanonicalRawURL s = Some raw ↔ s = RawURLEncodeToString raw.
Proof.
  unfold decodeCanonicalRawURL. split.
  - intros (x&_&H)%bind_Some. case_bool_decide; [|done]. congruence.
  - intros ->. rewrite RawURL_roundtrip. simpl. by rewrite bool_decide_true.
Qed.
Lemma slen_tokenText v raw : slen (tokenText v raw) = 4 + slen v + (4 * slen raw + 2) / 3.
Proof. unfold tokenText. rewrite !slen_app, RawURL_length. change (slen "v1.") with 3. change (slen ".") with 1. lia. Qed.
Lemma tokenText_inj v raw v' raw' : validKeyVersion v = true → validKeyVersion v' = true → tokenText v raw = tokenText v' raw' → v = v' ∧ raw = raw'.
Proof.
  intros Hv Hv' H. unfold tokenText in H. apply app_inj_l in H. apply (app_sep_inj ".") in H as [-> H]; [|by apply version_free..].
  split; [done|]. apply (f_equal RawURLDecodeString) in H. rewrite !RawURL_roundtrip in H. congruence.
Qed.

Lemma ring_keys r u v key : csrfRingValidate r = inr u → ck_Keys r !! v = Some key → validKeyVersion v = true ∧ String.length key = 32%nat.
Proof.
  unfold csrfRingValidate. intros H Hk. res_inv. bool_hyps. match goal with H : map_Forall _ _ |- _ => specialize (H _ _ Hk); simpl in H end.
  unfold validKey in *. bool_hyps. split; [done|]. unfold slen in *. lia.
Qed.
Lemma ring_active r u : csrfRingValidate r = inr u →
  ck_Keys r !! ck_ActiveVersion r = Some (keyBytes (ck_Keys r) (ck_ActiveVersion r)).
Proof.
  unfold csrfRingValidate, keyBytes. intros H. res_inv. bool_hyps. destruct (ck_Keys r !! _); [done|]. simpl in *. unfold slen in *. simpl in *. lia.
Qed.

(** ** CSRF tokens *)
Section csrf.
Context (urlParse : string → option OriginURL) (unicodeLower : string → string).
Notation origin_of := (CanonicalHTTPSOrigin urlParse unicodeLower).

Lemma csrfToken_exact r domain context o t : csrfToken urlParse unicodeLower r domain context o = inr t ↔
  csrfRingValidate r = inr tt ∧ ∃ origin key, origin_of o = inr origin ∧ ck_Keys r !! ck_ActiveVersion r = Some key ∧
    t = tokenText (ck_ActiveVersion r) (csrfMAC key domain context origin).
Proof.
  unfold csrfToken. split.
  - intros H. res_inv. match goal with H : csrfRingValidate r = inr ?u |- _ => destruct u; pose proof (ring_active r tt H) as Ha end.
    split; [done|]. simplify_eq. by eauto 10.
  - intros (Hr&origin&key&Ho&Hk&->). rewrite Hr, Ho. simpl. unfold keyBytes. by rewrite Hk.
Qed.

Lemma validateCSRF_exact r domain context o t : validateCSRF urlParse unicodeLower r t domain context o = true ↔
  csrfRingValidate r = inr tt ∧ ∃ origin version key, origin_of o = inr origin ∧ ck_Keys r !! version = Some key ∧
    t = tokenText version (csrfMAC key domain context origin).
Proof.
  assert (∀ k m, slen (RawURLEncodeToString (HMAC k m)) = 43) as Hl.
  { intros k m. rewrite RawURL_length. unfold slen. by rewrite HMAC_length. }
  unfold validateCSRF. rewrite isOk_inr. split.
  - intros [u H]. res_inv. match goal with H : csrfRingValidate r = inr ?u |- _ => destruct u end. split; [done|].
    match goal with H : splitVersioned _ _ = Some ?p |- _ => destruct p as [v x]; apply splitVersioned_inv in H as (->&?&?) end.
    simpl in *. match goal with H : decodeCanonicalRawURL _ = _ |- _ => apply decodeCanonicalRawURL_exact in H as -> end. bool_hyps. subst.
    eexists _, v, _. split_and!; [done|done|]. reflexivity.
  - intros (Hr&origin&v&key&Ho&Hk&->). exists tt. rewrite Hr, Ho. cbn [res_bind].
    destruct (ring_keys _ _ _ _ Hr Hk) as [Hv _]. pose proof (version_length v Hv).
    assert (slen (csrfMAC key domain context origin) = 32) as H32 by (unfold slen, csrfMAC; by rewrite HMAC_length).
    rewrite slen_tokenText, H32. assert ((4 + slen v + (4 * 32 + 2) / 3 <? 46) || (79 <? 4 + slen v + (4 * 32 + 2) / 3) = false) as ->
      by (change ((4 * 32 + 2) / 3) with 43; rewrite orb_false_iff, !Z.ltb_ge; lia).
    cbn [negb require res_bind]. rewrite (proj2 (splitVersioned_text v _ 43)) by (split; [done|apply Hl]). cbn [found res_bind fst snd].
    rewrite Hk. cbn [found res_bind]. rewrite (proj2 (decodeCanonicalRawURL_exact _ _)) by done. cbn [found res_bind]. by rewrite bool_decide_true.
Qed.

(** What a token is minted for. *)
Inductive Subject := SessionSubject (id : string) | LoginSubject (nonce : string).
(** A session id comes from a text column, which holds no NUL; a nonce is an
    array of 32 bytes. *)
Definition subjectOk (s : Subject) : Prop :=
  match s with SessionSubject id => ContainsByte id 0 = false ∧ id ≠ "" | LoginSubject n => slen n = 32 end.
Definition subjectText (s : Subject) (origin : string) : string :=
  match s with SessionSubject id => csrfText sessionCSRFDomain id origin | LoginSubject n => csrfText loginCSRFDomain n origin end.
Definition newCSRF (r : CSRFKeyRing) (s : Subject) (o : string) : Result string :=
  match s with SessionSubject id => NewSessionCSRF urlParse unicodeLower r id o | LoginSubject n => NewLoginCSRF urlParse unicodeLower r n o end.
Definition acceptsCSRF (r : CSRFKeyRing) (t : string) (s : Subject) (o : string) : bool :=
  match s with
  | SessionSubject id => ValidateSessionCSRF urlParse unicodeLower r t id o
  | LoginSubject n => ValidateLoginCSRF urlParse unicodeLower r t n o
  end.

Lemma newCSRF_exact r s o t : subjectOk s → newCSRF r s o = inr t ↔
  csrfRingValidate r = inr tt ∧ ∃ origin key, origin_of o = inr origin ∧ ck_Keys r !! ck_ActiveVersion r = Some key ∧
    t = tokenText (ck_ActiveVersion r) (HMAC key (subjectText s origin)).
Proof.
  destruct s as [id|n]; simpl; [intros [_ Hid]|intros _; apply csrfToken_exact].
  unfold NewSessionCSRF. rewrite bool_decide_false by done. cbn [negb require res_bind]. apply csrfToken_exact.
Qed.
Lemma acceptsCSRF_exact r s o t : subjectOk s → acceptsCSRF r t s o = true ↔
  csrfRingValidate r = inr tt ∧ ∃ origin version key, origin_of o = inr origin ∧ ck_Keys r !! version = Some key ∧
    t = tokenText version (HMAC key (subjectText s origin)).
Proof.
  destruct s as [id|n]; simpl; [intros [_ Hid]|intros _; apply validateCSRF_exact].
  unfold ValidateSessionCSRF. rewrite bool_decide_false by done. cbn [negb andb]. apply validateCSRF_exact.
Qed.

Lemma subjectText_inj s s' o o' : subjectOk s → subjectOk s' → subjectText s o = subjectText s' o' → s = s' ∧ o = o'.
Proof.
  assert (∀ d c x, csrfText d c x = d +:+ String "000"%char (c +:+ String "000"%char x)) as Ht by done.
  destruct s as [a|a], s' as [b|b]; simpl; rewrite !Ht; intros Hs Hs' H; apply (app_sep_inj "000") in H as [? H]; try done.
  - destruct Hs as [Hs _], Hs' as [Hs' _]. by apply (app_sep_inj "000") in H as [-> ->].
  - apply app_inj_length in H as [-> H]; [|unfold slen in *; lia]. by injection H as ->.
Qed.

(** C35: A CSRF token is worth what it was minted for and nothing else. A token minted for a session or for a login
    nonce at an origin is accepted there, under the same key ring; and any ring that accepts it for some session or nonce
    at some origin accepts it for the very same subject and the same canonical origin, a login token never passing as a
    session token, unless two byte strings with one SHA-256 digest appear in the two codes. *)
Theorem csrf_token_bound r s o t : subjectOk s → newCSRF r s o = inr t →
  acceptsCSRF r t s o = true ∧
  ∀ r' s' o', subjectOk s' → acceptsCSRF r' t s' o' = true →
    (s' = s ∧ origin_of o' = origin_of o) ∨
    ∃ version key key' origin origin', ck_Keys r !! version = Some key ∧ ck_Keys r' !! version = Some key' ∧
      origin_of o = inr origin ∧ origin_of o' = inr origin' ∧
      MacCollision key (subjectText s origin) key' (subjectText s' origin').
Proof.
  intros Hs (Hr&origin&key&Ho&Hk&->)%newCSRF_exact; [|done]. split; [apply acceptsCSRF_exact; eauto 10|].
  intros r' s' o' Hs' (Hr'&origin'&v&key'&Ho'&Hk'&E)%acceptsCSRF_exact; [|done].
  destruct (ring_keys _ _ _ _ Hr Hk) as [Hv Hl]. destruct (ring_keys _ _ _ _ Hr' Hk') as [Hv' Hl'].
  apply tokenText_inj in E as [Ev E]; [|done..].
  destruct (HMAC_binding _ _ _ _ Hl Hl' E) as [[-> Em]|Hc].
  - left. apply subjectText_inj in Em as [-> ->]; [|done..]. by rewrite Ho, Ho'.
  - right. exists v, key, key', origin, origin'. subst v. done.
Qed.

(** ** Login envelopes *)

Definition signedBytes (secs : Z) (nonce : string) : string := putUint64 secs +:+ nonce.
Definition envelopePayload (key version : string) (secs : Z) (nonce origin : string) : string :=
  signedBytes secs nonce +:+ loginEnvelopeMAC key "v1" version (signedBytes secs nonce) origin.

Lemma takeBytes_slen a b n : slen a = n → takeBytes (Z.to_nat n) (a +:+ b) = a.
Proof. intros <-. unfold slen. rewrite Nat2Z.id. apply takeBytes_app. Qed.
Lemma dropBytes_slen a b n : slen a = n → dropBytes (Z.to_nat n) (a +:+ b) = b.
Proof. intros <-. unfold slen. rewrite Nat2Z.id. apply dropBytes_app. Qed.

Lemma slen_signed secs nonce : slen nonce = 32 → slen (signedBytes secs nonce) = 40.
Proof. intros Hn. unfold signedBytes. by rewrite slen_app, slen_putUint64, Hn. Qed.
Lemma payload_fields key v secs nonce origin : 0 ≤ secs < 2 ^ 64 → slen nonce = 32 →
  let p := envelopePayload key v secs nonce origin in
  slen p = 72 ∧ getUint64 (takeBytes 8 p) = secs ∧ takeBytes 32 (dropBytes 8 p) = nonce ∧
  takeBytes 40 p = signedBytes secs nonce ∧ dropBytes 40 p = loginEnvelopeMAC key "v1" v (signedBytes secs nonce) origin.
Proof.
  intros Hs Hn p. pose proof (slen_signed secs nonce Hn) as H40.
  assert (p = putUint64 secs +:+ nonce +:+ loginEnvelopeMAC key "v1" v (signedBytes secs nonce) origin) as Ep
    by (unfold p, envelopePayload, signedBytes; by rewrite string_app_assoc).
  split_and!.
  - unfold p, envelopePayload. rewrite slen_app, H40. unfold slen, loginEnvelopeMAC. by rewrite HMAC_length.
  - rewrite Ep, (takeBytes_slen (putUint64 secs) _ 8) by apply slen_putUint64. by apply getUint64_put.
  - rewrite Ep, (dropBytes_slen (putUint64 secs) _ 8) by apply slen_putUint64. by apply (takeBytes_slen nonce _ 32).
  - by apply (takeBytes_slen (signedBytes secs nonce) _ 40).
  - by apply (dropBytes_slen (signedBytes secs nonce) _ 40).
Qed.

Lemma timeUnix_Unix t : 0 ≤ Unix (truncate t second) → t / second < 2 ^ 63 →
  timeUnix (Unix (truncate t second)) = truncate t second ∧ 0 ≤ Unix (truncate t second) < 2 ^ 63.
Proof.
  intros H0 Ht. assert (truncate t second = second * (t / second)) as E
    by (unfold truncate; pose proof (Z.div_mod t second ltac:(done)); lia).
  assert (truncate t second / second = t / second) as Ed by (rewrite E, Z.mul_comm; by apply Z.div_mul).
  unfold timeUnix, Unix in *. rewrite Ed in *. unfold unixToInternal in *. split; [|lia].
  replace (t / second - 62135596800 + 62135596800) with (t / second) by lia. rewrite E. unfold wrap64.
  rewrite Z.mod_small by lia. lia.
Qed.

Lemma newEnvelope_exact r nonce t o value : NewLoginEnvelope urlParse unicodeLower r nonce t o = inr value ↔
  csrfRingValidate r = inr tt ∧ 0 ≤ Unix (truncate t second) ∧ ∃ origin key, origin_of o = inr origin ∧
    ck_Keys r !! ck_ActiveVersion r = Some key ∧
    value = tokenText (ck_ActiveVersion r) (envelopePayload key (ck_ActiveVersion r) (Unix (truncate t second)) nonce origin).
Proof.
  unfold NewLoginEnvelope. split.
  - intros H. res_inv. match goal with H : csrfRingValidate r = inr ?u |- _ => destruct u; pose proof (ring_active r tt H) as Ha end.
    bool_hyps. split; [done|]. split; [done|]. simplify_eq. by eauto 10.
  - intros (Hr&H0&origin&key&Ho&Hk&->). rewrite Hr, Ho. cbn [res_bind]. rewrite (proj2 (Z.ltb_ge _ _) H0). cbn [negb require res_bind].
    unfold keyBytes. by rewrite Hk.
Qed.

(** The instants at which an envelope signed at [issued] is accepted. *)
Definition fresh (issued now : Z) : Prop := issued ≤ now ≤ issued + LoginEnvelopeMaxAge.
#[global] Instance fresh_dec issued now : Decision (fresh issued now).
Proof. unfold fresh. apply _. Defined.
Lemma fresh_check issued now : negb (now <? issued) && negb (LoginEnvelopeMaxAge <? timeSub now issued) = bool_decide (fresh issued now).
Proof.
  apply eq_true_iff_eq. rewrite bool_decide_eq_true, andb_true_iff, !negb_true_iff, !Z.ltb_ge. unfold fresh, timeSub, LoginEnvelopeMaxAge, minute, second.
  lia.
Qed.

(** What a signed payload parses to. *)
Lemma parse_minted r now o origin v key :
  csrfRingValidate r = inr tt → origin_of o = inr origin → ck_Keys r !! v = Some key → ∀ kv ko ksecs knonce, slen knonce = 32 → 0 ≤ ksecs < 2 ^ 63 → ∀ key', String.length key' = 32%nat →
  let value := tokenText v (envelopePayload key' kv ksecs knonce ko) in
  ParseLoginEnvelope urlParse unicodeLower r value now o =
    if bool_decide (loginEnvelopeMAC key' "v1" kv (signedBytes ksecs knonce) ko = loginEnvelopeMAC key "v1" v (signedBytes ksecs knonce) origin)
       && bool_decide (fresh (timeUnix ksecs) now)
    then inr {| le_Nonce := knonce; le_IssuedAt := timeUnix ksecs |} else inl "invalid login envelope".
Proof.
  intros Hr Ho Hk kv ko ksecs knonce Hkn Hks key' Hkl value. destruct (ring_keys _ _ _ _ Hr Hk) as [Hv _].
  pose proof (version_length v Hv) as Hvl. set (p := envelopePayload key' kv ksecs knonce ko) in *.
  destruct (payload_fields key' kv ksecs knonce ko) as (H72&Hsecs&Hnonce&H40&Hmac); [lia|done|]. fold p in H72, Hsecs, Hnonce, H40, Hmac.
  unfold ParseLoginEnvelope, value. rewrite Hr, Ho. cbn [res_bind]. rewrite slen_tokenText, H72. change ((4 * 72 + 2) / 3) with 96.
  assert ((4 + slen v + 96 <? 101) || (132 <? 4 + slen v + 96) = false) as -> by (rewrite orb_false_iff, !Z.ltb_ge; lia).
  cbn [negb require res_bind]. rewrite (proj2 (splitVersioned_text v p 96)); [|split; [done|by rewrite RawURL_length, H72]].
  cbn [found res_bind fst snd]. rewrite Hk. cbn [found res_bind]. rewrite (proj2 (decodeCanonicalRawURL_exact _ p)) by done.
  cbn [found res_bind]. rewrite H72, Z.eqb_refl. cbn [require res_bind]. rewrite Hsecs, H40, Hmac, Hnonce.
  rewrite (proj2 (Z.ltb_ge (2 ^ 63 - 1) ksecs)) by lia. cbn [negb require res_bind]. rewrite <-andb_assoc, fresh_check.
  by destruct (bool_decide _ && bool_decide _).
Qed.

Lemma envelopeText_inj v secs n o v' o' : validKeyVersion v = true → validKeyVersion v' = true → slen n = 32 →
  envelopeText "v1" v (signedBytes secs n) o = envelopeText "v1" v' (signedBytes secs n) o' → v = v' ∧ o = o'.
Proof.
  intros Hv Hv' Hn H. unfold envelopeText in H. do 4 (apply app_inj_l in H).
  assert (∀ x, validKeyVersion x = true → ContainsByte x (byte_of "000") = false) as Hfree
    by (intros x Hx; apply (free_forall "000" isIdByte); [done|]; unfold validKeyVersion in Hx; by bool_hyps).
  apply (app_sep_inj "000") in H as [-> H]; [|by apply Hfree..]. split; [done|].
  by do 4 (apply app_inj_l in H).
Qed.

(** C36: A login envelope lives ten minutes and carries exactly what was signed. The envelope minted for a nonce at an
    instant parses, under the same ring and origin, to that nonce and that second from then on for ten minutes and is refused
    before and after; and whatever ring and origin accept it at whatever time, they read the same nonce and second, within
    the same ten minutes and for the same canonical origin, up to a collision. *)
Theorem login_envelope_bound r nonce t o value :
  slen nonce = 32 → t / second < 2 ^ 63 → NewLoginEnvelope urlParse unicodeLower r nonce t o = inr value →
  let signed := {| le_Nonce := nonce; le_IssuedAt := truncate t second |} in
  (∀ now, ParseLoginEnvelope urlParse unicodeLower r value now o =
     if bool_decide (fresh (truncate t second) now) then inr signed else inl "invalid login envelope") ∧
  ∀ r' now o' e, ParseLoginEnvelope urlParse unicodeLower r' value now o' = inr e →
    e = signed ∧ fresh (truncate t second) now ∧
    (origin_of o' = origin_of o ∨
     ∃ version key key' origin origin' payload, ck_Keys r !! version = Some key ∧ ck_Keys r' !! version = Some key' ∧
       origin_of o = inr origin ∧ origin_of o' = inr origin' ∧
       MacCollision key (envelopeText "v1" version payload origin) key' (envelopeText "v1" version payload origin')).
Proof.
  intros Hn Ht (Hr&H0&origin&key&Ho&Hk&->)%newEnvelope_exact signed. destruct (timeUnix_Unix t H0 Ht) as [Et Hs].
  set (v := ck_ActiveVersion r) in *. set (secs := Unix (truncate t second)) in *. destruct (ring_keys _ _ _ _ Hr Hk) as [Hv Hl]. split.
  - intros now. rewrite (parse_minted r now o origin v key) by done. by rewrite bool_decide_true, Et by done.
  - intros r' now o' e H. pose proof H as Hp. unfold ParseLoginEnvelope in H. res_inv.
    match goal with H : csrfRingValidate r' = inr ?u |- _ => destruct u; rename H into Hr' end.
    match goal with H : origin_of o' = inr ?x |- _ => rename H into Ho'; rename x into origin' end.
    match goal with H : splitVersioned _ _ = Some ?p |- _ => destruct p as [v' x]; rename H into Hsp end.
    match goal with H : ck_Keys r' !! _ = Some ?k |- _ => rename H into Hk'; rename k into key' end. simpl in Hk'.
    pose proof (ring_keys _ _ _ _ Hr' Hk') as [Hv' Hl'].
    assert (v' = v) as ->.
    { rewrite (proj2 (splitVersioned_text v _ 96)) in Hsp; [by injection Hsp|]. split; [done|].
      pose proof (proj1 (payload_fields key v secs nonce origin ltac:(lia) Hn)) as H72. by rewrite RawURL_length, H72. }
    rewrite (parse_minted r' now o' origin' v key') in Hp by done.
    destruct (_ && _) eqn:Hb in Hp; [|done]. apply andb_true_iff in Hb as [Hm%bool_decide_eq_true Hf%bool_decide_eq_true].
    rewrite Et in *. injection Hp as <-. split; [done|]. split; [done|].
    destruct (HMAC_binding _ _ _ _ Hl Hl' Hm) as [[-> Em]|Hc].
    + left. apply envelopeText_inj in Em as [_ ->]; [|done..]. by rewrite Ho, Ho'.
    + right. by exists v, key, key', origin, origin', (signedBytes secs nonce).
Qed.
End csrf.

(** ** Throttle digests *)

Lemma prefixedComponents_inj cs cs' :
  Forall (λ c, slen c ≤ 256) cs → Forall (λ c, slen c ≤ 256) cs' → prefixedComponents cs = prefixedComponents cs' → cs = cs'.
Proof.
  intros H. revert cs'. induction H as [|c cs Hc Hcs IH]; intros [|c' cs'] H'; simpl; try done.
  apply Forall_cons in H' as [Hc' Hcs']. intros E. apply app_inj_length in E as [E1 E]; [|by rewrite !length_putUint16].
  pose proof (slen_nonneg c). pose proof (slen_nonneg c'). apply putUint16_inj in E1; [|lia..].
  apply app_inj_length in E as [-> E]; [|unfold slen in E1; lia]. f_equal. by apply IH.
Qed.

(** Throttle rows of different clients are different rows. Within one domain the digest of a sequence of
    components (an address, an address and a user name) determines the key and every component, whatever bytes they
    hold and however they are cut, up to a collision. *)
Theorem throttle_digest_exact key key' domain cs cs' d :
  ThrottleDigest key domain cs = inr d → ThrottleDigest key' domain cs' = inr d →
  (key = key' ∧ cs = cs') ∨ MacCollision key (throttleText domain cs) key' (throttleText domain cs').
Proof.
  assert (∀ k c d, ThrottleDigest k domain c = inr d → String.length k = 32%nat ∧ Forall (λ x, slen x ≤ 256) c ∧ d = HMAC k (throttleText domain c)) as Hex.
  { intros k c x H. unfold ThrottleDigest in H. res_inv. bool_hyps. simplify_eq. split; [unfold slen in *; lia|]. split; [|done].
    match goal with H : forallb _ _ = true |- _ => rename H into Hall end. rewrite forallb_forall in Hall.
    apply Forall_forall. intros y Hy%list_elem_of_In. specialize (Hall y Hy). simpl in Hall. by bool_hyps. }
  intros (Hl&Hc&->)%Hex (Hl'&Hc'&E)%Hex. destruct (HMAC_binding _ _ _ _ Hl Hl' E) as [[-> Em]|]; [|by right].
  left. split; [done|]. apply prefixedComponents_inj; [done..|]. unfold throttleText in Em. by do 3 (apply app_inj_l in Em).
Qed.

(** ** Instances *)

(** A parser of the plain form [https://host]. *)
Definition plainParse (s : string) : option OriginURL :=
  if HasPrefix s "https://"
  then Some {| o_Scheme := "https"; o_Opaque := ""; o_HasUser := false; o_Host := dropBytes 8 s; o_Path := ""; o_RawQuery := "";
               o_ForceQuery := false; o_Fragment := "" |}
  else None.
Definition exampleRing : CSRFKeyRing :=
  {| ck_ActiveVersion := "k1"; ck_Keys := {["k1" := "0123456789abcdef0123456789abcdef"]} |}.

Example canonical_origin : CanonicalHTTPSOrigin plainParse id "https://Console.Example:8443" = inr "https://console.example:8443" ∧
  CanonicalHTTPSOrigin plainParse id "https://console.example:443" = inr "https://console.example" ∧
  CanonicalHTTPSOrigin plainParse id "https://[::1]" = inr "https://[::1]" ∧
  CanonicalHTTPSOrigin plainParse id "https://console.example:0" = inl "invalid HTTPS origin".
Proof. split_and!; reflexivity. Qed.

(** A host that holds U+212A (the Kelvin sign) is lowered before the check
    for non-ASCII bytes, so it passes as its ASCII look-alike. *)
Example kelvin_origin :
  let kelvin := Sha256.string_of_bytes [226; 132; 170] in
  CanonicalHTTPSOrigin plainParse (λ r, if bool_decide (r = kelvin) then "k" else r) ("https://" +:+ kelvin +:+ "ube.example")
  = inr "https://kube.example".
Proof. reflexivity. Qed.

Lemma csrf_token_bound_witness :
  ∃ t, newCSRF plainParse id exampleRing (SessionSubject "session-1") "https://console.example" = inr t ∧
       acceptsCSRF plainParse id exampleRing t (SessionSubject "session-1") "https://console.example" = true.
Proof.
  eexists. split; [vm_compute; reflexivity|].
  apply (csrf_token_bound plainParse id exampleRing (SessionSubject "session-1") "https://console.example"); [by split|vm_compute; reflexivity].
Defined.

Lemma login_envelope_bound_witness :
  ∃ value, NewLoginEnvelope plainParse id exampleRing "0123456789abcdef0123456789abcdef" (63900000000 * second + 5) "https://console.example" = inr value ∧
    ParseLoginEnvelope plainParse id exampleRing value (63900000600 * second) "https://console.example"
    = inr {| le_Nonce := "0123456789abcdef0123456789abcdef"; le_IssuedAt := 63900000000 * second |} ∧
    ParseLoginEnvelope plainParse id exampleRing value (63900000600 * second + 1) "https://console.example" = inl "invalid login envelope".
Proof.
  eexists. split; [vm_compute; reflexivity|]. split.
  - rewrite (proj1 (login_envelope_bound plainParse id exampleRing "0123456789abcdef0123456789abcdef" (63900000000 * second + 5)
      "https://console.example" _ eq_refl eq_refl ltac:(vm_compute; reflexivity))). reflexivity.
  - rewrite (proj1 (login_envelope_bound plainParse id exampleRing "0123456789abcdef0123456789abcdef" (63900000000 * second + 5)
      "https://console.example" _ eq_refl eq_refl ltac:(vm_compute; reflexivity))). reflexivity.
Defined.

Lemma throttle_digest_exact_witness :
  ∃ d, ThrottleDigest "0123456789abcdef0123456789abcdef" "ip" ["192.0.2.1"] = inr d ∧
       ("0123456789abcdef0123456789abcdef" = "0123456789abcdef0123456789abcdef" ∧ ["192.0.2.1"] = ["192.0.2.1"] ∨
        MacCollision "0123456789abcdef0123456789abcdef" (throttleText "ip" ["192.0.2.1"])
          "0123456789abcdef0123456789abcdef" (throttleText "ip" ["192.0.2.1"])).
Proof.
  eexists. split; [vm_compute; reflexivity|]. eapply throttle_digest_exact; vm_compute; reflexivity.
Defined.
