(* ===== verification/AuthStore.v ===== *)
(** * The authentication repository: state (src/internal/store/postgres/
    auth_repository.go; migrations 000002, 000003 and 000006)

    The tables, their CHECKs, unique and foreign keys, and the statements on
    them.  [clock_timestamp()] of the [n]th statement of a call is [clock n],
    an argument of the call: nothing is assumed of the server's clock, so a
    row written at an earlier reading can fail the CHECKs that order its
    instants.  The advisory lock of the throttle tables and the user-then-
    session row locks make the transactions that touch the same rows serial;
    each is one body of [Prelude]'s monad. *)
From S2P Require Import Prelude GoStd Base64 Token Route Regex HealthGate Schema Evidence LeaseCore Password Hmac AuthTokens.
From Stdlib Require Import Ascii.
From stdpp Require Import sorting.
#[local] Open Scope Z_scope.

(** ** Errors *)

Inductive AuthErr :=
  | AErrNotFound | AErrRevisionOverflow | AErrAlreadyBootstrapped | AErrUnauthenticated | AErrSessionRevoked
  | AErr (text : string)      (* [errors.New], or the text before a wrapped error *)
  | AErrPg (e : PgError)
  | AErrEncoding              (* 22021: a text parameter that is not UTF-8 or holds a NUL *)
  | AErrRange.                (* 22003: an integer outside its column's type *)

Definition checked {S A} (r : Result A) : Tx S AuthErr A := match r with inl e => tx_fail (AErr e) | inr a => tx_ret a end.
Definition assume {S} (ok : bool) (text : string) : Tx S AuthErr unit := tx_guard ok (AErr text).

(** ** Rows *)

Record Installation := { in_owner : string; in_policy : Argon2Policy; in_bootstrapped_at : Z }.
(** users; [role] is ['owner'] by its CHECK. *)
Record UserRow := {
  us_owner : string; us_username : string; us_phc : string; us_policy_revision : Z; us_auth_revision : Z;
  us_active : bool; us_created : Z; us_updated : Z;
}.
Inductive RevokedReason := RevokedLogout | RevokedSessionLimit | RevokedPasswordReset.
#[global] Instance RevokedReason_eq_dec : EqDecision RevokedReason.
Proof. solve_decision. Defined.
Record AdminSession := {
  as_digest : string; as_user : string; as_owner : string; as_auth_revision : Z; as_created : Z; as_last_seen : Z;
  as_idle : Z; as_absolute : Z; as_revoked : option (Z * RevokedReason);
}.
(** kind, key version, digest, window. *)
Definition BucketKey : Type := string * string * string * Z.
Record BucketRow := {
  bk_attempts : Z; bk_failures : Z; bk_blocked : option Z; bk_recovery : option string; bk_created : Z; bk_updated : Z;
}.
Record UsernameRow := { un_failures : Z; un_blocked : option Z; un_updated : Z }.
Inductive AuthAction := ActBootstrap | ActLoginSuccess | ActLogout | ActSessionRevoked | ActPasswordReset.
Record AuthAuditRow := { aa_actor : string; aa_owner : string; aa_action : AuthAction; aa_at : Z }.

Record AuthDB := {
  ad_owners : gset string;
  ad_install : option Installation;             (* row 1; its columns are all null or all set *)
  ad_users : gmap string UserRow;
  ad_sessions : gmap string AdminSession;
  ad_buckets : gmap BucketKey BucketRow;
  ad_usernames : gmap (string * string) UsernameRow;
  ad_max_rows : option Z;                       (* auth_throttle_state *)
  ad_audit : gmap string AuthAuditRow;
  ad_referenced : gset string;                  (* sessions other tables hold a foreign key to *)
}.
Definition emptyAuthDB : AuthDB := Build_AuthDB ∅ None ∅ ∅ ∅ ∅ None ∅ ∅.
Definition set_owners x d := Build_AuthDB x (ad_install d) (ad_users d) (ad_sessions d) (ad_buckets d) (ad_usernames d) (ad_max_rows d) (ad_audit d) (ad_referenced d).
Definition set_install x d := Build_AuthDB (ad_owners d) x (ad_users d) (ad_sessions d) (ad_buckets d) (ad_usernames d) (ad_max_rows d) (ad_audit d) (ad_referenced d).
Definition set_users x d := Build_AuthDB (ad_owners d) (ad_install d) x (ad_sessions d) (ad_buckets d) (ad_usernames d) (ad_max_rows d) (ad_audit d) (ad_referenced d).
Definition set_sessions x d := Build_AuthDB (ad_owners d) (ad_install d) (ad_users d) x (ad_buckets d) (ad_usernames d) (ad_max_rows d) (ad_audit d) (ad_referenced d).
Definition set_throttles x y d := Build_AuthDB (ad_owners d) (ad_install d) (ad_users d) (ad_sessions d) x y (ad_max_rows d) (ad_audit d) (ad_referenced d).
Definition set_max_rows x d := Build_AuthDB (ad_owners d) (ad_install d) (ad_users d) (ad_sessions d) (ad_buckets d) (ad_usernames d) x (ad_audit d) (ad_referenced d).
Definition set_audit x d := Build_AuthDB (ad_owners d) (ad_install d) (ad_users d) (ad_sessions d) (ad_buckets d) (ad_usernames d) (ad_max_rows d) x (ad_referenced d).
Definition set_referenced x d := Build_AuthDB (ad_owners d) (ad_install d) (ad_users d) (ad_sessions d) (ad_buckets d) (ad_usernames d) (ad_max_rows d) (ad_audit d) x.

Definition AuthTx (A : Type) : Type := Tx AuthDB AuthErr A.
Definition violated {A} (e : PgError) : AuthTx A := tx_fail (AErrPg e).

(** ** Values *)

(** [int64(x)] of a [uint64] *)
Definition int64 (x : Z) : Z := if x <? 2 ^ 63 then x else x - 2 ^ 64.
Definition sqlText (s : string) : bool := ValidString s && negb (ContainsByte s 0).
Definition text_param (s : string) : AuthTx unit := tx_guard (sqlText s) AErrEncoding.
Definition octet_length (lo hi : Z) (s : string) : bool := (lo <=? slen s) && (slen s <=? hi).
Definition zeroDigest : string := Sha256.string_of_bytes (replicate 32 0).
Definition quarter : Z := 15 * minute.

(** ** CHECK constraints *)

Definition user_check (id : string) (u : UserRow) : bool :=
  octet_length 1 128 id && MatchString usernamePattern (us_username u) && octet_length 68 128 (us_phc u)
  && (0 <? us_policy_revision u) && (0 <? us_auth_revision u) && (us_created u <=? us_updated u).
Definition install_check (i : Installation) : bool :=
  (0 <? pol_Revision (in_policy i)) && (19456 <=? pol_MemoryKiB (in_policy i)) && (pol_MemoryKiB (in_policy i) <=? 65536)
  && (2 <=? pol_Iterations (in_policy i)) && (pol_Iterations (in_policy i) <=? 5) && (pol_Lanes (in_policy i) =? 1).
Definition session_check (id : string) (s : AdminSession) : bool :=
  octet_length 1 128 id && (slen (as_digest s) =? 32) && (0 <? as_auth_revision s)
  && (as_created s <=? as_last_seen s) && (as_last_seen s <=? as_idle s) && (as_idle s <=? as_absolute s)
  && match as_revoked s with Some (at_, _) => as_created s <=? at_ | None => true end.
Definition bucketKinds : list string := ["pair"; "ip"; "invalid_forward"; "pair_overflow"; "ip_overflow"; "invalid_forward_overflow"].
Definition bucket_check (k : BucketKey) (b : BucketRow) : bool :=
  let '(kind, version, digest, window) := k in
  bool_decide (kind ∈ bucketKinds) && octet_length 1 32 version && (slen digest =? 32)
  && (0 <=? bk_attempts b) && (0 <=? bk_failures b) && (bk_failures b <=? bk_attempts b)
  && (window `mod` quarter =? 0) && (bk_created b <=? bk_updated b)
  && match bk_blocked b with Some x => (bk_created b <=? x) && (x <=? bk_created b + quarter) | None => true end
  && (bool_decide (kind = "pair") || negb (isSomeb (bk_recovery b))).
Definition username_check (k : string * string) (u : UsernameRow) : bool :=
  octet_length 1 32 k.1 && (slen k.2 =? 32) && (0 <=? un_failures u) && (un_failures u <=? 15)
  && bool_decide (k.1 = "overflow" ↔ k.2 = zeroDigest)
  && match un_blocked u with Some x => (un_updated u <=? x) && (x <=? un_updated u + quarter) | None => true end.
Definition audit_check (id : string) : bool := octet_length 1 128 id.

(** ** Statements *)

Definition insert_owner (id : string) : AuthTx unit := λ d,
  if negb (octet_length 1 128 id) then violated PgCheckViolation d
  else if bool_decide (id ∈ ad_owners d) then violated PgUniqueViolation d
  else inr (tt, set_owners ({[id]} ∪ ad_owners d) d).

Definition insert_user (id : string) (u : UserRow) : AuthTx unit := λ d,
  if negb (user_check id u) then violated PgCheckViolation d
  else if isSomeb (ad_users d !! id) || negb (bool_decide (map_Forall (λ _ v, us_username v ≠ us_username u) (ad_users d)))
  then violated PgUniqueViolation d
  else if negb (bool_decide (us_owner u ∈ ad_owners d)) then violated PgForeignKeyViolation d
  else inr (tt, set_users (<[id := u]> (ad_users d)) d).
Definition update_user (id : string) (f : UserRow → UserRow) : AuthTx unit := λ d,
  match ad_users d !! id with
  | None => inr (tt, d)
  | Some u => if negb (user_check id (f u)) then violated PgCheckViolation d else inr (tt, set_users (<[id := f u]> (ad_users d)) d)
  end.

(** FOREIGN KEY (user_id, owner_id) REFERENCES users(id, owner_id) *)
Definition user_owner_exists (user owner : string) (d : AuthDB) : bool :=
  match ad_users d !! user with Some u => bool_decide (us_owner u = owner) | None => false end.
Definition insert_session (id : string) (s : AdminSession) : AuthTx unit := λ d,
  if negb (session_check id s) then violated PgCheckViolation d
  else if isSomeb (ad_sessions d !! id) || negb (bool_decide (map_Forall (λ _ v, as_digest v ≠ as_digest s) (ad_sessions d)))
  then violated PgUniqueViolation d
  else if negb (bool_decide (as_owner s ∈ ad_owners d) && user_owner_exists (as_user s) (as_owner s) d) then violated PgForeignKeyViolation d
  else inr (tt, set_sessions (<[id := s]> (ad_sessions d)) d).
(** The rows of [ids], in turn; the first CHECK violation fails the statement. *)
Fixpoint update_sessions (ids : list string) (f : AdminSession → AdminSession) : AuthTx unit := λ d,
  match ids with
  | [] => inr (tt, d)
  | id :: ids' =>
      match ad_sessions d !! id with
      | None => update_sessions ids' f d
      | Some s =>
          if negb (session_check id (f s)) then violated PgCheckViolation d
          else update_sessions ids' f (set_sessions (<[id := f s]> (ad_sessions d)) d)
      end
  end.
(** token_digest is unique. *)
Definition sessionByDigest (digest : string) (d : AuthDB) : option (string * AdminSession) :=
  List.hd_error (filter (λ kv, as_digest kv.2 = digest) (map_to_list (ad_sessions d))).

(** INSERT ... ON CONFLICT DO UPDATE.  The CHECKs see the proposed row even
    when it conflicts; the counters are integers of 32 bits. *)
Definition int4 (x : Z) : bool := (- 2 ^ 31 <=? x) && (x <? 2 ^ 31).
Definition bucket_write (k : BucketKey) (b : BucketRow) : AuthTx unit := λ d,
  if negb (int4 (bk_attempts b) && int4 (bk_failures b)) then inl AErrRange
  else if negb (bucket_check k b) then violated PgCheckViolation d
  else if negb (match bk_recovery b with Some u => isSomeb (ad_users d !! u) | None => true end) then violated PgForeignKeyViolation d
  else inr (tt, set_throttles (<[k := b]> (ad_buckets d)) (ad_usernames d) d).
Definition upsert_bucket (k : BucketKey) (proposed : BucketRow) (merge : BucketRow → BucketRow) : AuthTx unit := λ d,
  if negb (match bk_recovery proposed with Some u => sqlText u | None => true end) then inl AErrEncoding
  else if negb (int4 (bk_attempts proposed) && int4 (bk_failures proposed)) then inl AErrRange
  else if negb (bucket_check k proposed) then violated PgCheckViolation d
  else bucket_write k (match ad_buckets d !! k with Some old => merge old | None => proposed end) d.
Definition upsert_username (k : string * string) (u : UsernameRow) : AuthTx unit := λ d,
  if negb (username_check k u) then violated PgCheckViolation d
  else inr (tt, set_throttles (ad_buckets d) (<[k := u]> (ad_usernames d)) d).
Definition delete_bucket (k : BucketKey) : AuthTx unit :=
  tx_write (λ d, set_throttles (delete k (ad_buckets d)) (ad_usernames d) d).
Definition delete_buckets (drop : BucketKey → BucketRow → bool) : AuthTx unit :=
  tx_write (λ d, set_throttles (filter (λ kv, drop kv.1 kv.2 = false) (ad_buckets d)) (ad_usernames d) d).
Definition delete_username (k : string * string) : AuthTx unit :=
  tx_write (λ d, set_throttles (ad_buckets d) (delete k (ad_usernames d)) d).
Definition delete_usernames (drop : string * string → bool) : AuthTx unit :=
  tx_write (λ d, set_throttles (ad_buckets d) (filter (λ kv, drop kv.1 = false) (ad_usernames d)) d).

Definition insertAudit (id actor owner : string) (action : AuthAction) (now : Z) : AuthTx unit :=
  do! text_param id in
  λ d,
    if negb (audit_check id) then violated PgCheckViolation d
    else if isSomeb (ad_audit d !! id) then violated PgUniqueViolation d
    else if negb (bool_decide (owner ∈ ad_owners d) && user_owner_exists actor owner d) then violated PgForeignKeyViolation d
    else inr (tt, set_audit (<[id := {| aa_actor := actor; aa_owner := owner; aa_action := action; aa_at := now |}]> (ad_audit d)) d).

(** The advisory-locked cardinality of both throttle tables. *)
Definition throttleRows (d : AuthDB) : Z := Z.of_nat (size (ad_buckets d)) + Z.of_nat (size (ad_usernames d)).
