(* ===== verification/Throttle.v ===== *)
(** * Login throttling (auth_repository.go; identities: src/internal/web/web.go)

    Reservations, finalization and cleanup of the throttle tables.  A
    reservation reads the clock once ([now]); the writes for the [i]th
    identity happen at [clock (2 * i)] and [clock (2 * i + 1)].  The source's
    loop over bucket identities also has branches for a username identity,
    which never reaches them: it is handled above and continues. *)
From S2P Require Import Prelude GoStd Token Route Schema Evidence Password Hmac AuthTokens AuthStore.
From stdpp Require Import sorting.
#[local] Open Scope Z_scope.

(** ** Identities *)

Definition ThrottlePair : string := "pair".
Definition ThrottleIP : string := "ip".
Definition ThrottleUsername : string := "username".
Definition ThrottleInvalidForward : string := "invalid_forward".

(** [ThrottleAlias]: key version and digest. *)
Notation ThrottleAlias := (string * string)%type.
Record ThrottleIdentity := {
  ti_Kind : string; ti_KeyVersion : string; ti_Digest : string; ti_Aliases : list ThrottleAlias; ti_RecoveryUserID : string;
}.
(** The zero time is 0. *)
Record ThrottleReservation := { tr_BlockedUntil : Z; tr_Allowed : bool }.
Definition maxThrottleAliases : Z := 4.

Definition candidates (i : ThrottleIdentity) : list ThrottleAlias := (ti_KeyVersion i, ti_Digest i) :: ti_Aliases i.

Definition validID (id : string) : bool := octet_length 1 128 id.
Definition isVersionByte (b : Z) : bool := isAlnum b || (b =? 46) || (b =? 95) || (b =? 45).
(** [range version] steps through runes; every byte of a longer rune is
    outside the class, its first one included. *)
Definition validThrottleKeyVersion (v : string) : bool := (1 <=? slen v) && (slen v <=? 32) && forallBytes isVersionByte v.
Definition validVersion (v : string) : bool := validThrottleKeyVersion v && negb (bool_decide (v = "overflow")).

(** [string(kind) + "/" + version + string(digest[:])] *)
Definition seenKey (kind : string) (a : ThrottleAlias) : string := kind +:+ "/" +:+ a.1 +:+ a.2.
Definition isThrottleKind (kind : string) : bool :=
  bool_decide (kind ∈ [ThrottlePair; ThrottleIP; ThrottleUsername; ThrottleInvalidForward]).

Fixpoint validateAliases (kind : string) (aliases : list ThrottleAlias) (seen : list string) : Result (list string) :=
  match aliases with
  | [] => inr seen
  | a :: rest =>
      if negb (validVersion a.1) || bool_decide (a.2 = zeroDigest) then inl "invalid throttle alias"
      else if bool_decide (seenKey kind a ∈ seen) then inl "duplicate throttle alias"
      else validateAliases kind rest (seenKey kind a :: seen)
  end.
Fixpoint validateIdentities (identities : list ThrottleIdentity) (seen : list string) : Result unit :=
  match identities with
  | [] => inr tt
  | i :: rest =>
      if negb (isThrottleKind (ti_Kind i)) then inl "invalid throttle kind"
      else if negb (validVersion (ti_KeyVersion i)) || (maxThrottleAliases <? Z.of_nat (length (ti_Aliases i))) then inl "invalid throttle key version"
      else if bool_decide (ti_Digest i = zeroDigest) then inl "invalid zero throttle digest"
      else if negb (bool_decide (ti_RecoveryUserID i = "")) && (negb (bool_decide (ti_Kind i = ThrottlePair)) || negb (validID (ti_RecoveryUserID i)))
      then inl "invalid throttle recovery user"
      else if bool_decide (seenKey (ti_Kind i) (ti_KeyVersion i, ti_Digest i) ∈ seen) then inl "duplicate throttle identity"
      else res_bind (validateAliases (ti_Kind i) (ti_Aliases i) (seenKey (ti_Kind i) (ti_KeyVersion i, ti_Digest i) :: seen))
             (validateIdentities rest)
  end.
Definition validateThrottleIdentities (identities : list ThrottleIdentity) (maxRows : Z) : Result unit :=
  if (Z.of_nat (length identities) =? 0) || (4 <? Z.of_nat (length identities)) || (maxRows <? 8) || (100000 <? maxRows)
  then inl "invalid throttle identities"
  else validateIdentities identities [].

Definition pairRecoveryUserID (i : ThrottleIdentity) (kind : string) : option string :=
  if negb (bool_decide (kind = ThrottlePair)) || bool_decide (ti_RecoveryUserID i = "") then None else Some (ti_RecoveryUserID i).

(** ** User names: back-off without a window *)

Record usernameThrottleRow := { ut_key : ThrottleAlias; ut_failures : Z; ut_blocked : option Z }.
Definition overflowAlias : ThrottleAlias := ("overflow", zeroDigest).
Definition after (b : option Z) (now : Z) : bool := match b with Some x => now <? x | None => false end.

(** A row untouched for a quarter of an hour and not blocked counts as empty. *)
Definition loadUsername (now : Z) (k : ThrottleAlias) (d : AuthDB) : option usernameThrottleRow :=
  match ad_usernames d !! k with
  | None => None
  | Some u =>
      let inactive := negb (now - quarter <? un_updated u) && negb (after (un_blocked u) now) in
      Some {| ut_key := k; ut_failures := if inactive then 0 else un_failures u; ut_blocked := if inactive then None else un_blocked u |}
  end.
Definition min (a b : Z) : Z := if a <? b then a else b.
Definition sumFailures (rows : list usernameThrottleRow) : Z :=
  fold_left (λ n r, let n := n + ut_failures r in if 15 <? n then 15 else n) rows 0.
Definition latestBlock (now : Z) (rows : list usernameThrottleRow) : option Z :=
  fold_left (λ b r, match ut_blocked r with
                    | Some x => if (now <? x) && match b with None => true | Some y => y <? x end then Some x else b
                    | None => b
                    end) rows None.
Definition backoff (failures : Z) : Z :=
  let delay := 30 * second * Z.shiftl 1 (min (failures - 10) 5) in if 15 * minute <? delay then 15 * minute else delay.

(** DELETE ... for every row that is not the identity's own. *)
Fixpoint deleteAliases (primary : ThrottleAlias) (rows : list usernameThrottleRow) : AuthTx unit :=
  match rows with
  | [] => tx_ret tt
  | r :: rest =>
      do! (if bool_decide (ut_key r = primary) then tx_ret tt else delete_username (ut_key r)) in
      deleteAliases primary rest
  end.

(** What is written and answered once the rows are merged. *)
Definition answerUsername (now stamp : Z) (key : ThrottleAlias) (overflow primaryFound : bool) (rows : list usernameThrottleRow)
    : AuthTx ThrottleReservation :=
  let failures := sumFailures rows in
  match latestBlock now rows with
  | Some b =>
      do! (if negb overflow && (negb primaryFound || (1 <? Z.of_nat (length rows)))
           then upsert_username key {| un_failures := failures; un_blocked := Some b; un_updated := stamp |} else tx_ret tt) in
      tx_ret {| tr_BlockedUntil := b; tr_Allowed := false |}
  | None =>
      let failures := if 15 <? failures + 1 then 15 else failures + 1 in
      let block := if 10 <=? failures then Some (now + backoff failures) else None in
      do! upsert_username key {| un_failures := failures; un_blocked := block; un_updated := stamp |} in
      tx_ret {| tr_BlockedUntil := default 0 block; tr_Allowed := true |}
  end.

Definition reserveUsernameThrottle (now stamp : Z) (i : ThrottleIdentity) (maxRows : Z) : AuthTx ThrottleReservation :=
  let primary := (ti_KeyVersion i, ti_Digest i) in
  let! own := tx_read (λ d, omap (λ k, loadUsername now k d) (candidates i)) in
  let! primaryFound := tx_read (λ d, isSomeb (ad_usernames d !! primary)) in
  let! count := tx_read throttleRows in
  let! shared := tx_read (loadUsername now overflowAlias) in
  if negb primaryFound && bool_decide (own = []) && (maxRows - 4 <=? count) then
    if (maxRows <=? count) && negb (isSomeb shared) then tx_ret {| tr_BlockedUntil := 0; tr_Allowed := false |}
    else answerUsername now stamp overflowAlias true primaryFound (match shared with Some r => [r] | None => [] end)
  else
    do! deleteAliases primary own in
    answerUsername now stamp primary false primaryFound own.

(** ** Pairs, addresses and invalid forwards: attempts in a window *)

Definition bucketKey (kind : string) (a : ThrottleAlias) (window : Z) : BucketKey := (kind, a.1, a.2, window).

(** What the loop over the live keys of an identity has gathered. *)
Record Scan := {
  sc_attempts : Z; sc_failures : Z; sc_blocked : Z; sc_activeBlocked : option Z; sc_recovery : option string;
  sc_primary : bool; sc_migrate : list ThrottleAlias;
}.
Definition laterOf (b : option Z) (blocked : Z) : Z := match b with Some x => if blocked <? x then x else blocked | None => blocked end.
Definition laterBlock (b c : option Z) : option Z :=
  match b, c with Some x, Some y => if y <? x then Some x else Some y | Some x, None => Some x | None, _ => c end.
(** The recovery user of a pair; another user's is an invariant violation. *)
Definition scanRecovery (kind : string) (b : BucketRow) (resolved : option string) : Result (option string) :=
  match bk_recovery b with
  | Some u =>
      if negb (bool_decide (kind = ThrottlePair)) then inr resolved
      else match resolved with
           | Some v => if negb (bool_decide (u = v)) then inl "pair throttle recovery user collision" else inr (Some u)
           | None => inr (Some u)
           end
  | None => inr resolved
  end.
Definition scanRow (kind : string) (isPrimary : bool) (a : ThrottleAlias) (b : BucketRow) (s : Scan) : Result Scan :=
  res_bind (scanRecovery kind b (sc_recovery s)) (λ recovery, inr
    {| sc_attempts := sc_attempts s + bk_attempts b; sc_failures := sc_failures s + bk_failures b;
       sc_blocked := laterOf (bk_blocked b) (sc_blocked s); sc_activeBlocked := laterBlock (bk_blocked b) (sc_activeBlocked s);
       sc_recovery := recovery; sc_primary := sc_primary s || isPrimary;
       sc_migrate := if isPrimary then sc_migrate s else sc_migrate s ++ [a] |}).
Fixpoint scanAliases (kind : string) (window : Z) (isPrimary : bool) (aliases : list ThrottleAlias) (d : AuthDB) (s : Scan) : Result Scan :=
  match aliases with
  | [] => inr s
  | a :: rest =>
      match ad_buckets d !! bucketKey kind a window with
      | None => scanAliases kind window false rest d s
      | Some b => res_bind (scanRow kind isPrimary a b s) (scanAliases kind window false rest d)
      end
  end.
Definition scanBuckets (i : ThrottleIdentity) (window blocked : Z) (d : AuthDB) : Result Scan :=
  scanAliases (ti_Kind i) window true (candidates i) d
    {| sc_attempts := 0; sc_failures := 0; sc_blocked := blocked; sc_activeBlocked := None;
       sc_recovery := pairRecoveryUserID i (ti_Kind i); sc_primary := false; sc_migrate := [] |}.

Definition greatest (b c : option Z) : option Z :=
  match b, c with None, _ => c | _, None => b | Some x, Some y => Some (Z.max x y) end.
Definition coalesced {A} (b c : option A) : option A := match b with Some _ => b | None => c end.

(** Move every live retained alias into the active key. *)
Fixpoint deleteMigrated (kind : string) (window : Z) (aliases : list ThrottleAlias) : AuthTx unit :=
  match aliases with [] => tx_ret tt | a :: rest => do! delete_bucket (bucketKey kind a window) in deleteMigrated kind window rest end.
Definition migrateAliases (i : ThrottleIdentity) (window stamp : Z) (s : Scan) : AuthTx unit :=
  do! deleteMigrated (ti_Kind i) window (sc_migrate s) in
  upsert_bucket (bucketKey (ti_Kind i) (ti_KeyVersion i, ti_Digest i) window)
    {| bk_attempts := sc_attempts s; bk_failures := sc_failures s; bk_blocked := sc_activeBlocked s; bk_recovery := sc_recovery s;
       bk_created := stamp; bk_updated := stamp |}
    (λ old, {| bk_attempts := sc_attempts s; bk_failures := sc_failures s; bk_blocked := greatest (bk_blocked old) (sc_activeBlocked s);
               bk_recovery := coalesced (bk_recovery old) (sc_recovery s); bk_created := bk_created old; bk_updated := stamp |}).

(** Count one attempt. *)
Definition countAttempt (k : BucketKey) (stamp : Z) (recovery : option string) : AuthTx unit :=
  upsert_bucket k {| bk_attempts := 1; bk_failures := 1; bk_blocked := None; bk_recovery := recovery; bk_created := stamp; bk_updated := stamp |}
    (λ old, {| bk_attempts := bk_attempts old + 1; bk_failures := bk_failures old + 1; bk_blocked := bk_blocked old;
               bk_recovery := coalesced (bk_recovery old) recovery; bk_created := bk_created old; bk_updated := stamp |}).

Definition attemptLimit (kind : string) : Z := if bool_decide (kind = ThrottlePair) then 5 else 20.
Definition deniedUntil (blocked : Z) : ThrottleReservation + Z := inl {| tr_BlockedUntil := blocked; tr_Allowed := false |}.

(** One iteration for an identity that is not a user name: the call's answer
    ([inl], committed at once) or the latest block to carry on with. *)
Definition reserveBucket (now stamp stamp' : Z) (i : ThrottleIdentity) (maxRows blocked : Z) : AuthTx (ThrottleReservation + Z) :=
  let kind := ti_Kind i in
  let window := truncate now quarter in
  let! scanned := tx_read (scanBuckets i window blocked) in
  let! s := checked scanned in
  let migrating := negb (bool_decide (sc_migrate s = [])) in
  do! (if migrating then migrateAliases i window stamp s else tx_ret tt) in
  let blocked := sc_blocked s in
  if now <? blocked then tx_ret (deniedUntil blocked)
  else
    let! count := tx_read throttleRows in
    if negb (sc_primary s || migrating) && (maxRows - 4 <=? count) then
      let k := bucketKey (kind +:+ "_overflow") overflowAlias window in
      let! row := tx_read (λ d, ad_buckets d !! k) in
      if (maxRows <=? count) && negb (isSomeb row) then tx_ret (deniedUntil 0)
      else
        let attempts := match row with Some b => bk_attempts b | None => sc_attempts s end in
        let blocked := laterOf (row ≫= bk_blocked) blocked in
        if now <? blocked then tx_ret (deniedUntil blocked)
        else if attemptLimit kind <=? attempts then tx_ret (deniedUntil blocked)
        else do! countAttempt k stamp' None in tx_ret (inr blocked)
    else if attemptLimit kind <=? sc_attempts s then tx_ret (deniedUntil blocked)
    else do! countAttempt (bucketKey kind (ti_KeyVersion i, ti_Digest i) window) stamp' (sc_recovery s) in tx_ret (inr blocked).

Fixpoint reserveAll (now : Z) (clock : nat → Z) (n : nat) (identities : list ThrottleIdentity) (maxRows blocked : Z) : AuthTx ThrottleReservation :=
  match identities with
  | [] => tx_ret {| tr_BlockedUntil := blocked; tr_Allowed := true |}
  | i :: rest =>
      if bool_decide (ti_Kind i = ThrottleUsername) then
        let! reservation := reserveUsernameThrottle now (clock (2 * n)%nat) i maxRows in
        if negb (tr_Allowed reservation) then tx_ret reservation
        else reserveAll now clock (S n) rest maxRows
               (if blocked <? tr_BlockedUntil reservation then tr_BlockedUntil reservation else blocked)
      else
        let! r := reserveBucket now (clock (2 * n)%nat) (clock (2 * n + 1)%nat) i maxRows blocked in
        match r with inl reservation => tx_ret reservation | inr blocked => reserveAll now clock (S n) rest maxRows blocked end
  end.

Definition ReserveThrottle (now : Z) (clock : nat → Z) (identities : list ThrottleIdentity) (maxRows : Z) : AuthTx ThrottleReservation :=
  do! checked (validateThrottleIdentities identities maxRows) in
  let! configured := tx_read ad_max_rows in
  do! (if isSomeb configured then tx_ret tt else tx_write (set_max_rows (Some maxRows))) in
  do! assume (default maxRows configured =? maxRows) "throttle max rows differs from durable configuration" in
  reserveAll now clock 0 identities maxRows 0.

(** ** Finalization and cleanup *)

Fixpoint clearAliases (kind : string) (aliases : list ThrottleAlias) : AuthTx unit :=
  match aliases with
  | [] => tx_ret tt
  | a :: rest =>
      do! (if bool_decide (kind = ThrottleUsername) then delete_usernames (λ k, bool_decide (k = a) && negb (bool_decide (k.1 = "overflow")))
           else delete_buckets (λ k _, let '(bkind, version, digest, _) := k in bool_decide ((bkind, version, digest) = (kind, a.1, a.2)))) in
      clearAliases kind rest
  end.
Fixpoint clearIdentities (identities : list ThrottleIdentity) : AuthTx unit :=
  match identities with
  | [] => tx_ret tt
  | i :: rest =>
      do! (if bool_decide (ti_Kind i = ThrottlePair) || bool_decide (ti_Kind i = ThrottleUsername)
           then clearAliases (ti_Kind i) (candidates i) else tx_ret tt) in
      clearIdentities rest
  end.
Definition FinalizeThrottle (successful : bool) (identities : list ThrottleIdentity) : AuthTx unit :=
  do! checked (validateThrottleIdentities identities 8) in
  if negb successful then tx_ret tt else clearIdentities identities.

(** The first [limit] rows of a table in an order, as keys; rows that tie come
    in the map's order. *)
Definition byInstant {A} (at_ : A → Z) (x y : A) : Prop := at_ x ≤ at_ y.
#[global] Instance byInstant_dec {A} (at_ : A → Z) x y : Decision (byInstant at_ x y) := Z_le_dec (at_ x) (at_ y).
Definition oldest {K R} `{Countable K} (limit : Z) (stale : K * R → bool) (at_ : K * R → Z) (t : gmap K R) : list K :=
  fst <$> take (Z.to_nat limit) (merge_sort (byInstant at_) (filter (λ kv, stale kv = true) (map_to_list t))).
Definition expiredBlock (now : Z) (b : option Z) : bool := match b with None => true | Some x => x <=? now end.

Definition CleanupThrottle (clock : nat → Z) (limit : Z) : AuthTx Z :=
  do! assume (negb ((limit <? 1) || (1000 <? limit))) "invalid throttle cleanup limit" in
  let! buckets := tx_read (λ d, oldest limit
    (λ kv, (kv.1.2 <? clock 0%nat - quarter) && expiredBlock (clock 0%nat) (bk_blocked kv.2)) (λ kv, kv.1.2) (ad_buckets d)) in
  do! delete_buckets (λ k _, bool_decide (k ∈ buckets)) in
  let deleted := Z.of_nat (length buckets) in
  if deleted <? limit then
    let! usernames := tx_read (λ d, oldest (limit - deleted)
      (λ kv, (un_updated kv.2 <? clock 1%nat - quarter) && expiredBlock (clock 1%nat) (un_blocked kv.2)) (λ kv, un_updated kv.2) (ad_usernames d)) in
    do! delete_usernames (λ k, bool_decide (k ∈ usernames)) in
    tx_ret (deleted + Z.of_nat (length usernames))
  else tx_ret deleted.

(** ** The identities of a login (web.go) *)

Definition sortedVersions (keys : gmap string string) : list string := merge_sort (λ a b, String.leb a b = true) (map_to_list keys).*1.

(** One digest per retained key, and the active one's. *)
Definition csrfDigest (r : CSRFKeyRing) (domain : string) (components : list string) (version : string) : Result string :=
  ThrottleDigest (keyBytes (ck_Keys r) version) domain components.
Fixpoint aliasesOf (digest : string → Result string) (versions : list string) : Result (list ThrottleAlias) :=
  match versions with
  | [] => inr []
  | v :: rest => res_bind (digest v) (λ x, res_bind (aliasesOf digest rest) (λ xs, inr ((v, x) :: xs)))
  end.

(** The pair, the user name and the address, in this order. *)
Definition identities (csrf : CSRFKeyRing) (names : UsernameThrottleKeyRing) (ip username userID : string) (malformedUsername : bool)
    : Result (list ThrottleIdentity) :=
  let primary := ck_ActiveVersion csrf in
  let retained := filter (λ v, v ≠ primary) (sortedVersions (ck_Keys csrf)) in
  let pairDigestOf := csrfDigest csrf (if malformedUsername then "invalid-username-pair" else "pair")
                        [ip; if malformedUsername then "malformed" else username] in
  let ipDigestOf := csrfDigest csrf "ip" [ip] in
  let malformedDigestOf := csrfDigest csrf "invalid-username" ["malformed"] in
  res_bind (aliasesOf pairDigestOf retained) (λ pairAliases,
  res_bind (aliasesOf ipDigestOf retained) (λ ipAliases,
  res_bind (pairDigestOf primary) (λ pairDigest,
  res_bind (ipDigestOf primary) (λ ipDigest,
  res_bind (if malformedUsername then
              res_bind (malformedDigestOf primary) (λ digest,
              res_bind (aliasesOf malformedDigestOf retained) (λ aliases,
              inr {| ti_Kind := ThrottleUsername; ti_KeyVersion := primary; ti_Digest := digest; ti_Aliases := aliases; ti_RecoveryUserID := "" |}))
            else
              res_bind (UsernameDigests names username) (λ digests,
              inr {| ti_Kind := ThrottleUsername; ti_KeyVersion := uk_ActiveVersion names; ti_Digest := List.hd "" digests;
                     ti_Aliases := zip (uk_RetainedVersions names) (List.tl digests); ti_RecoveryUserID := "" |})) (λ usernameIdentity,
  inr [{| ti_Kind := ThrottlePair; ti_KeyVersion := primary; ti_Digest := pairDigest; ti_Aliases := pairAliases; ti_RecoveryUserID := userID |};
       usernameIdentity;
       {| ti_Kind := ThrottleIP; ti_KeyVersion := primary; ti_Digest := ipDigest; ti_Aliases := ipAliases; ti_RecoveryUserID := "" |}]))))).
