(* ===== verification/Sessions.v ===== *)
(** * Administrators and sessions (auth_repository.go)

    Bootstrap, login, session validation, logout, cleanup and password reset:
    one definition per method, whole.  [Session], [LoginUser] and the inputs
    are the source's structs; a [uint64] argument stored in a bigint goes
    through [int64]. *)
From S2P Require Import Prelude GoStd Base64 Token Route Regex HealthGate Schema Evidence LeaseCore Password Hmac AuthTokens AuthStore Throttle.
From stdpp Require Import sorting.
#[local] Open Scope Z_scope.

Record BootstrapInput := {
  bt_OwnerID : string; bt_UserID : string; bt_Username : string; bt_AuditID : string; bt_Verifier : PasswordVerifier; bt_Policy : Argon2Policy;
}.
Record LoginUser := { lu_ID : string; lu_OwnerID : string; lu_Verifier : PasswordVerifier; lu_AuthRevision : Z; lu_Active : bool }.
Record Session := {
  s_ID : string; s_UserID : string; s_OwnerID : string; s_AuthRevision : Z;
  s_CreatedAt : Z; s_LastSeenAt : Z; s_IdleExpiresAt : Z; s_AbsoluteExpiresAt : Z;
}.
Record CompleteLoginInput := {
  cl_SessionID : string; cl_AuditID : string; cl_SessionLimitAuditID : string; cl_Token : string; cl_User : LoginUser;
  cl_Replacement : option PasswordVerifier; cl_ThrottleIdentities : list ThrottleIdentity;
}.

Definition checkID (id : string) : AuthTx unit := assume (validID id) "invalid identifier".
Definition unauthenticated {A} : AuthTx A := tx_fail AErrUnauthenticated.
Definition sessionDigest (token : string) : AuthTx string :=
  match SessionTokenDigest token with inr digest => tx_ret digest | inl _ => unauthenticated end.

(** ** Bootstrap and policies *)

Definition validateBootstrap (i : BootstrapInput) : Result unit :=
  res_bind (require (forallb validID [bt_OwnerID i; bt_UserID i; bt_AuditID i]) "invalid identifier") (λ _,
  res_bind (require (match CanonicalUsername (bt_Username i) with inr c => bool_decide (c = bt_Username i) | inl _ => false end)
              "invalid canonical username") (λ _,
  res_bind (policyValidate (bt_Policy i)) (λ _, ValidatePasswordVerifierForPolicy (bt_Verifier i) (bt_Policy i)))).

Definition Bootstrap (clock : nat → Z) (i : BootstrapInput) : AuthTx unit :=
  do! checked (validateBootstrap i) in
  let! installed := tx_read ad_install in
  do! tx_guard (negb (isSomeb installed)) AErrAlreadyBootstrapped in
  do! text_param (bt_OwnerID i) in
  do! insert_owner (bt_OwnerID i) in
  do! text_param (bt_UserID i) in
  do! insert_user (bt_UserID i)
        {| us_owner := bt_OwnerID i; us_username := bt_Username i; us_phc := pv_PHC (bt_Verifier i);
           us_policy_revision := int64 (pv_PolicyRevision (bt_Verifier i)); us_auth_revision := 1; us_active := true;
           us_created := clock 0%nat; us_updated := clock 0%nat |} in
  let stored := {| pol_Revision := int64 (pol_Revision (bt_Policy i)); pol_MemoryKiB := pol_MemoryKiB (bt_Policy i);
                   pol_Iterations := pol_Iterations (bt_Policy i); pol_Lanes := pol_Lanes (bt_Policy i) |} in
  let row := {| in_owner := bt_OwnerID i; in_policy := stored; in_bootstrapped_at := clock 1%nat |} in
  do! tx_guard (install_check row) (AErrPg PgCheckViolation) in
  do! tx_write (set_install (Some row)) in
  insertAudit (bt_AuditID i) (bt_UserID i) (bt_OwnerID i) ActBootstrap (clock 2%nat).

Definition LoadPasswordPolicy : AuthTx Argon2Policy :=
  let! i := tx_some ad_install AErrNotFound in
  do! checked (policyValidate (in_policy i)) in
  tx_ret (in_policy i).

Definition FindLoginUserByCanonicalUsername (username : string) : AuthTx LoginUser :=
  do! assume (match CanonicalUsername username with inr c => bool_decide (c = username) | inl _ => false end) "invalid canonical username" in
  let! row := tx_some (λ d, List.hd_error (filter (λ kv, us_username kv.2 = username) (map_to_list (ad_users d)))) AErrNotFound in
  let v := {| lu_ID := row.1; lu_OwnerID := us_owner row.2;
              lu_Verifier := {| pv_PHC := us_phc row.2; pv_PolicyRevision := us_policy_revision row.2 |};
              lu_AuthRevision := us_auth_revision row.2; lu_Active := us_active row.2 |} in
  do! checked (ValidatePasswordVerifier (lu_Verifier v)) in
  tx_ret v.

(** ** Creating a session *)

Definition userInputValid (u : LoginUser) : Result unit :=
  require (validID (lu_ID u) && validID (lu_OwnerID u) && negb (lu_AuthRevision u =? 0)) "invalid login user".

(** The users row joined with the installation's policy. *)
Definition lockLoginUser (userID : string) : AuthTx (UserRow * Argon2Policy) :=
  do! text_param userID in
  let! u := tx_some (λ d, ad_users d !! userID) AErrUnauthenticated in
  let! i := tx_some ad_install (AErr "lock login user") in
  tx_ret (u, in_policy i).

Definition replacePassword (userID : string) (v : PasswordVerifier) (revision : Z → Z) (now : Z) : AuthTx unit :=
  update_user userID (λ u, {| us_owner := us_owner u; us_username := us_username u; us_phc := pv_PHC v;
    us_policy_revision := int64 (pv_PolicyRevision v); us_auth_revision := revision (us_auth_revision u); us_active := us_active u;
    us_created := us_created u; us_updated := now |}).

(** INSERT INTO admin_sessions ... RETURNING *)
Definition mintSession (id digest userID owner : string) (revision now : Z) : AuthTx Session :=
  let row := {| as_digest := digest; as_user := userID; as_owner := owner; as_auth_revision := revision; as_created := now;
                as_last_seen := now; as_idle := now + 30 * minute; as_absolute := now + 480 * minute; as_revoked := None |} in
  do! text_param id in
  do! insert_session id row in
  tx_ret {| s_ID := id; s_UserID := userID; s_OwnerID := owner; s_AuthRevision := revision; s_CreatedAt := now; s_LastSeenAt := now;
            s_IdleExpiresAt := as_idle row; s_AbsoluteExpiresAt := as_absolute row |}.

(** ORDER BY created_at DESC, id DESC OFFSET 10 *)
Definition newestFirst (x y : string * AdminSession) : Prop :=
  as_created y.2 < as_created x.2 ∨ (as_created x.2 = as_created y.2 ∧ String.leb y.1 x.1 = true).
#[global] Instance newestFirst_dec x y : Decision (newestFirst x y) := decide _.
Definition liveSession (userID : string) (s : AdminSession) : bool := bool_decide (as_user s = userID) && negb (isSomeb (as_revoked s)).
Definition excessive (userID : string) (d : AuthDB) : list string :=
  fst <$> drop 10 (merge_sort newestFirst (filter (λ kv, liveSession userID kv.2 = true) (map_to_list (ad_sessions d)))).
Definition revoke (now : Z) (reason : RevokedReason) (s : AdminSession) : AdminSession :=
  {| as_digest := as_digest s; as_user := as_user s; as_owner := as_owner s; as_auth_revision := as_auth_revision s;
     as_created := as_created s; as_last_seen := as_last_seen s; as_idle := as_idle s; as_absolute := as_absolute s;
     as_revoked := Some (now, reason) |}.
Definition limitSessions (userID owner sessionLimitAuditID : string) (now auditAt : Z) : AuthTx unit :=
  let! revokedIDs := tx_read (excessive userID) in
  do! update_sessions revokedIDs (revoke now RevokedSessionLimit) in
  do! assume (Z.of_nat (length revokedIDs) <=? 1) "session limit revoked more than one session" in
  if Z.of_nat (length revokedIDs) =? 1 then insertAudit sessionLimitAuditID userID owner ActSessionRevoked auditAt else tx_ret tt.

Fixpoint countKind (kind : string) (identities : list ThrottleIdentity) : Z :=
  match identities with [] => 0 | i :: rest => (if bool_decide (ti_Kind i = kind) then 1 else 0) + countKind kind rest end.
Fixpoint loginIdentities (userID : string) (identities : list ThrottleIdentity) : Result unit :=
  match identities with
  | [] => inr tt
  | i :: rest =>
      if bool_decide (ti_Kind i = ThrottlePair) && negb (bool_decide (ti_RecoveryUserID i = userID))
      then inl "pair throttle recovery user does not match login user"
      else if negb (bool_decide (ti_Kind i ∈ [ThrottlePair; ThrottleUsername; ThrottleIP])) then inl "invalid successful login throttle identity"
      else loginIdentities userID rest
  end.
Definition validateCompleteLogin (i : CompleteLoginInput) : Result unit :=
  res_bind (require (validID (cl_SessionID i)) "invalid identifier") (λ _,
  res_bind (require (validID (cl_AuditID i)) "invalid identifier") (λ _,
  res_bind (require (validID (cl_SessionLimitAuditID i) && negb (bool_decide (cl_SessionLimitAuditID i = cl_AuditID i)))
              "invalid distinct session-limit audit identifier") (λ _,
  res_bind (userInputValid (cl_User i)) (λ _,
  res_bind (validateThrottleIdentities (cl_ThrottleIdentities i) 8) (λ _,
  res_bind (require (Z.of_nat (length (cl_ThrottleIdentities i)) =? 3) "invalid successful login throttle identities") (λ _,
  res_bind (loginIdentities (lu_ID (cl_User i)) (cl_ThrottleIdentities i)) (λ _,
  res_bind (require ((countKind ThrottlePair (cl_ThrottleIdentities i) =? 1) && (countKind ThrottleUsername (cl_ThrottleIdentities i) =? 1)
                     && (countKind ThrottleIP (cl_ThrottleIdentities i) =? 1)) "invalid successful login throttle identities") (λ _,
  match cl_Replacement i with Some v => ValidatePasswordVerifier v | None => inr tt end)))))))).

(** Clear the pair rows of this user (or of nobody yet) and the user name's. *)
Fixpoint clearOwnAliases (kind userID : string) (aliases : list ThrottleAlias) : AuthTx unit :=
  match aliases with
  | [] => tx_ret tt
  | a :: rest =>
      do! (if bool_decide (kind = ThrottlePair)
           then delete_buckets (λ k b, let '(bkind, version, digest, _) := k in
                  bool_decide ((bkind, version, digest) = ("pair", a.1, a.2))
                  && match bk_recovery b with Some u => bool_decide (u = userID) | None => true end)
           else delete_usernames (λ k, bool_decide (k = a) && negb (bool_decide (k.1 = "overflow")))) in
      clearOwnAliases kind userID rest
  end.
Fixpoint clearSuccessful (userID : string) (identities : list ThrottleIdentity) : AuthTx unit :=
  match identities with
  | [] => tx_ret tt
  | i :: rest =>
      do! (if bool_decide (ti_Kind i = ThrottlePair) || bool_decide (ti_Kind i = ThrottleUsername)
           then clearOwnAliases (ti_Kind i) userID (candidates i) else tx_ret tt) in
      clearSuccessful userID rest
  end.

(** Everything a login read and verified must still hold under the lock. *)
Definition loginStillValid (i : CompleteLoginInput) (u : UserRow) : bool :=
  bool_decide (us_owner u = lu_OwnerID (cl_User i)) && us_active u && (us_auth_revision u =? int64 (lu_AuthRevision (cl_User i)))
  && bool_decide (us_phc u = pv_PHC (lu_Verifier (cl_User i))) && (us_policy_revision u =? int64 (pv_PolicyRevision (lu_Verifier (cl_User i)))).

Definition CompleteLogin (clock : nat → Z) (i : CompleteLoginInput) : AuthTx Session :=
  let userID := lu_ID (cl_User i) in
  do! checked (validateCompleteLogin i) in
  let! digest := sessionDigest (cl_Token i) in
  let! row := lockLoginUser userID in
  let '(u, policy) := row in
  do! tx_guard (loginStillValid i u) AErrUnauthenticated in
  do! checked (policyValidate policy) in
  do! tx_guard (us_policy_revision u <=? pol_Revision policy) AErrUnauthenticated in
  do! match cl_Replacement i with
      | None => tx_ret tt
      | Some v =>
          do! assume (negb (isOk (ValidatePasswordVerifierForPolicy (lu_Verifier (cl_User i)) policy))) "password rehash is not required" in
          do! checked (ValidatePasswordVerifierForPolicy v policy) in
          replacePassword userID v (λ r, r) (clock 0%nat)
      end in
  let! s := mintSession (cl_SessionID i) digest userID (us_owner u) (us_auth_revision u) (clock 1%nat) in
  do! limitSessions userID (us_owner u) (cl_SessionLimitAuditID i) (clock 2%nat) (clock 3%nat) in
  do! insertAudit (cl_AuditID i) userID (us_owner u) ActLoginSuccess (clock 4%nat) in
  do! clearSuccessful userID (cl_ThrottleIdentities i) in
  tx_ret s.

Definition CreateSession (clock : nat → Z) (id token : string) (user : LoginUser) (replacement : option PasswordVerifier)
    (auditID sessionLimitAuditID : string) : AuthTx Session :=
  do! checkID id in
  do! checkID auditID in
  do! assume (validID sessionLimitAuditID && negb (bool_decide (sessionLimitAuditID = auditID))) "invalid distinct session-limit audit identifier" in
  do! checked (userInputValid user) in
  let! digest := sessionDigest token in
  do! match replacement with Some v => checked (ValidatePasswordVerifier v) | None => tx_ret tt end in
  let! row := lockLoginUser (lu_ID user) in
  let '(u, policy) := row in
  do! tx_guard (bool_decide (us_owner u = lu_OwnerID user) && us_active u && (us_auth_revision u =? int64 (lu_AuthRevision user)))
        AErrUnauthenticated in
  do! match replacement with
      | None => tx_ret tt
      | Some v => do! checked (ValidatePasswordVerifierForPolicy v policy) in replacePassword (lu_ID user) v (λ r, r) (clock 0%nat)
      end in
  let! s := mintSession id digest (lu_ID user) (us_owner u) (us_auth_revision u) (clock 1%nat) in
  do! limitSessions (lu_ID user) (us_owner u) sessionLimitAuditID (clock 2%nat) (clock 3%nat) in
  do! insertAudit auditID (lu_ID user) (us_owner u) ActLoginSuccess (clock 4%nat) in
  tx_ret s.

(** ** Validating and ending sessions *)

(** The locked query: the session of this digest with its user's row, when
    neither is revoked or disabled. *)
Definition authorityRow (digest userID : string) (d : AuthDB) : option (string * AdminSession * UserRow) :=
  kv ← sessionByDigest digest d;
  u ← ad_users d !! userID;
  if bool_decide (as_user kv.2 = userID) && negb (isSomeb (as_revoked kv.2)) && us_active u && bool_decide (as_owner kv.2 = us_owner u)
  then Some (kv.1, kv.2, u) else None.
Definition touch (now : Z) (s : AdminSession) : AdminSession :=
  {| as_digest := as_digest s; as_user := as_user s; as_owner := as_owner s; as_auth_revision := as_auth_revision s;
     as_created := as_created s; as_last_seen := now; as_idle := Z.min (as_absolute s) (now + 30 * minute); as_absolute := as_absolute s;
     as_revoked := as_revoked s |}.
Definition principalOf (id : string) (s : AdminSession) : Principal :=
  {| p_UserID := as_user s; p_OwnerID := as_owner s; p_RoleOwner := true; p_AuthRevision := as_auth_revision s; p_SessionID := id |}.

Definition ValidateSession (clock : nat → Z) (token : string) : AuthTx Principal :=
  let! digest := sessionDigest token in
  let! identified := tx_some (sessionByDigest digest) AErrUnauthenticated in
  let userID := as_user identified.2 in
  let! row := tx_some (authorityRow digest userID) AErrUnauthenticated in
  let '(id, s, u) := row in
  do! tx_guard (as_auth_revision s =? us_auth_revision u) AErrUnauthenticated in
  do! tx_guard ((clock 0%nat <? as_idle s) && (clock 0%nat <? as_absolute s)) AErrUnauthenticated in
  do! (if as_last_seen s <=? clock 1%nat - 5 * minute then update_sessions [id] (touch (clock 1%nat)) else tx_ret tt) in
  tx_ret (principalOf id s).

Definition RevokeSession (clock : nat → Z) (token : string) (principal : Principal) (auditID : string) : AuthTx unit :=
  do! checkID auditID in
  do! tx_guard (validPrincipal principal) AErrUnauthenticated in
  let! digest := sessionDigest token in
  let! identified := tx_some (sessionByDigest digest) AErrUnauthenticated in
  let '(id, s) := identified in
  let! u := tx_some (λ d, ad_users d !! as_user s) AErrUnauthenticated in
  do! tx_guard (us_active u && bool_decide (as_user s = p_UserID principal) && bool_decide (as_owner s = p_OwnerID principal)
                && (us_auth_revision u =? int64 (p_AuthRevision principal)) && negb (bool_decide (p_SessionID principal = ""))) AErrUnauthenticated in
  do! tx_guard (bool_decide (id = p_SessionID principal)) AErrUnauthenticated in
  do! tx_guard (negb (isSomeb (as_revoked s))) AErrSessionRevoked in
  do! update_sessions [id] (revoke (clock 0%nat) RevokedLogout) in
  insertAudit auditID (as_user s) (as_owner s) ActLogout (clock 1%nat).

(** A session other tables still refer to cannot be deleted: the statement
    fails. *)
Definition deadSession (now : Z) (s : AdminSession) : bool :=
  isSomeb (as_revoked s) || (as_idle s <=? now) || (as_absolute s <=? now).
Definition CleanupSessions (clock : nat → Z) (limit : Z) : AuthTx Z :=
  do! assume (negb ((limit <? 1) || (1000 <? limit))) "invalid session cleanup limit" in
  let! ids := tx_read (λ d, oldest limit (λ kv, deadSession (clock 0%nat) kv.2) (λ kv, as_created kv.2) (ad_sessions d)) in
  let! referenced := tx_read ad_referenced in
  do! tx_guard (forallb (λ id, negb (bool_decide (id ∈ referenced))) ids) (AErrPg PgForeignKeyViolation) in
  do! tx_write (λ d, set_sessions (filter (λ kv, kv.1 ∉ ids) (ad_sessions d)) d) in
  tx_ret (Z.of_nat (length ids)).

(** ** Password reset *)

Fixpoint recoveryDigestsValid (digests seen : list string) : Result unit :=
  match digests with
  | [] => inr tt
  | x :: rest =>
      if bool_decide (x = zeroDigest) then inl "invalid zero recovery throttle digest"
      else if bool_decide (x ∈ seen) then inl "duplicate recovery throttle digest"
      else recoveryDigestsValid rest (x :: seen)
  end.
Fixpoint clearRecovery (digests : list string) : AuthTx unit :=
  match digests with
  | [] => tx_ret tt
  | x :: rest =>
      do! delete_buckets (λ k b, let '(kind, _, digest, _) := k in
            bool_decide (kind = "pair") && bool_decide (digest = x) && negb (isSomeb (bk_recovery b))) in
      do! delete_usernames (λ k, bool_decide (k.2 = x) && negb (bool_decide (k.1 = "overflow"))) in
      clearRecovery rest
  end.
Definition liveSessionsOf (userID : string) (d : AuthDB) : list string :=
  fst <$> filter (λ kv, liveSession userID kv.2 = true) (map_to_list (ad_sessions d)).

Definition ResetPassword (clock : nat → Z) (userID : string) (verifier : PasswordVerifier) (auditID : string)
    (recoveryDigests : list string) : AuthTx unit :=
  do! checkID userID in
  do! checkID auditID in
  do! checked (ValidatePasswordVerifier verifier) in
  do! assume (Z.of_nat (length recoveryDigests) <=? 10) "too many recovery throttle digests" in
  do! checked (recoveryDigestsValid recoveryDigests []) in
  do! text_param userID in
  let! u := tx_some (λ d, ad_users d !! userID) (AErr "lock reset user") in
  let! i := tx_some ad_install (AErr "lock reset user") in
  do! tx_guard (negb (us_auth_revision u =? 2 ^ 63 - 1)) AErrRevisionOverflow in
  do! checked (ValidatePasswordVerifierForPolicy verifier (in_policy i)) in
  do! replacePassword userID verifier (λ r, r + 1) (clock 0%nat) in
  let! live := tx_read (liveSessionsOf userID) in
  do! update_sessions live (revoke (clock 1%nat) RevokedPasswordReset) in
  do! delete_buckets (λ k b, let '(kind, _, _, _) := k in bool_decide (kind = "pair") && bool_decide (bk_recovery b = Some userID)) in
  do! clearRecovery recoveryDigests in
  insertAudit auditID userID (us_owner u) ActPasswordReset (clock 2%nat).

(** ** Access *)

Definition RoleOwner : string := "owner".
Definition OperationAdmin : string := "admin".
Definition CanAccess (p : Principal) (resourceOwnerID operation : string) : bool :=
  validPrincipal p && negb (bool_decide (resourceOwnerID = "")) && bool_decide (p_OwnerID p = resourceOwnerID)
  && p_RoleOwner p && bool_decide (operation = OperationAdmin).
