(* ===== verification/AuthInv.v ===== *)
(** * What every call of the authentication repository keeps

    Frames of the statements, the invariant of reachable databases, the calls
    as a step relation, and the proof that every call keeps it. *)
From S2P Require Import Prelude GoStd Base64 Token Route Regex HealthGate Schema Evidence LeaseCore Password Hmac AuthTokens AuthStore Throttle Sessions.
From stdpp Require Import sorting relations.
#[local] Open Scope Z_scope.

(** ** Frames *)

(** Nothing but throttle rows changed. *)
Definition sameAuthority (d d' : AuthDB) : Prop :=
  ad_owners d' = ad_owners d ∧ ad_install d' = ad_install d ∧ ad_users d' = ad_users d ∧ ad_sessions d' = ad_sessions d ∧
  ad_max_rows d' = ad_max_rows d ∧ ad_audit d' = ad_audit d ∧ ad_referenced d' = ad_referenced d.
(** No throttle row changed. *)
Definition sameThrottles (d d' : AuthDB) : Prop :=
  ad_buckets d' = ad_buckets d ∧ ad_usernames d' = ad_usernames d ∧ ad_max_rows d' = ad_max_rows d.
(** Throttle rows were only removed. *)
Definition throttlesShrink (d d' : AuthDB) : Prop :=
  sameAuthority d d' ∧ ad_buckets d' ⊆ ad_buckets d ∧ ad_usernames d' ⊆ ad_usernames d.

#[global] Instance sameAuthority_pre : PreOrder sameAuthority.
Proof. split; [by intros d|]. unfold sameAuthority. intros x y z ? ?. destruct_and!. split_and!; congruence. Qed.
#[global] Instance sameThrottles_pre : PreOrder sameThrottles.
Proof. split; [by intros d|]. unfold sameThrottles. intros x y z ? ?. destruct_and!. split_and!; congruence. Qed.
#[global] Instance throttlesShrink_pre : PreOrder throttlesShrink.
Proof. split; [by intros d|]. intros x y z (?&?&?) (?&?&?). split_and!; etrans; eauto. Qed.

Lemma tx_rel_checked {S A} (R : S → S → Prop) `{!PreOrder R} (r : Result A) : tx_rel R (checked (S := S) r).
Proof. destruct r; [apply tx_rel_fail|by apply tx_rel_ret]. Qed.
Lemma tx_rel_assume {S} (R : S → S → Prop) `{!PreOrder R} ok text : tx_rel R (assume (S := S) ok text).
Proof. by apply tx_rel_guard. Qed.
Lemma tx_rel_text R `{!PreOrder R} s : tx_rel R (text_param s).
Proof. by apply tx_rel_guard. Qed.
Lemma tx_rel_digest R `{!PreOrder R} t : tx_rel R (sessionDigest t).
Proof. unfold sessionDigest, unauthenticated. destruct (SessionTokenDigest t); [apply tx_rel_fail|by apply tx_rel_ret]. Qed.
#[export] Hint Resolve tx_rel_checked tx_rel_assume tx_rel_text tx_rel_digest : txrel.

Lemma delete_bucket_shrinks k : tx_rel throttlesShrink (delete_bucket k).
Proof. apply tx_rel_write. intros d. split; [done|]. split; [apply delete_subseteq|done]. Qed.
Lemma delete_buckets_shrinks f : tx_rel throttlesShrink (delete_buckets f).
Proof. apply tx_rel_write. intros d. split; [done|]. split; [apply map_filter_subseteq|done]. Qed.
Lemma delete_username_shrinks k : tx_rel throttlesShrink (delete_username k).
Proof. apply tx_rel_write. intros d. split; [done|]. split; [done|apply delete_subseteq]. Qed.
Lemma delete_usernames_shrinks f : tx_rel throttlesShrink (delete_usernames f).
Proof. apply tx_rel_write. intros d. split; [done|]. split; [done|apply map_filter_subseteq]. Qed.
#[export] Hint Resolve delete_bucket_shrinks delete_buckets_shrinks delete_username_shrinks delete_usernames_shrinks : txrel.

Lemma clearAliases_shrinks kind l : tx_rel throttlesShrink (clearAliases kind l).
Proof. induction l; simpl; tx_rel. Qed.
#[export] Hint Resolve clearAliases_shrinks : txrel.
Lemma clearIdentities_shrinks l : tx_rel throttlesShrink (clearIdentities l).
Proof. induction l; simpl; tx_rel. Qed.
Lemma clearOwnAliases_shrinks kind u l : tx_rel throttlesShrink (clearOwnAliases kind u l).
Proof. induction l; simpl; tx_rel. Qed.
#[export] Hint Resolve clearIdentities_shrinks clearOwnAliases_shrinks : txrel.
Lemma clearSuccessful_shrinks u l : tx_rel throttlesShrink (clearSuccessful u l).
Proof. induction l; simpl; tx_rel. Qed.
Lemma clearRecovery_shrinks l : tx_rel throttlesShrink (clearRecovery l).
Proof. induction l; simpl; tx_rel. Qed.
#[export] Hint Resolve clearSuccessful_shrinks clearRecovery_shrinks : txrel.
Lemma FinalizeThrottle_shrinks ok l : tx_rel throttlesShrink (FinalizeThrottle ok l).
Proof. unfold FinalizeThrottle. tx_rel. Qed.
Lemma CleanupThrottle_shrinks clock n : tx_rel throttlesShrink (CleanupThrottle clock n).
Proof. unfold CleanupThrottle. tx_rel. Qed.

Lemma deleteAliases_shrinks p l : tx_rel throttlesShrink (deleteAliases p l).
Proof. induction l; simpl; tx_rel. Qed.
Lemma deleteMigrated_shrinks kind w l : tx_rel throttlesShrink (deleteMigrated kind w l).
Proof. induction l; simpl; tx_rel. Qed.
#[export] Hint Resolve deleteAliases_shrinks deleteMigrated_shrinks : txrel.

Lemma bucket_write_inv k b d u d' : bucket_write k b d = inr (u, d') →
  bucket_check k b = true ∧ d' = set_throttles (<[k := b]> (ad_buckets d)) (ad_usernames d) d.
Proof.
  unfold bucket_write, violated, tx_fail. do 3 (case_match; [done|]). intros ?. simplify_eq. bool_hyps. by split.
Qed.
Lemma upsert_bucket_inv k p merge d u d' : upsert_bucket k p merge d = inr (u, d') →
  ∃ b, b = match ad_buckets d !! k with Some old => merge old | None => p end ∧ bucket_check k b = true ∧
       d' = set_throttles (<[k := b]> (ad_buckets d)) (ad_usernames d) d.
Proof.
  unfold upsert_bucket, violated, tx_fail. set (b := match ad_buckets d !! k with Some old => merge old | None => p end).
  intros H. exists b. split; [done|]. apply (bucket_write_inv k b d u). by repeat (case_match; [done|]).
Qed.
Lemma upsert_username_inv k r d u d' : upsert_username k r d = inr (u, d') →
  username_check k r = true ∧ d' = set_throttles (ad_buckets d) (<[k := r]> (ad_usernames d)) d.
Proof.
  unfold upsert_username, violated, tx_fail. case_match; [done|]. intros ?. simplify_eq. bool_hyps. by split.
Qed.

Lemma upsert_bucket_frame k p merge : tx_rel sameAuthority (upsert_bucket k p merge).
Proof. intros d u d' (b&_&_&->)%upsert_bucket_inv. done. Qed.
Lemma upsert_username_frame k r : tx_rel sameAuthority (upsert_username k r).
Proof. intros d u d' (_&->)%upsert_username_inv. done. Qed.
Lemma shrinks_frame {A} (m : AuthTx A) : tx_rel throttlesShrink m → tx_rel sameAuthority m.
Proof. intros H d a d' E. by destruct (H _ _ _ E). Qed.
#[export] Hint Resolve upsert_bucket_frame upsert_username_frame : txrel.
#[export] Hint Extern 3 (tx_rel sameAuthority _) => apply shrinks_frame; solve [auto with txrel] : txrel.

Lemma answerUsername_frame now stamp k o f rows : tx_rel sameAuthority (answerUsername now stamp k o f rows).
Proof. unfold answerUsername. tx_rel. Qed.
#[export] Hint Resolve answerUsername_frame : txrel.
Lemma reserveUsername_frame now stamp i m : tx_rel sameAuthority (reserveUsernameThrottle now stamp i m).
Proof. unfold reserveUsernameThrottle. tx_rel. Qed.
Lemma migrateAliases_frame i w stamp s : tx_rel sameAuthority (migrateAliases i w stamp s).
Proof. unfold migrateAliases. tx_rel. Qed.
#[export] Hint Resolve reserveUsername_frame migrateAliases_frame : txrel.
Lemma reserveBucket_frame now s1 s2 i m b : tx_rel sameAuthority (reserveBucket now s1 s2 i m b).
Proof. unfold reserveBucket, countAttempt. tx_rel. Qed.
#[export] Hint Resolve reserveBucket_frame : txrel.
Lemma reserveAll_frame now clock n l m b : tx_rel sameAuthority (reserveAll now clock n l m b).
Proof. revert n b. induction l; intros n b; simpl; tx_rel. Qed.

(** ** The number of throttle rows *)

Lemma shrink_rows d d' : throttlesShrink d d' → throttleRows d' ≤ throttleRows d.
Proof. intros (_&H1&H2). unfold throttleRows. apply map_subseteq_size in H1, H2. lia. Qed.

Lemma size_insert_present {K A} `{Countable K} (m : gmap K A) k x : is_Some (m !! k) → size (<[k := x]> m) = size m.
Proof. intros [y Hy]. rewrite map_size_insert, Hy. done. Qed.
Lemma size_insert_le {K A} `{Countable K} (m : gmap K A) k x : (size (<[k := x]> m) ≤ S (size m))%nat.
Proof. rewrite map_size_insert. destruct (m !! k); simpl; lia. Qed.

Lemma deleteAliases_spec primary rows d u d' : deleteAliases primary rows d = inr (u, d') →
  ad_buckets d' = ad_buckets d ∧ ad_usernames d' !! primary = ad_usernames d !! primary ∧
  ∀ r, r ∈ rows → ut_key r ≠ primary → ad_usernames d' ⊆ delete (ut_key r) (ad_usernames d).
Proof.
  revert d. induction rows as [|r rows IH]; intros d; simpl.
  - intros [_ ->]%tx_ret_inv. split_and!; [done|done|]. intros r Hr. by apply not_elem_of_nil in Hr.
  - intros (v&s&Hm&H)%tx_bind_inv. pose proof (deleteAliases_shrinks _ _ _ _ _ H) as (_&_&Hsub). apply IH in H as (Hb&Hp&Hs).
    case_bool_decide as Hk.
    + tx_inv. split_and!; [done|done|]. intros x [->|Hx]%elem_of_cons Hne; [done|by apply Hs].
    + unfold delete_username in Hm. tx_inv. simpl in *. split_and!; [done|by rewrite Hp, lookup_delete_ne|].
      intros x [->|Hx]%elem_of_cons Hne; [done|]. etrans; [by apply Hs|]. apply delete_mono, delete_subseteq.
Qed.

Lemma loadUsername_Some now k d r : loadUsername now k d = Some r → ut_key r = k ∧ is_Some (ad_usernames d !! k).
Proof. unfold loadUsername. destruct (ad_usernames d !! k); [|done]. intros [= <-]. simpl. eauto. Qed.

Lemma answerUsername_inv now stamp k o f rows d r d' : answerUsername now stamp k o f rows d = inr (r, d') →
  d' = d ∨ ∃ row, d' = set_throttles (ad_buckets d) (<[k := row]> (ad_usernames d)) d.
Proof.
  unfold answerUsername. intros H. destruct (latestBlock now rows) as [b|].
  - apply tx_bind_inv in H as ([]&d1&Hu&H). tx_inv. case_match; tx_inv; [|by left]. apply upsert_username_inv in Hu as [_ ->]. eauto.
  - apply tx_bind_inv in H as ([]&d1&Hu&H). tx_inv. apply upsert_username_inv in Hu as [_ ->]. eauto.
Qed.

Lemma rows_insert_username d k row : throttleRows (set_throttles (ad_buckets d) (<[k := row]> (ad_usernames d)) d)
  = throttleRows d + (if isSomeb (ad_usernames d !! k) then 0 else 1).
Proof. unfold throttleRows. simpl. rewrite map_size_insert. destruct (ad_usernames d !! k); cbn [isSomeb id]; lia. Qed.
Lemma rows_insert_bucket d k row : throttleRows (set_throttles (<[k := row]> (ad_buckets d)) (ad_usernames d) d)
  = throttleRows d + (if isSomeb (ad_buckets d !! k) then 0 else 1).
Proof. unfold throttleRows. simpl. rewrite map_size_insert. destruct (ad_buckets d !! k); cbn [isSomeb id]; lia. Qed.

Lemma reserveUsername_rows now stamp i m d r d' :
  reserveUsernameThrottle now stamp i m d = inr (r, d') → throttleRows d ≤ m → throttleRows d' ≤ m.
Proof.
  unfold reserveUsernameThrottle. intros H Hm. tx_inv. set (primary := (ti_KeyVersion i, ti_Digest i)) in *.
  set (own := omap _ _) in *. destruct (_ && _ && _) eqn:Ho.
  - destruct (_ && _) eqn:Hfull in H; tx_inv; [done|]. apply answerUsername_inv in H as [->|[row ->]]; [done|].
    rewrite rows_insert_username. destruct (ad_usernames d !! overflowAlias) eqn:E; simpl; [lia|].
    assert (loadUsername now overflowAlias d = None) as Hn by (unfold loadUsername; by rewrite E). rewrite Hn in Hfull.
    simpl in Hfull. rewrite andb_true_r in Hfull. bool_hyps. lia.
  - apply tx_bind_inv in H as ([]&d1&Hd&H). pose proof (deleteAliases_shrinks _ _ _ _ _ Hd) as Hsh%shrink_rows.
    apply deleteAliases_spec in Hd as (Hb&Hkeep&Hdel). apply answerUsername_inv in H as [->|[row ->]]; [lia|].
    rewrite rows_insert_username, Hkeep. destruct (ad_usernames d !! primary) eqn:E; simpl in *; [lia|].
    destruct (decide (own = [])) as [Hown|Hown].
    + rewrite bool_decide_true in Ho by done. simpl in Ho. bool_hyps. lia.
    + destruct own as [|x own'] eqn:Eown; [done|]. assert (x ∈ omap (λ k, loadUsername now k d) (candidates i)) as Hx by (change (x ∈ own); rewrite Eown; left).
      apply list_elem_of_omap in Hx as (k&_&[Hk Hs]%loadUsername_Some).
      assert (ut_key x ≠ primary) as Hne by (rewrite Hk; intros ->; rewrite E in Hs; by destruct Hs).
      specialize (Hdel x ltac:(left) Hne). apply map_subseteq_size in Hdel. rewrite map_size_delete, Hk in Hdel.
      destruct (ad_usernames d !! k) eqn:Ek; [|by destruct Hs]. simpl in Hdel. unfold throttleRows in *. rewrite Hb in *.
      assert (size (ad_usernames d) ≠ 0%nat) by (intros Hz%map_size_empty_inv; by rewrite Hz in Ek). lia.
Qed.

(** *** Buckets *)

Definition present (kind : string) (window : Z) (d : AuthDB) (a : ThrottleAlias) : Prop := is_Some (ad_buckets d !! bucketKey kind a window).
#[global] Instance present_dec kind window d a : Decision (present kind window d a).
Proof. unfold present. apply _. Defined.
(** The attempts counted against an identity under all its live keys. *)
Fixpoint liveAttempts (kind : string) (window : Z) (aliases : list ThrottleAlias) (d : AuthDB) : Z :=
  match aliases with
  | [] => 0
  | a :: rest => match ad_buckets d !! bucketKey kind a window with Some b => bk_attempts b | None => 0 end + liveAttempts kind window rest d
  end.

Lemma laterOf_le b x : x ≤ laterOf b x.
Proof. unfold laterOf. destruct b as [y|]; [|done]. destruct (x <? y) eqn:E; bool_hyps; lia. Qed.

Lemma scan_spec kind w p l d s s' : scanAliases kind w p l d s = inr s' →
  sc_attempts s' = sc_attempts s + liveAttempts kind w l d ∧ sc_blocked s ≤ sc_blocked s' ∧
  sc_migrate s' = sc_migrate s ++ filter (present kind w d) (if p then List.tl l else l) ∧
  (sc_primary s' = true ↔ sc_primary s = true ∨ (p = true ∧ match l with a :: _ => present kind w d a | [] => False end)).
Proof.
  revert p s. induction l as [|a l IH]; intros p s; simpl.
  - intros [= <-]. destruct p; rewrite app_nil_r; split_and!; try lia; naive_solver.
  - destruct (ad_buckets d !! bucketKey kind a w) as [b|] eqn:E.
    + intros (s1&H1&H)%res_bind_inr. apply IH in H as (Ha&Hb&Hm&Hp). unfold scanRow in H1. apply res_bind_inr in H1 as (rec&_&H1).
      injection H1 as <-. simpl in *. assert (present kind w d a) as Hpr by (unfold present; rewrite E; eauto).
      pose proof (laterOf_le (bk_blocked b) (sc_blocked s)). split_and!; [lia|lia| |].
      * destruct p; [done|]. rewrite filter_cons_True by done. by rewrite Hm, <-app_assoc.
      * rewrite Hp, orb_true_iff. destruct p; naive_solver.
    + intros H. apply IH in H as (Ha&Hb&Hm&Hp). assert (¬ present kind w d a) as Hpr by (unfold present; rewrite E; by intros [? ?]).
      split_and!; [lia|lia| |].
      * destruct p; [done|]. by rewrite filter_cons_False by done.
      * rewrite Hp. destruct p; naive_solver.
Qed.

Definition dropKeys (kind : string) (window : Z) (l : list ThrottleAlias) (t : gmap BucketKey BucketRow) : gmap BucketKey BucketRow :=
  fold_left (λ m a, delete (bucketKey kind a window) m) l t.
Lemma dropKeys_lookup kind w l t k : dropKeys kind w l t !! k = if decide (k ∈ (λ a, bucketKey kind a w) <$> l) then None else t !! k.
Proof.
  unfold dropKeys. revert t. induction l as [|a l IH]; intros t; [done|]. simpl. rewrite IH. destruct (decide (k = bucketKey kind a w)) as [->|Hk].
  - rewrite lookup_delete_eq, (decide_True (P := _ ∈ bucketKey kind a w :: _)) by left. by destruct (decide _).
  - rewrite lookup_delete_ne by done. destruct (decide (k ∈ _ <$> l)) as [H|H].
    + by rewrite decide_True by by right.
    + rewrite decide_False; [done|]. by intros [?|?]%elem_of_cons.
Qed.
Lemma dropKeys_subseteq kind w l t : dropKeys kind w l t ⊆ t.
Proof. apply map_subseteq_spec. intros k x. rewrite dropKeys_lookup. by case_decide. Qed.
Lemma dropKeys_size kind w l t a : a ∈ l → is_Some (t !! bucketKey kind a w) → (size (dropKeys kind w l t) < size t)%nat.
Proof.
  intros Ha [x Hx]. assert (dropKeys kind w l t ⊆ delete (bucketKey kind a w) t) as Hs.
  { apply map_subseteq_spec. intros k y. rewrite dropKeys_lookup. case_decide as Hk; [done|]. intros Hy.
    rewrite lookup_delete_ne; [done|]. intros <-. apply Hk. by apply (list_elem_of_fmap_2 (λ a, bucketKey kind a w)). }
  apply map_subseteq_size in Hs. rewrite map_size_delete, Hx in Hs. assert (size t ≠ 0%nat) by (intros Hz%map_size_empty_inv; by rewrite Hz in Hx).
  simpl in Hs. lia.
Qed.

Lemma deleteMigrated_spec kind w l d u d' : deleteMigrated kind w l d = inr (u, d') →
  d' = set_throttles (dropKeys kind w l (ad_buckets d)) (ad_usernames d) d.
Proof.
  unfold dropKeys. revert d. induction l as [|a l IH]; intros d; simpl.
  - intros [_ ->]%tx_ret_inv. by destruct d.
  - intros (?&d1&Hd&H)%tx_bind_inv. unfold delete_bucket in Hd. tx_inv. by apply IH in H as ->.
Qed.

Definition ownKey (i : ThrottleIdentity) (w : Z) : BucketKey := bucketKey (ti_Kind i) (ti_KeyVersion i, ti_Digest i) w.

Lemma migrateAliases_spec i w stamp s d u d' : migrateAliases i w stamp s d = inr (u, d') →
  ∃ b, bk_attempts b = sc_attempts s ∧
    d' = set_throttles (<[ownKey i w := b]> (dropKeys (ti_Kind i) w (sc_migrate s) (ad_buckets d))) (ad_usernames d) d.
Proof.
  unfold migrateAliases. intros (?&d1&Hd&H)%tx_bind_inv. apply deleteMigrated_spec in Hd as ->. apply upsert_bucket_inv in H as (b&Eb&_&->).
  exists b. split; [|done]. by destruct (_ !! _) in Eb; subst b.
Qed.
Lemma countAttempt_spec k stamp rec d u d' : countAttempt k stamp rec d = inr (u, d') →
  ∃ b, bk_attempts b = match ad_buckets d !! k with Some old => bk_attempts old | None => 0 end + 1 ∧
    d' = set_throttles (<[k := b]> (ad_buckets d)) (ad_usernames d) d.
Proof.
  unfold countAttempt. intros (b&Eb&_&->)%upsert_bucket_inv. exists b. split; [|done]. by destruct (_ !! _); subst b.
Qed.

Lemma liveAttempts_none kind w l d : filter (present kind w d) l = [] → liveAttempts kind w l d = 0.
Proof.
  induction l as [|a l IH]; [done|]. rewrite filter_cons. destruct (decide (present kind w d a)) as [|Hn]; [done|]. intros H. simpl.
  rewrite IH by done. unfold present in Hn. by destruct (ad_buckets d !! _); [destruct Hn; eauto|].
Qed.
Lemma scanBuckets_spec i w blocked d s : scanBuckets i w blocked d = inr s →
  sc_attempts s = liveAttempts (ti_Kind i) w (candidates i) d ∧ blocked ≤ sc_blocked s ∧
  sc_migrate s = filter (present (ti_Kind i) w d) (ti_Aliases i) ∧
  (sc_primary s = true ↔ is_Some (ad_buckets d !! ownKey i w)) ∧
  (sc_primary s = false → sc_migrate s = [] → sc_attempts s = 0).
Proof.
  intros (Ha&Hb&Hm&Hp)%scan_spec. cbn [sc_attempts sc_blocked sc_migrate sc_primary candidates List.tl] in *.
  assert (sc_primary s = true ↔ is_Some (ad_buckets d !! ownKey i w)) as Hp' by (rewrite Hp; unfold present, ownKey; naive_solver).
  split_and!; [lia|done|done|done|]. intros Hf Hmig. rewrite Ha, Z.add_0_l. apply liveAttempts_none. unfold candidates.
  rewrite filter_cons_False; [by rewrite Hm in Hmig|]. intros Hpr. apply Hp' in Hpr. congruence.
Qed.

Definition overflowKey (kind : string) (w : Z) : BucketKey := bucketKey (kind +:+ "_overflow") overflowAlias w.

Lemma reserveBucket_cases now s1 s2 i m blocked d r d' : reserveBucket now s1 s2 i m blocked d = inr (r, d') →
  let w := truncate now quarter in
  ∃ s d1, scanBuckets i w blocked d = inr s ∧
    (sc_migrate s = [] ∧ d1 = d ∨ sc_migrate s ≠ [] ∧ migrateAliases i w s1 s d = inr (tt, d1)) ∧
    ((∃ res, r = inl res ∧ tr_Allowed res = false ∧ d' = d1) ∨
     (∃ b', r = inr b' ∧ sc_blocked s ≤ b' ≤ now ∧
       ((sc_primary s = false ∧ sc_migrate s = [] ∧ m - 4 ≤ throttleRows d1 ∧
         (throttleRows d1 < m ∨ is_Some (ad_buckets d1 !! overflowKey (ti_Kind i) w)) ∧
         match ad_buckets d1 !! overflowKey (ti_Kind i) w with Some b => bk_attempts b | None => 0 end < attemptLimit (ti_Kind i) ∧
         countAttempt (overflowKey (ti_Kind i) w) s2 None d1 = inr (tt, d')) ∨
        ((sc_primary s = true ∨ sc_migrate s ≠ [] ∨ throttleRows d1 < m - 4) ∧ sc_attempts s < attemptLimit (ti_Kind i) ∧
         countAttempt (ownKey i w) s2 (sc_recovery s) d1 = inr (tt, d'))))).
Proof.
  intros H w. unfold reserveBucket in H. fold w in H. tx_inv. rename v0 into s, s3 into d1, Hm0 into Hc, Hm1 into Hm.
  destruct (scanBuckets i w blocked d) as [?|s'] eqn:Hscan; [done|]. injection Hc as -> ->.
  exists s, d1. split; [done|]. split.
  { destruct v1. case_bool_decide; simpl in Hm; tx_inv; auto. }
  destruct (now <? sc_blocked s) eqn:Hb.
  { tx_inv. left. unfold deniedUntil. eauto. }
  bool_hyps. tx_inv. destruct (negb (sc_primary s || _) && _) eqn:Ho.
  - apply andb_true_iff in Ho as [[Hp Hmig]%negb_true_iff%orb_false_iff Hcap%Z.leb_le]. apply negb_false_iff, bool_decide_eq_true in Hmig.
    tx_inv. change (bucketKey (ti_Kind i +:+ "_overflow") overflowAlias w) with (overflowKey (ti_Kind i) w) in *.
    set (row := ad_buckets _ !! overflowKey (ti_Kind i) w) in *.
    destruct (_ && _) eqn:Hfull in H; [tx_inv; left; unfold deniedUntil; eauto|].
    destruct (now <? laterOf _ _) eqn:Hb2; [tx_inv; left; unfold deniedUntil; eauto|].
    destruct (attemptLimit _ <=? _) eqn:Hl; [tx_inv; left; unfold deniedUntil; eauto|]. bool_hyps.
    apply tx_bind_inv in H as ([]&?&Hw&H). tx_inv. right. eexists. split; [done|]. split; [split; [apply laterOf_le|done]|]. left.
    apply scanBuckets_spec in Hscan as (_&_&_&_&Hz). specialize (Hz Hp Hmig). split_and!; try done.
    + destruct row; simpl in Hfull; [eauto|]. rewrite andb_true_r in Hfull. bool_hyps. by left.
    + destruct row; simpl in *; lia.
  - tx_inv. destruct (attemptLimit _ <=? _) eqn:Hl; [tx_inv; left; unfold deniedUntil; eauto|]. bool_hyps.
    apply tx_bind_inv in H as ([]&?&Hw&H). tx_inv. right. eexists. split; [done|]. split; [done|]. right. split_and!; [|done|done].
    apply andb_false_iff in Ho as [Ho|Ho]; [|bool_hyps; right; right; lia]. apply negb_false_iff, orb_true_iff in Ho as [Ho|Ho]; [by left|].
    apply negb_true_iff, bool_decide_eq_false in Ho. auto.
Qed.

Lemma reserveBucket_rows now s1 s2 i m blocked d r d' :
  reserveBucket now s1 s2 i m blocked d = inr (r, d') → throttleRows d ≤ m → throttleRows d' ≤ m.
Proof.
  intros (s&d1&Hscan&Hmig&Hres)%reserveBucket_cases Hm. set (w := truncate now quarter) in *.
  apply scanBuckets_spec in Hscan as (_&_&Hmg&Hp&_).
  assert (throttleRows d1 ≤ throttleRows d ∧ (sc_primary s = true ∨ sc_migrate s ≠ [] → is_Some (ad_buckets d1 !! ownKey i w))) as [H1 Hown].
  { destruct Hmig as [[Hn ->]|[Hn Hmig]]; [split; [lia|intros [Hs|?]; [by apply Hp|done]]|].
    apply migrateAliases_spec in Hmig as (b&_&->). simpl. rewrite lookup_insert_eq. split; [|eauto].
    destruct (sc_migrate s) as [|a l] eqn:El; [done|]. assert (a ∈ filter (present (ti_Kind i) w d) (ti_Aliases i)) as Ha by (rewrite <-Hmg; left).
    apply list_elem_of_filter in Ha as [Ha _]. pose proof (dropKeys_size (ti_Kind i) w (a :: l) _ a ltac:(left) Ha) as Hs.
    pose proof (size_insert_le (dropKeys (ti_Kind i) w (a :: l) (ad_buckets d)) (ownKey i w) b). unfold throttleRows. cbn [ad_buckets ad_usernames set_throttles].
    lia. }
  destruct Hres as [(res&_&_&->)|(b'&_&_&[(_&_&_&Hroom&_&Hc)|(Hroom&_&Hc)])]; [lia|..].
  - apply countAttempt_spec in Hc as (b&_&->). rewrite rows_insert_bucket.
    destruct (ad_buckets d1 !! overflowKey _ _) eqn:E; simpl; [lia|]. destruct Hroom as [?|[? ?]]; [lia|done].
  - apply countAttempt_spec in Hc as (b&_&->). rewrite rows_insert_bucket.
    destruct (ad_buckets d1 !! ownKey i w) eqn:E; simpl; [lia|]. destruct Hroom as [Hr|[Hr|Hr]]; [..|lia]; by destruct Hown as [? ?]; auto.
Qed.

Lemma reserveAll_rows now clock n l m b d r d' :
  reserveAll now clock n l m b d = inr (r, d') → throttleRows d ≤ m → throttleRows d' ≤ m.
Proof.
  revert n b d. induction l as [|i l IH]; intros n b d; simpl; [by intros [_ ->]%tx_ret_inv|].
  case_bool_decide as Hkind; intros (v&d1&H1&H)%tx_bind_inv Hm.
  - apply reserveUsername_rows in H1; [|done]. case_match; tx_inv; [done|by eapply IH].
  - apply reserveBucket_rows in H1; [|done]. destruct v; tx_inv; [done|by eapply IH].
Qed.

(** The cap every replica must agree on bounds both tables. *)
Definition rowsBounded (d : AuthDB) : Prop :=
  match ad_max_rows d with Some m => 8 ≤ m ≤ 100000 ∧ throttleRows d ≤ m | None => throttleRows d = 0 end.
Lemma ReserveThrottle_rows now clock l m d r d' : ReserveThrottle now clock l m d = inr (r, d') → rowsBounded d → rowsBounded d'.
Proof.
  unfold ReserveThrottle, rowsBounded. intros H Hd. tx_inv.
  match goal with H : checked _ _ = inr _ |- _ => unfold checked in H; destruct (validateThrottleIdentities l m) eqn:Hv; [done|]; tx_inv end.
  match goal with H : reserveAll _ _ _ _ _ _ ?d1 = _ |- _ => pose proof (reserveAll_frame _ _ _ _ _ _ _ _ _ H) as (_&_&_&_&Hmax&_); rename H into Hall end.
  assert (8 ≤ m ≤ 100000) as Hrange.
  { unfold validateThrottleIdentities in Hv. destruct (_ || _) eqn:E in Hv; [done|]. bool_hyps. lia. }
  match goal with H : assume _ _ _ = inr _ |- _ => apply tx_guard_inv in H as [Heq ->] end. apply Z.eqb_eq in Heq.
  destruct (ad_max_rows d) as [m'|] eqn:Em; simpl in *; tx_inv; simpl in *.
  - rewrite Hmax, Em. subst m'. split; [done|]. eapply reserveAll_rows; [done|]. lia.
  - rewrite Hmax. split; [done|]. eapply reserveAll_rows; [done|]. unfold throttleRows in *. simpl. lia.
Qed.
