(* ===== verification/AuthSystem.v ===== *)
(** * The authentication system

    The calls of the repository as a step relation on its database, the
    invariant of reachable states, and what no call ever takes back. *)
From S2P Require Import Prelude GoStd Base64 Token Route Regex HealthGate Schema Evidence LeaseCore Password Hmac AuthTokens AuthStore Throttle Sessions AuthInv.
From stdpp Require Import sorting relations.
#[local] Open Scope Z_scope.

(** ** What the statements do *)

Lemma update_sessions_spec ids f d u d' : NoDup ids → update_sessions ids f d = inr (u, d') →
  ∃ t, d' = set_sessions t d ∧
    (∀ id, t !! id = if decide (id ∈ ids) then f <$> ad_sessions d !! id else ad_sessions d !! id) ∧
    (∀ id s, id ∈ ids → ad_sessions d !! id = Some s → session_check id (f s) = true).
Proof.
  intros Hnd. revert d. induction Hnd as [|id ids Hid Hnd IH]; intros d; simpl.
  - intros [= _ <-]. exists (ad_sessions d). split; [by destruct d|]. split; [done|]. intros ? ? H. by apply not_elem_of_nil in H.
  - destruct (ad_sessions d !! id) as [s|] eqn:Es.
    + destruct (session_check id (f s)) eqn:Hc; simpl; [|done]. intros (t&->&Ht&Hck)%IH. exists t. split; [done|]. simpl in *. split.
      * intros k. rewrite Ht. destruct (decide (k = id)) as [->|Hk].
        -- rewrite decide_False, decide_True by (done || by left). by rewrite lookup_insert_eq, Es.
        -- rewrite lookup_insert_ne by done. destruct (decide (k ∈ ids)) as [H|H]; [by rewrite decide_True by by right|].
           rewrite decide_False; [done|]. by intros [?|?]%elem_of_cons.
      * intros k s' [->|Hk]%elem_of_cons Hs; [by simplify_eq|]. apply Hck; [done|]. rewrite lookup_insert_ne; [done|]. by intros ->.
    + intros (t&->&Ht&Hck)%IH. exists t. split; [done|]. split.
      * intros k. rewrite Ht. destruct (decide (k = id)) as [->|Hk].
        -- rewrite decide_False, decide_True by (done || by left). by rewrite Es.
        -- destruct (decide (k ∈ ids)) as [H|H]; [by rewrite decide_True by by right|].
           rewrite decide_False; [done|]. by intros [?|?]%elem_of_cons.
      * intros k s' [->|Hk]%elem_of_cons Hs; [congruence|]. by apply Hck.
Qed.

Lemma insertAudit_spec id actor owner action now d u d' : insertAudit id actor owner action now d = inr (u, d') →
  ∃ a, d' = set_audit a d.
Proof.
  unfold insertAudit, text_param. intros H. tx_inv. unfold violated, tx_fail in H. do 3 (case_match; [done|]). simplify_eq. eauto.
Qed.
Lemma insert_session_spec id s d u d' : insert_session id s d = inr (u, d') →
  session_check id s = true ∧ ad_sessions d !! id = None ∧ (∀ id' s', ad_sessions d !! id' = Some s' → as_digest s' ≠ as_digest s) ∧
  (∃ r, ad_users d !! as_user s = Some r ∧ us_owner r = as_owner s) ∧ d' = set_sessions (<[id := s]> (ad_sessions d)) d.
Proof.
  unfold insert_session, violated, tx_fail. destruct (session_check id s) eqn:Hc; simpl; [|done].
  destruct (ad_sessions d !! id) eqn:Hid; simpl; [done|]. case_bool_decide as Hu; simpl; [|done].
  destruct (_ && _) eqn:Hf; simpl; [|done]. intros [= _ <-]. bool_hyps. split_and!; [done|done| |  |done].
  - intros id' s' Hs'. by apply (Hu id' s').
  - unfold user_owner_exists in *. destruct (ad_users d !! as_user s); [|done]. bool_hyps. eauto.
Qed.
Lemma insert_user_spec id x d u d' : insert_user id x d = inr (u, d') →
  user_check id x = true ∧ ad_users d !! id = None ∧ d' = set_users (<[id := x]> (ad_users d)) d.
Proof.
  unfold insert_user, violated, tx_fail. destruct (user_check id x) eqn:Hc; simpl; [|done].
  destruct (ad_users d !! id) eqn:Hid; simpl; [done|]. do 2 (case_match; [done|]). intros [= _ <-]. done.
Qed.
Lemma replacePassword_spec id v f now d u d' : replacePassword id v f now d = inr (u, d') →
  match ad_users d !! id with
  | None => d' = d
  | Some x => ∃ y, d' = set_users (<[id := y]> (ad_users d)) d ∧ user_check id y = true ∧ us_owner y = us_owner x ∧
                   us_auth_revision y = f (us_auth_revision x) ∧ us_active y = us_active x ∧ us_phc y = pv_PHC v
  end.
Proof.
  unfold replacePassword, update_user. destruct (ad_users d !! id) as [x|]; [|by intros [= _ <-]].
  destruct (user_check id _) eqn:Hc; simpl; [|done]. intros [= _ <-]. eauto 10.
Qed.

(** ** The invariant *)

Definition liveOf (user : string) (d : AuthDB) : gmap string AdminSession := filter (λ kv, liveSession user kv.2 = true) (ad_sessions d).

Record auth_core (d : AuthDB) : Prop := {
  ac_session : ∀ id s, ad_sessions d !! id = Some s → session_check id s = true ∧
    ∃ u, ad_users d !! as_user s = Some u ∧ us_owner u = as_owner s ∧ as_auth_revision s ≤ us_auth_revision u;
  ac_digest : ∀ id id' s s', ad_sessions d !! id = Some s → ad_sessions d !! id' = Some s' → as_digest s = as_digest s' → id = id';
  ac_user : ∀ id u, ad_users d !! id = Some u → user_check id u = true ∧ us_auth_revision u < 2 ^ 63 ∧ us_owner u ≠ "";
  ac_rows : rowsBounded d;
}.
Definition limited (d : AuthDB) : Prop := ∀ user, (size (liveOf user d) ≤ 10)%nat.
Definition auth_inv (d : AuthDB) : Prop := auth_core d ∧ limited d.

(** Users stay, and their revisions only grow. *)
Definition usersGrow (d d' : AuthDB) : Prop :=
  ∀ id u, ad_users d !! id = Some u → ∃ u', ad_users d' !! id = Some u' ∧ us_owner u' = us_owner u ∧ us_auth_revision u ≤ us_auth_revision u'.
#[global] Instance usersGrow_pre : PreOrder usersGrow.
Proof.
  split; [intros d id u Hu; exists u; by split_and!|]. intros x y z H1 H2 id u Hu. destruct (H1 id u Hu) as (u1&Hu1&?&?).
  destruct (H2 id u1 Hu1) as (u2&Hu2&?&?). exists u2. split_and!; [done|congruence|lia].
Qed.

(** What a call keeps. *)
Definition auth_step_ok (d d' : AuthDB) : Prop := auth_inv d → auth_inv d' ∧ usersGrow d d'.

Lemma same_rows d d' : throttlesShrink d d' → rowsBounded d → rowsBounded d'.
Proof.
  intros Hs. pose proof (shrink_rows d d' Hs). destruct Hs as ((_&_&_&_&Hm&_)&_). unfold rowsBounded. rewrite Hm.
  destruct (ad_max_rows d); [lia|]. unfold throttleRows in *. lia.
Qed.

(** Statements that leave users and sessions alone. *)
Lemma keeps_authority d d' : ad_users d' = ad_users d → ad_sessions d' = ad_sessions d → (rowsBounded d → rowsBounded d') → auth_step_ok d d'.
Proof.
  intros Hu Hs Hr [[H1 H2 H3 H4] Hl]. split; [split; [constructor|]|].
  - by rewrite Hs, Hu.
  - by rewrite Hs.
  - by rewrite Hu.
  - by apply Hr.
  - intros user. unfold liveOf. rewrite Hs. apply Hl.
  - intros id u. rewrite Hu. intros Hx. exists u. by split_and!.
Qed.

Lemma auth_step_ok_trans d1 d2 d3 : auth_step_ok d1 d2 → auth_step_ok d2 d3 → auth_step_ok d1 d3.
Proof. intros H1 H2 H. destruct (H1 H) as [Hi Hg]. destruct (H2 Hi) as [Hi' Hg']. split; [done|]. by etrans. Qed.
#[global] Instance auth_step_ok_pre : PreOrder auth_step_ok.
Proof. split; [intros d H; by split|exact auth_step_ok_trans]. Qed.

Lemma shrink_step_ok d d' : throttlesShrink d d' → auth_step_ok d d'.
Proof. intros E. pose proof (same_rows d d' E) as Hr. destruct E as ((_&_&Hu&Hs&_)&_). by apply keeps_authority. Qed.
Lemma shrinks_ok {A} (m : AuthTx A) : tx_rel throttlesShrink m → tx_rel auth_step_ok m.
Proof. intros H d a d' E. by apply shrink_step_ok, (H _ _ _ E). Qed.
Lemma audit_ok id actor owner action now : tx_rel auth_step_ok (insertAudit id actor owner action now).
Proof. intros d u d' [a ->]%insertAudit_spec. by apply keeps_authority. Qed.
#[export] Hint Resolve audit_ok : txrel.
#[export] Hint Extern 3 (tx_rel auth_step_ok _) => apply shrinks_ok; solve [auto with txrel] : txrel.

(** A rewritten password, with the revision kept or raised. *)
Lemma replace_ok id v f now : (∀ r, r ≤ f r) →
  ∀ d u d', replacePassword id v f now d = inr (u, d') → (∀ x, ad_users d !! id = Some x → f (us_auth_revision x) < 2 ^ 63) → auth_step_ok d d'.
Proof.
  intros Hf d u d' H%replacePassword_spec Hmax. destruct (ad_users d !! id) as [x|] eqn:Ex; [|by subst].
  destruct H as (y&->&Hc&Ho&Hr&_). intros [[H1 H2 H3 H4] Hl]. split; [split; [constructor|]|]; simpl.
  - intros k s Hs. destruct (H1 k s Hs) as (Hck&z&Hz&Hzo&Hzr). split; [done|]. destruct (decide (as_user s = id)) as [E|Hne].
    + rewrite E in *. assert (z = x) as -> by congruence. exists y. rewrite lookup_insert_eq. split_and!; [done|congruence|].
      rewrite Hr. pose proof (Hf (us_auth_revision x)). lia.
    + exists z. by rewrite lookup_insert_ne by done.
  - done.
  - intros k z. destruct (decide (k = id)) as [->|Hne]; [rewrite lookup_insert_eq; intros [= <-]|rewrite lookup_insert_ne by done; apply H3].
    split; [done|]. rewrite Hr, Ho. split; [by apply Hmax|]. by destruct (H3 _ _ Ex) as (_&_&?).
  - done.
  - done.
  - intros k z Hz. simpl. destruct (decide (k = id)) as [->|Hne].
    + rewrite lookup_insert_eq. exists y. assert (z = x) as -> by congruence. split_and!; [done..|]. rewrite Hr. apply Hf.
    + rewrite lookup_insert_ne by done. exists z. by split_and!.
Qed.

(** Changing sessions without minting any. *)
Definition sessionStep (s s' : AdminSession) : Prop :=
  as_digest s' = as_digest s ∧ as_user s' = as_user s ∧ as_owner s' = as_owner s ∧ as_auth_revision s' = as_auth_revision s ∧
  (isSomeb (as_revoked s) = true → isSomeb (as_revoked s') = true).
Lemma sessions_ok d t :
  (∀ id s', t !! id = Some s' → ∃ s, ad_sessions d !! id = Some s ∧ sessionStep s s' ∧ session_check id s' = true) →
  auth_step_ok d (set_sessions t d).
Proof.
  intros Ht [[H1 H2 H3 H4] Hl]. split; [split; [constructor|]|]; simpl.
  - intros id s' (s&Hs&(_&Hu&Ho&Hr&_)&Hc)%Ht. destruct (H1 id s Hs) as (_&u&?&?&?). split; [done|]. exists u. rewrite Hu, Ho, Hr. done.
  - intros id id' s s' (x&Hx&(Ed&_)&_)%Ht (y&Hy&(Ed'&_)&_)%Ht E. eapply H2; [done..|]. congruence.
  - done.
  - done.
  - intros user. etrans; [|apply (Hl user)]. rewrite <-!size_dom. apply subseteq_size. intros id.
    rewrite !elem_of_dom. intros [s' [Hs' Hlive]%map_lookup_filter_Some]. apply Ht in Hs' as (s&Hs&(_&Hu&_&_&Hrev)&_).
    exists s. apply map_lookup_filter_Some. split; [done|]. simpl in *. unfold liveSession in *. rewrite Hu in Hlive. bool_hyps.
    rewrite bool_decide_true by done. destruct (isSomeb (as_revoked s)); [|done]. rewrite Hrev in * by done. done.
  - intros id u Hu. exists u. by split_and!.
Qed.

Lemma update_sessions_ok ids f : NoDup ids → (∀ s, sessionStep s (f s)) → tx_rel auth_step_ok (update_sessions ids f).
Proof.
  intros Hnd Hf d u d' (t&->&Ht&Hc)%update_sessions_spec; [|done]. intros Hinv. eapply sessions_ok; [|done]. intros id s' Hs'.
  rewrite Ht in Hs'. case_decide as Hid.
  - apply fmap_Some in Hs' as (s&Hs&->). eauto 10.
  - exists s'. split; [done|]. split; [by repeat split|]. destruct Hinv as [[H1 _ _ _] _]. by destruct (H1 _ _ Hs').
Qed.
Lemma touch_step now s : sessionStep s (touch now s).
Proof. by repeat split. Qed.
Lemma revoke_step now r s : sessionStep s (revoke now r s).
Proof. by repeat split. Qed.

Lemma NoDup_keys {A} (P : string * A → Prop) `{∀ x, Decision (P x)} (t : gmap string A) : NoDup (fst <$> filter P (map_to_list t)).
Proof. eapply sublist_NoDup; [apply (NoDup_fst_map_to_list t)|]. apply fmap_sublist, sublist_filter. Qed.

Lemma liveSessionsOf_NoDup user d : NoDup (liveSessionsOf user d).
Proof. apply (NoDup_keys (λ kv, liveSession user kv.2 = true)). Qed.
Lemma elem_of_liveSessionsOf user d id : id ∈ liveSessionsOf user d ↔ ∃ s, ad_sessions d !! id = Some s ∧ liveSession user s = true.
Proof.
  unfold liveSessionsOf. rewrite list_elem_of_fmap. setoid_rewrite list_elem_of_filter. setoid_rewrite elem_of_map_to_list'. split.
  - intros ([k s]&->&Hl&Hs). eauto.
  - intros (s&Hs&Hl). by exists (id, s).
Qed.

(** ** Minting under the limit *)

Lemma mintSession_spec id digest userID owner revision now d s d' : mintSession id digest userID owner revision now d = inr (s, d') →
  let row := {| as_digest := digest; as_user := userID; as_owner := owner; as_auth_revision := revision; as_created := now;
                as_last_seen := now; as_idle := now + 30 * minute; as_absolute := now + 480 * minute; as_revoked := None |} in
  session_check id row = true ∧ ad_sessions d !! id = None ∧ (∀ id' s', ad_sessions d !! id' = Some s' → as_digest s' ≠ digest) ∧
  d' = set_sessions (<[id := row]> (ad_sessions d)) d ∧ s_ID s = id ∧ s_UserID s = userID ∧ s_OwnerID s = owner ∧ s_AuthRevision s = revision.
Proof.
  intros H row. unfold mintSession, text_param in H. tx_inv.
  match goal with H : insert_session _ _ _ = _ |- _ => apply insert_session_spec in H as (?&?&?&_&->) end. done.
Qed.

Section limit.
Context (user : string) (d : AuthDB).
Let sorted := merge_sort newestFirst (filter (λ kv, liveSession user kv.2 = true) (map_to_list (ad_sessions d))).

Lemma sorted_live kv : kv ∈ sorted ↔ ad_sessions d !! kv.1 = Some kv.2 ∧ liveSession user kv.2 = true.
Proof. unfold sorted. rewrite merge_sort_Permutation, list_elem_of_filter, elem_of_map_to_list'. naive_solver. Qed.
Lemma sorted_NoDup : NoDup sorted.*1.
Proof. unfold sorted. rewrite merge_sort_Permutation. apply NoDup_keys. Qed.
Lemma excessive_sorted : excessive user d = (drop 10 sorted).*1.
Proof. done. Qed.
Lemma length_sorted : length sorted = size (liveOf user d).
Proof.
  rewrite <-size_dom. rewrite <-(length_fmap fst sorted). rewrite <-(size_list_to_set (C := gset string)) by apply sorted_NoDup.
  f_equal. apply set_eq. intros id. rewrite elem_of_list_to_set, elem_of_dom, list_elem_of_fmap. unfold liveOf. split.
  - intros (kv&->&[Hs Hl]%sorted_live). exists kv.2. by apply map_lookup_filter_Some.
  - intros [s [Hs Hl]%map_lookup_filter_Some]. exists (id, s). split; [done|]. by apply sorted_live.
Qed.
Lemma length_excessive : length (excessive user d) = (size (liveOf user d) - 10)%nat.
Proof. rewrite excessive_sorted, length_fmap, length_drop. by rewrite length_sorted. Qed.
Lemma excessive_NoDup : NoDup (excessive user d).
Proof. rewrite excessive_sorted, fmap_drop. eapply sublist_NoDup; [apply sorted_NoDup|]. apply sublist_drop. Qed.
Lemma excessive_live id : id ∈ excessive user d → ∃ s, ad_sessions d !! id = Some s ∧ liveSession user s = true.
Proof.
  rewrite excessive_sorted. intros (kv&->&Hkv)%list_elem_of_fmap. exists kv.2. apply sorted_live.
  rewrite <-(take_drop 10 sorted), elem_of_app. by right.
Qed.
(** A session of the user that stays live after the limit is among the ten
    newest. *)
Lemma kept_newest id s : ad_sessions d !! id = Some s → liveSession user s = true → id ∉ excessive user d → id ∈ (take 10 sorted).*1.
Proof.
  intros Hs Hl Hn. assert ((id, s) ∈ sorted) as Hin by by apply sorted_live. rewrite <-(take_drop 10 sorted), elem_of_app in Hin.
  destruct Hin as [Hin|Hin]; [by apply (list_elem_of_fmap_2 fst _ (id, s))|]. destruct Hn. rewrite excessive_sorted. by apply (list_elem_of_fmap_2 fst _ (id, s)).
Qed.
(** No session that is kept is older than one that is not. *)
Lemma excessive_oldest id x id' x' : id ∈ excessive user d → ad_sessions d !! id = Some x →
  id' ∉ excessive user d → ad_sessions d !! id' = Some x' → liveSession user x' = true → as_created x ≤ as_created x'.
Proof.
  intros Hin Hx Hnin Hx' Hl'. pose proof (kept_newest id' x' Hx' Hl' Hnin) as Hk.
  rewrite excessive_sorted in Hin. apply list_elem_of_fmap in Hin as ([k z]&->&Hin). apply list_elem_of_fmap in Hk as ([k' z']&->&Hk). simpl in *.
  assert (StronglySorted (λ a b, b ≤ a) ((λ kv, as_created kv.2) <$> sorted)) as Hss.
  { apply Sorted_StronglySorted; [intros a b c; lia|]. apply (Sorted_fmap _ newestFirst); [unfold newestFirst; intros; lia|].
    apply Sorted_merge_sort. intros a b. unfold newestFirst. destruct (String.leb_total b.1 a.1); lia || (destruct (Z.lt_trichotomy (as_created a.2) (as_created b.2)) as [|[|]]; auto). }
  rewrite <-(take_drop 10 sorted), fmap_app in Hss.
  assert (∀ kv, kv ∈ sorted → ad_sessions d !! kv.1 = Some kv.2) as Hrow by (intros kv; rewrite sorted_live; tauto).
  assert (z = x) as -> by (specialize (Hrow (k, z)); rewrite <-(take_drop 10 sorted), elem_of_app in Hrow; simpl in Hrow; rewrite Hrow in Hx by auto; congruence).
  assert (z' = x') as -> by (specialize (Hrow (k', z')); rewrite <-(take_drop 10 sorted), elem_of_app in Hrow; simpl in Hrow; rewrite Hrow in Hx' by auto; congruence).
  apply (StronglySorted_app_1_elem_of _ _ _ (as_created x') (as_created x) Hss).
  - by apply (list_elem_of_fmap_2 (λ kv, as_created kv.2) _ (k', x')).
  - by apply (list_elem_of_fmap_2 (λ kv, as_created kv.2) _ (k, x)).
Qed.
Lemma limited_size now r (t : gmap string AdminSession) :
  (∀ id, t !! id = if decide (id ∈ excessive user d) then revoke now r <$> ad_sessions d !! id else ad_sessions d !! id) →
  (size (filter (λ kv, liveSession user kv.2 = true) t) ≤ 10)%nat.
Proof.
  intros Ht. rewrite <-size_dom. etrans; [apply (subseteq_size _ (list_to_set (take 10 sorted).*1))|].
  - intros id. rewrite elem_of_dom. intros [s [Hs Hl]%map_lookup_filter_Some]. apply elem_of_list_to_set. rewrite Ht in Hs. simpl in Hl.
    case_decide as Hx; [|by eapply kept_newest].
    apply fmap_Some in Hs as (z&_&->). unfold liveSession in Hl. rewrite andb_false_r in Hl. done.
  - rewrite size_list_to_set; [rewrite length_fmap, length_take; lia|]. rewrite fmap_take.
    eapply sublist_NoDup; [apply sorted_NoDup|apply sublist_take].
Qed.
End limit.

(** Minting and limiting together keep everybody within ten sessions, and
    revoke at most one. *)
Lemma mint_limit_ok id digest userID owner revision limitID now now2 at2 d s d1 u d' :
  mintSession id digest userID owner revision now d = inr (s, d1) →
  limitSessions userID owner limitID now2 at2 d1 = inr (u, d') →
  (∃ x, ad_users d !! userID = Some x ∧ us_owner x = owner ∧ us_auth_revision x = revision) → auth_step_ok d d'.
Proof.
  intros Hmint Hlim (x&Hx&Ho&Hr) Hinv. pose proof Hinv as [[H1 H2 H3 H4] Hl].
  apply mintSession_spec in Hmint as (Hck&Hfresh&Hdig&->&_). set (row := Build_AdminSession _ _ _ _ _ _ _ _ _) in *.
  set (d1 := set_sessions (<[id := row]> (ad_sessions d)) d) in *.
  assert (auth_core d1) as Hcore.
  { constructor; simpl; [..|done|done].
    - intros k z. destruct (decide (k = id)) as [->|Hne]; [rewrite lookup_insert_eq; intros [= <-]|rewrite lookup_insert_ne by done; apply H1].
      split; [done|]. exists x. simpl. split_and!; [done|done|lia].
    - intros k k' z z'. destruct (decide (k = id)) as [->|Hne], (decide (k' = id)) as [->|Hne']; [done|..];
        rewrite ?lookup_insert_eq, ?lookup_insert_ne by done; [intros [= <-] Hz' E|intros Hz [= <-] E|by apply H2].
      + simpl in E. symmetry in E. by destruct (Hdig _ _ Hz').
      + simpl in E. by destruct (Hdig _ _ Hz). }
  unfold limitSessions in Hlim. apply tx_bind_inv in Hlim as (ids&?&Hids&Hlim). apply tx_read_inv in Hids as [<- ->].
  apply tx_bind_inv in Hlim as ([]&d2&Hup&Hlim). apply update_sessions_spec in Hup as (t&->&Ht&Hct); [|apply excessive_NoDup].
  set (d2 := set_sessions t d1) in *.
  assert (auth_inv d2 ∧ usersGrow d d2) as [Hinv2 Hg].
  { assert (∀ k z', t !! k = Some z' → ∃ z, ad_sessions d1 !! k = Some z ∧ sessionStep z z' ∧ session_check k z' = true) as Hstep.
    { intros k z'. rewrite Ht. case_decide as Hk.
      - intros (z&Hz&->)%fmap_Some. eexists. split; [done|]. split; [apply revoke_step|by apply Hct].
      - intros Hz. exists z'. split; [done|]. split; [by repeat split|]. by destruct (ac_session d1 Hcore _ _ Hz). }
    split; [split|].
    - destruct Hcore as [K1 K2 K3 K4]. constructor; [..|done|done].
      + intros k z' (z&Hz&(_&Hu&Hzo&Hzr&_)&Hc)%Hstep. destruct (K1 k z Hz) as (_&y&?&?&?). split; [done|]. exists y. rewrite Hu, Hzo, Hzr. done.
      + intros k k' z z' (a&Ha&(Ed&_)&_)%Hstep (b&Hb&(Ed'&_)&_)%Hstep E. eapply K2; [done..|]. congruence.
    - intros user. destruct (decide (user = userID)) as [->|Hne].
      + by eapply limited_size.
      + etrans; [|apply (Hl user)]. rewrite <-!size_dom. apply subseteq_size. intros k. rewrite !elem_of_dom.
        intros [z' [Hz' Hlive]%map_lookup_filter_Some]. apply Hstep in Hz' as (z&Hz&(_&Hu&_&_&Hrev)&_). simpl in *.
        destruct (decide (k = id)) as [->|Hk].
        { rewrite lookup_insert_eq in Hz. injection Hz as <-. unfold liveSession in Hlive. rewrite Hu in Hlive. bool_hyps. by destruct Hne. }
        rewrite lookup_insert_ne in Hz by done. exists z. apply map_lookup_filter_Some. split; [done|]. simpl in *. unfold liveSession in *.
        rewrite Hu in Hlive. bool_hyps. rewrite bool_decide_true by done. destruct (isSomeb (as_revoked z)); [|done]. rewrite Hrev in * by done. done.
    - intros k z Hz. exists z. by split_and!. }
  unfold assume in Hlim. apply tx_bind_inv in Hlim as ([]&?&Hg2&Hlim). apply tx_guard_inv in Hg2 as [_ ->].
  assert (auth_step_ok d2 d') as Hrest by (case_match; [by eapply audit_ok|by apply tx_ret_inv in Hlim as [_ ->]]).
  destruct (Hrest Hinv2) as [Hi Hg3]. split; [done|]. by etrans.
Qed.

(** ** Every call *)

Lemma checked_inv {S A} (r : Result A) (s : S) a s' : checked r s = inr (a, s') ↔ r = inr a ∧ s' = s.
Proof. unfold checked, tx_fail, tx_ret. destruct r; naive_solver. Qed.
Lemma assume_inv {S} ok text (s : S) u s' : assume ok text s = inr (u, s') ↔ ok = true ∧ s' = s.
Proof. apply tx_guard_inv. Qed.
Lemma sessionDigest_inv token d digest d' : sessionDigest token d = inr (digest, d') ↔ SessionTokenDigest token = inr digest ∧ d' = d.
Proof. unfold sessionDigest, unauthenticated, tx_fail, tx_ret. destruct (SessionTokenDigest token); naive_solver. Qed.
Lemma text_param_inv s d u d' : text_param s d = inr (u, d') ↔ sqlText s = true ∧ d' = d.
Proof. apply tx_guard_inv. Qed.
Lemma lockLoginUser_inv userID d u p d' : lockLoginUser userID d = inr ((u, p), d') →
  d' = d ∧ ad_users d !! userID = Some u ∧ ∃ i, ad_install d = Some i ∧ p = in_policy i.
Proof.
  unfold lockLoginUser. intros H. tx_inv. match goal with H : text_param _ _ = _ |- _ => apply text_param_inv in H as [_ ->] end.
  simplify_eq. eauto.
Qed.
Ltac auth_inv_step :=
  match goal with
  | H : checked _ _ = inr _ |- _ => apply checked_inv in H as [H ->]
  | H : assume _ _ _ = inr _ |- _ => apply assume_inv in H as [H ->]
  | H : checkID _ _ = inr _ |- _ => apply assume_inv in H as [H ->]
  | H : text_param _ _ = inr _ |- _ => apply text_param_inv in H as [H ->]
  | H : sessionDigest _ _ = inr _ |- _ => apply sessionDigest_inv in H as [H ->]
  | H : lockLoginUser _ _ = inr (?r, _) |- _ => is_var r; destruct r
  | H : lockLoginUser _ _ = inr ((_, _), _) |- _ => apply lockLoginUser_inv in H as (->&?&?)
  end.
Ltac auth_inv_tac := repeat (tx_inv; repeat auth_inv_step; cbn beta iota in * ); tx_inv.

(** The optional rehash of a login. *)
Definition rehashed (userID : string) (now : Z) (d d1 : AuthDB) : Prop :=
  d1 = d ∨ ∃ v u, replacePassword userID v (λ r, r) now d = inr (u, d1).
Lemma rehash_inv userID now d d1 x : rehashed userID now d d1 → ad_users d !! userID = Some x → auth_inv d →
  (auth_inv d1 ∧ usersGrow d d1) ∧ ad_sessions d1 = ad_sessions d ∧ sameThrottles d d1 ∧
  ∃ y, ad_users d1 !! userID = Some y ∧ us_owner y = us_owner x ∧ us_auth_revision y = us_auth_revision x ∧ us_active y = us_active x.
Proof.
  intros [->|(v&u&H)] Hx Hinv; [split; [by split|]; split; [done|]; split; [done|]; by exists x|]. split.
  - eapply (replace_ok userID v (λ r, r) now); [done|done| |done]. intros z Hz. destruct Hinv as [[_ _ H3 _] _]. by destruct (H3 _ _ Hz) as (_&?&_).
  - apply replacePassword_spec in H. rewrite Hx in H. destruct H as (y&->&_&Ho&Hr&Ha&_). split; [done|]. split; [done|].
    exists y. simpl. by rewrite lookup_insert_eq.
Qed.

(** What a login has done when it answers. *)
Record logged_in (userID owner sessionID token limitID auditID : string) (clock : nat → Z) (d : AuthDB) (s : Session) (d' : AuthDB) : Prop := {
  li_user : ∃ u, ad_users d !! userID = Some u ∧ us_owner u = owner ∧ s_AuthRevision s = us_auth_revision u;
  li_run : ∃ d1 d2 d3 u4, rehashed userID (clock 0%nat) d d1 ∧
    (∃ digest, SessionTokenDigest token = inr digest ∧
       mintSession sessionID digest userID owner (s_AuthRevision s) (clock 1%nat) d1 = inr (s, d2)) ∧
    limitSessions userID owner limitID (clock 2%nat) (clock 3%nat) d2 = inr (tt, d3) ∧
    insertAudit auditID userID owner ActLoginSuccess (clock 4%nat) d3 = inr (tt, u4) ∧ throttlesShrink u4 d';
}.

Lemma CompleteLogin_run clock i d s d' : CompleteLogin clock i d = inr (s, d') →
  (∃ u, ad_users d !! lu_ID (cl_User i) = Some u ∧ loginStillValid i u = true) ∧
  ∃ owner, logged_in (lu_ID (cl_User i)) owner (cl_SessionID i) (cl_Token i) (cl_SessionLimitAuditID i) (cl_AuditID i) clock d s d'.
Proof.
  intros H. unfold CompleteLogin in H. auth_inv_tac. split; [by eauto|]. exists (us_owner u).
  match goal with H : clearSuccessful _ _ _ = _ |- _ => apply clearSuccessful_shrinks in H as Hshrink end.
  match goal with H : mintSession _ _ _ _ _ _ _ = inr (?x, _) |- _ => pose proof (mintSession_spec _ _ _ _ _ _ _ _ _ H) as (_&_&_&_&_&_&_&Hrev) end.
  constructor; [by eauto|]. repeat match goal with x : () |- _ => destruct x end. rewrite Hrev.
  eexists _, _, _, _. split; [|split; [by eauto|split; [done|split; [done|done]]]].
  destruct (cl_Replacement i); auth_inv_tac; [right|by left]. eauto.
Qed.

Lemma CreateSession_run clock id token user replacement auditID limitID d s d' :
  CreateSession clock id token user replacement auditID limitID d = inr (s, d') →
  (∃ u, ad_users d !! lu_ID user = Some u ∧ us_owner u = lu_OwnerID user ∧ us_active u = true ∧ us_auth_revision u = int64 (lu_AuthRevision user)) ∧
  ∃ owner, logged_in (lu_ID user) owner id token limitID auditID clock d s d'.
Proof.
  intros H. unfold CreateSession in H. auth_inv_tac. bool_hyps.
  match goal with H : match replacement with Some v => checked _ | None => _ end _ = inr (_, ?s0) |- _ =>
    assert (s0 = d) as -> by (destruct replacement; by auth_inv_tac) end.
  split; [by eexists|]. exists (us_owner u).
  match goal with H : mintSession _ _ _ _ _ _ _ = inr (?x, _) |- _ => pose proof (mintSession_spec _ _ _ _ _ _ _ _ _ H) as (_&_&_&_&_&_&_&Hrev) end.
  constructor; [by eauto|]. repeat match goal with x : () |- _ => destruct x end. rewrite Hrev.
  eexists _, _, _, _. split; [|split; [by eauto|split; [done|split; [done|reflexivity]]]].
  match goal with H : match replacement with Some v => tx_bind _ _ | None => _ end _ = _ |- _ => rename H into Hre end.
  destruct replacement; auth_inv_tac; [right|by left]. eauto.
Qed.

(** The sessions after a login, in terms of those before. *)
Lemma logged_in_sessions userID owner sessionID token limitID auditID clock d s d' :
  logged_in userID owner sessionID token limitID auditID clock d s d' → auth_inv d →
  ∃ digest row d2, SessionTokenDigest token = inr digest ∧
    row = {| as_digest := digest; as_user := userID; as_owner := owner; as_auth_revision := s_AuthRevision s; as_created := clock 1%nat;
             as_last_seen := clock 1%nat; as_idle := clock 1%nat + 30 * minute; as_absolute := clock 1%nat + 480 * minute; as_revoked := None |} ∧
    s_ID s = sessionID ∧ ad_sessions d !! sessionID = None ∧ ad_sessions d2 = <[sessionID := row]> (ad_sessions d) ∧
    (∃ u y, ad_users d !! userID = Some u ∧ ad_users d' !! userID = Some y ∧ us_auth_revision y = us_auth_revision u ∧ us_active y = us_active u) ∧
    (length (excessive userID d2) ≤ 1)%nat ∧ size (liveOf userID d2) = S (size (liveOf userID d)) ∧
    ∀ id, ad_sessions d' !! id =
      if decide (id ∈ excessive userID d2) then revoke (clock 2%nat) RevokedSessionLimit <$> ad_sessions d2 !! id else ad_sessions d2 !! id.
Proof.
  intros [(u&Hu&_) (d1&d2&d3&d4&Hre&(digest&Hdig&Hmint)&Hlim&Haud&Hshr)] Hinv.
  destruct (rehash_inv _ _ _ _ _ Hre Hu Hinv) as (_&Hs1&_&y&Hy&_&Hyr&Hya). apply mintSession_spec in Hmint as (_&Hfresh&_&->&Hid&_).
  apply insertAudit_spec in Haud as [a ->]. destruct Hshr as ((_&_&Hu'&Hs'&_)&_). simpl in Hs', Hu'.
  unfold limitSessions in Hlim. apply tx_bind_inv in Hlim as (ids&?&Hids&Hlim). apply tx_read_inv in Hids as [<- ->].
  apply tx_bind_inv in Hlim as ([]&d5&Hup&Hlim). apply update_sessions_spec in Hup as (t&->&Ht&_); [|apply excessive_NoDup].
  apply tx_bind_inv in Hlim as ([]&?&Hg&Hlim). apply assume_inv in Hg as [Hone ->]. bool_hyps.
  assert (ad_sessions d3 = t ∧ ad_users d3 = ad_users d1) as [Ht3 Hu3]
    by (case_match; [by apply insertAudit_spec in Hlim as [b ->]|by apply tx_ret_inv in Hlim as [_ ->]]).
  set (row := Build_AdminSession _ _ _ _ _ _ _ _ _) in *. set (d2 := set_sessions _ d1) in *. rewrite Hs1 in Hfresh.
  exists digest, row, d2. split_and!; try done; [by simpl; rewrite Hs1|exists u, y; by rewrite Hu', Hu3|lia| |by intros id; rewrite Hs', Ht3].
  unfold liveOf, d2. simpl. rewrite Hs1, map_filter_insert_True by (simpl; unfold liveSession; simpl; by rewrite bool_decide_true).
  rewrite map_size_insert, map_lookup_filter_None_2; [done|]. by left.
Qed.

Lemma logged_in_ok userID owner sessionID token limitID auditID clock d s d' :
  logged_in userID owner sessionID token limitID auditID clock d s d' → auth_step_ok d d'.
Proof.
  intros [(u&Hu&Ho&Hr) (d1&d2&d3&d4&Hre&(digest&_&Hmint)&Hlim&Haud&Hshr)] Hinv.
  destruct (rehash_inv _ _ _ _ _ Hre Hu Hinv) as ([Hinv1 Hg1]&_&_&y&Hy&Hyo&Hyr&_).
  assert (auth_step_ok d1 d3) as H13 by (eapply mint_limit_ok; [done..|]; exists y; split_and!; [done|congruence|congruence]).
  assert (auth_step_ok d3 d4) as H34 by by eapply audit_ok.
  pose proof (shrink_step_ok _ _ Hshr) as H4.
  destruct (auth_step_ok_trans _ _ _ H13 (auth_step_ok_trans _ _ _ H34 H4) Hinv1) as [? ?]. split; [done|]. by etrans.
Qed.

Lemma ValidateSession_ok clock token : tx_rel auth_step_ok (ValidateSession clock token).
Proof.
  intros d p d' H. unfold ValidateSession in H. auth_inv_tac.
  repeat match goal with x : _ * _ |- _ => destruct x end. auth_inv_tac.
  match goal with H : (if _ then _ else _) _ = _ |- _ => rename H into Ht end. case_match; [|by apply tx_ret_inv in Ht as [_ ->]].
  eapply update_sessions_ok; [apply NoDup_singleton|apply touch_step|done].
Qed.
Lemma RevokeSession_ok clock token p auditID : tx_rel auth_step_ok (RevokeSession clock token p auditID).
Proof.
  intros d u d' H. unfold RevokeSession in H. auth_inv_tac. repeat match goal with x : _ * _ |- _ => destruct x end. auth_inv_tac.
  etrans; [eapply update_sessions_ok; [apply NoDup_singleton|apply revoke_step|done]|by eapply audit_ok].
Qed.
Lemma CleanupSessions_ok clock n : tx_rel auth_step_ok (CleanupSessions clock n).
Proof.
  intros d u d' H Hinv. unfold CleanupSessions in H. auth_inv_tac. eapply sessions_ok; [|done]. intros id s' [Hs' _]%map_lookup_filter_Some.
  exists s'. split; [done|]. split; [by repeat split|]. destruct Hinv as [[H1 _ _ _] _]. by destruct (H1 _ _ Hs').
Qed.

(** What a reset has done when it answers. *)
Lemma ResetPassword_run clock userID v auditID digests d u d' : ResetPassword clock userID v auditID digests d = inr (u, d') →
  ∃ x i d1 d2 d3, ad_users d !! userID = Some x ∧ us_auth_revision x ≠ 2 ^ 63 - 1 ∧ ad_install d = Some i ∧
    ValidatePasswordVerifierForPolicy v (in_policy i) = inr tt ∧
    replacePassword userID v (λ r, r + 1) (clock 0%nat) d = inr (tt, d1) ∧
    update_sessions (liveSessionsOf userID d1) (revoke (clock 1%nat) RevokedPasswordReset) d1 = inr (tt, d2) ∧
    throttlesShrink d2 d3 ∧ insertAudit auditID userID (us_owner x) ActPasswordReset (clock 2%nat) d3 = inr (tt, d').
Proof.
  intros H. unfold ResetPassword in H. auth_inv_tac. repeat match goal with x : () |- _ => destruct x end. bool_hyps.
  do 5 eexists. split_and!; [done..| |done].
  match goal with H1 : delete_buckets _ _ = _, H2 : clearRecovery _ _ = _ |- _ =>
    apply delete_buckets_shrinks in H1; apply clearRecovery_shrinks in H2; by etrans end.
Qed.
Lemma ResetPassword_ok clock userID v auditID digests : tx_rel auth_step_ok (ResetPassword clock userID v auditID digests).
Proof.
  intros d u d' (x&i&d1&d2&d3&Hx&Hmax&_&_&Hrep&Hup&Hshr&Haud)%ResetPassword_run Hinv.
  assert (auth_inv d1 ∧ usersGrow d d1) as [Hinv1 Hg].
  { eapply (replace_ok userID v (λ r, r + 1) (clock 0%nat)); [lia|done| |done]. intros z Hz. destruct Hinv as [[_ _ H3 _] _].
    destruct (H3 _ _ Hz) as (_&?&_). simplify_eq. lia. }
  assert (auth_step_ok d1 d') as Hrest.
  { etrans; [eapply update_sessions_ok; [apply liveSessionsOf_NoDup|apply revoke_step|done]|]. etrans; [by apply shrink_step_ok|by eapply audit_ok]. }
  destruct (Hrest Hinv1) as [? ?]. split; [done|]. by etrans.
Qed.

Lemma ReserveThrottle_frame now clock l m d r d' : ReserveThrottle now clock l m d = inr (r, d') →
  ad_users d' = ad_users d ∧ ad_sessions d' = ad_sessions d.
Proof.
  unfold ReserveThrottle. intros H. auth_inv_tac.
  match goal with H : reserveAll _ _ _ _ _ _ _ = _ |- _ => apply reserveAll_frame in H as (_&_&Hu&Hs&_) end. rewrite Hu, Hs.
  match goal with H : (if _ then _ else _) _ = inr _ |- _ => rename H into Hc end. by case_match; tx_inv.
Qed.
Lemma ReserveThrottle_ok now clock l m : tx_rel auth_step_ok (ReserveThrottle now clock l m).
Proof.
  intros d r d' H. destruct (ReserveThrottle_frame _ _ _ _ _ _ _ H) as [Hu Hs]. apply keeps_authority; [done..|]. by eapply ReserveThrottle_rows.
Qed.

Lemma Bootstrap_ok clock i : tx_rel auth_step_ok (Bootstrap clock i).
Proof.
  intros d u d' H. unfold Bootstrap in H. auth_inv_tac.
  match goal with H : insert_owner _ _ = _ |- _ => unfold insert_owner, violated, tx_fail in H; rename H into Hio end.
  destruct (octet_length 1 128 (bt_OwnerID i)) eqn:Howner; simpl in Hio; [|done]. case_match; [done|]. simplify_eq.
  match goal with H : insert_user _ _ _ = _ |- _ => apply insert_user_spec in H as (Hc&Hn&->) end.
  match goal with H : insertAudit _ _ _ _ _ _ = _ |- _ => apply insertAudit_spec in H as [a ->] end. simpl in *.
  intros [[K1 K2 K3 K4] Kl]. split; [split; [constructor|]|]; simpl.
  - intros k s Hs. destruct (K1 k s Hs) as (Hck&x&Hx&Hxo&Hxr). split; [done|]. exists x. rewrite lookup_insert_ne; [done|]. intros E. by rewrite <-E, Hn in Hx.
  - done.
  - intros k x. destruct (decide (k = bt_UserID i)) as [->|Hne]; [rewrite lookup_insert_eq; intros [= <-]|by rewrite lookup_insert_ne by done; apply K3].
    split; [done|]. split; [done|]. simpl. intros E. by rewrite E in Howner.
  - done.
  - done.
  - intros k x Hx. exists x. simpl. rewrite lookup_insert_ne; [by split_and!|]. intros E. by rewrite <-E, Hn in Hx.
Qed.

(** ** Runs *)

(** Any method with any arguments and any readings of the clock, and what
    other tables refer to. *)
Inductive AuthCall :=
  | CallReserve (now : Z) (clock : nat → Z) (identities : list ThrottleIdentity) (maxRows : Z)
  | CallFinalize (successful : bool) (identities : list ThrottleIdentity)
  | CallCleanupThrottle (clock : nat → Z) (limit : Z)
  | CallBootstrap (clock : nat → Z) (i : BootstrapInput)
  | CallCompleteLogin (clock : nat → Z) (i : CompleteLoginInput)
  | CallCreateSession (clock : nat → Z) (id token : string) (user : LoginUser) (replacement : option PasswordVerifier) (auditID limitID : string)
  | CallValidateSession (clock : nat → Z) (token : string)
  | CallRevokeSession (clock : nat → Z) (token : string) (p : Principal) (auditID : string)
  | CallCleanupSessions (clock : nat → Z) (limit : Z)
  | CallResetPassword (clock : nat → Z) (userID : string) (v : PasswordVerifier) (auditID : string) (digests : list string)
  | SetReferenced (ids : gset string).
Definition execAuth (c : AuthCall) (d : AuthDB) : AuthDB :=
  match c with
  | CallReserve now clock l m => (run_tx (ReserveThrottle now clock l m) d).2
  | CallFinalize ok l => (run_tx (FinalizeThrottle ok l) d).2
  | CallCleanupThrottle clock n => (run_tx (CleanupThrottle clock n) d).2
  | CallBootstrap clock i => (run_tx (Bootstrap clock i) d).2
  | CallCompleteLogin clock i => (run_tx (CompleteLogin clock i) d).2
  | CallCreateSession clock id t u r a l => (run_tx (CreateSession clock id t u r a l) d).2
  | CallValidateSession clock t => (run_tx (ValidateSession clock t) d).2
  | CallRevokeSession clock t p a => (run_tx (RevokeSession clock t p a) d).2
  | CallCleanupSessions clock n => (run_tx (CleanupSessions clock n) d).2
  | CallResetPassword clock u v a l => (run_tx (ResetPassword clock u v a l) d).2
  | SetReferenced ids => set_referenced ids d
  end.
Inductive auth_step (d : AuthDB) : AuthDB → Prop := AuthStep c : auth_step d (execAuth c d).
Definition auth_reachable (d : AuthDB) : Prop := rtc auth_step emptyAuthDB d.

Lemma run_ok {A} (m : AuthTx A) d : tx_rel auth_step_ok m → auth_step_ok d (run_tx m d).2.
Proof. intros H. unfold run_tx. destruct (m d) as [e|[a d']] eqn:E; simpl; [reflexivity|]. by eapply H. Qed.

Lemma auth_step_keeps d d' : auth_step d d' → auth_step_ok d d'.
Proof.
  intros [c]. destruct c; simpl; try (apply run_ok).
  - apply ReserveThrottle_ok.
  - apply shrinks_ok, FinalizeThrottle_shrinks.
  - apply shrinks_ok, CleanupThrottle_shrinks.
  - apply Bootstrap_ok.
  - intros x s y [_ [owner H]]%CompleteLogin_run. by eapply logged_in_ok.
  - intros x s y [_ [owner H]]%CreateSession_run. by eapply logged_in_ok.
  - apply ValidateSession_ok.
  - apply RevokeSession_ok.
  - apply CleanupSessions_ok.
  - apply ResetPassword_ok.
  - by apply keeps_authority.
Qed.
Lemma auth_steps_keep d d' : rtc auth_step d d' → auth_step_ok d d'.
Proof. induction 1 as [|x y z Hxy _ IH]; [reflexivity|]. etrans; [by apply auth_step_keeps|done]. Qed.

Lemma empty_inv : auth_inv emptyAuthDB.
Proof.
  split; [constructor; [..|done]|]; try (by intros; simplify_map_eq).
  intros user. unfold liveOf. simpl. rewrite map_filter_empty, map_size_empty. lia.
Qed.
Lemma auth_reachable_inv d : auth_reachable d → auth_inv d.
Proof. intros H%auth_steps_keep. apply H, empty_inv. Qed.
Lemma steps_inv d d' : auth_inv d → rtc auth_step d d' → auth_inv d' ∧ usersGrow d d'.
Proof. intros Hi H%auth_steps_keep. by apply H. Qed.
