(* ===== verification/AuthScenario.v ===== *)
(** * A concrete installation

    Bootstrapped, logged in to, and with a user name that has failed nine
    times: the inputs of the witnesses in [AuthProps]. *)
From S2P Require Import Prelude GoStd Base64 Token Schema LeaseCore Password Hmac AuthTokens AuthStore Throttle Sessions AuthInv AuthSystem.
From stdpp Require Import relations.
#[local] Open Scope Z_scope.

Definition day0 : Z := 63900000000 * second.
(** A clock that advances a second per statement. *)
Definition clockAt (t : Z) (n : nat) : Z := t + Z.of_nat n * second.
Definition digestOf (name : string) : string := Sum256 name.

Definition bootstrapInput : BootstrapInput :=
  {| bt_OwnerID := "owner-1"; bt_UserID := "user-1"; bt_Username := "admin"; bt_AuditID := "audit-1"; bt_Verifier := exampleVerifier;
     bt_Policy := examplePolicy 3 |}.
Definition administrator : LoginUser :=
  {| lu_ID := "user-1"; lu_OwnerID := "owner-1"; lu_Verifier := exampleVerifier; lu_AuthRevision := 1; lu_Active := true |}.
Definition pairIdentity : ThrottleIdentity :=
  {| ti_Kind := ThrottlePair; ti_KeyVersion := "k1"; ti_Digest := digestOf "pair"; ti_Aliases := []; ti_RecoveryUserID := "user-1" |}.
Definition nameIdentity : ThrottleIdentity :=
  {| ti_Kind := ThrottleUsername; ti_KeyVersion := "k1"; ti_Digest := digestOf "name"; ti_Aliases := []; ti_RecoveryUserID := "" |}.
Definition addressIdentity : ThrottleIdentity :=
  {| ti_Kind := ThrottleIP; ti_KeyVersion := "k1"; ti_Digest := digestOf "ip"; ti_Aliases := [("k0", digestOf "old ip")]; ti_RecoveryUserID := "" |}.
Definition sessionToken : string := sessionTokenPrefix +:+ RawURLEncodeToString "0123456789abcdef0123456789abcdef".
Definition loginInput : CompleteLoginInput :=
  {| cl_SessionID := "session-1"; cl_AuditID := "audit-2"; cl_SessionLimitAuditID := "audit-3"; cl_Token := sessionToken;
     cl_User := administrator; cl_Replacement := None; cl_ThrottleIdentities := [pairIdentity; nameIdentity; addressIdentity] |}.

Definition installed : AuthDB := execAuth (CallBootstrap (clockAt day0) bootstrapInput) emptyAuthDB.
Definition attempted : AuthDB :=
  execAuth (CallReserve (day0 + minute) (clockAt (day0 + minute)) [pairIdentity; nameIdentity; addressIdentity] 100) installed.
Definition loggedIn : AuthDB := execAuth (CallCompleteLogin (clockAt (day0 + 2 * minute)) loginInput) attempted.

(** Nine failures of the user name, ten seconds apart, from other addresses. *)
Fixpoint failures (n : nat) (d : AuthDB) : AuthDB :=
  match n with
  | O => d
  | S n' => let t := day0 + Z.of_nat n' * 10 * second in execAuth (CallReserve t (clockAt t) [nameIdentity] 100) (failures n' d)
  end.
Definition exhausted : AuthDB := failures 9 installed.

Lemma installed_reachable : auth_reachable installed.
Proof. apply rtc_once. constructor. Qed.
Lemma attempted_reachable : auth_reachable attempted.
Proof. eapply rtc_r; [apply installed_reachable|constructor]. Qed.
Lemma loggedIn_reachable : auth_reachable loggedIn.
Proof. eapply rtc_r; [apply attempted_reachable|constructor]. Qed.
Lemma failures_reachable n : auth_reachable (failures n installed).
Proof. induction n as [|n IH]; [apply installed_reachable|]. eapply rtc_r; [exact IH|constructor]. Qed.

(** A body that answers as [P] asks, decided by evaluation. *)
Lemma answers {A} (m : AuthTx A) d (P : A → bool) :
  match m d with inr (a, _) => P a | inl _ => false end = true → ∃ a d', m d = inr (a, d') ∧ P a = true.
Proof. destruct (m d) as [|[a d']]; [done|eauto]. Qed.

(** A lease database whose sessions are these. *)
Definition leaseTables (sessions : gmap string SessionRow) : DB :=
  Build_DB ∅ [] sessions ∅ ∅ ∅ ∅ ∅ ∅ ∅ [] [] [] ∅ ∅ ∅ ∅ ∅ ∅ ∅ 1 1.

Example login_run :
  isSomeb (ad_sessions loggedIn !! "session-1") = true ∧ throttleRows attempted = 3 ∧ throttleRows loggedIn = 1 ∧
  ad_usernames exhausted !! ("k1", digestOf "name") = Some {| un_failures := 9; un_blocked := None; un_updated := day0 + 80 * second |}.
Proof. vm_compute. done. Qed.
