(* ===== verification/AuthProps.v ===== *)
(** * What the authentication repository guarantees

    Sessions are exactly as valid as the rows say, and as the lease
    repository believes; a password reset ends every earlier authority; a
    login is atomic and conditional on what it verified; the throttle tables
    are bounded and count every attempt. *)
From S2P Require Import Prelude GoStd Base64 Token Route Regex HealthGate Schema Evidence LeaseCore Password Hmac AuthTokens AuthStore Throttle Sessions AuthInv AuthSystem AuthScenario.
From stdpp Require Import sorting relations.
#[local] Open Scope Z_scope.

(** ** Authority *)

(** The token belongs to the principal's session, which is neither revoked
    nor expired at [now], and the user is active at the revision of both. *)
Definition authority (d : AuthDB) (now : Z) (token : string) (p : Principal) : Prop :=
  ∃ digest s u, SessionTokenDigest token = inr digest ∧ ad_sessions d !! p_SessionID p = Some s ∧ as_digest s = digest ∧
    p = principalOf (p_SessionID p) s ∧ as_revoked s = None ∧ now < as_idle s ∧ now < as_absolute s ∧
    ad_users d !! as_user s = Some u ∧ us_active u = true ∧ us_auth_revision u = as_auth_revision s.

Lemma sessionByDigest_Some d digest id s : auth_inv d →
  sessionByDigest digest d = Some (id, s) ↔ ad_sessions d !! id = Some s ∧ as_digest s = digest.
Proof.
  intros [[_ H2 _ _] _]. unfold sessionByDigest.
  assert (∀ kv, kv ∈ filter (λ kv, as_digest kv.2 = digest) (map_to_list (ad_sessions d)) ↔ ad_sessions d !! kv.1 = Some kv.2 ∧ as_digest kv.2 = digest) as Hin.
  { intros kv. rewrite list_elem_of_filter, elem_of_map_to_list'. naive_solver. }
  destruct (filter _ _) as [|[k z] l] eqn:E; simpl.
  - split; [done|]. intros H. by apply (Hin (id, s)), not_elem_of_nil in H.
  - destruct (proj1 (Hin (k, z)) ltac:(left)) as [Hz Hd]. simpl in *. split; [intros [= <- <-]; done|].
    intros [Hs Hds]. assert (k = id) as -> by (eapply H2; [done..|congruence]). congruence.
Qed.

Lemma authorityRow_Some d digest user id s u : auth_inv d → authorityRow digest user d = Some (id, s, u) ↔
  ad_sessions d !! id = Some s ∧ as_digest s = digest ∧ as_user s = user ∧ as_revoked s = None ∧ ad_users d !! user = Some u ∧ us_active u = true.
Proof.
  intros Hinv. unfold authorityRow. split.
  - intros ([k z]&[Hz Hd]%sessionByDigest_Some&(w&Hw&H)%bind_Some)%bind_Some; [|done]. simpl in H. case_match eqn:Hb; [|done]. bool_hyps.
    simplify_eq. by destruct (as_revoked s).
  - intros (Hs&Hd&<-&Hr&Hu&Ha). assert (sessionByDigest digest d = Some (id, s)) as -> by by apply sessionByDigest_Some. simpl. rewrite Hu. simpl.
    rewrite Hr, Ha. destruct Hinv as [[H1 _ _ _] _]. destruct (H1 id s Hs) as (_&x&Hx&Ho&_). rewrite !bool_decide_true by congruence. done.
Qed.

(** A session last seen a while ago can be touched until its absolute end. *)
Lemma touch_check id now s : session_check id s = true → as_revoked s = None → as_last_seen s ≤ now - 5 * minute →
  session_check id (touch now s) = (now <=? as_absolute s).
Proof.
  unfold session_check. simpl. intros Hc -> Hl. bool_hyps. unfold minute, second in *. apply eq_bool_prop_intro.
  rewrite !Is_true_true, !andb_true_iff, !Z.leb_le. split; [intros; lia|]. intros. split_and!; done || lia.
Qed.

(** C31: A session token is worth exactly what its row says. In every reachable database validation answers a principal
    only when the token is well formed, its digest is that principal's session, the session is neither revoked nor past
    its idle or absolute end, and the user is active at the very revision the session was minted at; without such a
    session it answers unauthenticated. With one it answers the principal: a session last seen less than five minutes
    ago is left as it is, otherwise its time of last use becomes the present and its idle end thirty minutes later, the
    absolute end at most, and nothing else changes. The single exception is an absolute end that passes between the
    two readings of the clock, after which the CHECK refuses the write. *)
Theorem session_authority d clock token (Hd : auth_reachable d) :
  (∀ p d', ValidateSession clock token d = inr (p, d') → authority d (clock 0%nat) token p) ∧
  (∀ p s, authority d (clock 0%nat) token p → ad_sessions d !! p_SessionID p = Some s →
     ValidateSession clock token d =
       if clock 1%nat - 5 * minute <? as_last_seen s then inr (p, d)
       else if clock 1%nat <=? as_absolute s then inr (p, set_sessions (<[p_SessionID p := touch (clock 1%nat) s]> (ad_sessions d)) d)
       else inl (AErrPg PgCheckViolation)) ∧
  ((∀ p, ¬ authority d (clock 0%nat) token p) → ValidateSession clock token d = inl AErrUnauthenticated).
Proof.
  pose proof (auth_reachable_inv d Hd) as Hinv. split_and!.
  - intros p d' H. unfold ValidateSession in H. auth_inv_tac.
    repeat match goal with x : _ * _ |- _ => destruct x end. auth_inv_tac.
    match goal with H : sessionByDigest _ _ = _ |- _ => apply sessionByDigest_Some in H as [Hz Hzd]; [|done] end.
    match goal with H : authorityRow _ _ _ = _ |- _ => apply authorityRow_Some in H as (Hs&Hdg&Hus&Hrev&Hu&Ha); [|done] end. simpl in *. bool_hyps. rewrite <-Hus in Hu.
    do 3 eexists; split_and!; simpl; first [done|congruence].
  - intros p s (digest&s'&u&Hdig&Hs&Hdg&Hp&Hr&Hi&Habs&Hu&Ha&Hrev) Hs'. assert (s' = s) as -> by congruence. subst digest. unfold ValidateSession, sessionDigest. rewrite Hdig. simpl.
    unfold tx_bind, tx_some, tx_ret. assert (sessionByDigest (as_digest s) d = Some (p_SessionID p, s)) as -> by by apply sessionByDigest_Some.
    simpl. assert (authorityRow (as_digest s) (as_user s) d = Some (p_SessionID p, s, u)) as -> by by apply authorityRow_Some.
    unfold tx_guard. rewrite <-Hrev, Z.eqb_refl. unfold tx_ret. rewrite !(proj2 (Z.ltb_lt _ _)) by done. simpl. rewrite <-Hp, Z.leb_antisym.
    destruct (_ <? as_last_seen s) eqn:Hl; [done|]. unfold update_sessions. simpl. rewrite Hs, (touch_check (p_SessionID p)); [by destruct (_ <=? _)|..]; [|done|lia].
    by apply (ac_session d (proj1 Hinv)).
  - intros Hno. unfold ValidateSession, sessionDigest. destruct (SessionTokenDigest token) as [|digest] eqn:Hdig; [done|]. simpl.
    unfold tx_bind, tx_some, tx_ret. destruct (sessionByDigest digest d) as [[id s]|] eqn:Hs; [|done]. simpl.
    destruct (authorityRow _ _ d) as [[[id' s'] u]|] eqn:Hrow; [|done]. apply authorityRow_Some in Hrow as (Hz&Hdg&Hus&Hrev&Hu&Ha); [|done].
    unfold tx_guard. destruct (as_auth_revision s' =? us_auth_revision u) eqn:Hr; [|done]. unfold tx_ret.
    destruct (_ && _) eqn:Ht; [|done]. bool_hyps. destruct (Hno (principalOf id' s')). exists digest, s', u. simpl. split_and!; try done. congruence.
Qed.

(** ** The lease repository's view of sessions *)

(** What [lockAdministratorSession] reads of a session and of its user. *)
Definition sessionRowOf (d : AuthDB) (s : AdminSession) : option SessionRow :=
  u ← ad_users d !! as_user s;
  Some {| ses_user := as_user s; ses_owner := as_owner s; ses_auth_revision := as_auth_revision s;
          ses_user_auth_revision := us_auth_revision u; ses_user_active := us_active u; ses_revoked := isSomeb (as_revoked s);
          ses_idle_expires := as_idle s; ses_absolute_expires := as_absolute s |}.
Definition sessionView (d : AuthDB) : gmap string SessionRow := omap (sessionRowOf d) (ad_sessions d).

Lemma lockAdministratorSession_eq p now db : lockAdministratorSession p now db =
  if validPrincipal p then
    match db_sessions db !! p_SessionID p with
    | Some s => if sessionLive p now s then inr (tt, db) else inl ErrServerAuthorizationDenied
    | None => inl ErrServerAuthorizationDenied
    end
  else inl ErrServerAuthorizationDenied.
Proof.
  unfold lockAdministratorSession, tx_bind, tx_some, tx_guard, tx_ret, tx_fail. destruct (validPrincipal p); [|done].
  cbn beta. destruct (db_sessions db !! p_SessionID p) as [x|]; [|done]. by destruct (sessionLive p now x).
Qed.

Lemma live_principal d now p s u (db : DB) : auth_inv d → db_sessions db = sessionView d →
  ad_sessions d !! p_SessionID p = Some s → ad_users d !! as_user s = Some u →
  lockAdministratorSession p now db = inr (tt, db) ↔
  p = principalOf (p_SessionID p) s ∧ as_revoked s = None ∧ now < as_idle s ∧ now < as_absolute s ∧ us_active u = true ∧ us_auth_revision u = as_auth_revision s.
Proof.
  intros [[H1 _ H3 _] _] Hv Hs Hu. destruct (H1 _ _ Hs) as (Hck&u'&Hu'&Ho&Hr). assert (u' = u) as -> by congruence.
  destruct (H3 _ _ Hu) as (Huc&_&Hon). assert (sessionView d !! p_SessionID p = sessionRowOf d s) as Hrow.
  { unfold sessionView. rewrite lookup_omap, Hs. done. }
  rewrite lockAdministratorSession_eq, Hv, Hrow. unfold sessionRowOf. rewrite Hu. simpl.
  unfold session_check, user_check, octet_length in Hck, Huc. bool_hyps.
  assert (∀ x, 1 ≤ slen x → x ≠ "") as Hne by (intros x Hx ->; unfold slen in Hx; simpl in Hx; lia). split.
  - destruct (validPrincipal p) eqn:Hvp; simpl; [|done]. destruct (sessionLive _ _ _) eqn:Hl; [|done]. intros _. unfold sessionLive in Hl.
    simpl in Hl. unfold validPrincipal in Hvp. bool_hyps. destruct (as_revoked s); [done|]. split_and!; try done; [|congruence].
    destruct p; simpl in *. unfold principalOf. by subst.
  - intros (Hp&Hrev&Hi&Ha&Hact&Heq). assert (validPrincipal p = true) as ->.
    { rewrite Hp. unfold validPrincipal. simpl. rewrite !bool_decide_false by (first [by apply Hne|congruence]). by rewrite (proj2 (Z.eqb_neq _ _)) by lia. }
    unfold tx_ret. simpl. assert (sessionLive p now (Build_SessionRow (as_user s) (as_owner s) (as_auth_revision s) (us_auth_revision u) (us_active u)
      (isSomeb (as_revoked s)) (as_idle s) (as_absolute s)) = true) as ->; [|done].
    rewrite Hp. unfold sessionLive. simpl. rewrite Hrev, Heq, Hact, !bool_decide_true, !Z.eqb_refl, !(proj2 (Z.ltb_lt _ _)) by done. done.
Qed.

(** The console and the lease repository mean the same by an administrator. At every instant, the principal that
    validating a token answers is one the lease repository's own session lock accepts, and a principal the lock accepts is
    the one every token of its session validates to: neither side keeps serving a session the other has given up. *)
Theorem administrator_sessions_agree d db now token digest p (Hd : auth_reachable d) :
  db_sessions db = sessionView d → SessionTokenDigest token = inr digest →
  authority d now token p ↔
  lockAdministratorSession p now db = inr (tt, db) ∧ ∃ s, ad_sessions d !! p_SessionID p = Some s ∧ as_digest s = digest.
Proof.
  intros Hv Hdig. pose proof (auth_reachable_inv d Hd) as Hinv. split.
  - intros (x&s&u&Hx&Hs&Hdg&Hp&Hr&Hi&Ha&Hu&Hact&Hrev). assert (x = digest) as -> by congruence.
    split; [|by eauto]. by apply (live_principal d now p s u db).
  - intros [Hl (s&Hs&Hdg)]. destruct (ac_session d (proj1 Hinv) _ _ Hs) as (_&u&Hu&_).
    destruct (proj1 (live_principal d now p s u db Hinv Hv Hs Hu) Hl) as (?&?&?&?&?&?). by exists digest, s, u.
Qed.

(** ** Password reset *)

Lemma authority_revision d now token p : authority d now token p →
  ∃ u, ad_users d !! p_UserID p = Some u ∧ us_auth_revision u = p_AuthRevision p.
Proof. intros (x&s&u&_&_&_&Hp&_&_&_&Hu&_&Hr). exists u. by rewrite Hp. Qed.

(** C32: A password reset ends every earlier authority for ever. After a reset, whatever is called afterwards: every
    principal of that user that is ever accepted carries a later revision than every one accepted before, so no principal
    from before the reset is accepted again. Right after it no session of the user is accepted at all, while everybody
    else's sessions stay exactly as they were and are accepted as before; and a login that had verified the old password
    can no longer be completed. *)
Theorem password_reset_ends_authority d0 d clock userID v auditID digests d' d'' :
  auth_reachable d0 → rtc auth_step d0 d → ResetPassword clock userID v auditID digests d = inr (tt, d') → rtc auth_step d' d'' →
  (∀ now0 token0 p0 now token p, authority d0 now0 token0 p0 → p_UserID p0 = userID → authority d'' now token p → p_UserID p = userID →
     p_AuthRevision p0 < p_AuthRevision p) ∧
  (∀ now token p, authority d' now token p ↔ p_UserID p ≠ userID ∧ authority d now token p) ∧
  (∀ id s, ad_sessions d !! id = Some s → as_user s ≠ userID → ad_sessions d' !! id = Some s) ∧
  (∀ clock' i u0, ad_users d0 !! userID = Some u0 → lu_ID (cl_User i) = userID →
     int64 (lu_AuthRevision (cl_User i)) ≤ us_auth_revision u0 → ∃ e, CompleteLogin clock' i d'' = inl e).
Proof.
  intros Hd0 Hrun0 Hreset Hrun. pose proof (auth_reachable_inv d0 Hd0) as Hinv0. destruct (steps_inv _ _ Hinv0 Hrun0) as [Hinv Hg0].
  pose proof (ResetPassword_ok _ _ _ _ _ _ _ _ Hreset Hinv) as [Hinv' Hg]. destruct (steps_inv _ _ Hinv' Hrun) as [Hinv'' Hg'].
  apply ResetPassword_run in Hreset as (x&i&d1&d2&d3&Hx&_&_&_&Hrep&Hup&Hshr&Haud).
  apply replacePassword_spec in Hrep. rewrite Hx in Hrep. destruct Hrep as (y&->&_&_&Hyr&Hya&_). set (d1 := set_users _ _) in *.
  apply update_sessions_spec in Hup as (t&->&Ht&_); [|apply liveSessionsOf_NoDup]. destruct Hshr as ((_&_&Hus&Hse&_)&_).
  apply insertAudit_spec in Haud as [a ->]. simpl in *.
  assert (∀ u0 u'', ad_users d0 !! userID = Some u0 → ad_users d'' !! userID = Some u'' → us_auth_revision u0 < us_auth_revision u'') as Hlater.
  { intros u0 u'' Hu0 Hu''. destruct (Hg0 _ _ Hu0) as (z&Hz&_&?). assert (z = x) as -> by congruence.
    destruct (Hg' userID y) as (z'&Hz'&_&?); [simpl; rewrite Hus; apply lookup_insert_eq|]. assert (z' = u'') as -> by congruence. lia. }
  assert (∀ id s, ad_sessions d !! id = Some s → as_user s ≠ userID → ad_sessions d3 !! id = Some s) as Hothers.
  { intros id s Hs Hne. rewrite Hse, Ht. simpl. case_decide as Hin; [|done]. apply elem_of_liveSessionsOf in Hin as (z&Hz&Hl).
    simpl in Hz. assert (z = s) as -> by congruence. unfold liveSession in Hl. bool_hyps. done. }
  split; [|split; [|split]].
  - intros now0 token0 p0 now token p (u0&Hu0&<-)%authority_revision <- (u&Hu&<-)%authority_revision E. rewrite E in Hu. by apply Hlater.
  - intros now token p. split.
    + intros (dg&s&u&Hdg&Hs&Hd&Hp&Hr&Hi&Ha&Hu&Hact&Hrev). simpl in *. rewrite Hse, Ht in Hs. rewrite Hus in Hu.
      case_decide as Hin; [apply fmap_Some in Hs as (z&_&->); done|]. simpl in Hs.
      assert (as_user s ≠ userID) as Hne.
      { intros E. apply Hin. apply elem_of_liveSessionsOf. exists s. split; [done|]. unfold liveSession. by rewrite E, bool_decide_true, Hr. }
      split; [by rewrite Hp|]. rewrite lookup_insert_ne in Hu by done. by exists dg, s, u.
    + intros [Hne (dg&s&u&Hdg&Hs&Hd&Hp&Hr&Hi&Ha&Hu&Hact&Hrev)]. rewrite Hp in Hne. simpl in Hne. exists dg, s, u. simpl.
      rewrite (Hothers _ s) by done. rewrite Hus, lookup_insert_ne by done. done.
  - exact Hothers.
  - intros clock' j u0 Hu0 Hj Hle. destruct (CompleteLogin clock' j d'') as [e|[s z]] eqn:E; [by eauto|].
    apply CompleteLogin_run in E as [(u&Hu&Hlv) _]. rewrite Hj in Hu. specialize (Hlater _ _ Hu0 Hu). unfold loginStillValid in Hlv. bool_hyps. lia.
Qed.

(** ** Login *)

(** A login mints authority only for what it verified, and for exactly one session. When completing a login
    answers, the user's row under the lock still is the one the password was verified against (owner, status, revision,
    verifier); the new session carries that revision and, the clock being ahead of the user's sessions, its token is
    accepted for the next thirty minutes; every other session stays as it was, except that a user who already had ten
    live ones loses the single oldest of them. *)
Theorem login_mints_one_session d clock i s d' (Hd : auth_reachable d) : CompleteLogin clock i d = inr (s, d') →
  let userID := lu_ID (cl_User i) in
  (∃ u, ad_users d !! userID = Some u ∧ loginStillValid i u = true ∧ s_AuthRevision s = us_auth_revision u) ∧
  ad_sessions d !! s_ID s = None ∧ s_ID s = cl_SessionID i ∧
  (∀ id x, ad_sessions d !! id = Some x → ad_sessions d' !! id = Some x ∨
     (ad_sessions d' !! id = Some (revoke (clock 2%nat) RevokedSessionLimit x) ∧ liveSession userID x = true ∧ size (liveOf userID d) = 10%nat ∧
      ∀ id' x', ad_sessions d' !! id' = Some x' → liveSession userID x' = true → as_created x ≤ as_created x')) ∧
  (∀ id, ad_sessions d !! id = None → id ≠ s_ID s → ad_sessions d' !! id = None) ∧
  ((∀ id x, ad_sessions d !! id = Some x → liveSession userID x = true → as_created x < clock 1%nat) →
   ∀ now, now < clock 1%nat + 30 * minute → ∃ p, authority d' now (cl_Token i) p ∧ p_SessionID p = s_ID s ∧ p_UserID p = userID).
Proof.
  intros H userID. pose proof (auth_reachable_inv d Hd) as Hinv. destruct (CompleteLogin_run _ _ _ _ _ H) as [(u&Hu&Hv) [owner Hlog]]. fold userID in Hlog, Hu.
  destruct (logged_in_ok _ _ _ _ _ _ _ _ _ _ Hlog Hinv) as [Hinv' Hg].
  pose proof (li_user _ _ _ _ _ _ _ _ _ _ Hlog) as (u1&Hu1&_&Hsr). assert (u1 = u) as -> by congruence.
  destruct (logged_in_sessions _ _ _ _ _ _ _ _ _ _ Hlog Hinv) as (digest&row&d2&Hdig&Erow&Hid&Hfresh&Hs2&(u2&w&Hu2&Hw&Hwr&Hwa)&Hone&Hsize&Hs'). rewrite Hid.
  split; [by eauto|]. split; [done|]. split; [done|]. split; [|split].
  - intros id x Hx. assert (id ≠ cl_SessionID i) as Hne by (intros ->; congruence). rewrite Hs', Hs2, lookup_insert_ne by done. rewrite Hx.
    case_decide as Hex; [|by left]. right. split; [done|]. pose proof Hex as Hlive. apply excessive_live in Hlive as (z&Hz&Hzl).
    rewrite Hs2, lookup_insert_ne in Hz by done. simplify_eq. split; [done|]. split.
    { pose proof (length_excessive userID d2) as Hle. destruct Hinv as [_ Hlim]. specialize (Hlim userID).
      destruct (excessive userID d2) as [|a l]; [by apply not_elem_of_nil in Hex|]. simpl in *. lia. }
    intros id' x' Hx'. rewrite Hs' in Hx'. case_decide as Hex'.
    + apply fmap_Some in Hx' as (y&_&->). unfold liveSession. simpl. by rewrite andb_false_r.
    + intros Hl'. eapply (excessive_oldest userID d2 id _ id'); [done| |done|done|done]. by rewrite Hs2, lookup_insert_ne.
  - intros id Hnone Hne. rewrite Hs', Hs2, lookup_insert_ne, Hnone by done. by case_decide.
  - intros Hold now Hnow. assert (cl_SessionID i ∉ excessive userID d2) as Hkept.
    { intros Hex. assert (size (liveOf userID d) ≠ 0%nat) as Hn0.
      { pose proof (length_excessive userID d2) as Hle. destruct (excessive userID d2); [by apply not_elem_of_nil in Hex|]. simpl in Hle. lia. }
      destruct (map_choose (liveOf userID d)) as (k&z&[Hz Hzl]%map_lookup_filter_Some); [intros E; by rewrite E, map_size_empty in Hn0|]. simpl in Hzl.
      assert (k ≠ cl_SessionID i) as Hk by (intros ->; congruence).
      assert (k ∉ excessive userID d2) as Hkn.
      { intros Hk2. destruct (excessive userID d2) as [|a [|b l]]; [by apply not_elem_of_nil in Hk2| |simpl in Hone; lia].
        apply list_elem_of_singleton in Hk2, Hex. congruence. }
      pose proof (excessive_oldest userID d2 (cl_SessionID i) row k z Hex ltac:(rewrite Hs2; apply lookup_insert_eq) Hkn
        ltac:(by rewrite Hs2, lookup_insert_ne) Hzl) as Hle. specialize (Hold k z Hz Hzl). subst row. simpl in Hle. lia. }
    exists (principalOf (cl_SessionID i) row). split; [|by subst row].
    assert (ad_sessions d' !! cl_SessionID i = Some row) as Hrow by (rewrite Hs', decide_False, Hs2 by done; apply lookup_insert_eq).
    assert (u2 = u) as -> by congruence. unfold loginStillValid in Hv. bool_hyps. exists digest, row, w.
    split_and!; try done; subst row; simpl; unfold minute, second in *; first [done|lia|congruence].
Qed.

(** ** Bounds *)

Lemma update_sessions_error ids f d e : update_sessions ids f d = inl e → e = AErrPg PgCheckViolation.
Proof.
  revert d. induction ids as [|id ids IH]; intros d; simpl; [done|]. destruct (ad_sessions d !! id); [|apply IH].
  destruct (negb _); [by intros [= <-]|apply IH].
Qed.
Lemma insertAudit_error id actor owner action now d e : insertAudit id actor owner action now d = inl e → ∀ text, e ≠ AErr text.
Proof.
  unfold insertAudit, text_param, tx_bind, tx_guard, tx_ret, tx_fail, violated. intros H text ->. destruct (sqlText id); [|done].
  unfold tx_fail in H. by repeat case_match.
Qed.

(** Nobody ever has more than ten live sessions, and the repository's own alarm cannot ring. In every reachable
    database each user has at most ten unrevoked sessions; after minting one more at most one has to go, so the error
    "session limit revoked more than one session" is never answered. *)
Theorem session_limit d user (Hd : auth_reachable d) :
  (size (liveOf user d) ≤ 10)%nat ∧
  ∀ id digest owner revision limitID now now2 at2 s d1, mintSession id digest user owner revision now d = inr (s, d1) →
    (length (excessive user d1) ≤ 1)%nat ∧
    limitSessions user owner limitID now2 at2 d1 ≠ inl (AErr "session limit revoked more than one session").
Proof.
  destruct (auth_reachable_inv d Hd) as [_ Hl]. split; [done|]. intros id digest owner revision limitID now now2 at2 s d1 (_&_&_&->&_)%mintSession_spec.
  set (row := Build_AdminSession _ _ _ _ _ _ _ _ _). set (d1 := set_sessions _ d).
  assert (length (excessive user d1) ≤ 1)%nat as Hone.
  { rewrite length_excessive. unfold liveOf, d1. simpl. specialize (Hl user). unfold liveOf in Hl.
    rewrite map_filter_insert_True by (simpl; unfold liveSession; simpl; by rewrite bool_decide_true).
    pose proof (size_insert_le (filter (λ kv, liveSession user kv.2 = true) (ad_sessions d)) id row). lia. }
  split; [done|]. intros E. unfold limitSessions, tx_read in E. unfold tx_bind at 1 in E. unfold tx_bind at 1 in E.
  destruct (update_sessions _ _ d1) as [e|[[] d2]] eqn:Hu; [apply update_sessions_error in Hu; congruence|].
  unfold tx_bind, assume, tx_guard in E. rewrite (proj2 (Z.leb_le _ _)) in E by lia. unfold tx_ret in E.
  case_match; [|done]. by apply insertAudit_error with (text := "session limit revoked more than one session") in E.
Qed.

(** C33: The throttle tables cannot be flooded. In every reachable database both together hold at most the number of
    rows the first reservation configured, itself between 8 and 100000 (none before it), whatever addresses, names and keys
    were ever presented; and a replica configured with another number is refused rather than obeyed. *)
Theorem throttle_rows_bounded d (Hd : auth_reachable d) :
  match ad_max_rows d with
  | None => throttleRows d = 0
  | Some m => 8 ≤ m ≤ 100000 ∧ throttleRows d ≤ m ∧
      ∀ now clock l m', m' ≠ m → ∃ e, ReserveThrottle now clock l m' d = inl e
  end.
Proof.
  destruct (auth_reachable_inv d Hd) as [[_ _ _ Hr] _]. unfold rowsBounded in Hr. destruct (ad_max_rows d) as [m|] eqn:Em; [|done].
  destruct Hr as [? ?]. split_and!; try lia. intros now clock l m' Hne. destruct (ReserveThrottle now clock l m' d) as [e|[r d']] eqn:E; [eauto|].
  unfold ReserveThrottle in E. auth_inv_tac. rewrite Em in *. simpl in *. tx_inv. bool_hyps. congruence.
Qed.

(** ** Counting attempts *)

Lemma liveAttempts_absent kind w l d : (∀ a, a ∈ l → ad_buckets d !! bucketKey kind a w = None) → liveAttempts kind w l d = 0.
Proof.
  induction l as [|a l IH]; intros H; [done|]. simpl. rewrite (H a) by left. rewrite IH; [done|]. intros b Hb. apply H. by right.
Qed.
Lemma liveAttempts_frame kind w l d d' :
  (∀ a, a ∈ l → ad_buckets d' !! bucketKey kind a w = ad_buckets d !! bucketKey kind a w) → liveAttempts kind w l d' = liveAttempts kind w l d.
Proof.
  induction l as [|a l IH]; intros H; [done|]. simpl. rewrite (H a) by left. rewrite IH; [done|]. intros b Hb. apply H. by right.
Qed.
Lemma bucketKey_inj kind w a b : bucketKey kind a w = bucketKey kind b w → a = b.
Proof. destruct a, b. unfold bucketKey. simpl. congruence. Qed.

(** Every admitted attempt is counted, and none is admitted past the limit. One step of a reservation for a pair,
    an address or a forwarder, whatever keys have been rotated: a denial leaves the attempts counted in this window under
    all live keys as they were; an admission requires fewer than the limit (five for a pair, twenty otherwise) and raises
    the count by one, all of it now under the active key; only when the tables are nearly full and nothing is counted yet is
    the shared overflow counter, under the same limit, raised instead. *)
Theorem attempts_counted now s1 s2 i m blocked d r d' (Hnd : NoDup (candidates i)) :
  reserveBucket now s1 s2 i m blocked d = inr (r, d') →
  let w := truncate now quarter in
  let n := liveAttempts (ti_Kind i) w (candidates i) d in
  let shared t := match ad_buckets t !! overflowKey (ti_Kind i) w with Some b => bk_attempts b | None => 0 end in
  match r with
  | inl res => tr_Allowed res = false ∧ liveAttempts (ti_Kind i) w (candidates i) d' = n
  | inr blocked' => blocked ≤ blocked' ≤ now ∧ n < attemptLimit (ti_Kind i) ∧
      ((liveAttempts (ti_Kind i) w (candidates i) d' = n + 1 ∧ ∃ b, ad_buckets d' !! ownKey i w = Some b ∧ bk_attempts b = n + 1) ∨
       (n = 0 ∧ m - 4 ≤ throttleRows d ∧ shared d < attemptLimit (ti_Kind i) ∧ shared d' = shared d + 1))
  end.
Proof.
  intros (s&d1&Hscan&Hmig&Hres)%reserveBucket_cases. set (w := truncate now quarter) in *. intros w' n shared. subst w'.
  apply scanBuckets_spec in Hscan as (Ha&Hb&Hmg&Hp&Hz). fold n in Ha.
  apply NoDup_cons in Hnd as [Hown Hnd].
  assert (∀ a, a ∈ ti_Aliases i → bucketKey (ti_Kind i) a w ≠ ownKey i w) as Hne by (intros a Hal E; apply bucketKey_inj in E; by subst a).
  (* after the migration the active key holds everything *)
  assert (∀ a, a ∈ ti_Aliases i → ad_buckets d1 !! bucketKey (ti_Kind i) a w = None) as Hal.
  { intros a Hin. destruct Hmig as [[Hn ->]|[Hn Hmig]].
    - rewrite Hn in Hmg. destruct (ad_buckets d !! bucketKey (ti_Kind i) a w) eqn:E; [|done]. exfalso. apply (not_elem_of_nil a). rewrite Hmg.
      apply list_elem_of_filter. split; [|done]. unfold present. rewrite E. eauto.
    - apply migrateAliases_spec in Hmig as (b&_&->). simpl. rewrite lookup_insert_ne by by apply not_eq_sym, Hne. rewrite dropKeys_lookup.
      case_decide as Hk; [done|]. destruct (ad_buckets d !! bucketKey (ti_Kind i) a w) eqn:E; [|done]. destruct Hk. apply (list_elem_of_fmap_2 (λ a, bucketKey (ti_Kind i) a w)).
      rewrite Hmg. apply list_elem_of_filter. split; [|done]. unfold present. rewrite E. eauto. }
  assert (liveAttempts (ti_Kind i) w (candidates i) d1 = n) as H1.
  { destruct Hmig as [[Hn ->]|[Hn Hmig]]; [done|]. unfold candidates. cbn [liveAttempts]. rewrite liveAttempts_absent by done.
    apply migrateAliases_spec in Hmig as (b&Hbn&->). simpl. fold (ownKey i w). rewrite lookup_insert_eq. lia. }
  destruct Hres as [(res&->&Hal'&->)|(b'&->&Hb'&Hres)]; [done|]. split; [lia|].
  destruct Hres as [(Hp0&Hm0&Hcap&_&Hlim&Hc)|(_&Hlim&Hc)]; apply countAttempt_spec in Hc as (b&Hbn&->); simpl.
  - specialize (Hz Hp0 Hm0). destruct Hmig as [[_ ->]|[? _]]; [|done]. assert (n = 0) as Hn by lia. split.
    { unfold attemptLimit. case_bool_decide; lia. }
    right. split_and!; [done|done|done|]. unfold shared. simpl. by rewrite lookup_insert_eq.
  - split; [lia|]. left. rewrite lookup_insert_eq. unfold candidates in *. cbn [liveAttempts] in *. simpl. fold (ownKey i w) in *.
    rewrite lookup_insert_eq. rewrite (liveAttempts_frame _ _ _ d1) by (intros a Hin; simpl; rewrite lookup_insert_ne; [done|by apply not_eq_sym, Hne]).
    rewrite liveAttempts_absent in * by done. split; [lia|]. exists b. split; [done|]. lia.
Qed.

(** ** The back-off of a user name *)

Lemma reserveBucket_usernames now s1 s2 i m blocked d r d' : reserveBucket now s1 s2 i m blocked d = inr (r, d') →
  ad_usernames d' = ad_usernames d.
Proof.
  intros (s&d1&_&Hmig&Hres)%reserveBucket_cases. assert (ad_usernames d1 = ad_usernames d) as <-.
  { destruct Hmig as [[_ ->]|[_ (b&_&->)%migrateAliases_spec]]; done. }
  destruct Hres as [(res&_&_&->)|(b'&_&_&[(_&_&_&_&_&Hc)|(_&_&Hc)])]; [done|..]; by apply countAttempt_spec in Hc as (b&_&->).
Qed.
(** A block that lies ahead denies whatever is reserved next. *)
Lemma reserveBucket_blocked now s1 s2 i m blocked d r d' : reserveBucket now s1 s2 i m blocked d = inr (r, d') → now < blocked →
  ∃ res, r = inl res ∧ tr_Allowed res = false.
Proof.
  intros (s&d1&(_&Hb&_)%scanBuckets_spec&_&Hres)%reserveBucket_cases Hnow.
  destruct Hres as [(res&->&?&_)|(b'&_&?&_)]; [by exists res|lia].
Qed.

Lemma sumFailures_ge rows n : Forall (λ r, 0 ≤ ut_failures r) rows → n ≤ 15 → (∃ r, r ∈ rows ∧ n ≤ ut_failures r) → n ≤ sumFailures rows.
Proof.
  unfold sumFailures. intros Hpos Hn.
  assert (∀ rows k, Forall (λ r, 0 ≤ ut_failures r) rows → k ≤ 15 →
    k ≤ fold_left (λ n r, let n := n + ut_failures r in if 15 <? n then 15 else n) rows k) as Hmono.
  { induction rows0 as [|x l IH]; intros k Hl Hk; simpl; [done|]. apply Forall_cons in Hl as [Hx Hl].
    destruct (15 <? k + ut_failures x) eqn:E; bool_hyps; [etrans; [exact Hk|by apply IH]|etrans; [|apply IH; [done|lia]]; lia]. }
  assert (∀ k, 0 ≤ k → (∃ r, r ∈ rows ∧ n ≤ ut_failures r) →
    n ≤ fold_left (λ n r, let n := n + ut_failures r in if 15 <? n then 15 else n) rows k) as Hgo; [|by apply Hgo].
  induction Hpos as [|x l Hx Hl IH]; intros k Hk (r&Hr&Hnr); [by apply not_elem_of_nil in Hr|]. simpl.
  apply elem_of_cons in Hr as [->|Hr].
  - destruct (15 <? k + ut_failures x) eqn:E; bool_hyps; [etrans; [exact Hn|by apply Hmono]|etrans; [|by apply Hmono]; lia].
  - apply IH; [|by exists r]. case_match; lia.
Qed.

Lemma latestBlock_spec now rows :
  (∀ b, latestBlock now rows = Some b → now < b) ∧ (Forall (λ r, after (ut_blocked r) now = false) rows → latestBlock now rows = None).
Proof.
  unfold latestBlock.
  assert (∀ acc, (∀ b, acc = Some b → now < b) →
    (∀ b, fold_left (λ b r, match ut_blocked r with
      | Some x => if (now <? x) && match b with None => true | Some y => y <? x end then Some x else b | None => b end) rows acc = Some b → now < b) ∧
    (Forall (λ r, after (ut_blocked r) now = false) rows → acc = None → fold_left (λ b r, match ut_blocked r with
      | Some x => if (now <? x) && match b with None => true | Some y => y <? x end then Some x else b | None => b end) rows acc = None)) as Hgo.
  { induction rows as [|x l IH]; intros acc Hacc; simpl; [done|]. split.
    - intros b H. destruct (ut_blocked x) as [y|]; [|by eapply (proj1 (IH acc Hacc))].
      destruct (_ && _) eqn:E in H; [|by eapply (proj1 (IH acc Hacc))]. bool_hyps. eapply (proj1 (IH (Some y) ltac:(by intros ? [= <-]))), H.
    - intros [Hx Hl]%Forall_cons ->. unfold after in Hx. destruct (ut_blocked x) as [y|]; [rewrite Hx|]; simpl; by apply (IH None). }
  destruct (Hgo None ltac:(done)) as [H1 H2]. split; [done|]. intros H. by apply H2.
Qed.

Lemma backoff_pos n : 10 ≤ n → 0 < backoff n.
Proof.
  intros Hn. unfold backoff. destruct (15 * minute <? _) eqn:E; [done|]. unfold Throttle.min. rewrite Z.shiftl_mul_pow2 by (case_match; bool_hyps; lia).
  assert (0 < 2 ^ (if n - 10 <? 5 then n - 10 else 5)) by (apply Z.pow_pos_nonneg; [lia|case_match; bool_hyps; lia]). unfold second. lia.
Qed.

(** What reserving a user name with [failures >= 9] does. *)
Lemma reserveUsername_backoff now stamp i m d row r d' :
  map_Forall (λ k u, username_check k u = true) (ad_usernames d) →
  ad_usernames d !! (ti_KeyVersion i, ti_Digest i) = Some row → 9 ≤ un_failures row → now - quarter < un_updated row →
  reserveUsernameThrottle now stamp i m d = inr (r, d') →
  (tr_Allowed r = true → now < tr_BlockedUntil r) ∧
  ((∀ k u, k ∈ candidates i → ad_usernames d !! k = Some u → after (un_blocked u) now = false) → tr_Allowed r = true) ∧
  ∃ row', ad_usernames d' !! (ti_KeyVersion i, ti_Digest i) = Some row' ∧ 9 ≤ un_failures row'.
Proof.
  intros Hck Hrow Hf Hup H. unfold reserveUsernameThrottle in H. set (primary := (ti_KeyVersion i, ti_Digest i)) in *. tx_inv.
  rewrite Hrow in H. cbn [isSomeb negb andb] in H. set (own := omap (λ k, loadUsername now k d) (candidates i)) in *.
  apply tx_bind_inv in H as ([]&d1&Hdel&H). apply deleteAliases_spec in Hdel as (_&Hkeep&_).
  assert (Forall (λ x, 0 ≤ ut_failures x) own ∧ ((∀ k u, k ∈ candidates i → ad_usernames d !! k = Some u → after (un_blocked u) now = false) →
    Forall (λ x, after (ut_blocked x) now = false) own)) as [Hpos Hblk].
  { rewrite !Forall_forall. split; [|intros Hno]; intros x (k&Hk&Hx)%list_elem_of_omap; unfold loadUsername in Hx;
      destruct (ad_usernames d !! k) as [z|] eqn:Ez; try done; injection Hx as <-; simpl; case_match; try done.
    - pose proof (Hck k z Ez) as Hc. unfold username_check in Hc. by bool_hyps.
    - by eapply Hno. }
  assert (9 ≤ sumFailures own) as Hsum.
  { apply sumFailures_ge; [done|lia|]. eexists. split; [apply list_elem_of_omap; exists primary; split; [left|]; unfold loadUsername; rewrite Hrow; done|].
    simpl. by rewrite (proj2 (Z.ltb_lt _ _) Hup). }
  unfold answerUsername in H. destruct (latestBlock_spec now own) as [Hlater Hnone]. destruct (latestBlock now own) as [b|] eqn:Eb.
  - apply tx_bind_inv in H as ([]&d2&Hw&H). tx_inv. simpl. split; [done|]. split; [intros Hno; by specialize (Hnone (Hblk Hno))|].
    case_match; [|tx_inv; exists row; by rewrite Hkeep]. apply upsert_username_inv in Hw as [_ ->]. simpl. rewrite lookup_insert_eq. eauto.
  - apply tx_bind_inv in H as ([]&d2&Hw&H). tx_inv. simpl. apply upsert_username_inv in Hw as [_ ->].
    assert (10 ≤ (if 15 <? sumFailures own + 1 then 15 else sumFailures own + 1)) as H10 by (case_match; lia).
    rewrite (proj2 (Z.leb_le _ _) H10). simpl. split; [intros _; pose proof (backoff_pos _ H10); lia|]. split; [done|].
    rewrite lookup_insert_eq. eexists. split; [done|]. simpl. lia.
Qed.

(** C34: After nine failures a user name is locked out, not slowed down: no login gets through however long it waited
    within the quarter of an hour. A login reserves its pair, its user name and its address in this order; with nine failures
    on record the user name's own reservation, though granted once its delay has passed, returns the block meant for the next
    attempt, and the address's step takes that block for its own: the whole reservation is denied, and the record keeps its
    failures. (The decision record asks for a delay that begins at thirty seconds.) *)
Theorem username_backoff_locks_out now clock m d pair name ip row r d' :
  map_Forall (λ k u, username_check k u = true) (ad_usernames d) →
  ti_Kind pair = ThrottlePair → ti_Kind name = ThrottleUsername → ti_Kind ip = ThrottleIP →
  ad_usernames d !! (ti_KeyVersion name, ti_Digest name) = Some row → 9 ≤ un_failures row → now - quarter < un_updated row →
  ReserveThrottle now clock [pair; name; ip] m d = inr (r, d') →
  tr_Allowed r = false ∧
  (∃ row', ad_usernames d' !! (ti_KeyVersion name, ti_Digest name) = Some row' ∧ 9 ≤ un_failures row') ∧
  ((∀ k u, k ∈ candidates name → ad_usernames d !! k = Some u → after (un_blocked u) now = false) →
   ∀ r1 d1, ReserveThrottle now clock [name] m d = inr (r1, d1) → tr_Allowed r1 = true).
Proof.
  intros Hck Hp Hn Hi Hrow Hf Hup H.
  assert (∀ t l r t', ReserveThrottle now clock l m t = inr (r, t') → ∃ t1, ad_usernames t1 = ad_usernames t ∧ reserveAll now clock 0 l m 0 t1 = inr (r, t')) as Hbody.
  { intros t l r0 t' E. unfold ReserveThrottle in E. auth_inv_tac. eexists. split; [|done].
    match goal with H : (if _ then _ else _) _ = inr _ |- _ => rename H into Hc end. by case_match; tx_inv. }
  assert (∀ t1, ad_usernames t1 = ad_usernames d → map_Forall (λ k u, username_check k u = true) (ad_usernames t1) ∧
    ad_usernames t1 !! (ti_KeyVersion name, ti_Digest name) = Some row) as Hsame by by intros t1 ->.
  split; [|split].
  3: { intros Hno r1 d1 (t1&Ht1&E)%Hbody. destruct (Hsame _ Ht1) as [Hck1 Hrow1]. simpl in E. rewrite Hn in E. cbn in E.
    apply tx_bind_inv in E as (v&d2&Hv&E). destruct (reserveUsername_backoff _ _ _ _ _ _ _ _ Hck1 Hrow1 Hf Hup Hv) as (_&Hall&_).
    rewrite Ht1 in Hall. rewrite (Hall Hno) in E. simpl in E. by tx_inv. }
  all: apply Hbody in H as (d0&Hd0&H); destruct (Hsame _ Hd0) as [Hck0 Hrow0]; simpl in H; rewrite Hp, Hn, Hi in H; cbn in H;
    apply tx_bind_inv in H as (v&d1&H1&H); pose proof (reserveBucket_usernames _ _ _ _ _ _ _ _ _ H1) as Hu1;
    apply reserveBucket_cases in H1 as (s&d1'&_&_&H1).
  - destruct H1 as [(res&->&Hno&_)|(b'&->&_)]; [by tx_inv|]. apply tx_bind_inv in H as (v&d2&Hv&H).
    destruct (Hsame d1) as [Hck1 Hrow1]; [congruence|]. destruct (reserveUsername_backoff _ _ _ _ _ _ _ _ Hck1 Hrow1 Hf Hup Hv) as (Hblock&_&_).
    destruct (tr_Allowed v) eqn:Ev; simpl in H; [|by tx_inv]. specialize (Hblock eq_refl). apply tx_bind_inv in H as (w&d3&Hw&H).
    apply reserveBucket_blocked in Hw as (res&->&Hres); [by tx_inv|]. destruct (b' <? tr_BlockedUntil v) eqn:Eb; bool_hyps; lia.
  - destruct H1 as [(res&->&Hno&_)|(b'&->&_)]; [tx_inv; rewrite Hu1; eauto|]. apply tx_bind_inv in H as (v&d2&Hv&H).
    destruct (Hsame d1) as [Hck1 Hrow1]; [congruence|]. destruct (reserveUsername_backoff _ _ _ _ _ _ _ _ Hck1 Hrow1 Hf Hup Hv) as (_&_&Hkeep).
    destruct (tr_Allowed v) eqn:Ev; simpl in H; [|by tx_inv]. apply tx_bind_inv in H as (w&d3&Hw&H).
    apply reserveBucket_usernames in Hw as Hu3. assert (ad_usernames d' = ad_usernames d2) as ->; [|done]. by destruct w; tx_inv.
Qed.

(** ** Instances *)

Definition later : nat → Z := clockAt (day0 + 10 * minute).
Definition administratorPrincipal : Principal :=
  {| p_UserID := "user-1"; p_OwnerID := "owner-1"; p_RoleOwner := true; p_AuthRevision := 1; p_SessionID := "session-1" |}.

Lemma session_authority_witness :
  ∃ p d', ValidateSession later sessionToken loggedIn = inr (p, d') ∧ p_UserID p = "user-1" ∧ authority loggedIn (later 0%nat) sessionToken p.
Proof.
  destruct (answers (ValidateSession later sessionToken) loggedIn (λ p, bool_decide (p_UserID p = "user-1"))) as (p&d'&E&Hp);
    [vm_compute; reflexivity|]. exists p, d'. split; [exact E|]. split; [by apply bool_decide_eq_true in Hp|].
  exact (proj1 (session_authority loggedIn later sessionToken loggedIn_reachable) _ _ E).
Defined.

Lemma administrator_sessions_agree_witness : authority loggedIn (later 0%nat) sessionToken administratorPrincipal.
Proof.
  assert (match SessionTokenDigest sessionToken, ad_sessions loggedIn !! "session-1" with
          | inr digest, Some s => bool_decide (as_digest s = digest) | _, _ => false end = true) as F by (vm_compute; reflexivity).
  destruct (SessionTokenDigest sessionToken) as [e|digest] eqn:E; [discriminate|].
  destruct (ad_sessions loggedIn !! "session-1") as [s|] eqn:Es; [|discriminate]. apply bool_decide_eq_true in F.
  refine (proj2 (administrator_sessions_agree loggedIn (leaseTables (sessionView loggedIn)) (later 0%nat) sessionToken digest administratorPrincipal
    loggedIn_reachable _ E) _); [reflexivity|]. split; [vm_compute; reflexivity|]. exists s. split; [exact Es|exact F].
Defined.

Lemma password_reset_ends_authority_witness :
  ∃ d', ResetPassword later "user-1" exampleVerifier "audit-9" [digestOf "pair"] loggedIn = inr (tt, d') ∧
        ¬ authority d' (later 5%nat) sessionToken administratorPrincipal.
Proof.
  destruct (answers (ResetPassword later "user-1" exampleVerifier "audit-9" [digestOf "pair"]) loggedIn (λ _, true)) as ([]&d'&E&_);
    [vm_compute; reflexivity|]. exists d'. split; [exact E|]. intros H.
  destruct (proj1 (proj1 (proj2 (password_reset_ends_authority loggedIn loggedIn _ _ _ _ _ d' d' loggedIn_reachable (rtc_refl _ _) E (rtc_refl _ _))) _ _ _) H) as [Hne _].
  apply Hne. reflexivity.
Defined.

Lemma login_mints_one_session_witness :
  ∃ s d', CompleteLogin (clockAt (day0 + 2 * minute)) loginInput attempted = inr (s, d') ∧ ad_sessions attempted !! s_ID s = None.
Proof.
  destruct (answers (CompleteLogin (clockAt (day0 + 2 * minute)) loginInput) attempted (λ _, true)) as (s&d'&E&_); [vm_compute; reflexivity|].
  exists s, d'. split; [exact E|]. exact (proj1 (proj2 (login_mints_one_session attempted _ _ s d' attempted_reachable E))).
Defined.

Lemma session_limit_witness : (size (liveOf "user-1" loggedIn) ≤ 10)%nat.
Proof. exact (proj1 (session_limit loggedIn "user-1" loggedIn_reachable)). Defined.

Lemma throttle_rows_bounded_witness : ad_max_rows attempted = Some 100 ∧ throttleRows attempted ≤ 100.
Proof.
  pose proof (throttle_rows_bounded attempted attempted_reachable) as H. assert (ad_max_rows attempted = Some 100) as E by (vm_compute; reflexivity).
  rewrite E in H. split; [exact E|]. exact (proj1 (proj2 H)).
Defined.

Lemma attempts_counted_witness :
  ∃ r d', reserveBucket day0 day0 day0 addressIdentity 100 0 installed = inr (r, d') ∧
          match r with inr blocked => 0 ≤ blocked ≤ day0 | inl _ => False end.
Proof.
  destruct (answers (reserveBucket day0 day0 day0 addressIdentity 100 0) installed (λ r, match r with inr _ => true | inl _ => false end))
    as (r&d'&E&Hr); [vm_compute; reflexivity|]. exists r, d'. split; [exact E|].
  assert (bool_decide (NoDup (candidates addressIdentity)) = true) as Hnd by (vm_compute; reflexivity). apply bool_decide_eq_true in Hnd.
  pose proof (attempts_counted _ _ _ _ _ _ _ _ _ Hnd E) as H. destruct r as [|blocked]; [discriminate|]. exact (proj1 H).
Defined.

(** Two minutes after the ninth failure the name alone would be admitted; the
    login with the right password is not. *)
Lemma username_backoff_locks_out_witness :
  let now := day0 + 4 * minute in
  (∃ r d', ReserveThrottle now (clockAt now) [nameIdentity] 100 exhausted = inr (r, d') ∧ tr_Allowed r = true) ∧
  (∃ r d', ReserveThrottle now (clockAt now) [pairIdentity; nameIdentity; addressIdentity] 100 exhausted = inr (r, d') ∧ tr_Allowed r = false).
Proof.
  intros now. split; [apply answers; vm_compute; reflexivity|].
  assert (ad_usernames exhausted !! ("k1", digestOf "name") = Some {| un_failures := 9; un_blocked := None; un_updated := day0 + 80 * second |}) as Hrow
    by (vm_compute; reflexivity).
  assert (bool_decide (map_Forall (λ k u, username_check k u = true) (ad_usernames exhausted)) = true) as Hck by (vm_compute; reflexivity).
  apply bool_decide_eq_true in Hck.
  destruct (answers (ReserveThrottle now (clockAt now) [pairIdentity; nameIdentity; addressIdentity] 100) exhausted (λ _, true)) as (r&d'&E&_);
    [vm_compute; reflexivity|]. exists r, d'. split; [exact E|].
  exact (proj1 (username_backoff_locks_out now (clockAt now) 100 exhausted pairIdentity nameIdentity addressIdentity _ r d' Hck eq_refl eq_refl eq_refl
    Hrow ltac:(vm_compute; discriminate) ltac:(vm_compute; reflexivity) E)).
Defined.
