(* ===== verification/GitHubApp.v ===== *)
(** * The GitHub App boundary (src/internal/githubapp/githubapp.go, setup.go,
    checkout.go, http.go)

    Identities, one-time capabilities and their digests, the verification of
    the App against its configuration, binding snapshots and the checks on
    minted tokens.  HTTP exchanges with the provider are no part of it: what
    the provider answers is an argument of the operations that ask. *)
From S2P Require Import Prelude GoStd Base64 Token Queue Route Evidence.
#[local] Open Scope Z_scope.

(** ** Identities *)

(** The rune loop refuses every rune outside 0x21-0x7e, and no byte of a
    longer rune or of invalid UTF-8 is in that range. *)
Definition validText (s : string) (limit : Z) : bool :=
  negb (bool_decide (s = "")) && (slen s <=? limit) && forallBytes (λ b, (33 <=? b) && (b <=? 126)) s.

Record AppIdentity := { ai_AppID : Z; ai_ClientID : string; ai_Slug : string }.
#[global] Instance AppIdentity_eq_dec : EqDecision AppIdentity.
Proof. solve_decision. Defined.
Definition appIdentityValid (v : AppIdentity) : bool :=
  (0 <? ai_AppID v) && validText (ai_ClientID v) 255 && validText (ai_Slug v) 100.

Record Owner := { ow_AccountID : Z; ow_Type : string }.
#[global] Instance Owner_eq_dec : EqDecision Owner.
Proof. solve_decision. Defined.
Definition ownerValid (v : Owner) : bool :=
  (0 <? ow_AccountID v) && (bool_decide (ow_Type v = "User") || bool_decide (ow_Type v = "Organization")).

(** [TargetType] and [RepositorySelection] are set by the HTTP provider and
    read by nothing modelled. *)
Record ProviderInstallation := { ins_ID : Z; ins_Account : Owner; ins_Suspended : bool }.
Record ProviderRepository := {
  rp_ID : Z; rp_NodeID : string; rp_OwnerID : Z; rp_Name : string; rp_FullName : string; rp_DefaultBranch : string;
}.
Record App := {
  app_ID : Z; app_ClientID : string; app_Slug : string; app_Owner : Owner; app_Permissions : gmap string string; app_Events : list string;
}.

(** [got[key] != value]: a missing key reads as the empty string. *)
Definition exactPermissions (got want : gmap string string) : bool :=
  bool_decide (size got = size want) && forallb (λ kv, bool_decide (default "" (got !! kv.1) = kv.2)) (map_to_list want).
Definition exactStrings (got want : list string) : bool :=
  bool_decide (length got = length want) && bool_decide (NoDup got) && forallb (λ v, bool_decide (v ∈ got)) want.

Definition appPermissions : gmap string string := {["contents" := "read"; "metadata" := "read"]}.
Definition VerifyApp (app : App) (want : AppIdentity) (owner : Owner) : bool :=
  appIdentityValid want && ownerValid owner && (app_ID app =? ai_AppID want) && bool_decide (app_ClientID app = ai_ClientID want)
  && bool_decide (app_Slug app = ai_Slug want) && bool_decide (app_Owner app = owner)
  && exactPermissions (app_Permissions app) appPermissions && exactStrings (app_Events app) ["push"].

(** ** Capabilities *)

Definition NewCapability (randomness : string) : option string := RawURLEncodeToString <$> readFull 32 randomness.
(** The decoder ignores the two spare bits of the last letter, so four texts
    denote one capability; the digest is of the bytes. *)
Definition capabilityDigest (domain value : string) : option string :=
  if negb (slen value =? 43) then None
  else
    b ← RawURLDecodeString value;
    if negb (slen b =? 32) then None else Some (Sum256 ((domain +:+ ":") +:+ b +:+ nul)).
Definition SetupDigest (value : string) : option string := capabilityDigest "setup-state/v1" value.
Definition HandoffDigest (value : string) : option string := capabilityDigest "setup-handoff/v1" value.

(** [fmt.Sprintf("gh_%s_%x", domain, digest[:16])] *)
Definition auditID (domain digest : string) : string := "gh_" +:+ domain +:+ "_" +:+ EncodeToString (takeBytes 16 digest).
Definition lifecycleAuditID (digest : string) : string := "gh_lifecycle_" +:+ EncodeToString (takeBytes 16 digest).

(** [hex] of 16 random bytes with the version and variant bits of a UUID. *)
Definition setByte (n : nat) (f : Z → Z) (s : string) : string :=
  takeBytes n s +:+ match String.get n s with Some c => String (ascii_of_byte (f (byte_of c))) "" | None => "" end +:+ dropBytes (S n) s.
Definition checkoutID (randomness : string) : option string :=
  b ← readFull 16 randomness;
  let b := setByte 8 (λ x, Z.lor (Z.land x 63) 128) (setByte 6 (λ x, Z.lor (Z.land x 15) 64) b) in
  let part i n := EncodeToString (takeBytes n (dropBytes i b)) in
  Some (part 0%nat 4%nat +:+ "-" +:+ part 4%nat 2%nat +:+ "-" +:+ part 6%nat 2%nat +:+ "-" +:+ part 8%nat 2%nat +:+ "-" +:+ part 10%nat 6%nat).

(** ** Binding snapshots *)

Record GitBindingInput := { bi_ProjectID : string; bi_RepositoryID : Z; bi_Ref : string; bi_EnvironmentID : string; bi_ServerID : string }.
Definition bindingInputValid (i : GitBindingInput) : bool :=
  ValidOpaqueID (bi_ProjectID i) && (0 <? bi_RepositoryID i) && ValidBranchRef (bi_Ref i) && ValidOpaqueID (bi_EnvironmentID i)
  && ValidOpaqueID (bi_ServerID i).

Record CheckoutBinding := {
  cb_OwnerID : string; cb_ProjectID : string; cb_InstallationID : Z; cb_RepositoryID : Z;
  cb_BindingRevision : Z; cb_RepositoryRevision : Z; cb_InstallationRevision : Z;
  cb_CloneURL : string; cb_CommitSHA : string; cb_ReservationID : string; cb_AuthorizationRevision : Z;
}.
#[global] Instance CheckoutBinding_eq_dec : EqDecision CheckoutBinding.
Proof. solve_decision. Defined.
Definition CloneURLValid (b : CheckoutBinding) : bool :=
  HasPrefix (cb_CloneURL b) "https://github.com/" && HasSuffix (cb_CloneURL b) ".git" && (slen (cb_CloneURL b) <=? 1024).
Definition checkoutBindingValid (b : CheckoutBinding) : bool :=
  let legacy := (0 <? cb_AuthorizationRevision b) && (cb_BindingRevision b =? 0) && (cb_RepositoryRevision b =? 0)
                && (cb_InstallationRevision b =? 0) in
  negb (bool_decide (cb_OwnerID b = "")) && (slen (cb_OwnerID b) <=? 128) && negb (bool_decide (cb_ProjectID b = ""))
  && (slen (cb_ProjectID b) <=? 128) && (0 <? cb_InstallationID b) && (0 <? cb_RepositoryID b)
  && (legacy || ((0 <? cb_BindingRevision b) && (0 <? cb_RepositoryRevision b) && (0 <? cb_InstallationRevision b))).
Definition isLowerHexByte (b : Z) : bool := isDigit b || ((97 <=? b) && (b <=? 102)).
Definition isLowerHex (v : string) : bool := forallBytes isLowerHexByte v.

(** ** Tokens *)

(** [Permissions] of a checkout token and the repositories it is for; times in
    nanoseconds since year one, so the zero time is 0. *)
Record CheckoutToken := {
  ct_Value : string; ct_ExpiresAt : Z; ct_RepositoryIDs : list Z; ct_Contents : string; ct_Permissions : gmap string string;
}.
Definition maxTokenBytes : Z := 8192.
Definition tokenSafetyMargin : Z := 30 * second.
Definition tokenExpiryTolerance : Z := minute.
Definition validToken (value : string) (expiresAt now : Z) : bool :=
  negb (bool_decide (value = "")) && (slen value <=? maxTokenBytes) && forallBytes (λ b, negb ((b =? 13) || (b =? 10) || (b =? 0))) value
  && negb (expiresAt =? 0) && (now + tokenSafetyMargin <? expiresAt) && (expiresAt <? now + (60 * minute + tokenExpiryTolerance) + 1).
Definition checkoutPermissions : gmap string string := {["contents" := "read"]}.
Definition validCheckoutToken (t : CheckoutToken) (repositoryID now : Z) : bool :=
  validToken (ct_Value t) (ct_ExpiresAt t) now && bool_decide (ct_Contents t = "read")
  && exactPermissions (ct_Permissions t) checkoutPermissions && bool_decide (ct_RepositoryIDs t = [repositoryID]).

(** ** Facts *)

(** Verification pins the App down: identity, owner, permissions and events are the configured ones, nothing more. *)
Lemma exactStrings_singleton got s : exactStrings got [s] = true ↔ got = [s].
Proof.
  unfold exactStrings. split.
  - intros H. bool_hyps. destruct got as [|x [|y got]]; simpl in *; bool_hyps; [lia|set_solver|lia].
  - intros ->. simpl. rewrite !bool_decide_true by (first [done|apply NoDup_singleton|set_solver]). done.
Qed.
Lemma exactPermissions_eq got want : map_Forall (λ _ v, v ≠ "") want → exactPermissions got want = true ↔ got = want.
Proof.
  intros Hw. unfold exactPermissions. split.
  - intros [Hs%bool_decide_eq_true Hf]%andb_true_iff. rewrite forallb_forall in Hf.
    assert (want ⊆ got) as Hsub.
    { apply map_subseteq_spec. intros k v Hk. specialize (Hf (k, v)). simpl in Hf.
      assert (default "" (got !! k) = v) as Hd by by eapply bool_decide_eq_true_1, Hf, list_elem_of_In, elem_of_map_to_list.
      destruct (got !! k); simpl in Hd; [congruence|]. subst. by destruct (Hw k "" Hk). }
    symmetry. apply map_subseteq_size_eq; [done|lia].
  - intros ->. rewrite bool_decide_true by done. apply forallb_forall. intros [k v] Hk%list_elem_of_In%elem_of_map_to_list. simpl.
    by rewrite Hk, bool_decide_true.
Qed.
