(* ===== verification/GitHubStore.v ===== *)
(** * Tables of the GitHub repository (src/internal/store/postgres/github_repository.go,
    migrations 000005, 000006, 000008, 000009 and 000011)

    The state extends the webhook database, whose registration flag,
    installations, repositories and bindings the two repositories share, and
    the authentication database, whose sessions every administrator's call
    locks.  The columns the webhook repository never reads are kept beside its
    rows: an installation's [account_type] in [gh_types], a repository's names
    in [gh_meta]; [clone_url] is the text its CHECK fixes.

    All readings of [clock_timestamp()] within one call are its argument
    [now].  [deploy_ref]'s CHECK repeats what [ValidBranchRef] established
    (spaces outside ASCII, which [[:space:]] may cover under some collations,
    apart) and is not written twice.  A reservation id is compared as its
    canonical text; PostgreSQL also reads other spellings of a UUID.  An error
    the Go code wraps with context only is [GWrapped] of what the driver
    raised. *)
From S2P Require Import Prelude GoStd Token Queue Route Regex Schema Evidence LeaseCore Lease Enqueue Webhooks Password Hmac AuthTokens AuthStore GitHubApp.
From Stdlib Require Import Ascii.
#[local] Open Scope Z_scope.

(** ** Errors *)

Inductive GHErr :=
  | GSetupStateInvalid | GHandoffInvalid | GDenied
  | GWrapped (e : PgError)
  | GEncoding                 (* 22021: a text parameter that is not UTF-8 or holds a NUL *)
  | GCapacity.                (* 54000: the audit trail of an owner is full *)

(** ** Rows *)

Record RepoMeta := { rm_node_id : string; rm_name : string; rm_full_name : string; rm_default_branch : string }.
Definition cloneURL (m : RepoMeta) : string := "https://github.com/" +:+ rm_full_name m +:+ ".git".

Record AppRow := { ar_identity : AppIdentity; ar_owner : Owner }.

Record SetupRow := {
  ss_owner : string; ss_user : string; ss_session : string; ss_revision : Z; ss_expires : Z;
  ss_consumed : option Z; ss_recoverable : option Z;
}.
Record HandoffRow := {
  ho_state : string; ho_owner : string; ho_user : string; ho_session : string; ho_revision : Z;
  ho_installation : Z; ho_account : Owner; ho_expires : Z; ho_consumed : option Z;
}.

Inductive GHAction := SetupStarted | CallbackVerified | SetupCompleted | RepositoryBound | InstallationDisabled | RepositoryDisabled.
#[global] Instance GHAction_eq_dec : EqDecision GHAction.
Proof. solve_decision. Defined.
Record GHAuditRow := {
  ga_owner : string; ga_actor : string; ga_action : GHAction; ga_installation : option Z; ga_repository : option Z; ga_project : option string;
}.

Inductive ReservationState := RReserved | RMinting | RActive | RRunning | RConsumed | RInvalidated | RExpired.
#[global] Instance ReservationState_eq_dec : EqDecision ReservationState.
Proof. solve_decision. Defined.
Record ReservationRow := {
  rv_owner : string; rv_project : string; rv_installation : Z; rv_repository : Z; rv_clone_url : string; rv_commit : string;
  rv_binding_revision : Z; rv_repository_revision : Z; rv_installation_revision : Z;
  rv_state : ReservationState; rv_attempts : Z; rv_expires : Z; rv_created : Z; rv_consumed : option Z;
}.

Record GHDB := {
  gh_web : WebhookDB;
  gh_auth : AuthDB;
  gh_app : option AppRow;
  gh_types : gmap Z string;
  gh_meta : gmap Z RepoMeta;
  gh_states : gmap string SetupRow;                (* by digest *)
  gh_handoffs : gmap string HandoffRow;            (* by digest *)
  gh_max_active : Z;                               (* github_setup_state_limits *)
  gh_audit : gmap string GHAuditRow;
  gh_admission : gmap string Z;                    (* event_count per owner *)
  gh_reservations : gmap string ReservationRow;
}.

Definition put_web x g := Build_GHDB x (gh_auth g) (gh_app g) (gh_types g) (gh_meta g) (gh_states g) (gh_handoffs g) (gh_max_active g) (gh_audit g) (gh_admission g) (gh_reservations g).
Definition put_auth x g := Build_GHDB (gh_web g) x (gh_app g) (gh_types g) (gh_meta g) (gh_states g) (gh_handoffs g) (gh_max_active g) (gh_audit g) (gh_admission g) (gh_reservations g).
Definition put_app x g := Build_GHDB (gh_web g) (gh_auth g) x (gh_types g) (gh_meta g) (gh_states g) (gh_handoffs g) (gh_max_active g) (gh_audit g) (gh_admission g) (gh_reservations g).
Definition put_columns x y g := Build_GHDB (gh_web g) (gh_auth g) (gh_app g) x y (gh_states g) (gh_handoffs g) (gh_max_active g) (gh_audit g) (gh_admission g) (gh_reservations g).
Definition put_setup x y g := Build_GHDB (gh_web g) (gh_auth g) (gh_app g) (gh_types g) (gh_meta g) x y (gh_max_active g) (gh_audit g) (gh_admission g) (gh_reservations g).
Definition put_audit x y g := Build_GHDB (gh_web g) (gh_auth g) (gh_app g) (gh_types g) (gh_meta g) (gh_states g) (gh_handoffs g) (gh_max_active g) x y (gh_reservations g).
Definition put_reservations x g := Build_GHDB (gh_web g) (gh_auth g) (gh_app g) (gh_types g) (gh_meta g) (gh_states g) (gh_handoffs g) (gh_max_active g) (gh_audit g) (gh_admission g) x.

Definition GHTx (A : Type) : Type := Tx GHDB GHErr A.
Fixpoint each {A} (f : A → GHTx unit) (xs : list A) : GHTx unit :=
  match xs with [] => tx_ret tt | x :: rest => do! f x in each f rest end.
(** Text parameters of one statement. *)
Definition texts (ss : list string) : GHTx unit := tx_guard (forallb sqlText ss) GEncoding.

Definition installations (g : GHDB) : gmap Z InstallationRow := wh_installations (gh_web g).
Definition repositories (g : GHDB) : gmap Z RepositoryRow := wh_repositories (gh_web g).
Definition bindings (g : GHDB) : gmap (string * string) GitBindingRow := wh_bindings (gh_web g).
Definition put_authority ins rs bs (g : GHDB) : GHDB := put_web (set_authority (wh_app_active (gh_web g)) ins rs bs (gh_web g)) g.

(** ** CHECK constraints *)

Definition repository_check (id : Z) (r : RepositoryRow) (m : RepoMeta) : bool :=
  (0 <? id) && (bool_decide (rm_node_id m = "") || octet_length 1 255 (rm_node_id m)) && (0 <? gr_github_owner r)
  && octet_length 1 255 (rm_name m) && octet_length 3 512 (rm_full_name m)
  && (bool_decide (rm_default_branch m = "") || octet_length 1 255 (rm_default_branch m)) && (0 <? gr_revision r).
Definition installation_check (id : Z) (i : InstallationRow) (type : string) : bool :=
  (0 <? id) && (0 <? gi_account i) && bool_decide (type ∈ ["User"; "Organization"]) && (0 <? gi_revision i).
Definition setup_check (digest : string) (s : SetupRow) : bool := (slen digest =? 32) && (0 <? ss_revision s).
Definition handoff_check (digest : string) (h : HandoffRow) : bool :=
  (slen digest =? 32) && (0 <? ho_revision h) && (0 <? ho_installation h) && ownerValid (ho_account h).

(** [^https://github\.com/[A-Za-z0-9_.-]+/[A-Za-z0-9_.-]+\.git$] *)
Definition isRepoByte (b : Z) : bool := isIdByte b || (b =? 46).
Definition cloneURLPattern (s : string) : bool :=
  HasPrefix s "https://github.com/" &&
  match SplitByte "/" (dropBytes 19 s) with
  | [owner; repo] => (0 <? slen owner) && forallBytes isRepoByte owner && HasSuffix repo ".git" && (4 <? slen repo) && forallBytes isRepoByte repo
  | _ => false
  end.
Definition reservation_check (r : ReservationRow) : bool :=
  (slen (rv_commit r) =? 40) && isLowerHex (rv_commit r) && cloneURLPattern (rv_clone_url r)
  && (0 <=? rv_attempts r) && (rv_attempts r <=? 1) && (rv_created r <? rv_expires r).

(** ** Statements *)

(** The WHERE clause of the administrator's session lock. *)
Definition adminLive (p : Principal) (now : Z) (d : AuthDB) : bool :=
  match ad_sessions d !! p_SessionID p with
  | Some s =>
      match ad_users d !! as_user s with
      | Some u =>
          bool_decide (us_owner u = as_owner s) && bool_decide (as_user s = p_UserID p) && bool_decide (as_owner s = p_OwnerID p)
          && (as_auth_revision s =? int64 (p_AuthRevision p)) && (us_auth_revision u =? int64 (p_AuthRevision p)) && us_active u
          && negb (isSomeb (as_revoked s)) && (now <? as_idle s) && (now <? as_absolute s)
      | None => false
      end
  | None => false
  end.
Definition lockAdministrator (p : Principal) (now : Z) : GHTx unit :=
  let! live := tx_read (λ g, adminLive p now (gh_auth g)) in tx_guard live GDenied.

Definition activeRegistration : GHTx unit :=
  let! active := tx_read (λ g, wh_app_active (gh_web g)) in tx_guard active GDenied.

(** [admit_github_audit_event] counts the owner's active rows as reserved. *)
Definition protectedCount (owner : string) (g : GHDB) : Z :=
  Z.of_nat (size (filter (λ kv, gi_owner kv.2 = owner ∧ gi_active kv.2 = true) (installations g)))
  + Z.of_nat (size (filter (λ kv, gr_owner kv.2 = owner ∧ gr_active kv.2 = true) (repositories g))).
Definition auditCapacity : Z := 100000.
Definition disables (a : GHAction) : bool := bool_decide (a ∈ [InstallationDisabled; RepositoryDisabled]).
Definition eventCount (owner : string) (g : GHDB) : Z := default 0 (gh_admission g !! owner).
Definition insertGitHubAudit (id : string) (row : GHAuditRow) : GHTx unit :=
  do! texts (id :: option_list (ga_project row)) in
  λ g,
    let owner := ga_owner row in
    let count := eventCount owner g in
    if negb (bool_decide (owner ∈ ad_owners (gh_auth g))) then inl (GWrapped PgForeignKeyViolation)
    else if negb ((count <? auditCapacity) && (disables (ga_action row) || (count + 1 + protectedCount owner g <=? auditCapacity)))
    then inl GCapacity
    else if negb (octet_length 1 128 id && match ga_project row with Some p => slen p <=? 128 | None => true end)
    then inl (GWrapped PgCheckViolation)
    else if isSomeb (gh_audit g !! id) then inl (GWrapped PgUniqueViolation)
    else if negb (user_owner_exists (ga_actor row) owner (gh_auth g)) then inl (GWrapped PgForeignKeyViolation)
    else inr (tt, put_audit (<[id := row]> (gh_audit g)) (<[owner := count + 1]> (gh_admission g)) g).

(** [INSERT ... ON CONFLICT(installation_id) DO UPDATE ... WHERE] the same
    owner and account; [false] when no row was affected.  One account has one
    installation per owner. *)
Definition upsert_installation (id : Z) (owner : string) (account : Owner) : GHTx bool := λ g,
  let proposed := {| gi_owner := owner; gi_account := ow_AccountID account; gi_active := true; gi_suspended := false; gi_revision := 1 |} in
  if negb (installation_check id proposed (ow_Type account)) then inl (GWrapped PgCheckViolation)
  else match installations g !! id with
  | Some old =>
      if bool_decide (gi_owner old = owner) && (gi_account old =? ow_AccountID account) && bool_decide (gh_types g !! id = Some (ow_Type account))
      then inr (true, put_authority (<[id := {| gi_owner := owner; gi_account := gi_account old; gi_active := true; gi_suspended := false;
                                               gi_revision := gi_revision old |}]> (installations g)) (repositories g) (bindings g) g)
      else inr (false, g)
  | None =>
      if existsb (λ kv, bool_decide (gi_owner kv.2 = owner) && (gi_account kv.2 =? ow_AccountID account)) (map_to_list (installations g))
      then inl (GWrapped PgUniqueViolation)
      else if negb (bool_decide (owner ∈ ad_owners (gh_auth g))) then inl (GWrapped PgForeignKeyViolation)
      else inr (true, put_columns (<[id := ow_Type account]> (gh_types g)) (gh_meta g)
                        (put_authority (<[id := proposed]> (installations g)) (repositories g) (bindings g) g))
  end.

(** [UPDATE github_installations SET active=false,... WHERE installation_id
    AND owner_id AND active]; [false] when no row was affected. *)
Definition disable_installation (id : Z) (owner : string) : GHTx bool := λ g,
  match installations g !! id with
  | Some i =>
      if bool_decide (gi_owner i = owner) && gi_active i
      then inr (true, put_authority (<[id := suspend i]> (installations g)) (repositories g) (bindings g) g) else inr (false, g)
  | None => inr (false, g)
  end.

Definition metaOf (r : ProviderRepository) : RepoMeta :=
  {| rm_node_id := rp_NodeID r; rm_name := rp_Name r; rm_full_name := rp_FullName r; rm_default_branch := rp_DefaultBranch r |}.
Definition revive_repository (r : RepositoryRow) : RepositoryRow :=
  {| gr_installation := gr_installation r; gr_owner := gr_owner r; gr_github_owner := gr_github_owner r; gr_active := true;
     gr_revision := gr_revision r + 1 |}.
Definition write_repository (id : Z) (row : RepositoryRow) (m : RepoMeta) : GHTx unit := λ g,
  if negb (repository_check id row m) then inl (GWrapped PgCheckViolation)
  else inr (tt, put_columns (gh_types g) (<[id := m]> (gh_meta g))
                  (put_authority (installations g) (<[id := row]> (repositories g)) (bindings g) g)).
Definition repositoryTexts (r : ProviderRepository) : list string := [rp_NodeID r; rp_Name r; rp_FullName r; rp_DefaultBranch r].
Definition upsert_repository (installation : Z) (owner : string) (r : ProviderRepository) : GHTx bool :=
  do! texts (repositoryTexts r) in
  let proposed := {| gr_installation := installation; gr_owner := owner; gr_github_owner := rp_OwnerID r; gr_active := true; gr_revision := 1 |} in
  do! tx_guard (repository_check (rp_ID r) proposed (metaOf r)) (GWrapped PgCheckViolation) in
  let! stored := tx_read (λ g, repositories g !! rp_ID r) in
  match stored with
  | Some old =>
      if bool_decide (gr_owner old = owner) && (gr_installation old =? installation) && (gr_github_owner old =? rp_OwnerID r)
      then do! write_repository (rp_ID r) (revive_repository old) (metaOf r) in tx_ret true
      else tx_ret false
  | None => do! write_repository (rp_ID r) proposed (metaOf r) in tx_ret true
  end.
(** [UPDATE github_repositories ... WHERE repository_id AND owner_id AND installation_id] *)
Definition refresh_repository (installation : Z) (owner : string) (r : ProviderRepository) : GHTx unit :=
  do! texts (repositoryTexts r) in
  let! stored := tx_read (λ g, repositories g !! rp_ID r) in
  match stored with
  | Some old =>
      if bool_decide (gr_owner old = owner) && (gr_installation old =? installation)
      then write_repository (rp_ID r) (revive_repository old) (metaOf r) else tx_ret tt
  | None => tx_ret tt
  end.

(** [RETURNING repository_id], in no particular order. *)
Definition activeExcept (owner : string) (installation : Z) (keep : list Z) (g : GHDB) : list Z :=
  (filter (λ kv, gr_owner kv.2 = owner ∧ gr_installation kv.2 = installation ∧ gr_active kv.2 = true ∧ kv.1 ∉ keep)
     (map_to_list (repositories g))).*1.
Definition deactivate_repositories (ids : list Z) : GHTx unit :=
  tx_write (λ g, put_authority (installations g) (map_imap (λ id r, Some (if bool_decide (id ∈ ids) then retire_repository r else r)) (repositories g))
                   (bindings g) g).
(** Bindings of these repositories that are active. *)
Definition deactivate_bindings (owner : string) (ids : list Z) : GHTx unit :=
  tx_write (λ g, put_authority (installations g) (repositories g)
    (map_imap (λ k b, Some (if bool_decide (k.1 = owner) && gb_active b && bool_decide (gb_repository b ∈ ids) then retire_binding b else b)) (bindings g)) g).

Definition upsert_binding (owner project : string) (repository installation : Z) (target : BindingTarget) : GHTx unit :=
  do! texts [project; bt_ref target; bt_environment target; bt_server target] in
  λ g,
    let k := (owner, project) in
    let row := {| gb_repository := repository; gb_installation := installation; gb_active := true;
                  gb_revision := match bindings g !! k with Some old => gb_revision old + 1 | None => 1 end; gb_target := Some target |} in
    if negb (octet_length 1 128 project && octet_length 1 128 (bt_environment target) && octet_length 1 128 (bt_server target))
    then inl (GWrapped PgCheckViolation)
    else if existsb (λ kv, bool_decide (kv.1.1 = owner) && negb (bool_decide (kv.1 = k)) && (gb_repository kv.2 =? repository)) (map_to_list (bindings g))
    then inl (GWrapped PgUniqueViolation)
    else match repositories g !! repository with
         | Some r => if bool_decide (gr_owner r = owner) && (gr_installation r =? installation)
                     then inr (tt, put_authority (installations g) (repositories g) (<[k := row]> (bindings g)) g)
                     else inl (GWrapped PgForeignKeyViolation)
         | None => inl (GWrapped PgForeignKeyViolation)
         end.

(** A state that a handoff refers to cannot go. *)
Definition delete_states (drop : string → SetupRow → bool) : GHTx unit := λ g,
  if existsb (λ kv, match gh_states g !! ho_state kv.2 with Some s => drop (ho_state kv.2) s | None => false end) (map_to_list (gh_handoffs g))
  then inl (GWrapped PgForeignKeyViolation)
  else inr (tt, put_setup (filter (λ kv, drop kv.1 kv.2 = false) (gh_states g)) (gh_handoffs g) g).
Definition insert_state (digest : string) (s : SetupRow) : GHTx unit := λ g,
  if negb (setup_check digest s) then inl (GWrapped PgCheckViolation)
  else if isSomeb (gh_states g !! digest)
          || existsb (λ kv, bool_decide (ss_session kv.2 = ss_session s) && negb (isSomeb (ss_consumed kv.2))) (map_to_list (gh_states g))
  then inl (GWrapped PgUniqueViolation)
  else inr (tt, put_setup (<[digest := s]> (gh_states g)) (gh_handoffs g) g).
Definition insert_handoff (digest : string) (h : HandoffRow) : GHTx unit := λ g,
  if negb (handoff_check digest h) then inl (GWrapped PgCheckViolation)
  else if isSomeb (gh_handoffs g !! digest) || existsb (λ kv, bool_decide (ho_state kv.2 = ho_state h)) (map_to_list (gh_handoffs g))
  then inl (GWrapped PgUniqueViolation)
  else inr (tt, put_setup (gh_states g) (<[digest := h]> (gh_handoffs g)) g).

Definition liveReservation (s : ReservationState) : bool := bool_decide (s ∈ [RReserved; RMinting; RActive; RRunning]).
Definition insert_reservation (id : string) (r : ReservationRow) : GHTx unit := λ g,
  if negb (reservation_check r) then inl (GWrapped PgCheckViolation)
  else if isSomeb (gh_reservations g !! id)
          || existsb (λ kv, bool_decide ((rv_owner kv.2, rv_project kv.2) = (rv_owner r, rv_project r)) && liveReservation (rv_state kv.2))
               (map_to_list (gh_reservations g))
  then inl (GWrapped PgUniqueViolation)
  else inr (tt, put_reservations (<[id := r]> (gh_reservations g)) g).
Definition move_reservation (st : ReservationState) (r : ReservationRow) : ReservationRow :=
  {| rv_owner := rv_owner r; rv_project := rv_project r; rv_installation := rv_installation r; rv_repository := rv_repository r;
     rv_clone_url := rv_clone_url r; rv_commit := rv_commit r; rv_binding_revision := rv_binding_revision r;
     rv_repository_revision := rv_repository_revision r; rv_installation_revision := rv_installation_revision r;
     rv_state := st; rv_attempts := rv_attempts r; rv_expires := rv_expires r; rv_created := rv_created r; rv_consumed := rv_consumed r |}.
Definition mint_reservation (r : ReservationRow) : ReservationRow :=
  {| rv_owner := rv_owner r; rv_project := rv_project r; rv_installation := rv_installation r; rv_repository := rv_repository r;
     rv_clone_url := rv_clone_url r; rv_commit := rv_commit r; rv_binding_revision := rv_binding_revision r;
     rv_repository_revision := rv_repository_revision r; rv_installation_revision := rv_installation_revision r;
     rv_state := RMinting; rv_attempts := rv_attempts r + 1; rv_expires := rv_expires r; rv_created := rv_created r; rv_consumed := rv_consumed r |}.
Definition consume_reservation (now : Z) (r : ReservationRow) : ReservationRow :=
  {| rv_owner := rv_owner r; rv_project := rv_project r; rv_installation := rv_installation r; rv_repository := rv_repository r;
     rv_clone_url := rv_clone_url r; rv_commit := rv_commit r; rv_binding_revision := rv_binding_revision r;
     rv_repository_revision := rv_repository_revision r; rv_installation_revision := rv_installation_revision r;
     rv_state := RConsumed; rv_attempts := rv_attempts r; rv_expires := rv_expires r; rv_created := rv_created r; rv_consumed := Some now |}.
(** [UPDATE github_checkout_reservations ... WHERE]; [CHECK] and the partial
    index hold of the rows it writes because states only leave the index. *)
Definition update_reservations (wh : string → ReservationRow → bool) (f : ReservationRow → ReservationRow) : GHTx (list string) := λ g,
  let ids := (filter (λ kv, wh kv.1 kv.2 = true) (map_to_list (gh_reservations g))).*1 in
  inr (ids, put_reservations (map_imap (λ id r, Some (if wh id r then f r else r)) (gh_reservations g)) g).
