(* ===== verification/GitHubRepo.v ===== *)
(** * The GitHub repository's operations (src/internal/store/postgres/github_repository.go)

    Setup states, callbacks and handoffs; completing a setup, binding,
    disabling and reconciling; checkout reservations.  Every body is the code
    between Begin and Commit.  [InvalidateCheckoutReservation], which the code
    calls after the commit for the reservations it invalidated, acts on leases
    in memory (Checkout.v); the operations answer the ids. *)
From S2P Require Import Prelude GoStd Token Queue Route Schema Evidence LeaseCore Lease Enqueue Webhooks Password Hmac AuthTokens AuthStore GitHubApp GitHubStore.
#[local] Open Scope Z_scope.

Definition ghAuditRow (owner actor : string) (action : GHAction) (installation repository : option Z) (project : option string) : GHAuditRow :=
  {| ga_owner := owner; ga_actor := actor; ga_action := action; ga_installation := installation; ga_repository := repository; ga_project := project |}.
Definition validAudit (id : string) : bool := octet_length 1 128 id.

(** ** Registration *)

Definition EnsureAppRegistration (identity : AppIdentity) (owner : Owner) : GHTx unit :=
  do! tx_guard (appIdentityValid identity && ownerValid owner) GDenied in
  let! stored := tx_read gh_app in
  match stored with
  | None =>
      tx_write (λ g, put_web (set_authority true (installations g) (repositories g) (bindings g) (gh_web g))
                       (put_app (Some {| ar_identity := identity; ar_owner := owner |}) g))
  | Some a =>
      let! active := tx_read (λ g, wh_app_active (gh_web g)) in
      tx_guard (bool_decide (ar_identity a = identity) && bool_decide (ar_owner a = owner) && active) GDenied
  end.

(** ** Setup states and callbacks *)

Definition tenMinutes : Z := 10 * minute.
Definition staleState (now : Z) (s : SetupRow) : bool :=
  (ss_expires s <=? now) || match ss_consumed s with Some c => c <=? now - tenMinutes | None => false end.
Definition pruneSetup (now : Z) : GHTx unit :=
  do! tx_write (λ g, put_setup (gh_states g)
        (filter (λ kv, match gh_states g !! ho_state kv.2 with Some s => staleState now s | None => false end = false) (gh_handoffs g)) g) in
  delete_states (λ _ s, staleState now s).
Definition activeStates (now : Z) (g : GHDB) : Z :=
  Z.of_nat (size (filter (λ kv, ss_consumed kv.2 = None ∧ now < ss_expires kv.2) (gh_states g))).
Definition isZeroDigest (d : string) : bool := bool_decide (d = zeroDigest).

Definition CreateSetupState (digest : string) (p : Principal) (now : Z) : GHTx unit :=
  do! tx_guard (validPrincipal p && negb (isZeroDigest digest)) GDenied in
  do! activeRegistration in
  do! pruneSetup now in
  let! active := tx_read (activeStates now) in
  let! cap := tx_read gh_max_active in
  do! tx_guard (negb (cap <=? active)) GDenied in
  do! lockAdministrator p now in
  do! delete_states (λ _ s, bool_decide (ss_session s = p_SessionID p) && negb (isSomeb (ss_consumed s))) in
  do! insert_state digest {| ss_owner := p_OwnerID p; ss_user := p_UserID p; ss_session := p_SessionID p;
                             ss_revision := int64 (p_AuthRevision p); ss_expires := now + tenMinutes; ss_consumed := None; ss_recoverable := None |} in
  insertGitHubAudit (auditID "setup" digest) (ghAuditRow (p_OwnerID p) (p_UserID p) SetupStarted None None None).

(** The session and the user still are what the row was made for. *)
Definition principalOfRow (owner user session : string) (revision : Z) : Principal :=
  {| p_UserID := user; p_OwnerID := owner; p_RoleOwner := true; p_AuthRevision := revision; p_SessionID := session |}.
Definition stateAuthorized (s : SetupRow) (now : Z) (g : GHDB) : bool :=
  negb (isSomeb (ss_consumed s)) && (now <? ss_expires s)
  && adminLive (principalOfRow (ss_owner s) (ss_user s) (ss_session s) (ss_revision s)) now (gh_auth g).

Definition PendingInstallation (digest : string) (p : Principal) (now : Z) : GHTx ProviderInstallation :=
  do! tx_guard (negb (isZeroDigest digest) && validPrincipal p) GHandoffInvalid in
  let! h := tx_some (λ g, gh_handoffs g !! digest) GHandoffInvalid in
  do! tx_guard (bool_decide (ho_owner h = p_OwnerID p) && bool_decide (ho_user h = p_UserID p) && bool_decide (ho_session h = p_SessionID p)
                && (ho_revision h =? int64 (p_AuthRevision p)) && negb (isSomeb (ho_consumed h)) && (now <? ho_expires h)) GHandoffInvalid in
  tx_ret {| ins_ID := ho_installation h; ins_Account := ho_account h; ins_Suspended := false |}.

Definition set_recoverable (x : option Z) (s : SetupRow) : SetupRow :=
  {| ss_owner := ss_owner s; ss_user := ss_user s; ss_session := ss_session s; ss_revision := ss_revision s; ss_expires := ss_expires s;
     ss_consumed := ss_consumed s; ss_recoverable := x |}.
Definition consume_state (now : Z) (s : SetupRow) : SetupRow :=
  {| ss_owner := ss_owner s; ss_user := ss_user s; ss_session := ss_session s; ss_revision := ss_revision s; ss_expires := ss_expires s;
     ss_consumed := Some now; ss_recoverable := ss_recoverable s |}.
Definition write_state (digest : string) (s : SetupRow) : GHTx unit := tx_write (λ g, put_setup (<[digest := s]> (gh_states g)) (gh_handoffs g) g).

Definition BeginCallback (digest : string) (now : Z) : GHTx unit :=
  do! tx_guard (negb (isZeroDigest digest)) GSetupStateInvalid in
  let! s := tx_some (λ g, gh_states g !! digest) GSetupStateInvalid in
  let! authorized := tx_read (stateAuthorized s now) in
  do! tx_guard (authorized && match ss_recoverable s with Some t => t <=? now - minute | None => true end) GSetupStateInvalid in
  write_state digest (set_recoverable (Some now) s).
Definition CancelCallback (digest : string) : GHTx unit :=
  do! tx_guard (negb (isZeroDigest digest)) GSetupStateInvalid in
  let! s := tx_read (λ g, gh_states g !! digest) in
  match s with
  | Some s => if isSomeb (ss_consumed s) then tx_ret tt else write_state digest (set_recoverable None s)
  | None => tx_ret tt
  end.

Definition ReserveCallback (state handoff : string) (installation : ProviderInstallation) (now : Z) : GHTx unit :=
  do! tx_guard (negb (isZeroDigest state) && negb (isZeroDigest handoff) && (0 <? ins_ID installation) && ownerValid (ins_Account installation)
                && negb (ins_Suspended installation)) GSetupStateInvalid in
  do! activeRegistration in
  let! s := tx_some (λ g, gh_states g !! state) GSetupStateInvalid in
  let! authorized := tx_read (stateAuthorized s now) in
  do! tx_guard authorized GSetupStateInvalid in
  do! write_state state (consume_state now s) in
  do! insert_handoff handoff {| ho_state := state; ho_owner := ss_owner s; ho_user := ss_user s; ho_session := ss_session s;
                                ho_revision := ss_revision s; ho_installation := ins_ID installation; ho_account := ins_Account installation;
                                ho_expires := now + tenMinutes; ho_consumed := None |} in
  insertGitHubAudit (auditID "callback" handoff) (ghAuditRow (ss_owner s) (ss_user s) CallbackVerified (Some (ins_ID installation)) None None).

(** ** Completing a setup *)

Definition repositoryAcceptable (account : Z) (r : ProviderRepository) : bool :=
  (0 <? rp_ID r) && (rp_OwnerID r =? account) && negb (bool_decide (rp_Name r = "")) && negb (bool_decide (rp_FullName r = "")).
Definition consume_handoff (now : Z) (h : HandoffRow) : HandoffRow :=
  {| ho_state := ho_state h; ho_owner := ho_owner h; ho_user := ho_user h; ho_session := ho_session h; ho_revision := ho_revision h;
     ho_installation := ho_installation h; ho_account := ho_account h; ho_expires := ho_expires h; ho_consumed := Some now |}.

(** Deactivate what is active and not in the snapshot, with its bindings. *)
Definition deactivateMissing (owner : string) (installation : Z) (keep : list Z) : GHTx (list Z) :=
  let! removed := tx_read (activeExcept owner installation keep) in
  do! deactivate_repositories removed in
  do! deactivate_bindings owner removed in
  tx_ret removed.

Definition CompleteHandoff (digest : string) (p : Principal) (installation : ProviderInstallation) (found : list ProviderRepository) (now : Z) : GHTx unit :=
  do! tx_guard (validPrincipal p && negb (isZeroDigest digest) && (0 <? ins_ID installation) && negb (ins_Suspended installation)
                && ownerValid (ins_Account installation) && (Z.of_nat (length found) <=? 1000)) GHandoffInvalid in
  do! activeRegistration in
  let! h := tx_some (λ g, gh_handoffs g !! digest) GHandoffInvalid in
  do! tx_guard (negb (isSomeb (ho_consumed h)) && (now <? ho_expires h)
                && bool_decide (ho_owner h = p_OwnerID p) && bool_decide (ho_user h = p_UserID p) && bool_decide (ho_session h = p_SessionID p)
                && (ho_revision h =? int64 (p_AuthRevision p)) && (ho_installation h =? ins_ID installation)
                && bool_decide (ho_account h = ins_Account installation)) GHandoffInvalid in
  do! lockAdministrator p now in
  let owner := ho_owner h in
  let! upserted := upsert_installation (ins_ID installation) owner (ho_account h) in
  do! tx_guard upserted GDenied in
  do! each (λ r,
        do! tx_guard (repositoryAcceptable (ow_AccountID (ho_account h)) r) GDenied in
        let! ok := upsert_repository (ins_ID installation) owner r in
        tx_guard ok GDenied) found in
  let! _ := deactivateMissing owner (ins_ID installation) (rp_ID <$> found) in
  do! tx_write (λ g, put_setup (gh_states g) (<[digest := consume_handoff now h]> (gh_handoffs g)) g) in
  insertGitHubAudit (auditID "handoff" digest) (ghAuditRow owner (ho_user h) SetupCompleted (Some (ins_ID installation)) None None).

(** ** Bindings *)

Definition BindRepository (p : Principal) (input : GitBindingInput) (audit : string) (now : Z) : GHTx unit :=
  do! tx_guard (validPrincipal p && bindingInputValid input && validAudit audit) GDenied in
  do! activeRegistration in
  do! lockAdministrator p now in
  let! r := tx_some (λ g, repositories g !! bi_RepositoryID input) GDenied in
  let! i := tx_some (λ g, installations g !! gr_installation r) GDenied in
  do! tx_guard (bool_decide (gr_owner r = p_OwnerID p) && bool_decide (gi_owner i = gr_owner r) && gi_active i && gr_active r && negb (gi_suspended i)) GDenied in
  do! upsert_binding (p_OwnerID p) (bi_ProjectID input) (bi_RepositoryID input) (gr_installation r)
        {| bt_ref := bi_Ref input; bt_environment := bi_EnvironmentID input; bt_server := bi_ServerID input |} in
  insertGitHubAudit audit (ghAuditRow (p_OwnerID p) (p_UserID p) RepositoryBound (Some (gr_installation r)) (Some (bi_RepositoryID input)) (Some (bi_ProjectID input))).

(** ** Disabling and reconciling *)

Definition invalidatedCheckoutIDs (owner : string) (installation : Z) : GHTx (list string) :=
  update_reservations (λ _ r, bool_decide (rv_owner r = owner) && (rv_installation r =? installation) && liveReservation (rv_state r))
    (move_reservation RInvalidated).
(** [fmt.Sprintf("%s_r_%d", audit, id)] *)
Definition repositoryAuditID (audit : string) (id : Z) : string := audit +:+ "_r_" +:+ FormatInt id.
Definition auditDisabled (p : Principal) (installation : Z) (audit : string) (ids : list Z) : GHTx unit :=
  each (λ id, insertGitHubAudit (repositoryAuditID audit id)
                (ghAuditRow (p_OwnerID p) (p_UserID p) RepositoryDisabled (Some installation) (Some id) None)) ids.

Definition DisableInstallation (p : Principal) (installation : Z) (audit : string) (now : Z) : GHTx (list string) :=
  do! tx_guard (validPrincipal p && (0 <? installation) && validAudit audit) GDenied in
  do! activeRegistration in
  do! lockAdministrator p now in
  let! updated := disable_installation installation (p_OwnerID p) in
  if negb updated then
    let! i := tx_some (λ g, installations g !! installation) GDenied in
    do! tx_guard (bool_decide (gi_owner i = p_OwnerID p)) GDenied in
    tx_ret []
  else
    let! deactivated := deactivateMissing (p_OwnerID p) installation [] in
    let! invalidated := invalidatedCheckoutIDs (p_OwnerID p) installation in
    do! insertGitHubAudit audit (ghAuditRow (p_OwnerID p) (p_UserID p) InstallationDisabled (Some installation) None None) in
    do! auditDisabled p installation audit deactivated in
    tx_ret invalidated.

Definition ReconcileInstallation (p : Principal) (installation : ProviderInstallation) (found : list ProviderRepository) (audit : string) (now : Z)
    : GHTx (list string) :=
  do! tx_guard (validPrincipal p && (0 <? ins_ID installation) && negb (ins_Suspended installation) && ownerValid (ins_Account installation)
                && (Z.of_nat (length found) <=? 1000) && validAudit audit) GDenied in
  do! activeRegistration in
  do! lockAdministrator p now in
  let! i := tx_some (λ g, installations g !! ins_ID installation) GDenied in
  let! type := tx_read (λ g, gh_types g !! ins_ID installation) in
  do! tx_guard (bool_decide (gi_owner i = p_OwnerID p) && (gi_account i =? ow_AccountID (ins_Account installation))
                && bool_decide (type = Some (ow_Type (ins_Account installation))) && gi_active i && negb (gi_suspended i)) GDenied in
  do! each (λ r,
        do! tx_guard (repositoryAcceptable (ow_AccountID (ins_Account installation)) r) GDenied in
        refresh_repository (ins_ID installation) (p_OwnerID p) r) found in
  let! removed := deactivateMissing (p_OwnerID p) (ins_ID installation) (rp_ID <$> found) in
  let! invalidated := invalidatedCheckoutIDs (p_OwnerID p) (ins_ID installation) in
  do! auditDisabled p (ins_ID installation) audit removed in
  tx_ret invalidated.

(** ** Checkout authorization *)

(** The rows of the joined query, active and neither suspended. *)
Definition authorityChain (owner project : string) (g : GHDB) : option (GitBindingRow * RepositoryRow * InstallationRow) :=
  b ← bindings g !! (owner, project);
  r ← repositories g !! gb_repository b;
  i ← installations g !! gb_installation b;
  if bool_decide (gr_owner r = owner) && bool_decide (gi_owner i = owner) && wh_app_active (gh_web g)
     && gb_active b && gr_active r && gi_active i && negb (gi_suspended i)
  then Some (b, r, i) else None.
Definition snapshotOfChain (owner project : string) (g : GHDB) : option CheckoutBinding :=
  c ← authorityChain owner project g;
  let '(b, r, i) := c in
  m ← gh_meta g !! gb_repository b;
  Some {| cb_OwnerID := owner; cb_ProjectID := project; cb_InstallationID := gb_installation b; cb_RepositoryID := gb_repository b;
          cb_BindingRevision := gb_revision b; cb_RepositoryRevision := gr_revision r; cb_InstallationRevision := gi_revision i;
          cb_CloneURL := cloneURL m; cb_CommitSHA := ""; cb_ReservationID := ""; cb_AuthorizationRevision := 0 |}.

Definition CaptureCheckoutBinding (owner project : string) : GHTx CheckoutBinding :=
  do! tx_guard (negb (bool_decide (owner = "")) && (slen owner <=? 128) && negb (bool_decide (project = "")) && (slen project <=? 128)) GDenied in
  tx_some (snapshotOfChain owner project) GDenied.

(** The chain of this binding's installation and repository, at its revisions. *)
Definition chainHolds (b : CheckoutBinding) (g : GHDB) : bool :=
  match authorityChain (cb_OwnerID b) (cb_ProjectID b) g with
  | Some (gb, gr, gi) =>
      (gb_installation gb =? cb_InstallationID b) && (gb_repository gb =? cb_RepositoryID b)
      && (gb_revision gb =? cb_BindingRevision b) && (gr_revision gr =? cb_RepositoryRevision b) && (gi_revision gi =? cb_InstallationRevision b)
  | None => false
  end.
Definition revalidateTx (b : CheckoutBinding) : GHTx unit := let! ok := tx_read (chainHolds b) in tx_guard ok GDenied.
Definition RevalidateCheckoutBinding (b : CheckoutBinding) : GHTx unit :=
  do! tx_guard (negb (bool_decide (cb_OwnerID b = "")) && negb (bool_decide (cb_ProjectID b = "")) && (0 <? cb_InstallationID b) && (0 <? cb_RepositoryID b)
                && (0 <? cb_BindingRevision b) && (0 <? cb_RepositoryRevision b) && (0 <? cb_InstallationRevision b)) GDenied in
  revalidateTx b.

(** ** Checkout reservations *)

Record CheckoutReservation := { cr_Binding : CheckoutBinding; cr_ID : string; cr_ExpiresAt : Z; cr_State : string }.
Definition withCommit (b : CheckoutBinding) (sha id : string) : CheckoutBinding :=
  {| cb_OwnerID := cb_OwnerID b; cb_ProjectID := cb_ProjectID b; cb_InstallationID := cb_InstallationID b; cb_RepositoryID := cb_RepositoryID b;
     cb_BindingRevision := cb_BindingRevision b; cb_RepositoryRevision := cb_RepositoryRevision b; cb_InstallationRevision := cb_InstallationRevision b;
     cb_CloneURL := cb_CloneURL b; cb_CommitSHA := sha; cb_ReservationID := id; cb_AuthorizationRevision := cb_AuthorizationRevision b |}.
Definition expirableReservation (s : ReservationState) : bool := bool_decide (s ∈ [RReserved; RMinting; RActive]).

(** [goNow] is the process's clock, [now] the database's. *)
Definition ReserveCheckout (owner project sha randomness : string) (goNow now : Z) : GHTx CheckoutReservation :=
  do! tx_guard (slen sha =? 40) GDenied in
  let! id := tx_some (λ _, checkoutID randomness) GDenied in
  let! b := tx_some (snapshotOfChain owner project) GDenied in
  do! tx_guard (CloneURLValid b) GDenied in
  let! _ := update_reservations (λ _ r, bool_decide ((rv_owner r, rv_project r) = (owner, project)) && expirableReservation (rv_state r) && (rv_expires r <=? now))
              (move_reservation RExpired) in
  do! (λ g, match insert_reservation id {| rv_owner := owner; rv_project := project; rv_installation := cb_InstallationID b;
                      rv_repository := cb_RepositoryID b; rv_clone_url := cb_CloneURL b; rv_commit := sha;
                      rv_binding_revision := cb_BindingRevision b; rv_repository_revision := cb_RepositoryRevision b;
                      rv_installation_revision := cb_InstallationRevision b; rv_state := RReserved; rv_attempts := 0;
                      rv_expires := now + tenMinutes; rv_created := now; rv_consumed := None |} g with inl _ => inl GDenied | r => r end) in
  tx_ret {| cr_Binding := withCommit b sha id; cr_ID := id; cr_ExpiresAt := goNow + tenMinutes; cr_State := "reserved" |}.

Definition bindingOfReservation (id : string) (r : ReservationRow) : CheckoutBinding :=
  {| cb_OwnerID := rv_owner r; cb_ProjectID := rv_project r; cb_InstallationID := rv_installation r; cb_RepositoryID := rv_repository r;
     cb_BindingRevision := rv_binding_revision r; cb_RepositoryRevision := rv_repository_revision r;
     cb_InstallationRevision := rv_installation_revision r; cb_CloneURL := rv_clone_url r; cb_CommitSHA := rv_commit r;
     cb_ReservationID := id; cb_AuthorizationRevision := 0 |}.
Definition onlyRow (id : string) (f : ReservationRow → bool) (k : string) (r : ReservationRow) : bool := bool_decide (k = id) && f r.

Definition BeginMintAttempt (id : string) (now : Z) : GHTx CheckoutBinding :=
  let! r := tx_some (λ g, gh_reservations g !! id) GDenied in
  do! tx_guard (bool_decide (rv_state r = RReserved) && (now <? rv_expires r) && negb (1 <=? rv_attempts r)) GDenied in
  let b := bindingOfReservation id r in
  do! revalidateTx b in
  let! _ := update_reservations (onlyRow id (λ _, true)) mint_reservation in
  tx_ret b.

Definition ActivateMintAttempt (id : string) (b : CheckoutBinding) (now : Z) : GHTx unit :=
  do! revalidateTx b in
  let! moved := update_reservations (onlyRow id (λ r, bool_decide (rv_state r = RMinting) && (now <? rv_expires r)
                  && (rv_binding_revision r =? cb_BindingRevision b) && (rv_repository_revision r =? cb_RepositoryRevision b)
                  && (rv_installation_revision r =? cb_InstallationRevision b))) (move_reservation RActive) in
  tx_guard (bool_decide (length moved = 1%nat)) GDenied.

Definition StartCheckout (id : string) (b : CheckoutBinding) (now : Z) : GHTx unit :=
  let! r := tx_some (λ g, gh_reservations g !! id) GDenied in
  do! tx_guard ((now <? rv_expires r) && bool_decide (rv_state r = RActive)) GDenied in
  do! revalidateTx b in
  let! moved := update_reservations (onlyRow id (λ r, bool_decide (rv_state r = RActive) && (now <? rv_expires r))) (move_reservation RRunning) in
  tx_guard (bool_decide (length moved = 1%nat)) GDenied.

Definition CloseCheckout (id : string) (now : Z) : GHTx unit :=
  let! moved := update_reservations (onlyRow id (λ r, liveReservation (rv_state r))) (consume_reservation now) in
  if bool_decide (length moved = 1%nat) then tx_ret tt
  else
    let! r := tx_some (λ g, gh_reservations g !! id) GDenied in
    tx_guard (bool_decide (rv_state r = RConsumed)) GDenied.
