(* ===== verification/GitHubChain.v ===== *)
(** * The authority chain of the GitHub tables

    Every binding names a repository of its owner, every repository an
    installation of its owner; an active binding hangs on an active
    repository, an active repository on an authorized installation; one
    account has one installation per owner.  The writes of the GitHub and
    webhook repositories keep this. *)
From S2P Require Import Prelude GoStd Schema Webhooks.
#[local] Open Scope Z_scope.

Definition authorized (i : InstallationRow) : bool := gi_active i && negb (gi_suspended i).

Section chain.
Implicit Types (ins : gmap Z InstallationRow) (rs : gmap Z RepositoryRow) (bs : gmap (string * string) GitBindingRow).

Record chain_ok ins rs bs : Prop := {
  co_repo : ∀ id r, rs !! id = Some r → ∃ i, ins !! gr_installation r = Some i ∧ gi_owner i = gr_owner r ∧ (gr_active r = true → authorized i = true);
  co_bind : ∀ k b, bs !! k = Some b → ∃ r, rs !! gb_repository b = Some r ∧ gr_owner r = k.1 ∧ gr_installation r = gb_installation b ∧
              (gb_active b = true → gr_active r = true);
  co_account : ∀ n n' i i', ins !! n = Some i → ins !! n' = Some i' → gi_owner i = gi_owner i' → gi_account i = gi_account i' → n = n';
}.

(** Deactivating repositories and then their owner's active bindings to them. *)
Definition retire_in (ids : list Z) (rs : gmap Z RepositoryRow) : gmap Z RepositoryRow :=
  map_imap (λ id r, Some (if bool_decide (id ∈ ids) then retire_repository r else r)) rs.
Definition unbind_in (owner : string) (ids : list Z) (bs : gmap (string * string) GitBindingRow) : gmap (string * string) GitBindingRow :=
  map_imap (λ k b, Some (if bool_decide (k.1 = owner) && gb_active b && bool_decide (gb_repository b ∈ ids) then retire_binding b else b)) bs.
Lemma retire_in_lookup ids rs id r' : retire_in ids rs !! id = Some r' ↔
  ∃ r, rs !! id = Some r ∧ r' = if bool_decide (id ∈ ids) then retire_repository r else r.
Proof. unfold retire_in. rewrite map_lookup_imap. destruct (rs !! id); simpl; naive_solver. Qed.
Lemma unbind_in_lookup owner ids bs k b' : unbind_in owner ids bs !! k = Some b' ↔
  ∃ b, bs !! k = Some b ∧ b' = if bool_decide (k.1 = owner) && gb_active b && bool_decide (gb_repository b ∈ ids) then retire_binding b else b.
Proof. unfold unbind_in. rewrite map_lookup_imap. destruct (bs !! k); simpl; naive_solver. Qed.

Lemma chain_deactivate ins rs bs owner ids :
  (∀ id r, rs !! id = Some r → ∃ i, ins !! gr_installation r = Some i ∧ gi_owner i = gr_owner r ∧ (gr_active r = true → id ∉ ids → authorized i = true)) →
  (∀ k b, bs !! k = Some b → ∃ r, rs !! gb_repository b = Some r ∧ gr_owner r = k.1 ∧ gr_installation r = gb_installation b ∧
     (gb_active b = true → gr_active r = true)) →
  (∀ n n' i i', ins !! n = Some i → ins !! n' = Some i' → gi_owner i = gi_owner i' → gi_account i = gi_account i' → n = n') →
  (∀ id r, id ∈ ids → rs !! id = Some r → gr_owner r = owner) →
  chain_ok ins (retire_in ids rs) (unbind_in owner ids bs).
Proof.
  intros H1 H2 H3 H4. split; [| |done].
  - intros id r' (r&Hr&->)%retire_in_lookup. destruct (H1 id r Hr) as (i&Hi&Ho&Ha). exists i. case_bool_decide as Hin; simpl; [done|]. split_and!; auto.
  - intros k b' (b&Hb&->)%unbind_in_lookup. destruct (H2 k b Hb) as (r&Hr&Ho&Hi&Ha).
    exists (if bool_decide (gb_repository b ∈ ids) then retire_repository r else r).
    assert (∀ x, gb_repository (if x : bool then retire_binding b else b) = gb_repository b ∧ gb_installation (if x then retire_binding b else b) = gb_installation b) as Hx
      by by intros []. destruct (Hx (bool_decide (k.1 = owner) && gb_active b && bool_decide (gb_repository b ∈ ids))) as [-> ->].
    split; [apply retire_in_lookup; eauto|]. split; [by case_match|]. split; [by case_match|].
    destruct (decide (gb_repository b ∈ ids)) as [Hin|Hin]; [rewrite !(bool_decide_true (_ ∈ ids)) by done|rewrite !(bool_decide_false (_ ∈ ids)), andb_false_r by done; auto].
    rewrite (bool_decide_true (k.1 = owner)) by (rewrite <-Ho; by apply (H4 _ _ Hin Hr)).
    simpl. rewrite andb_true_r. by destruct (gb_active b) eqn:E; simpl; rewrite ?E.
Qed.

Lemma chain_suspend ins rs bs n i : chain_ok ins rs bs → ins !! n = Some i →
  chain_ok (<[n := suspend i]> ins) ((λ r, if gr_installation r =? n then retire_repository r else r) <$> rs)
    ((λ b, if gb_installation b =? n then retire_binding b else b) <$> bs).
Proof.
  intros [H1 H2 H3] Hi. split.
  - intros id r'. rewrite lookup_fmap. intros (r&Hr&->)%fmap_Some. destruct (H1 id r Hr) as (j&Hj&Ho&Ha). destruct (gr_installation r =? n) eqn:E; bool_hyps; simpl.
    + exists (suspend i). assert (j = i) as -> by congruence. rewrite E, lookup_insert_eq. by split_and!.
    + exists j. rewrite lookup_insert_ne by done. by split_and!.
  - intros k b'. rewrite lookup_fmap. intros (b&Hb&->)%fmap_Some. destruct (H2 k b Hb) as (r&Hr&Ho&Hn&Ha).
    exists (if gr_installation r =? n then retire_repository r else r). destruct (gb_installation b =? n) eqn:E; simpl; rewrite lookup_fmap, Hr; simpl; rewrite Hn, E; by split_and!.
  - intros x y a b [[<- <-]|[_ Hx]]%lookup_insert_Some [[<- <-]|[_ Hy]]%lookup_insert_Some; simpl; try done; intros ? ?; eapply H3; eauto.
Qed.
Lemma chain_remove ins rs bs n id r : chain_ok ins rs bs → rs !! id = Some r → gr_installation r = n →
  chain_ok ins (<[id := retire_repository r]> rs)
    ((λ b, if (gb_repository b =? id) && (gb_installation b =? n) then retire_binding b else b) <$> bs).
Proof.
  intros [H1 H2 H3] Hr Hn. split; [| |done].
  - intros k x [[<- <-]|[_ Hx]]%lookup_insert_Some; [|by eauto]. destruct (H1 id r Hr) as (i&?&?&_). exists i. by split_and!.
  - intros k b'. rewrite lookup_fmap. intros (b&Hb&->)%fmap_Some. destruct (H2 k b Hb) as (x&Hx&Ho&Hi&Ha). destruct (decide (gb_repository b = id)) as [Eb|Hne].
    + subst id. assert (x = r) as -> by congruence. exists (retire_repository r). rewrite Z.eqb_refl, (proj2 (Z.eqb_eq _ _)) by congruence. simpl.
      by rewrite lookup_insert_eq.
    + exists x. rewrite (proj2 (Z.eqb_neq _ _)) by done. simpl. by rewrite lookup_insert_ne.
Qed.
Lemma chain_installation ins rs bs n i : chain_ok ins rs bs → authorized i = true →
  (∀ old, ins !! n = Some old → gi_owner old = gi_owner i ∧ gi_account old = gi_account i) →
  (∀ m j, ins !! m = Some j → m ≠ n → gi_owner j = gi_owner i → gi_account j = gi_account i → False) →
  chain_ok (<[n := i]> ins) rs bs.
Proof.
  intros [H1 H2 H3] Ha Hold Hun. split; [|done|].
  - intros id r Hr. destruct (H1 id r Hr) as (j&Hj&Ho&Hact). destruct (decide (n = gr_installation r)) as [->|Hne].
    + exists i. rewrite lookup_insert_eq. destruct (Hold j Hj). split_and!; [done|congruence|done].
    + exists j. by rewrite lookup_insert_ne.
  - intros x y a b [[<- <-]|[Hx Ha']]%lookup_insert_Some [[<- <-]|[Hy Hb]]%lookup_insert_Some Eo Ea; try done; [destruct (Hun y b)|destruct (Hun x a)|by eapply H3]; done.
Qed.
Lemma chain_repository ins rs bs id r i : chain_ok ins rs bs → ins !! gr_installation r = Some i → gi_owner i = gr_owner r → authorized i = true →
  gr_active r = true → (∀ old, rs !! id = Some old → gr_owner old = gr_owner r ∧ gr_installation old = gr_installation r) →
  chain_ok ins (<[id := r]> rs) bs.
Proof.
  intros [H1 H2 H3] Hi Ho Ha Hact Hold. split; [| |done].
  - intros k x [[<- <-]|[_ Hx]]%lookup_insert_Some; [|by eauto]. exists i. by split_and!.
  - intros k b Hb. destruct (H2 k b Hb) as (x&Hx&Hxo&Hxi&Hxa). destruct (decide (id = gb_repository b)) as [->|Hne].
    + exists r. rewrite lookup_insert_eq. destruct (Hold x Hx). split_and!; [done|congruence..|done].
    + exists x. by rewrite lookup_insert_ne.
Qed.
Lemma chain_binding ins rs bs k b r : chain_ok ins rs bs → rs !! gb_repository b = Some r → gr_owner r = k.1 → gr_installation r = gb_installation b →
  (gb_active b = true → gr_active r = true) → chain_ok ins rs (<[k := b]> bs).
Proof.
  intros [H1 H2 H3] Hr Ho Hi Ha. split; [done| |done]. intros k' b' [[<- <-]|[_ Hb]]%lookup_insert_Some; [|by eauto]. exists r. by split_and!.
Qed.
End chain.
