(* ===== verification/GitHubSteps.v ===== *)
(** * How rows of the GitHub tables move

    No call deletes an authority row; every change of a repository or binding
    row raises its revision, and so does every change of an installation that
    was authorized; reservations only move forward; the audit trail only
    grows.  Proved for every statement and, by composition, for every call of
    the GitHub and webhook repositories. *)
From S2P Require Import Prelude GoStd Token Queue Route Schema Evidence LeaseCore Lease Enqueue LeaseSystem CallsKeep Webhooks WebhookSteps WebhookSystem Password Hmac AuthTokens AuthStore GitHubApp GitHubStore GitHubRepo GitHubChain.
#[local] Open Scope Z_scope.

(** ** Rows *)

Definition inst_moves (x y : InstallationRow) : Prop :=
  gi_owner y = gi_owner x ∧ gi_account y = gi_account x ∧
  (y = x ∨ gi_revision x < gi_revision y ∨ (gi_revision y = gi_revision x ∧ authorized x = false)).
Definition repo_moves (x y : RepositoryRow) : Prop :=
  gr_owner y = gr_owner x ∧ gr_installation y = gr_installation x ∧ gr_github_owner y = gr_github_owner x ∧ (y = x ∨ gr_revision x < gr_revision y).
Definition bind_moves (x y : GitBindingRow) : Prop := y = x ∨ gb_revision x < gb_revision y.
#[global] Instance inst_moves_pre : PreOrder inst_moves.
Proof.
  split; [by intros x; split_and!; auto|]. unfold inst_moves. intros x y z (?&?&Hxy) (?&?&Hyz).
  split_and!; [congruence..|]. destruct Hxy as [->|[?|[? ?]]], Hyz as [->|[?|[? ?]]]; first [by auto|right; first [left; lia|right; split; [lia|done]]].
Qed.
#[global] Instance repo_moves_pre : PreOrder repo_moves.
Proof.
  split; [by intros x; split_and!; auto|]. unfold repo_moves. intros x y z (?&?&?&Hxy) (?&?&?&Hyz). split_and!; [congruence..|].
  destruct Hxy as [->|?], Hyz as [->|?]; first [by auto|right; lia].
Qed.
#[global] Instance bind_moves_pre : PreOrder bind_moves.
Proof. split; [by left|]. intros x y z [->|?] [->|?]; unfold bind_moves; first [by auto|right; lia]. Qed.

(** Every row of [m] still is in [m'], moved by [R]. *)
Definition rows_move {K A} `{Countable K} (R : A → A → Prop) (m m' : gmap K A) : Prop :=
  ∀ k x, m !! k = Some x → ∃ y, m' !! k = Some y ∧ R x y.
#[global] Instance rows_move_pre {K A} `{Countable K} (R : A → A → Prop) `{!PreOrder R} : PreOrder (rows_move (K := K) R).
Proof.
  split; [by intros m k x Hx; exists x; split|]. intros m1 m2 m3 H1 H2 k x (y&Hy&?)%H1. destruct (H2 k y Hy) as (z&Hz&?). exists z. split; [done|by etrans].
Qed.
Lemma rows_move_same {K A} `{Countable K} (R : A → A → Prop) `{!PreOrder R} (m m' : gmap K A) : m' = m → rows_move R m m'.
Proof. by intros ->. Qed.
Lemma rows_move_insert {K A} `{Countable K} (R : A → A → Prop) `{!PreOrder R} (m : gmap K A) k y :
  (∀ x, m !! k = Some x → R x y) → rows_move R m (<[k := y]> m).
Proof.
  intros Hr j x Hx. destruct (decide (k = j)) as [->|Hne]; [exists y; by rewrite lookup_insert_eq; auto|exists x; by rewrite lookup_insert_ne].
Qed.
Lemma rows_move_imap {K A} `{Countable K} (R : A → A → Prop) `{!PreOrder R} (m : gmap K A) (f : K → A → A) :
  (∀ k x, m !! k = Some x → R x (f k x)) → rows_move R m (map_imap (λ k x, Some (f k x)) m).
Proof. intros Hf k x Hx. exists (f k x). rewrite map_lookup_imap, Hx. simpl. auto. Qed.
Lemma rows_move_fmap {K A} `{Countable K} (R : A → A → Prop) `{!PreOrder R} (m : gmap K A) (f : A → A) :
  (∀ x, R x (f x)) → rows_move R m (f <$> m).
Proof. intros Hf k x Hx. exists (f x). rewrite lookup_fmap, Hx. simpl. auto. Qed.

Lemma suspend_moves x : inst_moves x (suspend x).
Proof. split_and!; [done..|]. right. left. simpl. lia. Qed.
Lemma retire_repository_moves x : repo_moves x (retire_repository x).
Proof. split_and!; [done..|]. right. simpl. lia. Qed.
Lemma retire_binding_moves x : bind_moves x (retire_binding x).
Proof. right. simpl. lia. Qed.
Create HintDb moves.
#[export] Hint Resolve suspend_moves retire_repository_moves retire_binding_moves : moves.

(** ** The webhook repository *)

Record web_moves (w w' : WebhookDB) : Prop := {
  wm_app : wh_app_active w' = wh_app_active w;
  wm_inst : rows_move inst_moves (wh_installations w) (wh_installations w');
  wm_repo : rows_move repo_moves (wh_repositories w) (wh_repositories w');
  wm_bind : rows_move bind_moves (wh_bindings w) (wh_bindings w');
  wm_chain : chain_ok (wh_installations w) (wh_repositories w) (wh_bindings w) → chain_ok (wh_installations w') (wh_repositories w') (wh_bindings w');
  (* nothing comes alive *)
  wm_inst_alive : ∀ n i, wh_installations w' !! n = Some i → authorized i = true → wh_installations w !! n = Some i;
  wm_repo_alive : ∀ id r, wh_repositories w' !! id = Some r → gr_active r = true → wh_repositories w !! id = Some r;
  wm_bind_alive : ∀ k b, wh_bindings w' !! k = Some b → gb_active b = true → wh_bindings w !! k = Some b;
}.
#[global] Instance web_moves_pre : PreOrder web_moves.
Proof.
  split; [by split|]. intros x y z [] []. split; [congruence|by etrans..|auto|auto|auto|auto].
Qed.
Lemma web_moves_same w w' : wh_app_active w' = wh_app_active w → wh_installations w' = wh_installations w →
  wh_repositories w' = wh_repositories w → wh_bindings w' = wh_bindings w → web_moves w w'.
Proof. intros ? E1 E2 E3. split; rewrite ?E1, ?E2, ?E3; done. Qed.

Lemma web_insert_delivery row : tx_rel web_moves (insert_delivery row).
Proof. intros w x w' [(->&->&_)|(_&_&->&_)]%insert_delivery_inv; [done|by apply web_moves_same]. Qed.
Lemma web_insert_intent row : tx_rel web_moves (insert_intent row).
Proof. intros w x w' [(->&->&_)|(_&_&->&_)]%insert_intent_inv; [done|by apply web_moves_same]. Qed.
Lemma web_orIntegrity {A} (m : Tx WebhookDB Err A) : tx_rel web_moves m → tx_rel web_moves (orIntegrity m).
Proof. intros H w x w' E%orIntegrity_inv. by eapply H. Qed.
Lemma web_onDB {A} (m : Tx DB Err A) : tx_rel web_moves (onDB m).
Proof. intros w x w'. unfold onDB. destruct (m (wh_db w)) as [|[]]; [done|]. intros [= _ <-]. by apply web_moves_same. Qed.
Lemma web_mark id now : tx_rel web_moves (markDeliveryProcessed id now).
Proof.
  intros w x w' H. unfold markDeliveryProcessed in H. destruct (wh_deliveries w !! id) as [r|]; [|done].
  destruct (_ && _); [|done]. destruct (negb (validate_delivery_update _ _)); [done|]. destruct (negb (delivery_check _)); [done|].
  injection H as _ <-. by apply web_moves_same.
Qed.
#[export] Hint Resolve web_insert_delivery web_insert_intent web_orIntegrity web_onDB web_mark : txrel.

Lemma web_insertRepositories id ids : tx_rel web_moves (insertLifecycleRepositories id ids).
Proof.
  apply (rel_forEach _). intros x w u w'. destruct (wh_deliveries w !! id); [|done]. cbv zeta.
  destruct (negb (_ && _)); [done|]. destruct (negb (0 <? x)); [done|]. case_bool_decide; [done|]. intros [= _ <-]. by apply web_moves_same.
Qed.
Lemma fmap_alive {K A} `{Countable K} (f : A → bool) (g : A → A) (alive : A → bool) (m : gmap K A) k x :
  (∀ y, alive (g y) = false) → ((λ y, if f y then g y else y) <$> m) !! k = Some x → alive x = true → m !! k = Some x.
Proof. intros Hg. rewrite lookup_fmap. intros (y&Hy&->)%fmap_Some Ha. case_match; [by rewrite Hg in Ha|done]. Qed.
Lemma web_suspend n o : tx_rel web_moves (suspendInstallation n o).
Proof.
  intros w u w' H. unfold suspendInstallation in H. tx_inv. split; simpl; [done|..].
  - apply rows_move_insert; [apply _|]. intros x Hx. simplify_eq. auto with moves.
  - apply rows_move_fmap; [apply _|]. intros x. case_match; auto with moves. done.
  - apply rows_move_fmap; [apply _|]. intros x. case_match; auto with moves. done.
  - intros Hc. by apply chain_suspend.
  - by intros k i [[<- <-]|[_ Hk]]%lookup_insert_Some.
  - intros k x. by apply fmap_alive.
  - intros k x. by apply fmap_alive.
Qed.
Lemma web_remove n id : tx_rel web_moves (removeRepository n id).
Proof.
  intros w u w' H. unfold removeRepository in H. tx_inv. bool_hyps. split; simpl; [done|done|..].
  - apply rows_move_insert; [apply _|]. intros x Hx. simplify_eq. auto with moves.
  - apply rows_move_fmap; [apply _|]. intros x. case_match; auto with moves. done.
  - intros Hc. by eapply chain_remove.
  - done.
  - by intros k i [[<- <-]|[_ Hk]]%lookup_insert_Some.
  - intros k x. by apply (fmap_alive (λ b, (gb_repository b =? id) && (gb_installation b =? n))).
Qed.
#[export] Hint Resolve web_insertRepositories web_suspend web_remove : txrel.
Lemma web_effect l : tx_rel web_moves (lifecycleEffect l).
Proof. unfold lifecycleEffect. tx_rel. apply (rel_forEach _). intros. auto with txrel. Qed.
Lemma web_reads {A} (m : Tx WebhookDB Err A) : tx_rel eq m → tx_rel web_moves m.
Proof. intros H w x w' E. by rewrite (H _ _ _ E). Qed.
Lemma web_lockPush p : tx_rel web_moves (lockWebhookAuthorityForPush p).
Proof. apply web_reads, lockPush_reads. Qed.
Lemma web_lockLifecycle l : tx_rel web_moves (lockLifecycleAuthority l).
Proof. apply web_reads, lockLifecycle_reads. Qed.
#[export] Hint Resolve web_effect web_lockPush web_lockLifecycle : txrel.
Lemma web_insertJob j now : tx_rel web_moves (insertJob j now).
Proof. unfold insertJob. tx_rel. apply tx_rel_write. intros w. by apply web_moves_same. Qed.
#[export] Hint Resolve web_insertJob : txrel.
Lemma web_enqueue inp t strict now : tx_rel web_moves (enqueueVerifiedPushTx inp t strict now).
Proof. unfold enqueueVerifiedPushTx, insertOrResolveDelivery, insertOrResolveIntent. tx_rel. Qed.
#[export] Hint Resolve web_enqueue : txrel.

Lemma wexec_moves errorText c w : web_moves w (wexec errorText c w).
Proof.
  assert (∀ A (m : Tx WebhookDB Err A), tx_rel web_moves m → web_moves w (run_tx m w).2) as Hrun.
  { intros A m Hm. unfold run_tx. destruct (m w) as [|[]] eqn:E; [done|by eapply Hm]. }
  destruct c; simpl; unfold ProcessPush, EnqueueVerifiedPush, ProcessLifecycle, RecordTerminalRejection; try apply Hrun.
  - unfold processPush. tx_rel.
  - unfold enqueueVerifiedPush. tx_rel.
  - unfold processLifecycle, lifecycleRepositoriesMatch. tx_rel.
  - unfold recordTerminalRejection. tx_rel.
  - destruct (isPush c); [done|]. by apply web_moves_same.
Qed.

(** ** The GitHub repository *)

(** Reservations: everything but state, attempts and [consumed_at] is fixed,
    and the state only moves forward. *)
Definition stateRank (s : ReservationState) : Z :=
  match s with RReserved => 0 | RMinting => 1 | RActive => 2 | RRunning => 3 | RConsumed | RInvalidated | RExpired => 4 end.
Definition reservation_moves (x y : ReservationRow) : Prop :=
  rv_owner y = rv_owner x ∧ rv_project y = rv_project x ∧ rv_installation y = rv_installation x ∧ rv_repository y = rv_repository x ∧
  rv_clone_url y = rv_clone_url x ∧ rv_commit y = rv_commit x ∧ rv_binding_revision y = rv_binding_revision x ∧
  rv_repository_revision y = rv_repository_revision x ∧ rv_installation_revision y = rv_installation_revision x ∧
  rv_expires y = rv_expires x ∧ rv_created y = rv_created x ∧
  (y = x ∨ stateRank (rv_state x) < stateRank (rv_state y)).
#[global] Instance reservation_moves_pre : PreOrder reservation_moves.
Proof.
  split; [by intros x; split_and!; auto|]. unfold reservation_moves. intros x y z Hxy Hyz. destruct_and! Hxy. destruct_and! Hyz.
  split_and!; try congruence.
  match goal with A : y = x ∨ _, B : z = y ∨ _ |- _ => destruct A as [->|?], B as [->|?]; first [by auto|right; lia] end.
Qed.

Lemma existsb_map_none {K A} `{Countable K} (f : K * A → bool) (m : gmap K A) :
  existsb f (map_to_list m) = false ↔ ∀ k x, m !! k = Some x → f (k, x) = false.
Proof.
  split.
  - intros Hf k x Hx. apply not_true_iff_false. intros Ht. apply not_true_iff_false in Hf. apply Hf, existsb_exists.
    exists (k, x). split; [|done]. by apply list_elem_of_In, elem_of_map_to_list.
  - intros Hf. apply not_true_iff_false. intros ([k x]&Hin%list_elem_of_In%elem_of_map_to_list&Ht)%existsb_exists. by rewrite (Hf k x Hin) in Ht.
Qed.

(** What the guards of the bodies establish. *)
Lemma texts_inv l g u g' : texts l g = inr (u, g') → forallb sqlText l = true ∧ g' = g.
Proof. by intros [? ->]%tx_guard_inv. Qed.
Lemma lockAdministrator_inv p now g u g' : lockAdministrator p now g = inr (u, g') → adminLive p now (gh_auth g) = true ∧ g' = g.
Proof. unfold lockAdministrator. intros H. by tx_inv. Qed.
Lemma activeRegistration_inv g u g' : activeRegistration g = inr (u, g') → wh_app_active (gh_web g) = true ∧ g' = g.
Proof. unfold activeRegistration. intros H. by tx_inv. Qed.
Lemma revalidateTx_inv b g u g' : revalidateTx b g = inr (u, g') → chainHolds b g = true ∧ g' = g.
Proof. unfold revalidateTx. intros H. by tx_inv. Qed.
Ltac gh_inv := repeat first
  [ progress tx_inv
  | match goal with
    | H : texts _ _ = inr (_, _) |- _ => apply texts_inv in H as [H ->]
    | H : lockAdministrator _ _ _ = inr (_, _) |- _ => apply lockAdministrator_inv in H as [H ->]
    | H : activeRegistration _ = inr (_, _) |- _ => apply activeRegistration_inv in H as [H ->]
    | H : revalidateTx _ _ = inr (_, _) |- _ => apply revalidateTx_inv in H as [H ->]
    end ].

(** A repository's row together with its names. *)
Definition repo_row (g : GHDB) (id : Z) : option (RepositoryRow * option RepoMeta) := (λ r, (r, gh_meta g !! id)) <$> repositories g !! id.
Definition repo_row_moves (x y : RepositoryRow * option RepoMeta) : Prop := repo_moves x.1 y.1 ∧ (y.1 = x.1 → y.2 = x.2).
Lemma repo_moves_revision x y : repo_moves x y → gr_revision x ≤ gr_revision y.
Proof. intros (_&_&_&[->|?]); lia. Qed.
Lemma repo_moves_back x y z : repo_moves x y → repo_moves y z → z = x → y = x.
Proof. intros (_&_&_&[->|?]) Hyz%repo_moves_revision ->; [done|lia]. Qed.
#[global] Instance repo_row_moves_pre : PreOrder repo_row_moves.
Proof.
  split; [by intros u|]. intros u v w (Huv&Euv) (Hvw&Evw). split; [by etrans|]. intros E. pose proof (repo_moves_back _ _ _ Huv Hvw E) as E'.
  rewrite Evw by congruence. auto.
Qed.

(** At most one live reservation per binding. *)
Definition live_unique (rv : gmap string ReservationRow) : Prop := ∀ id id' r r', rv !! id = Some r → rv !! id' = Some r' →
  liveReservation (rv_state r) = true → liveReservation (rv_state r') = true → rv_owner r = rv_owner r' → rv_project r = rv_project r' → id = id'.
Record gh_run (g g' : GHDB) : Prop := {
  gm_app : wh_app_active (gh_web g) = true → wh_app_active (gh_web g') = true;
  gm_inst : rows_move inst_moves (installations g) (installations g');
  gm_types : ∀ id, is_Some (installations g !! id) → gh_types g' !! id = gh_types g !! id;
  gm_repo : ∀ id x, repo_row g id = Some x → ∃ y, repo_row g' id = Some y ∧ repo_row_moves x y;
  gm_bind : rows_move bind_moves (bindings g) (bindings g');
  gm_audit : gh_audit g ⊆ gh_audit g';
  gm_reservations : rows_move reservation_moves (gh_reservations g) (gh_reservations g');
  gm_live : live_unique (gh_reservations g) → live_unique (gh_reservations g');
}.
#[global] Instance gh_run_pre : PreOrder gh_run.
Proof.
  split; [intros g; split; try done; intros id x Hx; exists x; by split|]. intros x y z [] [].
  split; [auto|by etrans| | |by etrans..|auto].
  { intros id Hi. rewrite gm_types1; [auto|]. destruct Hi as [i Hi]. destruct (gm_inst0 id i Hi) as (j&?&_). eauto. }
  intros id a Ha. destruct (gm_repo0 _ _ Ha) as (b&Hb&?). destruct (gm_repo1 _ _ Hb) as (c&Hc&?). exists c. split; [done|by etrans].
Qed.

(** A call of this repository or of the webhooks' leaves sessions and users alone. *)
Definition gh_moves (g g' : GHDB) : Prop := gh_run g g' ∧ gh_auth g' = gh_auth g.
#[global] Instance gh_moves_pre : PreOrder gh_moves.
Proof. split; [by intros g|]. intros x y z [? ?] [? ?]. split; [by etrans|congruence]. Qed.

(** A write of the authority tables and of the side columns. *)
Lemma gh_moves_authority g ins rs bs types meta :
  rows_move inst_moves (installations g) ins → (∀ id, is_Some (installations g !! id) → types !! id = gh_types g !! id) → rows_move bind_moves (bindings g) bs →
  (∀ id r, repositories g !! id = Some r → ∃ r', rs !! id = Some r' ∧ repo_row_moves (r, gh_meta g !! id) (r', meta !! id)) →
  gh_moves g (put_columns types meta (put_authority ins rs bs g)).
Proof.
  intros H1 H2 H3 H4. split; [|done]. split; simpl; try done. intros id [r m] Hx. unfold repo_row in Hx. destruct (repositories g !! id) as [r0|] eqn:E; [|done].
  simpl in Hx. simplify_eq. destruct (H4 id r E) as (r'&Hr'&?). exists (r', meta !! id). unfold repo_row. simpl. unfold repositories. simpl. by rewrite Hr'.
Qed.
Lemma gh_moves_rows g ins rs bs : rows_move inst_moves (installations g) ins → rows_move repo_moves (repositories g) rs →
  rows_move bind_moves (bindings g) bs → gh_moves g (put_authority ins rs bs g).
Proof.
  intros H1 H2 H3. apply (gh_moves_authority g ins rs bs (gh_types g) (gh_meta g)); [done..|].
  intros id r Hr. destruct (H2 id r Hr) as (r'&?&?). exists r'. by split.
Qed.
Lemma gh_moves_web g w : web_moves (gh_web g) w → gh_moves g (put_web w g).
Proof.
  intros []. split; [|done]. split; simpl; try done; [congruence|]. intros id [r m] Hx. unfold repo_row in *. destruct (repositories g !! id) as [r0|] eqn:E; [|done].
  simpl in Hx. simplify_eq. destruct (wm_repo0 id r E) as (r'&Hr'&?). exists (r', gh_meta g !! id). unfold repositories. simpl. rewrite Hr'. by split.
Qed.
Lemma gh_moves_audit g a n : gh_audit g ⊆ a → gh_moves g (put_audit a n g).
Proof. intros H. split; [|done]. split; try done. intros id x Hx. exists x. by split. Qed.
Lemma gh_moves_reservations g m : rows_move reservation_moves (gh_reservations g) m → (live_unique (gh_reservations g) → live_unique m) →
  gh_moves g (put_reservations m g).
Proof. intros H Hl. split; [|done]. split; try done. intros id x Hx. exists x. by split. Qed.
Lemma gh_moves_setup g s h : gh_moves g (put_setup s h g).
Proof. split; [|done]. split; try done. intros id x Hx. exists x. by split. Qed.
Lemma gh_run_auth g d : gh_run g (put_auth d g).
Proof. split; try done. intros id x Hx. exists x. by split. Qed.
#[export] Hint Resolve gh_moves_setup : moves.

Lemma moves_setup_write f h : tx_rel gh_moves (tx_write (E := GHErr) (λ g, put_setup (f g) (h g) g)).
Proof. apply tx_rel_write. auto with moves. Qed.
Lemma moves_texts l : tx_rel gh_moves (texts l).
Proof. unfold texts. apply tx_rel_guard. apply _. Qed.
Lemma moves_delete_states f : tx_rel gh_moves (delete_states f).
Proof. intros g u g'. unfold delete_states. case_match; [done|]. intros [= _ <-]. auto with moves. Qed.
Lemma moves_insert_state d s : tx_rel gh_moves (insert_state d s).
Proof. intros g u g'. unfold insert_state. do 2 (case_match; [done|]). intros [= _ <-]. auto with moves. Qed.
Lemma moves_insert_handoff d s : tx_rel gh_moves (insert_handoff d s).
Proof. intros g u g'. unfold insert_handoff. do 2 (case_match; [done|]). intros [= _ <-]. auto with moves. Qed.
Lemma moves_write_state d s : tx_rel gh_moves (write_state d s).
Proof. apply moves_setup_write. Qed.
#[export] Hint Resolve moves_setup_write moves_texts moves_delete_states moves_insert_state moves_insert_handoff moves_write_state : txrel.
Lemma moves_active : tx_rel gh_moves activeRegistration.
Proof. unfold activeRegistration. tx_rel. Qed.
Lemma moves_lock p now : tx_rel gh_moves (lockAdministrator p now).
Proof. unfold lockAdministrator. tx_rel. Qed.
Lemma moves_prune now : tx_rel gh_moves (pruneSetup now).
Proof. unfold pruneSetup. tx_rel. Qed.
Lemma moves_revalidate b : tx_rel gh_moves (revalidateTx b).
Proof. unfold revalidateTx. tx_rel. Qed.
#[export] Hint Resolve moves_active moves_lock moves_prune moves_revalidate : txrel.
Lemma moves_each {A} (f : A → GHTx unit) xs : (∀ x, tx_rel gh_moves (f x)) → tx_rel gh_moves (each f xs).
Proof. intros Hf. induction xs as [|x xs IH]; simpl; tx_rel. Qed.

Lemma insertGitHubAudit_inv id row g u g' : insertGitHubAudit id row g = inr (u, g') →
  gh_audit g !! id = None ∧ g' = put_audit (<[id := row]> (gh_audit g)) (<[ga_owner row := eventCount (ga_owner row) g + 1]> (gh_admission g)) g ∧
  ga_owner row ∈ ad_owners (gh_auth g) ∧ eventCount (ga_owner row) g < auditCapacity ∧
  (disables (ga_action row) = false → eventCount (ga_owner row) g + 1 + protectedCount (ga_owner row) g ≤ auditCapacity).
Proof.
  unfold insertGitHubAudit. intros (v&g1&[_ ->]%tx_guard_inv&H)%tx_bind_inv. cbv zeta in H.
  destruct (negb (bool_decide _)) eqn:E1 in H; [done|]. destruct (negb (_ && _)) eqn:E2 in H; [done|]. destruct (negb (_ && _)) eqn:E3 in H; [done|].
  destruct (isSomeb _) eqn:E4 in H; [done|]. destruct (negb (user_owner_exists _ _ _)) in H; [done|]. injection H as _ <-. bool_hyps.
  split_and!; [by destruct (gh_audit g !! id)|done|done|done|]. intros Hd. rewrite Hd in *. simpl in *. bool_hyps. lia.
Qed.
Lemma moves_audit id row : tx_rel gh_moves (insertGitHubAudit id row).
Proof. intros g u g' (Hn&->&_)%insertGitHubAudit_inv. by apply gh_moves_audit, insert_subseteq. Qed.
#[export] Hint Resolve moves_audit : txrel.

Lemma moves_upsert_installation id owner account : tx_rel gh_moves (upsert_installation id owner account).
Proof.
  intros g u g' H. unfold upsert_installation in H. cbv zeta in H. destruct (negb _) in H; [done|]. destruct (installations g !! id) as [old|] eqn:Eo.
  - destruct (_ && _) eqn:Em in H; injection H as _ <-; [|done]. bool_hyps. apply gh_moves_rows; [|done..]. apply rows_move_insert; [apply _|].
    intros x Hx. assert (x = old) as -> by congruence. split_and!; simpl; [done|done|]. destruct (authorized old) eqn:Ea; [|by auto]. left.
    unfold authorized in Ea. bool_hyps. destruct old; simpl in *; congruence.
  - do 2 (case_match; [done|]). injection H as _ <-. apply gh_moves_authority; [|..|done|].
    + apply rows_move_insert; [apply _|]. intros x Hx. congruence.
    + intros k [x Hx]. rewrite lookup_insert_ne; [done|]. intros ->. congruence.
    + intros k r Hr. exists r. by split.
Qed.
Lemma moves_disable_installation id owner : tx_rel gh_moves (disable_installation id owner).
Proof.
  intros g u g' H. unfold disable_installation in H. destruct (installations g !! id) as [i|] eqn:Ei; [|by injection H as _ <-].
  destruct (_ && _) in H; injection H as _ <-; [|done]. apply gh_moves_rows; [|done..]. apply rows_move_insert; [apply _|]. intros x Hx. simplify_eq. auto with moves.
Qed.
Lemma write_repository_inv id row m g u g' : write_repository id row m g = inr (u, g') →
  repository_check id row m = true ∧
  g' = put_columns (gh_types g) (<[id := m]> (gh_meta g)) (put_authority (installations g) (<[id := row]> (repositories g)) (bindings g) g).
Proof. unfold write_repository. destruct (negb _) eqn:E; [done|]. intros [= _ <-]. by bool_hyps. Qed.
Lemma moves_write_repository id row m g u g' : (∀ r, repositories g !! id = Some r → row = revive_repository r) →
  write_repository id row m g = inr (u, g') → gh_moves g g'.
Proof.
  intros Hrow [_ ->]%write_repository_inv. apply gh_moves_authority; [done|done|done|]. intros k r Hr. destruct (decide (id = k)) as [->|Hne].
  - exists row. rewrite lookup_insert_eq. split; [done|]. rewrite (Hrow r Hr). split; [split_and!; try done; right; simpl; lia|].
    intros E. apply (f_equal gr_revision) in E. simpl in E. lia.
  - exists r. by rewrite !lookup_insert_ne by done.
Qed.
Lemma moves_upsert_repository n owner r : tx_rel gh_moves (upsert_repository n owner r).
Proof.
  intros g u g' H. unfold upsert_repository in H. gh_inv. destruct (repositories g !! rp_ID r) as [old|] eqn:Eo.
  - case_match; tx_inv; [|done]. eapply moves_write_repository; [|done]. intros x Hx. congruence.
  - tx_inv. eapply moves_write_repository; [|done]. intros x Hx. congruence.
Qed.
Lemma moves_refresh_repository n owner r : tx_rel gh_moves (refresh_repository n owner r).
Proof.
  intros g u g' H. unfold refresh_repository in H. gh_inv. destruct (repositories g !! rp_ID r) as [old|] eqn:Eo; [|by tx_inv].
  case_match; [|by tx_inv]. eapply moves_write_repository; [|done]. intros x Hx. congruence.
Qed.
Lemma moves_deactivate_repositories ids : tx_rel gh_moves (deactivate_repositories ids).
Proof.
  apply tx_rel_write. intros g. apply gh_moves_rows; [done| |done]. apply rows_move_imap; [apply _|]. intros k x _. case_match; auto with moves. done.
Qed.
Lemma moves_deactivate_bindings owner ids : tx_rel gh_moves (deactivate_bindings owner ids).
Proof.
  apply tx_rel_write. intros g. apply gh_moves_rows; [done|done|]. apply rows_move_imap; [apply _|]. intros k x _. case_match; auto with moves. done.
Qed.
Lemma moves_upsert_binding owner project r n t : tx_rel gh_moves (upsert_binding owner project r n t).
Proof.
  intros g u g' H. unfold upsert_binding in H. gh_inv. cbv zeta in H. do 2 (case_match; [done|]). destruct (repositories g !! r) as [x|]; [|done].
  case_match; [|done]. injection H as _ <-. apply gh_moves_rows; [done|done|]. apply rows_move_insert; [apply _|]. intros b Hb. right. simpl. rewrite Hb. lia.
Qed.
#[export] Hint Resolve moves_upsert_installation moves_disable_installation moves_upsert_repository moves_refresh_repository
  moves_deactivate_repositories moves_deactivate_bindings moves_upsert_binding : txrel.

Lemma moves_insert_reservation id r : tx_rel gh_moves (insert_reservation id r).
Proof.
  intros g u g' H. unfold insert_reservation in H. do 2 (case_match; [done|]). injection H as _ <-. bool_hyps.
  match goal with H : existsb _ _ = false |- _ => rewrite existsb_map_none in H; rename H into Hone end.
  destruct (gh_reservations g !! id) eqn:En; [done|]. apply gh_moves_reservations; [apply rows_move_insert; [apply _|]; congruence|].
  intros Hl i j x y [[<- <-]|[Hi Hx]]%lookup_insert_Some [[<- <-]|[Hj Hy]]%lookup_insert_Some Lx Ly Eo Ep; [done|..|by eapply Hl].
  - specialize (Hone j y Hy). simpl in Hone. rewrite Ly, bool_decide_true in Hone by congruence. done.
  - specialize (Hone i x Hx). simpl in Hone. rewrite Lx, bool_decide_true in Hone by congruence. done.
Qed.
Lemma live_iff_rank s : liveReservation s = true ↔ stateRank s < 4.
Proof. destruct s; simpl; split; (done || lia). Qed.
Lemma reservation_moves_rank x y : reservation_moves x y → stateRank (rv_state x) ≤ stateRank (rv_state y).
Proof. unfold reservation_moves. intros H. destruct_and! H. match goal with H : _ ∨ _ |- _ => destruct H as [->|?]; lia end. Qed.
Lemma moves_update_reservations wh f g u g' : (∀ id r, gh_reservations g !! id = Some r → wh id r = true → reservation_moves r (f r)) →
  update_reservations wh f g = inr (u, g') → gh_moves g g'.
Proof.
  intros Hf. unfold update_reservations. intros [= _ <-].
  assert (∀ id r, gh_reservations g !! id = Some r → reservation_moves r (if wh id r then f r else r)) as Hm by (intros id r Hr; case_match; [by eapply Hf|done]).
  apply gh_moves_reservations; [by apply rows_move_imap; [apply _|]|].
  intros Hl i j x y Hx Hy Lx Ly Eo Ep. rewrite map_lookup_imap in Hx, Hy. destruct (gh_reservations g !! i) as [x0|] eqn:Ei; [|done].
  destruct (gh_reservations g !! j) as [y0|] eqn:Ej; [|done]. simpl in Hx, Hy. injection Hx as <-. injection Hy as <-.
  pose proof (reservation_moves_rank _ _ (Hm _ _ Ei)) as Mx. pose proof (reservation_moves_rank _ _ (Hm _ _ Ej)) as My.
  pose proof (Hm _ _ Ei) as (Ox & Px & _). pose proof (Hm _ _ Ej) as (Oy & Py & _). rewrite live_iff_rank in Lx, Ly.
  eapply (Hl i j x0 y0); [done|done|apply live_iff_rank; lia|apply live_iff_rank; lia|congruence|congruence].
Qed.
Lemma live_rank s : liveReservation s = true → stateRank s < 4.
Proof. by destruct s. Qed.
Lemma moved_forward st r : stateRank (rv_state r) < stateRank st → reservation_moves r (move_reservation st r).
Proof. intros H. split_and!; try done. by right. Qed.

Lemma moves_invalidate owner n : tx_rel gh_moves (invalidatedCheckoutIDs owner n).
Proof.
  intros g u g'. apply moves_update_reservations. intros id r _ H. bool_hyps. by apply moved_forward, live_rank.
Qed.
Lemma moves_deactivateMissing owner n keep : tx_rel gh_moves (deactivateMissing owner n keep).
Proof. unfold deactivateMissing. tx_rel. Qed.
#[export] Hint Resolve moves_insert_reservation moves_invalidate moves_deactivateMissing : txrel.
Lemma moves_auditDisabled p n a ids : tx_rel gh_moves (auditDisabled p n a ids).
Proof. apply moves_each. auto with txrel. Qed.
#[export] Hint Resolve moves_auditDisabled : txrel.

(** ** Every method *)

Lemma moves_EnsureAppRegistration i o : tx_rel gh_moves (EnsureAppRegistration i o).
Proof.
  unfold EnsureAppRegistration. tx_rel. apply tx_rel_write. intros g. split; [|done]. split; simpl; try done. intros id y Hy. exists y. by split.
Qed.
Lemma moves_CreateSetupState d p now : tx_rel gh_moves (CreateSetupState d p now).
Proof. unfold CreateSetupState. tx_rel. Qed.
Lemma moves_PendingInstallation d p now : tx_rel gh_moves (PendingInstallation d p now).
Proof. unfold PendingInstallation. tx_rel. Qed.
Lemma moves_BeginCallback d now : tx_rel gh_moves (BeginCallback d now).
Proof. unfold BeginCallback. tx_rel. Qed.
Lemma moves_CancelCallback d : tx_rel gh_moves (CancelCallback d).
Proof. unfold CancelCallback. tx_rel. Qed.
Lemma moves_ReserveCallback s h i now : tx_rel gh_moves (ReserveCallback s h i now).
Proof. unfold ReserveCallback. tx_rel. Qed.
Lemma moves_CompleteHandoff d p i l now : tx_rel gh_moves (CompleteHandoff d p i l now).
Proof. unfold CompleteHandoff. tx_rel. apply moves_each. tx_rel. Qed.
Lemma moves_BindRepository p i a now : tx_rel gh_moves (BindRepository p i a now).
Proof. unfold BindRepository. tx_rel. Qed.
Lemma moves_DisableInstallation p n a now : tx_rel gh_moves (DisableInstallation p n a now).
Proof. unfold DisableInstallation. tx_rel. Qed.
Lemma moves_ReconcileInstallation p i l a now : tx_rel gh_moves (ReconcileInstallation p i l a now).
Proof. unfold ReconcileInstallation. tx_rel. apply moves_each. tx_rel. Qed.
Lemma moves_ReserveCheckout owner project sha rnd goNow now : tx_rel gh_moves (ReserveCheckout owner project sha rnd goNow now).
Proof.
  intros g x g' H. unfold ReserveCheckout in H. tx_inv.
  match goal with H : update_reservations _ _ _ = _ |- _ => eapply moves_update_reservations in H; [rename H into Hexp|] end.
  2: { intros id r _ Hr. bool_hyps. apply moved_forward. by destruct (rv_state r). }
  etrans; [exact Hexp|]. match goal with H : match insert_reservation ?i ?r ?s with inl _ => _ | inr _ => _ end = inr _ |- _ =>
    destruct (insert_reservation i r s) as [|[[] g1]] eqn:Ei; [done|]; injection H as _ <- end. by eapply moves_insert_reservation.
Qed.
Lemma moves_BeginMintAttempt id now : tx_rel gh_moves (BeginMintAttempt id now).
Proof.
  intros g x g' H. unfold BeginMintAttempt in H. tx_inv. bool_hyps.
  match goal with H : revalidateTx _ _ = _ |- _ => unfold revalidateTx in H end. tx_inv.
  eapply moves_update_reservations; [|done]. intros k r Hr Hk. unfold onlyRow in Hk. bool_hyps. subst k. simplify_eq.
  split_and!; try done. right. simpl. match goal with H : rv_state _ = _ |- _ => rewrite H end. simpl. lia.
Qed.
Lemma moves_onlyRow id f st g u g' : (∀ r, f r = true → stateRank (rv_state r) < stateRank st) →
  update_reservations (onlyRow id f) (move_reservation st) g = inr (u, g') → gh_moves g g'.
Proof. intros Hf. apply moves_update_reservations. intros k r _ [_ Hr]%andb_true_iff. by apply moved_forward, Hf. Qed.
Lemma moves_ActivateMintAttempt id b now : tx_rel gh_moves (ActivateMintAttempt id b now).
Proof.
  intros g x g' H. unfold ActivateMintAttempt in H. tx_inv. etrans; [by eapply moves_revalidate|].
  eapply moves_onlyRow; [|done]. intros r Hr. simpl in Hr. bool_hyps. match goal with H : rv_state _ = _ |- _ => rewrite H end. simpl. lia.
Qed.
Lemma moves_StartCheckout id b now : tx_rel gh_moves (StartCheckout id b now).
Proof.
  intros g x g' H. unfold StartCheckout in H. tx_inv. etrans; [by eapply moves_revalidate|].
  eapply moves_onlyRow; [|done]. intros r Hr. simpl in Hr. bool_hyps. match goal with H : rv_state _ = _ |- _ => rewrite H end. simpl. lia.
Qed.
Lemma moves_CloseCheckout id now : tx_rel gh_moves (CloseCheckout id now).
Proof.
  intros g x g' H. unfold CloseCheckout in H. tx_inv. match goal with H : update_reservations _ _ _ = _ |- _ => eapply moves_update_reservations in H; [rename H into Hc|] end.
  2: { intros k r _ [_ Hr]%andb_true_iff. apply live_rank in Hr. split_and!; try done. by right. }
  case_match; tx_inv; done.
Qed.
