(* ===== verification/GitHubSystem.v ===== *)
(** * The GitHub repository as a system

    Its calls together with the webhook repository's and the authentication
    repository's as a step relation over one database. *)
From S2P Require Import Prelude GoStd Token Queue Route Schema Evidence LeaseCore Lease Enqueue LeaseSystem CallsKeep Webhooks WebhookSteps WebhookSystem Password Hmac AuthTokens AuthStore Throttle Sessions AuthInv AuthSystem GitHubApp GitHubStore GitHubRepo GitHubChain GitHubSteps.
From stdpp Require Import relations.
#[local] Open Scope Z_scope.

(** ** Calls *)

Inductive GHCall :=
  | GEnsure (identity : AppIdentity) (owner : Owner)
  | GCreateState (digest : string) (p : Principal) (now : Z)
  | GPending (digest : string) (p : Principal) (now : Z)
  | GBeginCallback (digest : string) (now : Z)
  | GCancelCallback (digest : string)
  | GReserveCallback (state handoff : string) (i : ProviderInstallation) (now : Z)
  | GComplete (digest : string) (p : Principal) (i : ProviderInstallation) (found : list ProviderRepository) (now : Z)
  | GBind (p : Principal) (input : GitBindingInput) (audit : string) (now : Z)
  | GDisable (p : Principal) (installation : Z) (audit : string) (now : Z)
  | GReconcile (p : Principal) (i : ProviderInstallation) (found : list ProviderRepository) (audit : string) (now : Z)
  | GReserveCheckout (owner project sha randomness : string) (goNow now : Z)
  | GBeginMint (id : string) (now : Z)
  | GActivate (id : string) (b : CheckoutBinding) (now : Z)
  | GStart (id : string) (b : CheckoutBinding) (now : Z)
  | GClose (id : string) (now : Z)
  | GWeb (c : WCall)
  | GAuth (c : AuthCall).

(** Sessions the setup tables hold a foreign key to. *)
Definition referencedSessions (g : GHDB) : gset string :=
  list_to_set ((ss_session ∘ snd <$> map_to_list (gh_states g)) ++ (ho_session ∘ snd <$> map_to_list (gh_handoffs g))).

Section system.
Context (errorText : Err → string).

Definition ghExec (c : GHCall) (g : GHDB) : GHDB :=
  match c with
  | GEnsure i o => (run_tx (EnsureAppRegistration i o) g).2
  | GCreateState d p now => (run_tx (CreateSetupState d p now) g).2
  | GPending d p now => (run_tx (PendingInstallation d p now) g).2
  | GBeginCallback d now => (run_tx (BeginCallback d now) g).2
  | GCancelCallback d => (run_tx (CancelCallback d) g).2
  | GReserveCallback s h i now => (run_tx (ReserveCallback s h i now) g).2
  | GComplete d p i l now => (run_tx (CompleteHandoff d p i l now) g).2
  | GBind p i a now => (run_tx (BindRepository p i a now) g).2
  | GDisable p n a now => (run_tx (DisableInstallation p n a now) g).2
  | GReconcile p i l a now => (run_tx (ReconcileInstallation p i l a now) g).2
  | GReserveCheckout o p s r t now => (run_tx (ReserveCheckout o p s r t now) g).2
  | GBeginMint id now => (run_tx (BeginMintAttempt id now) g).2
  | GActivate id b now => (run_tx (ActivateMintAttempt id b now) g).2
  | GStart id b now => (run_tx (StartCheckout id b now) g).2
  | GClose id now => (run_tx (CloseCheckout id now) g).2
  | GWeb c => put_web (wexec errorText c (gh_web g)) g
  | GAuth c => put_auth (execAuth c (set_referenced (referencedSessions g) (gh_auth g))) g
  end.
Inductive gh_step (g : GHDB) : GHDB → Prop := GHStep c : gh_step g (ghExec c g).

(** A fresh installation. *)
Definition gh_initial (g : GHDB) : Prop :=
  winitial (gh_web g) ∧ wh_app_active (gh_web g) = false ∧ installations g = ∅ ∧ repositories g = ∅ ∧ bindings g = ∅ ∧
  gh_auth g = emptyAuthDB ∧ gh_app g = None ∧ gh_states g = ∅ ∧ gh_handoffs g = ∅ ∧ gh_audit g = ∅ ∧ gh_admission g = ∅ ∧
  gh_reservations g = ∅ ∧ gh_max_active g = 10000.
Inductive gh_reachable : GHDB → Prop :=
  | gh_reach_init g : gh_initial g → gh_reachable g
  | gh_reach_step g c : gh_reachable g → gh_reachable (ghExec c g).

Lemma run_moves {A} (R : GHDB → GHDB → Prop) `{!PreOrder R} (m : GHTx A) g : tx_rel R m → R g (run_tx m g).2.
Proof. intros Hm. unfold run_tx. destruct (m g) as [|[]] eqn:E; simpl; [reflexivity|by eapply Hm]. Qed.

Lemma run_tx_cases {A} (m : GHTx A) g : (run_tx m g).2 = g ∨ ∃ x g', m g = inr (x, g') ∧ (run_tx m g).2 = g'.
Proof. unfold run_tx. destruct (m g) as [|[x g']]; eauto. Qed.
(** Every call but the authentication repository's. *)
Lemma call_moves c g : (∀ a, c ≠ GAuth a) → gh_moves g (ghExec c g).
Proof.
  intros Hc. destruct c; try (by destruct (Hc c)); simpl; try (apply (run_moves gh_moves)).
  - apply moves_EnsureAppRegistration.
  - apply moves_CreateSetupState.
  - apply moves_PendingInstallation.
  - apply moves_BeginCallback.
  - apply moves_CancelCallback.
  - apply moves_ReserveCallback.
  - apply moves_CompleteHandoff.
  - apply moves_BindRepository.
  - apply moves_DisableInstallation.
  - apply moves_ReconcileInstallation.
  - apply moves_ReserveCheckout.
  - apply moves_BeginMintAttempt.
  - apply moves_ActivateMintAttempt.
  - apply moves_StartCheckout.
  - apply moves_CloseCheckout.
  - apply gh_moves_web, wexec_moves.
Qed.
Lemma exec_run c g : gh_run g (ghExec c g).
Proof. destruct c; try (by apply call_moves). apply gh_run_auth. Qed.
Lemma steps_run g g' : rtc gh_step g g' → gh_run g g'.
Proof. induction 1 as [|x y z [c] _ IH]; [done|]. etrans; [apply exec_run|done]. Qed.

Lemma gh_reachable_auth g : gh_reachable g → auth_reachable (gh_auth g).
Proof.
  induction 1 as [g Hg|g c _ IH]; [destruct Hg as (_&_&_&_&_&->&_); apply rtc_refl|].
  assert ((∃ a, c = GAuth a) ∨ ∀ a, c ≠ GAuth a) as [[a ->]|Hc] by (destruct c; [right; by intros..|left; eauto]).
  - simpl. eapply rtc_r; [|apply AuthStep]. eapply rtc_r; [done|]. exact (AuthStep _ (SetReferenced (referencedSessions g))).
  - destruct (call_moves c g Hc) as [_ ->]. done.
Qed.
Lemma gh_reachable_steps g g' : gh_reachable g → rtc gh_step g g' → gh_reachable g'.
Proof. intros Hg H. induction H as [|x y z [c] _ IH]; [done|]. apply IH. by constructor. Qed.
End system.
