(* ===== verification/GitHubRuns.v ===== *)
(** * What the GitHub repository's calls do to the authority tables

    The run of each administrator's call as an equation on the database, and
    the chain invariant of every reachable database. *)
From S2P Require Import Prelude GoStd Token Queue Route Schema Evidence LeaseCore Lease Enqueue LeaseSystem CallsKeep Webhooks WebhookSteps WebhookSystem Password Hmac AuthTokens AuthStore Throttle Sessions AuthInv AuthSystem GitHubApp GitHubStore GitHubRepo GitHubChain GitHubSteps GitHubSystem.
From stdpp Require Import relations.
#[local] Open Scope Z_scope.

(** ** Runs of the statements *)

Lemma deactivateMissing_run owner n keep g ids g' : deactivateMissing owner n keep g = inr (ids, g') →
  ids = activeExcept owner n keep g ∧
  g' = put_authority (installations g) (retire_in ids (repositories g)) (unbind_in owner ids (bindings g)) g.
Proof. unfold deactivateMissing, deactivate_repositories, deactivate_bindings. intros H. tx_inv. done. Qed.
Lemma activeExcept_elem owner n keep g id : id ∈ activeExcept owner n keep g ↔
  ∃ r, repositories g !! id = Some r ∧ gr_owner r = owner ∧ gr_installation r = n ∧ gr_active r = true ∧ id ∉ keep.
Proof.
  unfold activeExcept. rewrite list_elem_of_fmap. setoid_rewrite list_elem_of_filter. setoid_rewrite elem_of_map_to_list'. split.
  - intros ([k r]&->&(?&?&?&?)&?). eauto 10.
  - intros (r&?&?&?&?&?). by exists (id, r).
Qed.

(** The installation of a completed setup. *)
Definition installation_written (id : Z) (owner : string) (account : Owner) (g g' : GHDB) : Prop := ∃ i types,
  g' = put_columns types (gh_meta g) (put_authority (<[id := i]> (installations g)) (repositories g) (bindings g) g) ∧
  authorized i = true ∧ gi_owner i = owner ∧ gi_account i = ow_AccountID account ∧
  (∀ old, installations g !! id = Some old → gi_owner old = owner ∧ gi_account old = ow_AccountID account) ∧
  (installations g !! id = None → ∀ n j, installations g !! n = Some j → gi_owner j = owner → gi_account j = ow_AccountID account → False).
Lemma upsert_installation_run id owner account g b g' : upsert_installation id owner account g = inr (b, g') →
  (b = true ∧ installation_written id owner account g g') ∨ (b = false ∧ g' = g).
Proof.
  unfold upsert_installation. cbv zeta. destruct (negb _); [done|]. destruct (installations g !! id) as [old|] eqn:Eo.
  - destruct (_ && _) eqn:Em; intros [= <- <-]; [left|by right]. bool_hyps. split; [done|]. eexists _, (gh_types g).
    split; [destruct g as [[] ? ? ? ? ? ? ? ? ? ?]; reflexivity|]. split_and!; simpl; try done; [|congruence]. intros x Hx. assert (x = old) as -> by congruence. done.
  - destruct (existsb _ _) eqn:Ex; [done|]. destruct (negb _); [done|]. intros [= <- <-]. left. split; [done|].
    eexists _, _. split; [reflexivity|]. split_and!; try done; [congruence|]. intros _ n j Hj Ho Ha. rewrite existsb_map_none in Ex.
    specialize (Ex n j Hj). simpl in Ex. by rewrite bool_decide_true, (proj2 (Z.eqb_eq _ _)) in Ex.
Qed.

(** Repositories brought to life one after the other. *)
Inductive revivals (owner : string) (n : Z) : list Z → GHDB → GHDB → Prop :=
  | revivals_nil g : revivals owner n [] g g
  | revivals_cons id ids row m g g' :
      gr_owner row = owner → gr_installation row = n → gr_active row = true →
      (∀ old, repositories g !! id = Some old → gr_owner old = owner ∧ gr_installation old = n) →
      revivals owner n ids (put_columns (gh_types g) (<[id := m]> (gh_meta g)) (put_authority (installations g) (<[id := row]> (repositories g)) (bindings g) g)) g' →
      revivals owner n (id :: ids) g g'.

Lemma upserts_run owner n account found g u g' :
  each (λ r, do! tx_guard (repositoryAcceptable account r) GDenied in let! ok := upsert_repository n owner r in tx_guard ok GDenied) found g = inr (u, g') →
  revivals owner n (rp_ID <$> found) g g' ∧ Forall (λ r, repositoryAcceptable account r = true) found.
Proof.
  revert g. induction found as [|r found IH]; intros g H; simpl in H; [tx_inv; split; [constructor|done]|].
  apply tx_bind_inv in H as (v&g1&Hr&H). apply tx_bind_inv in Hr as (v'&g0&[Hok ->]%tx_guard_inv&Hr).
  apply tx_bind_inv in Hr as (ok&g0&Hr&[-> ->]%tx_guard_inv). unfold upsert_repository in Hr. gh_inv.
  destruct (IH _ H) as [Hrev Hall]. split; [|by constructor]. simpl.
  destruct (repositories g !! rp_ID r) as [old|] eqn:Eo.
  - case_match eqn:Em; gh_inv. bool_hyps. match goal with H : write_repository _ _ _ _ = _ |- _ => apply write_repository_inv in H as [_ ->] end.
    eapply revivals_cons; [..|exact Hrev]; simpl; try done. intros x Hx. assert (x = old) as -> by congruence. done.
  - gh_inv. match goal with H : write_repository _ _ _ _ = _ |- _ => apply write_repository_inv in H as [_ ->] end.
    eapply revivals_cons; [..|exact Hrev]; simpl; try done. congruence.
Qed.
Lemma refreshes_run owner n account found g u g' :
  each (λ r, do! tx_guard (repositoryAcceptable account r) GDenied in refresh_repository n owner r) found g = inr (u, g') →
  ∃ ids, revivals owner n ids g g' ∧ (∀ id, id ∈ ids ↔ id ∈ rp_ID <$> found ∧ ∃ r, repositories g !! id = Some r ∧ gr_owner r = owner ∧ gr_installation r = n) ∧
    Forall (λ r, repositoryAcceptable account r = true) found.
Proof.
  revert g. induction found as [|r found IH]; intros g H; simpl in H.
  { tx_inv. exists []. split; [constructor|]. split; [|done]. intros id. split; [by intros ?%elem_of_nil|by intros [?%elem_of_nil _]]. }
  apply tx_bind_inv in H as (v&g1&Hr&H). apply tx_bind_inv in Hr as (v'&g0&[Hok ->]%tx_guard_inv&Hr).
  unfold refresh_repository in Hr. gh_inv. destruct (IH _ H) as (ids&Hrev&Hids&Hall).
  assert ((∃ old, repositories g !! rp_ID r = Some old ∧ gr_owner old = owner ∧ gr_installation old = n ∧
      ∃ m, g1 = put_columns (gh_types g) (<[rp_ID r := m]> (gh_meta g)) (put_authority (installations g) (<[rp_ID r := revive_repository old]> (repositories g)) (bindings g) g)) ∨
    (g1 = g ∧ ¬ ∃ old, repositories g !! rp_ID r = Some old ∧ gr_owner old = owner ∧ gr_installation old = n)) as [(old&Ho&Hoo&Hon&m&->)|[-> Hno]].
  { destruct (repositories g !! rp_ID r) as [old|] eqn:Eo; [|gh_inv; right; split; [done|by intros (?&?&?)]].
    case_match eqn:Em; bool_hyps.
    - apply write_repository_inv in Hr as [_ ->]. left. eauto 10.
    - gh_inv. right. split; [done|]. intros (x&[= <-]&Hx1&Hx2). rewrite bool_decide_true, (proj2 (Z.eqb_eq _ _)) in Em by done. done. }
  - exists (rp_ID r :: ids). split; [|split; [|by constructor]].
    + eapply revivals_cons; [..|exact Hrev]; simpl; try done. intros x Hx. assert (x = old) as -> by congruence. done.
    + intros id. simpl. rewrite !elem_of_cons, Hids. unfold repositories at 1. simpl. split.
      * intros [->|[Hin (x&[[<- <-]|[_ Hx]]%lookup_insert_Some&?&?)]]; eauto 10.
      * intros [[->|Hin] (x&Hx&?&?)]; [by left|]. destruct (decide (id = rp_ID r)) as [->|Hne]; [by left|]. right. split; [done|]. exists x.
        by rewrite lookup_insert_ne.
  - exists ids. split; [done|]. split; [|by constructor]. intros id. simpl. rewrite elem_of_cons, Hids. split; [by intros [? ?]; auto|].
    intros [[->|Hin] Hx]; [by destruct Hno|done].
Qed.

(** What a series of revivals leaves. *)
Lemma revivals_spec owner n ids g g' : revivals owner n ids g g' → ∃ rs meta,
  g' = put_columns (gh_types g) meta (put_authority (installations g) rs (bindings g) g) ∧
  (∀ id r', rs !! id = Some r' → (repositories g !! id = Some r' ∧ id ∉ ids) ∨ (id ∈ ids ∧ gr_owner r' = owner ∧ gr_installation r' = n ∧ gr_active r' = true)) ∧
  (∀ id, is_Some (repositories g !! id) ∨ id ∈ ids → is_Some (rs !! id)) ∧
  (∀ i bs, installations g !! n = Some i → gi_owner i = owner → authorized i = true → chain_ok (installations g) (repositories g) bs → chain_ok (installations g) rs bs).
Proof.
  induction 1 as [g|id ids row m g g' Ho Hn Ha Hold _ (rs&meta&->&H1&H2&H3)].
  - exists (repositories g), (gh_meta g). split; [by destruct g as [[] ? ? ? ? ? ? ? ? ? ?]|]. split_and!; try done.
    + intros id r' Hr. left. split; [done|]. by intros ?%elem_of_nil.
    + by intros id [?|?%elem_of_nil].
  - exists rs, meta. split; [reflexivity|]. split_and!.
    + intros k r' Hr. destruct (H1 k r' Hr) as [[Hk Hni]|(?&?&?&?)]; [|right; by rewrite elem_of_cons; auto].
      unfold repositories in Hk. simpl in Hk. apply lookup_insert_Some in Hk as [[<- <-]|[Hne Hk]]; [right; rewrite elem_of_cons; by auto|].
      left. split; [done|]. rewrite elem_of_cons. naive_solver.
    + intros k Hk. apply H2. unfold repositories. simpl. rewrite elem_of_cons in Hk. destruct (decide (id = k)) as [->|Hne]; [left; rewrite lookup_insert_eq; by eexists|].
      rewrite lookup_insert_ne by done. naive_solver.
    + intros i bs Hi Hio Hia Hc. apply H3 with i; [done..|]. unfold repositories. simpl. eapply chain_repository; [done|rewrite Hn; exact Hi|congruence|done|done|].
      intros old Hol. destruct (Hold old Hol). split; congruence.
Qed.

(** ** Runs of the administrator's calls *)

(** The authority tables; everything else of the state aside. *)
Definition sameChain (g g' : GHDB) : Prop :=
  installations g' = installations g ∧ repositories g' = repositories g ∧ bindings g' = bindings g.
#[global] Instance sameChain_pre : PreOrder sameChain.
Proof. split; [by intros g|]. unfold sameChain. intros x y z ? ?. destruct_and!. split_and!; congruence. Qed.

Lemma CompleteHandoff_run digest p ins found now g u g' : CompleteHandoff digest p ins found now g = inr (u, g') →
  ∃ h g1 rs meta,
    gh_handoffs g !! digest = Some h ∧ ho_consumed h = None ∧ now < ho_expires h ∧ ho_owner h = p_OwnerID p ∧ ho_user h = p_UserID p ∧
    ho_session h = p_SessionID p ∧ ho_revision h = int64 (p_AuthRevision p) ∧ ho_installation h = ins_ID ins ∧ ho_account h = ins_Account ins ∧
    adminLive p now (gh_auth g) = true ∧ wh_app_active (gh_web g) = true ∧ Forall (λ r, repositoryAcceptable (ow_AccountID (ins_Account ins)) r = true) found ∧
    installation_written (ins_ID ins) (p_OwnerID p) (ins_Account ins) g g1 ∧
    revivals (p_OwnerID p) (ins_ID ins) (rp_ID <$> found) g1 (put_columns (gh_types g1) meta (put_authority (installations g1) rs (bindings g1) g1)) ∧
    let g2 := put_columns (gh_types g1) meta (put_authority (installations g1) rs (bindings g1) g1) in
    let removed := activeExcept (p_OwnerID p) (ins_ID ins) (rp_ID <$> found) g2 in
    let g3 := put_authority (installations g2) (retire_in removed rs) (unbind_in (p_OwnerID p) removed (bindings g2)) g2 in
    insertGitHubAudit (auditID "handoff" digest) (ghAuditRow (p_OwnerID p) (p_UserID p) SetupCompleted (Some (ins_ID ins)) None None)
      (put_setup (gh_states g3) (<[digest := consume_handoff now h]> (gh_handoffs g3)) g3) = inr (u, g').
Proof.
  intros H. unfold CompleteHandoff in H. gh_inv. bool_hyps.
  match goal with H : gh_handoffs _ !! digest = Some ?x |- _ => rename H into Hh; rename x into h end.
  match goal with H : upsert_installation _ _ _ _ = _ |- _ => apply upsert_installation_run in H as [[_ Hins]|[E _]]; [|congruence] end.
  match goal with H : each _ _ _ = _ |- _ => apply upserts_run in H as [Hrev Hall] end.
  match goal with H : deactivateMissing _ _ _ _ = _ |- _ => apply deactivateMissing_run in H as [-> ->] end.
  pose proof (revivals_spec _ _ _ _ _ Hrev) as (rs&meta&E&_). subst.
  match goal with H : ho_owner h = _ |- _ => rename H into Ho end. match goal with H : ho_account h = _ |- _ => rename H into Hacc end.
  match goal with H : ho_user h = _ |- _ => rename H into Hus end.
  rewrite Ho, Hacc in *. exists h. eexists _, rs, meta. rewrite Hus in *. split_and!; try done. by destruct (ho_consumed h).
Qed.

Lemma BindRepository_run p input audit now g u g' : BindRepository p input audit now g = inr (u, g') →
  ∃ r i b g1, adminLive p now (gh_auth g) = true ∧ wh_app_active (gh_web g) = true ∧
    repositories g !! bi_RepositoryID input = Some r ∧ gr_owner r = p_OwnerID p ∧ gr_active r = true ∧
    installations g !! gr_installation r = Some i ∧ gi_owner i = p_OwnerID p ∧ authorized i = true ∧
    b = {| gb_repository := bi_RepositoryID input; gb_installation := gr_installation r; gb_active := true;
           gb_revision := match bindings g !! (p_OwnerID p, bi_ProjectID input) with Some old => gb_revision old + 1 | None => 1 end;
           gb_target := Some {| bt_ref := bi_Ref input; bt_environment := bi_EnvironmentID input; bt_server := bi_ServerID input |} |} ∧
    g1 = put_authority (installations g) (repositories g) (<[(p_OwnerID p, bi_ProjectID input) := b]> (bindings g)) g ∧
    insertGitHubAudit audit (ghAuditRow (p_OwnerID p) (p_UserID p) RepositoryBound (Some (gr_installation r)) (Some (bi_RepositoryID input))
      (Some (bi_ProjectID input))) g1 = inr (u, g').
Proof.
  intros H. unfold BindRepository in H. gh_inv. bool_hyps.
  match goal with H : upsert_binding _ _ _ _ _ _ = _ |- _ => rename H into Hb end. unfold upsert_binding in Hb. gh_inv. cbv zeta in Hb.
  destruct (negb _) in Hb; [done|]. destruct (existsb _ _) in Hb; [done|].
  match goal with H : repositories _ !! _ = Some ?x |- _ => rewrite H in Hb; rename x into r end. destruct (_ && _) in Hb; [|done]. injection Hb as <-.
  match goal with H : installations _ !! _ = Some ?x |- _ => rename x into i end.
  assert (authorized i = true) as Hau. { unfold authorized. match goal with H : gi_active i = true |- _ => rewrite H end. simpl. by apply negb_true_iff. }
  eexists r, i, _, _. split_and!; try done. congruence.
Qed.

Lemma invalidate_run owner n g ids g' : invalidatedCheckoutIDs owner n g = inr (ids, g') →
  g' = put_reservations (map_imap (λ _ r, Some (if bool_decide (rv_owner r = owner) && (rv_installation r =? n) && liveReservation (rv_state r)
                                            then move_reservation RInvalidated r else r)) (gh_reservations g)) g.
Proof. unfold invalidatedCheckoutIDs, update_reservations. by intros [= _ <-]. Qed.

Definition invalidateAll (owner : string) (n : Z) (rv : gmap string ReservationRow) : gmap string ReservationRow :=
  map_imap (λ _ r, Some (if bool_decide (rv_owner r = owner) && (rv_installation r =? n) && liveReservation (rv_state r)
                         then move_reservation RInvalidated r else r)) rv.

(** Statements that only add to the audit trail. *)
Definition onlyAudit (g g' : GHDB) : Prop := ∃ a n, g' = put_audit a n g.
Lemma put_audit_same g : put_audit (gh_audit g) (gh_admission g) g = g.
Proof. by destruct g. Qed.
#[global] Instance onlyAudit_pre : PreOrder onlyAudit.
Proof. split; [intros g; exists (gh_audit g), (gh_admission g); by rewrite put_audit_same|]. intros x y z (?&?&->) (?&?&->). eexists _, _. reflexivity. Qed.
Lemma audit_only id row : tx_rel onlyAudit (insertGitHubAudit id row).
Proof. intros g u g' (_&->&_)%insertGitHubAudit_inv. eexists _, _. reflexivity. Qed.
Lemma auditDisabled_only p n audit ids : tx_rel onlyAudit (auditDisabled p n audit ids).
Proof.
  unfold auditDisabled. induction ids as [|id ids IH]; simpl; [by intros g u g' [_ ->]%tx_ret_inv|]. apply tx_rel_bind; [apply _| |done]. intros. apply audit_only.
Qed.

Lemma DisableInstallation_run p n audit now g ids g' : DisableInstallation p n audit now g = inr (ids, g') →
  adminLive p now (gh_auth g) = true ∧ ∃ i, installations g !! n = Some i ∧ gi_owner i = p_OwnerID p ∧
  ((gi_active i = false ∧ ids = [] ∧ g' = g) ∨
   gi_active i = true ∧
   let g1 := put_authority (<[n := suspend i]> (installations g)) (repositories g) (bindings g) g in
   let removed := activeExcept (p_OwnerID p) n [] g1 in
   onlyAudit (put_reservations (invalidateAll (p_OwnerID p) n (gh_reservations g))
                (put_authority (<[n := suspend i]> (installations g)) (retire_in removed (repositories g)) (unbind_in (p_OwnerID p) removed (bindings g)) g)) g').
Proof.
  intros H. unfold DisableInstallation in H. gh_inv. bool_hyps. split; [done|].
  match goal with H : disable_installation _ _ _ = _ |- _ => rename H into Hd end. unfold disable_installation in Hd.
  destruct (installations _ !! n) as [i|] eqn:Ei in Hd.
  - destruct (bool_decide _ && _) eqn:Em in Hd; injection Hd as <- <-; simpl in H.
    + bool_hyps. exists i. split_and!; [done..|]. right. split; [done|]. gh_inv.
      match goal with H : deactivateMissing _ _ _ _ = _ |- _ => apply deactivateMissing_run in H as [-> ->] end.
      match goal with H : invalidatedCheckoutIDs _ _ _ = _ |- _ => apply invalidate_run in H as -> end.
      match goal with H : insertGitHubAudit _ _ _ = _ |- _ => apply audit_only in H; rename H into Ha end.
      match goal with H : auditDisabled _ _ _ _ _ = _ |- _ => apply auditDisabled_only in H; rename H into Hb end.
      etrans; [|exact Hb]. exact Ha.
    + gh_inv. bool_hyps. match goal with H : installations g !! n = Some ?x |- _ => exists x end. split_and!; [done..|]. left. split_and!; [|done..].
      match goal with |- gi_active ?x = _ => assert (x = i) as -> by congruence end. rewrite bool_decide_true in Em by congruence. done.
  - injection Hd as <- <-. simpl in H. gh_inv. congruence.
Qed.

Lemma ReconcileInstallation_run p ins found audit now g ids g' : ReconcileInstallation p ins found audit now g = inr (ids, g') →
  ∃ i rids rs meta, adminLive p now (gh_auth g) = true ∧ installations g !! ins_ID ins = Some i ∧ gi_owner i = p_OwnerID p ∧ authorized i = true ∧
    gi_account i = ow_AccountID (ins_Account ins) ∧
    revivals (p_OwnerID p) (ins_ID ins) rids g (put_columns (gh_types g) meta (put_authority (installations g) rs (bindings g) g)) ∧
    (∀ id, id ∈ rids ↔ id ∈ rp_ID <$> found ∧ ∃ r, repositories g !! id = Some r ∧ gr_owner r = p_OwnerID p ∧ gr_installation r = ins_ID ins) ∧
    let g2 := put_columns (gh_types g) meta (put_authority (installations g) rs (bindings g) g) in
    let removed := activeExcept (p_OwnerID p) (ins_ID ins) (rp_ID <$> found) g2 in
    onlyAudit (put_reservations (invalidateAll (p_OwnerID p) (ins_ID ins) (gh_reservations g))
                 (put_authority (installations g) (retire_in removed rs) (unbind_in (p_OwnerID p) removed (bindings g)) g2)) g'.
Proof.
  intros H. unfold ReconcileInstallation in H. gh_inv. bool_hyps.
  match goal with H : each _ _ _ = _ |- _ => apply refreshes_run in H as (rids&Hrev&Hrids&_) end.
  match goal with H : deactivateMissing _ _ _ _ = _ |- _ => apply deactivateMissing_run in H as [-> ->] end.
  match goal with H : invalidatedCheckoutIDs _ _ _ = _ |- _ => apply invalidate_run in H as -> end.
  match goal with H : auditDisabled _ _ _ _ _ = _ |- _ => apply auditDisabled_only in H; rename H into Hb end.
  match goal with H : installations _ !! _ = Some ?x |- _ => rename x into i end.
  pose proof (revivals_spec _ _ _ _ _ Hrev) as (rs&meta&E&_). subst.
  assert (authorized i = true) as Hau. { unfold authorized. match goal with H : gi_active i = true |- _ => rewrite H end. simpl. by apply negb_true_iff. }
  exists i, rids, rs, meta. split_and!; try done.
Qed.
