(* ===== verification/GitHubInv.v ===== *)
(** * The authority chain holds of every database

    Calls that do not touch the authority tables, what each of the others
    leaves of the chain, and the chain of every reachable database. *)
From S2P Require Import Prelude GoStd Token Queue Route Schema Evidence LeaseCore Lease Enqueue LeaseSystem CallsKeep Webhooks WebhookSteps WebhookSystem Password Hmac AuthTokens AuthStore Throttle Sessions AuthInv AuthSystem GitHubApp GitHubStore GitHubRepo GitHubChain GitHubSteps GitHubSystem GitHubRuns.
From stdpp Require Import relations.
#[local] Open Scope Z_scope.

(** ** Calls beside the authority tables *)

Lemma same_setup_write f h : tx_rel sameChain (tx_write (E := GHErr) (λ g, put_setup (f g) (h g) g)).
Proof. by apply tx_rel_write. Qed.
Lemma same_texts l : tx_rel sameChain (texts l).
Proof. unfold texts. apply tx_rel_guard. apply _. Qed.
Lemma same_delete_states f : tx_rel sameChain (delete_states f).
Proof. intros g u g'. unfold delete_states. case_match; [done|]. by intros [= _ <-]. Qed.
Lemma same_insert_state d s : tx_rel sameChain (insert_state d s).
Proof. intros g u g'. unfold insert_state. do 2 (case_match; [done|]). by intros [= _ <-]. Qed.
Lemma same_insert_handoff d s : tx_rel sameChain (insert_handoff d s).
Proof. intros g u g'. unfold insert_handoff. do 2 (case_match; [done|]). by intros [= _ <-]. Qed.
Lemma same_write_state d s : tx_rel sameChain (write_state d s).
Proof. apply same_setup_write. Qed.
Lemma same_audit id row : tx_rel sameChain (insertGitHubAudit id row).
Proof. by intros g u g' (_&->&_)%insertGitHubAudit_inv. Qed.
Lemma same_update_reservations wh f : tx_rel sameChain (update_reservations wh f).
Proof. unfold update_reservations. by intros g u g' [= _ <-]. Qed.
Lemma same_insert_reservation id r : tx_rel sameChain (insert_reservation id r).
Proof. intros g u g'. unfold insert_reservation. do 2 (case_match; [done|]). by intros [= _ <-]. Qed.
Lemma same_denied {A} (m : GHTx A) : tx_rel sameChain m → tx_rel sameChain (λ g, match m g with inl _ => inl GDenied | r => r end).
Proof. intros Hm g x g' H. destruct (m g) as [|[]] eqn:E; [done|]. injection H as <- <-. by eapply Hm. Qed.
#[export] Hint Resolve same_setup_write same_texts same_delete_states same_insert_state same_insert_handoff same_write_state same_audit
  same_update_reservations same_insert_reservation same_denied : txrel.
Lemma same_active : tx_rel sameChain activeRegistration.
Proof. unfold activeRegistration. tx_rel. Qed.
Lemma same_lock p now : tx_rel sameChain (lockAdministrator p now).
Proof. unfold lockAdministrator. tx_rel. Qed.
Lemma same_prune now : tx_rel sameChain (pruneSetup now).
Proof. unfold pruneSetup. tx_rel. Qed.
Lemma same_revalidate b : tx_rel sameChain (revalidateTx b).
Proof. unfold revalidateTx. tx_rel. Qed.
#[export] Hint Resolve same_active same_lock same_prune same_revalidate : txrel.

(** The calls that write installations, repositories or bindings. *)
Definition writesChain (c : GHCall) : bool :=
  match c with GComplete _ _ _ _ _ | GBind _ _ _ _ | GDisable _ _ _ _ | GReconcile _ _ _ _ _ | GWeb _ => true | _ => false end.
(** ** The chain after each write *)

Definition chainInv (g : GHDB) : Prop := chain_ok (installations g) (repositories g) (bindings g).
Lemma chain_same g g' : sameChain g g' → chainInv g → chainInv g'.
Proof. intros (E1&E2&E3). unfold chainInv. by rewrite E1, E2, E3. Qed.
Lemma only_audit_same g g' : onlyAudit g g' → sameChain g g'.
Proof. by intros (?&?&->). Qed.

Lemma chain_missing owner n keep g : chainInv g → let removed := activeExcept owner n keep g in
  chain_ok (installations g) (retire_in removed (repositories g)) (unbind_in owner removed (bindings g)).
Proof.
  intros [H1 H2 H3] removed. apply chain_deactivate; [|done|done|].
  - intros id r Hr. destruct (H1 id r Hr) as (i&?&?&?). exists i. split_and!; auto.
  - intros id r (x&Hx&?&_)%activeExcept_elem Hr. congruence.
Qed.
Lemma chain_written id owner account g g' : installation_written id owner account g g' → chainInv g →
  chainInv g' ∧ ∃ i, installations g' !! id = Some i ∧ gi_owner i = owner ∧ authorized i = true.
Proof.
  intros (i&types&->&Ha&Ho&Hacc&Hold&Hun) Hc. split; [|exists i; unfold installations; simpl; by rewrite lookup_insert_eq].
  apply chain_installation; [done|done|intros old Hx; destruct (Hold old Hx); split; congruence|].
  intros m j Hj Hne Eo Ea. destruct (installations g !! id) as [old|] eqn:E.
  - destruct (Hold old eq_refl) as [Oo Oa]. apply Hne. eapply (co_account _ _ _ Hc); [done..| |]; congruence.
  - eapply Hun; [done..| |]; congruence.
Qed.
Lemma chain_complete digest p ins found now g u g' : CompleteHandoff digest p ins found now g = inr (u, g') → chainInv g → chainInv g'.
Proof.
  intros (h&g1&rs&meta&_&_&_&_&_&_&_&_&_&_&_&_&Hi&Hrev&Ha)%CompleteHandoff_run Hc. cbv zeta in Ha.
  destruct (chain_written _ _ _ _ _ Hi Hc) as [Hc1 (i&Hi1&Ho&Hau)].
  destruct (revivals_spec _ _ _ _ _ Hrev) as (rs'&meta'&E&_&_&H3). apply (f_equal repositories) in E. unfold repositories in E. simpl in E. subst rs'.
  apply insertGitHubAudit_inv in Ha as (_&->&_).
  apply (chain_missing (p_OwnerID p) (ins_ID ins) (rp_ID <$> found)
    (put_columns (gh_types g1) meta (put_authority (installations g1) rs (bindings g1) g1))). by eapply H3.
Qed.
Lemma chain_bind p input audit now g u g' : BindRepository p input audit now g = inr (u, g') → chainInv g → chainInv g'.
Proof.
  intros (r&i&b&g1&_&_&Hr&Ho&Ha&_&_&_&Hb&->&(_&->&_)%insertGitHubAudit_inv)%BindRepository_run Hc.
  eapply (chain_binding _ _ _ _ b r Hc); subst b; simpl; done.
Qed.
Lemma chain_disable p n audit now g ids g' : DisableInstallation p n audit now g = inr (ids, g') → chainInv g → chainInv g'.
Proof.
  intros (_&i&Hi&Ho&[(_&_&->)|[Hact Hg]])%DisableInstallation_run Hc; [done|]. cbv zeta in Hg.
  eapply chain_same; [by eapply only_audit_same|]. destruct Hc as [H1 H2 H3].
  set (removed := activeExcept _ _ _ _). change (chain_ok (<[n := suspend i]> (installations g)) (retire_in removed (repositories g))
    (unbind_in (p_OwnerID p) removed (bindings g))). apply chain_deactivate; [|done|..].
  - intros id r Hr. destruct (H1 id r Hr) as (j&Hj&Hjo&Hja). destruct (decide (gr_installation r = n)) as [En|Hne].
    + exists (suspend i). rewrite En, lookup_insert_eq. assert (j = i) as -> by congruence. split_and!; [done|done|]. intros Hra Hni. destruct Hni.
      apply activeExcept_elem. exists r. split_and!; [done|congruence|done|done|by intros ?%elem_of_nil].
    + exists j. rewrite lookup_insert_ne by done. split_and!; auto.
  - intros x y a b [[<- <-]|[_ Hx]]%lookup_insert_Some [[<- <-]|[_ Hy]]%lookup_insert_Some; simpl; try done; intros ? ?; eapply H3; eauto.
  - intros id r (x&Hx&?&_)%activeExcept_elem Hr. unfold repositories in Hx. simpl in Hx. unfold repositories in Hr. congruence.
Qed.
Lemma chain_reconcile p ins found audit now g ids g' : ReconcileInstallation p ins found audit now g = inr (ids, g') → chainInv g → chainInv g'.
Proof.
  intros (i&rids&rs&meta&_&Hi&Ho&Hau&_&Hrev&_&Hg)%ReconcileInstallation_run Hc. cbv zeta in Hg. eapply chain_same; [by eapply only_audit_same|].
  destruct (revivals_spec _ _ _ _ _ Hrev) as (rs'&meta'&E&_&_&H3). apply (f_equal repositories) in E. unfold repositories in E. simpl in E. subst rs'.
  apply (chain_missing (p_OwnerID p) (ins_ID ins) (rp_ID <$> found)
    (put_columns (gh_types g) meta (put_authority (installations g) rs (bindings g) g))). by eapply H3.
Qed.

Section inv.
Context (errorText : Err → string).
Notation ghExec := (ghExec errorText).
Lemma other_calls_same c g : writesChain c = false → sameChain g (ghExec c g).
Proof.
  intros Hc. destruct c; try done; simpl; apply (run_moves sameChain).
  - unfold EnsureAppRegistration. tx_rel. by apply tx_rel_write.
  - unfold CreateSetupState. tx_rel.
  - unfold PendingInstallation. tx_rel.
  - unfold BeginCallback. tx_rel.
  - unfold CancelCallback. tx_rel.
  - unfold ReserveCallback. tx_rel.
  - unfold ReserveCheckout. tx_rel.
  - unfold BeginMintAttempt. tx_rel.
  - unfold ActivateMintAttempt. tx_rel.
  - unfold StartCheckout. tx_rel.
  - unfold CloseCheckout. tx_rel.
Qed.

Lemma chain_call c g : chainInv g → chainInv (ghExec c g).
Proof.
  intros Hc. destruct (writesChain c) eqn:Ew; [|by eapply chain_same, Hc; apply other_calls_same].
  assert (∀ A (m : GHTx A), (∀ x g', m g = inr (x, g') → chainInv g → chainInv g') → chainInv (run_tx m g).2) as Hrun.
  { intros A m Hm. unfold run_tx. destruct (m g) as [|[]] eqn:E; simpl; [done|by eapply Hm]. }
  destruct c; try done; simpl; try apply Hrun.
  - intros x g'. apply chain_complete.
  - intros x g'. apply chain_bind.
  - intros x g'. apply chain_disable.
  - intros x g'. apply chain_reconcile.
  - by apply (wm_chain _ _ (wexec_moves errorText _ _)).
Qed.
Lemma gh_reachable_chain g : gh_reachable errorText g → chainInv g.
Proof.
  induction 1 as [g Hg|g c _ IH]; [|by apply chain_call]. destruct Hg as (_&_&E1&E2&E3&_). unfold chainInv. rewrite E1, E2, E3. split.
  - by intros id r Hr%lookup_empty_Some.
  - by intros k b Hb%lookup_empty_Some.
  - by intros n n' i i' Hi%lookup_empty_Some.
Qed.
Lemma gh_reachable_live g : gh_reachable errorText g → live_unique (gh_reservations g).
Proof.
  induction 1 as [g Hg|g c _ IH]; [|by apply (gm_live _ _ (exec_run errorText c g))].
  destruct Hg as (_&_&_&_&_&_&_&_&_&_&_&E&_). rewrite E. by intros id id' r r' Hr%lookup_empty_Some.
Qed.
End inv.

(** ** Captured bindings *)

Lemma chainHolds_iff b g : chainHolds b g = true ↔ ∃ gb gr gi,
  authorityChain (cb_OwnerID b) (cb_ProjectID b) g = Some (gb, gr, gi) ∧ gb_installation gb = cb_InstallationID b ∧ gb_repository gb = cb_RepositoryID b ∧
  gb_revision gb = cb_BindingRevision b ∧ gr_revision gr = cb_RepositoryRevision b ∧ gi_revision gi = cb_InstallationRevision b.
Proof.
  unfold chainHolds. destruct (authorityChain _ _ g) as [[[gb gr] gi]|]; [|split; [done|by intros (?&?&?&?&_)]]. rewrite !andb_true_iff, !Z.eqb_eq.
  split; [intros; destruct_and!; eauto 10|]. intros (?&?&?&[= <- <- <-]&?). destruct_and!. by split_and!.
Qed.
Lemma authorityChain_iff owner project g gb gr gi : authorityChain owner project g = Some (gb, gr, gi) ↔
  bindings g !! (owner, project) = Some gb ∧ repositories g !! gb_repository gb = Some gr ∧ installations g !! gb_installation gb = Some gi ∧
  gr_owner gr = owner ∧ gi_owner gi = owner ∧ wh_app_active (gh_web g) = true ∧ gb_active gb = true ∧ gr_active gr = true ∧ authorized gi = true.
Proof.
  unfold authorityChain, authorized. split.
  - intros (b&Hb&(r&Hr&(i&Hi&H)%bind_Some)%bind_Some)%bind_Some. case_match eqn:E; [|done]. injection H as <- <- <-. bool_hyps. split_and!; try done.
    apply andb_true_intro. split; [done|by apply negb_true_iff].
  - intros (Hb&Hr&Hi&Ho&Hio&Ha&Hba&Hra&[Hga Hs]%andb_true_iff). rewrite Hb. simpl. rewrite Hr. simpl. rewrite Hi. simpl.
    by rewrite !bool_decide_true, Ha, Hba, Hra, Hga, Hs.
Qed.

(** Between two states with the same revisions nothing moved. *)
Lemma bind_moves_between x y z : bind_moves x y → bind_moves y z → gb_revision z = gb_revision x → y = x.
Proof. intros [->|?] [->|?] E; (done || lia). Qed.
Lemma repo_moves_between x y z : repo_moves x y → repo_moves y z → gr_revision z = gr_revision x → y = x.
Proof. intros (_&_&_&[->|?]) (_&_&_&[->|?]) E; (done || lia). Qed.
Lemma inst_moves_between x y z : authorized x = true → inst_moves x y → inst_moves y z → gi_revision z = gi_revision x → y = x.
Proof. intros Ha (_&_&[->|[?|[? ?]]]) (_&_&[->|[?|[? ?]]]) E; first [done|congruence|lia]. Qed.

Lemma chain_between b g1 g2 g3 : gh_run g1 g2 → gh_run g2 g3 → chainHolds b g1 = true → chainHolds b g3 = true →
  chainHolds b g2 = true ∧ snapshotOfChain (cb_OwnerID b) (cb_ProjectID b) g2 = snapshotOfChain (cb_OwnerID b) (cb_ProjectID b) g1.
Proof.
  intros H12 H23 (gb&gr&gi&Hc1&E1&E2&E3&E4&E5)%chainHolds_iff (gb3&gr3&gi3&Hc3&F1&F2&F3&F4&F5)%chainHolds_iff.
  apply authorityChain_iff in Hc1 as (Hb&Hr&Hi&Ho&Hio&Ha&Hba&Hra&Hau). apply authorityChain_iff in Hc3 as (Hb3&Hr3&Hi3&_).
  destruct (gm_bind _ _ H12 _ _ Hb) as (b2&Hb2&Mb). destruct (gm_bind _ _ H23 _ _ Hb2) as (b3&Hb3'&Mb').
  assert (b2 = gb) as -> by (eapply bind_moves_between; [done..|]; congruence).
  destruct (gm_inst _ _ H12 _ _ Hi) as (i2&Hi2&Mi). destruct (gm_inst _ _ H23 _ _ Hi2) as (i3&Hi3'&Mi').
  assert (i2 = gi) as -> by (eapply inst_moves_between; [done..|]; congruence).
  destruct (gm_repo _ _ H12 (gb_repository gb) (gr, gh_meta g1 !! gb_repository gb)) as ([r2 m2]&Hr2&[Mr Er]); [unfold repo_row; by rewrite Hr|].
  destruct (gm_repo _ _ H23 _ _ Hr2) as ([r3 m3]&Hr3'&[Mr' _]). unfold repo_row in Hr2, Hr3'. simpl in *.
  destruct (repositories g2 !! gb_repository gb) as [r2'|] eqn:Hr2'; [|done]. destruct (repositories g3 !! gb_repository gb) as [r3'|] eqn:Hr3''; [|done].
  simplify_eq/=. assert (r2 = gr) as -> by (eapply repo_moves_between; [done..|]; congruence). specialize (Er eq_refl).
  assert (authorityChain (cb_OwnerID b) (cb_ProjectID b) g1 = Some (gb, gr, gi)) as Hc1 by (apply authorityChain_iff; by split_and!).
  assert (authorityChain (cb_OwnerID b) (cb_ProjectID b) g2 = Some (gb, gr, gi)) as Hc2.
  { apply authorityChain_iff. split_and!; try done. by apply (gm_app _ _ H12). }
  split; [apply chainHolds_iff; eauto 10|]. unfold snapshotOfChain. rewrite Hc1, Hc2. simpl. by rewrite Er.
Qed.

(** ** What comes alive *)

Lemma retire_alive ids rs id r : retire_in ids rs !! id = Some r → gr_active r = true → rs !! id = Some r.
Proof. intros (x&Hx&->)%retire_in_lookup. by case_bool_decide. Qed.
Lemma unbind_alive owner ids bs k b : unbind_in owner ids bs !! k = Some b → gb_active b = true → bs !! k = Some b.
Proof. intros (x&Hx&->)%unbind_in_lookup. by destruct (_ && _ && _). Qed.
Lemma revived_alive owner n ids g rs meta id r : revivals owner n ids g (put_columns (gh_types g) meta (put_authority (installations g) rs (bindings g) g)) →
  rs !! id = Some r → repositories g !! id = Some r ∨ id ∈ ids ∧ gr_owner r = owner ∧ gr_installation r = n.
Proof.
  intros Hrev Hr. destruct (revivals_spec _ _ _ _ _ Hrev) as (rs'&meta'&E&H1&_). apply (f_equal repositories) in E. unfold repositories in E. simpl in E. subst rs'.
  destruct (H1 id r Hr) as [[? _]|(?&?&?&_)]; auto.
Qed.
Lemma complete_alive digest p ins found now g u g' : CompleteHandoff digest p ins found now g = inr (u, g') →
  (∀ n i, installations g' !! n = Some i → installations g !! n = Some i ∨ n = ins_ID ins) ∧
  (∀ id r, repositories g' !! id = Some r → gr_active r = true →
     repositories g !! id = Some r ∨ id ∈ rp_ID <$> found ∧ gr_owner r = p_OwnerID p ∧ gr_installation r = ins_ID ins) ∧
  (∀ k b, bindings g' !! k = Some b → gb_active b = true → bindings g !! k = Some b).
Proof.
  intros (h&g1&rs&meta&_&_&_&_&_&_&_&_&_&_&_&_&(i&types&->&_)&Hrev&Ha)%CompleteHandoff_run. cbv zeta in Ha.
  apply insertGitHubAudit_inv in Ha as (_&->&_). split_and!.
  - intros n j Hj. change (<[ins_ID ins := i]> (installations g) !! n = Some j) in Hj. apply lookup_insert_Some in Hj as [[<- _]|[_ Hj]]; auto.
  - intros id r Hr Hact. eapply retire_alive in Hr; [|done]. eapply revived_alive in Hr; [|exact Hrev]. exact Hr.
  - intros k b Hb Hact. eapply unbind_alive in Hb; [|done]. exact Hb.
Qed.
Lemma disable_alive p n audit now g ids g' : DisableInstallation p n audit now g = inr (ids, g') →
  (∀ m i, installations g' !! m = Some i → authorized i = true → installations g !! m = Some i) ∧
  (∀ id r, repositories g' !! id = Some r → gr_active r = true → repositories g !! id = Some r) ∧
  (∀ k b, bindings g' !! k = Some b → gb_active b = true → bindings g !! k = Some b).
Proof.
  intros (_&i&Hi&Ho&[(_&_&->)|[Hact Hg]])%DisableInstallation_run; [done|]. cbv zeta in Hg. apply only_audit_same in Hg as (E1&E2&E3). rewrite E1, E2, E3. split_and!.
  - intros m j Hj. change (<[n := suspend i]> (installations g) !! m = Some j) in Hj. by apply lookup_insert_Some in Hj as [[<- <-]|[_ Hj]].
  - intros id r. apply retire_alive.
  - intros k b. apply unbind_alive.
Qed.
Lemma reconcile_alive p ins found audit now g ids g' : ReconcileInstallation p ins found audit now g = inr (ids, g') →
  installations g' = installations g ∧
  (∀ id r, repositories g' !! id = Some r → gr_active r = true →
     repositories g !! id = Some r ∨ id ∈ rp_ID <$> found ∧ gr_owner r = p_OwnerID p ∧ gr_installation r = ins_ID ins) ∧
  (∀ k b, bindings g' !! k = Some b → gb_active b = true → bindings g !! k = Some b).
Proof.
  intros (i&rids&rs&meta&_&Hi&Ho&Hau&_&Hrev&Hrids&Hg)%ReconcileInstallation_run. cbv zeta in Hg. apply only_audit_same in Hg as (E1&E2&E3). rewrite E1, E2, E3.
  split_and!; [done|..].
  - intros id r Hr Hact. eapply retire_alive in Hr; [|done]. eapply revived_alive in Hr as [?|(Hin&?&?)]; [by left| |exact Hrev]. right. by apply Hrids in Hin as [? _].
  - intros k b. apply unbind_alive.
Qed.
