(* ===== verification/GitHubSetup.v ===== *)
(** * Setup states and handoffs

    Every setup state was started by its administrator, every handoff comes
    from a consumed state of the same session; a state that was used and a
    handoff that was completed never work again, pruned or not, because the
    audit trail keeps their names. *)
From S2P Require Import Prelude GoStd Token Queue Route Schema Evidence LeaseCore Lease Enqueue LeaseSystem CallsKeep Webhooks WebhookSteps WebhookSystem Password Hmac AuthTokens AuthStore Throttle Sessions AuthInv AuthSystem GitHubApp GitHubStore GitHubRepo GitHubChain GitHubSteps GitHubSystem GitHubRuns GitHubInv.
From stdpp Require Import relations.
#[local] Open Scope Z_scope.

Definition startedRow (s : SetupRow) : GHAuditRow := ghAuditRow (ss_owner s) (ss_user s) SetupStarted None None None.
Definition handoff_of (s : SetupRow) (h : HandoffRow) : Prop :=
  ho_owner h = ss_owner s ∧ ho_user h = ss_user s ∧ ho_session h = ss_session s ∧ ho_revision h = ss_revision s ∧ is_Some (ss_consumed s).
Record setup_ok (g : GHDB) : Prop := {
  so_started : ∀ d s, gh_states g !! d = Some s → gh_audit g !! auditID "setup" d = Some (startedRow s);
  so_handoff : ∀ d h, gh_handoffs g !! d = Some h → ∃ s, gh_states g !! ho_state h = Some s ∧ handoff_of s h;
}.
(** The state [d] was consumed and is not to be had again. *)
Definition state_used (d : string) (g : GHDB) : Prop :=
  is_Some (gh_audit g !! auditID "setup" d) ∧ ∀ s, gh_states g !! d = Some s → is_Some (ss_consumed s).

(** ** Calls beside the setup tables *)

Definition sameSetup (g g' : GHDB) : Prop := gh_states g' = gh_states g ∧ gh_handoffs g' = gh_handoffs g.
#[global] Instance sameSetup_pre : PreOrder sameSetup.
Proof. split; [by intros g|]. unfold sameSetup. intros x y z [? ?] [? ?]. split; congruence. Qed.
Lemma setup_update_reservations wh f : tx_rel sameSetup (update_reservations wh f).
Proof. unfold update_reservations. by intros g u g' [= _ <-]. Qed.
Lemma setup_insert_reservation id r : tx_rel sameSetup (insert_reservation id r).
Proof. intros g u g'. unfold insert_reservation. do 2 (case_match; [done|]). by intros [= _ <-]. Qed.
Lemma setup_denied {A} (m : GHTx A) : tx_rel sameSetup m → tx_rel sameSetup (λ g, match m g with inl _ => inl GDenied | r => r end).
Proof. intros Hm g x g' H. destruct (m g) as [|[]] eqn:E; [done|]. injection H as <- <-. by eapply Hm. Qed.
Lemma setup_revalidate b : tx_rel sameSetup (revalidateTx b).
Proof. unfold revalidateTx. tx_rel. Qed.
#[export] Hint Resolve setup_update_reservations setup_insert_reservation setup_denied setup_revalidate : txrel.
Lemma setup_only_audit g g' : onlyAudit g g' → sameSetup g g'.
Proof. by intros (?&?&->). Qed.

Definition writesSetup (c : GHCall) : bool :=
  match c with
  | GCreateState _ _ _ | GBeginCallback _ _ | GCancelCallback _ | GReserveCallback _ _ _ _ | GComplete _ _ _ _ _ => true
  | _ => false
  end.
Lemma other_calls_setup errorText c g : writesSetup c = false → sameSetup g (ghExec errorText c g).
Proof.
  intros Hc. destruct c; try done; simpl; apply (run_moves sameSetup).
  - unfold EnsureAppRegistration. tx_rel. by apply tx_rel_write.
  - unfold PendingInstallation. tx_rel.
  - intros x u y (r&j&b&g1&_&_&_&_&_&_&_&_&_&->&(_&->&_)%insertGitHubAudit_inv)%BindRepository_run. done.
  - intros x u y (_&j&_&_&[(_&_&->)|[_ H]])%DisableInstallation_run; [done|]. cbv zeta in H. by apply setup_only_audit in H.
  - intros x u y (j&rids&rs&meta&_&_&_&_&_&_&_&H)%ReconcileInstallation_run. cbv zeta in H. by apply setup_only_audit in H.
  - unfold ReserveCheckout. tx_rel.
  - unfold BeginMintAttempt. tx_rel.
  - unfold ActivateMintAttempt. tx_rel.
  - unfold StartCheckout. tx_rel.
  - unfold CloseCheckout. tx_rel.
Qed.
Lemma setup_ok_same g g' : sameSetup g g' → gh_audit g ⊆ gh_audit g' → setup_ok g → setup_ok g'.
Proof. intros [E1 E2] Ha [H1 H2]. split; rewrite E1, ?E2; [|done]. intros d s Hs. eapply lookup_weaken; [by apply H1|done]. Qed.
Lemma state_used_same d g g' : sameSetup g g' → gh_audit g ⊆ gh_audit g' → state_used d g → state_used d g'.
Proof. intros [E1 _] Ha [[row H1] H2]. split; [exists row; by eapply lookup_weaken|by rewrite E1]. Qed.

(** ** The setup calls *)

Lemma pruneSetup_run now g u g' : pruneSetup now g = inr (u, g') →
  ∃ hs, hs = filter (λ kv, match gh_states g !! ho_state kv.2 with Some s => staleState now s | None => false end = false) (gh_handoffs g) ∧
    g' = put_setup (filter (λ kv, staleState now kv.2 = false) (gh_states g)) hs g.
Proof. unfold pruneSetup, delete_states. intros H. gh_inv. case_match; [done|]. injection H as <-. eexists. split; [reflexivity|]. done. Qed.
Lemma delete_states_run f g u g' : delete_states f g = inr (u, g') →
  (∀ d h s, gh_handoffs g !! d = Some h → gh_states g !! ho_state h = Some s → f (ho_state h) s = false) ∧
  g' = put_setup (filter (λ kv, f kv.1 kv.2 = false) (gh_states g)) (gh_handoffs g) g.
Proof.
  unfold delete_states. destruct (existsb _ _) eqn:E; [done|]. intros [= _ <-]. split; [|done]. intros d h s Hd Hs. rewrite existsb_map_none in E.
  specialize (E d h Hd). simpl in E. by rewrite Hs in E.
Qed.
Lemma CreateSetupState_run digest p now g u g' : CreateSetupState digest p now g = inr (u, g') →
  ∃ ss hs row, (∀ d s, ss !! d = Some s → gh_states g !! d = Some s) ∧
    (∀ d h, hs !! d = Some h → gh_handoffs g !! d = Some h ∧ ∀ s, gh_states g !! ho_state h = Some s → ss !! ho_state h = Some s) ∧
    ss !! digest = None ∧ gh_audit g !! auditID "setup" digest = None ∧ adminLive p now (gh_auth g) = true ∧
    row = {| ss_owner := p_OwnerID p; ss_user := p_UserID p; ss_session := p_SessionID p; ss_revision := int64 (p_AuthRevision p);
             ss_expires := now + tenMinutes; ss_consumed := None; ss_recoverable := None |} ∧
    g' = put_audit (<[auditID "setup" digest := startedRow row]> (gh_audit g)) (<[p_OwnerID p := eventCount (p_OwnerID p) g + 1]> (gh_admission g))
           (put_setup (<[digest := row]> ss) hs g).
Proof.
  intros H. unfold CreateSetupState in H. gh_inv.
  match goal with H : pruneSetup _ _ = _ |- _ => apply pruneSetup_run in H as (hs&Ehs&->) end.
  match goal with H : delete_states _ _ = _ |- _ => apply delete_states_run in H as [Hdel ->] end.
  match goal with H : insertGitHubAudit _ _ _ = _ |- _ => apply insertGitHubAudit_inv in H as (Hn&->&_) end.
  match goal with H : insert_state _ _ _ = _ |- _ => rename H into Hi end. unfold insert_state in Hi.
  destruct (negb _) in Hi; [done|]. destruct (isSomeb _ || _) eqn:E in Hi; [done|]. injection Hi as _ <-. bool_hyps. simpl in *.
  eexists _, hs, _. split_and!; [..|reflexivity|unfold startedRow; reflexivity]; try done.
  - by intros d s [[Hs _]%map_lookup_filter_Some _]%map_lookup_filter_Some.
  - intros d h Hd. pose proof Hd as Hd'. rewrite Ehs in Hd'. apply map_lookup_filter_Some in Hd' as [Hd' Hst]. simpl in Hst. split; [done|].
    intros s Hs. rewrite Hs in Hst.
    assert (filter (λ kv : string * SetupRow, staleState now kv.2 = false) (gh_states g) !! ho_state h = Some s) as Hf by by apply map_lookup_filter_Some.
    apply map_lookup_filter_Some. split; [done|]. simpl. by apply (Hdel d h s).
  - by destruct (_ !! digest).
Qed.
Lemma BeginCallback_run digest now g u g' : BeginCallback digest now g = inr (u, g') →
  ∃ s, gh_states g !! digest = Some s ∧ ss_consumed s = None ∧ g' = put_setup (<[digest := set_recoverable (Some now) s]> (gh_states g)) (gh_handoffs g) g.
Proof.
  intros H. unfold BeginCallback, write_state in H. gh_inv. unfold stateAuthorized in *. bool_hyps.
  match goal with H : gh_states _ !! _ = Some ?s |- _ => exists s; split_and!; try done; by destruct (ss_consumed s) end.
Qed.
Lemma CancelCallback_run digest g u g' : CancelCallback digest g = inr (u, g') →
  g' = g ∨ ∃ s, gh_states g !! digest = Some s ∧ ss_consumed s = None ∧ g' = put_setup (<[digest := set_recoverable None s]> (gh_states g)) (gh_handoffs g) g.
Proof.
  intros H. unfold CancelCallback, write_state in H. gh_inv. destruct (gh_states g !! digest) as [s|] eqn:E; [|gh_inv; by left].
  destruct (isSomeb (ss_consumed s)) eqn:Ec; gh_inv; [by left|]. right. exists s. split_and!; try done. by destruct (ss_consumed s).
Qed.
Lemma ReserveCallback_run state handoff i now g u g' : ReserveCallback state handoff i now g = inr (u, g') →
  ∃ s h, gh_states g !! state = Some s ∧ ss_consumed s = None ∧ stateAuthorized s now g = true ∧ handoff_of (consume_state now s) h ∧ ho_state h = state ∧
    ho_installation h = ins_ID i ∧ ho_account h = ins_Account i ∧ gh_handoffs g !! handoff = None ∧ gh_audit g !! auditID "callback" handoff = None ∧
    (∀ d h', gh_handoffs g !! d = Some h' → ho_state h' ≠ state) ∧ ∃ a n, gh_audit g ⊆ a ∧ is_Some (a !! auditID "callback" handoff) ∧
    g' = put_audit a n (put_setup (<[state := consume_state now s]> (gh_states g)) (<[handoff := h]> (gh_handoffs g)) g).
Proof.
  intros H. unfold ReserveCallback, write_state in H. gh_inv. match goal with H : gh_states _ !! _ = Some ?x |- _ => rename x into s; rename H into Hs end.
  match goal with H : insertGitHubAudit _ _ _ = _ |- _ => apply insertGitHubAudit_inv in H as (Hn&->&_) end.
  match goal with H : insert_handoff _ _ _ = _ |- _ => rename H into Hi end. unfold insert_handoff in Hi.
  destruct (negb _) in Hi; [done|]. destruct (isSomeb _ || _) eqn:E in Hi; [done|]. injection Hi as _ <-.
  match goal with H : stateAuthorized _ _ _ = true |- _ => pose proof H as Hau; unfold stateAuthorized in H end. bool_hyps. simpl in *.
  match goal with H : existsb _ _ = false |- _ => rewrite existsb_map_none in H; rename H into Hone end.
  exists s, {| ho_state := state; ho_owner := ss_owner s; ho_user := ss_user s; ho_session := ss_session s; ho_revision := ss_revision s;
               ho_installation := ins_ID i; ho_account := ins_Account i; ho_expires := now + tenMinutes; ho_consumed := None |}.
  split_and!; [done|by destruct (ss_consumed s)|done|split_and!; [reflexivity..|by eexists]|done|done|done|by destruct (_ !! handoff)|done| |].
  - intros d h' Hd Est. specialize (Hone d h' Hd). simpl in Hone. by rewrite bool_decide_true in Hone.
  - eexists _, _. split_and!; [by apply insert_subseteq|by rewrite lookup_insert_eq|reflexivity].
Qed.

Lemma CompleteHandoff_setup digest p ins found now g u g' : CompleteHandoff digest p ins found now g = inr (u, g') →
  ∃ h, gh_handoffs g !! digest = Some h ∧ gh_states g' = gh_states g ∧ gh_handoffs g' = <[digest := consume_handoff now h]> (gh_handoffs g) ∧
    gh_audit g !! auditID "handoff" digest = None ∧ is_Some (gh_audit g' !! auditID "handoff" digest).
Proof.
  intros (h&g1&rs&meta&Hh&_&_&_&_&_&_&_&_&_&_&_&(i&types&->&_)&_&Ha)%CompleteHandoff_run. cbv zeta in Ha.
  apply insertGitHubAudit_inv in Ha as (Hn&->&_). exists h. split_and!; [done..|]. simpl. by rewrite lookup_insert_eq.
Qed.

(** ** The invariant *)

Lemma setup_ok_call errorText c g : setup_ok g → setup_ok (ghExec errorText c g).
Proof.
  intros Hok. pose proof Hok as [H1 H2]. pose proof (gm_audit _ _ (exec_run errorText c g)) as Hsub.
  destruct (writesSetup c) eqn:Ew; [|by eapply setup_ok_same; [apply other_calls_setup| |]].
  destruct c; try done; simpl in *; match goal with |- context [run_tx ?m g] => destruct (run_tx_cases m g) as [E|(x&g'&E&E')]; [by rewrite E|rewrite E' in *] end.
  - apply CreateSetupState_run in E as (ss&hs&row&Hss&Hhs&Hn&Ha&_&_&->). split; simpl.
    + intros d s [[<- <-]|[Hne Hs]]%lookup_insert_Some; [by rewrite lookup_insert_eq|]. eapply lookup_weaken; [by apply H1, Hss|by apply insert_subseteq].
    + intros d h Hd. destruct (Hhs d h Hd) as [Hd' Hst]. destruct (H2 d h Hd') as (s&Hs&?). exists s. specialize (Hst s Hs).
      rewrite lookup_insert_ne by (intros ->; congruence). done.
  - apply BeginCallback_run in E as (s&Hs&Hc&->). split; simpl.
    + intros d s' [[<- <-]|[Hne Hs']]%lookup_insert_Some; [by apply (H1 _ _ Hs)|by apply H1].
    + intros d h Hd. destruct (H2 d h Hd) as (s'&Hs'&Hof). exists s'. rewrite lookup_insert_ne; [done|]. intros ->. destruct Hof as (_&_&_&_&[]). congruence.
  - apply CancelCallback_run in E as [->|(s&Hs&Hc&->)]; [done|]. split; simpl.
    + intros d s' [[<- <-]|[Hne Hs']]%lookup_insert_Some; [by apply (H1 _ _ Hs)|by apply H1].
    + intros d h Hd. destruct (H2 d h Hd) as (s'&Hs'&Hof). exists s'. rewrite lookup_insert_ne; [done|]. intros ->. destruct Hof as (_&_&_&_&[]). congruence.
  - apply ReserveCallback_run in E as (s&h&Hs&Hc&_&Hof&Hst&_&_&_&_&Hone&a&n&Ha&_&->). split; simpl.
    + intros d s' [[<- <-]|[Hne Hs']]%lookup_insert_Some; eapply lookup_weaken; [by apply (H1 _ _ Hs)|done|by apply H1|done].
    + intros d h' [[<- <-]|[Hne Hd]]%lookup_insert_Some; [exists (consume_state now s); by rewrite Hst, lookup_insert_eq|].
      destruct (H2 d h' Hd) as (s'&Hs'&?). exists s'. by rewrite lookup_insert_ne by (intros E; by destruct (Hone d h' Hd)).
  - apply CompleteHandoff_setup in E as (h&Hh&E1&E2&_). split; rewrite E1, ?E2.
    + intros d s Hs. eapply lookup_weaken; [by apply H1|done].
    + intros d h' [[<- <-]|[Hne Hd]]%lookup_insert_Some; [|by eapply H2]. by apply (H2 _ _ Hh).
Qed.
Lemma gh_reachable_setup errorText g : gh_reachable errorText g → setup_ok g.
Proof.
  induction 1 as [g Hg|g c _ IH]; [|by apply setup_ok_call]. destruct Hg as (_&_&_&_&_&_&_&E1&E2&_). split; rewrite ?E1, ?E2; by intros ? ? ?%lookup_empty_Some.
Qed.
Lemma state_used_call errorText d c g : state_used d g → state_used d (ghExec errorText c g).
Proof.
  intros Hu. pose proof Hu as [[row Hrow] Hc]. pose proof (gm_audit _ _ (exec_run errorText c g)) as Hsub.
  destruct (writesSetup c) eqn:Ew; [|by eapply state_used_same; [apply other_calls_setup| |]].
  split; [exists row; by eapply lookup_weaken|].
  destruct c; try done; simpl in *; match goal with |- context [run_tx ?m g] => destruct (run_tx_cases m g) as [E|(x&g'&E&E')]; [by rewrite E|rewrite E' in *] end.
  - apply CreateSetupState_run in E as (ss&hs&r&Hss&_&_&Ha&_&_&->). simpl. intros s [[-> _]|[_ Hs]]%lookup_insert_Some; [congruence|]. by apply Hc, Hss.
  - apply BeginCallback_run in E as (s&Hs&Hn&->). simpl. intros s' [[-> _]|[_ Hs']]%lookup_insert_Some; [|by apply Hc]. destruct (Hc s Hs). congruence.
  - apply CancelCallback_run in E as [->|(s&Hs&Hn&->)]; [done|]. simpl. intros s' [[-> _]|[_ Hs']]%lookup_insert_Some; [|by apply Hc]. destruct (Hc s Hs). congruence.
  - apply ReserveCallback_run in E as (s&h&Hs&Hn&_&_&_&_&_&_&_&_&a&n&_&_&->). simpl. intros s' [[-> _]|[_ Hs']]%lookup_insert_Some; [|by apply Hc]. destruct (Hc s Hs). congruence.
  - apply CompleteHandoff_setup in E as (h&_&E1&_). by rewrite E1.
Qed.
Lemma state_used_steps errorText d g g' : state_used d g → rtc (gh_step errorText) g g' → state_used d g'.
Proof. intros Hd H. induction H as [|x y z [c] _ IH]; [done|]. by apply IH, state_used_call. Qed.
