(* ===== verification/GitHubScenario.v ===== *)
(** * A concrete App

    Registered, set up by a logged-in administrator for an installation of two
    repositories, one of them bound and checked out: the inputs of the
    witnesses in [GitHubProps]. *)
From S2P Require Import Prelude GoStd Base64 Token Queue Route Regex Schema Evidence LeaseCore Lease Enqueue LeaseSystem Scenario CallsKeep Webhooks WebhookSteps WebhookSystem Password Hmac AuthTokens AuthStore Throttle Sessions AuthInv AuthSystem AuthScenario GitHubApp GitHubStore GitHubRepo GitHubChain GitHubSteps GitHubSystem.
From stdpp Require Import relations.
#[local] Open Scope Z_scope.

Definition plainText (_ : Err) : string := "".
Definition freshWebhooks : WebhookDB :=
  {| wh_db := db_empty; wh_deliveries := ∅; wh_intents := ∅; wh_lifecycle := ∅; wh_payloads := ∅; wh_app_active := false;
     wh_installations := ∅; wh_repositories := ∅; wh_bindings := ∅; wh_next_delivery := 1; wh_next_intent := 1; wh_next_job := 1 |}.
Definition freshGitHub : GHDB := Build_GHDB freshWebhooks emptyAuthDB None ∅ ∅ ∅ ∅ 10000 ∅ ∅ ∅.
Definition atMinute (n : Z) : Z := day0 + n * minute.

Definition appIdentity : AppIdentity := {| ai_AppID := 77; ai_ClientID := "Iv1.0123456789abcdef"; ai_Slug := "autodeploy" |}.
Definition account : Owner := {| ow_AccountID := 5; ow_Type := "Organization" |}.
Definition theAdministrator : Principal :=
  {| p_UserID := "user-1"; p_OwnerID := "owner-1"; p_RoleOwner := true; p_AuthRevision := 1; p_SessionID := "session-1" |}.
Definition theInstallation : ProviderInstallation := {| ins_ID := 3; ins_Account := account; ins_Suspended := false |}.
Definition providerRepository (id : Z) (name : string) : ProviderRepository :=
  {| rp_ID := id; rp_NodeID := ""; rp_OwnerID := 5; rp_Name := name; rp_FullName := "acme/" +:+ name; rp_DefaultBranch := "main" |}.
Definition bindingInput : GitBindingInput :=
  {| bi_ProjectID := "project-1"; bi_RepositoryID := 4; bi_Ref := "refs/heads/main"; bi_EnvironmentID := "env-1"; bi_ServerID := "server-1" |}.
Definition stateDigest : string := digestOf "state".
Definition handoffDigest : string := digestOf "handoff".
Definition aCommit : string := "0123456789abcdef0123456789abcdef01234567".
Definition someRandomness : string := "0123456789abcdef".

Definition registered : list GHCall :=
  [ GAuth (CallBootstrap (clockAt day0) bootstrapInput);
    GAuth (CallReserve (day0 + minute) (clockAt (day0 + minute)) [pairIdentity; nameIdentity; addressIdentity] 100);
    GAuth (CallCompleteLogin (clockAt (day0 + 2 * minute)) loginInput);
    GEnsure appIdentity account ].
Definition started : list GHCall :=
  registered ++ [ GCreateState stateDigest theAdministrator (atMinute 3); GBeginCallback stateDigest (atMinute 4) ].
Definition verified : list GHCall := started ++ [ GReserveCallback stateDigest handoffDigest theInstallation (atMinute 4) ].
Definition complete : GHCall :=
  GComplete handoffDigest theAdministrator theInstallation [providerRepository 4 "api"; providerRepository 6 "web"] (atMinute 5).
Definition boundCalls : list GHCall := verified ++ [ complete; GBind theAdministrator bindingInput "audit-bind" (atMinute 6) ].

Definition ghRun (cs : list GHCall) : GHDB := foldl (λ g c, ghExec plainText c g) freshGitHub cs.
Lemma fresh_initial : gh_initial freshGitHub.
Proof. split_and!; try done. Qed.
Lemma ghRun_reachable cs : gh_reachable plainText (ghRun cs).
Proof.
  unfold ghRun. assert (gh_reachable plainText freshGitHub) as H by (constructor; apply fresh_initial). revert H. generalize freshGitHub.
  induction cs as [|c cs IH]; [done|]. intros g Hg. simpl. apply IH. by constructor.
Qed.
Definition verifiedDB : GHDB := Eval vm_compute in ghRun verified.
Lemma verifiedDB_reachable : gh_reachable plainText verifiedDB.
Proof. assert (verifiedDB = ghRun verified) as -> by vm_cast_no_check (eq_refl verifiedDB). apply ghRun_reachable. Qed.
Lemma ghExec_once c g : rtc (gh_step plainText) g (ghExec plainText c g).
Proof. apply rtc_once. constructor. Qed.

(** The project's checkout, from its reservation until it runs. *)
Definition boundDB : GHDB := Eval vm_compute in ghRun boundCalls.
Lemma boundDB_run : boundDB = ghRun boundCalls.
Proof. vm_cast_no_check (eq_refl boundDB). Qed.
Definition chosenID : string := default "" (checkoutID someRandomness).
Definition capturedBinding : CheckoutBinding :=
  withCommit (default {| cb_OwnerID := ""; cb_ProjectID := ""; cb_InstallationID := 0; cb_RepositoryID := 0; cb_BindingRevision := 0;
                         cb_RepositoryRevision := 0; cb_InstallationRevision := 0; cb_CloneURL := ""; cb_CommitSHA := ""; cb_ReservationID := "";
                         cb_AuthorizationRevision := 0 |} (snapshotOfChain "owner-1" "project-1" boundDB)) aCommit chosenID.
Definition theReservation : CheckoutReservation :=
  {| cr_Binding := capturedBinding; cr_ID := chosenID; cr_ExpiresAt := atMinute 7 + tenMinutes; cr_State := "reserved" |}.
Definition reservedDB : GHDB := Eval vm_compute in ghExec plainText (GReserveCheckout "owner-1" "project-1" aCommit someRandomness (atMinute 7) (atMinute 7)) boundDB.
Definition mintedDB : GHDB := Eval vm_compute in ghExec plainText (GBeginMint chosenID (atMinute 8)) reservedDB.
Definition activeDB : GHDB := Eval vm_compute in ghExec plainText (GActivate chosenID capturedBinding (atMinute 8)) mintedDB.
Definition runningDB : GHDB := Eval vm_compute in ghExec plainText (GStart chosenID capturedBinding (atMinute 8)) activeDB.
Definition disable : GHCall := GDisable theAdministrator 3 "audit-disable" (atMinute 9).

(** A body that succeeds, decided by evaluation. *)
Definition succeeds {A} (m : GHTx A) (g : GHDB) : bool := match m g with inr _ => true | inl _ => false end.
Lemma ran {A} (m : GHTx A) g : succeeds m g = true → ∃ x g', m g = inr (x, g').
Proof. unfold succeeds. destruct (m g) as [|[x g']]; [done|]. by exists x, g'. Qed.
Lemma reserve_run : ReserveCheckout "owner-1" "project-1" aCommit someRandomness (atMinute 7) (atMinute 7) boundDB = inr (theReservation, reservedDB).
Proof. vm_cast_no_check (eq_refl (A := sum GHErr (CheckoutReservation * GHDB)) (inr (theReservation, reservedDB))). Qed.
Lemma mint_run : BeginMintAttempt chosenID (atMinute 8) reservedDB = inr (capturedBinding, mintedDB).
Proof. vm_cast_no_check (eq_refl (A := sum GHErr (CheckoutBinding * GHDB)) (inr (capturedBinding, mintedDB))). Qed.
Lemma activate_run : ActivateMintAttempt chosenID capturedBinding (atMinute 8) mintedDB = inr (tt, activeDB).
Proof. vm_cast_no_check (eq_refl (A := sum GHErr (unit * GHDB)) (inr (tt, activeDB))). Qed.
Lemma start_run : StartCheckout chosenID capturedBinding (atMinute 8) activeDB = inr (tt, runningDB).
Proof. vm_cast_no_check (eq_refl (A := sum GHErr (unit * GHDB)) (inr (tt, runningDB))). Qed.
Lemma activate_step id b now u g g' : ActivateMintAttempt id b now g = inr (u, g') → rtc (gh_step plainText) g g'.
Proof. intros E. pose proof (ghExec_once (GActivate id b now) g) as H. simpl in H. unfold run_tx in H. by rewrite E in H. Qed.
Lemma boundDB_reachable : gh_reachable plainText boundDB.
Proof. rewrite boundDB_run. apply ghRun_reachable. Qed.
