(* ===== verification/GitHubProps.v ===== *)
(** * What the GitHub repository guarantees

    Checkout authority, its withdrawal and who can give it; reservations and
    setups that are used once; what never comes back. *)
From S2P Require Import Prelude GoStd Token Queue Route Regex Schema Evidence LeaseCore Lease Enqueue LeaseSystem CallsKeep Webhooks WebhookSteps WebhookSystem Password Hmac AuthTokens AuthStore Throttle Sessions AuthInv AuthSystem AuthScenario GitHubApp GitHubStore GitHubRepo GitHubChain GitHubSteps GitHubSystem GitHubRuns GitHubInv GitHubSetup GitHubScenario.
From stdpp Require Import relations.
#[local] Open Scope Z_scope.

(** ** Runs of the reservation calls *)

Definition reservationOf (b : CheckoutBinding) (sha : string) (now : Z) : ReservationRow :=
  {| rv_owner := cb_OwnerID b; rv_project := cb_ProjectID b; rv_installation := cb_InstallationID b; rv_repository := cb_RepositoryID b;
     rv_clone_url := cb_CloneURL b; rv_commit := sha; rv_binding_revision := cb_BindingRevision b;
     rv_repository_revision := cb_RepositoryRevision b; rv_installation_revision := cb_InstallationRevision b;
     rv_state := RReserved; rv_attempts := 0; rv_expires := now + tenMinutes; rv_created := now; rv_consumed := None |}.
Lemma snapshot_facts owner project g b : snapshotOfChain owner project g = Some b →
  cb_OwnerID b = owner ∧ cb_ProjectID b = project ∧ cb_AuthorizationRevision b = 0 ∧ ∀ sha id, chainHolds (withCommit b sha id) g = true.
Proof.
  unfold snapshotOfChain. intros ([[gb gr] gi]&Hc&(m&Hm&[= <-])%bind_Some)%bind_Some. split_and!; try done.
  intros sha id. apply chainHolds_iff. exists gb, gr, gi. by split_and!.
Qed.
Lemma ReserveCheckout_run owner project sha rnd t now g r g' : ReserveCheckout owner project sha rnd t now g = inr (r, g') →
  ∃ id b rv, snapshotOfChain owner project g = Some b ∧ cr_ID r = id ∧ cr_Binding r = withCommit b sha id ∧
    rv = map_imap (λ _ x, Some (if bool_decide ((rv_owner x, rv_project x) = (owner, project)) && expirableReservation (rv_state x) && (rv_expires x <=? now)
                                then move_reservation RExpired x else x)) (gh_reservations g) ∧
    rv !! id = None ∧ (∀ k x, rv !! k = Some x → rv_owner x = owner → rv_project x = project → liveReservation (rv_state x) = false) ∧
    g' = put_reservations (<[id := reservationOf b sha now]> rv) g.
Proof.
  intros H. unfold ReserveCheckout in H. gh_inv.
  match goal with H : update_reservations _ _ _ = inr _ |- _ => unfold update_reservations in H; injection H as <- <- end.
  match goal with H : snapshotOfChain _ _ _ = Some ?x |- _ => rename x into b; rename H into Hs end. pose proof (snapshot_facts _ _ _ _ Hs) as (Eo&Ep&_&_).
  match goal with H : match insert_reservation ?i ?r ?s with inl _ => _ | inr _ => _ end = inr _ |- _ =>
    destruct (insert_reservation i r s) as [|[[] g1]] eqn:Hi; [done|]; injection H as <- end.
  unfold insert_reservation in Hi. destruct (negb _) in Hi; [done|]. destruct (isSomeb _ || _) eqn:E in Hi; [done|]. injection Hi as <-. bool_hyps.
  match goal with H : existsb _ _ = false |- _ => rewrite existsb_map_none in H; rename H into Hone end.
  eexists _, b, _. split_and!; try done.
  - simpl in *. by destruct (_ !! _).
  - intros k x Hx Ho Hp. specialize (Hone k x Hx). simpl in Hone. by rewrite bool_decide_true in Hone by congruence.
  - unfold reservationOf. rewrite Eo, Ep. done.
Qed.
Lemma BeginMintAttempt_run id now g b g' : BeginMintAttempt id now g = inr (b, g') →
  ∃ r, gh_reservations g !! id = Some r ∧ rv_state r = RReserved ∧ now < rv_expires r ∧ b = bindingOfReservation id r ∧ chainHolds b g = true ∧
    gh_reservations g' !! id = Some (mint_reservation r).
Proof.
  intros H. unfold BeginMintAttempt in H. gh_inv. bool_hyps. match goal with H : _ !! id = Some ?x |- _ => exists x; rename H into Hr end.
  match goal with H : update_reservations _ _ _ = inr _ |- _ => unfold update_reservations in H; injection H as _ <- end. split_and!; try done.
  simpl. rewrite map_lookup_imap, Hr. simpl. unfold onlyRow. by rewrite bool_decide_true.
Qed.
Lemma update_one id f h g ids g' : update_reservations (onlyRow id f) h g = inr (ids, g') → length ids = 1%nat →
  ∃ r, gh_reservations g !! id = Some r ∧ f r = true ∧ gh_reservations g' !! id = Some (h r).
Proof.
  unfold update_reservations. intros [= <- <-] El.
  destruct (filter _ _) as [|[k r] [|]] eqn:Ef in El; simpl in El; [lia| |lia].
  assert ((k, r) ∈ filter (λ kv : string * ReservationRow, onlyRow id f kv.1 kv.2 = true) (map_to_list (gh_reservations g))) as Hin
    by (rewrite Ef; set_solver).
  apply list_elem_of_filter in Hin as [Hk Hin%elem_of_map_to_list]. unfold onlyRow in Hk. simpl in Hk. bool_hyps. subst k. exists r. split_and!; [done..|].
  simpl. rewrite map_lookup_imap, Hin. simpl. unfold onlyRow. rewrite bool_decide_true by done. simpl. by match goal with H : f r = true |- _ => rewrite H end.
Qed.
Lemma ActivateMintAttempt_run id b now g u g' : ActivateMintAttempt id b now g = inr (u, g') →
  chainHolds b g = true ∧ ∃ r, gh_reservations g !! id = Some r ∧ rv_state r = RMinting ∧ now < rv_expires r ∧
    gh_reservations g' !! id = Some (move_reservation RActive r).
Proof.
  intros H. unfold ActivateMintAttempt in H. gh_inv. bool_hyps. split; [done|].
  match goal with H : update_reservations _ _ _ = inr _ |- _ => apply update_one in H as (r&Hr&Hf&Hr'); [|done] end. bool_hyps. by exists r.
Qed.
Lemma StartCheckout_run id b now g u g' : StartCheckout id b now g = inr (u, g') →
  chainHolds b g = true ∧ ∃ r, gh_reservations g !! id = Some r ∧ rv_state r = RActive ∧ now < rv_expires r ∧
    gh_reservations g' !! id = Some (move_reservation RRunning r).
Proof.
  intros H. unfold StartCheckout in H. gh_inv. bool_hyps. split; [done|].
  match goal with H : update_reservations _ _ _ = inr _ |- _ => apply update_one in H as (r&Hr&Hf&Hr'); [|done] end. bool_hyps. by exists r.
Qed.

Lemma CloseCheckout_run id now g u g' : CloseCheckout id now g = inr (u, g') → ∃ r, gh_reservations g' !! id = Some r ∧ rv_state r = RConsumed.
Proof.
  intros H. unfold CloseCheckout in H. gh_inv. match goal with H : update_reservations _ _ _ = inr _ |- _ => rename H into Hu end.
  destruct (bool_decide _) eqn:El in H; [apply bool_decide_eq_true in El|].
  - gh_inv. eapply update_one in Hu as (r&_&_&Hr); [|done]. by eexists.
  - gh_inv. bool_hyps. eauto.
Qed.

(** Later rows of a reservation. *)
Lemma binding_moves id x y : reservation_moves x y → bindingOfReservation id y = bindingOfReservation id x.
Proof. unfold reservation_moves, bindingOfReservation. intros H. destruct_and! H. congruence. Qed.
Lemma reservation_later g g' id r : gh_run g g' → gh_reservations g !! id = Some r →
  ∃ r', gh_reservations g' !! id = Some r' ∧ bindingOfReservation id r' = bindingOfReservation id r ∧ stateRank (rv_state r) ≤ stateRank (rv_state r').
Proof.
  intros H Hr. destruct (gm_reservations _ _ H _ _ Hr) as (r'&Hr'&Hm). exists r'. split_and!; [done|by apply binding_moves|by apply reservation_moves_rank].
Qed.

(** Statements whose only error is [GDenied]. *)
Definition denies {A} (m : GHTx A) : Prop := ∀ g e, m g = inl e → e = GDenied.
Lemma denies_bind {A B} (m : GHTx A) (k : A → GHTx B) : denies m → (∀ x, denies (k x)) → denies (tx_bind m k).
Proof. intros Hm Hk g e H. unfold tx_bind in H. destruct (m g) as [|[x g1]] eqn:E; [injection H as <-; by eapply Hm|by eapply Hk]. Qed.
Lemma denies_guard b : denies (tx_guard b GDenied).
Proof. unfold tx_guard. intros g e. case_match; [done|]. by intros [= <-]. Qed.
Lemma denies_some {A} (f : GHDB → option A) : denies (tx_some f GDenied).
Proof. unfold tx_some. intros g e. case_match; [done|]. by intros [= <-]. Qed.
Lemma denies_read {A} (f : GHDB → A) : denies (tx_read f).
Proof. done. Qed.
Lemma denies_ret {A} (x : A) : denies (tx_ret x).
Proof. done. Qed.
Lemma denies_update wh f : denies (update_reservations wh f).
Proof. done. Qed.
Create HintDb denies.
#[export] Hint Resolve denies_bind denies_guard denies_some denies_read denies_ret denies_update : denies.
Lemma denied_unless {A} (m : GHTx A) g : denies m → (∀ x g', m g = inr (x, g') → False) → m g = inl GDenied.
Proof. intros Hm Hn. destruct (m g) as [e|[x g']] eqn:E; [by rewrite (Hm _ _ E)|by destruct (Hn x g')]. Qed.

Lemma reservation_calls_deny id b now : denies (BeginMintAttempt id now) ∧ denies (ActivateMintAttempt id b now) ∧ denies (StartCheckout id b now).
Proof. unfold BeginMintAttempt, ActivateMintAttempt, StartCheckout, revalidateTx. split_and!; auto 12 with denies. Qed.

Section props.
Context (errorText : Err → string).
Notation gh_step := (gh_step errorText).
Notation gh_reachable := (gh_reachable errorText).
Notation ghExec := (ghExec errorText).

(** C22: A checkout that starts had authority all the time.  Between the
    reservation of a checkout and the moment it is marked running, whatever
    calls of the GitHub, webhook and authentication repositories come in
    between, the project's binding, repository and installation are active and
    unsuspended at the revisions captured, under the same names; the binding
    the mint was given is the one reserved. *)
Theorem checkout_authority_uninterrupted owner project sha rnd t now0 g0 r g1 g2 now1 b g3 g4 now2 u g5 :
  ReserveCheckout owner project sha rnd t now0 g0 = inr (r, g1) → rtc gh_step g1 g2 →
  BeginMintAttempt (cr_ID r) now1 g2 = inr (b, g3) → rtc gh_step g3 g4 →
  StartCheckout (cr_ID r) b now2 g4 = inr (u, g5) →
  b = cr_Binding r ∧
  ∀ g, rtc gh_step g1 g → rtc gh_step g g4 → chainHolds b g = true ∧ snapshotOfChain owner project g = snapshotOfChain owner project g0.
Proof.
  intros (id&b0&rv&Hs&<-&Hb0&_&_&_&->)%ReserveCheckout_run H12%steps_run (x&Hx&_&_&->&_&_)%BeginMintAttempt_run _ [Hc4 _]%StartCheckout_run.
  destruct (snapshot_facts _ _ _ _ Hs) as (Eo&Ep&Ez&Hc). set (g1 := put_reservations _ g0) in *.
  destruct (reservation_later g1 g2 (cr_ID r) (reservationOf b0 sha now0) H12) as (x'&Hx'&Eb&_); [by apply lookup_insert_eq|].
  assert (x' = x) as -> by congruence.
  assert (bindingOfReservation (cr_ID r) x = cr_Binding r) as E.
  { rewrite Eb, Hb0. unfold bindingOfReservation, withCommit. simpl. by rewrite Ez. }
  rewrite E in *. split; [done|]. intros g H1%steps_run H4%steps_run.
  assert (chainHolds (cr_Binding r) g1 = true) as Hc1 by (rewrite Hb0; apply Hc).
  destruct (chain_between _ _ _ _ H1 H4 Hc1 Hc4) as [Hh Hsn]. split; [done|]. rewrite Hb0 in Hsn. simpl in Hsn. by rewrite Eo, Ep in Hsn.
Qed.

(** Once a captured binding no longer holds it never holds again: not
    after the repository is bound anew, the installation is set up again or the
    repository is added back. *)
Theorem withdrawn_stays_withdrawn b g0 g1 g2 : chainHolds b g0 = true → rtc gh_step g0 g1 → chainHolds b g1 = false → rtc gh_step g1 g2 → chainHolds b g2 = false.
Proof.
  intros H0 H01%steps_run H1 H12%steps_run. destruct (chainHolds b g2) eqn:H2; [|done]. destruct (chain_between b g0 g1 g2); congruence.
Qed.

(** A row that has gone past a step cannot take it again. *)
Lemma past_steps id r g g' now : gh_run g g' → gh_reservations g !! id = Some r →
  (1 ≤ stateRank (rv_state r) → BeginMintAttempt id now g' = inl GDenied) ∧
  (2 ≤ stateRank (rv_state r) → ∀ b, ActivateMintAttempt id b now g' = inl GDenied) ∧
  (3 ≤ stateRank (rv_state r) → ∀ b, StartCheckout id b now g' = inl GDenied).
Proof.
  intros H Hr. destruct (reservation_later _ _ _ _ H Hr) as (x&Hx&_&Hrank). split_and!; intros Hk; try intros b; apply denied_unless;
    try (eapply (reservation_calls_deny id)); try exact (bindingOfReservation id x); intros y g''.
  - intros (r'&Hr'&E&_)%BeginMintAttempt_run. simplify_eq. rewrite E in Hrank. simpl in Hrank. lia.
  - intros (_&r'&Hr'&E&_)%ActivateMintAttempt_run. simplify_eq. rewrite E in Hrank. simpl in Hrank. lia.
  - intros (_&r'&Hr'&E&_)%StartCheckout_run. simplify_eq. rewrite E in Hrank. simpl in Hrank. lia.
Qed.

(** A reservation is minted, activated and started at most once each, and
    only in this order; nothing of it remains after it is closed. *)
Theorem reservation_steps_once id g0 g1 g2 now now' : rtc gh_step g1 g2 →
  (∀ b, BeginMintAttempt id now g0 = inr (b, g1) → BeginMintAttempt id now' g2 = inl GDenied) ∧
  (∀ b u, ActivateMintAttempt id b now g0 = inr (u, g1) →
     BeginMintAttempt id now' g2 = inl GDenied ∧ ∀ b', ActivateMintAttempt id b' now' g2 = inl GDenied) ∧
  (∀ b u, StartCheckout id b now g0 = inr (u, g1) →
     BeginMintAttempt id now' g2 = inl GDenied ∧ ∀ b', ActivateMintAttempt id b' now' g2 = inl GDenied ∧ StartCheckout id b' now' g2 = inl GDenied) ∧
  (∀ u, CloseCheckout id now g0 = inr (u, g1) →
     BeginMintAttempt id now' g2 = inl GDenied ∧ ∀ b', ActivateMintAttempt id b' now' g2 = inl GDenied ∧ StartCheckout id b' now' g2 = inl GDenied).
Proof.
  intros H%steps_run. split_and!.
  - intros b (r&_&_&_&_&_&Hr)%BeginMintAttempt_run. by apply (past_steps id _ _ _ now' H Hr).
  - intros b u [_ (r&_&_&_&Hr)]%ActivateMintAttempt_run. destruct (past_steps id _ _ _ now' H Hr) as (H1&H2&_). simpl in *. split; [by apply H1|by apply H2].
  - intros b u [_ (r&_&_&_&Hr)]%StartCheckout_run. destruct (past_steps id _ _ _ now' H Hr) as (H1&H2&H3). simpl in *. auto 10 with lia.
  - intros u Hc. destruct (CloseCheckout_run _ _ _ _ _ Hc) as (r&Hr&E). destruct (past_steps id _ _ _ now' H Hr) as (H1&H2&H3). rewrite E in *. simpl in *. auto 10 with lia.
Qed.

(** C24: Only an administrator with a live session gives authority.  When a
    call leaves an authorized installation that was not there as it is now, it
    completes a setup of that installation whose handoff is unused, unexpired and
    the administrator's own; a repository comes alive only when a completed
    setup or a reconciliation found it; a binding only by binding that project.
    No webhook, callback, checkout or account call gives any. *)
Theorem authority_needs_administrator c g :
  (∀ n i, installations (ghExec c g) !! n = Some i → authorized i = true → installations g !! n ≠ Some i →
     ∃ digest p ins found now h, c = GComplete digest p ins found now ∧ n = ins_ID ins ∧ adminLive p now (gh_auth g) = true ∧
       gh_handoffs g !! digest = Some h ∧ ho_consumed h = None ∧ now < ho_expires h ∧ ho_user h = p_UserID p ∧ ho_session h = p_SessionID p ∧
       ho_installation h = n ∧ ho_account h = ins_Account ins) ∧
  (∀ id r, repositories (ghExec c g) !! id = Some r → gr_active r = true → repositories g !! id ≠ Some r →
     ∃ p ins found now, adminLive p now (gh_auth g) = true ∧ gr_owner r = p_OwnerID p ∧ gr_installation r = ins_ID ins ∧ id ∈ rp_ID <$> found ∧
       ((∃ digest, c = GComplete digest p ins found now) ∨ ∃ audit, c = GReconcile p ins found audit now)) ∧
  (∀ k b, bindings (ghExec c g) !! k = Some b → gb_active b = true → bindings g !! k ≠ Some b →
     ∃ p input audit now, c = GBind p input audit now ∧ adminLive p now (gh_auth g) = true ∧ k = (p_OwnerID p, bi_ProjectID input) ∧
       gb_repository b = bi_RepositoryID input).
Proof.
  destruct (writesChain c) eqn:Ew.
  2: { destruct (other_calls_same errorText c g Ew) as (->&->&->). split_and!; done. }
  destruct c; try done; simpl; try (match goal with |- context [run_tx ?m g] => destruct (run_tx_cases m g) as [->|(x&g'&E&->)] end; [split_and!; done|]).
  - pose proof (CompleteHandoff_run _ _ _ _ _ _ _ _ E) as (h&_&_&_&Hh&?&?&?&?&?&?&?&?&?&_). destruct (complete_alive _ _ _ _ _ _ _ _ E) as (Ai&Ar&Ab). split_and!.
    + intros n y Hn Hy Hne. destruct (Ai n y Hn) as [?| ->]; [done|]. eauto 20.
    + intros id r Hr Ha Hne. destruct (Ar id r Hr Ha) as [?|(?&?&?)]; [done|]. exists p, i, found, now. split_and!; eauto.
    + intros k b Hb Ha Hne. destruct Hne. by apply Ab.
  - pose proof (BindRepository_run _ _ _ _ _ _ _ E) as (r&y&b&g1&?&?&_&_&_&_&_&_&Hb&->&(_&->&_)%insertGitHubAudit_inv). split_and!; [done..|].
    intros k b' Hk Ha Hne. change (<[(p_OwnerID p, bi_ProjectID input) := b]> (bindings g) !! k = Some b') in Hk.
    apply lookup_insert_Some in Hk as [[<- <-]|[_ Hk]]; [|done]. subst b. eauto 10.
  - destruct (disable_alive _ _ _ _ _ _ _ E) as (Ai&Ar&Ab). split_and!; intros ? ? ? ? Hne; destruct Hne; auto.
  - pose proof (ReconcileInstallation_run _ _ _ _ _ _ _ _ E) as (y&_&_&_&?&_). destruct (reconcile_alive _ _ _ _ _ _ _ _ E) as (Ai&Ar&Ab). rewrite Ai. split_and!; [done|..].
    + intros id r Hr Ha Hne. destruct (Ar id r Hr Ha) as [?|(?&?&?)]; [done|]. exists p, i, found, now. split_and!; eauto.
    + intros k b Hb Ha Hne. destruct Hne. by apply Ab.
  - destruct (wexec_moves errorText c (gh_web g)) as [_ _ _ _ _ Ai Ar Ab]. split_and!; intros ? ? ? ? Hne; destruct Hne; [by apply Ai|by apply Ar|by apply Ab].
Qed.

(** C25: Whether a project has checkout authority is decided by its binding.  In
    every database the calls can reach, while the App is active, the chain from
    the binding over its repository to its installation stands exactly when the
    binding is active. *)
Theorem authority_is_the_binding owner project g : gh_reachable g → wh_app_active (gh_web g) = true →
  is_Some (authorityChain owner project g) ↔ ∃ b, bindings g !! (owner, project) = Some b ∧ gb_active b = true.
Proof.
  intros Hr%gh_reachable_chain Ha. split.
  - intros [[[b r] i] (?&_&_&_&_&_&?&_)%authorityChain_iff]. eauto.
  - intros (b&Hb&Hba). destruct (co_bind _ _ _ Hr _ _ Hb) as (r&Hrr&Ho&Hri&Hra). destruct (co_repo _ _ _ Hr _ _ Hrr) as (i&Hi&Hio&Hia). simpl in Ho.
    exists (b, r, i). apply authorityChain_iff. rewrite Hri in Hi. split_and!; auto; congruence.
Qed.

(** What disabling and reconciling leave of the reservations. *)
Lemma invalidated_none_live owner n rv id r : invalidateAll owner n rv !! id = Some r → rv_owner r = owner → rv_installation r = n → liveReservation (rv_state r) = false.
Proof.
  unfold invalidateAll. rewrite map_lookup_imap. destruct (rv !! id) as [x|]; [|done]. intros [= <-]. destruct (_ && _ && _) eqn:E; [done|].
  intros Ho Hn. by rewrite bool_decide_true, (proj2 (Z.eqb_eq _ _)) in E.
Qed.
Lemma chainHolds_authorized b g i : chainHolds b g = true → installations g !! cb_InstallationID b = Some i → authorized i = true.
Proof. intros (gb&gr&gi&(_&_&Hi&_&_&_&_&_&?)%authorityChain_iff&E&_)%chainHolds_iff Hi'. congruence. Qed.

(** C26: Disabling an installation withdraws everything it authorized.  The
    installation is no longer authorized and no project's binding to it is
    active; a binding to it captured at any time before, in whatever state,
    never holds again, whatever is set up or bound later.  If the installation
    was active, no checkout its owner reserved of it is left reserved, minting,
    active or running.  If it was not, disabled before or suspended by a webhook, the
    call succeeds without a change: no checkout is invalidated, none
    reported. *)
Theorem disable_withdraws p n audit now g ids g' : gh_reachable g → DisableInstallation p n audit now g = inr (ids, g') →
  (∃ i, installations g' !! n = Some i ∧ gi_owner i = p_OwnerID p ∧ authorized i = false) ∧
  (∀ k b, bindings g' !! k = Some b → gb_installation b = n → gb_active b = false) ∧
  (∀ b g0 g2, cb_InstallationID b = n → rtc gh_step g0 g → chainHolds b g0 = true → rtc gh_step g' g2 → chainHolds b g2 = false) ∧
  ∃ i, installations g !! n = Some i ∧
    if gi_active i
    then ∀ id r, gh_reservations g' !! id = Some r → rv_owner r = p_OwnerID p → rv_installation r = n → liveReservation (rv_state r) = false
    else ids = [] ∧ g' = g.
Proof.
  intros Hr E. pose proof (chain_disable _ _ _ _ _ _ _ E (gh_reachable_chain _ _ Hr)) as Hc.
  assert (gh_run g g') as Hrun. { pose proof (exec_run errorText (GDisable p n audit now) g) as H. simpl in H. unfold run_tx in H. by rewrite E in H. }
  pose proof (DisableInstallation_run _ _ _ _ _ _ _ E) as (_&i&Hi&Ho&Hcase).
  assert (∃ i', installations g' !! n = Some i' ∧ gi_owner i' = p_OwnerID p ∧ authorized i' = false) as (i'&Hi'&Ho'&Ha').
  { destruct Hcase as [(Hina&_&->)|[_ (E1&_)%only_audit_same]]; [exists i; unfold authorized; by rewrite Hina|].
    rewrite E1. exists (suspend i). split; [apply lookup_insert_eq|done]. }
  split; [eauto|]. split; [|split].
  - intros k b Hb Hn. destruct (gb_active b) eqn:Hact; [|done]. destruct (co_bind _ _ _ Hc _ _ Hb) as (r&Hrr&_&Hri&Hra).
    destruct (co_repo _ _ _ Hc _ _ Hrr) as (j&Hj&_&Hja). specialize (Hja (Hra Hact)). congruence.
  - intros b g0 g2 Hn H0%steps_run Hh H%steps_run. destruct (chainHolds b g2) eqn:H2; [|done].
    destruct (chain_between b g0 g' g2) as [Hh' _]; [by etrans|done..|]. subst n. by rewrite (chainHolds_authorized _ _ _ Hh' Hi') in Ha'.
  - exists i. split; [done|]. destruct Hcase as [(->&->&->)|[-> (a&m&->)]]; [done|]. intros id r. apply invalidated_none_live.
Qed.

(** Reconciliation leaves exactly what the provider listed.  Of the
    repositories recorded for the installation those on the list are active
    and no others, none is added; the bindings that remain active were active
    and are to repositories on the list; the installation's row is as it was,
    and no checkout of it is reserved, minting, active or running. *)
Theorem reconcile_exact p ins found audit now g ids g' : gh_reachable g → ReconcileInstallation p ins found audit now g = inr (ids, g') →
  installations g' = installations g ∧
  (∀ id r', repositories g' !! id = Some r' → is_Some (repositories g !! id) ∧
     (gr_owner r' = p_OwnerID p → gr_installation r' = ins_ID ins → gr_active r' = true ↔ id ∈ rp_ID <$> found)) ∧
  (∀ k b, bindings g' !! k = Some b → gb_active b = true → bindings g !! k = Some b ∧ (gb_installation b = ins_ID ins → gb_repository b ∈ rp_ID <$> found)) ∧
  (∀ id r, gh_reservations g' !! id = Some r → rv_owner r = p_OwnerID p → rv_installation r = ins_ID ins → liveReservation (rv_state r) = false).
Proof.
  intros Hr E. pose proof (chain_reconcile _ _ _ _ _ _ _ _ E (gh_reachable_chain _ _ Hr)) as Hc. destruct (reconcile_alive _ _ _ _ _ _ _ _ E) as (Ei&_&Eb).
  destruct (ReconcileInstallation_run _ _ _ _ _ _ _ _ E) as (i&rids&rs&meta&_&Hi&Ho&_&_&Hrev&Hrids&Hg). cbv zeta in Hg.
  pose proof (only_audit_same _ _ Hg) as (_&Er&_).
  destruct (revivals_spec _ _ _ _ _ Hrev) as (rs'&meta'&Es&H1&_). apply (f_equal repositories) in Es. unfold repositories in Es. simpl in Es. subst rs'.
  assert (∀ id r', repositories g' !! id = Some r' → is_Some (repositories g !! id) ∧
     (gr_owner r' = p_OwnerID p → gr_installation r' = ins_ID ins → gr_active r' = true ↔ id ∈ rp_ID <$> found)) as Hrepo.
  { intros id r' Hr'. rewrite Er in Hr'. apply retire_in_lookup in Hr' as (r&Hrs&->). split.
    - destruct (H1 id r Hrs) as [[? _]|(Hin&_)]; [eauto|]. apply Hrids in Hin as (_&x&?&_). eauto.
    - intros Hro Hrn. assert (gr_owner r = p_OwnerID p ∧ gr_installation r = ins_ID ins) as [Hro' Hrn'] by by case_bool_decide.
      destruct (decide (id ∈ rp_ID <$> found)) as [Hin|Hni].
      + rewrite bool_decide_false by (intros (x&_&_&_&_&?)%activeExcept_elem; done). split; [done|intros _].
        destruct (H1 id r Hrs) as [[Hx Hni]|(_&_&_&?)]; [|done]. destruct Hni. apply Hrids. eauto.
      + split; [|done]. case_bool_decide as Hrm; [done|]. intros Hact. destruct Hrm. apply activeExcept_elem. exists r. by split_and!. }
  split_and!; [done|done|..].
  - intros k b Hb Hact. split; [by apply Eb|]. intros Hn. destruct (co_bind _ _ _ Hc _ _ Hb) as (r&Hrr&Hk&Hri&Hra). specialize (Hra Hact).
    destruct (co_repo _ _ _ Hc _ _ Hrr) as (j&Hj&Hjo&_). destruct (Hrepo _ _ Hrr) as [_ Hx]. apply Hx; [|congruence|done]. rewrite Ei in Hj. congruence.
  - destruct Hg as (a&m&->). intros id r. apply invalidated_none_live.
Qed.

(** C27: Setups are used once, and by who started them.  A setup that completes
    was started and its callback verified in the same session of the same
    administrator; its handoff never completes a second time; and once a
    callback was accepted for a state, none is again, even after the rows of
    the setup have been pruned. *)
Theorem setup_used_once digest p ins found now u g0 g1 : gh_reachable g0 →
  (CompleteHandoff digest p ins found now g0 = inr (u, g1) →
     (∃ h s, gh_handoffs g0 !! digest = Some h ∧ gh_states g0 !! ho_state h = Some s ∧ is_Some (ss_consumed s) ∧
        ss_owner s = p_OwnerID p ∧ ss_user s = p_UserID p ∧ ss_session s = p_SessionID p ∧ ss_revision s = int64 (p_AuthRevision p) ∧
        gh_audit g0 !! auditID "setup" (ho_state h) = Some (ghAuditRow (p_OwnerID p) (p_UserID p) SetupStarted None None None)) ∧
     ∀ g2 p' ins' found' now' x g', rtc gh_step g1 g2 → CompleteHandoff digest p' ins' found' now' g2 ≠ inr (x, g')) ∧
  (∀ handoff, ReserveCallback digest handoff ins now g0 = inr (u, g1) →
     ∀ g2 handoff' ins' now' x g', rtc gh_step g1 g2 → ReserveCallback digest handoff' ins' now' g2 ≠ inr (x, g')).
Proof.
  intros [Hst Hho]%gh_reachable_setup. split.
  - intros E. split.
    + destruct (CompleteHandoff_run _ _ _ _ _ _ _ _ E) as (h&_&_&_&Hh&_&_&Ho&Hu&Hs&Hrv&_). destruct (Hho _ _ Hh) as (s&Hss&Eo&Eu&Es&Er&?).
      specialize (Hst _ _ Hss). unfold startedRow in Hst. exists h, s. rewrite <-Eo, <-Eu, Ho, Hu in Hst. split_and!; try done; congruence.
    + intros g2 p' ins' found' now' x g' H%steps_run E2. destruct (CompleteHandoff_setup _ _ _ _ _ _ _ _ E) as (_&_&_&_&_&[row Hrow]).
      destruct (CompleteHandoff_setup _ _ _ _ _ _ _ _ E2) as (_&_&_&_&Hn&_). eapply lookup_weaken in Hrow; [|by apply (gm_audit _ _ H)]. congruence.
  - intros handoff (s&h&Hs&_&_&_&_&_&_&_&_&_&a&m&Ha&_&->)%ReserveCallback_run g2 handoff' ins' now' x g' H.
    eapply (state_used_steps _ digest) in H as [_ Hused].
    + intros (s'&_&Hs'&Hc&_)%ReserveCallback_run. destruct (Hused _ Hs'). congruence.
    + split; [eexists; eapply lookup_weaken; [by apply Hst|done]|]. simpl. rewrite lookup_insert_eq. intros s' [= <-]. by eexists.
Qed.

(** C30: An App that is installed again cannot be set up again.  Once an
    installation of an account has been recorded for an owner, completing the
    setup of another installation of that account is refused in every later
    state, disabled or uninstalled as the first may be. *)
Theorem reinstallation_refused digest p ins found now n i g g' : gh_reachable g → installations g !! n = Some i →
  gi_owner i = p_OwnerID p → gi_account i = ow_AccountID (ins_Account ins) → ins_ID ins ≠ n → rtc gh_step g g' →
  ∀ x g'', CompleteHandoff digest p ins found now g' ≠ inr (x, g'').
Proof.
  intros Hr Hi Ho Ha Hne H x g'' E. pose proof (gh_reachable_chain _ _ (gh_reachable_steps _ _ _ Hr H)) as Hc.
  destruct (gm_inst _ _ (steps_run _ _ _ H) _ _ Hi) as (j&Hj&Ejo&Eja&_).
  destruct (CompleteHandoff_run _ _ _ _ _ _ _ _ E) as (h&g1&rs&meta&_&_&_&_&_&_&_&_&_&_&_&_&(k&types&_&_&_&_&Hold&Hnew)&_).
  destruct (installations g' !! ins_ID ins) as [old|] eqn:Eo.
  - destruct (Hold old eq_refl) as [Oo Oa]. apply Hne. eapply (co_account _ _ _ Hc); [done..| |]; congruence.
  - eapply (Hnew eq_refl n j); [done| |]; congruence.
Qed.

(** ** A checkout whose close never came *)

Lemma running_row wh f g id r : gh_reservations g !! id = Some r → wh id r = false →
  map_imap (λ k x, Some (if wh k x then f x else x)) (gh_reservations g) !! id = Some (r : ReservationRow).
Proof. intros Hr Hw. rewrite map_lookup_imap, Hr. simpl. by rewrite Hw. Qed.
Lemma running_update wh f g ids g' id r : update_reservations wh f g = inr (ids, g') → gh_reservations g !! id = Some r → wh id r = false →
  gh_reservations g' !! id = Some r.
Proof. unfold update_reservations. intros [= _ <-] Hr Hw. by apply running_row. Qed.
Definition closesCheckout (id : string) (c : GHCall) : bool :=
  match c with GClose id' _ => bool_decide (id' = id) | GDisable _ _ _ _ | GReconcile _ _ _ _ _ => true | _ => false end.
Lemma running_stays id r c g : gh_reservations g !! id = Some r → rv_state r = RRunning → closesCheckout id c = false →
  gh_reservations (ghExec c g) !! id = Some r.
Proof.
  intros Hr Hst Hc. destruct c; try done; simpl; match goal with |- context [run_tx ?m g] => destruct (run_tx_cases m g) as [->|(x&g'&E&->)]; [done|] end.
  - unfold EnsureAppRegistration in E. gh_inv. destruct (gh_app g); gh_inv; done.
  - by apply CreateSetupState_run in E as (?&?&?&_&_&_&_&_&_&->).
  - unfold PendingInstallation in E. by gh_inv.
  - by apply BeginCallback_run in E as (?&_&_&->).
  - by apply CancelCallback_run in E as [->|(?&_&_&->)].
  - by apply ReserveCallback_run in E as (?&?&_&_&_&_&_&_&_&_&_&_&?&?&_&_&->).
  - apply CompleteHandoff_run in E as (?&?&?&?&_&_&_&_&_&_&_&_&_&_&_&_&(?&?&->&_)&_&Ha). cbv zeta in Ha. by apply insertGitHubAudit_inv in Ha as (_&->&_).
  - by apply BindRepository_run in E as (?&?&?&?&_&_&_&_&_&_&_&_&_&->&(_&->&_)%insertGitHubAudit_inv).
  - apply ReserveCheckout_run in E as (k&b&rv&_&_&_&->&Hn&_&->). simpl. set (rv := map_imap _ _) in *.
    assert (rv !! id = Some r) as Hrv by (apply running_row; [done|]; rewrite Hst; by rewrite andb_false_r).
    by rewrite lookup_insert_ne by (intros ->; congruence).
  - unfold BeginMintAttempt in E. gh_inv. bool_hyps. eapply running_update; [done|done|]. unfold onlyRow. rewrite andb_true_r. apply bool_decide_eq_false. intros ->. congruence.
  - unfold ActivateMintAttempt in E. gh_inv. eapply running_update; [done|done|]. unfold onlyRow. rewrite Hst. simpl. apply andb_false_r.
  - unfold StartCheckout in E. gh_inv. eapply running_update; [done|done|]. unfold onlyRow. rewrite Hst. simpl. apply andb_false_r.
  - unfold CloseCheckout in E. gh_inv. simpl in Hc. match goal with H : update_reservations _ _ _ = _ |- _ => eapply running_update in H; [rename H into Hrow|done|] end.
    + destruct (bool_decide _) in E; gh_inv; done.
    + unfold onlyRow. apply bool_decide_eq_false in Hc. by rewrite bool_decide_false by congruence.
Qed.

(** C29: A running checkout that is never closed blocks its project for good.
    Whatever calls are made, in whatever order, as long as none of them closes
    it, disables an installation or reconciles one, the reservation's row
    stays exactly as it is, and no other is made for its project at any
    instant, its own expiry long past or not. *)
Theorem running_reservation_blocks id r g cs : gh_reservations g !! id = Some r → rv_state r = RRunning →
  Forall (λ c, closesCheckout id c = false) cs →
  let g' := foldl (λ g c, ghExec c g) g cs in
  gh_reservations g' !! id = Some r ∧
  ∀ sha rnd t now, ReserveCheckout (rv_owner r) (rv_project r) sha rnd t now g' = inl GDenied.
Proof.
  intros Hr Hst Hcs g'. assert (gh_reservations g' !! id = Some r) as Hr'.
  { subst g'. revert g Hr. induction Hcs as [|c cs Hc _ IH]; intros g Hr; [done|]. simpl. apply IH. by apply running_stays. }
  split; [done|]. intros sha rnd t now. apply denied_unless.
  - unfold ReserveCheckout. repeat (apply denies_bind; [auto with denies|intros]); [|auto with denies].
    intros y e. destruct (insert_reservation _ _ _); [by intros [= <-]|done].
  - intros x g2 (k&b&rv&_&_&_&->&_&Hone&_)%ReserveCheckout_run.
    assert (liveReservation (rv_state r) = false) as Hl; [|by rewrite Hst in Hl]. eapply (Hone id r); [|done|done]. apply running_row; [done|]. by rewrite Hst, andb_false_r.
Qed.
End props.

(** ** Instances *)

Lemma checkout_authority_uninterrupted_witness :
  capturedBinding = cr_Binding theReservation ∧
  ∀ g, rtc (gh_step plainText) reservedDB g → rtc (gh_step plainText) g activeDB →
    chainHolds capturedBinding g = true ∧ snapshotOfChain "owner-1" "project-1" g = snapshotOfChain "owner-1" "project-1" boundDB.
Proof.
  exact (checkout_authority_uninterrupted plainText "owner-1" "project-1" aCommit someRandomness _ _ boundDB theReservation reservedDB reservedDB _ _ mintedDB activeDB
    _ tt runningDB reserve_run (rtc_refl _ _) mint_run (activate_step _ _ _ _ _ _ activate_run) start_run).
Defined.
Lemma disable_withdraws_witness : ∃ ids g', DisableInstallation theAdministrator 3 "audit-disable" (atMinute 9) boundDB = inr (ids, g') ∧
  chainHolds capturedBinding boundDB = true ∧ ∀ g, rtc (gh_step plainText) g' g → chainHolds capturedBinding g = false.
Proof.
  assert (chainHolds capturedBinding boundDB = true) as Hh by (vm_compute; reflexivity).
  assert (cb_InstallationID capturedBinding = 3) as Hn by (vm_compute; reflexivity).
  destruct (ran (DisableInstallation theAdministrator 3 "audit-disable" (atMinute 9)) boundDB) as (ids&g'&E); [vm_compute; reflexivity|].
  exists ids, g'. split; [exact E|]. split; [exact Hh|]. intros g Hg.
  destruct (disable_withdraws plainText _ _ _ _ _ _ _ boundDB_reachable E) as (_&_&Hw&_). exact (Hw capturedBinding boundDB g Hn (rtc_refl _ _) Hh Hg).
Defined.
Definition listed : list ProviderRepository := [providerRepository 6 "web"; providerRepository 9 "new"].
Lemma reconcile_exact_witness : ∃ ids g', ReconcileInstallation theAdministrator theInstallation listed "audit-reconcile" (atMinute 9) boundDB = inr (ids, g') ∧
  installations g' = installations boundDB ∧ ∀ id r, repositories g' !! id = Some r → is_Some (repositories boundDB !! id).
Proof.
  destruct (ran (ReconcileInstallation theAdministrator theInstallation listed "audit-reconcile" (atMinute 9)) boundDB) as (ids&g'&E); [vm_compute; reflexivity|].
  exists ids, g'. split; [exact E|]. destruct (reconcile_exact plainText _ _ _ _ _ _ _ _ boundDB_reachable E) as (Hi&Hr&_). split; [exact Hi|].
  intros id r Hid. exact (proj1 (Hr id r Hid)).
Defined.
Lemma reservation_steps_once_witness :
  BeginMintAttempt chosenID (atMinute 9) runningDB = inl GDenied ∧ StartCheckout chosenID capturedBinding (atMinute 9) runningDB = inl GDenied.
Proof.
  destruct (reservation_steps_once plainText chosenID activeDB runningDB runningDB (atMinute 8) (atMinute 9) (rtc_refl _ _)) as (_&_&H&_).
  destruct (H capturedBinding tt start_run) as [Hb Hs]. split; [exact Hb|]. exact (proj2 (Hs capturedBinding)).
Defined.
Lemma authority_needs_administrator_witness :
  isSomeb (installations (ghExec plainText complete verifiedDB) !! 3) = true ∧ installations verifiedDB !! 3 = None ∧
  ∃ p now, adminLive p now (gh_auth verifiedDB) = true.
Proof.
  assert (isSomeb (installations (ghExec plainText complete verifiedDB) !! 3) = true) as Hs by (vm_compute; reflexivity).
  assert (installations verifiedDB !! 3 = None) as Hn by (vm_compute; reflexivity). split; [exact Hs|]. split; [exact Hn|].
  assert (match installations (ghExec plainText complete verifiedDB) !! 3 with Some i => authorized i | None => false end = true) as Ha by (vm_compute; reflexivity).
  pose proof (proj1 (authority_needs_administrator plainText complete verifiedDB) 3) as H. revert H Ha. generalize (installations (ghExec plainText complete verifiedDB)).
  intros m H Ha. destruct (m !! 3) as [i|]; [|discriminate Ha]. destruct (H i eq_refl Ha) as (d&p&ins&found&now&h&_&_&Hl&_); [rewrite Hn; discriminate|]. exists p, now. exact Hl.
Defined.
Lemma authority_is_the_binding_witness : is_Some (authorityChain "owner-1" "project-1" boundDB).
Proof.
  apply (authority_is_the_binding plainText "owner-1" "project-1" boundDB boundDB_reachable); [vm_compute; reflexivity|].
  assert (match bindings boundDB !! ("owner-1", "project-1") with Some b => gb_active b | None => false end = true) as Hb by (vm_compute; reflexivity).
  revert Hb. generalize (bindings boundDB). intros m Hb. destruct (m !! ("owner-1", "project-1")) as [b|]; [|discriminate Hb]. exists b. split; [reflexivity|exact Hb].
Defined.
Lemma setup_used_once_witness : ∃ u g1,
  CompleteHandoff handoffDigest theAdministrator theInstallation [providerRepository 4 "api"] (atMinute 5) verifiedDB = inr (u, g1) ∧
  ∀ g2 p' ins' found' now' x g', rtc (gh_step plainText) g1 g2 → CompleteHandoff handoffDigest p' ins' found' now' g2 ≠ inr (x, g').
Proof.
  destruct (ran (CompleteHandoff handoffDigest theAdministrator theInstallation [providerRepository 4 "api"] (atMinute 5)) verifiedDB) as (u&g1&E);
    [vm_compute; reflexivity|].
  exists u, g1. split; [exact E|]. exact (proj2 (proj1 (setup_used_once plainText _ _ _ _ _ _ _ _ verifiedDB_reachable) E)).
Defined.
Lemma reinstallation_refused_witness :
  match CompleteHandoff handoffDigest theAdministrator {| ins_ID := 8; ins_Account := account; ins_Suspended := false |} [] (atMinute 60) boundDB with
  | inl _ => True | inr _ => False end.
Proof.
  destruct (CompleteHandoff _ _ _ _ _ _) as [|[x g'']] eqn:E; [exact I|]. revert E.
  refine (reinstallation_refused plainText handoffDigest theAdministrator {| ins_ID := 8; ins_Account := account; ins_Suspended := false |} [] (atMinute 60) 3 {| gi_owner := "owner-1"; gi_account := 5; gi_active := true; gi_suspended := false; gi_revision := 1 |}
    boundDB boundDB boundDB_reachable _ eq_refl eq_refl _ (rtc_refl _ _) x g''); [vm_compute; reflexivity|discriminate].
Defined.
Lemma running_reservation_blocks_witness :
  ReserveCheckout "owner-1" "project-1" aCommit someRandomness (atMinute 2000) (atMinute 2000) (foldl (λ g c, ghExec plainText c g) runningDB [GBeginMint chosenID (atMinute 1000)]) = inl GDenied.
Proof.
  assert (match gh_reservations runningDB !! chosenID with Some r => bool_decide (rv_state r = RRunning) && bool_decide (rv_owner r = "owner-1")
    && bool_decide (rv_project r = "project-1") | None => false end = true) as H by (vm_compute; reflexivity).
  destruct (gh_reservations runningDB !! chosenID) as [r|] eqn:Hr; [|discriminate H]. apply andb_prop in H as [[H1 H2]%andb_prop H3].
  apply bool_decide_eq_true in H1, H2, H3. rewrite <-H2, <-H3.
  eapply (running_reservation_blocks plainText chosenID r runningDB [GBeginMint chosenID (atMinute 1000)] Hr H1). constructor; [reflexivity|constructor].
Defined.
