(* ===== verification/SetupService.v ===== *)
(** * The setup service (src/internal/githubapp/setup.go)

    What the administrator's console calls: it mints the capabilities, asks the
    provider and drives the repository.  The provider's answers and the random
    bytes are arguments; [other] is what other calls make of the database while
    the provider is asked, between two transactions of one method.  Every
    failure is the one error [ErrSetupUnavailable], so a result is an option. *)
From S2P Require Import Prelude GoStd Base64 Token Queue Route Schema Evidence LeaseCore Lease Enqueue LeaseSystem CallsKeep Webhooks WebhookSteps WebhookSystem Password Hmac AuthTokens AuthStore Throttle Sessions AuthInv AuthSystem AuthScenario GitHubApp GitHubStore GitHubRepo GitHubChain GitHubSteps GitHubSystem GitHubRuns GitHubInv GitHubScenario.
#[local] Open Scope Z_scope.

Record ProviderAnswers := {
  pa_app : option App;
  pa_installation : option ProviderInstallation;
  pa_repositories : option (list ProviderRepository);
}.
Record SetupConfig := { sc_identity : AppIdentity; sc_owner : Owner }.
Definition setupConfigValid (c : SetupConfig) : bool := appIdentityValid (sc_identity c) && ownerValid (sc_owner c).

(** ** The methods *)

Section service.
Context (cfg : SetupConfig).

Definition okResult {A} (r : GHErr + A) : option A := match r with inr x => Some x | inl _ => None end.
Definition appVerified (a : ProviderAnswers) : bool :=
  match pa_app a with Some app => VerifyApp app (sc_identity cfg) (sc_owner cfg) | None => false end.
(** The installation the provider names, if it is the one asked for, not
    suspended and the configured owner's. *)
Definition installationVerified (a : ProviderAnswers) (id : Z) : option ProviderInstallation :=
  i ← pa_installation a;
  if (ins_ID i =? id) && negb (ins_Suspended i) && bool_decide (ins_Account i = sc_owner cfg) then Some i else None.

Definition setupStart (p : Principal) (randomness : string) (now : Z) (g : GHDB) : option string * GHDB :=
  if negb (validPrincipal p) then (None, g)
  else
    match (s ← NewCapability randomness; d ← SetupDigest s; Some (s, d)) with
    | None => (None, g)
    | Some (state, d) => let '(r, g') := run_tx (CreateSetupState d p now) g in ((λ _, state) <$> okResult r, g')
    end.

Definition setupCallback (state : string) (installationID : Z) (action : string) (a : ProviderAnswers) (randomness : string) (other : GHDB → GHDB)
    (now now' : Z) (g : GHDB) : option string * GHDB :=
  if negb (bool_decide (action = "install")) || (installationID <=? 0) then (None, g)
  else
    match SetupDigest state with
    | None => (None, g)
    | Some d =>
        let '(r, g1) := run_tx (BeginCallback d now) g in
        if negb (isSomeb (okResult r)) then (None, g1)
        else
          let g2 := other g1 in
          let cancelled g := (None, (run_tx (CancelCallback d) g).2) in
          if negb (appVerified a) then cancelled g2
          else
            match installationVerified a installationID with
            | None => cancelled g2
            | Some i =>
                match (h ← NewCapability randomness; hd ← HandoffDigest h; Some (h, hd)) with
                | None => cancelled g2
                | Some (handoff, hd) =>
                    let '(r, g3) := run_tx (ReserveCallback d hd i now') g2 in
                    match r with inr _ => (Some handoff, g3) | inl _ => cancelled g3 end
                end
            end
    end.

Definition setupComplete (handoff : string) (p : Principal) (a : ProviderAnswers) (other : GHDB → GHDB) (now now' : Z) (g : GHDB) : option unit * GHDB :=
  match HandoffDigest handoff with
  | None => (None, g)
  | Some d =>
      match (run_tx (PendingInstallation d p now) g).1 with
      | inl _ => (None, g)
      | inr pending =>
          let g1 := other g in
          if negb (appVerified a) then (None, g1)
          else
            match (i ← installationVerified a (ins_ID pending); rs ← pa_repositories a; Some (i, rs)) with
            | None => (None, g1)
            | Some (i, rs) => let '(r, g2) := run_tx (CompleteHandoff d p i rs now') g1 in (okResult r, g2)
            end
      end
  end.

(** The reservations invalidated are answered for [InvalidateCheckoutReservation]. *)
Definition lifecycleAudit (randomness : string) : option string :=
  c ← NewCapability randomness; d ← HandoffDigest c; Some (lifecycleAuditID d).
Definition setupReconcile (p : Principal) (installationID : Z) (a : ProviderAnswers) (randomness : string) (other : GHDB → GHDB) (now : Z) (g : GHDB) :
    option (list string) * GHDB :=
  if negb (validPrincipal p) || (installationID <=? 0) then (None, g)
  else
    let g1 := other g in
    let disable :=
      match lifecycleAudit randomness with
      | None => (None, g1)
      | Some audit => let '(r, g2) := run_tx (DisableInstallation p installationID audit now) g1 in (okResult r, g2)
      end in
    if negb (appVerified a) then disable
    else
      match installationVerified a installationID with
      | None => disable
      | Some i =>
          match (rs ← pa_repositories a; audit ← lifecycleAudit randomness; Some (rs, audit)) with
          | None => (None, g1)
          | Some (rs, audit) => let '(r, g2) := run_tx (ReconcileInstallation p i rs audit now) g1 in (okResult r, g2)
          end
      end.

Definition HandoffValid (handoff : string) (p : Principal) (now : Z) (g : GHDB) : bool :=
  match HandoffDigest handoff with Some d => isSomeb (okResult (run_tx (PendingInstallation d p now) g).1) | None => false end.
Definition setupBind (p : Principal) (input : GitBindingInput) (audit : string) (now : Z) (g : GHDB) : option unit * GHDB :=
  if negb (validPrincipal p && bindingInputValid input) then (None, g)
  else let '(r, g') := run_tx (BindRepository p input audit now) g in (okResult r, g').
End service.

(** ** What they guarantee *)

(** A capability that was minted is recognized: its digests exist, and the
    setup digest is of the very bytes drawn. *)
Lemma NewCapability_digest domain rnd s : NewCapability rnd = Some s → ∃ b, readFull 32 rnd = Some b ∧
  capabilityDigest domain s = Some (Sum256 ((domain +:+ ":") +:+ b +:+ nul)).
Proof.
  unfold NewCapability. intros (b&Hb&->)%fmap_Some. exists b. split; [done|]. unfold capabilityDigest. destruct (readFull_spec 32 _ _ ltac:(lia) Hb) as [Hl _].
  rewrite RawURL_length, Hl, RawURL_roundtrip. simpl. by rewrite Hl.
Qed.
Lemma VerifyApp_exact app want owner : VerifyApp app want owner = true →
  app_ID app = ai_AppID want ∧ app_ClientID app = ai_ClientID want ∧ app_Slug app = ai_Slug want ∧ app_Owner app = owner ∧
  app_Permissions app = appPermissions ∧ app_Events app = ["push"].
Proof.
  unfold VerifyApp. intros H. bool_hyps. split_and!; try done; [|by apply exactStrings_singleton].
  apply exactPermissions_eq; [|done]. unfold appPermissions. intros k v [[_ <-]|[_ [_ <-]%lookup_singleton_Some]]%lookup_insert_Some; done.
Qed.
Lemma installationVerified_inv cfg a id i : installationVerified cfg a id = Some i →
  pa_installation a = Some i ∧ ins_ID i = id ∧ ins_Suspended i = false ∧ ins_Account i = sc_owner cfg.
Proof. unfold installationVerified. intros (x&Hx&H)%bind_Some. case_match eqn:E; [|done]. injection H as ->. bool_hyps. done. Qed.
Lemma ok_run {A} (m : GHTx A) g r x g' : run_tx m g = (r, g') → okResult r = Some x → m g = inr (x, g').
Proof. unfold run_tx. destruct (m g) as [|[y g1]]; intros [= <- <-]; simpl; congruence. Qed.

(** C28: The service sets up only the configured App for the configured
    account.  When completing a setup succeeds the provider showed the App with
    the configured identity and owner, allowed to read contents and metadata
    and told of pushes and nothing more, and an unsuspended installation of the
    configured account; the administrator was live and held the handoff for
    that very installation; and it is authorized under its owner. *)
Theorem setup_authorizes_configured_account cfg handoff p a other now now' g u g' :
  setupComplete cfg handoff p a other now now' g = (Some u, g') →
  ∃ app i d h row,
    pa_app a = Some app ∧ app_ID app = ai_AppID (sc_identity cfg) ∧ app_ClientID app = ai_ClientID (sc_identity cfg) ∧
    app_Slug app = ai_Slug (sc_identity cfg) ∧ app_Owner app = sc_owner cfg ∧
    app_Permissions app = {["contents" := "read"; "metadata" := "read"]} ∧ app_Events app = ["push"] ∧
    pa_installation a = Some i ∧ ins_Suspended i = false ∧ ins_Account i = sc_owner cfg ∧
    HandoffDigest handoff = Some d ∧ gh_handoffs (other g) !! d = Some h ∧ ho_installation h = ins_ID i ∧ ho_user h = p_UserID p ∧
    adminLive p now' (gh_auth (other g)) = true ∧
    installations g' !! ins_ID i = Some row ∧ authorized row = true ∧ gi_owner row = p_OwnerID p ∧ gi_account row = ow_AccountID (sc_owner cfg).
Proof.
  unfold setupComplete. destruct (HandoffDigest handoff) as [d|]; [|done]. destruct (run_tx _ g).1 as [|pending]; [done|]. cbv zeta.
  destruct (appVerified cfg a) eqn:Ev; [|done]. destruct (installationVerified cfg a _) as [i|] eqn:Ei; [|done]. simpl.
  destruct (pa_repositories a) as [rs|]; [|done]. simpl. destruct (run_tx _ (other g)) as [r g2] eqn:Er. intros [= Hok <-].
  pose proof (ok_run _ _ _ _ _ Er Hok) as Hrun. apply installationVerified_inv in Ei as (Hi&_&Hs&Hacc).
  unfold appVerified in Ev. destruct (pa_app a) as [app|]; [|done]. apply VerifyApp_exact in Ev as (?&?&?&?&?&?).
  pose proof (CompleteHandoff_run _ _ _ _ _ _ _ _ Hrun) as (h&g1&rs'&meta&Hh&_&_&_&Hu&_&_&Hn&_&Hl&_&_&(row&types&->&Ha&Ho&Hac&_)&_&Hg). cbv zeta in Hg.
  apply insertGitHubAudit_inv in Hg as (_&->&_). exists app, i, d, h, row. rewrite Hacc in Hac. split_and!; try done. apply lookup_insert_eq.
Qed.

(** Reconciliation fails closed.  After one that succeeds the
    installation is authorized only if the provider just now showed the
    configured App and the installation, unsuspended and the configured
    account's; in every other case it is disabled. *)
Theorem reconcile_fails_closed cfg p n a rnd other now g ids g' row :
  setupReconcile cfg p n a rnd other now g = (Some ids, g') → installations g' !! n = Some row → authorized row = true →
  appVerified cfg a = true ∧ ∃ i, pa_installation a = Some i ∧ ins_ID i = n ∧ ins_Suspended i = false ∧ ins_Account i = sc_owner cfg.
Proof.
  intros H Hrow Ha. unfold setupReconcile in H. destruct (_ || _) in H; [done|]. cbv zeta in H.
  assert (∀ audit ids' g2, DisableInstallation p n audit now (other g) = inr (ids', g2) → installations g2 !! n = Some row → False) as Hdis.
  { intros audit ids' g2 (_&i&Hi&_&[(Hina&_&->)|[_ (E&_)%only_audit_same]])%DisableInstallation_run Hr.
    - assert (row = i) as -> by congruence. unfold authorized in Ha. by rewrite Hina in Ha.
    - rewrite E in Hr. change (<[n := suspend i]> (installations (other g)) !! n = Some row) in Hr. rewrite lookup_insert_eq in Hr. by injection Hr as <-. }
  assert (∀ x, match lifecycleAudit rnd with Some audit => let '(r, g2) := run_tx (DisableInstallation p n audit now) (other g) in (okResult r, g2) | None => x end
    = (Some ids, g') → x.1 = None → False) as Hdis'.
  { intros x Hx Hx1. destruct (lifecycleAudit rnd) as [audit|]; [|by subst x]. destruct (run_tx _ _) as [r g2] eqn:Er. injection Hx as Hok ->.
    eapply Hdis; [by eapply ok_run|done]. }
  destruct (appVerified cfg a) eqn:Ev; simpl in H; [|by destruct (Hdis' _ H)]. split; [done|].
  destruct (installationVerified cfg a n) as [i|] eqn:Ei; [|by destruct (Hdis' _ H)]. apply installationVerified_inv in Ei as (?&?&?&?). eauto.
Qed.

(** ** Instances *)

Definition demoConfig : SetupConfig := {| sc_identity := appIdentity; sc_owner := account |}.
Definition demoAnswers : ProviderAnswers :=
  {| pa_app := Some {| app_ID := 77; app_ClientID := "Iv1.0123456789abcdef"; app_Slug := "autodeploy"; app_Owner := account;
                       app_Permissions := {["contents" := "read"; "metadata" := "read"]}; app_Events := ["push"] |};
     pa_installation := Some theInstallation; pa_repositories := Some [providerRepository 4 "api"] |}.
Definition drawn (n : nat) : string := String.concat "" (replicate 32 (FormatInt (Z.of_nat n))).
Definition registeredDB : GHDB := ghRun registered.
Definition andThen (r : option string * GHDB) (f : string → GHDB → option (string * GHDB)) : option (string * GHDB) :=
  match r with (Some s, g) => f s g | (None, _) => None end.
Definition demoHandoff : option (string * GHDB) :=
  andThen (setupStart theAdministrator (drawn 1) (atMinute 3) registeredDB) (λ state g1,
    andThen (setupCallback demoConfig state 3 "install" demoAnswers (drawn 2) (λ g, g) (atMinute 4) (atMinute 4) g1) (λ handoff g2, Some (handoff, g2))).
Lemma setup_authorizes_configured_account_witness : ∃ handoff g u g',
  setupComplete demoConfig handoff theAdministrator demoAnswers id (atMinute 5) (atMinute 6) g = (Some u, g') ∧
  ∃ i row, pa_installation demoAnswers = Some i ∧ installations g' !! ins_ID i = Some row ∧ authorized row = true.
Proof.
  assert (match demoHandoff with
          | Some (h, g) => isSomeb (setupComplete demoConfig h theAdministrator demoAnswers id (atMinute 5) (atMinute 6) g).1
          | None => false end = true) as H by (vm_compute; reflexivity).
  destruct demoHandoff as [[h g]|]; [|discriminate H]. destruct (setupComplete demoConfig h _ _ _ _ _ g) as [[u|] g'] eqn:E; [|discriminate H].
  exists h, g, u, g'. split; [exact E|].
  destruct (setup_authorizes_configured_account _ _ _ _ _ _ _ _ _ _ E) as (app&i&d&x&row&_&_&_&_&_&_&_&Hi&_&_&_&_&_&_&_&Hr&Ha&_). exists i, row. split; [exact Hi|].
  split; [exact Hr|exact Ha].
Defined.
Lemma reconcile_fails_closed_witness : ∃ ids g' row,
  setupReconcile demoConfig theAdministrator 3 demoAnswers (drawn 3) id (atMinute 9) boundDB = (Some ids, g') ∧ installations g' !! 3 = Some row ∧
  authorized row = true ∧ appVerified demoConfig demoAnswers = true.
Proof.
  assert (match setupReconcile demoConfig theAdministrator 3 demoAnswers (drawn 3) id (atMinute 9) boundDB with
          | (Some _, g') => match installations g' !! 3 with Some row => authorized row | None => false end
          | (None, _) => false end = true) as H by (vm_compute; reflexivity).
  destruct (setupReconcile demoConfig _ _ _ _ _ _ boundDB) as [[ids|] g'] eqn:E; [|discriminate H].
  destruct (installations g' !! 3) as [row|] eqn:Er; [|discriminate H]. exists ids, g', row. split; [reflexivity|]. split; [exact Er|]. split; [exact H|].
  exact (proj1 (reconcile_fails_closed _ _ _ _ _ _ _ _ _ _ _ E Er H)).
Defined.
