(* ===== verification/Checkout.v ===== *)
(** * Checkout of a repository by an agent (src/internal/githubapp/checkout.go,
    src/internal/agent/http/checkout.go)

    The three handlers an agent calls, the registry they share, the service
    that mints a token and the leases that hold one in memory.  A request is a
    thread; a step of a thread is at most one transaction or one exchange with
    the provider, together with the accesses to memory, each under its mutex,
    next to it.  Any number of requests run at once, between the calls of the
    repositories.  Leases are shared by pointer: a lease is a number, and the
    heap, the active leases and the registry refer to it.

    Answers of the provider are part of the step: [mo_token] is what a mint
    returned, [mo_revoked] whether it confirmed a revocation.  A context is
    never cancelled by the model; a failed exchange covers it. *)
From S2P Require Import Prelude GoStd Base64 Token Queue Route Schema Evidence LeaseCore Lease Enqueue LeaseSystem CallsKeep Webhooks WebhookSteps WebhookSystem Password Hmac AuthTokens AuthStore GitHubApp GitHubStore GitHubRepo GitHubChain GitHubSteps GitHubSystem.
#[local] Open Scope Z_scope.

(** ** Memory *)

Record CheckoutLease := { lz_token : string; lz_binding : CheckoutBinding; lz_expires : Z; lz_delivered : bool; lz_invalidated : bool }.
Record Caller := { cl_server : string; cl_attempt : Z; cl_fence : Z }.
#[global] Instance Caller_eq_dec : EqDecision Caller.
Proof. solve_decision. Defined.
Record RegistryEntry := { re_caller : Caller; re_lease : option nat; re_started : bool; re_closed : bool; re_expires : Z }.
Record TokenDelivery := { dv_caller : Caller; dv_reservation : string; dv_token : string }.

(** [ck_authorized] and [ck_delivered] are the history: who was authorized for
    what, and which responses carried a token. *)
Record CK := {
  ck_gh : GHDB;
  ck_heap : list CheckoutLease;
  ck_active : gmap string nat;            (* activeLeases *)
  ck_entries : gmap string RegistryEntry; (* CheckoutRegistry *)
  ck_authorized : list (Caller * CheckoutAuthorization);
  ck_delivered : list TokenDelivery;
}.
Definition with_gh x s := Build_CK x (ck_heap s) (ck_active s) (ck_entries s) (ck_authorized s) (ck_delivered s).
Definition with_heap x s := Build_CK (ck_gh s) x (ck_active s) (ck_entries s) (ck_authorized s) (ck_delivered s).
Definition with_active x s := Build_CK (ck_gh s) (ck_heap s) x (ck_entries s) (ck_authorized s) (ck_delivered s).
Definition with_entries x s := Build_CK (ck_gh s) (ck_heap s) (ck_active s) x (ck_authorized s) (ck_delivered s).
Definition with_authorized x s := Build_CK (ck_gh s) (ck_heap s) (ck_active s) (ck_entries s) x (ck_delivered s).
Definition with_delivered x s := Build_CK (ck_gh s) (ck_heap s) (ck_active s) (ck_entries s) (ck_authorized s) x.

(** ** Leases *)

Definition lz_set (token : string) (delivered invalidated : bool) (l : CheckoutLease) : CheckoutLease :=
  {| lz_token := token; lz_binding := lz_binding l; lz_expires := lz_expires l; lz_delivered := delivered; lz_invalidated := invalidated |}.
(** [Revoke]: nothing to do without a token; the token goes when the provider
    confirms. *)
Definition Revoke (revoked : bool) (l : CheckoutLease) : CheckoutLease :=
  if bool_decide (lz_token l = "") then l else if revoked then lz_set "" (lz_delivered l) (lz_invalidated l) l else l.
Definition revokeOk (revoked : bool) (l : CheckoutLease) : bool := bool_decide (lz_token l = "") || revoked.
Definition invalidate (l : CheckoutLease) : CheckoutLease := lz_set (lz_token l) (lz_delivered l) true l.
Definition tokenAvailable (l : CheckoutLease) : bool := negb (bool_decide (lz_token l = "")) && negb (lz_delivered l) && negb (lz_invalidated l).
Definition leaseStart (l : CheckoutLease) (now : Z) (g : GHDB) : bool * GHDB :=
  if bool_decide (cb_ReservationID (lz_binding l) = "") || negb (tokenAvailable l) then (false, g)
  else let '(r, g') := run_tx (StartCheckout (cb_ReservationID (lz_binding l)) (lz_binding l) now) g in (match r with inr _ => true | inl _ => false end, g').
Definition DeliverToken (l : CheckoutLease) : option (string * CheckoutLease) :=
  if tokenAvailable l then Some (lz_token l, lz_set (lz_token l) true (lz_invalidated l) l) else None.

(** [Close]: both the reservation and the token, whatever becomes of the other. *)
Definition leaseClose (n : nat) (now : Z) (revoked : bool) (s : CK) : bool * CK :=
  match ck_heap s !! n with
  | None => (false, s)
  | Some l =>
      let id := cb_ReservationID (lz_binding l) in
      let '(closed, g) := if bool_decide (id = "") then (false, ck_gh s)
        else let '(r, g') := run_tx (CloseCheckout id now) (ck_gh s) in (match r with inr _ => true | inl _ => false end, g') in
      (closed && revokeOk revoked l, with_active (delete id (ck_active s)) (with_heap (<[n := Revoke revoked l]> (ck_heap s)) (with_gh g s)))
  end.
(** [InvalidateCheckoutReservation]; the revocation it starts in the background
    is a step of its own. *)
Definition InvalidateCheckoutReservation (id : string) (s : CK) : CK :=
  match n ← ck_active s !! id; l ← ck_heap s !! n; Some (n, l) with
  | Some (n, l) => with_heap (<[n := invalidate l]> (ck_heap s)) s
  | None => s
  end.
Definition revokeLease (n : nat) (revoked : bool) (s : CK) : CK := with_heap (alter (Revoke revoked) n (ck_heap s)) s.

(** ** The registry *)

Definition checkoutRegistryTTL : Z := 30 * minute.
Definition sweepLocked (clock : Z) (m : gmap string RegistryEntry) : gmap string RegistryEntry := filter (λ kv, clock < re_expires kv.2) m.
Definition registryAdd (id : string) (c : Caller) (clock : Z) (m : gmap string RegistryEntry) : gmap string RegistryEntry :=
  <[id := {| re_caller := c; re_lease := None; re_started := false; re_closed := false; re_expires := clock + checkoutRegistryTTL |}]> (sweepLocked clock m).
Definition registryMatch (id : string) (c : Caller) (clock : Z) (m : gmap string RegistryEntry) : option RegistryEntry :=
  e ← sweepLocked clock m !! id; if bool_decide (re_caller e = c) then Some e else None.
Definition re_set (lease : option nat) (started closed : bool) (e : RegistryEntry) : RegistryEntry :=
  {| re_caller := re_caller e; re_lease := lease; re_started := started; re_closed := closed; re_expires := re_expires e |}.
Definition claimStart (id : string) (c : Caller) (clock : Z) (m : gmap string RegistryEntry) : bool * gmap string RegistryEntry :=
  let m := sweepLocked clock m in
  match m !! id with
  | Some e => if bool_decide (re_caller e = c) && negb (re_started e) && negb (re_closed e)
              then (true, <[id := re_set (re_lease e) true (re_closed e) e]> m) else (false, m)
  | None => (false, m)
  end.
Definition releaseStart (id : string) : gmap string RegistryEntry → gmap string RegistryEntry :=
  alter (λ e, if isSomeb (re_lease e) then e else re_set (re_lease e) false (re_closed e) e) id.
Definition setLease (id : string) (n : nat) : gmap string RegistryEntry → gmap string RegistryEntry :=
  alter (λ e, re_set (Some n) (re_started e) (re_closed e) e) id.
Definition markClosed (id : string) : gmap string RegistryEntry → gmap string RegistryEntry :=
  alter (λ e, re_set (re_lease e) (re_started e) true e) id.

(** ** Requests *)

Inductive Thread :=
  (* handleCheckoutBegin *)
  | BeginReserve (c : Caller) (a : CheckoutAuthorization)
  | BeginAdd (c : Caller) (id : string)
  | BeginDisagree (id : string)
  (* handleCheckoutStart *)
  | StartClaim (c : Caller) (id : string)
  | StartBeginMint (c : Caller) (id : string)
  | StartMint (c : Caller) (id : string) (b : CheckoutBinding)
  | StartActivate (c : Caller) (id : string) (b : CheckoutBinding) (t : CheckoutToken)
  | StartRegister (c : Caller) (id : string) (b : CheckoutBinding) (t : CheckoutToken)
  | StartFailed (id : string)
  | StartRelease (id : string)
  | StartLease (c : Caller) (id : string) (n : nat)
  | StartAbort (id : string) (n : nat)
  | StartSet (c : Caller) (id : string) (n : nat)
  | StartDeliver (c : Caller) (id : string) (n : nat)
  (* handleCheckoutClose *)
  | CloseMatch (c : Caller) (id : string)
  | CloseRun (id : string) (lease : option nat)
  | CloseMark (id : string).

Record Moment := { mo_now : Z; mo_clock : Z; mo_random : string; mo_token : option CheckoutToken; mo_revoked : bool }.

(** A request up to its authorization; an identity or a body that is refused
    starts none. *)
Inductive Request := ReqBegin (c : Caller) | ReqStart (c : Caller) (id : string) | ReqClose (c : Caller) (id : string).
Definition req_caller (r : Request) : Caller := match r with ReqBegin c | ReqStart c _ | ReqClose c _ => c end.
Definition requestValid (r : Request) : bool :=
  (0 <? cl_attempt (req_caller r)) && (0 <? cl_fence (req_caller r))
  && match r with ReqBegin _ => true | ReqStart _ id | ReqClose _ id => negb (bool_decide (id = "")) && (slen id <=? 128) end.
Definition admitRequest (r : Request) (presented : string) (now : Z) (s : CK) : option (Thread * CK) :=
  let c := req_caller r in
  if negb (requestValid r) then None
  else match (run_tx (authorizeCheckoutTx (cl_server c) presented (cl_attempt c) (cl_fence c) now) (wh_db (gh_web (ck_gh s)))).1 with
  | inl _ => None
  | inr a => Some (match r with ReqBegin _ => BeginReserve c a | ReqStart _ id => StartClaim c id | ReqClose _ id => CloseMatch c id end,
                   with_authorized ((c, a) :: ck_authorized s) s)
  end.

Definition mintable (id : string) (b : CheckoutBinding) : bool :=
  checkoutBindingValid b && bool_decide (cb_ReservationID b = id) && CloneURLValid b && (slen (cb_CommitSHA b) =? 40) && isLowerHex (cb_CommitSHA b).
(** [on_db m s]: the outcome of one transaction. *)
Definition on_db {A} (m : GHTx A) (s : CK) : (GHErr + A) * CK := let '(r, g) := run_tx m (ck_gh s) in (r, with_gh g s).

(** handleCheckoutBegin, once the request is authorized. *)
Definition beginStep (t : Thread) (mo : Moment) (s : CK) : option Thread * CK :=
  match t with
  | BeginReserve c a =>
      let '(r, s) := on_db (ReserveCheckout (ca_OwnerID a) (ca_ProjectID a) (ca_CommitSHA a) (mo_random mo) (mo_clock mo) (mo_now mo)) s in
      match r with
      | inl _ => (None, s)
      | inr v => if (cb_RepositoryID (cr_Binding v) =? ca_RepositoryID a) && bool_decide (cb_CommitSHA (cr_Binding v) = ca_CommitSHA a)
                 then (Some (BeginAdd c (cr_ID v)), s) else (Some (BeginDisagree (cr_ID v)), s)
      end
  | BeginDisagree id => (None, (on_db (CloseCheckout id (mo_now mo)) s).2)
  | BeginAdd c id => (None, with_entries (registryAdd id c (mo_clock mo) (ck_entries s)) s)
  | _ => (Some t, s)
  end.
(** [Activate]: its failures close the reservation. *)
Definition activateStep (t : Thread) (mo : Moment) (s : CK) : option Thread * CK :=
  match t with
  | StartBeginMint c id =>
      let '(r, s) := on_db (BeginMintAttempt id (mo_now mo)) s in
      match r with
      | inr b => if mintable id b then (Some (StartMint c id b), s) else (Some (StartFailed id), s)
      | inl _ => (Some (StartFailed id), s)
      end
  | StartMint c id b =>
      match mo_token mo with
      | Some t => if validCheckoutToken t (cb_RepositoryID b) (mo_clock mo) then (Some (StartActivate c id b t), s) else (Some (StartFailed id), s)
      | None => (Some (StartFailed id), s)
      end
  | StartActivate c id b t =>
      let '(r, s) := on_db (ActivateMintAttempt id b (mo_now mo)) s in
      match r with
      | inr _ => (Some (StartRegister c id b t), s)
      | inl _ => (Some (StartFailed id), s)
      end
  | StartRegister c id b t =>
      let n := length (ck_heap s) in
      let l := {| lz_token := ct_Value t; lz_binding := b; lz_expires := ct_ExpiresAt t; lz_delivered := false; lz_invalidated := false |} in
      (Some (StartLease c id n), with_active (<[cb_ReservationID b := n]> (ck_active s)) (with_heap (ck_heap s ++ [l]) s))
  | StartFailed id => (Some (StartRelease id), (on_db (CloseCheckout id (mo_now mo)) s).2)
  | _ => (Some t, s)
  end.
(** handleCheckoutStart around [Activate]. *)
Definition startStep (t : Thread) (mo : Moment) (s : CK) : option Thread * CK :=
  match t with
  | StartClaim c id =>
      let '(ok, m) := claimStart id c (mo_clock mo) (ck_entries s) in
      (if ok then Some (StartBeginMint c id) else None, with_entries m s)
  | StartLease c id n =>
      match ck_heap s !! n with
      | Some l => let '(ok, g) := leaseStart l (mo_now mo) (ck_gh s) in (Some (if ok then StartSet c id n else StartAbort id n), with_gh g s)
      | None => (None, s)
      end
  | StartAbort id n => (Some (StartRelease id), (leaseClose n (mo_now mo) (mo_revoked mo) s).2)
  | StartRelease id => (None, with_entries (releaseStart id (ck_entries s)) s)
  | StartSet c id n => (Some (StartDeliver c id n), with_entries (setLease id n (ck_entries s)) s)
  | StartDeliver c id n =>
      match l ← ck_heap s !! n; DeliverToken l with
      | Some (token, l') =>
          (None, with_delivered ({| dv_caller := c; dv_reservation := id; dv_token := token |} :: ck_delivered s) (with_heap (<[n := l']> (ck_heap s)) s))
      | None => (None, s)
      end
  | _ => (Some t, s)
  end.
(** handleCheckoutClose. *)
Definition closeStep (t : Thread) (mo : Moment) (s : CK) : option Thread * CK :=
  match t with
  | CloseMatch c id =>
      let s' := with_entries (sweepLocked (mo_clock mo) (ck_entries s)) s in
      match registryMatch id c (mo_clock mo) (ck_entries s) with
      | Some e => (if re_closed e then None else Some (CloseRun id (re_lease e)), s')
      | None => (None, s')
      end
  | CloseRun id (Some n) => let '(ok, s) := leaseClose n (mo_now mo) (mo_revoked mo) s in (if ok then Some (CloseMark id) else None, s)
  | CloseRun id None =>
      let '(r, s) := on_db (CloseCheckout id (mo_now mo)) s in (match r with inr _ => Some (CloseMark id) | inl _ => None end, s)
  | CloseMark id => (None, with_entries (markClosed id (ck_entries s)) s)
  | _ => (Some t, s)
  end.
(** One step of a request; it is over when there is no next one. *)
Definition threadStep (t : Thread) (mo : Moment) (s : CK) : option Thread * CK :=
  match t with
  | BeginReserve _ _ | BeginDisagree _ | BeginAdd _ _ => beginStep t mo s
  | StartBeginMint _ _ | StartMint _ _ _ | StartActivate _ _ _ _ | StartRegister _ _ _ _ | StartFailed _ => activateStep t mo s
  | StartClaim _ _ | StartLease _ _ _ | StartAbort _ _ | StartRelease _ | StartSet _ _ _ | StartDeliver _ _ _ => startStep t mo s
  | CloseMatch _ _ | CloseRun _ _ | CloseMark _ => closeStep t mo s
  end.

(** ** The system *)

Section system.
Context (errorText : Err → string).

Inductive ck_step : gmap nat Thread * CK → gmap nat Thread * CK → Prop :=
  | ck_call T s c : ck_step (T, s) (T, with_gh (ghExec errorText c (ck_gh s)) s)
  | ck_invalidate T s id : ck_step (T, s) (T, InvalidateCheckoutReservation id s)
  | ck_revoke T s n revoked : ck_step (T, s) (T, revokeLease n revoked s)
  | ck_request T s i r presented now t s' : T !! i = None → admitRequest r presented now s = Some (t, s') → ck_step (T, s) (<[i := t]> T, s')
  | ck_thread T s i t mo : T !! i = Some t →
      ck_step (T, s) (partial_alter (λ _, (threadStep t mo s).1) i T, (threadStep t mo s).2).

Inductive ck_reachable : gmap nat Thread → CK → Prop :=
  | ck_init g : gh_initial g → ck_reachable ∅ (Build_CK g [] ∅ ∅ [] [])
  | ck_next T s T' s' : ck_reachable T s → ck_step (T, s) (T', s') → ck_reachable T' s'.
End system.
