(* ===== verification/CheckoutScenario.v ===== *)
(** * An agent checks a commit out

    A push to the bound repository becomes a job, a server leases it, and the
    server's agent begins and starts its checkout: the input of the witness in
    [CheckoutProps]. *)
From S2P Require Import Prelude GoStd Base64 Token Queue Route Regex Schema Evidence LeaseCore Lease Enqueue LeaseSystem Scenario CallsKeep Webhooks WebhookSteps WebhookSystem WebhookProps Password Hmac AuthTokens AuthStore Throttle Sessions AuthInv AuthSystem AuthScenario GitHubApp GitHubStore GitHubRepo GitHubChain GitHubSteps GitHubSystem GitHubScenario Checkout.
#[local] Open Scope Z_scope.

(** The server and its credential are there from the start. *)
Definition agentTables : DB :=
  Build_DB {["server" := {| srv_owner := "owner-1"; srv_active := true |}]} (db_credentials db_empty) (db_sessions db_empty) ∅ ∅ ∅ ∅ ∅ ∅ (db_heads db_empty)
    [] [] [] (db_configs db_empty) (db_bindings db_empty) (db_secret_heads db_empty) (db_secret_versions db_empty) ∅ ∅ ∅ 1 1.
Definition agentWebhooks : WebhookDB :=
  {| wh_db := agentTables; wh_deliveries := ∅; wh_intents := ∅; wh_lifecycle := ∅; wh_payloads := ∅; wh_app_active := false;
     wh_installations := ∅; wh_repositories := ∅; wh_bindings := ∅; wh_next_delivery := 1; wh_next_intent := 1; wh_next_job := 1 |}.
Definition agentGitHub : GHDB := Build_GHDB agentWebhooks emptyAuthDB None ∅ ∅ ∅ ∅ 10000 ∅ ∅ ∅.
Definition agentBinding : GitBindingInput :=
  {| bi_ProjectID := "project"; bi_RepositoryID := 4; bi_Ref := "refs/heads/main"; bi_EnvironmentID := "env"; bi_ServerID := "server" |}.
Definition agentCalls : list GHCall :=
  verified ++ [ complete; GBind theAdministrator agentBinding "audit-bind" (atMinute 6); GWeb (WPush delivery_1 (examplePush aCommit) (atMinute 7));
                GWeb (WLease (CallEnsureSlots (atMinute 7) ["env"])); GWeb (WLease (claim 1 (atMinute 7))) ].

Inductive CkEvent := EvCall (c : GHCall) | EvRequest (i : nat) (r : Request) (presented : string) (now : Z) | EvThread (i : nat) (mo : Moment).
Definition ckExec (e : CkEvent) (x : gmap nat Thread * CK) : gmap nat Thread * CK :=
  let '(T, s) := x in
  match e with
  | EvCall c => (T, with_gh (ghExec plainText c (ck_gh s)) s)
  | EvRequest i r presented now =>
      if isSomeb (T !! i) then x else match admitRequest r presented now s with Some (t, s') => (<[i := t]> T, s') | None => x end
  | EvThread i mo => match T !! i with Some t => (partial_alter (λ _, (threadStep t mo s).1) i T, (threadStep t mo s).2) | None => x end
  end.
Definition freshCheckout : gmap nat Thread * CK := (∅, Build_CK agentGitHub [] ∅ ∅ [] []).
Definition ckRun (es : list CkEvent) : gmap nat Thread * CK := foldl (λ x e, ckExec e x) freshCheckout es.

Lemma ckExec_reachable e T s : ck_reachable plainText T s → ck_reachable plainText (ckExec e (T, s)).1 (ckExec e (T, s)).2.
Proof.
  intros H. destruct e as [c|i r presented now|i mo]; simpl.
  - by eapply ck_next, ck_call.
  - destruct (T !! i) eqn:Ei; [done|]. simpl. destruct (admitRequest _ _ _ _) as [[t s']|] eqn:Ea; [|done]. by eapply ck_next, ck_request.
  - destruct (T !! i) eqn:Ei; [|done]. by eapply ck_next, ck_thread.
Qed.
Lemma ckRun_reachable es : ck_reachable plainText (ckRun es).1 (ckRun es).2.
Proof.
  unfold ckRun. assert (ck_reachable plainText freshCheckout.1 freshCheckout.2) as H by (constructor; by split_and!).
  revert H. generalize freshCheckout. induction es as [|e es IH]; [done|]. intros [T s] H. simpl foldl.
  apply IH. by apply ckExec_reachable.
Qed.

Definition agent : Caller := {| cl_server := "server"; cl_attempt := 1; cl_fence := 1 |}.
Definition minted : CheckoutToken :=
  {| ct_Value := "ghs_secret"; ct_ExpiresAt := atMinute 60; ct_RepositoryIDs := [4]; ct_Contents := "read"; ct_Permissions := {["contents" := "read"]} |}.
Definition moment : Moment :=
  {| mo_now := atMinute 8; mo_clock := atMinute 8; mo_random := someRandomness; mo_token := Some minted; mo_revoked := true |}.
(** A second start of the same reservation arrives while the first is under way. *)
Definition checkoutEvents : list CkEvent :=
  (EvCall <$> agentCalls) ++
  [ EvRequest 1 (ReqBegin agent) "digest" (atMinute 7 + second); EvThread 1 moment; EvThread 1 moment;
    EvRequest 2 (ReqStart agent chosenID) "digest" (atMinute 7 + 2 * second); EvThread 2 moment; EvThread 2 moment;
    EvRequest 3 (ReqStart agent chosenID) "digest" (atMinute 7 + 3 * second); EvThread 3 moment ] ++
  replicate 6 (EvThread 2 moment).
Definition deliveries : list (Caller * string * string) :=
  (λ d, (dv_caller d, dv_reservation d, dv_token d)) <$> ck_delivered (ckRun checkoutEvents).2.
