(* ===== verification/CheckoutProps.v ===== *)
(** * What an agent's checkout guarantees

    Under any interleaving of requests, repository calls, invalidations and
    revocations: a reservation's token leaves in at most one response, and only
    towards a caller that was authorized for that repository and commit, after
    the reservation was marked running. *)
From S2P Require Import Prelude GoStd Base64 Token Queue Route Schema Evidence LeaseCore Lease Enqueue LeaseSystem CallsKeep Webhooks WebhookSteps WebhookSystem Password Hmac AuthTokens AuthStore GitHubApp GitHubStore GitHubRepo GitHubChain GitHubSteps GitHubSystem GitHubRuns GitHubInv GitHubSetup GitHubScenario GitHubProps Checkout CheckoutScenario.
#[local] Open Scope Z_scope.

(** ** Growth *)

(** What holds of a reservation or a lease once holds from then on. *)
Record grows (s s' : CK) : Prop := {
  gw_gh : gh_run (ck_gh s) (ck_gh s');
  gw_authorized : ∀ x, x ∈ ck_authorized s → x ∈ ck_authorized s';
  gw_heap : ∀ n l, ck_heap s !! n = Some l → ∃ l', ck_heap s' !! n = Some l' ∧ lz_binding l' = lz_binding l ∧ (lz_delivered l = true → lz_delivered l' = true);
}.
#[global] Instance grows_pre : PreOrder grows.
Proof.
  split; [by intros s; split; eauto|]. intros x y z [G1 A1 H1] [G2 A2 H2]. split; [by etrans|auto|]. intros n l (l'&Hl'&E&D)%H1.
  destruct (H2 n l' Hl') as (l''&?&?&?). exists l''. split_and!; [done|congruence|auto].
Qed.
(** No lease was added either. *)
Definition heap_kept (s s' : CK) : Prop := ∀ n l', ck_heap s' !! n = Some l' → ∃ l, ck_heap s !! n = Some l ∧ lz_binding l' = lz_binding l.

Definition reached (k : Z) (id : string) (s : CK) : Prop := ∃ r, gh_reservations (ck_gh s) !! id = Some r ∧ k ≤ stateRank (rv_state r).
(** The reservation is of the repository and commit the caller was authorized for. *)
Definition granted (s : CK) (c : Caller) (id : string) : Prop := ∃ a r, (c, a) ∈ ck_authorized s ∧ gh_reservations (ck_gh s) !! id = Some r ∧
  rv_owner r = ca_OwnerID a ∧ rv_project r = ca_ProjectID a ∧ rv_commit r = ca_CommitSHA a ∧ rv_repository r = ca_RepositoryID a.
Definition lease_of (s : CK) (n : nat) (id : string) : Prop := ∃ l, ck_heap s !! n = Some l ∧ cb_ReservationID (lz_binding l) = id.
Lemma reached_grows k id s s' : grows s s' → reached k id s → reached k id s'.
Proof. intros G (r&Hr&?). destruct (reservation_later _ _ _ _ (gw_gh _ _ G) Hr) as (r'&?&_&?). exists r'. split; [done|lia]. Qed.
Lemma granted_grows c id s s' : grows s s' → granted s c id → granted s' c id.
Proof.
  intros G (a&r&Ha&Hr&?&?&?&?). destruct (gm_reservations _ _ (gw_gh _ _ G) _ _ Hr) as (r'&Hr'&M). unfold reservation_moves in M. destruct_and! M.
  exists a, r'. split_and!; [by apply (gw_authorized _ _ G)|done|congruence..].
Qed.
Lemma lease_grows n id s s' : grows s s' → lease_of s n id → lease_of s' n id.
Proof. intros G (l&Hl&E). destruct (gw_heap _ _ G _ _ Hl) as (l'&?&?&_). exists l'. split; [done|congruence]. Qed.
#[export] Hint Resolve reached_grows granted_grows lease_grows : core.

(** ** The invariant *)

(** Who has the right to a reservation's token: a thread between its mint and
    its lease, or the lease. *)
Definition minting (t : Thread) : option string :=
  match t with StartMint _ id _ | StartActivate _ id _ _ | StartRegister _ id _ _ => Some id | _ => None end.
Definition Holds (T : gmap nat Thread) (s : CK) (h : nat + nat) (id : string) : Prop :=
  match h with inl i => ∃ t, T !! i = Some t ∧ minting t = Some id | inr n => lease_of s n id end.
Definition thread_ok (s : CK) (t : Thread) : Prop :=
  match t with
  | BeginReserve c a => (c, a) ∈ ck_authorized s
  | BeginAdd c id | StartBeginMint c id => granted s c id
  | StartMint c id b | StartActivate c id b _ | StartRegister c id b _ => granted s c id ∧ cb_ReservationID b = id
  | StartLease c id n => granted s c id ∧ lease_of s n id
  | StartSet c id n | StartDeliver c id n => granted s c id ∧ lease_of s n id ∧ reached 3 id s
  | _ => True
  end.
Record ck_inv (T : gmap nat Thread) (s : CK) : Prop := {
  ci_unique : ∀ h h' id, Holds T s h id → Holds T s h' id → h = h';
  ci_minted : ∀ h id, Holds T s h id → reached 1 id s;
  ci_thread : ∀ i t, T !! i = Some t → thread_ok s t;
  ci_entry : ∀ id e, ck_entries s !! id = Some e → granted s (re_caller e) id;
  ci_log : ∀ d, d ∈ ck_delivered s → granted s (dv_caller d) (dv_reservation d) ∧ reached 3 (dv_reservation d) s ∧
             ∃ n l, ck_heap s !! n = Some l ∧ cb_ReservationID (lz_binding l) = dv_reservation d ∧ lz_delivered l = true;
  ci_once : NoDup (dv_reservation <$> ck_delivered s);
}.
Lemma thread_grows s s' t : grows s s' → thread_ok s t → thread_ok s' t.
Proof. intros G. destruct t; simpl; try done; [apply (gw_authorized _ _ G)|..]; intros; destruct_and?; eauto 10. Qed.

Lemma log_grows s s' d : grows s s' →
  granted s (dv_caller d) (dv_reservation d) ∧ reached 3 (dv_reservation d) s ∧
    (∃ n l, ck_heap s !! n = Some l ∧ cb_ReservationID (lz_binding l) = dv_reservation d ∧ lz_delivered l = true) →
  granted s' (dv_caller d) (dv_reservation d) ∧ reached 3 (dv_reservation d) s' ∧
    ∃ n l, ck_heap s' !! n = Some l ∧ cb_ReservationID (lz_binding l) = dv_reservation d ∧ lz_delivered l = true.
Proof.
  intros G (?&?&n&l&Hl&E&Hd). split_and!; [eauto..|]. destruct (gw_heap _ _ G _ _ Hl) as (l'&?&?&?). exists n, l'. split_and!; [done|congruence|auto].
Qed.

Lemma at_thread (T : gmap nat Thread) i ot j t : partial_alter (λ _, ot) i T !! j = Some t → (j = i ∧ ot = Some t) ∨ (j ≠ i ∧ T !! j = Some t).
Proof.
  destruct (decide (i = j)) as [->|Hne]; [rewrite lookup_partial_alter_eq; by left|rewrite lookup_partial_alter_ne by done]. right. by split.
Qed.
(** A step that mints nothing and leases nothing. *)
Lemma inv_quiet T s s' i t ot : ck_inv T s → T !! i = Some t → grows s s' → heap_kept s s' →
  (∀ t' id, ot = Some t' → minting t' = Some id → minting t = Some id) → (∀ t', ot = Some t' → thread_ok s' t') →
  (∀ id e, ck_entries s' !! id = Some e → granted s' (re_caller e) id) → ck_delivered s' = ck_delivered s →
  ck_inv (partial_alter (λ _, ot) i T) s'.
Proof.
  intros [U M Th E L N] Hi G K Hm Ht He Hd.
  assert (∀ h id, Holds (partial_alter (λ _, ot) i T) s' h id → Holds T s h id) as Hback.
  { intros [j|n] id; simpl.
    - intros (x&[[-> Hx]|[_ Hx]]%at_thread&Hmx); [|by exists x]. exists t. split; [done|by eapply Hm].
    - intros (l'&Hl'&El). destruct (K n l' Hl') as (l&?&?). exists l. split; [done|congruence]. }
  split; [intros h h' id H1%Hback H2%Hback; by eapply U|intros h id H%Hback; eauto| |done| |by rewrite Hd].
  - intros j x [[-> Hx]|[_ Hx]]%at_thread; [by apply Ht|]. eapply thread_grows; [done|by eapply Th].
  - intros d. rewrite Hd. intros Hin. eapply log_grows; [done|by apply L].
Qed.

(** ** Steps *)

Lemma grows_db {A} (m : GHTx A) s r s' : tx_rel gh_run m → on_db m s = (r, s') → grows s s' ∧ ck_heap s' = ck_heap s ∧
  ck_entries s' = ck_entries s ∧ ck_delivered s' = ck_delivered s ∧ (∀ x, r = inr x → m (ck_gh s) = inr (x, ck_gh s')).
Proof.
  intros Hm. unfold on_db, run_tx. destruct (m (ck_gh s)) as [e|[x g]] eqn:E; intros [= <- <-].
  - split_and!; try done. by destruct s.
  - split_and!; try done; [|by intros ? [= <-]]. split; simpl; [by eapply Hm|done|eauto].
Qed.
Lemma run_rel {A} (m : GHTx A) : tx_rel gh_moves m → tx_rel gh_run m.
Proof. intros H g x g' E. apply (H _ _ _ E). Qed.
Lemma heap_kept_same s s' : ck_heap s' = ck_heap s → heap_kept s s'.
Proof. intros E n l. rewrite E. eauto. Qed.
Lemma kept_trans s1 s2 s3 : heap_kept s1 s2 → heap_kept s2 s3 → heap_kept s1 s3.
Proof. intros H1 H2 n l (l2&Hl2&E2)%H2. destruct (H1 _ _ Hl2) as (l1&?&?). exists l1. split; [done|congruence]. Qed.
(** A write of one lease that keeps its binding and never un-delivers it. *)
Lemma grows_lease s n f : (∀ l, lz_binding (f l) = lz_binding l ∧ (lz_delivered l = true → lz_delivered (f l) = true)) →
  let s' := with_heap (alter f n (ck_heap s)) s in grows s s' ∧ heap_kept s s'.
Proof.
  intros Hf. split.
  - split; simpl; [done|done|]. intros k l Hl. destruct (decide (k = n)) as [->|Hne]; [exists (f l); rewrite list_lookup_alter_eq, Hl; by destruct (Hf l)|].
    exists l. by rewrite list_lookup_alter_ne.
  - intros k l'. simpl. destruct (decide (k = n)) as [->|Hne]; [|rewrite list_lookup_alter_ne by done; eauto].
    rewrite list_lookup_alter_eq. intros (l&Hl&->)%fmap_Some. exists l. split; [done|]. apply Hf.
Qed.
Lemma lease_revoke_keeps b l : lz_binding (Revoke b l) = lz_binding l ∧ (lz_delivered l = true → lz_delivered (Revoke b l) = true).
Proof. unfold Revoke. by repeat case_match. Qed.
Lemma leaseClose_keeps n now b s ok s' : leaseClose n now b s = (ok, s') →
  grows s s' ∧ heap_kept s s' ∧ ck_entries s' = ck_entries s ∧ ck_delivered s' = ck_delivered s.
Proof.
  unfold leaseClose. destruct (ck_heap s !! n) as [l|] eqn:El; [|intros [= _ <-]; split_and!; try done; by apply heap_kept_same].
  cbv zeta. destruct (if bool_decide _ then _ else _) as [closed g] eqn:Eg. intros [= _ <-].
  assert (gh_run (ck_gh s) g) as Hg.
  { destruct (bool_decide _) in Eg; [by injection Eg as _ <-|]. destruct (run_tx _ _) as [r g'] eqn:Er. injection Eg as _ <-.
    pose proof (run_moves gh_run (CloseCheckout (cb_ReservationID (lz_binding l)) now) (ck_gh s) (run_rel _ (moves_CloseCheckout _ _))) as H. by rewrite Er in H. }
  assert (<[n:=Revoke b l]> (ck_heap s) = alter (Revoke b) n (ck_heap s)) as ->.
  { apply list_eq. intros k. destruct (decide (k = n)) as [->|Hne]; [|by rewrite list_lookup_insert_ne, list_lookup_alter_ne].
    rewrite list_lookup_alter_eq, list_lookup_insert_eq by (by eapply lookup_lt_Some). by rewrite El. }
  destruct (grows_lease s n (Revoke b) (lease_revoke_keeps b)) as [[_ _ Hh] K]. split_and!; try done.
Qed.

Section steps.
Context (errorText : Err → string).
Implicit Types (s : CK) (T : gmap nat Thread).

(** Steps of the environment. *)
Lemma inv_ambient T s s' : ck_inv T s → grows s s' → heap_kept s s' → ck_entries s' = ck_entries s → ck_delivered s' = ck_delivered s → ck_inv T s'.
Proof.
  intros [U M Th E L N] G K He Hd.
  assert (∀ h id, Holds T s' h id → Holds T s h id) as Hback.
  { intros [j|n] id; [done|]. intros (l'&Hl'&El). destruct (K n l' Hl') as (l&?&?). exists l. split; [done|congruence]. }
  split; [intros h h' id H1%Hback H2%Hback; by eapply U|intros h id H%Hback; eauto| | | |by rewrite Hd].
  - intros i t Hi. eapply thread_grows; [done|by eapply Th].
  - intros id e. rewrite He. eauto.
  - intros d. rewrite Hd. intros Hin. eapply log_grows; [done|by apply L].
Qed.
Lemma invalidate_keeps id s : let s' := InvalidateCheckoutReservation id s in
  grows s s' ∧ heap_kept s s' ∧ ck_entries s' = ck_entries s ∧ ck_delivered s' = ck_delivered s.
Proof.
  unfold InvalidateCheckoutReservation. destruct (_ ≫= _) as [[n l]|] eqn:E; [|split_and!; try done; by apply heap_kept_same].
  apply bind_Some in E as (k&_&(l'&Hl&[= -> ->])%bind_Some).
  assert (<[n:=invalidate l]> (ck_heap s) = alter invalidate n (ck_heap s)) as ->.
  { apply list_eq. intros k. destruct (decide (k = n)) as [->|Hne]; [|by rewrite list_lookup_insert_ne, list_lookup_alter_ne].
    rewrite list_lookup_alter_eq, list_lookup_insert_eq by (by eapply lookup_lt_Some). by rewrite Hl. }
  destruct (grows_lease s n invalidate ltac:(done)) as [G K]. by split_and!.
Qed.

(** Registry operations keep the callers. *)
Definition from_old (m m' : gmap string RegistryEntry) : Prop := ∀ id e', m' !! id = Some e' → ∃ e, m !! id = Some e ∧ re_caller e' = re_caller e.
Lemma old_sweep clock m : from_old m (sweepLocked clock m).
Proof. intros id e [H _]%map_lookup_filter_Some. eauto. Qed.
Lemma old_alter f id m : (∀ e, re_caller (f e) = re_caller e) → from_old m (alter f id m).
Proof.
  intros Hf k e'. destruct (decide (id = k)) as [->|Hne]; [|rewrite lookup_alter_ne by done; eauto]. rewrite lookup_alter_eq. intros (e&He&->)%fmap_Some. eauto.
Qed.
Lemma old_claim id c clock m ok m' : claimStart id c clock m = (ok, m') → from_old m m' ∧ (ok = true → ∃ e, m !! id = Some e ∧ re_caller e = c).
Proof.
  unfold claimStart. destruct (sweepLocked clock m !! id) as [e|] eqn:E; [|intros [= <- <-]; split; [apply old_sweep|done]].
  destruct (_ && _ && _) eqn:Ec; intros [= <- <-]; [|split; [apply old_sweep|done]]. bool_hyps. split.
  - intros k e' [[<- <-]|[_ Hk]]%lookup_insert_Some; [simpl|by apply old_sweep in Hk]. by apply old_sweep in E.
  - intros _. apply map_lookup_filter_Some in E as [E _]. eauto.
Qed.
Lemma entries_old s s' m : (∀ id e, ck_entries s !! id = Some e → granted s (re_caller e) id) → grows s s' → from_old (ck_entries s) m →
  ∀ id e, m !! id = Some e → granted s' (re_caller e) id.
Proof. intros E G O id e (e0&He&Ec)%O. rewrite Ec. eauto. Qed.

(** A request's transaction and nothing else. *)
Lemma inv_db {A} (m : GHTx A) T s i t (next : GHErr + A → option Thread) : ck_inv T s → T !! i = Some t → tx_rel gh_moves m →
  (∀ r t' id, next r = Some t' → minting t' = Some id → minting t = Some id) →
  (∀ r s' t', on_db m s = (r, s') → grows s s' → (∀ x, r = inr x → m (ck_gh s) = inr (x, ck_gh s')) → next r = Some t' → thread_ok s' t') →
  ck_inv (partial_alter (λ _, next (on_db m s).1) i T) (on_db m s).2.
Proof.
  intros I Hi Hm Hmint Hok. destruct (on_db m s) as [r s'] eqn:E. destruct (grows_db m s r s' (run_rel _ Hm) E) as (G&Eh&Ee&Ed&Hr). simpl.
  eapply inv_quiet; [done|done|done|by apply heap_kept_same|by apply Hmint| |rewrite Ee|done].
  - intros t' Ht. eapply (Hok r s'); done.
  - intros id e He. eapply granted_grows; [done|by eapply (ci_entry _ _ I)].
Qed.
Lemma inv_registry T s i t m ot : ck_inv T s → T !! i = Some t → from_old (ck_entries s) m →
  (∀ t', ot = Some t' → minting t' = None ∧ thread_ok s t') → ck_inv (partial_alter (λ _, ot) i T) (with_entries m s).
Proof.
  intros I Hi Ho Ht. assert (grows s (with_entries m s)) as G by (split; simpl; eauto; done). eapply inv_quiet; [done|done|done|by apply heap_kept_same| | | |done].
  - intros t' id E Em. destruct (Ht t' E). congruence.
  - intros t' E. eapply thread_grows; [done|by apply Ht].
  - eapply entries_old; [by apply I|done|done].
Qed.

(** The steps that mint and lease. *)
Lemma reserve_granted c a mo s v s' : (c, a) ∈ ck_authorized s → grows s s' →
  ReserveCheckout (ca_OwnerID a) (ca_ProjectID a) (ca_CommitSHA a) (mo_random mo) (mo_clock mo) (mo_now mo) (ck_gh s) = inr (v, ck_gh s') →
  cb_RepositoryID (cr_Binding v) = ca_RepositoryID a → granted s' c (cr_ID v).
Proof.
  intros Ha G (id&b&rv&Hs&Hid&Hb&_&_&_&E)%ReserveCheckout_run Hrep. apply snapshot_facts in Hs as (Eo&Ep&_). rewrite Hb in Hrep. simpl in Hrep.
  exists a, (reservationOf b (ca_CommitSHA a) (mo_now mo)). split; [by apply (gw_authorized _ _ G)|].
  rewrite Hid, E. split; [apply lookup_insert_eq|]. simpl. split_and!; congruence.
Qed.
Lemma inv_begin_mint T s i c id now : ck_inv T s → T !! i = Some (StartBeginMint c id) →
  ck_inv (partial_alter (λ _, match (on_db (BeginMintAttempt id now) s).1 with
    | inr b => Some (if mintable id b then StartMint c id b else StartFailed id) | inl _ => Some (StartFailed id) end) i T) (on_db (BeginMintAttempt id now) s).2.
Proof.
  intros I Hi. destruct (on_db (BeginMintAttempt id now) s) as [r s'] eqn:E. destruct (grows_db _ _ _ _ (run_rel _ (moves_BeginMintAttempt id now)) E) as (G&Eh&Ee&Ed&Hr).
  simpl. pose proof (ci_thread _ _ I _ _ Hi) as Hok. simpl in Hok.
  destruct r as [e|b].
  { apply (inv_quiet T s s' i _ _ I Hi G (heap_kept_same _ _ Eh)); [by intros ? ? [= <-]|by intros ? [= <-]|rewrite Ee; intros ? ? ?%(ci_entry _ _ I); eauto|done]. }
  destruct (mintable id b) eqn:Em.
  2: { apply (inv_quiet T s s' i _ _ I Hi G (heap_kept_same _ _ Eh)); [by intros ? ? [= <-]|by intros ? [= <-]|rewrite Ee; intros ? ? ?%(ci_entry _ _ I); eauto|done]. }
  destruct (BeginMintAttempt_run _ _ _ _ _ (Hr b eq_refl)) as (x&Hx&Est&_&_&_&Hx').
  assert (∀ h, Holds T s h id → False) as Hfree.
  { intros h (y&Hy&Hrank)%(ci_minted _ _ I). assert (y = x) as -> by congruence. rewrite Est in Hrank. simpl in Hrank. lia. }
  assert (reached 1 id s') as Hreach by (exists (mint_reservation x); split; [done|simpl; lia]).
  destruct I as [U M Th Eo L N].
  assert (∀ h k, Holds (partial_alter (λ _, Some (StartMint c id b)) i T) s' h k → (h = inl i ∧ k = id) ∨ Holds T s h k) as Hback.
  { intros [j|n] k; simpl; [|unfold lease_of; rewrite Eh; by right]. intros (t&[[-> [= <-]]|[_ Ht]]%at_thread&Hm); [injection Hm as <-; by left|right; eauto]. }
  split.
  - intros h h' k [[-> ->]|H1]%Hback [[-> E']|H2]%Hback; [done|by destruct (Hfree h')|subst k; by destruct (Hfree h)|by eapply U].
  - intros h k [[-> ->]|H]%Hback; [done|eauto].
  - intros j t [[-> [= <-]]|[_ Ht]]%at_thread; [|eapply thread_grows; [done|by eapply Th]]. unfold mintable in Em. bool_hyps. simpl. eauto.
  - intros k e. rewrite Ee. eauto.
  - intros d. rewrite Ed. intros Hin. eapply log_grows; [done|by apply L].
  - by rewrite Ed.
Qed.
Lemma inv_register T s i c id b t mo : ck_inv T s → T !! i = Some (StartRegister c id b t) →
  ck_inv (partial_alter (λ _, (threadStep (StartRegister c id b t) mo s).1) i T) (threadStep (StartRegister c id b t) mo s).2.
Proof.
  intros I Hi. pose proof (ci_thread _ _ I _ _ Hi) as [Hg Hb]. simpl. set (l := Build_CheckoutLease _ _ _ _ _). set (s' := with_active _ _).
  assert (ck_heap s' = ck_heap s ++ [l]) as Eh by done.
  assert (grows s s') as G by (split; simpl; [done|done|]; intros n x Hx; exists x; split; [by apply lookup_app_l_Some|done]).
  assert (∀ n k, lease_of s' n k → lease_of s n k ∨ (n = length (ck_heap s) ∧ k = id)) as Hlease.
  { intros n k (x&Hx&Ek). rewrite Eh in Hx. apply lookup_app_Some in Hx as [Hx|[Hge Hx]]; [left; by exists x|right].
    apply list_lookup_singleton_Some in Hx as [Hn <-]. simpl in Ek. split; [lia|congruence]. }
  destruct I as [U M Th Eo L N].
  (* the thread's right becomes the lease's *)
  assert (∀ h k, Holds (partial_alter (λ _, Some (StartLease c id (length (ck_heap s)))) i T) s' h k →
    (h = inr (length (ck_heap s)) ∧ k = id) ∨ (Holds T s h k ∧ h ≠ inl i)) as Hback.
  { intros [j|n] k; simpl.
    - intros (x&[[-> [= <-]]|[Hne Hx]]%at_thread&Hm); [done|]. right. split; [eauto|congruence].
    - intros [H|[-> ->]]%Hlease; [by right|by left]. }
  assert (Holds T s (inl i) id) as Hi' by (exists (StartRegister c id b t); by split).
  split.
  - intros h h' k [[-> ->]|[H1 Hn1]]%Hback [[-> E']|[H2 Hn2]]%Hback; [done|destruct Hn2; by eapply U|subst k; destruct Hn1; by eapply U|by eapply U].
  - intros h k [[-> ->]|[H _]]%Hback; [|eauto]. eapply reached_grows; [done|by eapply M].
  - intros j x [[-> [= <-]]|[_ Hx]]%at_thread; [|eapply thread_grows; [done|by eapply Th]]. simpl. split; [eauto|]. exists l. split; [|done].
    rewrite Eh. by apply list_lookup_middle.
  - intros k e He. eapply granted_grows; [done|by apply Eo].
  - intros d Hin. eapply log_grows; [done|by apply L].
  - done.
Qed.
Lemma inv_deliver T s i c id n mo : ck_inv T s → T !! i = Some (StartDeliver c id n) →
  ck_inv (partial_alter (λ _, (threadStep (StartDeliver c id n) mo s).1) i T) (threadStep (StartDeliver c id n) mo s).2.
Proof.
  intros I Hi. pose proof (ci_thread _ _ I _ _ Hi) as (Hg&(l&Hl&El)&Hr). simpl. rewrite Hl. simpl. unfold DeliverToken.
  assert (ck_inv (partial_alter (λ _, None) i T) s) as I'.
  { eapply inv_quiet; [done|done|done|by apply heap_kept_same|done|done|apply I|done]. }
  destruct (tokenAvailable l) eqn:Ed; [|done]. simpl. unfold tokenAvailable in Ed. bool_hyps.
  set (f := λ l, lz_set (lz_token l) true (lz_invalidated l) l). set (d := Build_TokenDelivery _ _ _).
  destruct (grows_lease s n f ltac:(done)) as [G K].
  assert (<[n:=lz_set (lz_token l) true (lz_invalidated l) l]> (ck_heap s) = alter f n (ck_heap s)) as ->.
  { apply list_eq. intros k. destruct (decide (k = n)) as [->|Hne]; [|by rewrite list_lookup_insert_ne, list_lookup_alter_ne].
    rewrite list_lookup_alter_eq, list_lookup_insert_eq by (by eapply lookup_lt_Some). by rewrite Hl. }
  pose proof (inv_ambient _ _ _ I' G K eq_refl eq_refl) as [U M Th Eo L N].
  split; [exact U|exact M|exact Th|exact Eo| |].
  - intros x [->|Hx]%elem_of_cons; [|by apply L]. simpl. split; [exact Hg|]. split; [exact Hr|]. exists n, (f l). split; [|done].
    simpl. by rewrite list_lookup_alter_eq, Hl.
  - simpl. constructor; [|done]. intros (x&Ex&Hx)%list_elem_of_fmap. destruct (ci_log _ _ I x Hx) as (_&_&n'&l'&Hl'&Ei&Hdel).
    assert (inr n = inr n' :> nat + nat) as [= <-] by (eapply (ci_unique _ _ I); [by exists l|by exists l'; rewrite Ei, <-Ex]). congruence.
Qed.

Lemma inv_lease T s i c id n mo : ck_inv T s → T !! i = Some (StartLease c id n) →
  ck_inv (partial_alter (λ _, (threadStep (StartLease c id n) mo s).1) i T) (threadStep (StartLease c id n) mo s).2.
Proof.
  intros I Hi. pose proof (ci_thread _ _ I _ _ Hi) as [Hg (l&Hl&El)]. simpl. rewrite Hl. unfold leaseStart. rewrite El.
  destruct (bool_decide (id = "") || negb (tokenAvailable l)) eqn:Eb; simpl.
  { eapply inv_quiet; [done|done|split; simpl; eauto; done|by apply heap_kept_same|by intros ? ? [= <-]|by intros ? [= <-]|apply I|done]. }
  destruct (run_tx (StartCheckout id (lz_binding l) (mo_now mo)) (ck_gh s)) as [r g] eqn:Er. simpl.
  assert (grows s (with_gh g s)) as G.
  { split; simpl; [|done|eauto]. pose proof (run_moves gh_run (StartCheckout id (lz_binding l) (mo_now mo)) (ck_gh s) (run_rel _ (moves_StartCheckout _ _ _))) as H.
    by rewrite Er in H. }
  eapply inv_quiet; [done|done|done|by apply heap_kept_same| | | |done].
  - intros t' k [= <-]. by destruct r.
  - intros t' [= <-]. destruct r as [e|u]; [done|]. simpl. split; [eauto|]. split; [by exists l|]. unfold run_tx in Er.
    destruct (StartCheckout _ _ _ _) as [|[u' g']] eqn:Ec; [done|]. injection Er as _ <-. apply StartCheckout_run in Ec as [_ (x&_&_&_&Hx)].
    exists (move_reservation RRunning x). split; [done|simpl; lia].
  - intros k e He. eapply granted_grows; [done|by eapply (ci_entry _ _ I)].
Qed.

Lemma inv_thread T s i t mo : ck_inv T s → T !! i = Some t → ck_inv (partial_alter (λ _, (threadStep t mo s).1) i T) (threadStep t mo s).2.
Proof.
  intros I Hi. pose proof (ci_thread _ _ I _ _ Hi) as Hok. destruct t.
  - pose (agrees := λ v, (cb_RepositoryID (cr_Binding v) =? ca_RepositoryID a) && bool_decide (cb_CommitSHA (cr_Binding v) = ca_CommitSHA a)).
    pose (next := λ r : GHErr + CheckoutReservation, match r with inl _ => None
      | inr v => Some (if agrees v then BeginAdd c (cr_ID v) else BeginDisagree (cr_ID v)) end).
    pose proof (inv_db _ T s i _ next I Hi (moves_ReserveCheckout (ca_OwnerID a) (ca_ProjectID a) (ca_CommitSHA a) (mo_random mo) (mo_clock mo) (mo_now mo))) as H.
    unfold next in H. ospecialize (H _ _).
    { intros [|v] t' id; [done|]. intros [= <-]. by destruct (agrees v). }
    { intros [|v] s' t' _ G Hr; [done|]. intros [= <-]. destruct (agrees v) eqn:Ec; [|done]. unfold agrees in Ec. bool_hyps. simpl. eapply reserve_granted; eauto. }
    simpl. destruct (on_db _ s) as [[e|v] s']; simpl in *; [done|]. unfold agrees in H. by destruct (_ && _).
  - simpl. eapply inv_quiet; [done|done|split; simpl; eauto; done|by apply heap_kept_same|done|done| |done].
    unfold registryAdd. simpl. intros k e [[<- <-]|[_ He]]%lookup_insert_Some; [done|]. apply old_sweep in He as (e0&He&->). by eapply (ci_entry _ _ I).
  - simpl. by apply (inv_db (CloseCheckout id (mo_now mo)) _ _ _ _ (λ _, None) I Hi (moves_CloseCheckout _ _)).
  - simpl. destruct (claimStart _ _ _ _) as [ok m] eqn:Ec. apply old_claim in Ec as [Ho Hc]. simpl. apply (inv_registry _ _ _ _ _ _ I Hi Ho).
    destruct ok; [|done]. intros t' [= <-]. split; [done|]. destruct (Hc eq_refl) as (e&He&<-). by eapply (ci_entry _ _ I).
  - simpl. pose proof (inv_begin_mint T s i c id (mo_now mo) I Hi) as H. destruct (on_db _ s) as [[e|b] s']; [done|]. simpl in *. by destruct (mintable id b).
  - simpl. destruct Hok as [Hg Hb].
    assert (∀ t', (t' = StartFailed id ∨ ∃ tok, t' = StartActivate c id b tok) → ck_inv (partial_alter (λ _, Some t') i T) s) as H.
    { intros t' Ht'. eapply inv_quiet; [done|done|done|by apply heap_kept_same| | |apply I|done].
      - intros x k [= <-]. by destruct Ht' as [->|[tok ->]].
      - intros x [= <-]. by destruct Ht' as [->|[tok ->]]. }
    destruct (mo_token mo) as [tok|]; [destruct (validCheckoutToken _ _ _)|]; apply H; eauto.
  - simpl. destruct Hok as [Hg Hb]. pose proof (inv_db (ActivateMintAttempt id b (mo_now mo)) T s i _
      (λ r, Some (match r with inr _ => StartRegister c id b t | inl _ => StartFailed id end)) I Hi (moves_ActivateMintAttempt _ _ _)) as H.
    destruct (on_db _ s) as [r s'] eqn:E. simpl in H.
    assert (ck_inv (partial_alter (λ _, Some (match r with inr _ => StartRegister c id b t | inl _ => StartFailed id end)) i T) s') as H'; [|by destruct r].
    apply H; [intros [|] ? ? [= <-]; done|]. intros r0 s2 t' _ G _ [= <-]. destruct r0; [done|]. simpl. eauto.
  - by apply inv_register.
  - simpl. by apply (inv_db (CloseCheckout id (mo_now mo)) _ _ _ _ (λ _, Some (StartRelease id)) I Hi (moves_CloseCheckout _ _)); [intros ? ? ? [= <-]|intros ? ? ? _ _ _ [= <-]].
  - simpl. apply (inv_registry _ _ _ _ _ _ I Hi); [apply old_alter; intros e; by case_match|done].
  - by apply inv_lease.
  - simpl. destruct (leaseClose _ _ _ _) as [ok s'] eqn:E. apply leaseClose_keeps in E as (G&K&Ee&Ed). simpl.
    eapply inv_quiet; [done|done|done|done|by intros ? ? [= <-]|by intros ? [= <-]|rewrite Ee; intros ? ? ?%(ci_entry _ _ I); eauto|done].
  - simpl. destruct Hok as (?&?&?). apply (inv_registry _ _ _ _ _ _ I Hi); [by apply old_alter|]. intros t' [= <-]. by split_and!.
  - by apply inv_deliver.
  - simpl. destruct (registryMatch _ _ _ _) as [e|]; simpl; apply (inv_registry _ _ _ _ _ _ I Hi (old_sweep _ _)); [|done]. case_match; [done|]. by intros t' [= <-].
  - destruct lease as [n|]; simpl.
    + destruct (leaseClose _ _ _ _) as [ok s'] eqn:E. apply leaseClose_keeps in E as (G&K&Ee&Ed). simpl.
      eapply inv_quiet; [done|done|done|done|by destruct ok; [intros ? ? [= <-]|]|by destruct ok; [intros ? [= <-]|]|rewrite Ee; intros ? ? ?%(ci_entry _ _ I); eauto|done].
    + pose proof (inv_db (CloseCheckout id (mo_now mo)) T s i _ (λ r, match r with inr _ => Some (CloseMark id) | inl _ => None end) I Hi (moves_CloseCheckout _ _)) as H.
      destruct (on_db _ s) as [r s'] eqn:E. simpl in *. apply H; [intros [|] ? ? [= <-]; done|]. intros [|] ? ? _ _ _ [= <-]; done.
  - simpl. apply (inv_registry _ _ _ _ _ _ I Hi); [by apply old_alter|done].
Qed.

Lemma inv_request T s i r presented now t s' : ck_inv T s → T !! i = None → admitRequest r presented now s = Some (t, s') → ck_inv (<[i := t]> T) s'.
Proof.
  intros I Hi. unfold admitRequest. destruct (negb _); [done|]. destruct (run_tx _ _).1 as [|a]; [done|]. intros [= <- <-].
  set (s' := with_authorized _ s). assert (grows s s') as G by (split; simpl; [done|intros x Hx; by apply elem_of_cons; right|eauto]).
  pose proof (inv_ambient _ _ _ I G (heap_kept_same s s' eq_refl) eq_refl eq_refl) as [U M Th Eo L N].
  set (t := match r with ReqBegin _ => _ | _ => _ end). assert (minting t = None) as Hm by (unfold t; by destruct r).
  assert (∀ h k, Holds (<[i := t]> T) s' h k → Holds T s' h k) as Hback.
  { intros [j|n] k; [|done]. intros (x&[[<- <-]|[_ Hx]]%lookup_insert_Some&Hmx); [congruence|by exists x]. }
  split; [intros h h' k ?%Hback ?%Hback; by eapply U|intros h k ?%Hback; eauto| |done|done|done].
  intros j x [[<- <-]|[_ Hx]]%lookup_insert_Some; [|by eapply Th]. unfold t. destruct r; simpl; [|done|done]. apply elem_of_cons. by left.
Qed.

Lemma ck_inv_step T s T' s' : ck_inv T s → ck_step errorText (T, s) (T', s') → ck_inv T' s'.
Proof.
  intros I H. inversion H; subst.
  - apply (inv_ambient _ s); [done| |by apply heap_kept_same|done|done]. split; simpl; [apply exec_run|done|eauto].
  - destruct (invalidate_keeps id s) as (?&?&?&?). by apply (inv_ambient _ s).
  - destruct (grows_lease s n (Revoke revoked) (lease_revoke_keeps revoked)) as [? ?]. by apply (inv_ambient _ s).
  - by eapply inv_request.
  - by apply inv_thread.
Qed.
Lemma ck_reachable_inv T s : ck_reachable errorText T s → ck_inv T s.
Proof.
  induction 1 as [g Hg|T s T' s' _ IH Hs]; [|by eapply ck_inv_step].
  assert (∀ h k, ¬ Holds ∅ (Build_CK g [] ∅ ∅ [] []) h k) as Hno by (intros [i|n] k; [intros (t&Ht&_); done|intros (l&Hl&_); done]).
  split; [intros h h' k Hh; by destruct (Hno h k)|intros h k Hh; by destruct (Hno h k)|done|done| |constructor].
  intros d Hd. by apply elem_of_nil in Hd.
Qed.
End steps.

(** C23: A checkout token leaves at most once and only for what was authorized.
    Whatever requests, retries and concurrent starts agents send, and whatever
    repository calls, invalidations and revocations happen in between, no two
    responses carry a token of the same reservation; and each one that does
    went to a server, attempt and fence that had been authorized for a job of
    exactly the reservation's owner, project, repository and commit, with the
    reservation marked running or already ended. *)
Theorem checkout_token_delivered_once errorText T s : ck_reachable errorText T s →
  NoDup (dv_reservation <$> ck_delivered s) ∧
  ∀ d, d ∈ ck_delivered s → ∃ a r, (dv_caller d, a) ∈ ck_authorized s ∧ gh_reservations (ck_gh s) !! dv_reservation d = Some r ∧
    rv_owner r = ca_OwnerID a ∧ rv_project r = ca_ProjectID a ∧ rv_repository r = ca_RepositoryID a ∧ rv_commit r = ca_CommitSHA a ∧
    rv_state r ∈ [RRunning; RConsumed; RInvalidated; RExpired].
Proof.
  intros I%ck_reachable_inv. split; [by apply (ci_once _ _ I)|]. intros d Hd. destruct (ci_log _ _ I d Hd) as ((a&r&?&Hr&?&?&?&?)&(r'&Hr'&Hk)&_).
  exists a, r. split_and!; try done. assert (r' = r) as -> by congruence. destruct (rv_state r); simpl in Hk; first [lia|set_solver].
Qed.

Lemma checkout_token_delivered_once_witness :
  length (ck_delivered (ckRun checkoutEvents).2) = 1%nat ∧ NoDup (dv_reservation <$> ck_delivered (ckRun checkoutEvents).2).
Proof.
  split; [vm_compute; reflexivity|]. exact (proj1 (checkout_token_delivered_once plainText _ _ (ckRun_reachable checkoutEvents))).
Defined.
